(* ===== verification/_CoqProject ===== *)
-Q . S2P
Prelude.v
Arm64.v
Arm64Enc.v
IsaEmul.v
IsaEnc.v
IsaIsland.v
IsaIslandRun.v
IsaIslandMain.v
IsaCas.v
IsaPatch.v
IsaTheorems.v
IsaText.v
CStr.v
Host.v
GuestVm.v
GuestCpus.v
HashChain.v
BindSlots.v
Macho.v
SymIndex.v
SymExtent.v
Loader.v
GateIsland.v
GateDispatch.v
GateTheorems.v
DarwinAbi.v
DarwinAbiTheorems.v
Range000.v
Range000Theorems.v
Range000Sockets.v
Range000Signals.v
Range000Select.v
GatePatch.v
MainPool.v
Patcher.v
PatcherSyntax.v
GuestStack.v
Config.v
ResolveNames.v
Leb128.v
Thunks.v
Resolve.v
ResolveInv.v
ResolveAgree.v
ResolveDeferred.v
Fixups.v
FixupsImage.v
ResolveFixups.v
DylibLoader.v
DylibLoaderTheorems.v
DyldRebase.v
DyldBind.v
DyldBindRun.v
ResolveDyld.v
EhEmit.v
EhDwarf.v
EhFde.v
EhParse.v
EhCollect.v
EhFrame.v
EhIndex.v
EhRoundTrip.v
ResolveSetup.v
Trampoline.v
StartupCache.v
Range100.v
Range200.v
Range200Sem.v
Range200Aio.v
Range200Files.v
Range200Attr.v
Range200Calls.v
Execve.v
Range100Theorems.v
Range400.v
Range400Tables.v
Range400Sockets.v
Range400Files.v
Range400Calls.v
GateWhole.v
