(* ===== verification/Prelude.v ===== *)
(** * MachGate: a verification library

    MachGate runs Apple Silicon Mach-O command-line programs on ARM64 Linux.
    It maps the image, binds its imports to Linux libraries, rewrites the
    instructions the host lacks, redirects Darwin system calls, applies patch
    files, registers unwind tables and jumps to the entry point.  This library
    models the parts of src/src that carry that work and proves what they
    guarantee.

    ** Parts and files

    Foundations.
    - Prelude.v: machine integers, bit operators, byte memory, automation.
    - CStr.v: C strings.  Leb128.v: byte strings, LEB128 readers and emitters.
    - Host.v: the Linux kernel as a parameter.  HashChain.v: hash buckets with
      index chains.
    - Arm64.v: decoder and meaning of the A64 instructions that are generated
      or replaced.  Arm64Enc.v: arm64_enc.h.

    Loading.
    - Macho.v: decoded load commands, the adjacent pool (macho_defs.h,
      loader.h).
    - Loader.v: [load64] (loader.c) and [setup_space]
      (machgate.c).
    - DylibLoader.v, DylibLoaderTheorems.v: Mach-O libraries (dylib_loader.c).
    - GuestStack.v: the first stack of the guest (stack.c).  Config.v: the
      configuration file (config.c).
    - StartupCache.v: the file of earlier results
      (startup_cache.c).

    Instructions the host lacks: isa_emul.c.
    - IsaEmul.v: encoders, decoders, island generators, the patching loop.
    - IsaEnc.v, IsaIsland.v, IsaIslandRun.v, IsaIslandMain.v, IsaCas.v,
      IsaPatch.v: the lemmas; IsaTheorems.v, IsaText.v: the theorems.
    - MainPool.v: size and place of the island pool (machgate.c).

    System calls: syscall/syscall_gate.c, guest_vm_track.c, guest_vm_dispatch.c,
    guest_cpus.c.
    - GateIsland.v: the code that replaces an [svc].  GateDispatch.v: the
      dispatcher.  GateTheorems.v.
    - GatePatch.v: pools and the rewriting of the text.
    - GuestVm.v: the table of small mappings.  GuestCpus.v.
    - DarwinAbi.v, DarwinAbiTheorems.v: the translation of structures and
      numbers the calls share.  Range000.v: the calls 0 to 99
      (syscall_range_000_099.c); Range000Theorems.v, Range000Signals.v,
      Range000Sockets.v, Range000Select.v: what they answer.
    - Range100.v: the calls 100 to 199 (syscall_range_100_199.c);
      Range100Theorems.v: what they answer.
    - The calls 200 to 399 (syscall_range_200_399.c), definitions and theorems
      together: Range200.v (statics of the file, System V, audit, sysctl,
      credentials, signals, psynch), Range200Sem.v (named semaphores),
      Range200Aio.v (asynchronous requests), Range200Files.v (stat, mounts,
      directories, extended attributes, kqueue), Range200Attr.v (attribute
      lists, copyfile, fsgetpath, searchfs), Range200Calls.v (proc_info and the
      switch).
    - The calls 400 to 557 (syscall_range_400_plus.c): Range400.v (error numbers,
      guarded descriptors, ports of files, workloops), Range400Tables.v (what the
      tables promise), Range400Sockets.v (messages, connectx, select, fcntl,
      ulock), Range400Files.v (attribute lists, clones, names relative to a
      directory), Range400Calls.v (the rest and the switch).
    - GateWhole.v: the gate with the four ranges in place.
    - Execve.v: [execve] of a Mach-O file, which runs the loader with the file
      as its argument (execve_reexec.c), in the process itself and in a forked
      child; the handler of call 59 uses it.

    Binding: resolver.c, dylib_loader.c.
    - ResolveNames.v: what a name says.  SymIndex.v: symbols of the image.
      SymExtent.v: where a function ends.  BindSlots.v: what was bound where.
    - Thunks.v: the generated adapters.
    - Resolve.v: [resolve_import], [resolve_bind_by_name], [do_bind_one],
      [resolver_complete_deferred].  ResolveInv.v: what every
      resolution keeps and what ordinary symbols are bound to.
      ResolveAgree.v, ResolveDeferred.v: theorems.
    - Fixups.v, FixupsImage.v, ResolveFixups.v: chained fixups, alone and with
      the resolver.
    - DyldRebase.v, DyldBind.v, DyldBindRun.v, ResolveDyld.v: the rebase and
      bind opcodes, alone and with the resolver.
    - ResolveSetup.v: load commands, dylib_map.conf,
      the libraries, and the whole of [resolver_resolve_fixups].
    - Trampoline.v: functions of a linked-in library
      redirected to a Linux library, pages of stale data (trampoline.c).

    Patch files: patcher.c.
    - Patcher.v, PatcherSyntax.v.

    Unwinding: eh_frame.c.
    - EhEmit.v (emitters), EhCollect.v (compact unwind), EhParse.v (native
      section), EhFrame.v (generation, index, lookup); EhDwarf.v (the meaning
      of the tables); EhFde.v, EhIndex.v, EhRoundTrip.v (theorems).

    ** How the code is modelled

    C integers are [Z] with the wrap-around written out ([u64], [i32], ...).
    Memory is a function from addresses to bytes ([bytemem]), or to 32-bit
    words where only code is written.  Static variables and structures are
    records passed along; fallible functions return [option] or a sum.  Code
    outside the repository is a parameter: the kernel ([Host.v], [map_host]),
    which sees the memory of the process and may change what it is handed, the
    dynamic linker ([linker]), [qsort], the addresses of the program's own
    objects ([own_symbols]) and of local variables the kernel writes.  The
    dispatchers of the four ranges are an argument of [syscall_gate_dispatch].
    Each file of calls has statics of its own: those of the calls 400 to 557
    contain those of 200 to 399, whose code some of them run, and GateWhole.v
    puts all of them into the process of the gate.  The file system of the
    start-up cache is a map from paths to contents that other processes may
    change between any two calls.
    What a theorem needs of them is a named hypothesis ([host_ok],
    [maps_user_space], [qsort_spec], ...) and its witness gives an instance.
    Components meet at interfaces: the patcher sees symbols through
    [SymbolResolver], the chained-fixup walk calls the resolver through
    [ImportOps] and relies on the laws of [ImportResolver], which
    ResolveFixups.v discharges.  Generated machine
    code is judged by running its words on the machine of Arm64.v.

    ** What the theorems show

    - Emulation: patched text behaves as the original on a machine with the
      extensions, for every LSE and BCAX instruction the generators accept,
      through any number of failed exclusive stores; nothing else is written.
    - System calls: an [svc] reaches the dispatcher with the guest's state and
      resumes with the answer; every call, whatever its number, ends the
      process, runs another program or follows the Darwin convention; signal masks and actions, socket addresses, descriptor sets
      and directory entries arrive translated; named
      semaphores are POSIX semaphores whose waits do not block, and asynchronous
      requests a map of outcomes each collected once; guarded descriptors are a
      finite map that refuses every operation with another guard, and no call
      leaves the tables of guards, workloops and ports inconsistent; attribute
      lists are read
      back as they were asked for; [execve] of a Mach-O file runs the loader with
      the guest's arguments and its environment, or reports an error; the mapping table refines its specification; every [svc] of a section is redirected to an island
      within reach.
    - Binding: from the load commands on, every import of an image is bound
      as its library table says; chained fixups and opcode programs bind every slot they
      describe and no other byte of the image; both resolvers agree on what
      they find; deferred binds are completed once; the registry tells what a
      slot holds; the adapters pass arguments and results between the two
      calling conventions; symbol index, extents and mangling fallback answer
      what the tables define; a call of a redirected function arrives at the
      native one.
    - Loading and patching: segments of programs and libraries stay in the
      reserved range; initialisers run in order; the guest starts with the
      stack it expects; patch files are applied completely or not at all
      unless a page refuses; patch files, configuration and library map
      round-trip.
    - Start-up cache: readers see no file or a complete one, whatever fails
      and whoever else publishes; a complete file gives back what was stored,
      to the same binary only.
    - Unwinding: an emitted FDE unwinds as the compact encoding it came from,
      the index finds the function of every address, the native reader reads
      back what was generated.
    - Where the code does not do what it says, a theorem shows it (pool out of
      reach, aliases without extent, locals hiding exports, deferred binds
      completed with another image's libraries, sizes that wrap).

    ** Bounds and fuel

    Loops that follow data take fuel: the chain walk needs more than the
    number of pointers of its longest chain (a hypothesis the theorem states
    for the given image), the opcode loops at most the size of the stream,
    which the model uses as fuel itself; the pool searches carry the number of
    steps their range allows, and [gate_search_terminates] proves it enough;
    exclusive loops are run for any number of spurious failures.  Loops that
    read a directory, a file or random bytes until the kernel reports the end
    take as fuel a bound on the number of reads.

    ** Not modelled

    - Log output and tracing, [mprotect] around patched slots of the resolver,
      [__builtin___clear_cache].
    - The replacement libSystem (shim/), vm interposition,
      [main] and the commpage: each is a long list of calls into the host, or
      process handling at start.
    - Durability: [fsync] may fail, but what it keeps over a crash of the
      machine is not modelled.
    - The signal handler of trampoline.c that prints a crash.
    - Debugger, Lua, SDL and bgfx support; tests, tools and scripts. *)

From stdpp Require Export base list numbers strings.
From Stdlib Require Export ZArith Lia Bool.
#[global] Open Scope Z_scope.

Create HintDb mg discriminated.

(** ** Machine integers

    C integer types are [Z] with explicit wrap-around: [uN] is the value of a
    conversion to an N-bit unsigned type, [iN] to an N-bit signed type. *)

Definition u8 (z : Z) : Z := z mod 2 ^ 8.
Definition u16 (z : Z) : Z := z mod 2 ^ 16.
Definition u32 (z : Z) : Z := z mod 2 ^ 32.
Definition u64 (z : Z) : Z := z mod 2 ^ 64.

Definition signed (w z : Z) : Z :=
  let u := z mod 2 ^ w in if u <? 2 ^ (w - 1) then u else u - 2 ^ w.
Definition i16 (z : Z) : Z := signed 16 z.
Definition i32 (z : Z) : Z := signed 32 z.
Definition i64 (z : Z) : Z := signed 64 z.

Notation "a .| b" := (Z.lor a b) (at level 50, left associativity) : Z_scope.
Notation "a .& b" := (Z.land a b) (at level 47, left associativity) : Z_scope.
Notation "a .<< b" := (Z.shiftl a b) (at level 45, left associativity) : Z_scope.
Notation "a .>> b" := (Z.shiftr a b) (at level 45, left associativity) : Z_scope.

(** A C condition [if (x)]. *)
Definition nz (z : Z) : bool := negb (z =? 0).
Definition b2z (b : bool) : Z := if b then 1 else 0.

Lemma u32_range z : 0 <= u32 z < 2 ^ 32.
Proof. apply Z.mod_pos_bound; lia. Qed.
Lemma u64_range z : 0 <= u64 z < 2 ^ 64.
Proof. apply Z.mod_pos_bound; lia. Qed.
Lemma u8_range z : 0 <= u8 z < 256.
Proof. apply Z.mod_pos_bound; lia. Qed.
Lemma u32_small z : 0 <= z < 2 ^ 32 -> u32 z = z.
Proof. apply Z.mod_small. Qed.
Lemma u64_small z : 0 <= z < 2 ^ 64 -> u64 z = z.
Proof. apply Z.mod_small. Qed.

Lemma signed_small w z : 0 < w -> - 2 ^ (w - 1) <= z < 2 ^ (w - 1) -> signed w z = z.
Proof.
  intros Hw Hz. unfold signed.
  assert (Hp : 2 ^ w = 2 * 2 ^ (w - 1)).
  { replace w with (Z.succ (w - 1)) at 1 by lia. apply Z.pow_succ_r; lia. }
  destruct (Z.neg_nonneg_cases z).
  - replace (z mod 2 ^ w) with (z + 2 ^ w).
    + destruct (Z.ltb_spec (z + 2 ^ w) (2 ^ (w - 1))); lia.
    + symmetry. rewrite <- (Z.mod_add z 1) by lia. rewrite Z.mul_1_l.
      apply Z.mod_small; lia.
  - rewrite Z.mod_small by lia. destruct (Z.ltb_spec z (2 ^ (w - 1))); lia.
Qed.

Lemma i64_small z : - 2 ^ 63 <= z < 2 ^ 63 -> i64 z = z.
Proof. intros Hz. apply signed_small; lia. Qed.

Lemma signed_mod w z : 0 < w -> signed w z mod 2 ^ w = z mod 2 ^ w.
Proof.
  intros Hw. unfold signed. destruct (_ <? _).
  - apply Z.mod_mod. lia.
  - replace (z mod 2 ^ w - 2 ^ w) with (z mod 2 ^ w + (-1) * 2 ^ w) by lia.
    rewrite Z.mod_add by lia. apply Z.mod_mod. lia.
Qed.

(** ** Bit fields of instruction words *)

(** The [n]-bit field of [w] at bit [k], as the C code extracts it with
    [(w >> k) & ((1 << n) - 1)]. *)
Definition fld (w k n : Z) : Z := (w .>> k) .& Z.ones n.

(** A register number of an instruction word. *)
Definition is_reg (r : Z) : Prop := 0 <= r < 32.

Lemma field_on r k n :
  0 <= r < 2 ^ n -> 0 <= k -> 0 <= n -> (r .<< k) .& (Z.ones n .<< k) = r .<< k.
Proof.
  intros Hr Hk Hn. rewrite <- Z.shiftl_land, Z.land_ones by lia.
  by rewrite Z.mod_small.
Qed.

Lemma field_off r k n M :
  0 <= r < 2 ^ n -> 0 <= k -> 0 <= n ->
  (Z.ones n .<< k) .& M = 0 -> (r .<< k) .& M = 0.
Proof.
  intros Hr Hk Hn HM. rewrite <- (field_on r k n) by done.
  by rewrite <- Z.land_assoc, HM, Z.land_0_r.
Qed.

Lemma fld_lor_shiftl A r k n :
  0 <= r < 2 ^ n -> 0 <= k -> 0 <= n ->
  A .& (Z.ones n .<< k) = 0 -> fld (A .| (r .<< k)) k n = r.
Proof.
  intros Hr Hk Hn HA. unfold fld.
  rewrite Z.shiftr_lor, Z.land_lor_distr_l, Z.shiftr_shiftl_l by lia.
  replace (k - k) with 0 by lia. rewrite Z.shiftl_0_r.
  rewrite (Z.land_ones r), (Z.mod_small r) by lia.
  replace ((A .>> k) .& Z.ones n) with ((A .& (Z.ones n .<< k)) .>> k).
  - by rewrite HA, Z.shiftr_0_l, Z.lor_0_l.
  - rewrite Z.shiftr_land, Z.shiftr_shiftl_l by lia.
    replace (k - k) with 0 by lia. by rewrite Z.shiftl_0_r.
Qed.

Lemma land_lor_off A B M : B .& M = 0 -> (A .| B) .& M = A .& M.
Proof. intros HB. by rewrite Z.land_lor_distr_l, HB, Z.lor_0_r. Qed.

Lemma fld_lor_off A B k n :
  0 <= k -> 0 <= n -> B .& (Z.ones n .<< k) = 0 -> fld (A .| B) k n = fld A k n.
Proof.
  intros Hk Hn HB. unfold fld.
  rewrite Z.shiftr_lor, Z.land_lor_distr_l.
  replace ((B .>> k) .& Z.ones n) with ((B .& (Z.ones n .<< k)) .>> k).
  - by rewrite HB, Z.shiftr_0_l, Z.lor_0_r.
  - rewrite Z.shiftr_land, Z.shiftr_shiftl_l by lia.
    replace (k - k) with 0 by lia. by rewrite Z.shiftl_0_r.
Qed.

Lemma fld_range w k n : 0 <= n -> 0 <= fld w k n < 2 ^ n.
Proof. intros Hn. unfold fld. rewrite Z.land_ones by done. apply Z.mod_pos_bound. lia. Qed.

Lemma fld5_is_reg w k : is_reg (fld w k 5).
Proof. apply (fld_range w k 5). lia. Qed.
#[export] Hint Resolve fld5_is_reg : mg.

Lemma nz_land_pow2 x i : 0 <= i -> nz (x .& 2 ^ i) = Z.testbit x i.
Proof.
  intros Hi. unfold nz. destruct (Z.testbit x i) eqn:E.
  - destruct (Z.eqb_spec (x .& 2 ^ i) 0) as [H|]; [|done].
    assert (Z.testbit (x .& 2 ^ i) i = true) by (rewrite Z.land_spec, E, Z.pow2_bits_true by lia; done).
    rewrite H, Z.bits_0 in *. done.
  - replace (x .& 2 ^ i) with 0; [done|]. symmetry. apply Z.bits_inj'. intros k Hk.
    rewrite Z.land_spec, Z.pow2_bits_eqb, Z.bits_0 by lia. destruct (Z.eqb_spec i k) as [<-|]; [by rewrite E|].
    apply andb_false_r.
Qed.

(** [x & ~(2^k - 1)]. *)
Lemma land_lnot_ones x k : 0 <= k -> x .& Z.lnot (Z.ones k) = 2 ^ k * (x / 2 ^ k).
Proof.
  intros Hk. rewrite <- Z.ldiff_land, Z.ldiff_ones_r, Z.shiftr_div_pow2, Z.shiftl_mul_pow2 by lia. lia.
Qed.

Lemma lor_range a b w : 0 <= w -> 0 <= a < 2 ^ w -> 0 <= b < 2 ^ w -> 0 <= a .| b < 2 ^ w.
Proof.
  intros Hw Ha Hb. pose proof (proj2 (Z.lor_nonneg a b) ltac:(lia)) as H0. split; [done|].
  rewrite <- (Z.mod_small a (2 ^ w)), <- (Z.mod_small b (2 ^ w)) by done.
  rewrite <- !Z.land_ones, <- Z.land_lor_distr_l, Z.land_ones by lia. apply Z.mod_pos_bound. lia.
Qed.

(** ** Ranges *)

Lemma in_seqZ_iff a n x : In x (seqZ a n) <-> a <= x < a + n.
Proof. rewrite <- list_elem_of_In. apply elem_of_seqZ. Qed.

(** A property of a range of numbers, by computation. *)
Lemma forallb_seqZ (f : Z -> bool) a n : forallb f (seqZ a n) = true -> forall x, a <= x < a + n -> f x = true.
Proof. intros H x Hx. rewrite forallb_forall in H. by apply H, in_seqZ_iff. Qed.

(** ** Total maps as functions *)

Definition upd {A} (f : Z -> A) (k : Z) (v : A) : Z -> A :=
  fun x => if x =? k then v else f x.

Lemma upd_eq {A} (f : Z -> A) k v : upd f k v k = v.
Proof. unfold upd. by rewrite Z.eqb_refl. Qed.
Lemma upd_ne {A} (f : Z -> A) k v x : x <> k -> upd f k v x = f x.
Proof. intros H. unfold upd. by destruct (Z.eqb_spec x k). Qed.

(** ** Byte memory, little endian *)

Definition bytemem := Z -> Z.

Definition store (n a v : Z) (m : bytemem) : bytemem :=
  fun x => if (a <=? x) && (x <? a + n) then (v .>> (8 * (x - a))) .& 255 else m x.

Fixpoint load_nat (n : nat) (a : Z) (m : bytemem) : Z :=
  match n with
  | O => 0
  | S n => (m a mod 256) + 256 * load_nat n (a + 1) m
  end.
Definition load (n a : Z) (m : bytemem) : Z := load_nat (Z.to_nat n) a m.

Lemma store_out n a v m x : x < a \/ a + n <= x -> store n a v m x = m x.
Proof.
  intros H. unfold store.
  destruct (Z.leb_spec a x), (Z.ltb_spec x (a + n)); simpl; try done; lia.
Qed.

Lemma load_nat_ext n a m1 m2 :
  (forall x, a <= x < a + Z.of_nat n -> m1 x = m2 x) -> load_nat n a m1 = load_nat n a m2.
Proof.
  revert a. induction n as [|n IH]; intros a H; simpl; [done|].
  rewrite (H a) by lia. rewrite (IH (a + 1)); [done|]. intros x Hx. apply H. lia.
Qed.

Lemma load_ext n a m1 m2 :
  (forall x, a <= x < a + n -> m1 x = m2 x) -> load n a m1 = load n a m2.
Proof. intros H. apply load_nat_ext. intros x Hx. apply H. lia. Qed.

Lemma load_store_disj n a n' a' v m :
  a + n <= a' \/ a' + n' <= a -> load n a (store n' a' v m) = load n a m.
Proof. intros H. apply load_ext. intros x Hx. apply store_out. lia. Qed.

Lemma load_nat_store n k a v m :
  0 <= k ->
  load_nat n (a + k) (store (k + Z.of_nat n) a v m) = (v .>> (8 * k)) mod 2 ^ (8 * Z.of_nat n).
Proof.
  revert k. induction n as [|n IH]; intros k Hk.
  - simpl. by rewrite Z.mod_1_r.
  - cbn [load_nat]. replace (a + k + 1) with (a + (k + 1)) by lia.
    replace (k + Z.of_nat (S n)) with ((k + 1) + Z.of_nat n) by lia.
    rewrite IH by lia.
    assert (Hb : store (k + 1 + Z.of_nat n) a v m (a + k) = (v .>> (8 * k)) .& 255).
    { unfold store. destruct (Z.leb_spec a (a + k)), (Z.ltb_spec (a + k) (a + (k + 1 + Z.of_nat n)));
        simpl; try lia. do 3 f_equal; lia. }
    rewrite Hb. change 255 with (Z.ones 8). rewrite Z.land_ones by lia.
    rewrite Zmod_mod. change 256 with (2 ^ 8).
    rewrite !Z.shiftr_div_pow2 by lia.
    replace (8 * (k + 1)) with (8 * k + 8) by lia. rewrite Z.pow_add_r, <- Z.div_div by lia.
    set (q := v / 2 ^ (8 * k)).
    replace (8 * Z.of_nat (S n)) with (8 + 8 * Z.of_nat n) by lia.
    rewrite Z.pow_add_r, Z.rem_mul_r by lia. lia.
Qed.

Lemma load_store_same n a v m : 0 <= n -> load n a (store n a v m) = v mod 2 ^ (8 * n).
Proof.
  intros Hn. unfold load.
  pose proof (load_nat_store (Z.to_nat n) 0 a v m ltac:(lia)) as H.
  rewrite Z2Nat.id in H by lia. rewrite !Z.add_0_l, Z.add_0_r, Z.mul_0_r in H.
  by rewrite H, Z.shiftr_0_r.
Qed.

Lemma load_range n a m : 0 <= n -> 0 <= load n a m < 2 ^ (8 * n).
Proof.
  intros Hn. unfold load. rewrite <- (Z2Nat.id n) at 3 by lia.
  generalize (Z.to_nat n) as k. clear. intros k. revert a.
  induction k as [|k IH]; intros a; cbn [load_nat]; [lia|].
  specialize (IH (a + 1)). pose proof (Z.mod_pos_bound (m a) 256 ltac:(lia)).
  replace (8 * Z.of_nat (S k)) with (8 + 8 * Z.of_nat k) by lia.
  rewrite Z.pow_add_r by lia. lia.
Qed.

Lemma load_zeroed n b N a m :
  a <= b -> b + n <= a + N -> load n b (store N a 0 m) = 0.
Proof.
  intros H1 H2. rewrite (load_ext n b _ (fun _ => 0)).
  - unfold load. generalize (Z.to_nat n). intros k. clear. revert b.
    induction k as [|k IH]; intros b; [done|]. cbn [load_nat]. by rewrite IH.
  - intros x Hx. unfold store. rewrite Z.shiftr_0_l.
    destruct (Z.leb_spec a x), (Z.ltb_spec x (a + N)); simpl; done || lia.
Qed.
#[export] Hint Resolve u32_range u64_range u8_range : mg.
