(* ===== verification/Arm64.v ===== *)
(** * The A64 instructions the generated islands are made of

    The islands MachGate writes are machine code: their meaning is the
    architecture's.  This file gives the part of it the generators use: the
    registers a thread sees, a decoder from 32-bit words and the effect of
    every instruction, following the encoding tables of the Arm Architecture
    Reference Manual.  Should-be-one fields of load/store exclusive are
    ignored by the decoder, as implementations do.  It also gives the meaning
    of the instructions the islands replace: the LSE atomics of Armv8.1 and
    BCAX of the SHA3 extension. *)

From S2P Require Import Prelude.

(** ** Processor state *)

(** [cpu_spur] is the number of store-exclusives that will still fail
    although the reservation is held: the architecture allows any number. *)
Record cpu := mkcpu {
  cpu_x : Z -> Z;             (* X0..X30 *)
  cpu_sp : Z;
  cpu_pc : Z;
  cpu_nzcv : Z;               (* as MRS reads it: bits 31..28 *)
  cpu_v : Z -> Z;             (* V0..V31, 128 bits *)
  cpu_mem : bytemem;
  cpu_mon : option (Z * Z);   (* exclusive monitor: address, bytes *)
  cpu_spur : nat;
}.

Definition set_x (st : cpu) (r v : Z) : cpu :=
  mkcpu (upd (cpu_x st) r v) (cpu_sp st) (cpu_pc st) (cpu_nzcv st) (cpu_v st)
        (cpu_mem st) (cpu_mon st) (cpu_spur st).
Definition set_sp (st : cpu) (v : Z) : cpu :=
  mkcpu (cpu_x st) v (cpu_pc st) (cpu_nzcv st) (cpu_v st)
        (cpu_mem st) (cpu_mon st) (cpu_spur st).
Definition set_pc (st : cpu) (v : Z) : cpu :=
  mkcpu (cpu_x st) (cpu_sp st) v (cpu_nzcv st) (cpu_v st)
        (cpu_mem st) (cpu_mon st) (cpu_spur st).
Definition set_nzcv (st : cpu) (v : Z) : cpu :=
  mkcpu (cpu_x st) (cpu_sp st) (cpu_pc st) v (cpu_v st)
        (cpu_mem st) (cpu_mon st) (cpu_spur st).
Definition set_v (st : cpu) (r v : Z) : cpu :=
  mkcpu (cpu_x st) (cpu_sp st) (cpu_pc st) (cpu_nzcv st) (upd (cpu_v st) r v)
        (cpu_mem st) (cpu_mon st) (cpu_spur st).
Definition set_mem (st : cpu) (m : bytemem) : cpu :=
  mkcpu (cpu_x st) (cpu_sp st) (cpu_pc st) (cpu_nzcv st) (cpu_v st)
        m (cpu_mon st) (cpu_spur st).
Definition set_mon (st : cpu) (o : option (Z * Z)) (k : nat) : cpu :=
  mkcpu (cpu_x st) (cpu_sp st) (cpu_pc st) (cpu_nzcv st) (cpu_v st)
        (cpu_mem st) o k.

(** Register operands: 31 is the zero register or, as a base, the stack pointer. *)
Definition rx (st : cpu) (r : Z) : Z := if r =? 31 then 0 else cpu_x st r.
Definition rbase (st : cpu) (r : Z) : Z := if r =? 31 then cpu_sp st else cpu_x st r.
Definition wx (st : cpu) (r v : Z) : cpu := if r =? 31 then st else set_x st r v.
Definition wbase (st : cpu) (r v : Z) : cpu := if r =? 31 then set_sp st v else set_x st r v.

(** Operand width of a data-processing instruction: [sf = 1] is 64 bits. *)
Definition opw (sf : Z) : Z := if sf =? 1 then 64 else 32.
Definition rop (sf : Z) (st : cpu) (r : Z) : Z := rx st r mod 2 ^ opw sf.

(** ** Instructions *)

Inductive alu_op := A_ADD | A_BIC | A_EOR | A_ORR.

Inductive instr :=
| STRpre (rt rn imm : Z) | LDRpost (rt rn imm : Z)
| STRQpre (vt rn imm : Z) | LDRQpost (vt rn imm : Z)
| STP (rt rt2 rn imm : Z) | LDP (rt rt2 rn imm : Z)
| STPpre (rt rt2 rn imm : Z) | LDPpost (rt rt2 rn imm : Z) | STPw (rt rt2 rn imm : Z)
| STRimm (rt rn imm : Z) | LDRimm (rt rn imm : Z) | LDRlit (rt off : Z)
| ADDimm (rd rn imm : Z) | SUBimm (rd rn imm : Z)
| MRSnzcv (rt : Z) | MSRnzcv (rt : Z)
| LDXR (size acq rt rn : Z) | STXR (size rel rs rt rn : Z) | CLREX
| ALU (op : alu_op) (sf rd rn rm : Z) | SUBS (sf rd rn rm : Z)
| CSEL (sf rd rn rm cond : Z) | SXTB (rd rn : Z) | SXTH (rd rn : Z)
| CBNZw (rt off : Z) | Bcond (cond off : Z) | B (off : Z) | BL (off : Z)
| BR (rn : Z) | BLR (rn : Z) | RET (rn : Z) | NOP | MOVZ (sf rd imm : Z)
| BICv (vd vn vm : Z) | EORv (vd vn vm : Z).

(** *** Decoding *)

(** Fixed bits of the three-register formats. *)
Definition key_mask : Z := 0xFFE0FC00.

Definition decode (w : Z) : option instr :=
  let rd := fld w 0 5 in let rn := fld w 5 5 in let rm := fld w 16 5 in
  if w .& 0xFC000000 =? 0x14000000 then Some (B (signed 26 (fld w 0 26)))
  else if w .& 0xFC000000 =? 0x94000000 then Some (BL (signed 26 (fld w 0 26)))
  else if w .& 0xFF000000 =? 0x35000000 then Some (CBNZw rd (signed 19 (fld w 5 19)))
  else if w .& 0xFF000000 =? 0x54000000 then Some (Bcond (fld w 0 4) (signed 19 (fld w 5 19)))
  else if w .& 0xFF000000 =? 0x58000000 then Some (LDRlit rd (signed 19 (fld w 5 19)))
  else if w .& 0xFFC00000 =? 0xA9000000 then Some (STP rd (fld w 10 5) rn (8 * signed 7 (fld w 15 7)))
  else if w .& 0xFFC00000 =? 0xA9400000 then Some (LDP rd (fld w 10 5) rn (8 * signed 7 (fld w 15 7)))
  else if w .& 0xFFC00000 =? 0xF9000000 then Some (STRimm rd rn (8 * fld w 10 12))
  else if w .& 0xFFC00000 =? 0xF9400000 then Some (LDRimm rd rn (8 * fld w 10 12))
  else if w .& 0xFFC00000 =? 0xD1000000 then Some (SUBimm rd rn (fld w 10 12))
  else if w .& 0xFFC00000 =? 0x91000000 then Some (ADDimm rd rn (fld w 10 12))
  else if w .& 0xFFE00C00 =? 0xF8000C00 then Some (STRpre rd rn (signed 9 (fld w 12 9)))
  else if w .& 0xFFE00C00 =? 0xF8400400 then Some (LDRpost rd rn (signed 9 (fld w 12 9)))
  else if w .& 0xFFE00C00 =? 0x3C800C00 then Some (STRQpre rd rn (signed 9 (fld w 12 9)))
  else if w .& 0xFFE00C00 =? 0x3CC00400 then Some (LDRQpost rd rn (signed 9 (fld w 12 9)))
  else if w .& 0x7FE00C00 =? 0x1A800000 then Some (CSEL (fld w 31 1) rd rn rm (fld w 12 4))
  else if w .& 0x3FE00000 =? 0x08400000 then Some (LDXR (fld w 30 2) (fld w 15 1) rd rn)
  else if w .& 0x3FE00000 =? 0x08000000 then Some (STXR (fld w 30 2) (fld w 15 1) rm rd rn)
  else if w .& 0x7FE0FC00 =? 0x0B000000 then Some (ALU A_ADD (fld w 31 1) rd rn rm)
  else if w .& 0x7FE0FC00 =? 0x0A200000 then Some (ALU A_BIC (fld w 31 1) rd rn rm)
  else if w .& 0x7FE0FC00 =? 0x4A000000 then Some (ALU A_EOR (fld w 31 1) rd rn rm)
  else if w .& 0x7FE0FC00 =? 0x2A000000 then Some (ALU A_ORR (fld w 31 1) rd rn rm)
  else if w .& 0x7FE0FC00 =? 0x6B000000 then Some (SUBS (fld w 31 1) rd rn rm)
  else if w .& key_mask =? 0x4E601C00 then Some (BICv rd rn rm)
  else if w .& key_mask =? 0x6E201C00 then Some (EORv rd rn rm)
  else if w .& 0xFFFFFC00 =? 0x13001C00 then Some (SXTB rd rn)
  else if w .& 0xFFFFFC00 =? 0x13003C00 then Some (SXTH rd rn)
  else if w .& 0xFFFFFFE0 =? 0xD53B4200 then Some (MRSnzcv rd)
  else if w .& 0xFFFFFFE0 =? 0xD51B4200 then Some (MSRnzcv rd)
  else if w .& 0xFFFFF0FF =? 0xD503305F then Some CLREX
  else if w =? 0xD503201F then Some NOP
  else if w .& 0xFFFFFC1F =? 0xD61F0000 then Some (BR rn)
  else if w .& 0xFFFFFC1F =? 0xD63F0000 then Some (BLR rn)
  else if w .& 0xFFFFFC1F =? 0xD65F0000 then Some (RET rn)
  else if w .& 0xFFC00000 =? 0xA9800000 then Some (STPpre rd (fld w 10 5) rn (8 * signed 7 (fld w 15 7)))
  else if w .& 0xFFC00000 =? 0xA8C00000 then Some (LDPpost rd (fld w 10 5) rn (8 * signed 7 (fld w 15 7)))
  else if w .& 0xFFC00000 =? 0x29000000 then Some (STPw rd (fld w 10 5) rn (4 * signed 7 (fld w 15 7)))
  else if w .& 0x7FE00000 =? 0x52800000 then Some (MOVZ (fld w 31 1) rd (fld w 5 16))
  else None.

(** *** Execution *)

Definition alu (op : alu_op) (a b : Z) : Z :=
  match op with
  | A_ADD => a + b
  | A_BIC => Z.ldiff a b
  | A_EOR => Z.lxor a b
  | A_ORR => Z.lor a b
  end.

(** The flags of [a - b] on [w] bits. *)
Definition sub_flags (w a b : Z) : Z :=
  let d := (a - b) mod 2 ^ w in
  (b2z (2 ^ (w - 1) <=? d) .<< 31) .| (b2z (a =? b) .<< 30) .| (b2z (b <=? a) .<< 29)
  .| (b2z (negb (signed w a - signed w b =? signed w d)) .<< 28).

Definition cond_holds (cond nzcv : Z) : bool :=
  let n := Z.testbit nzcv 31 in let z := Z.testbit nzcv 30 in
  let c := Z.testbit nzcv 29 in let v := Z.testbit nzcv 28 in
  let base :=
    match fld cond 1 3 with
    | 0 => z | 1 => c | 2 => n | 3 => v
    | 4 => c && negb z | 5 => Bool.eqb n v | 6 => Bool.eqb n v && negb z | _ => true
    end in
  if Z.testbit cond 0 && negb (cond =? 15) then negb base else base.

Definition next (st : cpu) : cpu := set_pc st (u64 (cpu_pc st + 4)).
Definition jump (st : cpu) (off : Z) : cpu := set_pc st (u64 (cpu_pc st + 4 * off)).

Definition size_bytes (size : Z) : Z := 2 ^ size.

Lemma size_bytes_nonneg size : 0 <= size_bytes size.
Proof. apply Z.pow_nonneg. lia. Qed.

Definition stxr_ok (st : cpu) (a n : Z) : bool :=
  match cpu_mon st with
  | Some (a', n') => (a =? a') && (n =? n') && Nat.eqb (cpu_spur st) 0
  | None => false
  end.

Definition exec (i : instr) (st : cpu) : cpu :=
  match i with
  | STRpre rt rn imm =>
      let a := u64 (rbase st rn + imm) in
      next (wbase (set_mem st (store 8 a (rx st rt) (cpu_mem st))) rn a)
  | LDRpost rt rn imm =>
      let a := rbase st rn in
      next (wx (wbase st rn (u64 (a + imm))) rt (load 8 a (cpu_mem st)))
  | STRQpre vt rn imm =>
      let a := u64 (rbase st rn + imm) in
      next (wbase (set_mem st (store 16 a (cpu_v st vt) (cpu_mem st))) rn a)
  | LDRQpost vt rn imm =>
      let a := rbase st rn in
      next (set_v (wbase st rn (u64 (a + imm))) vt (load 16 a (cpu_mem st)))
  | STP rt rt2 rn imm =>
      let a := u64 (rbase st rn + imm) in
      next (set_mem st (store 8 (a + 8) (rx st rt2) (store 8 a (rx st rt) (cpu_mem st))))
  | LDP rt rt2 rn imm =>
      let a := u64 (rbase st rn + imm) in
      next (wx (wx st rt (load 8 a (cpu_mem st))) rt2 (load 8 (a + 8) (cpu_mem st)))
  | STPpre rt rt2 rn imm =>
      let a := u64 (rbase st rn + imm) in
      next (wbase (set_mem st (store 8 (a + 8) (rx st rt2) (store 8 a (rx st rt) (cpu_mem st)))) rn a)
  | LDPpost rt rt2 rn imm =>
      let a := rbase st rn in
      next (wx (wx (wbase st rn (u64 (a + imm))) rt (load 8 a (cpu_mem st))) rt2 (load 8 (a + 8) (cpu_mem st)))
  | STPw rt rt2 rn imm =>
      let a := u64 (rbase st rn + imm) in
      next (set_mem st (store 4 (a + 4) (rx st rt2) (store 4 a (rx st rt) (cpu_mem st))))
  | STRimm rt rn imm =>
      next (set_mem st (store 8 (u64 (rbase st rn + imm)) (rx st rt) (cpu_mem st)))
  | LDRimm rt rn imm =>
      next (wx st rt (load 8 (u64 (rbase st rn + imm)) (cpu_mem st)))
  | LDRlit rt off => next (wx st rt (load 8 (u64 (cpu_pc st + 4 * off)) (cpu_mem st)))
  | ADDimm rd rn imm => next (wbase st rd (u64 (rbase st rn + imm)))
  | SUBimm rd rn imm => next (wbase st rd (u64 (rbase st rn - imm)))
  | MRSnzcv rt => next (wx st rt (cpu_nzcv st))
  | MSRnzcv rt => next (set_nzcv st (rx st rt .& 0xF0000000))
  | LDXR size _ rt rn =>
      let a := rbase st rn in let n := size_bytes size in
      next (set_mon (wx st rt (load n a (cpu_mem st))) (Some (a, n)) (cpu_spur st))
  | STXR size _ rs rt rn =>
      let a := rbase st rn in let n := size_bytes size in
      if stxr_ok st a n
      then next (wx (set_mon (set_mem st (store n a (rx st rt) (cpu_mem st))) None (cpu_spur st)) rs 0)
      else next (wx (set_mon st None (Nat.pred (cpu_spur st))) rs 1)
  | CLREX => next (set_mon st None (cpu_spur st))
  | ALU op sf rd rn rm =>
      next (wx st rd (alu op (rop sf st rn) (rop sf st rm) mod 2 ^ opw sf))
  | SUBS sf rd rn rm =>
      let a := rop sf st rn in let b := rop sf st rm in
      next (wx (set_nzcv st (sub_flags (opw sf) a b)) rd ((a - b) mod 2 ^ opw sf))
  | CSEL sf rd rn rm cond =>
      next (wx st rd (if cond_holds cond (cpu_nzcv st) then rop sf st rn else rop sf st rm))
  | SXTB rd rn => next (wx st rd (u32 (signed 8 (rx st rn))))
  | SXTH rd rn => next (wx st rd (u32 (signed 16 (rx st rn))))
  | CBNZw rt off => if rop 0 st rt =? 0 then next st else jump st off
  | Bcond cond off => if cond_holds cond (cpu_nzcv st) then jump st off else next st
  | B off => jump st off
  | BL off => jump (wx st 30 (u64 (cpu_pc st + 4))) off
  | BR rn | RET rn => set_pc st (rx st rn)
  | BLR rn => set_pc (wx st 30 (u64 (cpu_pc st + 4))) (rx st rn)
  | NOP => next st
  | MOVZ _ rd imm => next (wx st rd imm)
  | BICv vd vn vm => next (set_v st vd (Z.ldiff (cpu_v st vn) (cpu_v st vm)))
  | EORv vd vn vm => next (set_v st vd (Z.lxor (cpu_v st vn) (cpu_v st vm)))
  end.

(** Fetch, decode, execute.  [code] is the instruction memory, by address. *)
Definition step (code : Z -> option Z) (st : cpu) : option cpu :=
  match code (cpu_pc st) with
  | Some w => match decode w with Some i => Some (exec i st) | None => None end
  | None => None
  end.

Fixpoint run (code : Z -> option Z) (n : nat) (st : cpu) : option cpu :=
  match n with
  | O => Some st
  | S n => match step code st with Some st' => run code n st' | None => None end
  end.

Lemma run_add code n m st st' :
  run code n st = Some st' -> run code (n + m) st = run code m st'.
Proof.
  revert st. induction n as [|n IH]; intros st; simpl; [congruence|].
  destruct (step code st); [apply IH|congruence].
Qed.

(** The relation the island theorems are stated with: some number of
    instructions takes [st] to [st']. *)
Definition reaches (code : Z -> option Z) (st st' : cpu) : Prop :=
  exists n, run code n st = Some st'.

Lemma reaches_refl code st : reaches code st st.
Proof. by exists O. Qed.

Lemma reaches_trans code a b c : reaches code a b -> reaches code b c -> reaches code a c.
Proof. intros [n Hn] [m Hm]. exists (n + m)%nat. by rewrite (run_add _ _ _ _ _ Hn). Qed.

Lemma reaches_step code st i w :
  code (cpu_pc st) = Some w -> decode w = Some i -> reaches code st (exec i st).
Proof. intros Hc Hd. exists 1%nat. simpl. unfold step. by rewrite Hc, Hd. Qed.

#[global] Instance reaches_preorder code : PreOrder (reaches code).
Proof. split; [intros ?; apply reaches_refl|intros ???; apply reaches_trans]. Qed.

(** [words_at code a ws]: the words [ws] are the instructions at [a], [a+4], ... *)
Fixpoint words_at (code : Z -> option Z) (a : Z) (ws : list Z) : Prop :=
  match ws with
  | [] => True
  | w :: ws => code a = Some w /\ words_at code (a + 4) ws
  end.

Lemma words_at_app code a ws1 ws2 :
  words_at code a (ws1 ++ ws2) <->
  words_at code a ws1 /\ words_at code (a + 4 * Z.of_nat (length ws1)) ws2.
Proof.
  revert a. induction ws1 as [|w ws1 IH]; intros a.
  - cbn [app length words_at]. change (Z.of_nat 0) with 0. rewrite Z.mul_0_r, Z.add_0_r. tauto.
  - cbn [app length words_at]. rewrite IH.
    replace (a + 4 + 4 * Z.of_nat (length ws1)) with (a + 4 * Z.of_nat (S (length ws1))) by lia.
    tauto.
Qed.

(** *** Straight-line blocks *)

Definition falls_through (i : instr) : bool :=
  match i with
  | CBNZw _ _ | Bcond _ _ | B _ | BL _ | BR _ | BLR _ | RET _ => false
  | _ => true
  end.

Definition exec_all (il : list instr) (st : cpu) : cpu := fold_left (fun s i => exec i s) il st.

Lemma exec_pc i st :
  falls_through i = true -> cpu_pc (exec i st) = u64 (cpu_pc st + 4).
Proof.
  intros H. destruct i; try discriminate H; cbn -[u64 store load fld];
    unfold wbase, wx; repeat case_match; reflexivity.
Qed.

(** A block without branches runs to its end. *)
Lemma reaches_block code il ws st :
  Forall2 (fun i w => decode w = Some i) il ws ->
  forallb falls_through il = true ->
  words_at code (cpu_pc st) ws ->
  0 <= cpu_pc st -> cpu_pc st + 4 * Z.of_nat (length ws) < 2 ^ 64 ->
  reaches code st (exec_all il st) /\
  cpu_pc (exec_all il st) = cpu_pc st + 4 * Z.of_nat (length ws).
Proof.
  intros H2. revert st. induction H2 as [|i w il ws Hd H2 IH]; intros st Hft Hws H0 Hlt.
  - split; [apply reaches_refl|]. simpl. lia.
  - simpl in Hft. apply andb_true_iff in Hft as [Hi Hft]. destruct Hws as [Hw Hws].
    rewrite length_cons in *.
    assert (Hpc : cpu_pc (exec i st) = cpu_pc st + 4).
    { rewrite exec_pc by done. apply u64_small. lia. }
    destruct (IH (exec i st) Hft) as [Hr Hp]; rewrite ?Hpc; try lia; [done|].
    split.
    + etrans; [by eapply reaches_step|exact Hr].
    + change (exec_all (i :: il) st) with (exec_all il (exec i st)). rewrite Hp, Hpc. lia.
Qed.

(** ** The instructions the islands stand for *)

Inductive lse_arch_op :=
| ARCH_LDADD | ARCH_LDCLR | ARCH_LDEOR | ARCH_LDSET
| ARCH_LDSMAX | ARCH_LDSMIN | ARCH_LDUMAX | ARCH_LDUMIN | ARCH_SWP.

(** The value an LSE read-modify-write stores, on [w] bits. *)
Definition lse_new (op : lse_arch_op) (w old src : Z) : Z :=
  match op with
  | ARCH_LDADD => (old + src) mod 2 ^ w
  | ARCH_LDCLR => Z.ldiff old src
  | ARCH_LDEOR => Z.lxor old src
  | ARCH_LDSET => Z.lor old src
  | ARCH_LDSMAX => if signed w src <? signed w old then old else src
  | ARCH_LDSMIN => if signed w old <? signed w src then old else src
  | ARCH_LDUMAX => if src <? old then old else src
  | ARCH_LDUMIN => if old <? src then old else src
  | ARCH_SWP => src
  end.

(** LD<op>/SWP Rs, Rt, [Rn]: atomically old := [Rn], [Rn] := op(old, Rs), Rt := old. *)
Definition exec_lse (op : lse_arch_op) (size rs rt rn : Z) (st : cpu) : cpu :=
  let n := size_bytes size in let w := 8 * n in
  let a := rbase st rn in
  let old := load n a (cpu_mem st) in
  let src := rx st rs mod 2 ^ w in
  next (wx (set_mem st (store n a (lse_new op w old src) (cpu_mem st))) rt old).

(** CAS Rs, Rt, [Rn]: compare [Rn] with Rs, store Rt when equal, Rs := old. *)
Definition exec_cas (size rs rt rn : Z) (st : cpu) : cpu :=
  let n := size_bytes size in let w := 8 * n in
  let a := rbase st rn in
  let old := load n a (cpu_mem st) in
  let m' := if old =? rx st rs mod 2 ^ w
            then store n a (rx st rt mod 2 ^ w) (cpu_mem st) else cpu_mem st in
  next (wx (set_mem st m') rs old).

(** BCAX Vd, Vn, Vm, Va: Vd := Vn xor (Vm and not Va). *)
Definition exec_bcax (vd vn vm va : Z) (st : cpu) : cpu :=
  next (set_v st vd (Z.lxor (cpu_v st vn) (Z.ldiff (cpu_v st vm) (cpu_v st va)))).

(** ** Architectural decoding of the atomics *)

Inductive arch_atomic :=
| AA_RMW (op : lse_arch_op) (size acq rel rs rt rn : Z)
| AA_CAS (size acq rel rs rt rn : Z)
| AA_LDAPR (size rt rn : Z).

Definition arch_rmw_op (o3 opc : Z) : option lse_arch_op :=
  match o3, opc with
  | 0, 0 => Some ARCH_LDADD | 0, 1 => Some ARCH_LDCLR | 0, 2 => Some ARCH_LDEOR
  | 0, 3 => Some ARCH_LDSET | 0, 4 => Some ARCH_LDSMAX | 0, 5 => Some ARCH_LDSMIN
  | 0, 6 => Some ARCH_LDUMAX | 0, 7 => Some ARCH_LDUMIN | 1, 0 => Some ARCH_SWP
  | _, _ => None
  end.

(** The atomic memory operations group: with o3 = 1 only opc 000 is SWP; opc
    100 with A = 1, R = 0, Rs = 11111 is LDAPR. *)
Definition arch_atomic_decode (w : Z) : option arch_atomic :=
  if w .& 0x3F200C00 =? 0x38200000 then
    match arch_rmw_op (fld w 15 1) (fld w 12 3) with
    | Some op => Some (AA_RMW op (fld w 30 2) (fld w 23 1) (fld w 22 1) (fld w 16 5) (fld w 0 5) (fld w 5 5))
    | None => if w .& 0x3FFFFC00 =? 0x38BFC000
              then Some (AA_LDAPR (fld w 30 2) (fld w 0 5) (fld w 5 5)) else None
    end
  else if w .& 0x3FA07C00 =? 0x08A07C00 then
    Some (AA_CAS (fld w 30 2) (fld w 22 1) (fld w 15 1) (fld w 16 5) (fld w 0 5) (fld w 5 5))
  else None.

(** Of the SHA3 group: the operands (Vd, Vn, Vm, Va) of BCAX. *)
Definition arch_bcax_decode (w : Z) : option (Z * Z * Z * Z) :=
  if w .& 0xFFE08000 =? 0xCE200000
  then Some (fld w 0 5, fld w 5 5, fld w 16 5, fld w 10 5) else None.

(** Instruction memory holding [ws] at [a], for concrete runs. *)
Definition code_of (a : Z) (ws : list Z) (pc : Z) : option Z :=
  if (a <=? pc) && ((pc - a) mod 4 =? 0) then nth_error ws (Z.to_nat ((pc - a) / 4)) else None.
