(* ===== verification/Arm64Enc.v ===== *)
(** * Branch encoding helpers: src/arm64_enc.h

    The two branch encoders and the range test every patching component
    (ISA emulation, syscall gate, patcher, trampolines) uses, with the
    decoder-level facts the islands need. *)

From S2P Require Import Prelude Arm64.

Definition ENC_NOP : Z := 0xD503201F.
Definition ENC_RET : Z := 0xD65F03C0.

Definition enc_b (word_offset : Z) : Z :=
  0x14000000 .| (u32 word_offset .& 0x03FFFFFF).

Definition enc_bl (word_offset : Z) : Z :=
  0x94000000 .| (u32 word_offset .& 0x03FFFFFF).

Definition arm64_branch_in_range (byte_offset : Z) : bool :=
  if nz (byte_offset .& 3) then false
  else let word_offset := byte_offset .>> 2 in
       (- (2 ^ 25) <=? word_offset) && (word_offset <? 2 ^ 25).

(** [a - b] for two [uint32_t] pointers. *)
Definition ptrdiff32 (a b : Z) : Z := (a - b) / 4.

(** The reach of a B instruction, in words. *)
Definition b_reach (off : Z) : Prop := - 2 ^ 25 <= off < 2 ^ 25.

Lemma imm26_decode C off :
  b_reach off -> C .& 0x03FFFFFF = 0 ->
  signed 26 (fld (C .| (u32 off .& 0x03FFFFFF)) 0 26) = off.
Proof.
  intros Hr HC. unfold fld. rewrite Z.shiftr_0_r, Z.land_lor_distr_l.
  change (Z.ones 26) with 0x03FFFFFF. rewrite HC, Z.lor_0_l, <- Z.land_assoc.
  change (0x03FFFFFF .& 0x03FFFFFF) with (Z.ones 26). rewrite Z.land_ones by lia.
  unfold u32. replace ((off mod 2 ^ 32) mod 2 ^ 26) with (off mod 2 ^ 26).
  - unfold signed. rewrite Zmod_mod. apply (signed_small 26); [lia|].
    unfold b_reach in Hr. lia.
  - change (2 ^ 32) with (2 ^ 26 * 2 ^ 6). rewrite Z.rem_mul_r by lia.
    rewrite Z.mul_comm, Z.mod_add by lia. by rewrite Zmod_mod.
Qed.

Lemma decode_enc_b off : b_reach off -> decode (enc_b off) = Some (B off).
Proof.
  intros Hr. unfold decode, enc_b.
  assert (Hk : (0x14000000 .| (u32 off .& 0x03FFFFFF)) .& 0xFC000000 = 0x14000000).
  { rewrite Z.land_lor_distr_l, <- Z.land_assoc.
    change (0x03FFFFFF .& 0xFC000000) with 0. by rewrite Z.land_0_r. }
  rewrite Hk. cbn [Z.eqb Pos.eqb]. by rewrite imm26_decode.
Qed.

Lemma decode_enc_bl off : b_reach off -> decode (enc_bl off) = Some (BL off).
Proof.
  intros Hr. unfold decode, enc_bl.
  assert (Hk : (0x94000000 .| (u32 off .& 0x03FFFFFF)) .& 0xFC000000 = 0x94000000).
  { rewrite Z.land_lor_distr_l, <- Z.land_assoc.
    change (0x03FFFFFF .& 0xFC000000) with 0. by rewrite Z.land_0_r. }
  rewrite Hk. cbn [Z.eqb Pos.eqb]. by rewrite imm26_decode.
Qed.

Lemma land3_mod4 z : z .& 3 = z mod 4.
Proof. change 3 with (Z.ones 2). by rewrite Z.land_ones. Qed.

Lemma branch_in_range_spec off :
  arm64_branch_in_range off = true <-> off mod 4 = 0 /\ b_reach (off / 4).
Proof.
  unfold arm64_branch_in_range, nz, b_reach. rewrite land3_mod4, Z.shiftr_div_pow2 by lia.
  change (2 ^ 2) with 4. destruct (Z.eqb_spec (off mod 4) 0); simpl.
  - rewrite andb_true_iff, Z.leb_le, Z.ltb_lt. lia.
  - split; [done|lia].
Qed.

(** A branch written at [src] to reach [dst] arrives at [dst]. *)
Lemma enc_b_arrives code st src dst :
  code src = Some (enc_b (ptrdiff32 dst src)) -> cpu_pc st = src ->
  b_reach (ptrdiff32 dst src) -> (dst - src) mod 4 = 0 -> 0 <= dst < 2 ^ 64 ->
  reaches code st (set_pc st dst).
Proof.
  intros Hc Hpc Hr Hal Hd.
  replace (set_pc st dst) with (exec (B (ptrdiff32 dst src)) st).
  - eapply reaches_step; [rewrite Hpc; exact Hc|by apply decode_enc_b].
  - simpl. unfold jump. rewrite Hpc.
    unfold ptrdiff32. replace (src + 4 * ((dst - src) / 4)) with dst.
    + by rewrite u64_small.
    + pose proof (Z.div_mod (dst - src) 4). lia.
Qed.
