(* ===== verification/IsaEmul.v ===== *)
(** * ISA extension emulation: src/isa_emul.c

    The encoders, the LSE and BCAX decoders, the island generators, the pool
    estimate and the patching loop, translated function by function.  Island
    generators return the list of words they write; [n], the C index of the
    next word, is the length of what was written so far. *)

From S2P Require Import Prelude Arm64 Arm64Enc.

(** ** Encoders *)

Definition enc_cbnz_w (rt word_offset : Z) : Z :=
  0x35000000 .| ((word_offset .& 0x7FFFF) .<< 5) .| rt.
Definition enc_str_pre (rt : Z) : Z := 0xF81F0FE0 .| rt.
Definition enc_ldr_post (rt : Z) : Z := 0xF84107E0 .| rt.
Definition enc_mrs_nzcv (rt : Z) : Z := 0xD53B4200 .| rt.
Definition enc_msr_nzcv (rt : Z) : Z := 0xD51B4200 .| rt.

Definition enc_ldxr (size acquire rt rn : Z) : Z :=
  let base := 0x08407C00 in
  let base := if nz acquire then base .| (1 .<< 15) else base in
  base .| (size .<< 30) .| (rn .<< 5) .| rt.
Definition enc_ldxrb (acquire rt rn : Z) : Z := enc_ldxr 0 acquire rt rn.
Definition enc_ldxrh (acquire rt rn : Z) : Z := enc_ldxr 1 acquire rt rn.

Definition enc_stxr (size release rs rt rn : Z) : Z :=
  let base := 0x08007C00 in
  let base := if nz release then base .| (1 .<< 15) else base in
  base .| (size .<< 30) .| (rs .<< 16) .| (rn .<< 5) .| rt.

Definition enc_add (is64 rd rn rm : Z) : Z :=
  (if nz is64 then 0x8B000000 else 0x0B000000) .| (rm .<< 16) .| (rn .<< 5) .| rd.
Definition enc_bic (is64 rd rn rm : Z) : Z :=
  (if nz is64 then 0x8A200000 else 0x0A200000) .| (rm .<< 16) .| (rn .<< 5) .| rd.
Definition enc_eor (is64 rd rn rm : Z) : Z :=
  (if nz is64 then 0xCA000000 else 0x4A000000) .| (rm .<< 16) .| (rn .<< 5) .| rd.
Definition enc_orr (is64 rd rn rm : Z) : Z :=
  (if nz is64 then 0xAA000000 else 0x2A000000) .| (rm .<< 16) .| (rn .<< 5) .| rd.
Definition enc_cmp (is64 rn rm : Z) : Z :=
  (if nz is64 then 0xEB000000 else 0x6B000000) .| (rm .<< 16) .| (rn .<< 5) .| 31.
Definition enc_csel (is64 rd rn rm cond : Z) : Z :=
  (if nz is64 then 0x9A800000 else 0x1A800000)
  .| (rm .<< 16) .| (cond .<< 12) .| (rn .<< 5) .| rd.
Definition enc_mov (is64 rd rn : Z) : Z := enc_orr is64 rd 31 rn.
Definition enc_sxtb (rd rn : Z) : Z := 0x13001C00 .| (rn .<< 5) .| rd.
Definition enc_sxth (rd rn : Z) : Z := 0x13003C00 .| (rn .<< 5) .| rd.

Definition COND_GT : Z := 0xC.
Definition COND_LT : Z := 0xB.
Definition COND_HI : Z := 0x8.
Definition COND_LO : Z := 0x3.
Definition COND_EQ : Z := 0x0.
Definition COND_NE : Z := 0x1.

(** ** Scratch registers *)

(** [for (...) if (!(exclude_mask & (1U << r))) return r;] over the listed [r]. *)
Definition first_free (exclude_mask : Z) (rs : list Z) : option Z :=
  find (fun r => negb (nz (exclude_mask .& (1 .<< r)))) rs.

Definition pick_scratch (exclude_mask : Z) : Z :=
  match first_free exclude_mask [16; 15; 14; 13; 12; 11; 10; 9] with
  | Some r => r
  | None =>
      match first_free exclude_mask [17; 18; 19; 20; 21; 22; 23; 24; 25; 26; 27; 28] with
      | Some r => r
      | None => 8
      end
  end.

(** ** LSE decoding *)

Inductive lse_op :=
| LSE_LDADD | LSE_LDCLR | LSE_LDEOR | LSE_LDSET
| LSE_LDSMAX | LSE_LDSMIN | LSE_LDUMAX | LSE_LDUMIN
| LSE_SWP | LSE_CAS | LSE_NONE.
#[export] Instance lse_op_eq_dec : EqDecision lse_op.
Proof. solve_decision. Defined.

Record lse_decoded := mk_lse {
  d_op : lse_op; d_size : Z; d_acquire : Z; d_release : Z; d_rs : Z; d_rt : Z; d_rn : Z;
}.

Definition lse_opc (opc : Z) : lse_op :=
  match opc with
  | 0 => LSE_LDADD | 1 => LSE_LDCLR | 2 => LSE_LDEOR | 3 => LSE_LDSET
  | 4 => LSE_LDSMAX | 5 => LSE_LDSMIN | 6 => LSE_LDUMAX | 7 => LSE_LDUMIN
  | _ => LSE_NONE
  end.

(** [Some d] is the return value 1 with [*d] filled in, [None] the return value 0. *)
Definition decode_lse (instr : Z) : option lse_decoded :=
  if instr .& 0x3F200C00 =? 0x38200000 then
    let o3 := (instr .>> 15) .& 1 in
    let opc := (instr .>> 12) .& 7 in
    Some (mk_lse (if o3 =? 1 then LSE_SWP else lse_opc opc)
                 ((instr .>> 30) .& 3) ((instr .>> 23) .& 1) ((instr .>> 22) .& 1)
                 ((instr .>> 16) .& 0x1F) (instr .& 0x1F) ((instr .>> 5) .& 0x1F))
  else if instr .& 0x3FA07C00 =? 0x08A07C00 then
    Some (mk_lse LSE_CAS
                 ((instr .>> 30) .& 3) ((instr .>> 23) .& 1) ((instr .>> 15) .& 1)
                 ((instr .>> 16) .& 0x1F) (instr .& 0x1F) ((instr .>> 5) .& 0x1F))
  else None.

(** ** Island generation *)

Definition bit (r : Z) : Z := 1 .<< r.

(** The branch that ends an island: [off = orig_addr + 1 - &island[n]]. *)
Definition back_branch (island orig_addr : Z) (n : nat) : Z :=
  enc_b (i32 (ptrdiff32 (orig_addr + 4) (island + 4 * Z.of_nat n))).

Definition cas_scratch (d : lse_decoded) : Z * Z :=
  let mask := bit 31 .| bit (d_rs d) .| bit (d_rt d) .| bit (d_rn d) in
  let s1 := pick_scratch mask in
  let s2 := pick_scratch (mask .| bit s1) in
  (s1, s2).

Definition emit_cas (d : lse_decoded) (island orig_addr : Z) : list Z :=
  let is_x := b2z (d_size d =? 3) in
  let '(s1, s2) := cas_scratch d in
  let w := [enc_str_pre s1; enc_str_pre s2; enc_mrs_nzcv s1; enc_str_pre s1] in
  let loop_start := Z.of_nat (length w) in
  let w := w ++ [enc_ldxr (d_size d) (d_acquire d) s2 (d_rn d);
                 enc_cmp is_x s2 (d_rs d);
                 0x54000000 .| (3 .<< 5) .| COND_NE;
                 enc_stxr (d_size d) (d_release d) s1 (d_rt d) (d_rn d)] in
  let w := w ++ [enc_cbnz_w s1 (loop_start - Z.of_nat (length w))] in
  let w := w ++ [0xD5033F5F] in
  let w := w ++ (if d_rs d =? 31 then [] else [enc_mov is_x (d_rs d) s2]) in
  let w := w ++ [enc_ldr_post s1; enc_msr_nzcv s1; enc_ldr_post s2; enc_ldr_post s1] in
  w ++ [back_branch island orig_addr (length w)].

Definition rmw_scratch (d : lse_decoded) : Z * Z * Z :=
  let mask := bit 31 .| bit (d_rs d) .| bit (d_rn d) in
  let mask := if d_rt d =? 31 then mask else mask .| bit (d_rt d) in
  let s1 := pick_scratch mask in
  let mask := mask .| bit s1 in
  let s2 := pick_scratch mask in
  let mask := mask .| bit s2 in
  let s3 := pick_scratch mask in
  (s1, s2, s3).

(** The [switch (d->op)] that computes the new value. *)
Definition emit_alu (d : lse_decoded) (load_reg new_val_reg status_reg : Z) : list Z :=
  let is_x := b2z (d_size d =? 3) in
  match d_op d with
  | LSE_LDADD => [enc_add is_x new_val_reg load_reg (d_rs d)]
  | LSE_LDCLR => [enc_bic is_x new_val_reg load_reg (d_rs d)]
  | LSE_LDEOR => [enc_eor is_x new_val_reg load_reg (d_rs d)]
  | LSE_LDSET => [enc_orr is_x new_val_reg load_reg (d_rs d)]
  | LSE_LDSMAX | LSE_LDSMIN =>
      let t1 := new_val_reg in
      let t2 := status_reg in
      (if d_size d <? 2 then
         [ (if d_size d =? 0 then enc_sxtb t1 load_reg else enc_sxth t1 load_reg);
           (if d_size d =? 0 then enc_sxtb t2 (d_rs d) else enc_sxth t2 (d_rs d));
           enc_cmp 0 t1 t2 ]
       else [enc_cmp is_x load_reg (d_rs d)])
      ++ (let cond := if decide (d_op d = LSE_LDSMAX) then COND_LT else COND_GT in
          [enc_csel is_x new_val_reg (d_rs d) load_reg cond])
  | LSE_LDUMAX | LSE_LDUMIN =>
      [enc_cmp is_x load_reg (d_rs d)]
      ++ (let cond := if decide (d_op d = LSE_LDUMAX) then COND_LO else COND_HI in
          [enc_csel is_x new_val_reg (d_rs d) load_reg cond])
  | LSE_SWP => [enc_mov is_x new_val_reg (d_rs d)]
  | LSE_CAS | LSE_NONE => []
  end.

Definition emit_rmw (d : lse_decoded) (island orig_addr : Z) : list Z :=
  let is_x := b2z (d_size d =? 3) in
  let '(s1, s2, s3) := rmw_scratch d in
  let w := [enc_str_pre s1; enc_str_pre s2; enc_str_pre s3; enc_mrs_nzcv s1; enc_str_pre s1] in
  let loop_start := Z.of_nat (length w) in
  let w := w ++ [enc_ldxr (d_size d) (d_acquire d) s1 (d_rn d)] in
  let w := w ++ emit_alu d s1 s2 s3 in
  let w := w ++ [enc_stxr (d_size d) (d_release d) s3 s2 (d_rn d)] in
  let w := w ++ [enc_cbnz_w s3 (loop_start - Z.of_nat (length w))] in
  let w := w ++ (if d_rt d =? 31 then [] else [enc_mov is_x (d_rt d) s1]) in
  let w := w ++ [enc_ldr_post s1; enc_msr_nzcv s1; enc_ldr_post s3; enc_ldr_post s2;
                 enc_ldr_post s1] in
  w ++ [back_branch island orig_addr (length w)].

Definition emit_island (d : lse_decoded) (island orig_addr : Z) : list Z :=
  if decide (d_op d = LSE_CAS) then emit_cas d island orig_addr
  else emit_rmw d island orig_addr.

(** ** BCAX *)

Definition enc_neon_bic (vd vn vm : Z) : Z := 0x4E601C00 .| (vm .<< 16) .| (vn .<< 5) .| vd.
Definition enc_neon_eor (vd vn vm : Z) : Z := 0x6E201C00 .| (vm .<< 16) .| (vn .<< 5) .| vd.
Definition enc_str_q_pre (vt : Z) : Z := 0x3C9F0FE0 .| vt.
Definition enc_ldr_q_post (vt : Z) : Z := 0x3CC107E0 .| vt.

(** The operands are (vd, vn, vm, va). *)
Definition decode_bcax (instr : Z) : option (Z * Z * Z * Z) :=
  if negb (instr .& 0xFFE08000 =? 0xCE200000) then None
  else Some (instr .& 0x1F, (instr .>> 5) .& 0x1F, (instr .>> 16) .& 0x1F,
             (instr .>> 10) .& 0x1F).

Definition bcax_scratch (vd vn vm va : Z) : Z :=
  let used := bit vd .| bit vn .| bit vm .| bit va in
  match first_free used (map Z.of_nat (rev (seq 0 32))) with
  | Some r => r
  | None => 31
  end.

Definition emit_bcax_island (vd vn vm va island orig_addr : Z) : list Z :=
  let w :=
    if va =? vd then [enc_neon_bic vd vm vd; enc_neon_eor vd vn vd]
    else let vtmp := bcax_scratch vd vn vm va in
         [enc_str_q_pre vtmp; enc_neon_bic vtmp vm va; enc_neon_eor vd vn vtmp;
          enc_ldr_q_post vtmp] in
  w ++ [back_branch island orig_addr (length w)].

(** ** Pool estimate and patching loop

    [m] is the word memory, by address.  Both functions scan the words at
    [code], [code + 4], ... *)

Definition word_mem := Z -> Z.

Definition estimate_word (w : Z) : Z :=
  match decode_lse w with
  | Some _ => 24
  | None => match decode_bcax w with Some _ => 5 | None => 0 end
  end.

Fixpoint estimate_words (m : word_mem) (code : Z) (count : nat) : Z :=
  match count with
  | O => 0
  | S k => estimate_word (m code) + estimate_words m (code + 4) k
  end.

Definition isa_emul_estimate_pool_size (m : word_mem) (code code_size : Z) : Z :=
  4 * estimate_words m code (Z.to_nat (code_size / 4)).

Fixpoint write_words (m : word_mem) (a : Z) (ws : list Z) : word_mem :=
  match ws with
  | [] => m
  | w :: ws => write_words (upd m a w) (a + 4) ws
  end.

Record patch_state := mk_ps { ps_mem : word_mem; ps_island : Z; ps_patched : Z }.

(** [offset > 0x01FFFFFF || offset < -0x02000000] *)
Definition out_of_b_range (offset : Z) : bool :=
  (0x01FFFFFF <? offset) || (offset <? - 0x02000000).

(** One iteration: [inl] leaves the loop ([break]), [inr] goes on. *)
Definition patch_one (pool_end a : Z) (s : patch_state) : patch_state + patch_state :=
  let instr := ps_mem s a in
  let install (ws : list Z) :=
    let offset := ptrdiff32 (ps_island s) a in
    if out_of_b_range offset then inr s
    else let m := write_words (ps_mem s) (ps_island s) ws in
         inr (mk_ps (upd m a (enc_b (i32 offset)))
                    (ps_island s + 4 * Z.of_nat (length ws)) (ps_patched s + 1)) in
  match decode_lse instr with
  | Some d =>
      if pool_end <? ps_island s + 4 * 24 then inl s
      else install (emit_island d (ps_island s) a)
  | None =>
      match decode_bcax instr with
      | Some (vd, vn, vm, va) =>
          if pool_end <? ps_island s + 4 * 5 then inl s
          else install (emit_bcax_island vd vn vm va (ps_island s) a)
      | None => inr s
      end
  end.

Fixpoint patch_loop (pool_end a : Z) (count : nat) (s : patch_state) : patch_state :=
  match count with
  | O => s
  | S k => match patch_one pool_end a s with
           | inl s' => s'
           | inr s' => patch_loop pool_end (a + 4) k s'
           end
  end.

(** The result: memory, the advanced pool pointer, the number of patches. *)
Definition isa_emul_patch (m : word_mem) (code code_size pool pool_end : Z) : patch_state :=
  patch_loop pool_end code (Z.to_nat (code_size / 4)) (mk_ps m pool 0).

(** ** The RCPC and TPIDRRO pass of src/machgate.c, run before the LSE pass *)

Definition ARM64_MRS_TPIDRRO_EL0 : Z := 0xd53bd060.
Definition ARM64_MRS_TPIDR_EL0 : Z := 0xd53bd040.

Definition rewrite_tpidrro_read (instruction : Z) : option Z :=
  if negb (instruction .& 0xffffffe0 =? ARM64_MRS_TPIDRRO_EL0) then None
  else Some (ARM64_MRS_TPIDR_EL0 .| (instruction .& 0x1f)).

Definition rewrite_rcpc (w : Z) : option Z :=
  if w .& 0x3FFFFC00 =? 0x38BFC000 then Some ((w .& 0xC00003FF) .| 0x08DFFC00) else None.

(** One word of the scan loop: the LDAPR rewrite, then the TPIDRRO rewrite of the result. *)
Definition text_patch_word (w : Z) : Z :=
  let w := match rewrite_rcpc w with Some w' => w' | None => w end in
  match rewrite_tpidrro_read w with Some w' => w' | None => w end.
