(* ===== verification/IsaEnc.v ===== *)
(** * The encoders of src/isa_emul.c produce the instructions they name

    One lemma per encoder: the architectural decoder maps the word back to
    the instruction and operands it was built from, for every register. *)

From S2P Require Import Prelude Arm64 Arm64Enc IsaEmul.

(** ** Evaluating masks and fields of words with symbolic registers *)

Lemma reg_off r M : is_reg r -> Z.ones 5 .& M = 0 -> r .& M = 0.
Proof.
  intros Hr HM. rewrite <- (Z.shiftl_0_r r). apply (field_off r 0 5); try done; lia.
Qed.

Lemma fld_lor_reg A r : is_reg r -> A .& Z.ones 5 = 0 -> fld (A .| r) 0 5 = r.
Proof.
  intros Hr HA. rewrite <- (Z.shiftl_0_r r) at 1. by apply fld_lor_shiftl.
Qed.

Ltac var_mask :=
  match goal with
  | |- context [(?r .<< ?k) .& ?M] =>
      is_var r; rewrite (field_off r k 5 M); [|assumption|lia|lia|reflexivity]
  | |- context [?r .& ?M] => is_var r; rewrite (reg_off r M); [|assumption|reflexivity]
  end.

Ltac split_mask :=
  match goal with |- context [(?A .| ?B) .& ?M] => rewrite (Z.land_lor_distr_l A B M) end.

Ltac prove_mask := repeat split_mask; repeat var_mask; vm_compute; reflexivity.

Ltac peel_field :=
  match goal with
  | |- fld (?A .| ?B) ?k ?n = _ => rewrite (fld_lor_off A B k n); [|lia|lia|prove_mask]
  end.

Ltac skel w :=
  lazymatch w with
  | ?A .| (?r .<< ?k) =>
      let a := skel A in
      match goal with
      | _ => let _ := match goal with _ => is_var r end in a
      | _ => constr:(a .| (r .<< k))
      end
  | ?A .| ?r =>
      let a := skel A in
      match goal with
      | _ => let _ := match goal with _ => is_var r end in a
      | _ => constr:(a .| r)
      end
  | _ => w
  end.

Ltac take_field :=
  match goal with
  | |- fld (?A .| (?r .<< ?k)) ?k ?n = ?r =>
      exact (fld_lor_shiftl A r k n ltac:(assumption) ltac:(lia) ltac:(lia) ltac:(prove_mask))
  | _ => peel_field
  end.

Lemma lor_swap a b c : a .| b .| c = a .| c .| b.
Proof. by rewrite <- !Z.lor_assoc, (Z.lor_comm b c). Qed.

Lemma test_true {A} (x : Z) v V (a b r : A) :
  x = v -> (v =? V) = true -> a = r -> (if x =? V then a else b) = r.
Proof. by intros -> -> ->. Qed.
Lemma test_false {A} (x : Z) v V (a b r : A) :
  x = v -> (v =? V) = false -> b = r -> (if x =? V then a else b) = r.
Proof. by intros -> -> ->. Qed.

(** One test of the decoder, decided from the fixed bits of the word. *)
Ltac dec_step :=
  lazymatch goal with
  | |- (if ?w .& ?M =? ?V then _ else _) = _ =>
      let c := skel w in
      let v := eval vm_compute in (c .& M) in
      first [ refine (test_true (w .& M) v V _ _ _ _ eq_refl _); [prove_mask|]
            | refine (test_false (w .& M) v V _ _ _ _ eq_refl _); [prove_mask|] ]
  end.

Ltac fld_eval :=
  match goal with
  | |- context [fld ?w ?k ?n] =>
      let H := fresh in
      first
        [ match w with context [?r .<< k] => is_var r;
            assert (H : fld w k n = r) by
              (repeat take_field) end
        | match k with 0 => match w with _ .| ?r => is_var r;
            assert (H : fld w k n = r) by (apply fld_lor_reg; [assumption|prove_mask]) end end
        | let c := skel w in let v := eval vm_compute in (fld c k n) in
          assert (H : fld w k n = v) by
            (repeat peel_field; vm_compute; reflexivity) ];
      rewrite H; clear H
  end.

Ltac dec := unfold decode, key_mask; cbv zeta; repeat dec_step; repeat fld_eval; reflexivity.

(** ** Register-only words *)

Lemma decode_str_pre r : is_reg r -> decode (enc_str_pre r) = Some (STRpre r 31 (-16)).
Proof. intros Hr. unfold enc_str_pre. dec. Qed.
Lemma decode_ldr_post r : is_reg r -> decode (enc_ldr_post r) = Some (LDRpost r 31 16).
Proof. intros Hr. unfold enc_ldr_post. dec. Qed.
Lemma decode_mrs_nzcv r : is_reg r -> decode (enc_mrs_nzcv r) = Some (MRSnzcv r).
Proof. intros Hr. unfold enc_mrs_nzcv. dec. Qed.
Lemma decode_msr_nzcv r : is_reg r -> decode (enc_msr_nzcv r) = Some (MSRnzcv r).
Proof. intros Hr. unfold enc_msr_nzcv. dec. Qed.
Lemma decode_str_q_pre r : is_reg r -> decode (enc_str_q_pre r) = Some (STRQpre r 31 (-16)).
Proof. intros Hr. unfold enc_str_q_pre. dec. Qed.
Lemma decode_ldr_q_post r : is_reg r -> decode (enc_ldr_q_post r) = Some (LDRQpost r 31 16).
Proof. intros Hr. unfold enc_ldr_q_post. dec. Qed.

(** ** Two and three registers *)

Ltac dec_bits :=
  repeat match goal with
         | H : ?b = 0 \/ ?b = 1 |- _ => destruct H as [-> | ->]
         end.

Lemma decode_ldxr size acq rt rn :
  0 <= size < 4 -> acq = 0 \/ acq = 1 -> is_reg rt -> is_reg rn ->
  decode (enc_ldxr size acq rt rn) = Some (LDXR size acq rt rn).
Proof.
  intros Hs Ha Ht Hn. unfold enc_ldxr.
  assert (size = 0 \/ size = 1 \/ size = 2 \/ size = 3) as [-> | [-> | [-> | ->]]] by lia;
    dec_bits; cbn [nz negb Z.eqb]; dec.
Qed.

Lemma decode_stxr size rel rs rt rn :
  0 <= size < 4 -> rel = 0 \/ rel = 1 -> is_reg rs -> is_reg rt -> is_reg rn ->
  decode (enc_stxr size rel rs rt rn) = Some (STXR size rel rs rt rn).
Proof.
  intros Hs Ha Hr Ht Hn. unfold enc_stxr.
  assert (size = 0 \/ size = 1 \/ size = 2 \/ size = 3) as [-> | [-> | [-> | ->]]] by lia;
    dec_bits; cbn [nz negb Z.eqb]; dec.
Qed.

Section three_registers.
Context (sf rd rn rm : Z) (Hsf : sf = 0 \/ sf = 1).
Context (Hd : is_reg rd) (Hn : is_reg rn) (Hm : is_reg rm).

Lemma decode_add : decode (enc_add sf rd rn rm) = Some (ALU A_ADD sf rd rn rm).
Proof. unfold enc_add. dec_bits; cbn [nz negb Z.eqb]; dec. Qed.
Lemma decode_bic : decode (enc_bic sf rd rn rm) = Some (ALU A_BIC sf rd rn rm).
Proof. unfold enc_bic. dec_bits; cbn [nz negb Z.eqb]; dec. Qed.
Lemma decode_eor : decode (enc_eor sf rd rn rm) = Some (ALU A_EOR sf rd rn rm).
Proof. unfold enc_eor. dec_bits; cbn [nz negb Z.eqb]; dec. Qed.
Lemma decode_orr : decode (enc_orr sf rd rn rm) = Some (ALU A_ORR sf rd rn rm).
Proof. unfold enc_orr. dec_bits; cbn [nz negb Z.eqb]; dec. Qed.

Lemma decode_csel cond :
  In cond [COND_GT; COND_LT; COND_HI; COND_LO] ->
  decode (enc_csel sf rd rn rm cond) = Some (CSEL sf rd rn rm cond).
Proof.
  intros Hc. unfold enc_csel. rewrite (lor_swap _ (rm .<< 16) (cond .<< 12)).
  simpl in Hc. destruct Hc as [<-|[<-|[<-|[<-|[]]]]];
    dec_bits; cbn [nz negb Z.eqb]; dec.
Qed.
End three_registers.

Lemma decode_mov sf rd rn :
  sf = 0 \/ sf = 1 -> is_reg rd -> is_reg rn ->
  decode (enc_mov sf rd rn) = Some (ALU A_ORR sf rd 31 rn).
Proof. intros. apply decode_orr; try done. Qed.

Lemma decode_cmp sf rn rm :
  sf = 0 \/ sf = 1 -> is_reg rn -> is_reg rm -> decode (enc_cmp sf rn rm) = Some (SUBS sf 31 rn rm).
Proof.
  intros Hsf Hn Hm. unfold enc_cmp.
  rewrite (lor_swap _ (rn .<< 5) 31), (lor_swap _ (rm .<< 16) 31).
  dec_bits; cbn [nz negb Z.eqb]; dec.
Qed.

Lemma decode_sxtb rd rn : is_reg rd -> is_reg rn -> decode (enc_sxtb rd rn) = Some (SXTB rd rn).
Proof. intros Hd Hn. unfold enc_sxtb. dec. Qed.
Lemma decode_sxth rd rn : is_reg rd -> is_reg rn -> decode (enc_sxth rd rn) = Some (SXTH rd rn).
Proof. intros Hd Hn. unfold enc_sxth. dec. Qed.

Lemma decode_neon_bic vd vn vm :
  is_reg vd -> is_reg vn -> is_reg vm -> decode (enc_neon_bic vd vn vm) = Some (BICv vd vn vm).
Proof. intros Hd Hn Hm. unfold enc_neon_bic. dec. Qed.
Lemma decode_neon_eor vd vn vm :
  is_reg vd -> is_reg vn -> is_reg vm -> decode (enc_neon_eor vd vn vm) = Some (EORv vd vn vm).
Proof. intros Hd Hn Hm. unfold enc_neon_eor. dec. Qed.

(** ** Branches inside an island *)

Lemma decode_cbnz rt off :
  is_reg rt -> In off [-2; -3; -4; -5; -6; -7] ->
  decode (enc_cbnz_w rt off) = Some (CBNZw rt off).
Proof.
  intros Hr Ho. unfold enc_cbnz_w. simpl in Ho.
  destruct Ho as [<-|[<-|[<-|[<-|[<-|[<-|[]]]]]]]; dec.
Qed.

#[export] Hint Resolve decode_str_pre decode_ldr_post decode_mrs_nzcv decode_msr_nzcv
  decode_str_q_pre decode_ldr_q_post decode_ldxr decode_stxr decode_add decode_bic decode_eor
  decode_orr decode_csel decode_mov decode_cmp decode_sxtb decode_sxth decode_neon_bic
  decode_neon_eor decode_cbnz decode_enc_b : mg.
