(* ===== verification/IsaIsland.v ===== *)
(** * An LSE island does what the instruction it replaces does

    The scratch registers are free, the arithmetic block computes the new
    value, the exclusive loop survives any number of spurious failures, and
    the whole island leaves every register, the flags, the stack pointer and
    all memory above the red zone exactly as the LSE instruction would. *)

From Stdlib Require Import Btauto.
From S2P Require Import Prelude Arm64 Arm64Enc IsaEmul IsaEnc.

(** ** Scratch registers are free *)

Lemma testbit_bit r k : 0 <= r -> 0 <= k -> Z.testbit (bit r) k = (k =? r).
Proof.
  intros Hr Hk. unfold bit. rewrite Z.shiftl_1_l.
  destruct (Z.eqb_spec k r) as [->|Hne]; [by apply Z.pow2_bits_true|].
  by apply Z.pow2_bits_false.
Qed.

Lemma nz_land_bit m r : 0 <= r -> nz (m .& (1 .<< r)) = Z.testbit m r.
Proof. intros Hr. rewrite Z.shiftl_1_l. by apply nz_land_pow2. Qed.

Lemma pick_scratch_spec mask L :
  (forall r, 9 <= r <= 16 -> Z.testbit mask r = true -> In r L) ->
  (length L < 8)%nat ->
  9 <= pick_scratch mask <= 16 /\ Z.testbit mask (pick_scratch mask) = false.
Proof.
  intros HL Hlen. unfold pick_scratch.
  destruct (first_free mask [16; 15; 14; 13; 12; 11; 10; 9]) as [r|] eqn:E.
  - apply find_some in E as [Hin Hr]. simpl in Hin.
    assert (9 <= r <= 16) by lia. split; [lia|].
    rewrite nz_land_bit in Hr by lia. by destruct (Z.testbit mask r).
  - exfalso. pose proof (find_none _ _ E) as Hn.
    assert (Hinc : incl [16; 15; 14; 13; 12; 11; 10; 9] L).
    { intros r Hr. specialize (Hn r Hr). cbv beta in Hn. simpl in Hr.
      rewrite nz_land_bit in Hn by lia. apply HL; [lia|]. by destruct (Z.testbit mask r). }
    apply NoDup_incl_length in Hinc; [simpl in Hinc; lia|].
    repeat constructor; simpl; lia.
Qed.

Lemma testbit_lor_bit A r k :
  0 <= r -> 0 <= k -> Z.testbit (A .| bit r) k = Z.testbit A k || (k =? r).
Proof. intros. by rewrite Z.lor_spec, testbit_bit. Qed.

(** Pairwise distinct, caller-saved, none of the operands. *)
Lemma rmw_scratch_ok d s1 s2 s3 :
  is_reg (d_rs d) -> is_reg (d_rt d) -> is_reg (d_rn d) -> rmw_scratch d = (s1, s2, s3) ->
  (9 <= s1 <= 16 /\ 9 <= s2 <= 16 /\ 9 <= s3 <= 16) /\
  (s1 <> s2 /\ s1 <> s3 /\ s2 <> s3) /\
  (d_rs d <> s1 /\ d_rs d <> s2 /\ d_rs d <> s3) /\
  (d_rt d <> s1 /\ d_rt d <> s2 /\ d_rt d <> s3) /\
  (d_rn d <> s1 /\ d_rn d <> s2 /\ d_rn d <> s3).
Proof.
  unfold is_reg, rmw_scratch. intros Hs Ht Hn.
  set (m0 := if d_rt d =? 31 then _ else _).
  assert (Hm0 : forall k, 0 <= k -> Z.testbit m0 k =
    (k =? 31) || (k =? d_rs d) || (k =? d_rn d) || (k =? d_rt d)).
  { intros k Hk. unfold m0. destruct (Z.eqb_spec (d_rt d) 31) as [->|];
      rewrite !testbit_lor_bit, testbit_bit by lia; [|done].
    destruct (k =? 31), (k =? d_rs d), (k =? d_rn d); done. }
  clearbody m0.
  pose (L := [31; d_rs d; d_rn d; d_rt d]).
  destruct (pick_scratch_spec m0 L) as [R1 B1]; [|simpl; lia|].
  { intros k Hk. rewrite Hm0 by lia. rewrite !orb_true_iff, !Z.eqb_eq. simpl. lia. }
  set (p1 := pick_scratch m0) in *.
  destruct (pick_scratch_spec (m0 .| bit p1) (p1 :: L)) as [R2 B2]; [|simpl; lia|].
  { intros k Hk. rewrite testbit_lor_bit, Hm0 by lia.
    rewrite !orb_true_iff, !Z.eqb_eq. simpl. lia. }
  set (p2 := pick_scratch (m0 .| bit p1)) in *.
  destruct (pick_scratch_spec (m0 .| bit p1 .| bit p2) (p2 :: p1 :: L)) as [R3 B3]; [|simpl; lia|].
  { intros k Hk. rewrite !testbit_lor_bit, Hm0 by lia.
    rewrite !orb_true_iff, !Z.eqb_eq. simpl. lia. }
  set (p3 := pick_scratch (m0 .| bit p1 .| bit p2)) in *.
  rewrite !testbit_lor_bit, Hm0 in B3 by lia. rewrite testbit_lor_bit, Hm0 in B2 by lia.
  rewrite Hm0 in B1 by lia. rewrite !orb_false_iff, !Z.eqb_neq in *.
  clear Hm0. clearbody p3. clearbody p2. clearbody p1.
  intros [= <- <- <-]. destruct_and?. repeat split; lia.
Qed.

Lemma cas_scratch_ok d s1 s2 :
  is_reg (d_rs d) -> is_reg (d_rt d) -> is_reg (d_rn d) -> cas_scratch d = (s1, s2) ->
  (9 <= s1 <= 16 /\ 9 <= s2 <= 16 /\ s1 <> s2) /\
  (d_rs d <> s1 /\ d_rs d <> s2) /\ (d_rt d <> s1 /\ d_rt d <> s2) /\
  (d_rn d <> s1 /\ d_rn d <> s2).
Proof.
  unfold is_reg, cas_scratch. intros Hs Ht Hn.
  set (m0 := bit 31 .| _ .| _ .| _).
  assert (Hm0 : forall k, 0 <= k -> Z.testbit m0 k =
    (k =? 31) || (k =? d_rs d) || (k =? d_rt d) || (k =? d_rn d)).
  { intros k Hk. unfold m0. by rewrite !testbit_lor_bit, testbit_bit by lia. }
  clearbody m0. pose (L := [31; d_rs d; d_rn d; d_rt d]).
  destruct (pick_scratch_spec m0 L) as [R1 B1]; [|simpl; lia|].
  { intros k Hk. rewrite Hm0 by lia. rewrite !orb_true_iff, !Z.eqb_eq. simpl. lia. }
  set (p1 := pick_scratch m0) in *.
  destruct (pick_scratch_spec (m0 .| bit p1) (p1 :: L)) as [R2 B2]; [|simpl; lia|].
  { intros k Hk. rewrite testbit_lor_bit, Hm0 by lia.
    rewrite !orb_true_iff, !Z.eqb_eq. simpl. lia. }
  set (p2 := pick_scratch (m0 .| bit p1)) in *.
  rewrite testbit_lor_bit, Hm0 in B2 by lia.
  rewrite Hm0 in B1 by lia. rewrite !orb_false_iff, !Z.eqb_neq in *.
  clear Hm0. clearbody p2. clearbody p1.
  intros [= <- <-]. destruct_and?. repeat split; lia.
Qed.

(** ** Flags and conditions *)

Lemma cond_of_flags (n z c v : bool) :
  let f := (b2z n .<< 31) .| (b2z z .<< 30) .| (b2z c .<< 29) .| (b2z v .<< 28) in
  cond_holds COND_LT f = negb (Bool.eqb n v) /\
  cond_holds COND_GT f = Bool.eqb n v && negb z /\
  cond_holds COND_LO f = negb c /\ cond_holds COND_HI f = c && negb z /\
  cond_holds COND_NE f = negb z /\ cond_holds COND_EQ f = z.
Proof. destruct n, z, c, v; vm_compute; repeat split. Qed.

Section subtraction.
Context (w a b : Z) (Hw : w = 32 \/ w = 64).
Context (Ha : 0 <= a < 2 ^ w) (Hb : 0 <= b < 2 ^ w).

Lemma signed_sub_cases :
  let d := (a - b) mod 2 ^ w in
  negb (Bool.eqb (2 ^ (w - 1) <=? d) (negb (signed w a - signed w b =? signed w d))) =
  (signed w a <? signed w b).
Proof.
  cbv zeta. unfold signed. rewrite !Zmod_mod, (Z.mod_small a), (Z.mod_small b) by lia.
  assert (Hd : (a - b) mod 2 ^ w = if b <=? a then a - b else a - b + 2 ^ w).
  { destruct (Z.leb_spec b a); [apply Z.mod_small; lia|].
    rewrite <- (Z.mod_add _ 1), Z.mul_1_l by lia. apply Z.mod_small. lia. }
  rewrite Hd. destruct Hw as [-> | ->];
    [change (2 ^ 32) with 4294967296 in *; change (2 ^ (32 - 1)) with 2147483648 in *
    |change (2 ^ 64) with 18446744073709551616 in *;
     change (2 ^ (64 - 1)) with 9223372036854775808 in *];
    repeat case_match; lia.
Qed.

Lemma flags_LT : cond_holds COND_LT (sub_flags w a b) = (signed w a <? signed w b).
Proof.
  unfold sub_flags. cbv zeta. rewrite (proj1 (cond_of_flags _ _ _ _)). apply signed_sub_cases.
Qed.
Lemma flags_GT : cond_holds COND_GT (sub_flags w a b) = (signed w b <? signed w a).
Proof.
  unfold sub_flags. cbv zeta. rewrite (proj1 (proj2 (cond_of_flags _ _ _ _))).
  pose proof signed_sub_cases as H. cbv zeta in H.
  assert (Hz : (a =? b) = (signed w a =? signed w b)).
  { unfold signed. rewrite (Z.mod_small a), (Z.mod_small b) by lia. repeat case_match; lia. }
  rewrite Hz. symmetry in H. apply negb_sym in H. rewrite H. lia.
Qed.
Lemma flags_LO : cond_holds COND_LO (sub_flags w a b) = (a <? b).
Proof.
  unfold sub_flags. cbv zeta. rewrite (proj1 (proj2 (proj2 (cond_of_flags _ _ _ _)))). lia.
Qed.
Lemma flags_HI : cond_holds COND_HI (sub_flags w a b) = (b <? a).
Proof.
  unfold sub_flags. cbv zeta.
  rewrite (proj1 (proj2 (proj2 (proj2 (cond_of_flags _ _ _ _))))). lia.
Qed.
Lemma flags_NE : cond_holds COND_NE (sub_flags w a b) = negb (a =? b).
Proof.
  unfold sub_flags. cbv zeta.
  by rewrite (proj1 (proj2 (proj2 (proj2 (proj2 (cond_of_flags _ _ _ _)))))).
Qed.
End subtraction.

(** ** Values modulo the access width *)

Lemma mod_mod_le z w k : 0 <= w <= k -> (z mod 2 ^ k) mod 2 ^ w = z mod 2 ^ w.
Proof.
  intros H. replace k with (w + (k - w)) by lia. rewrite Z.pow_add_r by lia.
  rewrite Z.rem_mul_r by lia. rewrite (Z.mul_comm (2 ^ w)), Z.mod_add by lia. by rewrite Zmod_mod.
Qed.

(** The ALU result only depends on the low bits of its operands. *)
Lemma alu_mod op a b w k :
  0 <= w <= k -> (alu op a (b mod 2 ^ k)) mod 2 ^ w = (alu op a (b mod 2 ^ w)) mod 2 ^ w.
Proof.
  intros H. destruct op; simpl.
  - rewrite Z.add_mod, mod_mod_le by lia. by rewrite <- (Z.add_mod a), Zplus_mod_idemp_r by lia.
  - rewrite <- !Z.land_ones by lia. apply Z.bits_inj'. intros i Hi.
    rewrite !Z.land_spec, !Z.ldiff_spec, !Z.land_spec, !Z.testbit_ones_nonneg by lia.
    destruct (Z.ltb_spec i w), (Z.ltb_spec i k); try lia; btauto.
  - rewrite <- !Z.land_ones by lia. apply Z.bits_inj'. intros i Hi.
    rewrite !Z.land_spec, !Z.lxor_spec, !Z.land_spec, !Z.testbit_ones_nonneg by lia.
    destruct (Z.ltb_spec i w), (Z.ltb_spec i k); try lia; btauto.
  - rewrite <- !Z.land_ones by lia. apply Z.bits_inj'. intros i Hi.
    rewrite !Z.land_spec, !Z.lor_spec, !Z.land_spec, !Z.testbit_ones_nonneg by lia.
    destruct (Z.ltb_spec i w), (Z.ltb_spec i k); try lia; btauto.
Qed.

Lemma signed_mod_le w k z : 0 < w <= k -> signed w (z mod 2 ^ k) = signed w z.
Proof. intros H. unfold signed. by rewrite mod_mod_le by lia. Qed.

Lemma signed_range w z : 0 < w -> - 2 ^ (w - 1) <= signed w z < 2 ^ (w - 1).
Proof.
  intros Hw. unfold signed. pose proof (Z.mod_pos_bound z (2 ^ w) ltac:(lia)).
  assert (Hp : 2 ^ w = 2 * 2 ^ (w - 1)).
  { replace w with (Z.succ (w - 1)) at 1 by lia. apply Z.pow_succ_r; lia. }
  destruct (Z.ltb_spec (z mod 2 ^ w) (2 ^ (w - 1))); lia.
Qed.

(** Sign-extending to 32 bits keeps the signed value. *)
Lemma signed_u32_signed w z : w = 8 \/ w = 16 -> signed 32 (u32 (signed w z)) = signed w z.
Proof.
  intros Hw. unfold u32. rewrite signed_mod_le by lia. apply signed_small; [lia|].
  destruct Hw as [-> | ->]; [pose proof (signed_range 8 z ltac:(lia)) as H
                            |pose proof (signed_range 16 z ltac:(lia)) as H]; simpl in *; lia.
Qed.

Lemma store_mod n a v v' m x :
  0 <= n -> v mod 2 ^ (8 * n) = v' mod 2 ^ (8 * n) -> store n a v m x = store n a v' m x.
Proof.
  intros Hn Hv. unfold store. destruct (_ && _) eqn:E; [|done].
  apply andb_true_iff in E as [E1 E2]. apply Z.leb_le in E1. apply Z.ltb_lt in E2.
  rewrite <- !Z.land_ones in Hv by lia.
  change 255 with (Z.ones 8). apply Z.bits_inj'. intros i Hi.
  rewrite !Z.land_spec, !Z.shiftr_spec, !Z.testbit_ones_nonneg by lia.
  destruct (Z.ltb_spec i 8); [|by rewrite !andb_false_r].
  apply (f_equal (fun z => Z.testbit z (i + 8 * (x - a)))) in Hv.
  rewrite !Z.land_spec, !Z.testbit_ones_nonneg in Hv by lia.
  destruct (Z.ltb_spec (i + 8 * (x - a)) (8 * n)); [|lia].
  by rewrite !andb_true_r in *.
Qed.
