(* ===== verification/IsaIslandRun.v ===== *)
(** * Running an LSE island

    Symbolic execution of the islands of [emit_rmw] and [emit_cas]: prologue,
    exclusive loop, epilogue. *)

From S2P Require Import Prelude Arm64 Arm64Enc IsaEmul IsaEnc IsaIsland.

(** ** Reading registers through state updates *)

Lemma wx_ne r st v : r <> 31 -> wx st r v = set_x st r v.
Proof. intros H. unfold wx. by destruct (Z.eqb_spec r 31). Qed.
Lemma wx_31 st v : wx st 31 v = st.
Proof. done. Qed.
Lemma rx_ne r st : r <> 31 -> rx st r = cpu_x st r.
Proof. intros H. unfold rx. by destruct (Z.eqb_spec r 31). Qed.
Lemma rbase_ne r st : r <> 31 -> rbase st r = cpu_x st r.
Proof. intros H. unfold rbase. by destruct (Z.eqb_spec r 31). Qed.
Lemma rx_set_x_eq r st v : r <> 31 -> rx (set_x st r v) r = v.
Proof. intros H. rewrite rx_ne by done. apply upd_eq. Qed.
Lemma rx_set_x_ne r s st v : r <> s -> rx (set_x st s v) r = rx st r.
Proof. intros H. unfold rx. destruct (_ =? 31); [done|]. by apply upd_ne. Qed.
Lemma x_set_x_eq r st v : cpu_x (set_x st r v) r = v.
Proof. apply upd_eq. Qed.
Lemma x_set_x_ne r s st v : r <> s -> cpu_x (set_x st s v) r = cpu_x st r.
Proof. intros H. by apply upd_ne. Qed.
Lemma rx_next st r : rx (next st) r = rx st r.
Proof. done. Qed.
Lemma rx_set_nzcv st r v : rx (set_nzcv st v) r = rx st r.
Proof. done. Qed.
Lemma rx_set_mon st r o k : rx (set_mon st o k) r = rx st r.
Proof. done. Qed.
Lemma rx_set_mem st r m : rx (set_mem st m) r = rx st r.
Proof. done. Qed.
Lemma rx_set_sp st r v : rx (set_sp st v) r = rx st r.
Proof. done. Qed.

Create Rewrite HintDb cpu.
#[export] Hint Rewrite wx_ne rx_set_x_eq rx_set_x_ne x_set_x_eq x_set_x_ne
  using (eauto with mg) : cpu.
#[export] Hint Rewrite wx_31 rx_next rx_set_nzcv rx_set_mon rx_set_mem rx_set_sp : cpu.

(** Everything the arithmetic block must leave alone. *)
Definition untouched (l : list Z) (st st' : cpu) : Prop :=
  (forall r, ~ In r l -> cpu_x st' r = cpu_x st r) /\
  cpu_sp st' = cpu_sp st /\ cpu_v st' = cpu_v st /\ cpu_mem st' = cpu_mem st /\
  cpu_mon st' = cpu_mon st /\ cpu_spur st' = cpu_spur st.

Lemma untouched_rx l st st' r : untouched l st st' -> ~ In r l -> rx st' r = rx st r.
Proof. intros [H _] Hr. unfold rx. destruct (_ =? _); [done|]. by apply H. Qed.

Lemma untouched_trans l a b c : untouched l a b -> untouched l b c -> untouched l a c.
Proof.
  intros [Ha Hae] [Hb Hbe]. split; [|destruct_and?; repeat split; congruence].
  intros r Hr. by rewrite Hb, Ha.
Qed.

(** Data-processing instructions write their destination and the flags only. *)
Definition dp_dest (i : instr) : option Z :=
  match i with
  | ALU _ _ rd _ _ | SUBS _ rd _ _ | CSEL _ rd _ _ _ | SXTB rd _ | SXTH rd _ => Some rd
  | _ => None
  end.

Lemma untouched_wx l st r v : r = 31 \/ In r l -> untouched l st (next (wx st r v)).
Proof.
  intros Hr. unfold wx. destruct (Z.eqb_spec r 31); (split; [|by repeat split]); [done|].
  intros k Hk. cbn [next set_pc set_x cpu_x]. apply upd_ne. destruct Hr; congruence.
Qed.

Lemma exec_untouched l i st rd :
  dp_dest i = Some rd -> rd = 31 \/ In rd l -> untouched l st (exec i st).
Proof.
  intros Hd Hr. destruct i; try discriminate Hd; injection Hd as ->; cbn [exec];
    try by apply untouched_wx.
  eapply untouched_trans; [|by apply untouched_wx]. by split.
Qed.

Lemma exec_all_untouched l il st :
  Forall (fun i => exists rd, dp_dest i = Some rd /\ (rd = 31 \/ In rd l)) il ->
  untouched l st (exec_all il st).
Proof.
  intros H. revert st. induction H as [|i il (rd&Hd&Hr) _ IH]; intros st; [by split|].
  eapply untouched_trans; [by eapply exec_untouched|apply IH].
Qed.

(** ** The arithmetic block *)

Definition arch_op (op : lse_op) : option lse_arch_op :=
  match op with
  | LSE_LDADD => Some ARCH_LDADD | LSE_LDCLR => Some ARCH_LDCLR
  | LSE_LDEOR => Some ARCH_LDEOR | LSE_LDSET => Some ARCH_LDSET
  | LSE_LDSMAX => Some ARCH_LDSMAX | LSE_LDSMIN => Some ARCH_LDSMIN
  | LSE_LDUMAX => Some ARCH_LDUMAX | LSE_LDUMIN => Some ARCH_LDUMIN
  | LSE_SWP => Some ARCH_SWP
  | LSE_CAS | LSE_NONE => None
  end.

Definition is_x (d : lse_decoded) : Z := b2z (d_size d =? 3).

Definition alu_instrs (d : lse_decoded) (s1 s2 s3 : Z) : list instr :=
  match d_op d with
  | LSE_LDADD => [ALU A_ADD (is_x d) s2 s1 (d_rs d)]
  | LSE_LDCLR => [ALU A_BIC (is_x d) s2 s1 (d_rs d)]
  | LSE_LDEOR => [ALU A_EOR (is_x d) s2 s1 (d_rs d)]
  | LSE_LDSET => [ALU A_ORR (is_x d) s2 s1 (d_rs d)]
  | LSE_LDSMAX | LSE_LDSMIN =>
      (if d_size d =? 0 then [SXTB s2 s1; SXTB s3 (d_rs d); SUBS 0 31 s2 s3]
       else if d_size d =? 1 then [SXTH s2 s1; SXTH s3 (d_rs d); SUBS 0 31 s2 s3]
       else [SUBS (is_x d) 31 s1 (d_rs d)])
      ++ [CSEL (is_x d) s2 (d_rs d) s1
            (if decide (d_op d = LSE_LDSMAX) then COND_LT else COND_GT)]
  | LSE_LDUMAX | LSE_LDUMIN =>
      [SUBS (is_x d) 31 s1 (d_rs d);
       CSEL (is_x d) s2 (d_rs d) s1
            (if decide (d_op d = LSE_LDUMAX) then COND_LO else COND_HI)]
  | LSE_SWP => [ALU A_ORR (is_x d) s2 31 (d_rs d)]
  | LSE_CAS | LSE_NONE => []
  end.

(** Selecting an operand by comparing is the min/max of the architecture. *)
Section select.
Context (w k old src : Z) (Hw : 0 < w <= k) (Hold : 0 <= old < 2 ^ w).

Lemma signed_eq_mod : signed w old = signed w src -> old mod 2 ^ w = src mod 2 ^ w.
Proof. intros H. rewrite <- (signed_mod w old), <- (signed_mod w src), H by lia. done. Qed.

Lemma smax_select :
  (if signed w old <? signed w src then src mod 2 ^ k else old) mod 2 ^ w =
  lse_new ARCH_LDSMAX w old (src mod 2 ^ w) mod 2 ^ w.
Proof.
  simpl. rewrite signed_mod_le by lia. pose proof signed_eq_mod.
  destruct (Z.ltb_spec (signed w old) (signed w src)), (Z.ltb_spec (signed w src) (signed w old));
    try lia; rewrite ?Zmod_mod, ?mod_mod_le by lia; auto with lia.
Qed.
Lemma smin_select :
  (if signed w src <? signed w old then src mod 2 ^ k else old) mod 2 ^ w =
  lse_new ARCH_LDSMIN w old (src mod 2 ^ w) mod 2 ^ w.
Proof.
  simpl. rewrite signed_mod_le by lia. pose proof signed_eq_mod.
  destruct (Z.ltb_spec (signed w old) (signed w src)), (Z.ltb_spec (signed w src) (signed w old));
    try lia; rewrite ?Zmod_mod, ?mod_mod_le by lia; auto with lia.
Qed.
End select.

(** Sign-extended copies compare like the sub-word values. *)
Lemma sext_flags w a b :
  w = 8 \/ w = 16 ->
  let f := sub_flags 32 (u32 (signed w a)) (u32 (signed w b)) in
  cond_holds COND_LT f = (signed w a <? signed w b) /\
  cond_holds COND_GT f = (signed w b <? signed w a).
Proof.
  intros Hw. cbv zeta. rewrite flags_LT, flags_GT by (auto using u32_range).
  by rewrite !signed_u32_signed.
Qed.

(** The facts of [rmw_scratch_ok], one at a time. *)
Record free3 (d : lse_decoded) (s1 s2 s3 : Z) : Prop := {
  f_rs : is_reg (d_rs d); f_rt : is_reg (d_rt d); f_rn : is_reg (d_rn d);
  f_s1 : is_reg s1; f_s2 : is_reg s2; f_s3 : is_reg s3;
  f_s1z : s1 <> 31; f_s2z : s2 <> 31; f_s3z : s3 <> 31;
  f_12 : s1 <> s2; f_13 : s1 <> s3; f_23 : s2 <> s3;
  f_21 : s2 <> s1; f_31 : s3 <> s1; f_32 : s3 <> s2;
  f_rs1 : d_rs d <> s1; f_rs2 : d_rs d <> s2; f_rs3 : d_rs d <> s3;
  f_rt1 : d_rt d <> s1; f_rt2 : d_rt d <> s2; f_rt3 : d_rt d <> s3;
  f_rn1 : d_rn d <> s1; f_rn2 : d_rn d <> s2; f_rn3 : d_rn d <> s3;
}.
#[export] Hint Resolve f_rs f_rt f_rn f_s1 f_s2 f_s3 f_s1z f_s2z f_s3z f_12 f_13 f_23 f_21 f_31 f_32
  f_rs1 f_rs2 f_rs3 f_rt1 f_rt2 f_rt3 f_rn1 f_rn2 f_rn3 : mg.

Lemma rmw_free d s1 s2 s3 :
  is_reg (d_rs d) -> is_reg (d_rt d) -> is_reg (d_rn d) -> rmw_scratch d = (s1, s2, s3) ->
  free3 d s1 s2 s3.
Proof.
  intros Hs Ht Hn E. pose proof (rmw_scratch_ok d s1 s2 s3 Hs Ht Hn E) as H.
  destruct H as ((?&?&?)&(?&?&?)&(?&?&?)&(?&?&?)&(?&?&?)).
  constructor; auto; unfold is_reg; lia.
Qed.

Section rmw.
Context (d : lse_decoded) (s1 s2 s3 : Z).
Context (Hsize : 0 <= d_size d < 4) (F : free3 d s1 s2 s3).

Lemma is_x_bit : is_x d = 0 \/ is_x d = 1.
Proof. unfold is_x. destruct (_ =? 3); auto. Qed.

Lemma size_cases : d_size d = 0 \/ d_size d = 1 \/ d_size d = 2 \/ d_size d = 3.
Proof. lia. Qed.

Lemma alu_decodes : Forall2 (fun i w => decode w = Some i) (alu_instrs d s1 s2 s3)
                            (emit_alu d s1 s2 s3).
Proof.
  pose proof is_x_bit. unfold alu_instrs, emit_alu. fold (is_x d).
  destruct (d_op d); simpl; destruct size_cases as [Es|[Es|[Es|Es]]];
    rewrite ?Es; simpl; repeat constructor; eauto with mg;
    try (apply decode_cmp; eauto with mg); try (apply decode_csel; eauto with mg; simpl; auto).
Qed.

Lemma opw_cases : (opw (is_x d) = 32 /\ d_size d < 3) \/ (opw (is_x d) = 64 /\ d_size d = 3).
Proof. unfold is_x. destruct (Z.eqb_spec (d_size d) 3); [right|left]; (split; [done|lia]). Qed.

Lemma width_le_opw : 8 <= 8 * size_bytes (d_size d) <= opw (is_x d).
Proof.
  unfold size_bytes. destruct opw_cases as [[-> ?]|[-> ->]]; [|simpl; lia].
  destruct size_cases as [->|[->|[->|?]]]; simpl; lia.
Qed.

(** The three shapes of block: one ALU instruction, a compare and select on
    the operands, a compare and select on sign-extended copies. *)
Lemma alu_one st op r a b :
  rx (exec_all [ALU op (is_x d) s2 a b] st) s2 = r ->
  r = alu op (rop (is_x d) st a) (rop (is_x d) st b) mod 2 ^ opw (is_x d).
Proof.
  intros <-. cbn [exec_all fold_left exec]. rewrite wx_ne, rx_next, rx_set_x_eq by eauto with mg. done.
Qed.

Lemma cmp_sel st cond :
  rx (exec_all [SUBS (is_x d) 31 s1 (d_rs d); CSEL (is_x d) s2 (d_rs d) s1 cond] st) s2 =
  if cond_holds cond (sub_flags (opw (is_x d)) (rop (is_x d) st s1) (rop (is_x d) st (d_rs d)))
  then rop (is_x d) st (d_rs d) else rop (is_x d) st s1.
Proof.
  cbn [exec_all fold_left exec]. rewrite wx_31, wx_ne, rx_next, rx_set_x_eq by eauto with mg. done.
Qed.

Lemma sext_sel st cond sx w :
  sx = SXTB /\ w = 8 \/ sx = SXTH /\ w = 16 ->
  rx (exec_all [sx s2 s1; sx s3 (d_rs d); SUBS 0 31 s2 s3; CSEL (is_x d) s2 (d_rs d) s1 cond] st) s2 =
  if cond_holds cond (sub_flags 32 (u32 (signed w (rx st s1))) (u32 (signed w (rx st (d_rs d)))))
  then rop (is_x d) st (d_rs d) else rop (is_x d) st s1.
Proof.
  intros [[-> ->]|[-> ->]]; cbn [exec_all fold_left exec]; rewrite wx_31, !wx_ne by eauto with mg;
    unfold rop; repeat (rewrite ?rx_next, ?rx_set_nzcv, ?rx_set_x_eq, ?rx_set_x_ne by eauto with mg);
    cbn [next set_pc set_x set_nzcv cpu_nzcv]; change (opw 0) with 32;
    fold (u32 (u32 (signed 8 (rx st s1)))); unfold u32; rewrite !Zmod_mod; done.
Qed.

(** The signed block at every size. *)
Lemma signed_block st cond cmp old :
  rop (is_x d) st s1 = old -> rx st s1 = old -> 0 <= old ->
  (forall w a b, w = 32 \/ w = 64 -> 0 <= a < 2 ^ w -> 0 <= b < 2 ^ w ->
     cond_holds cond (sub_flags w a b) = cmp (signed w a) (signed w b)) ->
  rx (exec_all
       ((if d_size d =? 0 then [SXTB s2 s1; SXTB s3 (d_rs d); SUBS 0 31 s2 s3]
         else if d_size d =? 1 then [SXTH s2 s1; SXTH s3 (d_rs d); SUBS 0 31 s2 s3]
         else [SUBS (is_x d) 31 s1 (d_rs d)])
        ++ [CSEL (is_x d) s2 (d_rs d) s1 cond]) st) s2 =
  if cmp (signed (8 * size_bytes (d_size d)) old)
         (signed (8 * size_bytes (d_size d)) (rx st (d_rs d)))
  then rop (is_x d) st (d_rs d) else old.
Proof.
  intros H1 H2 H0 Hc. destruct size_cases as [E|[E|[E|E]]]; rewrite E; cbn [Z.eqb Pos.eqb app].
  - rewrite (sext_sel st cond SXTB 8), Hc by (auto using u32_range).
    rewrite !signed_u32_signed, H1, H2 by auto. done.
  - rewrite (sext_sel st cond SXTH 16), Hc by (auto using u32_range).
    rewrite !signed_u32_signed, H1, H2 by auto. done.
  - assert (Ex : is_x d = 0) by (unfold is_x; by rewrite E). rewrite Ex in *.
    rewrite <- Ex at 1 2. rewrite cmp_sel, Ex, Hc, H1 by (first [by left | by right | by apply Z.mod_pos_bound]).
    change (8 * size_bytes 2) with 32. change (opw 0) with 32.
    unfold rop. rewrite signed_mod_le by (change (opw 0) with 32; lia). done.
  - assert (Ex : is_x d = 1) by (unfold is_x; by rewrite E). rewrite Ex in *.
    rewrite <- Ex at 1 2. rewrite cmp_sel, Ex, Hc, H1 by (first [by left | by right | by apply Z.mod_pos_bound]).
    change (8 * size_bytes 3) with 64. change (opw 1) with 64.
    unfold rop. rewrite signed_mod_le by (change (opw 1) with 64; lia). done.
Qed.

(** When Rs holds a value of the access width, or the access is a word or
    doubleword, the full-width compare sees the operand itself. *)
Lemma src_exact st :
  0 <= rx st (d_rs d) < 2 ^ 64 ->
  (d_size d < 2 -> rx st (d_rs d) < 2 ^ (8 * size_bytes (d_size d))) ->
  rop (is_x d) st (d_rs d) = rx st (d_rs d) mod 2 ^ (8 * size_bytes (d_size d)).
Proof.
  intros Hx Hs. pose proof width_le_opw as Hw. unfold rop.
  destruct (Z.lt_ge_cases (d_size d) 2) as [Hlt|Hge].
  - specialize (Hs Hlt). rewrite !Z.mod_small; try lia.
    pose proof (Z.pow_le_mono_r 2 (8 * size_bytes (d_size d)) (opw (is_x d))). lia.
  - destruct opw_cases as [[-> ?]|[-> ->]]; [|done].
    by replace (d_size d) with 2 by lia.
Qed.

Lemma alu_value st op old :
  arch_op (d_op d) = Some op -> rx st s1 = old ->
  0 <= old < 2 ^ (8 * size_bytes (d_size d)) -> 0 <= rx st (d_rs d) < 2 ^ 64 ->
  (d_op d = LSE_LDUMAX \/ d_op d = LSE_LDUMIN -> d_size d < 2 ->
   rx st (d_rs d) < 2 ^ (8 * size_bytes (d_size d))) ->
  let w := 8 * size_bytes (d_size d) in
  rx (exec_all (alu_instrs d s1 s2 s3) st) s2 mod 2 ^ w =
  lse_new op w old (rx st (d_rs d) mod 2 ^ w) mod 2 ^ w.
Proof.
  intros Hop Hold Hr Hx Hsub w. fold w in Hr, Hsub.
  assert (Hw : 8 <= w <= opw (is_x d)) by apply width_le_opw.
  assert (Hs1 : rop (is_x d) st s1 = old).
  { unfold rop. rewrite Hold. apply Z.mod_small.
    pose proof (Z.pow_le_mono_r 2 w (opw (is_x d))). lia. }
  assert (Hop2 : opw (is_x d) = 32 \/ opw (is_x d) = 64) by (destruct opw_cases; lia).
  assert (Hrop : forall r, 0 <= rop (is_x d) st r < 2 ^ opw (is_x d)).
  { intros r. apply Z.mod_pos_bound. lia. }
  unfold alu_instrs. destruct (d_op d) eqn:Eop; simpl in Hop; try discriminate Hop;
    injection Hop as <-.
  1-4: rewrite (alu_one st _ _ _ _ eq_refl), Hs1, mod_mod_le by lia; unfold rop;
       rewrite alu_mod by lia; cbn [alu lse_new]; by rewrite ?Zmod_mod.
  1: erewrite (signed_block st _ Z.ltb old); [|done|done|lia|intros; by apply flags_LT];
     apply smax_select; lia.
  1: erewrite (signed_block st _ (fun x y => y <? x) old);
       [|done|done|lia|intros; by apply flags_GT];
     apply smin_select; lia.
  1,2: pose proof (src_exact st Hx (Hsub ltac:(auto))) as Hb; fold w in Hb;
       rewrite cmp_sel, ?flags_LO, ?flags_HI, Hs1, Hb by (rewrite ?Hs1; auto);
       cbn [lse_new]; f_equal; generalize (rx st (d_rs d) mod 2 ^ w); clear;
       intros z; destruct (Z.ltb_spec old z), (Z.ltb_spec z old); lia.
  rewrite (alu_one st _ _ _ _ eq_refl), mod_mod_le by lia. unfold rop at 1.
  change (rx st 31) with 0. rewrite Zmod_0_l. cbn [alu lse_new]. rewrite Z.lor_0_l.
  unfold rop. by rewrite Zmod_mod, mod_mod_le by lia.
Qed.

(** [s2] ends up holding the value the LSE instruction stores. *)
Lemma alu_block st op old :
  arch_op (d_op d) = Some op -> rx st s1 = old ->
  0 <= old < 2 ^ (8 * size_bytes (d_size d)) -> 0 <= rx st (d_rs d) < 2 ^ 64 ->
  (d_op d = LSE_LDUMAX \/ d_op d = LSE_LDUMIN -> d_size d < 2 ->
   rx st (d_rs d) < 2 ^ (8 * size_bytes (d_size d))) ->
  let st' := exec_all (alu_instrs d s1 s2 s3) st in
  let w := 8 * size_bytes (d_size d) in
  untouched [s2; s3] st st' /\
  rx st' s2 mod 2 ^ w = lse_new op w old (rx st (d_rs d) mod 2 ^ w) mod 2 ^ w.
Proof.
  intros Hop Hold Hr Hx Hsub. cbv zeta. split.
  - apply exec_all_untouched. unfold alu_instrs.
    destruct (d_op d); repeat case_match; simpl;
      repeat constructor; eexists; (split; [reflexivity|simpl; auto]).
  - by apply alu_value.
Qed.
End rmw.
