(* ===== verification/IsaIslandMain.v ===== *)
(** * The island theorems

    Prologue, exclusive loop and epilogue put together: an island reached
    through the branch that replaced an LSE instruction returns to the next
    instruction with exactly the effect of the LSE instruction. *)

From S2P Require Import Prelude Arm64 Arm64Enc IsaEmul IsaEnc IsaIsland IsaIslandRun.

(** Two states a thread cannot tell apart, except for dead stack below its
    stack pointer. *)
Definition agree_outside (lo hi : Z) (st st' : cpu) : Prop :=
  (forall r, cpu_x st' r = cpu_x st r) /\ cpu_sp st' = cpu_sp st /\ cpu_pc st' = cpu_pc st /\
  cpu_nzcv st' = cpu_nzcv st /\ (forall r, cpu_v st' r = cpu_v st r) /\
  (forall x, ~ lo <= x < hi -> cpu_mem st' x = cpu_mem st x).

(** ** Stack pushes and pops *)

Definition push (st : cpu) (r : Z) : cpu :=
  set_mem (set_sp st (cpu_sp st - 16)) (store 8 (cpu_sp st - 16) (cpu_x st r) (cpu_mem st)).
Definition pop (st : cpu) (r : Z) : cpu :=
  set_x (set_sp st (cpu_sp st + 16)) r (load 8 (cpu_sp st) (cpu_mem st)).

Lemma exec_push r st :
  r <> 31 -> 16 <= cpu_sp st < 2 ^ 64 -> exec (STRpre r 31 (-16)) st = next (push st r).
Proof.
  intros Hr Hsp. cbn [exec]. change (rbase st 31) with (cpu_sp st).
  rewrite rx_ne by done. unfold push. change (wbase ?s 31 ?v) with (set_sp s v).
  replace (u64 (cpu_sp st + -16)) with (cpu_sp st - 16); [done|].
  symmetry. rewrite u64_small; lia.
Qed.

Lemma exec_pop r st :
  r <> 31 -> 0 <= cpu_sp st < 2 ^ 64 - 16 -> exec (LDRpost r 31 16) st = next (pop st r).
Proof.
  intros Hr Hsp. cbn [exec]. change (rbase st 31) with (cpu_sp st).
  change (wbase ?s 31 ?v) with (set_sp s v). rewrite wx_ne by done. unfold pop.
  replace (u64 (cpu_sp st + 16)) with (cpu_sp st + 16); [done|]. symmetry. apply u64_small. lia.
Qed.

Lemma exec_mrs r st : r <> 31 -> exec (MRSnzcv r) st = next (set_x st r (cpu_nzcv st)).
Proof. intros Hr. cbn [exec]. by rewrite wx_ne. Qed.

Lemma exec_msr r st : r <> 31 -> exec (MSRnzcv r) st = next (set_nzcv st (cpu_x st r .& 0xF0000000)).
Proof. intros Hr. cbn [exec]. by rewrite rx_ne. Qed.

Lemma load8_store8 a v m : 0 <= v < 2 ^ 64 -> load 8 a (store 8 a v m) = v.
Proof. intros Hv. rewrite load_store_same by lia. apply Z.mod_small. simpl; lia. Qed.

(** A back branch in range returns to the instruction after the patched one. *)
Lemma back_branch_arrives code st island orig n :
  code (island + 4 * Z.of_nat n) = Some (back_branch island orig n) ->
  cpu_pc st = island + 4 * Z.of_nat n ->
  b_reach (ptrdiff32 (orig + 4) (island + 4 * Z.of_nat n)) -> (orig - island) mod 4 = 0 ->
  0 <= orig + 4 < 2 ^ 64 ->
  reaches code st (set_pc st (orig + 4)).
Proof.
  intros Hc Hpc Hr Hal Ho. unfold back_branch in Hc.
  unfold i32 in Hc. rewrite signed_small in Hc by (unfold b_reach in Hr; lia).
  eapply enc_b_arrives; [exact Hc|done|done| |lia].
  replace (orig + 4 - (island + 4 * Z.of_nat n)) with (orig - island + (1 - Z.of_nat n) * 4) by lia.
  by rewrite Z.mod_add.
Qed.

(** ** The read-modify-write islands *)

(** The body of the exclusive loop: load, compute, store. *)
Definition body_instrs (d : lse_decoded) (s1 s2 s3 : Z) : list instr :=
  LDXR (d_size d) (d_acquire d) s1 (d_rn d) :: alu_instrs d s1 s2 s3
  ++ [STXR (d_size d) (d_release d) s3 s2 (d_rn d)].

Definition body_words (d : lse_decoded) (s1 s2 s3 : Z) : list Z :=
  enc_ldxr (d_size d) (d_acquire d) s1 (d_rn d) :: emit_alu d s1 s2 s3
  ++ [enc_stxr (d_size d) (d_release d) s3 s2 (d_rn d)].

(** What a decoded LSE instruction always satisfies. *)
Definition lse_fields (d : lse_decoded) : Prop :=
  0 <= d_size d < 4 /\ (d_acquire d = 0 \/ d_acquire d = 1) /\ (d_release d = 0 \/ d_release d = 1) /\
  is_reg (d_rs d) /\ is_reg (d_rt d) /\ is_reg (d_rn d).

(** Goals [~ In r l] for an operand [r] and scratch registers [l]. *)
Ltac fresh_reg F :=
  let Hin := fresh in
  simpl; intros Hin; destruct F; repeat destruct Hin as [Hin|Hin]; congruence || contradiction.

(** The condition under which the full-width unsigned compare of the island
    is the sub-word compare of the instruction. *)
Definition operand_clean (d : lse_decoded) (st : cpu) : Prop :=
  d_op d = LSE_LDUMAX \/ d_op d = LSE_LDUMIN -> d_size d < 2 ->
  rx st (d_rs d) < 2 ^ (8 * size_bytes (d_size d)).

Section loop.
Context (code : Z -> option Z) (d : lse_decoded) (s1 s2 s3 : Z) (op : lse_arch_op) (st0 : cpu).
Context (Hd : lse_fields d) (F : free3 d s1 s2 s3) (Hop : arch_op (d_op d) = Some op).
Context (Hbase : d_rn d <> 31).
Context (Hx : forall r, 0 <= cpu_x st0 r < 2 ^ 64) (Hclean : operand_clean d st0).

Local Abbreviation n := (size_bytes (d_size d)).
Local Abbreviation addr := (cpu_x st0 (d_rn d)).

(** The loop only owns its scratch registers. *)
Record loop_inv (sp : Z) (M : bytemem) (st : cpu) : Prop := {
  li_x : forall r, ~ In r [s1; s2; s3] -> cpu_x st r = cpu_x st0 r;
  li_sp : cpu_sp st = sp;
  li_v : cpu_v st = cpu_v st0;
  li_mem : cpu_mem st = M;
}.

Lemma body_decodes : Forall2 (fun i w => decode w = Some i) (body_instrs d s1 s2 s3)
                             (body_words d s1 s2 s3).
Proof.
  destruct Hd as (?&?&?&?&?&?). constructor; [apply decode_ldxr; eauto with mg|].
  apply Forall2_app; [by apply alu_decodes|].
  repeat constructor. apply decode_stxr; eauto with mg.
Qed.

Lemma body_falls : forallb falls_through (body_instrs d s1 s2 s3) = true.
Proof.
  unfold body_instrs. cbn [forallb falls_through andb]. rewrite forallb_app. cbn [forallb falls_through andb].
  rewrite andb_true_r. unfold alu_instrs. repeat case_match; done.
Qed.

Lemma rs_rx st M sp : loop_inv sp M st -> rx st (d_rs d) = rx st0 (d_rs d).
Proof.
  intros I. unfold rx. destruct (_ =? 31); [done|]. apply (li_x _ _ _ I).
  fresh_reg F.
Qed.

Lemma rx0_range r : 0 <= rx st0 r < 2 ^ 64.
Proof. unfold rx. destruct (_ =? 31); [lia|apply Hx]. Qed.

(** One pass of the body: the status register tells whether the new value was stored. *)
Lemma body_effect sp M st :
  loop_inv sp M st ->
  let st' := exec_all (body_instrs d s1 s2 s3) st in
  exists v,
    v mod 2 ^ (8 * n) =
      lse_new op (8 * n) (load n addr M) (rx st0 (d_rs d) mod 2 ^ (8 * n)) mod 2 ^ (8 * n) /\
    cpu_x st' s1 = load n addr M /\
    cpu_spur st' = Nat.pred (cpu_spur st) /\ cpu_mon st' = None /\
    if Nat.eqb (cpu_spur st) 0
    then loop_inv sp (store n addr v M) st' /\ cpu_x st' s3 = 0
    else loop_inv sp M st' /\ cpu_x st' s3 = 1.
Proof.
  intros I. cbv zeta. destruct Hd as (Hsz&Hq&Hl&Hs&Ht&Hn). unfold body_instrs.
  unfold exec_all. cbn [fold_left]. rewrite fold_left_app. cbn [fold_left].
  fold (exec_all (alu_instrs d s1 s2 s3) (exec (LDXR (d_size d) (d_acquire d) s1 (d_rn d)) st)).
  set (sl := exec (LDXR _ _ _ _) st).
  assert (Hrn : cpu_x st (d_rn d) = addr).
  { apply (li_x _ _ _ I). fresh_reg F. }
  assert (Esl : sl = next (set_mon (set_x st s1 (load n addr M)) (Some (addr, n)) (cpu_spur st))).
  { unfold sl. cbn [exec]. rewrite rbase_ne, Hrn, (li_mem _ _ _ I), wx_ne by eauto with mg. done. }
  assert (Hold : rx sl s1 = load n addr M).
  { rewrite Esl, rx_next, rx_set_mon, rx_set_x_eq by eauto with mg. done. }
  assert (Hsrc : rx sl (d_rs d) = rx st0 (d_rs d)).
  { rewrite Esl, rx_next, rx_set_mon, rx_set_x_ne by eauto with mg. by eapply rs_rx. }
  assert (Hnn : 0 <= n) by (unfold size_bytes; lia).
  destruct (alu_block d s1 s2 s3 Hsz F sl op (load n addr M) Hop Hold) as [U Hv];
    rewrite ?Hsrc; auto using load_range, rx0_range.
  rewrite Hsrc in Hv.
  set (sa := exec_all (alu_instrs d s1 s2 s3) sl) in *.
  destruct U as (Ux&Usp&Uv&Umem&Umon&Uspur).
  rewrite Esl in Ux, Usp, Uv, Umem, Umon, Uspur. cbn -[upd] in Ux, Usp, Uv, Umem, Umon, Uspur.
  assert (Hsrn : cpu_x sa (d_rn d) = addr).
  { rewrite Ux, upd_ne; [done|eauto with mg|].
    fresh_reg F. }
  assert (Hs1 : cpu_x sa s1 = load n addr M).
  { rewrite Ux, upd_eq; [done|]. fresh_reg F. }
  assert (Hfr : forall r, ~ In r [s1; s2; s3] -> cpu_x sa r = cpu_x st0 r).
  { intros r Hr. simpl in Hr. rewrite Ux, upd_ne by (simpl; intuition).
    apply (li_x _ _ _ I). simpl. intuition. }
  exists (rx sa s2). split; [exact Hv|]. cbn [exec].
  rewrite rbase_ne, Hsrn, !wx_ne by eauto with mg.
  unfold stxr_ok. rewrite Umon, Uspur, !Z.eqb_refl. cbn [andb].
  destruct (Nat.eqb_spec (cpu_spur st) 0) as [E0|E0]; cbn -[upd store];
    rewrite ?upd_eq, ?upd_ne, ?Hs1, ?Umem, ?(li_mem _ _ _ I) by eauto with mg;
    rewrite ?Uspur, ?E0; repeat split; try done; cbn -[upd store].
  all: try (by intros r Hr; simpl in Hr; rewrite upd_ne by intuition; apply Hfr; simpl; intuition).
  all: try (by rewrite Usp, (li_sp _ _ _ I)).
  all: try (by rewrite Uv, (li_v _ _ _ I)).
  by rewrite Umem, (li_mem _ _ _ I).
Qed.

Local Abbreviation blen := (Z.of_nat (length (body_words d s1 s2 s3))).

Lemma body_length : In (- blen) [-2; -3; -4; -5; -6; -7].
Proof.
  unfold body_words. rewrite length_cons, length_app. unfold emit_alu.
  repeat case_match; simpl; auto 10.
Qed.

(** The loop ends for every number of spurious failures, with the update
    made exactly once. *)
Lemma loop_runs L0 sp M k st :
  words_at code L0 (body_words d s1 s2 s3 ++ [enc_cbnz_w s3 (- blen)]) ->
  0 <= L0 -> L0 + 4 * (blen + 1) < 2 ^ 64 ->
  cpu_spur st = k -> loop_inv sp M st -> cpu_pc st = L0 ->
  exists st' v,
    reaches code st st' /\
    v mod 2 ^ (8 * n) =
      lse_new op (8 * n) (load n addr M) (rx st0 (d_rs d) mod 2 ^ (8 * n)) mod 2 ^ (8 * n) /\
    loop_inv sp (store n addr v M) st' /\ cpu_x st' s1 = load n addr M /\
    cpu_pc st' = L0 + 4 * (blen + 1).
Proof.
  intros Hws H0 Hlt. revert st. induction k as [|k IH]; intros st Hk I Hpc.
  all: pose proof Hws as Hws'; apply words_at_app in Hws' as [Hb [Hcb _]];
    destruct (reaches_block code _ _ st body_decodes body_falls) as [Hr Hp];
    [by rewrite Hpc|lia|lia|];
    destruct (body_effect sp M st I) as (v&Hv&H1&Hs&_&HI); rewrite Hk in HI; cbn [Nat.eqb] in HI;
    destruct HI as [I' H3]; set (sb := exec_all _ st) in *;
    pose proof (decode_cbnz s3 (- blen) (f_s3 _ _ _ _ F) body_length) as Hdec;
    assert (Hstep : reaches code sb (exec (CBNZw s3 (- blen)) sb))
      by (eapply reaches_step; [rewrite Hp, Hpc; exact Hcb|exact Hdec]);
    assert (H3' : rop 0 sb s3 = cpu_x sb s3)
      by (unfold rop; rewrite rx_ne, H3 by eauto with mg; done);
    cbn [exec] in Hstep; rewrite H3', H3 in Hstep; cbn [Z.eqb] in Hstep.
  - exists (next sb), v. split; [by etrans|]. repeat split; try apply I'; try done.
    cbn [next set_pc cpu_pc]. rewrite Hp, Hpc, u64_small; lia.
  - destruct (IH (jump sb (- blen))) as (st'&v'&Hr'&Hrest).
    + change (cpu_spur sb = k). by rewrite Hs, Hk.
    + split; try apply I'.
    + cbn [jump set_pc cpu_pc]. rewrite Hp, Hpc, u64_small; lia.
    + exists st', v'. split; [|done]. etrans; [exact Hr|]. by etrans.
Qed.
End loop.

(** ** Prologue and epilogue *)

(** The words before the loop and after it. *)
Definition rmw_prologue (s1 s2 s3 : Z) : list Z :=
  [enc_str_pre s1; enc_str_pre s2; enc_str_pre s3; enc_mrs_nzcv s1; enc_str_pre s1].
Definition rmw_epilogue (d : lse_decoded) (s1 s2 s3 : Z) : list Z :=
  (if d_rt d =? 31 then [] else [enc_mov (is_x d) (d_rt d) s1])
  ++ [enc_ldr_post s1; enc_msr_nzcv s1; enc_ldr_post s3; enc_ldr_post s2; enc_ldr_post s1].

Lemma emit_rmw_parts d island orig s1 s2 s3 :
  rmw_scratch d = (s1, s2, s3) ->
  emit_rmw d island orig =
    let bw := body_words d s1 s2 s3 in
    let w := (rmw_prologue s1 s2 s3 ++ bw ++ [enc_cbnz_w s3 (- Z.of_nat (length bw))])
             ++ rmw_epilogue d s1 s2 s3 in
    w ++ [back_branch island orig (length w)].
Proof.
  intros E. unfold emit_rmw. rewrite E. cbv zeta. fold (is_x d).
  assert (Hl : Z.of_nat (length [enc_str_pre s1; enc_str_pre s2; enc_str_pre s3; enc_mrs_nzcv s1; enc_str_pre s1])
    - Z.of_nat (length ((([enc_str_pre s1; enc_str_pre s2; enc_str_pre s3; enc_mrs_nzcv s1; enc_str_pre s1]
       ++ [enc_ldxr (d_size d) (d_acquire d) s1 (d_rn d)]) ++ emit_alu d s1 s2 s3)
       ++ [enc_stxr (d_size d) (d_release d) s3 s2 (d_rn d)]))
    = - Z.of_nat (length (body_words d s1 s2 s3))).
  { unfold body_words. rewrite ?length_app, ?length_cons, ?length_app. cbn [length]. lia. }
  rewrite Hl. unfold rmw_prologue, rmw_epilogue, body_words.
  rewrite <- !app_assoc. cbn [app]. rewrite <- ?app_assoc. done.
Qed.

Ltac sp_side := first [assumption | cbn [cpu_sp next push pop set_pc set_mem set_sp set_x set_nzcv]; lia].

Lemma exec_all_app l1 l2 st : exec_all (l1 ++ l2) st = exec_all l2 (exec_all l1 st).
Proof. apply fold_left_app. Qed.

Section prologue.
Context (s1 s2 s3 : Z) (st : cpu).
Context (H1 : s1 <> 31) (H2 : s2 <> 31) (H3 : s3 <> 31) (H12 : s1 <> s2) (H13 : s1 <> s3).
Context (Hsp : 64 <= cpu_sp st < 2 ^ 64).

(** The saved words, most recent first. *)
Definition saved (m : bytemem) : bytemem :=
  let sp := cpu_sp st in
  store 8 (sp - 64) (cpu_nzcv st) (store 8 (sp - 48) (cpu_x st s3)
    (store 8 (sp - 32) (cpu_x st s2) (store 8 (sp - 16) (cpu_x st s1) m))).

Lemma prologue_effect :
  let st' := exec_all [STRpre s1 31 (-16); STRpre s2 31 (-16); STRpre s3 31 (-16);
                       MRSnzcv s1; STRpre s1 31 (-16)] st in
  (forall r, r <> s1 -> cpu_x st' r = cpu_x st r) /\ cpu_sp st' = cpu_sp st - 64 /\
  cpu_v st' = cpu_v st /\ cpu_mem st' = saved (cpu_mem st) /\ cpu_spur st' = cpu_spur st.
Proof.
  cbv zeta. unfold exec_all. cbn [fold_left].
  rewrite (exec_push s1 st) by sp_side.
  rewrite (exec_push s2 (next (push st s1))) by sp_side.
  rewrite (exec_push s3 (next _)) by sp_side.
  rewrite (exec_mrs s1 (next _)) by done. rewrite (exec_push s1 (next _)) by sp_side.
  cbn -[upd store]. rewrite upd_eq. repeat split.
  - intros r Hr. by rewrite upd_ne.
  - lia.
  - rewrite <- !Z.sub_add_distr. done.
Qed.
End prologue.

Section epilogue.
Context (d : lse_decoded) (s1 s2 s3 : Z) (st0 : cpu) (F : free3 d s1 s2 s3).
Context (Hx : forall r, 0 <= cpu_x st0 r < 2 ^ 64).
Context (Hfl : 0 <= cpu_nzcv st0 < 2 ^ 64 /\ cpu_nzcv st0 .& 0xF0000000 = cpu_nzcv st0).
Context (Hsp : 64 <= cpu_sp st0 < 2 ^ 64).

Definition epi_instrs : list instr :=
  (if d_rt d =? 31 then [] else [ALU A_ORR (is_x d) (d_rt d) 31 s1])
  ++ [LDRpost s1 31 16; MSRnzcv s1; LDRpost s3 31 16; LDRpost s2 31 16; LDRpost s1 31 16].

Lemma epi_decodes : Forall2 (fun i w => decode w = Some i) epi_instrs (rmw_epilogue d s1 s2 s3).
Proof.
  unfold epi_instrs, rmw_epilogue. apply Forall2_app.
  - destruct (_ =? 31); repeat constructor. apply decode_mov; eauto using is_x_bit with mg.
  - repeat constructor; eauto with mg.
Qed.

Lemma epi_falls : forallb falls_through epi_instrs = true.
Proof. unfold epi_instrs. by destruct (_ =? 31). Qed.

Lemma saved_loads m :
  let sp := cpu_sp st0 in let M := saved s1 s2 s3 st0 m in
  load 8 (sp - 64) M = cpu_nzcv st0 /\ load 8 (sp - 48) M = cpu_x st0 s3 /\
  load 8 (sp - 32) M = cpu_x st0 s2 /\ load 8 (sp - 16) M = cpu_x st0 s1.
Proof.
  cbv zeta. unfold saved. destruct Hfl as [Hf _].
  repeat split; rewrite ?load_store_disj by lia; by apply load8_store8.
Qed.

Lemma mov_effect st old M :
  loop_inv s1 s2 s3 st0 (cpu_sp st0 - 64) M st -> cpu_x st s1 = old ->
  0 <= old < 2 ^ opw (is_x d) ->
  let sm := exec_all (if d_rt d =? 31 then [] else [ALU A_ORR (is_x d) (d_rt d) 31 s1]) st in
  (forall r, ~ In r [s1; s2; s3] -> cpu_x sm r = cpu_x (wx st0 (d_rt d) old) r) /\
  cpu_sp sm = cpu_sp st0 - 64 /\ cpu_v sm = cpu_v st0 /\ cpu_mem sm = M.
Proof.
  intros [Ix Isp Iv Imem] Hs1 Hold. unfold wx. destruct (Z.eqb_spec (d_rt d) 31) as [E|E]; [done|].
  cbn [exec_all fold_left exec]. rewrite wx_ne by done.
  assert (Hv : alu A_ORR (rop (is_x d) st 31) (rop (is_x d) st s1) mod 2 ^ opw (is_x d) = old).
  { unfold rop. change (rx st 31) with 0. rewrite Zmod_0_l, rx_ne, Hs1 by eauto with mg.
    cbn [alu]. rewrite Z.lor_0_l, Zmod_mod. by apply Z.mod_small. }
  rewrite Hv. cbn -[upd]. repeat split; [|done..]. intros r Hr. unfold upd.
  destruct (r =? d_rt d); [done|]. by apply Ix.
Qed.

(** Restoring from a memory that still holds the saved words gives back the
    flags, the stack pointer and every register but Rt. *)
Lemma epilogue_effect st old M :
  loop_inv s1 s2 s3 st0 (cpu_sp st0 - 64) M st -> cpu_x st s1 = old ->
  0 <= old < 2 ^ opw (is_x d) ->
  (forall k, In k [64; 48; 32; 16] ->
     load 8 (cpu_sp st0 - k) M = load 8 (cpu_sp st0 - k) (saved s1 s2 s3 st0 (cpu_mem st0))) ->
  let st' := exec_all epi_instrs st in
  (forall r, cpu_x st' r = cpu_x (wx st0 (d_rt d) old) r) /\ cpu_sp st' = cpu_sp st0 /\
  cpu_nzcv st' = cpu_nzcv st0 /\ cpu_v st' = cpu_v st0 /\ cpu_mem st' = M.
Proof.
  intros I Hs1 Hold HM. cbv zeta. unfold epi_instrs. rewrite exec_all_app.
  destruct (mov_effect st old M I Hs1 Hold) as (Ex&Esp&Ev&Em).
  set (sm := exec_all (if d_rt d =? 31 then _ else _) st) in *. clearbody sm.
  rewrite <- Em in HM. unfold exec_all. cbn [fold_left].
  rewrite (exec_pop s1 sm) by (eauto with mg; lia).
  rewrite (exec_msr s1 (next _)) by eauto with mg.
  rewrite (exec_pop s3 (next _)) by (eauto with mg; sp_side).
  rewrite (exec_pop s2 (next _)) by (eauto with mg; sp_side).
  rewrite (exec_pop s1 (next _)) by (eauto with mg; sp_side).
  cbn -[upd store load]. rewrite upd_eq. rewrite Esp.
  rewrite <- !Z.sub_sub_distr.
  change (64 - 16 - 16 - 16 - 16) with 0. change (64 - 16 - 16 - 16) with 16.
  change (64 - 16 - 16) with 32. change (64 - 16) with 48.
  rewrite !HM by (simpl; auto).
  destruct (saved_loads (cpu_mem st0)) as (L64&L48&L32&L16).
  rewrite L64, L48, L32, L16, Z.sub_0_r. repeat split; try done; [|apply Hfl].
  intros r. unfold upd. destruct (Z.eqb_spec r s1) as [->|N1].
  { unfold wx. destruct (_ =? 31); [done|]. rewrite x_set_x_ne; [done|]. apply not_eq_sym. eauto with mg. }
  destruct (Z.eqb_spec r s2) as [->|N2].
  { unfold wx. destruct (_ =? 31); [done|]. rewrite x_set_x_ne; [done|]. apply not_eq_sym. eauto with mg. }
  destruct (Z.eqb_spec r s3) as [->|N3].
  { unfold wx. destruct (_ =? 31); [done|]. rewrite x_set_x_ne; [done|]. apply not_eq_sym. eauto with mg. }
  apply Ex. simpl. intuition.
Qed.
End epilogue.

(** ** Putting the parts together *)

(** The patched instruction at [orig] branches to an island of words [ws] at
    [island], whose last word is the branch back; both branches reach. *)
Record island_at (code : Z -> option Z) (island orig : Z) (ws : list Z) : Prop := {
  ia_words : words_at code island ws;
  ia_entry : code orig = Some (enc_b (i32 (ptrdiff32 island orig)));
  ia_island : 0 <= island /\ island + 4 * Z.of_nat (length ws) < 2 ^ 64;
  ia_orig : 0 <= orig /\ orig + 4 < 2 ^ 64;
  ia_align : (orig - island) mod 4 = 0;
  ia_reach : b_reach (ptrdiff32 island orig);
  ia_back : b_reach (ptrdiff32 (orig + 4) (island + 4 * (Z.of_nat (length ws) - 1)));
}.

(** A thread state: 64-bit registers, flags in bits 31..28, room for the red zone. *)
Record guest_ok (st : cpu) : Prop := {
  go_x : forall r, 0 <= cpu_x st r < 2 ^ 64;
  go_nzcv : 0 <= cpu_nzcv st < 2 ^ 64 /\ cpu_nzcv st .& 0xF0000000 = cpu_nzcv st;
  go_sp : 64 <= cpu_sp st < 2 ^ 64;
}.

Lemma island_entry code island orig ws st :
  island_at code island orig ws -> cpu_pc st = orig -> reaches code st (set_pc st island).
Proof.
  intros [_ He Hi Ho Hal Hr _] Hpc. unfold i32 in He.
  rewrite signed_small in He by (unfold b_reach in Hr; lia).
  eapply enc_b_arrives; [exact He|done|done| |lia].
  replace (island - orig) with (- (orig - island)) by lia. by apply Z_mod_zero_opp_full.
Qed.

Lemma prologue_decodes d s1 s2 s3 :
  free3 d s1 s2 s3 ->
  Forall2 (fun i w => decode w = Some i)
    [STRpre s1 31 (-16); STRpre s2 31 (-16); STRpre s3 31 (-16); MRSnzcv s1; STRpre s1 31 (-16)]
    (rmw_prologue s1 s2 s3).
Proof. intros F. repeat constructor; eauto with mg. Qed.

Lemma saved_outside s1 s2 s3 st m x :
  ~ cpu_sp st - 64 <= x < cpu_sp st -> saved s1 s2 s3 st m x = m x.
Proof. intros H. unfold saved. rewrite !store_out by lia. done. Qed.

Lemma load_saved s1 s2 s3 st m n a :
  a + n <= cpu_sp st - 64 \/ cpu_sp st <= a -> load n a (saved s1 s2 s3 st m) = load n a m.
Proof. intros H. apply load_ext. intros x Hx. apply saved_outside. lia. Qed.

Lemma load_kept s1 s2 s3 st m n a v k :
  a + n <= cpu_sp st - 64 \/ cpu_sp st <= a -> 8 <= k <= 64 ->
  load 8 (cpu_sp st - k) (store n a v (saved s1 s2 s3 st m)) =
  load 8 (cpu_sp st - k) (saved s1 s2 s3 st m).
Proof. intros H Hk. apply load_store_disj. lia. Qed.
