(* ===== verification/IsaCas.v ===== *)
(** * The compare-and-swap islands

    The same three parts for the islands of [emit_cas]: the loop leaves early
    when the comparison fails, and both ways meet at the CLREX. *)

From S2P Require Import Prelude Arm64 Arm64Enc IsaEmul IsaEnc IsaIsland IsaIslandRun IsaIslandMain.
(** The facts of [cas_scratch_ok], one at a time. *)
Record free2 (d : lse_decoded) (s1 s2 : Z) : Prop := {
  g_s1 : is_reg s1; g_s2 : is_reg s2; g_s1z : s1 <> 31; g_s2z : s2 <> 31;
  g_12 : s1 <> s2; g_21 : s2 <> s1;
  g_rs1 : d_rs d <> s1; g_rs2 : d_rs d <> s2; g_rt1 : d_rt d <> s1; g_rt2 : d_rt d <> s2;
  g_rn1 : d_rn d <> s1; g_rn2 : d_rn d <> s2;
}.
#[export] Hint Resolve g_s1 g_s2 g_s1z g_s2z g_12 g_21 g_rs1 g_rs2 g_rt1 g_rt2 g_rn1 g_rn2 : mg.

Lemma cas_free d s1 s2 : lse_fields d -> cas_scratch d = (s1, s2) -> free2 d s1 s2.
Proof.
  intros (_&_&_&Hs&Ht&Hn) E.
  destruct (cas_scratch_ok d s1 s2 Hs Ht Hn E) as ((?&?&?)&(?&?)&(?&?)&(?&?)).
  constructor; auto; unfold is_reg; lia.
Qed.

(** The sub-word compare is made on whole registers. *)
Definition cas_clean (d : lse_decoded) (st : cpu) : Prop :=
  d_size d < 2 -> rx st (d_rs d) < 2 ^ (8 * size_bytes (d_size d)).

Definition cas_loop_words (d : lse_decoded) (s1 s2 : Z) : list Z :=
  [enc_ldxr (d_size d) (d_acquire d) s2 (d_rn d); enc_cmp (is_x d) s2 (d_rs d);
   0x54000061; enc_stxr (d_size d) (d_release d) s1 (d_rt d) (d_rn d); enc_cbnz_w s1 (-4)].
Definition cas_epilogue (d : lse_decoded) (s1 s2 : Z) : list Z :=
  0xD5033F5F :: (if d_rs d =? 31 then [] else [enc_mov (is_x d) (d_rs d) s2])
  ++ [enc_ldr_post s1; enc_msr_nzcv s1; enc_ldr_post s2; enc_ldr_post s1].
Definition cas_prologue (s1 s2 : Z) : list Z :=
  [enc_str_pre s1; enc_str_pre s2; enc_mrs_nzcv s1; enc_str_pre s1].

Lemma emit_cas_parts d island orig s1 s2 :
  cas_scratch d = (s1, s2) ->
  emit_cas d island orig =
    let w := (cas_prologue s1 s2 ++ cas_loop_words d s1 s2) ++ cas_epilogue d s1 s2 in
    w ++ [back_branch island orig (length w)].
Proof.
  intros E. unfold emit_cas. rewrite E. cbv zeta. fold (is_x d).
  unfold cas_prologue, cas_loop_words, cas_epilogue. by destruct (d_rs d =? 31).
Qed.

Section cas_loop.
Context (code : Z -> option Z) (d : lse_decoded) (s1 s2 : Z) (st0 : cpu).
Context (Hd : lse_fields d) (F : free2 d s1 s2) (Hbase : d_rn d <> 31).
Context (Hx : forall r, 0 <= cpu_x st0 r < 2 ^ 64) (Hclean : cas_clean d st0).

Local Abbreviation n := (size_bytes (d_size d)).
Local Abbreviation addr := (cpu_x st0 (d_rn d)).
Local Abbreviation inv := (loop_inv s1 s2 s2 st0).

Lemma inv_operand sp M st r :
  inv sp M st -> r <> s1 -> r <> s2 -> cpu_x st r = cpu_x st0 r.
Proof. intros I H1 H2. apply (li_x _ _ _ _ _ _ _ I). simpl. intuition. Qed.

Lemma inv_rx sp M st r : inv sp M st -> r <> s1 -> r <> s2 -> rx st r = rx st0 r.
Proof. intros I H1 H2. unfold rx. destruct (_ =? 31); [done|]. by eapply inv_operand. Qed.

(** Load and compare. *)
Lemma cas_load_cmp sp M st :
  inv sp M st ->
  let old := load n addr M in
  let st' := exec_all [LDXR (d_size d) (d_acquire d) s2 (d_rn d); SUBS (is_x d) 31 s2 (d_rs d)] st in
  inv sp M st' /\ cpu_x st' s2 = old /\ cpu_mon st' = Some (addr, n) /\
  cpu_spur st' = cpu_spur st /\
  cond_holds COND_NE (cpu_nzcv st') = negb (old =? rx st0 (d_rs d) mod 2 ^ (8 * n)).
Proof.
  intros I. cbv zeta. destruct Hd as (Hsz&_).
  assert (Hrn : cpu_x st (d_rn d) = addr) by (eapply inv_operand; eauto with mg).
  cbn [exec_all fold_left exec]. rewrite rbase_ne, Hrn, (li_mem _ _ _ _ _ _ _ I), wx_31, wx_ne by eauto with mg.
  set (old := load n addr M).
  assert (Hop : opw (is_x d) = 32 \/ opw (is_x d) = 64) by (destruct (opw_cases d Hsz); lia).
  pose proof (width_le_opw d Hsz) as Hle.
  assert (Hr : 0 <= old < 2 ^ (8 * n)) by apply load_range, size_bytes_nonneg.
  pose proof (Z.pow_le_mono_r 2 _ _ ltac:(lia) (proj2 Hle)) as Hpw.
  split; [|repeat split].
  - split; cbn -[upd]; try apply I. intros r Hr'. simpl in Hr'.
    rewrite upd_ne by intuition. apply (li_x _ _ _ _ _ _ _ I). simpl. intuition.
  - cbn -[upd]. apply upd_eq.
  - cbn -[upd rop sub_flags cond_holds]. unfold rop.
    rewrite !rx_next, !rx_set_mon, rx_set_x_eq, rx_set_x_ne by eauto with mg.
    rewrite (inv_rx sp M st (d_rs d) I) by eauto with mg.
    rewrite flags_NE by (first [done | apply Z.mod_pos_bound; lia]).
    rewrite (Z.mod_small old) by lia.
    pose proof (src_exact d Hsz st0) as Hse. unfold rop in Hse. rewrite Hse; [done| |exact Hclean].
    unfold rx. destruct (_ =? 31); [lia|apply Hx].
Qed.

Lemma cas_decodes :
  Forall2 (fun i w => decode w = Some i)
    [LDXR (d_size d) (d_acquire d) s2 (d_rn d); SUBS (is_x d) 31 s2 (d_rs d)]
    [enc_ldxr (d_size d) (d_acquire d) s2 (d_rn d); enc_cmp (is_x d) s2 (d_rs d)].
Proof.
  destruct Hd as (?&?&?&?&?&?). repeat constructor; [apply decode_ldxr|apply decode_cmp];
    eauto using is_x_bit with mg.
Qed.

Definition cas_mem (M : bytemem) : bytemem :=
  if load n addr M =? rx st0 (d_rs d) mod 2 ^ (8 * n) then store n addr (rx st0 (d_rt d)) M else M.

(** The store-exclusive and the branch on its status. *)
Lemma cas_store sp M L0 sc :
  words_at code L0 (cas_loop_words d s1 s2) -> 0 <= L0 -> L0 + 20 < 2 ^ 64 ->
  inv sp M sc -> cpu_pc sc = L0 + 12 -> cpu_mon sc = Some (addr, n) ->
  exists st', reaches code sc st' /\ cpu_spur st' = Nat.pred (cpu_spur sc) /\
    cpu_x st' s2 = cpu_x sc s2 /\
    if Nat.eqb (cpu_spur sc) 0
    then inv sp (store n addr (rx st0 (d_rt d)) M) st' /\ cpu_pc st' = L0 + 20
    else inv sp M st' /\ cpu_pc st' = L0.
Proof.
  intros (_&_&_&W3&W4&_) H0 Hlt I Hpc Hmon. destruct Hd as (Hsz&Hq&Hl&Hs&Ht&Hn).
  assert (Hrn : cpu_x sc (d_rn d) = addr) by (eapply inv_operand; eauto with mg).
  assert (Hst : reaches code sc (exec (STXR (d_size d) (d_release d) s1 (d_rt d) (d_rn d)) sc)).
  { eapply reaches_step; [rewrite Hpc; replace (L0 + 12) with (L0 + 4 + 4 + 4) by lia; exact W3|].
    apply decode_stxr; eauto with mg. }
  assert (Hcb : forall ss, cpu_pc ss = L0 + 16 -> reaches code ss (exec (CBNZw s1 (-4)) ss)).
  { intros ss Hss. eapply reaches_step;
      [rewrite Hss; replace (L0 + 16) with (L0 + 4 + 4 + 4 + 4) by lia; exact W4|].
    apply decode_cbnz; [eauto with mg|simpl; auto]. }
  assert (Hn16 : u64 (cpu_pc sc + 4) = L0 + 16) by (rewrite Hpc, u64_small; lia).
  cbn [exec] in Hst. rewrite rbase_ne, Hrn, (inv_rx sp M sc (d_rt d) I) in Hst by eauto with mg.
  unfold stxr_ok in Hst. rewrite Hmon, !Z.eqb_refl, !wx_ne in Hst by eauto with mg. cbn [andb] in Hst.
  destruct (Nat.eqb_spec (cpu_spur sc) 0) as [E|E];
    match type of Hst with reaches _ _ ?s => specialize (Hcb s Hn16); set (ss := s) in * end;
    cbn [exec] in Hcb; unfold rop in Hcb; unfold ss in Hcb at 2;
    rewrite rx_next, rx_set_x_eq in Hcb by eauto with mg; cbn [Z.modulo Z.eqb] in Hcb.
  - exists (next ss). split; [by etrans|]. subst ss. cbn -[upd store u64] in *.
    rewrite Hn16, E, upd_ne by eauto with mg. repeat split; cbn -[upd store]; try apply I.
    + intros r Hr. simpl in Hr. rewrite upd_ne by intuition.
      apply (li_x _ _ _ _ _ _ _ I). simpl. intuition.
    + by rewrite (li_mem _ _ _ _ _ _ _ I).
    + rewrite u64_small; lia.
  - exists (jump ss (-4)). split; [by etrans|]. subst ss. cbn -[upd store u64] in *.
    rewrite Hn16, upd_ne by eauto with mg. repeat split; cbn -[upd store]; try apply I.
    + intros r Hr. simpl in Hr. rewrite upd_ne by intuition.
      apply (li_x _ _ _ _ _ _ _ I). simpl. intuition.
    + rewrite u64_small; lia.
Qed.

(** The loop reaches the CLREX with the swap done iff the values matched,
    after any number of spurious failures. *)
Lemma cas_loop_runs L0 sp M k st :
  words_at code L0 (cas_loop_words d s1 s2) -> 0 <= L0 -> L0 + 20 < 2 ^ 64 ->
  cpu_spur st = k -> inv sp M st -> cpu_pc st = L0 ->
  exists st', reaches code st st' /\ inv sp (cas_mem M) st' /\
    cpu_x st' s2 = load n addr M /\ cpu_pc st' = L0 + 20.
Proof.
  intros Hws H0 Hlt. revert st. induction k as [|k IH]; intros st Hk I Hpc.
  all: destruct (reaches_block code _ _ st cas_decodes) as [Hr Hp];
    [done|rewrite Hpc; split; [apply Hws|split; [apply Hws|done]]|lia|cbn [length]; lia|];
    destruct (cas_load_cmp sp M st I) as (I'&Hs2&Hmon&Hspur&Hne); cbv zeta in Hne;
    set (sc := exec_all _ st) in *; clearbody sc;
    assert (Hpc' : cpu_pc sc = L0 + 8) by (rewrite Hp, Hpc; cbn [length]; lia);
    assert (Hstep : reaches code sc (exec (Bcond COND_NE 3) sc))
      by (eapply reaches_step; [rewrite Hpc'; replace (L0 + 8) with (L0 + 4 + 4) by lia; apply Hws|done]);
    cbn [exec] in Hstep; rewrite Hne in Hstep; unfold cas_mem;
    destruct (load n addr M =? _) eqn:Eq; cbn [negb] in Hstep;
    [|exists (jump sc 3); split; [by etrans|]; split; [split; apply I'|split; [done|]];
      cbn [jump set_pc cpu_pc]; rewrite Hpc', u64_small; lia].
  all: destruct (cas_store sp M L0 (next sc) Hws H0 Hlt) as (st'&Hr'&Hk'&Hx'&Hres);
    [split; apply I'|cbn [next set_pc cpu_pc]; rewrite Hpc', u64_small; lia|done|];
    change (cpu_spur (next sc)) with (cpu_spur sc) in *; rewrite Hspur, Hk in *;
    cbn [Nat.eqb Nat.pred] in *; destruct Hres as [I2 Hpc2];
    assert (Hall : reaches code st st') by (etrans; [exact Hr|]; by etrans).
  - exists st'. split; [done|]. split; [done|]. split; [by rewrite Hx'|done].
  - destruct (IH st' Hk' I2 Hpc2) as (st2&Hr2&Hrest).
    exists st2. split; [by etrans|]. unfold cas_mem in Hrest. by rewrite Eq in Hrest.
Qed.
End cas_loop.

(** ** Prologue and epilogue *)

Section cas_ends.
Context (d : lse_decoded) (s1 s2 : Z) (st0 : cpu) (F : free2 d s1 s2) (Hrs : is_reg (d_rs d)).
Context (Hg : guest_ok st0).

Definition cas_saved (m : bytemem) : bytemem :=
  let sp := cpu_sp st0 in
  store 8 (sp - 48) (cpu_nzcv st0) (store 8 (sp - 32) (cpu_x st0 s2)
    (store 8 (sp - 16) (cpu_x st0 s1) m)).

Lemma cas_saved_loads m :
  let sp := cpu_sp st0 in let M := cas_saved m in
  load 8 (sp - 48) M = cpu_nzcv st0 /\ load 8 (sp - 32) M = cpu_x st0 s2 /\
  load 8 (sp - 16) M = cpu_x st0 s1.
Proof.
  cbv zeta. unfold cas_saved. destruct (go_nzcv _ Hg) as [Hf _]. pose proof (go_x _ Hg).
  repeat split; rewrite ?load_store_disj by lia; by apply load8_store8.
Qed.

Lemma cas_prologue_effect st :
  cpu_x st = cpu_x st0 -> cpu_sp st = cpu_sp st0 -> cpu_nzcv st = cpu_nzcv st0 ->
  cpu_v st = cpu_v st0 ->
  let st' := exec_all [STRpre s1 31 (-16); STRpre s2 31 (-16); MRSnzcv s1; STRpre s1 31 (-16)] st in
  loop_inv s1 s2 s2 st0 (cpu_sp st0 - 48) (cas_saved (cpu_mem st)) st'.
Proof.
  intros Ex Esp Ef Ev. cbv zeta. pose proof (go_sp _ Hg) as Hsp. unfold exec_all. cbn [fold_left].
  rewrite (exec_push s1 st) by (first [by eauto with mg | lia]).
  rewrite (exec_push s2 (next _)) by (first [by eauto with mg | sp_side]).
  rewrite (exec_mrs s1 (next _)) by eauto with mg.
  rewrite (exec_push s1 (next _)) by (first [by eauto with mg | sp_side]).
  split; cbn -[upd store]; rewrite ?upd_eq, ?Ex, ?Esp, ?Ef, ?Ev, <- ?Z.sub_add_distr; try done.
  intros r Hr. rewrite upd_ne; [done|]. simpl in Hr. intuition.
Qed.

Definition cas_epi_instrs : list instr :=
  CLREX :: (if d_rs d =? 31 then [] else [ALU A_ORR (is_x d) (d_rs d) 31 s2])
  ++ [LDRpost s1 31 16; MSRnzcv s1; LDRpost s2 31 16; LDRpost s1 31 16].

Lemma cas_epi_decodes :
  Forall2 (fun i w => decode w = Some i) cas_epi_instrs (cas_epilogue d s1 s2).
Proof.
  unfold cas_epi_instrs, cas_epilogue. constructor; [reflexivity|]. apply Forall2_app.
  - destruct (_ =? 31); repeat constructor. apply decode_mov; eauto using is_x_bit with mg.
  - repeat constructor; eauto with mg.
Qed.

Lemma cas_epi_falls : forallb falls_through cas_epi_instrs = true.
Proof. unfold cas_epi_instrs. by destruct (_ =? 31). Qed.

Lemma cas_mov_effect st old M :
  loop_inv s1 s2 s2 st0 (cpu_sp st0 - 48) M st -> cpu_x st s2 = old ->
  0 <= old < 2 ^ opw (is_x d) ->
  let sm := exec_all (if d_rs d =? 31 then [] else [ALU A_ORR (is_x d) (d_rs d) 31 s2])
                     (exec CLREX st) in
  (forall r, ~ In r [s1; s2; s2] -> cpu_x sm r = cpu_x (wx st0 (d_rs d) old) r) /\
  cpu_sp sm = cpu_sp st0 - 48 /\ cpu_v sm = cpu_v st0 /\ cpu_mem sm = M.
Proof.
  intros [Ix Isp Iv Imem] Hs1 Hold. unfold wx. destruct (Z.eqb_spec (d_rs d) 31) as [E|E]; [done|].
  cbn [exec_all fold_left]. set (sc := exec CLREX st). cbn [exec]. rewrite wx_ne by done.
  assert (Hv : alu A_ORR (rop (is_x d) sc 31) (rop (is_x d) sc s2) mod 2 ^ opw (is_x d) = old).
  { unfold rop. change (rx sc 31) with 0. rewrite Zmod_0_l, rx_ne by eauto with mg.
    change (cpu_x sc s2) with (cpu_x st s2). rewrite Hs1.
    cbn [alu]. rewrite Z.lor_0_l, Zmod_mod. by apply Z.mod_small. }
  rewrite Hv. cbn -[upd]. repeat split; [|done..]. intros r Hr. unfold upd.
  destruct (r =? d_rs d); [done|]. by apply Ix.
Qed.

Lemma cas_epilogue_effect st old M :
  loop_inv s1 s2 s2 st0 (cpu_sp st0 - 48) M st -> cpu_x st s2 = old ->
  0 <= old < 2 ^ opw (is_x d) ->
  (forall k, In k [48; 32; 16] ->
     load 8 (cpu_sp st0 - k) M = load 8 (cpu_sp st0 - k) (cas_saved (cpu_mem st0))) ->
  let st' := exec_all cas_epi_instrs st in
  (forall r, cpu_x st' r = cpu_x (wx st0 (d_rs d) old) r) /\ cpu_sp st' = cpu_sp st0 /\
  cpu_nzcv st' = cpu_nzcv st0 /\ cpu_v st' = cpu_v st0 /\ cpu_mem st' = M.
Proof.
  intros I Hs1 Hold HM. cbv zeta. unfold cas_epi_instrs.
  change (CLREX :: ?l) with ([CLREX] ++ l). rewrite !exec_all_app.
  change (exec_all [CLREX] st) with (exec CLREX st).
  destruct (cas_mov_effect st old M I Hs1 Hold) as (Ex&Esp&Ev&Em).
  set (sm := exec_all (if d_rs d =? 31 then _ else _) _) in *. clearbody sm.
  pose proof (go_sp _ Hg) as Hsp. rewrite <- Em in HM. unfold exec_all. cbn [fold_left].
  rewrite (exec_pop s1 sm) by (first [by eauto with mg | lia]).
  rewrite (exec_msr s1 (next _)) by eauto with mg.
  rewrite (exec_pop s2 (next _)) by (first [by eauto with mg | sp_side]).
  rewrite (exec_pop s1 (next _)) by (first [by eauto with mg | sp_side]).
  cbn -[upd store load]. rewrite upd_eq, Esp, <- !Z.sub_sub_distr.
  change (48 - 16 - 16 - 16) with 0. change (48 - 16 - 16) with 16. change (48 - 16) with 32.
  rewrite !HM by (simpl; auto).
  destruct (cas_saved_loads (cpu_mem st0)) as (L48&L32&L16). rewrite L48, L32, L16, Z.sub_0_r.
  rewrite (proj2 (go_nzcv _ Hg)). repeat split; try done.
  intros r. unfold upd. destruct (Z.eqb_spec r s1) as [->|N1].
  { unfold wx. destruct (_ =? 31); [done|]. rewrite x_set_x_ne; [done|]. apply not_eq_sym. eauto with mg. }
  destruct (Z.eqb_spec r s2) as [->|N2].
  { unfold wx. destruct (_ =? 31); [done|]. rewrite x_set_x_ne; [done|]. apply not_eq_sym. eauto with mg. }
  apply Ex. simpl. intuition.
Qed.
End cas_ends.

(** * The BCAX islands *)

Lemma bcax_scratch_free vd vn vm va :
  is_reg vd -> is_reg vn -> is_reg vm -> is_reg va ->
  let t := bcax_scratch vd vn vm va in
  is_reg t /\ t <> vd /\ t <> vn /\ t <> vm /\ t <> va.
Proof.
  unfold is_reg. intros Hd Hn Hm Ha. cbv zeta. unfold bcax_scratch.
  set (used := bit vd .| _ .| _ .| _).
  assert (Hu : forall k, 0 <= k -> Z.testbit used k =
    (k =? vd) || (k =? vn) || (k =? vm) || (k =? va)).
  { intros k Hk. unfold used. by rewrite !testbit_lor_bit, testbit_bit by lia. }
  clearbody used. destruct (first_free used _) as [r|] eqn:E.
  - apply find_some in E as [Hin Hr]. apply in_map_iff in Hin as (i&<-&Hi).
    apply in_rev, in_seq in Hi. rewrite nz_land_bit, Hu in Hr by lia.
    apply negb_true_iff in Hr. rewrite !orb_false_iff, !Z.eqb_neq in Hr. intuition lia.
  - exfalso. pose proof (find_none _ _ E) as Hf.
    assert (Hinc : incl (map Z.of_nat (rev (seq 0 32))) [vd; vn; vm; va]).
    { intros r Hr. specialize (Hf r Hr). cbv beta in Hf.
      apply in_map_iff in Hr as (i&<-&Hi). rewrite nz_land_bit, Hu in Hf by lia.
      apply negb_false_iff in Hf. rewrite !orb_true_iff, !Z.eqb_eq in Hf. simpl. lia. }
    apply NoDup_incl_length in Hinc; [vm_compute in Hinc; lia|].
    apply NoDup_ListNoDup, (bool_decide_unpack _). vm_compute. exact I.
Qed.

Record vec_ok (st : cpu) : Prop := {
  vo_v : forall r, 0 <= cpu_v st r < 2 ^ 128;
  vo_sp : 16 <= cpu_sp st < 2 ^ 64;
}.

Lemma exec_bcax_in_place vd vn vm st :
  vn <> vd ->
  let st' := exec_all [BICv vd vm vd; EORv vd vn vd] st in
  (forall r, cpu_v st' r = cpu_v (exec_bcax vd vn vm vd st) r) /\ cpu_x st' = cpu_x st /\
  cpu_sp st' = cpu_sp st /\ cpu_nzcv st' = cpu_nzcv st /\ cpu_mem st' = cpu_mem st.
Proof.
  intros Hne. cbn -[upd u64]. repeat split. intros r. rewrite upd_eq, (upd_ne _ vd _ vn) by done.
  unfold upd. by destruct (r =? vd).
Qed.

Lemma exec_bcax_scratch vd vn vm va t st :
  vec_ok st -> t <> vd -> t <> vn -> t <> vm -> t <> va ->
  let st' := exec_all [STRQpre t 31 (-16); BICv t vm va; EORv vd vn t; LDRQpost t 31 16] st in
  (forall r, cpu_v st' r = cpu_v (exec_bcax vd vn vm va st) r) /\ cpu_x st' = cpu_x st /\
  cpu_sp st' = cpu_sp st /\ cpu_nzcv st' = cpu_nzcv st /\
  (forall x, ~ cpu_sp st - 16 <= x < cpu_sp st -> cpu_mem st' x = cpu_mem st x).
Proof.
  intros [Hv Hsp] Hd Hn Hm Ha. cbv zeta. cbn [exec_all fold_left exec].
  change (rbase st 31) with (cpu_sp st). change (wbase ?s 31 ?v) with (set_sp s v).
  replace (u64 (cpu_sp st + -16)) with (cpu_sp st - 16) by (rewrite u64_small; lia).
  cbn -[upd store load u64]. rewrite (u64_small (cpu_sp st - 16 + 16)) by lia.
  rewrite load_store_same, upd_eq, (upd_ne _ t _ vn) by (done || lia).
  change (2 ^ (8 * 16)) with (2 ^ 128). rewrite Z.mod_small by apply Hv.
  repeat split; [|lia|].
  - intros r. unfold upd. destruct (Z.eqb_spec r t) as [->|]; [|done].
    by rewrite (proj2 (Z.eqb_neq t vd)).
  - intros x Hx. apply store_out. lia.
Qed.

(** The body of the island and what it decodes to. *)
Lemma bcax_body vd vn vm va :
  is_reg vd -> is_reg vn -> is_reg vm -> is_reg va ->
  let t := bcax_scratch vd vn vm va in
  Forall2 (fun i w => decode w = Some i)
    (if va =? vd then [BICv vd vm vd; EORv vd vn vd]
     else [STRQpre t 31 (-16); BICv t vm va; EORv vd vn t; LDRQpost t 31 16])
    (if va =? vd then [enc_neon_bic vd vm vd; enc_neon_eor vd vn vd]
     else [enc_str_q_pre t; enc_neon_bic t vm va; enc_neon_eor vd vn t; enc_ldr_q_post t]).
Proof.
  intros Hd Hn Hm Ha. cbv zeta.
  destruct (bcax_scratch_free vd vn vm va Hd Hn Hm Ha) as (Ht&_).
  destruct (va =? vd); repeat constructor; auto with mg.
Qed.

Lemma bcax_effect vd vn vm va st :
  is_reg vd -> is_reg vn -> is_reg vm -> is_reg va -> vec_ok st -> ~ (va = vd /\ vn = vd) ->
  let t := bcax_scratch vd vn vm va in
  let il := if va =? vd then [BICv vd vm vd; EORv vd vn vd]
            else [STRQpre t 31 (-16); BICv t vm va; EORv vd vn t; LDRQpost t 31 16] in
  let st' := exec_all il st in
  forallb falls_through il = true /\
  (forall r, cpu_v st' r = cpu_v (exec_bcax vd vn vm va st) r) /\ cpu_x st' = cpu_x st /\
  cpu_sp st' = cpu_sp st /\ cpu_nzcv st' = cpu_nzcv st /\
  (forall x, ~ cpu_sp st - 16 <= x < cpu_sp st -> cpu_mem st' x = cpu_mem st x).
Proof.
  intros Hd Hn Hm Ha Hv Hne. cbv zeta.
  destruct (bcax_scratch_free vd vn vm va Hd Hn Hm Ha) as (Ht&?&?&?&?).
  destruct (Z.eqb_spec va vd) as [->|Hva]; (split; [done|]).
  - destruct (exec_bcax_in_place vd vn vm st) as (?&?&?&?&Hmem); [tauto|].
    repeat split; done.
  - by apply exec_bcax_scratch.
Qed.
