(* ===== verification/IsaPatch.v ===== *)
(** * The patching loop: where islands go and what they replace *)

From S2P Require Import Prelude Arm64 Arm64Enc IsaEmul IsaEnc IsaIsland IsaIslandRun IsaIslandMain IsaCas.

(** ** Island sizes *)

Lemma isa_emit_island_length d island orig :
  (0 < length (emit_island d island orig) <= 19)%nat.
Proof.
  unfold emit_island. destruct (decide _).
  - unfold emit_cas. destruct (cas_scratch d). destruct (d_rs d =? 31); simpl; lia.
  - unfold emit_rmw. destruct (rmw_scratch d) as [[s1 s2] s3].
    rewrite !length_app. unfold emit_alu. destruct (d_rt d =? 31); repeat case_match; simpl; lia.
Qed.

Lemma emit_bcax_length vd vn vm va island orig :
  (0 < length (emit_bcax_island vd vn vm va island orig) <= 5)%nat.
Proof. unfold emit_bcax_island. destruct (va =? vd); simpl; lia. Qed.

(** The island a word is replaced by, and the room the loop asks for. *)
Definition island_for (w island orig : Z) : option (list Z) :=
  match decode_lse w with
  | Some d => Some (emit_island d island orig)
  | None =>
      match decode_bcax w with
      | Some (vd, vn, vm, va) => Some (emit_bcax_island vd vn vm va island orig)
      | None => None
      end
  end.

Lemma island_for_room w island orig ws :
  island_for w island orig = Some ws ->
  0 < Z.of_nat (length ws) <= estimate_word w.
Proof.
  unfold island_for, estimate_word. intros H. destruct (decode_lse w) as [d|].
  - injection H as <-. pose proof (isa_emit_island_length d island orig). lia.
  - destruct (decode_bcax w) as [[[[vd vn] vm] va]|]; [|done]. injection H as <-.
    pose proof (emit_bcax_length vd vn vm va island orig). lia.
Qed.

Lemma island_for_none w island orig : island_for w island orig = None <-> estimate_word w = 0.
Proof.
  unfold island_for, estimate_word. destruct (decode_lse w); [split; [done|lia]|].
  destruct (decode_bcax w) as [[[[vd vn] vm] va]|]; split; done || lia.
Qed.

Lemma estimate_word_nonneg w : 0 <= estimate_word w.
Proof. unfold estimate_word. repeat case_match; lia. Qed.

Lemma estimate_words_nonneg m a k : 0 <= estimate_words m a k.
Proof.
  revert a. induction k as [|k IH]; intros a; simpl; [lia|].
  pose proof (estimate_word_nonneg (m a)). specialize (IH (a + 4)). lia.
Qed.

(** The iteration, branch by branch. *)
Lemma patch_one_eq pool_end a s :
  patch_one pool_end a s =
  match island_for (ps_mem s a) (ps_island s) a with
  | None => inr s
  | Some ws =>
      if pool_end <? ps_island s + 4 * estimate_word (ps_mem s a) then inl s
      else if out_of_b_range (ptrdiff32 (ps_island s) a) then inr s
      else inr (mk_ps (upd (write_words (ps_mem s) (ps_island s) ws) a
                           (enc_b (i32 (ptrdiff32 (ps_island s) a))))
                      (ps_island s + 4 * Z.of_nat (length ws)) (ps_patched s + 1))
  end.
Proof.
  unfold patch_one, island_for, estimate_word. cbv zeta. destruct (decode_lse _); [done|].
  destruct (decode_bcax _) as [[[[vd vn] vm] va]|]; done.
Qed.

(** ** Writes stay in the code range and in the pool *)

Lemma write_words_out m p ws x :
  x < p \/ p + 4 * Z.of_nat (length ws) <= x -> write_words m p ws x = m x.
Proof.
  revert m p. induction ws as [|w ws IH]; intros m p H; [done|].
  rewrite length_cons in H. cbn [write_words]. rewrite IH by lia. apply upd_ne. lia.
Qed.

Definition fetch (m : word_mem) : Z -> option Z := fun a => Some (m a).

Lemma words_at_ext m1 m2 p ws :
  (forall x, p <= x < p + 4 * Z.of_nat (length ws) -> m1 x = m2 x) ->
  words_at (fetch m1) p ws -> words_at (fetch m2) p ws.
Proof.
  revert p. induction ws as [|w ws IH]; intros p H; [done|]. rewrite length_cons in H.
  intros [Hw Hws]. split; [unfold fetch in *; rewrite <- H by lia; exact Hw|].
  apply IH; [|exact Hws]. intros x Hx. apply H. lia.
Qed.

Lemma words_at_write m p ws : words_at (fetch (write_words m p ws)) p ws.
Proof.
  revert m p. induction ws as [|w ws IH]; intros m p; [done|]. split; [|apply IH].
  cbn [write_words]. unfold fetch. rewrite write_words_out by lia. by rewrite upd_eq.
Qed.

Lemma patch_one_frame pool_end a s s' x :
  patch_one pool_end a s = inr s' ->
  x <> a -> ~ ps_island s <= x < pool_end -> ps_mem s' x = ps_mem s x.
Proof.
  rewrite patch_one_eq. destruct (island_for _ _ _) as [ws|] eqn:E; [|congruence].
  destruct (Z.ltb_spec pool_end (ps_island s + 4 * estimate_word (ps_mem s a))); [done|].
  apply island_for_room in E. destruct (out_of_b_range _); intros [= <-]; [done|].
  intros Hx Hp. cbn [ps_mem]. rewrite upd_ne by done. apply write_words_out. lia.
Qed.

Lemma patch_one_island pool_end a s s' :
  patch_one pool_end a s = inr s' -> ps_island s <= pool_end ->
  ps_island s <= ps_island s' <= pool_end.
Proof.
  rewrite patch_one_eq. destruct (island_for _ _ _) as [ws|] eqn:E; [|by intros [= <-]; lia].
  destruct (Z.ltb_spec pool_end (ps_island s + 4 * estimate_word (ps_mem s a))); [done|].
  apply island_for_room in E. destruct (out_of_b_range _); intros [= <-]; cbn [ps_island]; lia.
Qed.

Lemma patch_one_break pool_end a s s' : patch_one pool_end a s = inl s' -> s' = s.
Proof. rewrite patch_one_eq. repeat case_match; congruence. Qed.

Lemma patch_loop_frame pool_end k a s :
  ps_island s <= pool_end ->
  ps_island s <= ps_island (patch_loop pool_end a k s) <= pool_end /\
  forall x, ~ a <= x < a + 4 * Z.of_nat k -> ~ ps_island s <= x < pool_end ->
    ps_mem (patch_loop pool_end a k s) x = ps_mem s x.
Proof.
  revert a s. induction k as [|k IH]; intros a s Hs; [cbn [patch_loop]; auto with lia|].
  cbn [patch_loop]. destruct (patch_one pool_end a s) as [s'|s'] eqn:E.
  - apply patch_one_break in E as ->. auto with lia.
  - pose proof (patch_one_island _ _ _ _ E Hs) as Hi.
    destruct (IH (a + 4) s' ltac:(lia)) as [Hl Hf]. split; [lia|].
    intros x Hx Hp. rewrite Hf by lia. eapply patch_one_frame; [exact E|lia|done].
Qed.

(** ** Every decodable word is replaced *)

Section enough_room.
Context (m : word_mem) (pool pool_end code : Z) (count : nat).
Context (Hdisj : pool_end <= code \/ code + 4 * Z.of_nat count <= pool).
Context (Hreach : forall a p, code <= a < code + 4 * Z.of_nat count -> pool <= p <= pool_end ->
           out_of_b_range (ptrdiff32 p a) = false).

(** Site [a] is patched in [mf]: a branch to an island that holds its words. *)
Definition patched_site (mf : word_mem) (a : Z) : Prop :=
  exists p ws, island_for (m a) p a = Some ws /\ pool <= p /\ (p - pool) mod 4 = 0 /\
    p + 4 * Z.of_nat (length ws) <= pool_end /\
    words_at (fetch mf) p ws /\ mf a = enc_b (i32 (ptrdiff32 p a)).

Lemma patch_loop_sites k a s :
  code <= a -> a + 4 * Z.of_nat k <= code + 4 * Z.of_nat count ->
  pool <= ps_island s -> (ps_island s - pool) mod 4 = 0 ->
  ps_island s + 4 * estimate_words m a k <= pool_end ->
  (forall x, a <= x < a + 4 * Z.of_nat k -> ps_mem s x = m x) ->
  forall i, (i < k)%nat ->
    let mf := ps_mem (patch_loop pool_end a k s) in
    let x := a + 4 * Z.of_nat i in
    if estimate_word (m x) =? 0 then mf x = m x else patched_site mf x.
Proof.
  revert a s. induction k as [|k IH]; intros a s Ha Hk Hp Hal He Hm i Hi; [lia|].
  cbn [estimate_words] in He. cbn [patch_loop].
  pose proof (estimate_word_nonneg (m a)). pose proof (estimate_words_nonneg m (a + 4) k).
  rewrite patch_one_eq, Hm by lia.
  destruct (Z.ltb_spec pool_end (ps_island s + 4 * estimate_word (m a))); [lia|].
  rewrite Hreach by lia.
  destruct (island_for (m a) (ps_island s) a) as [ws|] eqn:E.
  - set (s' := mk_ps _ _ _).
    pose proof (island_for_room _ _ _ _ E) as Hroom.
    destruct (patch_loop_frame pool_end k (a + 4) s') as [_ Hf]; [cbn; lia|].
    destruct i as [|i].
    + cbv zeta. rewrite Z.mul_0_r, Z.add_0_r.
      destruct (Z.eqb_spec (estimate_word (m a)) 0); [lia|].
      exists (ps_island s), ws. split; [done|]. split; [lia|]. split; [done|]. split; [lia|].
      cbn [ps_island s'] in Hf. split.
      * eapply (words_at_ext (write_words (ps_mem s) (ps_island s) ws));
          [|apply words_at_write].
        intros x Hx. rewrite Hf by lia. cbn [ps_mem s']. rewrite upd_ne; [done|lia].
      * rewrite Hf by lia. cbn [ps_mem s']. apply upd_eq.
    + assert (Hal' : (ps_island s' - pool) mod 4 = 0).
      { cbn [ps_island s'].
        replace (_ - pool) with (ps_island s - pool + Z.of_nat (length ws) * 4) by lia.
        by rewrite Z.mod_add. }
      specialize (IH (a + 4) s' ltac:(lia) ltac:(lia) ltac:(cbn; lia) Hal' ltac:(cbn; lia)).
      cbv zeta in IH |- *. replace (a + 4 * Z.of_nat (S i)) with (a + 4 + 4 * Z.of_nat i) by lia.
      apply IH; [|lia]. intros x Hx. cbn [ps_mem s']. rewrite upd_ne by lia.
      rewrite write_words_out by lia. apply Hm. lia.
  - apply island_for_none in E.
    destruct i as [|i].
    + cbv zeta. rewrite Z.mul_0_r, Z.add_0_r, E. cbn [Z.eqb].
      destruct (patch_loop_frame pool_end k (a + 4) s) as [_ Hf]; [lia|].
      rewrite Hf by lia. apply Hm. lia.
    + specialize (IH (a + 4) s ltac:(lia) ltac:(lia) ltac:(lia) Hal ltac:(lia)).
      cbv zeta in IH |- *. replace (a + 4 * Z.of_nat (S i)) with (a + 4 + 4 * Z.of_nat i) by lia.
      apply IH; [|lia]. intros x Hx. apply Hm. lia.
Qed.
End enough_room.

(** ** From a patched site to an island *)

Lemma decode_lse_fields w d : decode_lse w = Some d -> lse_fields d.
Proof.
  unfold decode_lse, lse_fields, is_reg. intros H.
  assert (Hb : forall k, (w .>> k) .& 1 = 0 \/ (w .>> k) .& 1 = 1).
  { intros k. pose proof (fld_range w k 1 ltac:(lia)) as Hr. unfold fld in Hr.
    change (Z.ones 1) with 1 in Hr. lia. }
  pose proof (fld_range w 30 2 ltac:(lia)) as H30. pose proof (fld_range w 16 5 ltac:(lia)) as H16.
  pose proof (fld_range w 5 5 ltac:(lia)) as H5. pose proof (fld_range w 0 5 ltac:(lia)) as H0.
  unfold fld in H30, H16, H5, H0. rewrite Z.shiftr_0_r in H0.
  change (Z.ones 2) with 3 in H30. change (Z.ones 5) with 0x1F in H16, H5, H0.
  destruct (_ =? 0x38200000); [|destruct (_ =? 0x08A07C00); [|done]];
    injection H as <-; cbn [d_size d_acquire d_release d_rs d_rt d_rn]; auto 10.
Qed.

Section layout.
Context (m : word_mem) (code code_size pool pool_end : Z).
Local Abbreviation count := (Z.to_nat (code_size / 4)).

(** Code and pool are aligned, disjoint, inside the address space and close
    enough that branches both ways reach. *)
Record text_layout : Prop := {
  tl_align : code mod 4 = 0 /\ pool mod 4 = 0;
  tl_space : 0 <= code /\ 0 <= pool /\ code + 4 * Z.of_nat count + 4 < 2 ^ 64 /\ pool_end < 2 ^ 64;
  tl_disj : pool_end <= code \/ code + 4 * Z.of_nat count <= pool;
  tl_span : pool_end - code <= 2 ^ 27 - 128 /\ code + 4 * Z.of_nat count - pool <= 2 ^ 27 - 128;
  tl_room : pool + isa_emul_estimate_pool_size m code code_size <= pool_end;
}.
Context (L : text_layout).

Lemma layout_reach a p :
  code <= a < code + 4 * Z.of_nat count -> pool <= p <= pool_end ->
  out_of_b_range (ptrdiff32 p a) = false /\ b_reach (ptrdiff32 p a).
Proof.
  intros Ha Hp. destruct L as [_ _ _ Hs _]. unfold out_of_b_range, ptrdiff32, b_reach.
  assert (- 2 ^ 25 <= (p - a) / 4 < 2 ^ 25 - 1).
  { split; [apply Z.div_le_lower_bound; lia|apply Z.div_lt_upper_bound; lia]. }
  destruct (Z.ltb_spec 0x01FFFFFF ((p - a) / 4)), (Z.ltb_spec ((p - a) / 4) (- 0x02000000)); simpl; lia.
Qed.

(** Each decodable word of the scanned text gets an island. *)
Lemma patched_island i :
  (i < count)%nat -> estimate_word (m (code + 4 * Z.of_nat i)) <> 0 ->
  let mf := ps_mem (isa_emul_patch m code code_size pool pool_end) in
  let a := code + 4 * Z.of_nat i in
  exists p ws, island_for (m a) p a = Some ws /\ island_at (fetch mf) p a ws.
Proof.
  intros Hi Hw. cbv zeta. unfold isa_emul_patch. destruct L as [[Hc4 Hp4] (H0&H1&H2&H3) Hd Hs Hr].
  unfold isa_emul_estimate_pool_size in Hr.
  pose proof (patch_loop_sites m pool pool_end code count Hd
    (fun a p Ha Hp => proj1 (layout_reach a p Ha Hp)) count code (mk_ps m pool 0)) as Hsite.
  cbn [ps_island ps_mem] in Hsite.
  specialize (Hsite ltac:(lia) ltac:(lia) ltac:(lia) ltac:(by rewrite Z.sub_diag) Hr ltac:(done) i Hi).
  cbv zeta in Hsite. destruct (Z.eqb_spec (estimate_word (m (code + 4 * Z.of_nat i))) 0); [done|].
  destruct Hsite as (p&ws&Hf&Hp0&Hpa&Hp1&Hws&Hb). exists p, ws. split; [done|].
  pose proof (island_for_room _ _ _ _ Hf) as Hlen.
  assert (Hle : Z.of_nat (length ws) <= 24).
  { unfold estimate_word in Hlen. repeat case_match; lia. }
  set (a := code + 4 * Z.of_nat i) in *.
  split; [exact Hws|unfold fetch; by rewrite Hb|lia|lia| | |].
  - replace (a - p) with (code - pool - (p - pool) + Z.of_nat i * 4) by lia.
    rewrite Z.mod_add by lia. rewrite Zminus_mod, Hpa, (Zminus_mod code), Hc4, Hp4. done.
  - apply layout_reach; lia.
  - unfold ptrdiff32, b_reach. split;
      [apply Z.div_le_lower_bound; lia|apply Z.div_lt_upper_bound; lia].
Qed.
End layout.
