(* ===== verification/IsaTheorems.v ===== *)
(** * ISA emulation: what the islands guarantee *)

From S2P Require Import Prelude Arm64 Arm64Enc IsaEmul IsaEnc IsaIsland IsaIslandRun IsaIslandMain IsaCas IsaPatch.

Section rmw_island.
Context (code : Z -> option Z) (d : lse_decoded) (op : lse_arch_op) (island orig : Z) (st : cpu).
Context (Hd : lse_fields d) (Hop : arch_op (d_op d) = Some op) (Hbase : d_rn d <> 31).
Context (Hsite : island_at code island orig (emit_rmw d island orig)).
Context (Hg : guest_ok st) (Hclean : operand_clean d st) (Hpc : cpu_pc st = orig).
Context (Hdisj : cpu_x st (d_rn d) + size_bytes (d_size d) <= cpu_sp st - 64 \/
                 cpu_sp st <= cpu_x st (d_rn d)).

(** From the entry of the island to the end of its loop. *)
Lemma rmw_until_loop_end s1 s2 s3 :
  rmw_scratch d = (s1, s2, s3) ->
  let n := size_bytes (d_size d) in let a := cpu_x st (d_rn d) in
  exists sl v,
    reaches code st sl /\
    v mod 2 ^ (8 * n) = lse_new op (8 * n) (load n a (cpu_mem st))
                          (rx st (d_rs d) mod 2 ^ (8 * n)) mod 2 ^ (8 * n) /\
    loop_inv s1 s2 s3 st (cpu_sp st - 64) (store n a v (saved s1 s2 s3 st (cpu_mem st))) sl /\
    cpu_x sl s1 = load n a (cpu_mem st) /\
    cpu_pc sl = island + 4 * (Z.of_nat (length (body_words d s1 s2 s3)) + 6).
Proof.
  intros E. cbv zeta. destruct Hd as (Hsz&Hq&Hl&Hs&Ht&Hn).
  pose proof (rmw_free d s1 s2 s3 Hs Ht Hn E) as F.
  pose proof (ia_words _ _ _ _ Hsite) as Hw. pose proof (ia_island _ _ _ _ Hsite) as [Hi0 Hi1].
  rewrite (emit_rmw_parts d island orig s1 s2 s3 E) in Hw, Hi1. cbv zeta in Hw, Hi1.
  rewrite !length_app in Hi1. cbn [length rmw_prologue] in Hi1.
  apply words_at_app in Hw as [Hw _]. apply words_at_app in Hw as [Hw _].
  apply words_at_app in Hw as [Hpro Hloop].
  destruct (reaches_block code _ _ (set_pc st island) (prologue_decodes d s1 s2 s3 F)) as [Hr Hp];
    [done|done|done|cbn [set_pc cpu_pc length rmw_prologue]; lia|].
  destruct (prologue_effect s1 s2 s3 (set_pc st island)) as (Px&Psp&Pv&Pm&Pspur);
    eauto with mg; [apply Hg|].
  set (sp0 := exec_all _ (set_pc st island)) in *. cbn [set_pc cpu_pc cpu_sp cpu_v cpu_spur] in *.
  edestruct (loop_runs code d s1 s2 s3 op st Hd F Hop Hbase (go_x _ Hg) Hclean
    (island + 20) (cpu_sp st - 64) (saved s1 s2 s3 st (cpu_mem st)) (cpu_spur sp0) sp0)
    as (sl&v&Hrl&Hv&I&H1&Hpl); [exact Hloop|lia|lia|reflexivity| |exact Hp|].
  { split; [|done|done|done]. intros r Hr'. apply Px. simpl in Hr'. intuition. }
  rewrite load_saved in Hv, H1 by done.
  exists sl, v. split; [|split; [done|split; [done|split; [done|lia]]]].
  etrans; [by eapply island_entry|]. by etrans.
Qed.

Lemma rmw_from_loop_end s1 s2 s3 sl v :
  rmw_scratch d = (s1, s2, s3) ->
  let n := size_bytes (d_size d) in let a := cpu_x st (d_rn d) in
  let M := store n a v (saved s1 s2 s3 st (cpu_mem st)) in
  loop_inv s1 s2 s3 st (cpu_sp st - 64) M sl ->
  cpu_x sl s1 = load n a (cpu_mem st) ->
  cpu_pc sl = island + 4 * (Z.of_nat (length (body_words d s1 s2 s3)) + 6) ->
  exists st', reaches code sl st' /\ cpu_pc st' = orig + 4 /\
    (forall r, cpu_x st' r = cpu_x (wx st (d_rt d) (load n a (cpu_mem st))) r) /\
    cpu_sp st' = cpu_sp st /\ cpu_nzcv st' = cpu_nzcv st /\ cpu_v st' = cpu_v st /\
    cpu_mem st' = M.
Proof.
  intros E. cbv zeta. intros I H1 Hpl. destruct Hd as (Hsz&Hq&Hl&Hs&Ht&Hn).
  pose proof (rmw_free d s1 s2 s3 Hs Ht Hn E) as F.
  destruct Hsite as [Hw _ [Hi0 Hi1] [Ho0 Ho1] Hal _ Hback].
  rewrite (emit_rmw_parts d island orig s1 s2 s3 E) in Hw, Hi1, Hback. cbv zeta in Hw, Hi1, Hback.
  set (w0 := rmw_prologue s1 s2 s3 ++ body_words d s1 s2 s3 ++ _) in *.
  assert (Hw0 : Z.of_nat (length w0) = Z.of_nat (length (body_words d s1 s2 s3)) + 6).
  { unfold w0. rewrite !length_app. cbn [length rmw_prologue]. lia. }
  clearbody w0.
  apply words_at_app in Hw as [Hw [Hbw _]]. apply words_at_app in Hw as [_ Hepi].
  rewrite Hw0 in Hepi. 
  rewrite !length_app in Hi1. rewrite !length_app in Hback. rewrite !length_app in Hbw.
  cbn [length] in Hi1, Hback.
  destruct (reaches_block code _ _ sl (epi_decodes d s1 s2 s3 F)) as [Hr Hp];
    [apply epi_falls|by rewrite Hpl|lia|lia|].
  destruct (epilogue_effect d s1 s2 s3 st F (go_x _ Hg) (go_nzcv _ Hg) (go_sp _ Hg) sl _ _ I H1)
    as (Ex&Esp&Ef&Ev&Em).
  { pose proof (width_le_opw d Hsz) as Hle.
    pose proof (load_range (size_bytes (d_size d)) (cpu_x st (d_rn d)) (cpu_mem st)
      (size_bytes_nonneg _)).
    pose proof (Z.pow_le_mono_r 2 _ _ ltac:(lia) (proj2 Hle)). lia. }
  { intros k Hk. apply load_kept; [done|]. simpl in Hk. lia. }
  set (se := exec_all _ sl) in *.
  exists (set_pc se (orig + 4)). split; [|repeat split; done].
  etrans; [exact Hr|].
  eapply (back_branch_arrives code se island orig (length w0 + length (rmw_epilogue d s1 s2 s3)));
    [exact Hbw|rewrite Hp, Hpl; lia| |done|lia].
  match goal with |- b_reach (ptrdiff32 _ ?a) => match type of Hback with b_reach (ptrdiff32 _ ?b) =>
    replace a with b by lia end end. done.
Qed.
End rmw_island.

Lemma rmw_island_emulates' code d op island orig st :
  lse_fields d -> arch_op (d_op d) = Some op -> d_rn d <> 31 ->
  island_at code island orig (emit_island d island orig) ->
  guest_ok st -> operand_clean d st -> cpu_pc st = orig ->
  cpu_x st (d_rn d) + size_bytes (d_size d) <= cpu_sp st - 64 \/ cpu_sp st <= cpu_x st (d_rn d) ->
  exists st', reaches code st st' /\
    agree_outside (cpu_sp st - 64) (cpu_sp st)
      (exec_lse op (d_size d) (d_rs d) (d_rt d) (d_rn d) st) st'.
Proof.
  intros Hd Hop Hb Hs Hg Hc Hpc Hdj.
  assert (He : emit_island d island orig = emit_rmw d island orig).
  { unfold emit_island. destruct (decide _) as [E|]; [|done]. rewrite E in Hop. discriminate Hop. }
  rewrite He in Hs. destruct (rmw_scratch d) as [[s1 s2] s3] eqn:E.
  destruct (rmw_until_loop_end code d op island orig st Hd Hop Hb Hs Hg Hc Hpc Hdj s1 s2 s3 E)
    as (sl&v&Hr&Hv&I&H1&Hp).
  destruct (rmw_from_loop_end code d island orig st Hd Hs Hg Hdj s1 s2 s3 sl v E I H1 Hp)
    as (st'&Hr'&Hpc'&Hx&Hsp&Hf&Hvv&Hm).
  exists st'. split; [by etrans|]. unfold exec_lse. rewrite rbase_ne by done.
  assert (Hwx : forall s r x, cpu_x (next (wx s r x)) = cpu_x (wx s r x)) by done.
  repeat split; cbn -[upd store load lse_new wx] in *.
  - intros r. rewrite Hx. unfold wx. by destruct (_ =? 31).
  - rewrite Hsp. unfold wx. by destruct (_ =? 31).
  - rewrite Hpc', u64_small; unfold wx; destruct (_ =? 31); cbn [cpu_pc set_mem set_x];
      pose proof (ia_orig _ _ _ _ Hs); lia.
  - rewrite Hf. unfold wx. by destruct (_ =? 31).
  - intros r. rewrite Hvv. unfold wx. by destruct (_ =? 31).
  - intros x Hout. rewrite Hm.
    rewrite (store_mod _ _ _ _ _ _ (size_bytes_nonneg _) Hv).
    transitivity (store (size_bytes (d_size d)) (cpu_x st (d_rn d))
      (lse_new op (8 * size_bytes (d_size d)) (load (size_bytes (d_size d)) (cpu_x st (d_rn d)) (cpu_mem st))
        (rx st (d_rs d) mod 2 ^ (8 * size_bytes (d_size d)))) (cpu_mem st) x).
    + unfold store. destruct (_ && _); [done|]. apply saved_outside. lia.
    + unfold wx. by destruct (_ =? 31).
Qed.

(** C6. Emulation of LD<op> and SWP.  When the word at [orig] was replaced by
    a branch to the island [emit_rmw] writes for it, and the base register is
    not the stack pointer, the accessed bytes are not among the 64 below the
    stack pointer, and the source register of a sub-word unsigned min/max has no
    bits above the width, executing from [orig] reaches the instruction after
    [orig] with what the LSE instruction itself produces: the old value in Rt,
    the new value in memory, every other register, the flags, the stack pointer
    and the vector registers unchanged; of the rest of memory the 64 bytes below
    the stack pointer, where the island saves registers, may change, and nothing
    else, for every number of spurious store-exclusive failures. *)
Theorem rmw_island_emulates code d op island orig st :
  lse_fields d -> arch_op (d_op d) = Some op -> d_rn d <> 31 ->
  island_at code island orig (emit_island d island orig) ->
  guest_ok st -> operand_clean d st -> cpu_pc st = orig ->
  cpu_x st (d_rn d) + size_bytes (d_size d) <= cpu_sp st - 64 \/ cpu_sp st <= cpu_x st (d_rn d) ->
  exists st', reaches code st st' /\
    agree_outside (cpu_sp st - 64) (cpu_sp st)
      (exec_lse op (d_size d) (d_rs d) (d_rt d) (d_rn d) st) st'.
Proof. apply rmw_island_emulates'. Qed.

Lemma cas_saved_outside s1 s2 st m x :
  ~ cpu_sp st - 64 <= x < cpu_sp st -> cas_saved s1 s2 st m x = m x.
Proof. intros H. unfold cas_saved. rewrite !store_out by lia. done. Qed.

Section cas_island.
Context (code : Z -> option Z) (d : lse_decoded) (island orig : Z) (st : cpu).
Context (Hd : lse_fields d) (Hbase : d_rn d <> 31).
Context (Hsite : island_at code island orig (emit_cas d island orig)).
Context (Hg : guest_ok st) (Hclean : cas_clean d st) (Hpc : cpu_pc st = orig).
Context (Hdisj : cpu_x st (d_rn d) + size_bytes (d_size d) <= cpu_sp st - 64 \/
                 cpu_sp st <= cpu_x st (d_rn d)).

Lemma load_cas_saved s1 s2 m :
  load (size_bytes (d_size d)) (cpu_x st (d_rn d)) (cas_saved s1 s2 st m) =
  load (size_bytes (d_size d)) (cpu_x st (d_rn d)) m.
Proof. apply load_ext. intros x Hx. apply cas_saved_outside. lia. Qed.

Lemma cas_run s1 s2 :
  cas_scratch d = (s1, s2) ->
  exists st', reaches code st st' /\ cpu_pc st' = orig + 4 /\
    (forall r, cpu_x st' r = cpu_x (wx st (d_rs d)
       (load (size_bytes (d_size d)) (cpu_x st (d_rn d)) (cpu_mem st))) r) /\
    cpu_sp st' = cpu_sp st /\ cpu_nzcv st' = cpu_nzcv st /\ cpu_v st' = cpu_v st /\
    cpu_mem st' = cas_mem d st (cas_saved s1 s2 st (cpu_mem st)).
Proof.
  intros E. pose proof (cas_free d s1 s2 Hd E) as F. pose proof Hsite as Hsite'.
  destruct Hsite' as [Hw _ [Hi0 Hi1] [Ho0 Ho1] Hal _ Hback].
  rewrite (emit_cas_parts d island orig s1 s2 E) in Hw, Hi1, Hback. cbv zeta in Hw, Hi1, Hback.
  set (w := (_ ++ _) ++ cas_epilogue d s1 s2) in *.
  assert (Hwl : Z.of_nat (length w) = 9 + Z.of_nat (length (cas_epilogue d s1 s2))).
  { unfold w. rewrite !length_app. cbn [length cas_prologue cas_loop_words]. lia. }
  rewrite length_app in Hi1, Hback. apply words_at_app in Hw as [Hw [Hbw _]].
  unfold w in Hw. clearbody w. cbn [length] in Hi1, Hback.
  apply words_at_app in Hw as [Hw Hepi]. apply words_at_app in Hw as [Hpro Hloop].
  destruct (reaches_block code
    [STRpre s1 31 (-16); STRpre s2 31 (-16); MRSnzcv s1; STRpre s1 31 (-16)]
    (cas_prologue s1 s2) (set_pc st island)) as [Hr Hp];
    [repeat constructor; eauto with mg|done|done|done|cbn [set_pc cpu_pc length cas_prologue]; lia|].
  pose proof (cas_prologue_effect d s1 s2 st F Hg (set_pc st island) eq_refl eq_refl eq_refl eq_refl) as I.
  cbv zeta in I. set (sp0 := exec_all _ (set_pc st island)) in *. clearbody sp0.
  destruct (cas_loop_runs code d s1 s2 st Hd F Hbase (go_x _ Hg) Hclean (island + 16) _ _ _ sp0
    Hloop ltac:(lia) ltac:(lia) eq_refl I) as (sl&Hrl&I2&H2&Hpl);
    [rewrite Hp; cbn [set_pc cpu_pc length cas_prologue]; lia|].
  change (cpu_mem (set_pc st island)) with (cpu_mem st) in *. rewrite load_cas_saved in H2.
  cbn [app length cas_prologue cas_loop_words] in Hepi.
  destruct (reaches_block code _ _ sl (cas_epi_decodes d s1 s2 F ltac:(apply Hd))) as [Hre Hpe];
    [apply cas_epi_falls|rewrite Hpl; replace (island + 16 + 20) with (island + 4 * Z.of_nat 9) by lia; exact Hepi|lia|lia|].
  destruct (cas_epilogue_effect d s1 s2 st F Hg sl _ _ I2 H2) as (Ex&Esp&Ef&Ev&Em).
  { destruct Hd as (Hsz&_). pose proof (width_le_opw d Hsz) as Hle.
    pose proof (load_range (size_bytes (d_size d)) (cpu_x st (d_rn d)) (cpu_mem st) (size_bytes_nonneg _)).
    pose proof (Z.pow_le_mono_r 2 _ _ ltac:(lia) (proj2 Hle)). lia. }
  { intros k Hk. unfold cas_mem. destruct (_ =? _); [|done]. apply load_store_disj. simpl in Hk. lia. }
  set (se := exec_all _ sl) in *. exists (set_pc se (orig + 4)). split; [|repeat split; done].
  etrans; [by eapply island_entry|]. etrans; [exact Hr|]. etrans; [exact Hrl|]. etrans; [exact Hre|].
  eapply (back_branch_arrives code se island orig (length w)); [exact Hbw|rewrite Hpe; lia| |done|lia].
  match goal with |- b_reach (ptrdiff32 _ ?a) => match type of Hback with b_reach (ptrdiff32 _ ?b) =>
    replace a with b by lia end end. done.
Qed.
End cas_island.

Lemma cas_island_emulates' code d island orig st :
  lse_fields d -> d_op d = LSE_CAS -> d_rn d <> 31 ->
  island_at code island orig (emit_island d island orig) ->
  guest_ok st -> cas_clean d st -> cpu_pc st = orig ->
  cpu_x st (d_rn d) + size_bytes (d_size d) <= cpu_sp st - 64 \/ cpu_sp st <= cpu_x st (d_rn d) ->
  exists st', reaches code st st' /\
    agree_outside (cpu_sp st - 64) (cpu_sp st)
      (exec_cas (d_size d) (d_rs d) (d_rt d) (d_rn d) st) st'.
Proof.
  intros Hd Hop Hb Hs Hg Hc Hpc Hdj. unfold emit_island in Hs. rewrite decide_True in Hs by done.
  destruct (cas_scratch d) as [s1 s2] eqn:E.
  destruct (cas_run code d island orig st Hd Hb Hs Hg Hc Hpc Hdj s1 s2 E)
    as (st'&Hr&Hpc'&Hx&Hsp&Hf&Hv&Hm).
  exists st'. split; [done|]. unfold exec_cas. rewrite rbase_ne by done.
  set (m' := if _ =? _ then _ else _).
  assert (Hm' : forall x, ~ cpu_sp st - 64 <= x < cpu_sp st -> cpu_mem st' x = m' x).
  { intros x Hout. rewrite Hm. unfold cas_mem, m'. rewrite load_cas_saved by done.
    destruct (_ =? _); [|by apply cas_saved_outside].
    rewrite (store_mod _ _ _ (rx st (d_rt d) mod 2 ^ (8 * size_bytes (d_size d))) _ _ (size_bytes_nonneg _))
      by (symmetry; apply Zmod_mod).
    unfold store. destruct (_ && _); [done|]. by apply cas_saved_outside. }
  clearbody m'. pose proof (ia_orig _ _ _ _ Hs).
  repeat split; cbn -[load wx]; unfold wx in *; destruct (Z.eqb_spec (d_rs d) 31);
    cbn -[upd load] in *; auto;
    try (rewrite Hpc', u64_small; lia); intros r; by rewrite Hv.
Qed.

(** Emulation of CAS.  The island of [emit_cas] reaches the instruction
    after the patched one in the state CAS itself produces, matching or not,
    for every number of spurious store-exclusive failures, under the
    conditions of the LD<op> theorem (here the compare register must be clean
    for a sub-word access). *)
Theorem cas_island_emulates code d island orig st :
  lse_fields d -> d_op d = LSE_CAS -> d_rn d <> 31 ->
  island_at code island orig (emit_island d island orig) ->
  guest_ok st -> cas_clean d st -> cpu_pc st = orig ->
  cpu_x st (d_rn d) + size_bytes (d_size d) <= cpu_sp st - 64 \/ cpu_sp st <= cpu_x st (d_rn d) ->
  exists st', reaches code st st' /\
    agree_outside (cpu_sp st - 64) (cpu_sp st)
      (exec_cas (d_size d) (d_rs d) (d_rt d) (d_rn d) st) st'.
Proof. apply cas_island_emulates'. Qed.

Lemma bcax_island_emulates' code vd vn vm va island orig st :
  is_reg vd -> is_reg vn -> is_reg vm -> is_reg va -> ~ (va = vd /\ vn = vd) ->
  island_at code island orig (emit_bcax_island vd vn vm va island orig) ->
  vec_ok st -> cpu_pc st = orig ->
  exists st', reaches code st st' /\
    agree_outside (cpu_sp st - 16) (cpu_sp st) (exec_bcax vd vn vm va st) st'.
Proof.
  intros Hd Hn Hm Ha Hne Hs Hv Hpc.
  pose proof (bcax_body vd vn vm va Hd Hn Hm Ha) as Hdec. cbv zeta in Hdec.
  assert (Hv' : vec_ok (set_pc st island)) by (destruct Hv; by split).
  destruct (bcax_effect vd vn vm va (set_pc st island) Hd Hn Hm Ha Hv' Hne) as (Hft&Ev&Ex&Esp&Ef&Em).
  cbv zeta in Hft, Ev, Ex, Esp, Ef, Em.
  pose proof Hs as Hs'. destruct Hs' as [Hw _ [Hi0 Hi1] [Ho0 Ho1] Hal _ Hback].
  unfold emit_bcax_island in Hw, Hi1, Hback. cbv zeta in Hw, Hi1, Hback.
  set (t := bcax_scratch vd vn vm va) in *.
  set (ws := if va =? vd then [enc_neon_bic vd vm vd; _] else _) in *.
  set (il := if va =? vd then [BICv vd vm vd; _] else _) in *.
  rewrite length_app in Hi1, Hback. cbn [length] in Hi1, Hback.
  apply words_at_app in Hw as [Hw [Hbw _]].
  destruct (reaches_block code il ws (set_pc st island) Hdec Hft Hw Hi0) as [Hr Hp];
    [cbn [set_pc cpu_pc]; lia|].
  set (se := exec_all il (set_pc st island)) in *. cbn [set_pc cpu_pc] in Hp.
  exists (set_pc se (orig + 4)). split.
  - etrans; [by eapply island_entry|]. etrans; [exact Hr|].
    eapply (back_branch_arrives code se island orig (length ws)); [exact Hbw|exact Hp| |done|lia].
    match goal with |- b_reach (ptrdiff32 _ ?a) => match type of Hback with b_reach (ptrdiff32 _ ?b) =>
      replace a with b by lia end end. done.
  - repeat split; cbn -[u64 exec_bcax] in *; try done.
    + by rewrite Ex.
    + cbn. rewrite Hpc, u64_small; lia.
Qed.

(** Emulation of BCAX.  The island of [emit_bcax_island] reaches the
    instruction after the patched one with Vd := Vn xor (Vm and not Va) and
    every other register, the flags and all memory but the 16 dead bytes below
    the stack pointer unchanged, unless Va, Vn and Vd are all the same
    register. *)
Theorem bcax_island_emulates code vd vn vm va island orig st :
  is_reg vd -> is_reg vn -> is_reg vm -> is_reg va -> ~ (va = vd /\ vn = vd) ->
  island_at code island orig (emit_bcax_island vd vn vm va island orig) ->
  vec_ok st -> cpu_pc st = orig ->
  exists st', reaches code st st' /\
    agree_outside (cpu_sp st - 16) (cpu_sp st) (exec_bcax vd vn vm va st) st'.
Proof. apply bcax_island_emulates'. Qed.

(** ** The patching loop *)

(** Confinement.  [isa_emul_patch] writes only the scanned code words and
    the island pool, and leaves the pool pointer inside the pool, whatever the
    code contains and however small the pool is. *)
Theorem isa_emul_patch_confined m code code_size pool pool_end :
  pool <= pool_end ->
  let s := isa_emul_patch m code code_size pool pool_end in
  pool <= ps_island s <= pool_end /\
  forall x, ~ code <= x < code + 4 * Z.of_nat (Z.to_nat (code_size / 4)) ->
            ~ pool <= x < pool_end -> ps_mem s x = m x.
Proof. intros H. by apply (patch_loop_frame pool_end _ code (mk_ps m pool 0)). Qed.


(** ** Concrete instances *)

(** Site 0x1000, island 0x2000, every register and the stack pointer as given. *)
Definition site_code (ws : list Z) (pc : Z) : option Z :=
  if pc =? 0x1000 then Some (enc_b (i32 (ptrdiff32 0x2000 0x1000))) else code_of 0x2000 ws pc.
Definition sample_cpu (x sp pc : Z) : cpu :=
  mkcpu (fun _ => x) sp pc 0x60000000 (fun _ => 0xA5A5) (fun a => a mod 251) None 2.

Ltac concrete :=
  vm_compute; repeat (split || (intros ?; progress (repeat split)));
  try reflexivity; try (intros ?H; discriminate H).

(** ldadd x1, x2, [x3] *)
Lemma rmw_island_emulates_witness :
  let d := mk_lse LSE_LDADD 3 0 0 1 2 3 in let st := sample_cpu 0x9000 0x8000 0x1000 in
  decode_lse 0xF8210062 = Some d /\
  exists st', reaches (site_code (emit_island d 0x2000 0x1000)) st st' /\
    agree_outside (0x8000 - 64) 0x8000 (exec_lse ARCH_LDADD 3 1 2 3 st) st'.
Proof.
  split; [reflexivity|].
  apply (rmw_island_emulates (site_code (emit_island (mk_lse LSE_LDADD 3 0 0 1 2 3) 0x2000 0x1000))
           (mk_lse LSE_LDADD 3 0 0 1 2 3) ARCH_LDADD 0x2000 0x1000 (sample_cpu 0x9000 0x8000 0x1000)).
  - by apply (decode_lse_fields 0xF8210062).
  - reflexivity.
  - discriminate.
  - split; concrete.
  - split; concrete.
  - intros [H|H]; discriminate H.
  - reflexivity.
  - right. concrete.
Defined.

(** casal w4, w5, [x6] *)
Lemma cas_island_emulates_witness :
  let d := mk_lse LSE_CAS 2 1 1 4 5 6 in let st := sample_cpu 0x9000 0x8000 0x1000 in
  decode_lse 0x88E4FCC5 = Some d /\
  exists st', reaches (site_code (emit_island d 0x2000 0x1000)) st st' /\
    agree_outside (0x8000 - 64) 0x8000 (exec_cas 2 4 5 6 st) st'.
Proof.
  split; [reflexivity|].
  apply (cas_island_emulates (site_code (emit_island (mk_lse LSE_CAS 2 1 1 4 5 6) 0x2000 0x1000))
           (mk_lse LSE_CAS 2 1 1 4 5 6) 0x2000 0x1000 (sample_cpu 0x9000 0x8000 0x1000)).
  - by apply (decode_lse_fields 0x88E4FCC5).
  - reflexivity.
  - discriminate.
  - split; concrete.
  - split; concrete.
  - intros H; discriminate H.
  - reflexivity.
  - right. concrete.
Defined.

(** bcax v1.16b, v2.16b, v3.16b, v4.16b *)
Lemma bcax_island_emulates_witness :
  let st := sample_cpu 0x9000 0x8000 0x1000 in
  decode_bcax 0xCE231041 = Some (1, 2, 3, 4) /\
  exists st', reaches (site_code (emit_bcax_island 1 2 3 4 0x2000 0x1000)) st st' /\
    agree_outside (0x8000 - 16) 0x8000 (exec_bcax 1 2 3 4 st) st'.
Proof.
  split; [reflexivity|].
  apply (bcax_island_emulates (site_code (emit_bcax_island 1 2 3 4 0x2000 0x1000))
           1 2 3 4 0x2000 0x1000
           (sample_cpu 0x9000 0x8000 0x1000)).
  - concrete.
  - concrete.
  - concrete.
  - concrete.
  - intros [H _]; discriminate H.
  - split; concrete.
  - split; concrete.
  - reflexivity.
Defined.

Lemma isa_emul_patch_confined_witness :
  let s := isa_emul_patch (fun _ => 0xF8210062) 0x1000 8 0x2000 0x2060 in
  0x2000 <= ps_island s <= 0x2060 /\ ps_patched s = 1 /\ ps_mem s 0x1008 = 0xF8210062.
Proof.
  destruct (isa_emul_patch_confined (fun _ => 0xF8210062) 0x1000 8 0x2000 0x2060) as [H1 H2];
    [lia|].
  split; [exact H1|]. split; [vm_compute; reflexivity|]. apply H2; vm_compute; intros [H H']; discriminate || (apply H; reflexivity).
Defined.
