(* ===== verification/IsaText.v ===== *)
(** * ISA emulation, end to end

    The passes over one text section in their order in src/machgate.c: the
    word rewrites (LDAPR, TPIDRRO), then [isa_emul_patch].  The architecture's
    own decoding of a word fixes what the patched program must do. *)

From S2P Require Import Prelude Arm64 Arm64Enc IsaEmul IsaIslandRun IsaIslandMain IsaCas IsaPatch IsaTheorems.

(** ** The decoder agrees with the architecture *)

Lemma text_patch_word_not_ldapr w : text_patch_word w .& 0x3FFFFC00 <> 0x38BFC000.
Proof.
  unfold text_patch_word, rewrite_rcpc.
  assert (Hmid : forall w', w' .& 0x3FFFFC00 <> 0x38BFC000 ->
    match rewrite_tpidrro_read w' with Some x => x | None => w' end .& 0x3FFFFC00 <> 0x38BFC000).
  { intros w' Hw'. unfold rewrite_tpidrro_read. destruct (_ =? _); [|done]. cbn [negb].
    rewrite Z.land_lor_distr_l, <- Z.land_assoc. change (0x1f .& 0x3FFFFC00) with 0.
    rewrite Z.land_0_r. done. }
  apply Hmid. destruct (Z.eqb_spec (w .& 0x3FFFFC00) 0x38BFC000); [|done].
  rewrite Z.land_lor_distr_l, <- Z.land_assoc. change (0xC00003FF .& 0x3FFFFC00) with 0.
  rewrite Z.land_0_r. done.
Qed.

Lemma decode_lse_arch w aa :
  w .& 0x3FFFFC00 <> 0x38BFC000 -> arch_atomic_decode w = Some aa ->
  match aa with
  | AA_RMW op size acq rel rs rt rn =>
      exists o, decode_lse w = Some (mk_lse o size acq rel rs rt rn) /\ arch_op o = Some op
  | AA_CAS size _ rel rs rt rn => decode_lse w = Some (mk_lse LSE_CAS size 1 rel rs rt rn)
  | AA_LDAPR _ _ _ => False
  end.
Proof.
  intros Hno. unfold arch_atomic_decode, decode_lse.
  change ((w .>> 15) .& 1) with (fld w 15 1). change ((w .>> 12) .& 7) with (fld w 12 3).
  change ((w .>> 30) .& 3) with (fld w 30 2). change ((w .>> 23) .& 1) with (fld w 23 1).
  change ((w .>> 22) .& 1) with (fld w 22 1). change ((w .>> 16) .& 0x1F) with (fld w 16 5).
  change ((w .>> 5) .& 0x1F) with (fld w 5 5).
  replace (w .& 0x1F) with (fld w 0 5) by (unfold fld; by rewrite Z.shiftr_0_r).
  destruct (_ =? 0x38200000).
  - pose proof (fld_range w 15 1 ltac:(lia)) as H15. pose proof (fld_range w 12 3 ltac:(lia)) as H12.
    destruct (arch_rmw_op _ _) as [op|] eqn:Ho.
    + intros [= <-]. eexists. split; [reflexivity|]. unfold arch_rmw_op in Ho.
      repeat case_match; try discriminate; injection Ho as <-; reflexivity.
    + destruct (Z.eqb_spec (w .& 0x3FFFFC00) 0x38BFC000); [done|discriminate].
  - destruct (Z.eqb_spec (w .& 0x3FA07C00) 0x08A07C00) as [E|]; [|discriminate]. intros [= <-].
    assert (H1 : fld w 23 1 = 1).
    { unfold fld. transitivity (((w .& 0x3FA07C00) .>> 23) .& 1).
      - rewrite Z.shiftr_land, <- Z.land_assoc. reflexivity.
      - by rewrite E. }
    change ((w .>> 15) .& 1) with (fld w 15 1). by rewrite H1.
Qed.

(** Decoder agreement.  Of a word that went through the LDAPR/TPIDRRO
    rewrites, whatever the architecture decodes as an atomic is decoded by
    [decode_lse] to the same operation, width, registers and release
    semantics; LD<op>/SWP acquire semantics agree too and a CAS is always
    treated as acquiring, the stronger choice; no LDAPR is left. *)
Theorem decode_lse_agrees w aa :
  arch_atomic_decode (text_patch_word w) = Some aa ->
  match aa with
  | AA_RMW op size acq rel rs rt rn =>
      exists o, decode_lse (text_patch_word w) = Some (mk_lse o size acq rel rs rt rn) /\
                arch_op o = Some op
  | AA_CAS size _ rel rs rt rn =>
      decode_lse (text_patch_word w) = Some (mk_lse LSE_CAS size 1 rel rs rt rn)
  | AA_LDAPR _ _ _ => False
  end.
Proof. apply decode_lse_arch, text_patch_word_not_ldapr. Qed.

Lemma decode_lse_agrees_witness :
  text_patch_word 0x88E4FCC5 = 0x88E4FCC5 /\
  decode_lse (text_patch_word 0x88E4FCC5) = Some (mk_lse LSE_CAS 2 1 1 4 5 6).
Proof.
  split; [reflexivity|].
  exact (decode_lse_agrees 0x88E4FCC5 (AA_CAS 2 1 1 4 5 6) eq_refl).
Defined.

(** ** Every emulated instruction of a patched text *)

(** What the architecture does at a word the emulator replaces. *)
Definition arch_effect (w : Z) (st : cpu) : option cpu :=
  match arch_atomic_decode w with
  | Some (AA_RMW op size _ _ rs rt rn) => Some (exec_lse op size rs rt rn st)
  | Some (AA_CAS size _ _ rs rt rn) => Some (exec_cas size rs rt rn st)
  | Some (AA_LDAPR _ _ _) => None
  | None => match arch_bcax_decode w with
            | Some (vd, vn, vm, va) => Some (exec_bcax vd vn vm va st)
            | None => None
            end
  end.

(** Where the islands keep their promise: the base is not SP, the accessed
    bytes are outside the 64 bytes below SP, the compared register of a
    sub-word access is clean; for BCAX, Va, Vn and Vd are not one register. *)
Definition emulable (w : Z) (st : cpu) : Prop :=
  match arch_atomic_decode w with
  | Some (AA_RMW op size _ _ rs _ rn) =>
      rn <> 31 /\
      (op = ARCH_LDUMAX \/ op = ARCH_LDUMIN -> size < 2 -> rx st rs < 2 ^ (8 * size_bytes size)) /\
      (cpu_x st rn + size_bytes size <= cpu_sp st - 64 \/ cpu_sp st <= cpu_x st rn)
  | Some (AA_CAS size _ _ rs _ rn) =>
      rn <> 31 /\ (size < 2 -> rx st rs < 2 ^ (8 * size_bytes size)) /\
      (cpu_x st rn + size_bytes size <= cpu_sp st - 64 \/ cpu_sp st <= cpu_x st rn)
  | Some (AA_LDAPR _ _ _) => False
  | None => match arch_bcax_decode w with
            | Some (vd, vn, _, va) => ~ (va = vd /\ vn = vd)
            | None => False
            end
  end.

Lemma bcax_decoders w vd vn vm va :
  arch_bcax_decode w = Some (vd, vn, vm, va) ->
  decode_bcax w = Some (vd, vn, vm, va) /\ decode_lse w = None /\
  is_reg vd /\ is_reg vn /\ is_reg vm /\ is_reg va.
Proof.
  unfold arch_bcax_decode. destruct (Z.eqb_spec (w .& 0xFFE08000) 0xCE200000) as [E|]; [|done].
  intros [= <- <- <- <-]. split; [|split; [|auto 10 with mg]].
  - unfold decode_bcax. rewrite E. cbn. unfold fld. by rewrite Z.shiftr_0_r.
  - unfold decode_lse.
    assert (H1 : w .& 0x3F200C00 <> 0x38200000).
    { intros H. assert (Hc : (w .& 0xFFE08000) .& 0x3F200000 = (w .& 0x3F200C00) .& 0x3F200000)
        by (rewrite <- !Z.land_assoc; reflexivity). rewrite E, H in Hc. discriminate Hc. }
    assert (H2 : w .& 0x3FA07C00 <> 0x08A07C00).
    { intros H. assert (Hc : (w .& 0xFFE08000) .& 0x3F200000 = (w .& 0x3FA07C00) .& 0x3F200000)
        by (rewrite <- !Z.land_assoc; reflexivity). rewrite E, H in Hc. discriminate Hc. }
    destruct (Z.eqb_spec (w .& 0x3F200C00) 0x38200000); [done|].
    by destruct (Z.eqb_spec (w .& 0x3FA07C00) 0x08A07C00).
Qed.

Lemma agree_outside_wider lo lo' hi st st' :
  lo' <= lo -> agree_outside lo hi st st' -> agree_outside lo' hi st st'.
Proof.
  intros Hlo (H1&H2&H3&H4&H5&H6). repeat split; auto. intros x Hx. apply H6. lia.
Qed.

Lemma arch_decodes_ldapr w :
  w .& 0x3FFFFC00 = 0x38BFC000 ->
  arch_atomic_decode w = Some (AA_LDAPR (fld w 30 2) (fld w 0 5) (fld w 5 5)).
Proof.
  intros H. unfold arch_atomic_decode.
  assert (Hk : forall M, 0x3FFFFC00 .& M = M -> w .& M = 0x38BFC000 .& M)
    by (intros M HM; by rewrite <- H, <- Z.land_assoc, HM).
  rewrite (Hk 0x3F200C00 eq_refl), H. change (_ =? 0x38200000) with true.
  change (0x38BFC000 =? 0x38BFC000) with true.
  replace (fld w 15 1) with 1; [replace (fld w 12 3) with 4; [done|]|]; unfold fld.
  - transitivity (((w .& 0x7000) .>> 12) .& 7); [by rewrite (Hk 0x7000 eq_refl)|].
    rewrite Z.shiftr_land, <- Z.land_assoc. reflexivity.
  - transitivity (((w .& 0x8000) .>> 15) .& 1); [by rewrite (Hk 0x8000 eq_refl)|].
    rewrite Z.shiftr_land, <- Z.land_assoc. reflexivity.
Qed.

Section patched.
Context (m : word_mem) (code code_size pool pool_end : Z).
Context (L : text_layout m code code_size pool pool_end) (i : nat).
Context (Hi : (i < Z.to_nat (code_size / 4))%nat).
Local Abbreviation a := (code + 4 * Z.of_nat i).
Local Abbreviation mf := (ps_mem (isa_emul_patch m code code_size pool pool_end)).

Lemma patched_lse d :
  decode_lse (m a) = Some d -> exists p, island_at (fetch mf) p a (emit_island d p a).
Proof.
  intros Hd. destruct (patched_island m code code_size pool pool_end L i Hi) as (p&ws&Hf&Hs).
  { unfold estimate_word. rewrite Hd. lia. }
  unfold island_for in Hf. rewrite Hd in Hf. injection Hf as <-. by exists p.
Qed.

Lemma patched_bcax vd vn vm va :
  decode_lse (m a) = None -> decode_bcax (m a) = Some (vd, vn, vm, va) ->
  exists p, island_at (fetch mf) p a (emit_bcax_island vd vn vm va p a).
Proof.
  intros Hn Hd. destruct (patched_island m code code_size pool pool_end L i Hi) as (p&ws&Hf&Hs).
  { unfold estimate_word. rewrite Hn, Hd. lia. }
  unfold island_for in Hf. rewrite Hn, Hd in Hf. injection Hf as <-. by exists p.
Qed.
End patched.

(** C2. End to end.  With a pool of the estimated size, disjoint from the text
    and within branch range, an atomic or a BCAX of the text, run in the patched
    program by a guest it can be emulated for, does what the architecture
    defines and leaves garbage below the stack pointer: from its address the
    patched program reaches the next instruction with the registers, flags,
    vector registers and memory the replaced instruction produces, except that
    the 64 bytes below the stack pointer may hold anything, for every number of
    spurious store-exclusive failures.  It can be emulated ([emulable]) when it
    is an LD<op>, SWP or CAS (not an LDAPR) whose base is not the stack pointer,
    whose bytes are not among the 64 below the stack pointer, and, for a sub-word
    unsigned min/max or compare, whose compared register has no bits above the
    width; or a BCAX in which the first and the last operand are not both the
    register it writes.  [operands_not_emulated] shows that the others may
    misbehave. *)
Theorem patched_text_emulates m code code_size pool pool_end i st st1 :
  text_layout m code code_size pool pool_end -> (i < Z.to_nat (code_size / 4))%nat ->
  let w := m (code + 4 * Z.of_nat i) in
  guest_ok st -> vec_ok st -> cpu_pc st = code + 4 * Z.of_nat i ->
  emulable w st -> arch_effect w st = Some st1 ->
  exists st',
    reaches (fetch (ps_mem (isa_emul_patch m code code_size pool pool_end))) st st' /\
    agree_outside (cpu_sp st - 64) (cpu_sp st) st1 st'.
Proof.
  intros L Hi w Hg Hv Hpc. unfold emulable, arch_effect.
  destruct (arch_atomic_decode w) as [aa|] eqn:Ea.
  - assert (Hno : w .& 0x3FFFFC00 = 0x38BFC000 -> exists s t n, aa = AA_LDAPR s t n).
    { intros H. rewrite (arch_decodes_ldapr w H) in Ea. injection Ea as <-. eauto. }
    destruct aa as [op size acq rel rs rt rn|size acq rel rs rt rn|]; [| |done].
    + destruct (decode_lse_arch w _ ltac:(intros H; by destruct (Hno H) as (?&?&?&?)) Ea) as (o&Hd&Ho).
      intros (Hb&Hc&Hdj) [= <-]. destruct (patched_lse m code code_size pool pool_end L i Hi _ Hd) as (p&Hs).
      eapply (rmw_island_emulates' _ _ op p _ st (decode_lse_fields _ _ Hd) Ho Hb Hs Hg); [|done|done].
      intros Hop. cbn [d_op d_size d_rs] in *. apply Hc. destruct Hop as [-> | ->]; injection Ho as <-; auto.
    + pose proof (decode_lse_arch w _ ltac:(intros H; by destruct (Hno H) as (?&?&?&?)) Ea) as Hd.
      intros (Hb&Hc&Hdj) [= <-]. destruct (patched_lse m code code_size pool pool_end L i Hi _ Hd) as (p&Hs).
      by eapply (cas_island_emulates' _ _ p _ st (decode_lse_fields _ _ Hd) eq_refl Hb Hs Hg).
  - destruct (arch_bcax_decode w) as [[[[vd vn] vm] va]|] eqn:Eb; [|done]. intros Hne [= <-].
    destruct (bcax_decoders _ _ _ _ _ Eb) as (Hd&Hl&H1&H2&H3&H4).
    destruct (patched_bcax m code code_size pool pool_end L i Hi _ _ _ _ Hl Hd) as (p&Hs).
    destruct (bcax_island_emulates' _ vd vn vm va p _ st H1 H2 H3 H4 Hne Hs Hv Hpc) as (st'&Hr&Ha).
    exists st'. split; [done|]. eapply agree_outside_wider; [|exact Ha]. lia.
Qed.

Lemma patched_text_emulates_witness :
  let m := upd (fun _ => 0xD503201F) 0x1004 0xF8210062 in
  let st := sample_cpu 0x9000 0x8000 0x1004 in
  exists st', reaches (fetch (ps_mem (isa_emul_patch m 0x1000 12 0x2000 0x2060))) st st' /\
    agree_outside (0x8000 - 64) 0x8000 (exec_lse ARCH_LDADD 3 1 2 3 st) st'.
Proof.
  apply (patched_text_emulates (upd (fun _ => 0xD503201F) 0x1004 0xF8210062) 0x1000 12 0x2000 0x2060 1
           (sample_cpu 0x9000 0x8000 0x1004)).
  - split; [concrete|concrete|right; concrete|concrete|concrete].
  - vm_compute. lia.
  - split; concrete.
  - split; concrete.
  - reflexivity.
  - split; [discriminate|]. split; [intros [H|H]; discriminate H|]. right. concrete.
  - reflexivity.
Defined.

(** ** Where the islands differ from the instruction *)

(** One word of memory after running the island of [w] from its site to the
    instruction after it, and after the instruction itself. *)
Definition island_outcome (w : Z) (n : nat) (st : cpu) : option cpu :=
  match decode_lse w with
  | Some d => run (site_code (emit_island d 0x2000 0x1000)) n st
  | None => match decode_bcax w with
            | Some (vd, vn, vm, va) => run (site_code (emit_bcax_island vd vn vm va 0x2000 0x1000)) n st
            | None => None
            end
  end.

Definition limit_cpu (x : Z -> Z) : cpu :=
  mkcpu x 0x8000 0x1000 0 (fun r => 0xF0 + r) (fun a => if a =? 0x8000 then 7 else 0) None 0.

(** Where the islands differ from the instruction they replace.
    (1) LDADD X1, X2, [SP]: the island has moved the stack pointer by its four
    pushes when it uses it as the base, so the addition is applied to the saved
    flags and the guest's word at SP keeps its old value.
    (2) LDUMAXB W1, W2, [X3] with bits above the byte set in W1: the island
    compares the whole register with the byte, takes the register although its
    low byte is smaller and stores that low byte.
    (3) BCAX V1, V1, V3, V1: the two-instruction form of [emit_bcax_island]
    overwrites Vn before it reads it and yields zero. *)
Theorem operands_not_emulated :
  (let st := limit_cpu (fun r => r) in
   let view s := (cpu_pc s, load 8 0x8000 (cpu_mem s), cpu_x s 2) in
   option_map view (island_outcome 0xF82103E2 17 st) = Some (0x1004, 7, 0) /\
   option_map view (arch_effect 0xF82103E2 st) = Some (0x1004, 8, 7)) /\
  (let st := limit_cpu (fun r => if r =? 1 then 0x103 else 0x8000) in
   let view s := (cpu_pc s, cpu_mem s 0x8000) in
   option_map view (island_outcome 0x38216062 18 st) = Some (0x1004, 3) /\
   option_map view (arch_effect 0x38216062 st) = Some (0x1004, 7)) /\
  (let st := limit_cpu (fun r => r) in
   let view s := (cpu_pc s, cpu_v s 1) in
   option_map view (island_outcome 0xCE230421 4 st) = Some (0x1004, 0) /\
   option_map view (arch_effect 0xCE230421 st) = Some (0x1004, Z.lxor 0xF1 (Z.ldiff 0xF3 0xF1))).
Proof. repeat split; vm_compute; reflexivity. Qed.
