(* ===== verification/CStr.v ===== *)
(** * C strings

    A [char*] into a NUL-terminated buffer is the list of characters from it
    to the terminator; [*p == '\0'] is the empty list.  The functions of
    [ctype.h], [string.h], [stdlib.h] and [stdio.h] the components use. *)

From Stdlib Require Export Ascii.
From S2P Require Import Prelude.

Notation cstr := (list ascii).
Definition str (s : string) : cstr := String.list_ascii_of_string s.
Definition code (c : ascii) : Z := Z.of_nat (nat_of_ascii c).
Definition ceq (a b : ascii) : bool := Ascii.eqb a b.
Definition NL : ascii := "010"%char.
Definition TAB : ascii := "009"%char.
Definition CR : ascii := "013"%char.

(** [isspace] in the C locale. *)
Definition is_space (c : ascii) : bool := (code c =? 32) || ((9 <=? code c) && (code c <=? 13)).

Fixpoint drop_while (f : ascii -> bool) (s : cstr) : cstr :=
  match s with c :: s' => if f c then drop_while f s' else s | [] => [] end.
Fixpoint take_while (f : ascii -> bool) (s : cstr) : cstr :=
  match s with c :: s' => if f c then c :: take_while f s' else [] | [] => [] end.

(** [strncmp(s, prefix, strlen(prefix)) == 0], with the rest of [s]. *)
Fixpoint strip_prefix (prefix s : cstr) : option cstr :=
  match prefix, s with
  | [], _ => Some s
  | a :: prefix, b :: s => if ceq a b then strip_prefix prefix s else None
  | _, [] => None
  end.
Definition starts_with (prefix s : cstr) : bool := match strip_prefix prefix s with Some _ => true | None => false end.

(** [strcmp(a, b) == 0] *)
Definition streq (a b : cstr) : bool := bool_decide (a = b).

(** Decimal and hexadecimal digits. *)
Definition digit_of (c : ascii) : option Z :=
  if (48 <=? code c) && (code c <=? 57) then Some (code c - 48) else None.
Definition hex_of (c : ascii) : option Z :=
  if (48 <=? code c) && (code c <=? 57) then Some (code c - 48)
  else if (97 <=? code c) && (code c <=? 102) then Some (code c - 97 + 10)
  else if (65 <=? code c) && (code c <=? 70) then Some (code c - 65 + 10)
  else None.
Definition is_hex_digit (c : ascii) : bool := match hex_of c with Some _ => true | None => false end.

Fixpoint hex_digits (acc : Z) (s : cstr) : Z * cstr :=
  match s with
  | c :: s' => match hex_of c with Some d => hex_digits (16 * acc + d) s' | None => (acc, s) end
  | [] => (acc, [])
  end.

Definition is_x (c : ascii) : bool := ceq c "x" || ceq c "X".

(** [strtoull(s, &end, 16)] on a string that starts with a hexadecimal digit:
    a [0x] prefix is skipped when a digit follows it, the value saturates. *)
Definition skip_0x_digit (s : cstr) : cstr :=
  match s with
  | z :: x :: d :: s' => if ceq z "0" && is_x x && is_hex_digit d then d :: s' else s
  | _ => s
  end.
Definition strtoull16 (s : cstr) : Z * cstr :=
  let '(v, rest) := hex_digits 0 (skip_0x_digit s) in (Z.min v (2 ^ 64 - 1), rest).

Fixpoint dec_digits (acc : Z) (s : cstr) : Z :=
  match s with
  | c :: s' => match digit_of c with Some d => dec_digits (10 * acc + d) s' | None => acc end
  | [] => acc
  end.

(** [atoi]: [(int)strtol(s, NULL, 10)], which saturates at the limits of [long]. *)
Definition atoi (s : cstr) : Z :=
  let s := drop_while is_space s in
  let v := match s with
           | "-"%char :: s' => - dec_digits 0 s'
           | "+"%char :: s' => dec_digits 0 s'
           | _ => dec_digits 0 s
           end in
  i32 (Z.max (- 2 ^ 63) (Z.min v (2 ^ 63 - 1))).

(** [fgets(buf, size, f)]: up to [size - 1] characters, to a newline included. *)
Fixpoint take_line (n : nat) (s : cstr) : cstr * cstr :=
  match n, s with
  | S n, c :: s' => if ceq c NL then ([c], s') else let '(l, r) := take_line n s' in (c :: l, r)
  | _, _ => ([], s)
  end.

(** The lines a [while (fgets(buf, size, f))] loop sees. *)
Fixpoint fgets_lines (fuel size : nat) (s : cstr) : list cstr :=
  match fuel, s with
  | S fuel, _ :: _ => let '(l, r) := take_line (Nat.pred size) s in l :: fgets_lines fuel size r
  | _, _ => []
  end.
Definition file_lines (size : nat) (content : cstr) : list cstr := fgets_lines (length content) size content.

(** The C string at [a], of which at most [n] characters are read. *)
Fixpoint c_string (n : nat) (a : Z) (m : bytemem) : cstr :=
  match n with
  | O => []
  | S n => let b := m a mod 256 in
           if b =? 0 then [] else ascii_of_nat (Z.to_nat b) :: c_string n (a + 1) m
  end.

(** The C string in a buffer: up to the first NUL. *)
Definition cut_nul (s : cstr) : cstr := take_while (fun c => negb (code c =? 0)) s.

(** [strchr(s, c)]: what is before the first [c] and what is after it. *)
Fixpoint split_char (c : ascii) (s : cstr) : option (cstr * cstr) :=
  match s with
  | [] => None
  | d :: s => if ceq d c then Some ([], s)
              else match split_char c s with Some (a, b) => Some (d :: a, b) | None => None end
  end.

(** [strrchr(s, c)]: what is before the last [c] and what is after it. *)
Fixpoint split_last (c : ascii) (s : cstr) : option (cstr * cstr) :=
  match s with
  | [] => None
  | d :: s => match split_last c s with
              | Some (a, b) => Some (d :: a, b)
              | None => if ceq d c then Some ([], s) else None
              end
  end.

(** Without the trailing characters that satisfy [f]. *)
Fixpoint drop_trailing (f : ascii -> bool) (s : cstr) : cstr :=
  match s with
  | [] => []
  | c :: s => match drop_trailing f s with
              | [] => if f c then [] else [c]
              | r => c :: r
              end
  end.

(** [memcpy(dst, src, n)]; the two do not overlap. *)
Definition memcpy (dst src n : Z) (m : bytemem) : bytemem :=
  fun x => if (dst <=? x) && (x <? dst + n) then m (src + (x - dst)) else m x.
(** [memset(a, 0, n)] *)
Definition memzero (a n : Z) (m : bytemem) : bytemem := store n a 0 m.

(** A NUL-terminated string written at [a]. *)
Fixpoint put_string (a : Z) (s : cstr) (m : bytemem) : bytemem :=
  match s with
  | [] => store 1 a 0 m
  | c :: s => put_string (a + 1) s (store 1 a (code c) m)
  end.
(** [snprintf(a, n, "%s", s)] *)
Definition snprintf_s (a n : Z) (s : cstr) (m : bytemem) : bytemem := put_string a (firstn (Z.to_nat (n - 1)) s) m.

(** [%d] and [%lx]: the digits of a number in base [b]. *)
Definition digit_char (d : Z) : ascii := ascii_of_nat (Z.to_nat (if d <? 10 then 48 + d else 87 + d)).
Fixpoint print_digits (fuel : nat) (b v : Z) : cstr :=
  match fuel with
  | O => []
  | S fuel => if v <? b then [digit_char v] else print_digits fuel b (v / b) ++ [digit_char (v mod b)]
  end.
Definition print_d (v : Z) : cstr := if v <? 0 then "-"%char :: print_digits 20 10 (- v) else print_digits 20 10 v.
Definition print_lx (v : Z) : cstr := print_digits 16 16 v.

(** No NUL inside. *)
Definition no_nul (s : cstr) : Prop := Forall (fun c => code c <> 0) s.

(** ** Facts *)

Lemma strip_prefix_app p s : strip_prefix p (p ++ s) = Some s.
Proof. induction p as [|c p IH]; [done|]. cbn. unfold ceq. by rewrite Ascii.eqb_refl. Qed.

Lemma take_line_shorter n s : (length (snd (take_line n s)) <= length s)%nat.
Proof.
  revert s. induction n as [|n IH]; intros [|c s]; cbn; try lia. destruct (ceq c NL); cbn; [lia|].
  specialize (IH s). destruct (take_line n s). cbn in *. lia.
Qed.

Lemma fgets_lines_all fuel size s :
  (length s <= fuel)%nat -> (2 <= size)%nat -> concat (fgets_lines fuel size s) = s.
Proof.
  intros Hf Hs. revert s Hf. induction fuel as [|fuel IH]; intros [|c s] Hf; cbn in *; try done; [lia|].
  destruct size as [|[|size]]; [lia|lia|]. cbn [Nat.pred take_line].
  destruct (ceq c NL) eqn:E; cbn; [by rewrite IH by lia|].
  pose proof (take_line_shorter size s) as Hl.
  assert (Hj : fst (take_line size s) ++ snd (take_line size s) = s).
  { clear. revert s. induction size as [|n IH]; intros [|c s]; cbn; try done. destruct (ceq c NL); [done|].
    specialize (IH s). destruct (take_line n s). cbn in *. by rewrite IH. }
  destruct (take_line size s) as [l r]. cbn in *. rewrite IH by lia. by rewrite Hj.
Qed.

(** A string depends on its bytes and its terminator only. *)
Lemma c_string_ext n a m m' :
  (forall x, a <= x <= a + Z.of_nat (length (c_string n a m)) -> m' x = m x) -> c_string n a m' = c_string n a m.
Proof.
  revert a. induction n as [|n IH]; intros a Hx; [done|]. cbn [c_string] in *.
  assert (E : m' a = m a) by (apply Hx; lia). rewrite E. destruct (m a mod 256 =? 0); [done|]. f_equal.
  apply IH. intros x Hr. apply Hx. cbn [length]. lia.
Qed.

(** It ends before the first NUL. *)
Lemma c_string_no_nul n a m : no_nul (c_string n a m).
Proof.
  revert a; induction n as [|n IH]; intros a; simpl; [constructor|]. destruct (Z.eqb_spec (m a mod 256) 0) as [|Hne]; constructor; [|apply IH].
  pose proof (Z.mod_pos_bound (m a) 256 ltac:(lia)). unfold code. rewrite nat_ascii_embedding by lia. lia.
Qed.

Lemma memcpy_out d s n m x : x < d \/ d + n <= x -> memcpy d s n m x = m x.
Proof. intros H. unfold memcpy. destruct (Z.leb_spec d x), (Z.ltb_spec x (d + n)); cbn; lia || done. Qed.

Lemma put_string_out a s m x : x < a \/ a + Z.of_nat (length s) < x -> put_string a s m x = m x.
Proof.
  revert a m. induction s as [|c s IH]; intros a m Hx; cbn [put_string length] in *; [apply store_out; lia|].
  rewrite IH by lia. apply store_out. lia.
Qed.

Lemma code_range c : 0 <= code c < 256.
Proof. unfold code. pose proof (nat_ascii_bounded c). lia. Qed.

Lemma store1_at a v m : 0 <= v < 256 -> store 1 a v m a = v.
Proof.
  intros Hv. pose proof (load_store_same 1 a v m ltac:(lia)) as H. unfold load in H. cbn [Z.to_nat Pos.to_nat Pos.iter_op load_nat] in H.
  unfold store in *. destruct (Z.leb_spec a a), (Z.ltb_spec a (a + 1)); try lia. cbn [andb] in *.
  replace (a - a) with 0 in * by lia. rewrite Z.mul_0_r, Z.shiftr_0_r in *. change 255 with (Z.ones 8). rewrite Z.land_ones by lia.
  apply Z.mod_small. lia.
Qed.

(** A string that was written is read back. *)
Lemma c_string_put n a s m : no_nul s -> (length s < n)%nat -> c_string n a (put_string a s m) = s.
Proof.
  intros Hs. revert n a m. induction Hs as [|c s Hc Hs IH]; intros [|n] a m Hn; cbn [length] in Hn; try lia; cbn [c_string put_string].
  - by rewrite store1_at by lia.
  - rewrite put_string_out, store1_at by (lia || apply code_range). pose proof (code_range c).
    rewrite Z.mod_small by lia. destruct (Z.eqb_spec (code c) 0); [done|]. f_equal; [|apply IH; lia].
    unfold code. rewrite Nat2Z.id. apply ascii_nat_embedding.
Qed.

(** ** Lines *)

Lemma take_line_body n b r : Forall (fun c => c <> NL) b -> (length b < n)%nat -> take_line n (b ++ NL :: r) = (b ++ [NL], r).
Proof.
  intros Hb. revert n. induction Hb as [|c b Hc Hb IH]; intros [|n] Hn; cbn [length] in Hn; try lia; [done|].
  cbn [take_line app]. unfold ceq. destruct (Ascii.eqb_spec c NL); [done|]. by rewrite IH by lia.
Qed.

(** A file of short lines is read line by line. *)
Lemma file_lines_concat size l :
  Forall (fun b => Forall (fun c => c <> NL) b /\ (length b + 2 <= size)%nat) l ->
  file_lines size (concat (map (fun b => b ++ [NL]) l)) = map (fun b => b ++ [NL]) l.
Proof.
  unfold file_lines. intros Hl. set (content := concat _).
  assert (H : forall fuel, (length content <= fuel)%nat -> fgets_lines fuel size content = map (fun b => b ++ [NL]) l);
    [|by apply H]. subst content.
  induction Hl as [|b l [Hb Hn] Hl IH]; intros fuel Hf; [by destruct fuel|]. cbn [map concat] in *.
  rewrite <- app_assoc in *. cbn [app] in *. rewrite length_app in Hf. cbn [length] in Hf. destruct fuel as [|fuel]; [lia|].
  cbn [fgets_lines]. rewrite take_line_body by (done || lia). rewrite IH by lia. by destruct b.
Qed.

Lemma cut_nul_id s : no_nul s -> cut_nul s = s.
Proof.
  intros H. unfold cut_nul. induction H as [|c s Hc H IH]; [done|]. cbn. destruct (Z.eqb_spec (code c) 0); [done|]. cbn. by rewrite IH.
Qed.

Lemma split_char_app c a b : Forall (fun d => d <> c) a -> split_char c (a ++ c :: b) = Some (a, b).
Proof.
  intros H. induction H as [|d a Hd H IH]; cbn [app split_char]; unfold ceq.
  - by rewrite Ascii.eqb_refl.
  - destruct (Ascii.eqb_spec d c); [done|]. by rewrite IH.
Qed.

Lemma drop_trailing_app f s t : Forall (fun c => f c = true) t -> drop_trailing f (s ++ t) = drop_trailing f s.
Proof.
  intros Ht. induction s as [|c s IH]; cbn [app drop_trailing].
  - induction Ht as [|c t Hc Ht IH]; [done|]. cbn. by rewrite IH, Hc.
  - by rewrite IH.
Qed.

Lemma drop_trailing_last f s c : f c = false -> drop_trailing f (s ++ [c]) = s ++ [c].
Proof. intros H. induction s as [|d s IH]; cbn [app drop_trailing]; [by rewrite H|]. rewrite IH. by destruct s. Qed.
