(* ===== verification/Host.v ===== *)
(** * The host a component calls: Linux and its C library

    The kernel is not part of the program: it is a parameter, a record of
    functions on an opaque state.  The C library calls the components make
    ([syscall], [sigaction], [sigprocmask], [errno]) are modelled on top of it,
    in a state monad over the process state.  Guest and host share one address
    space, so a system call gets the whole memory. *)

From Stdlib Require Import Ascii.
From S2P Require Import Prelude.

(** ** Values of the Linux/AArch64 headers *)

Definition EINTR : Z := 4.
Definition EIO : Z := 5.
Definition EINVAL : Z := 22.

Definition SYS_openat : Z := 56.
Definition SYS_close : Z := 57.
Definition SYS_lseek : Z := 62.
Definition SYS_read : Z := 63.
Definition SYS_write : Z := 64.
Definition SYS_writev : Z := 66.
Definition SYS_munmap : Z := 215.
Definition SYS_mmap : Z := 222.
Definition SYS_mprotect : Z := 226.

Definition PAGE_SIZE : Z := 4096.
Definition MAP_SHARED : Z := 0x01.
Definition MAP_PRIVATE : Z := 0x02.
Definition MAP_FIXED : Z := 0x10.
Definition MAP_ANONYMOUS : Z := 0x20.
Definition PROT_READ : Z := 1.
Definition PROT_WRITE : Z := 2.
Definition PROT_EXEC : Z := 4.
Definition AT_FDCWD : Z := -100.

(** Signal dispositions. *)
Inductive sighandler := SIG_DFL | SIG_IGN | SIG_FN (handler : Z).
#[export] Instance sighandler_eq_dec : EqDecision sighandler.
Proof. solve_decision. Defined.

(** [struct sigaction]; a signal set has bit [s - 1] for signal [s]. *)
Record sigact := mk_sa { sa_handler : sighandler; sa_mask : Z; sa_flags : Z }.
Definition default_action : sigact := mk_sa SIG_DFL 0 0.

Definition SIGKILL : Z := 9.
Definition SIGPIPE : Z := 13.
Definition SIGSTOP : Z := 19.
Definition NSIG : Z := 65.
Definition SIG_BLOCK : Z := 0.
Definition SIG_UNBLOCK : Z := 1.
Definition SIG_SETMASK : Z := 2.

(** Neither SIGKILL nor SIGSTOP can be blocked: the kernel drops them. *)
Definition blockable (set : Z) : Z := set .& Z.lnot (2 ^ (SIGKILL - 1) .| 2 ^ (SIGSTOP - 1)).

Record stack_t := mk_stack { ss_sp : Z; ss_flags : Z; ss_size : Z }.

Record timespec := mk_ts { tv_sec : Z; tv_nsec : Z }.

(** The fields of Linux's [struct stat] the code reads. *)
Record linux_stat := mk_lst {
  l_dev : Z; l_mode : Z; l_nlink : Z; l_ino : Z; l_uid : Z; l_gid : Z; l_rdev : Z;
  l_atim : timespec; l_mtim : timespec; l_ctim : timespec;
  l_size : Z; l_blocks : Z; l_blksize : Z;
}.

(** The fields of Linux's [struct statfs] the code reads. *)
Record linux_statfs := mk_lsf {
  lf_bsize : Z; lf_frsize : Z; lf_blocks : Z; lf_bfree : Z; lf_bavail : Z; lf_files : Z; lf_ffree : Z;
  lf_fsid0 : Z; lf_fsid1 : Z; lf_type : Z; lf_flags : Z;
}.

(** ** The kernel *)

(** A system call takes its number and arguments and may write to memory; it
    yields a result or an error number.  Calls whose structures the program
    only reads field by field have their own entries: [k_fstat], [k_statfs]
    (by path), [k_mounts] (the entries of /proc/self/mounts: directory, type,
    device), [k_sigpending], [k_sigaltstack]. *)
Record kernel := {
  kstate : Type;
  k_syscall : Z -> list Z -> bytemem -> kstate -> (Z + Z) * bytemem * kstate;
  k_fstat : Z -> kstate -> (linux_stat + Z) * kstate;
  k_statfs : list ascii -> kstate -> (linux_statfs + Z) * kstate;
  k_mounts : kstate -> (list (list ascii * list ascii * list ascii) + Z) * kstate;
  k_sigpending : kstate -> (Z + Z) * kstate;
  k_sigaltstack : option stack_t -> kstate -> (stack_t + Z) * kstate;
}.

(** ** The process *)

Record process (V : Type) (K : kernel) := mk_proc {
  p_kernel : kstate K;
  p_errno : Z;
  p_actions : Z -> sigact;      (* dispositions of the signals *)
  p_mask : Z;                   (* signal mask of the thread *)
  p_mem : bytemem;              (* memory *)
  p_vm : V;                     (* the tables of the component *)
  p_login : list ascii;         (* [login_name] *)
  p_first_pid : Z;              (* the process that was started *)
}.
Arguments mk_proc {V K}.
Arguments p_kernel {V K}.
Arguments p_errno {V K}.
Arguments p_actions {V K}.
Arguments p_mask {V K}.
Arguments p_mem {V K}.
Arguments p_vm {V K}.
Arguments p_login {V K}.
Arguments p_first_pid {V K}.

Section setters.
Context {V : Type} {K : kernel}.
Implicit Types p : process V K.
Definition with_kernel (k : kstate K) p : process V K :=
  mk_proc k (p_errno p) (p_actions p) (p_mask p) (p_mem p) (p_vm p) (p_login p) (p_first_pid p).
Definition with_errno (e : Z) p : process V K :=
  mk_proc (p_kernel p) e (p_actions p) (p_mask p) (p_mem p) (p_vm p) (p_login p) (p_first_pid p).
Definition with_actions (f : Z -> sigact) p : process V K :=
  mk_proc (p_kernel p) (p_errno p) f (p_mask p) (p_mem p) (p_vm p) (p_login p) (p_first_pid p).
Definition with_mask (k : Z) p : process V K :=
  mk_proc (p_kernel p) (p_errno p) (p_actions p) k (p_mem p) (p_vm p) (p_login p) (p_first_pid p).
Definition with_mem (m : bytemem) p : process V K :=
  mk_proc (p_kernel p) (p_errno p) (p_actions p) (p_mask p) m (p_vm p) (p_login p) (p_first_pid p).
Definition with_vm (v : V) p : process V K :=
  mk_proc (p_kernel p) (p_errno p) (p_actions p) (p_mask p) (p_mem p) v (p_login p) (p_first_pid p).
Definition with_login (l : list ascii) p : process V K :=
  mk_proc (p_kernel p) (p_errno p) (p_actions p) (p_mask p) (p_mem p) (p_vm p) l (p_first_pid p).
End setters.

Definition host (V : Type) (K : kernel) (A : Type) : Type := process V K -> A * process V K.

Definition hret {V K A} (a : A) : host V K A := fun p => (a, p).
Definition hbind {V K A B} (m : host V K A) (f : A -> host V K B) : host V K B :=
  fun p => let '(a, p') := m p in f a p'.

Declare Scope host_scope.
Delimit Scope host_scope with host.
Notation "'let*' x := m 'in' k" := (hbind m (fun x => k))
  (at level 200, x name, m at level 100, k at level 200, right associativity) : host_scope.
Notation "'do*' m 'in' k" := (hbind m (fun _ => k))
  (at level 200, m at level 100, k at level 200, right associativity) : host_scope.

Section libc.
Context {V : Type} {K : kernel}.
Open Scope host_scope.

Definition get_errno : host V K Z := fun p => (p_errno p, p).
Definition set_errno (e : Z) : host V K unit := fun p => (tt, with_errno e p).
Definition get_vm : host V K V := fun p => (p_vm p, p).
Definition set_vm (v : V) : host V K unit := fun p => (tt, with_vm v p).
Definition get_mem : host V K bytemem := fun p => (p_mem p, p).
Definition set_mem (m : bytemem) : host V K unit := fun p => (tt, with_mem m p).

(** [sigaction(sig, new, &old)]: the old action, or EINVAL.  The actions of
    SIGKILL and SIGSTOP can only be read. *)
Definition sigaction (sig : Z) (new : option sigact) : host V K (sigact + Z) := fun p =>
  if (sig <? 1) || (NSIG <=? sig) then (inr EINVAL, p)
  else match new with
       | None => (inl (p_actions p sig), p)
       | Some a =>
           if (sig =? SIGKILL) || (sig =? SIGSTOP) then (inr EINVAL, p)
           else (inl (p_actions p sig),
                 with_actions (upd (p_actions p) sig (mk_sa (sa_handler a) (blockable (sa_mask a)) (sa_flags a))) p)
       end.

(** [sigprocmask(how, set, &old)] *)
Definition sigprocmask (how : Z) (set : option Z) : host V K (Z + Z) := fun p =>
  match set with
  | None => (inl (p_mask p), p)
  | Some s =>
      let s := blockable s in
      if how =? SIG_BLOCK then (inl (p_mask p), with_mask (p_mask p .| s) p)
      else if how =? SIG_UNBLOCK then (inl (p_mask p), with_mask (p_mask p .& Z.lnot s) p)
      else if how =? SIG_SETMASK then (inl (p_mask p), with_mask s p)
      else (inr EINVAL, p)
  end.

(** [pthread_sigmask(SIG_SETMASK, &mask, &old)]. *)
Definition set_mask (mask : Z) : host V K Z := fun p => (p_mask p, with_mask mask p).

Definition in_kernel {A} (f : kstate K -> A * kstate K) : host V K A :=
  fun p => let '(a, k) := f (p_kernel p) in (a, with_kernel k p).

(** [syscall]: -1 with [errno] set on error. *)
Definition syscall (nr : Z) (args : list Z) : host V K Z := fun p =>
  let '(r, m, k) := k_syscall K nr args (p_mem p) (p_kernel p) in
  let p := with_mem m (with_kernel k p) in
  match r with
  | inl v => (v, p)
  | inr e => (-1, with_errno e p)
  end.
End libc.
