(* ===== verification/GuestVm.v ===== *)
(** * Guest memory maps: src/syscall/guest_vm_track.c, guest_vm_dispatch.c

    Sub-page anonymous mappings are recorded in a table of 64 slots so that a
    later [munmap] of a whole page of one of them is refused the way Darwin
    refuses it. *)

From stdpp Require Import gmap.
From S2P Require Import Prelude Host.

Definition GUEST_VM_TRACK_MAX : nat := 64.

Record guest_vm_entry := mk_vme { vm_addr : Z; vm_mapped_size : Z; vm_used : bool }.

(** [static struct guest_vm_entry guest_vm_table[GUEST_VM_TRACK_MAX]] *)
Definition guest_vm_table := list guest_vm_entry.

Fixpoint guest_vm_track_add (addr length : Z) (t : guest_vm_table) : guest_vm_table :=
  match t with
  | [] => []
  | e :: t => if vm_used e then e :: guest_vm_track_add addr length t
              else mk_vme addr length true :: t
  end.

Fixpoint guest_vm_lookup (addr : Z) (t : guest_vm_table) : option Z :=
  match t with
  | [] => None
  | e :: t => if negb (vm_used e) then guest_vm_lookup addr t
              else if negb (vm_addr e =? addr) then guest_vm_lookup addr t
              else Some (vm_mapped_size e)
  end.

Fixpoint guest_vm_forget (addr : Z) (t : guest_vm_table) : guest_vm_table :=
  match t with
  | [] => []
  | e :: t => if negb (vm_used e) then e :: guest_vm_forget addr t
              else if negb (vm_addr e =? addr) then e :: guest_vm_forget addr t
              else mk_vme (vm_addr e) (vm_mapped_size e) false :: t
  end.

Section vm.
Context {K : kernel}.
Local Open Scope host_scope.

Definition machgate_darwin_mmap (addr length prot flags fd offset : Z) : host guest_vm_table K Z :=
  do* set_errno 0 in
  let* result := syscall SYS_mmap [addr; length; prot; flags; fd; offset] in
  if (0 <=? result) && (addr =? 0) && (0 <? length) && (length <? PAGE_SIZE)
     && nz (flags .& MAP_ANONYMOUS)
  then let* t := get_vm in do* set_vm (guest_vm_track_add result length t) in hret result
  else hret result.

(** The [do ... while (result < 0 && errno == EINTR && tries < 8)] loop;
    [more] is [8 - tries] after this try. *)
Fixpoint munmap_tries (more : nat) (addr length : Z) : host guest_vm_table K Z :=
  do* set_errno 0 in
  let* result := syscall SYS_munmap [addr; length] in
  let* e := get_errno in
  match more with
  | S more => if (result <? 0) && (e =? EINTR) then munmap_tries more addr length else hret result
  | O => hret result
  end.

(** [sigfillset]. *)
Definition ALL_SIGNALS : Z := 2 ^ 64 - 1.

Definition machgate_darwin_munmap (addr length : Z) : host guest_vm_table K Z :=
  let* t := get_vm in
  let tracked := match guest_vm_lookup addr t with Some _ => true | None => false end in
  if tracked && (PAGE_SIZE <=? length) then do* set_errno EINVAL in hret (-1)
  else
    let* old_mask := set_mask ALL_SIGNALS in
    let* result := munmap_tries 7 addr length in
    do* set_mask old_mask in
    let* e := get_errno in
    if (result <? 0) && (e =? EINTR) then
      do* (if tracked || (length =? PAGE_SIZE) then set_errno EINVAL else hret tt) in hret (-1)
    else if (0 <=? result) && tracked then
      let* t := get_vm in do* set_vm (guest_vm_forget addr t) in hret result
    else hret result.

Definition machgate_dispatch_darwin_mmap := machgate_darwin_mmap.
Definition machgate_dispatch_darwin_munmap := machgate_darwin_munmap.
End vm.

(** ** The table as a map *)

Fixpoint vm_map (t : guest_vm_table) : gmap Z Z :=
  match t with
  | [] => ∅
  | e :: t => if vm_used e then <[vm_addr e := vm_mapped_size e]> (vm_map t) else vm_map t
  end.

Fixpoint used_addrs (t : guest_vm_table) : list Z :=
  match t with
  | [] => []
  | e :: t => if vm_used e then vm_addr e :: used_addrs t else used_addrs t
  end.

(** The table keeps its size and records an address once. *)
Record vm_wf (t : guest_vm_table) : Prop := {
  vw_length : length t = GUEST_VM_TRACK_MAX;
  vw_nodup : NoDup (used_addrs t);
}.

Definition vm_full (t : guest_vm_table) : bool := forallb vm_used t.

Lemma guest_vm_lookup_map a t : guest_vm_lookup a t = vm_map t !! a.
Proof.
  induction t as [|e t IH]; [done|]. cbn. destruct (vm_used e); cbn; [|done].
  destruct (Z.eqb_spec (vm_addr e) a) as [->|]; cbn.
  - by rewrite lookup_insert_eq.
  - by rewrite lookup_insert_ne.
Qed.

Lemma vm_map_used a t : is_Some (vm_map t !! a) <-> a ∈ used_addrs t.
Proof.
  induction t as [|e t IH]; cbn.
  - rewrite lookup_empty. split; [by intros []|]. by intros ?%not_elem_of_nil.
  - destruct (vm_used e); [|done]. rewrite elem_of_cons.
    destruct (decide (a = vm_addr e)) as [->|].
    + rewrite lookup_insert_eq. split; eauto.
    + rewrite lookup_insert_ne by done. rewrite IH. naive_solver.
Qed.

Lemma track_add_map a l t :
  vm_map t !! a = None ->
  vm_map (guest_vm_track_add a l t) = if vm_full t then vm_map t else <[a := l]> (vm_map t).
Proof.
  induction t as [|e t IH]; [done|]. cbn. destruct (vm_used e) eqn:E; cbn; [|done]. rewrite E.
  rewrite lookup_insert_None. intros [Ha Hne]. rewrite IH by done.
  destruct (vm_full t) eqn:Ef; unfold vm_full in Ef; rewrite Ef; cbn; [done|]. by rewrite insert_insert_ne.
Qed.

Lemma track_add_addrs a l t x :
  x ∈ used_addrs (guest_vm_track_add a l t) -> x = a \/ x ∈ used_addrs t.
Proof.
  induction t as [|e t IH]; [by right|]. cbn. destruct (vm_used e) eqn:E; cbn; rewrite ?E.
  - rewrite !elem_of_cons. naive_solver.
  - rewrite elem_of_cons. naive_solver.
Qed.

Lemma track_add_length a l t : length (guest_vm_track_add a l t) = length t.
Proof. induction t as [|e t IH]; [done|]. cbn. destruct (vm_used e); cbn; auto. Qed.

Lemma track_add_wf a l t :
  vm_wf t -> vm_map t !! a = None -> vm_wf (guest_vm_track_add a l t).
Proof.
  intros [Hl Hn] Ha. split; [by rewrite track_add_length|]. clear Hl.
  assert (Hna : a ∉ used_addrs t) by (rewrite <- vm_map_used, Ha; by intros []).
  clear Ha. induction t as [|e t IH]; [done|]. cbn in *.
  destruct (vm_used e) eqn:E; cbn; rewrite ?E.
  - apply NoDup_cons in Hn as [H1 H2]. rewrite not_elem_of_cons in Hna. apply NoDup_cons.
    split; [|apply IH; naive_solver]. intros [?|?]%track_add_addrs; naive_solver.
  - by apply NoDup_cons.
Qed.

Lemma forget_length a t : length (guest_vm_forget a t) = length t.
Proof. induction t as [|e t IH]; [done|]. cbn. repeat destruct (negb _); cbn; auto. Qed.

Lemma forget_addrs a t x : x ∈ used_addrs (guest_vm_forget a t) -> x ∈ used_addrs t.
Proof.
  induction t as [|e t IH]; [done|]. cbn.
  destruct (vm_used e) eqn:E; cbn; [destruct (negb _)|]; cbn; rewrite ?E, ?elem_of_cons;
    naive_solver.
Qed.

Lemma forget_wf a t : vm_wf t -> vm_wf (guest_vm_forget a t).
Proof.
  intros [Hl Hn]. split; [by rewrite forget_length|]. clear Hl.
  induction t as [|e t IH]; [done|]. cbn in *.
  destruct (vm_used e) eqn:E; cbn; [destruct (negb _)|]; cbn; rewrite ?E; auto.
  - apply NoDup_cons in Hn as [H1 H2]. apply NoDup_cons. split; auto. by intros ?%forget_addrs.
  - by apply NoDup_cons in Hn as [_ ?].
Qed.

Lemma forget_map a t : NoDup (used_addrs t) -> vm_map (guest_vm_forget a t) = delete a (vm_map t).
Proof.
  induction t as [|e t IH]; cbn; [by rewrite delete_empty|]. intros Hn.
  destruct (vm_used e) eqn:E; cbn; [|by rewrite E, IH]. apply NoDup_cons in Hn as [H1 H2].
  destruct (Z.eqb_spec (vm_addr e) a) as [<-|]; cbn; rewrite ?E.
  - rewrite delete_insert_id; [done|]. apply eq_None_not_Some. by rewrite vm_map_used.
  - by rewrite IH, delete_insert_ne.
Qed.

(** ** The operations *)

Section ops.
Context {K : kernel}.
Implicit Types p : process guest_vm_table K.

Definition vm_tracked (addr : Z) p : bool :=
  match vm_map (p_vm p) !! addr with Some _ => true | None => false end.

Lemma munmap_tries_frame more addr length p :
  let '(_, p') := munmap_tries more addr length p in
  p_vm p' = p_vm p /\ p_mask p' = p_mask p /\ p_actions p' = p_actions p /\
  p_login p' = p_login p /\ p_first_pid p' = p_first_pid p.
Proof.
  revert p. induction more as [|more IH]; intros p; cbn -[syscall]; unfold hbind, hret, get_errno.
  - unfold syscall, set_errno. cbn -[k_syscall].
    by destruct (k_syscall K SYS_munmap [addr; length] _ _) as [[[v|e] m] k].
  - unfold syscall at 1, set_errno. cbn -[k_syscall andb].
    destruct (k_syscall K SYS_munmap [addr; length] _ _) as [[[v|e] m] k]; cbn -[andb];
      destruct (_ && _); try done;
      match goal with |- let '(_, _) := munmap_tries _ _ _ ?q in _ => specialize (IH q) end;
      destruct (munmap_tries _ _ _ _) as [r p']; cbn in IH; destruct IH as (->&->&->&->&->); done.
Qed.

(** A [munmap] that goes to the kernel. *)
Lemma munmap_kernel addr length p :
  vm_tracked addr p && (PAGE_SIZE <=? length) = false ->
  exists r q, munmap_tries 7 addr length (with_mask ALL_SIGNALS p) = (r, q) /\
    let gave_up := (r <? 0) && (p_errno q =? EINTR) in
    machgate_darwin_munmap addr length p =
      (if gave_up then -1 else r,
       mk_proc (p_kernel q)
         (if gave_up && (vm_tracked addr p || (length =? PAGE_SIZE)) then EINVAL else p_errno q)
         (p_actions p) (p_mask p) (p_mem q)
         (if (0 <=? r) && vm_tracked addr p then guest_vm_forget addr (p_vm p) else p_vm p)
         (p_login p) (p_first_pid p)).
Proof.
  intros H. unfold machgate_darwin_munmap, hbind at 1, get_vm. cbv beta iota zeta.
  rewrite guest_vm_lookup_map. fold (vm_tracked addr p). rewrite H.
  unfold hbind at 1, set_mask at 1. unfold hbind at 1.
  pose proof (munmap_tries_frame 7 addr length (with_mask ALL_SIGNALS p)) as F.
  destruct (munmap_tries 7 addr length _) as [r q]. cbn [p_vm p_mask p_actions p_login p_first_pid with_mask] in F.
  destruct F as (Fv&Fm&Fs&Fl&Fp). exists r, q. split; [done|]. cbv zeta.
  unfold hbind, set_mask, get_errno, get_vm, set_vm, set_errno, hret, with_mask, with_vm, with_errno. cbn. rewrite Fv, Fs, Fl, Fp.
  destruct (Z.ltb_spec r 0), (Z.leb_spec 0 r); try lia; cbn.
  - destruct (p_errno q =? EINTR); cbn; rewrite ?Fv; [|done]. by destruct (_ || _); cbn; rewrite ?Fv, ?Fs, ?Fl, ?Fp.
  - by destruct (vm_tracked addr p).
Qed.

Lemma munmap_refused addr length p :
  vm_tracked addr p && (PAGE_SIZE <=? length) = true ->
  machgate_darwin_munmap addr length p =
    (-1, with_errno EINVAL p).
Proof.
  intros H. unfold machgate_darwin_munmap, hbind at 1, get_vm. cbv beta iota zeta.
  rewrite guest_vm_lookup_map. fold (vm_tracked addr p). by rewrite H.
Qed.
End ops.

(** C36. [machgate_darwin_munmap] against the abstract table, a map from
    address to size: the table stays well formed; a successful unmap deletes
    exactly the address from the map and a failed one changes nothing; a
    tracked address is refused with EINVAL and without a kernel call when a
    whole page or more is unmapped; the caller's signal mask comes back on
    every path; and EINTR is only ever reported for an untracked address and
    a length other than a page. *)
Theorem darwin_munmap_refines {K : kernel} addr length (p : process guest_vm_table K) :
  vm_wf (p_vm p) ->
  let '(r, p') := machgate_darwin_munmap addr length p in
  vm_wf (p_vm p') /\
  vm_map (p_vm p') = (if 0 <=? r then delete addr (vm_map (p_vm p)) else vm_map (p_vm p)) /\
  p_mask p' = p_mask p /\ p_actions p' = p_actions p /\
  (vm_tracked addr p = true -> PAGE_SIZE <= length ->
   r = -1 /\ p_errno p' = EINVAL /\ p_kernel p' = p_kernel p) /\
  (r < 0 -> p_errno p' = EINTR -> vm_tracked addr p = false /\ length <> PAGE_SIZE).
Proof.
  intros Hwf. destruct (vm_tracked addr p && (PAGE_SIZE <=? length)) eqn:E.
  - rewrite (munmap_refused _ _ _ E). cbn. repeat split; auto; try apply Hwf; discriminate.
  - destruct (munmap_kernel addr length p E) as (r&q&_&->). cbv zeta.
    set (gave := (r <? 0) && (p_errno q =? EINTR)).
    assert (Hneg : (0 <=? (if gave then -1 else r)) = (0 <=? r)).
    { unfold gave. destruct (Z.ltb_spec r 0), (Z.leb_spec 0 r), (p_errno q =? EINTR); cbn; lia || done. }
    rewrite Hneg. cbn [p_vm p_mask p_actions p_errno p_kernel].
    destruct (vm_tracked addr p) eqn:Et; cbn [andb orb] in *.
    + destruct (Z.leb_spec PAGE_SIZE length); [discriminate|]. rewrite !andb_true_r.
      split; [destruct (0 <=? r); auto using forget_wf|].
      split; [destruct (0 <=? r); [apply forget_map, Hwf|done]|].
      split; [done|]. split; [done|]. split; [intros _ ?; lia|]. intros Hr He. exfalso. revert Hr He.
      destruct gave eqn:Eg; [done|]. intros Hr He. unfold gave in Eg.
      rewrite He, Z.eqb_refl, andb_true_r in Eg. destruct (Z.ltb_spec r 0); [done|lia].
    + rewrite !andb_false_r. split; [done|].
      split. { destruct (0 <=? r); [|done]. symmetry. apply delete_id. unfold vm_tracked in Et.
        by destruct (_ !! addr). }
      split; [done|]. split; [done|]. split; [done|]. intros Hr He. split; [done|]. intros ->.
      rewrite Z.eqb_refl, andb_true_r in He. destruct gave eqn:Eg; [done|]. unfold gave in Eg.
      rewrite He, Z.eqb_refl, andb_true_r in Eg. destruct (Z.ltb_spec r 0); [done|lia].
Qed.

(** C37. [machgate_darwin_mmap] records the successful sub-page anonymous
    mappings made without an address hint, and no others (mappings with a hint,
    from a file, of a page or more, failed ones).  Provided that the kernel does
    not answer such a request with an address the table still holds - it can,
    when the guest had unmapped it by a call the table does not see, and the
    table then has the address twice - the abstract map gains (address, length)
    unless all 64 slots are used, is otherwise unchanged, and the table stays
    well formed. *)
Theorem darwin_mmap_refines {K : kernel} addr length prot flags fd offset (p : process guest_vm_table K) :
  vm_wf (p_vm p) ->
  let '(r, p') := machgate_darwin_mmap addr length prot flags fd offset p in
  let small := (0 <=? r) && (addr =? 0) && (0 <? length) && (length <? PAGE_SIZE)
               && nz (flags .& MAP_ANONYMOUS) in
  (small = true -> vm_map (p_vm p) !! r = None) ->
  vm_wf (p_vm p') /\
  vm_map (p_vm p') =
    (if small && negb (vm_full (p_vm p)) then <[r := length]> (vm_map (p_vm p)) else vm_map (p_vm p)).
Proof.
  intros Hwf. unfold machgate_darwin_mmap, syscall, hbind, set_errno, hret, get_vm, set_vm.
  cbn -[k_syscall andb vm_map].
  destruct (k_syscall K SYS_mmap _ _ _) as [[[v|e] m] k]; cbn -[andb vm_map]; destruct (_ && _) eqn:E;
    intros Hfresh; cbn -[vm_map andb] in *; rewrite E in *; try done; specialize (Hfresh eq_refl);
    (split; [by apply track_add_wf|]); rewrite track_add_map by done; by destruct (vm_full _).
Qed.

(** ** A concrete kernel for the instances: every mapping succeeds at 0x7000,
    every unmapping is interrupted twice and then succeeds. *)
Definition demo_kernel : kernel := {|
  kstate := nat;
  k_syscall nr _ m k := if nr =? SYS_munmap
                        then match k with S (S _) => (inl 0, m, 0%nat) | _ => (inr EINTR, m, S k) end
                        else (inl 0x7000, m, k);
  k_fstat _ k := (inr EINVAL, k); k_statfs _ k := (inr EINVAL, k); k_mounts k := (inl [], k);
  k_sigpending k := (inl 0, k); k_sigaltstack _ k := (inr EINVAL, k) |}.

Definition demo_proc (t : guest_vm_table) : process guest_vm_table demo_kernel :=
  @mk_proc _ demo_kernel 0%nat 0 (fun _ => default_action) 5 (fun _ => 0) t [] 1.

Lemma empty_table_wf : vm_wf (repeat (mk_vme 0 0 false) 64).
Proof. split; [done|]. by apply NoDup_nil. Qed.

Lemma darwin_munmap_refines_witness :
  let t := guest_vm_track_add 0x7000 100 (repeat (mk_vme 0 0 false) 64) in
  let '(r, p') := machgate_darwin_munmap 0x7000 100 (demo_proc t) in
  r = 0 /\ p_mask p' = 5 /\ vm_map (p_vm p') = delete 0x7000 (vm_map t).
Proof.
  pose proof (darwin_munmap_refines 0x7000 100
    (demo_proc (guest_vm_track_add 0x7000 100 (repeat (mk_vme 0 0 false) 64)))
    (track_add_wf 0x7000 100 _ empty_table_wf eq_refl)) as H.
  cbv zeta. destruct (machgate_darwin_munmap _ _ _) as [r p'] eqn:E.
  assert (Hr : r = 0) by (vm_compute in E; by injection E as <- _). subst r.
  destruct H as (_&H&Hm&_). done.
Defined.

Lemma darwin_mmap_refines_witness :
  let '(r, p') := machgate_darwin_mmap 0 100 3 MAP_ANONYMOUS (-1) 0 (demo_proc (repeat (mk_vme 0 0 false) 64)) in
  r = 0x7000 /\ vm_map (p_vm p') = <[0x7000 := 100]> ∅.
Proof.
  pose proof (darwin_mmap_refines 0 100 3 MAP_ANONYMOUS (-1) 0
    (demo_proc (repeat (mk_vme 0 0 false) 64)) empty_table_wf) as H.
  destruct (machgate_darwin_mmap _ _ _ _ _ _ _) as [r p'] eqn:E.
  assert (Hr : r = 0x7000) by (vm_compute in E; by injection E as <- _). subst r.
  destruct H as [_ H]; [done|]. done.
Defined.
