(* ===== verification/GuestCpus.v ===== *)
(** * Guest platform and CPU count: src/guest_cpus.c *)

From stdpp Require Import relations.
From S2P Require Import Prelude CStr.

(** ** The component *)

Definition IOS_DEFAULT_CPU_COUNT : Z := 6.

(** [detected_platform] and the function-static [cached_result]. *)
Record guest_cpus := mk_gc { detected_platform : Z; cached_result : Z }.
Definition guest_cpus_initial : guest_cpus := mk_gc 0 (-1).

Definition machgate_set_guest_platform (macho_platform : Z) (s : guest_cpus) : guest_cpus :=
  if detected_platform s =? 0 then mk_gc macho_platform (cached_result s) else s.

Definition machgate_guest_platform (s : guest_cpus) : Z := detected_platform s.

Definition machgate_guest_platform_name (s : guest_cpus) : string :=
  match detected_platform s with
  | 2 => "ios"
  | 1 => "macos"
  | 7 => "ios-simulator"
  | _ => "host"
  end%string.

(** [override] is [getenv("MACHGATE_GUEST_NCPU")], [online] what
    [sysconf(_SC_NPROCESSORS_ONLN)] returns. *)
Definition guest_cpu_count (override : option cstr) (online : Z) (s : guest_cpus) : Z * guest_cpus :=
  if 0 <? cached_result s then (cached_result s, s)
  else
    let result := 0 in
    let result :=
      match override with
      | Some ((_ :: _) as o) =>
          let parsed := atoi o in
          if (1 <=? parsed) && (parsed <=? 255) then parsed else result
      | _ => result
      end in
    let result :=
      if (result =? 0) && ((detected_platform s =? 2) || (detected_platform s =? 7))
      then IOS_DEFAULT_CPU_COUNT else result in
    let result :=
      if result =? 0 then (if 1 <=? online then i32 online else 1) else result in
    let result := if 255 <? result then 255 else result in
    (result, mk_gc (detected_platform s) result).

(** ** Properties *)

(** The ways the program uses the component. *)
Inductive gc_step : guest_cpus -> guest_cpus -> Prop :=
| gc_platform plat s : gc_step s (machgate_set_guest_platform plat s)
| gc_count override online s : gc_step s (snd (guest_cpu_count override online s)).

Definition gc_steps : guest_cpus -> guest_cpus -> Prop := rtc gc_step.

Lemma gc_step_platform s s' : gc_step s s' -> detected_platform s <> 0 -> detected_platform s' = detected_platform s.
Proof.
  intros [plat s0|o n s0] Hne.
  - unfold machgate_set_guest_platform. by destruct (Z.eqb_spec (detected_platform s0) 0).
  - unfold guest_cpu_count. by destruct (0 <? cached_result s0).
Qed.

Lemma gc_step_cached s s' : gc_step s s' -> 0 < cached_result s -> cached_result s' = cached_result s.
Proof.
  intros [plat s0|o n s0] Hne.
  - unfold machgate_set_guest_platform. by destruct (_ =? 0).
  - unfold guest_cpu_count. by destruct (Z.ltb_spec 0 (cached_result s0)); [|lia].
Qed.

(** The guest's platform is a load-time fact: once a non-zero platform
    has been recorded, no sequence of later calls changes it. *)
Theorem platform_set_once plat s s' :
  detected_platform s = 0 -> plat <> 0 ->
  gc_steps (machgate_set_guest_platform plat s) s' -> machgate_guest_platform s' = plat.
Proof.
  intros H0 Hp Hs. assert (E : detected_platform (machgate_set_guest_platform plat s) = plat).
  { unfold machgate_set_guest_platform. by rewrite H0. }
  unfold machgate_guest_platform. rewrite <- E in Hp |- *.
  induction Hs as [x|x y z Hxy _ IH]; [done|]. pose proof (gc_step_platform _ _ Hxy Hp) as E'.
  rewrite <- E'. apply IH; [by rewrite E'|]. by rewrite E'.
Qed.

Lemma count_range override online s :
  (0 < cached_result s -> cached_result s <= 255) -> 0 <= online < 2 ^ 31 \/ online = -1 ->
  1 <= fst (guest_cpu_count override online s) <= 255.
Proof.
  intros Hc Ho. unfold guest_cpu_count. destruct (Z.ltb_spec 0 (cached_result s)); [cbn; lia|]. cbn [fst].
  set (r1 := match override with Some _ => _ | None => _ end).
  assert (H1 : 0 <= r1 <= 255).
  { unfold r1. destruct override as [[|c o]|]; try lia.
    destruct (Z.leb_spec 1 (atoi (c :: o))), (Z.leb_spec (atoi (c :: o)) 255); cbn; lia. }
  clearbody r1. set (r2 := if (r1 =? 0) && _ then _ else _).
  assert (H2 : 0 <= r2 <= 255) by (unfold r2, IOS_DEFAULT_CPU_COUNT; destruct (_ && _); lia).
  clearbody r2. destruct (Z.eqb_spec r2 0) as [->|]; [|destruct (Z.ltb_spec 255 r2); lia].
  destruct (Z.leb_spec 1 online); [|reflexivity || (destruct (255 <? 1) eqn:E; [discriminate|lia])].
  unfold i32. rewrite signed_small by lia. destruct (Z.ltb_spec 255 online); lia.
Qed.

(** The reported CPU count is between 1 and 255 whatever the
    environment and the host say, and the same on every later call. *)
Theorem cpu_count_stable override online s s' override' online' :
  cached_result s <= 255 -> 0 <= online < 2 ^ 31 \/ online = -1 ->
  let '(n, s1) := guest_cpu_count override online s in
  1 <= n <= 255 /\ (gc_steps s1 s' -> fst (guest_cpu_count override' online' s') = n).
Proof.
  intros Hc Ho. pose proof (count_range override online s (fun _ => Hc) Ho) as Hr.
  assert (E : cached_result (snd (guest_cpu_count override online s)) = fst (guest_cpu_count override online s)).
  { unfold guest_cpu_count. by destruct (0 <? cached_result s). }
  destruct (guest_cpu_count override online s) as [n s1]. cbn [fst snd] in *. split; [done|]. intros Hs.
  assert (E' : cached_result s' = n).
  { clear Hc Ho. induction Hs as [x|x y z Hxy _ IH]; [done|].
    apply IH. by rewrite (gc_step_cached _ _ Hxy) by lia. }
  unfold guest_cpu_count. rewrite E'. by destruct (Z.ltb_spec 0 n); [|lia].
Qed.

Lemma platform_set_once_witness :
  machgate_guest_platform (machgate_set_guest_platform 1 (machgate_set_guest_platform 2 guest_cpus_initial)) = 2.
Proof.
  apply (platform_set_once 2 guest_cpus_initial); [reflexivity|lia|].
  apply rtc_once, gc_platform.
Defined.

Lemma cpu_count_stable_witness :
  fst (guest_cpu_count None 4 guest_cpus_initial) = 4 /\
  fst (guest_cpu_count None 64 (snd (guest_cpu_count None 4 guest_cpus_initial))) = 4.
Proof.
  split; [reflexivity|].
  pose proof (cpu_count_stable None 4 guest_cpus_initial (snd (guest_cpu_count None 4 guest_cpus_initial)) None 64) as H.
  destruct H as [_ H]; [vm_compute; discriminate|lia|]. apply H. apply rtc_refl.
Defined.
