(* ===== verification/HashChain.v ===== *)
(** * Hash buckets with index chains

    The resolver keeps two hash tables of the same shape: an array of buckets
    holding the index of the entry added last (or -1) and, per entry, the index
    of the one added before it.  Adding an entry and the search loop are the
    same in both; so is the reason they are right. *)

From S2P Require Import Prelude.

Record chains := mk_chains { buckets : Z -> Z; chain : Z -> Z }.

(** [for (i...) buckets[i] = -1;] with [chain] as it was. *)
Definition no_chains (ch : Z -> Z) : chains := mk_chains (fun _ => -1) ch.

(** [chain[i] = buckets[b]; buckets[b] = i;] *)
Definition push (b i : Z) (c : chains) : chains :=
  mk_chains (upd (buckets c) b i) (upd (chain c) i (buckets c b)).

(** [while (i >= 0) { if (hit(i)) return i; i = chain[i]; }] *)
Fixpoint walk (fuel : nat) (hit : Z -> bool) (ch : Z -> Z) (i : Z) : option Z :=
  match fuel with
  | O => None
  | S fuel => if i <? 0 then None else if hit i then Some i else walk fuel hit ch (ch i)
  end.

(** The entries reached from [start], in order. *)
Fixpoint links (ch : Z -> Z) (start : Z) (l : list Z) : Prop :=
  match l with
  | [] => start = -1
  | i :: l => start = i /\ 0 <= i /\ links ch (ch i) l
  end.

(** Bucket [b] holds the entries [f b], the last added first. *)
Definition chained (c : chains) (f : Z -> list Z) : Prop :=
  forall b, links (chain c) (buckets c b) (f b).

Lemma walk_links fuel hit ch start l :
  links ch start l -> (length l < fuel)%nat -> walk fuel hit ch start = List.find hit l.
Proof.
  revert fuel start. induction l as [|i l IH]; intros fuel start Hl Hf; (destruct fuel as [|fuel]; [cbn in Hf; lia|]).
  - cbn in *. by subst.
  - destruct Hl as (->&H0&Hl). cbn [walk List.find]. destruct (Z.ltb_spec i 0); [lia|].
    destruct (hit i); [done|]. apply IH; [done|]. cbn in Hf. lia.
Qed.

Lemma links_upd ch i v start l : ~ In i l -> links ch start l -> links (upd ch i v) start l.
Proof.
  revert start. induction l as [|j l IH]; intros start Hi Hl; [done|]. destruct Hl as (->&H0&Hl).
  split; [done|]. split; [done|]. rewrite upd_ne by (intros ->; apply Hi; by left).
  apply IH; [|done]. intros Hin. apply Hi. by right.
Qed.

Lemma chained_no_chains ch : chained (no_chains ch) (fun _ => []).
Proof. done. Qed.

Lemma chained_push c f b i :
  chained c f -> 0 <= i -> (forall b', ~ In i (f b')) -> chained (push b i c) (upd f b (i :: f b)).
Proof.
  intros Hc H0 Hi b'. cbn [push buckets chain]. destruct (decide (b' = b)) as [->|Hb].
  - rewrite !upd_eq. cbn. rewrite upd_eq. repeat split; try done. by apply links_upd.
  - rewrite !upd_ne by done. by apply links_upd.
Qed.

(** Searching a bucket for entries only it can hold is searching them all. *)
Lemma find_filter {A} (hit p : A -> bool) l :
  (forall x, hit x = true -> p x = true) -> List.find hit (List.filter p l) = List.find hit l.
Proof.
  intros H. induction l as [|x l IH]; [done|]. cbn. destruct (p x) eqn:E; cbn.
  - by rewrite IH.
  - rewrite IH. destruct (hit x) eqn:E'; [|done]. rewrite (H x E') in E. done.
Qed.

Lemma find_ext {A} (f g : A -> bool) l :
  (forall x, In x l -> f x = g x) -> List.find f l = List.find g l.
Proof.
  intros H. induction l as [|x l IH]; [done|]. cbn. rewrite (H x (or_introl eq_refl)), IH; [done|].
  intros y Hy. apply H. by right.
Qed.

Lemma chained_ext c f g : (forall b, f b = g b) -> chained c f -> chained c g.
Proof. intros H Hc b. rewrite <- H. apply Hc. Qed.

Lemma find_app {A} (p : A -> bool) l1 l2 :
  List.find p (l1 ++ l2) = match List.find p l1 with Some x => Some x | None => List.find p l2 end.
Proof. induction l1 as [|x l1 IH]; [done|]. cbn. by destruct (p x). Qed.
