(* ===== verification/BindSlots.v ===== *)
(** * The bind slot registry: src/resolver.c

    What was bound where: every bound pointer slot with the symbol and its
    source, for later queries by slot address.  A fixed array with hash chains
    through it; the [hash_next] fields are the [chain] of [HashChain]. *)

From stdpp Require Import gmap.
From S2P Require Import Prelude CStr HashChain.

Module BindSlots.

Definition BIND_SLOT_REGISTRY_MAX : Z := 32768.
Definition BIND_SLOT_HASH_BUCKETS : Z := 65536.

Record resolver_bind_slot_info := mk_info {
  slot_addr : Z; resolved : Z; context : cstr; sym_name : cstr; lookup_name : cstr;
  dylib_name : option cstr; source_kind : option cstr; source_path : option cstr;
}.

(** [registry] is the used part of the array. *)
Record slots := mk_slots {
  registry : list resolver_bind_slot_info; hash : chains; hash_initialized : bool;
}.

(** The static variables before [main]. *)
Definition no_slots : slots := mk_slots [] (mk_chains (fun _ => 0) (fun _ => 0)) false.

Definition slot_addr_hash (slot_addr : Z) : Z :=
  let h := slot_addr in
  let h := Z.lxor h (h .>> 33) in
  let h := u64 (h * 0xff51afd7ed558ccd) in
  let h := Z.lxor h (h .>> 33) in
  u32 h .& (BIND_SLOT_HASH_BUCKETS - 1).

Fixpoint push_slots (i : Z) (l : list resolver_bind_slot_info) (c : chains) : chains :=
  match l with
  | [] => c
  | x :: l => push_slots (i + 1) l (push (slot_addr_hash (slot_addr x)) i c)
  end.

Definition bind_slot_hash_rebuild (s : slots) : slots :=
  mk_slots (registry s) (push_slots 0 (registry s) (no_chains (chain (hash s)))) (hash_initialized s).

Definition has_slot (l : list resolver_bind_slot_info) (a i : Z) : bool :=
  match l !! Z.to_nat i with Some x => slot_addr x =? a | None => false end.

(** The index of the entry, and the state with the table set up. *)
Definition bind_slot_find (a : Z) (s : slots) : option Z * slots :=
  let s := if hash_initialized s then s
           else bind_slot_hash_rebuild (mk_slots (registry s) (hash s) true) in
  (walk (S (length (registry s))) (has_slot (registry s) a) (chain (hash s)) (buckets (hash s) (slot_addr_hash a)), s).

Definition register_bind_slot (info : resolver_bind_slot_info) (s : slots) : slots :=
  if slot_addr info =? 0 then s
  else match bind_slot_find (slot_addr info) s with
       | (Some i, s) => mk_slots (<[Z.to_nat i := info]> (registry s)) (hash s) (hash_initialized s)
       | (None, s) =>
           let n := Z.of_nat (length (registry s)) in
           if BIND_SLOT_REGISTRY_MAX <=? n then s
           else mk_slots (registry s ++ [info]) (push (slot_addr_hash (slot_addr info)) n (hash s))
                         (hash_initialized s)
       end.

(** [None] is -1. *)
Definition resolver_lookup_bind_slot (a : Z) (s : slots) : option resolver_bind_slot_info * slots :=
  if a =? 0 then (None, s)
  else match bind_slot_find a s with
       | (Some i, s) => (registry s !! Z.to_nat i, s)
       | (None, s) => (None, s)
       end.

(** ** The registry is a map from slots to their last binding *)

(** The abstract operation: a full registry takes no new slots. *)
Definition register_spec (info : resolver_bind_slot_info) (mp : gmap Z resolver_bind_slot_info)
    : gmap Z resolver_bind_slot_info :=
  if slot_addr info =? 0 then mp
  else if bool_decide (is_Some (mp !! slot_addr info)) || (Z.of_nat (size mp) <? BIND_SLOT_REGISTRY_MAX)
  then <[slot_addr info := info]> mp else mp.

Definition in_bucket (l : list resolver_bind_slot_info) (b i : Z) : bool :=
  match l !! Z.to_nat i with Some x => slot_addr_hash (slot_addr x) =? b | None => false end.

(** The buckets hold the entries, the newest first. *)
Definition indexed (l : list resolver_bind_slot_info) (c : chains) : Prop :=
  chained c (fun b => List.filter (in_bucket l b) (rev (seqZ 0 (Z.of_nat (length l))))).

Record slots_ok (s : slots) : Prop := {
  so_indexed : if hash_initialized s then indexed (registry s) (hash s) else registry s = [];
  so_once : NoDup (map slot_addr (registry s));
}.

(** [mp] is what the registry holds. *)
Record holds (s : slots) (mp : gmap Z resolver_bind_slot_info) : Prop := {
  h_ok : slots_ok s;
  h_size : size mp = length (registry s);
  h_lookup : forall a, mp !! a = List.find (fun x => slot_addr x =? a) (registry s);
}.

Lemma find_slot (l : list resolver_bind_slot_info) c a :
  indexed l c ->
  walk (S (length l)) (has_slot l a) (chain c) (buckets c (slot_addr_hash a)) =
  List.find (has_slot l a) (rev (seqZ 0 (Z.of_nat (length l)))).
Proof.
  intros Hc. rewrite (walk_links _ _ _ _ _ (Hc (slot_addr_hash a))).
  - apply find_filter. intros i. unfold has_slot, in_bucket. destruct (l !! Z.to_nat i) as [x|]; [|done].
    intros H. apply Z.eqb_eq in H as ->. apply Z.eqb_refl.
  - pose proof (filter_length (in_bucket l (slot_addr_hash a)) (rev (seqZ 0 (Z.of_nat (length l))))) as H.
    rewrite length_rev, length_seqZ in H. lia.
Qed.

Lemma find_entry (l : list resolver_bind_slot_info) k x :
  NoDup (map slot_addr l) -> l !! k = Some x -> List.find (fun y => slot_addr y =? slot_addr x) l = Some x.
Proof.
  revert k. induction l as [|y l IH]; intros k Hnd Hk; [done|]. cbn in *. apply NoDup_cons in Hnd as [Hy Hnd].
  destruct k as [|k]; cbn in Hk.
  - injection Hk as ->. by rewrite Z.eqb_refl.
  - destruct (Z.eqb_spec (slot_addr y) (slot_addr x)) as [E|]; [|by apply (IH k)].
    exfalso. apply Hy. rewrite E. apply list_elem_of_In, in_map, list_elem_of_In. by eapply list_elem_of_lookup_2.
Qed.

Lemma find_slot_index (l : list resolver_bind_slot_info) a :
  match List.find (has_slot l a) (rev (seqZ 0 (Z.of_nat (length l)))) with
  | Some i => 0 <= i /\ exists x, l !! Z.to_nat i = Some x /\ slot_addr x = a
  | None => List.find (fun x => slot_addr x =? a) l = None
  end.
Proof.
  destruct (List.find (has_slot l a) _) as [i|] eqn:E.
  - apply find_some in E as [Hin H]. apply in_rev, list_elem_of_In, elem_of_seqZ in Hin. split; [lia|].
    unfold has_slot in H. destruct (l !! Z.to_nat i) as [x|]; [|done]. exists x. by apply Z.eqb_eq in H.
  - destruct (List.find (fun x => slot_addr x =? a) l) as [x|] eqn:Ex; [|done]. exfalso.
    apply find_some in Ex as [Hin Hx]. apply list_elem_of_In, list_elem_of_lookup in Hin as [k Hk].
    pose proof (lookup_lt_Some _ _ _ Hk) as Hlt.
    pose proof (find_none _ _ E (Z.of_nat k)) as Hf. unfold has_slot in Hf. rewrite Nat2Z.id, Hk, Hx in Hf.
    discriminate Hf. apply in_rev. rewrite rev_involutive. apply list_elem_of_In, elem_of_seqZ. lia.
Qed.

Lemma in_bucket_app l x b i :
  0 <= i < Z.of_nat (length l) -> in_bucket (l ++ [x]) b i = in_bucket l b i.
Proof. intros Hi. unfold in_bucket. by rewrite lookup_app_l by lia. Qed.

Lemma indexed_push l c x :
  indexed l c -> indexed (l ++ [x]) (push (slot_addr_hash (slot_addr x)) (Z.of_nat (length l)) c).
Proof.
  intros Hc. eapply chained_ext; [|apply chained_push; [exact Hc|lia|]].
  - intros b. rewrite length_app. cbn [length]. rewrite Nat.add_1_r, seqZ_S, rev_app_distr. cbn [rev app List.filter].
    rewrite Z.add_0_l. unfold in_bucket at 3. rewrite Nat2Z.id, lookup_app_r, Nat.sub_diag by lia. cbn [lookup list_lookup].
    rewrite (filter_ext_in (in_bucket (l ++ [x]) b) (in_bucket l b)).
    + unfold upd. destruct (Z.eqb_spec b (slot_addr_hash (slot_addr x))) as [->|Hb]; [by rewrite Z.eqb_refl|].
      by destruct (Z.eqb_spec (slot_addr_hash (slot_addr x)) b); [congruence|].
    + intros i Hi. apply in_rev, list_elem_of_In, elem_of_seqZ in Hi. apply in_bucket_app. lia.
  - intros b Hin. apply filter_In in Hin as [Hin _]. apply in_rev, list_elem_of_In, elem_of_seqZ in Hin. lia.
Qed.

Lemma map_slot_insert (l : list resolver_bind_slot_info) i x info :
  l !! i = Some x -> slot_addr info = slot_addr x -> map slot_addr (<[i := info]> l) = map slot_addr l.
Proof.
  intros Hi E. change (slot_addr <$> <[i := info]> l = slot_addr <$> l).
  rewrite list_fmap_insert, E. apply list_insert_id. by rewrite list_lookup_fmap, Hi.
Qed.

Lemma indexed_insert l c i x info :
  l !! i = Some x -> slot_addr info = slot_addr x -> indexed l c -> indexed (<[i := info]> l) c.
Proof.
  intros Hi E Hc. eapply chained_ext; [|exact Hc]. intros b. cbn beta. rewrite length_insert.
  apply filter_ext_in. intros j _. unfold in_bucket. destruct (decide (Z.to_nat j = i)) as [->|Hj].
  - rewrite list_lookup_insert_eq by (by eapply lookup_lt_Some). by rewrite Hi, E.
  - by rewrite list_lookup_insert_ne by done.
Qed.

(** [bind_slot_find] sets the table up and finds what the map holds. *)
Lemma bind_slot_find_spec a s mp :
  holds s mp ->
  let '(r, s') := bind_slot_find a s in
  registry s' = registry s /\ hash_initialized s' = true /\ indexed (registry s) (hash s') /\
  match r with
  | Some i => 0 <= i /\ exists x, registry s !! Z.to_nat i = Some x /\ slot_addr x = a /\ mp !! a = Some x
  | None => mp !! a = None
  end.
Proof.
  intros [[Hix Hnd] _ Hl]. unfold bind_slot_find.
  assert (H : exists c, (if hash_initialized s then s else bind_slot_hash_rebuild (mk_slots (registry s) (hash s) true))
                        = mk_slots (registry s) c true /\ indexed (registry s) c).
  { destruct s as [l c [|]]; cbn in *; [by exists c|]. subst l. eexists. split; [reflexivity|]. apply chained_no_chains. }
  destruct H as (c&->&Hc). cbn [registry hash hash_initialized]. rewrite find_slot by done.
  repeat (split; [done|]). pose proof (find_slot_index (registry s) a) as Hf.
  destruct (List.find (has_slot (registry s) a) _) as [i|].
  - destruct Hf as (H0&x&Hx&Ha). split; [done|]. exists x. rewrite Hl, <- Ha. repeat (split; [done|]).
    by eapply find_entry.
  - by rewrite Hl.
Qed.

Lemma find_insert (l : list resolver_bind_slot_info) i x info a :
  NoDup (map slot_addr l) -> l !! i = Some x -> slot_addr info = slot_addr x ->
  List.find (fun y => slot_addr y =? a) (<[i := info]> l) =
  if a =? slot_addr info then Some info else List.find (fun y => slot_addr y =? a) l.
Proof.
  intros Hnd Hi E. destruct (Z.eqb_spec a (slot_addr info)) as [->|Ha].
  - apply (find_entry _ i); [by erewrite map_slot_insert|].
    apply list_lookup_insert_eq. by eapply lookup_lt_Some.
  - clear Hnd. revert i Hi. induction l as [|y l IH]; intros i Hi; [done|]. destruct i as [|i]; cbn in *.
    + injection Hi as ->. destruct (Z.eqb_spec (slot_addr info) a); [congruence|].
      by destruct (Z.eqb_spec (slot_addr x) a); [congruence|].
    + destruct (slot_addr y =? a); [done|by apply IH].
Qed.

Lemma register_holds info s mp : holds s mp -> holds (register_bind_slot info s) (register_spec info mp).
Proof.
  intros Hh. unfold register_bind_slot, register_spec. destruct (slot_addr info =? 0); [done|].
  pose proof (bind_slot_find_spec (slot_addr info) s mp Hh) as Hf. destruct Hh as [[_ Hnd] Hsz Hl].
  destruct (bind_slot_find (slot_addr info) s) as [r s']. destruct Hf as (Er&Ei&Hix&Hr).
  destruct r as [i|].
  - destruct Hr as (H0&x&Hx&Ha&Hm). rewrite Hm, bool_decide_true by eauto. cbn [orb].
    split; cbn [registry hash hash_initialized].
    + split; cbn [registry hash hash_initialized]; rewrite Er, ?Ei.
      * by eapply indexed_insert.
      * by erewrite map_slot_insert.
    + rewrite map_size_insert_Some by eauto. by rewrite Er, length_insert.
    + intros a. rewrite Er, (find_insert _ _ x) by done. destruct (Z.eqb_spec a (slot_addr info)) as [->|Hne].
      * by rewrite lookup_insert_eq.
      * rewrite lookup_insert_ne by done. apply Hl.
  - rewrite Hr, bool_decide_false by (intros [? H]; discriminate H). cbn [orb]. rewrite Er, Hsz.
    destruct (Z.leb_spec BIND_SLOT_REGISTRY_MAX (Z.of_nat (length (registry s)))), (Z.ltb_spec (Z.of_nat (length (registry s))) BIND_SLOT_REGISTRY_MAX);
      try lia.
    + split; [|by rewrite Er|by rewrite Er]. split; [by rewrite Ei, Er|by rewrite Er].
    + assert (Hnew : Forall (fun y => slot_addr y <> slot_addr info) (registry s)).
      { apply Forall_forall. intros y Hy E. rewrite Hl in Hr. apply list_elem_of_In in Hy.
        pose proof (find_none _ _ Hr y Hy) as Hf. cbn in Hf. by apply Z.eqb_neq in Hf. }
      split; cbn [registry hash hash_initialized].
      * split; cbn [registry hash hash_initialized]; [rewrite Ei; by apply indexed_push|].
        rewrite map_app. apply NoDup_app. split; [done|]. split; [|apply NoDup_singleton].
        intros a Ha Ha'. apply list_elem_of_singleton in Ha' as ->. apply list_elem_of_In, in_map_iff in Ha as (y&E&Hy).
        apply list_elem_of_In in Hy. by apply (proj1 (Forall_forall _ _) Hnew y Hy).
      * rewrite map_size_insert_None by done. rewrite length_app. cbn. lia.
      * intros a. rewrite find_app, <- Hl. destruct (Z.eqb_spec a (slot_addr info)) as [->|Hne].
        { rewrite lookup_insert_eq, Hr. cbn. by rewrite Z.eqb_refl. }
        rewrite lookup_insert_ne by done. destruct (mp !! a) eqn:Em; [done|].
        cbn. by destruct (Z.eqb_spec (slot_addr info) a); [congruence|].
Qed.

Lemma lookup_holds a s mp :
  holds s mp -> a <> 0 ->
  let '(r, s') := resolver_lookup_bind_slot a s in r = mp !! a /\ holds s' mp.
Proof.
  intros Hh Ha. unfold resolver_lookup_bind_slot. destruct (Z.eqb_spec a 0); [done|].
  pose proof (bind_slot_find_spec a s mp Hh) as Hf. destruct Hh as [[_ Hnd] Hsz Hl].
  destruct (bind_slot_find a s) as [r s']. destruct Hf as (Er&Ei&Hix&Hr).
  assert (Hh' : holds s' mp).
  { split; [|by rewrite Er|by rewrite Er]. split; [by rewrite Ei, Er|by rewrite Er]. }
  destruct r as [i|]; [|by rewrite Hr]. destruct Hr as (_&x&Hx&_&Hm). by rewrite Er, Hx, Hm.
Qed.

Lemma no_slots_holds : holds no_slots ∅.
Proof. split; [split; [done|constructor]|done|done]. Qed.

(** The calls made on the registry, in order. *)
Inductive slot_call := Register (info : resolver_bind_slot_info) | Query (a : Z).

Fixpoint run_calls (l : list slot_call) (s : slots) : list (option resolver_bind_slot_info) :=
  match l with
  | [] => []
  | Register info :: l => run_calls l (register_bind_slot info s)
  | Query a :: l => let '(r, s) := resolver_lookup_bind_slot a s in r :: run_calls l s
  end.

Fixpoint run_spec (l : list slot_call) (mp : gmap Z resolver_bind_slot_info) : list (option resolver_bind_slot_info) :=
  match l with
  | [] => []
  | Register info :: l => run_spec l (register_spec info mp)
  | Query a :: l => (if a =? 0 then None else mp !! a) :: run_spec l mp
  end.

(** The bind slot registry is a finite map.  For any sequence of
    registrations and queries from program start, every query answers the last
    binding registered for its slot; registrations of new slots beyond the
    32768th are dropped, those of known slots never. *)
Theorem bind_slots_refine l : run_calls l no_slots = run_spec l ∅.
Proof.
  pose proof no_slots_holds as Hh. revert Hh. generalize no_slots as s.
  generalize (∅ : gmap Z resolver_bind_slot_info) as mp.
  induction l as [|[info|a] l IH]; intros mp s Hh; cbn; [done| |].
  - by apply IH, register_holds.
  - destruct (Z.eqb_spec a 0) as [->|Ha]; [cbn; f_equal; by apply IH|].
    pose proof (lookup_holds a s mp Hh Ha) as H. destruct (resolver_lookup_bind_slot a s) as [r s'].
    destruct H as [-> H]. f_equal. by apply IH.
Qed.
End BindSlots.
