(* ===== verification/Macho.v ===== *)
(** * Mach-O images as the program sees them: src/macho_defs.h, src/loader.h

    The load commands of a 64-bit image, decoded, in file order.  Every walk
    of the program over them has the same shape: command [i] at byte offset
    [p], advancing by its [cmdsize]. *)

From Stdlib Require Import String Sorted.
From S2P Require Import Prelude.

Definition MH_EXECUTE : Z := 0x2.
Definition MH_DYLINKER : Z := 0x7.
Definition MH_PIE : Z := 0x200000.
Definition S_ATTR_PURE_INSTRUCTIONS : Z := 0x80000000.
Definition S_ATTR_SOME_INSTRUCTIONS : Z := 0x00000400.
Definition VM_PROT_READ : Z := 0x01.
Definition VM_PROT_WRITE : Z := 0x02.
Definition VM_PROT_EXECUTE : Z := 0x04.

Record section_64 := mk_sect { sectname : string; sect_addr : Z; sect_size : Z; sect_flags : Z }.

Record segment_command_64 := mk_seg {
  segname : string; vmaddr : Z; vmsize : Z; fileoff : Z; filesize : Z;
  maxprot : Z; initprot : Z; sections : list section_64;
}.

(** The commands the resolver reads. *)
Record symtab_command := mk_symtab { symoff : Z; nsyms : Z; stroff : Z; strsize : Z }.

Record dyld_info_command := mk_dyld_info {
  rebase_off : Z; rebase_size : Z; bind_off : Z; bind_size : Z;
  weak_bind_off : Z; weak_bind_size : Z; lazy_bind_off : Z; lazy_bind_size : Z;
}.

Inductive other_command :=
| LC_SYMTAB (symtab : symtab_command)
| LC_LOAD_DYLIB (name : string)
| LC_LOAD_WEAK_DYLIB (name : string)
| LC_REEXPORT_DYLIB (name : string)
| LC_DYLD_CHAINED_FIXUPS (dataoff datasize : Z)
| LC_DYLD_INFO (info : dyld_info_command)
| LC_DYLD_INFO_ONLY (info : dyld_info_command)
| LC_UNKNOWN (cmd : Z).

Inductive command_body :=
| LC_SEGMENT_64 (seg : segment_command_64)
| LC_UNIXTHREAD (pc : Z)
| LC_LOAD_DYLINKER
| LC_MAIN (entryoff stacksize : Z)
| LC_UUID (uuid : list Z)
| LC_BUILD_VERSION (platform : Z)
| LC_OTHER (other : other_command).

Record load_command := mk_lc { cmdsize : Z; body : command_body }.

(** [ncmds] is the length of [commands]. *)
Record mach_header_64 := mk_mh {
  filetype : Z; mh_flags : Z; sizeofcmds : Z; commands : list load_command;
}.

(** [for (i = 0, p = 0; i < ncmds && p < sizeofcmds; i++) { ...; p += cmdsize; }]:
    the commands such a walk visits. *)
Fixpoint visited (sizeofcmds p : Z) (l : list load_command) : list load_command :=
  match l with
  | [] => []
  | lc :: l => if p <? sizeofcmds then lc :: visited sizeofcmds (u32 (p + cmdsize lc)) l else []
  end.

Lemma visited_incl sz p l lc : In lc (visited sz p l) -> In lc l.
Proof.
  revert p. induction l as [|c l IH]; intros p; cbn; [done|]. destruct (p <? sz); [|done].
  intros [->|H]; [by left|right; eauto].
Qed.

(** ** The results of loading: [struct load_results] *)

Definition MACHGATE_POOL_PADDING : Z := 4 * 1024 * 1024.

Record load_results := mk_lr {
  mh : Z; entry_point : Z; stack_size : Z;
  dyld_all_image_location : Z; dyld_all_image_size : Z;
  uuid : list Z; vm_addr_max : Z; lr_base : Z; slide : Z; lc_main : bool;
  pool_base : Z; pool_size : Z; pool_used : Z;
}.

(** ** The adjacent pool *)

Definition set_pool_used (lr : load_results) (used : Z) : load_results :=
  mk_lr (mh lr) (entry_point lr) (stack_size lr) (dyld_all_image_location lr) (dyld_all_image_size lr)
        (uuid lr) (vm_addr_max lr) (lr_base lr) (slide lr) (lc_main lr)
        (pool_base lr) (pool_size lr) used.

(** Round up to the 4096-byte page, as [(x + page - 1) & ~(page - 1)]. *)
Definition page_up (x : Z) : Z := (x + 4096 - 1) .& Z.lnot (4096 - 1).

(** [None] is NULL. *)
Definition machgate_pool_alloc (lr : load_results) (size : Z) : option Z * load_results :=
  let aligned_off := u64 (page_up (pool_used lr)) in
  if (pool_base lr =? 0) || (pool_size lr <? u64 (aligned_off + size)) then (None, lr)
  else (Some (pool_base lr + aligned_off), set_pool_used lr (aligned_off + size)).

(** Allocating a sequence of sizes; the allocations, in order, with their sizes. *)
Fixpoint pool_allocs (lr : load_results) (sizes : list Z) : list (Z * Z) * load_results :=
  match sizes with
  | [] => ([], lr)
  | size :: sizes =>
      match machgate_pool_alloc lr size with
      | (Some p, lr) => let '(l, lr) := pool_allocs lr sizes in ((p, size) :: l, lr)
      | (None, lr) => pool_allocs lr sizes
      end
  end.

Lemma page_up_spec x : page_up x = 4096 * ((x + 4095) / 4096).
Proof.
  unfold page_up. replace (x + 4096 - 1) with (x + 4095) by lia. change (4096 - 1) with (Z.ones 12).
  by rewrite land_lnot_ones by lia.
Qed.

Lemma page_up_bounds x : x <= page_up x < x + 4096 /\ (4096 | page_up x).
Proof.
  rewrite page_up_spec. pose proof (Z.div_mod (x + 4095) 4096 ltac:(lia)).
  pose proof (Z.mod_pos_bound (x + 4095) 4096 ltac:(lia)). split; [lia|]. by exists ((x + 4095) / 4096); lia.
Qed.

(** The pool as the loader sets it up. *)
Record pool_ok (lr : load_results) : Prop := {
  po_base : 0 < pool_base lr /\ pool_base lr mod 4096 = 0;
  po_space : pool_base lr + pool_size lr < 2 ^ 63;
  po_used : 0 <= pool_used lr <= pool_size lr;
}.

Lemma pool_alloc_spec lr size :
  pool_ok lr -> 0 <= size < 2 ^ 62 ->
  let off := page_up (pool_used lr) in
  machgate_pool_alloc lr size =
    (if pool_size lr <? off + size then (None, lr)
     else (Some (pool_base lr + off), set_pool_used lr (off + size))).
Proof.
  intros [[Hb _] Hs Hu] Hsz. cbv zeta. pose proof (page_up_bounds (pool_used lr)) as [Hp _].
  unfold machgate_pool_alloc. rewrite (u64_small (page_up _)), (u64_small (page_up _ + size)) by lia.
  destruct (Z.eqb_spec (pool_base lr) 0); [lia|]. by destruct (_ <? _).
Qed.

(** One chunk after the other, aligned and inside the pool. *)
Definition chunk_ok (lo hi : Z) (c : Z * Z) : Prop := lo <= fst c /\ fst c + snd c <= hi /\ fst c mod 4096 = 0.

Lemma pool_allocs_from lr sizes :
  pool_ok lr -> Forall (fun s => 0 <= s < 2 ^ 62) sizes ->
  let '(l, lr') := pool_allocs lr sizes in
  pool_ok lr' /\ pool_base lr' = pool_base lr /\ pool_size lr' = pool_size lr /\
  pool_used lr <= pool_used lr' /\
  Forall (chunk_ok (pool_base lr + pool_used lr) (pool_base lr + pool_used lr')) l /\
  StronglySorted (fun a b => fst a + snd a <= fst b) l.
Proof.
  intros Hok Hf. revert lr Hok. induction Hf as [|size sizes Hsz Hf IH]; intros lr Hok; cbn [pool_allocs].
  - split; [done|]. repeat split; try lia; constructor.
  - rewrite pool_alloc_spec by done. destruct (Z.ltb_spec (pool_size lr) (page_up (pool_used lr) + size)).
    + by apply IH.
    + pose proof (page_up_bounds (pool_used lr)) as [Hp [q Hq]]. destruct Hok as [[Hb Hb'] Hs Hu].
      set (lr1 := set_pool_used lr (page_up (pool_used lr) + size)).
      specialize (IH lr1). destruct (pool_allocs lr1 sizes) as [l lr'].
      destruct IH as (Hok'&Eb&Es&Hle&Hfa&Hss); [split; cbn; [done|done|lia]|].
      cbn in Eb, Es, Hle, Hfa. split; [done|]. split; [done|]. split; [done|]. split; [lia|]. split.
      * constructor.
        { split; cbn; [lia|]. split; [lia|]. rewrite Hq, Z.mod_add by lia. done. }
        eapply Forall_impl; [exact Hfa|]. intros c (H1&H2&H3). split; [lia|done].
      * constructor; [done|]. eapply Forall_impl; [exact Hfa|]. intros c (H1&_). cbn. lia.
Qed.

(** The adjacent pool hands out page-aligned chunks inside the pool that
    never overlap: for any sequence of requests, each chunk ends before the
    next begins. *)
Theorem pool_allocs_disjoint lr sizes :
  pool_ok lr -> Forall (fun s => 0 <= s < 2 ^ 62) sizes ->
  let '(l, lr') := pool_allocs lr sizes in
  pool_ok lr' /\ Forall (chunk_ok (pool_base lr) (pool_base lr + pool_size lr)) l /\
  StronglySorted (fun a b => fst a + snd a <= fst b) l.
Proof.
  intros Hok Hf. pose proof (pool_allocs_from lr sizes Hok Hf) as H.
  destruct (pool_allocs lr sizes) as [l lr']. destruct H as (Hok'&Eb&Es&Hle&Hfa&Hss).
  split; [done|]. split; [|done]. destruct Hok, Hok'. eapply Forall_impl; [exact Hfa|].
  intros c (H1&H2&H3). split; [lia|]. split; [lia|done].
Qed.

Definition sample_pool : load_results := mk_lr 0 0 0 0 0 [] 0 0 0 false 0x10000 0x8000 0.

Lemma pool_allocs_disjoint_witness :
  fst (pool_allocs sample_pool [100; 0x1000; 0x9000; 1]) = [(0x10000, 100); (0x11000, 0x1000); (0x12000, 1)] /\
  StronglySorted (fun a b => fst a + snd a <= fst b) (fst (pool_allocs sample_pool [100; 0x1000; 0x9000; 1])).
Proof.
  split; [reflexivity|].
  pose proof (pool_allocs_disjoint sample_pool [100; 0x1000; 0x9000; 1]) as H.
  destruct (pool_allocs _ _) as [l lr']. apply H.
  - split; vm_compute; repeat split; intros E; discriminate E.
  - repeat constructor; lia.
Defined.
