(* ===== verification/SymIndex.v ===== *)
(** * Symbols of a loaded image: src/resolver.c

    The symbol table and its strings are read from the image's memory.
    Lookups go through a hash index built once per image; when the index
    cannot be allocated they scan the table. *)

From Stdlib Require Import String.
From S2P Require Import Prelude CStr HashChain Macho.

Definition N_STAB : Z := 0xe0.
Definition N_PEXT : Z := 0x10.
Definition N_TYPE : Z := 0x0e.
Definition N_EXT : Z := 0x01.
Definition N_SECT : Z := 0xe.
Definition SECTION_TYPE : Z := 0xff.
Definition S_SYMBOL_STUBS : Z := 0x8.

Record nlist_64 := mk_nl { n_strx : Z; n_type : Z; n_sect : Z; n_desc : Z; n_value : Z }.

(** [&syms[i]] *)
Definition nlist_at (m : bytemem) (syms i : Z) : nlist_64 :=
  let a := syms + 16 * i in
  mk_nl (load 4 a m) (load 1 (a + 4) m) (load 1 (a + 5) m) (load 2 (a + 6) m) (load 8 (a + 8) m).

Record macho_symbol_result := mk_msr { addr : Z; type : Z; desc : Z; sect : Z }.

Definition MACHO_SYM_INDEX_BUCKETS : Z := 256 * 1024.

(** [buckets] and [chain] are the two arrays. *)
Record macho_sym_index := mk_msi { index_mh : Z; index_chains : chains }.

Definition hash_step (hash : Z) (c : ascii) : Z := u64 (Z.lxor hash (code c) * 1099511628211).
Definition macho_name_hash (name : cstr) : Z :=
  u32 (fold_left hash_step name 1469598103934665603) .& (MACHO_SYM_INDEX_BUCKETS - 1).

Section tables.
Context (m : bytemem).

(** [&strtab[nl->n_strx]]; strings of the table end inside it. *)
Definition sym_name (strtab strsize : Z) (nl : nlist_64) : cstr :=
  c_string (Z.to_nat strsize) (strtab + n_strx nl) m.

(** The three [continue]s every loop over the table starts with. *)
Definition defined_in_section (strsize : Z) (nl : nlist_64) : bool :=
  if nz (n_type nl .& N_STAB) then false
  else if negb (n_type nl .& N_TYPE =? N_SECT) then false
  else negb (strsize <=? n_strx nl).

Definition indexable (strtab strsize : Z) (nl : nlist_64) : bool :=
  defined_in_section strsize nl && negb (n_strx nl =? 0)
  && match sym_name strtab strsize nl with [] => false | _ => true end.

Definition index_one (syms strtab strsize : Z) (c : chains) (i : Z) : chains :=
  let nl := nlist_at m syms i in
  if indexable strtab strsize nl
  then push (macho_name_hash (sym_name strtab strsize nl)) (i32 i) c else c.

(** [ch] is what [malloc] left in [chain]; [None] when it failed. *)
Definition macho_sym_index_build (ch : option (Z -> Z)) (syms nsyms strtab strsize : Z) : option chains :=
  match ch with
  | None => None
  | Some ch => Some (fold_left (index_one syms strtab strsize) (seqZ 0 nsyms) (no_chains ch))
  end.

(** The index of [mh] and the list of indexes after the call. *)
Definition macho_sym_index_for (ch : option (Z -> Z)) (mh syms nsyms strtab strsize : Z)
    (indexes : list macho_sym_index) : option macho_sym_index * list macho_sym_index :=
  match List.find (fun x => index_mh x =? mh) indexes with
  | Some x => (Some x, indexes)
  | None =>
      match macho_sym_index_build ch syms nsyms strtab strsize with
      | None => (None, indexes)
      | Some c => let x := mk_msi mh c in (Some x, x :: indexes)
      end
  end.

Definition last_symtab (l : list load_command) : option symtab_command :=
  fold_left (fun s lc => match body lc with LC_OTHER (LC_SYMTAB c) => Some c | _ => s end) l None.

(** [symtab->symoff >= seg->fileoff && symtab->symoff < seg->fileoff + seg->filesize] *)
Definition holds_symtab (symtab : symtab_command) (seg : segment_command_64) : bool :=
  (fileoff seg <=? symoff symtab) && (symoff symtab <? u64 (fileoff seg + filesize seg)).

(** The addresses of the symbols and the strings, 0 when not found. *)
Definition locate_tables (symtab : symtab_command) (slide : Z) (l : list load_command) : Z * Z :=
  fold_left (fun s lc =>
    match body lc with
    | LC_SEGMENT_64 seg =>
        if holds_symtab symtab seg then
          let base := u64 (vmaddr seg + slide) in
          (u64 (base + (symoff symtab - fileoff seg)), u64 (base + (stroff symtab - fileoff seg)))
        else s
    | _ => s
    end) l (0, 0).

Definition result_of (slide : Z) (nl : nlist_64) : macho_symbol_result :=
  mk_msr (u64 (n_value nl + slide)) (n_type nl) (n_desc nl) (n_sect nl).

(** The scan used when there is no index. *)
Definition scan_symbols (syms nsyms strtab strsize : Z) (name : cstr) : option Z :=
  List.find (fun i => let nl := nlist_at m syms i in
    defined_in_section strsize nl && streq (sym_name strtab strsize nl) name) (seqZ 0 nsyms).

Definition lookup_macho_symbol_result (ch : option (Z -> Z)) (mh : Z) (image : mach_header_64) (slide : Z)
    (name : cstr) (indexes : list macho_sym_index) : option macho_symbol_result * list macho_sym_index :=
  let l := visited (sizeofcmds image) 0 (commands image) in
  match last_symtab l with
  | None => (None, indexes)
  | Some symtab =>
      let '(syms, strtab) := locate_tables symtab slide l in
      if (syms =? 0) || (strtab =? 0) then (None, indexes)
      else
        let '(index, indexes) :=
          macho_sym_index_for ch mh syms (nsyms symtab) strtab (strsize symtab) indexes in
        let found :=
          match index with
          | Some x =>
              walk (S (Z.to_nat (nsyms symtab)))
                   (fun i => streq (sym_name strtab (strsize symtab) (nlist_at m syms i)) name)
                   (chain (index_chains x)) (buckets (index_chains x) (macho_name_hash name))
          | None => scan_symbols syms (nsyms symtab) strtab (strsize symtab) name
          end in
        (option_map (fun i => result_of slide (nlist_at m syms i)) found, indexes)
  end.

Definition lookup_macho_symbol ch mh image slide name indexes : Z * list macho_sym_index :=
  match lookup_macho_symbol_result ch mh image slide name indexes with
  | (Some r, indexes) => (addr r, indexes)
  | (None, indexes) => (0, indexes)
  end.

Definition macho_symbol_is_external_definition (r : macho_symbol_result) : bool :=
  if negb (nz (type r .& N_EXT)) then false else negb (nz (type r .& N_PEXT)).

(** [ordinal] is a [uint8_t]; the walk over the commands goes on with it. *)
Fixpoint section_flags_in (ordinal section_ordinal : Z) (l : list section_64) : Z + Z :=
  match l with
  | [] => inl ordinal
  | s :: l => if ordinal =? section_ordinal then inr (sect_flags s)
              else section_flags_in (u8 (ordinal + 1)) section_ordinal l
  end.
Fixpoint section_flags_walk (ordinal section_ordinal : Z) (l : list load_command) : Z :=
  match l with
  | [] => 0
  | lc :: l =>
      match body lc with
      | LC_SEGMENT_64 seg =>
          match section_flags_in ordinal section_ordinal (sections seg) with
          | inr flags => flags
          | inl ordinal => section_flags_walk ordinal section_ordinal l
          end
      | _ => section_flags_walk ordinal section_ordinal l
      end
  end.
Definition macho_section_flags (image : mach_header_64) (section_ordinal : Z) : Z :=
  if section_ordinal =? 0 then 0
  else section_flags_walk 1 section_ordinal (visited (sizeofcmds image) 0 (commands image)).

Definition macho_symbol_is_stub_definition (image : mach_header_64) (r : macho_symbol_result) : bool :=
  macho_section_flags image (sect r) .& SECTION_TYPE =? S_SYMBOL_STUBS.

Definition resolver_lookup_symbol := lookup_macho_symbol.

Definition resolver_lookup_external_definition ch mh image slide name indexes : Z * list macho_sym_index :=
  match lookup_macho_symbol_result ch mh image slide name indexes with
  | (None, indexes) => (0, indexes)
  | (Some r, indexes) =>
      if negb (macho_symbol_is_external_definition r) then (0, indexes)
      else if macho_symbol_is_stub_definition image r then (0, indexes)
      else (addr r, indexes)
  end.
End tables.

(** ** The index finds the last definition *)

Section index.
Context (m : bytemem) (syms strtab strsize : Z).
Notation nl i := (nlist_at m syms i).
Notation name_of i := (sym_name m strtab strsize (nl i)).

(** The reference: of the symbols the index may hold, the last one with the
    name in table order. *)
Definition last_definition (nsyms : Z) (name : cstr) : option Z :=
  List.find (fun i => indexable m strtab strsize (nl i) && streq (name_of i) name) (rev (seqZ 0 nsyms)).

Definition bucket_of (b i : Z) : bool :=
  indexable m strtab strsize (nl i) && (macho_name_hash (name_of i) =? b).

Lemma build_chained n ch :
  Z.of_nat n < 2 ^ 31 ->
  chained (fold_left (index_one m syms strtab strsize) (seqZ 0 (Z.of_nat n)) (no_chains ch))
          (fun b => List.filter (bucket_of b) (rev (seqZ 0 (Z.of_nat n)))).
Proof.
  induction n as [|n IH]; intros Hn; [by apply chained_no_chains|].
  rewrite seqZ_S, fold_left_app, rev_app_distr. cbn [fold_left rev app List.filter]. rewrite Z.add_0_l.
  unfold index_one at 1. specialize (IH ltac:(lia)). unfold bucket_of at 1.
  destruct (indexable m strtab strsize (nl (Z.of_nat n))) eqn:E; cbn [andb].
  - unfold i32. rewrite signed_small by lia. eapply chained_ext; [|apply chained_push; [exact IH|lia|]].
    + intros b. unfold upd. destruct (Z.eqb_spec b (macho_name_hash (name_of (Z.of_nat n)))) as [->|Hb].
      * by rewrite Z.eqb_refl.
      * by destruct (Z.eqb_spec (macho_name_hash (name_of (Z.of_nat n))) b); [congruence|].
    + intros b Hin. apply filter_In in Hin as [Hin _]. apply in_rev, list_elem_of_In, elem_of_seqZ in Hin. lia.
  - exact IH.
Qed.

Lemma filter_length_le {A} (p : A -> bool) l : (length (List.filter p l) <= length l)%nat.
Proof. induction l as [|x l IH]; cbn; [lia|]. destruct (p x); cbn; lia. Qed.

Lemma index_walk n ch name :
  0 <= n < 2 ^ 31 ->
  let c := fold_left (index_one m syms strtab strsize) (seqZ 0 n) (no_chains ch) in
  walk (S (Z.to_nat n)) (fun i => streq (name_of i) name) (chain c) (buckets c (macho_name_hash name))
  = last_definition n name.
Proof.
  intros Hn. cbv zeta. rewrite <- (Z2Nat.id n) at 2 3 by lia.
  pose proof (build_chained (Z.to_nat n) ch ltac:(lia) (macho_name_hash name)) as Hc.
  rewrite (walk_links _ _ _ _ _ Hc).
  - unfold last_definition. rewrite Z2Nat.id by lia. generalize (rev (seqZ 0 n)) as l. clear. intros l.
    induction l as [|i l IH]; [done|]. cbn [List.filter List.find]. unfold bucket_of at 1.
    destruct (indexable m strtab strsize (nl i)); cbn [andb]; [|exact IH].
    destruct (streq (name_of i) name) eqn:E.
    + pose proof E as E'. apply bool_decide_eq_true in E' as ->. rewrite Z.eqb_refl. cbn [List.find].
      by rewrite E.
    + destruct (_ =? _); [|exact IH]. cbn [List.find]. by rewrite E.
  - pose proof (filter_length_le (bucket_of (macho_name_hash name)) (rev (seqZ 0 (Z.of_nat (Z.to_nat n))))) as H.
    rewrite length_rev, length_seqZ in H. lia.
Qed.
End index.

(** ** Lookups *)

(** An image whose tables are where [locate_tables] says. *)
Record has_tables (image : mach_header_64) (slide : Z) (symtab : symtab_command) (syms strtab : Z) : Prop := {
  ht_symtab : last_symtab (visited (sizeofcmds image) 0 (commands image)) = Some symtab;
  ht_located : locate_tables symtab slide (visited (sizeofcmds image) 0 (commands image)) = (syms, strtab);
  ht_nonnull : syms <> 0 /\ strtab <> 0;
  ht_count : 0 <= nsyms symtab < 2 ^ 31;
}.

(** A cached index of [mh] was built from its current tables. *)
Definition index_current (m : bytemem) (mh : Z) (symtab : symtab_command) (syms strtab : Z) (x : macho_sym_index) : Prop :=
  index_mh x = mh ->
  exists ch, index_chains x =
    fold_left (index_one m syms strtab (strsize symtab)) (seqZ 0 (nsyms symtab)) (no_chains ch).

Section lookup.
Context (m : bytemem) (mh : Z) (image : mach_header_64) (slide : Z).
Context (symtab : symtab_command) (syms strtab : Z) (Htab : has_tables image slide symtab syms strtab).
Notation nl i := (nlist_at m syms i).
Notation current := (index_current m mh symtab syms strtab).

Lemma lookup_indexed ch name indexes :
  Forall current indexes ->
  let '(r, indexes') := lookup_macho_symbol_result m (Some ch) mh image slide name indexes in
  r = option_map (fun i => result_of slide (nl i))
        (last_definition m syms strtab (strsize symtab) (nsyms symtab) name) /\
  Forall current indexes'.
Proof.
  intros Hcur. destruct Htab as [H1 H2 [H3 H4] H5]. unfold lookup_macho_symbol_result. rewrite H1, H2.
  destruct (Z.eqb_spec syms 0), (Z.eqb_spec strtab 0); try done. cbn [orb].
  unfold macho_sym_index_for. destruct (List.find _ indexes) as [x|] eqn:Ef.
  - split; [|done]. apply find_some in Ef as [Hin Hmh]. apply Z.eqb_eq in Hmh.
    destruct (proj1 (Forall_forall _ _) Hcur x (proj2 (list_elem_of_In _ _) Hin) Hmh) as [ch' ->]. by rewrite index_walk.
  - cbn [macho_sym_index_build index_chains]. split; [by rewrite index_walk|]. constructor; [|done]. by exists ch.
Qed.

Lemma lookup_scanned name :
  fst (lookup_macho_symbol_result m None mh image slide name []) =
  option_map (fun i => result_of slide (nl i)) (scan_symbols m syms (nsyms symtab) strtab (strsize symtab) name).
Proof.
  destruct Htab as [H1 H2 [H3 H4] H5]. unfold lookup_macho_symbol_result. rewrite H1, H2.
  by destruct (Z.eqb_spec syms 0), (Z.eqb_spec strtab 0).
Qed.
End lookup.

(** ** Any sequence of lookups *)

(** Symbol [i] is a definition of [name]. *)
Definition defines (m : bytemem) (symtab : symtab_command) (syms strtab : Z) (name : cstr) (i : Z) : Prop :=
  0 <= i < nsyms symtab /\ defined_in_section (strsize symtab) (nlist_at m syms i) = true /\
  sym_name m strtab (strsize symtab) (nlist_at m syms i) = name.

(** String 0 is the empty name, and no name is defined twice. *)
Record well_named (m : bytemem) (symtab : symtab_command) (syms strtab : Z) : Prop := {
  wn_strx : forall name i, defines m symtab syms strtab name i -> n_strx (nlist_at m syms i) <> 0;
  wn_once : forall name i j, defines m symtab syms strtab name i -> defines m symtab syms strtab name j -> i = j;
}.

Section lookups.
Context (m : bytemem) (mh : Z) (image : mach_header_64) (slide : Z).
Context (symtab : symtab_command) (syms strtab : Z) (Htab : has_tables image slide symtab syms strtab).
Context (Hwn : well_named m symtab syms strtab).
Notation nl i := (nlist_at m syms i).
Notation current := (index_current m mh symtab syms strtab).

(** What a lookup of [name] answers. *)
Definition answers (name : cstr) (r : option macho_symbol_result) : Prop :=
  match r with
  | Some r => exists i, defines m symtab syms strtab name i /\ r = result_of slide (nl i)
  | None => forall i, ~ defines m symtab syms strtab name i
  end.

Lemma find_answers (p : Z -> bool) name l :
  (forall i, In i l <-> 0 <= i < nsyms symtab) ->
  (forall i, In i l -> p i = true <-> defines m symtab syms strtab name i) ->
  answers name (option_map (fun i => result_of slide (nl i)) (List.find p l)).
Proof.
  intros Hl Hp. destruct (List.find p l) as [i|] eqn:E; cbn.
  - apply find_some in E as [Hin E]. exists i. split; [by apply Hp|done].
  - intros i Hi. destruct Hi as [Hr Hi']. pose proof (proj2 (Hl i) Hr) as Hin.
    pose proof (find_none _ _ E i Hin) as Hf. rewrite (proj2 (Hp i Hin)) in Hf; [done|by split].
Qed.

Lemma in_seqZ i n : In i (seqZ 0 n) <-> 0 <= i < n.
Proof. rewrite <- list_elem_of_In, elem_of_seqZ. lia. Qed.

Lemma last_definition_answers name :
  name <> [] -> answers name (option_map (fun i => result_of slide (nl i))
    (last_definition m syms strtab (strsize symtab) (nsyms symtab) name)).
Proof.
  intros Hne. apply find_answers; [intros i; rewrite <- in_rev; apply in_seqZ|].
  intros i Hin. apply in_rev, in_seqZ in Hin. unfold indexable, streq. rewrite !andb_true_iff, bool_decide_eq_true.
  split.
  - intros [[[Hd _] _] Hn]. split; [lia|done].
  - intros Hdef. pose proof (wn_strx _ _ _ _ Hwn _ _ Hdef) as Hs. destruct Hdef as (_&Hd&Hn). repeat split; [done| | |done].
    + by destruct (Z.eqb_spec (n_strx (nl i)) 0).
    + by rewrite Hn; destruct name.
Qed.

Lemma scan_answers name :
  answers name (option_map (fun i => result_of slide (nl i))
    (scan_symbols m syms (nsyms symtab) strtab (strsize symtab) name)).
Proof.
  apply find_answers; [intros i; apply in_seqZ|]. intros i Hin. apply in_seqZ in Hin.
  unfold streq. rewrite andb_true_iff, bool_decide_eq_true. unfold defines. tauto.
Qed.

Lemma lookup_answers ch name indexes :
  name <> [] -> Forall current indexes ->
  let '(r, indexes') := lookup_macho_symbol_result m ch mh image slide name indexes in
  answers name r /\ Forall current indexes'.
Proof.
  intros Hne Hcur. destruct ch as [ch|].
  { pose proof (lookup_indexed m mh image slide symtab syms strtab Htab ch name indexes Hcur) as H.
    destruct (lookup_macho_symbol_result _ _ _ _ _ _ _) as [r ix]. destruct H as [-> H]. split; [|done].
    by apply last_definition_answers. }
  destruct (List.find (fun x => index_mh x =? mh) indexes) as [x|] eqn:Ef.
  - pose proof (lookup_indexed m mh image slide symtab syms strtab Htab (fun _ => 0) name indexes Hcur) as H.
    unfold lookup_macho_symbol_result, macho_sym_index_for in *. destruct Htab as [H1 H2 H3 H4].
    rewrite H1, H2, Ef in *. destruct (_ || _) eqn:E0; [exfalso|].
    { apply orb_prop in E0 as [E0|E0]; apply Z.eqb_eq in E0; tauto. }
    destruct H as [-> H]. split; [by apply last_definition_answers|done].
  - unfold lookup_macho_symbol_result, macho_sym_index_for. destruct Htab as [H1 H2 H3 H4].
    rewrite H1, H2, Ef. destruct (_ || _) eqn:E0; [exfalso|].
    { apply orb_prop in E0 as [E0|E0]; apply Z.eqb_eq in E0; tauto. }
    cbn [macho_sym_index_build]. split; [apply scan_answers|done].
Qed.
End lookups.

(** *** Several images *)

(** A loaded image: where its header is, what it says, its slide, and its
    symbol table with the symbols and the strings in memory. *)
Record loaded := mk_loaded { l_mh : Z; l_image : mach_header_64; l_slide : Z; l_symtab : symtab_command; l_syms : Z; l_strtab : Z }.

(** Entry [i] of its table is a symbol defined in a section, and [name] is its
    name. *)
Definition is_symbol (m : bytemem) (L : loaded) (name : cstr) (i : Z) : Prop :=
  let e := l_syms L + 16 * i in
  0 <= i < nsyms (l_symtab L) /\ load 1 (e + 4) m .& 0xe0 = 0 /\ load 1 (e + 4) m .& 0xe = 0xe /\
  load 4 e m < strsize (l_symtab L) /\ c_string (Z.to_nat (strsize (l_symtab L))) (l_strtab L + load 4 e m) m = name.

(** What a lookup of [name] in it finds: the value of the entry slid, and its
    type, section and description. *)
Definition found (m : bytemem) (L : loaded) (name : cstr) (r : option macho_symbol_result) : Prop :=
  match r with
  | None => forall i, ~ is_symbol m L name i
  | Some r => exists i, let e := l_syms L + 16 * i in is_symbol m L name i /\
      addr r = (load 8 (e + 8) m + l_slide L) mod 2 ^ 64 /\
      type r = load 1 (e + 4) m /\ sect r = load 1 (e + 5) m /\ desc r = load 2 (e + 6) m
  end.

(** The tables are found, no symbol has string 0 for its name, and no name is
    defined twice. *)
Record proper (m : bytemem) (L : loaded) : Prop := {
  pr_tables : has_tables (l_image L) (l_slide L) (l_symtab L) (l_syms L) (l_strtab L);
  pr_strx : forall name i, is_symbol m L name i -> load 4 (l_syms L + 16 * i) m <> 0;
  pr_once : forall name i j, is_symbol m L name i -> is_symbol m L name j -> i = j;
}.

(** Each request names an image and a symbol, and says whether an index can be
    allocated at that point. *)
Fixpoint lookups (m : bytemem) (reqs : list (loaded * option (Z -> Z) * cstr)) (indexes : list macho_sym_index) : list (option macho_symbol_result) :=
  match reqs with
  | [] => []
  | (L, ch, name) :: reqs =>
      let '(r, indexes) := lookup_macho_symbol_result m ch (l_mh L) (l_image L) (l_slide L) name indexes in
      r :: lookups m reqs indexes
  end.

(** The cached indexes of the image were built from its tables. *)
Definition index_of (m : bytemem) (L : loaded) (x : macho_sym_index) : Prop :=
  index_current m (l_mh L) (l_symtab L) (l_syms L) (l_strtab L) x.

Lemma is_symbol_defines m L name i : is_symbol m L name i <-> defines m (l_symtab L) (l_syms L) (l_strtab L) name i.
Proof.
  unfold is_symbol, defines, defined_in_section, sym_name, nlist_at, nz, N_STAB, N_TYPE, N_SECT. cbn [n_type n_strx].
  destruct (Z.eqb_spec (load 1 (l_syms L + 16 * i + 4) m .& 0xe0) 0), (Z.eqb_spec (load 1 (l_syms L + 16 * i + 4) m .& 0xe) 0xe),
    (Z.leb_spec (strsize (l_symtab L)) (load 4 (l_syms L + 16 * i) m)); cbn [negb]; intuition (lia || done).
Qed.

Lemma proper_named m L : proper m L -> well_named m (l_symtab L) (l_syms L) (l_strtab L).
Proof.
  intros [_ Hs Ho]. split.
  - intros name i Hd. apply is_symbol_defines in Hd. exact (Hs name i Hd).
  - intros name i j Hi Hj. apply is_symbol_defines in Hi, Hj. exact (Ho name i j Hi Hj).
Qed.

Lemma answers_found m L name r : answers m (l_slide L) (l_symtab L) (l_syms L) (l_strtab L) name r -> found m L name r.
Proof.
  destruct r as [r|]; cbn [answers found].
  - intros (i & Hd & ->). exists i. cbv zeta. rewrite is_symbol_defines. done.
  - intros H i Hi. apply is_symbol_defines in Hi. by apply (H i).
Qed.

(** A lookup adds at most an index of the image itself. *)
Lemma lookup_caches m ch mh image slide name indexes :
  let indexes' := snd (lookup_macho_symbol_result m ch mh image slide name indexes) in
  indexes' = indexes \/ exists x, indexes' = x :: indexes /\ index_mh x = mh.
Proof.
  unfold lookup_macho_symbol_result, macho_sym_index_for. destruct (last_symtab _) as [symtab|]; [|by left]. destruct (locate_tables _ _ _) as [syms strtab].
  destruct (_ || _); [by left|]. destruct (List.find _ indexes); [by left|]. destruct (macho_sym_index_build _ _ _ _ _ _) as [c|]; [|by left].
  right. by eexists.
Qed.

(** C31. The symbol index is transparent. For any number of loaded images with
    headers at different addresses, and any sequence of lookups in them, whether
    or not an index can be allocated at each, starting with any cache of indexes
    built from those images: a lookup of a name (not the empty one) finds the
    symbol the image it was asked of defines under that name, with its value slid
    by that image's slide, and nothing exactly when there is none. Of each image
    it is assumed that its symbol table lies in a segment, that it defines no name
    twice, and that no symbol has the string at offset 0 for its name: the index
    leaves such a symbol out, and the scan does not. *)
Theorem symbol_lookups_correct m (images : list loaded) reqs indexes :
  Forall (proper m) images -> (forall L L', In L images -> In L' images -> l_mh L = l_mh L' -> L = L') ->
  Forall (fun x => forall L, In L images -> index_of m L x) indexes ->
  Forall (fun '(L, _, name) => In L images /\ name <> []) reqs ->
  Forall2 (fun '(L, _, name) r => found m L name r) reqs (lookups m reqs indexes).
Proof.
  intros Himg Hmh Hix Hreq. rewrite Forall_forall in Himg. revert indexes Hix.
  induction Hreq as [|[[L ch] name] reqs [HL Hn] _ IH]; intros indexes Hix; [constructor|]. cbn [lookups].
  assert (Hp : proper m L) by (apply Himg; by apply list_elem_of_In).
  assert (HixL : Forall (index_of m L) indexes) by (eapply Forall_impl; [exact Hix|]; cbn; intros x Hx; by apply Hx).
  pose proof (lookup_answers m (l_mh L) (l_image L) (l_slide L) _ _ _ (pr_tables _ _ Hp) (proper_named _ _ Hp) ch name indexes Hn HixL) as Ha.
  pose proof (lookup_caches m ch (l_mh L) (l_image L) (l_slide L) name indexes) as Hc.
  destruct (lookup_macho_symbol_result _ _ _ _ _ _ _) as [r indexes']. destruct Ha as [Ha HixL']. cbn [snd] in Hc.
  constructor; [by apply answers_found|]. apply IH. destruct Hc as [->|(x & -> & Hx)]; [done|]. constructor; [|done].
  intros L' HL' Hx'. rewrite Hx in Hx'. assert (L = L') as <- by (by apply Hmh). apply Forall_cons in HixL' as [H _]. by apply H.
Qed.

(** Two symbols, [_a] at 0x100 and [_b] at 0x200, of an image slid by 0x1000. *)
Definition nlist_word (strx typ sect value : Z) : Z := strx + (typ .<< 32) + (sect .<< 40) + (value .<< 64).
Definition sample_linkedit : segment_command_64 := mk_seg "__LINKEDIT" 0x4000 0x1000 0 0x1000 1 1 [].
Definition sample_symtab : symtab_command := mk_symtab 0x10 2 0x100 8.
Definition sample_image : mach_header_64 :=
  mk_mh MH_EXECUTE 0 96 [mk_lc 72 (LC_SEGMENT_64 sample_linkedit); mk_lc 24 (LC_OTHER (LC_SYMTAB sample_symtab))].
(** The strings are NUL, _a, NUL, _b, NUL. *)
Definition sample_tables (sym0 sym1 : Z) : bytemem :=
  store 8 0x5100 0x625f00615f00 (store 16 0x5020 sym1 (store 16 0x5010 sym0 (fun _ => 0))).

Lemma sample_has_tables : has_tables sample_image 0x1000 sample_symtab 0x5010 0x5100.
Proof. split; [reflexivity|reflexivity|lia|cbn; lia]. Qed.

(** The same image, and one like it with a table of its own, not slid, where the
    names are the other way round. *)
Definition other_linkedit : segment_command_64 := mk_seg "__LINKEDIT" 0x8000 0x1000 0 0x1000 1 1 [].
Definition other_image : mach_header_64 :=
  mk_mh MH_EXECUTE 0 96 [mk_lc 72 (LC_SEGMENT_64 other_linkedit); mk_lc 24 (LC_OTHER (LC_SYMTAB sample_symtab))].
Definition two_images : list loaded :=
  [mk_loaded 0x1000 sample_image 0x1000 sample_symtab 0x5010 0x5100; mk_loaded 0x7000 other_image 0 sample_symtab 0x8010 0x8100].
Definition two_tables : bytemem :=
  store 8 0x8100 0x625f00615f00 (store 16 0x8020 (nlist_word 1 0xf 1 0x500) (store 16 0x8010 (nlist_word 4 0xf 1 0x600)
    (sample_tables (nlist_word 1 0xf 1 0x100) (nlist_word 4 0xf 1 0x200)))).

Lemma symbol_lookups_correct_witness :
  let one := mk_loaded 0x1000 sample_image 0x1000 sample_symtab 0x5010 0x5100 in
  let other := mk_loaded 0x7000 other_image 0 sample_symtab 0x8010 0x8100 in
  let reqs := [(one, Some (fun _ : Z => 0), str "_b"); (other, Some (fun _ : Z => 0), str "_b"); (one, None, str "_a"); (other, None, str "_c")] in
  map (option_map addr) (lookups two_tables reqs []) = [Some 0x1200; Some 0x600; Some 0x1100; None] /\
  Forall2 (fun '(L, _, name) r => found two_tables L name r) reqs (lookups two_tables reqs []).
Proof.
  intros one other reqs. split; [by vm_compute|]. apply (symbol_lookups_correct two_tables two_images).
  - assert (Hcases : forall i, 0 <= i < 2 -> i = 0 \/ i = 1) by lia.
    repeat constructor; try reflexivity; try lia; try (cbn; lia);
      try (intros name i (Hr & _); destruct (Hcases i Hr) as [->| ->]; vm_compute; discriminate);
      intros name i j (Hi & _ & _ & _ & Hn) (Hj & _ & _ & _ & Hn'); destruct (Hcases i Hi) as [->| ->], (Hcases j Hj) as [->| ->];
        try reflexivity; rewrite <- Hn' in Hn; vm_compute in Hn; discriminate Hn.
  - intros L L' [<-|[<-|[]]] [<-|[<-|[]]]; done.
  - constructor.
  - repeat (constructor; [split; [cbn; tauto|discriminate]|]). constructor.
Defined.

(** ** External definitions *)

Definition external (nl : nlist_64) : bool := nz (n_type nl .& N_EXT) && negb (nz (n_type nl .& N_PEXT)).

(** The order LC_DYSYMTAB prescribes: all local symbols come before the
    external definitions. *)
Definition locals_first (m : bytemem) (symtab : symtab_command) (syms strtab : Z) : Prop :=
  exists k, forall name i, defines m symtab syms strtab name i -> external (nlist_at m syms i) = negb (i <? k).

(** The last external definition of [name]. *)
Definition external_definition (m : bytemem) (symtab : symtab_command) (syms strtab : Z) (name : cstr) : option Z :=
  List.find (fun i => let nl := nlist_at m syms i in
    indexable m strtab (strsize symtab) nl && streq (sym_name m strtab (strsize symtab) nl) name && external nl)
    (rev (seqZ 0 (nsyms symtab))).

Lemma find_rev_seqZ_last (p : Z -> bool) n j i :
  List.find p (rev (seqZ 0 (Z.of_nat n))) = Some j -> 0 <= i < Z.of_nat n -> p i = true -> i <= j.
Proof.
  induction n as [|n IH]; [lia|]. rewrite seqZ_S, rev_app_distr. cbn [rev app List.find]. rewrite Z.add_0_l.
  destruct (p (Z.of_nat n)) eqn:E; [intros [= <-]; lia|]. intros Hf Hi Hp.
  destruct (decide (i = Z.of_nat n)) as [->|]; [congruence|]. apply IH; [done|lia|done].
Qed.

Lemma find_refined {A} (p e : A -> bool) l j :
  List.find p l = Some j -> e j = true -> List.find (fun i => p i && e i) l = Some j.
Proof.
  intros Hf He. induction l as [|i l IH]; [done|]. cbn in *. destruct (p i); cbn.
  - injection Hf as ->. by rewrite He.
  - by apply IH.
Qed.

Lemma last_definition_external m symtab syms strtab name :
  0 <= nsyms symtab -> locals_first m symtab syms strtab ->
  match last_definition m syms strtab (strsize symtab) (nsyms symtab) name with
  | Some j => external_definition m symtab syms strtab name = if external (nlist_at m syms j) then Some j else None
  | None => external_definition m symtab syms strtab name = None
  end.
Proof.
  intros Hn [k Hk]. unfold external_definition, last_definition.
  set (p := fun i => indexable m strtab (strsize symtab) (nlist_at m syms i) &&
                     streq (sym_name m strtab (strsize symtab) (nlist_at m syms i)) name).
  assert (Hdef : forall i, In i (rev (seqZ 0 (nsyms symtab))) -> p i = true -> defines m symtab syms strtab name i).
  { intros i Hin Hp. apply in_rev, in_seqZ in Hin. apply andb_prop in Hp as [Hp Hs]. apply andb_prop in Hp as [Hp _].
    apply andb_prop in Hp as [Hp _]. apply bool_decide_eq_true in Hs. split; [lia|done]. }
  set (q := fun i => p i && external (nlist_at m syms i)).
  change (match List.find p (rev (seqZ 0 (nsyms symtab))) with
          | Some j => List.find q (rev (seqZ 0 (nsyms symtab))) = if external (nlist_at m syms j) then Some j else None
          | None => List.find q (rev (seqZ 0 (nsyms symtab))) = None
          end).
  destruct (List.find p _) as [j|] eqn:Ej.
  - pose proof (find_some _ _ Ej) as [Hin Hp]. destruct (external (nlist_at m syms j)) eqn:Ex.
    + by apply (find_refined p (fun i => external (nlist_at m syms i))).
    + destruct (List.find q _) as [e|] eqn:Ee; [|done]. exfalso. apply find_some in Ee as [Hine He].
      apply andb_prop in He as [Hpe Hxe]. pose proof (Hk name e (Hdef e Hine Hpe)) as He.
      pose proof (Hk name j (Hdef j Hin Hp)) as Hj. rewrite Hxe in He. rewrite Ex in Hj.
      apply in_rev, in_seqZ in Hine. rewrite <- (Z2Nat.id (nsyms symtab)) in Ej, Hine by lia.
      pose proof (find_rev_seqZ_last p _ j e Ej Hine Hpe).
      destruct (Z.ltb_spec e k), (Z.ltb_spec j k); done || lia.
  - destruct (List.find q _) as [e|] eqn:Ee; [|done]. apply find_some in Ee as [Hine He].
    apply andb_prop in He as [Hpe _]. by rewrite (find_none _ _ Ej e Hine) in Hpe.
Qed.

(** External definitions.  In a table ordered as LC_DYSYMTAB prescribes,
    the lookup through the index ignores local and private symbols of the same
    name: it returns the slid address of the external definition, or 0 when
    there is none or it is in a stubs section. *)
Theorem external_lookup_correct m mh image slide symtab syms strtab ch name indexes :
  has_tables image slide symtab syms strtab -> locals_first m symtab syms strtab ->
  Forall (index_current m mh symtab syms strtab) indexes ->
  fst (resolver_lookup_external_definition m (Some ch) mh image slide name indexes) =
  match external_definition m symtab syms strtab name with
  | Some i => let nl := nlist_at m syms i in
              if macho_section_flags image (n_sect nl) .& SECTION_TYPE =? S_SYMBOL_STUBS then 0
              else u64 (n_value nl + slide)
  | None => 0
  end.
Proof.
  intros Htab Hloc Hcur. pose proof (ht_count _ _ _ _ _ Htab) as Hn.
  pose proof (lookup_indexed m mh image slide symtab syms strtab Htab ch name indexes Hcur) as H.
  pose proof (last_definition_external m symtab syms strtab name ltac:(lia) Hloc) as He.
  unfold resolver_lookup_external_definition. destruct (lookup_macho_symbol_result _ _ _ _ _ _ _) as [r ix].
  destruct H as [-> _]. destruct (last_definition _ _ _ _ _ _) as [j|]; cbn [option_map]; [|by rewrite He].
  unfold macho_symbol_is_external_definition, macho_symbol_is_stub_definition, result_of; cbn [type sect addr].
  rewrite He. unfold external.
  destruct (nz (n_type (nlist_at m syms j) .& N_EXT)), (nz (n_type (nlist_at m syms j) .& N_PEXT));
    cbn -[nlist_at]; try done. by destruct (_ =? S_SYMBOL_STUBS).
Qed.

Lemma external_lookup_correct_witness :
  let m := sample_tables (nlist_word 4 0xe 1 0x100) (nlist_word 4 0xf 1 0x200) in
  fst (resolver_lookup_external_definition m (Some (fun _ => 0)) 0x1000 sample_image 0x1000 (str "_b") []) = 0x1200.
Proof.
  intros m.
  refine (eq_trans (external_lookup_correct m 0x1000 sample_image 0x1000 sample_symtab 0x5010 0x5100
                      (fun _ => 0) (str "_b") [] sample_has_tables _ _) _).
  - exists 1. intros name i (Hr&_&_). assert (i = 0 \/ i = 1) as [->| ->] by (cbn in Hr; lia); reflexivity.
  - constructor.
  - reflexivity.
Defined.

(** The scan that replaces the index when memory is short takes the first
    symbol of the name: a local [_b] before the external one hides it, and the
    lookup answers 0 where the index answers 0x1200. *)
Example local_hides_external :
  let m := sample_tables (nlist_word 4 0xe 1 0x100) (nlist_word 4 0xf 1 0x200) in
  fst (resolver_lookup_external_definition m None 0x1000 sample_image 0x1000 (str "_b") []) = 0 /\
  fst (resolver_lookup_external_definition m (Some (fun _ => 0)) 0x1000 sample_image 0x1000 (str "_b") []) = 0x1200.
Proof. split; reflexivity. Qed.
