(* ===== verification/SymExtent.v ===== *)
(** * Symbol extents: src/resolver.c, build_extent_cache and resolver_symbol_extent

    Where a function of the image ends: at the next symbol of its section, or
    at the end of the section.  [qsort] is an argument, any function that sorts
    by [sym_cmp]; memory allocation does not fail. *)

From Stdlib Require Import String Sorted.
From stdpp Require Import sorting.
From S2P Require Import Prelude CStr Macho SymIndex.

Record sym_entry := mk_se { se_vmaddr : Z; se_strx : Z; se_sect : Z }.

(** [syms] is [None] before the table is built. *)
Record extent_cache := mk_ec {
  ec_mh : Z; ec_syms : option (list sym_entry); ec_strtab : Z; ec_strsize : Z; section_ends : list Z;
}.

Definition no_extent_cache : extent_cache := mk_ec 0 None 0 0 [].

Definition sym_cmp (a b : sym_entry) : Z :=
  if se_vmaddr a <? se_vmaddr b then -1 else if se_vmaddr b <? se_vmaddr a then 1 else 0.

Definition section_ends_of (l : list load_command) : list Z :=
  0 :: flat_map (fun lc => match body lc with
                           | LC_SEGMENT_64 seg => map (fun s => u64 (sect_addr s + sect_size s)) (sections seg)
                           | _ => []
                           end) l.

(** The entries before sorting. *)
Definition sym_entries (m : bytemem) (syms nsyms strsize : Z) : list sym_entry :=
  map (fun i => let nl := nlist_at m syms i in mk_se (n_value nl) (n_strx nl) (n_sect nl))
      (List.filter (fun i => defined_in_section strsize (nlist_at m syms i)) (seqZ 0 nsyms)).

Section extent.
Context (qsort : list sym_entry -> list sym_entry) (m : bytemem).

(** [true] for 0, [false] for -1. *)
Definition build_extent_cache (mh : Z) (image : mach_header_64) (slide : Z) (c : extent_cache) : bool * extent_cache :=
  match ec_mh c =? mh, ec_syms c with
  | true, Some _ => (true, c)
  | _, _ =>
      let l := visited (sizeofcmds image) 0 (commands image) in
      match last_symtab l with
      | None => (false, no_extent_cache)
      | Some symtab =>
          let ends := section_ends_of l in
          let '(syms, strtab) := locate_tables symtab slide l in
          if (syms =? 0) || (strtab =? 0) then (false, mk_ec 0 None 0 0 ends)
          else (true, mk_ec mh (Some (qsort (sym_entries m syms (nsyms symtab) (strsize symtab))))
                            strtab (strsize symtab) ends)
      end
  end.

Definition entry_name (c : extent_cache) (e : sym_entry) : cstr :=
  c_string (Z.to_nat (ec_strsize c)) (ec_strtab c + se_strx e) m.

(** The loop over the sorted entries; [None] is -1. *)
Fixpoint extent_scan (c : extent_cache) (slide : Z) (name : cstr) (l : list sym_entry) : option (Z * Z) :=
  match l with
  | [] => None
  | e :: l =>
      if negb (streq (entry_name c e) name) then extent_scan c slide name l
      else
        let start := se_vmaddr e in
        let fin := match List.find (fun e' => se_sect e' =? se_sect e) l with Some e' => se_vmaddr e' | None => 0 end in
        let fin := if fin =? 0 then default fin (section_ends c !! Z.to_nat (se_sect e)) else fin in
        if fin <=? start then None else Some (u64 (start + slide), u64 (fin + slide))
  end.

Definition resolver_symbol_extent (mh : Z) (image : mach_header_64) (slide : Z) (name : cstr) (c : extent_cache)
    : option (Z * Z) * extent_cache :=
  match build_extent_cache mh image slide c with
  | (false, c) => (None, c)
  | (true, c) => (extent_scan c slide name (default [] (ec_syms c)), c)
  end.

(** ** Correctness *)

(** What the C library promises of [qsort]. *)
Record qsort_spec : Prop := {
  qs_perm : forall l, Permutation (qsort l) l;
  qs_sorted : forall l, StronglySorted (fun a b => sym_cmp a b <= 0) (qsort l);
}.

Lemma sym_cmp_le a b : sym_cmp a b <= 0 <-> se_vmaddr a <= se_vmaddr b.
Proof. unfold sym_cmp. destruct (Z.ltb_spec (se_vmaddr a) (se_vmaddr b)), (Z.ltb_spec (se_vmaddr b) (se_vmaddr a)); lia. Qed.

(** The scan stops at the first entry of the name. *)
Lemma extent_scan_at c slide name l1 e l2 :
  Forall (fun e' => entry_name c e' <> name) l1 -> entry_name c e = name ->
  extent_scan c slide name (l1 ++ e :: l2) = extent_scan c slide name (e :: l2).
Proof.
  intros H He. induction H as [|e' l1 Hn H IH]; [done|]. cbn [app extent_scan]. unfold streq at 1.
  rewrite bool_decide_false by done. exact IH.
Qed.

Lemma extent_scan_hit c slide name e l :
  entry_name c e = name ->
  extent_scan c slide name (e :: l) =
    let fin := match List.find (fun e' => se_sect e' =? se_sect e) l with Some e' => se_vmaddr e' | None => 0 end in
    let fin := if fin =? 0 then default fin (section_ends c !! Z.to_nat (se_sect e)) else fin in
    if fin <=? se_vmaddr e then None else Some (u64 (se_vmaddr e + slide), u64 (fin + slide)).
Proof. intros He. cbn [extent_scan]. unfold streq at 1. by rewrite bool_decide_true. Qed.

Lemma find_split {A} (p : A -> bool) l x :
  List.find p l = Some x -> exists l1 l2, l = l1 ++ x :: l2 /\ Forall (fun y => p y = false) l1 /\ p x = true.
Proof.
  induction l as [|y l IH]; [done|]. cbn. destruct (p y) eqn:E.
  - intros [= ->]. exists [], l. by repeat constructor.
  - intros H. destruct (IH H) as (l1&l2&->&Hl&Hp). exists (y :: l1), l2. by repeat constructor.
Qed.
End extent.

(** [fin] ends the extent of [e]: the closest symbol above it in its section,
    or the end of the section when it is the last. *)
Definition extent_end (entries : list sym_entry) (ends : list Z) (e : sym_entry) (fin : Z) : Prop :=
  (exists e', In e' entries /\ se_sect e' = se_sect e /\ se_vmaddr e' = fin /\ se_vmaddr e < fin /\
     forall e'', In e'' entries -> se_sect e'' = se_sect e -> se_vmaddr e < se_vmaddr e'' -> fin <= se_vmaddr e'') \/
  ((forall e'', In e'' entries -> se_sect e'' = se_sect e -> se_vmaddr e'' <= se_vmaddr e) /\
   ends !! Z.to_nat (se_sect e) = Some fin /\ se_vmaddr e < fin).

Lemma sorted_split (l1 l2 : list sym_entry) e :
  StronglySorted (fun a b => sym_cmp a b <= 0) (l1 ++ e :: l2) ->
  (forall x, In x l1 -> se_vmaddr x <= se_vmaddr e) /\ (forall y, In y l2 -> se_vmaddr e <= se_vmaddr y) /\
  StronglySorted (fun a b => sym_cmp a b <= 0) l2.
Proof.
  induction l1 as [|x l1 IH]; cbn [app]; intros H; apply StronglySorted_inv in H as [Hs Hf].
  - split; [done|]. split; [|done]. intros y Hy. apply sym_cmp_le.
    by apply (proj1 (Forall_forall _ _) Hf y), list_elem_of_In.
  - destruct (IH Hs) as (H1&H2&H3). split; [|done]. intros y [<-|Hy]; [|by apply H1]. apply sym_cmp_le.
    apply (proj1 (Forall_forall _ _) Hf e). apply elem_of_app. right. by left.
Qed.

Section scan.
Context (m : bytemem) (c : extent_cache) (slide : Z) (name : cstr) (entries sorted : list sym_entry).
Context (Hperm : Permutation sorted entries) (Hsort : StronglySorted (fun a b => sym_cmp a b <= 0) sorted).
Context (Hpos : forall e, In e entries -> 0 <= se_vmaddr e).

Lemma extent_scan_correct e :
  In e entries -> entry_name m c e = name ->
  (forall e', In e' entries -> entry_name m c e' = name -> e' = e) -> List.NoDup entries ->
  (forall e', In e' entries -> e' <> e -> se_sect e' = se_sect e -> se_vmaddr e' <> se_vmaddr e) ->
  (exists fin, section_ends c !! Z.to_nat (se_sect e) = Some fin /\ se_vmaddr e < fin) ->
  exists fin, extent_end entries (section_ends c) e fin /\
    extent_scan m c slide name sorted = Some (u64 (se_vmaddr e + slide), u64 (fin + slide)).
Proof.
  intros Hin Hname Huniq Hnd Halias (fin&Hfin&Hlt).
  assert (Hin' : forall x, In x sorted <-> In x entries) by (intros x; rewrite <- !list_elem_of_In; by rewrite Hperm).
  pose proof (Permutation_NoDup (Permutation_sym Hperm) Hnd) as Hnds.
  pose proof (Hpos e Hin) as H0. apply Hin' in Hin. apply in_split in Hin as (l1&l2&E).
  rewrite E in Hsort. destruct (sorted_split l1 l2 e Hsort) as (H1&H2&H3). clear Hsort.
  assert (Hne : ~ In e l1 /\ ~ In e l2).
  { rewrite E in Hnds. apply NoDup_remove_2 in Hnds. split; intros Hi; apply Hnds, in_or_app; tauto. }
  assert (Hl1 : Forall (fun x => entry_name m c x <> name) l1).
  { apply Forall_forall. intros x Hx Hn. apply list_elem_of_In in Hx. apply (proj1 Hne).
    rewrite <- (Huniq x); [done|apply Hin'; rewrite E; apply in_or_app; by left|done]. }
  rewrite E, extent_scan_at, extent_scan_hit by done.
  cbv zeta. destruct (List.find _ l2) as [e'|] eqn:Ef.
  - apply find_split in Ef as (l3&l4&E2&Hl3&Hs). apply Z.eqb_eq in Hs.
    assert (He' : In e' l2) by (rewrite E2; apply in_or_app; right; by left).
    assert (Hne' : e' <> e) by (intros ->; tauto).
    assert (Hine' : In e' entries) by (apply Hin'; rewrite E; apply in_or_app; right; by right).
    pose proof (Halias e' Hine' Hne' Hs). pose proof (H2 e' He').
    destruct (Z.eqb_spec (se_vmaddr e') 0); [lia|]. destruct (Z.leb_spec (se_vmaddr e') (se_vmaddr e)); [lia|].
    eexists. split; [|done]. left. exists e'. repeat (split; [done || lia|]).
    intros x Hx Hsx Hgt. apply Hin' in Hx. rewrite E, E2 in Hx. rewrite E2 in H3.
    apply in_app_or in Hx as [Hx|[<-|Hx]]; [apply H1 in Hx; lia|lia|].
    destruct (sorted_split l3 l4 e' H3) as (_&Hup&_).
    apply in_app_or in Hx as [Hx|[<-|Hx]]; [|lia|by apply Hup].
    pose proof (proj1 (Forall_forall _ _) Hl3 x (proj2 (list_elem_of_In _ _) Hx)) as Hf. apply Z.eqb_neq in Hf. done.
  - cbn [Z.eqb]. rewrite Hfin. change (default 0 (Some fin)) with fin. destruct (Z.leb_spec fin (se_vmaddr e)); [lia|].
    eexists. split; [|done]. right. split; [|done]. intros x Hx Hsx. apply Hin' in Hx. rewrite E in Hx.
    apply in_app_or in Hx as [Hx|[<-|Hx]]; [by apply H1|lia|].
    pose proof (find_none _ _ Ef x Hx) as Hf. apply Z.eqb_neq in Hf. done.
Qed.

(** Two symbols of one section at one address: the first in sorted order
    ends where it starts. *)
Lemma extent_scan_alias l1 e l2 e' :
  sorted = l1 ++ e :: l2 -> In e' l2 -> se_sect e' = se_sect e -> se_vmaddr e' = se_vmaddr e -> 0 < se_vmaddr e ->
  Forall (fun x => entry_name m c x <> name) l1 -> entry_name m c e = name ->
  extent_scan m c slide name sorted = None.
Proof.
  intros E Hin Hs Ha H0 Hl1 Hname. rewrite E in Hsort |- *. destruct (sorted_split l1 l2 e Hsort) as (_&H2&H3).
  rewrite extent_scan_at, extent_scan_hit by done. cbv zeta.
  destruct (List.find _ l2) as [x|] eqn:Ef.
  2: { pose proof (find_none _ _ Ef e' Hin) as Hf. apply Z.eqb_neq in Hf. done. }
  apply find_split in Ef as (l3&l4&E2&Hl3&_). assert (Hx : se_vmaddr x = se_vmaddr e).
  { pose proof (H2 x ltac:(rewrite E2; apply in_or_app; right; by left)). rewrite E2 in Hin, H3.
    destruct (sorted_split l3 l4 x H3) as (_&H5&_). apply in_app_or in Hin as [Hin|[<-|Hin]]; [|done|apply H5 in Hin; lia].
    pose proof (proj1 (Forall_forall _ _) Hl3 e' (proj2 (list_elem_of_In _ _) Hin)) as Hf. by apply Z.eqb_neq in Hf. }
  rewrite Hx. destruct (Z.eqb_spec (se_vmaddr e) 0); [lia|]. by destruct (Z.leb_spec (se_vmaddr e) (se_vmaddr e)); [|lia].
Qed.
End scan.

(** ** The two theorems *)

Section image.
Context (qsort : list sym_entry -> list sym_entry) (Hq : qsort_spec qsort).
Context (m : bytemem) (mh : Z) (image : mach_header_64) (slide : Z).
Context (symtab : symtab_command) (syms strtab : Z) (Htab : has_tables image slide symtab syms strtab).

(** The entries of the image and their names. *)
Definition image_entries : list sym_entry := sym_entries m syms (nsyms symtab) (strsize symtab).
Definition image_ends : list Z := section_ends_of (visited (sizeofcmds image) 0 (commands image)).
Definition image_cache : extent_cache :=
  mk_ec mh (Some (qsort image_entries)) strtab (strsize symtab) image_ends.

Lemma build_image_cache : build_extent_cache qsort m mh image slide no_extent_cache = (true, image_cache).
Proof.
  destruct Htab as [H1 H2 [H3 H4] _]. unfold build_extent_cache. cbn [ec_mh ec_syms no_extent_cache].
  rewrite H1, H2. destruct (Z.eqb_spec syms 0), (Z.eqb_spec strtab 0); try done. by destruct (0 =? mh).
Qed.

Lemma cached_extent name :
  resolver_symbol_extent qsort m mh image slide name image_cache =
  (extent_scan m image_cache slide name (qsort image_entries), image_cache).
Proof. unfold resolver_symbol_extent, build_extent_cache, image_cache; cbn. by rewrite Z.eqb_refl. Qed.

Lemma first_extent name :
  resolver_symbol_extent qsort m mh image slide name no_extent_cache =
  (extent_scan m image_cache slide name (qsort image_entries), image_cache).
Proof. unfold resolver_symbol_extent. by rewrite build_image_cache. Qed.

Lemma image_entries_nonneg e : In e image_entries -> 0 <= se_vmaddr e.
Proof.
  intros H. apply in_map_iff in H as (i&<-&_). cbn. apply (load_range 8). lia.
Qed.
End image.

(** The extent of a symbol.  When no other symbol of its section has its
    address, the extent runs from its slid address to the closest symbol above
    it in the section, or to the end of the section; asking again uses the
    cache and gives the same answer. *)
Theorem symbol_extent_correct qsort m mh image slide symtab syms strtab name e :
  qsort_spec qsort -> has_tables image slide symtab syms strtab ->
  let entries := image_entries m symtab syms in
  let ends := image_ends image in
  let named x := c_string (Z.to_nat (strsize symtab)) (strtab + se_strx x) m in
  List.NoDup entries -> In e entries -> named e = name ->
  (forall x, In x entries -> named x = name -> x = e) ->
  (forall x, In x entries -> x <> e -> se_sect x = se_sect e -> se_vmaddr x <> se_vmaddr e) ->
  (exists fin, ends !! Z.to_nat (se_sect e) = Some fin /\ se_vmaddr e < fin) ->
  exists fin, extent_end entries ends e fin /\
    let '(r, c) := resolver_symbol_extent qsort m mh image slide name no_extent_cache in
    r = Some (u64 (se_vmaddr e + slide), u64 (fin + slide)) /\
    resolver_symbol_extent qsort m mh image slide name c = (r, c).
Proof.
  intros Hq Htab entries ends named Hnd Hin Hname Huniq Halias Hend.
  destruct (extent_scan_correct m (image_cache qsort m mh image symtab syms strtab) slide name entries
              (qsort entries) (qs_perm _ Hq _) (qs_sorted _ Hq _) (image_entries_nonneg m symtab syms)
              e Hin Hname Huniq Hnd Halias Hend) as (fin&Hfin&Hscan).
  exists fin. split; [done|].
  rewrite (first_extent qsort m mh image slide symtab syms strtab Htab). split; [exact Hscan|].
  apply cached_extent.
Qed.

(** Aliases.  Two symbols of one section with the same (nonzero) address:
    whatever order [qsort] leaves them in, the extent of one of them is
    refused, because the other one is taken for its end. *)
Theorem alias_extent_refused qsort m mh image slide symtab syms strtab e1 e2 :
  qsort_spec qsort -> has_tables image slide symtab syms strtab ->
  let entries := image_entries m symtab syms in
  let named x := c_string (Z.to_nat (strsize symtab)) (strtab + se_strx x) m in
  let extent e := fst (resolver_symbol_extent qsort m mh image slide (named e) no_extent_cache) in
  In e1 entries -> In e2 entries -> e1 <> e2 ->
  se_sect e1 = se_sect e2 -> se_vmaddr e1 = se_vmaddr e2 -> 0 < se_vmaddr e1 ->
  (forall x y, In x entries -> In y entries -> named x = named y -> x = y) -> List.NoDup entries ->
  extent e1 = None \/ extent e2 = None.
Proof.
  intros Hq Htab entries named extent H1 H2 Hne Hs Ha H0 Huniq Hnd. unfold extent.
  rewrite !(first_extent qsort m mh image slide symtab syms strtab Htab). cbn [fst].
  set (c := image_cache qsort m mh image symtab syms strtab).
  assert (Hin' : forall x, In x (qsort entries) <-> In x entries).
  { intros x. rewrite <- !list_elem_of_In. by rewrite (qs_perm _ Hq). }
  pose proof (Permutation_NoDup (Permutation_sym (qs_perm _ Hq entries)) Hnd) as Hnds.
  assert (Hgo : forall a b l1 l2, qsort entries = l1 ++ a :: l2 -> In b l2 -> se_sect b = se_sect a ->
                  se_vmaddr b = se_vmaddr a -> 0 < se_vmaddr a -> extent_scan m c slide (named a) (qsort entries) = None).
  { intros a b l1 l2 E Hb Hsb Hab Ha0.
    apply (extent_scan_alias m c slide (named a) (qsort entries) (qs_sorted _ Hq _) l1 a l2 b E Hb Hsb Hab Ha0); [|done].
    apply Forall_forall. intros x Hx Hn. apply list_elem_of_In in Hx. rewrite E in Hnds. apply NoDup_remove_2 in Hnds.
    apply Hnds, in_or_app. left. rewrite <- (Huniq x a); [done| | |done]; apply Hin'; rewrite E; apply in_or_app; [by left|right; by left]. }
  pose proof (proj2 (Hin' e1) H1) as H1'. apply in_split in H1' as (l1&l2&E).
  pose proof (proj2 (Hin' e2) H2) as H2'. rewrite E in H2'. apply in_app_or in H2' as [Hl|[->|Hr]]; [|done|].
  - right. apply in_split in Hl as (l3&l4&El). apply (Hgo e2 e1 l3 (l4 ++ e1 :: l2)); try done; [|apply in_or_app; right; by left|lia].
    by rewrite E, El, <- app_assoc.
  - left. by apply (Hgo e1 e2 l1 l2).
Qed.

(** A sort that meets the promise, and an image with one section at 0x100. *)
Definition sym_le (a b : sym_entry) : Prop := sym_cmp a b <= 0.
#[global] Instance sym_le_dec a b : Decision (sym_le a b) := decide (sym_cmp a b <= 0).

Lemma merge_sort_qsort_spec : qsort_spec (merge_sort sym_le).
Proof.
  assert (Total sym_le) by (intros a b; unfold sym_le; rewrite !sym_cmp_le; lia).
  assert (Transitive sym_le) by (intros a b c; unfold sym_le; rewrite !sym_cmp_le; lia).
  split; intros l; [apply merge_sort_Permutation|]. exact (StronglySorted_merge_sort sym_le l).
Qed.

Definition extent_image : mach_header_64 :=
  mk_mh MH_EXECUTE 0 248
    [mk_lc 152 (LC_SEGMENT_64 (mk_seg "__TEXT" 0 0x1000 0x2000 0x1000 5 5 [mk_sect "__text" 0x100 0x300 0]));
     mk_lc 72 (LC_SEGMENT_64 sample_linkedit); mk_lc 24 (LC_OTHER (LC_SYMTAB sample_symtab))].

Lemma extent_has_tables : has_tables extent_image 0x1000 sample_symtab 0x5010 0x5100.
Proof. split; [reflexivity|reflexivity|lia|cbn; lia]. Qed.

Lemma symbol_extent_correct_witness :
  let m := sample_tables (nlist_word 1 0xf 1 0x100) (nlist_word 4 0xf 1 0x200) in
  exists fin, extent_end (image_entries m sample_symtab 0x5010) (image_ends extent_image) (mk_se 0x100 1 1) fin /\
    let '(r, c) := resolver_symbol_extent (merge_sort sym_le) m 0x1000 extent_image 0x1000 (str "_a") no_extent_cache in
    r = Some (u64 (0x100 + 0x1000), u64 (fin + 0x1000)) /\
    resolver_symbol_extent (merge_sort sym_le) m 0x1000 extent_image 0x1000 (str "_a") c = (r, c).
Proof.
  intros m.
  assert (E : image_entries m sample_symtab 0x5010 = [mk_se 0x100 1 1; mk_se 0x200 4 1]) by reflexivity.
  refine (symbol_extent_correct (merge_sort sym_le) m 0x1000 extent_image 0x1000 sample_symtab 0x5010 0x5100
            (str "_a") (mk_se 0x100 1 1) merge_sort_qsort_spec extent_has_tables _ _ _ _ _ _); rewrite ?E.
  - repeat constructor; cbn; intuition discriminate.
  - by left.
  - reflexivity.
  - intros x [<-|[<-|[]]]; [done|]. intros H. vm_compute in H. discriminate H.
  - intros x [<-|[<-|[]]]; [done|]. cbn. lia.
  - exists 0x400. split; [reflexivity|cbn; lia].
Defined.

Lemma alias_extent_refused_witness :
  let m := sample_tables (nlist_word 1 0xf 1 0x100) (nlist_word 4 0xf 1 0x100) in
  let extent name := fst (resolver_symbol_extent (merge_sort sym_le) m 0x1000 extent_image 0x1000 name no_extent_cache) in
  extent (str "_a") = None \/ extent (str "_b") = None.
Proof.
  intros m extent.
  assert (E : image_entries m sample_symtab 0x5010 = [mk_se 0x100 1 1; mk_se 0x100 4 1]) by reflexivity.
  refine (alias_extent_refused (merge_sort sym_le) m 0x1000 extent_image 0x1000 sample_symtab 0x5010 0x5100
            (mk_se 0x100 1 1) (mk_se 0x100 4 1) merge_sort_qsort_spec extent_has_tables _ _ _ _ _ _ _ _); rewrite ?E; cbn.
  - by left.
  - right. by left.
  - discriminate.
  - done.
  - done.
  - lia.
  - intros x y [<-|[<-|[]]] [<-|[<-|[]]]; try done; intros H; vm_compute in H; discriminate H.
  - repeat constructor; cbn; intuition discriminate.
Defined.
