(* ===== verification/Loader.v ===== *)
(** * The Mach-O loader: src/loader.c, and [native_prot], [setup_space] of src/machgate.c

    [load64] reserves one address range for all segments plus the island pool
    and maps the segments into it.  The kernel's answers to memory calls are
    an arbitrary function of the calls made before; the calls are recorded. *)

From Stdlib Require Import String.
From S2P Require Import Prelude Host GuestCpus Macho.
Definition MAP_GROWSDOWN : Z := 0x100.
Definition PROT_NONE : Z := 0.

Inductive vmcall :=
| VMmap (addr len prot flags : Z) (file_offset : option Z)
| VMprotect (addr len prot : Z)
| VMunmap (addr len : Z).

(** The [exit(1)]s of the loader. *)
Inductive load_error :=
| CannotReadHeader | UnexpectedFileType | HeaderMapFailed | NonPIE
| ReserveFailed | SegmentMapFailed | StackFailed.

(** ** The loader monad: a trace of memory calls and the exits *)

Definition ldE (E A : Type) : Type := list vmcall -> (E + A) * list vmcall.
Notation ld := (ldE load_error).
Definition lret {E A} (a : A) : ldE E A := fun tr => (inr a, tr).
Definition lexit {E A} (e : E) : ldE E A := fun tr => (inl e, tr).
Definition lbind {E A B} (m : ldE E A) (f : A -> ldE E B) : ldE E B :=
  fun tr => match m tr with (inl e, tr') => (inl e, tr') | (inr a, tr') => f a tr' end.

Declare Scope ld_scope.
Delimit Scope ld_scope with ld.
Notation "'let!' x := m 'in' k" := (lbind m (fun x => k))
  (at level 200, x name, m at level 100, k at level 200, right associativity) : ld_scope.
Local Open Scope ld_scope.

Section loader.
(** What [mmap] answers, given the earlier calls: an address, or MAP_FAILED. *)
Context (kernel_mmap : list vmcall -> vmcall -> option Z).
(** [sysconf(_SC_PAGESIZE)], and the top of the stack below the commpage. *)
Context (page_sz commpage_top : Z) (stack_limit : option Z).

Definition mmap {E} (c : vmcall) : ldE E (option Z) := fun tr => (inr (kernel_mmap tr c), tr ++ [c]).
Definition vm_note {E} (c : vmcall) : ldE E unit := fun tr => (inr tt, tr ++ [c]).

(** [((((x)-1) / PAGE_SIZE)+1) * PAGE_SIZE] *)
Definition PAGE_ROUNDUP (x : Z) : Z := ((x - 1) / PAGE_SIZE + 1) * PAGE_SIZE.

Definition native_prot (prot : Z) : Z :=
  let protOut := 0 in
  let protOut := if nz (prot .& VM_PROT_READ) then protOut .| PROT_READ else protOut in
  let protOut := if nz (prot .& VM_PROT_WRITE) then protOut .| PROT_WRITE else protOut in
  if nz (prot .& VM_PROT_EXECUTE) then protOut .| PROT_EXEC else protOut.

(** [stack_limit] is [rlim_cur], [None] for RLIM_INFINITY. *)
Definition setup_space : ld unit :=
  let size := PAGE_SIZE * 4096 in
  let size := match stack_limit with Some l => if l <? size then l else size | None => size end in
  let! r := mmap (VMmap (u64 (commpage_top - size)) size (PROT_READ .| PROT_WRITE)
                        (MAP_PRIVATE .| MAP_ANONYMOUS .| MAP_FIXED .| MAP_GROWSDOWN) None) in
  match r with Some _ => lret tt | None => lexit StackFailed end.

(** ** The size of the reservation *)

Definition NO_BASE : Z := 2 ^ 64 - 1.

Definition is_pagezero (seg : segment_command_64) : bool := String.eqb (segname seg) "__PAGEZERO".

Definition measure_command (acc : Z * Z) (lc : load_command) : Z * Z :=
  let '(base, mmapSize) := acc in
  match body lc with
  | LC_SEGMENT_64 seg =>
      if negb (is_pagezero seg) && negb (vmsize seg =? 0) then
        let base := if base =? NO_BASE then vmaddr seg else base in
        let seg_end := u64 (vmaddr seg + vmsize seg - base) in
        (base, if mmapSize <? seg_end then seg_end else mmapSize)
      else (base, mmapSize)
  | _ => (base, mmapSize)
  end.

Definition measure (cmds : list load_command) : Z * Z := fold_left measure_command cmds (NO_BASE, 0).

(** [(mmapSize + page_sz - 1) & ~(page_sz - 1)] *)
Definition align_page (x : Z) : Z := u64 (x + page_sz - 1) .& Z.lnot (page_sz - 1).

(** ** The commands *)

(** The local variables of the second pass. *)
Record pass := mk_pass {
  ps_lr : load_results;
  ps_gc : guest_cpus;
  entryPoint : Z;
  mappedHeader : Z;          (* 0 is NULL *)
  needs_fixup : bool;        (* entryPointDylinker == 1 *)
}.

Definition with_lr (s : pass) (lr : load_results) : pass :=
  mk_pass lr (ps_gc s) (entryPoint s) (mappedHeader s) (needs_fixup s).

Definition set_vm_addr_max (lr : load_results) (v : Z) : load_results :=
  mk_lr (mh lr) (entry_point lr) (stack_size lr) (dyld_all_image_location lr) (dyld_all_image_size lr)
        (uuid lr) v (lr_base lr) (slide lr) (lc_main lr) (pool_base lr) (pool_size lr) (pool_used lr).
Definition set_all_image (lr : load_results) (loc size : Z) : load_results :=
  mk_lr (mh lr) (entry_point lr) (stack_size lr) loc size
        (uuid lr) (vm_addr_max lr) (lr_base lr) (slide lr) (lc_main lr)
        (pool_base lr) (pool_size lr) (pool_used lr).
Definition set_main (lr : load_results) (stack : Z) : load_results :=
  mk_lr (mh lr) (entry_point lr) stack (dyld_all_image_location lr) (dyld_all_image_size lr)
        (uuid lr) (vm_addr_max lr) (lr_base lr) (slide lr) true
        (pool_base lr) (pool_size lr) (pool_used lr).
Definition set_uuid (lr : load_results) (u : list Z) : load_results :=
  mk_lr (mh lr) (entry_point lr) (stack_size lr) (dyld_all_image_location lr) (dyld_all_image_size lr)
        u (vm_addr_max lr) (lr_base lr) (slide lr) (lc_main lr)
        (pool_base lr) (pool_size lr) (pool_used lr).

(** The first [__all_image_info] section of [__DATA]. *)
Definition note_all_image_info (slide : Z) (seg : segment_command_64) (lr : load_results) : load_results :=
  if String.eqb (segname seg) "__DATA" then
    match List.find (fun s => String.prefix "__all_image_info" (sectname s)) (sections seg) with
    | Some s => set_all_image lr (u64 (slide + sect_addr s)) (sect_size s)
    | None => lr
    end
  else lr.

Definition map_segment (slide fat_offset : Z) (seg : segment_command_64) (s : pass) : ld pass :=
  let maxprot := native_prot (maxprot seg) in
  let initprot := native_prot (initprot seg) in
  let useprot := if nz (initprot .& PROT_EXEC) then maxprot else initprot in
  if is_pagezero seg then lret s
  else if vmsize seg =? 0 then lret s
  else
    let addr := u64 (vmaddr seg + slide) in
    let! _ :=
      (if filesize seg <? vmsize seg then
         let! rv := mmap (VMmap addr (vmsize seg) useprot (MAP_ANONYMOUS .| MAP_PRIVATE .| MAP_FIXED) None) in
         match rv with Some _ => lret tt | None => lexit SegmentMapFailed end
       else lret tt) in
    let! header :=
      (if 0 <? filesize seg then
         let map_size := if filesize seg <? vmsize seg then filesize seg else vmsize seg in
         let! rv := mmap (VMmap addr map_size useprot (MAP_FIXED .| MAP_PRIVATE)
                                (Some (u64 (fileoff seg + fat_offset)))) in
         let! _ :=
           match rv with
           | None => if (vmaddr seg =? 0) && (useprot =? 0) then lret tt else lexit SegmentMapFailed
           | Some _ => lret tt
           end in
         lret (if fileoff seg =? 0 then addr else mappedHeader s)
       else lret (mappedHeader s)) in
    let lr := ps_lr s in
    let seg_top := u64 (vmaddr seg + slide + vmsize seg) in
    let lr := if vm_addr_max lr <? seg_top then set_vm_addr_max lr seg_top else lr in
    let lr := note_all_image_info slide seg lr in
    lret (mk_pass lr (ps_gc s) (entryPoint s) header (needs_fixup s)).

Definition load_command_step (executable : bool) (slide fat_offset : Z) (lc : load_command) (s : pass) : ld pass :=
  match body lc with
  | LC_SEGMENT_64 seg => map_segment slide fat_offset seg s
  | LC_UNIXTHREAD pc =>
      lret (mk_pass (ps_lr s) (ps_gc s) (u64 (pc + slide)) (mappedHeader s) (needs_fixup s))
  | LC_MAIN entryoff stacksize =>
      let lr := ps_lr s in
      let stack := if stack_size lr <? stacksize then stacksize else stack_size lr in
      if negb (mappedHeader s =? 0) then
        lret (mk_pass (set_main lr stack) (ps_gc s) (u64 (mappedHeader s + entryoff)) (mappedHeader s)
                      (needs_fixup s))
      else
        lret (mk_pass (set_main lr stacksize) (ps_gc s) entryoff (mappedHeader s) true)
  | LC_UUID u => lret (if executable then with_lr s (set_uuid (ps_lr s) u) else s)
  | LC_BUILD_VERSION platform =>
      lret (if executable
            then mk_pass (ps_lr s) (machgate_set_guest_platform (i32 platform) (ps_gc s)) (entryPoint s)
                         (mappedHeader s) (needs_fixup s)
            else s)
  | LC_LOAD_DYLINKER | LC_OTHER _ => lret s
  end.

Fixpoint load_commands (executable : bool) (slide fat_offset : Z) (l : list load_command) (s : pass) : ld pass :=
  match l with
  | [] => lret s
  | lc :: l =>
      let! s := load_command_step executable slide fat_offset lc s in
      load_commands executable slide fat_offset l s
  end.

(** The reservation: base address, slide and the pool at its tail. *)
Definition reserve (cmds : list load_command) (lr : load_results) : ld (load_results * Z) :=
  let '(base, mmapSize) := measure cmds in
  let mmapAligned := align_page mmapSize in
  let totalSize := u64 (mmapAligned + MACHGATE_POOL_PADDING) in
  let! r := mmap (VMmap base totalSize PROT_NONE (MAP_ANONYMOUS .| MAP_PRIVATE) None) in
  match r with
  | None => lexit ReserveFailed
  | Some range =>
      let pool := u64 (range + mmapAligned) in
      let! _ := vm_note (VMprotect pool MACHGATE_POOL_PADDING (PROT_READ .| PROT_WRITE .| PROT_EXEC)) in
      let top := u64 (range + totalSize) in
      let '(vmax, base') := if vm_addr_max lr <? top then (top, top) else (vm_addr_max lr, lr_base lr) in
      lret (mk_lr (mh lr) (entry_point lr) (stack_size lr) (dyld_all_image_location lr)
                  (dyld_all_image_size lr) (uuid lr) vmax base' (slide lr) (lc_main lr)
                  pool MACHGATE_POOL_PADDING 0,
            u64 (range - base))
  end.

(** [mach_header]: what reading the header at [fat_offset] gave. *)
Definition load64 (header : option mach_header_64) (fat_offset : Z) (expect_dylinker : bool)
    (lr : load_results) (gc : guest_cpus) : ld (load_results * guest_cpus) :=
  let! _ := (if expect_dylinker then lret tt else setup_space) in
  match header with
  | None => lexit CannotReadHeader
  | Some header =>
      if negb (filetype header =? (if expect_dylinker then MH_DYLINKER else MH_EXECUTE))
      then lexit UnexpectedFileType
      else
        let headers_size := PAGE_ROUNDUP (32 + sizeofcmds header) in
        let! tmp_map_base := mmap (VMmap 0 headers_size PROT_READ MAP_PRIVATE (Some fat_offset)) in
        match tmp_map_base with
        | None => lexit HeaderMapFailed
        | Some tmp_map_base =>
            if negb (nz (mh_flags header .& MH_PIE)) && negb (filetype header =? MH_DYLINKER)
            then lexit NonPIE
            else
              let! r := reserve (commands header) lr in
              let '(lr, slide) := r in
              let executable := filetype header =? MH_EXECUTE in
              let! s := load_commands executable slide fat_offset
                          (visited (sizeofcmds header) 0 (commands header))
                          (mk_pass lr gc 0 0 false) in
              let lr := ps_lr s in
              let '(new_mh, new_slide) :=
                if executable then (mappedHeader s, slide) else (mh lr, Macho.slide lr) in
              let entry := if needs_fixup s && negb (mappedHeader s =? 0)
                           then u64 (mappedHeader s + entryPoint s) else entryPoint s in
              let entry := if negb (entry =? 0) && (entry_point lr =? 0) then entry else entry_point lr in
              let! _ := vm_note (VMunmap tmp_map_base headers_size) in
              lret (mk_lr new_mh entry (stack_size lr) (dyld_all_image_location lr) (dyld_all_image_size lr)
                          (uuid lr) (vm_addr_max lr) (lr_base lr) new_slide (lc_main lr)
                          (pool_base lr) (pool_size lr) (pool_used lr), ps_gc s)
        end
  end.
End loader.

(** * The loader: where segments and the island pool end up *)

(** ** Traces *)

(** Every call [m] makes satisfies [P]. *)
Definition calls {E A} (P : vmcall -> Prop) (m : ldE E A) : Prop :=
  forall tr, exists ext, snd (m tr) = tr ++ ext /\ Forall P ext.

Section calls.
Context (P : vmcall -> Prop).

Lemma calls_ret {E A} (a : A) : calls P (lret a : ldE E A).
Proof. intros tr. exists []. by rewrite app_nil_r. Qed.
Lemma calls_exit {E A} e : calls P (lexit e : ldE E A).
Proof. intros tr. exists []. by rewrite app_nil_r. Qed.
Lemma calls_bind {E A B} (m : ldE E A) (f : A -> ldE E B) :
  calls P m -> (forall a, calls P (f a)) -> calls P (lbind m f).
Proof.
  intros Hm Hf tr. unfold lbind. destruct (Hm tr) as (e1&E1&F1).
  destruct (m tr) as [[e|a] tr']; cbn in E1; subst tr'; [by exists e1|].
  destruct (Hf a (tr ++ e1)) as (e2&E2&F2). exists (e1 ++ e2).
  rewrite E2, app_assoc. split; [done|]. by apply Forall_app.
Qed.
Lemma calls_mmap {E} k c : P c -> calls P (mmap k c : ldE E _).
Proof. intros H tr. exists [c]. split; [done|]. by constructor. Qed.
Lemma calls_note {E} c : P c -> calls P (vm_note c : ldE E _).
Proof. intros H tr. exists [c]. split; [done|]. by constructor. Qed.
End calls.

(** A mapping of a segment: it overrides what is in its place, inside [lo, hi). *)
Definition segment_call (lo hi : Z) (c : vmcall) : Prop :=
  match c with
  | VMmap addr len _ flags _ => nz (flags .& MAP_FIXED) = true /\ lo <= addr /\ addr + len <= hi
  | _ => False
  end.

(** ** The measured range *)

Definition loadable (seg : segment_command_64) : bool := negb (is_pagezero seg) && negb (vmsize seg =? 0).

Fixpoint loadable_segments (l : list load_command) : list segment_command_64 :=
  match l with
  | [] => []
  | lc :: l => match body lc with
               | LC_SEGMENT_64 seg => if loadable seg then seg :: loadable_segments l else loadable_segments l
               | _ => loadable_segments l
               end
  end.

Lemma loadable_in l lc seg :
  In lc l -> body lc = LC_SEGMENT_64 seg -> loadable seg = true -> In seg (loadable_segments l).
Proof.
  induction l as [|c l IH]; cbn; [done|]. intros [->|Hin] Hb Hl.
  - rewrite Hb, Hl. by left.
  - destruct (body c); auto. destruct (loadable seg0); auto. right. auto.
Qed.

Lemma visited_loadable sz p l seg :
  In seg (loadable_segments (visited sz p l)) -> In seg (loadable_segments l).
Proof.
  revert p. induction l as [|c l IH]; intros p; cbn; [done|]. destruct (p <? sz); cbn; [|done].
  destruct (body c) as [sg| | | | | |]; try apply IH. destruct (loadable sg); [|apply IH].
  intros [->|H]; [by left|right; by eapply IH].
Qed.

(** Segments in the order linkers write them: the first has the lowest address. *)
Definition seg_span_ok (base : Z) (seg : segment_command_64) : Prop :=
  base <= vmaddr seg /\ 0 <= vmsize seg /\ vmaddr seg + vmsize seg - base <= 2 ^ 46.

Lemma measure_from base M l :
  base <> NO_BASE -> 0 <= M <= 2 ^ 46 -> Forall (seg_span_ok base) (loadable_segments l) ->
  exists M', fold_left measure_command l (base, M) = (base, M') /\ M <= M' <= 2 ^ 46 /\
    Forall (fun s => vmaddr s + vmsize s - base <= M') (loadable_segments l).
Proof.
  intros Hb. revert M. induction l as [|lc l IH]; intros M HM Hf; cbn -[measure_command].
  - exists M. split; [done|]. split; [lia|constructor].
  - assert (Hskip : measure_command (base, M) lc = (base, M) ->
      Forall (seg_span_ok base) (loadable_segments l) -> exists M',
      fold_left measure_command l (measure_command (base, M) lc) = (base, M') /\ M <= M' <= 2 ^ 46 /\
      Forall (fun s => vmaddr s + vmsize s - base <= M') (loadable_segments l)).
    { intros -> Hf'. by apply IH. }
    cbn in Hf. destruct (body lc) as [seg| | | | | |] eqn:Eb; try (apply Hskip; [by cbn; rewrite Eb|done]).
    destruct (loadable seg) eqn:El.
    + apply Forall_cons in Hf as [(H1&H2&H3) Hf].
      assert (E : measure_command (base, M) lc = (base, Z.max M (vmaddr seg + vmsize seg - base))).
      { unfold measure_command. rewrite Eb. unfold loadable in El. rewrite El. destruct (Z.eqb_spec base NO_BASE); [done|].
        rewrite u64_small by lia. f_equal. destruct (Z.ltb_spec M (vmaddr seg + vmsize seg - base)); lia. }
      rewrite E. destruct (IH (Z.max M (vmaddr seg + vmsize seg - base)) ltac:(lia) Hf) as (M'&E'&Hle&Hall).
      exists M'. split; [done|]. split; [lia|]. constructor; [lia|done].
    + apply Hskip; [cbn; rewrite Eb; unfold loadable in El; by rewrite El|done].
Qed.

Lemma measure_spec l s0 rest :
  loadable_segments l = s0 :: rest -> vmaddr s0 <> NO_BASE -> 
  Forall (seg_span_ok (vmaddr s0)) (loadable_segments l) ->
  exists M, measure l = (vmaddr s0, M) /\ 0 <= M <= 2 ^ 46 /\
    Forall (fun s => vmaddr s + vmsize s - vmaddr s0 <= M) (loadable_segments l).
Proof.
  unfold measure. induction l as [|lc l IH]; cbn -[measure_command]; [done|]. intros Hl Hne Hf.
  destruct (body lc) as [seg| | | | | |] eqn:Eb;
    try (replace (measure_command (NO_BASE, 0) lc) with (NO_BASE, 0) by (cbn; by rewrite Eb); by apply IH).
  destruct (loadable seg) eqn:El.
  - injection Hl as -> <-. apply Forall_cons in Hf as [(H1&H2&H3) Hf].
    assert (E : measure_command (NO_BASE, 0) lc = (vmaddr s0, vmsize s0)).
    { unfold measure_command. rewrite Eb. unfold loadable in El. rewrite El, Z.eqb_refl.
      replace (vmaddr s0 + vmsize s0 - vmaddr s0) with (vmsize s0) by lia. rewrite u64_small by lia.
      f_equal. destruct (Z.ltb_spec 0 (vmsize s0)); lia. }
    rewrite E. destruct (measure_from (vmaddr s0) (vmsize s0) l Hne ltac:(lia) Hf) as (M'&E'&Hle&Hall).
    exists M'. split; [done|]. split; [lia|]. constructor; [lia|done].
  - replace (measure_command (NO_BASE, 0) lc) with (NO_BASE, 0)
      by (cbn; rewrite Eb; unfold loadable in El; by rewrite El). by apply IH.
Qed.

(** ** The segments *)

Section image.
Context (kernel_mmap : list vmcall -> vmcall -> option Z).

Lemma map_segment_calls lo hi slide fo seg s :
  (loadable seg = true -> lo <= u64 (vmaddr seg + slide) /\ u64 (vmaddr seg + slide) + vmsize seg <= hi) ->
  calls (segment_call lo hi) (map_segment kernel_mmap slide fo seg s).
Proof.
  intros Hin. unfold map_segment. unfold loadable in Hin.
  destruct (is_pagezero seg); [apply calls_ret|]. destruct (vmsize seg =? 0); [apply calls_ret|].
  destruct (Hin eq_refl) as [Hlo Hhi].
  apply calls_bind; [|intros _; apply calls_bind; [|intros h; apply calls_ret]].
  - destruct (_ <? _); [|apply calls_ret]. apply calls_bind; [apply calls_mmap; split; [done|lia]|].
    intros [r|]; [apply calls_ret|apply calls_exit].
  - destruct (0 <? filesize seg); [|apply calls_ret]. apply calls_bind.
    + apply calls_mmap. split; [done|]. destruct (Z.ltb_spec (filesize seg) (vmsize seg)); lia.
    + intros rv. apply calls_bind; [|intros []; apply calls_ret].
      destruct rv; [apply calls_ret|].
      match goal with |- calls _ (if ?b then _ else _) => destruct b end; [apply calls_ret|apply calls_exit].
Qed.

Lemma load_commands_calls lo hi ex slide fo l s :
  (forall seg, In seg (loadable_segments l) ->
     lo <= u64 (vmaddr seg + slide) /\ u64 (vmaddr seg + slide) + vmsize seg <= hi) ->
  calls (segment_call lo hi) (load_commands kernel_mmap ex slide fo l s).
Proof.
  revert s. induction l as [|lc l IH]; intros s H; cbn; [apply calls_ret|].
  apply calls_bind.
  - unfold load_command_step. destruct (body lc) as [seg| | | | | |] eqn:Eb; try apply calls_ret.
    + apply map_segment_calls. intros Hl. apply H. cbn. rewrite Eb, Hl. by left.
    + destruct (negb _); apply calls_ret.
  - intros s'. apply IH. intros seg Hseg. apply H. cbn. destruct (body lc); auto.
    destruct (loadable seg0); auto. by right.
Qed.

(** What no command of the second pass changes. *)
Lemma load_commands_pool ex slide fo l s tr s' tr' :
  load_commands kernel_mmap ex slide fo l s tr = (inr s', tr') ->
  pool_base (ps_lr s') = pool_base (ps_lr s) /\ pool_size (ps_lr s') = pool_size (ps_lr s) /\
  pool_used (ps_lr s') = pool_used (ps_lr s).
Proof.
  revert s tr. induction l as [|lc l IH]; intros s tr; cbn.
  - intros [= <- _]. done.
  - unfold lbind at 1. destruct (load_command_step _ _ _ _ lc s tr) as [[e|s1] tr1] eqn:E; [done|].
    intros H. apply IH in H as (->&->&->). revert E. unfold load_command_step.
    destruct (body lc) as [seg| | | | | |]; try (intros [= <- _]; done).
    + unfold map_segment, lbind, lret, mmap, lexit, note_all_image_info. intros H.
      repeat (case_match; try discriminate H; cbn in H); simplify_eq/=; done.
    + unfold lret. destruct (negb _); intros [= <- _]; done.
    + intros [= <- _]. by destruct ex.
    + intros [= <- _]. by destruct ex.
Qed.
End image.

(** ** The image *)

(** A linked image: some segment is loadable and the first one is the lowest. *)
Definition image_ok (h : mach_header_64) : Prop :=
  match loadable_segments (commands h) with
  | [] => False
  | s0 :: _ => 0 <= vmaddr s0 < 2 ^ 62 /\ Forall (seg_span_ok (vmaddr s0)) (loadable_segments (commands h))
  end.

(** Documented behaviour of mmap: page-aligned, user space, room for the length. *)
Definition mmap_sane (kernel_mmap : list vmcall -> vmcall -> option Z) : Prop :=
  forall tr addr len prot flags file r, kernel_mmap tr (VMmap addr len prot flags file) = Some r ->
    0 < r /\ r mod 4096 = 0 /\ r + len < 2 ^ 48.

Lemma align_page_spec k x :
  12 <= k <= 16 -> 0 <= x <= 2 ^ 46 ->
  exists n, align_page (2 ^ k) x = 4096 * n /\ x <= align_page (2 ^ k) x < x + 2 ^ k.
Proof.
  intros Hk Hx. pose proof (Z.pow_le_mono_r 2 k 16 ltac:(lia) ltac:(lia)).
  unfold align_page. rewrite u64_small by lia.
  replace (2 ^ k - 1) with (Z.ones k) by (rewrite Z.ones_equiv; lia).
  rewrite land_lnot_ones by lia.
  pose proof (Z.div_mod (x + 2 ^ k - 1) (2 ^ k) ltac:(lia)).
  pose proof (Z.mod_pos_bound (x + 2 ^ k - 1) (2 ^ k) ltac:(lia)).
  exists (2 ^ (k - 12) * ((x + 2 ^ k - 1) / 2 ^ k)). split; [|lia].
  replace k with (12 + (k - 12)) at 1 by lia. rewrite Z.pow_add_r by lia. lia.
Qed.

Section reserve.
Context (kernel_mmap : list vmcall -> vmcall -> option Z) (k : Z).
Context (Hk : 12 <= k <= 16) (Hsane : mmap_sane kernel_mmap).

Lemma reserve_spec h lr tr lr1 slide tr1 :
  image_ok h ->
  reserve kernel_mmap (2 ^ k) (commands h) lr tr = (inr (lr1, slide), tr1) ->
  exists base M range, let aligned := align_page (2 ^ k) M in
    measure (commands h) = (base, M) /\
    tr1 = tr ++ [VMmap base (aligned + MACHGATE_POOL_PADDING) PROT_NONE (MAP_ANONYMOUS .| MAP_PRIVATE) None;
                 VMprotect (range + aligned) MACHGATE_POOL_PADDING (PROT_READ .| PROT_WRITE .| PROT_EXEC)] /\
    kernel_mmap tr (VMmap base (aligned + MACHGATE_POOL_PADDING) PROT_NONE (MAP_ANONYMOUS .| MAP_PRIVATE) None) = Some range /\
    pool_base lr1 = range + aligned /\ pool_size lr1 = MACHGATE_POOL_PADDING /\ pool_used lr1 = 0 /\
    pool_ok lr1 /\
    (forall seg, In seg (loadable_segments (commands h)) ->
       range <= u64 (vmaddr seg + slide) /\ u64 (vmaddr seg + slide) + vmsize seg <= range + aligned).
Proof.
  unfold image_ok. destruct (loadable_segments (commands h)) as [|s0 rest] eqn:El; [done|].
  intros [Hb Hf]. rewrite <- El in Hf.
  destruct (measure_spec _ _ _ El ltac:(unfold NO_BASE; lia) Hf) as (M&Em&HM&Hall).
  unfold reserve. rewrite Em. destruct (align_page_spec k M Hk HM) as (n&En&Ha).
  pose proof (Z.pow_le_mono_r 2 k 16 ltac:(lia) ltac:(lia)) as Hpow.
  remember (align_page (2 ^ k) M) as aligned eqn:Eal.
  rewrite (u64_small (aligned + MACHGATE_POOL_PADDING)) by (unfold MACHGATE_POOL_PADDING; lia).
  unfold lbind at 1, mmap.
  destruct (kernel_mmap tr _) as [range|] eqn:Ek; [|done]. pose proof (Hsane _ _ _ _ _ _ _ Ek) as (Hr0&Hr4&Hrl).
  assert (Hpad : MACHGATE_POOL_PADDING = 1024 * 4096) by done.
  rewrite (u64_small (range + aligned)) by lia.
  unfold lbind, vm_note, lret. cbn -[u64 Z.mul].
  intros H. exists (vmaddr s0), M, range. cbv zeta. rewrite <- Eal. split; [done|].
  assert (Hlr : pool_base lr1 = range + aligned /\ pool_size lr1 = MACHGATE_POOL_PADDING /\ pool_used lr1 = 0 /\
    slide = u64 (range - vmaddr s0)) by (destruct (_ <? _); injection H as <- <- _; done).
  destruct Hlr as (Ep&Es&Eu&Esl). split.
  { destruct (_ <? _); injection H as _ _ <-; by rewrite <- app_assoc. }
  split; [done|]. split; [done|]. split; [done|]. split; [done|]. split.
  { split; rewrite ?Ep, ?Es, ?Eu; [|lia|lia]. split; [lia|]. rewrite En, Z.mul_comm, Z.mod_add by lia. done. }
  intros seg Hseg. rewrite List.Forall_forall in Hf. rewrite List.Forall_forall in Hall.
  change (In seg (s0 :: rest)) in Hseg. rewrite <- El in Hseg. specialize (Hf _ Hseg) as (H1&H2&H3). specialize (Hall _ Hseg). cbn in Hall.
  assert (Eu64 : u64 (vmaddr seg + slide) = range + (vmaddr seg - vmaddr s0)).
  { rewrite Esl. unfold u64. rewrite Z.add_mod_idemp_r by lia.
    rewrite Z.mod_small by lia. lia. }
  rewrite Eu64. lia.
Qed.
End reserve.

(** The size of the main stack. *)
Definition stack_bytes (limit : option Z) : Z :=
  match limit with Some l => Z.min l (4096 * 4096) | None => 4096 * 4096 end.

(** C32. The reservation is what makes MAP_FIXED safe.  When loading a linked
    executable succeeds, these are the calls that change the address space, in
    this order: the main stack below the commpage; the header of the file,
    where the kernel likes; the reservation, where the kernel likes as well;
    the protection of the last 4 MB of the range the kernel answered, the
    island pool; the segments, each of them over a part of that range below the
    pool; the unmapping of the header, at the address and with the length it
    was granted.  Nothing else is mapped over, protected or unmapped, and the
    pool, page-aligned and empty, starts where the segments' part ends. *)
Theorem load64_confined kernel_mmap k top limit h fo lr gc lr' gc' tr :
  12 <= k <= 16 -> mmap_sane kernel_mmap -> image_ok h ->
  load64 kernel_mmap (2 ^ k) top limit (Some h) fo false lr gc [] = (inr (lr', gc'), tr) ->
  exists aligned range tmp segs,
    let stack := VMmap (u64 (top - stack_bytes limit)) (stack_bytes limit) (PROT_READ .| PROT_WRITE)
                       (MAP_PRIVATE .| MAP_ANONYMOUS .| MAP_FIXED .| MAP_GROWSDOWN) None in
    let headers_size := PAGE_ROUNDUP (32 + sizeofcmds h) in
    let headers := VMmap 0 headers_size PROT_READ MAP_PRIVATE (Some fo) in
    let reservation := VMmap (fst (measure (commands h))) (aligned + MACHGATE_POOL_PADDING) PROT_NONE
                             (MAP_ANONYMOUS .| MAP_PRIVATE) None in
    let pool := VMprotect (range + aligned) MACHGATE_POOL_PADDING (PROT_READ .| PROT_WRITE .| PROT_EXEC) in
    tr = stack :: headers :: reservation :: pool :: segs ++ [VMunmap tmp headers_size] /\
    kernel_mmap [stack] headers = Some tmp /\ kernel_mmap [stack; headers] reservation = Some range /\
    Forall (segment_call range (range + aligned)) segs /\
    pool_base lr' = range + aligned /\ pool_size lr' = MACHGATE_POOL_PADDING /\ pool_used lr' = 0 /\
    pool_ok lr'.
Proof.
  intros Hk Hsane Himg. unfold load64, setup_space. unfold lbind at 1 2, mmap at 1.
  replace (match limit with Some l => _ | None => _ end) with (stack_bytes limit).
  2: { unfold stack_bytes, PAGE_SIZE. destruct limit as [l|]; [|done]. destruct (Z.ltb_spec l (4096 * 4096)); lia. }
  set (stack := VMmap (u64 (top - _)) _ _ _ _). set (headers_size := PAGE_ROUNDUP _). set (headers := VMmap 0 headers_size _ _ _).
  destruct (kernel_mmap [] _) as [st|]; [|done]. cbn [app lret].
  destruct (negb _); [done|]. unfold lbind at 1, mmap at 1.
  destruct (kernel_mmap [_] headers) as [tmp|] eqn:Eh; [|done]. destruct (_ && _); [done|].
  unfold lbind at 1. cbn [app]. destruct (reserve _ _ _ _ _) as [[e|[lr1 sl]] tr1] eqn:Er; [done|].
  apply (reserve_spec kernel_mmap k Hk Hsane h) in Er as (base&M&range&Em&->&Ek&Ep&Es&Eu&Hok&Hin); [|done].
  set (aligned := align_page (2 ^ k) M) in *. unfold lbind at 1.
  pose proof (load_commands_calls kernel_mmap range (range + aligned) (filetype h =? MH_EXECUTE) sl fo
    (visited (sizeofcmds h) 0 (commands h)) (mk_pass lr1 gc 0 0 false)) as Hc.
  specialize (Hc ltac:(intros seg Hs; apply Hin; revert Hs; apply visited_loadable)).
  match goal with |- context [load_commands _ _ _ _ _ _ ?t] => destruct (Hc t) as (segs&Ee&Fe) end.
  destruct (load_commands _ _ _ _ _ _ _) as [[e|s2] tr2] eqn:E2; [done|]. cbn in Ee. subst tr2.
  apply load_commands_pool in E2 as (P1&P2&P3). cbn [ps_lr] in P1, P2, P3.
  destruct (filetype h =? MH_EXECUTE); unfold lbind, vm_note, lret; intros [= <- _ <-];
    exists aligned, range, tmp, segs; cbv zeta; rewrite Em; cbn [fst pool_base pool_size pool_used]; rewrite P1, P2, P3;
    (split; [reflexivity|]); (split; [first [exact Eh|done]|]); (split; [exact Ek|]); (split; [exact Fe|]);
    repeat split; cbn; rewrite ?P1, ?P2, ?P3; try apply Hok; done.
Qed.

(** ** A concrete image *)

Definition sample_kernel_mmap (_ : list vmcall) (c : vmcall) : option Z :=
  match c with VMmap _ len _ _ _ => if (0 <=? len) && (len <? 2 ^ 40) then Some 0x10000000 else None | _ => None end.

Definition sample_image : mach_header_64 :=
  mk_mh MH_EXECUTE MH_PIE 1000
    [ mk_lc 72 (LC_SEGMENT_64 (mk_seg "__PAGEZERO" 0 0x100000000 0 0 0 0 []));
      mk_lc 152 (LC_SEGMENT_64 (mk_seg "__TEXT" 0x100000000 0x4000 0 0x4000 5 5 []));
      mk_lc 152 (LC_SEGMENT_64 (mk_seg "__DATA" 0x100004000 0x2000 0x4000 0x1000 3 3 []));
      mk_lc 24 (LC_MAIN 0x500 0) ].

Definition empty_results : load_results := mk_lr 0 0 0 0 0 [] 0 0 0 false 0 0 0.

Definition sample_load : (load_error + load_results * guest_cpus) * list vmcall :=
  load64 sample_kernel_mmap (2 ^ 14) 0x7000000000 None (Some sample_image) 0 false empty_results
    guest_cpus_initial [].

Lemma load64_confined_witness :
  exists lr' gc' tr, sample_load = (inr (lr', gc'), tr) /\ pool_ok lr' /\
    entry_point lr' = 0x10000500 /\ pool_base lr' = 0x10008000.
Proof.
  destruct sample_load as [[e|[lr' gc']] tr] eqn:E; [vm_compute in E; discriminate E|].
  exists lr', gc', tr. split; [reflexivity|].
  destruct (load64_confined sample_kernel_mmap 14 0x7000000000 None sample_image 0 empty_results guest_cpus_initial
    lr' gc' tr) as (aligned&range&tmp&segs&_&_&_&_&_&_&_&Hok).
  - lia.
  - intros tr0 addr len prot flags file r. cbn.
    destruct (Z.leb_spec 0 len), (Z.ltb_spec len (2 ^ 40)); cbn; try discriminate.
    intros [= <-]. split; [lia|]. split; [reflexivity|lia].
  - split; [cbn; lia|]. repeat constructor; cbn; lia.
  - exact E.
  - split; [exact Hok|]. vm_compute in E. injection E as <- _ _. split; reflexivity.
Defined.
