(* ===== verification/GateIsland.v ===== *)
(** * Syscall gate: the island (src/syscall/syscall_gate.c)

    A Darwin [svc #0x80] is replaced by a branch to an island that builds a
    [struct syscall_gate_state] on the guest stack, calls
    [syscall_gate_dispatch] on it and resumes after the [svc] with the
    registers and flags the dispatcher left in the structure. *)

From S2P Require Import Prelude Arm64 Arm64Enc IsaIslandRun IsaIslandMain.

(** ** Encoders *)

Module Gate.

Definition enc_stp_sp (rt rt2 offset : Z) : Z :=
  0xA9000000 .| ((u32 offset / 8) .<< 15) .| (rt2 .<< 10) .| (31 .<< 5) .| rt.
Definition enc_ldp_sp (rt rt2 offset : Z) : Z :=
  0xA9400000 .| ((u32 offset / 8) .<< 15) .| (rt2 .<< 10) .| (31 .<< 5) .| rt.
Definition enc_str_sp (rt offset : Z) : Z :=
  0xF9000000 .| ((u32 offset / 8) .<< 10) .| (31 .<< 5) .| rt.
Definition enc_ldr_sp (rt offset : Z) : Z :=
  0xF9400000 .| ((u32 offset / 8) .<< 10) .| (31 .<< 5) .| rt.
Definition enc_sub_sp (imm : Z) : Z := 0xD10003FF .| (imm .<< 10).
Definition enc_add_sp (imm : Z) : Z := 0x910003FF .| (imm .<< 10).
Definition enc_mrs_nzcv (rt : Z) : Z := 0xD53B4200 .| rt.
Definition enc_msr_nzcv (rt : Z) : Z := 0xD51B4200 .| rt.
Definition enc_add_x0_sp_0 : Z := 0x910003E0.
Definition enc_ldr_literal (rt instr literal : Z) : Z :=
  let word_offset := ptrdiff32 literal instr in
  0x58000000 .| ((u32 word_offset .& 0x7FFFF) .<< 5) .| rt.
Definition enc_blr (rn : Z) : Z := 0xD63F0000 .| (rn .<< 5).
Definition enc_br (rn : Z) : Z := 0xD61F0000 .| (rn .<< 5).

Definition DARWIN_SVC_0X80 : Z := 0xD4001001.
Definition SYSCALL_GATE_POOL_SIZE : Z := 256 * 1024.
Definition SYSCALL_GATE_ISLAND_WORDS : Z := 96.
Definition SYSCALL_GATE_CARRY : Z := 0x20000000.
Definition SYSCALL_GATE_MAX_POOLS : Z := 256.
Definition SYSCALL_GATE_SEARCH_STEP : Z := 1024 * 1024.

(** ** The state structure *)

(** [struct syscall_gate_state]; [gs_x] is the array [x[19]]. *)
Record syscall_gate_state := mk_gs { gs_x : Z -> Z; gs_x30 : Z; gs_nzcv : Z; gs_pc : Z }.

(** Its layout: 22 eight-byte fields. *)
Definition gate_slot (g : syscall_gate_state) (k : Z) : Z :=
  if k <? 19 then gs_x g k else if k =? 19 then gs_x30 g else if k =? 20 then gs_nzcv g else gs_pc g.

Definition gate_state_at (m : bytemem) (a : Z) (g : syscall_gate_state) : Prop :=
  forall k, 0 <= k < 22 -> load 8 (a + 8 * k) m = gate_slot g k.

(** ** The island *)

(** The two words of a 64-bit literal written by [memcpy]. *)
Definition literal_words (v : Z) : list Z := [v mod 2 ^ 32; v / 2 ^ 32].

Definition emit_island (island original dispatcher : Z) : list Z :=
  let dispatcher_literal := island + 4 * (SYSCALL_GATE_ISLAND_WORDS - 4) in
  let resume_literal := island + 4 * (SYSCALL_GATE_ISLAND_WORDS - 2) in
  let resume_pc := original + 4 in
  let w :=
    [ enc_sub_sp 192;
      enc_stp_sp 0 1 0; enc_stp_sp 2 3 16; enc_stp_sp 4 5 32; enc_stp_sp 6 7 48;
      enc_stp_sp 8 9 64; enc_stp_sp 10 11 80; enc_stp_sp 12 13 96; enc_stp_sp 14 15 112;
      enc_stp_sp 16 17 128; enc_str_sp 18 144; enc_str_sp 30 152;
      enc_mrs_nzcv 16; enc_str_sp 16 160 ] in
  let w := w ++ [enc_ldr_literal 16 (island + 4 * Z.of_nat (length w)) resume_literal] in
  let w := w ++ [enc_str_sp 16 168; enc_add_x0_sp_0] in
  let w := w ++ [enc_ldr_literal 16 (island + 4 * Z.of_nat (length w)) dispatcher_literal] in
  let w := w ++
    [ enc_blr 16;
      enc_ldp_sp 1 2 8; enc_ldp_sp 3 4 24; enc_ldp_sp 5 6 40; enc_ldp_sp 7 8 56;
      enc_ldp_sp 9 10 72; enc_ldp_sp 11 12 88; enc_ldp_sp 13 14 104;
      enc_ldr_sp 15 120; enc_ldr_sp 17 136; enc_ldr_sp 18 144; enc_ldr_sp 30 152;
      enc_ldr_sp 16 160; enc_msr_nzcv 16; enc_ldr_sp 0 0; enc_ldr_sp 16 168;
      enc_add_sp 192; enc_br 16 ] in
  (* while (p < dispatcher_literal) *p++ = ENC_NOP *)
  w ++ repeat ENC_NOP (Z.to_nat (SYSCALL_GATE_ISLAND_WORDS - 4) - length w)
    ++ literal_words dispatcher ++ literal_words resume_pc.

Lemma emit_island_length island original dispatcher :
  length (emit_island island original dispatcher) = 96%nat.
Proof. reflexivity. Qed.

(** ** Frames of eight-byte slots *)

(** [vs] stored at [base], [base + 8], ..., in this order. *)
Definition store_slots (base : Z) (vs : list Z) (m : bytemem) : bytemem :=
  foldr (fun '(k, v) m => store 8 (base + 8 * Z.of_nat k) v m) m
        (rev (imap (fun k v => (k, v)) vs)).

Lemma store_slots_snoc base vs v m :
  store_slots base (vs ++ [v]) m = store 8 (base + 8 * Z.of_nat (length vs)) v (store_slots base vs m).
Proof.
  unfold store_slots. rewrite imap_app, rev_app_distr. cbn. by rewrite Nat.add_0_r.
Qed.

Lemma store_slots_out base vs m x :
  ~ base <= x < base + 8 * Z.of_nat (length vs) -> store_slots base vs m x = m x.
Proof.
  induction vs as [|v vs IH] using rev_ind; intros Hx; [done|]. rewrite length_app in Hx. simpl in Hx.
  rewrite store_slots_snoc, store_out by lia. apply IH. lia.
Qed.

Lemma load_store_slots base vs m k v :
  vs !! k = Some v -> 0 <= v < 2 ^ 64 -> load 8 (base + 8 * Z.of_nat k) (store_slots base vs m) = v.
Proof.
  induction vs as [|v' vs IH] using rev_ind; intros Hk Hv; [done|]. rewrite store_slots_snoc.
  apply lookup_app_Some in Hk as [Hk|[Hle Hk]].
  - pose proof (lookup_lt_Some _ _ _ Hk). rewrite load_store_disj by lia. by apply IH.
  - apply list_lookup_singleton_Some in Hk as [Hz ->].
    replace k with (length vs) by lia. by apply load8_store8.
Qed.

(** ** Saving registers *)

Section save.
Context (m0 : bytemem) (base : Z) (Hbase : 0 <= base /\ base + 192 < 2 ^ 64).

(** The guest state while the frame at [base] is filled with [vs]. *)
Record saving (x : Z -> Z) (nzcv : Z) (v : Z -> Z) (vs : list Z) (st : cpu) : Prop := {
  sv_x : forall r, cpu_x st r = x r;
  sv_sp : cpu_sp st = base;
  sv_nzcv : cpu_nzcv st = nzcv;
  sv_v : cpu_v st = v;
  sv_mem : cpu_mem st = store_slots base vs m0;
}.

Lemma save_stp x f v vs st r1 r2 imm :
  saving x f v vs st -> r1 <> 31 -> r2 <> 31 -> imm = 8 * Z.of_nat (length vs) -> imm + 16 <= 192 ->
  saving x f v (vs ++ [x r1; x r2]) (exec (STP r1 r2 31 imm) st).
Proof.
  intros [Hx Hsp Hf Hv Hm] H1 H2 -> Hle.
  split; cbn -[u64 store rx store_slots Z.mul]; auto. rewrite !rx_ne, !Hx, Hsp, Hm by done.
  replace (vs ++ [x r1; x r2]) with ((vs ++ [x r1]) ++ [x r2]) by (by rewrite <- app_assoc).
  rewrite !store_slots_snoc, length_app, u64_small by lia. cbn [length].
  by replace (base + 8 * Z.of_nat (length vs + 1)) with (base + 8 * Z.of_nat (length vs) + 8) by lia.
Qed.

Lemma save_str x f v vs st r imm :
  saving x f v vs st -> r <> 31 -> imm = 8 * Z.of_nat (length vs) -> imm + 8 <= 192 ->
  saving x f v (vs ++ [x r]) (exec (STRimm r 31 imm) st).
Proof.
  intros [Hx Hsp Hf Hv Hm] H1 -> Hle.
  split; cbn -[u64 store rx store_slots Z.mul]; auto. rewrite !rx_ne, !Hx, Hm by done.
  rewrite !store_slots_snoc. change (rbase st 31) with (cpu_sp st). by rewrite Hsp, u64_small by lia.
Qed.

Lemma save_mrs x f v vs st r :
  saving x f v vs st -> r <> 31 -> saving (upd x r f) f v vs (exec (MRSnzcv r) st).
Proof.
  intros [Hx Hsp Hf Hv Hm] H1. rewrite exec_mrs by done. split; cbn -[upd]; auto.
  intros r'. rewrite Hf. unfold upd. by destruct (_ =? _).
Qed.

Lemma save_lit x f v vs st r off :
  saving x f v vs st -> r <> 31 ->
  saving (upd x r (load 8 (u64 (cpu_pc st + 4 * off)) (cpu_mem st))) f v vs (exec (LDRlit r off) st).
Proof.
  intros [Hx Hsp Hf Hv Hm] H1. cbn [exec]. rewrite wx_ne by done. split; cbn -[upd load]; auto.
  intros r'. unfold upd. by destruct (_ =? _).
Qed.
Lemma save_frame_pointer x f v vs st r :
  saving x f v vs st -> r <> 31 -> saving (upd x r base) f v vs (exec (ADDimm r 31 0) st).
Proof.
  intros [Hx Hsp Hf Hv Hm] H1.
  assert (E : exec (ADDimm r 31 0) st = next (set_x st r base)).
  { cbn [exec]. unfold wbase. destruct (Z.eqb_spec r 31); [done|].
    change (rbase st 31) with (cpu_sp st). by rewrite Hsp, Z.add_0_r, u64_small by lia. }
  rewrite E. split; auto. intros r'. cbn [next set_pc set_x cpu_x]. unfold upd. by destruct (_ =? _).
Qed.
End save.

(** ** Restoring registers *)

Definition restore_regs : list instr :=
  [ LDP 1 2 31 8; LDP 3 4 31 24; LDP 5 6 31 40; LDP 7 8 31 56; LDP 9 10 31 72;
    LDP 11 12 31 88; LDP 13 14 31 104; LDRimm 15 31 120; LDRimm 17 31 136; LDRimm 18 31 144;
    LDRimm 30 31 152; LDRimm 16 31 160 ].
Definition restore_last : list instr :=
  [MSRnzcv 16; LDRimm 0 31 0; LDRimm 16 31 168; ADDimm 31 31 192].

Section restore.
Context (M : bytemem) (base : Z) (g : syscall_gate_state).
Context (Hbase : 0 <= base /\ base + 192 < 2 ^ 64) (Hg : gate_state_at M base g).

Record restoring (x : Z -> Z) (v : Z -> Z) (st : cpu) : Prop := {
  rs_x : forall r, cpu_x st r = x r;
  rs_sp : cpu_sp st = base;
  rs_v : cpu_v st = v;
  rs_mem : cpu_mem st = M;
}.

Lemma slot_load st x v k :
  restoring x v st -> 0 <= k < 22 ->
  load 8 (u64 (rbase st 31 + 8 * k)) (cpu_mem st) = gate_slot g k.
Proof.
  intros [_ Hsp _ Hm] Hk. change (rbase st 31) with (cpu_sp st).
  rewrite Hsp, Hm, u64_small by lia. by apply Hg.
Qed.

Lemma restore_ldr x v st r imm k :
  restoring x v st -> r <> 31 -> imm = 8 * k -> 0 <= k < 22 ->
  restoring (upd x r (gate_slot g k)) v (exec (LDRimm r 31 imm) st).
Proof.
  intros H Hr -> Hk. cbn [exec]. rewrite wx_ne, (slot_load _ _ _ _ H Hk) by done.
  destruct H as [Hx Hsp Hv Hm]. split; cbn -[upd]; auto. intros r'. unfold upd. by destruct (_ =? _).
Qed.

Lemma restore_ldp x v st r1 r2 imm k :
  restoring x v st -> r1 <> 31 -> r2 <> 31 -> imm = 8 * k -> 0 <= k < 21 ->
  restoring (upd (upd x r1 (gate_slot g k)) r2 (gate_slot g (k + 1))) v (exec (LDP r1 r2 31 imm) st).
Proof.
  intros H H1 H2 -> Hk. cbn [exec]. rewrite !wx_ne by done.
  pose proof (slot_load _ _ _ k H ltac:(lia)) as E1. pose proof (slot_load _ _ _ (k + 1) H ltac:(lia)) as E2.
  assert (Ha : u64 (rbase st 31 + 8 * (k + 1)) = u64 (rbase st 31 + 8 * k) + 8).
  { change (rbase st 31) with (cpu_sp st). rewrite (rs_sp _ _ _ H), !u64_small; lia. }
  rewrite Ha in E2. rewrite E1, E2. destruct H as [Hx Hsp Hv Hm].
  split; cbn -[upd]; auto. intros r'. unfold upd. by repeat destruct (_ =? _).
Qed.

(** The registers the guest resumes with. *)
Definition resumed_x (x : Z -> Z) (r : Z) : Z :=
  if r =? 16 then gs_pc g else if r <=? 18 then gs_x g r else if r =? 30 then gs_x30 g else x r.

Ltac ldp S r1 r2 k :=
  let imm := eval compute in (8 * k) in eapply (restore_ldp _ _ _ r1 r2 imm k) in S; [|lia|lia|reflexivity|lia].
Ltac ldr S r k :=
  let imm := eval compute in (8 * k) in eapply (restore_ldr _ _ _ r imm k) in S; [|lia|reflexivity|lia].

Lemma restore_head s :
  cpu_sp s = base -> cpu_mem s = M ->
  exists x, restoring x (cpu_v s) (exec_all restore_regs s) /\ x 16 = gs_nzcv g /\
    forall r, 0 <= r < 31 -> upd (upd x 0 (gs_x g 0)) 16 (gs_pc g) r = resumed_x (cpu_x s) r.
Proof.
  intros Hsp Hm. assert (S : restoring (cpu_x s) (cpu_v s) s) by (by split).
  ldp S 1 2 1. ldp S 3 4 3. ldp S 5 6 5. ldp S 7 8 7. ldp S 9 10 9. ldp S 11 12 11. ldp S 13 14 13.
  ldr S 15 15. ldr S 17 17. ldr S 18 18. ldr S 30 19. ldr S 16 20.
  eexists. split; [exact S|]. split; [apply upd_eq|]. intros r Hr. unfold resumed_x.
  destruct (Z.leb_spec r 18).
  - assert (Hin : In r (map Z.of_nat (seq 0 19))).
    { apply in_map_iff. exists (Z.to_nat r). split; [lia|]. apply in_seq. lia. }
    cbn in Hin. repeat (destruct Hin as [<-|Hin]; [reflexivity|]). done.
  - destruct (Z.eqb_spec r 16); [lia|]. destruct (Z.eqb_spec r 30) as [->|]; [reflexivity|].
    by rewrite !upd_ne by lia.
Qed.

Lemma restore_tail x v s :
  restoring x v s -> x 16 = gs_nzcv g ->
  let s' := exec_all restore_last s in
  (forall r, cpu_x s' r = upd (upd x 0 (gs_x g 0)) 16 (gs_pc g) r) /\
  cpu_sp s' = base + 192 /\ cpu_nzcv s' = gs_nzcv g .& 0xF0000000 /\ cpu_v s' = v /\ cpu_mem s' = M.
Proof.
  intros S H16. cbv zeta.
  assert (S1 : restoring x v (exec (MSRnzcv 16) s)) by (rewrite exec_msr by lia; by destruct S).
  assert (F1 : cpu_nzcv (exec (MSRnzcv 16) s) = gs_nzcv g .& 0xF0000000).
  { rewrite exec_msr by lia. cbn [next set_pc set_nzcv cpu_nzcv]. by rewrite (rs_x _ _ _ S), H16. }
  unfold restore_last. cbn [exec_all fold_left]. set (s1 := exec (MSRnzcv 16) s) in *. clearbody s1.
  assert (S2 := S1). ldr S2 0 0. assert (F2 : cpu_nzcv (exec (LDRimm 0 31 0) s1) = cpu_nzcv s1) by done.
  set (s2 := exec (LDRimm 0 31 0) s1) in *. clearbody s2.
  assert (S3 := S2). ldr S3 16 21. assert (F3 : cpu_nzcv (exec (LDRimm 16 31 168) s2) = cpu_nzcv s2) by done.
  set (s3 := exec (LDRimm 16 31 168) s2) in *. clearbody s3.
  destruct S3 as [Sx Ssp Sv Sm].
  assert (E : exec (ADDimm 31 31 192) s3 = next (set_sp s3 (base + 192))).
  { cbn [exec]. unfold wbase. change (31 =? 31) with true. cbv iota. change (rbase s3 31) with (cpu_sp s3).
    by rewrite Ssp, u64_small by lia. }
  rewrite E. repeat split; try done. cbn [next set_pc set_sp cpu_nzcv]. by rewrite F3, F2.
Qed.
End restore.

(** ** The island runs *)

Definition save_instrs : list instr :=
  [ SUBimm 31 31 192;
    STP 0 1 31 0; STP 2 3 31 16; STP 4 5 31 32; STP 6 7 31 48; STP 8 9 31 64;
    STP 10 11 31 80; STP 12 13 31 96; STP 14 15 31 112; STP 16 17 31 128;
    STRimm 18 31 144; STRimm 30 31 152; MRSnzcv 16; STRimm 16 31 160;
    LDRlit 16 80; STRimm 16 31 168; ADDimm 0 31 0; LDRlit 16 75 ].

Definition restore_instrs : list instr := restore_regs ++ restore_last.

Lemma decode_blr : decode (enc_blr 16) = Some (BLR 16).
Proof. reflexivity. Qed.
Lemma decode_br : decode (enc_br 16) = Some (BR 16).
Proof. reflexivity. Qed.

Lemma ptrdiff_words a i j : ptrdiff32 (a + 4 * i) (a + 4 * j) = i - j.
Proof.
  unfold ptrdiff32. replace (a + 4 * i - (a + 4 * j)) with ((i - j) * 4) by lia. by rewrite Z.div_mul.
Qed.

Lemma emit_island_parts island original dispatcher : exists ws1 ws2 pad,
  emit_island island original dispatcher =
    ws1 ++ [enc_blr 16] ++ ws2 ++ [enc_br 16] ++ pad ++
    literal_words dispatcher ++ literal_words (original + 4) /\
  length ws1 = 18%nat /\ length ws2 = 16%nat /\ length pad = 56%nat /\
  Forall2 (fun i w => decode w = Some i) save_instrs ws1 /\
  Forall2 (fun i w => decode w = Some i) restore_instrs ws2.
Proof.
  unfold emit_island. cbv zeta. cbn [length app]. unfold enc_ldr_literal. rewrite !ptrdiff_words.
  match goal with |- context [?a :: ?b :: ?c :: ?d :: ?e :: ?f :: ?g :: ?h :: ?i :: ?j :: ?k :: ?l :: ?m
     :: ?n :: ?o :: ?p :: ?q :: ?r :: enc_blr 16 :: ?rest] =>
    exists [a;b;c;d;e;f;g;h;i;j;k;l;m;n;o;p;q;r] end.
  eexists [_;_;_;_;_;_;_;_;_;_;_;_;_;_;_;_]. exists (repeat ENC_NOP 56).
  split; [reflexivity|]. split; [reflexivity|]. split; [reflexivity|]. split; [reflexivity|].
  split; repeat constructor.
Qed.

(** The guest's registers as [syscall_gate_state]. *)
Definition gate_state_of (st : cpu) (original : Z) : syscall_gate_state :=
  mk_gs (cpu_x st) (cpu_x st 30) (cpu_nzcv st) (original + 4).

(** The island of [original] is in place: its words are fetched as
    instructions, its two literals are read as data, and the guest stack frame
    it will use is outside it. *)
Record gate_site (code : Z -> option Z) (st : cpu) (island original dispatcher : Z) : Prop := {
  gi_words : words_at code island (emit_island island original dispatcher);
  gi_entry : code original = Some (enc_b (i32 (ptrdiff32 island original)));
  gi_reach : b_reach (ptrdiff32 island original);
  gi_align : (original - island) mod 4 = 0;
  gi_island : 0 <= island /\ island + 384 < 2 ^ 64;
  gi_original : 0 <= original /\ original + 4 < 2 ^ 64;
  gi_dispatcher : load 8 (island + 4 * 92) (cpu_mem st) = dispatcher;
  gi_resume : load 8 (island + 4 * 94) (cpu_mem st) = original + 4;
  gi_frame : 192 <= cpu_sp st < 2 ^ 64;
  gi_disj : island + 384 <= cpu_sp st - 192 \/ cpu_sp st <= island;
}.

Lemma gate_entry code st island original dispatcher :
  gate_site code st island original dispatcher -> cpu_pc st = original ->
  reaches code st (set_pc st island).
Proof.
  intros [_ He Hr Hal Hi Ho _ _ _ _] Hpc. unfold i32 in He.
  rewrite signed_small in He by (unfold b_reach in Hr; lia).
  etrans; [eapply reaches_step; [rewrite Hpc; exact He|by apply decode_enc_b]|].
  cbn [exec jump]. unfold jump. replace (u64 _) with island; [done|].
  rewrite Hpc. unfold ptrdiff32.
  assert (4 * ((island - original) / 4) = island - original).
  { pose proof (Z.div_mod (island - original) 4 ltac:(lia)).
    assert ((island - original) mod 4 = 0); [|lia].
    replace (island - original) with (- (original - island)) by lia.
    apply Z.mod_opp_l_z; lia. }
  rewrite H, u64_small; lia.
Qed.

Lemma set_pc_set_x s r v p : let s' := set_pc (set_x s r v) p in
  cpu_x s' = upd (cpu_x s) r v /\ cpu_pc s' = p /\ cpu_sp s' = cpu_sp s /\ cpu_mem s' = cpu_mem s.
Proof. done. Qed.
Lemma set_pc_rest s p : let s' := set_pc s p in
  cpu_pc s' = p /\ cpu_x s' = cpu_x s /\ cpu_sp s' = cpu_sp s /\ cpu_nzcv s' = cpu_nzcv s /\
  cpu_v s' = cpu_v s /\ cpu_mem s' = cpu_mem s.
Proof. done. Qed.

Section run_island.
Context (code : Z -> option Z) (st : cpu) (island original dispatcher : Z).
Context (Hs : gate_site code st island original dispatcher).
Context (Hx : forall r, 0 <= cpu_x st r < 2 ^ 64) (Hnzcv : 0 <= cpu_nzcv st < 2 ^ 64).
Local Abbreviation base := (cpu_sp st - 192).

Definition saved_slots : list Z :=
  map (cpu_x st) (map Z.of_nat (seq 0 19)) ++ [cpu_x st 30; cpu_nzcv st; original + 4].

Definition head_instrs : list instr := firstn 14 save_instrs.
Definition head_slots : list Z :=
  map (cpu_x st) (map Z.of_nat (seq 0 19)) ++ [cpu_x st 30; cpu_nzcv st].

Ltac stp Hb S r1 r2 imm :=
  eapply (save_stp _ _ Hb _ _ _ _ _ r1 r2 imm) in S; [|lia|lia|reflexivity|lia]; cbn [app] in S.
Ltac str Hb S r imm :=
  eapply (save_str _ _ Hb _ _ _ _ _ r imm) in S; [|lia|reflexivity|lia]; cbn [app] in S.

(** The stores before the literals are read. *)
Lemma save_head s :
  192 <= cpu_sp st < 2 ^ 64 ->
  cpu_x s = cpu_x st -> cpu_sp s = cpu_sp st -> cpu_nzcv s = cpu_nzcv st ->
  cpu_v s = cpu_v st -> cpu_mem s = cpu_mem st ->
  saving (cpu_mem st) base (upd (cpu_x st) 16 (cpu_nzcv st)) (cpu_nzcv st) (cpu_v st) head_slots
    (exec_all head_instrs s).
Proof.
  intros Hf Ex Esp Ef Ev Em. assert (Hb : 0 <= base /\ base + 192 < 2 ^ 64) by lia.
  assert (S0 : saving (cpu_mem st) base (cpu_x st) (cpu_nzcv st) (cpu_v st) [] (exec (SUBimm 31 31 192) s)).
  { split; cbn -[u64]; rewrite ?Ex; auto. rewrite Esp, u64_small; lia. }
  stp Hb S0 0 1 0. stp Hb S0 2 3 16. stp Hb S0 4 5 32. stp Hb S0 6 7 48. stp Hb S0 8 9 64. stp Hb S0 10 11 80.
  stp Hb S0 12 13 96. stp Hb S0 14 15 112. stp Hb S0 16 17 128. str Hb S0 18 144. str Hb S0 30 152.
  eapply (save_mrs _ _ _ _ _ _ _ 16) in S0; [|lia]. str Hb S0 16 160.
  rewrite (upd_eq (cpu_x st) 16) in S0. exact S0.
Qed.

Lemma exec_all_pc il s :
  forallb falls_through il = true -> 0 <= cpu_pc s -> cpu_pc s + 4 * Z.of_nat (length il) < 2 ^ 64 ->
  cpu_pc (exec_all il s) = cpu_pc s + 4 * Z.of_nat (length il).
Proof.
  revert s. induction il as [|i il IH]; intros s Hft H0 H1; [simpl; lia|].
  simpl in Hft. apply andb_true_iff in Hft as [Hi Hft]. rewrite length_cons in *.
  assert (Hpc : cpu_pc (exec i s) = cpu_pc s + 4) by (rewrite exec_pc, u64_small by (done || lia); done).
  change (exec_all (i :: il) s) with (exec_all il (exec i s)). rewrite IH; rewrite ?Hpc; lia || done.
Qed.

Lemma save_effect s :
  cpu_pc s = island -> cpu_x s = cpu_x st -> cpu_sp s = cpu_sp st -> cpu_nzcv s = cpu_nzcv st ->
  cpu_v s = cpu_v st -> cpu_mem s = cpu_mem st ->
  saving (cpu_mem st) base (upd (upd (cpu_x st) 0 base) 16 dispatcher) (cpu_nzcv st) (cpu_v st)
    saved_slots (exec_all save_instrs s).
Proof.
  intros Hpc Ex Esp Ef Ev Em. destruct Hs as [_ _ _ _ Hi _ Hd Hr Hf Hdj].
  assert (Hb : 0 <= base /\ base + 192 < 2 ^ 64) by lia.
  assert (Hlit : forall vs k, (length vs <= 22)%nat -> 92 <= k <= 94 ->
    load 8 (island + 4 * k) (store_slots base vs (cpu_mem st)) = load 8 (island + 4 * k) (cpu_mem st)).
  { intros vs k Hl Hk. apply load_ext. intros x Hxx. apply store_slots_out. lia. }
  pose proof (save_head s Hf Ex Esp Ef Ev Em) as S1.
  pose proof (exec_all_pc head_instrs s eq_refl ltac:(lia) ltac:(rewrite Hpc; cbn; lia)) as P1.
  change save_instrs with (head_instrs ++ [LDRlit 16 80; STRimm 16 31 168; ADDimm 0 31 0; LDRlit 16 75]).
  rewrite exec_all_app.
  set (s1 := exec_all head_instrs s) in *. clearbody s1. rewrite Hpc in P1.
  change (Z.of_nat (length head_instrs)) with 14 in P1.
  pose proof (save_lit _ _ _ _ _ _ _ 16 80 S1 ltac:(lia)) as S2.
  assert (E2 : load 8 (u64 (cpu_pc s1 + 4 * 80)) (cpu_mem s1) = original + 4).
  { rewrite P1, u64_small, (sv_mem _ _ _ _ _ _ _ S1) by lia.
    replace (island + 4 * 14 + 4 * 80) with (island + 4 * 94) by lia. rewrite Hlit; [done|cbn; lia|lia]. }
  rewrite E2 in S2. str Hb S2 16 168. rewrite (upd_eq _ 16) in S2.
  pose proof (exec_all_pc [LDRlit 16 80; STRimm 16 31 168; ADDimm 0 31 0] s1 eq_refl ltac:(lia)
    ltac:(rewrite P1; cbn; lia)) as P3.
  cbn [exec_all fold_left] in P3 |- *. set (s3 := exec (STRimm 16 31 168) _) in *. clearbody s3.
  assert (S4 : saving (cpu_mem st) base (upd (upd (upd (cpu_x st) 16 (cpu_nzcv st)) 16 (original + 4)) 0 base)
    (cpu_nzcv st) (cpu_v st) saved_slots (exec (ADDimm 0 31 0) s3)).
  { exact (save_frame_pointer _ _ Hb _ _ _ _ _ 0 S2 ltac:(lia)). }
  pose proof (save_lit _ _ _ _ _ _ _ 16 75 S4 ltac:(lia)) as S5.
  set (s4 := exec (ADDimm 0 31 0) s3) in *. clearbody s4.
  assert (E5 : load 8 (u64 (cpu_pc s4 + 4 * 75)) (cpu_mem s4) = dispatcher).
  { rewrite P3, P1, u64_small, (sv_mem _ _ _ _ _ _ _ S4) by (cbn [length]; lia).
    cbn [length]. replace (_ + 4 * 75) with (island + 4 * 92) by lia. rewrite Hlit; [done|cbn; lia|lia]. }
  rewrite E5 in S5. destruct S5 as [Sx Ssp Sf Sv Sm]. split; auto. intros r. rewrite Sx. unfold upd.
  by repeat destruct (_ =? _).
Qed.

Lemma saved_slots_length : length saved_slots = 22%nat.
Proof. reflexivity. Qed.

Lemma saved_slots_lookup (k : nat) :
  (k < 22)%nat -> saved_slots !! k = Some (gate_slot (gate_state_of st original) (Z.of_nat k)).
Proof. intros Hk. do 22 (destruct k as [|k]; [reflexivity|]). lia. Qed.

(** From the [svc] to the call of the dispatcher. *)
Lemma gate_calls :
  cpu_pc st = original ->
  exists s1, reaches code st s1 /\ cpu_pc s1 = dispatcher /\ cpu_x s1 0 = base /\ cpu_sp s1 = base /\
    cpu_x s1 30 = island + 4 * 19 /\ (forall r, 19 <= r < 30 -> cpu_x s1 r = cpu_x st r) /\
    gate_state_at (cpu_mem s1) base (gate_state_of st original) /\
    (forall x, ~ base <= x < cpu_sp st -> cpu_mem s1 x = cpu_mem st x).
Proof.
  intros Hpc. destruct (emit_island_parts island original dispatcher) as (ws1&ws2&pad&He&L1&L2&L3&D1&D2).
  pose proof (gi_words _ _ _ _ _ Hs) as Hw. rewrite He in Hw. pose proof (gi_island _ _ _ _ _ Hs) as Hi.
  apply words_at_app in Hw as [Hw1 [Hblr _]]. rewrite L1 in Hblr.
  destruct (reaches_block code save_instrs ws1 (set_pc st island) D1 eq_refl Hw1) as [Hr Hp];
    [apply Hi|cbn [set_pc cpu_pc]; lia|].
  pose proof (save_effect (set_pc st island) eq_refl eq_refl eq_refl eq_refl eq_refl eq_refl) as S.
  set (s0 := exec_all save_instrs (set_pc st island)) in *. clearbody s0. cbn [set_pc cpu_pc] in Hp.
  exists (set_pc (set_x s0 30 (island + 4 * 19)) dispatcher). destruct S as [Sx Ssp Sf Sv Sm]. rewrite L1 in Hp.
  assert (E : exec (BLR 16) s0 = set_pc (set_x s0 30 (island + 4 * 19)) dispatcher).
  { cbn [exec]. rewrite wx_ne, rx_ne, Sx, upd_eq, Hp, u64_small by lia.
    by replace (island + 4 * Z.of_nat 18 + 4) with (island + 4 * 19) by lia. }
  destruct (set_pc_set_x s0 30 (island + 4 * 19) dispatcher) as (X1 & Q1 & Q2 & Q3).
  set (s1 := set_pc (set_x s0 30 (island + 4 * 19)) dispatcher) in *. clearbody s1.
  rewrite Q1, Q2, Q3, X1. split.
  { etrans; [by eapply gate_entry|]. etrans; [exact Hr|]. rewrite <- E.
    apply (reaches_step code s0 (BLR 16) (enc_blr 16)); [by rewrite Hp|apply decode_blr]. }
  split; [done|]. split; [by rewrite upd_ne, Sx by lia|]. split; [done|]. split; [apply upd_eq|].
  split; [|rewrite Sm; split].
  - intros r Hr'. by rewrite upd_ne, Sx, !upd_ne by lia.
  - intros k Hk. replace k with (Z.of_nat (Z.to_nat k)) by lia.
    pose proof (gi_original _ _ _ _ _ Hs). apply load_store_slots.
    + apply saved_slots_lookup. lia.
    + unfold gate_slot. cbn [gs_x gs_x30 gs_nzcv gs_pc gate_state_of].
      destruct (_ <? _); [apply Hx|]. destruct (_ =? _); [apply Hx|]. destruct (_ =? _); [apply Hnzcv|lia].
  - intros x Hxx. apply store_slots_out. rewrite saved_slots_length. lia.
Qed.

(** From the return of the dispatcher to the guest. *)
Lemma gate_resumes s2 g :
  cpu_pc s2 = island + 4 * 19 -> cpu_sp s2 = base -> gate_state_at (cpu_mem s2) base g ->
  exists st', reaches code s2 st' /\ cpu_pc st' = gs_pc g /\
    (forall r, 0 <= r < 31 -> cpu_x st' r = resumed_x g (cpu_x s2) r) /\ cpu_sp st' = cpu_sp st /\
    cpu_nzcv st' = gs_nzcv g .& 0xF0000000 /\ cpu_v st' = cpu_v s2 /\ cpu_mem st' = cpu_mem s2.
Proof.
  intros Hpc Hsp Hg. destruct (emit_island_parts island original dispatcher) as (ws1&ws2&pad&He&L1&L2&L3&D1&D2).
  pose proof (gi_words _ _ _ _ _ Hs) as Hw. rewrite He in Hw. pose proof (gi_island _ _ _ _ _ Hs) as Hi.
  pose proof (gi_frame _ _ _ _ _ Hs) as Hf.
  apply words_at_app in Hw as [_ Hw]. apply words_at_app in Hw as [_ Hw]. apply words_at_app in Hw as [Hw [Hbr _]].
  rewrite L1, L2 in Hbr. rewrite L1 in Hw. cbn [length] in Hw, Hbr.
  destruct (reaches_block code restore_instrs ws2 s2 D2 eq_refl) as [Hr Hp]; [|lia|rewrite Hpc, L2; lia|].
  { rewrite Hpc. by replace (island + 4 * 19) with (island + 4 * Z.of_nat 18 + 4 * Z.of_nat 1) by lia. }
  destruct (restore_head (cpu_mem s2) base g ltac:(lia) Hg s2 Hsp eq_refl) as (x&S&X16&Xr).
  pose proof (restore_tail (cpu_mem s2) base g ltac:(lia) Hg x _ _ S X16) as (Rx&Rsp&Rf&Rv&Rm).
  unfold restore_instrs in Hr, Hp. rewrite <- exec_all_app in Rx, Rsp, Rf, Rv, Rm.
  set (s3 := exec_all (restore_regs ++ restore_last) s2) in *. clearbody s3.
  exists (set_pc s3 (gs_pc g)).
  assert (E : exec (BR 16) s3 = set_pc s3 (gs_pc g)) by (cbn [exec]; by rewrite rx_ne, Rx, upd_eq by lia).
  destruct (set_pc_rest s3 (gs_pc g)) as (Q1 & Q2 & Q3 & Q4 & Q5 & Q6).
  set (s4 := set_pc s3 (gs_pc g)) in *. clearbody s4. rewrite Q1, Q2, Q3, Q4, Q5, Q6. split.
  { etrans; [exact Hr|]. rewrite <- E.
    apply (reaches_step code s3 (BR 16) (enc_br 16)); [|apply decode_br]. rewrite Hp, Hpc, L2.
    by replace (island + 4 * 19 + 4 * Z.of_nat 16)
      with (island + 4 * Z.of_nat 18 + 4 * Z.of_nat 1 + 4 * Z.of_nat 16) by lia. }
  repeat split; auto; [|lia]. intros r Hr'. rewrite Rx. by apply Xr.
Qed.
End run_island.

End Gate.
