(* ===== verification/GateDispatch.v ===== *)
(** * Syscall gate: the dispatcher (src/syscall/syscall_gate.c)

    [syscall_gate_dispatch] on the saved guest state: the system calls the
    gate answers itself, the hand-over to the four range dispatchers, and the
    Darwin convention for results (x0 and the carry flag).  The range
    dispatchers are an argument: the theorems here hold for any. *)

From S2P Require Import Prelude Host GuestVm GateIsland.
Import Gate.

Module Dispatch.

Definition DARWIN_SYS_exit : Z := 1.
Definition DARWIN_SYS_read : Z := 3.
Definition DARWIN_SYS_write : Z := 4.
Definition DARWIN_SYS_open : Z := 5.
Definition DARWIN_SYS_close : Z := 6.
Definition DARWIN_SYS_munmap : Z := 73.
Definition DARWIN_SYS_mprotect : Z := 74.
Definition DARWIN_SYS_fstat : Z := 189.
Definition DARWIN_SYS_mmap : Z := 197.
Definition DARWIN_SYS_lseek : Z := 199.
Definition DARWIN_ENOSYS : Z := 78.

Definition DARWIN_O_NONBLOCK : Z := 0x00000004.
Definition DARWIN_O_APPEND : Z := 0x00000008.
Definition DARWIN_O_NOFOLLOW : Z := 0x00000100.
Definition DARWIN_O_CREAT : Z := 0x00000200.
Definition DARWIN_O_TRUNC : Z := 0x00000400.
Definition DARWIN_O_EXCL : Z := 0x00000800.
Definition DARWIN_O_NOCTTY : Z := 0x00020000.
Definition DARWIN_O_DIRECTORY : Z := 0x00100000.
Definition DARWIN_O_CLOEXEC : Z := 0x01000000.

(** The values of the AArch64 Linux headers. *)
Definition O_ACCMODE : Z := 3.
Definition O_NONBLOCK : Z := 0x800.
Definition O_APPEND : Z := 0x400.
Definition O_NOFOLLOW : Z := 0x8000.
Definition O_CREAT : Z := 0x40.
Definition O_TRUNC : Z := 0x200.
Definition O_EXCL : Z := 0x80.
Definition O_NOCTTY : Z := 0x100.
Definition O_DIRECTORY : Z := 0x4000.
Definition O_CLOEXEC : Z := 0x80000.

Definition DARWIN_MAP_SHARED : Z := 0x0001.
Definition DARWIN_MAP_PRIVATE : Z := 0x0002.
Definition DARWIN_MAP_FIXED : Z := 0x0010.
Definition DARWIN_MAP_ANON : Z := 0x1000.

Definition VM_PROT_READ : Z := 1.
Definition VM_PROT_WRITE : Z := 2.
Definition VM_PROT_EXECUTE : Z := 4.

(** [if (x & from) result |= to;] *)
Definition map_bit (x from to result : Z) : Z := if nz (x .& from) then result .| to else result.

Definition native_prot_from_macho (prot : Z) : Z :=
  let result := 0 in
  let result := map_bit prot VM_PROT_READ PROT_READ result in
  let result := map_bit prot VM_PROT_WRITE PROT_WRITE result in
  map_bit prot VM_PROT_EXECUTE PROT_EXEC result.

Definition set_success (g : syscall_gate_state) (result : Z) : syscall_gate_state :=
  mk_gs (upd (gs_x g) 0 (u64 result)) (gs_x30 g) (gs_nzcv g .& 0xDFFFFFFF) (gs_pc g).
Definition set_failure (g : syscall_gate_state) (err : Z) : syscall_gate_state :=
  mk_gs (upd (gs_x g) 0 (u64 err)) (gs_x30 g) (gs_nzcv g .| SYSCALL_GATE_CARRY) (gs_pc g).

(** [struct darwin_stat], without its padding and spare fields. *)
Record darwin_stat := mk_dst {
  st_dev : Z; st_mode : Z; st_nlink : Z; st_ino : Z; st_uid : Z; st_gid : Z; st_rdev : Z;
  st_atimespec : timespec; st_mtimespec : timespec; st_ctimespec : timespec;
  st_birthtimespec : timespec; st_size : Z; st_blocks : Z; st_blksize : Z;
}.

Definition linux_to_darwin_stat (l : linux_stat) : darwin_stat :=
  mk_dst (i32 (l_dev l)) (u16 (l_mode l)) (u16 (l_nlink l)) (l_ino l) (l_uid l) (l_gid l)
         (i32 (l_rdev l)) (l_atim l) (l_mtim l) (l_ctim l) (l_ctim l)
         (l_size l) (l_blocks l) (i32 (l_blksize l)).

(** The structure in guest memory: 144 bytes, zeroed first. *)
Definition write_darwin_stat (a : Z) (d : darwin_stat) (m : bytemem) : bytemem :=
  let ts a t m := store 8 (a + 8) (tv_nsec t) (store 8 a (tv_sec t) m) in
  let m := store 144 a 0 m in
  let m := store 4 a (st_dev d) m in
  let m := store 2 (a + 4) (st_mode d) m in
  let m := store 2 (a + 6) (st_nlink d) m in
  let m := store 8 (a + 8) (st_ino d) m in
  let m := store 4 (a + 16) (st_uid d) m in
  let m := store 4 (a + 20) (st_gid d) m in
  let m := store 4 (a + 24) (st_rdev d) m in
  let m := ts (a + 32) (st_atimespec d) m in
  let m := ts (a + 48) (st_mtimespec d) m in
  let m := ts (a + 64) (st_ctimespec d) m in
  let m := ts (a + 80) (st_birthtimespec d) m in
  let m := store 8 (a + 96) (st_size d) m in
  let m := store 8 (a + 104) (st_blocks d) m in
  store 4 (a + 112) (st_blksize d) m.

Definition translate_open_flags (darwin_flags : Z) : Z :=
  let linux_flags := darwin_flags .& O_ACCMODE in
  let linux_flags := map_bit darwin_flags DARWIN_O_NONBLOCK O_NONBLOCK linux_flags in
  let linux_flags := map_bit darwin_flags DARWIN_O_APPEND O_APPEND linux_flags in
  let linux_flags := map_bit darwin_flags DARWIN_O_NOFOLLOW O_NOFOLLOW linux_flags in
  let linux_flags := map_bit darwin_flags DARWIN_O_CREAT O_CREAT linux_flags in
  let linux_flags := map_bit darwin_flags DARWIN_O_TRUNC O_TRUNC linux_flags in
  let linux_flags := map_bit darwin_flags DARWIN_O_EXCL O_EXCL linux_flags in
  let linux_flags := map_bit darwin_flags DARWIN_O_NOCTTY O_NOCTTY linux_flags in
  let linux_flags := map_bit darwin_flags DARWIN_O_DIRECTORY O_DIRECTORY linux_flags in
  map_bit darwin_flags DARWIN_O_CLOEXEC O_CLOEXEC linux_flags.

Definition translate_mmap_flags (darwin_flags : Z) : Z :=
  let linux_flags := 0 in
  let linux_flags := map_bit darwin_flags DARWIN_MAP_SHARED MAP_SHARED linux_flags in
  let linux_flags := map_bit darwin_flags DARWIN_MAP_PRIVATE MAP_PRIVATE linux_flags in
  let linux_flags := map_bit darwin_flags DARWIN_MAP_FIXED MAP_FIXED linux_flags in
  map_bit darwin_flags DARWIN_MAP_ANON MAP_ANONYMOUS linux_flags.

(** What becomes of the guest thread: the process ends, the call returns, or
    the process runs another program. *)
Inductive outcome := Exited (status : Z) | Returned (g : syscall_gate_state) | Replaced.

Section sigpipe.
Context {V : Type} {K : kernel}.
Local Open Scope host_scope.

Definition write_syscall_with_sigpipe_guard (syscall_number fd buffer size_or_count : Z) : host V K Z :=
  let* old := sigaction SIGPIPE (Some (mk_sa SIG_IGN 0 0)) in
  do* set_errno 0 in
  let* result := syscall syscall_number [fd; buffer; size_or_count] in
  let* saved_errno := get_errno in
  do* match old with
      | inl old_action =>
          if decide (sa_handler old_action = SIG_DFL) then hret tt
          else do* sigaction SIGPIPE (Some old_action) in hret tt
      | inr _ => hret tt
      end in
  do* set_errno saved_errno in
  hret result.

Definition machgate_syscall_write_no_sigpipe (fd buffer size : Z) : host V K Z :=
  write_syscall_with_sigpipe_guard SYS_write fd buffer size.
Definition machgate_syscall_writev_no_sigpipe (fd iov iovcnt : Z) : host V K Z :=
  write_syscall_with_sigpipe_guard SYS_writev fd iov (u64 iovcnt).
End sigpipe.

Section dispatch.
Context {K : kernel}.
Local Abbreviation hostm := (host guest_vm_table K).
Local Open Scope host_scope.

(** [errno ? errno : EIO] *)
Definition errno_or_eio : hostm Z :=
  let* e := get_errno in hret (if nz e then e else EIO).

Definition finish_syscall_result (g : syscall_gate_state) (result : Z) : hostm syscall_gate_state :=
  if result <? 0 then let* e := errno_or_eio in hret (set_failure g e)
  else hret (set_success g result).

(** A system call passed to the kernel: [errno = 0; result = syscall(...)]. *)
Definition pass (g : syscall_gate_state) (nr : Z) (args : list Z) : hostm outcome :=
  do* set_errno 0 in
  let* result := syscall nr args in
  let* g' := finish_syscall_result g result in hret (Returned g').

(** The range dispatchers: whether they handled the call, and what became of
    it. *)
Record ranges := {
  syscall_range_000_099_dispatch : syscall_gate_state -> hostm (bool * outcome);
  syscall_range_100_199_dispatch : syscall_gate_state -> hostm (bool * outcome);
  syscall_range_200_399_dispatch : syscall_gate_state -> hostm (bool * outcome);
  syscall_range_400_plus_dispatch : syscall_gate_state -> hostm (bool * outcome);
}.

(** [if (dispatch(state)) return;] *)
Definition try_range (dispatch : syscall_gate_state -> hostm (bool * outcome)) (g : syscall_gate_state)
    (next : syscall_gate_state -> hostm outcome) : hostm outcome :=
  let* r := dispatch g in
  match r with
  | (false, Returned g) => next g
  | (_, o) => hret o
  end.

Definition syscall_gate_dispatch (R : ranges) (g : syscall_gate_state) : hostm outcome :=
  let x := gs_x g in
  if x 16 =? DARWIN_SYS_exit then hret (Exited (i32 (x 0)))
  else if x 16 =? DARWIN_SYS_read then pass g SYS_read [i32 (x 0); x 1; x 2]
  else if x 16 =? DARWIN_SYS_write then
    let* result := machgate_syscall_write_no_sigpipe (i32 (x 0)) (x 1) (x 2) in
    let* g' := finish_syscall_result g result in hret (Returned g')
  else if x 16 =? DARWIN_SYS_open then
    pass g SYS_openat [AT_FDCWD; x 0; translate_open_flags (i32 (x 1)); u32 (x 2)]
  else if x 16 =? DARWIN_SYS_close then pass g SYS_close [i32 (x 0)]
  else if x 16 =? DARWIN_SYS_munmap then
    let* result := machgate_dispatch_darwin_munmap (x 0) (x 1) in
    let* g' := finish_syscall_result g result in hret (Returned g')
  else if x 16 =? DARWIN_SYS_mprotect then pass g SYS_mprotect [x 0; x 1; i32 (x 2)]
  else if x 16 =? DARWIN_SYS_fstat then
    do* set_errno 0 in
    let* r := in_kernel (k_fstat K (i32 (x 0))) in
    match r with
    | inr e =>
        do* set_errno e in
        let* e := errno_or_eio in hret (Returned (set_failure g e))
    | inl l =>
        let* m := get_mem in
        do* set_mem (write_darwin_stat (x 1) (linux_to_darwin_stat l) m) in
        hret (Returned (set_success g 0))
    end
  else if x 16 =? DARWIN_SYS_mmap then
    let* result := machgate_dispatch_darwin_mmap (x 0) (x 1) (i32 (x 2))
                     (translate_mmap_flags (i32 (x 3))) (i32 (x 4)) (i64 (x 5)) in
    let* g' := finish_syscall_result g result in hret (Returned g')
  else if x 16 =? DARWIN_SYS_lseek then pass g SYS_lseek [i32 (x 0); i64 (x 1); i32 (x 2)]
  else
    try_range (syscall_range_000_099_dispatch R) g (fun g =>
    try_range (syscall_range_100_199_dispatch R) g (fun g =>
    try_range (syscall_range_200_399_dispatch R) g (fun g =>
    try_range (syscall_range_400_plus_dispatch R) g (fun g =>
    hret (Returned (set_failure g DARWIN_ENOSYS)))))).
End dispatch.

End Dispatch.
