(* ===== verification/GateTheorems.v ===== *)
(** * Syscall gate: what the dispatcher and the islands guarantee *)

From S2P Require Import Prelude Host Arm64 Arm64Enc GuestVm GateIsland GateDispatch.
Import Gate Dispatch.

(** ** The result convention *)

(** The answer of a call: x0 and the carry flag, nothing else. *)
Record answer (g g' : syscall_gate_state) (failed : bool) (x0 : Z) : Prop := {
  an_x0 : gs_x g' 0 = u64 x0;
  an_carry : Z.testbit (gs_nzcv g') 29 = failed;
  an_x : forall r, r <> 0 -> gs_x g' r = gs_x g r;
  an_x30 : gs_x30 g' = gs_x30 g;
  an_pc : gs_pc g' = gs_pc g;
  an_flags : forall k, 0 <= k < 32 -> k <> 29 -> Z.testbit (gs_nzcv g') k = Z.testbit (gs_nzcv g) k;
}.

Lemma carry_bit k : 0 <= k -> Z.testbit SYSCALL_GATE_CARRY k = (k =? 29).
Proof. intros Hk. change SYSCALL_GATE_CARRY with (2 ^ 29). rewrite Z.pow2_bits_eqb, Z.eqb_sym by lia. done. Qed.

Lemma nocarry_bit k : 0 <= k < 32 -> Z.testbit 0xDFFFFFFF k = negb (k =? 29).
Proof.
  intros Hk. change 0xDFFFFFFF with (Z.lxor (Z.ones 32) SYSCALL_GATE_CARRY).
  rewrite Z.lxor_spec, carry_bit, Z.ones_spec_low by lia. by destruct (k =? 29).
Qed.

Lemma answer_success g v : answer g (set_success g v) false v.
Proof.
  split; cbn -[upd Z.testbit Z.land]; try done; try apply upd_eq.
  - rewrite Z.land_spec, nocarry_bit by lia. apply andb_false_r.
  - intros r Hr. by apply upd_ne.
  - intros k Hk Hne. rewrite Z.land_spec, nocarry_bit by lia.
    destruct (Z.eqb_spec k 29); [done|]. apply andb_true_r.
Qed.

Lemma answer_failure g e : answer g (set_failure g e) true e.
Proof.
  split; cbn -[upd Z.testbit Z.lor]; try done; try apply upd_eq.
  - rewrite Z.lor_spec, carry_bit by lia. apply orb_true_r.
  - intros r Hr. by apply upd_ne.
  - intros k Hk Hne. rewrite Z.lor_spec, carry_bit by lia.
    destruct (Z.eqb_spec k 29); [done|]. apply orb_false_r.
Qed.

Section dispatch.
Context {K : kernel} (R : @ranges K).
Implicit Types (g : syscall_gate_state) (p : process guest_vm_table K).

Definition answered g (o : outcome) : Prop :=
  exists g', o = Returned g' /\
    ((exists v, 0 <= v /\ answer g g' false v) \/ (exists e, e <> 0 /\ answer g g' true e)).

Lemma finish_answered g r p :
  answered g (fst (hbind (finish_syscall_result g r) (fun g' => hret (Returned g')) p)).
Proof.
  unfold finish_syscall_result, errno_or_eio, hbind, hret, get_errno. destruct (Z.ltb_spec r 0); cbn -[set_failure set_success nz].
  - eexists. split; [done|]. right. eexists. split; [|apply answer_failure].
    unfold nz. destruct (Z.eqb_spec (p_errno p) 0); cbn; [done|done].
  - eexists. split; [done|]. left. exists r. split; [done|apply answer_success].
Qed.

Lemma after_answered {A} (m : host guest_vm_table K A) (f : A -> Z) g p :
  answered g (fst (hbind m (fun a => hbind (finish_syscall_result g (f a)) (fun g' => hret (Returned g'))) p)).
Proof. unfold hbind at 1. destruct (m p) as [a p']. apply finish_answered. Qed.

Definition native_calls : list Z :=
  [DARWIN_SYS_read; DARWIN_SYS_write; DARWIN_SYS_open; DARWIN_SYS_close; DARWIN_SYS_munmap;
   DARWIN_SYS_mprotect; DARWIN_SYS_fstat; DARWIN_SYS_mmap; DARWIN_SYS_lseek].

Lemma pass_answered g nr args p : answered g (fst (pass g nr args p)).
Proof. unfold pass, hbind at 1, set_errno. apply (after_answered _ (fun r => r)). Qed.
End dispatch.

(** Every system call the gate answers itself returns to the guest, with
    the Darwin convention: on success x0 is the non-negative result and the
    carry flag is clear, on failure x0 is a non-zero error number and the
    carry flag is set; every other register, the resume address and the other
    flags are those of the call. *)
Theorem native_call_answered {K : kernel} (R : ranges) g (p : process guest_vm_table K) :
  In (gs_x g 16) native_calls -> answered g (fst (syscall_gate_dispatch R g p)).
Proof.
  unfold syscall_gate_dispatch, native_calls. intros H. cbn in H.
  repeat (destruct H as [H|H]; [rewrite <- H; cbn -[answered set_failure set_success
    translate_open_flags translate_mmap_flags machgate_dispatch_darwin_mmap
    machgate_dispatch_darwin_munmap machgate_syscall_write_no_sigpipe i32 i64 u32 pass]|]); try done;
    try apply pass_answered; try apply (after_answered _ (fun r => r)).
  unfold hbind, in_kernel, set_errno, hret, get_errno, get_mem, set_mem, errno_or_eio.
  cbn -[answered set_failure set_success i32 nz]. destruct (k_fstat K _ _) as [[l|e] k];
    cbn -[answered set_failure set_success nz]; eexists; (split; [done|]).
  - left. exists 0. split; [lia|apply answer_success].
  - right. eexists. split; [|apply answer_failure]. unfold nz. by destruct (Z.eqb_spec e 0).
Qed.

(** ** Calls passed to Linux *)

(** Which Linux call stands for a Darwin call, and with which arguments. *)
Definition linux_call (g : syscall_gate_state) : option (Z * list Z) :=
  let x := gs_x g in
  match x 16 with
  | 3 => Some (SYS_read, [i32 (x 0); x 1; x 2])
  | 4 => Some (SYS_write, [i32 (x 0); x 1; x 2])
  | 5 => Some (SYS_openat, [AT_FDCWD; x 0; translate_open_flags (i32 (x 1)); u32 (x 2)])
  | 6 => Some (SYS_close, [i32 (x 0)])
  | 74 => Some (SYS_mprotect, [x 0; x 1; i32 (x 2)])
  | 199 => Some (SYS_lseek, [i32 (x 0); i64 (x 1); i32 (x 2)])
  | _ => None
  end.

(** The guest state after the kernel's answer. *)
Definition kernel_answer (g : syscall_gate_state) (r : Z + Z) : syscall_gate_state :=
  match r with
  | inl v => if v <? 0 then set_failure g EIO else set_success g v
  | inr e => set_failure g (if nz e then e else EIO)
  end.

Lemma linux_call_cases g nr args :
  linux_call g = Some (nr, args) -> In (gs_x g 16) [3; 4; 5; 6; 74; 199].
Proof.
  unfold linux_call. intros H.
  repeat match type of H with context [match ?z with _ => _ end] => destruct z eqn:?E end;
    try discriminate H; cbn; auto 10.
Qed.

(** The dispositions after a call: a write leaves SIGPIPE ignored when it had
    the default action; any other action is put back. *)
Definition after_write (f : Z -> sigact) : Z -> sigact :=
  let old := f SIGPIPE in
  if decide (sa_handler old = SIG_DFL) then upd f SIGPIPE (mk_sa SIG_IGN 0 0)
  else upd (upd f SIGPIPE (mk_sa SIG_IGN 0 0)) SIGPIPE (mk_sa (sa_handler old) (blockable (sa_mask old)) (sa_flags old)).

(** Pass-through calls (read, write, open, close, mprotect, lseek) make
    exactly one kernel call, with the translated number and arguments, and
    hand its result or its error number to the guest; memory is what the
    kernel left, the mapping table and the signal mask are untouched, and no
    signal disposition other than that of SIGPIPE changes, which only a write
    sets, and to its old action unless that was the default. *)
Theorem passthrough_refines {K : kernel} (R : ranges) g (p : process guest_vm_table K) nr args :
  linux_call g = Some (nr, args) ->
  let '(r, m, k) := k_syscall K nr args (p_mem p) (p_kernel p) in
  let '(o, p') := syscall_gate_dispatch R g p in
  o = Returned (kernel_answer g r) /\ p_kernel p' = k /\
  p_mem p' = m /\ p_vm p' = p_vm p /\ p_mask p' = p_mask p /\
  p_actions p' = (if nr =? SYS_write then after_write (p_actions p) else p_actions p).
Proof.
  intros H. pose proof (linux_call_cases _ _ _ H) as Hin. unfold linux_call in H.
  unfold syscall_gate_dispatch. cbn in Hin.
  repeat (destruct Hin as [E|Hin]; [rewrite <- E in *; injection H as <- <-|]); try done;
    cbn -[set_failure set_success translate_open_flags i32 i64 u32 nz];
    unfold pass, machgate_syscall_write_no_sigpipe, write_syscall_with_sigpipe_guard, syscall,
      finish_syscall_result, errno_or_eio, hbind, hret, set_errno, get_errno;
    cbn -[set_failure set_success translate_open_flags i32 i64 u32 nz decide after_write];
    destruct (k_syscall K _ _ _ _) as [[[v|e] m] k];
    cbn -[set_failure set_success translate_open_flags i32 i64 u32 nz decide after_write];
    unfold after_write; try destruct (decide _); unfold kernel_answer;
    cbn -[set_failure set_success translate_open_flags i32 i64 u32 nz blockable];
    try destruct (v <? 0); repeat split; cbn; auto.
Qed.

(** A call the gate does not answer itself goes to the ranges, in order. *)
Lemma gate_to_ranges {K : kernel} (R : ranges) g (p : process guest_vm_table K) :
  ~ In (gs_x g 16) (DARWIN_SYS_exit :: native_calls) ->
  syscall_gate_dispatch R g p =
  try_range (syscall_range_000_099_dispatch R) g (fun g =>
  try_range (syscall_range_100_199_dispatch R) g (fun g =>
  try_range (syscall_range_200_399_dispatch R) g (fun g =>
  try_range (syscall_range_400_plus_dispatch R) g (fun g =>
  hret (Returned (set_failure g DARWIN_ENOSYS)))))) p.
Proof.
  intros Hn. unfold syscall_gate_dispatch, native_calls in *.
  repeat match goal with |- context [if gs_x g 16 =? ?c then _ else _] =>
    destruct (Z.eqb_spec (gs_x g 16) c) as [E|]; [exfalso; apply Hn; rewrite E; cbn; tauto|] end.
  done.
Qed.

(** A call no component knows fails with ENOSYS (78) and the carry flag
    set, whatever the four range dispatchers are, as long as they decline. *)
Theorem unsupported_call_enosys {K : kernel} (R : ranges) g (p : process guest_vm_table K) :
  ~ In (gs_x g 16) (DARWIN_SYS_exit :: native_calls) ->
  (forall q, syscall_range_000_099_dispatch R g q = ((false, Returned g), q)) ->
  (forall q, syscall_range_100_199_dispatch R g q = ((false, Returned g), q)) ->
  (forall q, syscall_range_200_399_dispatch R g q = ((false, Returned g), q)) ->
  (forall q, syscall_range_400_plus_dispatch R g q = ((false, Returned g), q)) ->
  syscall_gate_dispatch R g p = (Returned (set_failure g 78), p).
Proof.
  intros Hn H0 H1 H2 H4. rewrite gate_to_ranges by done. unfold try_range, hbind. rewrite H0, H1, H2, H4. done.
Qed.

(** ** Flag translation *)

Lemma map_bit_spec x i j r k :
  0 <= i -> 0 <= j -> 0 <= k ->
  Z.testbit (map_bit x (2 ^ i) (2 ^ j) r) k = Z.testbit r k || Z.testbit x i && (j =? k).
Proof.
  intros Hi Hj Hk. unfold map_bit. rewrite nz_land_pow2 by lia. destruct (Z.testbit x i).
  - by rewrite Z.lor_spec, Z.pow2_bits_eqb by lia.
  - by rewrite orb_false_r.
Qed.

(** Where each Linux open flag comes from. *)
Definition open_flag_source (k : Z) : option Z :=
  match k with
  | 0 => Some 0 | 1 => Some 1      (* access mode *)
  | 11 => Some 2                   (* O_NONBLOCK *)
  | 10 => Some 3                   (* O_APPEND *)
  | 15 => Some 8                   (* O_NOFOLLOW *)
  | 6 => Some 9                    (* O_CREAT *)
  | 9 => Some 10                   (* O_TRUNC *)
  | 7 => Some 11                   (* O_EXCL *)
  | 8 => Some 17                   (* O_NOCTTY *)
  | 14 => Some 20                  (* O_DIRECTORY *)
  | 19 => Some 24                  (* O_CLOEXEC *)
  | _ => None
  end.

(** Open flags are translated bit by bit: each Linux flag is set exactly
    when the Darwin flag of the same meaning is, and no other bit is ever set. *)
Theorem translate_open_flags_bits f k :
  0 <= k ->
  Z.testbit (translate_open_flags f) k =
  match open_flag_source k with Some i => Z.testbit f i | None => false end.
Proof.
  intros Hk. unfold translate_open_flags.
  change DARWIN_O_NONBLOCK with (2 ^ 2). change DARWIN_O_APPEND with (2 ^ 3).
  change DARWIN_O_NOFOLLOW with (2 ^ 8). change DARWIN_O_CREAT with (2 ^ 9).
  change DARWIN_O_TRUNC with (2 ^ 10). change DARWIN_O_EXCL with (2 ^ 11).
  change DARWIN_O_NOCTTY with (2 ^ 17). change DARWIN_O_DIRECTORY with (2 ^ 20).
  change DARWIN_O_CLOEXEC with (2 ^ 24).
  change O_NONBLOCK with (2 ^ 11). change O_APPEND with (2 ^ 10). change O_NOFOLLOW with (2 ^ 15).
  change O_CREAT with (2 ^ 6). change O_TRUNC with (2 ^ 9). change O_EXCL with (2 ^ 7).
  change O_NOCTTY with (2 ^ 8). change O_DIRECTORY with (2 ^ 14). change O_CLOEXEC with (2 ^ 19).
  rewrite !map_bit_spec, Z.land_spec by lia. change O_ACCMODE with (Z.ones 2).
  destruct (Z.lt_ge_cases k 20) as [Hlt|Hge].
  - assert (Hin : In k (map Z.of_nat (seq 0 20))).
    { apply in_map_iff. exists (Z.to_nat k). split; [lia|]. apply in_seq. lia. }
    cbn in Hin. repeat (destruct Hin as [<-|Hin]; [cbn -[Z.testbit]; change (Z.testbit 3 ?a) with (Nat.ltb (Z.to_nat a) 2);
      cbn -[Z.testbit]; rewrite ?andb_true_r, ?andb_false_r, ?orb_false_r; reflexivity|]). done.
  - rewrite Z.ones_spec_high by lia.
    repeat match goal with |- context [?c =? k] => destruct (Z.eqb_spec c k); [lia|] end.
    rewrite !andb_false_r. cbn. unfold open_flag_source.
    repeat match goal with |- false = match match ?z with _ => _ end with _ => _ end => destruct z end; try done; lia.
Qed.

(** ** fstat *)

Ltac stat_field :=
  repeat (first [ rewrite load_store_same by lia | rewrite load_store_disj by lia ]).

(** A successful fstat leaves the Darwin layout in guest memory: each
    field at its Darwin offset holds the Linux value at the Darwin width, the
    birth time is the change time, the reserved words are zero and no byte
    outside the 144 of the structure changes. *)
Theorem fstat_layout (l : linux_stat) a m :
  let m' := write_darwin_stat a (linux_to_darwin_stat l) m in
  load 4 a m' = l_dev l mod 2 ^ 32 /\ load 2 (a + 4) m' = l_mode l mod 2 ^ 16 /\
  load 2 (a + 6) m' = l_nlink l mod 2 ^ 16 /\ load 8 (a + 8) m' = l_ino l mod 2 ^ 64 /\
  load 4 (a + 16) m' = l_uid l mod 2 ^ 32 /\ load 4 (a + 20) m' = l_gid l mod 2 ^ 32 /\
  load 8 (a + 48) m' = tv_sec (l_mtim l) mod 2 ^ 64 /\
  load 8 (a + 80) m' = tv_sec (l_ctim l) mod 2 ^ 64 /\
  load 8 (a + 96) m' = l_size l mod 2 ^ 64 /\ load 8 (a + 104) m' = l_blocks l mod 2 ^ 64 /\
  load 4 (a + 28) m' = 0 /\ load 4 (a + 116) m' = 0 /\
  forall x, ~ a <= x < a + 144 -> m' x = m x.
Proof.
  cbv zeta. unfold write_darwin_stat, linux_to_darwin_stat.
  cbn [st_dev st_mode st_nlink st_ino st_uid st_gid st_rdev st_atimespec st_mtimespec st_ctimespec
       st_birthtimespec st_size st_blocks st_blksize].
  repeat split; stat_field; try (apply (signed_mod 32); lia); try (unfold u16; by rewrite Zmod_mod);
    try reflexivity.
  - by rewrite load_zeroed by lia.
  - by rewrite load_zeroed by lia.
  - intros x Hx. by rewrite !store_out by lia.
Qed.

(** ** Error numbers *)

Definition LINUX_EAGAIN : Z := 11.
Definition DARWIN_EAGAIN : Z := 35.

(** A kernel on which every call would block. *)
Definition eagain_kernel : kernel :=
  {| kstate := unit; k_syscall _ _ m k := (inr LINUX_EAGAIN, m, k); k_fstat _ k := (inr LINUX_EAGAIN, k);
     k_statfs _ k := (inr LINUX_EAGAIN, k); k_mounts k := (inr LINUX_EAGAIN, k);
     k_sigpending k := (inr LINUX_EAGAIN, k); k_sigaltstack _ k := (inr LINUX_EAGAIN, k) |}.
Definition eagain_proc : process guest_vm_table eagain_kernel :=
  @mk_proc _ eagain_kernel tt 0 (fun _ => default_action) 0 (fun _ => 0) [] [] 1.
Definition no_ranges {K : kernel} : @ranges K :=
  let decline (g : syscall_gate_state) : host guest_vm_table K (bool * outcome) := hret (false, Returned g) in
  {| syscall_range_000_099_dispatch := decline; syscall_range_100_199_dispatch := decline;
     syscall_range_200_399_dispatch := decline; syscall_range_400_plus_dispatch := decline |}.

(** A guest about to make call [nr] with [x] in every other register. *)
Definition guest_call (nr x : Z) : syscall_gate_state := mk_gs (upd (fun _ => x) 16 nr) 0 0 0x1004.

(** The error number a failing native call leaves in x0 is Linux's: a
    read that would block fails with 11, which is not Darwin's EAGAIN (35). *)
Theorem native_errno_is_linux :
  exists g', fst (syscall_gate_dispatch no_ranges (guest_call DARWIN_SYS_read 0) eagain_proc) = Returned g' /\
    gs_x g' 0 = LINUX_EAGAIN /\ gs_x g' 0 <> DARWIN_EAGAIN /\ Z.testbit (gs_nzcv g') 29 = true.
Proof. eexists. split; [reflexivity|]. repeat split; [discriminate]. Qed.

Lemma native_call_answered_witness :
  answered (guest_call DARWIN_SYS_read 0)
    (fst (syscall_gate_dispatch no_ranges (guest_call DARWIN_SYS_read 0) eagain_proc)).
Proof. apply (native_call_answered no_ranges (guest_call DARWIN_SYS_read 0) eagain_proc). left. reflexivity. Defined.

Lemma passthrough_refines_witness :
  fst (syscall_gate_dispatch no_ranges (guest_call DARWIN_SYS_close 3) eagain_proc) =
  Returned (set_failure (guest_call DARWIN_SYS_close 3) LINUX_EAGAIN).
Proof.
  pose proof (passthrough_refines no_ranges (guest_call DARWIN_SYS_close 3) eagain_proc SYS_close [3] eq_refl) as H.
  cbn [k_syscall eagain_kernel] in H. destruct (syscall_gate_dispatch _ _ _) as [o p'].
  destruct H as (->&_). reflexivity.
Defined.

Lemma unsupported_call_enosys_witness :
  syscall_gate_dispatch no_ranges (guest_call 9999 0) eagain_proc =
  (Returned (set_failure (guest_call 9999 0) 78), eagain_proc).
Proof.
  apply (unsupported_call_enosys no_ranges (guest_call 9999 0) eagain_proc).
  - intros H. cbn in H. repeat (destruct H as [H|H]; [discriminate H|]). exact H.
  - reflexivity.
  - reflexivity.
  - reflexivity.
  - reflexivity.
Defined.

Lemma translate_open_flags_bits_witness :
  translate_open_flags 0x601 = 0x241 /\ Z.testbit (translate_open_flags 0x601) 9 = Z.testbit 0x601 10.
Proof. split; [reflexivity|]. apply (translate_open_flags_bits 0x601 9). lia. Defined.

(** ** A system call through the island *)

(** What a call of the dispatcher's machine code promises (the procedure call
    standard): it returns to the address in X30 with SP and X19..X29 as they
    were, and the structure X0 points to has become what [effect] allows. *)
Class GateCall (call : cpu -> cpu -> Prop) (effect : syscall_gate_state -> syscall_gate_state -> Prop) : Prop :=
  gate_call_returns s s' g :
    call s s' -> gate_state_at (cpu_mem s) (cpu_x s 0) g ->
    cpu_pc s' = cpu_x s 30 /\ cpu_sp s' = cpu_sp s /\ (forall r, 19 <= r < 30 -> cpu_x s' r = cpu_x s r) /\
    exists g', effect g g' /\ gate_state_at (cpu_mem s') (cpu_x s 0) g'.

(** The guest after the call: x0..x15, x17, x18, x30 and the flags from the
    structure, x16 the resume address, x19..x29 and SP as before. *)
Record resumed (st st' : cpu) (g : syscall_gate_state) : Prop := {
  re_pc : cpu_pc st' = gs_pc g;
  re_x : forall r, 0 <= r <= 18 -> r <> 16 -> cpu_x st' r = gs_x g r;
  re_x30 : cpu_x st' 30 = gs_x30 g;
  re_saved : forall r, 19 <= r < 30 -> cpu_x st' r = cpu_x st r;
  re_sp : cpu_sp st' = cpu_sp st;
  re_nzcv : cpu_nzcv st' = gs_nzcv g .& 0xF0000000;
}.

(** C18. The syscall island.  From the patched [svc] the guest reaches the
    dispatcher with X0 pointing at a [syscall_gate_state] that holds its
    registers, flags and the address after the [svc]; whatever the dispatcher
    then does to that structure, the guest resumes at the address in it with
    the registers and flags in it, its callee-saved registers and stack
    pointer intact, and no memory above its stack pointer touched on the way
    in. *)
Theorem gate_island_syscall call effect `{GateCall call effect} code st island original dispatcher :
  gate_site code st island original dispatcher ->
  (forall r, 0 <= cpu_x st r < 2 ^ 64) -> 0 <= cpu_nzcv st < 2 ^ 64 -> cpu_pc st = original ->
  exists s1, reaches code st s1 /\ cpu_pc s1 = dispatcher /\
    (forall x, ~ cpu_sp st - 192 <= x < cpu_sp st -> cpu_mem s1 x = cpu_mem st x) /\
    forall s2, call s1 s2 -> exists g st',
      effect (gate_state_of st original) g /\ reaches code s2 st' /\ resumed st st' g.
Proof.
  intros Hs Hx Hf Hpc.
  destruct (gate_calls code st island original dispatcher Hs Hx Hf Hpc)
    as (s1&Hr&Hp&H0&Hsp&H30&Hsv&Hg&Hm).
  exists s1. split; [done|]. split; [done|]. split; [done|]. intros s2 Hc.
  rewrite <- H0 in Hg. destruct (gate_call_returns s1 s2 _ Hc Hg) as (Hp2&Hsp2&Hsv2&g&He&Hg2).
  rewrite H0 in Hg2. rewrite H30 in Hp2. rewrite Hsp in Hsp2.
  destruct (gate_resumes code st island original dispatcher Hs s2 g Hp2 Hsp2 Hg2)
    as (st'&Hr'&Rp&Rx&Rsp&Rf&_&_).
  exists g, st'. split; [done|]. split; [done|]. split; auto.
  - intros r Hr0 Hne. rewrite Rx by lia. unfold resumed_x.
    destruct (Z.eqb_spec r 16), (Z.leb_spec r 18); done || lia.
  - rewrite Rx by lia. reflexivity.
  - intros r Hr0. rewrite Rx by lia. unfold resumed_x.
    destruct (Z.eqb_spec r 16), (Z.leb_spec r 18), (Z.eqb_spec r 30); try lia. by rewrite Hsv2, Hsv.
Qed.

(** A dispatcher that knows no call, as machine code would behave. *)
Definition enosys_call (s s' : cpu) : Prop :=
  let a := cpu_x s 0 in
  s' = set_pc (Arm64.set_mem s (store 8 (a + 160) (load 8 (a + 160) (cpu_mem s) .| SYSCALL_GATE_CARRY)
                                 (store 8 a DARWIN_ENOSYS (cpu_mem s)))) (cpu_x s 30).

#[export] Instance enosys_gate_call : GateCall enosys_call (fun g g' => g' = set_failure g DARWIN_ENOSYS).
Proof.
  intros s s' g -> Hg. cbv zeta. set (a := cpu_x s 0) in *. split; [done|]. split; [done|]. split; [done|].
  eexists. split; [done|]. intros k Hk.
  assert (H20 : load 8 (a + 160) (cpu_mem s) = gs_nzcv g) by (apply (Hg 20); lia).
  pose proof (load_range 8 (a + 160) (cpu_mem s) ltac:(lia)) as Hr. rewrite H20 in Hr.
  change (load 8 (a + 8 * k) (store 8 (a + 160) (load 8 (a + 160) (cpu_mem s) .| SYSCALL_GATE_CARRY)
    (store 8 a DARWIN_ENOSYS (cpu_mem s))) = gate_slot (set_failure g DARWIN_ENOSYS) k). rewrite H20.
  destruct (Z.eq_dec k 0) as [->|]; [|destruct (Z.eq_dec k 20) as [->|]].
  - rewrite load_store_disj by lia. replace (a + 8 * 0) with a by lia. by rewrite load_store_same by lia.
  - change (8 * 20) with 160. rewrite load_store_same by lia. rewrite Z.mod_small; [done|].
    apply lor_range; [lia|lia|split; [discriminate|reflexivity]].
  - rewrite !load_store_disj by lia. rewrite Hg by lia. unfold gate_slot.
    destruct (k <? 19); [|destruct (k =? 19); [done|destruct (Z.eqb_spec k 20); [lia|done]]].
    cbn [gs_x set_failure]. by rewrite upd_ne.
Qed.

Definition gate_code (pc : Z) : option Z :=
  if pc =? 0x1000 then Some (enc_b (i32 (ptrdiff32 0x2000 0x1000)))
  else code_of 0x2000 (emit_island 0x2000 0x1000 0x5000) pc.
Definition gate_cpu : cpu :=
  mkcpu (fun _ => 7) 0x8000 0x1000 0 (fun _ => 0)
        (store 8 (0x2000 + 4 * 94) 0x1004 (store 8 (0x2000 + 4 * 92) 0x5000 (fun _ => 0))) None 0.

Lemma gate_island_syscall_witness :
  exists s1, reaches gate_code gate_cpu s1 /\ cpu_pc s1 = 0x5000 /\
    forall s2, enosys_call s1 s2 -> exists st', reaches gate_code s2 st' /\
      cpu_pc st' = 0x1004 /\ cpu_x st' 0 = 78 /\ cpu_sp st' = 0x8000.
Proof.
  destruct (gate_island_syscall enosys_call _ gate_code gate_cpu 0x2000 0x1000 0x5000)
    as (s1&Hr&Hp&_&Hc).
  - split; try (vm_compute; repeat split; try reflexivity; intros H; discriminate H).
    left. vm_compute. intros H; discriminate H.
  - intros r. vm_compute. split; [intros H; discriminate H|reflexivity].
  - vm_compute. split; [intros H; discriminate H|reflexivity].
  - reflexivity.
  - exists s1. split; [exact Hr|]. split; [exact Hp|]. intros s2 H2.
    destruct (Hc s2 H2) as (g&st'&->&Hr'&[Rp Rx _ _ Rsp _]). exists st'.
    split; [exact Hr'|]. split; [exact Rp|]. split; [|exact Rsp].
    rewrite Rx; [reflexivity|lia|lia].
Defined.
