(* ===== verification/DarwinAbi.v ===== *)
(** * The Darwin side of system calls: src/syscall/syscall_range_000_099.c

    Numbers, flag words and structures of the Darwin kernel interface and
    their translation to Linux and back.  Structures are bytes in memory at
    the offsets both kernels use; a structure the C code keeps on its stack is
    at an address of its own. *)

From S2P Require Import Prelude CStr Host GateDispatch.
Import Dispatch.

Module Abi.

(** ** Constants *)

Definition DARWIN_EPERM : Z := 1.
Definition DARWIN_ENOENT : Z := 2.
Definition DARWIN_EIO : Z := 5.
Definition DARWIN_ECHILD : Z := 10.
Definition DARWIN_EDEADLK : Z := 11.
Definition DARWIN_EFAULT : Z := 14.
Definition DARWIN_EINVAL : Z := 22.
Definition DARWIN_EAGAIN : Z := 35.
Definition DARWIN_ENOTSUP : Z := 45.
Definition DARWIN_EAFNOSUPPORT : Z := 47.
Definition DARWIN_ENAMETOOLONG : Z := 63.

(** Linux error numbers (AArch64). *)
Definition EAGAIN : Z := 11.
Definition EFAULT : Z := 14.
Definition EDEADLK : Z := 35.
Definition ENAMETOOLONG : Z := 36.
Definition ENOSYS : Z := 38.
Definition ENOTSUP : Z := 95.
Definition EAFNOSUPPORT : Z := 97.

Definition DARWIN_SIG_BLOCK : Z := 1.
Definition DARWIN_SIG_UNBLOCK : Z := 2.
Definition DARWIN_SIG_SETMASK : Z := 3.
Definition DARWIN_SIG_DFL : Z := 0.
Definition DARWIN_SIG_IGN : Z := 1.

Definition DARWIN_SA_ONSTACK : Z := 0x0001.
Definition DARWIN_SA_RESTART : Z := 0x0002.
Definition DARWIN_SA_RESETHAND : Z := 0x0004.
Definition DARWIN_SA_NOCLDSTOP : Z := 0x0008.
Definition DARWIN_SA_NODEFER : Z := 0x0010.
Definition DARWIN_SA_NOCLDWAIT : Z := 0x0020.
Definition DARWIN_SA_SIGINFO : Z := 0x0040.
Definition DARWIN_SA_USERSPACE_MASK : Z :=
  DARWIN_SA_ONSTACK .| DARWIN_SA_RESTART .| DARWIN_SA_RESETHAND .| DARWIN_SA_NOCLDSTOP .|
  DARWIN_SA_NODEFER .| DARWIN_SA_NOCLDWAIT .| DARWIN_SA_SIGINFO.

(** [sa_flags] is an [int]: SA_RESETHAND is its sign bit. *)
Definition SA_NOCLDSTOP : Z := 1.
Definition SA_NOCLDWAIT : Z := 2.
Definition SA_SIGINFO : Z := 4.
Definition LINUX_SA_RESTORER : Z := 0x04000000.
Definition SA_ONSTACK : Z := 0x08000000.
Definition SA_RESTART : Z := 0x10000000.
Definition SA_NODEFER : Z := 0x40000000.
Definition SA_RESETHAND : Z := - 0x80000000.

Definition DARWIN_SS_ONSTACK : Z := 1.
Definition DARWIN_SS_DISABLE : Z := 4.
Definition SS_ONSTACK : Z := 1.
Definition SS_DISABLE : Z := 2.

Definition DARWIN_O_ASYNC : Z := 0x00000040.
Definition DARWIN_O_DSYNC : Z := 0x00400000.
Definition O_ASYNC : Z := 0x2000.
Definition O_DSYNC : Z := 0x1000.

Definition DARWIN_F_RDLCK : Z := 1.
Definition DARWIN_F_UNLCK : Z := 2.
Definition DARWIN_F_WRLCK : Z := 3.
Definition F_RDLCK : Z := 0.
Definition F_WRLCK : Z := 1.
Definition F_UNLCK : Z := 2.

Definition DARWIN_MS_ASYNC : Z := 0x0001.
Definition DARWIN_MS_INVALIDATE : Z := 0x0002.
Definition DARWIN_MS_SYNC : Z := 0x0010.
Definition MS_ASYNC : Z := 1.
Definition MS_INVALIDATE : Z := 2.
Definition MS_SYNC : Z := 4.

Definition DARWIN_AF_UNIX : Z := 1.
Definition DARWIN_AF_INET : Z := 2.
Definition DARWIN_AF_INET6 : Z := 30.
Definition AF_UNIX : Z := 1.
Definition AF_INET : Z := 2.
Definition AF_INET6 : Z := 10.

Definition DARWIN_SOCK_CLOEXEC : Z := 0x10000000.
Definition DARWIN_SOCK_NONBLOCK : Z := 0x20000000.
Definition SOCK_CLOEXEC : Z := 0x80000.
Definition SOCK_NONBLOCK : Z := 0x800.

Definition DARWIN_MSG_OOB_FLAG : Z := 0x0001.
Definition DARWIN_MSG_PEEK_FLAG : Z := 0x0002.
Definition DARWIN_MSG_DONTROUTE_FLAG : Z := 0x0004.
Definition DARWIN_MSG_TRUNC_FLAG : Z := 0x0010.
Definition DARWIN_MSG_CTRUNC_FLAG : Z := 0x0020.
Definition DARWIN_MSG_WAITALL_FLAG : Z := 0x0040.
Definition DARWIN_MSG_DONTWAIT_FLAG : Z := 0x0080.
Definition DARWIN_MSG_NOSIGNAL_FLAG : Z := 0x80000.
Definition MSG_OOB : Z := 0x1.
Definition MSG_PEEK : Z := 0x2.
Definition MSG_DONTROUTE : Z := 0x4.
Definition MSG_CTRUNC : Z := 0x8.
Definition MSG_TRUNC : Z := 0x20.
Definition MSG_DONTWAIT : Z := 0x40.
Definition MSG_WAITALL : Z := 0x100.
Definition MSG_NOSIGNAL : Z := 0x4000.

Definition DARWIN_NFDBITS : Z := 32.

(** ** Error numbers *)

Definition darwin_errno_from_linux (linux_errno : Z) : Z :=
  if linux_errno =? 0 then DARWIN_EIO
  else if linux_errno =? EAGAIN then DARWIN_EAGAIN
  else if linux_errno =? EDEADLK then DARWIN_EDEADLK
  else if linux_errno =? ENOSYS then DARWIN_ENOSYS
  else if linux_errno =? ENOTSUP then DARWIN_ENOTSUP
  else if linux_errno =? EAFNOSUPPORT then DARWIN_EAFNOSUPPORT
  else if linux_errno =? ENAMETOOLONG then DARWIN_ENAMETOOLONG
  else linux_errno.

(** ** Flag words *)

(** Darwin flag, Linux flag. *)
Definition open_flag_pairs : list (Z * Z) :=
  [(DARWIN_O_NONBLOCK, O_NONBLOCK); (DARWIN_O_APPEND, O_APPEND); (DARWIN_O_ASYNC, O_ASYNC);
   (DARWIN_O_NOFOLLOW, O_NOFOLLOW); (DARWIN_O_CREAT, O_CREAT); (DARWIN_O_TRUNC, O_TRUNC);
   (DARWIN_O_EXCL, O_EXCL); (DARWIN_O_NOCTTY, O_NOCTTY); (DARWIN_O_DIRECTORY, O_DIRECTORY);
   (DARWIN_O_DSYNC, O_DSYNC); (DARWIN_O_CLOEXEC, O_CLOEXEC)].

Definition translate_open_flags_to_linux (darwin_flags : Z) : Z :=
  fold_left (fun result pair => map_bit darwin_flags (fst pair) (snd pair) result)
    open_flag_pairs (darwin_flags .& O_ACCMODE).
Definition translate_open_flags_to_darwin (linux_flags : Z) : Z :=
  fold_left (fun result pair => map_bit linux_flags (snd pair) (fst pair) result)
    open_flag_pairs (linux_flags .& O_ACCMODE).

Definition translate_msync_flags_to_linux (f : Z) : Z :=
  map_bit f DARWIN_MS_SYNC MS_SYNC (map_bit f DARWIN_MS_INVALIDATE MS_INVALIDATE (map_bit f DARWIN_MS_ASYNC MS_ASYNC 0)).

(** [None]: no such advice.  The first five have the same numbers; MADV_FREE
    is 8 on Linux. *)
Definition translate_madvise_to_linux (darwin_behavior : Z) : option Z :=
  match darwin_behavior with
  | 0 => Some 0 | 1 => Some 1 | 2 => Some 2 | 3 => Some 3 | 4 => Some 4 | 5 => Some 8
  | _ => None
  end.

Definition translate_socket_domain (darwin_domain : Z) : option Z :=
  if darwin_domain =? DARWIN_AF_UNIX then Some AF_UNIX
  else if darwin_domain =? DARWIN_AF_INET then Some AF_INET
  else if darwin_domain =? DARWIN_AF_INET6 then Some AF_INET6
  else None.

Definition translate_socket_type (t : Z) : Z :=
  let linux_type := t .& Z.lnot (DARWIN_SOCK_CLOEXEC .| DARWIN_SOCK_NONBLOCK) in
  map_bit t DARWIN_SOCK_NONBLOCK SOCK_NONBLOCK (map_bit t DARWIN_SOCK_CLOEXEC SOCK_CLOEXEC linux_type).

Definition translate_send_flags (f : Z) : Z :=
  let r := map_bit f DARWIN_MSG_OOB_FLAG MSG_OOB 0 in
  let r := map_bit f DARWIN_MSG_DONTROUTE_FLAG MSG_DONTROUTE r in
  let r := map_bit f DARWIN_MSG_DONTWAIT_FLAG MSG_DONTWAIT r in
  map_bit f DARWIN_MSG_NOSIGNAL_FLAG MSG_NOSIGNAL r.

Definition translate_recv_flags (f : Z) : Z :=
  let r := map_bit f DARWIN_MSG_OOB_FLAG MSG_OOB 0 in
  let r := map_bit f DARWIN_MSG_PEEK_FLAG MSG_PEEK r in
  let r := map_bit f DARWIN_MSG_DONTROUTE_FLAG MSG_DONTROUTE r in
  let r := map_bit f DARWIN_MSG_TRUNC_FLAG MSG_TRUNC r in
  let r := map_bit f DARWIN_MSG_CTRUNC_FLAG MSG_CTRUNC r in
  let r := map_bit f DARWIN_MSG_WAITALL_FLAG MSG_WAITALL r in
  map_bit f DARWIN_MSG_DONTWAIT_FLAG MSG_DONTWAIT r.

(** ** Socket addresses *)

(** The address at [linux_addr] and its length, or an error number. *)
Definition translate_sockaddr (darwin_addr darwin_len linux_addr : Z) (m : bytemem) : (Z + Z) * bytemem :=
  if darwin_addr =? 0 then (inl 0, m)
  else if (darwin_len <? 2) || (128 <? darwin_len) then (inr EINVAL, m)
  else
    let family := load 1 (darwin_addr + 1) m in
    match translate_socket_domain family with
    | None => (inr EAFNOSUPPORT, m)
    | Some _ =>
        let m := memzero linux_addr 128 m in
        if family =? DARWIN_AF_UNIX then
          let path_len := darwin_len - 2 in
          if 108 <? path_len then (inr ENAMETOOLONG, m)
          else
            let m := store 2 linux_addr AF_UNIX m in
            (inl (2 + path_len), memcpy (linux_addr + 2) (darwin_addr + 2) path_len m)
        else if family =? DARWIN_AF_INET then
          if darwin_len <? 16 then (inr EINVAL, m)
          else
            let m := store 2 linux_addr AF_INET m in
            let m := memcpy (linux_addr + 2) (darwin_addr + 2) 2 m in
            (inl 16, memcpy (linux_addr + 4) (darwin_addr + 4) 4 m)
        else
          if darwin_len <? 28 then (inr EINVAL, m)
          else
            let m := store 2 linux_addr AF_INET6 m in
            let m := memcpy (linux_addr + 2) (darwin_addr + 2) 2 m in
            let m := memcpy (linux_addr + 4) (darwin_addr + 4) 4 m in
            let m := memcpy (linux_addr + 8) (darwin_addr + 8) 16 m in
            (inl 28, memcpy (linux_addr + 24) (darwin_addr + 24) 4 m)
    end.

(** [capacity] is the room at [darwin_addr]; the new length, or an error. *)
Definition linux_sockaddr_to_darwin (linux_addr linux_len darwin_addr capacity : Z) (m : bytemem) : (Z + Z) * bytemem :=
  if darwin_addr =? 0 then (inl capacity, m)
  else
    let m := memzero darwin_addr capacity m in
    let family := load 2 linux_addr m in
    if family =? AF_UNIX then
      let path_len := if 2 <? linux_len then linux_len - 2 else 0 in
      if (capacity <? path_len + 2) || (255 <? path_len + 2) then (inr EINVAL, m)
      else
        let m := store 1 darwin_addr (path_len + 2) m in
        let m := store 1 (darwin_addr + 1) DARWIN_AF_UNIX m in
        (inl (path_len + 2), memcpy (darwin_addr + 2) (linux_addr + 2) path_len m)
    else if family =? AF_INET then
      if capacity <? 16 then (inr EINVAL, m)
      else
        let m := store 1 darwin_addr 16 m in
        let m := store 1 (darwin_addr + 1) DARWIN_AF_INET m in
        let m := memcpy (darwin_addr + 2) (linux_addr + 2) 2 m in
        (inl 16, memcpy (darwin_addr + 4) (linux_addr + 4) 4 m)
    else if family =? AF_INET6 then
      if capacity <? 28 then (inr EINVAL, m)
      else
        let m := store 1 darwin_addr 28 m in
        let m := store 1 (darwin_addr + 1) DARWIN_AF_INET6 m in
        let m := memcpy (darwin_addr + 2) (linux_addr + 2) 2 m in
        let m := memcpy (darwin_addr + 4) (linux_addr + 4) 4 m in
        let m := memcpy (darwin_addr + 8) (linux_addr + 8) 16 m in
        (inl 28, memcpy (darwin_addr + 24) (linux_addr + 24) 4 m)
    else (inr EAFNOSUPPORT, m).

(** ** Signals *)

Definition darwin_signal_to_linux (darwin_signal : Z) : Z :=
  match darwin_signal with
  | 0 => 0 | 1 => 1 | 2 => 2 | 3 => 3 | 4 => 4 | 5 => 5 | 6 => 6
  | 8 => 8       (* SIGFPE *)
  | 9 => 9       (* SIGKILL *)
  | 10 => 7      (* SIGBUS *)
  | 11 => 11     (* SIGSEGV *)
  | 12 => 31     (* SIGSYS *)
  | 13 => 13     (* SIGPIPE *)
  | 14 => 14     (* SIGALRM *)
  | 15 => 15     (* SIGTERM *)
  | 16 => 23     (* SIGURG *)
  | 17 => 19     (* SIGSTOP *)
  | 18 => 20     (* SIGTSTP *)
  | 19 => 18     (* SIGCONT *)
  | 20 => 17     (* SIGCHLD *)
  | 21 => 21     (* SIGTTIN *)
  | 22 => 22     (* SIGTTOU *)
  | 23 => 29     (* SIGIO *)
  | 24 => 24     (* SIGXCPU *)
  | 25 => 25     (* SIGXFSZ *)
  | 26 => 26     (* SIGVTALRM *)
  | 27 => 27     (* SIGPROF *)
  | 28 => 28     (* SIGWINCH *)
  | 30 => 10     (* SIGUSR1 *)
  | 31 => 12     (* SIGUSR2 *)
  | _ => -1
  end.

Definition linux_signal_to_darwin (linux_signal : Z) : Z :=
  match linux_signal with
  | 1 => 1 | 2 => 2 | 3 => 3 | 4 => 4 | 5 => 5 | 6 => 6
  | 8 => 8 | 9 => 9 | 7 => 10 | 11 => 11 | 31 => 12 | 13 => 13 | 14 => 14 | 15 => 15
  | 23 => 16 | 19 => 17 | 20 => 18 | 18 => 19 | 17 => 20 | 21 => 21 | 22 => 22 | 29 => 23
  | 24 => 24 | 25 => 25 | 26 => 26 | 27 => 27 | 28 => 28 | 10 => 30 | 12 => 31
  | _ => 0
  end.

(** [None]: an option Linux does not have. *)
Definition darwin_wait_options_to_linux (darwin_options : Z) : option Z :=
  if nz (darwin_options .& Z.lnot (1 .| 2 .| 0x10)) then None
  else Some (map_bit darwin_options 0x10 8 (map_bit darwin_options 2 2 (map_bit darwin_options 1 1 0))).

(** [WIFSIGNALED], [WIFSTOPPED] of Linux. *)
Definition WIFSIGNALED (s : Z) : bool := 0 <? (signed 8 ((s .& 0x7f) + 1) .>> 1).
Definition WIFSTOPPED (s : Z) : bool := s .& 0xff =? 0x7f.

Definition linux_wait_status_to_darwin (linux_status : Z) : Z :=
  if WIFSIGNALED linux_status then
    let darwin_signal := linux_signal_to_darwin (linux_status .& 0x7f) in
    (linux_status .& Z.lnot 0x7f) .| (darwin_signal .& 0x7f)
  else if WIFSTOPPED linux_status then
    let darwin_signal := linux_signal_to_darwin ((linux_status .& 0xff00) .>> 8) in
    (linux_status .& Z.lnot 0xff00) .| ((darwin_signal .& 0xff) .<< 8)
  else linux_status.

(** [struct rusage] at [l] to Darwin's at [d]: times with 32-bit microseconds,
    then fourteen counters. *)
Definition linux_rusage_to_darwin (l d : Z) (m : bytemem) : bytemem :=
  let time o m := store 4 (d + o + 12) 0 (store 4 (d + o + 8) (load 8 (l + o + 8) m) (store 8 (d + o) (load 8 (l + o) m) m)) in
  fold_left (fun m o => store 8 (d + o) (load 8 (l + o) m) m)
    [32; 40; 48; 56; 64; 72; 80; 88; 96; 104; 112; 120; 128; 136] (time 16 (time 0 m)).

(** Signal sets; [None]: a signal Linux does not have. *)
Definition sigset_step (darwin_set : Z) (acc : option Z) (darwin_signal : Z) : option Z :=
  match acc with
  | None => None
  | Some linux_set =>
      if nz (darwin_set .& (1 .<< (darwin_signal - 1))) then
        let linux_signal := darwin_signal_to_linux darwin_signal in
        if linux_signal <=? 0 then None else Some (linux_set .| (1 .<< (linux_signal - 1)))
      else Some linux_set
  end.
Definition darwin_sigset_to_linux (darwin_set : Z) : option Z :=
  fold_left (sigset_step darwin_set) (seqZ 1 31) (Some 0).

Definition sigset_back (linux_set result linux_signal : Z) : Z :=
  if nz (linux_set .& (1 .<< (linux_signal - 1))) then
    let darwin_signal := linux_signal_to_darwin linux_signal in
    if 0 <? darwin_signal then result .| (1 .<< (darwin_signal - 1)) else result
  else result.
Definition linux_sigset_to_darwin (linux_set : Z) : Z :=
  fold_left (sigset_back linux_set) (seqZ 1 (NSIG - 1)) 0.

Definition sigaction_flag_pairs : list (Z * Z) :=
  [(DARWIN_SA_ONSTACK, SA_ONSTACK); (DARWIN_SA_RESTART, SA_RESTART); (DARWIN_SA_RESETHAND, SA_RESETHAND);
   (DARWIN_SA_NOCLDSTOP, SA_NOCLDSTOP); (DARWIN_SA_NODEFER, SA_NODEFER); (DARWIN_SA_NOCLDWAIT, SA_NOCLDWAIT);
   (DARWIN_SA_SIGINFO, SA_SIGINFO)].

Definition darwin_sigaction_flags_to_linux (darwin_flags : Z) : option Z :=
  if nz (darwin_flags .& Z.lnot DARWIN_SA_USERSPACE_MASK) then None
  else Some (fold_left (fun r pair => map_bit darwin_flags (fst pair) (snd pair) r) sigaction_flag_pairs 0).

Definition linux_sigaction_flags_to_darwin (linux_flags : Z) : option Z :=
  let supported_flags := SA_ONSTACK .| SA_RESTART .| SA_RESETHAND .| SA_NOCLDSTOP .| SA_NODEFER .|
                         SA_NOCLDWAIT .| SA_SIGINFO .| LINUX_SA_RESTORER in
  if nz (linux_flags .& Z.lnot supported_flags) then None
  else Some (fold_left (fun r pair => map_bit linux_flags (snd pair) (fst pair) r) sigaction_flag_pairs 0).

Record darwin_sigaction := mk_dsa { dsa_handler : Z; dsa_mask : Z; dsa_flags : Z }.

Definition darwin_sigaction_to_linux (a : darwin_sigaction) : option sigact :=
  if DARWIN_SIG_IGN <? dsa_handler a then None
  else match darwin_sigaction_flags_to_linux (dsa_flags a) with
       | None => None
       | Some linux_flags =>
           match darwin_sigset_to_linux (dsa_mask a) with
           | None => None
           | Some mask => Some (mk_sa (if dsa_handler a =? DARWIN_SIG_IGN then SIG_IGN else SIG_DFL) mask linux_flags)
           end
       end.

Definition linux_sigaction_to_darwin (a : sigact) : option darwin_sigaction :=
  let with_handler h :=
    match linux_sigaction_flags_to_darwin (sa_flags a) with
    | None => None
    | Some darwin_flags => Some (mk_dsa h (linux_sigset_to_darwin (sa_mask a)) darwin_flags)
    end in
  match sa_handler a with
  | SIG_IGN => with_handler DARWIN_SIG_IGN
  | SIG_DFL => with_handler DARWIN_SIG_DFL
  | SIG_FN _ => None
  end.

(** -1: unknown. *)
Definition darwin_sigprocmask_how_to_linux (darwin_how : Z) : Z :=
  if darwin_how =? DARWIN_SIG_BLOCK then SIG_BLOCK
  else if darwin_how =? DARWIN_SIG_UNBLOCK then SIG_UNBLOCK
  else if darwin_how =? DARWIN_SIG_SETMASK then SIG_SETMASK
  else -1.

Definition darwin_sigaltstack_flags_to_linux (f : Z) : option Z :=
  let linux_flags := map_bit f DARWIN_SS_DISABLE SS_DISABLE (map_bit f DARWIN_SS_ONSTACK SS_ONSTACK 0) in
  if nz (f .& Z.lnot (DARWIN_SS_ONSTACK .| DARWIN_SS_DISABLE)) then None else Some linux_flags.
Definition linux_sigaltstack_flags_to_darwin (f : Z) : Z :=
  map_bit f SS_DISABLE DARWIN_SS_DISABLE (map_bit f SS_ONSTACK DARWIN_SS_ONSTACK 0).

(** ** File locks *)

(** Linux: l_type 0, l_whence 2, l_start 8, l_len 16, l_pid 24; 32 bytes.
    [false]: an unknown lock type. *)
Definition darwin_flock_to_linux (d out : Z) (m : bytemem) : bool * bytemem :=
  let l_start := load 8 d m in
  let l_len := load 8 (d + 8) m in
  let l_pid := load 4 (d + 16) m in
  let l_type := i16 (load 2 (d + 20) m) in
  let l_whence := load 2 (d + 22) m in
  let fill linux_type :=
    let m := memzero out 32 m in
    let m := store 2 out linux_type m in
    let m := store 2 (out + 2) l_whence m in
    let m := store 8 (out + 8) l_start m in
    let m := store 8 (out + 16) l_len m in
    (true, store 4 (out + 24) l_pid m) in
  if l_type =? DARWIN_F_RDLCK then fill F_RDLCK
  else if l_type =? DARWIN_F_WRLCK then fill F_WRLCK
  else if l_type =? DARWIN_F_UNLCK then fill F_UNLCK
  else (false, m).

Definition linux_flock_to_darwin (l d : Z) (m : bytemem) : bytemem :=
  let l_type := i16 (load 2 l m) in
  let darwin_type := if l_type =? F_RDLCK then DARWIN_F_RDLCK else if l_type =? F_WRLCK then DARWIN_F_WRLCK else DARWIN_F_UNLCK in
  let l_start := load 8 (l + 8) m in
  let l_len := load 8 (l + 16) m in
  let l_pid := load 4 (l + 24) m in
  let l_whence := load 2 (l + 2) m in
  let m := store 8 d l_start m in
  let m := store 8 (d + 8) l_len m in
  let m := store 4 (d + 16) l_pid m in
  let m := store 2 (d + 20) darwin_type m in
  store 2 (d + 22) l_whence m.

(** ** Descriptor sets *)

(** [FD_SET], [FD_ISSET]: words of 64 bits. *)
Definition FD_SET (fd set : Z) (m : bytemem) : bytemem :=
  store 8 (set + 8 * (fd / 64)) (load 8 (set + 8 * (fd / 64)) m .| (1 .<< (fd mod 64))) m.
Definition FD_ISSET (fd set : Z) (m : bytemem) : bool := nz (load 8 (set + 8 * (fd / 64)) m .& (1 .<< (fd mod 64))).

Definition fdset_step (darwin_set linux_set : Z) (m : bytemem) (fd : Z) : bytemem :=
  if nz (load 4 (darwin_set + 4 * (fd / DARWIN_NFDBITS)) m .& (1 .<< (fd mod DARWIN_NFDBITS)))
  then FD_SET fd linux_set m else m.
Definition darwin_fdset_to_linux (nfds darwin_set linux_set : Z) (m : bytemem) : bytemem :=
  let m := memzero linux_set 128 m in
  if darwin_set =? 0 then m else fold_left (fdset_step darwin_set linux_set) (seqZ 0 nfds) m.

Definition fdset_back (linux_set darwin_set : Z) (m : bytemem) (fd : Z) : bytemem :=
  if FD_ISSET fd linux_set m then
    let a := darwin_set + 4 * (fd / DARWIN_NFDBITS) in
    store 4 a (load 4 a m .| (1 .<< (fd mod DARWIN_NFDBITS))) m
  else m.
Definition linux_fdset_to_darwin (nfds linux_set darwin_set : Z) (m : bytemem) : bytemem :=
  if darwin_set =? 0 then m
  else
    let words := (nfds + DARWIN_NFDBITS - 1) / DARWIN_NFDBITS in
    fold_left (fdset_back linux_set darwin_set) (seqZ 0 nfds) (memzero darwin_set (4 * words) m).

(** ** File systems *)

(** Darwin's [struct statfs], 2168 bytes. *)
Definition linux_to_darwin_statfs (l : linux_statfs) (d : Z) (type_name mount_path mounted_from : cstr) (m : bytemem) : bytemem :=
  let m := memzero d 2168 m in
  let m := store 4 d (lf_bsize l) m in
  let m := store 4 (d + 4) (lf_frsize l) m in
  let m := store 8 (d + 8) (lf_blocks l) m in
  let m := store 8 (d + 16) (lf_bfree l) m in
  let m := store 8 (d + 24) (lf_bavail l) m in
  let m := store 8 (d + 32) (lf_files l) m in
  let m := store 8 (d + 40) (lf_ffree l) m in
  let m := store 4 (d + 48) (lf_fsid0 l) m in
  let m := store 4 (d + 52) (lf_fsid1 l) m in
  let m := store 4 (d + 60) (lf_type l) m in
  let m := store 4 (d + 64) (lf_flags l) m in
  let m := snprintf_s (d + 72) 16 type_name m in
  let m := snprintf_s (d + 88) 1024 mount_path m in
  snprintf_s (d + 1112) 1024 mounted_from m.

(** ** Paths *)

Definition is_digit (c : ascii) : bool := match digit_of c with Some _ => true | None => false end.

Definition should_hide_proc_exe_symlink (path : cstr) : bool :=
  if streq path (str "/proc/self/exe") then false
  else match strip_prefix (str "/proc/") path with
       | None => false
       | Some cursor =>
           match cursor with
           | c :: _ => is_digit c && streq (drop_while is_digit cursor) (str "/exe")
           | [] => false
           end
       end.
End Abi.
