(* ===== verification/DarwinAbiTheorems.v ===== *)
(** * The Darwin side of system calls: what the translations preserve *)

From S2P Require Import Prelude CStr Host GateDispatch GateTheorems DarwinAbi.
Import Dispatch Abi.

(** ** Signal numbers *)

(** The Darwin signals Linux has: all but SIGEMT (7) and SIGINFO (29). *)
Definition shared_signal (d : Z) : bool := (1 <=? d) && (d <=? 31) && negb (d =? 7) && negb (d =? 29).

(** A property of the 31 signals, by computation. *)
Lemma signals_all (f : Z -> bool) : forallb f (seqZ 1 31) = true -> forall d, 1 <= d <= 31 -> f d = true.
Proof. intros H d Hd. rewrite forallb_forall in H. apply H, in_seqZ_iff. lia. Qed.

Lemma signal_to_linux d :
  1 <= d <= 31 ->
  if shared_signal d then 1 <= darwin_signal_to_linux d <= 31 /\ linux_signal_to_darwin (darwin_signal_to_linux d) = d
  else darwin_signal_to_linux d = -1.
Proof.
  intros Hd. pose proof (signals_all (fun d =>
    if shared_signal d then (1 <=? darwin_signal_to_linux d) && (darwin_signal_to_linux d <=? 31) &&
                            (linux_signal_to_darwin (darwin_signal_to_linux d) =? d)
    else darwin_signal_to_linux d =? -1) eq_refl d Hd) as H. cbv beta in H.
  destruct (shared_signal d); lia.
Qed.

Lemma signal_to_darwin l :
  1 <= l <= 64 -> linux_signal_to_darwin l <> 0 ->
  shared_signal (linux_signal_to_darwin l) = true /\ darwin_signal_to_linux (linux_signal_to_darwin l) = l.
Proof.
  intros Hl Hn.
  assert (H : forallb (fun l => (linux_signal_to_darwin l =? 0) ||
      shared_signal (linux_signal_to_darwin l) && (darwin_signal_to_linux (linux_signal_to_darwin l) =? l)) (seqZ 1 64) = true)
    by reflexivity.
  rewrite forallb_forall in H. specialize (H l ltac:(apply in_seqZ_iff; lia)).
  apply orb_prop in H as [H|H]; [lia|]. apply andb_prop in H as [-> H]. split; [done|lia].
Qed.

(** ** Signal sets *)

Lemma nz_land_shift x i : 0 <= i -> nz (x .& (1 .<< i)) = Z.testbit x i.
Proof. intros Hi. rewrite Z.shiftl_1_l. by apply nz_land_pow2. Qed.

Lemma testbit_set_bit r j k : 0 <= j -> 0 <= k -> Z.testbit (r .| (1 .<< j)) k = Z.testbit r k || (j =? k).
Proof. intros Hj Hk. rewrite Z.lor_spec, Z.shiftl_1_l, Z.pow2_bits_eqb by lia. done. Qed.

Lemma sigset_fold s l acc :
  Forall (fun d => 1 <= d <= 31) l ->
  match fold_left (sigset_step s) l (Some acc) with
  | Some r => (forall d, In d l -> Z.testbit s (d - 1) = true -> shared_signal d = true) /\
              forall k, 0 <= k -> Z.testbit r k = true <->
                Z.testbit acc k = true \/ exists d, In d l /\ Z.testbit s (d - 1) = true /\ darwin_signal_to_linux d - 1 = k
  | None => exists d, In d l /\ Z.testbit s (d - 1) = true /\ shared_signal d = false
  end.
Proof.
  revert acc. induction l as [|d l IH]; intros acc Hl; cbn [fold_left].
  - split; [done|]. intros k Hk. split; [by left|]. intros [H|(d&[]&_)]. done.
  - apply Forall_cons in Hl as [Hd Hl]. cbn [sigset_step]. rewrite nz_land_shift by lia.
    pose proof (signal_to_linux d Hd) as Hs. destruct (Z.testbit s (d - 1)) eqn:Eb.
    + destruct (shared_signal d) eqn:Es.
      * destruct Hs as [Hr _]. destruct (Z.leb_spec (darwin_signal_to_linux d) 0) as [|_]; [lia|].
        specialize (IH (acc .| (1 .<< (darwin_signal_to_linux d - 1))) Hl). destruct (fold_left _ _ _).
        -- destruct IH as [H1 H2]. split; [intros x [<-|Hx]; [done|by apply H1]|]. intros k Hk. rewrite (H2 k Hk).
           rewrite testbit_set_bit, orb_true_iff, Z.eqb_eq by lia.
           split; [intros [[?|?]|(x&?&?)]; [by left|right; exists d|right; exists x]; naive_solver|].
           intros [?|(x&[<-|Hx]&Hw)]; [by left; left|left; right; tauto|right; by exists x].
        -- destruct IH as (x&Hx&H). exists x. split; [by right|done].
      * rewrite Hs. cbn. assert (E : fold_left (sigset_step s) l None = None) by (clear; induction l; [done|by cbn]).
        rewrite E. exists d. split; [by left|done].
    + specialize (IH acc Hl). destruct (fold_left _ _ _).
      * destruct IH as [H1 H2]. split; [intros x [<-|Hx]; [congruence|by apply H1]|]. intros k Hk. rewrite (H2 k Hk).
        split; (intros [?|(x&Hx&H)]; [by left|right; exists x]); [naive_solver|]. destruct Hx as [<-|Hx]; [|done].
        destruct H as [H _]. congruence.
      * destruct IH as (x&Hx&H). exists x. split; [by right|done].
Qed.

Lemma sigset_back_fold s l acc k :
  Forall (fun x => 1 <= x) l -> 0 <= k ->
  Z.testbit (fold_left (sigset_back s) l acc) k = true <->
  Z.testbit acc k = true \/
  exists x, In x l /\ Z.testbit s (x - 1) = true /\ 0 < linux_signal_to_darwin x /\ linux_signal_to_darwin x - 1 = k.
Proof.
  intros Hl Hk. revert acc. induction Hl as [|x l Hx Hl IH]; intros acc; cbn [fold_left].
  - split; [by left|]. intros [H|(x&[]&_)]. done.
  - rewrite IH. unfold sigset_back. rewrite nz_land_shift by lia.
    destruct (Z.testbit s (x - 1)) eqn:Eb; [destruct (Z.ltb_spec 0 (linux_signal_to_darwin x))|].
    + rewrite testbit_set_bit, orb_true_iff, Z.eqb_eq by lia.
      split; [intros [[?|?]|(y&?&?)]; [by left|right; exists x|right; exists y]; naive_solver|].
      intros [?|(y&[<-|Hy]&H')]; [by left; left|left; right; tauto|right; by exists y].
    + split; (intros [?|(y&Hy&H')]; [by left|right; exists y]); [naive_solver|]. destruct Hy as [<-|Hy]; [lia|done].
    + split; (intros [?|(y&Hy&H')]; [by left|right; exists y]); [naive_solver|]. destruct Hy as [<-|Hy]; [|done].
      destruct H' as [H' _]. congruence.
Qed.

(** What each direction does to a single signal. *)
Lemma sigset_to_linux s :
  match darwin_sigset_to_linux s with
  | Some l => (forall d, 1 <= d <= 31 -> Z.testbit s (d - 1) = true -> shared_signal d = true) /\
              (forall d, shared_signal d = true -> Z.testbit l (darwin_signal_to_linux d - 1) = Z.testbit s (d - 1)) /\
              (forall k, 0 <= k -> Z.testbit l k = true -> exists d, shared_signal d = true /\ darwin_signal_to_linux d - 1 = k)
  | None => exists d, 1 <= d <= 31 /\ Z.testbit s (d - 1) = true /\ shared_signal d = false
  end.
Proof.
  unfold darwin_sigset_to_linux.
  assert (Hl : Forall (fun d => 1 <= d <= 31) (seqZ 1 31)).
  { apply Forall_forall. intros x Hx%elem_of_seqZ. lia. }
  pose proof (sigset_fold s _ 0 Hl) as H. destruct (fold_left _ _ _) as [l|].
  - destruct H as [H1 H2]. split; [intros d Hd; apply H1, in_seqZ_iff; lia|]. split.
    + intros d Hd. assert (Hr : 1 <= d <= 31) by (unfold shared_signal in Hd; lia).
      pose proof (signal_to_linux d Hr) as Hs. rewrite Hd in Hs. destruct Hs as [Hs Hi].
      apply eq_true_iff_eq. rewrite H2 by lia. rewrite Z.bits_0. split.
      * intros [?|(x&Hx&Hb&He)]; [done|]. apply in_seqZ_iff in Hx.
        pose proof (signal_to_linux x ltac:(lia)) as Hsx. rewrite (H1 x) in Hsx; [|apply in_seqZ_iff; lia|done].
        replace (darwin_signal_to_linux x) with (darwin_signal_to_linux d) in Hsx by lia.
        assert (x = d) by (rewrite <- Hi; symmetry; apply Hsx). by subst.
      * intros Hb. right. exists d. split; [apply in_seqZ_iff; lia|done].
    + intros k Hk Hb. apply H2 in Hb; [|done]. rewrite Z.bits_0 in Hb. destruct Hb as [?|(d&Hd&Hb&He)]; [done|].
      exists d. split; [by apply H1|done].
  - destruct H as (d&Hd&H). exists d. apply in_seqZ_iff in Hd. split; [lia|done].
Qed.

Lemma sigset_to_darwin l k :
  0 <= k -> Z.testbit (linux_sigset_to_darwin l) k = shared_signal (k + 1) && Z.testbit l (darwin_signal_to_linux (k + 1) - 1).
Proof.
  intros Hk. unfold linux_sigset_to_darwin. apply eq_true_iff_eq.
  rewrite sigset_back_fold; [|apply Forall_forall; intros x Hx%elem_of_seqZ; lia|done].
  rewrite Z.bits_0, andb_true_iff. split.
  - intros [?|(x&Hx&Hb&Hp&He)]; [done|]. apply in_seqZ_iff in Hx. unfold NSIG in Hx.
    destruct (signal_to_darwin x ltac:(lia) ltac:(lia)) as [H1 H2].
    replace (k + 1) with (linux_signal_to_darwin x) by lia. by rewrite H2.
  - intros [Hs Hb]. right. pose proof (signal_to_linux (k + 1) ltac:(unfold shared_signal in Hs; lia)) as H. rewrite Hs in H.
    exists (darwin_signal_to_linux (k + 1)). unfold NSIG. rewrite in_seqZ_iff. destruct H as [H ->].
    repeat split; try lia; done.
Qed.

Lemma darwin_sigset_bits l k : 31 <= k -> Z.testbit (linux_sigset_to_darwin l) k = false.
Proof.
  intros Hk. rewrite sigset_to_darwin by lia. unfold shared_signal. destruct (Z.leb_spec (k + 1) 31); [lia|].
  by rewrite andb_false_r.
Qed.

(** A mask keeps its meaning on the way to Linux and back; bit 31 is no
    signal. *)
Lemma sigset_round_trip s l : darwin_sigset_to_linux s = Some l -> linux_sigset_to_darwin l = s .& Z.ones 31.
Proof.
  intros Hl. pose proof (sigset_to_linux s) as H. rewrite Hl in H. destruct H as (H1&H2&_).
  apply Z.bits_inj'. intros k Hk. rewrite Z.land_spec. destruct (Z.lt_ge_cases k 31).
  - rewrite Z.ones_spec_low, andb_true_r by lia. rewrite sigset_to_darwin by lia. destruct (shared_signal (k + 1)) eqn:E.
    + rewrite (H2 _ E). cbn. f_equal. lia.
    + cbn. destruct (Z.testbit s k) eqn:Eb; [|done]. rewrite (H1 (k + 1)) in E; [done|lia|].
      by replace (k + 1 - 1) with k by lia.
  - by rewrite darwin_sigset_bits, Z.ones_spec_high, andb_false_r by lia.
Qed.

(** The Darwin view of a Linux set commutes with the set operations. *)
Lemma sigset_view_lor a b : linux_sigset_to_darwin (a .| b) = linux_sigset_to_darwin a .| linux_sigset_to_darwin b.
Proof.
  apply Z.bits_inj'. intros k Hk. rewrite Z.lor_spec, !sigset_to_darwin by done. rewrite Z.lor_spec.
  by destruct (shared_signal (k + 1)).
Qed.

Lemma sigset_view_diff a b :
  linux_sigset_to_darwin (a .& Z.lnot b) = linux_sigset_to_darwin a .& Z.lnot (linux_sigset_to_darwin b).
Proof.
  apply Z.bits_inj'. intros k Hk. rewrite Z.land_spec, Z.lnot_spec, !sigset_to_darwin by done.
  destruct (shared_signal (k + 1)) eqn:E; [|done]. rewrite Z.land_spec, Z.lnot_spec; [done|].
  pose proof (signal_to_linux (k + 1) ltac:(unfold shared_signal in E; lia)) as H. rewrite E in H. lia.
Qed.
