(* ===== verification/Range000.v ===== *)
(** * System calls 0 to 99: src/syscall/syscall_range_000_099.c

    One definition per handler and the dispatcher.  Locals whose address goes
    to the kernel live in memory from [frame] on; [execve] is
    [machgate_execve_macho_guest], which only returns, with an error, when the
    program was not started.  Tracing is left out. *)

From S2P Require Import Prelude CStr Host GuestVm GateIsland GateDispatch DarwinAbi.
Import Gate Dispatch Abi.

Module Range000.

(** Linux system call numbers (AArch64). *)
Definition SYS_dup : Z := 23.
Definition SYS_dup3 : Z := 24.
Definition SYS_fcntl : Z := 25.
Definition SYS_ioctl : Z := 29.
Definition SYS_mknodat : Z := 33.
Definition SYS_unlinkat : Z := 35.
Definition SYS_symlinkat : Z := 36.
Definition SYS_linkat : Z := 37.
Definition SYS_ftruncate : Z := 46.
Definition SYS_fallocate : Z := 47.
Definition SYS_faccessat : Z := 48.
Definition SYS_chdir : Z := 49.
Definition SYS_fchdir : Z := 50.
Definition SYS_fchmodat : Z := 53.
Definition SYS_fchownat : Z := 54.
Definition SYS_pipe2 : Z := 59.
Definition SYS_pselect6 : Z := 72.
Definition SYS_readlinkat : Z := 78.
Definition SYS_newfstatat : Z := 79.
Definition SYS_sync : Z := 81.
Definition SYS_fsync : Z := 82.
Definition SYS_acct : Z := 89.
Definition SYS_getitimer : Z := 102.
Definition SYS_setitimer : Z := 103.
Definition SYS_kill : Z := 129.
Definition SYS_setpriority : Z := 140.
Definition SYS_setuid : Z := 146.
Definition SYS_setpgid : Z := 154.
Definition SYS_getpgid : Z := 155.
Definition SYS_getgroups : Z := 158.
Definition SYS_setgroups : Z := 159.
Definition SYS_umask : Z := 166.
Definition SYS_getpid : Z := 172.
Definition SYS_getppid : Z := 173.
Definition SYS_getuid : Z := 174.
Definition SYS_geteuid : Z := 175.
Definition SYS_getgid : Z := 176.
Definition SYS_getegid : Z := 177.
Definition SYS_socket : Z := 198.
Definition SYS_accept : Z := 202.
Definition SYS_connect : Z := 203.
Definition SYS_getsockname : Z := 204.
Definition SYS_getpeername : Z := 205.
Definition SYS_recvfrom : Z := 207.
Definition SYS_sendmsg : Z := 211.
Definition SYS_recvmsg : Z := 212.
Definition SYS_clone : Z := 220.
Definition SYS_msync : Z := 227.
Definition SYS_mincore : Z := 232.
Definition SYS_madvise : Z := 233.
Definition SYS_wait4 : Z := 260.
Definition SYS_prlimit64 : Z := 261.

Definition SIGCHLD : Z := 17.
Definition RLIMIT_NOFILE : Z := 7.
Definition FD_SETSIZE : Z := 1024.
Definition FD_CLOEXEC : Z := 1.
Definition F_GETFD : Z := 1.
Definition F_SETFD : Z := 2.

Definition MACHGATE_LOGIN_NAME_MAX : Z := 256.
Definition DARWIN_F_PREALLOCATE : Z := 42.
Definition DARWIN_F_FULLFSYNC : Z := 51.
Definition DARWIN_F_ALLOCATEALL : Z := 0x04.
Definition DARWIN_F_PEOFPOSMODE : Z := 3.
Definition DARWIN_F_GETLK : Z := 7.
Definition DARWIN_F_SETLK : Z := 8.
Definition DARWIN_F_SETLKW : Z := 9.
Definition F_GETFL : Z := 3.
Definition F_SETFL : Z := 4.
Definition DARWIN_FIOCLEX : Z := 0x20006601.
Definition DARWIN_FIONCLEX : Z := 0x20006602.
Definition DARWIN_FD_SETSIZE : Z := 1024.

Section range.
Context {K : kernel} (frame : Z) (execve : Z -> Z -> Z -> host guest_vm_table K (option Z)).
Local Abbreviation hostm := (host guest_vm_table K).
Local Open Scope host_scope.

(** Reads and writes of memory. *)
Definition ld (n a : Z) : hostm Z := let* m := get_mem in hret (load n a m).
Definition on_mem {A} (f : bytemem -> A * bytemem) : hostm A :=
  let* m := get_mem in let r := f m in do* set_mem (snd r) in hret (fst r).
Definition st (n a v : Z) : hostm unit := on_mem (fun m => (tt, store n a v m)).

Definition finish_syscall_result (g : syscall_gate_state) (result : Z) : hostm syscall_gate_state :=
  if result <? 0 then let* e := get_errno in hret (set_failure g (darwin_errno_from_linux e))
  else hret (set_success g result).

(** [errno = 0; finish_syscall_result(state, syscall(nr, args))] *)
Definition forward (g : syscall_gate_state) (nr : Z) (args : list Z) : hostm syscall_gate_state :=
  do* set_errno 0 in
  let* result := syscall nr args in
  finish_syscall_result g result.

(** [set_failure(state, darwin_errno_from_linux(errno))] after [errno = e]. *)
Definition fail_errno (g : syscall_gate_state) (e : Z) : hostm syscall_gate_state :=
  do* set_errno e in hret (set_failure g (darwin_errno_from_linux e)).

Definition range_000_in_fork_child : hostm bool := fun p =>
  let '(pid, p') := syscall SYS_getpid [] p in
  if nz (p_first_pid p) then (negb (i32 pid =? p_first_pid p), p') else (false, p).

(** ** Sockets *)

(** Layout of the frame: [linux_msg] at 0, [linux_name] at 64,
    [linux_name_len] at 192. *)
Definition linux_msg : Z := frame.
Definition linux_name : Z := frame + 64.
Definition linux_name_len : Z := frame + 192.

Definition prepare_linux_msghdr (darwin_msg : Z) : hostm (unit + Z) :=
  if darwin_msg =? 0 then hret (inr EFAULT)
  else
    let* control := ld 8 (darwin_msg + 32) in
    let* controllen := ld 4 (darwin_msg + 40) in
    if nz control || nz controllen then hret (inr ENOSYS)
    else
      do* on_mem (fun m => (tt, memzero linux_msg 56 m)) in
      let* iov := ld 8 (darwin_msg + 16) in
      do* st 8 (linux_msg + 16) iov in
      let* iovlen := ld 4 (darwin_msg + 24) in
      do* st 8 (linux_msg + 24) (i32 iovlen) in
      let* flags := ld 4 (darwin_msg + 44) in
      do* st 4 (linux_msg + 48) flags in
      let* name := ld 8 darwin_msg in
      if name =? 0 then hret (inl tt)
      else
        let* namelen := ld 4 (darwin_msg + 8) in
        let* r := on_mem (translate_sockaddr name namelen linux_name) in
        match r with
        | inr e => hret (inr e)
        | inl len =>
            do* st 8 linux_msg linux_name in
            do* st 4 (linux_msg + 8) len in
            hret (inl tt)
        end.

Definition handle_sendmsg (g : syscall_gate_state) : hostm syscall_gate_state :=
  let* r := prepare_linux_msghdr (gs_x g 1) in
  match r with
  | inr e => fail_errno g e
  | inl _ => forward g SYS_sendmsg [i32 (gs_x g 0); linux_msg; translate_send_flags (i32 (gs_x g 2))]
  end.

Definition handle_recvmsg (g : syscall_gate_state) : hostm syscall_gate_state :=
  let darwin_msg := gs_x g 1 in
  if darwin_msg =? 0 then hret (set_failure g DARWIN_EFAULT)
  else
    let* control := ld 8 (darwin_msg + 32) in
    let* controllen := ld 4 (darwin_msg + 40) in
    if nz control || nz controllen then hret (set_failure g DARWIN_ENOSYS)
    else
      do* on_mem (fun m => (tt, memzero linux_msg 56 m)) in
      let* iov := ld 8 (darwin_msg + 16) in
      do* st 8 (linux_msg + 16) iov in
      let* iovlen := ld 4 (darwin_msg + 24) in
      do* st 8 (linux_msg + 24) (i32 iovlen) in
      let* name := ld 8 darwin_msg in
      do* (if name =? 0 then hret tt
           else do* st 8 linux_msg linux_name in st 4 (linux_msg + 8) 128) in
      do* set_errno 0 in
      let* result := syscall SYS_recvmsg [i32 (gs_x g 0); linux_msg; translate_recv_flags (i32 (gs_x g 2))] in
      if result <? 0 then finish_syscall_result g result
      else
        let* flags := ld 4 (linux_msg + 48) in
        do* st 4 (darwin_msg + 44) flags in
        let* name := ld 8 darwin_msg in
        if name =? 0 then hret (set_success g result)
        else
          let* capacity := ld 4 (darwin_msg + 8) in
          let* len := ld 4 (linux_msg + 8) in
          let* r := on_mem (linux_sockaddr_to_darwin linux_name len name capacity) in
          match r with
          | inr e => fail_errno g e
          | inl darwin_len => do* st 4 (darwin_msg + 8) darwin_len in hret (set_success g result)
          end.

(** The tail shared by recvfrom, accept, getpeername and getsockname: the name
    at [linux_name] goes to [addr] with its length at [len_ptr]. *)
Definition return_name (g : syscall_gate_state) (result addr len_ptr : Z) : hostm syscall_gate_state :=
  if nz addr && nz len_ptr then
    let* capacity := ld 4 len_ptr in
    let* len := ld 4 linux_name_len in
    let* r := on_mem (linux_sockaddr_to_darwin linux_name len addr capacity) in
    match r with
    | inr e => fail_errno g e
    | inl darwin_len => do* st 4 len_ptr darwin_len in hret (set_success g result)
    end
  else hret (set_success g result).

Definition handle_recvfrom (g : syscall_gate_state) : hostm syscall_gate_state :=
  let x := gs_x g in
  do* st 4 linux_name_len 128 in
  do* set_errno 0 in
  let* result := syscall SYS_recvfrom
    [i32 (x 0); x 1; x 2; translate_recv_flags (i32 (x 3));
     if nz (x 4) then linux_name else 0; if nz (x 4) then linux_name_len else 0] in
  if result <? 0 then finish_syscall_result g result else return_name g result (x 4) (x 5).

Definition handle_socket_name_result (g : syscall_gate_state) (result : Z) : hostm syscall_gate_state :=
  if result <? 0 then finish_syscall_result g result else return_name g result (gs_x g 1) (gs_x g 2).

Definition handle_accept (g : syscall_gate_state) : hostm syscall_gate_state :=
  let x := gs_x g in
  do* st 4 linux_name_len 128 in
  do* set_errno 0 in
  let* result := syscall SYS_accept
    [i32 (x 0); if nz (x 1) then linux_name else 0; if nz (x 1) then linux_name_len else 0] in
  handle_socket_name_result g result.

(** [handle_getpeername] and [handle_getsockname] differ in the call. *)
Definition handle_name (nr : Z) (g : syscall_gate_state) : hostm syscall_gate_state :=
  do* st 4 linux_name_len 128 in
  do* set_errno 0 in
  let* result := syscall nr [i32 (gs_x g 0); linux_name; linux_name_len] in
  handle_socket_name_result g result.
Definition handle_getpeername := handle_name SYS_getpeername.
Definition handle_getsockname := handle_name SYS_getsockname.

Definition handle_socket (g : syscall_gate_state) : hostm syscall_gate_state :=
  match translate_socket_domain (i32 (gs_x g 0)) with
  | None => hret (set_failure g DARWIN_EAFNOSUPPORT)
  | Some linux_domain =>
      forward g SYS_socket [linux_domain; translate_socket_type (i32 (gs_x g 1)); i32 (gs_x g 2)]
  end.

Definition handle_connect (g : syscall_gate_state) : hostm syscall_gate_state :=
  let* r := on_mem (translate_sockaddr (gs_x g 1) (gs_x g 2) linux_name) in
  match r with
  | inr e => fail_errno g e
  | inl len => forward g SYS_connect [i32 (gs_x g 0); linux_name; len]
  end.

(** ** Signals *)

Definition handle_kill (g : syscall_gate_state) : hostm syscall_gate_state :=
  let linux_signal := darwin_signal_to_linux (i32 (gs_x g 1)) in
  if linux_signal <? 0 then hret (set_failure g DARWIN_EINVAL)
  else forward g SYS_kill [i32 (gs_x g 0); linux_signal].

(** [struct darwin_sigaction] in memory: handler 0, mask 8, flags 12. *)
Definition load_sigaction (a : Z) (m : bytemem) : darwin_sigaction :=
  mk_dsa (load 8 a m) (load 4 (a + 8) m) (load 4 (a + 12) m).
Definition store_sigaction (a : Z) (d : darwin_sigaction) (m : bytemem) : bytemem :=
  store 4 (a + 12) (dsa_flags d) (store 4 (a + 8) (dsa_mask d) (store 8 a (dsa_handler d) m)).

(** The new action as Linux gets it; [inr]: it cannot be expressed. *)
Definition new_action (linux_signal new : Z) : hostm (option sigact + unit) :=
  if new =? 0 then hret (inl None)
  else
    let* m := get_mem in
    match darwin_sigaction_to_linux (load_sigaction new m) with
    | None => hret (inr tt)
    | Some a =>
        let* child := range_000_in_fork_child in
        hret (inl (Some (if child && (linux_signal =? SIGPIPE) then mk_sa SIG_IGN 0 0 else a)))
    end.

(** The old action for the caller, when it asked for it; [inr]: the error. *)
Definition old_action (linux_signal old : Z) : hostm (option darwin_sigaction + Z) :=
  if old =? 0 then hret (inl None)
  else
    do* set_errno 0 in
    let* r := sigaction linux_signal None in
    match r with
    | inr e => do* set_errno e in hret (inr (darwin_errno_from_linux e))
    | inl a => hret (match linux_sigaction_to_darwin a with Some d => inl (Some d) | None => inr DARWIN_ENOSYS end)
    end.

Definition handle_sigaction (g : syscall_gate_state) : hostm syscall_gate_state :=
  let linux_signal := darwin_signal_to_linux (i32 (gs_x g 0)) in
  if linux_signal <=? 0 then hret (set_failure g DARWIN_EINVAL)
  else
    let* new := new_action linux_signal (gs_x g 1) in
    match new with
    | inr _ => hret (set_failure g DARWIN_ENOSYS)
    | inl new =>
        let* old := old_action linux_signal (gs_x g 2) in
        match old with
        | inr e => hret (set_failure g e)
        | inl old =>
            let* r := match new with
                      | None => hret None
                      | Some a => do* set_errno 0 in
                                  let* r := sigaction linux_signal (Some a) in
                                  hret (match r with inl _ => None | inr e => Some e end)
                      end in
            match r with
            | Some e => fail_errno g e
            | None =>
                do* match old with
                    | None => hret tt
                    | Some d => on_mem (fun m => (tt, store_sigaction (gs_x g 2) d m))
                    end in
                hret (set_success g 0)
            end
        end
    end.

Definition handle_sigprocmask (g : syscall_gate_state) : hostm syscall_gate_state :=
  let linux_how := darwin_sigprocmask_how_to_linux (i32 (gs_x g 0)) in
  let darwin_set := gs_x g 1 in
  let darwin_old_set := gs_x g 2 in
  if (linux_how <? 0) && nz darwin_set then hret (set_failure g DARWIN_EINVAL)
  else
    let* set := ld 4 darwin_set in
    let linux_set := if nz darwin_set then darwin_sigset_to_linux set else None in
    if nz darwin_set && bool_decide (linux_set = None) then hret (set_failure g DARWIN_EINVAL)
    else
      do* set_errno 0 in
      let* r := sigprocmask (if linux_how <? 0 then SIG_SETMASK else linux_how) linux_set in
      match r with
      | inr e => fail_errno g e
      | inl old =>
          do* (if nz darwin_old_set then st 4 darwin_old_set (linux_sigset_to_darwin old) else hret tt) in
          hret (set_success g 0)
      end.

Definition handle_sigpending (g : syscall_gate_state) : hostm syscall_gate_state :=
  if gs_x g 0 =? 0 then hret (set_failure g DARWIN_EINVAL)
  else
    do* set_errno 0 in
    let* r := in_kernel (k_sigpending K) in
    match r with
    | inr e => fail_errno g e
    | inl set => do* st 4 (gs_x g 0) (linux_sigset_to_darwin set) in hret (set_success g 0)
    end.

(** [struct darwin_sigaltstack]: sp 0, size 8, flags 16, pad 20. *)
Definition handle_sigaltstack (g : syscall_gate_state) : hostm syscall_gate_state :=
  let new := gs_x g 0 in
  let old := gs_x g 1 in
  let* sp := ld 8 new in
  let* size := ld 8 (new + 8) in
  let* flags := ld 4 (new + 16) in
  let linux_flags := darwin_sigaltstack_flags_to_linux flags in
  if nz new && bool_decide (linux_flags = None) then hret (set_failure g DARWIN_EINVAL)
  else
    do* set_errno 0 in
    let* r := in_kernel (k_sigaltstack K
      (if nz new then match linux_flags with Some f => Some (mk_stack sp f size) | None => None end else None)) in
    match r with
    | inr e => fail_errno g e
    | inl s =>
        do* (if nz old then
               do* st 8 old (ss_sp s) in
               do* st 8 (old + 8) (ss_size s) in
               do* st 4 (old + 16) (linux_sigaltstack_flags_to_darwin (ss_flags s)) in
               st 4 (old + 20) 0
             else hret tt) in
        hret (set_success g 0)
    end.

(** ** Descriptors *)

(** [struct rlimit] at the frame. *)
Definition raw_getdtablesize : hostm Z :=
  do* set_errno 0 in
  let* result := syscall SYS_prlimit64 [0; RLIMIT_NOFILE; 0; frame] in
  if result <? 0 then hret result else let* cur := ld 8 frame in hret (i64 cur).

(** [int pipe_fds[2]] at the frame. *)
Definition finish_pipe_result (g : syscall_gate_state) (result : Z) : hostm syscall_gate_state :=
  if result <? 0 then let* e := get_errno in hret (set_failure g (darwin_errno_from_linux e))
  else
    let* fd0 := ld 4 frame in
    let* fd1 := ld 4 (frame + 4) in
    hret (mk_gs (upd (upd (gs_x g) 0 (u64 (i32 fd0))) 1 (u64 (i32 fd1))) (gs_x30 g) (gs_nzcv g .& 0xDFFFFFFF) (gs_pc g)).

(** [struct darwin_fstore]: flags 0, posmode 4, offset 8, length 16. *)
Definition raw_fcntl_preallocate (fd arg : Z) : hostm Z :=
  if arg =? 0 then hret (-1)
  else
    do* set_errno 0 in
    let* r := in_kernel (k_fstat K fd) in
    match r with
    | inr e => do* set_errno e in hret (-1)
    | inl file_stat =>
        let* posmode := ld 4 (arg + 4) in
        let* offset := ld 8 (arg + 8) in
        let* len := ld 8 (arg + 16) in
        let* flags := ld 4 arg in
        let posmode := i32 posmode in
        if negb (posmode =? DARWIN_F_PEOFPOSMODE) && negb (posmode =? 0) then hret (-1)
        else
          let allocate_from := if posmode =? DARWIN_F_PEOFPOSMODE then l_size file_stat else i64 offset in
          let allocate_end := i64 (allocate_from + i64 len) in
          if nz (flags .& DARWIN_F_ALLOCATEALL) then
            if l_size file_stat <? allocate_end then
              let* r := syscall SYS_ftruncate [fd; allocate_end] in
              hret (if nz r then -1 else 0)
            else hret 0
          else
            do* set_errno 0 in
            syscall SYS_fallocate [fd; 0; allocate_from; i64 len]
    end.

(** The Linux command for a Darwin one. *)
Definition fcntl_command (darwin_cmd : Z) : option Z :=
  match darwin_cmd with
  | 0 => Some 0 | 1 => Some 1 | 2 => Some 2 | 3 => Some 3 | 4 => Some 4
  | 5 => Some 9          (* F_GETOWN *)
  | 6 => Some 8          (* F_SETOWN *)
  | 7 => Some 5          (* F_GETLK *)
  | 8 => Some 6          (* F_SETLK *)
  | 9 => Some 7          (* F_SETLKW *)
  | 67 => Some 1030      (* F_DUPFD_CLOEXEC *)
  | _ => None
  end.

Definition is_lock_command (darwin_cmd : Z) : bool :=
  (darwin_cmd =? DARWIN_F_GETLK) || (darwin_cmd =? DARWIN_F_SETLK) || (darwin_cmd =? DARWIN_F_SETLKW).

(** The converted lock is at the frame. *)
Definition raw_fcntl (fd darwin_cmd arg : Z) : hostm Z :=
  if darwin_cmd =? DARWIN_F_PREALLOCATE then raw_fcntl_preallocate fd arg
  else if darwin_cmd =? DARWIN_F_FULLFSYNC then syscall SYS_fsync [fd]
  else
    match fcntl_command darwin_cmd with
    | None => do* set_errno ENOSYS in hret (-1)
    | Some linux_cmd =>
        if is_lock_command darwin_cmd then
          let* ok := on_mem (darwin_flock_to_linux arg frame) in
          if negb ok then do* set_errno EINVAL in hret (-1)
          else
            let* result := syscall SYS_fcntl [fd; linux_cmd; frame] in
            do* (if (0 <=? result) && (darwin_cmd =? DARWIN_F_GETLK) && nz arg
                 then on_mem (fun m => (tt, linux_flock_to_darwin frame arg m)) else hret tt) in
            hret result
        else
          let arg := if darwin_cmd =? F_SETFL then u64 (translate_open_flags_to_linux (i32 arg)) else arg in
          let* result := syscall SYS_fcntl [fd; linux_cmd; arg] in
          hret (if (darwin_cmd =? F_GETFL) && (0 <=? result) then translate_open_flags_to_darwin (i32 result) else result)
    end.

Definition raw_dup2 (from_fd to_fd : Z) : hostm Z :=
  if from_fd =? to_fd then
    let* result := syscall SYS_fcntl [from_fd; F_GETFD] in
    hret (if result <? 0 then -1 else to_fd)
  else syscall SYS_dup3 [from_fd; to_fd; 0].

Definition raw_fork : hostm Z := syscall SYS_clone [SIGCHLD; 0; 0; 0; 0].

Definition translate_ioctl_request (darwin_request : Z) : option Z :=
  if darwin_request =? 0x4004667f then Some 0x541B           (* FIONREAD *)
  else if darwin_request =? 0x8004667e then Some 0x5421      (* FIONBIO *)
  else if darwin_request =? 0x40047473 then Some 0x5411      (* TIOCOUTQ *)
  else if darwin_request =? 0x80087467 then Some 0x5414      (* TIOCSWINSZ *)
  else if darwin_request =? 0x40087468 then Some 0x5413      (* TIOCGWINSZ *)
  else None.

Definition handle_ioctl (g : syscall_gate_state) : hostm syscall_gate_state :=
  let fd := i32 (gs_x g 0) in
  let darwin_request := gs_x g 1 in
  if darwin_request =? DARWIN_FIOCLEX then forward g SYS_fcntl [fd; F_SETFD; FD_CLOEXEC]
  else if darwin_request =? DARWIN_FIONCLEX then forward g SYS_fcntl [fd; F_SETFD; 0]
  else match translate_ioctl_request darwin_request with
       | None => hret (set_failure g DARWIN_ENOSYS)
       | Some linux_request => forward g SYS_ioctl [fd; linux_request; gs_x g 2]
       end.

(** Frame: [readfds] 0, [writefds] 128, [exceptfds] 256, [timeout] 384. *)
Definition raw_select (nfds readfds writefds exceptfds darwin_timeout : Z) : hostm Z :=
  do* (if nz darwin_timeout then
         let* sec := ld 8 darwin_timeout in
         let* usec := ld 4 (darwin_timeout + 8) in
         do* st 8 (frame + 384) sec in
         st 8 (frame + 392) (i32 usec * 1000)
       else hret tt) in
  syscall SYS_pselect6 [nfds; readfds; writefds; exceptfds; if nz darwin_timeout then frame + 384 else 0; 0].

Definition handle_select (g : syscall_gate_state) : hostm syscall_gate_state :=
  let nfds := i32 (gs_x g 0) in
  let r := gs_x g 1 in let w := gs_x g 2 in let e := gs_x g 3 in
  if (nfds <? 0) || (FD_SETSIZE <? nfds) || (DARWIN_FD_SETSIZE <? nfds) then hret (set_failure g DARWIN_EINVAL)
  else
    do* on_mem (fun m => (tt, darwin_fdset_to_linux nfds r frame m)) in
    do* on_mem (fun m => (tt, darwin_fdset_to_linux nfds w (frame + 128) m)) in
    do* on_mem (fun m => (tt, darwin_fdset_to_linux nfds e (frame + 256) m)) in
    do* set_errno 0 in
    let* result := raw_select nfds (if nz r then frame else 0) (if nz w then frame + 128 else 0)
                     (if nz e then frame + 256 else 0) (gs_x g 4) in
    if result <? 0 then let* err := get_errno in hret (set_failure g (darwin_errno_from_linux err))
    else
      do* on_mem (fun m => (tt, linux_fdset_to_darwin nfds frame r m)) in
      do* on_mem (fun m => (tt, linux_fdset_to_darwin nfds (frame + 128) w m)) in
      do* on_mem (fun m => (tt, linux_fdset_to_darwin nfds (frame + 256) e m)) in
      hret (set_success g result).

(** ** Files *)

(** The loop over the mounts from [count] on; [buf] is 0 when the caller only
    counts. *)
Fixpoint fill_mounts (buf max_entries count : Z) (l : list (cstr * cstr * cstr)) : hostm Z :=
  match l with
  | [] => hret count
  | (dir, typ, dev) :: l =>
      if nz buf && (count <? max_entries) then
        do* set_errno 0 in
        let* r := in_kernel (k_statfs K dir) in
        match r with
        | inl s =>
            do* on_mem (fun m => (tt, linux_to_darwin_statfs s (buf + 2168 * count) typ dir dev m)) in
            fill_mounts buf max_entries (count + 1) l
        | inr e => do* set_errno e in fill_mounts buf max_entries count l
        end
      else fill_mounts buf max_entries (count + 1) l
  end.

Definition handle_getfsstat (g : syscall_gate_state) : hostm syscall_gate_state :=
  let buf := gs_x g 0 in
  let bufsize := i32 (gs_x g 1) in
  if bufsize <? 0 then hret (set_failure g DARWIN_EINVAL)
  else
    let* r := in_kernel (k_mounts K) in
    match r with
    | inr e => do* set_errno e in hret (set_failure g (darwin_errno_from_linux (if nz e then e else EIO)))
    | inl mounts =>
        let max_entries := if nz buf && (0 <? bufsize) then bufsize / 2168 else 0 in
        let* count := fill_mounts buf max_entries 0 mounts in
        hret (set_success g count)
    end.

(** [struct stat] at the frame, not read. *)
Definition check_file (g : syscall_gate_state) (call : hostm Z) : hostm syscall_gate_state :=
  if nz (gs_x g 1) then hret (set_failure g DARWIN_ENOTSUP)
  else
    do* set_errno 0 in
    let* result := call in
    if result <? 0 then finish_syscall_result g result else hret (set_success g 0).
Definition handle_chflags (g : syscall_gate_state) : hostm syscall_gate_state :=
  check_file g (syscall SYS_newfstatat [AT_FDCWD; gs_x g 0; frame; 0]).
Definition handle_fchflags (g : syscall_gate_state) : hostm syscall_gate_state :=
  check_file g (let* r := in_kernel (k_fstat K (i32 (gs_x g 0))) in
                match r with inl _ => hret 0 | inr e => do* set_errno e in hret (-1) end).

(** ** Processes *)

(** Frame: [linux_status] 0, [linux_usage] 16. *)
Definition handle_wait4_single_process (g : syscall_gate_state) : hostm syscall_gate_state :=
  let x := gs_x g in
  match darwin_wait_options_to_linux (i32 (x 2)) with
  | None => hret (set_failure g DARWIN_EINVAL)
  | Some linux_options =>
      do* st 4 frame 0 in
      do* set_errno 0 in
      let* result := syscall SYS_wait4
        [i32 (x 0); if nz (x 1) then frame else 0; linux_options; if nz (x 3) then frame + 16 else 0] in
      if 0 <? result then
        do* (if nz (x 1) then
               let* linux_status := ld 4 frame in
               st 4 (x 1) (linux_wait_status_to_darwin (i32 linux_status))
             else hret tt) in
        do* (if nz (x 3) then on_mem (fun m => (tt, linux_rusage_to_darwin (frame + 16) (x 3) m)) else hret tt) in
        finish_syscall_result g (if 0 <? i32 (x 0) then i32 (x 0) else result)
      else finish_syscall_result g result
  end.

Definition get_login : hostm cstr := fun p => (p_login p, p).
Definition set_login (s : cstr) : hostm unit := fun p => (tt, with_login s p).

Definition handle_getlogin (g : syscall_gate_state) : hostm syscall_gate_state :=
  let* login_name := get_login in
  let login_length := Z.of_nat (length login_name) + 1 in
  if gs_x g 0 =? 0 then hret (set_failure g DARWIN_EFAULT)
  else if gs_x g 1 <? login_length then hret (set_failure g DARWIN_ENAMETOOLONG)
  else
    do* on_mem (fun m => (tt, put_string (gs_x g 0) login_name m)) in
    hret (set_success g 0).

Definition handle_setlogin (g : syscall_gate_state) : hostm syscall_gate_state :=
  if gs_x g 0 =? 0 then hret (set_failure g DARWIN_EFAULT)
  else
    let* m := get_mem in
    let name := c_string (Z.to_nat MACHGATE_LOGIN_NAME_MAX) (gs_x g 0) m in
    if Z.of_nat (length name) =? MACHGATE_LOGIN_NAME_MAX then hret (set_failure g DARWIN_ENAMETOOLONG)
    else do* set_login name in hret (set_success g 0).

Definition handle_execve (g : syscall_gate_state) : hostm outcome :=
  let* r := execve (gs_x g 0) (gs_x g 1) (gs_x g 2) in
  hret (match r with Some err => Returned (set_failure g err) | None => Replaced end).

Definition handle_readlink (g : syscall_gate_state) : hostm syscall_gate_state :=
  let x := gs_x g in
  let* m := get_mem in
  if nz (x 0) && should_hide_proc_exe_symlink (c_string (Z.to_nat 4096) (x 0) m)
  then hret (set_failure g DARWIN_ENOENT)
  else forward g SYS_readlinkat [AT_FDCWD; x 0; x 1; x 2].

(** [errno = 0; finish_syscall_result(state, call)] *)
Definition finish (g : syscall_gate_state) (call : hostm Z) : hostm syscall_gate_state :=
  do* set_errno 0 in let* result := call in finish_syscall_result g result.

(** ** The dispatcher *)

(** The calls without a Linux counterpart. *)
Definition enosys_calls : list Z :=
  [0; 8; 11; 17; 19; 21; 22; 40; 44; 45; 62; 63; 64; 69; 70; 71; 72; 76; 77; 84; 87; 88; 91; 94; 99].

(** The calls that return, every [case] of the switch but exit and execve, in
    its order; [next] is the rest of the switch. *)
Definition range_000_calls_a (g : syscall_gate_state) (next : hostm syscall_gate_state) : hostm syscall_gate_state :=
  let x := gs_x g in
  let fail e := hret (set_failure g e) in
  match x 16 with
  | 18 => handle_getfsstat g
  | 2 => finish g raw_fork
  | 66 => fail DARWIN_EAGAIN                         (* vfork *)
  | 3 => forward g SYS_read [i32 (x 0); x 1; x 2]
  | 7 => handle_wait4_single_process g
  | 4 => let* r := machgate_syscall_write_no_sigpipe (i32 (x 0)) (x 1) (x 2) in finish_syscall_result g r
  | 5 => forward g SYS_openat [AT_FDCWD; x 0; translate_open_flags_to_linux (i32 (x 1)); u32 (x 2)]
  | 6 => forward g SYS_close [i32 (x 0)]
  | 9 => forward g SYS_linkat [AT_FDCWD; x 0; AT_FDCWD; x 1; 0]
  | 10 => forward g SYS_unlinkat [AT_FDCWD; x 0; 0]
  | 12 => forward g SYS_chdir [x 0]
  | 13 => forward g SYS_fchdir [i32 (x 0)]
  | 14 => forward g SYS_mknodat [AT_FDCWD; x 0; u32 (x 1); x 2]
  | 15 => forward g SYS_fchmodat [AT_FDCWD; x 0; u32 (x 1); 0]
  | 16 => forward g SYS_fchownat [AT_FDCWD; x 0; u32 (x 1); u32 (x 2); 0]
  | 20 => forward g SYS_getpid []
  | 23 => forward g SYS_setuid [u32 (x 0)]
  | 24 => forward g SYS_getuid []
  | 25 => forward g SYS_geteuid []
  | 26 => fail DARWIN_EPERM                          (* ptrace *)
  | 27 => handle_recvmsg g
  | 28 => handle_sendmsg g
  | 29 => handle_recvfrom g
  | 30 => handle_accept g
  | 31 => handle_getpeername g
  | 32 => handle_getsockname g
  | 33 => forward g SYS_faccessat [AT_FDCWD; x 0; i32 (x 1); 0]
  | _ => next
  end.

Definition range_000_calls_b (g : syscall_gate_state) (next : hostm syscall_gate_state) : hostm syscall_gate_state :=
  let x := gs_x g in
  let fail e := hret (set_failure g e) in
  match x 16 with
  | 34 => handle_chflags g
  | 35 => handle_fchflags g
  | 36 => do* syscall SYS_sync [] in hret (set_success g 0)
  | 37 => handle_kill g
  | 38 => fail DARWIN_EINVAL                         (* sys_crossarch_trap *)
  | 39 => forward g SYS_getppid []
  | 41 => forward g SYS_dup [i32 (x 0)]
  | 42 => do* set_errno 0 in let* r := syscall SYS_pipe2 [frame; 0] in finish_pipe_result g r
  | 43 => forward g SYS_getegid []
  | 46 => handle_sigaction g
  | 48 => handle_sigprocmask g
  | 49 => handle_getlogin g
  | 50 => handle_setlogin g
  | 51 => if nz (x 0) then forward g SYS_acct [x 0] else hret (set_success g 0)
  | 52 => handle_sigpending g
  | 53 => handle_sigaltstack g
  | 54 => handle_ioctl g
  | 55 => fail DARWIN_EPERM                          (* reboot *)
  | 47 => forward g SYS_getgid []
  | 56 => fail DARWIN_ENOTSUP                        (* revoke *)
  | 57 => forward g SYS_symlinkat [x 0; AT_FDCWD; x 1]
  | 58 => handle_readlink g
  | 60 => forward g SYS_umask [u32 (x 0)]
  | _ => next
  end.

Definition range_000_calls_c (g : syscall_gate_state) : hostm syscall_gate_state :=
  let x := gs_x g in
  let fail e := hret (set_failure g e) in
  match x 16 with
  | 61 => fail DARWIN_EPERM                          (* chroot *)
  | 65 => forward g SYS_msync [x 0; x 1; translate_msync_flags_to_linux (i32 (x 2))]
  | 67 | 68 => hret (set_success g 0)                (* oslog_coproc *)
  | 73 => let* r := machgate_dispatch_darwin_munmap (x 0) (x 1) in finish_syscall_result g r
  | 74 => forward g SYS_mprotect [x 0; x 1; i32 (x 2)]
  | 75 => match translate_madvise_to_linux (i32 (x 2)) with
          | None => do* set_errno ENOSYS in finish_syscall_result g (-1)
          | Some linux_behavior => forward g SYS_madvise [x 0; x 1; linux_behavior]
          end
  | 78 => forward g SYS_mincore [x 0; x 1; x 2]
  | 79 => forward g SYS_getgroups [i32 (x 0); x 1]
  | 80 => forward g SYS_setgroups [x 0; x 1]
  | 81 => forward g SYS_getpgid [0]
  | 82 => forward g SYS_setpgid [i32 (x 0); i32 (x 1)]
  | 83 => forward g SYS_setitimer [i32 (x 0); x 1; x 2]
  | 85 => fail DARWIN_EPERM                          (* swapon *)
  | 86 => forward g SYS_getitimer [i32 (x 0); x 1]
  | 89 => finish g raw_getdtablesize
  | 90 => finish g (raw_dup2 (i32 (x 0)) (i32 (x 1)))
  | 92 => finish g (raw_fcntl (i32 (x 0)) (i32 (x 1)) (x 2))
  | 93 => handle_select g
  | 95 => forward g SYS_fsync [i32 (x 0)]
  | 96 => forward g SYS_setpriority [i32 (x 0); u32 (x 1); i32 (x 2)]
  | 97 => handle_socket g
  | 98 => handle_connect g
  | _ => hret (set_failure g DARWIN_ENOSYS)       (* [enosys_calls] and the default *)
  end.

Definition range_000_call (g : syscall_gate_state) : hostm syscall_gate_state :=
  range_000_calls_a g (range_000_calls_b g (range_000_calls_c g)).

Definition syscall_range_000_099_dispatch (g : syscall_gate_state) : hostm (bool * outcome) :=
  if 99 <? gs_x g 16 then hret (false, Returned g)
  else if gs_x g 16 =? 1 then hret (true, Exited (i32 (gs_x g 0)))
  else if gs_x g 16 =? 59 then let* o := handle_execve g in hret (true, o)
  else let* g' := range_000_call g in hret (true, Returned g').
End range.
End Range000.
