(* ===== verification/Range000Theorems.v ===== *)
(** * System calls 0 to 99: every call is answered *)

From S2P Require Import Prelude CStr Host GuestVm GateIsland GateDispatch GateTheorems DarwinAbi DarwinAbiTheorems Range000.
Import Gate Dispatch Abi Range000.

(** ** Results of monadic code *)

(** Every result of [m] satisfies [P]. *)
Definition returns {V K A} (m : host V K A) (P : A -> Prop) : Prop := forall p, P (fst (m p)).

Lemma returns_ret {V K A} (a : A) (P : A -> Prop) : P a -> returns (V:=V) (K:=K) (hret a) P.
Proof. by intros H p. Qed.

Lemma returns_bind {V K A B} (m : host V K A) (f : A -> host V K B) P :
  (forall a, returns (f a) P) -> returns (hbind m f) P.
Proof. intros H p. unfold hbind. destruct (m p) as [a p']. apply H. Qed.

Lemma returns_bind_with {V K A B} (m : host V K A) (f : A -> host V K B) (Q : A -> Prop) P :
  returns m Q -> (forall a, Q a -> returns (f a) P) -> returns (hbind m f) P.
Proof. intros Hm H p. unfold hbind. specialize (Hm p). destruct (m p) as [a p']. by apply H. Qed.

(** ** The Darwin convention *)

(** A call that returned: the answer is a non-negative result or a non-zero
    error number. *)
Definition settled (g g' : syscall_gate_state) : Prop :=
  (exists v, 0 <= v /\ answer g g' false v) \/ (exists e, e <> 0 /\ answer g g' true e).

Lemma settled_success g v : 0 <= v -> settled g (set_success g v).
Proof. intros Hv. left. exists v. split; [done|apply answer_success]. Qed.

Lemma settled_failure g e : e <> 0 -> settled g (set_failure g e).
Proof. intros He. right. exists e. split; [done|apply answer_failure]. Qed.

Lemma darwin_errno_nonzero e : darwin_errno_from_linux e <> 0.
Proof.
  unfold darwin_errno_from_linux. destruct (Z.eqb_spec e 0); [done|].
  repeat (case_match; [done|]). done.
Qed.

Section answered.
Context {K : kernel} (frame : Z) (execve : Z -> Z -> Z -> host guest_vm_table K (option Z)).
Implicit Types (g : syscall_gate_state).

Lemma finish_settled g r : returns (K:=K) (finish_syscall_result g r) (settled g).
Proof.
  unfold finish_syscall_result. destruct (Z.ltb_spec r 0).
  - apply returns_bind. intros e. apply returns_ret, settled_failure, darwin_errno_nonzero.
  - by apply returns_ret, settled_success.
Qed.

Lemma forward_settled g nr args : returns (K:=K) (forward g nr args) (settled g).
Proof. unfold forward. do 2 (apply returns_bind; intros ?). apply finish_settled. Qed.

Lemma fail_errno_settled g e : returns (K:=K) (fail_errno g e) (settled g).
Proof. unfold fail_errno. apply returns_bind. intros _. apply returns_ret, settled_failure, darwin_errno_nonzero. Qed.

Lemma fail_settled g e : e <> 0 -> returns (K:=K) (V:=guest_vm_table) (hret (set_failure g e)) (settled g).
Proof. intros He. by apply returns_ret, settled_failure. Qed.

Lemma finish_call_settled g call : returns (K:=K) (finish g call) (settled g).
Proof. unfold finish. do 2 (apply returns_bind; intros ?). apply finish_settled. Qed.

Lemma fill_mounts_count buf n l : forall count, 0 <= count -> returns (K:=K) (fill_mounts buf n count l) (fun c => 0 <= c).
Proof.
  induction l as [|[[dir typ] dev] l IH]; intros count Hc; cbn [fill_mounts]; [by apply returns_ret|].
  case_match; [|apply IH; lia]. do 2 (apply returns_bind; intros ?). case_match.
  - apply returns_bind; intros ?. apply IH. lia.
  - apply returns_bind; intros ?. by apply IH.
Qed.
End answered.

Create HintDb settle.
#[export] Hint Resolve finish_settled forward_settled fail_errno_settled finish_call_settled darwin_errno_nonzero : settle.

(** Runs through a handler: each bind forgets its result, each branch is
    taken, each answer is settled. *)
Ltac settle_step :=
  match goal with
  | |- returns (hret (set_failure _ ?e)) _ => apply fail_settled; solve [done | apply darwin_errno_nonzero]
  | |- returns (hret (set_success _ _)) _ => apply returns_ret, settled_success; lia
  | |- returns (hbind _ _) _ => apply returns_bind; intros ?
  | |- returns (if ?b then _ else _) _ => destruct b eqn:?
  | |- returns (match ?x with _ => _ end) _ => destruct x eqn:?
  | |- returns _ _ => solve [eauto with settle]
  end.
Ltac settle := repeat settle_step.

(** One case per call number. *)
Ltac by_call_number :=
  match goal with |- returns (match ?z with _ => _ end) _ => destruct z end;
  repeat match goal with |- returns (match ?q with _ => _ end) _ => is_var q; destruct q end;
  solve [assumption | match goal with H : ?x <> ?x |- _ => by destruct H end | settle; auto].

Section calls.
Context {K : kernel} (frame : Z) (execve : Z -> Z -> Z -> host guest_vm_table K (option Z)).
Implicit Types (g : syscall_gate_state).

Lemma return_name_settled g r addr len : 0 <= r -> returns (K:=K) (return_name frame g r addr len) (settled g).
Proof. intros Hr. unfold return_name. settle. Qed.

Lemma name_result_settled g r : returns (K:=K) (handle_socket_name_result frame g r) (settled g).
Proof. unfold handle_socket_name_result. settle. apply return_name_settled. lia. Qed.

Lemma sendmsg_settled g : returns (K:=K) (handle_sendmsg frame g) (settled g).
Proof. unfold handle_sendmsg. settle. Qed.

Lemma recvmsg_settled g : returns (K:=K) (handle_recvmsg frame g) (settled g).
Proof. unfold handle_recvmsg. settle. Qed.

Lemma recvfrom_settled g : returns (K:=K) (handle_recvfrom frame g) (settled g).
Proof. unfold handle_recvfrom. settle. apply return_name_settled. lia. Qed.

Lemma names_settled g :
  returns (K:=K) (handle_accept frame g) (settled g) /\ forall nr, returns (K:=K) (handle_name frame nr g) (settled g).
Proof. unfold handle_accept, handle_name. split; intros; settle; apply name_result_settled. Qed.

Lemma old_action_error sig old :
  returns (K:=K) (old_action sig old) (fun r => match r with inr e => e <> 0 | inl _ => True end).
Proof.
  unfold old_action. case_match; [by apply returns_ret|]. do 2 (apply returns_bind; intros ?). case_match.
  - apply returns_ret. by destruct (linux_sigaction_to_darwin _).
  - apply returns_bind; intros ?. apply returns_ret, darwin_errno_nonzero.
Qed.

Lemma sigaction_settled g : returns (K:=K) (handle_sigaction g) (settled g).
Proof.
  unfold handle_sigaction. case_match; [by apply fail_settled|]. apply returns_bind; intros [new|[]]; [|by apply fail_settled].
  eapply returns_bind_with; [apply old_action_error|]. intros [old|e] He; [|by apply fail_settled]. settle.
Qed.

Lemma signals_settled g :
  returns (K:=K) (handle_sigprocmask g) (settled g) /\ returns (K:=K) (handle_sigpending g) (settled g) /\
  returns (K:=K) (handle_sigaltstack g) (settled g) /\ returns (K:=K) (handle_kill g) (settled g).
Proof. unfold handle_sigprocmask, handle_sigpending, handle_sigaltstack, handle_kill. repeat split; settle. Qed.

Lemma files_settled g :
  returns (K:=K) (handle_getfsstat g) (settled g) /\ returns (K:=K) (handle_chflags frame g) (settled g) /\
  returns (K:=K) (handle_fchflags g) (settled g) /\ returns (K:=K) (handle_readlink g) (settled g).
Proof.
  repeat split.
  - unfold handle_getfsstat. settle_step; [settle|]. apply returns_bind; intros [mounts|e]; [|settle].
    eapply returns_bind_with; [by apply fill_mounts_count|]. intros c Hc.
    by apply returns_ret, settled_success.
  - unfold handle_chflags, check_file. settle.
  - unfold handle_fchflags, check_file. settle.
  - unfold handle_readlink. settle.
Qed.

Lemma others_settled g :
  returns (K:=K) (handle_wait4_single_process frame g) (settled g) /\ returns (K:=K) (handle_select frame g) (settled g) /\
  returns (K:=K) (handle_ioctl g) (settled g) /\ returns (K:=K) (handle_socket g) (settled g) /\
  returns (K:=K) (handle_connect frame g) (settled g) /\ returns (K:=K) (handle_getlogin g) (settled g) /\
  returns (K:=K) (handle_setlogin g) (settled g).
Proof.
  unfold handle_wait4_single_process, handle_select, handle_ioctl, handle_socket, handle_connect, handle_getlogin, handle_setlogin.
  repeat split; settle.
Qed.
End calls.

(** The two descriptors of a pipe come back in x0 and x1. *)
Definition pipe_answer (g g' : syscall_gate_state) : Prop :=
  exists fd0 fd1, answer (mk_gs (upd (gs_x g) 1 (u64 (i32 fd1))) (gs_x30 g) (gs_nzcv g) (gs_pc g)) g' false (i32 fd0).

(** What becomes of a guest whose call the range handles. *)
Definition range_answer (g : syscall_gate_state) (o : outcome) : Prop :=
  match o with
  | Exited status => gs_x g 16 = 1 /\ status = i32 (gs_x g 0)
  | Replaced => gs_x g 16 = 59
  | Returned g' => settled g g' \/ gs_x g 16 = 42 /\ pipe_answer g g'
  end.

Section dispatch.
Context {K : kernel} (frame : Z) (execve : Z -> Z -> Z -> host guest_vm_table K (option Z)).
Implicit Types (g : syscall_gate_state) (p : process guest_vm_table K).

Lemma calls_a_settled g next : returns next (settled g) -> returns (K:=K) (range_000_calls_a frame g next) (settled g).
Proof.
  intros Hnext. pose proof (names_settled (K:=K) frame g) as [? ?]. pose proof (files_settled (K:=K) frame g) as (?&?&?&?).
  pose proof (others_settled (K:=K) frame g) as (?&?&?&?&?&?&?). pose proof (recvmsg_settled (K:=K) frame g).
  pose proof (sendmsg_settled (K:=K) frame g). pose proof (recvfrom_settled (K:=K) frame g).
  unfold range_000_calls_a, handle_getpeername, handle_getsockname. cbv zeta. by_call_number.
Qed.

Lemma calls_b_settled g next :
  gs_x g 16 <> 42 -> returns next (settled g) -> returns (K:=K) (range_000_calls_b frame g next) (settled g).
Proof.
  intros Hp Hnext. pose proof (signals_settled (K:=K) g) as (?&?&?&?). pose proof (files_settled (K:=K) frame g) as (?&?&?&?).
  pose proof (others_settled (K:=K) frame g) as (?&?&?&?&?&?&?). pose proof (sigaction_settled (K:=K) g).
  unfold range_000_calls_b. cbv zeta. by_call_number.
Qed.

Lemma calls_c_settled g : returns (K:=K) (range_000_calls_c frame g) (settled g).
Proof.
  pose proof (others_settled (K:=K) frame g) as (?&?&?&?&?&?&?). unfold range_000_calls_c. cbv zeta. by_call_number.
Qed.

Lemma call_settled g : gs_x g 16 <> 42 -> returns (K:=K) (range_000_call frame g) (settled g).
Proof. intros Hp. apply calls_a_settled, calls_b_settled, calls_c_settled; done. Qed.

Lemma pipe_answered g : gs_x g 16 = 42 -> returns (K:=K) (range_000_call frame g) (fun g' => settled g g' \/ pipe_answer g g').
Proof.
  intros Hp. unfold range_000_call, range_000_calls_a, range_000_calls_b. rewrite Hp. cbv zeta. do 2 (apply returns_bind; intros ?).
  unfold finish_pipe_result. case_match; do 1 (apply returns_bind; intros ?).
  - apply returns_ret. left. apply settled_failure, darwin_errno_nonzero.
  - apply returns_bind; intros fd1. apply returns_ret. right. exists a1, fd1.
    destruct (answer_success (mk_gs (upd (gs_x g) 1 (u64 (i32 fd1))) (gs_x30 g) (gs_nzcv g) (gs_pc g)) (i32 a1)).
    split; [done|done| |done|done|done]. intros r Hr. rewrite <- an_x0 by done. cbn. unfold upd.
    destruct (Z.eqb_spec r 1), (Z.eqb_spec r 0); lia || done.
Qed.

Context (Hexecve : forall path argv envp, returns (execve path argv envp) (fun r => r <> Some 0)).

Lemma range_000_dispatch g :
  returns (syscall_range_000_099_dispatch frame execve g)
    (fun r => if 99 <? gs_x g 16 then r = (false, Returned g) else fst r = true /\ range_answer g (snd r)).
Proof.
  unfold syscall_range_000_099_dispatch. destruct (99 <? gs_x g 16); [by apply returns_ret|].
  destruct (Z.eqb_spec (gs_x g 16) 1); [apply returns_ret; by repeat split|].
  destruct (Z.eqb_spec (gs_x g 16) 59).
  - unfold handle_execve. eapply returns_bind_with.
    + eapply (returns_bind_with _ _ _ (range_answer g)); [apply Hexecve|]. intros [err|] Hr; apply returns_ret; cbn; [|done].
      left. apply settled_failure. congruence.
    + intros o Ho. by apply returns_ret.
  - destruct (Z.eq_dec (gs_x g 16) 42).
    + eapply returns_bind_with; [by apply pipe_answered|]. intros g' Hg. apply returns_ret. cbn -[settled pipe_answer]. naive_solver.
    + eapply returns_bind_with; [by apply call_settled|]. intros g' Hg. apply returns_ret. cbn -[settled pipe_answer]. naive_solver.
Qed.
End dispatch.

(** ** The gate with this range *)

(** Whether the gate or the range of calls 0 to 99 knows a call. *)
Definition known_call (nr : Z) : bool := (nr <=? 99) || bool_decide (nr ∈ native_calls).

(** Every system call up to 99, and every call the gate answers itself, ends
    in one of three ways: the process exits with the guest's status (exit), the
    process runs another program (execve), or the call returns to the guest in
    the Darwin convention: a non-negative result with the carry flag clear or a
    non-zero error number with the carry flag set, in x0 alone (pipe also sets
    x1), every other register, the resume address and the other flags kept.
    The other three ranges never see such a call. *)
Theorem gate_call_answered {K : kernel} (R : @ranges K) frame execve g (p : process guest_vm_table K) :
  Dispatch.syscall_range_000_099_dispatch R = Range000.syscall_range_000_099_dispatch frame execve ->
  (forall path argv envp, returns (execve path argv envp) (fun r => r <> Some 0)) ->
  known_call (gs_x g 16) = true ->
  range_answer g (fst (syscall_gate_dispatch R g p)).
Proof.
  intros HR Hexec Hk. destruct (decide (In (gs_x g 16) native_calls)) as [Hn|Hn].
  - destruct (native_call_answered R g p Hn) as (g'&->&Hg). by left.
  - unfold known_call in Hk. assert (gs_x g 16 <= 99).
    { apply orb_prop in Hk as [?|Hk%bool_decide_eq_true]; [lia|]. by apply list_elem_of_In in Hk. }
    destruct (decide (gs_x g 16 = DARWIN_SYS_exit)) as [E|E].
    { unfold syscall_gate_dispatch. rewrite E. done. }
    rewrite gate_to_ranges by (intros [?|?]; congruence).
    pose proof (range_000_dispatch frame execve Hexec g p) as H'. rewrite <- HR in H'.
    destruct (Z.ltb_spec 99 (gs_x g 16)); [lia|]. unfold try_range, hbind.
    destruct (Dispatch.syscall_range_000_099_dispatch R g p) as [[h o] p']. cbn in H'. by destruct H' as [-> Ho].
Qed.

(** The gate with this range and no other; [execve] finds no file. *)
Definition with_range_000 {K : kernel} (frame : Z) : @ranges K :=
  {| Dispatch.syscall_range_000_099_dispatch := Range000.syscall_range_000_099_dispatch frame (fun _ _ _ => hret (Some DARWIN_ENOENT));
     Dispatch.syscall_range_100_199_dispatch := Dispatch.syscall_range_100_199_dispatch no_ranges;
     Dispatch.syscall_range_200_399_dispatch := Dispatch.syscall_range_200_399_dispatch no_ranges;
     Dispatch.syscall_range_400_plus_dispatch := Dispatch.syscall_range_400_plus_dispatch no_ranges |}.

Lemma gate_call_answered_witness :
  known_call 59 = true /\ range_answer (guest_call 59 0x1000) (fst (syscall_gate_dispatch (with_range_000 0x7000) (guest_call 59 0x1000) eagain_proc)).
Proof.
  split; [reflexivity|].
  apply (gate_call_answered (with_range_000 0x7000) 0x7000 (fun _ _ _ => hret (Some DARWIN_ENOENT)) (guest_call 59 0x1000) eagain_proc).
  - reflexivity.
  - intros path argv envp. apply returns_ret. discriminate.
  - reflexivity.
Defined.
