(* ===== verification/Range000Sockets.v ===== *)
(** * Socket calls of the range 0 to 99: addresses keep their meaning *)

From S2P Require Import Prelude CStr Host GuestVm GateIsland GateDispatch GateTheorems DarwinAbi DarwinAbiTheorems Range000 Range000Theorems.
Import Gate Dispatch Abi Range000.

#[local] Opaque set_failure set_success load store.

(** ** Addresses *)

Inductive sockaddr :=
  | Unix (path : list Z)
  | Inet (port addr : list Z)
  | Inet6 (port flow addr scope : list Z).

(** The [n] bytes at [a]. *)
Definition bytes (a n : Z) (m : bytemem) : list Z := map (fun i => m (a + i)) (seqZ 0 n).

(** What [len] bytes at [a] mean to each system: Darwin has the length in byte
    0 and the family in byte 1, Linux the family in both. *)
Definition darwin_sockaddr (a len : Z) (m : bytemem) : option sockaddr :=
  let family := load 1 (a + 1) m in
  if family =? DARWIN_AF_UNIX then
    if (2 <=? len) && (len <=? 110) then Some (Unix (bytes (a + 2) (len - 2) m)) else None
  else if family =? DARWIN_AF_INET then
    if (16 <=? len) && (len <=? 128) then Some (Inet (bytes (a + 2) 2 m) (bytes (a + 4) 4 m)) else None
  else if family =? DARWIN_AF_INET6 then
    if (28 <=? len) && (len <=? 128)
    then Some (Inet6 (bytes (a + 2) 2 m) (bytes (a + 4) 4 m) (bytes (a + 8) 16 m) (bytes (a + 24) 4 m)) else None
  else None.
Definition linux_sockaddr (a len : Z) (m : bytemem) : option sockaddr :=
  let family := load 2 a m in
  if family =? AF_UNIX then
    if (2 <=? len) && (len <=? 110) then Some (Unix (bytes (a + 2) (len - 2) m)) else None
  else if family =? AF_INET then
    if (16 <=? len) && (len <=? 128) then Some (Inet (bytes (a + 2) 2 m) (bytes (a + 4) 4 m)) else None
  else if family =? AF_INET6 then
    if (28 <=? len) && (len <=? 128)
    then Some (Inet6 (bytes (a + 2) 2 m) (bytes (a + 4) 4 m) (bytes (a + 8) 16 m) (bytes (a + 24) 4 m)) else None
  else None.

(** Room Darwin needs for an address. *)
Definition darwin_size (s : sockaddr) : Z :=
  match s with Unix path => 2 + Z.of_nat (length path) | Inet _ _ => 16 | Inet6 _ _ _ _ => 28 end.

(** ** Copies *)

Lemma bytes_ext a n m m' : (forall x, a <= x < a + n -> m x = m' x) -> bytes a n m = bytes a n m'.
Proof. intros H. apply map_ext_in. intros i Hi%in_seqZ_iff. apply H. lia. Qed.

Lemma bytes_memcpy d s n m : bytes d n (memcpy d s n m) = bytes s n m.
Proof.
  apply map_ext_in. intros i Hi%in_seqZ_iff. unfold memcpy.
  destruct (Z.leb_spec d (d + i)), (Z.ltb_spec (d + i) (d + n)); cbn; try lia. f_equal. lia.
Qed.

Lemma bytes_memcpy_disj a k d s n m : a + k <= d \/ d + n <= a -> bytes a k (memcpy d s n m) = bytes a k m.
Proof. intros H. apply bytes_ext. intros x Hx. apply memcpy_out. lia. Qed.
Lemma bytes_store_disj a k d n v m : a + k <= d \/ d + n <= a -> bytes a k (store n d v m) = bytes a k m.
Proof. intros H. apply bytes_ext. intros x Hx. apply store_out. lia. Qed.
Lemma load_memcpy_disj a k d s n m : a + k <= d \/ d + n <= a -> load k a (memcpy d s n m) = load k a m.
Proof. intros H. apply load_ext. intros x Hx. apply memcpy_out. lia. Qed.
Lemma bytes_length a n m : 0 <= n -> Z.of_nat (length (bytes a n m)) = n.
Proof. intros H. unfold bytes. rewrite length_map, length_seqZ. lia. Qed.

(** Reads through the writes of a translation. *)
Ltac read_back :=
  unfold memzero;
  repeat first
    [ rewrite bytes_memcpy | rewrite load_store_same by lia
    | rewrite bytes_memcpy_disj by lia | rewrite bytes_store_disj by lia
    | rewrite load_memcpy_disj by lia | rewrite load_store_disj by lia ].

(** ** To Linux *)

Definition apart (a n b k : Z) : Prop := a + n <= b \/ b + k <= a.

(** Decides the comparisons of the goal. *)
Ltac compare_all :=
  repeat match goal with
         | |- context [?a <? ?b] => destruct (Z.ltb_spec a b); try lia
         | |- context [?a <=? ?b] => destruct (Z.leb_spec a b); try lia
         end; cbn [orb andb].

Ltac outside := let x := fresh in let Hx := fresh in
  intros x Hx; unfold memzero; repeat first [rewrite memcpy_out by lia | rewrite store_out by lia]; done.

(** The cases of a family: refused lengths, then the copies. *)
Ltac to_linux_case out family :=
  compare_all; try (eexists; split; [reflexivity|]; split; [by cbn; auto|]; solve [done | outside]);
  eexists; split; [reflexivity|]; split; [|outside];
  unfold linux_sockaddr; replace (load 2 out _) with family by (read_back; reflexivity);
  unfold AF_UNIX, AF_INET, AF_INET6; cbn [Z.eqb Pos.eqb]; compare_all; read_back; try reflexivity.

Lemma translate_sockaddr_spec a len out m :
  a <> 0 -> apart a len out 128 ->
  let '(r, m') := translate_sockaddr a len out m in
  match darwin_sockaddr a len m with
  | Some s => exists l, r = inl l /\ linux_sockaddr out l m' = Some s /\ forall x, apart x 1 out 128 -> m' x = m x
  | None => exists e, r = inr e /\ In e [EINVAL; EAFNOSUPPORT; ENAMETOOLONG] /\ forall x, apart x 1 out 128 -> m' x = m x
  end.
Proof.
  unfold apart. intros Ha Hd. unfold translate_sockaddr, darwin_sockaddr, translate_socket_domain.
  destruct (Z.eqb_spec a 0) as [|_]; [done|]. cbv zeta.
  destruct (Z.eqb_spec (load 1 (a + 1) m) DARWIN_AF_UNIX) as [Ef|Ef].
  - to_linux_case out AF_UNIX. replace (2 + (len - 2) - 2) with (len - 2) by lia.
    rewrite bytes_memcpy. read_back. done.
  - destruct (Z.eqb_spec (load 1 (a + 1) m) DARWIN_AF_INET).
    + to_linux_case out AF_INET.
    + destruct (Z.eqb_spec (load 1 (a + 1) m) DARWIN_AF_INET6).
      * to_linux_case out AF_INET6.
      * destruct (_ || _); (eexists; split; [reflexivity|]; by cbn; auto).
Qed.

(** ** From Linux *)

Ltac to_darwin_case d family :=
  compare_all; (split; [outside|]); try reflexivity; (split; [reflexivity|]);
  unfold darwin_sockaddr; replace (load 1 (d + 1) _) with family by (read_back; reflexivity);
  unfold DARWIN_AF_UNIX, DARWIN_AF_INET, DARWIN_AF_INET6; cbn [Z.eqb Pos.eqb]; compare_all; read_back; try reflexivity.

Lemma linux_sockaddr_to_darwin_spec l len d capacity m s :
  d <> 0 -> apart l 128 d capacity -> linux_sockaddr l len m = Some s ->
  let '(r, m') := linux_sockaddr_to_darwin l len d capacity m in
  (forall x, apart x 1 d capacity -> m' x = m x) /\
  if darwin_size s <=? capacity then r = inl (darwin_size s) /\ darwin_sockaddr d (darwin_size s) m' = Some s
  else r = inr EINVAL.
Proof.
  unfold apart. intros Hd Ha Hs. unfold linux_sockaddr_to_darwin. destruct (Z.eqb_spec d 0) as [|_]; [done|]. cbv zeta.
  replace (load 2 l (memzero d capacity m)) with (load 2 l m) by (read_back; done).
  unfold linux_sockaddr in Hs. cbv zeta in Hs.
  destruct (Z.eqb_spec (load 2 l m) AF_UNIX).
  - destruct (_ && _) eqn:Eb in Hs; [|done]. injection Hs as <-. cbn [darwin_size].
    rewrite bytes_length by lia. replace (if 2 <? len then len - 2 else 0) with (len - 2) by (compare_all; lia).
    replace (len - 2 + 2) with (2 + (len - 2)) by lia. to_darwin_case d DARWIN_AF_UNIX.
    replace (2 + (len - 2) - 2) with (len - 2) by lia. by read_back.
  - destruct (Z.eqb_spec (load 2 l m) AF_INET).
    + destruct (_ && _) eqn:Eb in Hs; [|done]. injection Hs as <-. cbn [darwin_size].
      to_darwin_case d DARWIN_AF_INET.
    + destruct (Z.eqb_spec (load 2 l m) AF_INET6); [|done].
      destruct (_ && _) eqn:Eb in Hs; [|done]. injection Hs as <-. cbn [darwin_size].
      to_darwin_case d DARWIN_AF_INET6.
Qed.

(** ** The calls *)

Lemma on_mem_bind {K : kernel} {A B} (f : bytemem -> A * bytemem) (k : A -> host guest_vm_table K B) p :
  hbind (on_mem f) k p = k (fst (f (p_mem p))) (with_mem (snd (f (p_mem p))) p).
Proof. done. Qed.
Lemma ld_bind {K : kernel} {B} n a (k : Z -> host guest_vm_table K B) p : hbind (ld n a) k p = k (load n a (p_mem p)) p.
Proof. done. Qed.
Lemma st_bind {K : kernel} {B} n a v (k : unit -> host guest_vm_table K B) p :
  hbind (st n a v) k p = k tt (with_mem (store n a v (p_mem p)) p).
Proof. done. Qed.

Lemma nz_true x : x <> 0 -> nz x = true.
Proof. intros H. unfold nz. by destruct (Z.eqb_spec x 0). Qed.

Lemma darwin_sockaddr_ext a len m m' :
  2 <= len -> (forall x, a <= x < a + len -> m' x = m x) -> darwin_sockaddr a len m' = darwin_sockaddr a len m.
Proof.
  intros Hl H. unfold darwin_sockaddr. rewrite (load_ext 1 (a + 1) m' m) by (intros; apply H; lia).
  repeat case_match; try done; by rewrite !(bytes_ext _ _ m' m) by (intros; apply H; lia).
Qed.

Lemma darwin_size_range l len m s : linux_sockaddr l len m = Some s -> 2 <= darwin_size s <= 110.
Proof.
  unfold linux_sockaddr. intros H. repeat case_match; try done; injection H as <-; cbn [darwin_size]; rewrite ?bytes_length; lia.
Qed.

(** connect hands Linux the guest's address: when the bytes the guest
    passes are a Unix, IPv4 or IPv6 address of Darwin, exactly one Linux connect
    is made, on the guest's socket, and the bytes Linux is given mean the same
    address in its own layout (same path, or same port and host, and for IPv6
    the same flow and scope); no memory of the guest changes.  Any other address
    fails with an error number and Linux is not called. *)
Theorem connect_refines {K : kernel} frame g (p : process guest_vm_table K) :
  gs_x g 1 <> 0 -> apart (gs_x g 1) (gs_x g 2) (linux_name frame) 128 ->
  exists m, (forall x, apart x 1 (linux_name frame) 128 -> m x = p_mem p x) /\
  match darwin_sockaddr (gs_x g 1) (gs_x g 2) (p_mem p) with
  | Some s => exists len, linux_sockaddr (linux_name frame) len m = Some s /\
                handle_connect frame g p = forward g SYS_connect [i32 (gs_x g 0); linux_name frame; len] (with_mem m p)
  | None => exists e, In e [DARWIN_EINVAL; DARWIN_EAFNOSUPPORT; DARWIN_ENAMETOOLONG] /\
              fst (handle_connect frame g p) = set_failure g e /\ p_kernel (snd (handle_connect frame g p)) = p_kernel p
  end.
Proof.
  intros Hx Ha. pose proof (translate_sockaddr_spec _ _ _ (p_mem p) Hx Ha) as H.
  unfold handle_connect. rewrite !on_mem_bind. destruct (translate_sockaddr _ _ _ _) as [r m']. exists m'.
  destruct (darwin_sockaddr _ _ _) as [s|].
  - destruct H as (len&->&Hs&Hm). split; [done|]. exists len. split; [done|reflexivity].
  - destruct H as (e&->&He&Hm). split; [done|]. exists (darwin_errno_from_linux e). split; [|split; reflexivity].
    by repeat (destruct He as [<-|He]; [cbn; auto|]).
Qed.

(** getsockname and getpeername give the guest the address Linux reports:
    when Linux answers with an address, the guest's buffer holds the same
    address in Darwin's layout, its length is in the guest's length word and the
    result is Linux's; when the buffer is too small for it the call fails with
    EINVAL. *)
Theorem socket_name_refines {K : kernel} frame g (p : process guest_vm_table K) nr v m1 k1 s :
  let a := gs_x g 1 in
  let n := gs_x g 2 in
  let capacity := load 4 n m1 in
  k_syscall K nr [i32 (gs_x g 0); linux_name frame; linux_name_len frame]
    (store 4 (linux_name_len frame) 128 (p_mem p)) (p_kernel p) = (inl v, m1, k1) ->
  0 <= v -> linux_sockaddr (linux_name frame) (load 4 (linux_name_len frame) m1) m1 = Some s ->
  a <> 0 -> n <> 0 -> apart a capacity (linux_name frame) 132 -> apart a capacity n 4 ->
  let '(g', p') := handle_name frame nr g p in
  if darwin_size s <=? capacity
  then g' = set_success g v /\ load 4 n (p_mem p') = darwin_size s /\ darwin_sockaddr a (darwin_size s) (p_mem p') = Some s
  else g' = set_failure g DARWIN_EINVAL.
Proof.
  cbv zeta. intros Hk Hv Hs Ha Hn Hap Han. unfold handle_name. rewrite st_bind.
  unfold hbind at 1, set_errno. unfold hbind, syscall. cbn [p_mem p_kernel with_errno with_mem with_kernel]. rewrite Hk.
  unfold handle_socket_name_result. destruct (Z.ltb_spec v 0); [lia|]. unfold return_name.
  rewrite (nz_true _ Ha), (nz_true _ Hn). cbn [andb]. rewrite !ld_bind, on_mem_bind. cbn [p_mem with_mem with_kernel with_errno].
  pose proof (linux_sockaddr_to_darwin_spec (linux_name frame) _ _ (load 4 (gs_x g 2) m1) m1 s Ha ltac:(unfold apart in *; lia) Hs) as H'.
  destruct (linux_sockaddr_to_darwin _ _ _ _ _) as [r m']. destruct H' as [Hm H'].
  pose proof (darwin_size_range _ _ _ _ Hs). destruct (Z.leb_spec (darwin_size s) (load 4 (gs_x g 2) m1)).
  - destruct H' as [-> H']. split; [done|]. cbn [st on_mem hbind hret get_mem set_mem fst snd p_mem with_mem with_kernel with_errno].
    split; [rewrite load_store_same by lia; apply Z.mod_small; lia|].
    rewrite (darwin_sockaddr_ext _ _ m'); [done|lia|]. intros x Hx. unfold apart in Han. apply store_out. lia.
  - by subst r.
Qed.

#[local] Transparent set_failure set_success load store.

(** 127.0.0.1:8080 in Darwin's layout, and a guest that connects to it. *)
Definition loopback : bytemem :=
  fun x => match x with 0x1000 => 16 | 0x1001 => 2 | 0x1002 => 0x1f | 0x1003 => 0x90 | 0x1004 => 127 | 0x1007 => 1 | _ => 0 end.
Definition connecting : syscall_gate_state := mk_gs (upd (upd (upd (upd (fun _ => 0) 16 98) 0 3) 1 0x1000) 2 16) 0 0 0x1004.

Lemma connect_refines_witness :
  exists m len, linux_sockaddr 0x7040 len m = Some (Inet [0x1f; 0x90] [127; 0; 0; 1]) /\
    handle_connect 0x7000 connecting (with_mem loopback eagain_proc) =
    forward connecting SYS_connect [3; 0x7040; len] (with_mem m (with_mem loopback eagain_proc)).
Proof.
  destruct (connect_refines 0x7000 connecting (with_mem loopback eagain_proc)) as (m&_&H).
  - discriminate.
  - left. vm_compute. discriminate.
  - exists m. exact H.
Defined.

(** A kernel whose sockets are bound to 127.0.0.1:8080: it writes the address
    and its length where the call asks for them. *)
Definition bound_kernel : kernel :=
  {| kstate := unit;
     k_syscall _ args m k :=
       match args with
       | [_; a; n] => (inl 0, store 4 n 16 (store 4 (a + 4) 0x0100007f (store 2 (a + 2) 0x901f (store 2 a 2 m))), k)
       | _ => (inr EINVAL, m, k)
       end;
     k_fstat _ k := (inr EINVAL, k); k_statfs _ k := (inr EINVAL, k); k_mounts k := (inr EINVAL, k);
     k_sigpending k := (inr EINVAL, k); k_sigaltstack _ k := (inr EINVAL, k) |}.
Definition asking : syscall_gate_state := mk_gs (upd (upd (upd (upd (fun _ => 0) 16 32) 0 3) 1 0x1000) 2 0x2000) 0 0 0x1004.
Definition asking_proc : process guest_vm_table bound_kernel :=
  @mk_proc _ bound_kernel tt 0 (fun _ => default_action) 0 (store 4 0x2000 128 (fun _ => 0)) [] [] 1.

Definition answered_mem : bytemem :=
  store 4 0x70c0 16 (store 4 0x7044 0x0100007f (store 2 0x7042 0x901f (store 2 0x7040 2 (store 4 0x70c0 128 (p_mem asking_proc))))).

Lemma socket_name_refines_witness :
  let '(g', p') := handle_name 0x7000 SYS_getsockname asking asking_proc in
  g' = set_success asking 0 /\ load 4 0x2000 (p_mem p') = 16 /\
  darwin_sockaddr 0x1000 16 (p_mem p') = Some (Inet [0x1f; 0x90] [127; 0; 0; 1]).
Proof.
  assert (E : (darwin_size (Inet [0x1f; 0x90] [127; 0; 0; 1]) <=? load 4 (gs_x asking 2) answered_mem) = true) by (vm_compute; reflexivity).
  pose proof (socket_name_refines 0x7000 asking asking_proc SYS_getsockname 0 answered_mem tt (Inet [0x1f; 0x90] [127; 0; 0; 1])) as H.
  cbv zeta in H. rewrite E in H. apply H.
  - reflexivity.
  - lia.
  - vm_compute. reflexivity.
  - discriminate.
  - discriminate.
  - left. vm_compute. discriminate.
  - left. vm_compute. discriminate.
Defined.
