(* ===== verification/Range000Signals.v ===== *)
(** * Signal calls of the range 0 to 99: masks and dispositions on Darwin sets *)

From S2P Require Import Prelude CStr Host GuestVm GateIsland GateDispatch GateTheorems DarwinAbi DarwinAbiTheorems Range000 Range000Theorems Range000Sockets.
Import Gate Dispatch Abi Range000.

#[local] Opaque darwin_sigset_to_linux linux_sigset_to_darwin set_failure set_success load store.

(** ** Darwin signal sets *)

(** The signals Darwin never blocks: SIGKILL (9) and SIGSTOP (17). *)
Definition darwin_blockable (set : Z) : Z := set .& Z.lnot (2 ^ 8 .| 2 ^ 16).

(** SIGEMT (7) or SIGINFO (29), which Linux does not have. *)
Definition has_unshared (set : Z) : bool := Z.testbit set 6 || Z.testbit set 28.

Lemma sigset_translated set : darwin_sigset_to_linux set = None <-> has_unshared set = true.
Proof.
  unfold has_unshared. rewrite orb_true_iff. pose proof (sigset_to_linux set) as H. destruct (darwin_sigset_to_linux set).
  - destruct H as (H&_). split; [done|]. intros [E|E]; [by specialize (H 7 ltac:(lia) E)|by specialize (H 29 ltac:(lia) E)].
  - destruct H as (d&Hd&Hb&Hn). split; [intros _|done]. unfold shared_signal in Hn.
    assert (d = 7 \/ d = 29) as [-> | ->] by lia; [by left|by right].
Qed.

(** What the kernel keeps of a mask, seen through the translation. *)
Lemma sigset_view_blockable l : linux_sigset_to_darwin (blockable l) = darwin_blockable (linux_sigset_to_darwin l).
Proof. unfold blockable, darwin_blockable. by rewrite sigset_view_diff. Qed.

(** ** sigprocmask *)

(** The new mask of a Darwin thread; [None]: the call is refused. *)
Definition darwin_sigprocmask (how : Z) (set : option Z) (mask : Z) : option Z :=
  match set with
  | None => Some mask
  | Some s =>
      let s' := darwin_blockable (s .& Z.ones 31) in
      if has_unshared s then None
      else if how =? DARWIN_SIG_BLOCK then Some (mask .| s')
      else if how =? DARWIN_SIG_UNBLOCK then Some (mask .& Z.lnot s')
      else if how =? DARWIN_SIG_SETMASK then Some s'
      else None
  end.

Ltac sigprocmask_case El :=
  unfold hbind, ld, get_mem, hret; cbn; rewrite El; cbn;
  match goal with |- context [gs_x ?g 2] => destruct (nz (gs_x g 2)) end; repeat split; reflexivity.

(** The Darwin view of the signal mask of the thread. *)
Definition darwin_mask {K} (p : process guest_vm_table K) : Z := linux_sigset_to_darwin (p_mask p).

(** C23. sigprocmask implements Darwin's: read as Darwin sets, the mask of the
    thread becomes the one Darwin computes (blocked, unblocked or replaced,
    SIGKILL and SIGSTOP never blocked), the old mask goes to the caller's
    buffer when there is one, and nothing else of memory changes.  An unknown
    operation, or a set with SIGEMT or SIGINFO (a full set, for one), fails with
    EINVAL and changes nothing. *)
Theorem sigprocmask_refines {K : kernel} g (p : process guest_vm_table K) :
  let set := if nz (gs_x g 1) then Some (load 4 (gs_x g 1) (p_mem p)) else None in
  let '(g', p') := handle_sigprocmask g p in
  match darwin_sigprocmask (i32 (gs_x g 0)) set (darwin_mask p) with
  | Some mask =>
      g' = set_success g 0 /\ darwin_mask p' = mask /\
      p_mem p' = (if nz (gs_x g 2) then store 4 (gs_x g 2) (darwin_mask p) (p_mem p) else p_mem p)
  | None => g' = set_failure g DARWIN_EINVAL /\ p' = p
  end.
Proof.
  cbv zeta. unfold handle_sigprocmask, darwin_sigprocmask, darwin_mask. destruct (nz (gs_x g 1)) eqn:Ex.
  - destruct (has_unshared _) eqn:Eu.
    + apply sigset_translated in Eu. unfold hbind, ld, get_mem, hret. cbn. destruct (_ <? 0); cbn; [done|].
      by rewrite Eu.
    + destruct (darwin_sigset_to_linux (load 4 (gs_x g 1) (p_mem p))) as [l|] eqn:El.
      2: { apply sigset_translated in El. congruence. }
      rewrite <- (sigset_round_trip _ _ El), <- sigset_view_blockable, <- sigset_view_lor, <- sigset_view_diff.
      unfold darwin_sigprocmask_how_to_linux.
      destruct (_ =? DARWIN_SIG_BLOCK); [sigprocmask_case El|].
      destruct (_ =? DARWIN_SIG_UNBLOCK); [sigprocmask_case El|].
      destruct (_ =? DARWIN_SIG_SETMASK); [sigprocmask_case El|done].
  - rewrite andb_false_r. unfold hbind, ld, get_mem, hret. cbn.
    destruct (nz (gs_x g 2)); by repeat split.
Qed.

(** ** sigaction *)

(** A disposition Linux can keep: default or ignored, with the flags and the
    mask it has. *)
Definition keepable (d : darwin_sigaction) : bool :=
  (dsa_handler d <=? DARWIN_SIG_IGN) && (dsa_flags d .& Z.lnot DARWIN_SA_USERSPACE_MASK =? 0) && negb (has_unshared (dsa_mask d)).

(** The disposition as it is kept. *)
Definition kept (d : darwin_sigaction) : darwin_sigaction :=
  mk_dsa (dsa_handler d) (darwin_blockable (dsa_mask d .& Z.ones 31)) (dsa_flags d).

Lemma masked_small f : f .& Z.lnot DARWIN_SA_USERSPACE_MASK = 0 -> 0 <= f < 128.
Proof.
  intros H. assert (f = f .& Z.ones 7) as ->; [|rewrite Z.land_ones by lia; apply Z.mod_pos_bound; lia].
  change DARWIN_SA_USERSPACE_MASK with (Z.ones 7) in H. apply Z.bits_inj'. intros k Hk.
  apply (f_equal (fun x => Z.testbit x k)) in H. rewrite Z.land_spec, Z.lnot_spec, Z.bits_0 in H by done.
  rewrite Z.land_spec. by destruct (Z.testbit f k), (Z.testbit (Z.ones 7) k).
Qed.

Lemma sa_flags_round_trip f :
  f .& Z.lnot DARWIN_SA_USERSPACE_MASK = 0 ->
  exists l, darwin_sigaction_flags_to_linux f = Some l /\ linux_sigaction_flags_to_darwin l = Some f.
Proof.
  intros H. apply masked_small in H.
  assert (Hall : forallb (fun f => match darwin_sigaction_flags_to_linux f with
      | Some l => match linux_sigaction_flags_to_darwin l with Some f' => f' =? f | None => false end
      | None => false end) (seqZ 0 128) = true) by (vm_compute; reflexivity).
  rewrite forallb_forall in Hall. specialize (Hall f ltac:(apply in_seqZ_iff; lia)).
  destruct (darwin_sigaction_flags_to_linux f) as [l|]; [|done]. exists l. split; [done|].
  destruct (linux_sigaction_flags_to_darwin l); [|done]. f_equal. lia.
Qed.

(** Through the kernel's table and back. *)
Lemma sigaction_kept d :
  keepable d = true -> 0 <= dsa_handler d ->
  exists a, darwin_sigaction_to_linux d = Some a /\
            linux_sigaction_to_darwin (mk_sa (sa_handler a) (blockable (sa_mask a)) (sa_flags a)) = Some (kept d).
Proof.
  unfold keepable. intros H Hh. apply andb_prop in H as [H Hm]. apply andb_prop in H as [H Hf].
  apply Z.eqb_eq, sa_flags_round_trip in Hf as (f&Hf&Hf'). apply negb_true_iff in Hm.
  destruct (darwin_sigset_to_linux (dsa_mask d)) as [l|] eqn:El; [|apply sigset_translated in El; congruence].
  unfold darwin_sigaction_to_linux. rewrite Hf, El. destruct (Z.ltb_spec DARWIN_SIG_IGN (dsa_handler d)); [lia|].
  eexists. split; [done|]. unfold linux_sigaction_to_darwin, kept. cbn. rewrite Hf', sigset_view_blockable, (sigset_round_trip _ _ El).
  unfold DARWIN_SIG_IGN, DARWIN_SIG_DFL in *. destruct (Z.eqb_spec (dsa_handler d) 1); do 3 f_equal; lia.
Qed.

Lemma load_sigaction_range a m :
  0 <= dsa_handler (load_sigaction a m) < 2 ^ 64 /\ 0 <= dsa_mask (load_sigaction a m) < 2 ^ 32 /\
  0 <= dsa_flags (load_sigaction a m) < 2 ^ 32.
Proof.
  cbn [load_sigaction dsa_handler dsa_mask dsa_flags].
  split; [apply (load_range 8); lia|]. split; apply (load_range 4); lia.
Qed.

Lemma load_store_sigaction a d m :
  0 <= dsa_handler d < 2 ^ 64 -> 0 <= dsa_mask d < 2 ^ 32 -> 0 <= dsa_flags d < 2 ^ 32 ->
  load_sigaction a (store_sigaction a d m) = d.
Proof.
  intros H1 H2 H3. unfold load_sigaction, store_sigaction.
  rewrite !load_store_same, !load_store_disj, !load_store_same by lia. rewrite load_store_disj, load_store_same by lia.
  rewrite !Z.mod_small by lia. by destruct d.
Qed.

Lemma kept_range d : 0 <= dsa_mask (kept d) < 2 ^ 32.
Proof.
  unfold kept, darwin_blockable. cbn [dsa_mask]. set (x := _ .& _).
  assert (x = x .& Z.ones 31) as ->.
  { subst x. by rewrite <- !Z.land_assoc. }
  rewrite Z.land_ones by lia. pose proof (Z.mod_pos_bound x (2 ^ 31)). lia.
Qed.

Section sigaction.
Context {K : kernel}.
Implicit Types (g : syscall_gate_state) (p : process guest_vm_table K).

Lemma sigaction_sets sig a p :
  1 <= sig <= 64 -> sig <> SIGKILL -> sig <> SIGSTOP ->
  sigaction sig (Some a) p =
  (inl (p_actions p sig), with_actions (upd (p_actions p) sig (mk_sa (sa_handler a) (blockable (sa_mask a)) (sa_flags a))) p).
Proof.
  intros Hs H1 H2. unfold sigaction, NSIG. destruct (Z.ltb_spec sig 1), (Z.leb_spec 65 sig); try lia.
  by destruct (Z.eqb_spec sig SIGKILL), (Z.eqb_spec sig SIGSTOP).
Qed.

(** Setting a disposition. *)
Lemma sigaction_set g p :
  let sig := i32 (gs_x g 0) in
  let d := load_sigaction (gs_x g 1) (p_mem p) in
  shared_signal sig = true -> ~ In sig [9; 13; 17] -> gs_x g 1 <> 0 -> gs_x g 2 = 0 -> keepable d = true ->
  exists p', handle_sigaction g p = (set_success g 0, p') /\
    linux_sigaction_to_darwin (p_actions p' (darwin_signal_to_linux sig)) = Some (kept d).
Proof.
  cbv zeta. intros Hs Hsig Hn Ho Hk. destruct (sigaction_kept _ Hk) as (a&Ha&Hb); [apply load_sigaction_range|].
  pose proof (signal_to_linux (i32 (gs_x g 0)) ltac:(unfold shared_signal in Hs; lia)) as Hl. rewrite Hs in Hl. destruct Hl as [Hl Hi].
  assert (Hne : forall c, In (linux_signal_to_darwin c) [9; 13; 17] -> darwin_signal_to_linux (i32 (gs_x g 0)) <> c) by (intros c Hc <-; congruence).
  pose proof (Hne 9 ltac:(cbn; auto)). pose proof (Hne 13 ltac:(cbn; auto)). pose proof (Hne 19 ltac:(cbn; auto)).
  unfold handle_sigaction. destruct (Z.leb_spec (darwin_signal_to_linux (i32 (gs_x g 0))) 0); [lia|].
  unfold new_action, old_action. rewrite Ho. destruct (Z.eqb_spec (gs_x g 1) 0); [done|].
  unfold range_000_in_fork_child, hbind, hret, get_mem. rewrite Ha.
  destruct (syscall SYS_getpid [] p) as [pid q]. cbn. destruct (Z.eqb_spec (darwin_signal_to_linux (i32 (gs_x g 0))) SIGPIPE); [done|].
  destruct (nz (p_first_pid p)); cbn; rewrite ?andb_false_r, !sigaction_sets by (unfold SIGKILL, SIGSTOP; lia);
    (eexists; split; [done|]); cbn; by rewrite upd_eq.
Qed.

(** Reading it back. *)
Lemma sigaction_query g p d :
  let sig := i32 (gs_x g 0) in
  shared_signal sig = true -> gs_x g 1 = 0 -> gs_x g 2 <> 0 ->
  linux_sigaction_to_darwin (p_actions p (darwin_signal_to_linux sig)) = Some d ->
  exists p', handle_sigaction g p = (set_success g 0, p') /\ p_mem p' = store_sigaction (gs_x g 2) d (p_mem p).
Proof.
  cbv zeta. intros Hs Hn Ho Hd.
  pose proof (signal_to_linux (i32 (gs_x g 0)) ltac:(unfold shared_signal in Hs; lia)) as Hl. rewrite Hs in Hl. destruct Hl as [Hl _].
  unfold handle_sigaction, new_action, old_action. rewrite Hn. destruct (Z.leb_spec (darwin_signal_to_linux (i32 (gs_x g 0))) 0); [lia|].
  destruct (Z.eqb_spec (gs_x g 2) 0); [done|]. unfold hbind, hret. cbn. unfold sigaction, NSIG.
  destruct (Z.ltb_spec (darwin_signal_to_linux (i32 (gs_x g 0))) 1), (Z.leb_spec 65 (darwin_signal_to_linux (i32 (gs_x g 0)))); try lia.
  cbn. rewrite Hd. eexists. split; reflexivity.
Qed.
End sigaction.

(** C24. What sigaction keeps is what it reports: after a guest sets the action of
    a signal (any but SIGKILL and SIGSTOP, whose action is fixed, SIGEMT and
    SIGINFO, which Linux does not have, and SIGPIPE, which the program manages
    itself), asking for the action of that signal succeeds and writes the same
    handler, flags and mask, less the signals that cannot be blocked, although
    both calls go through Linux's numbering and layout. *)
Theorem sigaction_round_trip {K : kernel} g1 g2 (p : process guest_vm_table K) :
  let sig := i32 (gs_x g1 0) in
  let d := load_sigaction (gs_x g1 1) (p_mem p) in
  shared_signal sig = true -> ~ In sig [9; 13; 17] -> keepable d = true ->
  gs_x g1 1 <> 0 -> gs_x g1 2 = 0 ->
  i32 (gs_x g2 0) = sig -> gs_x g2 1 = 0 -> gs_x g2 2 <> 0 ->
  exists p1 p2, handle_sigaction g1 p = (set_success g1 0, p1) /\ handle_sigaction g2 p1 = (set_success g2 0, p2) /\
    load_sigaction (gs_x g2 2) (p_mem p2) = kept d.
Proof.
  cbv zeta. intros Hs Hsig Hk Hn1 Ho1 E Hn2 Ho2. destruct (sigaction_set g1 p) as (p1&H1&Hd); [done..|].
  destruct (sigaction_query g2 p1 (kept (load_sigaction (gs_x g1 1) (p_mem p)))) as (p2&H2&Hm); try done; [congruence..|].
  exists p1, p2. split; [done|]. split; [done|]. rewrite Hm.
  pose proof (load_sigaction_range (gs_x g1 1) (p_mem p)). apply load_store_sigaction; [tauto|apply kept_range|tauto].
Qed.

(** A guest that sets SIGUSR1 (30) to be ignored, restarting calls, with
    SIGHUP and SIGKILL in the mask, and asks for it at 0x2000. *)
Definition usr1_set : syscall_gate_state := mk_gs (upd (upd (upd (fun _ => 0) 16 46) 0 30) 1 0x1000) 0 0 0x1004.
Definition usr1_query : syscall_gate_state := mk_gs (upd (upd (upd (fun _ => 0) 16 46) 0 30) 2 0x2000) 0 0 0x1004.
Definition usr1_proc : process guest_vm_table eagain_kernel :=
  with_mem (store_sigaction 0x1000 (mk_dsa DARWIN_SIG_IGN (1 .| 2 ^ 8) DARWIN_SA_RESTART) (fun _ => 0)) eagain_proc.

Lemma sigaction_round_trip_witness :
  exists p1 p2, handle_sigaction usr1_set usr1_proc = (set_success usr1_set 0, p1) /\
    handle_sigaction usr1_query p1 = (set_success usr1_query 0, p2) /\
    load_sigaction 0x2000 (p_mem p2) = mk_dsa 1 1 2.
Proof.
  apply (sigaction_round_trip usr1_set usr1_query usr1_proc).
  - reflexivity.
  - intros [H|[H|[H|[]]]]; vm_compute in H; discriminate H.
  - reflexivity.
  - discriminate.
  - reflexivity.
  - reflexivity.
  - reflexivity.
  - discriminate.
Defined.

(** * wait4: what a status word means to the guest *)

Import Gate Dispatch Abi Range000.

(** What happened to a child. *)
Inductive wait_event :=
  | ChildExited (code : Z)
  | ChildKilled (sig : Z) (core : bool)
  | ChildStopped (sig : Z)
  | ChildContinued.
#[export] Instance wait_event_eq_dec : EqDecision wait_event.
Proof. solve_decision. Defined.

(** The macros of the two sys/wait.h. *)
Definition linux_event (s : Z) : wait_event :=
  if s =? 0xffff then ChildContinued
  else if s .& 0x7f =? 0 then ChildExited ((s .>> 8) .& 0xff)
  else if s .& 0xff =? 0x7f then ChildStopped ((s .>> 8) .& 0xff)
  else ChildKilled (s .& 0x7f) (nz (s .& 0x80)).
Definition darwin_event (s : Z) : wait_event :=
  if s .& 0x7f =? 0x7f then if s .>> 8 =? 0x13 then ChildContinued else ChildStopped (s .>> 8)
  else if s .& 0x7f =? 0 then ChildExited ((s .>> 8) .& 0xff)
  else ChildKilled (s .& 0x7f) (nz (s .& 0x80)).

(** The event with Darwin's signal number. *)
Definition to_darwin_event (e : wait_event) : wait_event :=
  match e with
  | ChildKilled sig core => ChildKilled (linux_signal_to_darwin sig) core
  | ChildStopped sig => ChildStopped (linux_signal_to_darwin sig)
  | _ => e
  end.

(** Events the translation carries over: an exit, or a signal Darwin has;
    Darwin reads "stopped by SIGCONT" as "continued". *)
Definition carried (e : wait_event) : bool :=
  match e with
  | ChildExited _ => true
  | ChildKilled sig _ => nz (linux_signal_to_darwin sig)
  | ChildStopped sig => nz (linux_signal_to_darwin sig) && negb (sig =? 18)
  | ChildContinued => false
  end.

(** A status word has sixteen bits. *)
Definition status_ok (s : Z) : bool :=
  negb (carried (linux_event s)) ||
  bool_decide (darwin_event (linux_wait_status_to_darwin s) = to_darwin_event (linux_event s)) &&
  (0 <=? linux_wait_status_to_darwin s) && (linux_wait_status_to_darwin s <? 2 ^ 32).

Lemma wait_status_all : forallb (fun h => forallb (fun l => status_ok (256 * h + l)) (seqZ 0 256)) (seqZ 0 256) = true.
Proof. vm_compute. reflexivity. Qed.

Lemma wait_status_meaning s :
  0 <= s < 65536 -> carried (linux_event s) = true ->
  darwin_event (linux_wait_status_to_darwin s) = to_darwin_event (linux_event s) /\ 0 <= linux_wait_status_to_darwin s < 2 ^ 32.
Proof.
  intros Hs Hc. pose proof wait_status_all as H. rewrite forallb_forall in H.
  pose proof (Z.mod_pos_bound s 256 ltac:(lia)). pose proof (Z.div_mod s 256 ltac:(lia)).
  specialize (H (s / 256) ltac:(apply in_seqZ_iff; lia)). rewrite forallb_forall in H.
  specialize (H (s mod 256) ltac:(apply in_seqZ_iff; lia)). rewrite <- Z.div_mod in H by lia.
  unfold status_ok in H. rewrite Hc in H. cbn [negb orb] in H. apply andb_prop in H as [H Hhi]. apply andb_prop in H as [H Hlo].
  apply bool_decide_eq_true in H. split; [done|lia].
Qed.

Lemma fold_store_out (f : Z -> bytemem -> Z) d n l : forall m x,
  Forall (fun o => 0 <= o /\ o + 8 <= n) l -> apart x 1 d n -> fold_left (fun m o => store 8 (d + o) (f o m) m) l m x = m x.
Proof.
  unfold apart. induction l as [|o l IH]; intros m x Hl Hx; [done|]. apply Forall_cons in Hl as [Ho Hl].
  cbn [fold_left]. rewrite IH by done. apply store_out. lia.
Qed.

Lemma rusage_out l d m x : apart x 1 d 144 -> linux_rusage_to_darwin l d m x = m x.
Proof.
  intros Hx. unfold linux_rusage_to_darwin. rewrite (fold_store_out (fun o m => load 8 (l + o) m) d 144); [|repeat (constructor; [lia|]); constructor|done].
  unfold apart in Hx. by rewrite !store_out by lia.
Qed.

(** When wait4 reports a child, the status word the guest gets means to
    Darwin what Linux's means to Linux: the same exit code, or the same signal
    (in Darwin's numbering) with the same core flag, or stopped by the same
    signal; the result is the child's process id. *)
Theorem wait4_refines {K : kernel} frame g (p : process guest_vm_table K) options v m1 k1 :
  let status := load 4 frame m1 in
  darwin_wait_options_to_linux (i32 (gs_x g 2)) = Some options ->
  k_syscall K SYS_wait4 [i32 (gs_x g 0); frame; options; if nz (gs_x g 3) then frame + 16 else 0]
    (store 4 frame 0 (p_mem p)) (p_kernel p) = (inl v, m1, k1) ->
  0 < v -> gs_x g 1 <> 0 -> status < 65536 -> carried (linux_event status) = true ->
  apart (gs_x g 1) 4 (gs_x g 3) 144 ->
  let '(g', p') := handle_wait4_single_process frame g p in
  darwin_event (load 4 (gs_x g 1) (p_mem p')) = to_darwin_event (linux_event status) /\
  g' = set_success g (if 0 <? i32 (gs_x g 0) then i32 (gs_x g 0) else v).
Proof.
  cbv zeta. intros Ho Hk Hv Hx Hs Hc Ha. pose proof (load_range 4 frame m1 ltac:(lia)).
  destruct (wait_status_meaning (load 4 frame m1) ltac:(lia) Hc) as [He Hr].
  unfold handle_wait4_single_process. rewrite Ho, st_bind, (nz_true _ Hx).
  unfold hbind at 1, set_errno. unfold hbind at 1, syscall. cbn [p_mem p_kernel with_errno with_mem with_kernel]. rewrite Hk.
  destruct (Z.ltb_spec 0 v); [|lia].
  unfold hbind at 1. rewrite ld_bind. cbn [p_mem p_kernel with_errno with_mem with_kernel].
  replace (i32 (load 4 frame m1)) with (load 4 frame m1) by (symmetry; apply signed_small; lia).
  unfold hbind, on_mem, get_mem, set_mem, hret, finish_syscall_result.
  destruct (nz (gs_x g 3)); cbn [st on_mem hbind hret get_mem set_mem p_mem p_kernel with_errno with_mem with_kernel fst snd];
    (destruct (Z.ltb_spec (if 0 <? i32 (gs_x g 0) then i32 (gs_x g 0) else v) 0);
     [destruct (Z.ltb_spec 0 (i32 (gs_x g 0))); lia|]); cbn [hret p_mem with_mem]; (split; [|done]).
  - rewrite (load_ext 4 _ _ (store 4 (gs_x g 1) (linux_wait_status_to_darwin (load 4 frame m1)) m1)).
    + rewrite load_store_same, Z.mod_small by lia. done.
    + intros x Hx'. apply rusage_out. unfold apart in *. lia.
  - rewrite load_store_same, Z.mod_small by lia. done.
Qed.

(** Two statuses lose their meaning: a continued child (Linux's 0xffff)
    reads as stopped by signal 255, and a child killed by a signal Darwin does
    not have (SIGPWR, 30, for one) reads as one that exited with code 0. *)
Theorem wait_status_misread :
  linux_event 0xffff = ChildContinued /\ darwin_event (linux_wait_status_to_darwin 0xffff) = ChildStopped 255 /\
  linux_event 30 = ChildKilled 30 false /\ darwin_event (linux_wait_status_to_darwin 30) = ChildExited 0.
Proof. repeat split. Qed.

(** A kernel with one child, 321, killed by SIGUSR1 (10 on Linux). *)
Definition child_kernel : kernel :=
  {| kstate := unit; k_syscall _ args m k := (inl 321, match args with _ :: a :: _ => store 4 a 10 m | _ => m end, k);
     k_fstat _ k := (inr EINVAL, k); k_statfs _ k := (inr EINVAL, k); k_mounts k := (inr EINVAL, k);
     k_sigpending k := (inr EINVAL, k); k_sigaltstack _ k := (inr EINVAL, k) |}.
Definition waiting : syscall_gate_state := mk_gs (upd (upd (upd (fun _ => 0) 16 7) 0 (2 ^ 64 - 1)) 1 0x1000) 0 0 0x1004.
Definition waiting_proc : process guest_vm_table child_kernel :=
  @mk_proc _ child_kernel tt 0 (fun _ => default_action) 0 (fun _ => 0) [] [] 1.

Lemma wait4_refines_witness :
  let '(g', p') := handle_wait4_single_process 0x7000 waiting waiting_proc in
  darwin_event (load 4 0x1000 (p_mem p')) = ChildKilled 30 false /\ g' = set_success waiting 321.
Proof.
  pose proof (wait4_refines 0x7000 waiting waiting_proc 0 321 (store 4 0x7000 10 (store 4 0x7000 0 (fun _ => 0))) tt) as H.
  cbv zeta in H. replace (load 4 0x7000 _) with 10 in H by (vm_compute; reflexivity). apply H.
  - reflexivity.
  - reflexivity.
  - lia.
  - discriminate.
  - lia.
  - reflexivity.
  - right. vm_compute. discriminate.
Defined.
