(* ===== verification/Range000Select.v ===== *)
(** * select: descriptor sets on their way to Linux and back *)

From S2P Require Import Prelude CStr Host GuestVm GateIsland GateDispatch GateTheorems DarwinAbi DarwinAbiTheorems.
From S2P Require Import Range000 Range000Theorems Range000Sockets.
Import Gate Dispatch Abi Range000.

(** Membership in a Darwin set (words of 32 bits) and in a Linux one (words
    of 64). *)
Definition darwin_isset (fd set : Z) (m : bytemem) : bool := Z.testbit (load 4 (set + 4 * (fd / 32)) m) (fd mod 32).
Definition linux_isset (fd set : Z) (m : bytemem) : bool := Z.testbit (load 8 (set + 8 * (fd / 64)) m) (fd mod 64).

(** ** One word of a bit set *)

Section word.
Context (n : Z) (Hn : 0 < n).

(** Bit [fd] of a set of [n]-byte words. *)
Definition bitset (fd set : Z) (m : bytemem) : bool := Z.testbit (load n (set + n * (fd / (8 * n))) m) (fd mod (8 * n)).
Definition set_bit (fd set : Z) (m : bytemem) : bytemem :=
  let a := set + n * (fd / (8 * n)) in store n a (load n a m .| (1 .<< (fd mod (8 * n)))) m.

Lemma bitset_set_bit fd fd' set m :
  0 <= fd -> 0 <= fd' -> bitset fd' set (set_bit fd set m) = bitset fd' set m || (fd =? fd').
Proof using Hn.
  intros H H'. unfold bitset, set_bit.
  pose proof (Z.mod_pos_bound fd (8 * n) ltac:(lia)). pose proof (Z.div_mod fd (8 * n) ltac:(lia)).
  pose proof (Z.mod_pos_bound fd' (8 * n) ltac:(lia)). pose proof (Z.div_mod fd' (8 * n) ltac:(lia)).
  destruct (Z.eq_dec (fd / (8 * n)) (fd' / (8 * n))) as [E|E].
  - rewrite E, load_store_same, Z.mod_pow2_bits_low, Z.lor_spec, Z.shiftl_1_l, Z.pow2_bits_eqb by lia. f_equal.
    rewrite E in *. destruct (Z.eqb_spec fd fd'), (Z.eqb_spec (fd mod (8 * n)) (fd' mod (8 * n))); lia || congruence.
  - rewrite load_store_disj by nia. destruct (Z.eqb_spec fd fd'); [congruence|]. by rewrite orb_false_r.
Qed.

Lemma set_bit_out N fd set m x :
  0 <= fd < 8 * N -> N mod n = 0 -> apart x 1 set N -> set_bit fd set m x = m x.
Proof using Hn.
  intros H HN Hx. unfold set_bit, apart in *. apply store_out.
  pose proof (Z.mod_pos_bound fd (8 * n) ltac:(lia)). pose proof (Z.div_mod fd (8 * n) ltac:(lia)).
  pose proof (Z.div_mod N n ltac:(lia)).
  assert (0 <= fd / (8 * n) < N / n) by nia. nia.
Qed.

(** A loop that sets the bits another place has. *)
Lemma fold_set_bits N set (src : Z -> bytemem -> bool) l :
  N mod n = 0 -> Forall (fun fd => 0 <= fd < 8 * N) l ->
  (forall fd m m', In fd l -> (forall x, apart x 1 set N -> m' x = m x) -> src fd m' = src fd m) ->
  forall m, let m' := fold_left (fun m fd => if src fd m then set_bit fd set m else m) l m in
  (forall x, apart x 1 set N -> m' x = m x) /\
  forall fd, 0 <= fd -> bitset fd set m' = bitset fd set m || existsb (Z.eqb fd) l && src fd m.
Proof using Hn.
  intros HN Hl Hsrc. induction l as [|a l IH]; intros m; cbn [fold_left existsb].
  - split; [done|]. intros fd _. by rewrite orb_false_r.
  - apply Forall_cons in Hl as [Ha Hl].
    assert (Hs : forall x, apart x 1 set N -> (if src a m then set_bit a set m else m) x = m x).
    { intros x Hx. destruct (src a m); [by apply (set_bit_out N)|done]. }
    destruct (IH Hl (fun fd m m' Hin => Hsrc fd m m' (or_intror Hin)) (if src a m then set_bit a set m else m)) as [H1 H2].
    split; [intros x Hx; by rewrite H1, Hs|]. intros fd Hfd. rewrite H2 by done.
    destruct (existsb (Z.eqb fd) l) eqn:Ei.
    + apply existsb_exists in Ei as (y&Hy&->%Z.eqb_eq). rewrite (Hsrc y m) by (by right || done).
      rewrite orb_true_r. cbn [andb]. destruct (src a m) eqn:Es; [|done]. rewrite bitset_set_bit by lia.
      destruct (Z.eqb_spec a y) as [->|]; [|by rewrite orb_false_r]. by rewrite Es, !orb_true_r.
    + cbn [andb]. rewrite !orb_false_r. destruct (Z.eqb_spec fd a) as [->|].
      * cbn [andb]. destruct (src a m); [|by rewrite orb_false_r]. by rewrite bitset_set_bit, Z.eqb_refl by lia.
      * cbn [andb]. rewrite orb_false_r. destruct (src a m); [|done]. rewrite bitset_set_bit by lia.
        destruct (Z.eqb_spec a fd); [congruence|]. by rewrite orb_false_r.
Qed.
End word.

Lemma linux_isset_bitset fd set m : linux_isset fd set m = bitset 8 fd set m.
Proof. done. Qed.
Lemma darwin_isset_bitset fd set m : darwin_isset fd set m = bitset 4 fd set m.
Proof. done. Qed.

Lemma FD_ISSET_linux fd set m : 0 <= fd -> FD_ISSET fd set m = linux_isset fd set m.
Proof. intros H. unfold FD_ISSET, linux_isset. apply nz_land_shift. apply Z.mod_pos_bound. lia. Qed.

Lemma existsb_seqZ fd n : 0 <= fd -> existsb (Z.eqb fd) (seqZ 0 n) = (fd <? n).
Proof.
  intros H. apply eq_true_iff_eq. rewrite existsb_exists, Z.ltb_lt. split.
  - intros (x&Hx%in_seqZ_iff&->%Z.eqb_eq). lia.
  - intros Hx. exists fd. split; [apply in_seqZ_iff; lia|by apply Z.eqb_eq].
Qed.

Lemma load_word_ext n fd set m m' :
  0 < n -> (forall x, set + n * (fd / (8 * n)) <= x < set + n * (fd / (8 * n)) + n -> m' x = m x) ->
  bitset n fd set m' = bitset n fd set m.
Proof. intros Hn H. unfold bitset. by rewrite (load_ext n _ m' m). Qed.

Lemma word_in n N fd : 0 < n -> N mod n = 0 -> 0 <= fd < 8 * N -> 0 <= n * (fd / (8 * n)) /\ n * (fd / (8 * n)) + n <= N.
Proof.
  intros Hn HN H. pose proof (Z.mod_pos_bound fd (8 * n) ltac:(lia)). pose proof (Z.div_mod fd (8 * n) ltac:(lia)).
  pose proof (Z.div_mod N n ltac:(lia)). assert (0 <= fd / (8 * n) < N / n) by nia. nia.
Qed.

(** The Linux set has the guest's descriptors below [nfds] and no other. *)
Lemma fdset_to_linux nfds d l m :
  0 <= nfds <= 1024 -> (d <> 0 -> apart d 128 l 128) ->
  let m' := darwin_fdset_to_linux nfds d l m in
  (forall x, apart x 1 l 128 -> m' x = m x) /\
  forall fd, 0 <= fd < 1024 -> linux_isset fd l m' = (fd <? nfds) && nz d && darwin_isset fd d m.
Proof.
  intros Hn Ha. unfold darwin_fdset_to_linux. cbv zeta.
  assert (Hz : forall fd, 0 <= fd < 1024 -> linux_isset fd l (memzero l 128 m) = false).
  { intros fd Hfd. unfold linux_isset, memzero. destruct (word_in 8 128 fd) as [H1 H2]; [lia|done|lia|].
    change (8 * 8) with 64 in *. rewrite load_zeroed by lia. apply Z.bits_0. }
  assert (Hzo : forall x, apart x 1 l 128 -> memzero l 128 m x = m x) by (intros x Hx; apply store_out; unfold apart in Hx; lia).
  destruct (Z.eqb_spec d 0) as [->|Hd].
  - split; [done|]. intros fd Hfd. by rewrite Hz, andb_false_r.
  - specialize (Ha Hd).
    assert (Hsrc : forall fd m m', 0 <= fd < 1024 -> (forall x, apart x 1 l 128 -> m' x = m x) -> darwin_isset fd d m' = darwin_isset fd d m).
    { intros fd m1 m2 Hfd Hm. rewrite !darwin_isset_bitset. apply load_word_ext; [lia|]. intros x Hx. apply Hm.
      destruct (word_in 4 128 fd) as [H1 H2]; [lia|done|lia|]. unfold apart in *. lia. }
    destruct (fold_set_bits 8 ltac:(lia) 128 l (fun fd m => nz (load 4 (d + 4 * (fd / 32)) m .& (1 .<< (fd mod 32)))) (seqZ 0 nfds))
      with (m := memzero l 128 m) as [H1 H2].
    + done.
    + apply Forall_forall. intros x Hx%elem_of_seqZ. lia.
    + intros fd m1 m2 Hin%in_seqZ_iff Hm. rewrite !nz_land_shift by (apply Z.mod_pos_bound; lia). apply (Hsrc fd m1 m2); [lia|done].
    + split; [intros x Hx; by rewrite H1, Hzo|]. intros fd Hfd. rewrite linux_isset_bitset.
      etransitivity; [apply (H2 fd); lia|]. rewrite <- linux_isset_bitset, Hz, existsb_seqZ, nz_land_shift, (nz_true _ Hd), andb_true_r
        by (done || lia || apply Z.mod_pos_bound; lia).
      cbn [orb]. f_equal. apply (Hsrc fd m); done.
Qed.

(** The guest's set has what Linux left below [nfds]. *)
Lemma fdset_to_darwin nfds l d m :
  0 <= nfds <= 1024 -> d <> 0 -> apart d 128 l 128 ->
  let m' := linux_fdset_to_darwin nfds l d m in
  (forall x, apart x 1 d 128 -> m' x = m x) /\
  forall fd, 0 <= fd < nfds -> darwin_isset fd d m' = linux_isset fd l m.
Proof.
  intros Hn Hd Ha. unfold linux_fdset_to_darwin. destruct (Z.eqb_spec d 0); [done|]. cbv zeta.
  change DARWIN_NFDBITS with 32. set (words := (nfds + 32 - 1) / 32).
  pose proof (Z.mod_pos_bound (nfds + 32 - 1) 32 ltac:(lia)). pose proof (Z.div_mod (nfds + 32 - 1) 32 ltac:(lia)) as Hw. fold words in Hw.
  assert (Hz : forall fd, 0 <= fd < nfds -> darwin_isset fd d (memzero d (4 * words) m) = false).
  { intros fd Hfd. unfold darwin_isset, memzero. destruct (word_in 4 (4 * words) fd) as [H1 H2]; [lia| |lia|].
    { rewrite Z.mul_comm. apply Z.mod_mul. lia. }
    change (8 * 4) with 32 in *. rewrite load_zeroed by lia. apply Z.bits_0. }
  assert (Hzo : forall x, apart x 1 d 128 -> memzero d (4 * words) m x = m x) by (intros x Hx; apply store_out; unfold apart in Hx; lia).
  assert (Hsrc : forall fd m m', 0 <= fd < 1024 -> (forall x, apart x 1 d 128 -> m' x = m x) -> FD_ISSET fd l m' = FD_ISSET fd l m).
  { intros fd m1 m2 Hfd Hm. rewrite !FD_ISSET_linux, !linux_isset_bitset by lia. apply load_word_ext; [lia|]. intros x Hx. apply Hm.
    destruct (word_in 8 128 fd) as [H1 H2]; [lia|done|lia|]. unfold apart in *. lia. }
  destruct (fold_set_bits 4 ltac:(lia) 128 d (fun fd m => FD_ISSET fd l m) (seqZ 0 nfds))
    with (m := memzero d (4 * words) m) as [H1 H2].
  - done.
  - apply Forall_forall. intros x Hx%elem_of_seqZ. lia.
  - intros fd m1 m2 Hin%in_seqZ_iff Hm. apply Hsrc; [lia|done].
  - split; [intros x Hx; etransitivity; [apply H1, Hx|by apply Hzo]|]. intros fd Hfd. rewrite darwin_isset_bitset.
    etransitivity; [apply (H2 fd); lia|]. rewrite <- darwin_isset_bitset, Hz, existsb_seqZ by lia.
    destruct (Z.ltb_spec fd nfds); [|lia]. cbn [orb andb]. rewrite (Hsrc fd m) by (done || lia). apply FD_ISSET_linux. lia.
Qed.

(** ** The call *)

(** The guest's three sets and where Linux gets them. *)
Definition select_sets (frame : Z) (g : syscall_gate_state) : list (Z * Z) :=
  [(gs_x g 1, frame); (gs_x g 2, frame + 128); (gs_x g 3, frame + 256)].

Lemma linux_isset_ext fd l m m' :
  0 <= fd < 1024 -> (forall x, l <= x < l + 128 -> m' x = m x) -> linux_isset fd l m' = linux_isset fd l m.
Proof.
  intros Hfd H. rewrite !linux_isset_bitset. apply load_word_ext; [lia|]. intros x Hx. apply H.
  destruct (word_in 8 128 fd) as [H1 H2]; [lia|done|lia|]. lia.
Qed.
Lemma darwin_isset_ext fd d m m' :
  0 <= fd < 1024 -> (forall x, d <= x < d + 128 -> m' x = m x) -> darwin_isset fd d m' = darwin_isset fd d m.
Proof.
  intros Hfd H. rewrite !darwin_isset_bitset. apply load_word_ext; [lia|]. intros x Hx. apply H.
  destruct (word_in 4 128 fd) as [H1 H2]; [lia|done|lia|]. lia.
Qed.

Section sets.
Context (nfds r w e frame : Z) (Hn : 0 <= nfds <= 1024).
Context (Hr : r <> 0 -> apart r 128 frame 400) (Hw : w <> 0 -> apart w 128 frame 400) (He : e <> 0 -> apart e 128 frame 400).

Definition sets_to_linux (m : bytemem) : bytemem :=
  darwin_fdset_to_linux nfds e (frame + 256) (darwin_fdset_to_linux nfds w (frame + 128) (darwin_fdset_to_linux nfds r frame m)).
Definition sets_to_darwin (m : bytemem) : bytemem :=
  linux_fdset_to_darwin nfds (frame + 256) e (linux_fdset_to_darwin nfds (frame + 128) w (linux_fdset_to_darwin nfds frame r m)).

Lemma sets_to_linux_spec m :
  (forall x, apart x 1 frame 384 -> sets_to_linux m x = m x) /\
  forall d l fd, In (d, l) [(r, frame); (w, frame + 128); (e, frame + 256)] -> 0 <= fd < 1024 ->
    linux_isset fd l (sets_to_linux m) = (fd <? nfds) && nz d && darwin_isset fd d m.
Proof using Hn Hr Hw He.
  unfold apart in *. set (m1 := darwin_fdset_to_linux nfds r frame m).
  set (m2 := darwin_fdset_to_linux nfds w (frame + 128) m1).
  destruct (fdset_to_linux nfds r frame m) as [R1 R2]; [done|unfold apart; lia|].
  destruct (fdset_to_linux nfds w (frame + 128) m1) as [W1 W2]; [done|unfold apart; lia|].
  destruct (fdset_to_linux nfds e (frame + 256) m2) as [E1 E2]; [done|unfold apart; lia|].
  fold m1 in R1, R2. fold m2 in W1, W2. unfold apart in *. unfold sets_to_linux. fold m1 m2.
  split; [intros x Hx; rewrite E1, W1, R1 by lia; done|].
  intros d l fd Hin Hfd. destruct Hin as [[= <- <-]|[[= <- <-]|[[= <- <-]|[]]]].
  - rewrite (linux_isset_ext fd frame m1); [by apply R2|done|]. intros x Hx. rewrite E1, W1 by lia. done.
  - rewrite (linux_isset_ext fd (frame + 128) m2); [|done|intros x Hx; rewrite E1 by lia; done]. rewrite W2 by done.
    destruct (Z.eq_dec w 0) as [->|Hw0]; [by rewrite andb_false_r|]. f_equal. apply darwin_isset_ext; [done|].
    intros x Hx. apply R1. specialize (Hw Hw0). lia.
  - rewrite E2 by done. destruct (Z.eq_dec e 0) as [->|He0]; [by rewrite andb_false_r|]. f_equal. apply darwin_isset_ext; [done|].
    intros x Hx. specialize (He He0). rewrite W1, R1 by lia. done.
Qed.

Context (Hrw : r <> 0 -> w <> 0 -> apart r 128 w 128) (Hre : r <> 0 -> e <> 0 -> apart r 128 e 128)
        (Hwe : w <> 0 -> e <> 0 -> apart w 128 e 128).

Lemma fdset_back_out l d m x : apart d 128 l 128 \/ d = 0 -> (d <> 0 -> apart x 1 d 128) -> linux_fdset_to_darwin nfds l d m x = m x.
Proof using Hn.
  intros Ha Hx. destruct (Z.eq_dec d 0) as [->|Hd]; [done|]. destruct Ha as [Ha|]; [|done].
  apply (fdset_to_darwin nfds l d m Hn Hd Ha). auto.
Qed.

Lemma sets_to_darwin_spec m d l fd :
  In (d, l) [(r, frame); (w, frame + 128); (e, frame + 256)] -> d <> 0 -> 0 <= fd < nfds ->
  darwin_isset fd d (sets_to_darwin m) = linux_isset fd l m.
Proof using Hn Hr Hw He Hrw Hre Hwe.
  intros Hin Hd Hfd. unfold sets_to_darwin. set (m1 := linux_fdset_to_darwin nfds frame r m).
  set (m2 := linux_fdset_to_darwin nfds (frame + 128) w m1).
  assert (A1 : forall x, (r <> 0 -> apart x 1 r 128) -> m1 x = m x) by (intros x Hx; apply fdset_back_out; [unfold apart in *; lia|done]).
  assert (A2 : forall x, (w <> 0 -> apart x 1 w 128) -> m2 x = m1 x) by (intros x Hx; apply fdset_back_out; [unfold apart in *; lia|done]).
  assert (A3 : forall x, (e <> 0 -> apart x 1 e 128) -> linux_fdset_to_darwin nfds (frame + 256) e m2 x = m2 x)
    by (intros x Hx; apply fdset_back_out; [unfold apart in *; lia|done]).
  destruct Hin as [[= <- <-]|[[= <- <-]|[[= <- <-]|[]]]].
  - rewrite (darwin_isset_ext fd r m1); [apply (fdset_to_darwin nfds frame r m); unfold apart in *; lia|lia|].
    intros x Hx. rewrite A3, A2 by (unfold apart in *; lia). done.
  - rewrite (darwin_isset_ext fd w m2); [|lia|intros x Hx; rewrite A3 by (unfold apart in *; lia); done].
    destruct (fdset_to_darwin nfds (frame + 128) w m1) as [_ ->]; [done|done|unfold apart in *; lia| |done].
    apply linux_isset_ext; [lia|]. intros x Hx. apply A1. unfold apart in *. lia.
  - destruct (fdset_to_darwin nfds (frame + 256) e m2) as [_ ->]; [done|done|unfold apart in *; lia| |done].
    apply linux_isset_ext; [lia|]. intros x Hx. rewrite A2, A1 by (unfold apart in *; lia). done.
Qed.
End sets.

Lemma hbind_hbind {K : kernel} {A B C} (m : host guest_vm_table K A) (f : A -> host guest_vm_table K B) (h : B -> host guest_vm_table K C) p :
  hbind (hbind m f) h p = hbind m (fun a => hbind (f a) h) p.
Proof. unfold hbind. by destruct (m p). Qed.

(** What the call does with the kernel's answer. *)
Definition select_end {K : kernel} g nfds frame (r : Z + Z) m1 k1 (p : process guest_vm_table K) : syscall_gate_state * process guest_vm_table K :=
  let p1 := with_mem m1 (with_kernel k1 p) in
  match r with
  | inl v => if v <? 0 then (set_failure g DARWIN_EIO, p1)
             else (set_success g v, with_mem (sets_to_darwin nfds (gs_x g 1) (gs_x g 2) (gs_x g 3) frame m1) p1)
  | inr e => (set_failure g (darwin_errno_from_linux e), with_errno e p1)
  end.

Lemma select_run {K : kernel} frame g (p : process guest_vm_table K) r m1 k1 :
  let nfds := i32 (gs_x g 0) in
  let m := sets_to_linux nfds (gs_x g 1) (gs_x g 2) (gs_x g 3) frame (p_mem p) in
  0 <= nfds <= 1024 ->
  k_syscall K SYS_pselect6
    [nfds; if nz (gs_x g 1) then frame else 0; if nz (gs_x g 2) then frame + 128 else 0;
     if nz (gs_x g 3) then frame + 256 else 0; if nz (gs_x g 4) then frame + 384 else 0; 0]
    (if nz (gs_x g 4) then store 8 (frame + 392) (i32 (load 4 (gs_x g 4 + 8) m) * 1000)
                             (store 8 (frame + 384) (load 8 (gs_x g 4) m) m) else m) (p_kernel p) = (r, m1, k1) ->
  handle_select frame g p = select_end g nfds frame r m1 k1 (with_errno 0 (with_mem m p)).
Proof.
  cbv zeta. intros Hn Hk. unfold handle_select. unfold FD_SETSIZE, DARWIN_FD_SETSIZE.
  destruct (Z.ltb_spec (i32 (gs_x g 0)) 0), (Z.ltb_spec 1024 (i32 (gs_x g 0))); try lia. cbn [orb].
  rewrite !on_mem_bind. unfold hbind at 1, set_errno, raw_select.
  destruct (nz (gs_x g 4)); rewrite hbind_hbind.
  - rewrite hbind_hbind, ld_bind, hbind_hbind, ld_bind, hbind_hbind, !st_bind.
    unfold hbind at 1, syscall. cbn [p_mem p_kernel with_errno with_mem with_kernel fst snd].
    unfold sets_to_linux in Hk. rewrite Hk. destruct r as [v|err]; [|done]. unfold select_end. by destruct (v <? 0).
  - unfold hbind at 1, hret at 1. unfold hbind at 1, syscall. cbn [p_mem p_kernel with_errno with_mem with_kernel fst snd].
    unfold sets_to_linux in Hk. rewrite Hk. destruct r as [v|err]; [|done]. unfold select_end. by destruct (v <? 0).
Qed.

(** C25. select carries descriptor sets over exactly: Linux is called once, with
    three sets that hold the guest's descriptors below nfds and no other
    (an absent set is absent) and the guest's timeout in nanoseconds; when Linux
    succeeds, each of the guest's sets below nfds is what Linux left and the
    result is Linux's count, when it fails the guest gets the error number. *)
Theorem select_refines {K : kernel} frame g (p : process guest_vm_table K) :
  let nfds := i32 (gs_x g 0) in
  0 <= nfds <= 1024 ->
  (forall d l, In (d, l) (select_sets frame g) -> d <> 0 -> apart d 128 frame 400) ->
  apart (gs_x g 4) 16 frame 400 ->
  (gs_x g 1 <> 0 -> gs_x g 2 <> 0 -> apart (gs_x g 1) 128 (gs_x g 2) 128) ->
  (gs_x g 1 <> 0 -> gs_x g 3 <> 0 -> apart (gs_x g 1) 128 (gs_x g 3) 128) ->
  (gs_x g 2 <> 0 -> gs_x g 3 <> 0 -> apart (gs_x g 2) 128 (gs_x g 3) 128) ->
  exists m0,
    (forall d l fd, In (d, l) (select_sets frame g) -> 0 <= fd < 1024 ->
       linux_isset fd l m0 = (fd <? nfds) && nz d && darwin_isset fd d (p_mem p)) /\
    (gs_x g 4 <> 0 -> load 8 (frame + 384) m0 = load 8 (gs_x g 4) (p_mem p) /\
       load 8 (frame + 392) m0 = u64 (i32 (load 4 (gs_x g 4 + 8) (p_mem p)) * 1000)) /\
    let '(r, m1, k1) := k_syscall K SYS_pselect6
      [nfds; if nz (gs_x g 1) then frame else 0; if nz (gs_x g 2) then frame + 128 else 0;
       if nz (gs_x g 3) then frame + 256 else 0; if nz (gs_x g 4) then frame + 384 else 0; 0] m0 (p_kernel p) in
    let '(g', p') := handle_select frame g p in
    match r with
    | inl v => 0 <= v -> g' = set_success g v /\
        forall d l fd, In (d, l) (select_sets frame g) -> d <> 0 -> 0 <= fd < nfds ->
          darwin_isset fd d (p_mem p') = linux_isset fd l m1
    | inr e => g' = set_failure g (darwin_errno_from_linux e)
    end.
Proof.
  cbv zeta. intros Hn Hs Ht Hrw Hre Hwe.
  assert (Hr : gs_x g 1 <> 0 -> apart (gs_x g 1) 128 frame 400) by (intros H; apply (Hs _ frame); [by left|done]).
  assert (Hw : gs_x g 2 <> 0 -> apart (gs_x g 2) 128 frame 400) by (intros H; apply (Hs _ (frame + 128)); [by right; left|done]).
  assert (He : gs_x g 3 <> 0 -> apart (gs_x g 3) 128 frame 400) by (intros H; apply (Hs _ (frame + 256)); [by right; right; left|done]).
  destruct (sets_to_linux_spec (i32 (gs_x g 0)) _ _ _ frame Hn Hr Hw He (p_mem p)) as [L1 L2].
  set (m := sets_to_linux _ _ _ _ _ _) in *.
  set (m0 := if nz (gs_x g 4) then store 8 (frame + 392) (i32 (load 4 (gs_x g 4 + 8) m) * 1000)
                                     (store 8 (frame + 384) (load 8 (gs_x g 4) m) m) else m).
  exists m0. split; [|split].
  - intros d l fd Hin Hfd. rewrite <- (L2 d l fd Hin Hfd). apply linux_isset_ext; [done|].
    intros x Hx. subst m0. destruct (nz (gs_x g 4)); [|done].
    assert (frame <= x < frame + 384) by (destruct Hin as [[= _ <-]|[[= _ <-]|[[= _ <-]|[]]]]; lia). by rewrite !store_out by lia.
  - intros H4. subst m0. rewrite (nz_true _ H4). unfold apart in Ht.
    rewrite load_store_disj, !load_store_same by lia. rewrite !(load_ext _ _ m (p_mem p)) by (intros; apply L1; unfold apart; lia).
    split; [|done]. apply Z.mod_small. apply (load_range 8). lia.
  - destruct (k_syscall K _ _ _ _) as [[r m1] k1] eqn:Ek.
    assert (Hsel : handle_select frame g p = select_end g (i32 (gs_x g 0)) frame r m1 k1 (with_errno 0 (with_mem m p)))
      by (apply select_run; done).
    rewrite Hsel. unfold select_end. destruct r as [v|err].
    + destruct (Z.ltb_spec v 0); intros Hv; [lia|]. split; [done|]. intros d l fd Hin Hd Hfd. by apply sets_to_darwin_spec.
    + done.
Qed.

(** A kernel on which one descriptor of every set is ready, and a guest that
    waits for descriptors 0 and 33. *)
Definition ready_kernel : kernel :=
  {| kstate := unit; k_syscall _ _ m k := (inl 1, m, k);
     k_fstat _ k := (inr EINVAL, k); k_statfs _ k := (inr EINVAL, k); k_mounts k := (inr EINVAL, k);
     k_sigpending k := (inr EINVAL, k); k_sigaltstack _ k := (inr EINVAL, k) |}.
Definition selecting : syscall_gate_state := mk_gs (upd (upd (upd (fun _ => 0) 16 93) 0 40) 1 0x1000) 0 0 0x1004.
Definition selecting_proc : process guest_vm_table ready_kernel :=
  @mk_proc _ ready_kernel tt 0 (fun _ => default_action) 0 (store 8 0x1000 0x200000001 (fun _ => 0)) [] [] 1.

Lemma select_refines_witness :
  exists m0, linux_isset 33 0x7000 m0 = true /\ linux_isset 34 0x7000 m0 = false /\
  let '(g', p') := handle_select 0x7000 selecting selecting_proc in
  g' = set_success selecting 1 /\ darwin_isset 33 0x1000 (p_mem p') = linux_isset 33 0x7000 m0.
Proof.
  destruct (select_refines 0x7000 selecting selecting_proc) as (m0&H1&_&H2).
  - split; vm_compute; discriminate.
  - intros d l Hin Hd. vm_compute in Hin. destruct Hin as [[= <- _]|[[= <- _]|[[= <- _]|[]]]]; [left; vm_compute; discriminate|done|done].
  - left. vm_compute. discriminate.
  - intros _ H. by vm_compute in H.
  - intros _ H. by vm_compute in H.
  - intros H. by vm_compute in H.
  - exists m0. cbn [k_syscall ready_kernel] in H2.
    split; [rewrite (H1 0x1000 0x7000); [vm_compute; reflexivity|by left|lia]|].
    split; [rewrite (H1 0x1000 0x7000); [vm_compute; reflexivity|by left|lia]|].
    destruct (handle_select _ _ _) as [g' p']. destruct H2 as [-> H2]; [lia|]. split; [reflexivity|].
    apply (H2 0x1000 0x7000 33); [by left|discriminate|vm_compute; split; congruence].
Defined.
