(* ===== verification/GatePatch.v ===== *)
(** * Syscall gate: island pools and patching (src/syscall/syscall_gate.c)

    Where islands are allocated and how the text is rewritten.  The memory
    calls of the host ([mmap] with MAP_FIXED_NOREPLACE, [munmap], [mprotect])
    are a parameter; memory is the word memory of the image and the pools. *)

From S2P Require Import Prelude Arm64 Arm64Enc IsaEmul IsaPatch Macho GateIsland GateDispatch.
Import Gate.

Module GatePools.

(** The host's memory calls, on a state of their own.  [hm_map] is [mmap] of
    anonymous RWX memory with MAP_FIXED_NOREPLACE: the address, or 0 for
    MAP_FAILED. *)
Record host_memory := {
  hm_state : Type;
  hm_map : Z -> Z -> hm_state -> Z * hm_state;
  hm_unmap : Z -> Z -> hm_state -> hm_state;
  hm_protect : Z -> Z -> Z -> hm_state -> hm_state;
  hm_page : Z;                      (* sysconf(_SC_PAGESIZE) *)
}.

Record syscall_gate_pool := mk_pool { cur : Z; pool_end : Z; base : Z; size : Z }.

Definition align_down (value alignment : Z) : Z := value .& Z.lnot (alignment - 1).
Definition align_up (value alignment : Z) : Z := u64 (value + alignment - 1) .& Z.lnot (alignment - 1).

Definition island_reachable (instr island : Z) : bool := arm64_branch_in_range (island - instr).

(** [gate_pools] up to [gate_pool_count]; a pool is named by its index. *)
Definition register_gate_pool (b sz : Z) (pools : list syscall_gate_pool)
  : option nat * list syscall_gate_pool :=
  if (b =? 0) || (sz <? SYSCALL_GATE_ISLAND_WORDS * 4) then (None, pools)
  else if SYSCALL_GATE_MAX_POOLS <=? Z.of_nat (length pools) then (None, pools)
  else (Some (length pools), pools ++ [mk_pool b (b + 4 * (sz / 4)) b sz]).

Definition pool_serves (instr : Z) (p : syscall_gate_pool) : bool :=
  negb (pool_end p <? cur p + 4 * SYSCALL_GATE_ISLAND_WORDS) && island_reachable instr (cur p).

Fixpoint find_pool_from (instr : Z) (i : nat) (pools : list syscall_gate_pool) : option nat :=
  match pools with
  | [] => None
  | p :: pools => if pool_serves instr p then Some i else find_pool_from instr (S i) pools
  end.
Definition find_gate_pool (instr : Z) (pools : list syscall_gate_pool) : option nat :=
  find_pool_from instr 0 pools.

Section host.
Context (H : host_memory).

Definition page_size : Z := if hm_page H <=? 0 then 4096 else hm_page H.

Definition map_gate_pool_at (address sz : Z) (s : hm_state H) : Z * hm_state H :=
  let '(result, s) := hm_map H address sz s in
  if result =? 0 then (0, s)
  else if result =? address then (result, s)
  else (0, hm_unmap H result sz s).

(** The state of patching: pools, host, memory. *)
Record gate := mk_gate { g_pools : list syscall_gate_pool; g_host : hm_state H; g_mem : word_mem }.

Definition try_pool_at (address sz : Z) (g : gate) : option (option nat) * gate :=
  let '(b, h) := map_gate_pool_at address sz (g_host g) in
  if b =? 0 then (None, mk_gate (g_pools g) h (g_mem g))
  else let '(r, pools) := register_gate_pool b sz (g_pools g) in (Some r, mk_gate pools h (g_mem g)).

(** The downward search.  [fuel] bounds the number of steps. *)
Fixpoint search_below (fuel : nat) (address minimum sz : Z) (g : gate) : option (option nat) * gate :=
  match fuel with
  | O => (None, g)
  | S fuel =>
      if minimum <=? address then
        match try_pool_at address sz g with
        | (Some r, g) => (Some r, g)
        | (None, g) =>
            if address <? u64 (minimum + SYSCALL_GATE_SEARCH_STEP) then (None, g)
            else search_below fuel (address - SYSCALL_GATE_SEARCH_STEP) minimum sz g
        end
      else (None, g)
  end.

Definition B_RANGE : Z := 2 ^ 27.
Definition search_fuel : nat := 130.

Definition last_try (address sz : Z) (g : gate) : option nat * gate :=
  match try_pool_at address sz g with (Some r, g) => (r, g) | (None, g) => (None, g) end.

Definition below_start (site sz page : Z) : Z := align_down (if sz <? site then site - sz else page) page.
Definition below_minimum (site page : Z) : Z := if B_RANGE <? site then align_up (site - B_RANGE) page else page.

Definition allocate_gate_pool_below (site sz page : Z) (g : gate) : option nat * gate :=
  match search_below search_fuel (below_start site sz page) (below_minimum site page) sz g with
  | (Some r, g) => (r, g)
  | (None, g) => last_try (below_minimum site page) sz g
  end.

Fixpoint search_above (fuel : nat) (address maximum sz : Z) (g : gate) : option (option nat) * gate :=
  match fuel with
  | O => (None, g)
  | S fuel =>
      if address <=? maximum then
        match try_pool_at address sz g with
        | (Some r, g) => (Some r, g)
        | (None, g) =>
            if maximum - address <? SYSCALL_GATE_SEARCH_STEP then (None, g)
            else search_above fuel (u64 (address + SYSCALL_GATE_SEARCH_STEP)) maximum sz g
        end
      else (None, g)
  end.

Definition above_start (site page : Z) : Z := align_up (u64 (site + page)) page.
Definition above_maximum (site sz page : Z) : Z := align_down (u64 (site + B_RANGE - sz)) page.

Definition allocate_gate_pool_above (site sz page : Z) (g : gate) : option nat * gate :=
  match search_above search_fuel (above_start site page) (above_maximum site sz page) sz g with
  | (Some r, g) => (r, g)
  | (None, g) => last_try (above_maximum site sz page) sz g
  end.

Definition allocate_gate_pool_near (instr : Z) (g : gate) : option nat * gate :=
  let page := page_size in
  let sz := align_up SYSCALL_GATE_POOL_SIZE page in
  match allocate_gate_pool_below instr sz page g with
  | (Some i, g) => (Some i, g)
  | (None, g) => allocate_gate_pool_above instr sz page g
  end.

(** [dispatcher] is the address of [syscall_gate_dispatch]. *)
Definition patch_instruction (dispatcher instr : Z) (g : gate) : bool * gate :=
  let '(found, g) :=
    match find_gate_pool instr (g_pools g) with
    | Some i => (Some i, g)
    | None => allocate_gate_pool_near instr g
    end in
  match found with
  | None => (false, g)
  | Some i =>
      match g_pools g !! i with
      | None => (false, g)
      | Some p =>
          let island := cur p in
          let m := write_words (g_mem g) island (emit_island island instr dispatcher) in
          let m := upd m instr (enc_b (i32 (ptrdiff32 island instr))) in
          let p' := mk_pool (cur p + 4 * SYSCALL_GATE_ISLAND_WORDS) (pool_end p) (base p) (size p) in
          (true, mk_gate (<[i := p']> (g_pools g)) (g_host g) m)
      end
  end.

(** The number of patches, or [None] for -1. *)
Fixpoint patch_words (dispatcher code : Z) (count : nat) (patched : Z) (g : gate) : option Z * gate :=
  match count with
  | O => (Some patched, g)
  | S count =>
      if negb (g_mem g code =? DARWIN_SVC_0X80) then patch_words dispatcher (code + 4) count patched g
      else match patch_instruction dispatcher code g with
           | (false, g) => (None, g)
           | (true, g) => patch_words dispatcher (code + 4) count (patched + 1) g
           end
  end.

Definition patch_section (dispatcher code sz : Z) (g : gate) : option Z * gate :=
  patch_words dispatcher code (Z.to_nat (sz / 4)) 0 g.

Definition has_instructions (s : section_64) : bool :=
  nz (sect_flags s .& S_ATTR_SOME_INSTRUCTIONS) || nz (sect_flags s .& S_ATTR_PURE_INSTRUCTIONS).

Fixpoint patch_sections (dispatcher sl : Z) (l : list section_64) (total : Z) (g : gate) : option Z * gate :=
  match l with
  | [] => (Some total, g)
  | s :: l =>
      if negb (has_instructions s) then patch_sections dispatcher sl l total g
      else match patch_section dispatcher (u64 (sect_addr s + sl)) (sect_size s) g with
           | (None, g) => (None, g)
           | (Some n, g) => patch_sections dispatcher sl l (total + n) g
           end
  end.

Definition protect (addr len prot : Z) (g : gate) : gate :=
  mk_gate (g_pools g) (hm_protect H addr len prot (g_host g)) (g_mem g).

Fixpoint patch_commands (dispatcher sl : Z) (l : list load_command) (total : Z) (g : gate) : option Z * gate :=
  match l with
  | [] => (Some total, g)
  | lc :: l =>
      match body lc with
      | LC_SEGMENT_64 seg =>
          if nz (maxprot seg .& Macho.VM_PROT_EXECUTE) then
            let seg_addr := u64 (vmaddr seg + sl) in
            let g := protect seg_addr (vmsize seg) 7 g in
            match patch_sections dispatcher sl (sections seg) total g with
            | (None, g) => (None, g)
            | (Some total, g) =>
                patch_commands dispatcher sl l total
                  (protect seg_addr (vmsize seg) (Dispatch.native_prot_from_macho (initprot seg)) g)
            end
          else patch_commands dispatcher sl l total g
      | _ => patch_commands dispatcher sl l total g
      end
  end.

(** [image] is the header the results point to; [None] when [mh] is NULL. *)
Definition syscall_gate_patch (dispatcher : Z) (image : option mach_header_64) (lr : load_results)
    (h : hm_state H) (m : word_mem) : option Z * load_results * gate :=
  match image with
  | None => (Some 0, lr, mk_gate [] h m)
  | Some image =>
      let '(pool, lr) := machgate_pool_alloc lr SYSCALL_GATE_POOL_SIZE in
      let g := mk_gate [] h m in
      let start :=
        match pool with
        | None => Some g
        | Some p =>
            let '(r, pools) := register_gate_pool p SYSCALL_GATE_POOL_SIZE (g_pools g) in
            match r with None => None | Some _ => Some (mk_gate pools h m) end
        end in
      match start with
      | None => (None, lr, g)
      | Some g =>
          let '(total, g) :=
            patch_commands dispatcher (slide lr) (visited (sizeofcmds image) 0 (commands image)) 0 g in
          (total, lr, g)
      end
  end.
End host.

End GatePools.

(** * Syscall gate: every island is reachable, every svc is redirected *)

Import Gate GatePools.

(** ** Alignment *)

Lemma align_down_spec v k : 0 <= k -> align_down v (2 ^ k) = 2 ^ k * (v / 2 ^ k).
Proof.
  intros Hk. unfold align_down. replace (2 ^ k - 1) with (Z.ones k) by (rewrite Z.ones_equiv; lia).
  by apply land_lnot_ones.
Qed.

Lemma align_down_bounds v k : 0 <= k ->
  v - 2 ^ k < align_down v (2 ^ k) <= v /\ (2 ^ k | align_down v (2 ^ k)).
Proof.
  intros Hk. rewrite align_down_spec by done. pose proof (Z.div_mod v (2 ^ k) ltac:(lia)).
  pose proof (Z.mod_pos_bound v (2 ^ k) ltac:(lia)). split; [lia|]. apply Z.divide_factor_l.
Qed.

Lemma align_up_bounds v k : 0 <= k -> 0 <= v -> v + 2 ^ k <= 2 ^ 64 ->
  v <= align_up v (2 ^ k) < v + 2 ^ k /\ (2 ^ k | align_up v (2 ^ k)).
Proof.
  intros Hk Hv Hle. unfold align_up. rewrite u64_small by lia.
  change (u64 ?x .& ?y) with (u64 x .& y).
  pose proof (align_down_bounds (v + 2 ^ k - 1) k Hk) as [H1 H2]. unfold align_down in H1, H2.
  split; [lia|done].
Qed.

(** ** Reachability of allocated pools *)

Lemma in_range_of site a :
  (4 | site) -> (4 | a) -> site - 2 ^ 27 <= a < site + 2 ^ 27 -> island_reachable site a = true.
Proof.
  intros [x Hx] [y Hy] Hr. unfold island_reachable, arm64_branch_in_range.
  replace ((a - site) .& 3) with 0.
  - unfold nz. cbn [Z.eqb negb]. rewrite Z.shiftr_div_pow2 by lia. change (2 ^ 2) with 4.
    replace (a - site) with ((y - x) * 4) by lia. rewrite Z.div_mul by lia.
    apply andb_true_iff. split; [apply Z.leb_le|apply Z.ltb_lt]; lia.
  - change 3 with (Z.ones 2). rewrite Z.land_ones by lia. change (2 ^ 2) with 4.
    replace (a - site) with ((y - x) * 4) by lia. by rewrite Z.mod_mul.
Qed.

Section reach.
Context (H : host_memory).

Lemma try_pool_spec a sz g r g' :
  try_pool_at H a sz g = (r, g') ->
  g_mem H g' = g_mem H g /\
  match r with
  | Some (Some i) => i = length (g_pools H g) /\ a <> 0 /\ 384 <= sz /\
      (fst (hm_map H a sz (g_host H g)) = a) /\
      g_host H g' = snd (hm_map H a sz (g_host H g)) /\
      g_pools H g' = g_pools H g ++ [mk_pool a (a + 4 * (sz / 4)) a sz]
  | _ => g_pools H g' = g_pools H g
  end.
Proof.
  unfold try_pool_at, map_gate_pool_at, register_gate_pool.
  destruct (hm_map H a sz (g_host H g)) as [res h] eqn:E. cbn [fst snd].
  destruct (Z.eqb_spec res 0) as [->|]; [rewrite Z.eqb_refl; intros [= <- <-]; done|].
  destruct (Z.eqb_spec res a) as [->|]; [|rewrite Z.eqb_refl; intros [= <- <-]; done].
  destruct (Z.eqb_spec a 0); [done|]. cbn [orb].
  destruct (Z.ltb_spec sz (SYSCALL_GATE_ISLAND_WORDS * 4)) as [|Hsz]; [intros [= <- <-]; done|].
  destruct (_ <=? _); [intros [= <- <-]; done|]. intros [= <- <-]. cbn. unfold SYSCALL_GATE_ISLAND_WORDS in Hsz.
  repeat split; try done; lia.
Qed.

(** Allocation as a sequence of tries at addresses in [Q]: misses, then a hit
    or nothing. *)
Inductive alloc (Q : Z -> Prop) (sz : Z) : gate H -> option nat -> gate H -> Prop :=
| alloc_none g : alloc Q sz g None g
| alloc_miss a g q g1 r g2 :
    Q a -> try_pool_at H a sz g = (q, g1) -> (forall i, q <> Some (Some i)) ->
    alloc Q sz g1 r g2 -> alloc Q sz g r g2
| alloc_hit a g i g1 : Q a -> try_pool_at H a sz g = (Some (Some i), g1) -> alloc Q sz g (Some i) g1.

Lemma alloc_app Q sz g g1 r g2 : alloc Q sz g None g1 -> alloc Q sz g1 r g2 -> alloc Q sz g r g2.
Proof.
  intros Ha. remember None as n. induction Ha as [|a g q g0 n g3 Hq Ht Hn _ IH|]; intros Hb; [done| |discriminate].
  eapply alloc_miss; eauto.
Qed.

Lemma alloc_try Q sz a g :
  Q a -> alloc Q sz g (fst (last_try H a sz g)) (snd (last_try H a sz g)).
Proof.
  intros Ha. unfold last_try. destruct (try_pool_at H a sz g) as [[[i|]|] g1] eqn:E.
  - by eapply alloc_hit.
  - eapply alloc_miss; [exact Ha|exact E|done|apply alloc_none].
  - eapply alloc_miss; [exact Ha|exact E|done|apply alloc_none].
Qed.

(** The searches only try addresses between their limits, in steps. *)
Definition found (r : option (option nat)) : option nat := match r with Some q => q | None => None end.

Lemma search_below_alloc Q sz fuel address minimum g :
  0 <= minimum -> minimum + SYSCALL_GATE_SEARCH_STEP < 2 ^ 64 ->
  (forall n, minimum <= address - n * SYSCALL_GATE_SEARCH_STEP -> 0 <= n ->
     Q (address - n * SYSCALL_GATE_SEARCH_STEP)) ->
  let '(r, g') := search_below H fuel address minimum sz g in alloc Q sz g (found r) g'.
Proof.
  intros Hm0 Hm1. revert address g. induction fuel as [|fuel IH]; intros address g HQ; cbn [search_below].
  - apply alloc_none.
  - destruct (Z.leb_spec minimum address); [|apply alloc_none].
    assert (Qa : Q address) by (specialize (HQ 0); rewrite Z.mul_0_l, Z.sub_0_r in HQ; apply HQ; lia).
    destruct (try_pool_at H address sz g) as [[[i|]|] g1] eqn:E.
    + by eapply alloc_hit.
    + eapply alloc_miss; [exact Qa|exact E|done|apply alloc_none].
    + rewrite u64_small by (unfold SYSCALL_GATE_SEARCH_STEP in *; lia).
      destruct (Z.ltb_spec address (minimum + SYSCALL_GATE_SEARCH_STEP)).
      * eapply alloc_miss; [exact Qa|exact E|done|apply alloc_none].
      * specialize (IH (address - SYSCALL_GATE_SEARCH_STEP) g1).
        destruct (search_below H fuel _ minimum sz g1) as [r g'].
        eapply alloc_miss; [exact Qa|exact E|done|]. apply IH. intros n Hn Hn0.
        replace (address - SYSCALL_GATE_SEARCH_STEP - n * SYSCALL_GATE_SEARCH_STEP)
          with (address - (n + 1) * SYSCALL_GATE_SEARCH_STEP) in * by lia. apply HQ; lia.
Qed.

Lemma search_above_alloc Q sz fuel address maximum g :
  0 <= address -> maximum + SYSCALL_GATE_SEARCH_STEP < 2 ^ 64 ->
  (forall n, address + n * SYSCALL_GATE_SEARCH_STEP <= maximum -> 0 <= n ->
     Q (address + n * SYSCALL_GATE_SEARCH_STEP)) ->
  let '(r, g') := search_above H fuel address maximum sz g in alloc Q sz g (found r) g'.
Proof.
  intros Ha0 Hm1. revert address Ha0 g. induction fuel as [|fuel IH]; intros address Ha0 g HQ; cbn [search_above].
  - apply alloc_none.
  - destruct (Z.leb_spec address maximum); [|apply alloc_none].
    assert (Qa : Q address) by (specialize (HQ 0); rewrite Z.mul_0_l, Z.add_0_r in HQ; apply HQ; lia).
    destruct (try_pool_at H address sz g) as [[[i|]|] g1] eqn:E.
    + by eapply alloc_hit.
    + eapply alloc_miss; [exact Qa|exact E|done|apply alloc_none].
    + destruct (_ <? _); [eapply alloc_miss; [exact Qa|exact E|done|apply alloc_none]|].
      rewrite u64_small by (unfold SYSCALL_GATE_SEARCH_STEP in *; lia).
      specialize (IH (address + SYSCALL_GATE_SEARCH_STEP) ltac:(unfold SYSCALL_GATE_SEARCH_STEP in *; lia) g1).
      destruct (search_above H fuel _ maximum sz g1) as [r g'].
      eapply alloc_miss; [exact Qa|exact E|done|]. apply IH. intros n Hn Hn0.
      replace (address + SYSCALL_GATE_SEARCH_STEP + n * SYSCALL_GATE_SEARCH_STEP)
        with (address + (n + 1) * SYSCALL_GATE_SEARCH_STEP) in * by lia. apply HQ; lia.
Qed.

(** Pool addresses that serve [site]. *)
Definition serves (site a : Z) : Prop := island_reachable site a = true /\ (4 | a) /\ 0 < a.

Section near.
Context (k : Z) (Hk : 12 <= k <= 16) (Hpage : hm_page H = 2 ^ k).
Context (site : Z) (Hsite : (4 | site) /\ 0 <= site /\ site + 2 ^ 28 < 2 ^ 63).

Lemma page_pow : 2 ^ 12 <= 2 ^ k <= 2 ^ 16 /\ (4 | 2 ^ k) /\ (2 ^ k | SYSCALL_GATE_SEARCH_STEP).
Proof.
  split; [split; apply Z.pow_le_mono_r; lia|]. split.
  - exists (2 ^ (k - 2)). change 4 with (2 ^ 2). rewrite <- Z.pow_add_r by lia. f_equal; lia.
  - exists (2 ^ (20 - k)). unfold SYSCALL_GATE_SEARCH_STEP. change (1024 * 1024) with (2 ^ 20).
    rewrite <- Z.pow_add_r by lia. f_equal; lia.
Qed.

Lemma below_alloc sz g :
  2 ^ 18 <= sz < 2 ^ 19 ->
  let '(r, g') := allocate_gate_pool_below H site sz (2 ^ k) g in alloc (serves site) sz g r g'.
Proof.
  intros Hsz. destruct page_pow as (Hp&H4&Hst). destruct Hsite as (Hs4&Hs0&Hs1).
  unfold allocate_gate_pool_below.
  assert (Hmin : 2 ^ k <= below_minimum site (2 ^ k) /\ site - 2 ^ 27 <= below_minimum site (2 ^ k) <= Z.max (2 ^ k) site /\
                 (2 ^ k | below_minimum site (2 ^ k))).
  { unfold below_minimum, B_RANGE. destruct (Z.ltb_spec (2 ^ 27) site).
    - pose proof (align_up_bounds (site - 2 ^ 27) k ltac:(lia) ltac:(lia) ltac:(lia)) as [Hb Hd].
      split; [|split; [lia|done]]. destruct Hd as [q Hq]. rewrite Hq in *. 
      assert (0 < q) by (apply Z.mul_pos_cancel_r with (2 ^ k); lia). nia.
    - split; [lia|]. split; [lia|]. by exists 1; lia. }
  assert (Hst' : below_start site sz (2 ^ k) <= Z.max (2 ^ k) site /\ (2 ^ k | below_start site sz (2 ^ k))).
  { unfold below_start. destruct (Z.ltb_spec sz site);
      [pose proof (align_down_bounds (site - sz) k ltac:(lia)) as [? ?]
      |pose proof (align_down_bounds (2 ^ k) k ltac:(lia)) as [? ?]]; split; try done; lia. }
  set (mn := below_minimum site (2 ^ k)) in *. set (st := below_start site sz (2 ^ k)) in *.
  assert (HQ : forall a, mn <= a <= Z.max (2 ^ k) site -> (2 ^ k | a) -> serves site a).
  { intros a Ha Hd. assert (4 | a) by (by apply (Z.divide_trans _ (2 ^ k))).
    split; [|split; [done|lia]]. apply in_range_of; [done|done|lia]. }
  pose proof (search_below_alloc (serves site) sz search_fuel st mn g ltac:(lia)
    ltac:(unfold SYSCALL_GATE_SEARCH_STEP; lia)) as Hsb.
  destruct (search_below H search_fuel st mn sz g) as [[r|] g1].
  - apply Hsb. intros n Hn Hn0. apply HQ; [unfold SYSCALL_GATE_SEARCH_STEP in *; lia|].
    apply Z.divide_sub_r; [apply Hst'|]. by apply Z.divide_mul_r.
  - pose proof (alloc_try (serves site) sz mn g1 ltac:(apply HQ; [lia|apply Hmin])) as Ht.
    destruct (last_try H mn sz g1) as [r g2]. cbn in Ht. eapply alloc_app; [|exact Ht].
    apply Hsb. intros n Hn Hn0. apply HQ; [unfold SYSCALL_GATE_SEARCH_STEP in *; lia|].
    apply Z.divide_sub_r; [apply Hst'|]. by apply Z.divide_mul_r.
Qed.

Lemma above_alloc sz g :
  2 ^ 18 <= sz < 2 ^ 19 ->
  let '(r, g') := allocate_gate_pool_above H site sz (2 ^ k) g in alloc (serves site) sz g r g'.
Proof.
  intros Hsz. destruct page_pow as (Hp&H4&Hst). destruct Hsite as (Hs4&Hs0&Hs1).
  unfold allocate_gate_pool_above.
  assert (Hmax : site < above_maximum site sz (2 ^ k) <= site + 2 ^ 27 - sz /\ (2 ^ k | above_maximum site sz (2 ^ k))).
  { unfold above_maximum, B_RANGE. rewrite u64_small by lia.
    pose proof (align_down_bounds (site + 2 ^ 27 - sz) k ltac:(lia)) as [? ?]. split; [lia|done]. }
  assert (Hst' : site < above_start site (2 ^ k) /\ (2 ^ k | above_start site (2 ^ k))).
  { unfold above_start. rewrite (u64_small (site + 2 ^ k)) by lia.
    pose proof (align_up_bounds (site + 2 ^ k) k ltac:(lia) ltac:(lia) ltac:(lia)) as [? ?]. split; [lia|done]. }
  set (mx := above_maximum site sz (2 ^ k)) in *. set (st := above_start site (2 ^ k)) in *.
  assert (HQ : forall a, site < a <= mx -> (2 ^ k | a) -> serves site a).
  { intros a Ha Hd. assert (4 | a) by (by apply (Z.divide_trans _ (2 ^ k))).
    split; [|split; [done|lia]]. apply in_range_of; [done|done|lia]. }
  pose proof (search_above_alloc (serves site) sz search_fuel st mx g ltac:(lia)
    ltac:(unfold SYSCALL_GATE_SEARCH_STEP; lia)) as Hsb.
  assert (HQ' : forall n, st + n * SYSCALL_GATE_SEARCH_STEP <= mx -> 0 <= n ->
    serves site (st + n * SYSCALL_GATE_SEARCH_STEP)).
  { intros n Hn Hn0. apply HQ; [unfold SYSCALL_GATE_SEARCH_STEP in *; lia|].
    apply Z.divide_add_r; [apply Hst'|]. by apply Z.divide_mul_r. }
  destruct (search_above H search_fuel st mx sz g) as [[r|] g1]; [by apply Hsb|].
  pose proof (alloc_try (serves site) sz mx g1 ltac:(apply HQ; [lia|apply Hmax])) as Ht.
  destruct (last_try H mx sz g1) as [r g2]. cbn in Ht. eapply alloc_app; [|exact Ht]. by apply Hsb.
Qed.

Definition pool_bytes : Z := align_up SYSCALL_GATE_POOL_SIZE (2 ^ k).

Lemma pool_bytes_range : 2 ^ 18 <= pool_bytes < 2 ^ 19.
Proof.
  destruct page_pow as (Hp&_). unfold pool_bytes.
  pose proof (align_up_bounds SYSCALL_GATE_POOL_SIZE k ltac:(lia) ltac:(done)
    ltac:(unfold SYSCALL_GATE_POOL_SIZE; lia)) as [Hb _].
  unfold SYSCALL_GATE_POOL_SIZE in *. lia.
Qed.

Lemma near_alloc g :
  let '(r, g') := allocate_gate_pool_near H site g in alloc (serves site) pool_bytes g r g'.
Proof.
  destruct page_pow as (Hp&_). pose proof pool_bytes_range as Hb. unfold allocate_gate_pool_near, page_size.
  rewrite Hpage. destruct (Z.leb_spec (2 ^ k) 0); [lia|]. fold pool_bytes.
  pose proof (below_alloc pool_bytes g Hb) as H1. destruct (allocate_gate_pool_below H site pool_bytes (2 ^ k) g) as [[i|] g1];
    [done|].
  pose proof (above_alloc pool_bytes g1 Hb) as H2. destruct (allocate_gate_pool_above H site pool_bytes (2 ^ k) g1) as [r g2].
  by eapply alloc_app.
Qed.
End near.
End reach.

(** ** The host and the pools *)

(** What the host promises about the addresses in use. *)
Class HostMemoryOk (H : host_memory) (mapped : hm_state H -> Z -> Prop) : Prop := {
  map_fresh a sz s r s' : hm_map H a sz s = (r, s') -> r <> 0 -> forall x, r <= x < r + sz -> ~ mapped s x /\ mapped s' x;
  map_keeps a sz s r s' x : hm_map H a sz s = (r, s') -> mapped s x -> mapped s' x;
  unmap_keeps a sz s x : mapped s x -> ~ a <= x < a + sz -> mapped (hm_unmap H a sz s) x;
}.

Section patch.
Context (H : host_memory) (mapped : hm_state H -> Z -> Prop) `{!HostMemoryOk H mapped}.
Context (lo hi : Z) (Htext : lo < hi).

(** The text [lo, hi) and the pools are mapped and pairwise disjoint. *)
Record gate_inv (g : gate H) : Prop := {
  gv_text : forall x, lo <= x < hi -> mapped (g_host H g) x;
  gv_pool : forall i p, g_pools H g !! i = Some p ->
    (0 < base p <= cur p /\ cur p <= pool_end p /\ base p < pool_end p) /\ (4 | cur p) /\
    (forall x, base p <= x < pool_end p -> mapped (g_host H g) x) /\ (pool_end p <= lo \/ hi <= base p);
  gv_disj : forall i j p q, i <> j -> g_pools H g !! i = Some p -> g_pools H g !! j = Some q ->
    pool_end p <= base q \/ pool_end q <= base p;
}.

Lemma try_keeps_mapped a sz g r g' x :
  try_pool_at H a sz g = (r, g') -> mapped (g_host H g) x -> mapped (g_host H g') x.
Proof.
  unfold try_pool_at, map_gate_pool_at. destruct (hm_map H a sz (g_host H g)) as [res h] eqn:E.
  intros Ht Hm. pose proof (map_keeps _ _ _ _ _ _ E Hm) as Hm'.
  destruct (Z.eqb_spec res 0); [rewrite Z.eqb_refl in Ht; injection Ht as <- <-; done|].
  destruct (Z.eqb_spec res a) as [->|].
  - destruct (a =? 0); [injection Ht as <- <-; done|]. destruct (register_gate_pool _ _ _).
    injection Ht as <- <-. done.
  - rewrite Z.eqb_refl in Ht. injection Ht as <- <-. cbn. apply unmap_keeps; [done|].
    intros Hin. by destruct (map_fresh _ _ _ _ _ E ltac:(done) x Hin).
Qed.

Lemma disjoint_intervals a b c d :
  a < b -> c < d -> (forall x, a <= x < b -> ~ c <= x < d) -> b <= c \/ d <= a.
Proof.
  intros H1 H2 Hx. destruct (Z.le_gt_cases b c); [by left|]. destruct (Z.le_gt_cases d a); [by right|].
  exfalso. apply (Hx (Z.max a c)); lia.
Qed.

Lemma try_inv a sz g r g' :
  gate_inv g -> (4 | a) -> 0 < a -> try_pool_at H a sz g = (r, g') -> gate_inv g'.
Proof.
  intros [Gt Gp Gd] H4 Ha Ht. pose proof (fun x => try_keeps_mapped a sz g r g' x Ht) as Hk.
  apply try_pool_spec in Ht as [_ Hr].
  assert (Hsame : g_pools H g' = g_pools H g -> gate_inv g').
  { intros E. split.
    - intros x Hx. by apply Hk, Gt.
    - intros i p. rewrite E. intros Hp. destruct (Gp i p Hp) as (?&?&Hm&?). repeat split; auto; try lia.
    - intros i j p q. rewrite E. by apply Gd. }
  destruct r as [[i|]|]; [|by apply Hsame|by apply Hsame].
  destruct Hr as (_&_&Hsz&Hf&Hh&Ep). clear Hsame.
  destruct (hm_map H a sz (g_host H g)) as [res h] eqn:E. cbn in Hf, Hh. subst res.
  pose proof (map_fresh _ _ _ _ _ E ltac:(lia)) as Hfr.
  assert (Hle : 4 * (sz / 4) <= sz /\ 384 <= 4 * (sz / 4)).
  { split; [apply Z.mul_div_le; lia|]. pose proof (Z.div_le_mono 384 sz 4 ltac:(lia) Hsz). change (384 / 4) with 96 in *. lia. }
  assert (Hnew : forall c d, c < d -> (forall x, c <= x < d -> mapped (g_host H g) x) ->
    a + 4 * (sz / 4) <= c \/ d <= a).
  { intros c d Hcd Hm. apply disjoint_intervals; [lia|done|]. intros x Hx Hx'. destruct (Hfr x); [lia|]. auto. }
  split.
  - intros x Hx. by apply Hk, Gt.
  - intros j p. rewrite Ep. intros [Hp|[_ Hp]]%lookup_app_Some.
    + destruct (Gp j p Hp) as (?&?&Hm&?). repeat split; auto; try lia.
    + apply list_lookup_singleton_Some in Hp as [_ <-]. cbn. split; [lia|]. split; [done|]. split.
      * intros x Hx. rewrite Hh. apply Hfr. lia.
      * by apply Hnew.
  - intros j j' p q Hne. rewrite Ep. intros [Hp|[Hj Hp]]%lookup_app_Some [Hq|[Hj' Hq]]%lookup_app_Some.
    + by apply (Gd j j').
    + apply list_lookup_singleton_Some in Hq as [_ <-]. cbn. destruct (Gp j p Hp) as (?&?&Hm&?).
      destruct (Hnew (base p) (pool_end p)); [lia|done|by right|by left].
    + apply list_lookup_singleton_Some in Hp as [_ <-]. cbn. destruct (Gp j' q Hq) as (?&?&Hm&?).
      apply Hnew; [lia|done].
    + apply list_lookup_singleton_Some in Hp as [E1 _]. apply list_lookup_singleton_Some in Hq as [E2 _]. lia.
Qed.

(** Allocation: the invariant and the memory stay, pools are only appended,
    and the pool it returns can take an island at a serving address. *)
Lemma alloc_inv Q sz g r g' :
  (forall a, Q a -> (4 | a) /\ 0 < a) -> 384 <= sz -> alloc H Q sz g r g' -> gate_inv g ->
  gate_inv g' /\ g_mem H g' = g_mem H g /\ (exists ext, g_pools H g' = g_pools H g ++ ext /\ Forall (fun p => cur p = base p) ext) /\
  (forall i, r = Some i -> (length (g_pools H g) <= i)%nat /\
     exists p, g_pools H g' !! i = Some p /\ cur p = base p /\ Q (cur p) /\ cur p + 384 <= pool_end p).
Proof.
  intros HQ Hsz Ha. induction Ha as [g|a g q g1 r g2 Qa Ht Hq Ha IH|a g i g1 Qa Ht]; intros Hg.
  - split; [done|]. split; [done|]. split; [by exists []; rewrite app_nil_r|done].
  - destruct (HQ a Qa) as [H4 H0]. pose proof (try_inv _ _ _ _ _ Hg H4 H0 Ht) as Hg1.
    destruct (IH Hg1) as (Hg2&Em&(ext&Ee&Hext)&Hr). apply try_pool_spec in Ht as [Em1 Hp].
    assert (Ep : g_pools H g1 = g_pools H g) by (destruct q as [[i|]|]; [by destruct (Hq i)|done|done]).
    rewrite Ep in *. split; [done|]. split; [by rewrite Em|]. split; [by exists ext|done].
  - destruct (HQ a Qa) as [H4 H0]. pose proof (try_inv _ _ _ _ _ Hg H4 H0 Ht) as Hg1.
    apply try_pool_spec in Ht as [Em (Hi&_&_&_&_&Ep)]. split; [done|]. split; [done|].
    split; [eexists; split; [exact Ep|by constructor]|]. intros i' [= <-]. split; [lia|].
    eexists. split; [rewrite Ep, lookup_app_r, Hi, Nat.sub_diag by lia; reflexivity|]. cbn. split; [done|].
    split; [done|]. pose proof (Z.div_le_mono 384 sz 4 ltac:(lia) Hsz). change (384 / 4) with 96 in *. lia.
Qed.

(** ** One instruction *)

(** Bytes of the pools that hold islands already. *)
Definition used (g : gate H) (x : Z) : Prop :=
  exists i p, g_pools H g !! i = Some p /\ base p <= x < cur p.

Context (k : Z) (Hk : 12 <= k <= 16) (Hpage : hm_page H = 2 ^ k) (dispatcher : Z).

(** [site] now branches to an island of its own. *)
Record patched_to (g g' : gate H) (site island : Z) : Prop := {
  pt_inv : gate_inv g';
  pt_mem : g_mem H g' = upd (write_words (g_mem H g) island (emit_island island site dispatcher)) site
                            (enc_b (i32 (ptrdiff32 island site)));
  pt_reach : island_reachable site island = true;
  pt_fresh : forall x, island <= x < island + 384 -> ~ used g x /\ used g' x /\ ~ lo <= x < hi;
  pt_used : forall x, used g x -> used g' x;
}.

Lemma find_pool_spec site i pools j :
  find_pool_from site i pools = Some j ->
  exists p, (i <= j)%nat /\ pools !! (j - i)%nat = Some p /\ pool_serves site p = true.
Proof.
  revert i. induction pools as [|p pools IH]; intros i; cbn; [done|].
  destruct (pool_serves site p) eqn:E.
  - intros [= <-]. exists p. rewrite Nat.sub_diag. done.
  - intros Hf. destruct (IH _ Hf) as (q&Hle&Hq&Hs). exists q. split; [lia|]. split; [|done].
    replace (j - i)%nat with (S (j - S i)) by lia. done.
Qed.

(** Taking [SYSCALL_GATE_ISLAND_WORDS] words from pool [i]. *)
Lemma take_island g i p m :
  gate_inv g -> g_pools H g !! i = Some p -> cur p + 384 <= pool_end p ->
  let p' := mk_pool (cur p + 384) (pool_end p) (base p) (size p) in
  let g' := mk_gate H (<[i := p']> (g_pools H g)) (g_host H g) m in
  gate_inv g' /\ (forall x, used g x -> used g' x) /\
  (forall x, cur p <= x < cur p + 384 -> ~ used g x /\ used g' x /\ ~ lo <= x < hi).
Proof.
  intros [Gt Gp Gd] Hp Hroom. cbv zeta. destruct (Gp i p Hp) as ((Hb&Hc&Hbe)&H4&Hm&Ht).
  assert (Hl : (i < length (g_pools H g))%nat) by (by eapply lookup_lt_Some).
  split; [split|split].
  - done.
  - intros j q. cbn. destruct (decide (i = j)) as [<-|Hne].
    + rewrite list_lookup_insert_eq by done. intros [= <-]. cbn. split; [lia|].
      split; [by apply Z.divide_add_r; [|exists 96]|]. done.
    + rewrite list_lookup_insert_ne by done. apply Gp.
  - intros j j' q q' Hne. cbn. intros Hq Hq'.
    assert (Hsame : forall n r, <[i := mk_pool (cur p + 384) (pool_end p) (base p) (size p)]> (g_pools H g) !! n = Some r ->
      exists r0, g_pools H g !! n = Some r0 /\ base r0 = base r /\ pool_end r0 = pool_end r).
    { intros n r. destruct (decide (i = n)) as [<-|Hn].
      - rewrite list_lookup_insert_eq by done. intros [= <-]. by exists p.
      - rewrite list_lookup_insert_ne by done. intros Hr. by exists r. }
    destruct (Hsame _ _ Hq) as (q0&Hq0&<-&<-). destruct (Hsame _ _ Hq') as (q1&Hq1&<-&<-). by apply (Gd j j').
  - intros x (j&q&Hq&Hx). destruct (decide (i = j)) as [<-|Hne].
    + rewrite Hp in Hq. injection Hq as <-. exists i. eexists. cbn. rewrite list_lookup_insert_eq by done.
      split; [done|]. cbn. lia.
    + exists j, q. cbn. by rewrite list_lookup_insert_ne.
  - intros x Hx. split; [|split; [|lia]].
    + intros (j&q&Hq&Hx'). destruct (decide (i = j)) as [<-|Hne].
      * rewrite Hp in Hq. injection Hq as <-. lia.
      * destruct (Gp j q Hq) as ((?&?&?)&_). destruct (Gd i j p q Hne Hp Hq); lia.
    + exists i. eexists. cbn. rewrite list_lookup_insert_eq by done. split; [done|]. cbn. lia.
Qed.

Lemma patch_instruction_spec site g g' :
  gate_inv g -> lo <= site < hi -> (4 | site) -> 0 <= site -> site + 2 ^ 28 < 2 ^ 63 ->
  patch_instruction H dispatcher site g = (true, g') -> exists island, patched_to g g' site island.
Proof.
  intros Hg Hs Hs4 Hs0 Hs1. unfold patch_instruction.
  assert (Hget : exists g1 r, (match find_gate_pool site (g_pools H g) with
      | Some i => (Some i, g) | None => allocate_gate_pool_near H site g end) = (r, g1) /\
    gate_inv g1 /\ g_mem H g1 = g_mem H g /\ (forall x, used g x <-> used g1 x) /\
    (forall i, r = Some i -> exists p, g_pools H g1 !! i = Some p /\ cur p + 384 <= pool_end p /\
       island_reachable site (cur p) = true)).
  { destruct (find_gate_pool site (g_pools H g)) as [i|] eqn:Ef.
    - exists g, (Some i). split; [done|]. split; [done|]. split; [done|]. split; [done|]. intros i' [= <-].
      apply find_pool_spec in Ef as (p&_&Hp&Hsv). rewrite Nat.sub_0_r in Hp. exists p. split; [done|].
      unfold pool_serves in Hsv. apply andb_true_iff in Hsv as [Hr Hre]. split; [|done].
      change (4 * SYSCALL_GATE_ISLAND_WORDS) with 384 in Hr.
      destruct (Z.ltb_spec (pool_end p) (cur p + 384)); [discriminate|lia].
    - pose proof (near_alloc H k Hk Hpage site ltac:(auto) g) as Ha.
      destruct (allocate_gate_pool_near H site g) as [r g1]. exists g1, r. split; [done|].
      pose proof (pool_bytes_range k Hk) as Hb.
      destruct (alloc_inv (serves site) (pool_bytes k) g r g1 (fun a Q => proj2 Q) ltac:(lia) Ha Hg)
        as (Hg1&Em&(ext&Ee&Hext)&Hr).
      split; [done|]. split; [done|]. split.
      + intros x. split; intros (j&q&Hq&Hx).
        * exists j, q. split; [|done]. rewrite Ee. by apply lookup_app_l_Some.
        * rewrite Ee in Hq. apply lookup_app_Some in Hq as [Hq|[_ Hq]]; [by exists j, q|].
          pose proof (Forall_lookup_1 _ _ _ _ Hext Hq) as Hc. cbn in Hc. lia.
      + intros i Hi. destruct (Hr i Hi) as (_&p&Hp&_&[Hre _]&Hroom). by exists p. }
  destruct Hget as (g1&r&->&Hg1&Em&Hu&Hr). destruct r as [i|]; [|discriminate].
  destruct (Hr i eq_refl) as (p&Hp&Hroom&Hre). rewrite Hp. intros [= <-]. exists (cur p).
  change (4 * SYSCALL_GATE_ISLAND_WORDS) with 384.
  destruct (take_island g1 i p (upd (write_words (g_mem H g1) (cur p) (emit_island (cur p) site dispatcher)) site
    (enc_b (i32 (ptrdiff32 (cur p) site)))) Hg1 Hp Hroom) as (Hi&Hmono&Hfresh).
  split; [done|cbn; by rewrite Em|done| |].
  - intros x Hx. destruct (Hfresh x Hx) as (H1&H2&H3). rewrite Hu. done.
  - intros x Hx. by apply Hmono, Hu.
Qed.

(** ** A section *)

(** The system call instruction at [a] goes through an island. *)
Definition redirected (m : word_mem) (a : Z) : Prop :=
  exists island, words_at (fetch m) island (emit_island island a dispatcher) /\
    m a = enc_b (i32 (ptrdiff32 island a)) /\ island_reachable a island = true.

Lemma patched_to_redirected g g' m site island :
  patched_to g g' site island -> lo <= site < hi ->
  (forall x, used g' x \/ x = site -> m x = g_mem H g' x) -> redirected m site.
Proof.
  intros [_ Em Hr Hf _] Hs Hm. exists island. split; [|split; [|done]].
  - assert (Hl : 4 * Z.of_nat (length (emit_island island site dispatcher)) = 384)
      by (by rewrite emit_island_length).
    eapply words_at_ext; [|apply (words_at_write (g_mem H g) island)].
    intros x Hx. rewrite Hl in Hx. destruct (Hf x Hx) as (_&Hu&Ht). rewrite Hm by (by left).
    rewrite Em, upd_ne; [done|]. intros ->. done.
  - rewrite Hm by (by right). by rewrite Em, upd_eq.
Qed.

Lemma patch_words_spec count code n g r g' :
  gate_inv g -> lo <= code -> code + 4 * Z.of_nat count <= hi -> (4 | code) -> 0 <= code ->
  hi + 2 ^ 28 < 2 ^ 63 -> patch_words H dispatcher code count n g = (Some r, g') ->
  gate_inv g' /\ (forall x, used g x -> used g' x) /\
  (forall x, used g x \/ (lo <= x < hi /\ (x < code \/ code + 4 * Z.of_nat count <= x)) -> g_mem H g' x = g_mem H g x) /\
  (forall x, ~ used g' x -> ~ lo <= x < hi -> g_mem H g' x = g_mem H g x) /\
  (forall i, (i < count)%nat -> let a := code + 4 * Z.of_nat i in
     if g_mem H g a =? DARWIN_SVC_0X80 then redirected (g_mem H g') a else g_mem H g' a = g_mem H g a).
Proof.
  revert code n g. induction count as [|count IH]; intros code n g Hg Hlo Hhi H4 H0 Hb; cbn [patch_words].
  - intros [= _ <-]. split; [done|]. split; [done|]. split; [done|]. split; [done|]. lia.
  - destruct (Z.eqb_spec (g_mem H g code) DARWIN_SVC_0X80) as [E|E]; cbn [negb]; intros Hp.
    + destruct (patch_instruction H dispatcher code g) as [[] g1] eqn:Ei; [|discriminate].
      destruct (patch_instruction_spec code g g1 Hg ltac:(lia) H4 H0 ltac:(lia) Ei) as (island&Pt).
      destruct (IH (code + 4) (n + 1) g1 (pt_inv _ _ _ _ Pt) ltac:(lia) ltac:(lia)
        ltac:(apply Z.divide_add_r; [done|by exists 1]) ltac:(lia) Hb Hp) as (Hg'&Hu&Hk1&Hk2&Hw).
      assert (Hstep : forall x, x <> code -> ~ island <= x < island + 384 -> g_mem H g1 x = g_mem H g x).
      { intros x Hne Hnin. rewrite (pt_mem _ _ _ _ Pt), upd_ne by done. apply write_words_out.
        rewrite emit_island_length. lia. }
      assert (Hti : forall x, lo <= x < hi -> ~ island <= x < island + 384).
      { intros x Hx Hx'. by destruct (pt_fresh _ _ _ _ Pt x Hx') as (_&_&?). }
      split; [done|]. split; [intros x Hx; by apply Hu, (pt_used _ _ _ _ Pt)|]. split; [|split].
      * intros x Hx. rewrite Hk1.
        -- apply Hstep; [destruct Hx as [Hx|Hx]; [|lia]|destruct Hx as [Hx|Hx]; [|apply Hti; lia]].
           ++ intros ->. destruct Hx as (j&q&Hq&Hx). destruct (gv_pool _ Hg j q Hq) as (?&?&?&Ht). lia.
           ++ intros Hin. by destruct (pt_fresh _ _ _ _ Pt x Hin) as (?&_).
        -- destruct Hx as [Hx|Hx]; [left; by apply (pt_used _ _ _ _ Pt)|right; lia].
      * intros x Hnu Hnt. rewrite Hk2 by done. apply Hstep; [lia|]. intros Hin. apply Hnu, Hu.
        by apply (pt_fresh _ _ _ _ Pt).
      * intros [|i] Hi.
        -- rewrite Z.mul_0_r, Z.add_0_r. rewrite E, Z.eqb_refl.
           eapply patched_to_redirected; [exact Pt|lia|]. intros x [Hx| ->]; apply Hk1; [by left|right; lia].
        -- replace (code + 4 * Z.of_nat (S i)) with (code + 4 + 4 * Z.of_nat i) by lia.
           specialize (Hw i ltac:(lia)). cbv zeta in Hw. rewrite Hstep in Hw by (first [lia | apply Hti; lia]). done.
    + destruct (IH (code + 4) n g Hg ltac:(lia) ltac:(lia)
        ltac:(apply Z.divide_add_r; [done|by exists 1]) ltac:(lia) Hb Hp) as (Hg'&Hu&Hk1&Hk2&Hw).
      split; [done|]. split; [done|]. split; [intros x Hx; apply Hk1; destruct Hx; [by left|right; lia]|].
      split; [done|]. intros [|i] Hi.
      * rewrite Z.mul_0_r, Z.add_0_r. destruct (Z.eqb_spec (g_mem H g code) DARWIN_SVC_0X80); [done|].
        apply Hk1. right. lia.
      * replace (code + 4 * Z.of_nat (S i)) with (code + 4 + 4 * Z.of_nat i) by lia. apply Hw. lia.
Qed.
End patch.

(** C33. Patching a section.  When [patch_section] succeeds, every [svc #0x80]
    of the section has become a branch to an island of its own, complete and
    within branch range; every other word of the section, the rest of the
    text, the islands written before and all memory outside the pools are
    unchanged; and the pools stay disjoint from each other and from the text.
    The hypotheses are a page size between 4 KB and 64 KB, text in the lower
    half of the address space and a host that never maps over memory in use. *)
Theorem patch_section_redirects H mapped `{!HostMemoryOk H mapped} lo hi k dispatcher code sz g n g' :
  lo < hi -> hi + 2 ^ 28 < 2 ^ 63 -> 12 <= k <= 16 -> hm_page H = 2 ^ k ->
  gate_inv H mapped lo hi g -> lo <= code -> 0 <= code -> 0 <= sz -> code + sz <= hi -> (4 | code) ->
  patch_section H dispatcher code sz g = (Some n, g') ->
  gate_inv H mapped lo hi g' /\
  (forall i, (i < Z.to_nat (sz / 4))%nat -> let a := code + 4 * Z.of_nat i in
     if g_mem H g a =? DARWIN_SVC_0X80 then redirected dispatcher (g_mem H g') a
     else g_mem H g' a = g_mem H g a) /\
  (forall x, used H g x \/ (lo <= x < hi /\ (x < code \/ code + sz <= x)) \/ (~ used H g' x /\ ~ lo <= x < hi) ->
     g_mem H g' x = g_mem H g x).
Proof.
  intros Hlh Hhi Hk Hp Hg H1 H2 H3 H4 H5 Hps. unfold patch_section in Hps.
  pose proof (Z.mul_div_le sz 4 ltac:(lia)). pose proof (Z.div_pos sz 4 ltac:(lia) ltac:(lia)).
  destruct (patch_words_spec H mapped lo hi Hlh k Hk Hp dispatcher (Z.to_nat (sz / 4)) code 0 g n g' Hg
    ltac:(lia) ltac:(lia) H5 ltac:(lia) Hhi Hps) as (Hg'&_&Hk1&Hk2&Hw).
  split; [done|]. split; [done|]. intros x [Hx|[Hx|[Hx Hx']]]; [apply Hk1; by left|apply Hk1; right; lia|by apply Hk2].
Qed.

(** ** The searches end by themselves *)

Section fuel.
Context (H : host_memory).

Lemma search_below_fuel sz minimum m fuel : forall address g,
  0 <= minimum -> minimum + SYSCALL_GATE_SEARCH_STEP < 2 ^ 64 ->
  address - minimum < Z.of_nat fuel * SYSCALL_GATE_SEARCH_STEP -> 
  search_below H (fuel + m) address minimum sz g = search_below H fuel address minimum sz g.
Proof.
  induction fuel as [|fuel IH]; intros address g H0 H1 Hlt.
  - destruct m; [done|]. cbn. destruct (Z.leb_spec minimum address); [lia|done].
  - cbn [Nat.add search_below]. destruct (minimum <=? address); [|done].
    destruct (try_pool_at H address sz g) as [[r|] g1]; [done|].
    rewrite u64_small by (unfold SYSCALL_GATE_SEARCH_STEP in *; lia). destruct (_ <? _); [done|]. apply IH; lia.
Qed.

Lemma search_above_fuel sz maximum m fuel : forall address g,
  0 <= address -> maximum + SYSCALL_GATE_SEARCH_STEP < 2 ^ 64 ->
  maximum - address < Z.of_nat fuel * SYSCALL_GATE_SEARCH_STEP ->
  search_above H (fuel + m) address maximum sz g = search_above H fuel address maximum sz g.
Proof.
  induction fuel as [|fuel IH]; intros address g H0 H1 Hlt.
  - destruct m; [done|]. cbn. destruct (Z.leb_spec address maximum); [lia|done].
  - cbn [Nat.add search_above]. destruct (Z.leb_spec address maximum); [|done].
    destruct (try_pool_at H address sz g) as [[r|] g1]; [done|]. destruct (_ <? _); [done|].
    unfold SYSCALL_GATE_SEARCH_STEP in *. rewrite u64_small by lia. apply IH; lia.
Qed.
End fuel.

(** C40. The pool searches terminate on their own: more than the modelled 130
    steps never change their result, for every site and page size. *)
Theorem gate_search_terminates (H : host_memory) k site sz m g :
  12 <= k <= 16 -> 0 <= site -> site + 2 ^ 28 < 2 ^ 63 -> 2 ^ 18 <= sz < 2 ^ 19 ->
  search_below H (search_fuel + m) (below_start site sz (2 ^ k)) (below_minimum site (2 ^ k)) sz g =
    search_below H search_fuel (below_start site sz (2 ^ k)) (below_minimum site (2 ^ k)) sz g /\
  search_above H (search_fuel + m) (above_start site (2 ^ k)) (above_maximum site sz (2 ^ k)) sz g =
    search_above H search_fuel (above_start site (2 ^ k)) (above_maximum site sz (2 ^ k)) sz g.
Proof.
  intros Hk Hs0 Hs1 Hsz. assert (Hp : 2 ^ 12 <= 2 ^ k <= 2 ^ 16) by (split; apply Z.pow_le_mono_r; lia).
  assert (Hmin : 0 <= below_minimum site (2 ^ k) /\ site - 2 ^ 27 <= below_minimum site (2 ^ k) <= site + 2 ^ 16).
  { unfold below_minimum, B_RANGE. destruct (Z.ltb_spec (2 ^ 27) site); [|lia].
    pose proof (align_up_bounds (site - 2 ^ 27) k ltac:(lia) ltac:(lia) ltac:(lia)). lia. }
  assert (Hst : below_start site sz (2 ^ k) <= Z.max site (2 ^ 16)).
  { unfold below_start. destruct (Z.ltb_spec sz site);
      [pose proof (align_down_bounds (site - sz) k ltac:(lia))|pose proof (align_down_bounds (2 ^ k) k ltac:(lia))]; lia. }
  assert (Hmx : above_maximum site sz (2 ^ k) <= site + 2 ^ 27).
  { unfold above_maximum, B_RANGE. rewrite u64_small by lia.
    pose proof (align_down_bounds (site + 2 ^ 27 - sz) k ltac:(lia)). lia. }
  assert (Has : site <= above_start site (2 ^ k)).
  { unfold above_start. rewrite (u64_small (site + 2 ^ k)) by lia.
    pose proof (align_up_bounds (site + 2 ^ k) k ltac:(lia) ltac:(lia) ltac:(lia)). lia. }
  unfold SYSCALL_GATE_SEARCH_STEP in *.
  split; [apply search_below_fuel|apply search_above_fuel]; unfold search_fuel, SYSCALL_GATE_SEARCH_STEP; lia.
Qed.

(** ** Concrete instances *)

(** A host that grants nothing. *)
Definition full_host : host_memory :=
  {| hm_state := unit; hm_map _ _ s := (0, s); hm_unmap _ _ s := s; hm_protect _ _ _ s := s; hm_page := 4096 |}.

#[export] Instance full_host_ok : HostMemoryOk full_host (fun _ _ => True).
Proof. split; [intros a sz s r s' [= <- <-]; done|done|done]. Qed.

Definition sample_gate : gate full_host :=
  mk_gate full_host [mk_pool 0x2000 0x2400 0x2000 0x400] tt (upd (fun _ => 0xD503201F) 0x1004 DARWIN_SVC_0X80).

Lemma sample_gate_inv : gate_inv full_host (fun _ _ => True) 0x1000 0x1010 sample_gate.
Proof.
  split; [done| |].
  - intros [|i] p; [|done]. intros [= <-]. cbn. split; [lia|]. split; [by exists 0x800|]. split; [done|]. right. lia.
  - intros [|i] [|j] p q Hne; try done; intros Hp Hq; done || (destruct i; done) || (destruct j; done).
Qed.

Lemma patch_section_redirects_witness :
  let r := patch_section full_host 0x5000 0x1000 16 sample_gate in
  fst r = Some 1 /\ redirected 0x5000 (g_mem _ (snd r)) 0x1004 /\ g_mem _ (snd r) 0x1008 = 0xD503201F.
Proof.
  cbv zeta. destruct (patch_section full_host 0x5000 0x1000 16 sample_gate) as [r g'] eqn:E.
  assert (Hr : r = Some 1) by (change (fst (r, g') = Some 1); rewrite <- E; vm_compute; reflexivity). subst r.
  destruct (patch_section_redirects full_host (fun _ _ => True) 0x1000 0x1010 12 0x5000 0x1000 16 sample_gate 1 g')
    as (_&Hw&_); [lia|lia|lia|reflexivity|exact sample_gate_inv|lia|lia|lia|lia|by exists 0x400|exact E|].
  split; [reflexivity|]. split.
  - exact (Hw 1%nat ltac:(vm_compute; lia)).
  - exact (Hw 2%nat ltac:(vm_compute; lia)).
Defined.

Lemma gate_search_terminates_witness :
  search_below full_host (search_fuel + 7) (below_start 0x10000000 0x40000 (2 ^ 12))
    (below_minimum 0x10000000 (2 ^ 12)) 0x40000 sample_gate =
  search_below full_host search_fuel (below_start 0x10000000 0x40000 (2 ^ 12))
    (below_minimum 0x10000000 (2 ^ 12)) 0x40000 sample_gate.
Proof.
  refine (proj1 (gate_search_terminates full_host 12 0x10000000 0x40000 7 sample_gate _ _ _ _)); lia.
Defined.
