(* ===== verification/MainPool.v ===== *)
(** * The LSE island pool of the main image: src/machgate.c

    How large the pool is ([estimate_main_lse_pool_size]) and where it is put
    ([allocate_main_lse_pool]): below the text with MAP_FIXED_NOREPLACE, or in
    the adjacent pool of the loader. *)

From S2P Require Import Prelude Host Arm64Enc IsaEmul IsaPatch Macho GatePatch.
Import GatePools.

Module MainPool.

Definition MAIN_LSE_POOL_MIN_SIZE : Z := 2 * 1024 * 1024.
Definition MAIN_LSE_POOL_SLACK_SIZE : Z := 64 * 1024.
Definition ARM64_DIRECT_BRANCH_RANGE : Z := 128 * 1024 * 1024.

Definition align_page_size (sz : Z) : Z :=
  let page_mask := PAGE_SIZE - 1 in u64 (sz + page_mask) .& Z.lnot page_mask.

Fixpoint estimate_sections (m : word_mem) (sl : Z) (l : list section_64) (estimated : Z) : Z :=
  match l with
  | [] => estimated
  | s :: l =>
      if negb (has_instructions s) then estimate_sections m sl l estimated
      else estimate_sections m sl l
             (u64 (estimated + isa_emul_estimate_pool_size m (u64 (sect_addr s + sl)) (sect_size s)))
  end.

Fixpoint estimate_commands (m : word_mem) (sl : Z) (l : list load_command) (estimated : Z) : Z :=
  match l with
  | [] => estimated
  | lc :: l =>
      match body lc with
      | LC_SEGMENT_64 seg =>
          if nz (maxprot seg .& Macho.VM_PROT_EXECUTE)
          then estimate_commands m sl l (estimate_sections m sl (sections seg) estimated)
          else estimate_commands m sl l estimated
      | _ => estimate_commands m sl l estimated
      end
  end.

(** [image] is [None] when [lr->mh] is NULL. *)
Definition estimate_main_lse_pool_size (m : word_mem) (image : option mach_header_64) (sl : Z) : Z :=
  match image with
  | None => MAIN_LSE_POOL_MIN_SIZE
  | Some image =>
      let estimated := estimate_commands m sl (visited (sizeofcmds image) 0 (commands image)) 0 in
      let estimated := if 0 <? estimated then u64 (estimated + MAIN_LSE_POOL_SLACK_SIZE) else estimated in
      let estimated := if estimated <? MAIN_LSE_POOL_MIN_SIZE then MAIN_LSE_POOL_MIN_SIZE else estimated in
      align_page_size estimated
  end.

Section host.
Context (H : host_memory).

(** The page-by-page search downwards. *)
Fixpoint search_before_text (fuel : nat) (preferred lowest sz : Z) (s : hm_state H) : option Z * hm_state H :=
  match fuel with
  | O => (None, s)
  | S fuel =>
      if lowest <=? preferred then
        let '(mapped, s) := hm_map H preferred sz s in
        if negb (mapped =? 0) then (Some mapped, s)
        else if preferred <? PAGE_SIZE then (None, s)
        else search_before_text fuel (preferred - PAGE_SIZE) lowest sz s
      else (None, s)
  end.

Definition pool_highest (text_begin aligned_size : Z) : Z :=
  (text_begin - aligned_size) .& Z.lnot (PAGE_SIZE - 1).
Definition pool_lowest (text_end aligned_size : Z) : Z :=
  if ARM64_DIRECT_BRANCH_RANGE + aligned_size <? text_end
  then (text_end - ARM64_DIRECT_BRANCH_RANGE - aligned_size) .& Z.lnot (PAGE_SIZE - 1) else 0.

Definition allocate_main_lse_pool (text_begin text_end pool_size : Z) (lr : load_results) (s : hm_state H)
  : option Z * load_results * hm_state H :=
  let '(near, s) :=
    if negb (text_begin =? 0) && (text_begin <? text_end) then
      let aligned_size := align_page_size pool_size in
      let span := text_end - text_begin in
      if (span + aligned_size <? ARM64_DIRECT_BRANCH_RANGE) && (aligned_size <? text_begin) then
        let highest := pool_highest text_begin aligned_size in
        let lowest := pool_lowest text_end aligned_size in
        search_before_text (Z.to_nat ((highest - lowest) / PAGE_SIZE + 2)) highest lowest aligned_size s
      else (None, s)
    else (None, s) in
  match near with
  | Some p => (Some p, lr, s)
  | None => let '(p, lr) := machgate_pool_alloc lr pool_size in (p, lr, s)
  end.
End host.

(** ** The estimate covers every section *)

Fixpoint section_estimates (m : word_mem) (sl : Z) (l : list section_64) : Z :=
  match l with
  | [] => 0
  | s :: l => (if has_instructions s
               then isa_emul_estimate_pool_size m (u64 (sect_addr s + sl)) (sect_size s) else 0)
              + section_estimates m sl l
  end.

Fixpoint image_estimate (m : word_mem) (sl : Z) (l : list load_command) : Z :=
  match l with
  | [] => 0
  | lc :: l =>
      match body lc with
      | LC_SEGMENT_64 seg =>
          (if nz (maxprot seg .& Macho.VM_PROT_EXECUTE) then section_estimates m sl (sections seg) else 0)
          + image_estimate m sl l
      | _ => image_estimate m sl l
      end
  end.

Lemma isa_estimate_nonneg m a n : 0 <= isa_emul_estimate_pool_size m a n.
Proof. unfold isa_emul_estimate_pool_size. pose proof (estimate_words_nonneg m a (Z.to_nat (n / 4))). lia. Qed.

Lemma section_estimates_nonneg m sl l : 0 <= section_estimates m sl l.
Proof.
  induction l as [|s l IH]; cbn; [done|]. destruct (has_instructions s); [|lia].
  pose proof (isa_estimate_nonneg m (u64 (sect_addr s + sl)) (sect_size s)). lia.
Qed.

Lemma image_estimate_nonneg m sl l : 0 <= image_estimate m sl l.
Proof.
  induction l as [|lc l IH]; cbn; [done|]. destruct (body lc); auto.
  pose proof (section_estimates_nonneg m sl (sections seg)). destruct (nz _); lia.
Qed.

Lemma estimate_sections_sum m sl l e :
  0 <= e -> e + section_estimates m sl l < 2 ^ 64 -> estimate_sections m sl l e = e + section_estimates m sl l.
Proof.
  revert e. induction l as [|s l IH]; intros e He Hb; cbn in *; [lia|].
  pose proof (section_estimates_nonneg m sl l).
  pose proof (isa_estimate_nonneg m (u64 (sect_addr s + sl)) (sect_size s)).
  destruct (has_instructions s); cbn; [|rewrite IH; lia]. rewrite u64_small by lia. rewrite IH; lia.
Qed.

Lemma estimate_commands_sum m sl l e :
  0 <= e -> e + image_estimate m sl l < 2 ^ 64 -> estimate_commands m sl l e = e + image_estimate m sl l.
Proof.
  revert e. induction l as [|lc l IH]; intros e He Hb; cbn in *; [lia|].
  pose proof (image_estimate_nonneg m sl l). destruct (body lc) as [seg| | | | | |]; try (apply IH; lia).
  pose proof (section_estimates_nonneg m sl (sections seg)).
  destruct (nz _); cbn in *; [|rewrite IH; lia]. rewrite estimate_sections_sum by lia. rewrite IH; lia.
Qed.

Lemma align_page_size_bounds sz :
  0 <= sz -> sz + 4096 <= 2 ^ 64 -> sz <= align_page_size sz < sz + 4096 /\ (4096 | align_page_size sz).
Proof.
  intros H0 H1. unfold align_page_size, PAGE_SIZE. rewrite u64_small by lia. change (4096 - 1) with (Z.ones 12).
  rewrite land_lnot_ones by lia. change (2 ^ 12) with 4096. change (Z.ones 12) with 4095.
  pose proof (Z.div_mod (sz + 4095) 4096 ltac:(lia)). pose proof (Z.mod_pos_bound (sz + 4095) 4096 ltac:(lia)).
  split; [lia|]. apply Z.divide_factor_l.
Qed.

(** The pool estimate is enough for the whole image: it is at least the
    sum of what [isa_emul_patch] can use in each executable section, at least
    2 MB, and a whole number of pages. *)
Theorem main_pool_estimate_enough m image sl :
  image_estimate m sl (visited (sizeofcmds image) 0 (commands image)) < 2 ^ 62 ->
  let e := estimate_main_lse_pool_size m (Some image) sl in
  image_estimate m sl (visited (sizeofcmds image) 0 (commands image)) <= e /\
  MAIN_LSE_POOL_MIN_SIZE <= e /\ (4096 | e).
Proof.
  set (sum := image_estimate m sl _). intros Hb. cbv zeta. unfold estimate_main_lse_pool_size.
  pose proof (image_estimate_nonneg m sl (visited (sizeofcmds image) 0 (commands image))) as H0. fold sum in H0.
  rewrite estimate_commands_sum by (fold sum; lia). fold sum. rewrite Z.add_0_l.
  set (e1 := if 0 <? sum then _ else sum).
  assert (H1 : sum <= e1 <= sum + 2 ^ 16).
  { unfold e1, MAIN_LSE_POOL_SLACK_SIZE. destruct (0 <? sum); [|lia]. rewrite u64_small; lia. }
  clearbody e1. set (e2 := if e1 <? MAIN_LSE_POOL_MIN_SIZE then _ else e1).
  assert (H2 : e1 <= e2 <= e1 + 2 ^ 21 /\ MAIN_LSE_POOL_MIN_SIZE <= e2).
  { unfold e2, MAIN_LSE_POOL_MIN_SIZE. destruct (Z.ltb_spec e1 (2 * 1024 * 1024)); lia. }
  clearbody e2. pose proof (align_page_size_bounds e2 ltac:(lia) ltac:(lia)) as [? ?].
  split; [lia|]. split; [lia|done].
Qed.

Lemma main_pool_estimate_enough_witness :
  let image := mk_mh 2 0x200000 100 [mk_lc 72 (LC_SEGMENT_64 (mk_seg "__TEXT" 0x1000 0x1000 0 0x1000 5 5
                 [mk_sect "__text" 0x1000 8 S_ATTR_PURE_INSTRUCTIONS]))] in
  MAIN_LSE_POOL_MIN_SIZE <= estimate_main_lse_pool_size (fun _ => 0xF8210062) (Some image) 0.
Proof. cbv zeta. apply main_pool_estimate_enough. vm_compute. reflexivity. Defined.

(** ** Where the pool goes *)

(** The host maps where asked or not at all (MAP_FIXED_NOREPLACE). *)
Definition exact_mmap (H : host_memory) : Prop :=
  forall a sz s, fst (hm_map H a sz s) = 0 \/ fst (hm_map H a sz s) = a.

Lemma search_before_text_range H fuel preferred lowest sz s p s' :
  exact_mmap H -> search_before_text H fuel preferred lowest sz s = (Some p, s') ->
  lowest <= p <= preferred /\ p <> 0 /\ exists n, p = preferred - n * PAGE_SIZE.
Proof.
  intros Hx. revert preferred s. induction fuel as [|fuel IH]; intros preferred s; cbn; [done|].
  destruct (Z.leb_spec lowest preferred); [|done]. specialize (Hx preferred sz s).
  destruct (hm_map H preferred sz s) as [mapped s1]. cbn in Hx.
  destruct (Z.eqb_spec mapped 0) as [->|Hne]; cbn.
  - destruct (preferred <? PAGE_SIZE); [done|]. intros Hs. apply IH in Hs as (Hr&Hp&n&->).
    unfold PAGE_SIZE in *. split; [lia|]. split; [done|]. exists (n + 1). lia.
  - intros [= <- _]. destruct Hx as [Hx|Hx]; [done|]; subst mapped. split; [lia|]. split; [done|]. exists 0. lia.
Qed.

Lemma page_down_bounds x : x - 4096 < x .& Z.lnot (PAGE_SIZE - 1) <= x /\ (4096 | x .& Z.lnot (PAGE_SIZE - 1)).
Proof.
  unfold PAGE_SIZE. change (4096 - 1) with (Z.ones 12). rewrite land_lnot_ones by lia.
  change (2 ^ 12) with 4096. pose proof (Z.div_mod x 4096 ltac:(lia)). pose proof (Z.mod_pos_bound x 4096 ltac:(lia)).
  split; [lia|]. apply Z.divide_factor_l.
Qed.

(** A pool placed before the text ends at or below the start of the text,
    is page-aligned, and starts less than 128 MB plus its own size plus a page
    below the end of the text. *)
Theorem main_pool_before_text H text_begin text_end pool_size lr s p lr' s' :
  exact_mmap H -> 0 < text_begin < text_end -> 0 <= pool_size < 2 ^ 40 ->
  pool_base lr = 0 ->
  allocate_main_lse_pool H text_begin text_end pool_size lr s = (Some p, lr', s') ->
  let aligned := align_page_size pool_size in
  p + aligned <= text_begin /\ (4096 | p) /\ p <> 0 /\
  text_end - p < ARM64_DIRECT_BRANCH_RANGE + aligned + 4096.
Proof.
  intros Hx Ht Hs Hno. unfold allocate_main_lse_pool.
  destruct (Z.eqb_spec text_begin 0); [lia|]. destruct (Z.ltb_spec text_begin text_end); [|lia]. cbn [negb andb].
  pose proof (align_page_size_bounds pool_size ltac:(lia) ltac:(lia)) as [Hb Hd].
  assert (Hfail : machgate_pool_alloc lr pool_size = (None, lr))
    by (unfold machgate_pool_alloc; by rewrite Hno, Z.eqb_refl).
  set (aligned := align_page_size pool_size) in *. cbv zeta.
  destruct (_ && _) eqn:Ec; [|rewrite Hfail; done].
  apply andb_true_iff in Ec as [E1%Z.ltb_lt E2%Z.ltb_lt].
  destruct (search_before_text H _ _ _ _ s) as [[q|] s1] eqn:E; [|rewrite Hfail; done].
  intros [= <- _ _]. apply search_before_text_range in E as (Hr&Hp&cnt&Hn); [|done].
  pose proof (page_down_bounds (text_begin - aligned)) as [Hh Hhd].
  fold (pool_highest text_begin aligned) in Hh, Hhd.
  assert (Hlow : text_end - ARM64_DIRECT_BRANCH_RANGE - aligned - 4096 < pool_lowest text_end aligned).
  { unfold pool_lowest. destruct (Z.ltb_spec (ARM64_DIRECT_BRANCH_RANGE + aligned) text_end); [|lia].
    pose proof (page_down_bounds (text_end - ARM64_DIRECT_BRANCH_RANGE - aligned)). lia. }
  split; [lia|]. split; [|split; [done|lia]].
  rewrite Hn. apply Z.divide_sub_r; [done|]. by exists cnt.
Qed.

(** A host on which only one address is free. *)
Definition one_hole (a : Z) : host_memory :=
  {| hm_state := unit; hm_map b _ s := (if b =? a then a else 0, s); hm_unmap _ _ s := s;
     hm_protect _ _ _ s := s; hm_page := 4096 |}.

Lemma search_one_hole a lowest sz fuel preferred :
  0 < lowest <= a -> PAGE_SIZE <= lowest -> (exists n, 0 <= n < Z.of_nat fuel /\ a = preferred - n * PAGE_SIZE) ->
  search_before_text (one_hole a) fuel preferred lowest sz tt = (Some a, tt).
Proof.
  intros Ha Hl. revert preferred. induction fuel as [|fuel IH]; intros preferred (n&Hn&E); [lia|].
  cbn. unfold PAGE_SIZE in *. destruct (Z.leb_spec lowest preferred); [|lia].
  destruct (Z.eqb_spec preferred a) as [->|Hne].
  - destruct (Z.eqb_spec a 0); [lia|done].
  - cbn. destruct (Z.ltb_spec preferred 4096); [lia|]. apply IH. exists (n - 1).
    assert (n <> 0) by (intros ->; apply Hne; lia). lia.
Qed.

(** The text and the pool of the example: 4 KB of text at 512 MB, a 2 MB pool. *)
Definition far_hole : Z := 0x20001000 - ARM64_DIRECT_BRANCH_RANGE - 0x200000.

(** The search goes one pool size too far down: on a host whose only free
    address is the last one tried, the pool is accepted there although its
    first island is out of branch range of the text, so the text keeps its
    atomics: the word at the end of the text is not patched. *)
Theorem main_pool_out_of_reach :
  fst (fst (allocate_main_lse_pool (one_hole far_hole) 0x20000000 0x20001000 0x200000
              (mk_lr 0 0 0 0 0 [] 0 0 0 false 0 0 0) tt)) = Some far_hole /\
  arm64_branch_in_range (far_hole - 0x20000FFC) = false /\
  ps_patched (isa_emul_patch (fun _ => 0xF8210062) 0x20000FFC 4 far_hole (far_hole + 0x200000)) = 0.
Proof.
  split; [|split; vm_compute; reflexivity]. unfold allocate_main_lse_pool.
  change (negb (0x20000000 =? 0) && (0x20000000 <? 0x20001000)) with true. cbv zeta iota.
  change (align_page_size 0x200000) with 0x200000.
  change ((0x20001000 - 0x20000000 + 0x200000 <? ARM64_DIRECT_BRANCH_RANGE) && (0x200000 <? 0x20000000)) with true.
  cbv zeta iota. rewrite (search_one_hole far_hole); [done| | |].
  - vm_compute. split; [reflexivity|discriminate].
  - vm_compute. discriminate.
  - exists 32767. split; [|reflexivity]. split; [lia|]. rewrite Z2Nat.id; vm_compute; reflexivity || discriminate.
Qed.

Lemma main_pool_before_text_witness :
  fst (fst (allocate_main_lse_pool (one_hole 0x1FE00000) 0x20000000 0x20001000 0x200000
              (mk_lr 0 0 0 0 0 [] 0 0 0 false 0 0 0) tt)) = Some 0x1FE00000 /\
  0x1FE00000 + align_page_size 0x200000 <= 0x20000000.
Proof.
  destruct (allocate_main_lse_pool (one_hole 0x1FE00000) 0x20000000 0x20001000 0x200000
              (mk_lr 0 0 0 0 0 [] 0 0 0 false 0 0 0) tt) as [[r lr'] s'] eqn:E.
  assert (Hr : r = Some 0x1FE00000).
  { change (fst (fst (r, lr', s')) = Some 0x1FE00000). rewrite <- E. reflexivity. }
  subst r. split; [reflexivity|].
  refine (proj1 (main_pool_before_text (one_hole 0x1FE00000) 0x20000000 0x20001000 0x200000 _ tt 0x1FE00000 lr' s'
    _ _ _ _ E)).
  - intros a sz s. cbn. destruct (Z.eqb_spec a 0x1FE00000); [right; congruence|by left].
  - lia.
  - lia.
  - reflexivity.
Defined.

End MainPool.
