(* ===== verification/Patcher.v ===== *)
(** * The binary patcher: src/patcher.c

    Parse, resolve, encode, write.  The symbol tables of the image
    (src/resolver.c) are behind the [SymbolResolver] interface; memory is byte
    memory; [mprotect] may refuse a page. *)

From S2P Require Import Prelude Arm64 Arm64Enc CStr.
Module Patcher.

(** What the patcher asks the resolver: [resolver_lookup_symbol] (0 when the
    symbol is unknown) and [resolver_symbol_extent]. *)
Class SymbolResolver := {
  resolver_lookup_symbol : cstr -> Z;
  resolver_symbol_extent : cstr -> option (Z * Z);
}.

(** ** Expressions and lines *)

Definition LOC_MAX_PATTERNS : nat := 8.

Inductive loc_expr :=
| LOC_ABS (offset : Z)
| LOC_SYM (sym : cstr) (offset : Z)
| LOC_SYM_FIND (sym : cstr) (patterns : list (Z * Z)) (within : Z)
| LOC_LABEL (sym : cstr) (offset : Z).

Inductive insn_expr :=
| INS_RAW (raw : Z)
| INS_B (target : loc_expr)
| INS_BL (target : loc_expr).

Inductive line_body :=
| LINE_AT (loc : loc_expr) (insn : insn_expr) (expected : option Z)
| LINE_LET (label_name : cstr) (loc : loc_expr)
| LINE_ABS (loc : loc_expr) (insn : insn_expr).

Record patch_line := mk_line { src_line : Z; line : line_body }.

(** ** Helpers *)

Definition strip_comment (s : cstr) : cstr := take_while (fun c => negb (ceq c "#")) s.
Definition skip_ws (p : cstr) : cstr :=
  drop_while (fun c => ceq c " " || ceq c TAB || ceq c NL || ceq c CR) p.

(** [p[0] == '0' && (p[1] == 'x' || p[1] == 'X')] *)
Definition at_0x (p : cstr) : bool :=
  match p with z :: x :: _ => ceq z "0" && is_x x | _ => false end.
Definition skip_0x (p : cstr) : cstr := if at_0x p then drop 2 p else p.

Definition parse_hex_u64 (p : cstr) : option (Z * cstr) :=
  let p := skip_0x (skip_ws p) in
  match p with
  | c :: _ => if is_hex_digit c then Some (strtoull16 p) else None
  | [] => None
  end.

Definition looks_legacy (p : cstr) : bool :=
  let p := drop_while (fun c => ceq c " " || ceq c TAB) p in
  match p with
  | [] => false
  | c :: _ =>
      if at_0x p then true
      else if negb (is_hex_digit c) then false
      else match drop_while is_hex_digit p with
           | [] => true
           | q :: _ => ceq q " " || ceq q TAB || ceq q NL
           end
  end.

(** The loop over the nibbles; [n] is how many are still to come. *)
Fixpoint pattern_nibbles (n : nat) (s : cstr) (m v : Z) : option (Z * Z * cstr) :=
  match n with
  | O => Some (m, v, s)
  | S n =>
      match s with
      | [] => None
      | c :: s =>
          if ceq c "?" then pattern_nibbles n s (u32 (m .<< 4)) (u32 (v .<< 4))
          else match hex_of c with
               | Some d => pattern_nibbles n s (u32 (m .<< 4) .| 0xF) (u32 (v .<< 4) .| d)
               | None => None
               end
      end
  end.

Definition parse_pattern (s : cstr) : option (Z * Z * cstr) :=
  match pattern_nibbles 8 s 0 0 with
  | None => None
  | Some (m, v, rest) =>
      match rest with
      | c :: _ => if negb (is_space c) && negb (ceq c ";") && negb (ceq c "#") then None
                  else Some (m, v, rest)
      | [] => Some (m, v, rest)
      end
  end.

(** ** Locations and instructions *)

(** The [for (;;)] over patterns; [room] more are allowed. *)
Fixpoint parse_patterns (room : nat) (save : cstr) : option (list (Z * Z) * cstr) :=
  match room with
  | O => None
  | S room =>
      match parse_pattern save with
      | None => None
      | Some (m, v, save) =>
          let save := skip_ws save in
          match save with
          | c :: _ =>
              if is_hex_digit c || ceq c "?" then
                match parse_patterns room save with
                | Some (l, save) => Some ((m, v) :: l, save)
                | None => None
                end
              else Some ([(m, v)], save)
          | [] => Some ([(m, v)], save)
          end
      end
  end.

(** A name of at most [max] characters, up to a character in [stop]. *)
Definition parse_name (max : nat) (stop : ascii -> bool) (p : cstr) : option (cstr * cstr) :=
  let name := take_while (fun c => negb (stop c)) p in
  if (max <? length name)%nat then None
  else match name with
       | [] => None
       | _ => Some (name, drop_while (fun c => negb (stop c)) p)
       end.

Definition sym_stop (c : ascii) : bool := is_space c || ceq c "+" || ceq c "-" || ceq c ";".
Definition label_stop (c : ascii) : bool := is_space c || ceq c "+" || ceq c ";".

(** [+<hex>] or [-<hex>] after a symbol. *)
Definition parse_sym_offset (p : cstr) : option (Z * cstr) :=
  match p with
  | c :: p' =>
      if ceq c "+" || ceq c "-" then
        match parse_hex_u64 p' with
        | Some (v, q) => Some (if ceq c "-" then i64 (- i64 v) else i64 v, q)
        | None => None
        end
      else Some (0, p)
  | [] => Some (0, p)
  end.

Definition parse_loc_expr (p : cstr) : option (loc_expr * cstr) :=
  let p := skip_ws p in
  match strip_prefix (str "sym:") p with
  | Some p =>
      match parse_name 255 sym_stop p with
      | None => None
      | Some (sym, p) =>
          match parse_sym_offset p with
          | None => None
          | Some (off, p) =>
              match strip_prefix (str "find ") (skip_ws p) with
              | Some save =>
                  match parse_patterns LOC_MAX_PATTERNS (skip_ws save) with
                  | None => None
                  | Some (pats, save) =>
                      match strip_prefix (str "within ") save with
                      | Some save =>
                          match parse_hex_u64 (skip_ws save) with
                          | None => None
                          | Some (w, q) => Some (LOC_SYM_FIND sym pats w, q)
                          end
                      | None => Some (LOC_SYM_FIND sym pats 0, save)
                      end
                  end
              | None => Some (LOC_SYM sym off, p)
              end
          end
      end
  | None =>
      if at_0x p then
        match parse_hex_u64 p with
        | Some (v, q) => Some (LOC_ABS (i64 v), q)
        | None => None
        end
      else
        match parse_name 255 label_stop p with
        | None => None
        | Some (name, p) =>
            match p with
            | c :: p' =>
                if ceq c "+" then
                  match parse_hex_u64 p' with
                  | Some (v, q) => Some (LOC_LABEL name (i64 v), q)
                  | None => None
                  end
                else Some (LOC_LABEL name 0, p)
            | [] => Some (LOC_LABEL name 0, p)
            end
        end
  end.

(** [strncmp(p, word, 3) == 0] with an end of token after it. *)
Definition keyword (word : string) (p : cstr) : option cstr :=
  match strip_prefix (str word) p with
  | Some [] => Some []
  | Some (c :: rest) => if is_space c || ceq c ";" then Some (c :: rest) else None
  | None => None
  end.

Definition parse_insn_expr (p : cstr) : option (insn_expr * cstr) :=
  let p := skip_ws p in
  match keyword "nop" p with
  | Some q => Some (INS_RAW ENC_NOP, q)
  | None =>
      match keyword "ret" p with
      | Some q => Some (INS_RAW ENC_RET, q)
      | None =>
          match strip_prefix (str "bl ") p with
          | Some q =>
              match parse_loc_expr q with Some (t, q) => Some (INS_BL t, q) | None => None end
          | None =>
              match strip_prefix (str "b ") p with
              | Some q =>
                  match parse_loc_expr q with Some (t, q) => Some (INS_B t, q) | None => None end
              | None =>
                  match parse_hex_u64 p with
                  | Some (v, q) => if 0xFFFFFFFF <? v then None else Some (INS_RAW v, q)
                  | None => None
                  end
              end
          end
      end
  end.

(** [Some e] is the return value 0 with the optional expected word. *)
Definition parse_expect (p : cstr) : option (option Z) :=
  match skip_ws p with
  | [] => Some None
  | c :: p =>
      if negb (ceq c ";") then None
      else match strip_prefix (str "expect ") (skip_ws p) with
           | None => None
           | Some p =>
               match parse_hex_u64 (skip_ws p) with
               | Some (v, _) => if 0xFFFFFFFF <? v then None else Some (Some v)
               | None => None
               end
           end
  end.

(** ** Pass 1: lines *)

Definition parse_legacy (p : cstr) : option line_body :=
  match parse_hex_u64 p with
  | None => None
  | Some (a, q) =>
      match parse_hex_u64 q with
      | Some (i, _) => if 0xFFFFFFFF <? i then None else Some (LINE_ABS (LOC_ABS (i64 a)) (INS_RAW i))
      | None => None
      end
  end.

Definition parse_let (p : cstr) : option line_body :=
  let p := skip_ws p in
  let name := take_while (fun c => negb (is_space c || ceq c "=")) p in
  if (127 <? length name)%nat then None
  else match skip_ws (drop_while (fun c => negb (is_space c || ceq c "=")) p) with
       | c :: p =>
           if negb (ceq c "=") then None
           else match parse_loc_expr (skip_ws p) with
                | Some (loc, _) => Some (LINE_LET name loc)
                | None => None
                end
       | [] => None
       end.

Definition parse_at (p : cstr) : option line_body :=
  match parse_loc_expr (skip_ws p) with
  | None => None
  | Some (loc, q) =>
      match parse_insn_expr q with
      | None => None
      | Some (insn, q) =>
          match parse_expect q with
          | None => None
          | Some e => Some (LINE_AT loc insn e)
          end
      end
  end.

(** One line: [Some None] is a blank line, [None] a parse failure. *)
Definition parse_line (buf : cstr) : option (option line_body) :=
  let p := skip_ws (strip_comment buf) in
  match p with
  | [] => Some None
  | _ =>
      if looks_legacy p then option_map Some (parse_legacy p)
      else match strip_prefix (str "let ") p with
           | Some q => option_map Some (parse_let q)
           | None =>
               match strip_prefix (str "at ") p with
               | Some q => option_map Some (parse_at q)
               | None => None
               end
           end
  end.

Fixpoint parse_lines (line_num : Z) (l : list cstr) : option (list patch_line) :=
  match l with
  | [] => Some []
  | buf :: l =>
      match parse_line buf with
      | None => None
      | Some None => parse_lines (line_num + 1) l
      | Some (Some b) =>
          match parse_lines (line_num + 1) l with
          | Some r => Some (mk_line (line_num + 1) b :: r)
          | None => None
          end
      end
  end.

(** ** Pass 2: labels and addresses *)

Record label := mk_label { name : cstr; addr : Z; resolved : bool }.

Fixpoint find_label (labels : list label) (n : cstr) : option Z :=
  match labels with
  | [] => None
  | l :: labels => if streq (name l) n then (if resolved l then Some (addr l) else None)
                   else find_label labels n
  end.

(** All words of the pattern at [a]. *)
Fixpoint pattern_at (m : bytemem) (a : Z) (pats : list (Z * Z)) : bool :=
  match pats with
  | [] => true
  | (mask, value) :: pats => (load 4 a m .& mask =? value) && pattern_at m (a + 4) pats
  end.

(** The scan: [count] hits so far, the first at [hit]; it stops at the second. *)
Fixpoint pattern_scan (fuel : nat) (m : bytemem) (a limit : Z) (pats : list (Z * Z)) (hit count : Z) : Z * Z :=
  match fuel with
  | O => (hit, count)
  | S fuel =>
      if a + 4 * Z.of_nat (length pats) <=? limit then
        if pattern_at m a pats then
          let count := count + 1 in
          let hit := if count =? 1 then a else hit in
          if 1 <? count then (hit, count) else pattern_scan fuel m (a + 4) limit pats hit count
        else pattern_scan fuel m (a + 4) limit pats hit count
      else (hit, count)
  end.

(** The hit and the number of hits (at most 2). *)
Definition pattern_find_unique (m : bytemem) (start limit : Z) (pats : list (Z * Z)) : Z * Z :=
  let need := 4 * Z.of_nat (length pats) in
  if (need =? 0) || (limit <? start) || (limit - start <? need) then (0, 0)
  else pattern_scan (Z.to_nat ((limit - start) / 4 + 1)) m start limit pats 0 0.

Section resolve.
Context `{SymbolResolver} (mh_loaded : bool) (slide : Z).

Definition resolve_loc (m : bytemem) (labels : list label) (loc : loc_expr) : option Z :=
  match loc with
  | LOC_ABS offset => Some (u64 (offset + slide))
  | LOC_LABEL n offset =>
      match find_label labels n with
      | Some base => Some (u64 (base + offset))
      | None => None
      end
  | LOC_SYM sym offset =>
      if negb mh_loaded then None
      else let sym_start := resolver_lookup_symbol sym in
           if sym_start =? 0 then None else Some (u64 (sym_start + offset))
  | LOC_SYM_FIND sym pats within =>
      if negb mh_loaded then None
      else if resolver_lookup_symbol sym =? 0 then None
      else match resolver_symbol_extent sym with
           | None => None
           | Some (seg_start, seg_end) =>
               let limit := if nz within && (u64 (seg_start + within) <? seg_end)
                            then u64 (seg_start + within) else seg_end in
               let '(hit, count) := pattern_find_unique m seg_start limit pats in
               if count =? 1 then Some hit else None
           end
  end.

(** Pass 2a. *)
Definition register_labels (l : list patch_line) : list label :=
  flat_map (fun pl => match line pl with LINE_LET n _ => [mk_label n 0 false] | _ => [] end) l.

Fixpoint set_label (labels : list label) (n : cstr) (a : Z) : list label :=
  match labels with
  | [] => []
  | l :: labels => if streq (name l) n then mk_label (name l) a true :: labels
                   else l :: set_label labels n a
  end.

(** Pass 2b, in file order. *)
Fixpoint resolve_lets (m : bytemem) (labels : list label) (l : list patch_line) : option (list label) :=
  match l with
  | [] => Some labels
  | pl :: l =>
      match line pl with
      | LINE_LET n loc =>
          match resolve_loc m labels loc with
          | None => None
          | Some a => resolve_lets m (set_label labels n a) l
          end
      | _ => resolve_lets m labels l
      end
  end.

(** A line of passes 2c to 4. *)
Record site := mk_site { s_addr : Z; s_insn : insn_expr; s_expect : option Z }.

(** Pass 2c. *)
Fixpoint resolve_sites (m : bytemem) (labels : list label) (l : list patch_line) : option (list site) :=
  match l with
  | [] => Some []
  | pl :: l =>
      let go loc insn e :=
        match resolve_loc m labels loc with
        | None => None
        | Some a => match resolve_sites m labels l with
                    | Some r => Some (mk_site a insn e :: r)
                    | None => None
                    end
        end in
      match line pl with
      | LINE_LET _ _ => resolve_sites m labels l
      | LINE_AT loc insn e => go loc insn e
      | LINE_ABS loc insn => go loc insn None
      end
  end.

(** ** Pass 3: encoding *)

Definition encode_branch (m : bytemem) (labels : list label) (s : site) (enc : Z -> Z) (target : loc_expr) : option Z :=
  match resolve_loc m labels target with
  | None => None
  | Some tgt =>
      let diff := i64 (i64 tgt - i64 (s_addr s)) in
      if negb (arm64_branch_in_range diff) then None else Some (enc (i32 (diff .>> 2)))
  end.

Definition encode_site (m : bytemem) (labels : list label) (s : site) : option (Z * Z) :=
  let insn :=
    match s_insn s with
    | INS_RAW raw => Some raw
    | INS_B t => encode_branch m labels s enc_b t
    | INS_BL t => encode_branch m labels s enc_bl t
    end in
  match insn with
  | None => None
  | Some w =>
      match s_expect s with
      | Some e => if load 4 (s_addr s) m =? e then Some (s_addr s, w) else None
      | None => Some (s_addr s, w)
      end
  end.

Fixpoint encode_sites (m : bytemem) (labels : list label) (l : list site) : option (list (Z * Z)) :=
  match l with
  | [] => Some []
  | s :: l =>
      match encode_site m labels s with
      | None => None
      | Some w => match encode_sites m labels l with Some r => Some (w :: r) | None => None end
      end
  end.

(** ** Pass 4: writing *)

(** [mprotect] of the page with the given protection: true for 0. *)
Context (page_size : Z) (mprotect_rwx : Z -> bool).

Definition write_word (target insn : Z) (m : bytemem) : option bytemem :=
  let page := target .& Z.lnot (page_size - 1) in
  if negb (mprotect_rwx page) then None else Some (store 4 target insn m).

(** The result and the memory; [applied] counts the words written. *)
Fixpoint write_sites (l : list (Z * Z)) (applied : Z) (m : bytemem) : Z * bytemem :=
  match l with
  | [] => (applied, m)
  | (a, w) :: l =>
      match write_word a w m with
      | None => (-1, m)
      | Some m => write_sites l (applied + 1) m
      end
  end.

(** [content] is the patch file, [None] when it cannot be opened. *)
Definition patcher_apply (content : option cstr) (m : bytemem) : Z * bytemem :=
  match content with
  | None => (-1, m)
  | Some content =>
      match parse_lines 0 (file_lines 512 content) with
      | None => (-1, m)
      | Some lines =>
          match resolve_lets m (register_labels lines) lines with
          | None => (-1, m)
          | Some labels =>
              match resolve_sites m labels lines with
              | None => (-1, m)
              | Some sites =>
                  match encode_sites m labels sites with
                  | None => (-1, m)
                  | Some ws => write_sites ws 0 m
                  end
              end
          end
      end
  end.
End resolve.
End Patcher.

(** * The patcher: what a patch file does *)

Import Patcher.

(** ** Pattern search *)

(** The positions of the pattern between [a] and [limit], in order. *)
Fixpoint hits (fuel : nat) (m : bytemem) (a limit : Z) (pats : list (Z * Z)) : list Z :=
  match fuel with
  | O => []
  | S fuel =>
      if a + 4 * Z.of_nat (length pats) <=? limit
      then (if pattern_at m a pats then [a] else []) ++ hits fuel m (a + 4) limit pats
      else []
  end.

Lemma scan_from_one fuel m a limit pats hit :
  pattern_scan fuel m a limit pats hit 1 = (hit, match hits fuel m a limit pats with [] => 1 | _ => 2 end).
Proof.
  revert a. induction fuel as [|fuel IH]; intros a; cbn; [done|]. destruct (_ <=? _); [|done].
  by destruct (pattern_at m a pats); cbn.
Qed.

Lemma scan_from_zero fuel m a limit pats :
  pattern_scan fuel m a limit pats 0 0 =
  match hits fuel m a limit pats with [] => (0, 0) | [h] => (h, 1) | h :: _ => (h, 2) end.
Proof.
  revert a. induction fuel as [|fuel IH]; intros a; cbn; [done|]. destruct (_ <=? _); [|done].
  destruct (pattern_at m a pats); cbn; [|done]. rewrite scan_from_one. by destruct (hits _ _ _ _ _).
Qed.

Lemma hits_in fuel m a limit pats x :
  In x (hits fuel m a limit pats) <->
  exists i, (i < fuel)%nat /\ x = a + 4 * Z.of_nat i /\ x + 4 * Z.of_nat (length pats) <= limit /\ pattern_at m x pats = true.
Proof.
  revert a. induction fuel as [|fuel IH]; intros a; cbn; [split; [done|intros (?&?&_); lia]|].
  destruct (Z.leb_spec (a + 4 * Z.of_nat (length pats)) limit).
  - rewrite in_app_iff, IH. split.
    + intros [Hin|(i&Hi&Hx&Hl&Hp)].
      * destruct (pattern_at m a pats) eqn:E; [|done]. destruct Hin as [<-|[]]. exists O. repeat split; auto; lia.
      * exists (S i). repeat split; auto; lia.
    + intros ([|i]&Hi&Hx&Hl&Hp).
      * left. replace x with a in * by lia. rewrite Hp. by left.
      * right. exists i. repeat split; auto; lia.
  - split; [done|]. intros (i&Hi&Hx&Hl&Hp). lia.
Qed.

Lemma hits_nodup fuel m a limit pats : NoDup (hits fuel m a limit pats).
Proof.
  revert a. induction fuel as [|fuel IH]; intros a; cbn; [constructor|]. destruct (_ <=? _); [|constructor].
  destruct (pattern_at m a pats); [|apply IH]. cbn. apply NoDup_cons. split; [|apply IH].
  intros Hin. apply list_elem_of_In, hits_in in Hin. destruct Hin as (i&_&Hx&_). lia.
Qed.

(** A match of the pattern in the scanned range. *)
Definition matches (m : bytemem) (start limit : Z) (pats : list (Z * Z)) (x : Z) : Prop :=
  (exists i, 0 <= i /\ x = start + 4 * i) /\ x + 4 * Z.of_nat (length pats) <= limit /\ pattern_at m x pats = true.

Lemma find_unique_hits m start limit pats :
  pats <> [] -> start <= limit ->
  exists l, NoDup l /\ (forall x, In x l <-> matches m start limit pats x) /\
    pattern_find_unique m start limit pats = match l with [] => (0, 0) | [h] => (h, 1) | h :: _ => (h, 2) end.
Proof.
  intros Hne Hle. unfold pattern_find_unique.
  assert (Hlen : 1 <= Z.of_nat (length pats)) by (destruct pats; [done|cbn; lia]).
  destruct (Z.eqb_spec (4 * Z.of_nat (length pats)) 0); [lia|]. destruct (Z.ltb_spec limit start); [lia|]. cbn [orb].
  destruct (Z.ltb_spec (limit - start) (4 * Z.of_nat (length pats))).
  - exists []. split; [constructor|]. split; [|done]. intros x. split; [done|]. intros ((i&?&->)&?&_). lia.
  - exists (hits (Z.to_nat ((limit - start) / 4 + 1)) m start limit pats).
    split; [apply hits_nodup|]. split; [|apply scan_from_zero]. intros x. rewrite hits_in. split.
    + intros (i&Hi&Hx&Hl&Hp). split; [|done]. exists (Z.of_nat i). lia.
    + intros ((i&Hi&->)&Hl&Hp). exists (Z.to_nat i). repeat split; auto; try lia.
      assert (i <= (limit - start) / 4) by (apply Z.div_le_lower_bound; lia). lia.
Qed.

(** The [find] expression resolves exactly when the pattern occurs once:
    [pattern_find_unique] reports one hit if and only if there is one matching
    position in the scanned range, and then that position is the hit. *)
Theorem pattern_find_unique_correct m start limit pats hit :
  pats <> [] -> start <= limit ->
  (pattern_find_unique m start limit pats = (hit, 1) <->
   matches m start limit pats hit /\ forall x, matches m start limit pats x -> x = hit).
Proof.
  intros Hne Hle. destruct (find_unique_hits m start limit pats Hne Hle) as (l&Hnd&Hin&->).
  destruct l as [|h [|h' l]].
  - split; [done|]. intros [H%Hin _]. done.
  - split.
    + intros [= <-]. split; [apply Hin; by left|]. intros x Hx%Hin. destruct Hx as [->|[]]. done.
    + intros [Hh%Hin _]. destruct Hh as [->|[]]. done.
  - split; [done|]. intros [_ Hu]. exfalso.
    assert (h = hit) by (apply Hu, Hin; by left). assert (h' = hit) by (apply Hu, Hin; right; by left). subst.
    apply NoDup_cons in Hnd as [Hn _]. apply Hn. by left.
Qed.

Lemma pattern_find_unique_correct_witness :
  pattern_find_unique (store 4 0x1008 0x531F7901 (fun _ => 0)) 0x1000 0x1010 [(0xFFFFFF00, 0x531F7900)] = (0x1008, 1) /\
  forall x, matches (store 4 0x1008 0x531F7901 (fun _ => 0)) 0x1000 0x1010 [(0xFFFFFF00, 0x531F7900)] x -> x = 0x1008.
Proof.
  split; [reflexivity|].
  apply (pattern_find_unique_correct (store 4 0x1008 0x531F7901 (fun _ => 0)) 0x1000 0x1010
    [(0xFFFFFF00, 0x531F7900)] 0x1008); [discriminate|lia|reflexivity].
Defined.

(** ** Branches *)

Section apply.
Context `{SymbolResolver} (mh_loaded : bool) (slide : Z).
Context (page_size : Z) (mprotect_rwx : Z -> bool).

Local Abbreviation resolve := (resolve_loc mh_loaded slide).

Lemma encode_branch_off m labels s enc t w :
  0 <= s_addr s < 2 ^ 63 -> encode_branch mh_loaded slide m labels s enc t = Some w ->
  exists tgt off, resolve m labels t = Some tgt /\ w = enc off /\ b_reach off /\
    (0 <= tgt < 2 ^ 63 -> s_addr s + 4 * off = tgt).
Proof.
  unfold encode_branch. intros Hs. destruct (resolve m labels t) as [tgt|] eqn:Et; [|done].
  destruct (arm64_branch_in_range _) eqn:Er; [|done]. intros [= <-].
  set (diff := i64 (i64 tgt - i64 (s_addr s))) in *.
  assert (Hd : diff mod 4 = 0 /\ b_reach (diff / 4)) by (by apply branch_in_range_spec).
  exists tgt, (diff / 4). split; [done|]. destruct Hd as [Hd Hb]. split; [|split; [done|]].
  - rewrite Z.shiftr_div_pow2 by lia. change (2 ^ 2) with 4. unfold i32. rewrite signed_small; [done|lia|].
    unfold b_reach in Hb. lia.
  - intros Ht. pose proof (Z.div_mod diff 4 ltac:(lia)).
    assert (diff = tgt - s_addr s); [|lia]. unfold diff. rewrite (i64_small tgt), (i64_small (s_addr s)) by lia.
    unfold i64. apply signed_small; lia.
Qed.
End apply.

(** The branches a patch file asks for arrive: the word encoded for
    [b <loc>] or [bl <loc>] decodes to a branch whose displacement leads from
    the patched address exactly to the resolved target. *)
Theorem encoded_branch_arrives `{SymbolResolver} mh_loaded slide m labels s t w tgt :
  0 <= s_addr s < 2 ^ 63 -> 0 <= tgt < 2 ^ 63 -> resolve_loc mh_loaded slide m labels t = Some tgt ->
  (s_insn s = INS_B t -> encode_site mh_loaded slide m labels s = Some (s_addr s, w) ->
     exists off, decode w = Some (B off) /\ s_addr s + 4 * off = tgt) /\
  (s_insn s = INS_BL t -> encode_site mh_loaded slide m labels s = Some (s_addr s, w) ->
     exists off, decode w = Some (BL off) /\ s_addr s + 4 * off = tgt).
Proof.
  intros Hs Ht Er. unfold encode_site.
  split; intros Hi; rewrite Hi;
    (destruct (encode_branch _ _ _ _ _ _ _) as [w'|] eqn:Eb; [|done]); intros Hw;
    (assert (Hww : w = w') by (destruct (s_expect s); [destruct (_ =? _); [|done]|]; by injection Hw as ->)); subst w';
    apply (encode_branch_off mh_loaded slide) in Eb as (tgt'&off&Er'&->&Hb&Harr); try done;
    rewrite Er in Er'; injection Er' as <-; exists off; (split; [|by apply Harr]).
  - by apply decode_enc_b.
  - by apply decode_enc_bl.
Qed.

(** A resolver that knows one symbol. *)
Definition one_symbol (a len : Z) (n : cstr) : SymbolResolver := {|
  resolver_lookup_symbol s := if streq s n then a else 0;
  resolver_symbol_extent s := if streq s n then Some (a, a + len) else None |}.

Lemma encoded_branch_arrives_witness :
  exists off, decode 0x14000008 = Some (B off) /\ 0x1000 + 4 * off = 0x1020.
Proof.
  pose (R := one_symbol 0x1010 0x100 (str "_f")).
  apply (encoded_branch_arrives (H := R) true 0 (fun _ => 0) [] (mk_site 0x1000 (INS_B (LOC_SYM (str "_f") 16)) None)
           (LOC_SYM (str "_f") 16) 0x14000008 0x1020); cbn [s_addr s_insn]; try lia; reflexivity.
Defined.

(** ** All or nothing *)

Section whole.
Context `{SymbolResolver} (mh_loaded : bool) (slide : Z).
Context (page_size : Z) (mprotect_rwx : Z -> bool).

(** The words passes 1 to 3 decide to write. *)
Definition patch_plan (content : option cstr) (m : bytemem) : option (list (Z * Z)) :=
  match content with
  | None => None
  | Some content =>
      match parse_lines 0 (file_lines 512 content) with
      | None => None
      | Some lines =>
          match resolve_lets mh_loaded slide m (register_labels lines) lines with
          | None => None
          | Some labels =>
              match resolve_sites mh_loaded slide m labels lines with
              | None => None
              | Some sites => encode_sites mh_loaded slide m labels sites
              end
          end
      end
  end.

Definition write_all (ws : list (Z * Z)) (m : bytemem) : bytemem :=
  fold_left (fun m '(a, w) => store 4 a w m) ws m.

Lemma apply_plan content m :
  patcher_apply mh_loaded slide page_size mprotect_rwx content m =
  match patch_plan content m with None => (-1, m) | Some ws => write_sites page_size mprotect_rwx ws 0 m end.
Proof. unfold patcher_apply, patch_plan. by repeat case_match. Qed.

Definition page_of (a : Z) : Z := a .& Z.lnot (page_size - 1).

Lemma write_sites_spec ws n m :
  0 <= n -> let '(r, m') := write_sites page_size mprotect_rwx ws n m in
  (r = n + Z.of_nat (length ws) /\ m' = write_all ws m) \/
  (r = -1 /\ exists ws1 a w ws2, ws = ws1 ++ (a, w) :: ws2 /\ mprotect_rwx (page_of a) = false /\
     m' = write_all ws1 m).
Proof.
  revert n m. induction ws as [|[a w] ws IH]; intros n m Hn; cbn.
  - left. split; [lia|done].
  - unfold write_word. fold (page_of a). destruct (mprotect_rwx (page_of a)) eqn:E; cbn.
    + specialize (IH (n + 1) (store 4 a w m) ltac:(lia)).
      destruct (write_sites _ _ ws (n + 1) (store 4 a w m)) as [r m'].
      destruct IH as [[-> ->]|(->&ws1&a'&w'&ws2&->&Hp&->)].
      * left. split; [lia|done].
      * right. split; [done|]. exists ((a, w) :: ws1), a', w', ws2. done.
    + right. split; [done|]. by exists [], a, w, ws.
Qed.
End whole.

(** C34. All or nothing.  A patch file either is refused in one of the first
    three passes, with -1 and memory untouched; or every word it asks for is
    written, in file order, and the result is their number; or a page refuses
    to become writable, and then exactly the words before that one are
    written. *)
Theorem patcher_all_or_nothing `{SymbolResolver} mh_loaded slide page_size mprotect_rwx content m :
  let '(r, m') := patcher_apply mh_loaded slide page_size mprotect_rwx content m in
  match patch_plan mh_loaded slide content m with
  | None => r = -1 /\ m' = m
  | Some ws =>
      (r = Z.of_nat (length ws) /\ m' = write_all ws m) \/
      (r = -1 /\ exists ws1 a w ws2, ws = ws1 ++ (a, w) :: ws2 /\
         mprotect_rwx (page_of page_size a) = false /\ m' = write_all ws1 m)
  end.
Proof.
  rewrite apply_plan. destruct (patch_plan mh_loaded slide content m) as [ws|]; [|done].
  apply (write_sites_spec page_size mprotect_rwx ws 0 m). lia.
Qed.

(** Expectations guard the whole file: when the passes accept a file,
    every [expect] in it matched the memory the patcher found, before any word
    was written; one mismatch makes the plan fail. *)
Theorem expect_guards_file `{SymbolResolver} mh_loaded slide m labels sites ws :
  encode_sites mh_loaded slide m labels sites = Some ws ->
  length ws = length sites /\
  forall s e, In s sites -> s_expect s = Some e -> load 4 (s_addr s) m = e.
Proof.
  revert ws. induction sites as [|s sites IH]; intros ws; cbn.
  - intros [= <-]. done.
  - destruct (encode_site _ _ m labels s) as [w|] eqn:Es; [|done].
    destruct (encode_sites _ _ m labels sites) as [r|] eqn:Er; [|done]. intros [= <-].
    destruct (IH r eq_refl) as [Hl He]. split; [cbn; by rewrite Hl|].
    intros s' e [<-|Hin] Hs'; [|by eapply He]. unfold encode_site in Es. rewrite Hs' in Es.
    destruct (match s_insn s with INS_RAW _ => _ | INS_B _ => _ | INS_BL _ => _ end); [|done].
    destruct (Z.eqb_spec (load 4 (s_addr s) m) e); done.
Qed.

Lemma expect_guards_file_witness :
  length [(0x1000, 0xD503201F)] = 1%nat /\ load 4 0x1000 (store 4 0x1000 0xD65F03C0 (fun _ => 0)) = 0xD65F03C0.
Proof.
  pose (R := one_symbol 0x1000 0x100 (str "_f")).
  destruct (expect_guards_file (H := R) true 0 (store 4 0x1000 0xD65F03C0 (fun _ => 0)) []
    [mk_site 0x1000 (INS_RAW 0xD503201F) (Some 0xD65F03C0)] [(0x1000, 0xD503201F)]) as [Hl He]; [reflexivity|].
  split; [exact Hl|]. exact (He (mk_site 0x1000 (INS_RAW 0xD503201F) (Some 0xD65F03C0)) 0xD65F03C0 (or_introl eq_refl) eq_refl).
Defined.
