(* ===== verification/PatcherSyntax.v ===== *)
(** * The patch file syntax: printing and parsing

    A printer for the documented grammar (src/patcher.h) and the proof that
    [parse_line] reads back every line it prints. *)

From S2P Require Import Prelude Arm64Enc CStr Patcher.
Import Patcher.

(** ** Hexadecimal numbers *)

Definition hex_char (d : Z) : ascii := ascii_of_nat (Z.to_nat (if d <? 10 then 48 + d else 87 + d)).

(** The last [n] hexadecimal digits of [v]. *)
Fixpoint hexn (n : nat) (v : Z) : cstr :=
  match n with
  | O => []
  | S n => hex_char ((v / 16 ^ Z.of_nat n) mod 16) :: hexn n v
  end.

Lemma hex_char_ok d : 0 <= d < 16 ->
  hex_of (hex_char d) = Some d /\ is_x (hex_char d) = false /\ is_space (hex_char d) = false /\
  ceq (hex_char d) "#" = false /\ ceq (hex_char d) " " = false.
Proof.
  intros Hd. assert (Hin : In d (map Z.of_nat (seq 0 16))).
  { apply in_map_iff. exists (Z.to_nat d). split; [lia|]. apply in_seq. lia. }
  cbn in Hin. repeat (destruct Hin as [<-|Hin]; [vm_compute; done|]). done.
Qed.

(** Nothing that continues a number. *)
Definition ends_hex (rest : cstr) : Prop :=
  match rest with c :: _ => hex_of c = None /\ is_x c = false | [] => True end.

Lemma hex_digits_end acc rest : ends_hex rest -> hex_digits acc rest = (acc, rest).
Proof. destruct rest as [|c rest]; [done|]. cbn. by intros [-> _]. Qed.

Lemma hex_digits_hexn n v acc rest :
  0 <= v < 16 ^ Z.of_nat n -> ends_hex rest ->
  hex_digits acc (hexn n v ++ rest) = (acc * 16 ^ Z.of_nat n + v, rest).
Proof.
  intros Hv Hr. assert (Hg : forall acc, hex_digits acc (hexn n v ++ rest) = (acc * 16 ^ Z.of_nat n + v mod 16 ^ Z.of_nat n, rest)).
  { clear Hv acc. induction n as [|n IH]; intros acc.
    - cbn [hexn app]. rewrite hex_digits_end by done. change (16 ^ Z.of_nat 0) with 1. rewrite Z.mod_1_r. f_equal. lia.
    - cbn [hexn app hex_digits]. pose proof (Z.mod_pos_bound (v / 16 ^ Z.of_nat n) 16 ltac:(lia)) as Hd.
      destruct (hex_char_ok _ Hd) as (->&_). rewrite IH. f_equal.
      replace (Z.of_nat (S n)) with (Z.of_nat n + 1) by lia. rewrite Z.pow_add_r by lia.
      rewrite (Z.rem_mul_r v (16 ^ Z.of_nat n) (16 ^ 1)) by lia. change (16 ^ 1) with 16. lia. }
  rewrite Hg, Z.mod_small by done. done.
Qed.

Lemma hexn_digit n v k : (k < n)%nat -> exists d, 0 <= d < 16 /\ hexn n v !! k = Some (hex_char d).
Proof.
  revert k. induction n as [|n IH]; intros k Hk; [lia|]. destruct k as [|k]; cbn [hexn].
  - eexists. split; [|reflexivity]. apply Z.mod_pos_bound. lia.
  - apply IH. lia.
Qed.

(** No second [0x]: the second character is a digit, or ends the number. *)
Lemma skip_0x_hexn n v rest :
  (0 < n)%nat -> ends_hex rest ->
  skip_0x_digit (hexn n v ++ rest) = hexn n v ++ rest.
Proof.
  intros Hn Hr. unfold skip_0x_digit. destruct n as [|[|n]]; [lia| |].
  - cbn [hexn app]. destruct rest as [|c [|d rest]]; try done. destruct Hr as [_ Hx]. rewrite Hx, andb_false_r. done.
  - destruct (hexn_digit (S (S n)) v 1 ltac:(lia)) as (d&Hd&E). cbn [hexn app] in *. injection E as E.
    destruct (hex_char_ok _ (Z.mod_pos_bound (v / 16 ^ Z.of_nat n) 16 ltac:(lia))) as (_&H2&_). rewrite H2, andb_false_r.
    by destruct (hexn n v ++ rest).
Qed.

(** [0x] and [n] digits. *)
Definition print_hex (n : nat) (v : Z) : cstr := str "0x" ++ hexn n v.

Lemma parse_print_hex n v rest :
  (0 < n <= 16)%nat -> 0 <= v < 16 ^ Z.of_nat n -> ends_hex rest ->
  parse_hex_u64 (print_hex n v ++ rest) = Some (v, rest).
Proof.
  intros Hn Hv Hr. unfold parse_hex_u64, print_hex.
  change (skip_0x (skip_ws ((str "0x" ++ hexn n v) ++ rest))) with (hexn n v ++ rest).
  assert (Hs : strtoull16 (hexn n v ++ rest) = (v, rest)).
  { unfold strtoull16. rewrite skip_0x_hexn, hex_digits_hexn by (done || lia). f_equal.
    assert (16 ^ Z.of_nat n <= 16 ^ 16) by (apply Z.pow_le_mono_r; lia). change (16 ^ 16) with (2 ^ 64) in *. lia. }
  destruct n as [|n]; [lia|]. cbn [hexn app].
  destruct (hex_char_ok ((v / 16 ^ Z.of_nat n) mod 16)) as (Hx&_); [apply Z.mod_pos_bound; lia|].
  unfold is_hex_digit. rewrite Hx. change (hex_char _ :: hexn n v ++ rest) with (hexn (S n) v ++ rest). by rewrite Hs.
Qed.

(** ** The printer *)

(** Nibble [k] of a word. *)
Definition nib (v k : Z) : Z := (v / 16 ^ k) mod 16.

(** The last [n] nibbles of a pattern, [?] where the mask is clear. *)
Fixpoint patn (n : nat) (m v : Z) : cstr :=
  match n with
  | O => []
  | S n => (if nib m (Z.of_nat n) =? 0 then "?"%char else hex_char (nib v (Z.of_nat n))) :: patn n m v
  end.
Definition print_pat (p : Z * Z) : cstr := patn 8 (fst p) (snd p) ++ str " ".

Definition print_offset (off : Z) : cstr := str "+" ++ print_hex 16 (u64 off).

Definition print_loc (l : loc_expr) : cstr :=
  match l with
  | LOC_ABS off => print_hex 16 (u64 off)
  | LOC_SYM s off => str "sym:" ++ s ++ print_offset off
  | LOC_SYM_FIND s pats w => str "sym:" ++ s ++ str " find " ++ concat (map print_pat pats) ++ str "within " ++ print_hex 16 w
  | LOC_LABEL n off => n ++ print_offset off
  end.

Definition print_insn (i : insn_expr) : cstr :=
  match i with
  | INS_RAW w => print_hex 8 w
  | INS_B t => str "b " ++ print_loc t
  | INS_BL t => str "bl " ++ print_loc t
  end.

Definition print_expect (e : option Z) : cstr :=
  match e with Some w => str " ; expect " ++ print_hex 8 w | None => [] end.

Definition print_line (l : line_body) : cstr :=
  match l with
  | LINE_AT loc insn e => str "at " ++ print_loc loc ++ str " " ++ print_insn insn ++ print_expect e
  | LINE_LET n loc => str "let " ++ n ++ str " = " ++ print_loc loc
  | LINE_ABS loc insn => print_loc loc ++ str " " ++ print_insn insn
  end.

(** ** Lines the grammar can write *)

Definition no_char (f : ascii -> bool) (s : cstr) : Prop := Forall (fun c => f c = false) s.
Definition is_hash (c : ascii) : bool := ceq c "#".
Definition i64_range (v : Z) : Prop := - 2 ^ 63 <= v < 2 ^ 63.

(** A pattern: every nibble of the mask is all or nothing, no value outside. *)
Definition wf_pat (p : Z * Z) : Prop :=
  0 <= fst p < 2 ^ 32 /\ 0 <= snd p < 2 ^ 32 /\
  Forall (fun k => nib (fst p) k = 15 \/ nib (fst p) k = 0 /\ nib (snd p) k = 0) [0; 1; 2; 3; 4; 5; 6; 7].

Definition wf_sym (s : cstr) : Prop := s <> [] /\ (length s <= 255)%nat /\ no_char sym_stop s /\ no_char is_hash s.
Definition wf_label (s : cstr) : Prop :=
  s <> [] /\ (length s <= 255)%nat /\ no_char label_stop s /\ no_char is_hash s /\
  at_0x (s ++ str "+") = false /\ starts_with (str "sym:") (s ++ str "+") = false.

Definition wf_loc (l : loc_expr) : Prop :=
  match l with
  | LOC_ABS off => i64_range off
  | LOC_SYM s off => wf_sym s /\ i64_range off
  | LOC_SYM_FIND s pats w => wf_sym s /\ (1 <= length pats <= LOC_MAX_PATTERNS)%nat /\ Forall wf_pat pats /\ 0 <= w < 2 ^ 64
  | LOC_LABEL n off => wf_label n /\ i64_range off
  end.

Definition wf_insn (i : insn_expr) : Prop :=
  match i with INS_RAW w => 0 <= w < 2 ^ 32 | INS_B t | INS_BL t => wf_loc t end.

Definition let_stop (c : ascii) : bool := is_space c || ceq c "=".

Definition wf_line (l : line_body) : Prop :=
  match l with
  | LINE_AT loc insn e => wf_loc loc /\ wf_insn insn /\ match e with Some w => 0 <= w < 2 ^ 32 | None => True end
  | LINE_LET n loc => n <> [] /\ (length n <= 127)%nat /\ no_char let_stop n /\ no_char is_hash n /\ wf_loc loc
  | LINE_ABS loc insn => (exists a, loc = LOC_ABS a /\ i64_range a) /\ exists w, insn = INS_RAW w /\ 0 <= w < 2 ^ 32
  end.

(** ** Scanning *)

Lemma take_while_stop f s rest :
  no_char f s -> match rest with c :: _ => f c = true | [] => True end ->
  take_while (fun c => negb (f c)) (s ++ rest) = s /\ drop_while (fun c => negb (f c)) (s ++ rest) = rest.
Proof.
  intros Hs Hr. induction Hs as [|c s Hc Hs [IH1 IH2]]; cbn.
  - destruct rest as [|c rest]; [done|]. cbn. by rewrite Hr.
  - rewrite Hc. cbn. by rewrite IH1, IH2.
Qed.

Lemma no_char_app f a b : no_char f (a ++ b) <-> no_char f a /\ no_char f b.
Proof. apply Forall_app. Qed.

Lemma hexn_no_hash n v : no_char is_hash (hexn n v).
Proof.
  induction n as [|n IH]; constructor; [|done].
  by destruct (hex_char_ok _ (Z.mod_pos_bound (v / 16 ^ Z.of_nat n) 16 ltac:(lia))) as (_&_&_&?&_).
Qed.

Lemma patn_char n m v c : c ∈ patn n m v -> ceq c "#" = false /\ is_space c = false /\ (is_hex_digit c || ceq c "?") = true.
Proof.
  induction n as [|n IH]; [by intros ?%elem_of_nil|]. cbn [patn]. intros [->|Hc]%elem_of_cons; [|auto].
  destruct (nib m _ =? 0); [done|].
  destruct (hex_char_ok (nib v (Z.of_nat n))) as (Hx&_&Hsp&Hh&_); [apply Z.mod_pos_bound; lia|].
  unfold is_hex_digit. by rewrite Hx.
Qed.

Lemma skip_ws_id c s : is_space c = false -> skip_ws (c :: s) = c :: s.
Proof.
  intros Hc. unfold skip_ws. cbn. destruct (ceq c " " || ceq c TAB || ceq c NL || ceq c CR) eqn:E; [|done].
  rewrite !orb_true_iff in E. unfold ceq in E. rewrite !Ascii.eqb_eq in E. by destruct E as [[[->| ->]| ->]| ->].
Qed.

Lemma strip_comment_id s : no_char is_hash s -> strip_comment s = s.
Proof.
  intros Hs. unfold strip_comment. pose proof (take_while_stop is_hash s [] Hs I) as [E _]. by rewrite app_nil_r in E.
Qed.

(** ** Offsets, patterns and locations read back *)

Lemma i64_u64_id v : i64_range v -> i64 (u64 v) = v.
Proof.
  intros Hv. unfold i64, u64. unfold signed. rewrite Zmod_mod. change (signed 64 v = v). by apply signed_small.
Qed.

Lemma parse_offset_print off rest : i64_range off -> ends_hex rest ->
  parse_hex_u64 (print_hex 16 (u64 off) ++ rest) = Some (u64 off, rest).
Proof. intros. apply parse_print_hex; [lia| |done]. apply u64_range. Qed.

Lemma nib_step v n : 0 <= v < 2 ^ 32 -> 0 <= n ->
  u32 ((v / 16 ^ (n + 1)) .<< 4) .| nib v n = v / 16 ^ n.
Proof.
  intros Hv Hn. unfold nib. rewrite Z.pow_add_r, <- Z.div_div by lia. set (q := v / 16 ^ n).
  assert (Hq : 0 <= q < 2 ^ 32).
  { split; [apply Z.div_pos; lia|]. apply Z.div_lt_upper_bound; [lia|]. nia. }
  change (16 ^ 1) with 16. pose proof (Z.div_mod q 16 ltac:(lia)). pose proof (Z.mod_pos_bound q 16 ltac:(lia)).
  assert (Hl : (q / 16) .<< 4 .& (q mod 16) = 0).
  { rewrite Z.land_comm. rewrite <- (Z.mod_small (q mod 16) (2 ^ 4)) by lia. rewrite <- Z.land_ones, <- Z.land_assoc by lia.
    rewrite (Z.land_comm (Z.ones 4)), Z.land_ones, Z.shiftl_mul_pow2, Z_mod_mult, Z.land_0_r by lia. done. }
  rewrite u32_small; [rewrite <- Z.add_nocarry_lor by done|]; rewrite Z.shiftl_mul_pow2 by lia; change (2 ^ 4) with 16; lia.
Qed.

Lemma nib_ok p k : wf_pat p -> 0 <= k < 8 ->
  nib (fst p) k = 15 \/ nib (fst p) k = 0 /\ nib (snd p) k = 0.
Proof.
  intros (_&_&Hf) Hk. rewrite Forall_forall in Hf. apply Hf. rewrite list_elem_of_In. cbn. lia.
Qed.

Lemma pattern_nibbles_print n p rest : wf_pat p -> (n <= 8)%nat ->
  pattern_nibbles n (patn n (fst p) (snd p) ++ rest) (fst p / 16 ^ Z.of_nat n) (snd p / 16 ^ Z.of_nat n) =
  Some (fst p, snd p, rest).
Proof.
  intros Hp Hn. induction n as [|n IH].
  - cbn -[Z.div]. by rewrite !Z.div_1_r.
  - specialize (IH ltac:(lia)). pose proof (nib_ok p (Z.of_nat n) Hp ltac:(lia)) as Hk. destruct Hp as (Hm&Hv&_).
    pose proof (nib_step (fst p) (Z.of_nat n) Hm ltac:(lia)) as Em.
    pose proof (nib_step (snd p) (Z.of_nat n) Hv ltac:(lia)) as Ev.
    replace (Z.of_nat (S n)) with (Z.of_nat n + 1) by lia. cbn [patn app pattern_nibbles].
    destruct Hk as [Hk|[Hk Hk']].
    + rewrite Hk in *. change (15 =? 0) with false. cbv beta iota.
      destruct (hex_char_ok (nib (snd p) (Z.of_nat n))) as (Hx&_&_&_&_); [apply Z.mod_pos_bound; lia|].
      destruct (ceq _ "?") eqn:Eq; [|by rewrite Hx, Em, Ev]. unfold ceq in Eq. apply Ascii.eqb_eq in Eq. by rewrite Eq in Hx.
    + rewrite Hk, Hk', Z.lor_0_r in *. change (0 =? 0) with true. cbv beta iota. change (ceq "?" "?") with true. cbv iota.
      by rewrite Em, Ev.
Qed.

Lemma parse_pattern_print p rest : wf_pat p -> parse_pattern (print_pat p ++ rest) = Some (fst p, snd p, str " " ++ rest).
Proof.
  intros Hp. unfold parse_pattern, print_pat. rewrite <- app_assoc.
  pose proof (pattern_nibbles_print 8 p (str " " ++ rest) Hp ltac:(lia)) as E. destruct Hp as (Hm&Hv&_).
  change (16 ^ Z.of_nat 8) with (2 ^ 32) in E. rewrite (Z.div_small (fst p)), (Z.div_small (snd p)) in E by done. by rewrite E.
Qed.

(** A text no pattern continues, and its patterns before it. *)
Definition ends_pats (rest : cstr) : Prop :=
  match rest with c :: _ => (is_hex_digit c || ceq c "?") = false /\ is_space c = false | [] => True end.

Lemma skip_ws_space s : skip_ws (str " " ++ s) = skip_ws s.
Proof. done. Qed.

Lemma print_pat_head p s : exists c s', print_pat p ++ s = c :: s' /\ is_space c = false /\ (is_hex_digit c || ceq c "?") = true.
Proof.
  unfold print_pat. cbn [patn app]. eexists _, _. split; [reflexivity|].
  edestruct (patn_char 8 (fst p) (snd p)) as (_&H2&H3); [|split; [exact H2|exact H3]]. cbn [patn]. apply elem_of_cons. by left.
Qed.

Lemma parse_patterns_print room pats rest :
  (1 <= length pats <= room)%nat -> Forall wf_pat pats -> ends_pats rest ->
  parse_patterns room (concat (map print_pat pats) ++ rest) = Some (pats, rest).
Proof.
  revert pats. induction room as [|room IH]; intros pats Hl Hp Hr; [lia|].
  destruct Hp as [|p pats Hp Hps]; [cbn in Hl; lia|]. cbn [map concat]. rewrite <- app_assoc. cbn [parse_patterns].
  rewrite parse_pattern_print, skip_ws_space by done. destruct p as [m v]. cbn [fst snd].
  destruct pats as [|q pats].
  - cbn [map concat app]. destruct rest as [|c rest]; [done|]. destruct Hr as [H1 H2]. by rewrite skip_ws_id, H1.
  - cbn [map concat]. rewrite <- app_assoc. destruct (print_pat_head q (concat (map print_pat pats) ++ rest)) as (c&s'&E&H1&H2).
    rewrite E, skip_ws_id, H2 by done. rewrite <- E. change (concat _) with (concat (map print_pat pats)).
    pose proof (IH (q :: pats)) as IH'. cbn [map concat] in IH'. rewrite <- app_assoc in IH'.
    rewrite IH'; [done| |done|done]. cbn in *. lia.
Qed.

(** What may follow a printed location: the end, or a blank and no [find]. *)
Definition ends_loc (rest : cstr) : Prop :=
  rest = [] \/ exists s, rest = str " " ++ s /\ starts_with (str "find ") (skip_ws s) = false.

Lemma ends_loc_hex rest : ends_loc rest -> ends_hex rest.
Proof. by intros [->|(s&->&_)]. Qed.

Lemma ends_loc_nofind rest : ends_loc rest -> strip_prefix (str "find ") (skip_ws rest) = None.
Proof. intros [->|(s&->&Hs)]; [done|]. rewrite skip_ws_space. unfold starts_with in Hs. by destruct (strip_prefix _ _). Qed.

Lemma no_char_head f c s : no_char f (c :: s) -> f c = false.
Proof. intros H. by apply (Forall_cons_1 _ _ _ H). Qed.

Lemma parse_name_print max stop s rest :
  s <> [] -> (length s <= max)%nat -> no_char stop s -> match rest with c :: _ => stop c = true | [] => True end ->
  parse_name max stop (s ++ rest) = Some (s, rest).
Proof.
  intros Hn Hl Hs Hr. unfold parse_name. destruct (take_while_stop stop s rest Hs Hr) as [-> ->].
  rewrite (proj2 (Nat.ltb_ge _ _)) by done. by destruct s.
Qed.

Lemma parse_loc_abs off rest : i64_range off -> ends_loc rest ->
  parse_loc_expr (print_hex 16 (u64 off) ++ rest) = Some (LOC_ABS off, rest).
Proof.
  intros Ho Hr. unfold parse_loc_expr.
  assert (E : skip_ws (print_hex 16 (u64 off) ++ rest) = print_hex 16 (u64 off) ++ rest) by done.
  assert (E1 : strip_prefix (str "sym:") (print_hex 16 (u64 off) ++ rest) = None) by done.
  assert (E2 : at_0x (print_hex 16 (u64 off) ++ rest) = true) by done.
  rewrite E, E1, E2, parse_offset_print by auto using ends_loc_hex. by rewrite i64_u64_id.
Qed.

Lemma parse_sym_offset_print off rest : i64_range off -> ends_hex rest ->
  parse_sym_offset (print_offset off ++ rest) = Some (off, rest).
Proof.
  intros Ho Hr. unfold parse_sym_offset, print_offset.
  change ((str "+" ++ print_hex 16 (u64 off)) ++ rest) with ("+"%char :: (print_hex 16 (u64 off) ++ rest)). cbv iota.
  change (ceq "+" "+" || ceq "+" "-") with true. change (ceq "+" "-") with false. cbv iota.
  by rewrite parse_offset_print, i64_u64_id.
Qed.

Lemma parse_loc_sym s off rest : wf_sym s -> i64_range off -> ends_loc rest ->
  parse_loc_expr ((str "sym:" ++ s ++ print_offset off) ++ rest) = Some (LOC_SYM s off, rest).
Proof.
  intros (Hn&Hl&Hs&_) Ho Hr. unfold parse_loc_expr. rewrite <- app_assoc.
  change (skip_ws (str "sym:" ++ ?x)) with (str "sym:" ++ x). rewrite strip_prefix_app, <- app_assoc.
  rewrite parse_name_print, parse_sym_offset_print, ends_loc_nofind by (done || by apply ends_loc_hex). done.
Qed.

Lemma parse_loc_find s pats w rest : wf_loc (LOC_SYM_FIND s pats w) -> ends_hex rest ->
  parse_loc_expr (print_loc (LOC_SYM_FIND s pats w) ++ rest) = Some (LOC_SYM_FIND s pats w, rest).
Proof.
  intros ((Hn&Hl&Hs&_)&Hlen&Hp&Hw) Hr. unfold parse_loc_expr. cbn [print_loc]. rewrite <- app_assoc.
  change (skip_ws (str "sym:" ++ ?x)) with (str "sym:" ++ x). rewrite strip_prefix_app, <- app_assoc.
  rewrite parse_name_print by done. set (tl := (str " find " ++ _) ++ rest).
  change (parse_sym_offset tl) with (Some (0, tl)). cbv iota beta. unfold tl.
  change ((str " find " ++ ?x) ++ rest) with (str " " ++ str "find " ++ (x ++ rest)).
  rewrite skip_ws_space. change (skip_ws (str "find " ++ ?x)) with (str "find " ++ x). rewrite strip_prefix_app.
  destruct pats as [|p pats]; [cbn in Hlen; lia|]. cbn [map concat]. rewrite <- !app_assoc.
  destruct (print_pat_head p (concat (map print_pat pats) ++ str "within " ++ print_hex 16 w ++ rest)) as (c&s'&E&H1&H2).
  rewrite E, skip_ws_id, <- E by done. rewrite app_assoc. change (print_pat p ++ concat (map print_pat pats)) with (concat (map print_pat (p :: pats))).
  rewrite parse_patterns_print by done. rewrite strip_prefix_app. change (skip_ws (print_hex 16 w ++ rest)) with (print_hex 16 w ++ rest).
  rewrite parse_print_hex; [done|lia| |done]. change (16 ^ Z.of_nat 16) with (2 ^ 64). lia.
Qed.

Lemma at_0x_app s c t : s <> [] -> at_0x (s ++ c :: t) = at_0x (s ++ [c]).
Proof. by destruct s as [|a [|b s]]. Qed.

Lemma strip_prefix_stop pre s t u :
  strip_prefix pre (s ++ t) = None -> length t = 1%nat -> match t with c :: _ => ~ c ∈ pre | [] => True end ->
  strip_prefix pre (s ++ t ++ u) = None.
Proof.
  revert s. induction pre as [|a pre IH]; intros s H Ht Hc; [done|].
  destruct s as [|b s]; cbn in *.
  - destruct t as [|c t]; [done|]. cbn. destruct (ceq a c) eqn:E; [|done]. unfold ceq in E. apply Ascii.eqb_eq in E. subst.
    destruct Hc. apply elem_of_cons. by left.
  - destruct (ceq a b); [|done]. apply IH; [done|done|]. destruct t; [done|]. intros Hin. apply Hc. apply elem_of_cons. by right.
Qed.

Lemma parse_loc_label s off rest : wf_label s -> i64_range off -> ends_loc rest ->
  parse_loc_expr ((s ++ print_offset off) ++ rest) = Some (LOC_LABEL s off, rest).
Proof.
  intros (Hn&Hl&Hs&_&H0&Hy) Ho Hr. unfold parse_loc_expr. rewrite <- app_assoc.
  assert (E : skip_ws (s ++ print_offset off ++ rest) = s ++ print_offset off ++ rest).
  { destruct s as [|c s]; [done|]. apply skip_ws_id. apply no_char_head in Hs. unfold label_stop in Hs.
    by destruct (is_space c). }
  rewrite E. unfold print_offset. rewrite <- (app_assoc (str "+")). set (tl := print_hex 16 (u64 off) ++ rest).
  rewrite strip_prefix_stop; [|unfold starts_with in Hy; by destruct (strip_prefix _ _)|done|cbn; rewrite list_elem_of_In; cbn; intuition discriminate].
  change (str "+" ++ tl) with ("+"%char :: tl). rewrite at_0x_app by done. change ["+"%char] with (str "+"). rewrite H0.
  rewrite parse_name_print by done. change (ceq "+" "+") with true. cbv iota. unfold tl.
  by rewrite parse_offset_print, i64_u64_id by auto using ends_loc_hex.
Qed.

Lemma parse_print_loc l rest : wf_loc l -> ends_loc rest -> parse_loc_expr (print_loc l ++ rest) = Some (l, rest).
Proof.
  intros Hl Hr. destruct l; cbn [wf_loc] in Hl; [by apply parse_loc_abs| |by apply parse_loc_find; [|apply ends_loc_hex]|];
    destruct Hl; by (apply parse_loc_sym || apply parse_loc_label).
Qed.

(** ** Instructions and lines read back *)

Lemma parse_print_insn i rest : wf_insn i -> ends_loc rest -> parse_insn_expr (print_insn i ++ rest) = Some (i, rest).
Proof.
  intros Hi Hr. unfold parse_insn_expr. destruct i as [w|t|t]; cbn [print_insn wf_insn] in *.
  - set (p := print_hex 8 w ++ rest). change (skip_ws p) with p.
    change (keyword "nop" p) with (@None cstr). change (keyword "ret" p) with (@None cstr).
    change (strip_prefix (str "bl ") p) with (@None cstr). change (strip_prefix (str "b ") p) with (@None cstr). cbv iota beta.
    unfold p. rewrite parse_print_hex; [|lia|change (16 ^ Z.of_nat 8) with (2 ^ 32); lia|by apply ends_loc_hex].
    destruct (Z.ltb_spec 0xFFFFFFFF w); [lia|done].
  - rewrite <- app_assoc. set (p := print_loc t ++ rest). change (skip_ws (str "b " ++ p)) with (str "b " ++ p).
    change (keyword "nop" (str "b " ++ p)) with (@None cstr). change (keyword "ret" (str "b " ++ p)) with (@None cstr).
    change (strip_prefix (str "bl ") (str "b " ++ p)) with (@None cstr). rewrite strip_prefix_app. unfold p. by rewrite parse_print_loc.
  - rewrite <- app_assoc. set (p := print_loc t ++ rest). change (skip_ws (str "bl " ++ p)) with (str "bl " ++ p).
    change (keyword "nop" (str "bl " ++ p)) with (@None cstr). change (keyword "ret" (str "bl " ++ p)) with (@None cstr).
    rewrite strip_prefix_app. unfold p. by rewrite parse_print_loc.
Qed.

Lemma parse_print_expect e : match e with Some w => 0 <= w < 2 ^ 32 | None => True end -> parse_expect (print_expect e) = Some e.
Proof.
  intros He. destruct e as [w|]; [|done]. unfold parse_expect. cbn [print_expect].
  change (skip_ws (str " ; expect " ++ ?x)) with (str "; expect " ++ x).
  change (str "; expect " ++ ?x) with (";"%char :: str " expect " ++ x). change (ceq ";" ";") with true. cbv iota.
  change (skip_ws (str " expect " ++ ?x)) with (str "expect " ++ x). cbn [negb]. rewrite strip_prefix_app.
  change (skip_ws (print_hex 8 w)) with (print_hex 8 w).
  pose proof (parse_print_hex 8 w [] ltac:(lia)) as E. rewrite app_nil_r in E. change (16 ^ Z.of_nat 8) with (2 ^ 32) in E.
  rewrite E by done. destruct (Z.ltb_spec 0xFFFFFFFF w); [lia|done].
Qed.

Lemma print_expect_ends e : ends_loc (print_expect e).
Proof. destruct e as [w|]; [|by left]. right. by exists (str "; expect " ++ print_hex 8 w). Qed.

Lemma print_insn_ends i rest : ends_loc (str " " ++ print_insn i ++ rest).
Proof. right. exists (print_insn i ++ rest). split; [done|]. by destruct i. Qed.

Lemma parse_loc_expr_ws s : parse_loc_expr (skip_ws s) = parse_loc_expr s.
Proof.
  unfold parse_loc_expr. replace (skip_ws (skip_ws s)) with (skip_ws s); [done|].
  unfold skip_ws. induction s as [|c s IH]; [done|]. cbn. destruct (_ || _) eqn:E; [done|]. cbn. by rewrite E.
Qed.

Lemma parse_at_print loc insn e :
  wf_line (LINE_AT loc insn e) ->
  parse_at (print_loc loc ++ str " " ++ print_insn insn ++ print_expect e) = Some (LINE_AT loc insn e).
Proof.
  intros (Hl&Hi&He). unfold parse_at.
  rewrite parse_loc_expr_ws, parse_print_loc by (done || apply print_insn_ends).
  assert (Hn : parse_insn_expr (str " " ++ print_insn insn ++ print_expect e) = parse_insn_expr (print_insn insn ++ print_expect e)) by done.
  rewrite Hn, parse_print_insn, parse_print_expect by (done || apply print_expect_ends). done.
Qed.

Lemma parse_let_print n loc : wf_line (LINE_LET n loc) -> parse_let (n ++ str " = " ++ print_loc loc) = Some (LINE_LET n loc).
Proof.
  intros (Hn&Hl&Hs&_&Hloc). unfold parse_let.
  assert (E : skip_ws (n ++ str " = " ++ print_loc loc) = n ++ str " = " ++ print_loc loc).
  { destruct n as [|c n]; [done|]. apply skip_ws_id. apply no_char_head in Hs. unfold let_stop in Hs. by destruct (is_space c). }
  rewrite E. destruct (take_while_stop let_stop n (str " = " ++ print_loc loc) Hs eq_refl) as [E1 E2].
  unfold let_stop in E1, E2. rewrite E1, E2, (proj2 (Nat.ltb_ge _ _)) by done.
  change (skip_ws (str " = " ++ print_loc loc)) with ("="%char :: str " " ++ print_loc loc).
  change (ceq "=" "=") with true. cbn [negb].
  rewrite !parse_loc_expr_ws, <- parse_loc_expr_ws, skip_ws_space, parse_loc_expr_ws.
  pose proof (parse_print_loc loc [] Hloc (or_introl eq_refl)) as P. rewrite app_nil_r in P. by rewrite P.
Qed.

Lemma parse_legacy_print a w : wf_line (LINE_ABS (LOC_ABS a) (INS_RAW w)) ->
  parse_legacy (print_line (LINE_ABS (LOC_ABS a) (INS_RAW w))) = Some (LINE_ABS (LOC_ABS a) (INS_RAW w)).
Proof.
  intros [(?&[= <-]&Ha) (?&[= <-]&Hw)]. unfold parse_legacy. cbn [print_line print_loc print_insn].
  rewrite parse_offset_print by done.
  assert (E : parse_hex_u64 (str " " ++ print_hex 8 w) = parse_hex_u64 (print_hex 8 w ++ [])) by (by rewrite app_nil_r).
  rewrite E, parse_print_hex; [|lia|change (16 ^ Z.of_nat 8) with (2 ^ 32); lia|done].
  destruct (Z.ltb_spec 0xFFFFFFFF w); [lia|]. by rewrite i64_u64_id.
Qed.

(** *** No [#] in a printed line *)

Lemma print_hex_no_hash n v : no_char is_hash (print_hex n v).
Proof. apply no_char_app. split; [by repeat constructor|apply hexn_no_hash]. Qed.

Lemma print_pats_no_hash pats : no_char is_hash (concat (map print_pat pats)).
Proof.
  induction pats as [|p pats IH]; [constructor|]. cbn [map concat]. apply no_char_app. split; [|done].
  apply no_char_app. split; [|by repeat constructor]. apply Forall_forall. intros c Hc. by apply (patn_char _ _ _ _ Hc).
Qed.

Ltac no_hash := repeat (apply no_char_app; split); auto using print_hex_no_hash, hexn_no_hash, print_pats_no_hash; try (by repeat constructor).

Lemma print_loc_no_hash l : wf_loc l -> no_char is_hash (print_loc l).
Proof.
  destruct l; cbn [wf_loc print_loc]; unfold wf_sym, wf_label, print_offset; intuition no_hash.
Qed.

Lemma print_insn_no_hash i : wf_insn i -> no_char is_hash (print_insn i).
Proof. destruct i; cbn [wf_insn print_insn]; intros; no_hash; by apply print_loc_no_hash. Qed.

Lemma print_line_no_hash l : wf_line l -> no_char is_hash (print_line l).
Proof.
  destruct l as [loc i e|n loc|loc i]; cbn [wf_line print_line].
  - intros (Hl&Hi&He). no_hash; auto using print_loc_no_hash, print_insn_no_hash. destruct e; cbn [print_expect]; no_hash.
  - intros (_&_&_&Hn&Hl). no_hash. by apply print_loc_no_hash.
  - intros [(a&->&_) (w&->&_)]. cbn [print_loc print_insn]. no_hash.
Qed.

(** ** The round trip *)

(** C35. Every line of the patch language (absolute, symbol, symbol-and-pattern
    and label locations; raw words and branches; an optional [expect]; labels;
    legacy address/word pairs) that the printer writes is read back by
    [parse_line] as exactly that line. *)
Theorem parse_print_line l : wf_line l -> parse_line (print_line l) = Some (Some l).
Proof.
  intros Hl. unfold parse_line. rewrite strip_comment_id by (by apply print_line_no_hash).
  destruct l as [loc i e|n loc|loc i].
  - cbn [print_line]. set (p := print_loc loc ++ _). change (skip_ws (str "at " ++ p)) with (str "at " ++ p).
    change (looks_legacy (str "at " ++ p)) with false. change (strip_prefix (str "let ") (str "at " ++ p)) with (@None cstr).
    rewrite strip_prefix_app. unfold p. rewrite parse_at_print by done. done.
  - cbn [print_line]. set (p := n ++ _). change (skip_ws (str "let " ++ p)) with (str "let " ++ p).
    change (looks_legacy (str "let " ++ p)) with false. rewrite strip_prefix_app. unfold p. rewrite parse_let_print by done. done.
  - destruct Hl as [(a&->&Ha) (w&->&Hw)]. set (p := print_line _). change (skip_ws p) with p.
    change (looks_legacy p) with true. unfold p. rewrite parse_legacy_print; [done|]. split; eauto.
Qed.

Lemma parse_print_line_witness :
  parse_line (print_line (LINE_AT (LOC_SYM_FIND (str "_main") [(0xFFFF00FF, 0x531F0079)] 0x100) (INS_BL (LOC_LABEL (str "hook") 4)) (Some 0xD65F03C0)))
  = Some (Some (LINE_AT (LOC_SYM_FIND (str "_main") [(0xFFFF00FF, 0x531F0079)] 0x100) (INS_BL (LOC_LABEL (str "hook") 4)) (Some 0xD65F03C0))).
Proof.
  apply parse_print_line.
  assert (Hp : wf_pat (0xFFFF00FF, 0x531F0079)).
  { split; [cbn; lia|]. split; [cbn; lia|].
    apply Forall_forall. intros k Hk. rewrite list_elem_of_In in Hk.
    cbn in Hk. repeat (destruct Hk as [<-|Hk]; [vm_compute; auto|]). done. }
  repeat split; try (cbn; lia); try (by repeat constructor); done.
Defined.

(** The grammar of src/patcher.h lets [find <hexpat>] be followed by an
    instruction without [within]; an instruction that starts with a
    hexadecimal digit ([b], [bl], a raw word) is then taken for another
    pattern word and the line is refused, while the same line with [within]
    is accepted. *)
Theorem find_without_within_refused :
  parse_line (str "at sym:_main find 531F79?? b hook") = None /\
  parse_line (str "at sym:_main find 531F79?? 0xD503201F") = None /\
  parse_line (str "at sym:_main find 531F79?? within 100 b hook") =
    Some (Some (LINE_AT (LOC_SYM_FIND (str "_main") [(0xFFFFFF00, 0x531F7900)] 0x100) (INS_B (LOC_LABEL (str "hook") 0)) None)) /\
  parse_line (str "at sym:_main find 531F79?? nop") =
    Some (Some (LINE_AT (LOC_SYM_FIND (str "_main") [(0xFFFFFF00, 0x531F7900)] 0) (INS_RAW 0xD503201F) None)).
Proof. by vm_compute. Qed.
