(* ===== verification/GuestStack.v ===== *)
(** * The initial stack: src/stack.c

    [setup_stack64] lays out what the guest's start-up code finds at its stack
    pointer: the address of the Mach-O header, the argument count, the argument
    and environment pointers and Darwin's apple[] strings. *)

From S2P Require Import Prelude CStr.

Module GuestStack.

Definition EXECUTABLE_PATH : cstr := str "executable_path=".
Definition SYSTEM_ROOT : cstr := [].

(** What the function reads and writes of [struct load_results]. *)
Record load_results := mk_lr {
  mh : Z; stack_top : Z; kernfd : Z; root_path : option cstr;
  argc : Z; envc : Z; argv : Z; envp : Z; applep : Z;
}.

(** [user_long_count(n)]: words for [n] bytes. *)
Definition user_long_count (n : Z) : Z := (n + 7) / 8.

(** The path the guest sees: at most 4095 bytes of it, without the root. *)
Definition executable_path (filepath : cstr) (root : option cstr) : cstr :=
  let path := firstn 4095 filepath in
  match root with
  | None => path
  | Some root => match strip_prefix root path with Some rest => rest | None => SYSTEM_ROOT ++ path end
  end.

Section stack.
(** [junk]: what a local array holds before it is written; [elfcalls]: the
    address of [_elfcalls]. *)
Context (junk : Z -> Z) (elfcalls : Z).

(** [snprintf(local, n, s); memcpy(dst, local, n)] *)
Definition copy_local (dst n : Z) (s : cstr) (m : bytemem) : bytemem :=
  snprintf_s dst n s (fun x => if (dst <=? x) && (x <? dst + n) then junk (x - dst) else m x).

(** The loops over the argument and environment pointers: copies up to [n]
    pointers from [src] on, stops at a null one; the number copied. *)
Fixpoint copy_pointers (n : nat) (src dst : Z) (m : bytemem) : Z * bytemem :=
  match n with
  | O => (0, m)
  | S n =>
      let p := load 8 src m in
      if p =? 0 then (0, m)
      else let '(k, m) := copy_pointers n (src + 8) (dst + 8) (store 8 dst p m) in (1 + k, m)
  end.

Definition setup_stack64 (filepath : cstr) (lr : load_results) (m : bytemem) : load_results * bytemem :=
  let path := executable_path filepath (root_path lr) in
  let exepath_len := Z.of_nat (length path) in
  let sp := stack_top lr .& Z.lnot 7 in
  let sp := sp - 8 * (1 + 1 + (argc lr + 1) + (envc lr + 1) + 4 + user_long_count (exepath_len + 17 + 12 + 27)) in
  let exepath_user := stack_top lr - exepath_len - 17 in
  let m := put_string exepath_user (EXECUTABLE_PATH ++ path) m in
  let kernfd_user := exepath_user - 12 in
  let m := copy_local kernfd_user 12 (str "kernfd=" ++ print_d (kernfd lr)) m in
  let elfcalls_user := kernfd_user - 27 in
  let m := copy_local elfcalls_user 27 (str "elf_calls=" ++ print_lx elfcalls) m in
  let sp := sp .& Z.lnot 15 in
  let m := store 8 sp (mh lr) m in
  let m := store 8 (sp + 8) (argc lr) m in
  let guest_argv := sp + 16 in
  let '(nargs, m) := copy_pointers (Z.to_nat (argc lr)) (argv lr) guest_argv m in
  let m := store 8 (guest_argv + 8 * nargs) 0 m in
  let guest_envp := guest_argv + 8 * nargs + 8 in
  let '(nenv, m) := copy_pointers (Z.to_nat (envc lr)) (envp lr) guest_envp m in
  let m := store 8 (guest_envp + 8 * nenv) 0 m in
  let guest_applep := guest_envp + 8 * nenv + 8 in
  let m := store 8 guest_applep exepath_user m in
  let m := store 8 (guest_applep + 8) kernfd_user m in
  let m := store 8 (guest_applep + 16) elfcalls_user m in
  let m := store 8 (guest_applep + 24) 0 m in
  (mk_lr (mh lr) sp (kernfd lr) (root_path lr) nargs nenv guest_argv guest_envp guest_applep, m).
End stack.

(** ** What the guest finds *)

(** The words at [a] are [l]. *)
Fixpoint words_at (m : bytemem) (a : Z) (l : list Z) : Prop :=
  match l with [] => True | w :: l => load 8 a m = w /\ words_at m (a + 8) l end.

(** A null-terminated array of the pointers [l]. *)
Definition vector (m : bytemem) (a : Z) (l : list Z) : Prop := words_at m a l /\ Forall (fun p => 0 < p < 2 ^ 64) l.

Definition len (l : list Z) : Z := Z.of_nat (length l).

Lemma pointers_at_app m a l1 l2 : words_at m a (l1 ++ l2) <-> words_at m a l1 /\ words_at m (a + 8 * len l1) l2.
Proof.
  unfold len. revert a. induction l1 as [|w l1 IH]; intros a; cbn [app words_at length].
  - rewrite Z.add_0_r. tauto.
  - rewrite IH. replace (a + 8 + 8 * Z.of_nat (length l1)) with (a + 8 * Z.of_nat (S (length l1))) by lia. tauto.
Qed.

Lemma pointers_at_ext m m' a l : (forall x, a <= x < a + 8 * len l -> m' x = m x) -> words_at m a l -> words_at m' a l.
Proof.
  unfold len. revert a. induction l as [|w l IH]; intros a Hx; [done|]. cbn [words_at length] in *. intros [H1 H2]. split.
  - rewrite (load_ext 8 a m' m); [done|]. intros x Hr. apply Hx. lia.
  - apply IH; [|done]. intros x Hr. apply Hx. lia.
Qed.

(** The copy of a vector that does not overlap it. *)
Lemma copy_pointers_vector l : forall src dst m,
  vector m src l -> src + 8 * len l <= dst \/ dst + 8 * len l <= src ->
  exists m', copy_pointers (length l) src dst m = (len l, m') /\ words_at m' dst l /\
    forall x, ~ dst <= x < dst + 8 * len l -> m' x = m x.
Proof.
  unfold len. induction l as [|p l IH]; intros src dst m [Hw Hp] Hd; [by exists m|].
  cbn [copy_pointers length words_at] in *. destruct Hw as [Hp1 Hw]. apply Forall_cons in Hp as [Hpos Hp]. rewrite Hp1.
  destruct (Z.eqb_spec p 0); [lia|].
  destruct (IH (src + 8) (dst + 8) (store 8 dst p m)) as (m'&->&Hc&Ho).
  - split; [|done]. apply (pointers_at_ext m); [|done]. intros x Hx. apply store_out. unfold len in Hx. lia.
  - lia.
  - exists m'. split; [f_equal; lia|]. split.
    + split; [|done]. rewrite (load_ext 8 dst m' (store 8 dst p m)) by (intros x Hx; apply Ho; lia).
      rewrite load_store_same by lia. apply Z.mod_small. lia.
    + intros x Hx. rewrite Ho by lia. apply store_out. lia.
Qed.

(** ** The block at the stack pointer, word by word *)

Section block.
Context (sp : Z) (m0 : bytemem).

(** The words pushed so far; the rest of memory is [m0]. *)
Definition pushed (m : bytemem) (l : list Z) : Prop :=
  words_at m sp l /\ forall x, ~ sp <= x < sp + 8 * len l -> m x = m0 x.

Lemma len_app l1 l2 : len (l1 ++ l2) = len l1 + len l2.
Proof. unfold len. rewrite length_app. lia. Qed.
Lemma len_pos l : 0 <= len l.
Proof. unfold len. lia. Qed.

Lemma push_word m l a v : pushed m l -> 0 <= v < 2 ^ 64 -> a = sp + 8 * len l -> pushed (store 8 a v m) (l ++ [v]).
Proof.
  intros [Hw Ho] Hv ->. pose proof (len_pos l). split.
  - apply pointers_at_app. split; [apply (pointers_at_ext m); [intros x Hx; apply store_out; lia|done]|].
    split; [|done]. rewrite load_store_same by lia. apply Z.mod_small. lia.
  - intros x Hx. rewrite len_app in Hx. change (len [v]) with 1 in Hx. rewrite store_out by lia. apply Ho. lia.
Qed.

Lemma push_vector m l v src a :
  pushed m l -> vector m0 src v -> a = sp + 8 * len l ->
  src + 8 * len v <= sp \/ sp + 8 * len (l ++ v) <= src ->
  exists m', copy_pointers (length v) src a m = (len v, m') /\ pushed m' (l ++ v).
Proof.
  intros [Hw Ho] [Hv Hp] -> Hd. rewrite len_app in Hd. pose proof (len_pos l). pose proof (len_pos v).
  destruct (copy_pointers_vector v src (sp + 8 * len l) m) as (m'&E&Hc&Hm).
  - split; [|done]. apply (pointers_at_ext m0); [|done]. intros x Hx. apply Ho. lia.
  - lia.
  - exists m'. split; [done|]. split.
    + apply pointers_at_app. split; [|done]. apply (pointers_at_ext m); [|done]. intros x Hx. apply Hm. lia.
    + intros x Hx. rewrite len_app in Hx. rewrite Hm by lia. apply Ho. lia.
Qed.
End block.

(** ** The strings above it *)

Lemma copy_local_out junk d n s m x : 0 < n -> x < d \/ d + n <= x -> copy_local junk d n s m x = m x.
Proof.
  intros Hn Hx. unfold copy_local, snprintf_s. rewrite put_string_out.
  - destruct (Z.leb_spec d x), (Z.ltb_spec x (d + n)); cbn; lia || done.
  - rewrite length_firstn. lia.
Qed.

Lemma copy_local_string junk d n s m k :
  no_nul s -> Z.of_nat (length s) < n -> (length s < k)%nat -> c_string k d (copy_local junk d n s m) = s.
Proof.
  intros Hs Hl Hk. unfold copy_local, snprintf_s. rewrite firstn_all2 by lia. by apply c_string_put.
Qed.

Lemma digit_char_code d : 0 <= d < 16 -> hex_of (digit_char d) = Some d /\ code (digit_char d) <> 0.
Proof.
  intros Hd. pose proof (forallb_seqZ (fun d => match hex_of (digit_char d) with Some x => x =? d | None => false end &&
    negb (code (digit_char d) =? 0)) 0 16 eq_refl d ltac:(lia)) as H. cbv beta in H.
  destruct (hex_of (digit_char d)); [|done]. split; [f_equal; lia|lia].
Qed.

Lemma print_digits_no_nul fuel b v : 2 <= b <= 16 -> 0 <= v -> no_nul (print_digits fuel b v).
Proof.
  intros Hb. revert v. induction fuel as [|fuel IH]; intros v Hv; cbn [print_digits]; [constructor|].
  destruct (Z.ltb_spec v b).
  - constructor; [|constructor]. apply digit_char_code. lia.
  - apply Forall_app. split; [apply IH, Z.div_pos; lia|]. constructor; [|constructor].
    apply digit_char_code. pose proof (Z.mod_pos_bound v b ltac:(lia)). lia.
Qed.

Lemma print_digits_length fuel b v k :
  2 <= b -> 0 <= v < b ^ Z.of_nat k -> (1 <= k)%nat -> (length (print_digits fuel b v) <= k)%nat.
Proof.
  intros Hb. revert v k. induction fuel as [|fuel IH]; intros v k Hv Hk; cbn [print_digits length]; [lia|].
  destruct (Z.ltb_spec v b); [cbn; lia|]. rewrite length_app. cbn [length].
  destruct k as [|[|k]]; [lia|cbn in Hv; lia|].
  enough (length (print_digits fuel b (v / b)) <= S k)%nat by lia. apply IH; [|lia].
  split; [apply Z.div_pos; lia|]. apply Z.div_lt_upper_bound; [lia|]. rewrite <- Z.pow_succ_r by lia.
  replace (Z.succ (Z.of_nat (S k))) with (Z.of_nat (S (S k))) by lia. lia.
Qed.

(** The printed address parses back. *)
Lemma hex_digits_app acc s1 s2 : Forall (fun c => is_hex_digit c = true) s1 ->
  hex_digits acc (s1 ++ s2) = hex_digits (fst (hex_digits acc s1)) s2.
Proof.
  intros H. revert acc. induction H as [|c s1 Hc H IH]; intros acc; [done|]. cbn [app hex_digits].
  unfold is_hex_digit in Hc. destruct (hex_of c); [apply IH|done].
Qed.

Lemma print_lx_digits fuel v : 0 <= v -> Forall (fun c => is_hex_digit c = true) (print_digits fuel 16 v).
Proof.
  revert v. induction fuel as [|fuel IH]; intros v Hv; cbn [print_digits]; [constructor|].
  pose proof (Z.mod_pos_bound v 16 ltac:(lia)). unfold is_hex_digit. destruct (Z.ltb_spec v 16).
  - constructor; [|constructor]. by rewrite (proj1 (digit_char_code v ltac:(lia))).
  - apply Forall_app. split; [apply IH, Z.div_pos; lia|]. constructor; [|constructor].
    by rewrite (proj1 (digit_char_code (v mod 16) ltac:(lia))).
Qed.

Lemma print_lx_value fuel v : 0 <= v < 16 ^ Z.of_nat fuel -> hex_digits 0 (print_digits fuel 16 v) = (v, []).
Proof.
  revert v. induction fuel as [|fuel IH]; intros v Hv; [change (16 ^ Z.of_nat 0) with 1 in Hv; cbn; f_equal; lia|]. cbn [print_digits].
  pose proof (Z.mod_pos_bound v 16 ltac:(lia)). destruct (Z.ltb_spec v 16).
  - cbn [hex_digits]. by rewrite (proj1 (digit_char_code v ltac:(lia))).
  - rewrite hex_digits_app by (apply print_lx_digits, Z.div_pos; lia). rewrite IH.
    + cbn [fst hex_digits]. rewrite (proj1 (digit_char_code (v mod 16) ltac:(lia))). f_equal. pose proof (Z.div_mod v 16). lia.
    + split; [apply Z.div_pos; lia|]. apply Z.div_lt_upper_bound; [lia|]. rewrite <- Z.pow_succ_r by lia.
      replace (Z.succ (Z.of_nat fuel)) with (Z.of_nat (S fuel)) by lia. lia.
Qed.

(** ** The whole layout *)

(** The lowest address the block can start at. *)
Definition stack_low (path : cstr) (lr : load_results) : Z :=
  stack_top lr .& Z.lnot 7 -
  8 * (8 + argc lr + envc lr + user_long_count (Z.of_nat (length path) + 56)) - 15.

(** What a Darwin program finds at [sp]. *)
Record start_block (m : bytemem) (lr : load_results) (path : cstr) (elfcalls : Z) (args envs : list Z) : Prop := {
  sb_aligned : stack_top lr mod 16 = 0;
  sb_counts : argc lr = len args /\ envc lr = len envs;
  sb_argv : argv lr = stack_top lr + 16;
  sb_envp : envp lr = argv lr + 8 * len args + 8;
  sb_applep : applep lr = envp lr + 8 * len envs + 8;
  sb_words : exists e k f,
    words_at m (stack_top lr) ([mh lr; len args] ++ args ++ [0] ++ envs ++ [0] ++ [e; k; f; 0]) /\
    c_string (17 + length path) e m = EXECUTABLE_PATH ++ path /\
    c_string 12 k m = str "kernfd=" ++ print_d (kernfd lr) /\
    c_string 27 f m = str "elf_calls=" ++ print_lx elfcalls /\ hex_digits 0 (print_lx elfcalls) = (elfcalls, []);
}.

Lemma land_lnot7 x : x .& Z.lnot 7 = 8 * (x / 8).
Proof. change 7 with (Z.ones 3). by rewrite land_lnot_ones by lia. Qed.
Lemma land_lnot15 x : x .& Z.lnot 15 = 16 * (x / 16).
Proof. change 15 with (Z.ones 4). by rewrite land_lnot_ones by lia. Qed.

(** The vectors end below the strings. *)
Lemma stack_geometry path lr :
  0 <= argc lr -> 0 <= envc lr ->
  let n := Z.of_nat (length path) in
  let sp := (stack_top lr .& Z.lnot 7 -
    8 * (1 + 1 + (argc lr + 1) + (envc lr + 1) + 4 + user_long_count (n + 17 + 12 + 27))) .& Z.lnot 15 in
  sp mod 16 = 0 /\ stack_low path lr <= sp /\ sp + 8 * (8 + argc lr + envc lr) <= stack_top lr - n - 56.
Proof.
  intros Ha He. cbv zeta. unfold stack_low, user_long_count. rewrite land_lnot15, land_lnot7. set (n := Z.of_nat (length path)).
  replace (n + 17 + 12 + 27) with (n + 56) by lia.
  pose proof (Z.div_mod (stack_top lr) 8 ltac:(lia)). pose proof (Z.mod_pos_bound (stack_top lr) 8 ltac:(lia)).
  pose proof (Z.div_mod (n + 56 + 7) 8 ltac:(lia)). pose proof (Z.mod_pos_bound (n + 56 + 7) 8 ltac:(lia)).
  set (x := 8 * (stack_top lr / 8) - _). pose proof (Z.div_mod x 16 ltac:(lia)). pose proof (Z.mod_pos_bound x 16 ltac:(lia)).
  split; [rewrite Z.mul_comm; apply Z.mod_mul; lia|]. subst x. lia.
Qed.

Lemma c_string_same n a m m' : (forall x, a <= x -> m x = m' x) -> c_string n a m = c_string n a m'.
Proof. intros H. apply c_string_ext. intros x Hx. apply H. lia. Qed.

(** The strings as they are written, and the area they take. *)
Lemma strings_above junk elfcalls path lr m :
  no_nul path -> -1000 < kernfd lr < 10000 -> 0 <= elfcalls < 2 ^ 64 ->
  let n := Z.of_nat (length path) in
  let e := stack_top lr - n - 17 in let k := e - 12 in let f := k - 27 in
  let m3 := copy_local junk f 27 (str "elf_calls=" ++ print_lx elfcalls)
    (copy_local junk k 12 (str "kernfd=" ++ print_d (kernfd lr)) (put_string e (EXECUTABLE_PATH ++ path) m)) in
  (forall m', (forall x, e <= x -> m' x = m3 x) -> c_string (17 + length path) e m' = EXECUTABLE_PATH ++ path) /\
  (forall m', (forall x, k <= x -> m' x = m3 x) -> c_string 12 k m' = str "kernfd=" ++ print_d (kernfd lr)) /\
  (forall m', (forall x, f <= x -> m' x = m3 x) -> c_string 27 f m' = str "elf_calls=" ++ print_lx elfcalls) /\
  (forall x, ~ f <= x < stack_top lr -> m3 x = m x).
Proof.
  intros Hp Hk Hf. cbv zeta. set (n := Z.of_nat (length path)). set (e := stack_top lr - n - 17).
  assert (Hlp : length (EXECUTABLE_PATH ++ path) = (16 + length path)%nat) by (by rewrite length_app).
  assert (Hnp : no_nul (EXECUTABLE_PATH ++ path)).
  { apply Forall_app. split; [|done]. repeat (constructor; [vm_compute; discriminate|]). constructor. }
  assert (Hnk : no_nul (str "kernfd=" ++ print_d (kernfd lr)) /\ (length (str "kernfd=" ++ print_d (kernfd lr)) < 12)%nat).
  { unfold print_d. destruct (Z.ltb_spec (kernfd lr) 0).
    { pose proof (print_digits_length 20 10 (- kernfd lr) 3 ltac:(lia) ltac:(lia) ltac:(lia)). split; [|cbn [length app str String.list_ascii_of_string]; lia].
      apply Forall_app. split; [repeat (constructor; [vm_compute; discriminate|]); constructor|].
      constructor; [vm_compute; discriminate|]. apply print_digits_no_nul; lia. }
    split.
    - apply Forall_app. split; [repeat (constructor; [vm_compute; discriminate|]); constructor|apply print_digits_no_nul; lia].
    - rewrite length_app. pose proof (print_digits_length 20 10 (kernfd lr) 4 ltac:(lia) ltac:(lia) ltac:(lia)). cbn [length str String.list_ascii_of_string]. lia. }
  assert (Hnf : no_nul (str "elf_calls=" ++ print_lx elfcalls) /\ (length (str "elf_calls=" ++ print_lx elfcalls) < 27)%nat).
  { unfold print_lx. split.
    - apply Forall_app. split; [repeat (constructor; [vm_compute; discriminate|]); constructor|apply print_digits_no_nul; lia].
    - rewrite length_app. pose proof (print_digits_length 16 16 elfcalls 16 ltac:(lia) ltac:(lia) ltac:(lia)). cbn [length str String.list_ascii_of_string]. lia. }
  set (m1 := put_string e _ m). set (m2 := copy_local junk (e - 12) _ _ m1). set (m3 := copy_local junk (e - 12 - 27) _ _ m2).
  assert (O3 : forall x, e - 12 <= x -> m3 x = m2 x) by (intros x Hx; apply copy_local_out; lia).
  assert (O2 : forall x, e <= x -> m2 x = m1 x) by (intros x Hx; apply copy_local_out; lia).
  split; [|split; [|split]].
  - intros m' H. rewrite (c_string_same _ e m' m1); [apply c_string_put; [done|lia]|]. intros x Hx. rewrite H, O3, O2 by lia. done.
  - intros m' H. rewrite (c_string_same _ _ m' m2); [apply copy_local_string; [tauto|lia|lia]|]. intros x Hx. rewrite H, O3 by lia. done.
  - intros m' H. rewrite (c_string_same _ _ m' m3); [apply copy_local_string; [tauto|lia|lia]|]. intros x Hx. by apply H.
  - intros x Hx. subst m3 m2 m1. rewrite !copy_local_out by lia. apply put_string_out. subst e. lia.
Qed.

(** Positions in the block. *)
Ltac count := rewrite ?len_app in *; unfold len in *; cbn [length app] in *; lia.

(** C39. The initial stack is the one Darwin gives a program: at a 16-byte
    aligned stack pointer, the Mach-O header, the argument count, the
    arguments and the environment (each null-terminated, the pointers the
    loader got) and the apple[] vector, whose strings name the executable (less
    the root prefix), the kernel descriptor (which [main] sets to -1) and the
    address of the call table in a form that parses back to it; the vectors and the strings do not run
    into each other, and nothing outside the new stack area changes. *)
Theorem setup_stack_layout junk elfcalls filepath lr m args envs :
  let path := executable_path filepath (root_path lr) in
  no_nul path -> argc lr = len args -> envc lr = len envs ->
  vector m (argv lr) args -> vector m (envp lr) envs ->
  argv lr + 8 * len args <= stack_low path lr \/ stack_top lr <= argv lr ->
  envp lr + 8 * len envs <= stack_low path lr \/ stack_top lr <= envp lr ->
  0 <= stack_low path lr -> stack_top lr < 2 ^ 63 -> -1000 < kernfd lr < 10000 -> 0 <= elfcalls < 2 ^ 64 -> 0 <= mh lr < 2 ^ 64 ->
  let '(lr', m') := setup_stack64 junk elfcalls filepath lr m in
  start_block m' lr' path elfcalls args envs /\ mh lr' = mh lr /\ kernfd lr' = kernfd lr /\
  stack_low path lr <= stack_top lr' /\ forall x, ~ stack_top lr' <= x < stack_top lr -> m' x = m x.
Proof.
  cbv zeta. set (path := executable_path filepath (root_path lr)). unfold setup_stack64. cbv zeta. fold path.
  intros Hpath Hac Hec Hav Hev Ha He Hlow Htop Hfd Hcalls Hmh.
  destruct (stack_geometry path lr) as (Hsp16&Hsplo&Hspf); [rewrite Hac; apply len_pos|rewrite Hec; apply len_pos|].
  set (n := Z.of_nat (length path)) in *. set (e := stack_top lr - n - 17). set (k := e - 12). set (f := k - 27).
  destruct (strings_above junk elfcalls path lr m Hpath Hfd Hcalls) as (Hs1&Hs2&Hs3&Hso). fold n in Hs1, Hs2, Hs3, Hso. fold e k f in Hs1, Hs2, Hs3, Hso.
  set (m3 := copy_local junk f _ _ _) in *. set (sp := (_ - _) .& Z.lnot 15) in *.
  pose proof (len_pos args). pose proof (len_pos envs).
  assert (Hv1 : vector m3 (argv lr) args).
  { destruct Hav. split; [|done]. apply (pointers_at_ext m); [|done]. intros x Hx. apply Hso. lia. }
  assert (Hv2 : vector m3 (envp lr) envs).
  { destruct Hev. split; [|done]. apply (pointers_at_ext m); [|done]. intros x Hx. apply Hso. lia. }
  assert (P0 : pushed sp m3 m3 []) by (split; [done|by intros]).
  clearbody sp. pose proof (push_word sp m3 m3 [] sp (mh lr) P0 Hmh ltac:(count)) as P1.
  pose proof (push_word sp m3 _ _ (sp + 8) (argc lr) P1 ltac:(lia) ltac:(count)) as P2. rewrite Hac, Hec in *.
  destruct (push_vector sp m3 _ _ args (argv lr) (sp + 16) P2 Hv1) as (m4&E1&P3); [count|count|].
  replace (Z.to_nat (len args)) with (length args) by (unfold len; lia). rewrite E1.
  pose proof (push_word sp m3 _ _ (sp + 16 + 8 * len args) 0 P3 ltac:(lia) ltac:(count)) as P4.
  destruct (push_vector sp m3 _ _ envs (envp lr) (sp + 16 + 8 * len args + 8) P4 Hv2) as (m5&E2&P5); [count|count|].
  replace (Z.to_nat (len envs)) with (length envs) by (unfold len; lia). rewrite E2.
  pose proof (push_word sp m3 _ _ (sp + 16 + 8 * len args + 8 + 8 * len envs) 0 P5 ltac:(lia) ltac:(count)) as P6.
  set (ap := sp + 16 + 8 * len args + 8 + 8 * len envs + 8).
  pose proof (push_word sp m3 _ _ ap e P6 ltac:(subst e; lia) ltac:(subst ap; count)) as P7.
  pose proof (push_word sp m3 _ _ (ap + 8) k P7 ltac:(subst e k; lia) ltac:(subst ap; count)) as P8.
  pose proof (push_word sp m3 _ _ (ap + 16) f P8 ltac:(subst e k f; lia) ltac:(subst ap; count)) as P9.
  pose proof (push_word sp m3 _ _ (ap + 24) 0 P9 ltac:(lia) ltac:(subst ap; count)) as [Hw Ho].
  assert (Ho' : forall x, f <= x -> store 8 (ap + 24) 0 (store 8 (ap + 16) f (store 8 (ap + 8) k (store 8 ap e
    (store 8 (sp + 16 + 8 * len args + 8 + 8 * len envs) 0 m5)))) x = m3 x) by (intros x Hx; apply Ho; subst e k f; count).
  split; [|split; [done|split; [done|split; [done|]]]]; cbn [stack_top].
  - constructor; cbn [stack_top argc envc argv envp applep mh kernfd]; try done.
    exists e, k, f. rewrite <- !app_assoc in Hw. split; [exact Hw|].
    split; [apply Hs1; intros x Hx; apply Ho'; lia|]. split; [apply Hs2; intros x Hx; apply Ho'; lia|].
    split; [by apply Hs3|]. apply print_lx_value. lia.
  - intros x Hx. rewrite Ho by (subst e k f; count). apply Hso. subst e k f. lia.
Qed.

(** Two arguments and one variable, a root to strip. *)
Definition sample_lr : load_results := mk_lr 0x100000000 0x9005 (-1) (Some (str "/root")) 2 1 0x1000 0x1100 0.
Definition sample_mem : bytemem := store 8 0x1100 0x300 (store 8 0x1008 0x200 (store 8 0x1000 0x100 (fun _ => 0))).

Lemma setup_stack_layout_witness :
  executable_path (str "/root/bin/app") (root_path sample_lr) = str "/bin/app" /\
  let '(lr', m') := setup_stack64 (fun _ => 0) 0x7f00beef (str "/root/bin/app") sample_lr sample_mem in
  start_block m' lr' (str "/bin/app") 0x7f00beef [0x100; 0x200] [0x300].
Proof.
  split; [reflexivity|].
  pose proof (setup_stack_layout (fun _ => 0) 0x7f00beef (str "/root/bin/app") sample_lr sample_mem [0x100; 0x200] [0x300]) as H.
  destruct (setup_stack64 _ _ _ _ _) as [lr' m']. apply H.
  - repeat (constructor; [vm_compute; discriminate|]). constructor.
  - reflexivity.
  - reflexivity.
  - split; [vm_compute; tauto|]. constructor; [lia|]. constructor; [lia|]. constructor.
  - split; [vm_compute; tauto|]. constructor; [lia|]. constructor.
  - left. vm_compute. discriminate.
  - left. vm_compute. discriminate.
  - vm_compute. discriminate.
  - reflexivity.
  - cbn. lia.
  - lia.
  - split; [vm_compute; discriminate|reflexivity].
Defined.
End GuestStack.
