(* ===== verification/Config.v ===== *)
(** * The configuration file: src/config.c, src/config.h

    [config_load] on the contents of the file.  A [char*] field is an option:
    NULL until it is set.  [cur_tramp] and [cur_dylib_patch] are null or point
    at the entry added last, so a cursor says which. *)

From S2P Require Import Prelude CStr.

Module Config.

Definition CONFIG_MAX_TRAMPOLINES : nat := 8.
Definition CONFIG_MAX_PREFIXES : nat := 8.
Definition CONFIG_MAX_DYLIB_PATCHES : nat := 8.

Record machgate_trampoline_config := mk_tramp {
  t_name : cstr; t_lib : option cstr; t_prefixes : list cstr; t_init_wrapper : bool;
  t_renderer : option cstr; t_override_lib : option cstr; t_match_local : bool;
}.
Record machgate_dylib_patch_config := mk_dp { dp_dylib : cstr; dp_patches : option cstr }.
Record machgate_config := mk_cfg {
  c_dylib_map : option cstr; c_patches : option cstr;
  c_trampolines : list machgate_trampoline_config; c_dylib_patches : list machgate_dylib_patch_config;
}.

Inductive cursor := AtGeneral | AtTrampoline | AtDylibPatch.

Definition strip (s : cstr) : cstr := drop_trailing is_space (drop_while is_space s).

Fixpoint on_last {A} (f : A -> A) (l : list A) : list A :=
  match l with [] => [] | [a] => [f a] | a :: l => a :: on_last f l end.

Definition truth (val : cstr) : bool := streq val (str "true") || streq val (str "1").

(** A section header, without its brackets. *)
Definition section_line (s : cstr) (cfg : machgate_config) : cursor * machgate_config :=
  if streq s (str "general") then (AtGeneral, cfg)
  else match strip_prefix (str "trampoline.") s with
  | Some name =>
      if (length (c_trampolines cfg) <? CONFIG_MAX_TRAMPOLINES)%nat
      then (AtTrampoline, mk_cfg (c_dylib_map cfg) (c_patches cfg)
              (c_trampolines cfg ++ [mk_tramp name None [] false None None false]) (c_dylib_patches cfg))
      else (AtGeneral, cfg)
  | None =>
      match strip_prefix (str "dylib_patch.") s with
      | Some name =>
          if (length (c_dylib_patches cfg) <? CONFIG_MAX_DYLIB_PATCHES)%nat
          then (AtDylibPatch, mk_cfg (c_dylib_map cfg) (c_patches cfg) (c_trampolines cfg) (c_dylib_patches cfg ++ [mk_dp name None]))
          else (AtGeneral, cfg)
      | None => (AtGeneral, cfg)
      end
  end.

(** A key of a trampoline section. *)
Definition tramp_key (key val : cstr) (t : machgate_trampoline_config) : machgate_trampoline_config :=
  let '(mk_tramp name lib prefixes init_wrapper renderer override_lib match_local) := t in
  if streq key (str "lib") then mk_tramp name (Some val) prefixes init_wrapper renderer override_lib match_local
  else if streq key (str "prefix") then
    if (length prefixes <? CONFIG_MAX_PREFIXES)%nat
    then mk_tramp name lib (prefixes ++ [val]) init_wrapper renderer override_lib match_local else t
  else if streq key (str "init_wrapper") then mk_tramp name lib prefixes (truth val) renderer override_lib match_local
  else if streq key (str "renderer") then mk_tramp name lib prefixes init_wrapper (Some val) override_lib match_local
  else if streq key (str "override_lib") then mk_tramp name lib prefixes init_wrapper renderer (Some val) match_local
  else if streq key (str "match_local") then mk_tramp name lib prefixes init_wrapper renderer override_lib (truth val)
  else t.

Definition key_line (cur : cursor) (key val : cstr) (cfg : machgate_config) : machgate_config :=
  match cur with
  | AtDylibPatch =>
      if streq key (str "patches")
      then mk_cfg (c_dylib_map cfg) (c_patches cfg) (c_trampolines cfg)
             (on_last (fun d => mk_dp (dp_dylib d) (Some val)) (c_dylib_patches cfg))
      else cfg
  | AtTrampoline =>
      mk_cfg (c_dylib_map cfg) (c_patches cfg) (on_last (tramp_key key val) (c_trampolines cfg)) (c_dylib_patches cfg)
  | AtGeneral =>
      if streq key (str "dylib_map") then mk_cfg (Some val) (c_patches cfg) (c_trampolines cfg) (c_dylib_patches cfg)
      else if streq key (str "patches") then mk_cfg (c_dylib_map cfg) (Some val) (c_trampolines cfg) (c_dylib_patches cfg)
      else cfg
  end.

(** One turn of the loop. *)
Definition config_line (st : cursor * machgate_config) (line : cstr) : cursor * machgate_config :=
  let '(cur, cfg) := st in
  match strip (cut_nul line) with
  | [] => (cur, cfg)
  | (c :: rest) as s =>
      if ceq c "#" || ceq c ";" then (cur, cfg)
      else if ceq c "[" then
        match split_char "]" rest with
        | None => (cur, cfg)
        | Some (name, _) => section_line name cfg
        end
      else match split_char "=" s with
           | None => (cur, cfg)
           | Some (key, val) => (cur, key_line cur (strip key) (strip val) cfg)
           end
  end.

Definition empty_config : machgate_config := mk_cfg None None [] [].

(** [None]: the file cannot be opened. *)
Definition config_load (content : option cstr) : option machgate_config :=
  match content with
  | None => None
  | Some content => Some (snd (fold_left config_line (file_lines 512 content) (AtGeneral, empty_config)))
  end.

(** [config_free] leaves the structure empty. *)
Definition config_free (cfg : machgate_config) : machgate_config := empty_config.

(** ** A printer *)

Definition print_key (key val : cstr) : cstr := key ++ str " = " ++ val.
Definition opt_key (key : string) (v : option cstr) : list (cstr * cstr) :=
  match v with Some v => [(str key, v)] | None => [] end.
Definition flag_key (key : string) (b : bool) : list (cstr * cstr) := if b then [(str key, str "true")] else [].

(** The keys of each section. *)
Definition tramp_keys (t : machgate_trampoline_config) : list (cstr * cstr) :=
  opt_key "lib" (t_lib t) ++ map (fun v => (str "prefix", v)) (t_prefixes t) ++ flag_key "init_wrapper" (t_init_wrapper t) ++
  opt_key "renderer" (t_renderer t) ++ opt_key "override_lib" (t_override_lib t) ++ flag_key "match_local" (t_match_local t).
Definition general_keys (cfg : machgate_config) : list (cstr * cstr) :=
  opt_key "dylib_map" (c_dylib_map cfg) ++ opt_key "patches" (c_patches cfg).

Definition print_section (name : cstr) (keys : list (cstr * cstr)) : list cstr :=
  (str "[" ++ name ++ str "]") :: map (fun kv => print_key (fst kv) (snd kv)) keys.
Definition print_config (cfg : machgate_config) : list cstr :=
  print_section (str "general") (general_keys cfg) ++
  flat_map (fun t => print_section (str "trampoline." ++ t_name t) (tramp_keys t)) (c_trampolines cfg) ++
  flat_map (fun d => print_section (str "dylib_patch." ++ dp_dylib d) (opt_key "patches" (dp_patches d))) (c_dylib_patches cfg).
Definition config_file (cfg : machgate_config) : cstr := concat (map (fun b => b ++ [NL]) (print_config cfg)).

Definition plain (c : ascii) : Prop := c <> NL /\ code c <> 0.

(** A value: it fits in a line and does not start or end with a space. *)
Record value_ok (v : cstr) : Prop := {
  vo_plain : Forall plain v;
  vo_strip : strip v = v;
  vo_len : (length v <= 490)%nat;
}.
Definition header_chars (n : cstr) : Prop := Forall (fun c => plain c /\ c <> "]"%char) n.
Definition name_ok (n : cstr) : Prop := header_chars n /\ (length n <= 490)%nat.
Definition opt_ok (v : option cstr) : Prop := match v with Some v => value_ok v | None => True end.

Record tramp_ok (t : machgate_trampoline_config) : Prop := {
  to_name : name_ok (t_name t);
  to_lib : opt_ok (t_lib t);
  to_prefixes : Forall value_ok (t_prefixes t) /\ (length (t_prefixes t) <= CONFIG_MAX_PREFIXES)%nat;
  to_renderer : opt_ok (t_renderer t);
  to_override : opt_ok (t_override_lib t);
}.
Record config_ok (cfg : machgate_config) : Prop := {
  co_map : opt_ok (c_dylib_map cfg);
  co_patches : opt_ok (c_patches cfg);
  co_trampolines : Forall tramp_ok (c_trampolines cfg) /\ (length (c_trampolines cfg) <= CONFIG_MAX_TRAMPOLINES)%nat;
  co_dylib_patches : Forall (fun d => name_ok (dp_dylib d) /\ opt_ok (dp_patches d)) (c_dylib_patches cfg) /\
                     (length (c_dylib_patches cfg) <= CONFIG_MAX_DYLIB_PATCHES)%nat;
}.

(** ** Lines of the printer *)

Lemma drop_trailing_mid f a c b : f c = false -> drop_trailing f (a ++ c :: b) = a ++ c :: drop_trailing f b.
Proof.
  intros H. induction a as [|d a IH]; cbn [app drop_trailing].
  - destruct (drop_trailing f b); [by rewrite H|done].
  - rewrite IH. by destruct a.
Qed.

Lemma drop_while_trailing f s : drop_while f (drop_trailing f s) = drop_trailing f (drop_while f s).
Proof.
  induction s as [|c s IH]; [done|]. cbn [drop_trailing drop_while]. destruct (f c) eqn:E.
  - rewrite <- IH. destruct (drop_trailing f s) as [|d r] eqn:Ed; [done|]. cbn [drop_while]. by rewrite E.
  - cbn [drop_trailing]. destruct (drop_trailing f s) as [|d r]; cbn [drop_while]; by rewrite E.
Qed.

Lemma drop_trailing_idem f s : drop_trailing f (drop_trailing f s) = drop_trailing f s.
Proof.
  induction s as [|c s IH]; [done|]. cbn [drop_trailing]. destruct (drop_trailing f s) as [|d r] eqn:E.
  - destruct (f c) eqn:Ec; [done|]. cbn. by rewrite Ec.
  - cbn [drop_trailing] in *. by rewrite IH.
Qed.

Lemma strip_trailing s : strip (drop_trailing is_space s) = strip s.
Proof. unfold strip. by rewrite drop_while_trailing, drop_trailing_idem. Qed.

(** A key of the file: letters, so it is not a comment or a header and has no
    [=]. *)
Definition key_ok (key : cstr) : bool :=
  match key with
  | c :: _ => negb (ceq c "#" || ceq c ";" || ceq c "[")
  | [] => false
  end && forallb (fun c => negb (ceq c "=") && negb (is_space c) && negb (code c =? 0)) key.

Lemma key_ok_chars key : key_ok key = true ->
  Forall (fun c => c <> "="%char) key /\ Forall (fun c => is_space c = false) key /\ Forall (fun c => code c <> 0) key.
Proof.
  unfold key_ok. intros H. apply andb_prop in H as [_ H]. rewrite forallb_forall in H.
  split; [|split]; apply Forall_forall; intros c Hc%list_elem_of_In; specialize (H c Hc); apply andb_prop in H as [H H3];
    apply andb_prop in H as [H1 H2]; [|by apply negb_true_iff|lia].
  intros ->. done.
Qed.

Lemma config_key_line cur cfg key v :
  key_ok key = true -> value_ok v -> config_line (cur, cfg) (print_key key v ++ [NL]) = (cur, key_line cur key v cfg).
Proof.
  intros Hk [Hp Hs _]. destruct (key_ok_chars key Hk) as (H1&H2&H3). unfold config_line.
  rewrite cut_nul_id.
  2: { unfold print_key. rewrite <- !app_assoc. repeat (apply Forall_app; split); try done.
       - repeat (constructor; [vm_compute; discriminate|]). constructor.
       - eapply Forall_impl; [exact Hp|]. intros c [_ Hc]. exact Hc.
       - constructor; [vm_compute; discriminate|constructor]. }
  assert (E : strip (print_key key v ++ [NL]) = key ++ " "%char :: "="%char :: drop_trailing is_space (" "%char :: v)).
  { unfold strip, print_key. destruct key as [|c key]; [done|]. apply Forall_cons in H2 as [Hc _]. cbn [app drop_while]. rewrite Hc.
    replace (c :: ((key ++ str " = " ++ v) ++ [NL])) with ((c :: key ++ [" "%char]) ++ "="%char :: (" "%char :: v) ++ [NL])
      by (cbn; by rewrite <- !app_assoc).
    rewrite drop_trailing_mid by done. rewrite drop_trailing_app by (by constructor). cbn. by rewrite <- app_assoc. }
  rewrite E. destruct key as [|c key]; [done|]. cbn [app]. unfold key_ok in Hk. apply andb_prop in Hk as [Hk _].
  apply negb_true_iff, orb_false_elim in Hk as [Hk ->]. rewrite Hk.
  replace (c :: key ++ " "%char :: "="%char :: drop_trailing is_space (" "%char :: v))
    with ((c :: key ++ [" "%char]) ++ "="%char :: drop_trailing is_space (" "%char :: v)) by (cbn; by rewrite <- app_assoc).
  rewrite split_char_app.
  2: { change (c :: key ++ [" "%char]) with ((c :: key) ++ [" "%char]). apply Forall_app. split; [done|]. by constructor. }
  f_equal. f_equal.
  - unfold strip. apply Forall_cons in H2 as [Hc H2]. cbn [drop_while]. rewrite Hc.
    change (c :: key ++ [" "%char]) with ((c :: key) ++ [" "%char]). rewrite drop_trailing_app by (by constructor).
    destruct (rev (c :: key)) as [|l r] eqn:Er; [apply (f_equal (@length _)) in Er; by rewrite length_rev in Er|].
    assert (Hl : c :: key = rev r ++ [l]) by (rewrite <- (rev_involutive (c :: key)), Er; done).
    rewrite Hl. apply drop_trailing_last. assert (Forall (fun c => is_space c = false) (c :: key)) as Hall by (by constructor).
    rewrite Hl in Hall. apply Forall_app in Hall as [_ Hall]. by apply Forall_cons in Hall as [Hall _].
  - rewrite strip_trailing. unfold strip in *. cbn [drop_while]. done.
Qed.

Lemma config_header_line cur cfg name :
  header_chars name -> config_line (cur, cfg) ((str "[" ++ name ++ str "]") ++ [NL]) = section_line name cfg.
Proof.
  intros Hn. unfold config_line. rewrite cut_nul_id.
  2: { repeat (apply Forall_app; split); try (constructor; [vm_compute; discriminate|constructor]).
       eapply Forall_impl; [exact Hn|]. intros c [[_ Hc] _]. exact Hc. }
  assert (E : strip ((str "[" ++ name ++ str "]") ++ [NL]) = "["%char :: name ++ ["]"%char]).
  { unfold strip. cbn [str String.list_ascii_of_string app drop_while].
    change (is_space "[") with false. cbv iota. change ("["%char :: (name ++ ["]"%char]) ++ [NL]) with (("["%char :: name ++ ["]"%char]) ++ [NL]).
    rewrite drop_trailing_app by (by constructor). change ("["%char :: name ++ ["]"%char]) with (("["%char :: name) ++ ["]"%char]).
    by apply drop_trailing_last. }
  rewrite E. cbn [ceq]. change (ceq "[" "#" || ceq "[" ";") with false. change (ceq "[" "[") with true. cbv iota.
  rewrite split_char_app; [done|]. eapply Forall_impl; [exact Hn|]. by intros c [_ Hc].
Qed.

(** ** The round trip *)

Definition run (st : cursor * machgate_config) (ls : list cstr) : cursor * machgate_config :=
  fold_left config_line (map (fun b => b ++ [NL]) ls) st.

Lemma run_app st l1 l2 : run st (l1 ++ l2) = run (run st l1) l2.
Proof. unfold run. by rewrite map_app, fold_left_app. Qed.

Definition keys_ok (keys : list (cstr * cstr)) : Prop := Forall (fun kv => key_ok (fst kv) = true /\ value_ok (snd kv)) keys.

Lemma run_section st name keys :
  header_chars name -> keys_ok keys ->
  run st (print_section name keys) =
  (fst (section_line name (snd st)),
   fold_left (fun cfg kv => key_line (fst (section_line name (snd st))) (fst kv) (snd kv) cfg) keys (snd (section_line name (snd st)))).
Proof.
  intros Hn Hk. destruct st as [cur cfg]. unfold run, print_section. cbn [map fold_left snd]. rewrite config_header_line by done.
  destruct (section_line name cfg) as [cur' cfg']. cbn [fst snd]. revert cfg'.
  induction Hk as [|kv keys [H1 H2] Hk IH]; intros cfg'; [done|]. cbn [map fold_left]. rewrite config_key_line by done. apply IH.
Qed.

Lemma on_last_app {A} (f : A -> A) l a : on_last f (l ++ [a]) = l ++ [f a].
Proof. induction l as [|b l IH]; [done|]. cbn [app on_last]. rewrite IH. by destruct l. Qed.

(** The keys of a section act on its entry. *)
Lemma keys_on_tramp m p ds l keys : forall t,
  fold_left (fun cfg kv => key_line AtTrampoline (fst kv) (snd kv) cfg) keys (mk_cfg m p (l ++ [t]) ds) =
  mk_cfg m p (l ++ [fold_left (fun t kv => tramp_key (fst kv) (snd kv) t) keys t]) ds.
Proof.
  induction keys as [|kv keys IH]; intros t; [done|]. cbn [fold_left key_line c_dylib_map c_patches c_trampolines c_dylib_patches].
  rewrite on_last_app. apply IH.
Qed.

Lemma prefixes_added name lib init rend over ml vs : forall acc,
  (length (acc ++ vs) <= CONFIG_MAX_PREFIXES)%nat ->
  fold_left (fun t kv => tramp_key (fst kv) (snd kv) t) (map (fun v => (str "prefix", v)) vs) (mk_tramp name lib acc init rend over ml) =
  mk_tramp name lib (acc ++ vs) init rend over ml.
Proof.
  induction vs as [|v vs IH]; intros acc Hl; [by rewrite app_nil_r|]. cbn [map fold_left fst snd]. unfold tramp_key at 2.
  change (streq (str "prefix") (str "lib")) with false. change (streq (str "prefix") (str "prefix")) with true. cbv iota.
  rewrite length_app in Hl. cbn [length] in Hl. destruct (Nat.ltb_spec (length acc) CONFIG_MAX_PREFIXES); [|lia].
  rewrite IH; [by rewrite <- app_assoc|]. rewrite !length_app. cbn [length]. lia.
Qed.

Lemma tramp_keys_rebuild t :
  (length (t_prefixes t) <= CONFIG_MAX_PREFIXES)%nat ->
  fold_left (fun t kv => tramp_key (fst kv) (snd kv) t) (tramp_keys t) (mk_tramp (t_name t) None [] false None None false) = t.
Proof.
  intros Hl. unfold tramp_keys. rewrite !fold_left_app. destruct t as [name lib prefixes init rend over ml].
  cbn [t_name t_lib t_prefixes t_init_wrapper t_renderer t_override_lib t_match_local] in *.
  assert (E1 : fold_left (fun t kv => tramp_key (fst kv) (snd kv) t) (opt_key "lib" lib) (mk_tramp name None [] false None None false) =
               mk_tramp name lib [] false None None false) by (by destruct lib).
  rewrite E1, prefixes_added by done. cbn [app]. by destruct init, rend, over, ml.
Qed.

Lemma opt_keys_ok key v : key_ok (str key) = true -> opt_ok v -> keys_ok (opt_key key v).
Proof. intros Hk Hv. destruct v; [|constructor]. constructor; [done|constructor]. Qed.

Lemma flag_keys_ok key b : key_ok (str key) = true -> keys_ok (flag_key key b).
Proof.
  intros Hk. destruct b; [|constructor]. constructor; [|constructor]. split; [done|].
  constructor; [|reflexivity|cbn; lia]. repeat (constructor; [split; [discriminate|vm_compute; discriminate]|]). constructor.
Qed.

Lemma tramp_keys_ok t : tramp_ok t -> keys_ok (tramp_keys t).
Proof.
  intros [_ Hlib [Hp _] Hr Ho]. unfold tramp_keys, keys_ok. repeat (apply Forall_app; split).
  - by apply opt_keys_ok.
  - apply Forall_map. eapply Forall_impl; [exact Hp|]. intros v Hv. by split.
  - by apply flag_keys_ok.
  - by apply opt_keys_ok.
  - by apply opt_keys_ok.
  - by apply flag_keys_ok.
Qed.

Lemma header_app a b : header_chars a -> header_chars b -> header_chars (a ++ b).
Proof. intros Ha Hb. apply Forall_app. by split. Qed.

(** A literal has no bracket, newline or NUL. *)
Lemma header_literal s : forallb (fun c => negb (ceq c "]") && negb (ceq c NL) && negb (code c =? 0)) s = true -> header_chars s.
Proof.
  intros H. rewrite forallb_forall in H. apply Forall_forall. intros c Hc%list_elem_of_In. specialize (H c Hc).
  apply andb_prop in H as [H H3]. apply andb_prop in H as [H1 H2].
  split; [split|]; [intros ->; done|lia|intros ->; done].
Qed.

Lemma run_trampolines m p ds ts : forall cur l,
  Forall tramp_ok ts -> (length (l ++ ts) <= CONFIG_MAX_TRAMPOLINES)%nat ->
  snd (run (cur, mk_cfg m p l ds) (flat_map (fun t => print_section (str "trampoline." ++ t_name t) (tramp_keys t)) ts)) =
  mk_cfg m p (l ++ ts) ds.
Proof.
  induction ts as [|t ts IH]; intros cur l Hok Hl; cbn [flat_map]; [cbn; by rewrite app_nil_r|].
  apply Forall_cons in Hok as [Ht Hok]. rewrite length_app in Hl. cbn [length] in Hl.
  rewrite run_app, run_section; [|apply header_app; [by apply header_literal|apply Ht]|by apply tramp_keys_ok]. cbn [snd].
  assert (E : section_line (str "trampoline." ++ t_name t) (mk_cfg m p l ds) =
    (AtTrampoline, mk_cfg m p (l ++ [mk_tramp (t_name t) None [] false None None false]) ds)).
  { unfold section_line. rewrite strip_prefix_app. cbn [c_dylib_map c_patches c_trampolines c_dylib_patches].
    destruct (Nat.ltb_spec (length l) CONFIG_MAX_TRAMPOLINES); [|lia]. unfold streq. by rewrite bool_decide_false. }
  rewrite E. cbn [fst snd]. rewrite keys_on_tramp, tramp_keys_rebuild by apply Ht.
  rewrite IH; [by rewrite <- app_assoc|done|]. rewrite !length_app. cbn [length]. lia.
Qed.

Lemma run_dylib_patches m p ts ds : forall cur l,
  Forall (fun d => name_ok (dp_dylib d) /\ opt_ok (dp_patches d)) ds -> (length (l ++ ds) <= CONFIG_MAX_DYLIB_PATCHES)%nat ->
  snd (run (cur, mk_cfg m p ts l) (flat_map (fun d => print_section (str "dylib_patch." ++ dp_dylib d) (opt_key "patches" (dp_patches d))) ds)) =
  mk_cfg m p ts (l ++ ds).
Proof.
  induction ds as [|d ds IH]; intros cur l Hok Hl; cbn [flat_map]; [cbn; by rewrite app_nil_r|].
  apply Forall_cons in Hok as [[Hn Hv] Hok]. rewrite length_app in Hl. cbn [length] in Hl.
  rewrite run_app, run_section; [|apply header_app; [by apply header_literal|apply Hn]|by apply opt_keys_ok]. cbn [snd].
  assert (E : section_line (str "dylib_patch." ++ dp_dylib d) (mk_cfg m p ts l) =
    (AtDylibPatch, mk_cfg m p ts (l ++ [mk_dp (dp_dylib d) None]))).
  { unfold section_line. rewrite strip_prefix_app. cbn [c_dylib_map c_patches c_trampolines c_dylib_patches].
    destruct (Nat.ltb_spec (length l) CONFIG_MAX_DYLIB_PATCHES); [|lia]. unfold streq. by rewrite bool_decide_false. }
  rewrite E. cbn [fst snd].
  assert (E2 : fold_left (fun cfg kv => key_line AtDylibPatch (fst kv) (snd kv) cfg) (opt_key "patches" (dp_patches d))
    (mk_cfg m p ts (l ++ [mk_dp (dp_dylib d) None])) = mk_cfg m p ts (l ++ [d])).
  { destruct d as [n [v|]]; [|done]. cbn. by rewrite on_last_app. }
  rewrite E2, IH; [by rewrite <- app_assoc|done|]. rewrite !length_app. cbn [length]. lia.
Qed.

(** Every printed line is short and has no newline. *)
Definition line_ok (b : cstr) : Prop := Forall (fun c => c <> NL) b /\ (length b + 2 <= 512)%nat.

Lemma section_lines_ok name keys :
  header_chars name -> (length name <= 503)%nat -> keys_ok keys -> Forall (fun kv => (length (fst kv) <= 12)%nat) keys ->
  Forall line_ok (print_section name keys).
Proof.
  intros Hn Hl Hk Hs. constructor.
  - split; [|rewrite !length_app; cbn [length str String.list_ascii_of_string]; lia].
    repeat (apply Forall_app; split); [by constructor| |by constructor]. eapply Forall_impl; [exact Hn|]. by intros c [[Hc _] _].
  - apply Forall_map. rewrite Forall_forall in Hs. apply Forall_forall. intros kv Hkv. specialize (Hs kv Hkv).
    unfold keys_ok in Hk. rewrite Forall_forall in Hk. destruct (Hk kv Hkv) as [H1 [Hp _ Hv]]. unfold print_key. split.
    + apply key_ok_chars in H1 as (_&H1&_). repeat (apply Forall_app; split).
      * eapply Forall_impl; [exact H1|]. intros c Hc ->. done.
      * repeat (constructor; [discriminate|]). constructor.
      * eapply Forall_impl; [exact Hp|]. by intros c [Hc _].
    + rewrite !length_app. cbn [length str String.list_ascii_of_string]. lia.
Qed.

Lemma print_config_ok cfg : config_ok cfg -> Forall line_ok (print_config cfg).
Proof.
  intros [Hm Hp [Ht _] [Hd _]]. unfold print_config.
  assert (Hflat : forall A (f : A -> list cstr) l, Forall (fun a => Forall line_ok (f a)) l -> Forall line_ok (flat_map f l)).
  { intros A f l H. induction H as [|a l Ha H IH]; [constructor|]. cbn. apply Forall_app. by split. }
  repeat (apply Forall_app; split).
  - apply section_lines_ok; [by apply header_literal|cbn; lia| |].
    + apply Forall_app. split; by apply opt_keys_ok.
    + unfold general_keys. destruct (c_dylib_map cfg), (c_patches cfg); repeat (constructor; [cbn; lia|]); constructor.
  - apply Hflat. eapply Forall_impl; [exact Ht|]. intros t Hto. pose proof (to_name _ Hto) as [Hn Hl].
    apply section_lines_ok; [apply header_app; [by apply header_literal|done]|rewrite length_app; cbn; lia|by apply tramp_keys_ok|].
    unfold tramp_keys. repeat (apply Forall_app; split); try (by destruct (t_lib t), (t_init_wrapper t), (t_renderer t), (t_override_lib t), (t_match_local t);
      repeat (constructor; [cbn; lia|]); constructor).
    apply Forall_map. apply Forall_forall. intros v _. cbn. lia.
  - apply Hflat. eapply Forall_impl; [exact Hd|]. intros d [[Hn Hl] Hv].
    apply section_lines_ok; [apply header_app; [by apply header_literal|done]|rewrite length_app; cbn; lia|by apply opt_keys_ok|].
    destruct (dp_patches d); repeat (constructor; [cbn; lia|]); constructor.
Qed.

(** A configuration is what its file says: printing a configuration in the
    documented format (the general section, a section per trampoline and per
    patched library, a key per line) and loading the file gives back exactly
    that configuration, up to the documented limits of eight sections of each
    kind, eight prefixes per trampoline and lines shorter than the buffer. *)
Theorem config_round_trip cfg : config_ok cfg -> config_load (Some (config_file cfg)) = Some cfg.
Proof.
  intros Hok. unfold config_load, config_file. rewrite file_lines_concat by (by apply print_config_ok). f_equal.
  fold (run (AtGeneral, empty_config) (print_config cfg)). destruct Hok as [Hm Hp [Ht Htl] [Hd Hdl]].
  unfold print_config. rewrite !run_app, run_section.
  - cbn [snd]. change (section_line (str "general") empty_config) with (AtGeneral, empty_config). cbn [fst snd].
    assert (E : fold_left (fun c kv => key_line AtGeneral (fst kv) (snd kv) c) (general_keys cfg) empty_config =
                mk_cfg (c_dylib_map cfg) (c_patches cfg) [] []).
    { unfold general_keys. by destruct (c_dylib_map cfg), (c_patches cfg). }
    rewrite E. pose proof (run_trampolines (c_dylib_map cfg) (c_patches cfg) [] (c_trampolines cfg) AtGeneral [] Ht Htl) as H1.
    destruct (run (AtGeneral, _) _) as [cur c1]. cbn [snd app] in H1. subst c1.
    rewrite run_dylib_patches by done. by destruct cfg.
  - by apply header_literal.
  - apply Forall_app. split; by apply opt_keys_ok.
Qed.

Definition sample_config : machgate_config :=
  mk_cfg (Some (str "dylib_map.conf")) None
    [mk_tramp (str "sdl2") (Some (str "libSDL2-2.0.so.0")) [str "_SDL_"; str "_IMG_"] true None None false]
    [mk_dp (str "libfbxsdk.dylib") (Some (str "patches/fbxsdk.conf"))].

Lemma value_literal v : forallb (fun c => negb (ceq c NL) && negb (code c =? 0)) v = true -> strip v = v -> (length v <= 490)%nat -> value_ok v.
Proof.
  intros H Hs Hl. constructor; [|done|done]. rewrite forallb_forall in H. apply Forall_forall. intros c Hc%list_elem_of_In.
  specialize (H c Hc). apply andb_prop in H as [H1 H2]. split; [intros ->; done|lia].
Qed.

Lemma config_round_trip_witness : config_load (Some (config_file sample_config)) = Some sample_config.
Proof.
  apply config_round_trip. constructor; cbn [c_dylib_map c_patches c_trampolines c_dylib_patches sample_config opt_ok].
  - apply value_literal; [reflexivity|reflexivity|cbn; lia].
  - exact I.
  - split; [|cbn; unfold CONFIG_MAX_TRAMPOLINES; lia]. constructor; [|constructor].
    constructor; cbn [t_name t_lib t_prefixes t_renderer t_override_lib opt_ok]; try exact I.
    + split; [apply header_literal; reflexivity|cbn; lia].
    + apply value_literal; [reflexivity|reflexivity|cbn; lia].
    + split; [|cbn; unfold CONFIG_MAX_PREFIXES; lia]. constructor; [apply value_literal; [reflexivity|reflexivity|cbn; lia]|].
      constructor; [apply value_literal; [reflexivity|reflexivity|cbn; lia]|constructor].
  - split; [|cbn; unfold CONFIG_MAX_DYLIB_PATCHES; lia]. constructor; [|constructor].
    split; [split; [apply header_literal; reflexivity|cbn; lia]|apply value_literal; [reflexivity|reflexivity|cbn; lia]].
Defined.

(** A section the program has no room for, or does not know, is not skipped:
    its keys count as general ones. *)
Example unknown_section_is_general :
  config_load (Some (config_file (mk_cfg None (Some (str "main.conf")) [] []) ++ str "[unknown]" ++ [NL] ++ str "patches = other.conf" ++ [NL])) =
  Some (mk_cfg None (Some (str "other.conf")) [] []).
Proof. vm_compute. reflexivity. Qed.
End Config.
