(* ===== verification/ResolveNames.v ===== *)
(** * Names of imported symbols: src/resolver.c

    What the resolver reads off a symbol's spelling: the name to look up on
    the Linux side, whether it is a constructor, an allocation operator, data,
    and the spellings a C++ symbol may have on the other platform. *)

From S2P Require Import Prelude CStr.

Definition one_of (l : list string) (s : cstr) : bool := existsb (fun x => streq s (str x)) l.

(** [strstr(s, needle)]: the suffix of [s] at the first occurrence. *)
Fixpoint strstr (s needle : cstr) : option cstr :=
  if starts_with needle s then Some s
  else match s with [] => None | _ :: s => strstr s needle end.
Definition contains (needle : string) (s : cstr) : bool :=
  match strstr s (str needle) with Some _ => true | None => false end.

(** ** The name to look up *)

Definition strip_underscore (s : cstr) : cstr :=
  match s with c :: s' => if ceq c "_" then s' else s | [] => [] end.

(** Cut at the first [$] unless [_] follows it or the rest does not fit the
    256-byte buffer. *)
Definition strip_dollar (s : cstr) : cstr :=
  let head := take_while (fun c => negb (ceq c "$")) s in
  match drop_while (fun c => negb (ceq c "$")) s with
  | [] => s
  | _ :: rest =>
      if match rest with c :: _ => ceq c "_" | [] => false end then s
      else if (length head <? 256)%nat then head else s
  end.

Definition lookup_name_of (sym_name : cstr) : cstr := strip_dollar (strip_underscore sym_name).

(** ** Allocation operators *)

Definition normalize_cxx_operator_symbol (s : cstr) : cstr :=
  match s with
  | a :: b :: _ => if ceq a "_" && ceq b "_" then tail s else s
  | _ => s
  end.

Definition is_operator_new_symbol (s : cstr) : bool :=
  one_of ["_Znwm"; "_Znam"; "_ZnwmRKSt9nothrow_t"; "_ZnamRKSt9nothrow_t"] (normalize_cxx_operator_symbol s).

Definition is_operator_new_aligned_symbol (s : cstr) : bool :=
  one_of ["_ZnwmSt11align_val_t"; "_ZnamSt11align_val_t"; "_ZnwmSt11align_val_tRKSt9nothrow_t";
          "_ZnamSt11align_val_tRKSt9nothrow_t"] (normalize_cxx_operator_symbol s).

Definition is_operator_delete_symbol (s : cstr) : bool :=
  one_of ["_ZdlPv"; "_ZdaPv"; "_ZdlPvm"; "_ZdaPvm"; "_ZdlPvRKSt9nothrow_t"; "_ZdaPvRKSt9nothrow_t";
          "_ZdlPvSt11align_val_t"; "_ZdaPvSt11align_val_t"; "_ZdlPvmSt11align_val_t"; "_ZdaPvmSt11align_val_t";
          "_ZdlPvSt11align_val_tRKSt9nothrow_t"; "_ZdaPvSt11align_val_tRKSt9nothrow_t"]
         (normalize_cxx_operator_symbol s).

Definition is_cxx_operator_symbol (s : cstr) : bool :=
  is_operator_new_symbol s || is_operator_new_aligned_symbol s || is_operator_delete_symbol s.

(** ** Constructors and destructors *)

(** The rest of the name after the first [C0E] .. [D2E]. *)
Fixpoint after_ctor_mark (p : cstr) : option cstr :=
  match p with
  | [] => None
  | a :: p' =>
      match p' with
      | b :: e :: rest =>
          if (ceq a "C" || ceq a "D") && (ceq b "0" || ceq b "1" || ceq b "2") && ceq e "E"
          then Some rest else after_ctor_mark p'
      | _ => after_ctor_mark p'
      end
  end.

Definition is_ctor_or_dtor (name : cstr) : bool :=
  let p := strip_underscore name in
  if starts_with (str "_Z") p then match after_ctor_mark p with Some _ => true | None => false end else false.

Definition is_float_code (c : ascii) : bool := ceq c "f" || ceq c "d".
Definition is_int_code (c : ascii) : bool := existsb (ceq c) (str "ijlmxycsbahtw").

Fixpoint count_params (p : cstr) (float_count int_count : Z) : bool :=
  match p with
  | [] => (8 <? float_count) || (7 <? int_count)
  | c :: p =>
      if is_float_code c then count_params p (float_count + 1) int_count
      else if is_int_code c then count_params p float_count (int_count + 1)
      else (8 <? float_count) || (7 <? int_count)
  end.

Definition ctor_has_stack_params (name : cstr) : bool :=
  let p := strip_underscore name in
  if starts_with (str "_Z") p then
    match after_ctor_mark p with
    | None | Some [] => false
    | Some (c :: params) => if ceq c "v" then false else count_params (c :: params) 0 0
    end
  else false.

(** ** Other tables *)

(** [strncmp(body, "OBJC_METACLASS_$_", 18)] compares the terminator too. *)
Definition is_likely_data_symbol (sym_name : cstr) : bool :=
  match sym_name with
  | u :: body =>
      if negb (ceq u "_") then false
      else if starts_with (str "OBJC_CLASS_$_") body then false
      else if streq body (str "OBJC_METACLASS_$_") then false
      else match body with
           | c :: _ => ceq c "_" || ((65 <=? code c) && (code c <=? 90))
           | [] => false
           end
  | [] => false
  end.

Definition is_shim_objc_class_symbol (s : cstr) : bool :=
  match strstr s (str "OBJC_CLASS_$_") with
  | Some marker => (length marker =? length s)%nat || (S (length marker) =? length s)%nat
  | None => false
  end.

Definition is_darwin_runtime_symbol (s : cstr) : bool :=
  starts_with (str "pthread_") s ||
  one_of ["mmap"; "munmap"; "mprotect"; "sigaction"; "sigaltstack"; "popen"; "pclose"; "dlsym"] s.

Definition is_darwin_allocator_symbol (s : cstr) : bool :=
  one_of ["malloc"; "free"; "calloc"; "realloc"; "posix_memalign"; "memalign"; "aligned_alloc"; "valloc";
          "malloc_size"; "malloc_good_size"; "malloc_default_zone"; "malloc_create_zone"; "malloc_destroy_zone";
          "malloc_set_zone_name"; "malloc_get_zone_name"; "malloc_zone_from_ptr"; "malloc_get_all_zones";
          "malloc_num_zones"; "malloc_zones"; "malloc_zone_malloc"; "malloc_zone_calloc"; "malloc_zone_valloc";
          "malloc_zone_realloc"; "malloc_zone_free"; "malloc_zone_destroy"; "malloc_zone_size";
          "malloc_zone_batch_malloc"; "malloc_zone_batch_free"; "malloc_zone_memalign";
          "malloc_zone_free_definite_size"; "malloc_zone_pressure_relief"; "malloc_zone_claimed_address";
          "malloc_zone_malloc_with_options"; "malloc_zone_register"; "malloc_zone_unregister"] s.

(** ** Spellings of a mangled name *)

(** The first [n] positions of [c] in [s], counted from [i]. *)
Fixpoint char_positions (c : ascii) (n i : nat) (s : cstr) : list nat :=
  match s with
  | [] => []
  | x :: s =>
      match n with
      | O => []
      | S n' => if ceq x c then i :: char_positions c n' (S i) s else char_positions c n (S i) s
      end
  end.

(** [buf] is [name] with the positions selected by [mask] overwritten; [j] is
    the index of the first position of [pos]. *)
Fixpoint substitute (pos : list nat) (j mask : Z) (to : ascii) (buf : cstr) : cstr :=
  match pos with
  | [] => buf
  | p :: pos => substitute pos (j + 1) mask to (if nz (mask .& (1 .<< j)) then <[p := to]> buf else buf)
  end.

(** The masks 1, 2, ... in order. *)
Definition first_variant (dls : cstr -> Z) (pos : list nat) (to : ascii) (name : cstr) : Z :=
  match List.find (fun mask => nz (dls (substitute pos 0 mask to name)))
                  (seqZ 1 (2 ^ Z.of_nat (length pos) - 1)) with
  | Some mask => dls (substitute pos 0 mask to name)
  | None => 0
  end.

(** [dls] is [dlsym] of the library; [buf_ok]: the buffer could be allocated. *)
Definition try_mangling_variants (dls : cstr -> Z) (buf_ok : bool) (name : cstr) : Z :=
  let special := if streq name (str "_ZNSt3__120__libcpp_atomic_waitEPVKvx")
                 then dls (str "_ZNSt3__120__libcpp_atomic_waitEPVKvi") else 0 in
  if nz special then special
  else if negb buf_ok then 0
  else
    let a := first_variant dls (char_positions "y" 16 0 name) "m" name in
    if nz a then a else first_variant dls (char_positions "m" 16 0 name) "y" name.

(** The first [y] or [m] becomes the other one. *)
Fixpoint swap_first_ym (s : cstr) : cstr :=
  match s with
  | [] => []
  | c :: s => if ceq c "y" then "m"%char :: s else if ceq c "m" then "y"%char :: s else c :: swap_first_ym s
  end.

(** ** The variants are the spellings *)

(** [v] is [s] with some of its [from] changed into [to]. *)
Definition respelled (from to : ascii) (s v : cstr) : Prop :=
  Forall2 (fun a b => b = a \/ (a = from /\ b = to)) s v.

Inductive spelling (name : cstr) : cstr -> Prop :=
| spell_y_m v : respelled "y" "m" name v -> v <> name -> spelling name v
| spell_m_y v : respelled "m" "y" name v -> v <> name -> spelling name v
| spell_wait : name = str "_ZNSt3__120__libcpp_atomic_waitEPVKvx" ->
    spelling name (str "_ZNSt3__120__libcpp_atomic_waitEPVKvi").

(** Some position of [pos] equal to [p] is selected. *)
Definition selected (pos : list nat) (j mask : Z) (p : nat) : Prop :=
  exists k, pos !! k = Some p /\ Z.testbit mask (j + Z.of_nat k) = true.

Lemma nz_bit mask j : 0 <= j -> nz (mask .& (1 .<< j)) = Z.testbit mask j.
Proof. intros Hj. rewrite Z.shiftl_1_l. by apply nz_land_pow2. Qed.

Lemma length_substitute pos j mask to buf : length (substitute pos j mask to buf) = length buf.
Proof.
  revert j buf. induction pos as [|p pos IH]; intros j buf; [done|]. cbn [substitute]. rewrite IH.
  destruct (nz _); [apply length_insert|done].
Qed.

Lemma substitute_unselected pos j mask to buf p :
  0 <= j -> ~ selected pos j mask p -> substitute pos j mask to buf !! p = buf !! p.
Proof.
  revert j buf. induction pos as [|q pos IH]; intros j buf Hj Hs; [done|]. cbn [substitute]. rewrite IH; [|lia|].
  - rewrite nz_bit by done. destruct (Z.testbit mask j) eqn:E; [|done]. apply list_lookup_insert_ne. intros <-.
    apply Hs. exists 0%nat. split; [done|]. by rewrite Z.add_0_r.
  - intros (k&Hk&Hb). apply Hs. exists (S k). split; [done|]. rewrite <- Hb. f_equal. lia.
Qed.

Lemma substitute_selected pos j mask to buf p :
  0 <= j -> selected pos j mask p -> (p < length buf)%nat -> substitute pos j mask to buf !! p = Some to.
Proof.
  revert j buf. induction pos as [|q pos IH]; intros j buf Hj (k&Hk&Hb) Hp; [done|]. cbn [substitute].
  assert (Hl : (p < length (if nz (mask .& (1 .<< j)) then <[q := to]> buf else buf))%nat).
  { destruct (nz _); [by rewrite length_insert|done]. }
  assert (Hd : selected pos (j + 1) mask p \/ ~ selected pos (j + 1) mask p).
  { destruct (decide (Exists (fun k => pos !! k = Some p /\ Z.testbit mask (j + 1 + Z.of_nat k) = true) (seq 0 (length pos)))) as [H|H].
    - left. apply Exists_exists in H as (i&_&H). by exists i.
    - right. intros (i&Hi&Hbi). apply H, Exists_exists. exists i. split; [|done].
      apply elem_of_seq. apply lookup_lt_Some in Hi. lia. }
  destruct Hd as [Hd|Hd]; [apply IH; [lia|done|done]|]. rewrite substitute_unselected by (lia || done).
  destruct k as [|k].
  - injection Hk as ->. rewrite Z.add_0_r in Hb. rewrite nz_bit, Hb by done. by apply list_lookup_insert_eq.
  - exfalso. apply Hd. exists k. split; [done|]. rewrite <- Hb. f_equal. lia.
Qed.

Lemma mask_of_pred n (P : nat -> bool) :
  exists mask, 0 <= mask < 2 ^ Z.of_nat n /\ forall k, (k < n)%nat -> Z.testbit mask (Z.of_nat k) = P k.
Proof.
  induction n as [|n (mask&Hr&Hm)]; [exists 0; split; [cbn; lia|lia]|].
  exists (mask + b2z (P n) * 2 ^ Z.of_nat n).
  assert (Hp : 2 ^ Z.of_nat (S n) = 2 * 2 ^ Z.of_nat n) by (rewrite Nat2Z.inj_succ; apply Z.pow_succ_r; lia).
  split; [destruct (P n); cbn [b2z]; lia|]. intros k Hk.
  destruct (decide (k = n)) as [->|Hne].
  - rewrite Z.testbit_eqb by lia. rewrite Z.div_add, Z.div_small by lia. destruct (P n); done.
  - rewrite <- (Hm k ltac:(lia)). rewrite <- (Z.mod_pow2_bits_low (mask + _) (Z.of_nat n)) by lia.
    rewrite Z.mod_add, Z.mod_pow2_bits_low by lia. done.
Qed.

Lemma char_positions_spec c n i s p :
  (length (List.filter (ceq c) s) <= n)%nat ->
  In p (char_positions c n i s) <-> (i <= p)%nat /\ s !! (p - i)%nat = Some c.
Proof.
  revert n i. induction s as [|x s IH]; intros n i Hn; cbn [char_positions List.filter] in *; [split; [done|intros [_ H]; done]|].
  assert (Hsym : ceq x c = ceq c x) by (unfold ceq; apply Ascii.eqb_sym).
  destruct n as [|n]; rewrite ?Hsym.
  - destruct (ceq c x) eqn:E; cbn in Hn; [lia|].
    assert (Hno : forall q, s !! q = Some c -> False).
    { intros q Hq. assert (In c (List.filter (ceq c) s)) as Hin.
      { apply filter_In. split; [apply list_elem_of_In; by eapply list_elem_of_lookup_2|]. apply Ascii.eqb_refl. }
      destruct (List.filter (ceq c) s); [done|cbn in Hn; lia]. }
    split; [done|]. intros [Hi Hl]. destruct (p - i)%nat as [|q] eqn:Eq; cbn in Hl.
    + injection Hl as ->. unfold ceq in E. by rewrite Ascii.eqb_refl in E.
    + by apply Hno in Hl.
  - destruct (ceq c x) eqn:E; cbn [In length] in *.
    + apply Ascii.eqb_eq in E as <-. rewrite IH by lia. split.
      * intros [<-|[H1 H2]]; [by rewrite Nat.sub_diag|]. split; [lia|].
        replace (p - i)%nat with (S (p - S i)) by lia. done.
      * intros [H1 H2]. destruct (decide (i = p)) as [|Hne]; [by left|right]. split; [lia|].
        replace (p - i)%nat with (S (p - S i)) in H2 by lia. done.
    + rewrite IH by lia. split.
      * intros [H1 H2]. split; [lia|]. replace (p - i)%nat with (S (p - S i)) by lia. done.
      * intros [H1 H2]. destruct (decide (i = p)) as [<-|Hne].
        { rewrite Nat.sub_diag in H2. cbn in H2. injection H2 as ->. unfold ceq in E. by rewrite Ascii.eqb_refl in E. }
        split; [lia|]. replace (p - i)%nat with (S (p - S i)) in H2 by lia. done.
Qed.

Section variants.
Context (dls : cstr -> Z) (from to : ascii) (Hft : from <> to) (name : cstr).
Context (Hn : (length (List.filter (ceq from) name) <= 16)%nat).
Notation pos := (char_positions from 16 0 name).

Lemma positions_spec p : In p pos <-> name !! p = Some from.
Proof. rewrite char_positions_spec by done. rewrite Nat.sub_0_r. split; [tauto|]. split; [lia|done]. Qed.

Lemma substitute_respelled mask : respelled from to name (substitute pos 0 mask to name).
Proof.
  apply Forall2_same_length_lookup_2; [by rewrite length_substitute|]. intros p a b Ha Hb.
  destruct (decide (b = a)) as [|Hne]; [by left|right].
  assert (Hs : ~ ~ selected pos 0 mask p).
  { intros H. rewrite substitute_unselected, Ha in Hb by done. by injection Hb. }
  assert (Hsel : exists k, pos !! k = Some p).
  { destruct (decide (p ∈ pos)) as [H|H].
    - apply list_elem_of_lookup in H as [k H]. by exists k.
    - exfalso. apply Hs. intros (k&Hk&_). apply H. by eapply list_elem_of_lookup_2. }
  destruct Hsel as [k Hk]. assert (Hin : In p pos) by (apply list_elem_of_In; by eapply list_elem_of_lookup_2).
  apply positions_spec in Hin. rewrite Ha in Hin. injection Hin as ->. split; [done|].
  destruct (decide (substitute pos 0 mask to name !! p = Some to)) as [H|H]; [rewrite Hb in H; by injection H|].
  exfalso. apply Hs. intros H'. apply H. apply substitute_selected; [done|done|]. by eapply lookup_lt_Some.
Qed.

(** Every respelling has a mask. *)
Lemma respelled_mask v :
  respelled from to name v -> v <> name ->
  exists mask, 1 <= mask < 2 ^ Z.of_nat (length pos) /\ substitute pos 0 mask to name = v.
Proof.
  intros Hv Hne.
  destruct (mask_of_pred (length pos) (fun k => match pos !! k with Some p => bool_decide (v !! p = Some to) | None => false end))
    as (mask&Hr&Hm). exists mask.
  assert (Hsub : substitute pos 0 mask to name = v).
  { apply list_eq. intros p. destruct (name !! p) as [a|] eqn:Ea.
    - destruct (Forall2_lookup_l _ _ _ _ _ Hv Ea) as (b&Eb&Hb).
      destruct (decide (a = from)) as [->|Ha].
      + assert (Hin : In p pos) by (by apply positions_spec).
        apply list_elem_of_In, list_elem_of_lookup in Hin as [k Hk]. pose proof (lookup_lt_Some _ _ _ Hk) as Hlt.
        destruct (decide (b = to)) as [->|Hb'].
        * rewrite Eb. apply substitute_selected; [done| |by eapply lookup_lt_Some]. exists k. split; [done|].
          rewrite Z.add_0_l, Hm, Hk by done. by apply bool_decide_eq_true.
        * rewrite substitute_unselected; [destruct Hb as [->|[_ ->]]; [congruence|done]|done|].
          intros (i&Hi&Hbi). pose proof (lookup_lt_Some _ _ _ Hi) as Hlt'. rewrite Z.add_0_l, Hm, Hi in Hbi by done.
          apply bool_decide_eq_true in Hbi. congruence.
      + rewrite substitute_unselected; [destruct Hb as [->|[-> _]]; [congruence|done]|done|].
        intros (i&Hi&_). apply Ha. assert (Hin : In p pos) by (apply list_elem_of_In; by eapply list_elem_of_lookup_2).
        apply positions_spec in Hin. congruence.
    - rewrite lookup_ge_None_2; [|rewrite length_substitute; by apply lookup_ge_None]. symmetry. apply lookup_ge_None_2.
      rewrite <- (Forall2_length _ _ _ Hv). by apply lookup_ge_None. }
  split; [|done]. assert (mask <> 0); [|lia]. intros ->. apply Hne. rewrite <- Hsub. clear.
  apply list_eq. intros p. apply substitute_unselected; [done|]. intros (k&_&H). by rewrite Z.bits_0 in H.
Qed.

Lemma first_variant_spec :
  let r := first_variant dls pos to name in
  (r <> 0 -> exists v, respelled from to name v /\ v <> name /\ dls v = r) /\
  (forall v, respelled from to name v -> v <> name -> dls v <> 0 -> r <> 0).
Proof.
  unfold first_variant. destruct (List.find _ _) as [mask|] eqn:E; cbn zeta.
  - apply find_some in E as [Hin E]. apply list_elem_of_In, elem_of_seqZ in Hin. split.
    + intros Hr. exists (substitute pos 0 mask to name). split; [apply substitute_respelled|]. split; [|done].
      intros Heq.
      assert (Hbit : exists k, (k < length pos)%nat /\ Z.testbit mask (Z.of_nat k) = true).
      { destruct (decide (Exists (fun k => Z.testbit mask (Z.of_nat k) = true) (seq 0 (length pos)))) as [H|H].
        - apply Exists_exists in H as (k&Hk&H). exists k. apply elem_of_seq in Hk. split; [lia|done].
        - exfalso. assert (mask = 0); [|lia]. apply Z.bits_inj'. intros i Hi. rewrite Z.bits_0.
          destruct (decide (i < Z.of_nat (length pos))) as [Hlt|Hge].
          + destruct (Z.testbit mask i) eqn:Eb; [|done]. exfalso. apply H, Exists_exists. exists (Z.to_nat i).
            split; [apply elem_of_seq; lia|]. by rewrite Z2Nat.id.
          + apply Z.bits_above_log2; [lia|]. apply Z.log2_lt_pow2; [lia|].
            eapply Z.lt_le_trans; [apply Hin|]. replace (1 + (2 ^ Z.of_nat (length pos) - 1)) with (2 ^ Z.of_nat (length pos)) by lia.
            apply Z.pow_le_mono_r; lia. }
      destruct Hbit as (k&Hk&Hb). destruct (lookup_lt_is_Some_2 _ _ Hk) as [p Hp].
      assert (Hpn : name !! p = Some from).
      { apply positions_spec, list_elem_of_In. by eapply list_elem_of_lookup_2. }
      assert (Hpt : substitute pos 0 mask to name !! p = Some to).
      { apply substitute_selected; [done| |by eapply lookup_lt_Some]. exists k. by rewrite Z.add_0_l. }
      rewrite Heq in Hpt. congruence.
    + intros _ _ _ _. unfold nz in E. by destruct (Z.eqb_spec (dls (substitute pos 0 mask to name)) 0).
  - split; [done|]. intros v Hv Hne Hd. destruct (respelled_mask v Hv Hne) as (mask&Hm&Hsub).
    pose proof (find_none _ _ E mask) as Hf. cbn beta in Hf. rewrite Hsub in Hf.
    assert (nz (dls v) = false) as Hz by (apply Hf, list_elem_of_In, elem_of_seqZ; lia).
    unfold nz in Hz. by destruct (Z.eqb_spec (dls v) 0).
Qed.
End variants.

(** The mangling fallback is exact.  For a name with at most 16 [y] and 16
    [m], the fallback answers an address iff the library defines some spelling
    of the name, and the address is that spelling's: a spelling changes any
    set of [y] into [m], or of [m] into [y], or is the one known exception. *)
Theorem mangling_variants_exact dls name :
  (length (List.filter (ceq "y") name) <= 16)%nat -> (length (List.filter (ceq "m") name) <= 16)%nat ->
  let r := try_mangling_variants dls true name in
  (r <> 0 -> exists v, spelling name v /\ dls v = r) /\ (forall v, spelling name v -> dls v <> 0 -> r <> 0).
Proof.
  intros Hy Hm. unfold try_mangling_variants. cbn [negb].
  destruct (first_variant_spec dls "y" "m" ltac:(done) name Hy) as [Y1 Y2].
  destruct (first_variant_spec dls "m" "y" ltac:(done) name Hm) as [M1 M2].
  set (ry := first_variant dls (char_positions "y" 16 0 name) "m" name) in *.
  set (rm := first_variant dls (char_positions "m" 16 0 name) "y" name) in *. cbv zeta.
  destruct (streq name _) eqn:Es.
  - apply bool_decide_eq_true in Es. destruct (nz (dls _)) eqn:Ew.
    + split; [intros _; eexists; split; [by apply spell_wait|done]|]. intros _ _ _. unfold nz in Ew. by destruct (_ =? 0) eqn:E0; [|apply Z.eqb_neq in E0].
    + destruct (nz ry) eqn:Ey; split.
      * intros Hr. destruct (Y1 Hr) as (v&Hv&Hne&E). exists v. split; [by apply spell_y_m|done].
      * intros _ _ _ E0. by rewrite E0 in Ey.
      * intros Hr. destruct (M1 Hr) as (v&Hv&Hne&E). exists v. split; [by apply spell_m_y|done].
      * intros v [w Hw Hne|w Hw Hne|_] Hd; [|by eapply M2|].
        { apply (Y2 w Hw Hne) in Hd. unfold nz in Ey. by destruct (Z.eqb_spec ry 0). }
        unfold nz in Ew. by destruct (Z.eqb_spec (dls (str "_ZNSt3__120__libcpp_atomic_waitEPVKvi")) 0).
  - cbn [nz Z.eqb negb]. apply bool_decide_eq_false in Es. change (nz 0) with false. cbv iota. destruct (nz ry) eqn:Ey; split.
    + intros Hr. destruct (Y1 Hr) as (v&Hv&Hne&E). exists v. split; [by apply spell_y_m|done].
    + intros _ _ _ E0. by rewrite E0 in Ey.
    + intros Hr. destruct (M1 Hr) as (v&Hv&Hne&E). exists v. split; [by apply spell_m_y|done].
    + intros v [w Hw Hne|w Hw Hne|E] Hd; [|by eapply M2|done].
      apply (Y2 w Hw Hne) in Hd. unfold nz in Ey. by destruct (Z.eqb_spec ry 0).
Qed.

(** [foo(unsigned long long)] against a library that has [foo(unsigned long)]. *)
Definition sample_dls (s : cstr) : Z := if streq s (str "_ZN3fooEm") then 0x4000 else 0.

Lemma mangling_variants_exact_witness :
  try_mangling_variants sample_dls true (str "_ZN3fooEy") = 0x4000 /\
  let r := try_mangling_variants sample_dls true (str "_ZN3fooEy") in
  (r <> 0 -> exists v, spelling (str "_ZN3fooEy") v /\ sample_dls v = r) /\
  (forall v, spelling (str "_ZN3fooEy") v -> sample_dls v <> 0 -> r <> 0).
Proof. split; [reflexivity|]. refine (mangling_variants_exact sample_dls (str "_ZN3fooEy") _ _); cbn; lia. Defined.
