(* ===== verification/Leb128.v ===== *)
(** * Byte strings in memory and LEB128: src/eh_frame.c (readers and emitters)

    A buffer is the list of its bytes; a pointer into mapped memory is an
    address of byte memory.  [bytes_at] ties the two together. *)

From S2P Require Import Prelude.

(** ** Little-endian byte strings *)

Fixpoint le_bytes (n : nat) (v : Z) : list Z :=
  match n with O => [] | S n => (v mod 256) :: le_bytes n (v / 256) end.

Lemma le_bytes_length n v : length (le_bytes n v) = n.
Proof. revert v. induction n as [|n IH]; intros v; cbn; [done|]. by rewrite IH. Qed.

(** The bytes [l] are at [a]. *)
Definition bytes_at (m : bytemem) (a : Z) (l : list Z) : Prop :=
  forall i b, l !! i = Some b -> m (a + Z.of_nat i) mod 256 = b.

Lemma bytes_at_app m a l1 l2 :
  bytes_at m a (l1 ++ l2) <-> bytes_at m a l1 /\ bytes_at m (a + Z.of_nat (length l1)) l2.
Proof.
  split.
  - intros H. split; intros i b Hi.
    + apply H. by apply lookup_app_l_Some.
    + rewrite <- Z.add_assoc, <- Nat2Z.inj_add. apply H. rewrite lookup_app_r by lia. by rewrite Nat.add_sub_swap, Nat.sub_diag by lia.
  - intros [H1 H2] i b [Hi|[Hl Hi]]%lookup_app_Some; [by apply H1|].
    specialize (H2 _ _ Hi). rewrite <- Z.add_assoc, <- Nat2Z.inj_add in H2. by rewrite Nat.add_comm, Nat.sub_add in H2 by lia.
Qed.

Lemma bytes_at_cons m a b l : bytes_at m a (b :: l) <-> m a mod 256 = b /\ bytes_at m (a + 1) l.
Proof.
  change (b :: l) with ([b] ++ l). rewrite bytes_at_app. cbn [length Z.of_nat]. f_equiv; [|done]. split.
  - intros H. specialize (H O b eq_refl). by rewrite Z.add_0_r in H.
  - intros H [|i] c Hc; [|done]. injection Hc as <-. by rewrite Z.add_0_r.
Qed.

Lemma load_nat_bytes n m a v rest : bytes_at m a (le_bytes n v ++ rest) -> load_nat n a m = v mod 2 ^ (8 * Z.of_nat n).
Proof.
  revert a v. induction n as [|n IH]; intros a v H; [by rewrite Z.mod_1_r|].
  cbn [le_bytes app] in H. apply bytes_at_cons in H as [H1 H2]. cbn [load_nat]. rewrite H1, (IH _ _ H2).
  replace (8 * Z.of_nat (S n)) with (8 + 8 * Z.of_nat n) by lia. rewrite Z.pow_add_r by lia. change (2 ^ 8) with 256.
  rewrite Z.rem_mul_r by lia. lia.
Qed.

Lemma load_bytes n m a v rest : bytes_at m a (le_bytes (Z.to_nat n) v ++ rest) -> 0 <= n -> load n a m = v mod 2 ^ (8 * n).
Proof. intros H Hn. unfold load. rewrite (load_nat_bytes _ _ _ _ _ H). by rewrite Z2Nat.id. Qed.

(** The check of [bytes_at]. *)
Fixpoint bytes_eqb (m : bytemem) (a : Z) (l : list Z) : bool :=
  match l with [] => true | b :: l => (m a mod 256 =? b) && bytes_eqb m (a + 1) l end.

Lemma bytes_eqb_ok m a l : bytes_eqb m a l = true -> bytes_at m a l.
Proof.
  revert a. induction l as [|b l IH]; intros a H; [by intros i x|]. cbn in H. apply andb_prop in H as [H1 H2].
  apply bytes_at_cons. split; [by apply Z.eqb_eq|by apply IH].
Qed.

(** A memory that holds [l] at [a]. *)
Definition place (a : Z) (l : list Z) (m : bytemem) : bytemem :=
  fun x => match l !! Z.to_nat (x - a) with Some b => if a <=? x then b else m x | None => m x end.

Lemma place_bytes_at a l m : Forall (fun b => 0 <= b < 256) l -> bytes_at (place a l m) a l.
Proof.
  intros Hl i b Hi. unfold place. replace (Z.to_nat (a + Z.of_nat i - a)) with i by lia. rewrite Hi.
  destruct (Z.leb_spec a (a + Z.of_nat i)); [|lia]. rewrite Forall_lookup in Hl. apply Z.mod_small. by eapply Hl.
Qed.

Lemma le_bytes_range n v : Forall (fun b => 0 <= b < 256) (le_bytes n v).
Proof. revert v. induction n as [|n IH]; intros v; constructor; [apply Z.mod_pos_bound; lia|apply IH]. Qed.

(** ** LEB128 *)

(** The [do ... while (v)] loop of [ehf_uleb128], as the bytes it writes. *)
Fixpoint uleb_bytes (fuel : nat) (v : Z) : list Z :=
  match fuel with
  | O => []
  | S fuel =>
      let byte := v .& 0x7f in
      let v := v .>> 7 in
      if nz v then (byte .| 0x80) :: uleb_bytes fuel v else [byte]
  end.

(** Ten bytes hold 64 bits. *)
Definition uleb128 (v : Z) : list Z := uleb_bytes 10 v.

(** The loop of [ehf_sleb128]. *)
Fixpoint sleb_bytes (fuel : nat) (v : Z) : list Z :=
  match fuel with
  | O => []
  | S fuel =>
      let byte := v .& 0x7f in
      let v := v .>> 7 in
      if ((v =? 0) && negb (nz (byte .& 0x40))) || ((v =? -1) && nz (byte .& 0x40)) then [byte]
      else (byte .| 0x80) :: sleb_bytes fuel v
  end.
Definition sleb128 (v : Z) : list Z := sleb_bytes 10 v.

(** [while ( *p < end)]; the result and the advanced pointer.  The bytes from
    [p] to [end] bound the iterations. *)
Fixpoint uleb_loop (fuel : nat) (m : bytemem) (p limit result shift : Z) : Z * Z :=
  match fuel with
  | O => (result, p)
  | S fuel =>
      if p <? limit then
        let byte := m p mod 256 in
        let result := result .| u64 ((byte .& 0x7F) .<< shift) in
        if byte .& 0x80 =? 0 then (result, p + 1) else uleb_loop fuel m (p + 1) limit result (shift + 7)
      else (result, p)
  end.

Definition eh_read_uleb128 (m : bytemem) (p limit : Z) : Z * Z :=
  uleb_loop (Z.to_nat (limit - p)) m p limit 0 0.

(** The [do ... while (byte & 0x80)] loop; [byte] is the last byte read. *)
Fixpoint sleb_loop (fuel : nat) (m : bytemem) (p limit result shift byte : Z) : Z * Z * Z * Z :=
  match fuel with
  | O => (result, p, shift, byte)
  | S fuel =>
      if limit <=? p then (result, p, shift, byte)
      else
        let byte := m p mod 256 in
        let result := i64 (result .| i64 ((byte .& 0x7F) .<< shift)) in
        let shift := shift + 7 in
        if nz (byte .& 0x80) then sleb_loop fuel m (p + 1) limit result shift byte
        else (result, p + 1, shift, byte)
  end.

Definition eh_read_sleb128 (m : bytemem) (p limit : Z) : Z * Z :=
  let '(result, p, shift, byte) := sleb_loop (S (Z.to_nat (limit - p))) m p limit 0 0 0 in
  ((if (shift <? 64) && nz (byte .& 0x40) then i64 (result .| - (1 .<< shift)) else result), p).

(** ** Facts *)

Lemma land_7f v : v .& 0x7f = v mod 128.
Proof. change 0x7f with (Z.ones 7). by rewrite Z.land_ones by lia. Qed.

Lemma lor_80 b : 0 <= b < 128 -> b .| 0x80 = b + 128.
Proof.
  intros Hb. rewrite <- Z.add_nocarry_lor; [done|]. rewrite <- (Z.mod_small b (2 ^ 7)) by lia.
  rewrite <- Z.land_ones, <- Z.land_assoc by lia. change (Z.ones 7 .& 128) with 0. apply Z.land_0_r.
Qed.

Lemma byte_80 b : 0 <= b < 128 -> b .& 0x80 = 0 /\ (b + 128) .& 0x80 = 128 /\ (b + 128) .& 0x7f = b /\ b .& 0x7f = b.
Proof.
  intros Hb. rewrite !land_7f. repeat split.
  - rewrite <- (Z.mod_small b (2 ^ 7)) by lia. rewrite <- Z.land_ones, <- Z.land_assoc by lia. apply Z.land_0_r.
  - rewrite <- lor_80, Z.land_lor_distr_l by done. rewrite <- (Z.mod_small b (2 ^ 7)) by lia.
    rewrite <- Z.land_ones, <- Z.land_assoc by lia. change (Z.ones 7 .& 128) with 0. by rewrite Z.land_0_r.
  - replace (b + 128) with (b + 1 * 128) by lia. rewrite Z.mod_add by lia. apply Z.mod_small. lia.
  - apply Z.mod_small. lia.
Qed.

Lemma lor_shiftl_add a b s : 0 <= s -> 0 <= a < 2 ^ s -> a .| (b .<< s) = a + b * 2 ^ s.
Proof.
  intros Hs Ha. rewrite <- Z.add_nocarry_lor; [by rewrite Z.shiftl_mul_pow2|].
  rewrite <- (Z.mod_small a (2 ^ s)) by done. rewrite <- Z.land_ones, <- Z.land_assoc by lia.
  rewrite (Z.land_comm (Z.ones s)), Z.land_ones, Z.shiftl_mul_pow2, Z_mod_mult by lia. apply Z.land_0_r.
Qed.

Lemma uleb_loop_bytes n v m p limit fuel acc s rest :
  0 <= v < 2 ^ (7 * Z.of_nat n) -> 0 <= s -> v * 2 ^ s < 2 ^ 64 -> 0 <= acc < 2 ^ s ->
  bytes_at m p (uleb_bytes n v ++ rest) -> (0 < n)%nat ->
  p + Z.of_nat (length (uleb_bytes n v)) <= limit -> limit - p <= Z.of_nat fuel ->
  uleb_loop fuel m p limit acc s = (acc + v * 2 ^ s, p + Z.of_nat (length (uleb_bytes n v))).
Proof.
  revert v p fuel acc s. induction n as [|n IH]; intros v p fuel acc s Hv Hs Hb Ha Hm Hn Hp Hf; [lia|].
  cbn [uleb_bytes] in *. rewrite land_7f, Z.shiftr_div_pow2 in * by lia. change (2 ^ 7) with 128 in *.
  pose proof (Z.mod_pos_bound v 128 ltac:(lia)) as Hmod. pose proof (Z.div_mod v 128 ltac:(lia)) as Hdm.
  assert (Hdv : 0 <= v / 128) by (apply Z.div_pos; lia).
  destruct (byte_80 _ Hmod) as (B1&B2&B3&B4).
  destruct fuel as [|fuel]; [unfold nz in Hp; destruct (_ =? _); cbn in Hp; lia|]. cbn [uleb_loop].
  assert (Hsm : forall x, 0 <= x <= v -> u64 (x .<< s) = x .<< s).
  { intros x Hx. rewrite Z.shiftl_mul_pow2 by lia. apply u64_small. nia. }
  unfold nz in *. destruct (Z.eqb_spec (v / 128) 0) as [E|E]; cbn [negb app length] in *; apply bytes_at_cons in Hm as [Hm1 Hm2].
  - destruct (Z.ltb_spec p limit); [|lia]. rewrite Hm1, B1, B4. change (0 =? 0) with true. cbv iota.
    rewrite Hsm, lor_shiftl_add by lia. f_equal. nia.
  - rewrite lor_80 in * by done. destruct (Z.ltb_spec p limit); [|lia]. rewrite Hm1, B2, B3. change (128 =? 0) with false. cbv iota.
    rewrite Hsm, lor_shiftl_add by (try nia; lia).
    assert (Hpow : 2 ^ (s + 7) = 2 ^ s * 128) by (rewrite Z.pow_add_r by lia; done).
    assert (Hn7 : 2 ^ (7 * Z.of_nat (S n)) = 128 * 2 ^ (7 * Z.of_nat n)).
    { replace (7 * Z.of_nat (S n)) with (7 + 7 * Z.of_nat n) by lia. by rewrite Z.pow_add_r by lia. }
    assert (v / 128 < 2 ^ (7 * Z.of_nat n)) by (apply Z.div_lt_upper_bound; lia).
    rewrite (IH (v / 128)); try lia; try done.
    + f_equal; [|lia]. rewrite Hpow. nia.
    + rewrite Hpow. nia.
    + destruct n; [|lia]. change (2 ^ (7 * Z.of_nat 0)) with 1 in *. lia.
Qed.

(** Reading back what was emitted. *)
Lemma read_uleb128_emitted v m p limit rest :
  0 <= v < 2 ^ 64 -> bytes_at m p (uleb128 v ++ rest) -> p + Z.of_nat (length (uleb128 v)) <= limit ->
  eh_read_uleb128 m p limit = (v, p + Z.of_nat (length (uleb128 v))).
Proof.
  intros Hv Hm Hl. unfold eh_read_uleb128. unfold uleb128 in *. rewrite (uleb_loop_bytes 10 v m p limit _ 0 0 rest); try done; try lia.
  f_equal. lia.
Qed.

Lemma uleb_bytes_range n v : Forall (fun b => 0 <= b < 256) (uleb_bytes n v).
Proof.
  revert v. induction n as [|n IH]; intros v; [constructor|]. cbn [uleb_bytes]. rewrite land_7f.
  pose proof (Z.mod_pos_bound v 128 ltac:(lia)). rewrite lor_80 by done.
  destruct (nz _); repeat constructor; try lia; apply IH.
Qed.

Lemma uleb_bytes_small n v : 0 <= v < 128 -> uleb_bytes (S n) v = [v].
Proof.
  intros Hv. cbn [uleb_bytes]. rewrite land_7f, Z.shiftr_div_pow2 by lia. change (2 ^ 7) with 128.
  rewrite Z.div_small, Z.mod_small by done. done.
Qed.

Lemma uleb128_length v : 0 <= v < 2 ^ 64 -> (1 <= length (uleb128 v) <= 10)%nat.
Proof.
  intros _. assert (H : forall n v, (length (uleb_bytes n v) <= n)%nat).
  { induction n as [|n IH]; intros w; [done|]. cbn [uleb_bytes]. destruct (nz _); cbn; [specialize (IH (w .>> 7))|]; lia. }
  split; [|apply H]. unfold uleb128. cbn [uleb_bytes]. destruct (nz _); cbn; lia.
Qed.

(** ** Signed LEB128 *)

Lemma bit_40 b : 0 <= b < 128 -> nz (b .& 0x40) = (64 <=? b) /\ nz ((b + 128) .& 0x80) = true /\ nz (b .& 0x80) = false.
Proof.
  intros Hb.
  assert (H : forallb (fun b => Bool.eqb (nz (b .& 0x40)) (64 <=? b) && nz ((b + 128) .& 0x80) && negb (nz (b .& 0x80))) (seqZ 0 128) = true)
    by reflexivity.
  rewrite forallb_forall in H. specialize (H b ltac:(apply list_elem_of_In, elem_of_seqZ; lia)).
  apply andb_prop in H as [H H3]. apply andb_prop in H as [H1 H2]. apply Bool.eqb_prop in H1. by destruct (nz (b .& 0x80)).
Qed.

(** The value of a stream whose last byte [b] was read at [shift - 7]. *)
Definition sleb_value (r shift b : Z) : Z := if (shift <? 64) && nz (b .& 0x40) then i64 (r .| - (1 .<< shift)) else r.

(** The last byte: the accumulated bits [A] below [s], the byte's bits above,
    sign-extended. *)
Lemma sleb_last A s b v :
  0 <= s <= 63 -> 0 <= A < 2 ^ s -> 0 <= b < 128 -> (v = b /\ b < 64) \/ (v = b - 128 /\ 64 <= b) ->
  - 2 ^ 63 <= A + v * 2 ^ s < 2 ^ 63 -> (s <= 56 \/ s = 63) ->
  sleb_value (i64 (A .| i64 (b .<< s))) (s + 7) b = A + v * 2 ^ s.
Proof.
  intros Hs HA Hb Hv Hr H56. unfold sleb_value. destruct (bit_40 b Hb) as (->&_&_). destruct H56 as [H56| ->].
  - assert (H7 : 2 ^ (s + 7) = 128 * 2 ^ s) by (rewrite Z.pow_add_r by lia; lia).
    assert (Hp : 2 ^ (s + 7) <= 2 ^ 63) by (apply Z.pow_le_mono_r; lia).
    assert (Hbs : b .<< s = b * 2 ^ s) by (apply Z.shiftl_mul_pow2; lia).
    rewrite (i64_small (b .<< s)) by (rewrite Hbs; nia). rewrite lor_shiftl_add by lia.
    rewrite (i64_small (A + b * 2 ^ s)) by nia. destruct (Z.ltb_spec (s + 7) 64); [|lia]. cbn [andb].
    destruct (Z.leb_spec 64 b); [|nia]. destruct Hv as [[_ ?]|[-> _]]; [lia|].
    replace (- (1 .<< (s + 7))) with ((-1) .<< (s + 7)) by (rewrite !Z.shiftl_mul_pow2 by lia; lia).
    rewrite lor_shiftl_add by (lia || nia). rewrite i64_small by nia. nia.
  - change (63 + 7 <? 64) with false. cbn [andb].
    assert (Hv0 : (v = 0 /\ b = 0) \/ (v = -1 /\ b = 127)) by (change (2 ^ 63) with 9223372036854775808 in *; lia).
    destruct Hv0 as [[-> ->]|[-> ->]].
    + rewrite Z.shiftl_0_l. change (i64 0) with 0. rewrite Z.lor_0_r, i64_small by lia. lia.
    + change (i64 (127 .<< 63)) with ((-1) .<< 63). rewrite lor_shiftl_add, i64_small by lia. lia.
Qed.

Lemma sleb_loop_bytes n k v m p limit fuel A byte0 rest :
  let s := 7 * Z.of_nat k in
  (0 < n)%nat -> (k + n <= 10)%nat -> 0 <= A < 2 ^ s -> - 2 ^ (7 * Z.of_nat n - 1) <= v < 2 ^ (7 * Z.of_nat n - 1) ->
  - 2 ^ 63 <= A + v * 2 ^ s < 2 ^ 63 -> bytes_at m p (sleb_bytes n v ++ rest) ->
  p + Z.of_nat (length (sleb_bytes n v)) <= limit -> limit - p < Z.of_nat fuel ->
  let '(r, p', shift, b) := sleb_loop fuel m p limit A s byte0 in
  sleb_value r shift b = A + v * 2 ^ s /\ p' = p + Z.of_nat (length (sleb_bytes n v)).
Proof.
  revert k v p fuel A byte0. induction n as [|n IH]; intros k v p fuel A byte0 s Hn Hk HA Hv Hr Hb Hl Hf; [lia|].
  cbn [sleb_bytes] in *. rewrite land_7f, Z.shiftr_div_pow2 in * by lia. change (2 ^ 7) with 128 in *.
  pose proof (Z.mod_pos_bound v 128 ltac:(lia)) as Hm. pose proof (Z.div_mod v 128 ltac:(lia)) as Hdm.
  destruct (bit_40 _ Hm) as (B1&B2&B3). destruct (byte_80 _ Hm) as (_&_&B5&B6). rewrite B1 in *.
  destruct fuel as [|fuel]; [destruct (_ || _); cbn in Hl; lia|]. cbn [sleb_loop].
  destruct (((v / 128 =? 0) && negb (64 <=? v mod 128)) || ((v / 128 =? -1) && (64 <=? v mod 128))) eqn:Ec;
    cbn [app length] in *; apply bytes_at_cons in Hb as [Hb1 Hb2].
  - destruct (Z.leb_spec limit p); [lia|]. rewrite Hb1, B3, B6. split; [|lia].
    apply sleb_last; lia.
  - destruct n as [|n].
    { exfalso. change (2 ^ (7 * Z.of_nat 1 - 1)) with 64 in Hv.
      destruct (Z.leb_spec 64 (v mod 128)), (Z.eqb_spec (v / 128) 0), (Z.eqb_spec (v / 128) (-1)); cbn in Ec; try done; lia. }
    rewrite lor_80 in Hb1 by done. destruct (Z.leb_spec limit p); [lia|]. rewrite Hb1, B2, B5.
    assert (Hs56 : s <= 56) by lia. assert (Hp0 : 0 < 2 ^ s) by lia.
    assert (H7 : 2 ^ (7 * Z.of_nat (S k)) = 128 * 2 ^ s) by (unfold s; replace (7 * Z.of_nat (S k)) with (7 * Z.of_nat k + 7) by lia; rewrite Z.pow_add_r by lia; lia).
    assert (Hp63 : 2 ^ (7 * Z.of_nat (S k)) <= 2 ^ 63) by (apply Z.pow_le_mono_r; lia).
    assert (Hbs : (v mod 128) .<< s = (v mod 128) * 2 ^ s) by (apply Z.shiftl_mul_pow2; lia).
    rewrite (i64_small (_ .<< s)) by (rewrite Hbs; nia). rewrite lor_shiftl_add by lia. rewrite i64_small by nia.
    assert (Hn7 : 2 ^ (7 * Z.of_nat (S (S n)) - 1) = 128 * 2 ^ (7 * Z.of_nat (S n) - 1)).
    { replace (7 * Z.of_nat (S (S n)) - 1) with (7 + (7 * Z.of_nat (S n) - 1)) by lia. rewrite Z.pow_add_r by lia. done. }
    specialize (IH (S k) (v / 128) (p + 1) fuel (A + v mod 128 * 2 ^ s) (v mod 128 + 128)).
    cbv zeta in IH. replace (7 * Z.of_nat (S k)) with (s + 7) in * by lia.
    assert (Hval : A + v mod 128 * 2 ^ s + v / 128 * 2 ^ (s + 7) = A + v * 2 ^ s) by (rewrite H7; nia).
    rewrite Hval in IH. destruct (sleb_loop fuel m (p + 1) limit _ (s + 7) _) as [[[r p'] sh] b].
    destruct IH as [E1 E2]; try done; try lia; try nia.
Qed.

(** Reading back what was emitted. *)
Lemma read_sleb128_emitted v m p limit rest :
  - 2 ^ 63 <= v < 2 ^ 63 -> bytes_at m p (sleb128 v ++ rest) -> p + Z.of_nat (length (sleb128 v)) <= limit ->
  eh_read_sleb128 m p limit = (v, p + Z.of_nat (length (sleb128 v))).
Proof.
  intros Hv Hb Hl. unfold eh_read_sleb128, sleb128 in *.
  pose proof (sleb_loop_bytes 10 0 v m p limit (S (Z.to_nat (limit - p))) 0 0 rest) as H. cbv zeta in H.
  change (7 * Z.of_nat 0) with 0 in H. change (2 ^ 0) with 1 in H. change (2 ^ (7 * Z.of_nat 10 - 1)) with (2 ^ 69) in H.
  destruct (sleb_loop _ _ _ _ _ _ _) as [[[r p'] sh] b]. destruct H as [E1 E2]; try done; try lia.
  unfold sleb_value in E1. rewrite E1, E2. f_equal. lia.
Qed.
