(* ===== verification/Thunks.v ===== *)
(** * Code the resolver generates: src/resolver.c

    Adapters between the Apple and the Linux calling conventions, and the
    stubs unresolved symbols are bound to.  Each kind lives in a pool that is
    mapped on first use and filled from the bottom. *)

From S2P Require Import Prelude Arm64 IsaIslandRun CStr.
Module Thunks.

(** [mmap(NULL, length, ...)] of anonymous memory: the address or MAP_FAILED. *)
Record map_host := { mh_state : Type; mh_mmap : Z -> mh_state -> option Z * mh_state; mh_page : Z }.

(** [base] is 0 before the pool is mapped; [count] is the number of slots
    handed out. *)
Record tpool := mk_tpool { base : Z; used : Z; capacity : Z; count : Z }.
Definition no_pool : tpool := mk_tpool 0 0 0 0.

Section thunks.
Context (H : map_host).

(** The memory, the pools of [wrap_ctor_for_apple_abi],
    [create_variadic_thunk], [create_stack_arg3_thunk], [alloc_return0_stub]
    and the weak slots of [resolve_import], the page of
    [alloc_zero_data_stub], and the host. *)
Record thunks := mk_th {
  th_mem : bytemem; ctor_tramp : tpool; variadic_pool : tpool; stack_arg_pool : tpool;
  return0_pool : tpool; weak_pool : tpool; zero_page : Z; th_host : mh_state H;
}.

(** Map the pool if it is not there yet, then reserve [size] bytes of it. *)
Definition take_slot (cap size : Z) (p : tpool) (h : mh_state H) : option Z * tpool * mh_state H :=
  let '(p, h) :=
    if base p =? 0 then
      match mh_mmap H cap h with
      | (Some a, h) => (mk_tpool a (used p) cap (count p), h)
      | (None, h) => (p, h)
      end
    else (p, h) in
  if base p =? 0 then (None, p, h)
  else if capacity p <? used p + size then (None, p, h)
  else (Some (base p + used p), mk_tpool (base p) (used p + size) (capacity p) (count p + 1), h).

(** Instruction words followed by one 64-bit literal. *)
Fixpoint write_code (a : Z) (ws : list Z) (m : bytemem) : bytemem :=
  match ws with [] => m | w :: ws => write_code (a + 4) ws (store 4 a w m) end.
Definition write_thunk (a : Z) (ws : list Z) (target : Z) (m : bytemem) : bytemem :=
  store 8 (a + 4 * Z.of_nat (length ws)) target (write_code a ws m).

(** ** Constructors and destructors *)

Definition ctor_words : list Z := [0xA9BF03FE; 0x580000B0; 0xD63F0200; 0xA8C103FE; 0xD65F03C0; 0xD503201F].

Definition wrap_ctor_for_apple_abi (real_addr : Z) (t : thunks) : Z * thunks :=
  let '(slot, p, h) := take_slot (mh_page H * 4) 32 (ctor_tramp t) (th_host t) in
  let set m := mk_th m p (variadic_pool t) (stack_arg_pool t) (return0_pool t) (weak_pool t) (zero_page t) h in
  match slot with
  | None => (real_addr, set (th_mem t))
  | Some a => (a, set (write_thunk a ctor_words real_addr (th_mem t)))
  end.

(** ** Variadic functions *)

Record variadic_info := mk_vi { vi_name : cstr; v_name : cstr; dest_reg : Z; is_va_list : bool; source_reg : Z }.

Definition variadic_functions : list variadic_info :=
  [ mk_vi (str "printf") (str "vprintf") 1 false 0;
    mk_vi (str "fprintf") (str "vfprintf") 2 false 0;
    mk_vi (str "sprintf") (str "vsprintf") 2 false 0;
    mk_vi (str "snprintf") (str "vsnprintf") 3 false 0;
    mk_vi (str "sscanf") (str "vsscanf") 2 false 0;
    mk_vi (str "fscanf") (str "vfscanf") 2 false 0;
    mk_vi (str "__sprintf_chk") (str "__vsprintf_chk") 4 false 0;
    mk_vi (str "vsnprintf") (str "vsnprintf") 3 true 3;
    mk_vi (str "vsprintf") (str "vsprintf") 2 true 2;
    mk_vi (str "vfprintf") (str "vfprintf") 2 true 2;
    mk_vi (str "vprintf") (str "vprintf") 1 true 1;
    mk_vi (str "vsscanf") (str "vsscanf") 2 true 2;
    mk_vi (str "vfscanf") (str "vfscanf") 2 true 2;
    mk_vi (str "vsnprintf") (str "vsnprintf") 3 true 3;
    mk_vi (str "vasprintf") (str "vasprintf") 2 true 2;
    mk_vi (str "__vsnprintf_chk") (str "__vsnprintf_chk") 5 true 5;
    mk_vi (str "__vsprintf_chk") (str "__vsprintf_chk") 4 true 4 ].

Definition lookup_variadic (name : cstr) : option variadic_info :=
  List.find (fun vi => streq name (vi_name vi)) variadic_functions.

Definition variadic_words (vi : variadic_info) : list Z :=
  [ 0xA9BD7BFD; 0x910003FD;
    (if is_va_list vi then 0xAA0003E8 .| (source_reg vi .<< 16) else 0x9100C3A8);
    0xF9000BE8; 0xF9000FFF; 0xF90013FF; 0x29057FFF;
    0x910043E0 .| dest_reg vi;
    0x58000090; 0xD63F0200; 0xA8C37BFD; 0xD65F03C0 ].

(** 0 when there is no room. *)
Definition create_variadic_thunk (v_func_addr : Z) (vi : variadic_info) (t : thunks) : Z * thunks :=
  let '(slot, p, h) := take_slot (mh_page H * 2) 56 (variadic_pool t) (th_host t) in
  let set m := mk_th m (ctor_tramp t) p (stack_arg_pool t) (return0_pool t) (weak_pool t) (zero_page t) h in
  match slot with
  | None => (0, set (th_mem t))
  | Some a => (a, set (write_thunk a (variadic_words vi) v_func_addr (th_mem t)))
  end.

(** ** A third argument on the stack *)

Definition stack_arg3_words : list Z :=
  [0xA9BF7BFD; 0x910003FD; 0xF9400BA2; 0x580000B0; 0xD63F0200; 0xA8C17BFD; 0xD65F03C0; 0xD503201F].

Definition create_stack_arg3_thunk (func_addr : Z) (t : thunks) : Z * thunks :=
  let '(slot, p, h) := take_slot (mh_page H) 40 (stack_arg_pool t) (th_host t) in
  let set m := mk_th m (ctor_tramp t) (variadic_pool t) p (return0_pool t) (weak_pool t) (zero_page t) h in
  match slot with
  | None => (0, set (th_mem t))
  | Some a => (a, set (write_thunk a stack_arg3_words func_addr (th_mem t)))
  end.

(** ** Stubs *)

Definition return0_words : list Z := [0x52800000; 0xd65f03c0].

Definition alloc_return0_stub (t : thunks) : Z * thunks :=
  let '(slot, p, h) := take_slot (256 * 4096) 128 (return0_pool t) (th_host t) in
  let set m := mk_th m (ctor_tramp t) (variadic_pool t) (stack_arg_pool t) p (weak_pool t) (zero_page t) h in
  match slot with
  | None => (0, set (th_mem t))
  | Some a => (a, set (write_code a return0_words (th_mem t)))
  end.

(** Fresh anonymous memory reads as zero. *)
Definition alloc_zero_data_stub (t : thunks) : Z * thunks :=
  let set z m h := mk_th m (ctor_tramp t) (variadic_pool t) (stack_arg_pool t) (return0_pool t) (weak_pool t) z h in
  if negb (zero_page t =? 0) then (zero_page t, t)
  else match mh_mmap H 4096 (th_host t) with
       | (None, h) => (0, set 0 (th_mem t) h)
       | (Some a, h) => (a, set a (store 4096 a 0 (th_mem t)) h)
       end.

(** The slot of an unresolved weak symbol; [None] when there is no room. *)
Definition alloc_weak_slot (t : thunks) : option Z * thunks :=
  let '(slot, p, h) := take_slot (64 * 4096) 128 (weak_pool t) (th_host t) in
  (slot, mk_th (th_mem t) (ctor_tramp t) (variadic_pool t) (stack_arg_pool t) (return0_pool t) p (zero_page t) h).
End thunks.
End Thunks.

(** * What the generated adapters do *)

Import Thunks.

(** ** Written code *)

(** Instructions are fetched from memory. *)
Definition fetch (m : bytemem) (pc : Z) : option Z := Some (load 4 pc m).

Definition is_word (w : Z) : Prop := 0 <= w < 2 ^ 32.

Lemma write_code_out a ws m x : ~ a <= x < a + 4 * Z.of_nat (length ws) -> write_code a ws m x = m x.
Proof.
  revert a m. induction ws as [|w ws IH]; intros a m Hx; [done|]. cbn [write_code length] in *.
  rewrite IH by lia. apply store_out. lia.
Qed.

Lemma write_code_words a ws m :
  Forall is_word ws -> words_at (fetch (write_code a ws m)) a ws.
Proof.
  intros H. revert a m. induction H as [|w ws Hw H IH]; intros a m; [done|]. cbn [write_code words_at]. split; [|apply IH].
  unfold fetch. f_equal. rewrite (load_ext 4 a _ (store 4 a w m)).
  - rewrite load_store_same by lia. by apply Z.mod_small.
  - intros x Hx. apply write_code_out. lia.
Qed.

Lemma thunk_words_ext m m' a ws :
  (forall x, a <= x < a + 4 * Z.of_nat (length ws) -> m' x = m x) ->
  words_at (fetch m) a ws -> words_at (fetch m') a ws.
Proof.
  revert a. induction ws as [|w ws IH]; intros a Hx; [done|]. cbn [words_at length] in *. intros [H1 H2]. split.
  - unfold fetch in *. rewrite <- H1. f_equal. apply load_ext. intros x Hr. apply Hx. lia.
  - apply IH; [|done]. intros x Hr. apply Hx. lia.
Qed.

(** A thunk in memory: its words and the literal after them. *)
Definition thunk_at (m : bytemem) (a : Z) (ws : list Z) (target : Z) : Prop :=
  words_at (fetch m) a ws /\ load 8 (a + 4 * Z.of_nat (length ws)) m = target.

Lemma write_thunk_at a ws target m :
  Forall is_word ws -> 0 <= target < 2 ^ 64 -> thunk_at (write_thunk a ws target m) a ws target.
Proof.
  intros Hw Ht. unfold write_thunk. split.
  - eapply thunk_words_ext; [|by apply write_code_words]. intros x Hx. apply store_out. lia.
  - rewrite load_store_same by lia. by apply Z.mod_small.
Qed.

(** A state about to call through the thunk of [n] words at [a]: the literal
    reads as [target], and [frame] bytes of stack are free and elsewhere. *)
Record calling (a n target frame : Z) (st : cpu) : Prop := {
  at_literal : load 8 (a + 4 * n) (cpu_mem st) = target;
  at_pc : cpu_pc st = a;
  at_range : 0 <= a /\ a + 4 * n + 8 < 2 ^ 64;
  at_sp : frame <= cpu_sp st < 2 ^ 64;
  at_regs : forall r, 0 <= cpu_x st r < 2 ^ 64;
  at_apart : a + 4 * n + 8 <= cpu_sp st - frame \/ cpu_sp st <= a;
}.

(** ** The constructor adapter *)

Lemma ctor_words_ok : Forall is_word ctor_words.
Proof. apply (bool_decide_unpack _). by vm_compute. Qed.

(** Fetch and run the next instruction, naming the state after it. *)
Ltac step_to s' i W P :=
  match goal with
  | Hpc : cpu_pc ?s = ?a |- _ =>
      set (s' := exec i s);
      assert (reaches _ s s') by (eapply reaches_step; [rewrite Hpc; exact W|reflexivity]);
      assert (P : cpu_pc s' = a + 4) by (unfold s'; rewrite exec_pc, Hpc by done; apply u64_small; lia);
      clear Hpc
  end.

Lemma stp_frame st k r1 r2 :
  r1 <> 31 -> r2 <> 31 -> 0 <= cpu_sp st - k -> cpu_sp st < 2 ^ 64 -> 0 <= k ->
  let s := exec (STPpre r1 r2 31 (- k)) st in
  cpu_mem s = store 8 (cpu_sp st - k + 8) (cpu_x st r2) (store 8 (cpu_sp st - k) (cpu_x st r1) (cpu_mem st)) /\
  cpu_sp s = cpu_sp st - k /\ cpu_x s = cpu_x st /\ cpu_v s = cpu_v st.
Proof.
  intros H1 H2 H3 H4 Hk. cbn [exec]. unfold rbase, wbase. cbn [Z.eqb Pos.eqb]. rewrite !rx_ne by done.
  replace (cpu_sp st + - k) with (cpu_sp st - k) by lia. rewrite u64_small by lia. done.
Qed.

Lemma ldrlit_effect st r off v :
  r <> 31 -> load 8 (u64 (cpu_pc st + 4 * off)) (cpu_mem st) = v ->
  let s := exec (LDRlit r off) st in
  cpu_mem s = cpu_mem st /\ cpu_sp s = cpu_sp st /\ cpu_x s = upd (cpu_x st) r v /\ cpu_v s = cpu_v st.
Proof. intros Hr Hl. cbn [exec]. rewrite wx_ne, Hl by done. done. Qed.

Lemma blr_effect st r a :
  r <> 31 -> cpu_pc st = a -> 0 <= a -> a + 4 < 2 ^ 64 ->
  let s := exec (BLR r) st in
  cpu_pc s = cpu_x st r /\ cpu_mem s = cpu_mem st /\ cpu_sp s = cpu_sp st /\
  cpu_x s = upd (cpu_x st) 30 (a + 4) /\ cpu_v s = cpu_v st.
Proof. intros Hr Hpc H0 H1. cbn [exec]. rewrite wx_ne, rx_ne, Hpc, u64_small by lia. done. Qed.

Lemma ret_effect st r :
  r <> 31 ->
  let s := exec (RET r) st in
  cpu_pc s = cpu_x st r /\ cpu_mem s = cpu_mem st /\ cpu_sp s = cpu_sp st /\ cpu_x s = cpu_x st /\ cpu_v s = cpu_v st.
Proof. intros Hr. cbn [exec]. by rewrite rx_ne. Qed.

Lemma ldp_frame st k r1 r2 :
  r1 <> 31 -> r2 <> 31 -> 0 <= cpu_sp st -> cpu_sp st + k < 2 ^ 64 -> 0 <= k ->
  let s := exec (LDPpost r1 r2 31 k) st in
  cpu_mem s = cpu_mem st /\ cpu_sp s = cpu_sp st + k /\ cpu_v s = cpu_v st /\
  cpu_x s = upd (upd (cpu_x st) r1 (load 8 (cpu_sp st) (cpu_mem st))) r2 (load 8 (cpu_sp st + 8) (cpu_mem st)).
Proof.
  intros H1 H2 H3 H4 Hk. cbn [exec]. unfold rbase, wbase. cbn [Z.eqb Pos.eqb]. rewrite !wx_ne by done.
  rewrite u64_small by lia. done.
Qed.

Lemma load2_frame sp v w m :
  0 <= v < 2 ^ 64 -> 0 <= w < 2 ^ 64 ->
  load 8 sp (store 8 (sp + 8) w (store 8 sp v m)) = v /\ load 8 (sp + 8) (store 8 (sp + 8) w (store 8 sp v m)) = w.
Proof.
  intros Hv Hw. rewrite (load_store_disj 8 sp), !load_store_same by lia. by rewrite !Z.mod_small.
Qed.

Lemma store2_out sp v w m x : ~ sp <= x < sp + 16 -> store 8 (sp + 8) w (store 8 sp v m) x = m x.
Proof. intros Hx. by rewrite !store_out by lia. Qed.

(** From the call of the adapter to the call of the function. *)
Lemma ctor_calls m a target st :
  thunk_at m a ctor_words target -> calling a 6 target 16 st ->
  let sp := cpu_sp st - 16 in
  exists s1, reaches (fetch m) st s1 /\ cpu_pc s1 = target /\ cpu_sp s1 = sp /\
    cpu_x s1 = upd (upd (cpu_x st) 16 target) 30 (a + 12) /\ cpu_v s1 = cpu_v st /\
    load 8 sp (cpu_mem s1) = cpu_x st 30 /\ load 8 (sp + 8) (cpu_mem s1) = cpu_x st 0 /\
    (forall x, ~ sp <= x < cpu_sp st -> cpu_mem s1 x = cpu_mem st x).
Proof.
  intros [Hw _] [Hl Hpc Hr Hsp Hx Hap] sp.
  destruct Hw as (W0&W1&W2&_).
  destruct (stp_frame st 16 30 0) as (M0&S0&X0&V0); try lia. step_to s0 (STPpre 30 0 31 (-16)) W0 P0.
  change (exec (STPpre 30 0 31 (- (16))) st) with s0 in M0, S0, X0, V0. fold sp in M0, S0. clearbody s0.
  assert (L0 : load 8 (u64 (cpu_pc s0 + 4 * 5)) (cpu_mem s0) = target).
  { rewrite P0, u64_small, M0 by lia. rewrite (load_ext _ _ _ (cpu_mem st)); [rewrite <- Hl; f_equal; lia|].
    intros x Hxx. apply store2_out. unfold sp. lia. }
  destruct (ldrlit_effect s0 16 5 target ltac:(lia) L0) as (M1&S1&X1&V1). step_to s1 (LDRlit 16 5) W1 P1. fold s1 in M1, S1, X1, V1.
  clearbody s1. destruct (blr_effect s1 16 _ ltac:(lia) P1 ltac:(lia) ltac:(lia)) as (P2&M2&S2&X2&V2).
  exists (exec (BLR 16) s1). rewrite P2, M2, S2, X2, V2, S1, X1, V1, M1, S0, X0, V0, M0.
  destruct (load2_frame sp (cpu_x st 30) (cpu_x st 0) (cpu_mem st) (Hx 30) (Hx 0)) as [-> ->].
  split. { etrans; [eassumption|]. etrans; [eassumption|]. eapply reaches_step; [rewrite P1; exact W2|reflexivity]. }
  rewrite upd_eq. repeat (split; [done || (f_equal; lia)|]). intros x Hxx. apply store2_out. unfold sp in *. lia.
Qed.

(** From the return of the function to the return of the adapter. *)
Lemma ctor_returns m a target st s2 :
  thunk_at m a ctor_words target -> calling a 6 target 16 st ->
  let sp := cpu_sp st - 16 in
  cpu_pc s2 = a + 12 -> cpu_sp s2 = sp ->
  load 8 sp (cpu_mem s2) = cpu_x st 30 -> load 8 (sp + 8) (cpu_mem s2) = cpu_x st 0 ->
  exists s3, reaches (fetch m) s2 s3 /\ cpu_pc s3 = cpu_x st 30 /\ cpu_sp s3 = cpu_sp st /\
    cpu_x s3 = upd (upd (cpu_x s2) 30 (cpu_x st 30)) 0 (cpu_x st 0) /\ cpu_v s3 = cpu_v s2 /\ cpu_mem s3 = cpu_mem s2.
Proof.
  intros [Hw _] [Hl _ Hr Hsp Hx Hap] sp Hpc Hs2 L1 L2.
  destruct Hw as (_&_&_&W3&W4&_).
  destruct (ldp_frame s2 16 30 0) as (M3&S3&V3&X3); try (unfold sp in *; lia). rewrite Hs2, L1, L2 in X3. rewrite Hs2 in S3.
  replace (a + 12) with (a + 4 + 4 + 4) in Hpc by lia.
  step_to s3 (LDPpost 30 0 31 16) W3 P3. fold s3 in M3, S3, V3, X3. clearbody s3.
  destruct (ret_effect s3 30 ltac:(lia)) as (P4&M4&S4&X4&V4).
  exists (exec (RET 30) s3). rewrite P4, M4, S4, X4, V4, X3, S3, V3, M3.
  split. { etrans; [eassumption|]. eapply reaches_step; [rewrite P3; exact W4|reflexivity]. }
  rewrite upd_ne, upd_eq by lia. repeat (split; [done || (unfold sp; lia)|]). done.
Qed.

(** ** Pools *)

Section pools.
Context (H : map_host).

(** The host maps memory at a nonzero address of user space. *)
Definition maps_user_space : Prop :=
  forall n h a h', mh_mmap H n h = (Some a, h') -> 0 < a /\ a + n < 2 ^ 63.

Definition pool_ok (p : tpool) : Prop :=
  (base p = 0 /\ used p = 0) \/ (0 < base p /\ 0 <= used p <= capacity p /\ base p + capacity p < 2 ^ 63).

(** A slot starts where the used part ended, and the pool stays where it is. *)
Lemma take_slot_spec cap size p h :
  maps_user_space -> pool_ok p -> 0 < size -> 0 <= cap ->
  let '(slot, p', h') := take_slot H cap size p h in
  pool_ok p' /\ (base p <> 0 -> base p' = base p) /\ used p <= used p' /\
  match slot with
  | None => used p' = used p
  | Some a => a = base p' + used p /\ used p' = used p + size /\ 0 < base p' /\ a + size < 2 ^ 63
  end.
Proof.
  intros Hm Hp Hs Hc. unfold take_slot. destruct (Z.eqb_spec (base p) 0) as [E|E].
  - assert (Hu : used p = 0) by (destruct Hp as [[_ Hu]|Hp]; [done|lia]).
    destruct (mh_mmap H cap h) as [[a|] h'] eqn:Em; cbn [base used capacity].
    + destruct (Hm _ _ _ _ Em) as [Ha Hb]. destruct (Z.eqb_spec a 0); [lia|]. rewrite Hu.
      destruct (Z.ltb_spec cap (0 + size)); cbn [base used capacity];
        (split; [right; cbn; lia|]); (split; [lia|]); (split; [lia|]); try done. repeat split; lia.
    + rewrite E. cbn [Z.eqb]. split; [by left|]. split; [done|]. split; [lia|done].
  - destruct Hp as [[Hp _]|Hp]; [done|]. destruct (Z.eqb_spec (base p) 0); [done|].
    destruct (Z.ltb_spec (capacity p) (used p + size)); cbn [base used capacity];
      (split; [right; cbn; lia|]); (split; [lia|]); (split; [lia|]); try done. repeat split; lia.
Qed.

(** Adapters for several functions, one after the other. *)
Fixpoint wrap_all (l : list Z) (t : thunks H) : list Z * thunks H :=
  match l with
  | [] => ([], t)
  | f :: l => let '(a, t) := wrap_ctor_for_apple_abi H f t in
              let '(rest, t) := wrap_all l t in (a :: rest, t)
  end.

(** An adapter for [f] below the used part of its pool. *)
Definition adapter_in (t : thunks H) (f a : Z) : Prop :=
  thunk_at (th_mem H t) a ctor_words f /\ base (ctor_tramp H t) <> 0 /\
  base (ctor_tramp H t) <= a /\ a + 32 <= base (ctor_tramp H t) + used (ctor_tramp H t).

Lemma thunk_at_ext m m' a ws target :
  (forall x, a <= x < a + 4 * Z.of_nat (length ws) + 8 -> m' x = m x) -> thunk_at m a ws target -> thunk_at m' a ws target.
Proof.
  intros Hx [Hw Hl]. split.
  - eapply thunk_words_ext; [|exact Hw]. intros x Hr. apply Hx. lia.
  - rewrite <- Hl. apply load_ext. intros x Hr. apply Hx. lia.
Qed.

Lemma write_thunk_out a ws target m x :
  ~ a <= x < a + 4 * Z.of_nat (length ws) + 8 -> write_thunk a ws target m x = m x.
Proof. intros Hx. unfold write_thunk. rewrite store_out by lia. apply write_code_out. lia. Qed.

Lemma wrap_ctor_spec f t :
  maps_user_space -> 0 <= mh_page H -> pool_ok (ctor_tramp H t) -> 0 <= f < 2 ^ 64 ->
  let '(a, t') := wrap_ctor_for_apple_abi H f t in
  pool_ok (ctor_tramp H t') /\ (a = f \/ adapter_in t' f a) /\
  forall g b, adapter_in t g b -> adapter_in t' g b.
Proof.
  intros Hm Hpg Hp Hf. unfold wrap_ctor_for_apple_abi.
  pose proof (take_slot_spec (mh_page H * 4) 32 (ctor_tramp H t) (th_host H t) Hm Hp ltac:(lia) ltac:(lia)) as Ht.
  destruct (take_slot H (mh_page H * 4) 32 (ctor_tramp H t) (th_host H t)) as [[slot p] h].
  destruct Ht as (Hok&Hb&Hu&Ht). destruct slot as [a|]; cbn [ctor_tramp th_mem].
  - destruct Ht as (Ea&Eu&Hb0&_). split; [done|]. split.
    + right. split; [apply write_thunk_at; [apply ctor_words_ok|done]|]. cbn [ctor_tramp]. destruct Hp as [[_ E]|Hp]; lia.
    + intros g b (Hg&Hnz&Hlo&Hhi). specialize (Hb Hnz). split; [|cbn [ctor_tramp]; lia].
      eapply thunk_at_ext; [|exact Hg]. intros x Hx. apply write_thunk_out. cbn [ctor_words length] in *. lia.
  - split; [done|]. split; [by left|]. intros g b (Hg&Hnz&Hlo&Hhi). specialize (Hb Hnz).
    split; [done|]. cbn [ctor_tramp]. lia.
Qed.

Lemma wrap_all_spec l t :
  maps_user_space -> 0 <= mh_page H -> pool_ok (ctor_tramp H t) -> Forall (fun f => 0 <= f < 2 ^ 64) l ->
  let '(addrs, t') := wrap_all l t in
  Forall2 (fun f a => a = f \/ adapter_in t' f a) l addrs /\ forall g b, adapter_in t g b -> adapter_in t' g b.
Proof.
  intros Hm Hpg Hp Hl. revert t Hp. induction Hl as [|f l Hf Hl IH]; intros t Hp; cbn [wrap_all]; [by split; [constructor|]|].
  pose proof (wrap_ctor_spec f t Hm Hpg Hp Hf) as Hw. destruct (wrap_ctor_for_apple_abi H f t) as [a t1].
  destruct Hw as (Hp1&Ha&Hk). specialize (IH t1 Hp1). destruct (wrap_all l t1) as [rest t2]. destruct IH as [H2 Hk2].
  split; [|by auto]. constructor; [|done]. destruct Ha as [Ha|Ha]; [by left|right; by apply Hk2].
Qed.
End pools.

(** Calling [a] calls [f] with the arguments unchanged and comes back with the
    first argument in x0, whatever [f] left there: the Apple convention for
    constructors. *)
Definition returns_this (m : bytemem) (f a : Z) : Prop :=
  forall st, calling a 6 f 16 st ->
  exists s1, reaches (fetch m) st s1 /\ cpu_pc s1 = f /\ cpu_sp s1 = cpu_sp st - 16 /\
    (forall r, r <> 16 -> r <> 30 -> cpu_x s1 r = cpu_x st r) /\ cpu_v s1 = cpu_v st /\
    (forall x, ~ cpu_sp st - 16 <= x < cpu_sp st -> cpu_mem s1 x = cpu_mem st x) /\
    forall s2, cpu_pc s2 = cpu_x s1 30 -> cpu_sp s2 = cpu_sp s1 ->
      (forall x, cpu_sp st - 16 <= x < cpu_sp st -> cpu_mem s2 x = cpu_mem s1 x) ->
    exists s3, reaches (fetch m) s2 s3 /\ cpu_pc s3 = cpu_x st 30 /\ cpu_x s3 0 = cpu_x st 0 /\
      cpu_x s3 30 = cpu_x st 30 /\ cpu_sp s3 = cpu_sp st /\
      (forall r, r <> 0 -> r <> 30 -> cpu_x s3 r = cpu_x s2 r) /\ cpu_v s3 = cpu_v s2 /\ cpu_mem s3 = cpu_mem s2.

Lemma thunk_returns_this m f a : thunk_at m a ctor_words f -> returns_this m f a.
Proof.
  intros Ht st Hc. destruct (ctor_calls m a f st Ht Hc) as (s1&Hr&Hpc&Hsp&Hx&Hv&L1&L2&Hm).
  exists s1. rewrite Hx. repeat (split; [done|]). split; [intros r H1 H2; by rewrite !upd_ne|]. repeat (split; [done|]).
  rewrite upd_eq. intros s2 P2 S2 M2. rewrite Hsp in S2.
  destruct (ctor_returns m a f st s2 Ht Hc P2 S2) as (s3&R3&P3&S3&X3&V3&M3).
  { rewrite <- L1. apply load_ext. intros x Hxx. apply M2. lia. }
  { rewrite <- L2. apply load_ext. intros x Hxx. apply M2. lia. }
  exists s3. rewrite X3. split; [done|]. split; [done|]. split; [apply upd_eq|].
  split; [by rewrite upd_ne, upd_eq by lia|]. split; [done|]. split; [intros r H1 H2; by rewrite !upd_ne|done].
Qed.

(** Constructor adapters.  Whatever functions are wrapped one after the
    other, each gets its own address back (no room) or an adapter that, after
    all of them were built, still calls it with unchanged arguments and returns
    the object pointer in x0, leaving the stack and every other register as
    the function left them. *)
Theorem ctor_adapters_return_this H l t :
  maps_user_space H -> 0 <= mh_page H -> pool_ok (ctor_tramp H t) -> Forall (fun f => 0 <= f < 2 ^ 64) l ->
  let '(addrs, t') := wrap_all H l t in
  Forall2 (fun f a => a = f \/ returns_this (th_mem H t') f a) l addrs.
Proof.
  intros Hm Hpg Hp Hl. pose proof (wrap_all_spec H l t Hm Hpg Hp Hl) as Hw. destruct (wrap_all H l t) as [addrs t'].
  destruct Hw as [Hw _]. eapply Forall2_impl; [exact Hw|]. intros f a [E|[Ht _]]; [by left|right; by apply thunk_returns_this].
Qed.

Definition sample_host : map_host :=
  {| mh_state := unit; mh_mmap := fun n h => (if n <? 2 ^ 40 then Some 0x10000 else None, h); mh_page := 4096 |}.
Definition sample_thunks : thunks sample_host :=
  mk_th sample_host (fun _ => 0) no_pool no_pool no_pool no_pool no_pool 0 tt.

Lemma sample_host_maps : maps_user_space sample_host.
Proof. intros n h a h' E. cbn in E. destruct (Z.ltb_spec n (2 ^ 40)); [|done]. injection E as <- _. lia. Qed.

Lemma ctor_adapters_return_this_witness :
  fst (wrap_all sample_host [0x5000; 0x6000] sample_thunks) = [0x10000; 0x10020] /\
  let '(addrs, t') := wrap_all sample_host [0x5000; 0x6000] sample_thunks in
  Forall2 (fun f a => a = f \/ returns_this (th_mem sample_host t') f a) [0x5000; 0x6000] addrs.
Proof.
  split; [reflexivity|].
  refine (ctor_adapters_return_this sample_host [0x5000; 0x6000] sample_thunks sample_host_maps _ _ _).
  - cbn. lia.
  - left. done.
  - apply List.Forall_cons; [lia|]. apply List.Forall_cons; [lia|apply List.Forall_nil].
Defined.

(** * The variadic adapters

    On Apple's ARM64 all variadic arguments are on the stack; a Linux callee
    reads them through a [va_list].  The adapter builds one whose register
    areas are exhausted, so that every argument comes from the stack. *)

Import Thunks.

(** ** va_list (AAPCS64, appendix B) *)

(** [struct __va_list] at [ap]: [__stack], [__gr_top], [__vr_top],
    [__gr_offs], [__vr_offs]. *)
Definition va_list_at (m : bytemem) (ap stk gr_top vr_top gr_offs vr_offs : Z) : Prop :=
  load 8 ap m = stk /\ load 8 (ap + 8) m = gr_top /\ load 8 (ap + 16) m = vr_top /\
  load 4 (ap + 24) m = gr_offs /\ load 4 (ap + 28) m = vr_offs.

(** [va_arg] for an argument of eight bytes: of a floating-point type (double),
    or else of an integer or pointer type. *)
Inductive arg_kind := General | Floating.

(** The argument and the memory with [ap] advanced: from the area of the saved
    registers of its kind while the offset is negative, else from the stack. *)
Definition va_arg (kind : arg_kind) (ap : Z) (m : bytemem) : Z * bytemem :=
  let '(top, offs_at, step) := match kind with General => (ap + 8, ap + 24, 8) | Floating => (ap + 16, ap + 28, 16) end in
  let on_stack m := let p := load 8 ap m in (load 8 p m, store 8 ap (p + 8) m) in
  let offs := signed 32 (load 4 offs_at m) in
  if 0 <=? offs then on_stack m
  else
    let m := store 4 offs_at (offs + step) m in
    if 0 <? offs + step then on_stack m else (load 8 (load 8 top m + offs) m, m).

Fixpoint va_args (kinds : list arg_kind) (ap : Z) (m : bytemem) : list Z :=
  match kinds with
  | [] => []
  | kind :: kinds => let '(v, m) := va_arg kind ap m in v :: va_args kinds ap m
  end.

Lemma va_args_on_stack kinds ap m stk gr_top vr_top :
  va_list_at m ap stk gr_top vr_top 0 0 -> 0 <= stk -> stk + 8 * Z.of_nat (length kinds) < 2 ^ 64 ->
  stk + 8 * Z.of_nat (length kinds) <= ap \/ ap + 32 <= stk ->
  va_args kinds ap m = map (fun i => load 8 (stk + 8 * Z.of_nat i) m) (seq 0 (length kinds)).
Proof.
  revert m stk. induction kinds as [|kind kinds IH]; intros m stk Hva H0 Hb Hd; [done|]. cbn [length] in Hb, Hd.
  assert (Harg : va_arg kind ap m = (load 8 stk m, store 8 ap (stk + 8) m)).
  { destruct Hva as (H1&H2&H3&H4&H5). unfold va_arg. destruct kind; by rewrite ?H4, ?H5, H1. }
  cbn [va_args seq map length]. rewrite Harg. destruct Hva as (H1&H2&H3&H4&H5).
  f_equal; [f_equal; lia|].
  rewrite (IH _ (stk + 8)); [|repeat split|lia|lia|lia].
  - rewrite <- seq_shift, map_map. apply map_ext_in. intros i Hi. apply in_seq in Hi.
    rewrite load_store_disj by lia. f_equal. lia.
  - rewrite load_store_same by lia. apply Z.mod_small. lia.
  - by rewrite load_store_disj by lia.
  - by rewrite load_store_disj by lia.
  - by rewrite load_store_disj by lia.
  - by rewrite load_store_disj by lia.
Qed.

(** ** Running the adapter *)

Definition source_instr (vi : variadic_info) : instr :=
  if is_va_list vi then ALU A_ORR 1 8 31 (source_reg vi) else ADDimm 8 29 48.

Definition vi_ok (vi : variadic_info) : Prop := 0 <= dest_reg vi < 8 /\ 0 <= source_reg vi < 8.

Lemma variadic_functions_ok : Forall vi_ok variadic_functions.
Proof. apply (bool_decide_unpack _). by vm_compute. Qed.

Lemma decode_dest d : 0 <= d < 8 -> decode (0x910043E0 .| d) = Some (ADDimm d 31 16).
Proof. intros Hd. assert (d = 0 \/ d = 1 \/ d = 2 \/ d = 3 \/ d = 4 \/ d = 5 \/ d = 6 \/ d = 7) as Hc by lia. by destruct_or! Hc; subst. Qed.

Lemma decode_source vi :
  vi_ok vi -> decode (if is_va_list vi then 0xAA0003E8 .| (source_reg vi .<< 16) else 0x9100C3A8) = Some (source_instr vi).
Proof.
  intros [_ Hs]. unfold source_instr. destruct (is_va_list vi); [|done]. set (r := source_reg vi) in *. clearbody r.
  assert (r = 0 \/ r = 1 \/ r = 2 \/ r = 3 \/ r = 4 \/ r = 5 \/ r = 6 \/ r = 7) as Hc by lia. by destruct_or! Hc; subst.
Qed.

Lemma addimm_effect st d n imm :
  d <> 31 -> 0 <= rbase st n -> 0 <= imm -> rbase st n + imm < 2 ^ 64 ->
  let s := exec (ADDimm d n imm) st in
  cpu_mem s = cpu_mem st /\ cpu_sp s = cpu_sp st /\ cpu_x s = upd (cpu_x st) d (rbase st n + imm) /\ cpu_v s = cpu_v st.
Proof.
  intros Hd H0 H1 H2. cbn [exec]. rewrite u64_small by lia. unfold wbase. by destruct (Z.eqb_spec d 31).
Qed.

Lemma strimm_effect st r imm :
  0 <= cpu_sp st -> 0 <= imm -> cpu_sp st + imm < 2 ^ 64 ->
  let s := exec (STRimm r 31 imm) st in
  cpu_mem s = store 8 (cpu_sp st + imm) (rx st r) (cpu_mem st) /\ cpu_sp s = cpu_sp st /\ cpu_x s = cpu_x st /\ cpu_v s = cpu_v st.
Proof. intros H0 H1 H2. cbn [exec]. unfold rbase. cbn [Z.eqb Pos.eqb]. by rewrite u64_small by lia. Qed.

Lemma stpw_effect st imm :
  0 <= cpu_sp st -> 0 <= imm -> cpu_sp st + imm < 2 ^ 64 ->
  let s := exec (STPw 31 31 31 imm) st in
  cpu_mem s = store 4 (cpu_sp st + imm + 4) 0 (store 4 (cpu_sp st + imm) 0 (cpu_mem st)) /\
  cpu_sp s = cpu_sp st /\ cpu_x s = cpu_x st /\ cpu_v s = cpu_v st.
Proof. intros H0 H1 H2. cbn [exec]. unfold rbase. cbn [Z.eqb Pos.eqb]. by rewrite u64_small by lia. Qed.

(** Where the arguments are: the caller's stack or the list it passed. *)
Definition arguments (vi : variadic_info) (st : cpu) : Z :=
  if is_va_list vi then cpu_x st (source_reg vi) else cpu_sp st.

(** The frame of the adapter at [b]. *)
Definition variadic_frame (b x29 x30 args : Z) (m : bytemem) : bytemem :=
  store 4 (b + 44) 0 (store 4 (b + 40) 0 (store 8 (b + 32) 0 (store 8 (b + 24) 0 (store 8 (b + 16) args
    (store 8 (b + 8) x30 (store 8 b x29 m)))))).

Lemma variadic_frame_out b x29 x30 args m x : ~ b <= x < b + 48 -> variadic_frame b x29 x30 args m x = m x.
Proof. intros Hx. unfold variadic_frame. by rewrite !store_out by lia. Qed.

Lemma variadic_frame_holds b x29 x30 args m :
  0 <= x29 < 2 ^ 64 -> 0 <= x30 < 2 ^ 64 -> 0 <= args < 2 ^ 64 ->
  let m' := variadic_frame b x29 x30 args m in
  load 8 b m' = x29 /\ load 8 (b + 8) m' = x30 /\ va_list_at m' (b + 16) args 0 0 0 0.
Proof.
  intros H1 H2 H3. unfold variadic_frame, va_list_at.
  replace (b + 16 + 8) with (b + 24) by lia. replace (b + 16 + 16) with (b + 32) by lia.
  replace (b + 16 + 24) with (b + 40) by lia. replace (b + 16 + 28) with (b + 44) by lia.
  repeat split; rewrite ?load_store_disj by lia; rewrite load_store_same by lia; by apply Z.mod_small.
Qed.

Section run.
Context (m : bytemem) (a target : Z) (vi : variadic_info) (st : cpu).
Context (Hvi : vi_ok vi) (Ht : thunk_at m a (variadic_words vi) target) (Hc : calling a 12 target 48 st).
Notation b := (cpu_sp st - 48).

(** The first six instructions: the frame is set up. *)
Lemma variadic_prologue :
  exists s, reaches (fetch m) st s /\ cpu_pc s = a + 4 + 4 + 4 + 4 + 4 + 4 + 4 /\ cpu_sp s = b /\
    cpu_x s = upd (upd (cpu_x st) 29 b) 8 (arguments vi st) /\ cpu_v s = cpu_v st /\
    cpu_mem s = variadic_frame b (cpu_x st 29) (cpu_x st 30) (arguments vi st) (cpu_mem st).
Proof.
  destruct Ht as [Hw _], Hc as [_ Hpc Hr Hsp Hx _]. destruct Hw as (W0&W1&W2&W3&W4&W5&W6&_).
  destruct (stp_frame st 48 29 30) as (M0&S0&X0&V0); try lia. step_to s0 (STPpre 29 30 31 (-48)) W0 P0.
  change (exec (STPpre 29 30 31 (- (48))) st) with s0 in M0, S0, X0, V0. clearbody s0.
  destruct (addimm_effect s0 29 31 0) as (M1&S1&X1&V1); try (unfold rbase; cbn [Z.eqb Pos.eqb]; lia).
  step_to s1 (ADDimm 29 31 0) W1 P1. fold s1 in M1, S1, X1, V1. unfold rbase in X1. cbn [Z.eqb Pos.eqb] in X1.
  rewrite S0, X0, Z.add_0_r in X1. clearbody s1.
  assert (E2 : let s := exec (source_instr vi) s1 in cpu_mem s = cpu_mem s1 /\ cpu_sp s = cpu_sp s1 /\
                 cpu_x s = upd (cpu_x s1) 8 (arguments vi st) /\ cpu_v s = cpu_v s1).
  { unfold source_instr, arguments. destruct (is_va_list vi).
    - cbn [exec]. rewrite wx_ne by lia. cbn [next set_pc set_x cpu_mem cpu_sp cpu_x cpu_v]. repeat split. f_equal.
      destruct Hvi as [_ Hs]. unfold rop, opw. cbn [Z.eqb Pos.eqb]. rewrite (rx_ne (source_reg vi)), X1, upd_ne by lia.
      change (rx s1 31) with 0. cbn [alu]. rewrite Z.mod_0_l, Z.lor_0_l, !(Z.mod_small (cpu_x st (source_reg vi))) by (apply Hx || lia). done.
    - assert (Hb29 : rbase s1 29 = b) by (unfold rbase; cbn [Z.eqb Pos.eqb]; by rewrite X1, upd_eq).
      destruct (addimm_effect s1 8 29 48) as (M2&S2&X2&V2); try (rewrite ?Hb29; lia). rewrite Hb29 in X2.
      repeat split; try done. rewrite X2. f_equal. lia. }
  destruct E2 as (M2&S2&X2&V2).
  assert (R2 : reaches (fetch m) s1 (exec (source_instr vi) s1)).
  { eapply reaches_step; [rewrite P1; exact W2|by apply decode_source]. }
  assert (P2 : cpu_pc (exec (source_instr vi) s1) = a + 4 + 4 + 4).
  { rewrite exec_pc, P1 by (unfold source_instr; by destruct (is_va_list vi)). apply u64_small. lia. }
  clear P1. set (s2 := exec (source_instr vi) s1) in *. clearbody s2.
  destruct (strimm_effect s2 8 16) as (M3&S3&X3&V3); try lia. step_to s3 (STRimm 8 31 16) W3 P3. fold s3 in M3, S3, X3, V3.
  rewrite rx_ne, X2, upd_eq in M3 by lia. clearbody s3.
  destruct (strimm_effect s3 31 24) as (M4&S4&X4&V4); try lia. step_to s4 (STRimm 31 31 24) W4 P4. fold s4 in M4, S4, X4, V4.
  change (rx s3 31) with 0 in M4. clearbody s4.
  destruct (strimm_effect s4 31 32) as (M5&S5&X5&V5); try lia. step_to s5 (STRimm 31 31 32) W5 P5. fold s5 in M5, S5, X5, V5.
  change (rx s4 31) with 0 in M5. clearbody s5.
  destruct (stpw_effect s5 40) as (M6&S6&X6&V6); try lia. step_to s6 (STPw 31 31 31 40) W6 P6. fold s6 in M6, S6, X6, V6.
  clearbody s6. exists s6. split; [by repeat (etrans; [eassumption|]); apply reaches_refl|]. split; [done|].
  rewrite S6, S5, S4, S3, S2, S1, S0, X6, X5, X4, X3, X2, X1, V6, V5, V4, V3, V2, V1, V0. repeat (split; [done|]).
  rewrite M6, M5, M4, M3, M2, M1, M0, S5, S4, S3, S2, S1, S0. unfold variadic_frame.
  by replace (b + 40 + 4) with (b + 44) by lia.
Qed.

(** The call of the [v...] function. *)
Lemma variadic_calls :
  exists s, reaches (fetch m) st s /\ cpu_pc s = target /\ cpu_sp s = b /\ cpu_x s (dest_reg vi) = b + 16 /\
    cpu_x s 30 = a + 40 /\
    (forall r, ~ In r [8; 16; 29; 30; dest_reg vi] -> cpu_x s r = cpu_x st r) /\ cpu_v s = cpu_v st /\
    cpu_mem s = variadic_frame b (cpu_x st 29) (cpu_x st 30) (arguments vi st) (cpu_mem st).
Proof.
  destruct variadic_prologue as (s6&R6&P6&S6&X6&V6&M6). destruct Ht as [Hw _], Hc as [Hl _ Hr Hsp Hx Hap], Hvi as [Hd _].
  destruct Hw as (_&_&_&_&_&_&_&W7&W8&W9&_).
  destruct (addimm_effect s6 (dest_reg vi) 31 16) as (M7&S7&X7&V7); try (unfold rbase; cbn [Z.eqb Pos.eqb]; lia).
  assert (R7 : reaches (fetch m) s6 (exec (ADDimm (dest_reg vi) 31 16) s6)).
  { eapply reaches_step; [rewrite P6; exact W7|by apply decode_dest]. }
  assert (P7 : cpu_pc (exec (ADDimm (dest_reg vi) 31 16) s6) = a + 32).
  { rewrite exec_pc, P6, u64_small by (done || lia). lia. }
  unfold rbase in X7. cbn [Z.eqb Pos.eqb] in X7. clear P6. set (s7 := exec (ADDimm (dest_reg vi) 31 16) s6) in *. clearbody s7.
  assert (L8 : load 8 (u64 (cpu_pc s7 + 4 * 4)) (cpu_mem s7) = target).
  { rewrite P7, u64_small, M7, M6 by lia. rewrite (load_ext _ _ _ (cpu_mem st)); [rewrite <- Hl; f_equal; lia|].
    intros x Hxx. apply variadic_frame_out. lia. }
  replace (a + 4 + 4 + 4 + 4 + 4 + 4 + 4 + 4) with (a + 32) in W8 by lia.
  destruct (ldrlit_effect s7 16 4 target ltac:(lia) L8) as (M8&S8&X8&V8). step_to s8 (LDRlit 16 4) W8 P8. fold s8 in M8, S8, X8, V8.
  clearbody s8. destruct (blr_effect s8 16 _ ltac:(lia) P8 ltac:(lia) ltac:(lia)) as (P9&M9&S9&X9&V9).
  exists (exec (BLR 16) s8). rewrite P9, M9, S9, X9, V9, S8, X8, V8, M8, S7, X7, V7, M7, X6, S6.
  replace (a + 4 + 4 + 4 + 4 + 4 + 4 + 4 + 4 + 4) with (a + 32 + 4) in W9 by lia.
  split. { repeat (etrans; [eassumption|]). eapply reaches_step; [rewrite P8; exact W9|reflexivity]. }
  split; [apply upd_eq|]. split; [done|]. split; [by rewrite !upd_ne, upd_eq by lia|]. split; [rewrite upd_eq; lia|].
  split; [|done]. intros r Hr'. cbn in Hr'. rewrite !upd_ne by tauto || (intros ->; tauto). done.
Qed.

(** Its return. *)
Lemma variadic_returns s2 :
  cpu_pc s2 = a + 40 -> cpu_sp s2 = b ->
  load 8 b (cpu_mem s2) = cpu_x st 29 -> load 8 (b + 8) (cpu_mem s2) = cpu_x st 30 ->
  exists s3, reaches (fetch m) s2 s3 /\ cpu_pc s3 = cpu_x st 30 /\ cpu_sp s3 = cpu_sp st /\
    cpu_x s3 = upd (upd (cpu_x s2) 29 (cpu_x st 29)) 30 (cpu_x st 30) /\ cpu_v s3 = cpu_v s2 /\ cpu_mem s3 = cpu_mem s2.
Proof.
  intros Hpc Hs2 L1 L2. destruct Ht as [Hw _], Hc as [Hl _ Hr Hsp Hx Hap].
  destruct Hw as (_&_&_&_&_&_&_&_&_&_&W10&W11&_).
  destruct (ldp_frame s2 48 29 30) as (M3&S3&V3&X3); try lia. rewrite Hs2, L1, L2 in X3. rewrite Hs2 in S3.
  replace (a + 40) with (a + 4 + 4 + 4 + 4 + 4 + 4 + 4 + 4 + 4 + 4) in Hpc by lia.
  step_to s3 (LDPpost 29 30 31 48) W10 P3. fold s3 in M3, S3, V3, X3. clearbody s3.
  destruct (ret_effect s3 30 ltac:(lia)) as (P4&M4&S4&X4&V4).
  exists (exec (RET 30) s3). rewrite P4, M4, S4, X4, V4, X3, S3, V3, M3.
  split. { etrans; [eassumption|]. eapply reaches_step; [rewrite P3; exact W11|reflexivity]. }
  split; [apply upd_eq|]. split; [lia|done].
Qed.
End run.

(** Calling [a] calls the [v...] function [f] with the named arguments in
    place and, in [dest_reg], a [va_list] whose register areas are used up, so
    that [va_arg] yields the caller's arguments in order, whatever kinds the
    callee asks for; the return gives the caller its frame back. *)
Definition passes_va_list (m : bytemem) (vi : variadic_info) (f a : Z) : Prop :=
  forall st, calling a 12 f 48 st ->
  let args := arguments vi st in
  exists s1, reaches (fetch m) st s1 /\ cpu_pc s1 = f /\
    va_list_at (cpu_mem s1) (cpu_x s1 (dest_reg vi)) args 0 0 0 0 /\
    (forall kinds, let k := length kinds in
      args + 8 * Z.of_nat k <= cpu_sp st - 48 \/ cpu_sp st <= args -> args + 8 * Z.of_nat k < 2 ^ 64 ->
      va_args kinds (cpu_x s1 (dest_reg vi)) (cpu_mem s1) = map (fun i => load 8 (args + 8 * Z.of_nat i) (cpu_mem st)) (seq 0 k)) /\
    (forall r, 0 <= r < dest_reg vi -> cpu_x s1 r = cpu_x st r) /\ cpu_v s1 = cpu_v st /\
    (forall x, ~ cpu_sp st - 48 <= x < cpu_sp st -> cpu_mem s1 x = cpu_mem st x) /\
    forall s2, cpu_pc s2 = cpu_x s1 30 -> cpu_sp s2 = cpu_sp s1 ->
      (forall x, cpu_sp st - 48 <= x < cpu_sp st - 32 -> cpu_mem s2 x = cpu_mem s1 x) ->
    exists s3, reaches (fetch m) s2 s3 /\ cpu_pc s3 = cpu_x st 30 /\ cpu_sp s3 = cpu_sp st /\
      cpu_x s3 29 = cpu_x st 29 /\ cpu_x s3 30 = cpu_x st 30 /\
      (forall r, r <> 29 -> r <> 30 -> cpu_x s3 r = cpu_x s2 r) /\ cpu_v s3 = cpu_v s2 /\ cpu_mem s3 = cpu_mem s2.

Lemma arguments_range vi a n f k st : calling a n f k st -> 0 <= k -> 0 <= arguments vi st < 2 ^ 64.
Proof. intros [_ _ _ Hsp Hx _] Hk. unfold arguments. destruct (is_va_list vi); [apply Hx|lia]. Qed.

Lemma thunk_passes_va_list m vi f a :
  vi_ok vi -> thunk_at m a (variadic_words vi) f -> passes_va_list m vi f a.
Proof.
  intros Hvi Ht st Hc args. pose proof (arguments_range vi _ _ _ _ _ Hc ltac:(lia)) as Ha. fold args in Ha.
  destruct (variadic_calls m a f vi st Hvi Ht Hc) as (s1&R&P&S&D&L&X&V&M). fold args in M.
  destruct (variadic_frame_holds (cpu_sp st - 48) (cpu_x st 29) (cpu_x st 30) args (cpu_mem st)
    (at_regs _ _ _ _ _ Hc 29) (at_regs _ _ _ _ _ Hc 30) Ha) as (L1&L2&Hva).
  exists s1. split; [done|]. split; [done|]. split; [by rewrite D, M|]. split; [|split; [|split; [done|split]]].
  - intros kinds k Hd Hb. rewrite D, M. erewrite va_args_on_stack; [|exact Hva|lia..]. apply map_ext_in. intros i Hi. apply in_seq in Hi.
    apply load_ext. intros x Hx. apply variadic_frame_out. lia.
  - intros r Hr. apply X. destruct Hvi. cbn. lia.
  - intros x Hx. rewrite M. apply variadic_frame_out. lia.
  - rewrite L, S. intros s2 P2 S2 M2.
    destruct (variadic_returns m a f vi st Ht Hc s2 P2 S2) as (s3&R3&P3&S3&X3&V3&M3).
    { rewrite <- L1, <- M. apply load_ext. intros x Hx. apply M2. lia. }
    { rewrite <- L2, <- M. apply load_ext. intros x Hx. apply M2. lia. }
    exists s3. rewrite X3. split; [done|]. split; [done|]. split; [done|]. split; [by rewrite upd_ne, upd_eq by lia|].
    split; [apply upd_eq|]. split; [intros r H1 H2; by rewrite !upd_ne|done].
Qed.

Lemma variadic_words_ok vi : vi_ok vi -> Forall is_word (variadic_words vi).
Proof.
  intros [Hd Hs]. unfold is_word.
  assert (H7 : 0 <= (if is_va_list vi then 0xAA0003E8 .| (source_reg vi .<< 16) else 0x9100C3A8) < 2 ^ 32 /\
               0 <= 0x910043E0 .| dest_reg vi < 2 ^ 32).
  { set (d := dest_reg vi) in *. set (r := source_reg vi) in *. clearbody d r.
    assert (d = 0 \/ d = 1 \/ d = 2 \/ d = 3 \/ d = 4 \/ d = 5 \/ d = 6 \/ d = 7) as Hcd by lia.
    assert (r = 0 \/ r = 1 \/ r = 2 \/ r = 3 \/ r = 4 \/ r = 5 \/ r = 6 \/ r = 7) as Hcr by lia.
    split; [destruct (is_va_list vi); [destruct_or! Hcr; subst; by vm_compute|lia]|destruct_or! Hcd; subst; by vm_compute]. }
  destruct H7 as [H7 H8]. unfold variadic_words.
  repeat (apply List.Forall_cons; [assumption || lia|]). apply List.Forall_nil.
Qed.

Lemma lookup_variadic_ok name vi : lookup_variadic name = Some vi -> vi_ok vi.
Proof.
  intros Hf. apply List.find_some in Hf as [Hin _]. pose proof variadic_functions_ok as Hok.
  rewrite Forall_forall in Hok. apply Hok. by apply list_elem_of_In.
Qed.

(** C22. Variadic adapters.  For each function of the table, the adapter built
    for it (when its pool has room) calls the [v...] function with the named
    arguments where they were and a Linux [va_list] that says no argument is
    left in registers, general or floating-point: from it [va_arg] reads, one
    after the other, the eight-byte arguments (integers, pointers, doubles, in
    any mixture) that the Apple caller put on its stack (or in the list it
    passed), as long as they do not reach into the adapter's frame.  When the
    function returns, the caller's frame pointer, return address and stack
    pointer are back. *)
Theorem variadic_adapters_pass_arguments H name vi f t :
  maps_user_space H -> 0 <= mh_page H -> pool_ok (variadic_pool H t) -> 0 <= f < 2 ^ 64 ->
  lookup_variadic name = Some vi ->
  let '(a, t') := create_variadic_thunk H f vi t in
  pool_ok (variadic_pool H t') /\ (a = 0 \/ passes_va_list (th_mem H t') vi f a).
Proof.
  intros Hm Hpg Hp Hf Hl. apply lookup_variadic_ok in Hl. unfold create_variadic_thunk.
  pose proof (take_slot_spec H (mh_page H * 2) 56 (variadic_pool H t) (th_host H t) Hm Hp ltac:(lia) ltac:(lia)) as Ht.
  destruct (take_slot H (mh_page H * 2) 56 (variadic_pool H t) (th_host H t)) as [[slot p] h].
  destruct Ht as (Hok&_&_&Ht). destruct slot as [a|]; cbn [variadic_pool th_mem]; (split; [done|]); [right|by left].
  apply thunk_passes_va_list; [done|]. apply write_thunk_at; [by apply variadic_words_ok|done].
Qed.

(** [snprintf] called at the adapter with three arguments on the stack. *)
Definition snprintf_info : variadic_info := mk_vi (str "snprintf") (str "vsnprintf") 3 false 0.

Lemma variadic_adapters_pass_arguments_witness :
  fst (create_variadic_thunk sample_host 0x7000 snprintf_info sample_thunks) = 0x10000 /\
  let '(a, t') := create_variadic_thunk sample_host 0x7000 snprintf_info sample_thunks in
  pool_ok (variadic_pool sample_host t') /\ (a = 0 \/ passes_va_list (th_mem sample_host t') snprintf_info 0x7000 a).
Proof.
  split; [reflexivity|].
  refine (variadic_adapters_pass_arguments sample_host (str "snprintf") snprintf_info 0x7000 sample_thunks sample_host_maps _ _ _ _).
  - cbn. lia.
  - by left.
  - lia.
  - reflexivity.
Defined.

(** ** The third argument from the stack *)

Lemma ldrimm_effect st d n imm :
  d <> 31 -> 0 <= rbase st n -> 0 <= imm -> rbase st n + imm < 2 ^ 64 ->
  let s := exec (LDRimm d n imm) st in
  cpu_mem s = cpu_mem st /\ cpu_sp s = cpu_sp st /\
  cpu_x s = upd (cpu_x st) d (load 8 (rbase st n + imm) (cpu_mem st)) /\ cpu_v s = cpu_v st.
Proof. intros Hd H0 H1 H2. cbn [exec]. by rewrite wx_ne, u64_small by lia. Qed.

Lemma stack_arg3_calls m a f st :
  thunk_at m a stack_arg3_words f -> calling a 8 f 16 st -> cpu_sp st + 8 <= 2 ^ 64 ->
  let b := cpu_sp st - 16 in
  exists s, reaches (fetch m) st s /\ cpu_pc s = f /\ cpu_sp s = b /\
    cpu_x s = upd (upd (upd (upd (cpu_x st) 29 b) 2 (load 8 (cpu_sp st) (cpu_mem st))) 16 f) 30 (a + 20) /\
    cpu_v s = cpu_v st /\ cpu_mem s = store 8 (b + 8) (cpu_x st 30) (store 8 b (cpu_x st 29) (cpu_mem st)).
Proof.
  intros [Hw _] [Hl Hpc Hr Hsp Hx Hap] Htop b. destruct Hw as (W0&W1&W2&W3&W4&_).
  destruct (stp_frame st 16 29 30) as (M0&S0&X0&V0); try lia. step_to s0 (STPpre 29 30 31 (-16)) W0 P0.
  change (exec (STPpre 29 30 31 (- (16))) st) with s0 in M0, S0, X0, V0. fold b in M0, S0. clearbody s0.
  destruct (addimm_effect s0 29 31 0) as (M1&S1&X1&V1); try (unfold rbase; cbn [Z.eqb Pos.eqb]; lia).
  step_to s1 (ADDimm 29 31 0) W1 P1. fold s1 in M1, S1, X1, V1. unfold rbase in X1. cbn [Z.eqb Pos.eqb] in X1.
  rewrite S0, X0, Z.add_0_r in X1. clearbody s1.
  assert (Hb29 : rbase s1 29 = b) by (unfold rbase; cbn [Z.eqb Pos.eqb]; by rewrite X1, upd_eq).
  destruct (ldrimm_effect s1 2 29 16) as (M2&S2&X2&V2); try (rewrite ?Hb29; unfold b; lia).
  step_to s2 (LDRimm 2 29 16) W2 P2. fold s2 in M2, S2, X2, V2. rewrite Hb29, M1, M0 in X2.
  rewrite (load_ext 8 (b + 16) _ (cpu_mem st)) in X2 by (intros x Hxx; apply store2_out; lia).
  replace (b + 16) with (cpu_sp st) in X2 by (unfold b; lia). clearbody s2.
  assert (L3 : load 8 (u64 (cpu_pc s2 + 4 * 5)) (cpu_mem s2) = f).
  { rewrite P2, u64_small, M2, M1, M0 by lia. rewrite (load_ext _ _ _ (cpu_mem st)); [rewrite <- Hl; f_equal; lia|].
    intros x Hxx. apply store2_out. unfold b. lia. }
  destruct (ldrlit_effect s2 16 5 f ltac:(lia) L3) as (M3&S3&X3&V3). step_to s3 (LDRlit 16 5) W3 P3. fold s3 in M3, S3, X3, V3.
  clearbody s3. destruct (blr_effect s3 16 _ ltac:(lia) P3 ltac:(lia) ltac:(lia)) as (P4&M4&S4&X4&V4).
  exists (exec (BLR 16) s3). rewrite P4, M4, S4, X4, V4, S3, X3, V3, M3, S2, X2, V2, M2, S1, X1, V1, M1, S0, V0, M0.
  split. { repeat (etrans; [eassumption|]). eapply reaches_step; [rewrite P3; exact W4|reflexivity]. }
  rewrite upd_eq. repeat (split; [done || (f_equal; lia)|]). done.
Qed.

Lemma stack_arg3_returns m a f st s2 :
  thunk_at m a stack_arg3_words f -> calling a 8 f 16 st ->
  let b := cpu_sp st - 16 in
  cpu_pc s2 = a + 20 -> cpu_sp s2 = b ->
  load 8 b (cpu_mem s2) = cpu_x st 29 -> load 8 (b + 8) (cpu_mem s2) = cpu_x st 30 ->
  exists s3, reaches (fetch m) s2 s3 /\ cpu_pc s3 = cpu_x st 30 /\ cpu_sp s3 = cpu_sp st /\
    cpu_x s3 = upd (upd (cpu_x s2) 29 (cpu_x st 29)) 30 (cpu_x st 30) /\ cpu_v s3 = cpu_v s2 /\ cpu_mem s3 = cpu_mem s2.
Proof.
  intros [Hw _] [Hl _ Hr Hsp Hx Hap] b Hpc Hs2 L1 L2. destruct Hw as (_&_&_&_&_&W5&W6&_).
  destruct (ldp_frame s2 16 29 30) as (M3&S3&V3&X3); try (unfold b in *; lia). rewrite Hs2, L1, L2 in X3. rewrite Hs2 in S3.
  replace (a + 20) with (a + 4 + 4 + 4 + 4 + 4) in Hpc by lia.
  step_to s3 (LDPpost 29 30 31 16) W5 P3. fold s3 in M3, S3, V3, X3. clearbody s3.
  destruct (ret_effect s3 30 ltac:(lia)) as (P4&M4&S4&X4&V4).
  exists (exec (RET 30) s3). rewrite P4, M4, S4, X4, V4, X3, S3, V3, M3.
  split. { etrans; [eassumption|]. eapply reaches_step; [rewrite P3; exact W6|reflexivity]. }
  split; [apply upd_eq|]. split; [unfold b; lia|done].
Qed.

(** Calling [a] calls [f] with the word on top of the caller's stack as third
    argument, and comes back with what [f] returned. *)
Definition passes_stack_arg3 (m : bytemem) (f a : Z) : Prop :=
  forall st, calling a 8 f 16 st -> cpu_sp st + 8 <= 2 ^ 64 ->
  exists s1, reaches (fetch m) st s1 /\ cpu_pc s1 = f /\
    cpu_x s1 0 = cpu_x st 0 /\ cpu_x s1 1 = cpu_x st 1 /\ cpu_x s1 2 = load 8 (cpu_sp st) (cpu_mem st) /\
    (forall x, ~ cpu_sp st - 16 <= x < cpu_sp st -> cpu_mem s1 x = cpu_mem st x) /\
    forall s2, cpu_pc s2 = cpu_x s1 30 -> cpu_sp s2 = cpu_sp s1 ->
      (forall x, cpu_sp st - 16 <= x < cpu_sp st -> cpu_mem s2 x = cpu_mem s1 x) ->
    exists s3, reaches (fetch m) s2 s3 /\ cpu_pc s3 = cpu_x st 30 /\ cpu_sp s3 = cpu_sp st /\
      cpu_x s3 29 = cpu_x st 29 /\ cpu_x s3 30 = cpu_x st 30 /\
      (forall r, r <> 29 -> r <> 30 -> cpu_x s3 r = cpu_x s2 r) /\ cpu_v s3 = cpu_v s2 /\ cpu_mem s3 = cpu_mem s2.

Lemma thunk_passes_stack_arg3 m f a : thunk_at m a stack_arg3_words f -> passes_stack_arg3 m f a.
Proof.
  intros Ht st Hc Htop. destruct (stack_arg3_calls m a f st Ht Hc Htop) as (s1&R&P&S&X&V&M).
  destruct (load2_frame (cpu_sp st - 16) (cpu_x st 29) (cpu_x st 30) (cpu_mem st)
    (at_regs _ _ _ _ _ Hc 29) (at_regs _ _ _ _ _ Hc 30)) as [L1 L2]. rewrite <- M in L1, L2.
  exists s1. rewrite X. do 2 (split; [done|]). split; [by rewrite !upd_ne by lia|]. split; [by rewrite !upd_ne by lia|].
  split; [by rewrite !upd_ne, upd_eq by lia|]. split; [intros x Hx; rewrite M; apply store2_out; lia|].
  rewrite upd_eq, S. intros s2 P2 S2 M2.
  destruct (stack_arg3_returns m a f st s2 Ht Hc P2 S2) as (s3&R3&P3&S3&X3&V3&M3).
  { rewrite <- L1. apply load_ext. intros x Hx. apply M2. lia. }
  { rewrite <- L2. apply load_ext. intros x Hx. apply M2. lia. }
  exists s3. rewrite X3. do 3 (split; [done|]). split; [by rewrite upd_ne, upd_eq by lia|].
  split; [apply upd_eq|]. split; [intros r H1 H2; by rewrite !upd_ne|done].
Qed.

Lemma stack_arg3_words_ok : Forall is_word stack_arg3_words.
Proof. apply (bool_decide_unpack _). by vm_compute. Qed.

Lemma create_stack_arg3_spec H f t :
  maps_user_space H -> 0 <= mh_page H -> pool_ok (stack_arg_pool H t) -> 0 <= f < 2 ^ 64 ->
  let '(a, t') := create_stack_arg3_thunk H f t in
  pool_ok (stack_arg_pool H t') /\ (a = 0 \/ passes_stack_arg3 (th_mem H t') f a).
Proof.
  intros Hm Hpg Hp Hf. unfold create_stack_arg3_thunk.
  pose proof (take_slot_spec H (mh_page H) 40 (stack_arg_pool H t) (th_host H t) Hm Hp ltac:(lia) ltac:(lia)) as Ht.
  destruct (take_slot H (mh_page H) 40 (stack_arg_pool H t) (th_host H t)) as [[slot p] h].
  destruct Ht as (Hok&_&_&Ht). destruct slot as [a|]; cbn [stack_arg_pool th_mem]; (split; [done|]); [right|by left].
  apply thunk_passes_stack_arg3, write_thunk_at; [apply stack_arg3_words_ok|done].
Qed.
