(* ===== verification/Resolve.v ===== *)
(** * Binding imported symbols: src/resolver.c, src/dylib_loader.c

    [resolve_import] (chained fixups) and [resolve_bind_by_name] (bind opcodes)
    decide the address an imported symbol is bound to.  The dynamic linker of
    the host is a parameter; so are the addresses of the program's own
    functions and static objects. *)

From S2P Require Import Prelude CStr Macho SymIndex BindSlots Thunks ResolveNames.
Import Thunks.

Module Resolve.

Definition MAX_DYLIBS : Z := 64.
Definition MAX_DEFERRED_BINDS : Z := 512.
Definition RTLD_DEFAULT : Z := 0.
Definition STB_WEAK : Z := 2.

(** [dlsym] and [dlopen]: 0 is NULL.  [dladdr1]: [st_info] of the symbol at an
    address.  [malloc n]: whether [n] bytes can be allocated; [chain_memory]:
    what the array of the symbol index holds when it is allocated. *)
Record linker := mk_linker {
  lk_state : Type;
  lk_dlsym : lk_state -> Z -> cstr -> Z;
  lk_dlopen : cstr -> lk_state -> Z * lk_state;
  lk_dladdr1 : lk_state -> Z -> option Z;
  lk_malloc : lk_state -> Z -> bool;
  lk_chain_memory : lk_state -> option (Z -> Z);
}.

(** Addresses of functions and static objects of resolver.c. *)
Record own_symbols := mk_own {
  wrapped_luaopen_jit : Z; wrapped_lua_close : Z; wrapped_lua_pcall : Z;
  zeroing_operator_new : Z; zeroing_operator_new_aligned : Z; zeroing_operator_delete : Z;
  wrapped_SDL_GL_CreateContext : Z; wrapped_SDL_GL_SetAttribute : Z;
  ns_pasteboard_type_string : Z; nsapplication_singleton : Z;
  detect_stack_use_after_return : Z; shadow_base : Z;
}.

Inductive dylib_action := DYLIB_MAP | DYLIB_STUB | DYLIB_SKIP | DYLIB_MACHO | DYLIB_DEFERRED.
#[export] Instance dylib_action_eq_dec : EqDecision dylib_action.
Proof. solve_decision. Defined.

(** A loaded Mach-O dylib. *)
Record macho_dylib_info := mk_mdi { path : cstr; mdi_slide : Z; mdi_symtab : Z; mdi_strtab : Z; mdi_nsyms : Z; mdi_strsize : Z }.

Record dylib_entry := mk_de {
  name : cstr; install_name : cstr; action : dylib_action; so_path : cstr; handle : Z;
  macho_info : option macho_dylib_info;
}.

(** What a resolution reads of [struct resolver_state]; [dylibs] holds at most
    [MAX_DYLIBS] entries, [ndylibs] counts all load commands. *)
Record resolver_state := mk_rs {
  mh : Z; image : mach_header_64; slide : Z; dylibs : list dylib_entry; ndylibs : Z;
  fixups_datasize : Z;
}.

Record deferred_bind := mk_db { got_slot : Z; db_sym_name : cstr; lib_ordinal : Z; db_weak : bool; db_addend : Z }.

(** [g_deferred]; [d_rs] is what was saved for the completion. *)
Record deferred_state := mk_deferred {
  binds : list deferred_bind; active : bool; resolved : bool; d_rs : option resolver_state;
}.

Section resolve.
Context (H : map_host) (L : linker) (own : own_symbols).

Record world := mk_w {
  th : thunks H; lk : lk_state L; indexes : list macho_sym_index; bind_slots : BindSlots.slots;
  binds_resolved : Z; binds_stubbed : Z; binds_failed : Z;
  deferred : deferred_state; real_SDL_GL_CreateContext : Z; real_SDL_GL_SetAttribute : Z;
}.

(** A read past the end of [dylibs] is [None]. *)
Definition M (A : Type) : Type := world -> option (A * world).
Definition ret {A} (a : A) : M A := fun w => Some (a, w).
Definition mbind {A B} (m : M A) (f : A -> M B) : M B := fun w => match m w with Some (a, w) => f a w | None => None end.
Definition gets {A} (f : world -> A) : M A := fun w => Some (f w, w).
Definition modify (f : world -> world) : M unit := fun w => Some (tt, f w).
Definition undefined {A} : M A := fun _ => None.

Notation "'let^' x := m 'in' k" := (mbind m (fun x => k))
  (at level 10, x name, m at level 100, k at level 200, right associativity).
Notation "'do^' m 'in' k" := (mbind m (fun _ => k))
  (at level 10, m at level 100, k at level 200, right associativity).

Definition set_th (t : thunks H) (w : world) : world :=
  mk_w t (lk w) (indexes w) (bind_slots w) (binds_resolved w) (binds_stubbed w) (binds_failed w) (deferred w)
       (real_SDL_GL_CreateContext w) (real_SDL_GL_SetAttribute w).
Definition set_indexes (l : list macho_sym_index) (w : world) : world :=
  mk_w (th w) (lk w) l (bind_slots w) (binds_resolved w) (binds_stubbed w) (binds_failed w) (deferred w)
       (real_SDL_GL_CreateContext w) (real_SDL_GL_SetAttribute w).
Definition set_slots (s : BindSlots.slots) (w : world) : world :=
  mk_w (th w) (lk w) (indexes w) s (binds_resolved w) (binds_stubbed w) (binds_failed w) (deferred w)
       (real_SDL_GL_CreateContext w) (real_SDL_GL_SetAttribute w).
Definition add_counts (r s f : Z) (w : world) : world :=
  mk_w (th w) (lk w) (indexes w) (bind_slots w) (binds_resolved w + r) (binds_stubbed w + s) (binds_failed w + f)
       (deferred w) (real_SDL_GL_CreateContext w) (real_SDL_GL_SetAttribute w).
Definition set_real (create setattr : Z) (w : world) : world :=
  mk_w (th w) (lk w) (indexes w) (bind_slots w) (binds_resolved w) (binds_stubbed w) (binds_failed w) (deferred w)
       create setattr.
Definition set_deferred (d : deferred_state) (w : world) : world :=
  mk_w (th w) (lk w) (indexes w) (bind_slots w) (binds_resolved w) (binds_stubbed w) (binds_failed w) d
       (real_SDL_GL_CreateContext w) (real_SDL_GL_SetAttribute w).
Definition set_lk (l : lk_state L) (w : world) : world :=
  mk_w (th w) l (indexes w) (bind_slots w) (binds_resolved w) (binds_stubbed w) (binds_failed w) (deferred w)
       (real_SDL_GL_CreateContext w) (real_SDL_GL_SetAttribute w).

Definition memory (w : world) : bytemem := th_mem H (th w).
Definition set_memory (m : bytemem) (t : thunks H) : thunks H :=
  mk_th H m (ctor_tramp H t) (variadic_pool H t) (stack_arg_pool H t) (return0_pool H t) (weak_pool H t) (zero_page H t) (th_host H t).

Definition count_resolved : M unit := modify (add_counts 1 0 0).
Definition count_stubbed : M unit := modify (add_counts 0 1 0).
Definition count_failed : M unit := modify (add_counts 0 0 1).

Definition dlsym (h : Z) (n : cstr) : M Z := gets (fun w => lk_dlsym L (lk w) h n).
(** An operation on the generated code. *)
Definition on_thunks {A} (f : thunks H -> A * thunks H) : M A :=
  fun w => let '(a, t) := f (th w) in Some (a, set_th t w).

(** [trace_target_binding]: the registration, without the log line. *)
Definition trace_target_binding (context sym_name lookup_name : cstr) (de : option dylib_entry) (slot_addr result : Z)
    (source_kind source_path : option cstr) : M unit :=
  modify (fun w => set_slots (BindSlots.register_bind_slot
    (BindSlots.mk_info slot_addr result context sym_name lookup_name (option_map name de) source_kind source_path)
    (bind_slots w)) w).

(** ** Lookups *)

Definition lookup_result (rs : resolver_state) (sym : cstr) : M (option macho_symbol_result) := fun w =>
  let '(r, ix) := lookup_macho_symbol_result (memory w) (lk_chain_memory L (lk w)) (mh rs) (image rs) (slide rs)
                    sym (indexes w) in
  Some (r, set_indexes ix w).

Definition lookup_symbol (rs : resolver_state) (sym : cstr) : M Z :=
  let^ r := lookup_result rs sym in ret (match r with Some r => addr r | None => 0 end).

(** [dylib_loader_lookup]: the first exported definition of the name. *)
Definition exported (strsize : Z) (nl : nlist_64) : bool :=
  if nz (n_type nl .& N_STAB) then false
  else if negb (n_type nl .& N_TYPE =? N_SECT) then false
  else if negb (nz (n_type nl .& N_EXT)) then false
  else negb (strsize <=? n_strx nl).

Definition dylib_loader_lookup (m : bytemem) (info : option macho_dylib_info) (sym : cstr) : Z :=
  match info with
  | None => 0
  | Some i =>
      if (mdi_symtab i =? 0) || (mdi_strtab i =? 0) then 0
      else
        match List.find (fun k => let nl := nlist_at m (mdi_symtab i) k in
                exported (mdi_strsize i) nl && streq (sym_name m (mdi_strtab i) (mdi_strsize i) nl) sym)
              (seqZ 0 (mdi_nsyms i)) with
        | Some k => u64 (n_value (nlist_at m (mdi_symtab i) k) + mdi_slide i)
        | None => 0
        end
  end.

Definition elf_symbol_is_weak (a : Z) (w : world) : bool :=
  if a =? 0 then false
  else match lk_dladdr1 L (lk w) a with Some st_info => st_info .>> 4 =? STB_WEAK | None => false end.

Definition resolve_main_cxx_operator_override (rs : resolver_state) (sym : cstr) (provider addend : Z) : M Z :=
  if (mh rs =? 0) || negb (is_cxx_operator_symbol sym) then ret 0
  else let^ weak := gets (elf_symbol_is_weak provider) in
  if nz provider && negb weak then ret 0
  else let^ r := lookup_result rs sym in
  match r with
  | None => ret 0
  | Some r =>
      if negb (macho_symbol_is_external_definition r) then ret 0
      else if macho_symbol_is_stub_definition (image rs) r then ret 0
      else ret (u64 (addr r + addend))
  end.

Definition resolve_cxx_operator_hook (sym : cstr) : Z :=
  if is_operator_new_symbol sym then zeroing_operator_new own
  else if is_operator_new_aligned_symbol sym then zeroing_operator_new_aligned own
  else if is_operator_delete_symbol sym then zeroing_operator_delete own else 0.
Definition resolve_cxx_operator_fallback (sym : cstr) : Z :=
  if negb (is_cxx_operator_symbol sym) then 0 else resolve_cxx_operator_hook sym.

Definition map_shadow (t : thunks H) : option Z * thunks H :=
  let '(r, h) := mh_mmap H (512 * 1024 * 1024) (th_host H t) in
  (r, mk_th H (th_mem H t) (ctor_tramp H t) (variadic_pool H t) (stack_arg_pool H t) (return0_pool H t) (weak_pool H t) (zero_page H t) h).

(** The variable [shadow_base] is in memory: the guest reads it. *)
Definition resolve_asan_data_symbol (sym : cstr) : M Z :=
  if streq sym (str "___asan_option_detect_stack_use_after_return") then ret (detect_stack_use_after_return own)
  else if streq sym (str "___asan_shadow_memory_dynamic_address") then
    let^ m := gets memory in
    if negb (load 8 (shadow_base own) m =? 0) then ret (shadow_base own)
    else let^ region := on_thunks map_shadow in
    match region with
    | None => ret 0
    | Some a =>
        do^ on_thunks (fun t => (tt, set_memory (store 8 (shadow_base own) a (th_mem H t)) t)) in
        ret (shadow_base own)
    end
  else ret 0.

Definition resolve_shim_objc_class_symbol (sym : cstr) : M Z :=
  let lookup := strip_underscore sym in
  let^ c := dlsym RTLD_DEFAULT lookup in
  if nz c then ret c
  else if starts_with (str "OBJC_CLASS_$_") lookup then dlsym RTLD_DEFAULT (str "OBJC_CLASS_$_MachGateGenericObject")
  else ret 0.

Definition resolve_non_gui_framework_data (de : dylib_entry) (sym : cstr) : M Z :=
  if streq (name de) (str "AppKit") && streq sym (str "_NSPasteboardTypeString") then ret (ns_pasteboard_type_string own)
  else if streq (name de) (str "AppKit") && streq sym (str "_NSApp") then ret (nsapplication_singleton own)
  else if is_shim_objc_class_symbol sym then resolve_shim_objc_class_symbol sym
  else if contains "libclang_rt.asan" (name de) then resolve_asan_data_symbol sym
  else ret 0.

(** The address and the entry that provides it. *)
Definition lookup_libsystem_symbol (rs : resolver_state) (sym : cstr) : M (option (Z * dylib_entry)) := gets (fun w =>
  match List.find (fun de => bool_decide (action de = DYLIB_MAP) && nz (handle de) && contains "libSystem" (name de)
                             && nz (lk_dlsym L (lk w) (handle de) sym)) (dylibs rs) with
  | Some de => Some (lk_dlsym L (lk w) (handle de) sym, de)
  | None => None
  end).

(** Address, source kind, source path. *)
Definition lookup_flat_symbol (rs : resolver_state) (sym : cstr) : M (Z * option cstr * option cstr) :=
  let^ provided :=
    (if is_darwin_runtime_symbol sym || is_darwin_allocator_symbol sym then lookup_libsystem_symbol rs sym else ret None) in
  match provided with
  | Some (a, de) => ret (a, Some (str "mapped dylib handle"), Some (so_path de))
  | None =>
      let^ a := dlsym RTLD_DEFAULT sym in
      ret (if nz a then (a, Some (str "RTLD_DEFAULT"), Some (str "RTLD_DEFAULT")) else (0, None, None))
  end.

(** [dlsym] in a mapped library, then the other spellings of a C++ name. *)
Definition lookup_mapped (h : Z) (lookup_name : cstr) : M Z :=
  let^ a := dlsym h lookup_name in
  if (a =? 0) && starts_with (str "_ZN") lookup_name then
    gets (fun w => try_mangling_variants (lk_dlsym L (lk w) h) (lk_malloc L (lk w) (Z.of_nat (length lookup_name) + 1)) lookup_name)
  else ret a.

(** [dylib_loader_lookup], then one other spelling. *)
Definition lookup_macho_dylib (de : dylib_entry) (sym : cstr) : M Z :=
  let^ m := gets memory in
  let a := dylib_loader_lookup m (macho_info de) sym in
  let^ strdup_ok := gets (fun w => lk_malloc L (lk w) (Z.of_nat (length sym) + 1)) in
  if (a =? 0) && contains "_ZN" sym && strdup_ok
  then ret (dylib_loader_lookup m (macho_info de) (swap_first_ym sym)) else ret a.

(** ** Adapters *)

Definition wrap_ctor (sym : cstr) (result : Z) : M Z :=
  if is_ctor_or_dtor sym && negb (ctor_has_stack_params sym)
  then on_thunks (wrap_ctor_for_apple_abi H result) else ret result.

Definition wrap_fixed_stack_arg_symbol (lookup_name : cstr) (result provider_handle : Z) : M Z :=
  if negb (streq lookup_name (str "ioctl")) then ret result
  else
    let fixed := str "machgate_darwin_ioctl_fixed" in
    let^ a := (if nz provider_handle then dlsym provider_handle fixed else ret 0) in
    let^ a := (if a =? 0 then dlsym RTLD_DEFAULT fixed else ret a) in
    if a =? 0 then ret result
    else let^ thunk := on_thunks (create_stack_arg3_thunk H a) in
    ret (if nz thunk then thunk else result).

Definition wrap_variadic (lookup_name : cstr) (result : Z) : M Z :=
  match lookup_variadic lookup_name with
  | None => ret result
  | Some vi =>
      let^ v_func := dlsym RTLD_DEFAULT (v_name vi) in
      if v_func =? 0 then ret result
      else let^ thunk := on_thunks (create_variadic_thunk H v_func vi) in
      ret (if nz thunk then thunk else result)
  end.

(** The hooks for deferred loading. *)
Definition hook_sdl (lookup_name : cstr) (result : Z) : M Z :=
  let^ d := gets deferred in
  if active d && negb (resolved d) then
    if streq lookup_name (str "SDL_GL_CreateContext") then
      do^ modify (fun w => set_real result (real_SDL_GL_SetAttribute w) w) in ret (wrapped_SDL_GL_CreateContext own)
    else if streq lookup_name (str "SDL_GL_SetAttribute") then
      do^ modify (fun w => set_real (real_SDL_GL_CreateContext w) result w) in ret (wrapped_SDL_GL_SetAttribute own)
    else ret result
  else ret result.

(** The LuaJIT hooks. *)
Definition lua_hook (sym : cstr) : option Z :=
  if streq sym (str "_luaopen_jit") then Some (wrapped_luaopen_jit own)
  else if streq sym (str "_lua_close") then Some (wrapped_lua_close own)
  else if streq sym (str "_lua_pcall") then Some (wrapped_lua_pcall own)
  else None.

Definition dylib_at (rs : resolver_state) (ordinal : Z) : M dylib_entry :=
  match dylibs rs !! Z.to_nat (ordinal - 1) with Some de => ret de | None => undefined end.

Definition count_miss (weak : bool) : M unit := if weak then count_stubbed else count_failed.

(** ** Chained fixups *)

Definition some (s : string) : option cstr := Some (str s).

(** [alloc_stub_slot:] *)
Definition import_stub (sym lookup : cstr) (de : option dylib_entry) (slot : Z) : M Z :=
  let^ result := on_thunks (alloc_return0_stub H) in
  let^ result := (if is_likely_data_symbol sym then on_thunks (alloc_zero_data_stub H) else ret result) in
  do^ trace_target_binding (str "chained-stub") sym lookup de slot result (some "stub/fail")
        (Some (match de with Some de => so_path de | None => str "stub/fail" end)) in
  ret result.

(** BIND_SPECIAL_DYLIB_MAIN_EXECUTABLE *)
Definition import_main_executable (rs : resolver_state) (sym lookup : cstr) (addend slot : Z) : M Z :=
  let^ a := lookup_symbol rs sym in
  if nz a then
    let result := u64 (a + addend) in
    do^ trace_target_binding (str "chained-main-executable") sym lookup None slot result
          (some "main executable") (some "main executable") in
    do^ count_resolved in ret result
  else do^ count_failed in import_stub sym lookup None slot.

(** BIND_SPECIAL_DYLIB_FLAT_LOOKUP *)
Definition import_flat (rs : resolver_state) (sym lookup : cstr) (weak : bool) (addend slot : Z) : M Z :=
  let^ found := lookup_flat_symbol rs lookup in
  let '(a, kind, path) := found in
  if nz a then
    let^ result := wrap_ctor sym (u64 (a + addend)) in
    let^ result := wrap_fixed_stack_arg_symbol lookup result 0 in
    let^ result := wrap_variadic lookup result in
    do^ trace_target_binding (str "chained-flat-lookup") sym lookup None slot result kind path in
    do^ count_resolved in ret result
  else do^ (if weak then ret tt else count_failed) in import_stub sym lookup None slot.

(** BIND_SPECIAL_DYLIB_WEAK_LOOKUP *)
Definition import_weak (rs : resolver_state) (sym lookup : cstr) (addend slot : Z) : M Z :=
  let^ macho_addr := lookup_symbol rs sym in
  if nz macho_addr then
    let result := u64 (macho_addr + addend) in
    do^ trace_target_binding (str "chained-weak-lookup") sym lookup None slot result
          (some "main executable") (some "main executable") in
    do^ count_resolved in ret result
  else
    let^ a := dlsym RTLD_DEFAULT lookup in
    if nz a then
      let^ result := wrap_ctor sym (u64 (a + addend)) in
      let^ result := wrap_fixed_stack_arg_symbol lookup result 0 in
      let^ result := wrap_variadic lookup result in
      do^ count_resolved in
      do^ trace_target_binding (str "chained-weak-lookup") sym lookup None slot result
            (some "RTLD_DEFAULT") (some "RTLD_DEFAULT") in
      ret result
    else
      let^ s := on_thunks (alloc_weak_slot H) in
      do^ count_stubbed in
      match s with
      | Some result =>
          do^ trace_target_binding (str "chained-weak-lookup") sym lookup None slot result
                (some "stub/fail") (some "weak stub pool") in
          ret result
      | None => import_stub sym lookup None slot
      end.

(** [case DYLIB_MAP] *)
Definition import_mapped (rs : resolver_state) (de : dylib_entry) (sym lookup : cstr) (weak : bool) (addend slot : Z) : M Z :=
  let^ a := lookup_mapped (handle de) lookup in
  if nz a then
    let^ cxx_override := resolve_main_cxx_operator_override rs sym a addend in
    if nz cxx_override then
      do^ trace_target_binding (str "chained-map-cxx-main-override") sym lookup (Some de) slot cxx_override
            (some "main executable C++ allocator") (some "main executable") in
      do^ count_resolved in ret cxx_override
    else
      let^ result := wrap_ctor sym (u64 (a + addend)) in
      let^ result := wrap_fixed_stack_arg_symbol lookup result (handle de) in
      let^ result := wrap_variadic lookup result in
      let^ result := hook_sdl lookup result in
      do^ trace_target_binding (str "chained-map") sym lookup (Some de) slot result
            (some "mapped dylib handle") (Some (so_path de)) in
      do^ count_resolved in ret result
  else
    let^ cxx_override := resolve_main_cxx_operator_override rs sym 0 addend in
    if nz cxx_override then
      do^ trace_target_binding (str "chained-map-cxx-main-override") sym lookup (Some de) slot cxx_override
            (some "main executable C++ allocator") (some "main executable") in
      do^ count_resolved in ret cxx_override
    else if nz (resolve_cxx_operator_fallback sym) then
      let result := u64 (resolve_cxx_operator_fallback sym + addend) in
      do^ trace_target_binding (str "chained-map-cxx-fallback") sym lookup (Some de) slot result
            (some "machgate c++ allocator hook") (some "libsystem_shim") in
      do^ count_resolved in ret result
    else
      let^ a := dlsym RTLD_DEFAULT lookup in
      if nz a then
        let result := u64 (a + addend) in
        do^ trace_target_binding (str "chained-map") sym lookup (Some de) slot result
              (some "RTLD_DEFAULT") (some "RTLD_DEFAULT") in
        do^ count_resolved in ret result
      else do^ count_miss weak in import_stub sym lookup (Some de) slot.

(** [case DYLIB_MACHO] *)
Definition import_macho (de : dylib_entry) (sym lookup : cstr) (weak : bool) (addend slot : Z) : M Z :=
  let^ a := lookup_macho_dylib de sym in
  if nz a then
    let result := u64 (a + addend) in
    do^ trace_target_binding (str "chained-macho") sym lookup (Some de) slot result
          (some "Mach-O dylib") (Some (so_path de)) in
    do^ count_resolved in ret result
  else do^ count_miss weak in import_stub sym lookup (Some de) slot.

(** A library ordinal. *)
Definition import_library (rs : resolver_state) (de : dylib_entry) (sym lookup : cstr) (weak : bool) (addend slot : Z) : M Z :=
  let^ non_gui_data := resolve_non_gui_framework_data de sym in
  if nz non_gui_data then
    let result := u64 (non_gui_data + addend) in
    do^ trace_target_binding (str "chained-non-gui-data") sym lookup (Some de) slot result
          (some "stub/fail") (some "non-GUI data stub") in
    do^ count_resolved in ret result
  else
    match action de with
    | DYLIB_MAP => import_mapped rs de sym lookup weak addend slot
    | DYLIB_MACHO => import_macho de sym lookup weak addend slot
    | DYLIB_STUB => do^ count_stubbed in import_stub sym lookup (Some de) slot
    | DYLIB_SKIP => do^ count_miss weak in import_stub sym lookup (Some de) slot
    | DYLIB_DEFERRED => do^ count_stubbed in import_stub sym lookup (Some de) slot
    end.

(** [resolve_import] once the import is decoded. *)
Definition resolve_import_named (rs : resolver_state) (lib_ordinal : Z) (sym : cstr) (weak : bool) (addend slot : Z) : M Z :=
  let lookup := lookup_name_of sym in
  match lua_hook sym with
  | Some hook => do^ count_resolved in ret hook
  | None =>
      if lib_ordinal =? -1 then import_main_executable rs sym lookup addend slot
      else if lib_ordinal =? -2 then import_flat rs sym lookup weak addend slot
      else if lib_ordinal =? -3 then import_weak rs sym lookup addend slot
      else if (lib_ordinal <? 1) || (ndylibs rs <? lib_ordinal) then do^ count_failed in import_stub sym lookup None slot
      else let^ de := dylib_at rs lib_ordinal in import_library rs de sym lookup weak addend slot
  end.

(** The fields of [struct dyld_chained_fixups_header]. *)
Definition imports_offset (m : bytemem) (header : Z) : Z := load 4 (header + 8) m.
Definition symbols_offset (m : bytemem) (header : Z) : Z := load 4 (header + 12) m.
Definition imports_count (m : bytemem) (header : Z) : Z := load 4 (header + 16) m.
Definition imports_format (m : bytemem) (header : Z) : Z := load 4 (header + 20) m.

Record import := mk_import { im_lib_ordinal : Z; im_weak : bool; im_name_offset : Z; im_addend : Z }.

(** Entry [ordinal] of the table at [base]; [None]: unknown format. *)
Definition read_import (m : bytemem) (format base ordinal : Z) : option import :=
  if format =? 1 then
    let v := load 4 (base + 4 * ordinal) m in
    Some (mk_import (signed 8 (fld v 0 8)) (nz (fld v 8 1)) (fld v 9 23) 0)
  else if format =? 2 then
    let v := load 4 (base + 8 * ordinal) m in
    Some (mk_import (signed 8 (fld v 0 8)) (nz (fld v 8 1)) (fld v 9 23) (signed 32 (load 4 (base + 8 * ordinal + 4) m)))
  else if format =? 3 then
    let v := load 8 (base + 16 * ordinal) m in
    Some (mk_import (signed 16 (fld v 0 16)) (nz (fld v 16 1)) (fld v 32 32) (load 8 (base + 16 * ordinal + 8) m))
  else None.

Definition resolve_import (rs : resolver_state) (header chain_data ordinal addend slot : Z) : M Z :=
  let^ m := gets memory in
  if imports_count m header <=? ordinal then ret 0
  else match read_import m (imports_format m header) (chain_data + imports_offset m header) ordinal with
       | None => ret 0
       | Some imp =>
           let sym := c_string (Z.to_nat (fixups_datasize rs)) (chain_data + symbols_offset m header + im_name_offset imp) m in
           resolve_import_named rs (im_lib_ordinal imp) sym (im_weak imp) (i64 (addend + im_addend imp)) slot
       end.

(** ** Bind opcodes *)

(** [alloc_stub:] *)
Definition bind_stub (sym lookup : cstr) (de : option dylib_entry) (slot : Z) : M Z :=
  let^ result := on_thunks (alloc_return0_stub H) in
  do^ trace_target_binding (str "dyld-info-stub") sym lookup de slot result (some "stub/fail")
        (Some (match de with Some de => so_path de | None => str "stub/fail" end)) in
  ret result.

(** BIND_SPECIAL_DYLIB_SELF and BIND_SPECIAL_DYLIB_MAIN_EXECUTABLE *)
Definition bind_self (rs : resolver_state) (sym lookup : cstr) (weak : bool) (addend slot : Z) : M Z :=
  let^ a := lookup_symbol rs sym in
  if nz a then
    let result := u64 (a + addend) in
    do^ trace_target_binding (str "dyld-info-self") sym lookup None slot result
          (some "main executable") (some "main executable") in
    do^ count_resolved in ret result
  else
    let^ fallback := dlsym RTLD_DEFAULT lookup in
    if nz fallback then
      let result := u64 (fallback + addend) in
      do^ trace_target_binding (str "dyld-info-self") sym lookup None slot result
            (some "RTLD_DEFAULT") (some "RTLD_DEFAULT") in
      do^ count_resolved in ret result
    else do^ count_miss weak in bind_stub sym lookup None slot.

Definition bind_flat (rs : resolver_state) (sym lookup : cstr) (weak : bool) (addend slot : Z) : M Z :=
  let^ found := lookup_flat_symbol rs lookup in
  let '(a, kind, path) := found in
  if nz a then
    let^ result := wrap_ctor sym (u64 (a + addend)) in
    let^ result := wrap_fixed_stack_arg_symbol lookup result 0 in
    let^ result := wrap_variadic lookup result in
    do^ trace_target_binding (str "dyld-info-flat-lookup") sym lookup None slot result kind path in
    do^ count_resolved in ret result
  else do^ (if weak then ret tt else count_failed) in bind_stub sym lookup None slot.

Definition bind_weak (rs : resolver_state) (sym lookup : cstr) (addend slot : Z) : M Z :=
  let^ macho_addr := lookup_symbol rs sym in
  if nz macho_addr then
    let result := u64 (macho_addr + addend) in
    do^ trace_target_binding (str "dyld-info-weak-lookup") sym lookup None slot result
          (some "main executable") (some "main executable") in
    do^ count_resolved in ret result
  else
    let^ a := dlsym RTLD_DEFAULT lookup in
    if nz a then
      let^ result := wrap_ctor sym (u64 (a + addend)) in
      let^ result := wrap_fixed_stack_arg_symbol lookup result 0 in
      do^ trace_target_binding (str "dyld-info-weak-lookup") sym lookup None slot result
            (some "RTLD_DEFAULT") (some "RTLD_DEFAULT") in
      do^ count_resolved in ret result
    else do^ count_stubbed in bind_stub sym lookup None slot.

Definition bind_mapped (rs : resolver_state) (de : dylib_entry) (sym lookup : cstr) (weak : bool) (addend slot : Z) : M Z :=
  let^ a := lookup_mapped (handle de) lookup in
  if nz a then
    let^ cxx_override := resolve_main_cxx_operator_override rs sym a addend in
    if nz cxx_override then
      do^ trace_target_binding (str "dyld-info-map-cxx-main-override") sym lookup (Some de) slot cxx_override
            (some "main executable C++ allocator") (some "main executable") in
      do^ count_resolved in ret cxx_override
    else
      let^ result := wrap_ctor sym (u64 (a + addend)) in
      let^ result := wrap_fixed_stack_arg_symbol lookup result (handle de) in
      let^ result := wrap_variadic lookup result in
      let^ result := hook_sdl lookup result in
      do^ trace_target_binding (str "dyld-info-map") sym lookup (Some de) slot result
            (some "mapped dylib handle") (Some (so_path de)) in
      do^ count_resolved in ret result
  else
    let^ cxx_override := resolve_main_cxx_operator_override rs sym 0 addend in
    if nz cxx_override then
      do^ trace_target_binding (str "dyld-info-map-cxx-main-override") sym lookup (Some de) slot cxx_override
            (some "main executable C++ allocator") (some "main executable") in
      do^ count_resolved in ret cxx_override
    else if nz (resolve_cxx_operator_fallback sym) then
      let result := u64 (resolve_cxx_operator_fallback sym + addend) in
      do^ trace_target_binding (str "dyld-info-map-cxx-fallback") sym lookup (Some de) slot result
            (some "machgate c++ allocator hook") (some "libsystem_shim") in
      do^ count_resolved in ret result
    else
      let^ a := dlsym RTLD_DEFAULT lookup in
      if nz a then
        let result := u64 (a + addend) in
        do^ trace_target_binding (str "dyld-info-map") sym lookup (Some de) slot result
              (some "RTLD_DEFAULT") (some "RTLD_DEFAULT") in
        do^ count_resolved in ret result
      else do^ count_miss weak in bind_stub sym lookup (Some de) slot.

Definition bind_macho (de : dylib_entry) (sym lookup : cstr) (weak : bool) (addend slot : Z) : M Z :=
  let^ a := lookup_macho_dylib de sym in
  if nz a then
    let result := u64 (a + addend) in
    do^ trace_target_binding (str "dyld-info-macho") sym lookup (Some de) slot result
          (some "Mach-O dylib") (Some (so_path de)) in
    do^ count_resolved in ret result
  else do^ count_miss weak in bind_stub sym lookup (Some de) slot.

Definition bind_library (rs : resolver_state) (de : dylib_entry) (sym lookup : cstr) (weak : bool) (addend slot : Z) : M Z :=
  let^ non_gui_data := resolve_non_gui_framework_data de sym in
  if nz non_gui_data then
    let result := u64 (non_gui_data + addend) in
    do^ trace_target_binding (str "dyld-info-non-gui-data") sym lookup (Some de) slot result
          (some "stub/fail") (some "non-GUI data stub") in
    do^ count_resolved in ret result
  else
    match action de with
    | DYLIB_MAP => bind_mapped rs de sym lookup weak addend slot
    | DYLIB_MACHO => bind_macho de sym lookup weak addend slot
    | DYLIB_STUB => do^ count_stubbed in bind_stub sym lookup (Some de) slot
    | DYLIB_SKIP => do^ count_miss weak in bind_stub sym lookup (Some de) slot
    | DYLIB_DEFERRED => do^ count_stubbed in bind_stub sym lookup (Some de) slot
    end.

Definition resolve_bind_by_name (rs : resolver_state) (lib_ordinal : Z) (sym : cstr) (weak : bool) (addend slot : Z) : M Z :=
  let lookup := lookup_name_of sym in
  match lua_hook sym with
  | Some hook => do^ count_resolved in ret hook
  | None =>
      if (lib_ordinal =? 0) || (lib_ordinal =? -1) then bind_self rs sym lookup weak addend slot
      else if lib_ordinal =? -2 then bind_flat rs sym lookup weak addend slot
      else if lib_ordinal =? -3 then bind_weak rs sym lookup addend slot
      else if (lib_ordinal <? 1) || (ndylibs rs <? lib_ordinal) then do^ count_failed in bind_stub sym lookup None slot
      else let^ de := dylib_at rs lib_ordinal in bind_library rs de sym lookup weak addend slot
  end.

Definition set_mem (m : bytemem) : M unit := on_thunks (fun t => (tt, set_memory m t)).

(** Write a pointer. *)
Definition write64 (a v : Z) : M unit := let^ m := gets memory in set_mem (store 8 a v m).

(** [seg_addr]: [segments[seg_index].vmaddr + slide], [None] when there is no
    such segment. *)
Definition do_bind_one (rs : resolver_state) (seg_addr : option Z) (seg_offset lib_ordinal : Z) (sym : cstr) (weak : bool)
    (addend : Z) : M unit :=
  match seg_addr with
  | None => ret tt
  | Some base =>
      let a := u64 (base + seg_offset) in
      let^ is_deferred :=
        (if (1 <=? lib_ordinal) && (lib_ordinal <=? ndylibs rs)
         then let^ de := dylib_at rs lib_ordinal in
              ret (if decide (action de = DYLIB_DEFERRED) then Some de else None)
         else ret None) in
      match is_deferred with
      | Some de =>
          do^ modify (fun w =>
            let d := deferred w in
            if Z.of_nat (length (binds d)) <? MAX_DEFERRED_BINDS
            then set_deferred (mk_deferred (binds d ++ [mk_db a sym lib_ordinal weak addend]) (active d) (resolved d) (d_rs d)) w
            else w) in
          let^ stub := on_thunks (alloc_return0_stub H) in
          do^ trace_target_binding (str "dyld-info-deferred") sym (lookup_name_of sym) (Some de) a stub
                (some "stub/fail") (Some (so_path de)) in
          do^ write64 a stub in
          count_stubbed
      | None =>
          let^ r := resolve_bind_by_name rs lib_ordinal sym weak addend a in
          write64 a r
      end
  end.

(** ** Deferred libraries *)

(** Phase 1 of [resolver_complete_deferred]. *)
Definition open_deferred (de : dylib_entry) (w : world) : dylib_entry * world :=
  if decide (action de = DYLIB_DEFERRED) then
    let '(h, l) := lk_dlopen L (so_path de) (lk w) in
    (mk_de (name de) (install_name de) (if h =? 0 then DYLIB_DEFERRED else DYLIB_MAP) (so_path de) h (macho_info de), set_lk l w)
  else (de, w).

Fixpoint open_all_deferred (l : list dylib_entry) (w : world) : list dylib_entry * world :=
  match l with
  | [] => ([], w)
  | de :: l => let '(de, w) := open_deferred de w in
               let '(l, w) := open_all_deferred l w in (de :: l, w)
  end.

(** Phase 2 for one recorded bind. *)
Definition complete_bind (rs : resolver_state) (de : dylib_entry) (db : deferred_bind) : M unit :=
  let sym := db_sym_name db in
  let lookup := lookup_name_of sym in
  let^ a := lookup_mapped (handle de) lookup in
  let^ main_override := resolve_main_cxx_operator_override rs sym a (db_addend db) in
  if nz main_override then
    let^ result := wrap_ctor sym main_override in
    do^ write64 (got_slot db) result in
    trace_target_binding (str "deferred-cxx-main-override") sym lookup (Some de) (got_slot db) result
      (some "main executable C++ allocator") (some "main executable")
  else
    let hook := resolve_cxx_operator_fallback sym in
    let^ dflt := dlsym RTLD_DEFAULT lookup in
    let '(a, kind, path) :=
      if nz a then (a, some "mapped dylib handle", Some (so_path de))
      else if nz hook then (hook, some "machgate c++ allocator hook", some "libsystem_shim")
      else if nz dflt then (dflt, some "RTLD_DEFAULT", some "RTLD_DEFAULT")
      else (0, some "mapped dylib handle", Some (so_path de)) in
    if nz a then
      let^ result := wrap_ctor sym (u64 (a + db_addend db)) in
      do^ write64 (got_slot db) result in
      trace_target_binding (str "deferred-complete") sym lookup (Some de) (got_slot db) result kind path
    else if db_weak db then ret tt
    else trace_target_binding (str "deferred-complete-fail") sym lookup (Some de) (got_slot db) 0
           (some "stub/fail") (Some (so_path de)).

Fixpoint complete_binds (rs : resolver_state) (l : list deferred_bind) : M unit :=
  match l with
  | [] => ret tt
  | db :: l =>
      let^ de := dylib_at rs (lib_ordinal db) in
      do^ (if handle de =? 0 then ret tt else complete_bind rs de db) in
      complete_binds rs l
  end.

Definition resolver_complete_deferred : M unit := fun w =>
  let d := deferred w in
  if resolved d then Some (tt, w)
  else
    match d_rs d with
    | None => Some (tt, set_deferred (mk_deferred (binds d) (active d) true None) w)
    | Some rs =>
        let '(l, w) := open_all_deferred (dylibs rs) (set_deferred (mk_deferred (binds d) (active d) true (d_rs d)) w) in
        let rs := mk_rs (mh rs) (image rs) (slide rs) l (ndylibs rs) (fixups_datasize rs) in
        complete_binds rs (binds d) (set_deferred (mk_deferred (binds d) (active d) true (Some rs)) w)
    end.
End resolve.
End Resolve.
