(* ===== verification/ResolveInv.v ===== *)
(** * What every resolution keeps

    Binding a symbol never writes to the image: generated code and stubs go to
    pools the host maps elsewhere.  A resolution always answers an address and
    keeps the linker's and the deferred-loading state. *)

From S2P Require Import Prelude CStr BindSlots Macho SymIndex ResolveNames Thunks Resolve.
Import Thunks Resolve.

Definition is_addr (a : Z) : Prop := 0 <= a < 2 ^ 64.

Lemma u64_is_addr a : is_addr (u64 a).
Proof. apply u64_range. Qed.
#[export] Hint Resolve u64_is_addr : mg.

Lemma zero_is_addr : is_addr 0.
Proof. unfold is_addr. lia. Qed.
#[export] Hint Resolve zero_is_addr : mg.

(** The host maps memory outside the image [lo .. hi), symbols have addresses,
    and the static variables are not in the image. *)
Record host_ok (H : map_host) (L : linker) (own : own_symbols) (lo hi : Z) : Prop := {
  ok_maps : forall n h a h', mh_mmap H n h = (Some a, h') -> 0 < a /\ a + n < 2 ^ 63 /\ (a + n <= lo \/ hi <= a);
  ok_page : 0 <= mh_page H;
  ok_dlsym : forall s h n, is_addr (lk_dlsym L s h n);
  ok_lua : Forall is_addr [wrapped_luaopen_jit own; wrapped_lua_close own; wrapped_lua_pcall own];
  ok_sdl : is_addr (wrapped_SDL_GL_CreateContext own) /\ is_addr (wrapped_SDL_GL_SetAttribute own);
  ok_shadow : is_addr (shadow_base own) /\ (shadow_base own + 8 <= lo \/ hi <= shadow_base own);
}.

Section keep.
Context {H : map_host} {L : linker} {own : own_symbols} {lo hi : Z} (Hok : host_ok H L own lo hi).
Notation world := (world H L).
Notation M := (M H L).

(** ** Pools outside the image *)

Definition pool_out (p : tpool) : Prop :=
  (base p = 0 /\ used p = 0) \/
  (0 < base p /\ 0 <= used p <= capacity p /\ base p + capacity p < 2 ^ 63 /\ (base p + capacity p <= lo \/ hi <= base p)).

Record thunks_ok (t : thunks H) : Prop := {
  ok_ctor : pool_out (ctor_tramp H t); ok_variadic : pool_out (variadic_pool H t);
  ok_stack_arg : pool_out (stack_arg_pool H t); ok_return0 : pool_out (return0_pool H t);
  ok_weak : pool_out (weak_pool H t); ok_zero : is_addr (zero_page H t);
}.

(** The range [a, a + n) is not in the image. *)
Definition elsewhere (a n : Z) : Prop := a + n <= lo \/ hi <= a.

Lemma take_slot_out cap size p h :
  pool_out p -> 0 < size -> 0 <= cap ->
  let '(slot, p', h') := take_slot H cap size p h in
  pool_out p' /\ match slot with Some a => 0 < a /\ a + size < 2 ^ 63 /\ elsewhere a size | None => True end.
Proof.
  intros Hp Hs Hc. unfold take_slot, elsewhere. destruct (Z.eqb_spec (base p) 0) as [E|E].
  - assert (Hu : used p = 0) by (destruct Hp as [[_ Hu]|Hp]; [done|lia]).
    destruct (mh_mmap H cap h) as [[a|] h'] eqn:Em; cbn [base used capacity].
    + destruct (ok_maps _ _ _ _ _ Hok _ _ _ _ Em) as (Ha&Hb&Ho). destruct (Z.eqb_spec a 0); [lia|]. rewrite Hu.
      destruct (Z.ltb_spec cap (0 + size)); (split; [right; cbn; lia|]); [done|]. lia.
    + rewrite E. cbn [Z.eqb]. split; [by left|done].
  - destruct Hp as [[Hp _]|Hp]; [done|]. destruct (Z.eqb_spec (base p) 0); [done|].
    destruct (Z.ltb_spec (capacity p) (used p + size)); (split; [right; cbn; lia|]); [done|]. cbn. lia.
Qed.

(** An operation on generated code. *)
Definition op_ok {A} (P : A -> Prop) (f : thunks H -> A * thunks H) : Prop :=
  forall t, thunks_ok t -> let '(a, t') := f t in
  P a /\ thunks_ok t' /\ forall x, lo <= x < hi -> th_mem H t' x = th_mem H t x.

(** Take a slot of [size] bytes, then write at most that much. *)
Ltac slot_op cap size pool :=
  match goal with
  | Ht : thunks_ok ?t |- _ =>
      let Hs := fresh "Hs" in
      pose proof (take_slot_out cap size (pool H t) (th_host H t)) as Hs;
      destruct (take_slot H cap size (pool H t) (th_host H t)) as [[[a|] p] h];
      destruct Ht; destruct Hs as [Hp Hs]; [done|lia|lia| | done|lia|lia| ]
  end.

Lemma wrap_ctor_ok f : is_addr f -> op_ok is_addr (wrap_ctor_for_apple_abi H f).
Proof.
  intros Hf t Ht. unfold wrap_ctor_for_apple_abi. pose proof (ok_page _ _ _ _ _ Hok).
  slot_op (mh_page H * 4) 32 (ctor_tramp).
  - split; [unfold is_addr; lia|]. split; [by constructor|]. intros x Hx. cbn [th_mem].
    apply write_thunk_out. cbn [ctor_words length]. unfold elsewhere in Hs. lia.
  - split; [done|]. split; [by constructor|done].
Qed.

Lemma create_variadic_ok f vi : op_ok is_addr (create_variadic_thunk H f vi).
Proof.
  intros t Ht. unfold create_variadic_thunk. pose proof (ok_page _ _ _ _ _ Hok).
  slot_op (mh_page H * 2) 56 (variadic_pool).
  - split; [unfold is_addr; lia|]. split; [by constructor|]. intros x Hx. cbn [th_mem].
    apply write_thunk_out. cbn [variadic_words length]. unfold elsewhere in Hs. lia.
  - split; [apply zero_is_addr|]. split; [by constructor|done].
Qed.

Lemma create_stack_arg3_ok f : op_ok is_addr (create_stack_arg3_thunk H f).
Proof.
  intros t Ht. unfold create_stack_arg3_thunk. pose proof (ok_page _ _ _ _ _ Hok).
  slot_op (mh_page H) 40 (stack_arg_pool).
  - split; [unfold is_addr; lia|]. split; [by constructor|]. intros x Hx. cbn [th_mem].
    apply write_thunk_out. cbn [stack_arg3_words length]. unfold elsewhere in Hs. lia.
  - split; [apply zero_is_addr|]. split; [by constructor|done].
Qed.

Lemma alloc_return0_ok : op_ok is_addr (alloc_return0_stub H).
Proof.
  intros t Ht. unfold alloc_return0_stub. slot_op (256 * 4096) 128 (return0_pool).
  - split; [unfold is_addr; lia|]. split; [by constructor|]. intros x Hx. cbn [th_mem].
    apply write_code_out. cbn [return0_words length]. unfold elsewhere in Hs. lia.
  - split; [apply zero_is_addr|]. split; [by constructor|done].
Qed.

Lemma alloc_weak_slot_ok : op_ok (fun r => match r with Some a => is_addr a | None => True end) (alloc_weak_slot H).
Proof.
  intros t Ht. unfold alloc_weak_slot. slot_op (64 * 4096) 128 (weak_pool).
  - split; [unfold is_addr; lia|]. split; [by constructor|done].
  - split; [done|]. split; [by constructor|done].
Qed.

Lemma alloc_zero_data_ok : op_ok is_addr (alloc_zero_data_stub H).
Proof.
  intros t Ht. unfold alloc_zero_data_stub. destruct Ht. destruct (Z.eqb_spec (zero_page H t) 0); cbn [negb].
  - destruct (mh_mmap H 4096 (th_host H t)) as [[a|] h] eqn:Em.
    + destruct (ok_maps _ _ _ _ _ Hok _ _ _ _ Em) as (Ha&Hb&Ho). assert (is_addr a) by (unfold is_addr; lia).
      split; [done|]. split; [by constructor|]. intros x Hx. cbn [th_mem]. apply store_out. lia.
    + split; [apply zero_is_addr|]. split; [by constructor|done].
  - split; [done|]. split; [by constructor|done].
Qed.

Lemma map_shadow_ok : op_ok (fun _ => True) (map_shadow H).
Proof.
  intros t Ht. unfold map_shadow. destruct Ht. destruct (mh_mmap H _ _) as [r h].
  split; [done|]. split; [by constructor|done].
Qed.

Lemma store_out_ok a v : elsewhere a 8 -> op_ok (fun _ => True) (fun t => (tt, set_memory H (store 8 a v (th_mem H t)) t)).
Proof.
  intros He t []. split; [done|]. split; [by constructor|]. intros x Hx. cbn. apply store_out.
  unfold elsewhere in He. lia.
Qed.

(** ** Computations *)

Record kept (w w' : world) : Prop := {
  k_thunks : thunks_ok (th H L w');
  k_mem : forall x, lo <= x < hi -> memory H L w' x = memory H L w x;
  k_lk : lk H L w' = lk H L w;
  k_deferred : deferred H L w' = deferred H L w;
}.

Lemma kept_refl w : thunks_ok (th H L w) -> kept w w.
Proof. by constructor. Qed.

(** From a good state, [m] answers a value in [P] and keeps the state good. *)
Definition yields {A} (P : A -> Prop) (m : M A) : Prop :=
  forall w, thunks_ok (th H L w) -> exists a w', m w = Some (a, w') /\ kept w w' /\ P a.

Lemma yields_ret {A} (P : A -> Prop) a : P a -> yields P (ret H L a).
Proof. intros Ha w Hw. exists a, w. auto using kept_refl. Qed.

Lemma yields_bind {A B} (P : A -> Prop) (Q : B -> Prop) m f :
  yields P m -> (forall a, P a -> yields Q (f a)) -> yields Q (mbind H L m f).
Proof.
  intros Hm Hf w Hw. destruct (Hm w Hw) as (a&w1&E1&K1&Ha). destruct (Hf a Ha w1 (k_thunks _ _ K1)) as (b&w2&E2&K2&Hb).
  exists b, w2. unfold mbind. rewrite E1. split; [done|]. split; [|done]. destruct K1, K2.
  split; [done| |congruence|congruence]. intros x Hx. rewrite k_mem1 by done. by apply k_mem0.
Qed.

Lemma yields_weaken {A} (P Q : A -> Prop) m : yields P m -> (forall a, P a -> Q a) -> yields Q m.
Proof. intros Hm HPQ w Hw. destruct (Hm w Hw) as (a&w'&E&K&Ha). exists a, w'. auto. Qed.

Lemma yields_gets {A} (P : A -> Prop) f : (forall w, P (f w)) -> yields P (gets H L f).
Proof. intros Hf w Hw. exists (f w), w. auto using kept_refl. Qed.

(** A change of counters, registry, index or hooks. *)
Lemma yields_modify f :
  (forall w, th H L (f w) = th H L w) -> (forall w, lk H L (f w) = lk H L w) ->
  (forall w, deferred H L (f w) = deferred H L w) -> yields (fun _ => True) (modify H L f).
Proof.
  intros H1 H2 H3 w Hw. exists tt, (f w). split; [done|]. split; [|done].
  split; [by rewrite H1|intros x _; unfold memory; by rewrite H1|by rewrite H2|by rewrite H3].
Qed.

Lemma yields_on_thunks {A} (P : A -> Prop) f : op_ok P f -> yields P (on_thunks H L f).
Proof.
  intros Hf w Hw. specialize (Hf (th H L w) Hw). unfold on_thunks. destruct (f (th H L w)) as [a t].
  destruct Hf as (Ha&Ht&Hm). exists a, (set_th H L t w). split; [done|]. split; [by constructor|done].
Qed.

Lemma yields_if {A} (P : A -> Prop) (b : bool) m1 m2 : yields P m1 -> yields P m2 -> yields P (if b then m1 else m2).
Proof. by destruct b. Qed.

(** Counters and the registry. *)
Lemma yields_count_resolved : yields (fun _ => True) (count_resolved H L).
Proof. by apply yields_modify. Qed.
Lemma yields_count_stubbed : yields (fun _ => True) (count_stubbed H L).
Proof. by apply yields_modify. Qed.
Lemma yields_count_failed : yields (fun _ => True) (count_failed H L).
Proof. by apply yields_modify. Qed.
Lemma yields_trace c s l d a r k p : yields (fun _ => True) (trace_target_binding H L c s l d a r k p).
Proof. by apply yields_modify. Qed.

Lemma yields_dlsym h n : yields is_addr (dlsym H L h n).
Proof. apply yields_gets. intros w. apply (ok_dlsym _ _ _ _ _ Hok). Qed.

Lemma yields_lookup_result rs sym :
  yields (fun r => match r with Some r => is_addr (addr r) | None => True end) (lookup_result H L rs sym).
Proof.
  intros w Hw. unfold lookup_result, lookup_macho_symbol_result.
  destruct (last_symtab _) as [symtab|]; [|by exists None, (set_indexes H L (indexes H L w) w)].
  destruct (locate_tables _ _ _) as [syms strtab]. destruct (_ || _); [by exists None, (set_indexes H L (indexes H L w) w)|].
  destruct (macho_sym_index_for _ _ _ _ _ _ _ _) as [index ix].
  match goal with |- context [option_map ?f ?x] => exists (option_map f x), (set_indexes H L ix w); destruct x as [i|] end;
    (split; [done|]); (split; [by split|]); [apply u64_is_addr|done].
Qed.

End keep.

(** One step of a [yields] proof. *)
Ltac yields_step :=
  match goal with
  | |- yields _ (if _ then _ else _) => apply yields_if
  | |- yields _ (ret _ _ _) => apply yields_ret
  | |- yields _ (mbind _ _ (ret _ _ ?a) _) => apply (yields_bind (fun x => x = a)); [by apply yields_ret|intros ? ->]
  | |- yields _ (mbind _ _ (count_resolved _ _) _) => eapply yields_bind; [apply yields_count_resolved|intros ? _]
  | |- yields _ (mbind _ _ (count_stubbed _ _) _) => eapply yields_bind; [apply yields_count_stubbed|intros ? _]
  | |- yields _ (mbind _ _ (count_failed _ _) _) => eapply yields_bind; [apply yields_count_failed|intros ? _]
  | |- yields _ (mbind _ _ (trace_target_binding _ _ _ _ _ _ _ _ _ _) _) => eapply yields_bind; [apply yields_trace|intros ? _]
  | |- yields _ (mbind _ _ (dlsym _ _ _ _) _) => eapply yields_bind; [by eapply yields_dlsym|intros ? ?]
  | |- yields _ (dlsym _ _ _ _) => by eapply yields_dlsym
  | |- is_addr _ => solve [assumption | auto with mg]
  end.

Section operations.
Context {H : map_host} {L : linker} {own : own_symbols} {lo hi : Z} (Hok : host_ok H L own lo hi).
Notation yields := (@yields H L lo hi).
Notation anything := (fun _ => True).

Lemma yields_lookup_symbol rs sym : yields is_addr (lookup_symbol H L rs sym).
Proof.
  eapply yields_bind; [eapply yields_lookup_result|]. intros [r|] Hr; apply yields_ret; [done|apply zero_is_addr].
Qed.

Lemma yields_override rs sym provider addend : yields is_addr (resolve_main_cxx_operator_override H L rs sym provider addend).
Proof.
  unfold resolve_main_cxx_operator_override. yields_step; [repeat yields_step|].
  eapply yields_bind; [by apply (yields_gets anything)|intros weak _]. yields_step; [repeat yields_step|].
  eapply yields_bind; [apply yields_lookup_result|]. intros [r|] _; repeat yields_step.
Qed.

Lemma yields_asan sym : yields anything (resolve_asan_data_symbol H L own sym).
Proof.
  unfold resolve_asan_data_symbol. yields_step; [by yields_step|]. yields_step; [|by yields_step].
  eapply yields_bind; [by apply (yields_gets anything)|intros m _]. yields_step; [by yields_step|].
  eapply yields_bind; [apply yields_on_thunks, map_shadow_ok|]. intros [a|] _; [|by yields_step].
  eapply yields_bind; [apply yields_on_thunks, store_out_ok, (ok_shadow _ _ _ _ _ Hok)|]. intros _ _. by yields_step.
Qed.

Lemma yields_non_gui de sym : yields anything (resolve_non_gui_framework_data H L own de sym).
Proof.
  unfold resolve_non_gui_framework_data, resolve_shim_objc_class_symbol.
  repeat first [apply yields_asan | by yields_step | yields_step].
  by eapply yields_weaken; [apply (yields_dlsym Hok)|].
Qed.

Lemma yields_flat rs sym : yields anything (lookup_flat_symbol H L rs sym).
Proof.
  unfold lookup_flat_symbol, lookup_libsystem_symbol. eapply (yields_bind anything).
  - yields_step; [by apply yields_gets|by apply yields_ret].
  - intros [[a de]|] _; [by yields_step|]. yields_step. by yields_step.
Qed.

Lemma yields_lookup_mapped h lookup : yields anything (lookup_mapped H L h lookup).
Proof. unfold lookup_mapped. yields_step. yields_step; [by apply yields_gets|by yields_step]. Qed.

Lemma yields_lookup_macho_dylib de sym : yields anything (lookup_macho_dylib H L de sym).
Proof.
  unfold lookup_macho_dylib. eapply yields_bind; [by apply (yields_gets anything)|intros m _].
  eapply yields_bind; [by apply (yields_gets anything)|intros ok _]. yields_step; by yields_step.
Qed.

Lemma yields_wrap_ctor sym result : is_addr result -> yields is_addr (wrap_ctor H L sym result).
Proof. intros Hr. unfold wrap_ctor. yields_step; [by apply yields_on_thunks, (wrap_ctor_ok Hok)|by yields_step]. Qed.

Lemma yields_wrap_fixed lookup result h : is_addr result -> yields is_addr (wrap_fixed_stack_arg_symbol H L lookup result h).
Proof.
  intros Hr. unfold wrap_fixed_stack_arg_symbol. yields_step; [by yields_step|].
  eapply (yields_bind is_addr); [repeat yields_step|intros a Ha].
  eapply (yields_bind is_addr); [repeat yields_step|intros b Hb]. yields_step; [by yields_step|].
  eapply yields_bind; [apply yields_on_thunks, (create_stack_arg3_ok Hok)|]. intros thunk Ht. yields_step. by destruct (nz thunk).
Qed.

Lemma yields_wrap_variadic lookup result : is_addr result -> yields is_addr (wrap_variadic H L lookup result).
Proof.
  intros Hr. unfold wrap_variadic. destruct (lookup_variadic lookup) as [vi|]; [|by yields_step].
  yields_step. yields_step; [by yields_step|].
  eapply yields_bind; [apply yields_on_thunks, (create_variadic_ok Hok)|]. intros thunk Ht. yields_step. by destruct (nz thunk).
Qed.

Lemma yields_hook_sdl lookup result : is_addr result -> yields is_addr (hook_sdl H L own lookup result).
Proof.
  intros Hr. unfold hook_sdl. destruct (ok_sdl _ _ _ _ _ Hok). eapply yields_bind; [by apply (yields_gets anything)|intros d _].
  repeat (yields_step; try by yields_step);
    (eapply yields_bind; [by apply yields_modify|intros _ _]; by yields_step).
Qed.

Lemma yields_import_stub sym lookup de slot : yields is_addr (import_stub H L sym lookup de slot).
Proof.
  unfold import_stub. eapply yields_bind; [apply yields_on_thunks, (alloc_return0_ok Hok)|intros r Hr].
  eapply (yields_bind is_addr); [yields_step; [apply yields_on_thunks, (alloc_zero_data_ok Hok)|by yields_step]|intros r' Hr'].
  repeat yields_step.
Qed.

Lemma yields_bind_stub sym lookup de slot : yields is_addr (bind_stub H L sym lookup de slot).
Proof.
  unfold bind_stub. eapply yields_bind; [apply yields_on_thunks, (alloc_return0_ok Hok)|intros r Hr]. repeat yields_step.
Qed.

Lemma yields_count_miss weak : yields anything (count_miss H L weak).
Proof. destruct weak; [apply yields_count_stubbed|apply yields_count_failed]. Qed.
End operations.

(** As [yields_step], for the operations above. *)
Ltac yields_op :=
  match goal with
  | |- yields _ (import_stub _ _ _ _ _ _) => eapply yields_import_stub; eassumption
  | |- yields _ (bind_stub _ _ _ _ _ _) => eapply yields_bind_stub; eassumption
  | |- yields _ (mbind _ _ (lookup_symbol _ _ _ _) _) => eapply yields_bind; [apply yields_lookup_symbol|intros ? ?]
  | |- yields _ (mbind _ _ (resolve_main_cxx_operator_override _ _ _ _ _ _) _) => eapply yields_bind; [apply yields_override|intros ? ?]
  | |- yields _ (mbind _ _ (resolve_non_gui_framework_data _ _ _ _ _) _) => eapply yields_bind; [eapply yields_non_gui; eassumption|intros ? _]
  | |- yields _ (mbind _ _ (lookup_flat_symbol _ _ _ _) _) => eapply yields_bind; [eapply yields_flat; eassumption|intros [[? ?] ?] _]
  | |- yields _ (mbind _ _ (lookup_mapped _ _ _ _) _) => eapply yields_bind; [eapply yields_lookup_mapped; eassumption|intros ? _]
  | |- yields _ (mbind _ _ (lookup_macho_dylib _ _ _ _) _) => eapply yields_bind; [apply yields_lookup_macho_dylib|intros ? _]
  | |- yields _ (mbind _ _ (wrap_ctor _ _ _ _) _) => eapply yields_bind; [eapply yields_wrap_ctor; [eassumption|by yields_step]|intros ? ?]
  | |- yields _ (mbind _ _ (wrap_fixed_stack_arg_symbol _ _ _ _ _) _) => eapply yields_bind; [eapply yields_wrap_fixed; [eassumption|by yields_step]|intros ? ?]
  | |- yields _ (mbind _ _ (wrap_variadic _ _ _ _) _) => eapply yields_bind; [eapply yields_wrap_variadic; [eassumption|by yields_step]|intros ? ?]
  | |- yields _ (mbind _ _ (hook_sdl _ _ _ _ _) _) => eapply yields_bind; [eapply yields_hook_sdl; [eassumption|by yields_step]|intros ? ?]
  | |- yields _ (mbind _ _ (count_miss _ _ _) _) => eapply yields_bind; [apply yields_count_miss|intros ? _]
  | |- _ => yields_step
  end.

(** ** Whole resolutions *)

(** Every counted library has an entry. *)
Definition entries_ok (rs : resolver_state) : Prop := ndylibs rs <= Z.of_nat (length (dylibs rs)).

Section resolutions.
Context {H : map_host} {L : linker} {own : own_symbols} {lo hi : Z} (Hok : host_ok H L own lo hi).
Context (rs : resolver_state) (Hrs : entries_ok rs).
Notation yields := (@yields H L lo hi).

Lemma yields_dylib_at ordinal :
  1 <= ordinal <= ndylibs rs -> yields (fun de => dylibs rs !! Z.to_nat (ordinal - 1) = Some de) (dylib_at H L rs ordinal).
Proof.
  intros Ho. unfold dylib_at, entries_ok in *.
  destruct (lookup_lt_is_Some_2 (dylibs rs) (Z.to_nat (ordinal - 1)) ltac:(lia)) as [de E]. rewrite E. by apply yields_ret.
Qed.

Lemma yields_import_weak sym lookup addend slot : yields is_addr (import_weak H L rs sym lookup addend slot).
Proof.
  unfold import_weak. yields_op. yields_op; [repeat yields_op|]. yields_op. yields_op; [repeat yields_op|].
  eapply yields_bind; [apply yields_on_thunks, (alloc_weak_slot_ok Hok)|]. intros [r|] Hr; repeat yields_op.
Qed.

Lemma yields_import_library de sym lookup weak addend slot :
  yields is_addr (import_library H L own rs de sym lookup weak addend slot).
Proof.
  unfold import_library, import_mapped, import_macho.
  yields_op. yields_op; [repeat yields_op|]. destruct (action de); repeat yields_op.
Qed.

Lemma lua_hook_addr sym hook : lua_hook own sym = Some hook -> is_addr hook.
Proof.
  pose proof (ok_lua _ _ _ _ _ Hok) as Hl. rewrite !Forall_cons in Hl. destruct Hl as (?&?&?&_).
  unfold lua_hook. repeat (destruct (streq _ _); [by intros [= <-]|]). done.
Qed.

Lemma yields_resolve_import_named ord sym weak addend slot :
  yields is_addr (resolve_import_named H L own rs ord sym weak addend slot).
Proof.
  unfold resolve_import_named, import_main_executable, import_flat.
  destruct (lua_hook own sym) as [hook|] eqn:E; [apply lua_hook_addr in E; repeat yields_op|].
  yields_op; [repeat yields_op|]. yields_op.
  { yields_op.
    yields_op; [repeat yields_op|].
    destruct weak; repeat yields_op. }
  yields_op; [apply yields_import_weak|]. destruct (_ || _) eqn:Er; [repeat yields_op|].
  eapply yields_bind; [apply yields_dylib_at; lia|]. intros de _. apply yields_import_library.
Qed.

Lemma yields_resolve_import header chain_data ordinal addend slot :
  yields is_addr (resolve_import H L own rs header chain_data ordinal addend slot).
Proof.
  unfold resolve_import. eapply yields_bind; [by apply (yields_gets (fun _ => True))|intros m _].
  yields_op; [by yields_op|]. destruct (read_import _ _ _ _); [apply yields_resolve_import_named|by yields_op].
Qed.

Lemma yields_bind_library de sym lookup weak addend slot :
  yields is_addr (bind_library H L own rs de sym lookup weak addend slot).
Proof.
  unfold bind_library, bind_mapped, bind_macho.
  yields_op. yields_op; [repeat yields_op|]. destruct (action de); repeat yields_op.
Qed.

Lemma yields_resolve_bind_by_name ord sym weak addend slot :
  yields is_addr (resolve_bind_by_name H L own rs ord sym weak addend slot).
Proof.
  unfold resolve_bind_by_name, bind_self, bind_flat, bind_weak.
  destruct (lua_hook own sym) as [hook|] eqn:E; [apply lua_hook_addr in E; repeat yields_op|].
  yields_op; [repeat yields_op|]. yields_op.
  { yields_op.
    yields_op; [repeat yields_op|].
    destruct weak; repeat yields_op. }
  yields_op; [repeat yields_op|]. destruct (_ || _) eqn:Er; [repeat yields_op|].
  eapply yields_bind; [apply yields_dylib_at; lia|]. intros de _. apply yields_bind_library.
Qed.
End resolutions.

(** ** A small system: one library with [puts] *)

Definition sample_map_host : map_host :=
  {| mh_state := unit; mh_mmap := fun n h => (if n <? 2 ^ 40 then Some 0x100000 else None, h); mh_page := 4096 |}.
Definition sample_linker : linker :=
  mk_linker unit (fun _ h n => if (h =? 7) && streq n (str "puts") then 0x7000 else 0)
    (fun _ s => (0, s)) (fun _ _ => None) (fun _ _ => true) (fun _ => None).
Definition sample_own : own_symbols := mk_own 0x90 0x98 0xa0 0xa8 0xb0 0xb8 0xc0 0xc8 0xd0 0xd8 0xe0 0xe8.
Definition sample_library : dylib_entry := mk_de (str "libSystem.B.dylib") (str "/usr/lib/libSystem.B.dylib") DYLIB_MAP (str "libc.so.6") 7 None.
Definition sample_rs : resolver_state := mk_rs 0x1000 (mk_mh 2 0 0 []) 0 [sample_library] 1 0x100.
Definition sample_world (m : bytemem) (l : list deferred_bind) : world sample_map_host sample_linker :=
  mk_w sample_map_host sample_linker (mk_th sample_map_host m no_pool no_pool no_pool no_pool no_pool 0 tt) tt [] BindSlots.no_slots 0 0 0
    (mk_deferred l false false None) 0 0.

Lemma sample_host_ok : host_ok sample_map_host sample_linker sample_own 0x1000 0x5000.
Proof.
  constructor.
  - intros n h a h' E. cbn in E. destruct (Z.ltb_spec n (2 ^ 40)); [|done]. injection E as <- _. lia.
  - cbn. lia.
  - intros s h n. unfold is_addr. cbn. destruct (_ && _); lia.
  - apply (bool_decide_unpack _). by vm_compute.
  - split; split; vm_compute; done.
  - split; [split; vm_compute; done|]. left. vm_compute. done.
Qed.

Lemma sample_entries_ok : entries_ok sample_rs.
Proof. unfold entries_ok. cbn. lia. Qed.

Lemma sample_world_ok m l : @thunks_ok sample_map_host 0x1000 0x5000 (th _ _ (sample_world m l)).
Proof. constructor; try (by left); split; by vm_compute. Qed.
