(* ===== verification/ResolveAgree.v ===== *)
(** * The two resolvers agree

    [resolve_import] and [resolve_bind_by_name] are written out twice in the
    source.  Whatever the first one resolves, the second one resolves to the
    same address and with the same effects, up to the context strings the
    registry keeps for diagnostics. *)

From S2P Require Import Prelude CStr BindSlots Macho SymIndex ResolveNames Thunks Resolve ResolveInv.
Import Thunks Resolve.

(** A registry without its context strings. *)
Definition forget_info (i : BindSlots.resolver_bind_slot_info) : BindSlots.resolver_bind_slot_info :=
  BindSlots.mk_info (BindSlots.slot_addr i) (BindSlots.resolved i) [] (BindSlots.sym_name i) (BindSlots.lookup_name i)
    (BindSlots.dylib_name i) (BindSlots.source_kind i) (BindSlots.source_path i).
Definition forget_slots (s : BindSlots.slots) : BindSlots.slots :=
  BindSlots.mk_slots (map forget_info (BindSlots.registry s)) (BindSlots.hash s) (BindSlots.hash_initialized s).

Lemma forget_register i1 i2 s :
  forget_info i1 = forget_info i2 ->
  forget_slots (BindSlots.register_bind_slot i1 s) = forget_slots (BindSlots.register_bind_slot i2 s).
Proof.
  intros E. assert (Ha : BindSlots.slot_addr i1 = BindSlots.slot_addr i2) by (by injection E).
  unfold BindSlots.register_bind_slot. rewrite Ha. destruct (_ =? 0); [done|].
  destruct (BindSlots.bind_slot_find _ s) as [[i|] s'].
  - unfold forget_slots. cbn. f_equal. rewrite !(list_fmap_insert forget_info). by rewrite E.
  - destruct (_ <=? _); [done|]. unfold forget_slots. cbn. f_equal. rewrite !map_app. cbn. by rewrite E.
Qed.

Section agree.
Context {H : map_host} {L : linker} {own : own_symbols}.
Notation world := (world H L).
Notation M := (M H L).

Definition forget (w : world) : world := set_slots H L (forget_slots (bind_slots H L w)) w.

(** [m] does not change what [p] sees of the state. *)
Definition fixes {X A} (p : world -> X) (m : M A) : Prop := forall w a w', m w = Some (a, w') -> p w' = p w.

(** [p] does not see generated code, symbol indexes and hooked functions. *)
Class PlainView {X} (p : world -> X) : Prop := {
  pv_th : forall t w, p (set_th H L t w) = p w;
  pv_indexes : forall ix w, p (set_indexes H L ix w) = p w;
  pv_real : forall c a w, p (set_real H L c a w) = p w;
}.

Section fixes.
Context {X : Type} (p : world -> X) {Hp : PlainView p}.

Lemma fixes_ret {A} (a : A) : fixes p (ret H L a).
Proof. by intros w b w' [= <- <-]. Qed.
Lemma fixes_gets {A} (f : world -> A) : fixes p (gets H L f).
Proof. by intros w b w' [= <- <-]. Qed.
Lemma fixes_modify f : (forall w, p (f w) = p w) -> fixes p (modify H L f).
Proof. intros Hf w b w' [= <- <-]. apply Hf. Qed.
Lemma fixes_on_thunks {A} (f : thunks H -> A * thunks H) : fixes p (on_thunks H L f).
Proof. intros w a w'. unfold on_thunks. destruct (f (th H L w)) as [b t]. intros [= <- <-]. apply pv_th. Qed.
Lemma fixes_bind {A B} (m : M A) (f : A -> M B) : fixes p m -> (forall a, fixes p (f a)) -> fixes p (mbind H L m f).
Proof.
  intros Hm Hf w b w'. unfold mbind. destruct (m w) as [[a w1]|] eqn:E; [|done]. intros E2.
  rewrite (Hf a w1 b w' E2). by apply (Hm w a w1).
Qed.
Lemma fixes_if {A} (b : bool) (m1 m2 : M A) : fixes p m1 -> fixes p m2 -> fixes p (if b then m1 else m2).
Proof. by destruct b. Qed.
Lemma fixes_lookup_result rs sym : fixes p (lookup_result H L rs sym).
Proof. intros w a w'. unfold lookup_result. destruct (lookup_macho_symbol_result _ _ _ _ _ _ _) as [r ix]. intros [= <- <-]. apply pv_indexes. Qed.
Lemma fixes_dylib_at rs ord : fixes p (dylib_at H L rs ord).
Proof. unfold dylib_at. destruct (_ !! _); [apply fixes_ret|by intros w a w']. Qed.
End fixes.

(** [m] does not count a resolved bind. *)
Notation neutral := (fixes (binds_resolved H L)).
#[export] Instance resolved_view : PlainView (binds_resolved H L).
Proof. by constructor. Qed.

(** [m] registers nothing. *)
#[export] Instance slots_view : PlainView (bind_slots H L).
Proof. by constructor. Qed.

(** What [m1] resolves, [m2] resolves too, to the same value. *)
Definition agree {A} (m1 m2 : M A) : Prop :=
  forall w a w1, m1 w = Some (a, w1) -> binds_resolved H L w1 <> binds_resolved H L w ->
  exists w2, m2 w = Some (a, w2) /\ forget w2 = forget w1.

Lemma neutral_count_miss weak : neutral (count_miss H L weak).
Proof. destruct weak; apply fixes_modify; intros w; cbn; lia. Qed.

Lemma agree_neutral {A} (m1 m2 : M A) : neutral m1 -> agree m1 m2.
Proof. intros Hn w a w1 E Hc. by rewrite (Hn w a w1 E) in Hc. Qed.

Lemma agree_bind {A B} (m : M A) (f g : A -> M B) :
  neutral m -> (forall a, agree (f a) (g a)) -> agree (mbind H L m f) (mbind H L m g).
Proof.
  intros Hm Hf w b w'. unfold mbind. destruct (m w) as [[a w1]|] eqn:E; [|done]. intros E2 Hc.
  apply (Hf a w1 b w' E2). by rewrite (Hm w a w1 E).
Qed.

Lemma agree_if {A} (b : bool) (m1 m2 n1 n2 : M A) :
  agree m1 n1 -> agree m2 n2 -> agree (if b then m1 else m2) (if b then n1 else n2).
Proof. by destruct b. Qed.

Lemma agree_refl {A} (m : M A) : agree m m.
Proof. intros w a w1 E _. eauto. Qed.

(** The last steps of a resolved bind. *)
Lemma agree_finish c1 c2 sym lookup de slot r kind path :
  agree (mbind H L (trace_target_binding H L c1 sym lookup de slot r kind path)
           (fun _ => mbind H L (count_resolved H L) (fun _ => ret H L r)))
        (mbind H L (trace_target_binding H L c2 sym lookup de slot r kind path)
           (fun _ => mbind H L (count_resolved H L) (fun _ => ret H L r))).
Proof.
  intros w a w1 E _. injection E as <- <-. eexists. split; [reflexivity|].
  unfold forget, set_slots. cbn. by erewrite forget_register.
Qed.

Lemma agree_finish_count_first c1 c2 sym lookup de slot r kind path :
  agree (mbind H L (count_resolved H L)
           (fun _ => mbind H L (trace_target_binding H L c1 sym lookup de slot r kind path) (fun _ => ret H L r)))
        (mbind H L (trace_target_binding H L c2 sym lookup de slot r kind path)
           (fun _ => mbind H L (count_resolved H L) (fun _ => ret H L r))).
Proof.
  intros w a w1 E _. injection E as <- <-. eexists. split; [reflexivity|].
  unfold forget, set_slots. cbn. by erewrite forget_register.
Qed.
End agree.

Ltac fixes_step :=
  match goal with
  | |- fixes _ (mbind _ _ _ _) => apply fixes_bind; [|intros ?]
  | |- fixes _ (if _ then _ else _) => apply fixes_if
  | |- fixes _ (ret _ _ _) => apply fixes_ret
  | |- fixes _ (gets _ _ _) => apply fixes_gets
  | |- fixes _ (dlsym _ _ _ _) => apply fixes_gets
  | |- fixes _ (on_thunks _ _ _) => apply fixes_on_thunks; apply _
  | |- fixes _ (trace_target_binding _ _ _ _ _ _ _ _ _ _) => by apply fixes_modify
  | |- fixes _ (count_stubbed _ _) => apply fixes_modify; intros ?; cbn; solve [done | lia]
  | |- fixes _ (count_failed _ _) => apply fixes_modify; intros ?; cbn; solve [done | lia]
  | |- fixes _ (count_miss _ _ _) => unfold count_miss
  | |- fixes _ (modify _ _ (fun _ => set_real _ _ _ _ _)) => apply fixes_modify; intros ?; apply pv_real
  | |- fixes _ (lookup_result _ _ _ _) => apply fixes_lookup_result; apply _
  | |- fixes _ (dylib_at _ _ _ _) => apply fixes_dylib_at
  | |- fixes _ (match ?x with Some _ => _ | None => _ end) => destruct x
  | |- fixes _ (let '(_, _) := ?x in _) => destruct x
  end.

Section parts.
Context {H : map_host} {L : linker} {own : own_symbols} {X : Type} (p : world H L -> X) {Hp : PlainView p}.

Lemma fixes_lookup_symbol rs sym : fixes p (lookup_symbol H L rs sym).
Proof. unfold lookup_symbol. repeat fixes_step. Qed.
Lemma fixes_override rs sym pr a : fixes p (resolve_main_cxx_operator_override H L rs sym pr a).
Proof. unfold resolve_main_cxx_operator_override. repeat fixes_step. Qed.
Lemma fixes_non_gui de sym : fixes p (resolve_non_gui_framework_data H L own de sym).
Proof. unfold resolve_non_gui_framework_data, resolve_shim_objc_class_symbol, resolve_asan_data_symbol. repeat fixes_step. Qed.
Lemma fixes_flat rs sym : fixes p (lookup_flat_symbol H L rs sym).
Proof. unfold lookup_flat_symbol, lookup_libsystem_symbol. repeat fixes_step. Qed.
Lemma fixes_lookup_mapped h n : fixes p (lookup_mapped H L h n).
Proof. unfold lookup_mapped. repeat fixes_step. Qed.
Lemma fixes_lookup_macho_dylib de sym : fixes p (lookup_macho_dylib H L de sym).
Proof. unfold lookup_macho_dylib. repeat fixes_step. Qed.
Lemma fixes_wrap_ctor sym r : fixes p (wrap_ctor H L sym r).
Proof. unfold wrap_ctor. repeat fixes_step. Qed.
Lemma fixes_wrap_fixed n r h : fixes p (wrap_fixed_stack_arg_symbol H L n r h).
Proof. unfold wrap_fixed_stack_arg_symbol. repeat fixes_step. Qed.
Lemma fixes_wrap_variadic n r : fixes p (wrap_variadic H L n r).
Proof. unfold wrap_variadic. repeat fixes_step. Qed.
Lemma fixes_hook_sdl n r : fixes p (hook_sdl H L own n r).
Proof. unfold hook_sdl. repeat fixes_step. Qed.
End parts.

Lemma neutral_import_stub {H L} sym lookup de slot : fixes (binds_resolved H L) (import_stub H L sym lookup de slot).
Proof. unfold import_stub. repeat fixes_step. Qed.

Create HintDb fixes discriminated.
#[export] Hint Resolve fixes_lookup_symbol fixes_override fixes_non_gui fixes_flat fixes_lookup_mapped
  fixes_lookup_macho_dylib fixes_wrap_ctor fixes_wrap_fixed fixes_wrap_variadic fixes_hook_sdl
  fixes_dylib_at fixes_gets neutral_import_stub neutral_count_miss resolved_view slots_view : fixes.
Ltac fixes := repeat fixes_step; auto with fixes.

(** Run both resolvers in step; a branch the first one does not resolve asks
    nothing of the second. *)
Ltac agree_step :=
  match goal with
  | |- agree (mbind _ _ (trace_target_binding _ _ _ _ _ _ _ _ _ _) _) _ => apply agree_finish
  | |- agree (mbind _ _ (count_miss _ _ _) _) _ => apply agree_neutral; fixes
  | |- agree (mbind _ _ (count_stubbed _ _) _) _ => apply agree_neutral; fixes
  | |- agree (mbind _ _ (count_failed _ _) _) _ => apply agree_neutral; fixes
  | |- agree (mbind _ _ ?m _) (mbind _ _ ?m _) => apply agree_bind; [solve [auto with fixes | apply fixes_gets]|intros ?]
  | |- agree (if ?b then _ else _) (if ?b then _ else _) => apply agree_if
  | |- agree ?m ?m => apply agree_refl
  end.

Section resolvers.
Context {H : map_host} {L : linker} {own : own_symbols}.

Lemma agree_library rs de sym lookup weak addend slot :
  agree (import_library H L own rs de sym lookup weak addend slot) (bind_library H L own rs de sym lookup weak addend slot).
Proof.
  unfold import_library, bind_library. repeat agree_step.
  destruct (action de); unfold import_mapped, bind_mapped, import_macho, bind_macho; repeat agree_step.
Qed.

Lemma agree_flat rs sym lookup weak addend slot :
  agree (import_flat H L rs sym lookup weak addend slot) (bind_flat H L rs sym lookup weak addend slot).
Proof.
  unfold import_flat, bind_flat. agree_step. destruct a as [[a kind] path]. repeat agree_step.
  apply agree_neutral. fixes.
Qed.

Lemma agree_weak rs sym lookup addend slot :
  lookup_variadic lookup = None ->
  agree (import_weak H L rs sym lookup addend slot) (bind_weak H L rs sym lookup addend slot).
Proof.
  intros Hv. unfold import_weak, bind_weak. agree_step. agree_step; [agree_step|]. agree_step. agree_step.
  - agree_step. agree_step. unfold wrap_variadic. rewrite Hv. exact (agree_finish_count_first _ _ _ _ _ _ _ _ _).
  - apply agree_neutral. fixes.
Qed.

Lemma agree_main rs sym lookup weak addend slot :
  agree (import_main_executable H L rs sym lookup addend slot) (bind_self H L rs sym lookup weak addend slot).
Proof.
  unfold import_main_executable, bind_self. agree_step. agree_step; [agree_step|].
  apply agree_neutral. fixes.
Qed.

Lemma agree_named rs ord sym weak addend slot :
  (ord = -3 -> lookup_variadic (lookup_name_of sym) = None) ->
  agree (resolve_import_named H L own rs ord sym weak addend slot) (resolve_bind_by_name H L own rs ord sym weak addend slot).
Proof.
  intros Hv.
  unfold resolve_import_named, resolve_bind_by_name. destruct (lua_hook own sym); [apply agree_refl|].
  destruct (Z.eqb_spec ord 0) as [->|]; cbn [orb Z.eqb].
  { change (0 <? 1) with true. cbn [orb]. apply agree_neutral. fixes. }
  destruct (Z.eqb_spec ord (-1)); [apply agree_main|]. destruct (Z.eqb_spec ord (-2)); [apply agree_flat|].
  destruct (Z.eqb_spec ord (-3)); [by apply agree_weak, Hv|]. agree_step; [agree_step|].
  agree_step. apply agree_library.
Qed.

(** C5. The two resolvers agree.  An import that chained fixups resolve (the
    count of resolved binds goes up) is resolved by the bind opcodes of the
    same ordinal, name, weakness and addend too: to the same address, with the
    same generated code, counters and registry entry up to its context
    string.  (Weak lookups of variadic functions excepted: only the chained
    resolver adapts those.) *)
Theorem resolvers_agree rs ord sym weak addend slot w r w1 :
  resolve_import_named H L own rs ord sym weak addend slot w = Some (r, w1) ->
  binds_resolved H L w1 <> binds_resolved H L w ->
  (ord = -3 -> lookup_variadic (lookup_name_of sym) = None) ->
  exists w2, resolve_bind_by_name H L own rs ord sym weak addend slot w = Some (r, w2) /\ forget w2 = forget w1.
Proof.
  intros E Hc Hv. by apply (agree_named rs ord sym weak addend slot Hv w r w1).
Qed.
End resolvers.

Lemma resolvers_agree_witness :
  exists w1, resolve_import_named sample_map_host sample_linker sample_own sample_rs 1 (str "_puts") false 8 0x2008
               (sample_world (fun _ => 0) []) = Some (0x7008, w1) /\
  exists w2, resolve_bind_by_name sample_map_host sample_linker sample_own sample_rs 1 (str "_puts") false 8 0x2008
               (sample_world (fun _ => 0) []) = Some (0x7008, w2) /\ forget w2 = forget w1.
Proof.
  eexists. split; [reflexivity|].
  refine (resolvers_agree sample_rs 1 (str "_puts") false 8 0x2008 (sample_world (fun _ => 0) []) 0x7008 _ _ _ _).
  - reflexivity.
  - done.
  - done.
Defined.

(** * Ordinary symbols of mapped libraries

    What both resolvers bind them to. *)

Import Thunks Resolve.

Section plain.
Context {H : map_host} {L : linker} {own : own_symbols}.

(** A symbol with no special treatment. *)
Record plain_symbol (de : dylib_entry) (sym : cstr) : Prop := {
  ps_lua : lua_hook own sym = None;
  ps_appkit : streq (name de) (str "AppKit") = false;
  ps_objc : is_shim_objc_class_symbol sym = false;
  ps_asan : contains "libclang_rt.asan" (name de) = false;
  ps_operator : is_cxx_operator_symbol sym = false;
  ps_ctor : is_ctor_or_dtor sym = false;
  ps_ioctl : streq (lookup_name_of sym) (str "ioctl") = false;
  ps_variadic : lookup_variadic (lookup_name_of sym) = None;
  ps_sdl : streq (lookup_name_of sym) (str "SDL_GL_CreateContext") = false /\
           streq (lookup_name_of sym) (str "SDL_GL_SetAttribute") = false;
}.

Lemma import_named_plain rs w ord sym weak addend slot de f :
  plain_symbol de sym -> 1 <= ord <= ndylibs rs -> dylibs rs !! Z.to_nat (ord - 1) = Some de -> action de = DYLIB_MAP ->
  lk_dlsym L (lk H L w) (handle de) (lookup_name_of sym) = f -> f <> 0 ->
  exists w', resolve_import_named H L own rs ord sym weak addend slot w = Some (u64 (f + addend), w') /\
    binds_resolved H L w' = binds_resolved H L w + 1.
Proof.
  intros [P1 P2 P3 P4 P5 P6 P7 P8 [P9 P10]] Ho Hd Ha Hf Hf0. unfold resolve_import_named. rewrite P1.
  destruct (Z.eqb_spec ord (-1)), (Z.eqb_spec ord (-2)), (Z.eqb_spec ord (-3)), (Z.ltb_spec ord 1), (Z.ltb_spec (ndylibs rs) ord);
    try lia. cbn [orb]. unfold dylib_at. rewrite Hd. unfold mbind at 1. cbn [ret].
  unfold import_library, resolve_non_gui_framework_data. rewrite P2, P3, P4, Ha. cbn [andb].
  unfold mbind at 1. cbn [ret]. change (nz 0) with false. cbv iota.
  unfold import_mapped, lookup_mapped, resolve_main_cxx_operator_override, wrap_ctor, wrap_fixed_stack_arg_symbol, wrap_variadic, hook_sdl.
  rewrite P5, P6, P7, P8, P9, P10. unfold mbind at 1. unfold mbind at 1. unfold dlsym, gets. rewrite Hf.
  destruct (Z.eqb_spec f 0) as [|_]; [done|]. cbn [andb ret]. unfold nz at 1. destruct (Z.eqb_spec f 0) as [|_]; [done|]. cbn [negb].
  rewrite orb_true_r. cbn [negb andb].
  unfold mbind at 1. cbn [ret]. change (nz 0) with false. cbv iota.
  eexists. unfold mbind, ret, modify, trace_target_binding, count_resolved.
  destruct (active _ && negb _); (split; [reflexivity|reflexivity]).
Qed.

Lemma bind_by_name_plain rs w ord sym weak addend slot de f :
  plain_symbol de sym -> 1 <= ord <= ndylibs rs -> dylibs rs !! Z.to_nat (ord - 1) = Some de -> action de = DYLIB_MAP ->
  lk_dlsym L (lk H L w) (handle de) (lookup_name_of sym) = f -> f <> 0 ->
  exists w', resolve_bind_by_name H L own rs ord sym weak addend slot w = Some (u64 (f + addend), w').
Proof.
  intros Hp Ho Hd Ha Hf Hf0. destruct (import_named_plain rs w ord sym weak addend slot de f Hp Ho Hd Ha Hf Hf0) as (w1&E&Hc).
  destruct (agree_named rs ord sym weak addend slot ltac:(lia) w _ w1 E ltac:(lia)) as (w2&E2&_). by exists w2.
Qed.
End plain.
Arguments plain_symbol : clear implicits.
