(* ===== verification/ResolveDeferred.v ===== *)
(** * The registry tells what was bound

    Every bind of an opcode stream is written to its slot and registered; a
    later query of the slot answers the value the slot holds. *)

From stdpp Require Import gmap.
From S2P Require Import Prelude CStr BindSlots Macho SymIndex ResolveNames Thunks Resolve ResolveInv ResolveAgree.
Import Thunks Resolve.

Section registers.
Context {H : map_host} {L : linker} {own : own_symbols}.
Notation M := (M H L).

(** The entry says: [sym] at [slot] is bound to [r]. *)
Definition entry_for (slot r : Z) (sym : cstr) (info : BindSlots.resolver_bind_slot_info) : Prop :=
  BindSlots.slot_addr info = slot /\ BindSlots.resolved info = r /\ BindSlots.sym_name info = sym.

(** [m] registers its answer, once. *)
Definition registers (slot : Z) (sym : cstr) (m : M Z) : Prop :=
  forall w r w', m w = Some (r, w') ->
  exists info, entry_for slot r sym info /\
    bind_slots H L w' = BindSlots.register_bind_slot info (bind_slots H L w).

Lemma registers_bind {A} slot sym (m : M A) f :
  fixes (bind_slots H L) m -> (forall a, registers slot sym (f a)) -> registers slot sym (mbind H L m f).
Proof.
  intros Hm Hf w r w'. unfold mbind. destruct (m w) as [[a w1]|] eqn:E; [|done]. intros E2.
  destruct (Hf a w1 r w' E2) as (info&Hi&->). rewrite (Hm w a w1 E). eauto.
Qed.

Lemma registers_if slot sym (b : bool) m1 m2 :
  registers slot sym m1 -> registers slot sym m2 -> registers slot sym (if b then m1 else m2).
Proof. by destruct b. Qed.

Lemma registers_trace_count c sym lookup de slot r k p :
  registers slot sym (mbind H L (trace_target_binding H L c sym lookup de slot r k p)
                        (fun _ => mbind H L (count_resolved H L) (fun _ => ret H L r))).
Proof. intros w r' w' [= <- <-]. eexists. split; [|reflexivity]. done. Qed.

Lemma registers_trace c sym lookup de slot r k p :
  registers slot sym (mbind H L (trace_target_binding H L c sym lookup de slot r k p) (fun _ => ret H L r)).
Proof. intros w r' w' [= <- <-]. eexists. split; [|reflexivity]. done. Qed.
End registers.

Ltac registers_step :=
  match goal with
  | |- registers _ _ (mbind _ _ (trace_target_binding _ _ _ _ _ _ _ _ _ _) (fun _ => mbind _ _ _ _)) => apply registers_trace_count
  | |- registers _ _ (mbind _ _ (trace_target_binding _ _ _ _ _ _ _ _ _ _) _) => apply registers_trace
  | |- registers _ _ (mbind _ _ _ _) => apply registers_bind; [solve [fixes]|intros ?]
  | |- registers _ _ (if _ then _ else _) => apply registers_if
  | |- registers _ _ (bind_stub _ _ _ _ _ _) => unfold bind_stub
  end.

Section record.
Context {H : map_host} {L : linker} {own : own_symbols}.

Lemma registers_bind_library rs de sym lookup weak addend slot :
  registers slot sym (bind_library H L own rs de sym lookup weak addend slot).
Proof.
  unfold bind_library. repeat registers_step. destruct (action de); unfold bind_mapped, bind_macho; repeat registers_step.
Qed.

Lemma registers_bind_flat rs sym lookup weak addend slot :
  registers slot sym (bind_flat H L rs sym lookup weak addend slot).
Proof. unfold bind_flat. registers_step. destruct a as [[a kind] path]. repeat registers_step. Qed.

Lemma registers_bind_by_name rs ord sym weak addend slot :
  lua_hook own sym = None -> registers slot sym (resolve_bind_by_name H L own rs ord sym weak addend slot).
Proof.
  intros Hl. unfold resolve_bind_by_name. rewrite Hl. unfold bind_self, bind_weak.
  registers_step; [repeat registers_step|]. registers_step; [apply registers_bind_flat|].
  registers_step; [repeat registers_step|]. registers_step; [repeat registers_step|].
  registers_step. apply registers_bind_library.
Qed.

(** A registered entry is found. *)
Lemma registered_found s mp info :
  BindSlots.holds s mp -> BindSlots.slot_addr info <> 0 ->
  is_Some (mp !! BindSlots.slot_addr info) \/ Z.of_nat (size mp) < BindSlots.BIND_SLOT_REGISTRY_MAX ->
  fst (BindSlots.resolver_lookup_bind_slot (BindSlots.slot_addr info) (BindSlots.register_bind_slot info s)) = Some info.
Proof.
  intros Hh Ha Hroom. pose proof (BindSlots.lookup_holds _ _ _ (BindSlots.register_holds info s mp Hh) Ha) as Hl.
  destruct (BindSlots.resolver_lookup_bind_slot _ _) as [r s']. destruct Hl as [-> _]. cbn [fst].
  unfold BindSlots.register_spec. destruct (Z.eqb_spec (BindSlots.slot_addr info) 0); [done|].
  assert (E : bool_decide (is_Some (mp !! BindSlots.slot_addr info)) || (Z.of_nat (size mp) <? BindSlots.BIND_SLOT_REGISTRY_MAX) = true).
  { destruct Hroom as [Hs|Hs]; [by rewrite bool_decide_true|]. apply orb_true_iff. right. by apply Z.ltb_lt. }
  rewrite E. apply lookup_insert_eq.
Qed.

Context {lo hi : Z} (Hok : host_ok H L own lo hi) (rs : resolver_state) (Hrs : entries_ok rs).

(** The deferred library of an ordinal, if it is one. *)
Lemma deferred_check ord (w : world H L) :
  exists o, (if (1 <=? ord) && (ord <=? ndylibs rs)
             then mbind H L (dylib_at H L rs ord) (fun de => ret H L (if decide (action de = DYLIB_DEFERRED) then Some de else None))
             else ret H L None) w = Some (o, w).
Proof.
  destruct (Z.leb_spec 1 ord), (Z.leb_spec ord (ndylibs rs)); cbn [andb]; eauto.
  unfold dylib_at, mbind, entries_ok in *. destruct (lookup_lt_is_Some_2 (dylibs rs) (Z.to_nat (ord - 1)) ltac:(lia)) as [de ->].
  cbn. eauto.
Qed.

Lemma do_bind_one_registers base off ord sym weak addend w :
  thunks_ok (lo := lo) (hi := hi) (th H L w) -> lua_hook own sym = None ->
  let a := u64 (base + off) in
  exists w' r info, do_bind_one H L own rs (Some base) off ord sym weak addend w = Some (tt, w') /\
    entry_for a r sym info /\ is_addr r /\ load 8 a (memory H L w') = r /\
    bind_slots H L w' = BindSlots.register_bind_slot info (bind_slots H L w).
Proof.
  intros Ht Hl a. unfold do_bind_one. fold a. destruct (deferred_check ord w) as [o E]. unfold mbind at 1. rewrite E. clear E.
  destruct o as [de|].
  - match goal with |- context [mbind H L (modify H L ?f) ?k] => set (w1 := f w); change (mbind H L (modify H L f) k w) with (k tt w1) end.
    assert (Hw1 : th H L w1 = th H L w /\ bind_slots H L w1 = bind_slots H L w) by (unfold w1; by destruct (_ <? _)).
    destruct Hw1 as [T1 B1]. rewrite <- T1 in Ht.
    destruct (yields_on_thunks _ _ (alloc_return0_ok Hok) w1 Ht) as (r&w2&E2&K2&Hr).
    pose proof (fixes_on_thunks (bind_slots H L) (alloc_return0_stub H) w1 r w2 E2) as B2.
    unfold mbind at 1. rewrite E2. eexists _, r, (BindSlots.mk_info a r _ sym _ _ _ _).
    split; [reflexivity|]. cbn. split; [done|]. split; [exact Hr|].
    split; [|by rewrite B2, B1]. rewrite load_store_same by lia. by apply Z.mod_small.
  - destruct (yields_resolve_bind_by_name Hok rs Hrs ord sym weak addend a w Ht) as (r&w2&E2&K2&Hr).
    destruct (registers_bind_by_name rs ord sym weak addend a Hl w r w2 E2) as (info&Hi&B2).
    unfold mbind at 1. rewrite E2. eexists _, r, info.
    split; [reflexivity|]. cbn. split; [exact Hi|]. split; [exact Hr|].
    split; [|exact B2]. rewrite load_store_same by lia. by apply Z.mod_small.
Qed.
End record.

(** Binds are recorded.  For any bind of an opcode stream (to a library,
    a special ordinal, a deferred library or one that is missing) with room in
    the registry: the bind ends, and a query of its slot answers the symbol's
    name and exactly the pointer the slot holds. *)
Theorem bind_recorded H L own lo hi rs base off ord sym weak addend w mp :
  host_ok H L own lo hi -> entries_ok rs -> thunks_ok (lo := lo) (hi := hi) (th H L w) ->
  BindSlots.holds (bind_slots H L w) mp -> lua_hook own sym = None ->
  let a := u64 (base + off) in
  a <> 0 -> is_Some (mp !! a) \/ Z.of_nat (size mp) < BindSlots.BIND_SLOT_REGISTRY_MAX ->
  exists w' info, do_bind_one H L own rs (Some base) off ord sym weak addend w = Some (tt, w') /\
    fst (BindSlots.resolver_lookup_bind_slot a (bind_slots H L w')) = Some info /\
    BindSlots.resolved info = load 8 a (memory H L w') /\ BindSlots.sym_name info = sym.
Proof.
  intros Hok Hrs Ht Hh Hl a Ha Hroom.
  destruct (do_bind_one_registers Hok rs Hrs base off ord sym weak addend w Ht Hl) as (w'&r&info&E&(E1&E2&E3)&_&Hload&B).
  exists w', info. fold a in E1, Hload. rewrite E2, E3, Hload, B. split; [done|]. split; [|done].
  rewrite <- E1. eapply registered_found; [exact Hh| |]; rewrite E1; done.
Qed.

Lemma bind_recorded_witness :
  exists w' info,
    do_bind_one sample_map_host sample_linker sample_own sample_rs (Some 0x2000) 8 1 (str "_puts") false 0
      (sample_world (fun _ => 0) []) = Some (tt, w') /\
    fst (BindSlots.resolver_lookup_bind_slot 0x2008 (bind_slots _ _ w')) = Some info /\
    BindSlots.resolved info = load 8 0x2008 (memory _ _ w') /\ BindSlots.sym_name info = str "_puts".
Proof.
  refine (bind_recorded sample_map_host sample_linker sample_own 0x1000 0x5000 sample_rs 0x2000 8 1 (str "_puts") false 0
    (sample_world (fun _ => 0) []) ∅ sample_host_ok sample_entries_ok (sample_world_ok _ _) BindSlots.no_slots_holds _ _ _).
  - reflexivity.
  - done.
  - right. by vm_compute.
Defined.

(** * Deferred libraries

    Slots of a deferred library hold stubs until the library is opened; the
    completion then writes each recorded slot once. *)

Import Thunks Resolve.

Section writes.
Context {H : map_host} {L : linker} {own : own_symbols} {lo hi : Z} (Hok : host_ok H L own lo hi).
Notation world := (world H L).
Notation M := (M H L).
Notation good w := (@thunks_ok H lo hi (th H L w)).

(** As [kept], but the pointer at [slot] may change. *)
Record kept_but (slot : Z) (w w' : world) : Prop := {
  kb_thunks : good w';
  kb_mem : forall x, lo <= x < hi -> ~ slot <= x < slot + 8 -> memory H L w' x = memory H L w x;
  kb_lk : lk H L w' = lk H L w;
  kb_deferred : deferred H L w' = deferred H L w;
}.

Definition writes (slot : Z) (m : M unit) : Prop :=
  forall w, good w -> exists w', m w = Some (tt, w') /\ kept_but slot w w'.

Lemma writes_yields slot (m : M unit) : @yields H L lo hi _ (fun _ => True) m -> writes slot m.
Proof.
  intros Hm w Hw. destruct (Hm w Hw) as ([]&w'&E&[K1 K2 K3 K4]&_). exists w'. split; [done|]. split; auto.
Qed.

Lemma writes_bind {A} slot (P : A -> Prop) m f :
  @yields H L lo hi _ P m -> (forall a, P a -> writes slot (f a)) -> writes slot (mbind H L m f).
Proof.
  intros Hm Hf w Hw. destruct (Hm w Hw) as (a&w1&E1&[K1 K2 K3 K4]&Ha). destruct (Hf a Ha w1 K1) as (w2&E2&[J1 J2 J3 J4]).
  exists w2. unfold mbind. rewrite E1. split; [done|]. split; [done| |congruence|congruence].
  intros x Hx Hs. rewrite J2 by done. by apply K2.
Qed.

Lemma writes_if slot (b : bool) m1 m2 : writes slot m1 -> writes slot m2 -> writes slot (if b then m1 else m2).
Proof. by destruct b. Qed.

(** A write to the slot, then its registration. *)
Lemma writes_write64 slot v c sym lookup de r k p :
  writes slot (mbind H L (write64 H L slot v) (fun _ => trace_target_binding H L c sym lookup de slot r k p)).
Proof.
  intros w Hw. eexists. split; [reflexivity|]. destruct Hw. split; [by constructor| |done|done].
  intros x Hx Hs. cbn. apply store_out. lia.
Qed.

Lemma writes_complete_bind rs de db : writes (got_slot db) (complete_bind H L own rs de db).
Proof.
  unfold complete_bind. eapply writes_bind; [eapply yields_lookup_mapped; eassumption|intros a _].
  eapply writes_bind; [apply yields_override|intros o Ho]. apply writes_if.
  - eapply writes_bind; [eapply yields_wrap_ctor; eassumption|intros r _]. apply writes_write64.
  - eapply writes_bind; [eapply yields_dlsym; eassumption|intros d _].
    destruct (if nz a then _ else _) as [[a' kind] path]. apply writes_if.
    + eapply writes_bind; [eapply yields_wrap_ctor; [eassumption|apply u64_is_addr]|intros r _]. apply writes_write64.
    + apply writes_if; apply writes_yields; [by apply yields_ret|apply yields_trace].
Qed.

(** A symbol the completion does not adapt. *)
Definition deferred_plain (sym : cstr) : Prop := is_cxx_operator_symbol sym = false /\ is_ctor_or_dtor sym = false.

Lemma complete_bind_plain rs de db w f :
  deferred_plain (db_sym_name db) -> lk_dlsym L (lk H L w) (handle de) (lookup_name_of (db_sym_name db)) = f -> f <> 0 ->
  exists w', complete_bind H L own rs de db w = Some (tt, w') /\
    memory H L w' = store 8 (got_slot db) (u64 (f + db_addend db)) (memory H L w).
Proof.
  intros [P1 P2] Hf Hf0. unfold complete_bind, lookup_mapped, resolve_main_cxx_operator_override, wrap_ctor. rewrite P1, P2, orb_true_r.
  unfold mbind at 1. unfold mbind at 1. unfold dlsym at 1, gets at 1. rewrite Hf. destruct (Z.eqb_spec f 0) as [|_]; [done|].
  cbn [andb]. unfold ret at 1. unfold mbind at 1. unfold ret at 1. change (nz 0) with false. cbv iota.
  unfold mbind at 1. unfold dlsym at 1, gets at 1. unfold nz at 1. destruct (Z.eqb_spec f 0) as [|_]; [done|]. cbn [negb].
  unfold nz at 1. destruct (Z.eqb_spec f 0) as [|_]; [done|]. cbn [negb]. eexists. split; reflexivity.
Qed.

(** ** All of them *)

Definition slots_apart (d1 d2 : deferred_bind) : Prop := got_slot d1 + 8 <= got_slot d2 \/ got_slot d2 + 8 <= got_slot d1.

Definition slot_in_image (db : deferred_bind) : Prop := lo <= got_slot db /\ got_slot db + 8 <= hi.

(** The slot holds the symbol of its library. *)
Definition completed (rs : resolver_state) (lk0 : lk_state L) (m : bytemem) (db : deferred_bind) : Prop :=
  forall de f, dylibs rs !! Z.to_nat (lib_ordinal db - 1) = Some de -> handle de <> 0 ->
  deferred_plain (db_sym_name db) -> lk_dlsym L lk0 (handle de) (lookup_name_of (db_sym_name db)) = f -> f <> 0 ->
  load 8 (got_slot db) m = u64 (f + db_addend db).

Lemma completed_ext rs lk0 m m' db :
  (forall x, got_slot db <= x < got_slot db + 8 -> m' x = m x) -> completed rs lk0 m db -> completed rs lk0 m' db.
Proof. intros Hx Hc de f H1 H2 H3 H4 H5. rewrite <- (Hc de f H1 H2 H3 H4 H5). by apply load_ext. Qed.

Lemma complete_binds_spec rs l w :
  good w -> Forall (fun db => is_Some (dylibs rs !! Z.to_nat (lib_ordinal db - 1))) l ->
  Forall slot_in_image l -> ForallOrdPairs slots_apart l ->
  exists w', complete_binds H L own rs l w = Some (tt, w') /\ good w' /\ deferred H L w' = deferred H L w /\
    Forall (completed rs (lk H L w) (memory H L w')) l /\
    forall x, lo <= x < hi -> Forall (fun db => ~ got_slot db <= x < got_slot db + 8) l -> memory H L w' x = memory H L w x.
Proof.
  intros Hw Hd Hin Hap. revert w Hw. induction l as [|db l IH]; intros w Hw; [by exists w|].
  apply Forall_cons in Hd as [[de Hde] Hd']. apply Forall_cons in Hin as [Hi Hin']. inversion_clear Hap as [|? ? Ha Hap'].
  specialize (IH Hd' Hin' Hap'). cbn [complete_binds]. unfold dylib_at. rewrite Hde. unfold mbind at 1. unfold ret at 1.
  assert (H1 : exists w1, (if handle de =? 0 then ret H L tt else complete_bind H L own rs de db) w = Some (tt, w1) /\
                 kept_but (got_slot db) w w1 /\ completed rs (lk H L w) (memory H L w1) db).
  { destruct (Z.eqb_spec (handle de) 0) as [E|E].
    - exists w. split; [done|]. split; [by constructor|]. intros de' f Hde' Hh. congruence.
    - destruct (writes_complete_bind rs de db w Hw) as (w1&E1&K1). exists w1. split; [done|]. split; [done|].
      intros de' f Hde' _ Hp Hf Hf0. assert (de' = de) as -> by congruence.
      destruct (complete_bind_plain rs de db w f Hp Hf Hf0) as (w1'&E1'&Hm). assert (w1' = w1) as -> by congruence.
      rewrite Hm, load_store_same by lia. apply Z.mod_small, u64_range. }
  destruct H1 as (w1&E1&[K1 K2 K3 K4]&Hc). unfold mbind at 1. rewrite E1.
  destruct (IH w1 K1) as (w'&E'&Hg'&Hd''&Hc'&Hf'). exists w'. rewrite K3 in Hc'. split; [done|]. split; [done|].
  split; [by rewrite Hd'', K4|]. split.
  - constructor; [|done]. eapply completed_ext; [|exact Hc]. intros y Hy. destruct Hi. apply Hf'; [lia|].
    eapply Forall_impl; [exact Ha|]. intros d2. unfold slots_apart. lia.
  - intros y Hy Ho. apply Forall_cons in Ho as [Ho1 Ho2]. rewrite Hf' by done. by apply K2.
Qed.

Lemma open_deferred_good l w :
  let '(l', w') := open_all_deferred H L l w in
  length l' = length l /\ th H L w' = th H L w /\ deferred H L w' = deferred H L w.
Proof.
  revert w. induction l as [|de l IH]; intros w; [done|]. cbn [open_all_deferred]. unfold open_deferred.
  destruct (decide _).
  - destruct (lk_dlopen L (so_path de) (lk H L w)) as [h s]. specialize (IH (set_lk H L s w)).
    destruct (open_all_deferred H L l (set_lk H L s w)) as [l' w']. cbn in *. by destruct IH as (->&->&->).
  - specialize (IH w). destruct (open_all_deferred H L l w) as [l' w']. cbn in *. by destruct IH as (->&->&->).
Qed.
End writes.

(** The saved state with its deferred libraries opened, and the linker after. *)
Definition opened {H L} (rs : resolver_state) (w : world H L) : resolver_state * lk_state L :=
  let '(l, w) := open_all_deferred H L (dylibs rs) w in
  (mk_rs (mh rs) (image rs) (slide rs) l (ndylibs rs) (fixups_datasize rs), lk H L w).

Lemma opened_deferred {H L} l d (w : world H L) :
  let '(l1, w1) := open_all_deferred H L l (set_deferred H L d w) in
  let '(l2, w2) := open_all_deferred H L l w in l1 = l2 /\ w1 = set_deferred H L d w2.
Proof.
  revert w. induction l as [|de l IH]; intros w; [done|]. cbn [open_all_deferred]. unfold open_deferred.
  destruct (decide _).
  - cbn [lk set_deferred]. destruct (lk_dlopen L (so_path de) (lk H L w)) as [h s]. specialize (IH (set_lk H L s w)).
    change (set_lk H L s (set_deferred H L d w)) with (set_deferred H L d (set_lk H L s w)).
    destruct (open_all_deferred H L l (set_deferred H L d (set_lk H L s w))), (open_all_deferred H L l (set_lk H L s w)).
    by destruct IH as [-> ->].
  - specialize (IH w). destruct (open_all_deferred H L l (set_deferred H L d w)), (open_all_deferred H L l w).
    by destruct IH as [-> ->].
Qed.

(** C4. Deferred binds are completed once.  When the GL context exists, for
    recorded binds whose slots are in the image and apart: the completion
    ends, every slot whose library could be opened and has the symbol holds
    that symbol's address plus the addend, when the symbol is neither a C++
    operator nor a constructor or destructor (those get adapters and are not
    covered), no byte of the image outside the slots changes, and a second
    completion changes nothing. *)
Theorem deferred_binds_completed H L own lo hi w rs :
  host_ok H L own lo hi -> thunks_ok (lo := lo) (hi := hi) (th H L w) ->
  let d := deferred H L w in
  resolved d = false -> d_rs d = Some rs ->
  Forall (fun db => 1 <= lib_ordinal db <= Z.of_nat (length (dylibs rs))) (binds d) ->
  Forall (slot_in_image (lo := lo) (hi := hi)) (binds d) -> ForallOrdPairs slots_apart (binds d) ->
  let '(rs', lk') := opened rs w in
  exists w', resolver_complete_deferred H L own w = Some (tt, w') /\
    Forall (completed rs' lk' (memory H L w')) (binds d) /\
    (forall x, lo <= x < hi -> Forall (fun db => ~ got_slot db <= x < got_slot db + 8) (binds d) ->
       memory H L w' x = memory H L w x) /\
    resolver_complete_deferred H L own w' = Some (tt, w').
Proof.
  intros Hok Hw d Hr Hd Hord Hin Hap. unfold opened, resolver_complete_deferred. fold d. rewrite Hr, Hd.
  set (d1 := mk_deferred (binds d) (active d) true (Some rs)).
  pose proof (opened_deferred (dylibs rs) d1 w) as Ho. pose proof (open_deferred_good (dylibs rs) w) as Hg.
  destruct (open_all_deferred H L (dylibs rs) (set_deferred H L d1 w)) as [l1 w1].
  destruct (open_all_deferred H L (dylibs rs) w) as [l2 w2]. destruct Ho as [-> ->]. destruct Hg as (Hlen&Hth&_).
  set (rs2 := mk_rs (mh rs) (image rs) (slide rs) l2 (ndylibs rs) (fixups_datasize rs)).
  set (w3 := set_deferred H L (mk_deferred (binds d) (active d) true (Some rs2)) (set_deferred H L d1 w2)).
  destruct (complete_binds_spec Hok rs2 (binds d) w3) as (w'&E&_&Hd'&Hc&Hf); try done.
  - cbn. by rewrite Hth.
  - eapply Forall_impl; [exact Hord|]. intros db Hdb. apply lookup_lt_is_Some_2. cbn in Hdb |- *. rewrite Hlen. lia.
  - exists w'. split; [done|]. split; [exact Hc|]. split; [|by rewrite Hd'].
    intros x Hx Hox. rewrite Hf by done. unfold memory. cbn. by rewrite Hth.
Qed.

(** A GL library that can be opened, with one recorded bind. *)
Definition gl_linker : linker :=
  mk_linker Z (fun s h n => if (s =? 1) && (h =? 9) && streq n (str "glClear") then 0x8000 else 0)
    (fun _ _ => (9, 1)) (fun _ _ => None) (fun _ _ => true) (fun _ => None).
Definition gl_library : dylib_entry := mk_de (str "OpenGL") (str "/System/OpenGL") DYLIB_DEFERRED (str "libGL.so.1") 0 None.
Definition gl_rs : resolver_state := mk_rs 0x1000 (mk_mh 2 0 0 []) 0 [gl_library] 1 0.
Definition gl_world : world sample_map_host gl_linker :=
  mk_w sample_map_host gl_linker (mk_th sample_map_host (fun _ => 0) no_pool no_pool no_pool no_pool no_pool 0 tt) 0 []
    BindSlots.no_slots 0 0 0 (mk_deferred [mk_db 0x2000 (str "_glClear") 1 false 0] true false (Some gl_rs)) 0 0.

Lemma gl_host_ok : host_ok sample_map_host gl_linker sample_own 0x1000 0x5000.
Proof.
  destruct sample_host_ok. constructor; try done. intros s h n. unfold is_addr. cbn. destruct (_ && _); lia.
Qed.

Lemma deferred_binds_completed_witness :
  exists w', resolver_complete_deferred sample_map_host gl_linker sample_own gl_world = Some (tt, w') /\
    load 8 0x2000 (memory _ _ w') = 0x8000.
Proof.
  pose proof (deferred_binds_completed sample_map_host gl_linker sample_own 0x1000 0x5000 gl_world gl_rs gl_host_ok) as Hd.
  change (opened gl_rs gl_world) with (mk_rs 0x1000 (mk_mh 2 0 0 []) 0
    [mk_de (str "OpenGL") (str "/System/OpenGL") DYLIB_MAP (str "libGL.so.1") 9 None] 1 0, 1) in Hd. cbv zeta iota beta in Hd.
  destruct Hd as (w'&E&Hc&_).
  - constructor; try (by left); split; by vm_compute.
  - done.
  - done.
  - apply List.Forall_cons; [cbn; lia|apply List.Forall_nil].
  - apply List.Forall_cons; [split; cbn; lia|apply List.Forall_nil].
  - constructor; [apply List.Forall_nil|constructor].
  - exists w'. split; [exact E|]. apply Forall_cons in Hc as [Hc _].
    exact (Hc _ 0x8000 eq_refl ltac:(done) ltac:(by vm_compute) eq_refl ltac:(done)).
Defined.
