(* ===== verification/Fixups.v ===== *)
(** * Chained fixups: src/resolver.c, process_chained_fixups and walk_chain

    Pointers of the data segments hold their own relocation: a chained pointer
    is a bit field with the distance to the next one.  Binding a symbol is the
    business of [resolve_import] (Resolve.v, put together in ResolveFixups.v); here it is an interface. *)

From S2P Require Import Prelude Leb128.

Module Fixups.

Definition DYLD_CHAINED_PTR_64 : Z := 2.
Definition DYLD_CHAINED_PTR_64_OFFSET : Z := 6.
Definition DYLD_CHAINED_PTR_START_NONE : Z := 0xFFFF.

Definition FIXUP_PTR_BIND (raw : Z) : Z := (raw .>> 63) .& 1.
Definition FIXUP_PTR_NEXT (raw : Z) : Z := (raw .>> 51) .& 0xFFF.
Definition FIXUP_BIND_ORDINAL (raw : Z) : Z := raw .& 0xFFFFFF.
Definition FIXUP_BIND_ADDEND (raw : Z) : Z := (raw .>> 24) .& 0xFF.
Definition FIXUP_REBASE_TARGET (raw : Z) : Z := raw .& 0xFFFFFFFFF.
Definition FIXUP_REBASE_HIGH8 (raw : Z) : Z := (raw .>> 36) .& 0xFF.

(** Memory, the resolver's own state, [rebases_applied] and the ranges made
    writable, in order. *)
Record fx (S : Type) := mk_fx { mem : bytemem; rs : S; rebases_applied : Z; writable : list (Z * Z) }.
Arguments mk_fx {S}. Arguments mem {S}. Arguments rs {S}. Arguments rebases_applied {S}. Arguments writable {S}.

Definition set_mem {S} (s : fx S) (m : bytemem) : fx S := mk_fx m (rs s) (rebases_applied s) (writable s).

(** [resolve_import(rs, ordinal, header, chain_data, addend, slot_addr)]: the
    address a slot is bound to.  It may build thunks, outside the image
    [lo .. hi), and keeps an invariant of its own state. *)
Class ImportOps (S : Type) := { resolve_import : Z -> Z -> Z -> Z -> Z -> fx S -> Z * fx S }.
Class ImportResolver (S : Type) {Ops : ImportOps S} (lo hi : Z) := {
  resolver_inv : S -> Prop;
  resolve_range : forall header chain_data ordinal addend slot s,
    resolver_inv (rs s) -> 0 <= fst (resolve_import header chain_data ordinal addend slot s) < 2 ^ 64;
  resolve_frame : forall header chain_data ordinal addend slot s x,
    resolver_inv (rs s) -> lo <= x < hi ->
    mem (snd (resolve_import header chain_data ordinal addend slot s)) x = mem s x;
  resolve_keeps : forall header chain_data ordinal addend slot s,
    resolver_inv (rs s) -> resolver_inv (rs (snd (resolve_import header chain_data ordinal addend slot s)));
}.

Section fixups.
Context {S : Type} {Ops : ImportOps S}.
Context (mh_addr slide page : Z).

(** The value of a rebased pointer. *)
Definition rebase_value (is_offset : bool) (target high8 : Z) : Z :=
  let value := if is_offset then u64 (mh_addr + target) else u64 (target + slide) in
  value .| (high8 .<< 56).

(** One iteration of the loop of [walk_chain] on the pointer [raw] at [loc]. *)
Definition apply_raw (is_offset : bool) (header chain_data loc raw : Z) (s : fx S) : fx S :=
  if nz (FIXUP_PTR_BIND raw) then
    let '(resolved, s) := resolve_import header chain_data (FIXUP_BIND_ORDINAL raw)
                            (signed 8 (FIXUP_BIND_ADDEND raw)) loc s in
    set_mem s (store 8 loc resolved (mem s))
  else
    let value := rebase_value is_offset (FIXUP_REBASE_TARGET raw) (FIXUP_REBASE_HIGH8 raw) in
    mk_fx (store 8 loc value (mem s)) (rs s) (rebases_applied s + 1) (writable s).

(** [None]: the chain does not end within [fuel] pointers. *)
Fixpoint walk_chain (fuel : nat) (is_offset : bool) (header chain_data loc : Z) (s : fx S) : option (fx S) :=
  match fuel with
  | O => None
  | Datatypes.S fuel =>
      let raw := load 8 loc (mem s) in
      let next := FIXUP_PTR_NEXT raw in
      let s := apply_raw is_offset header chain_data loc raw s in
      if next =? 0 then Some s else walk_chain fuel is_offset header chain_data (loc + next * 4) s
  end.

Definition make_segment_writable (seg_base page_count page_size : Z) (s : fx S) : fx S :=
  let start := seg_base .& Z.lnot (page - 1) in
  let fin := seg_base + page_count * page_size in
  let fin := (fin + page - 1) .& Z.lnot (page - 1) in
  mk_fx (mem s) (rs s) (rebases_applied s) (writable s ++ [(start, fin - start)]).

(** [struct dyld_chained_starts_in_segment] at [a]. *)
Definition page_size (m : bytemem) (a : Z) : Z := load 2 (a + 4) m.
Definition pointer_format (m : bytemem) (a : Z) : Z := load 2 (a + 6) m.
Definition segment_offset (m : bytemem) (a : Z) : Z := load 8 (a + 8) m.
Definition page_count (m : bytemem) (a : Z) : Z := load 2 (a + 20) m.
Definition page_start (m : bytemem) (a i : Z) : Z := load 2 (a + 22 + 2 * i) m.

(** The pages of a segment from page [i] on; [n] of them are left. *)
Fixpoint walk_pages (fuel : nat) (is_offset : bool) (header chain_data seg_starts seg_base : Z) (n : nat) (i : Z)
    (s : fx S) : option (fx S) :=
  match n with
  | O => Some s
  | Datatypes.S n =>
      let start := page_start (mem s) seg_starts i in
      if start =? DYLD_CHAINED_PTR_START_NONE then walk_pages fuel is_offset header chain_data seg_starts seg_base n (i + 1) s
      else
        match walk_chain fuel is_offset header chain_data (seg_base + i * page_size (mem s) seg_starts + start) s with
        | Some s => walk_pages fuel is_offset header chain_data seg_starts seg_base n (i + 1) s
        | None => None
        end
  end.

Definition walk_segment (fuel : nat) (header chain_data seg_starts : Z) (s : fx S) : option (fx S) :=
  let format := pointer_format (mem s) seg_starts in
  if negb (format =? DYLD_CHAINED_PTR_64) && negb (format =? DYLD_CHAINED_PTR_64_OFFSET) then Some s
  else
    let seg_base := u64 (mh_addr + segment_offset (mem s) seg_starts) in
    let s := make_segment_writable seg_base (page_count (mem s) seg_starts) (page_size (mem s) seg_starts) s in
    walk_pages fuel (format =? DYLD_CHAINED_PTR_64_OFFSET) header chain_data seg_starts seg_base
      (Z.to_nat (page_count (mem s) seg_starts)) 0 s.

(** The segments of [starts], from segment [i] on. *)
Fixpoint walk_segments (fuel : nat) (header chain_data starts : Z) (n : nat) (i : Z) (s : fx S) : option (fx S) :=
  match n with
  | O => Some s
  | Datatypes.S n =>
      let off := load 4 (starts + 4 + 4 * i) (mem s) in
      if off =? 0 then walk_segments fuel header chain_data starts n (i + 1) s
      else match walk_segment fuel header chain_data (starts + off) s with
           | Some s => walk_segments fuel header chain_data starts n (i + 1) s
           | None => None
           end
  end.

(** [chain_data] is the address of the fixups, 0 when they are not mapped.
    [inl] is -1; [inr None] a walk that did not end. *)
Definition process_chained_fixups (fuel : nat) (chain_data : Z) (s : fx S) : unit + option (fx S) :=
  if chain_data =? 0 then inl tt
  else
    let starts := chain_data + load 4 (chain_data + 4) (mem s) in
    inr (walk_segments fuel chain_data chain_data starts (Z.to_nat (load 4 starts (mem s))) 0 s).
End fixups.

(** ** What a chain means *)

Inductive fixup := Rebase (target high8 : Z) | Bind (ordinal addend : Z).

Definition fixup_ok (f : fixup) : Prop :=
  match f with
  | Rebase target high8 => 0 <= target < 2 ^ 36 /\ 0 <= high8 < 2 ^ 8
  | Bind ordinal addend => 0 <= ordinal < 2 ^ 24 /\ -128 <= addend < 128
  end.

(** The bit fields of dyld_chained_ptr_64_rebase and dyld_chained_ptr_64_bind. *)
Definition encode (f : fixup) (next : Z) : Z :=
  match f with
  | Rebase target high8 => target + high8 * 2 ^ 36 + next * 2 ^ 51
  | Bind ordinal addend => ordinal + u8 addend * 2 ^ 24 + next * 2 ^ 51 + 2 ^ 63
  end.

Lemma shiftr_land_ones a k n : 0 <= k -> 0 <= n -> (a .>> k) .& Z.ones n = (a / 2 ^ k) mod 2 ^ n.
Proof. intros Hk Hn. by rewrite Z.land_ones, Z.shiftr_div_pow2. Qed.

(** The field at bit [k] of [lo + f * 2^k + hi * 2^(k+n)]. *)
Lemma field_at lo f hi k n :
  0 <= k -> 0 <= n -> 0 <= lo < 2 ^ k -> 0 <= f < 2 ^ n ->
  ((lo + f * 2 ^ k + hi * 2 ^ (k + n)) / 2 ^ k) mod 2 ^ n = f.
Proof.
  intros Hk Hn Hlo Hf. rewrite Z.pow_add_r by lia.
  replace (lo + f * 2 ^ k + hi * (2 ^ k * 2 ^ n)) with (lo + (f + hi * 2 ^ n) * 2 ^ k) by lia.
  rewrite Z.div_add, (Z.div_small lo), Z.add_0_l by lia. rewrite Z.mod_add by lia. by apply Z.mod_small.
Qed.

Lemma signed8_u8 a : -128 <= a < 128 -> signed 8 (u8 a) = a.
Proof.
  intros Ha. unfold signed, u8. rewrite Z.mod_mod by lia. change (2 ^ (8 - 1)) with 128. change (2 ^ 8) with 256.
  destruct (Z.neg_nonneg_cases a).
  - rewrite <- (Z.mod_add a 1), Z.mul_1_l, Z.mod_small by lia. destruct (Z.ltb_spec (a + 256) 128); lia.
  - rewrite Z.mod_small by lia. destruct (Z.ltb_spec a 128); lia.
Qed.

Lemma encode_next f next : fixup_ok f -> 0 <= next < 4096 -> FIXUP_PTR_NEXT (encode f next) = next.
Proof.
  intros Hf Hn. unfold FIXUP_PTR_NEXT. change 0xFFF with (Z.ones 12). rewrite shiftr_land_ones by lia.
  destruct f as [t h|o a]; cbn [encode fixup_ok] in *.
  - rewrite <- (field_at (t + h * 2 ^ 36) next 0 51 12) at 2 by lia. do 2 f_equal; lia.
  - pose proof (u8_range a). rewrite <- (field_at (o + u8 a * 2 ^ 24) next 1 51 12) at 2 by lia. do 2 f_equal; lia.
Qed.

Lemma encode_bind_bit f next :
  fixup_ok f -> 0 <= next < 4096 -> nz (FIXUP_PTR_BIND (encode f next)) = match f with Bind _ _ => true | _ => false end.
Proof.
  intros Hf Hn. unfold FIXUP_PTR_BIND. change 1 with (Z.ones 1) at 1. rewrite shiftr_land_ones by lia.
  destruct f as [t h|o a]; cbn [encode fixup_ok] in *.
  - rewrite Z.div_small by lia. done.
  - pose proof (u8_range a). pose proof (field_at (o + u8 a * 2 ^ 24 + next * 2 ^ 51) 1 0 63 1 ltac:(lia) ltac:(lia) ltac:(lia) ltac:(lia)) as E.
    replace (o + u8 a * 2 ^ 24 + next * 2 ^ 51 + 2 ^ 63) with (o + u8 a * 2 ^ 24 + next * 2 ^ 51 + 1 * 2 ^ 63 + 0 * 2 ^ (63 + 1)) by lia.
    by rewrite E.
Qed.

Lemma encode_rebase_fields t h next :
  fixup_ok (Rebase t h) -> 0 <= next < 4096 ->
  FIXUP_REBASE_TARGET (encode (Rebase t h) next) = t /\ FIXUP_REBASE_HIGH8 (encode (Rebase t h) next) = h.
Proof.
  intros [Ht Hh] Hn. unfold FIXUP_REBASE_TARGET, FIXUP_REBASE_HIGH8. cbn [encode].
  change 0xFFFFFFFFF with (Z.ones 36). change 0xFF with (Z.ones 8). rewrite shiftr_land_ones, Z.land_ones by lia. split.
  - replace (t + h * 2 ^ 36 + next * 2 ^ 51) with (t + (h + next * 2 ^ 15) * 2 ^ 36) by lia.
    rewrite Z.mod_add, Z.mod_small by lia. done.
  - rewrite <- (field_at t h (next * 2 ^ 7) 36 8) at 2 by lia. do 2 f_equal; lia.
Qed.

Lemma encode_bind_fields o a next :
  fixup_ok (Bind o a) -> 0 <= next < 4096 ->
  FIXUP_BIND_ORDINAL (encode (Bind o a) next) = o /\ signed 8 (FIXUP_BIND_ADDEND (encode (Bind o a) next)) = a.
Proof.
  intros [Ho Ha] Hn. unfold FIXUP_BIND_ORDINAL, FIXUP_BIND_ADDEND. cbn [encode]. pose proof (u8_range a).
  change 0xFFFFFF with (Z.ones 24). change 0xFF with (Z.ones 8). rewrite shiftr_land_ones, Z.land_ones by lia. split.
  - replace (o + u8 a * 2 ^ 24 + next * 2 ^ 51 + 2 ^ 63) with (o + (u8 a + next * 2 ^ 27 + 2 ^ 39) * 2 ^ 24) by lia.
    rewrite Z.mod_add, Z.mod_small by lia. done.
  - rewrite <- (signed8_u8 a) at 2 by done. f_equal.
    rewrite <- (field_at o (u8 a) (next * 2 ^ 19 + 2 ^ 31) 24 8) at 2 by lia. do 2 f_equal; lia.
Qed.

(** The chain that starts at [loc] with [f]; [rest] are the distances to the
    following pointers, in units of 4 bytes. *)
Fixpoint chain_at (m : bytemem) (loc : Z) (f : fixup) (rest : list (Z * fixup)) : Prop :=
  fixup_ok f /\
  match rest with
  | [] => load 8 loc m = encode f 0
  | (next, f') :: rest =>
      2 <= next < 4096 /\ load 8 loc m = encode f next /\ chain_at m (loc + next * 4) f' rest
  end.

(** The slots of a chain and where it ends. *)
Fixpoint chain_slots (loc : Z) (f : fixup) (rest : list (Z * fixup)) : list (Z * fixup) :=
  (loc, f) :: match rest with
              | [] => []
              | (next, f') :: rest => chain_slots (loc + next * 4) f' rest
              end.

Fixpoint chain_end (loc : Z) (rest : list (Z * fixup)) : Z :=
  match rest with [] => loc + 8 | (next, _) :: rest => chain_end (loc + next * 4) rest end.

Lemma chain_end_ge loc rest : Forall (fun '(next, _) => 2 <= next) rest -> loc + 8 <= chain_end loc rest.
Proof.
  intros H. revert loc. induction H as [|[next f] rest Hn _ IH]; intros loc; cbn; [lia|]. specialize (IH (loc + next * 4)). lia.
Qed.

Lemma chain_at_steps m loc f rest : chain_at m loc f rest -> Forall (fun '(next, _) => 2 <= next) rest.
Proof.
  revert loc f. induction rest as [|[next f'] rest IH]; intros loc f H; [constructor|].
  cbn in H. destruct H as (_&Hn&_&H). constructor; [lia|by eapply IH].
Qed.

Lemma chain_at_ext m1 m2 loc f rest :
  (forall x, loc <= x < chain_end loc rest -> m1 x = m2 x) -> chain_at m1 loc f rest -> chain_at m2 loc f rest.
Proof.
  revert loc f. induction rest as [|[next f'] rest IH]; intros loc f Hx H.
  - cbn in *. destruct H as [Hok H]. split; [done|]. rewrite <- H. symmetry. apply load_ext. intros x Hr. apply Hx. lia.
  - pose proof (chain_at_steps _ _ _ _ H) as Hst. cbn in H, Hx |- *. destruct H as (Hok&Hn&Hl&H). inversion_clear Hst.
    pose proof (chain_end_ge (loc + next * 4) rest ltac:(done)). split; [done|]. split; [done|]. split.
    + rewrite <- Hl. symmetry. apply load_ext. intros x Hr. apply Hx. lia.
    + apply (IH (loc + next * 4)); [|done]. intros x Hr. apply Hx. lia.
Qed.

Lemma chain_slots_bounds loc f rest :
  Forall (fun '(next, _) => 2 <= next) rest ->
  Forall (fun '(a, _) => loc <= a /\ a + 8 <= chain_end loc rest) (chain_slots loc f rest).
Proof.
  intros H. revert loc f. induction H as [|[next f'] rest Hn Hr IH]; intros loc f; cbn.
  - constructor; [lia|constructor].
  - pose proof (chain_end_ge (loc + next * 4) rest Hr). constructor; [lia|].
    eapply Forall_impl; [apply IH|]. intros [a g]. cbn. lia.
Qed.

Section chain.
Context {S : Type} {lo hi : Z} {Ops : ImportOps S} {R : ImportResolver S lo hi}.
Context (mh_addr slide : Z) (is_offset : bool) (header chain_data : Z).

(** The value a fixup writes to its slot. *)
Definition fixup_value (loc : Z) (f : fixup) (s : fx S) : Z * fx S :=
  match f with
  | Rebase target high8 =>
      (rebase_value mh_addr slide is_offset target high8, mk_fx (mem s) (rs s) (rebases_applied s + 1) (writable s))
  | Bind ordinal addend => resolve_import header chain_data ordinal addend loc s
  end.

Definition apply_fixup (s : fx S) (slot : Z * fixup) : fx S :=
  let '(v, s) := fixup_value (fst slot) (snd slot) s in set_mem s (store 8 (fst slot) v (mem s)).

Lemma apply_raw_encode loc f next s :
  fixup_ok f -> 0 <= next < 4096 ->
  apply_raw mh_addr slide is_offset header chain_data loc (encode f next) s = apply_fixup s (loc, f).
Proof.
  intros Hf Hn. unfold apply_raw. rewrite encode_bind_bit by done. destruct f as [t h|o a].
  - destruct (encode_rebase_fields t h next Hf Hn) as [-> ->]. done.
  - destruct (encode_bind_fields o a next Hf Hn) as [-> ->]. done.
Qed.

Lemma apply_fixup_inv s slot : resolver_inv (rs s) -> resolver_inv (rs (apply_fixup s slot)).
Proof.
  intros Hi. unfold apply_fixup. destruct slot as [loc f]; cbn [fst snd]. destruct f as [t h|o a]; cbn [fixup_value]; [done|].
  pose proof (resolve_keeps header chain_data o a loc s Hi) as Hk. by destruct (resolve_import _ _ _ _ _ _) as [v s'].
Qed.

Lemma apply_fixups_inv slots s : resolver_inv (rs s) -> resolver_inv (rs (fold_left apply_fixup slots s)).
Proof. revert s. induction slots as [|slot slots IH]; intros s Hi; [done|]. by apply IH, apply_fixup_inv. Qed.

Lemma apply_fixup_frame s slot x :
  resolver_inv (rs s) -> lo <= x < hi -> ~ fst slot <= x < fst slot + 8 -> mem (apply_fixup s slot) x = mem s x.
Proof.
  intros Hi Hx Ho. unfold apply_fixup. destruct slot as [loc f]; cbn [fst snd] in *. destruct f as [t h|o a]; cbn [fixup_value].
  - cbn. by rewrite store_out by lia.
  - pose proof (resolve_frame header chain_data o a loc s x Hi Hx) as Hf.
    destruct (resolve_import _ _ _ _ _ _) as [v s']. cbn in *. by rewrite store_out by lia.
Qed.

Lemma apply_fixups_frame slots s x :
  resolver_inv (rs s) -> lo <= x < hi -> Forall (fun '(a, _) => ~ a <= x < a + 8) slots -> mem (fold_left apply_fixup slots s) x = mem s x.
Proof.
  intros Hi Hx H. revert s Hi. induction H as [|[a f] slots Ho H IH]; intros s Hi; [done|]. cbn [fold_left].
  rewrite IH by (by apply apply_fixup_inv). by apply apply_fixup_frame.
Qed.

(** Walking a chain applies its fixups one by one and ends. *)
Lemma walk_chain_applies loc f rest s :
  resolver_inv (rs s) -> chain_at (mem s) loc f rest -> lo <= loc -> chain_end loc rest <= hi ->
  walk_chain mh_addr slide (Datatypes.S (length rest)) is_offset header chain_data loc s =
  Some (fold_left apply_fixup (chain_slots loc f rest) s).
Proof.
  revert loc f s. induction rest as [|[next f'] rest IH]; intros loc f s Hi Hc Hlo Hhi.
  - cbn in Hc. destruct Hc as [Hok Hl]. cbn [walk_chain]. rewrite Hl, encode_next by (done || lia).
    cbn [chain_slots fold_left Z.eqb]. by rewrite apply_raw_encode by (done || lia).
  - pose proof (chain_at_steps _ _ _ _ Hc) as Hst. cbn in Hc. destruct Hc as (Hok&Hn&Hl&Hc).
    cbn [length]. cbn [walk_chain]. rewrite Hl, encode_next, apply_raw_encode by (done || lia).
    destruct (Z.eqb_spec next 0); [lia|]. cbn [chain_slots fold_left]. inversion_clear Hst.
    pose proof (chain_end_ge (loc + next * 4) rest ltac:(done)) as He. cbn [chain_end] in Hhi.
    apply IH; [by apply apply_fixup_inv| |lia|done]. eapply chain_at_ext; [|exact Hc]. intros x Hx. symmetry.
    apply apply_fixup_frame; [done|cbn; lia|cbn; lia].
Qed.

Lemma walk_chain_more fuel loc s s' :
  walk_chain mh_addr slide fuel is_offset header chain_data loc s = Some s' ->
  forall fuel', (fuel <= fuel')%nat -> walk_chain mh_addr slide fuel' is_offset header chain_data loc s = Some s'.
Proof.
  revert loc s. induction fuel as [|fuel IH]; intros loc s H fuel' Hf; [done|]. destruct fuel' as [|fuel']; [lia|].
  cbn [walk_chain] in *. destruct (_ =? 0); [done|]. apply IH; [done|lia].
Qed.
End chain.
End Fixups.
