(* ===== verification/FixupsImage.v ===== *)
(** * Chained fixups of a whole image

    The starts structures as a description of the image, and the theorem that
    processing an image applies every fixup of every chain exactly once. *)

From S2P Require Import Prelude Leb128 Fixups.
Import Fixups.

(** A page: where its chain starts, with the chain, or no chain. *)
Definition page := option (Z * fixup * list (Z * fixup)).

Record segment := mk_segment { sg_format : Z; sg_offset : Z; sg_page_size : Z; sg_pages : list page }.

Definition supported (sg : segment) : bool :=
  (sg_format sg =? DYLD_CHAINED_PTR_64) || (sg_format sg =? DYLD_CHAINED_PTR_64_OFFSET).
Definition sg_is_offset (sg : segment) : bool := sg_format sg =? DYLD_CHAINED_PTR_64_OFFSET.

(** The structures in memory. *)
Fixpoint pages_at (m : bytemem) (a i : Z) (pages : list page) : Prop :=
  match pages with
  | [] => True
  | p :: pages =>
      match p with
      | None => page_start m a i = DYLD_CHAINED_PTR_START_NONE
      | Some (start, _, _) => page_start m a i = start /\ start <> DYLD_CHAINED_PTR_START_NONE
      end /\ pages_at m a (i + 1) pages
  end.

Record segment_at (m : bytemem) (a : Z) (sg : segment) : Prop := {
  sa_format : pointer_format m a = sg_format sg;
  sa_offset : segment_offset m a = sg_offset sg;
  sa_page_size : page_size m a = sg_page_size sg;
  sa_count : page_count m a = Z.of_nat (length (sg_pages sg));
  sa_pages : pages_at m a 0 (sg_pages sg);
}.

Fixpoint segments_at (m : bytemem) (starts i : Z) (l : list (option (Z * segment))) : Prop :=
  match l with
  | [] => True
  | o :: l =>
      match o with
      | None => load 4 (starts + 4 + 4 * i) m = 0
      | Some (off, sg) => load 4 (starts + 4 + 4 * i) m = off /\ off <> 0 /\ segment_at m (starts + off) sg
      end /\ segments_at m starts (i + 1) l
  end.

Definition starts_at (m : bytemem) (chain_data off : Z) (l : list (option (Z * segment))) : Prop :=
  load 4 (chain_data + 4) m = off /\ load 4 (chain_data + off) m = Z.of_nat (length l) /\
  segments_at m (chain_data + off) 0 l.

(** The chains, in the order they are walked. *)
Record chain := mk_chain { ch_is_offset : bool; ch_loc : Z; ch_first : fixup; ch_rest : list (Z * fixup) }.

Fixpoint page_chains (is_offset : bool) (base psize i : Z) (pages : list page) : list chain :=
  match pages with
  | [] => []
  | Some (start, f, rest) :: pages =>
      mk_chain is_offset (base + i * psize + start) f rest :: page_chains is_offset base psize (i + 1) pages
  | None :: pages => page_chains is_offset base psize (i + 1) pages
  end.

Definition seg_base (mh_addr : Z) (sg : segment) : Z := u64 (mh_addr + sg_offset sg).

Definition segment_chains (mh_addr : Z) (sg : segment) : list chain :=
  if supported sg then page_chains (sg_is_offset sg) (seg_base mh_addr sg) (sg_page_size sg) 0 (sg_pages sg) else [].

Definition image_chains (mh_addr : Z) (l : list (option (Z * segment))) : list chain :=
  flat_map (fun o => match o with Some (_, sg) => segment_chains mh_addr sg | None => [] end) l.

Definition slots_of (c : chain) : list (Z * fixup) := chain_slots (ch_loc c) (ch_first c) (ch_rest c).
Definition end_of (c : chain) : Z := chain_end (ch_loc c) (ch_rest c).

(** The chain is in memory and inside the image. *)
Definition chain_ready (lo hi : Z) (m : bytemem) (c : chain) : Prop :=
  chain_at m (ch_loc c) (ch_first c) (ch_rest c) /\ lo <= ch_loc c /\ end_of c <= hi.

Definition chains_apart (c1 c2 : chain) : Prop := end_of c1 <= ch_loc c2 \/ end_of c2 <= ch_loc c1.

(** The bytes [dlo .. dhi) are the same. *)
Definition same (dlo dhi : Z) (m m' : bytemem) : Prop := forall x, dlo <= x < dhi -> m' x = m x.

Section image.
Context {S : Type} {lo hi : Z} {Ops : ImportOps S} {R : ImportResolver S lo hi}.
Context (mh_addr slide page_sz dlo dhi : Z) (Hd : lo <= dlo /\ dhi <= hi).

Definition run_chain (chain_data : Z) (s : fx S) (c : chain) : fx S :=
  fold_left (apply_fixup mh_addr slide (ch_is_offset c) chain_data chain_data) (slots_of c) s.

Definition outside (c : chain) (a b : Z) : Prop := b <= ch_loc c \/ end_of c <= a.

Lemma run_chain_inv cd s c : resolver_inv (rs s) -> resolver_inv (rs (run_chain cd s c)).
Proof. apply apply_fixups_inv. Qed.

Lemma run_chains_inv cd l s : resolver_inv (rs s) -> resolver_inv (rs (fold_left (run_chain cd) l s)).
Proof. revert s. induction l as [|c l IH]; intros s Hi; [done|]. by apply IH, run_chain_inv. Qed.

Lemma run_chain_frame cd s c a b m :
  resolver_inv (rs s) -> chain_ready lo hi m c -> outside c a b -> lo <= a -> b <= hi -> same a b (mem s) (mem (run_chain cd s c)).
Proof.
  intros Hi (Hc&_&_) Ho Ha Hb x Hx. apply apply_fixups_frame; [done|lia|].
  pose proof (chain_slots_bounds (ch_loc c) (ch_first c) (ch_rest c) (chain_at_steps _ _ _ _ Hc)) as Hs.
  eapply Forall_impl; [exact Hs|]. intros [k f]. unfold outside, end_of in Ho. lia.
Qed.

Lemma chain_ready_same m m' c :
  same (ch_loc c) (end_of c) m m' -> chain_ready lo hi m c -> chain_ready lo hi m' c.
Proof.
  intros Hs (Hc&Hl&He). split; [|done]. eapply chain_at_ext; [|exact Hc]. intros x Hx. symmetry. by apply Hs.
Qed.

Lemma chains_ready_after cd s c l :
  resolver_inv (rs s) -> chain_ready lo hi (mem s) c -> Forall (chain_ready lo hi (mem s)) l -> Forall (chains_apart c) l ->
  Forall (chain_ready lo hi (mem (run_chain cd s c))) l.
Proof.
  intros Hi Hc Hl Ha. apply Forall_forall. intros c' Hin. pose proof (proj1 (Forall_forall _ _) Hl c' Hin) as Hr.
  pose proof (proj1 (Forall_forall _ _) Ha c' Hin) as Hap. pose proof Hr as (_&H1&H2).
  eapply chain_ready_same; [|exact Hr]. eapply run_chain_frame; [done|exact Hc| |done|done].
  unfold outside, chains_apart in *. lia.
Qed.

(** ** Pages *)

Lemma walk_pages_applies fuel cd a base is_offset pages i s :
  resolver_inv (rs s) -> (forall m, same dlo dhi (mem s) m -> pages_at m a i pages) ->
  (forall m, same dlo dhi (mem s) m -> page_size m a = page_size (mem s) a) ->
  let l := page_chains is_offset base (page_size (mem s) a) i pages in
  Forall (chain_ready lo hi (mem s)) l -> ForallOrdPairs chains_apart l ->
  Forall (fun c => outside c dlo dhi) l -> Forall (fun c => (length (ch_rest c) < fuel)%nat) l ->
  walk_pages mh_addr slide fuel is_offset cd cd a base (length pages) i s = Some (fold_left (run_chain cd) l s).
Proof.
  revert i s. induction pages as [|p pages IH]; intros i s Hi Hp Hps l Hr Hap Ho Hf; [done|].
  assert (Hnow : pages_at (mem s) a i (p :: pages)) by (apply Hp; by intros x Hx).
  assert (Hnext : forall m, same dlo dhi (mem s) m -> pages_at m a (i + 1) pages).
  { intros m Hm. specialize (Hp m Hm). cbn in Hp. tauto. }
  cbn [length]. cbn [walk_pages]. cbn [pages_at] in Hnow. destruct Hnow as [Hstart _].
  destruct p as [[[start f] rest]|].
  - destruct Hstart as [-> Hne]. destruct (Z.eqb_spec start DYLD_CHAINED_PTR_START_NONE); [done|].
    unfold l in *. clear l. cbn [page_chains] in *. inversion_clear Hr as [|? ? Hc Hr']. inversion_clear Hap as [|? ? Ha Hap'].
    inversion_clear Ho as [|? ? Hoc Ho']. inversion_clear Hf as [|? ? Hfc Hf'].
    pose proof Hc as (Hc1&Hc2&Hc3). cbn [ch_loc ch_first ch_rest] in *.
    rewrite (walk_chain_more mh_addr slide is_offset cd cd _ _ _ _ (walk_chain_applies mh_addr slide is_offset cd cd _ f rest s Hi Hc1 Hc2 Hc3)) by lia.
    set (c := mk_chain is_offset (base + i * page_size (mem s) a + start) f rest) in *.
    change (fold_left (apply_fixup mh_addr slide is_offset cd cd) (chain_slots _ f rest) s) with (run_chain cd s c).
    assert (Hs : same dlo dhi (mem s) (mem (run_chain cd s c))) by (eapply run_chain_frame; [done|exact Hc|done|lia|lia]).
    assert (Hps' : page_size (mem (run_chain cd s c)) a = page_size (mem s) a) by (by apply Hps).
    cbn [fold_left]. rewrite <- Hps' in *. apply IH; try done.
    + by apply run_chain_inv.
    + intros m Hm. apply Hnext. intros x Hx. rewrite <- Hs by done. by apply Hm.
    + intros m Hm. apply Hps. intros x Hx. rewrite <- Hs by done. by apply Hm.
    + by apply chains_ready_after.
  - rewrite Hstart, Z.eqb_refl. by apply IH.
Qed.

(** ** Segments and the image *)

Lemma pairs_app_inv {A} (P : A -> A -> Prop) l1 l2 :
  ForallOrdPairs P (l1 ++ l2) ->
  ForallOrdPairs P l1 /\ ForallOrdPairs P l2 /\ Forall (fun x => Forall (P x) l2) l1.
Proof.
  induction l1 as [|x l1 IH]; cbn; intros H; [by repeat constructor|]. inversion_clear H as [|? ? Hx H'].
  destruct (IH H') as (H1&H2&H3). apply Forall_app in Hx as [Hx1 Hx2]. by repeat constructor.
Qed.

Lemma run_chains_frame cd l s a b :
  resolver_inv (rs s) -> Forall (chain_ready lo hi (mem s)) l -> ForallOrdPairs chains_apart l ->
  Forall (fun c => outside c a b) l -> lo <= a -> b <= hi ->
  same a b (mem s) (mem (fold_left (run_chain cd) l s)).
Proof.
  intros Hi Hr Hap Ho Ha Hb. revert s Hi Hr. induction l as [|c l IH]; intros s Hi Hr; [by intros x Hx|].
  inversion_clear Hr. inversion_clear Hap. inversion_clear Ho. cbn [fold_left].
  intros x Hx. rewrite IH; [|done|done|by apply run_chain_inv|by apply chains_ready_after|done].
  eapply run_chain_frame; [done|eassumption|eassumption|done|done|done].
Qed.

Lemma chains_ready_after_all cd l l' s :
  resolver_inv (rs s) -> Forall (chain_ready lo hi (mem s)) (l ++ l') -> ForallOrdPairs chains_apart (l ++ l') ->
  Forall (chain_ready lo hi (mem (fold_left (run_chain cd) l s))) l'.
Proof.
  intros Hi Hr Hap. apply Forall_app in Hr as [Hr Hr']. apply pairs_app_inv in Hap as (H1&_&H3).
  apply Forall_forall. intros c Hin. pose proof (proj1 (Forall_forall _ _) Hr' c Hin) as Hc. pose proof Hc as (_&H4&H5).
  eapply chain_ready_same; [|exact Hc]. apply run_chains_frame; try done.
  eapply Forall_impl; [exact H3|]. intros c' Hc'. pose proof (proj1 (Forall_forall _ _) Hc' c Hin).
  unfold outside, chains_apart in *. lia.
Qed.

Definition run_segment (cd : Z) (s : fx S) (sg : segment) : fx S :=
  if supported sg then
    fold_left (run_chain cd) (segment_chains mh_addr sg)
      (make_segment_writable page_sz (seg_base mh_addr sg) (Z.of_nat (length (sg_pages sg))) (sg_page_size sg) s)
  else s.

Definition run_image (cd : Z) (s : fx S) (l : list (option (Z * segment))) : fx S :=
  fold_left (fun s o => match o with Some (_, sg) => run_segment cd s sg | None => s end) l s.

Lemma run_segment_inv cd s sg : resolver_inv (rs s) -> resolver_inv (rs (run_segment cd s sg)).
Proof. intros Hi. unfold run_segment. destruct (supported sg); [by apply run_chains_inv|done]. Qed.

Lemma walk_segment_applies fuel cd a sg s :
  resolver_inv (rs s) -> (forall m, same dlo dhi (mem s) m -> segment_at m a sg) ->
  let l := segment_chains mh_addr sg in
  Forall (chain_ready lo hi (mem s)) l -> ForallOrdPairs chains_apart l ->
  Forall (fun c => outside c dlo dhi) l -> Forall (fun c => (length (ch_rest c) < fuel)%nat) l ->
  walk_segment mh_addr slide page_sz fuel cd cd a s = Some (run_segment cd s sg).
Proof.
  intros Hi Hat l Hr Hap Ho Hf. pose proof (Hat (mem s) ltac:(by intros x Hx)) as [H1 H2 H3 H4 H5].
  unfold walk_segment, run_segment. unfold l in *. clear l. unfold segment_chains, supported, sg_is_offset in *. rewrite H1.
  destruct (sg_format sg =? DYLD_CHAINED_PTR_64), (sg_format sg =? DYLD_CHAINED_PTR_64_OFFSET) eqn:E;
    cbn [orb andb negb] in *; try done;
    (rewrite H2, H3; cbn [mem make_segment_writable]; rewrite H4, Nat2Z.id; unfold seg_base in *; rewrite <- H3 in *;
     eapply (walk_pages_applies fuel cd a _ _ (sg_pages sg) 0 (make_segment_writable _ _ _ _ s)); try done;
     [intros m Hm; apply (Hat m Hm)|intros m Hm; cbn [mem make_segment_writable]; rewrite H3; apply (Hat m Hm)]).
Qed.

Lemma run_segment_mem cd s sg :
  mem (run_segment cd s sg) = mem (fold_left (run_chain cd) (segment_chains mh_addr sg)
    (if supported sg then make_segment_writable page_sz (seg_base mh_addr sg) (Z.of_nat (length (sg_pages sg))) (sg_page_size sg) s else s)).
Proof. unfold run_segment, segment_chains. by destruct (supported sg). Qed.

Lemma walk_segments_applies fuel cd starts l i s :
  resolver_inv (rs s) -> (forall m, same dlo dhi (mem s) m -> segments_at m starts i l) ->
  let cs := image_chains mh_addr l in
  Forall (chain_ready lo hi (mem s)) cs -> ForallOrdPairs chains_apart cs ->
  Forall (fun c => outside c dlo dhi) cs -> Forall (fun c => (length (ch_rest c) < fuel)%nat) cs ->
  walk_segments mh_addr slide page_sz fuel cd cd starts (length l) i s = Some (run_image cd s l).
Proof.
  revert i s. induction l as [|o l IH]; intros i s Hi Hat cs Hr Hap Ho Hf; [done|]. unfold cs in *. clear cs.
  pose proof (Hat (mem s) ltac:(by intros x Hx)) as Hnow. cbn [segments_at] in Hnow. destruct Hnow as [Hnow _].
  assert (Hnext : forall m, same dlo dhi (mem s) m -> segments_at m starts (i + 1) l).
  { intros m Hm. specialize (Hat m Hm). cbn in Hat. tauto. }
  cbn [length]. cbn [walk_segments run_image fold_left]. destruct o as [[off sg]|].
  - destruct Hnow as (->&Hoff&_). destruct (Z.eqb_spec off 0); [done|].
    assert (Hsg : forall m, same dlo dhi (mem s) m -> segment_at m (starts + off) sg).
    { intros m Hm. specialize (Hat m Hm). cbn in Hat. tauto. }
    cbn [image_chains flat_map] in Hr, Hap, Ho, Hf. fold (image_chains mh_addr l) in *.
    pose proof Hr as Hr0. apply Forall_app in Hr as [Hr1 Hr2]. pose proof Hap as Hap0.
    apply pairs_app_inv in Hap as (Hap1&Hap2&_). apply Forall_app in Ho as [Ho1 Ho2]. apply Forall_app in Hf as [Hf1 Hf2].
    rewrite (walk_segment_applies fuel cd (starts + off) sg s) by done.
    set (s0 := if supported sg then make_segment_writable page_sz (seg_base mh_addr sg) (Z.of_nat (length (sg_pages sg))) (sg_page_size sg) s else s).
    assert (E0 : mem s0 = mem s) by (unfold s0; by destruct (supported sg)).
    assert (Hi0 : resolver_inv (rs s0)) by (unfold s0; by destruct (supported sg)).
    assert (Hs : same dlo dhi (mem s) (mem (run_segment cd s sg))).
    { rewrite run_segment_mem. fold s0. rewrite <- E0. apply run_chains_frame; try done; [by rewrite E0|lia|lia]. }
    apply IH; try done.
    + by apply run_segment_inv.
    + intros m Hm. apply Hnext. intros x Hx. rewrite <- Hs by done. by apply Hm.
    + rewrite run_segment_mem. fold s0. apply chains_ready_after_all; [done|by rewrite E0|done].
  - rewrite Hnow. cbn [Z.eqb]. by apply IH.
Qed.

(** ** What the slots hold *)

(** A rebased slot holds its slid target, a bound slot what the resolver
    answered for it: asked in some state of its own, with the fixup data
    [dlo .. dhi) as it was in [m0]. *)
Definition slot_done (m0 : bytemem) (cd : Z) (is_offset : bool) (m : bytemem) (slot : Z * fixup) : Prop :=
  match snd slot with
  | Rebase target high8 => load 8 (fst slot) m = rebase_value mh_addr slide is_offset target high8
  | Bind ordinal addend => exists s0 : fx S, resolver_inv (rs s0) /\ same dlo dhi m0 (mem s0) /\
      load 8 (fst slot) m = fst (resolve_import cd cd ordinal addend (fst slot) s0)
  end.

Definition chain_done (m0 : bytemem) (cd : Z) (m : bytemem) (c : chain) : Prop :=
  Forall (slot_done m0 cd (ch_is_offset c) m) (slots_of c).

Lemma rebase_value_range is_offset target high8 :
  0 <= high8 < 2 ^ 8 -> 0 <= rebase_value mh_addr slide is_offset target high8 < 2 ^ 64.
Proof.
  intros Hh. unfold rebase_value. apply lor_range; [lia|destruct is_offset; apply u64_range|].
  rewrite Z.shiftl_mul_pow2 by lia. lia.
Qed.

Lemma apply_fixup_done m0 cd is_offset s loc f :
  fixup_ok f -> resolver_inv (rs s) -> same dlo dhi m0 (mem s) ->
  slot_done m0 cd is_offset (mem (apply_fixup mh_addr slide is_offset cd cd s (loc, f))) (loc, f).
Proof.
  intros Hf Hi Hs. unfold apply_fixup, slot_done. destruct f as [t h|o a]; cbn [fst snd fixup_value mem set_mem].
  - rewrite load_store_same by lia. apply Z.mod_small, rebase_value_range, Hf.
  - pose proof (resolve_range cd cd o a loc s Hi) as Hr. exists s. split; [done|]. split; [done|].
    destruct (resolve_import cd cd o a loc s) as [v s']. cbn [fst snd mem set_mem] in *.
    rewrite load_store_same by lia. by apply Z.mod_small.
Qed.

Lemma slot_done_same m0 cd is_offset m m' slot :
  same (fst slot) (fst slot + 8) m m' -> slot_done m0 cd is_offset m slot -> slot_done m0 cd is_offset m' slot.
Proof.
  intros Hs. unfold slot_done. rewrite (load_ext 8 (fst slot) m' m) by (intros x Hx; by apply Hs). done.
Qed.

Lemma run_chain_done m0 cd s c :
  resolver_inv (rs s) -> same dlo dhi m0 (mem s) -> outside c dlo dhi ->
  chain_ready lo hi (mem s) c -> chain_done m0 cd (mem (run_chain cd s c)) c.
Proof.
  destruct c as [is_offset loc f rest]. unfold chain_done, chain_ready, run_chain, slots_of, outside, end_of;
    cbn [ch_is_offset ch_loc ch_first ch_rest]. intros Hi Hs Ho (Hc&Hlo&Hhi). revert loc f s Hi Hs Ho Hc Hlo Hhi.
  induction rest as [|[next f'] rest IH]; intros loc f s Hi Hs Ho Hc Hlo Hhi.
  - destruct Hc as [Hok _]. cbn. constructor; [by apply apply_fixup_done|constructor].
  - pose proof (chain_at_steps _ _ _ _ Hc) as Hst. cbn in Hc. destruct Hc as (Hok&Hn&_&Hc). inversion_clear Hst as [|? ? _ Hst'].
    cbn [chain_slots fold_left chain_end] in *. pose proof (chain_end_ge (loc + next * 4) rest Hst') as He.
    pose proof (chain_slots_bounds (loc + next * 4) f' rest Hst') as Hb. constructor.
    + eapply slot_done_same; [|by apply apply_fixup_done]. intros x Hx.
      apply apply_fixups_frame; [by apply apply_fixup_inv|cbn in Hx; lia|].
      eapply Forall_impl; [exact Hb|]. intros [a g]. cbn in Hx |- *. lia.
    + apply IH; [by apply apply_fixup_inv| |lia| |lia|done].
      * intros x Hx. rewrite <- Hs by done. apply apply_fixup_frame; [done|lia|cbn; lia].
      * eapply chain_at_ext; [|exact Hc]. intros x Hx. symmetry. apply apply_fixup_frame; [done|cbn; lia|cbn; lia].
Qed.

Lemma chain_done_same m0 cd m m' c m1 :
  chain_ready lo hi m1 c -> same (ch_loc c) (end_of c) m m' -> chain_done m0 cd m c -> chain_done m0 cd m' c.
Proof.
  intros (Hc&_&_) Hs Hd'. unfold chain_done in *.
  pose proof (chain_slots_bounds (ch_loc c) (ch_first c) (ch_rest c) (chain_at_steps _ _ _ _ Hc)) as Hb.
  apply Forall_forall. intros [a f] Hin. pose proof (proj1 (Forall_forall _ _) Hb _ Hin) as Hr. cbn in Hr.
  eapply slot_done_same; [|by apply (proj1 (Forall_forall _ _) Hd')].
  intros x Hx. apply Hs. unfold end_of. cbn in Hx. lia.
Qed.

Lemma run_chains_done m0 cd l s :
  resolver_inv (rs s) -> same dlo dhi m0 (mem s) -> Forall (fun c => outside c dlo dhi) l ->
  Forall (chain_ready lo hi (mem s)) l -> ForallOrdPairs chains_apart l ->
  Forall (chain_done m0 cd (mem (fold_left (run_chain cd) l s))) l.
Proof.
  intros Hi Hs Ho Hr Hap. revert s Hi Hs Hr. induction l as [|c l IH]; intros s Hi Hs Hr; [constructor|].
  inversion_clear Hr as [|? ? Hc Hr']. inversion_clear Hap as [|? ? Ha Hap']. inversion_clear Ho as [|? ? Hoc Ho'].
  cbn [fold_left]. pose proof (chains_ready_after cd s c l Hi Hc Hr' Ha) as Hl. constructor.
  - pose proof Hc as (_&H1&H2). eapply chain_done_same; [exact Hc| |by apply run_chain_done].
    apply run_chains_frame; try done. by apply run_chain_inv.
  - apply IH; [done|done|by apply run_chain_inv| |done]. intros x Hx. rewrite <- Hs by done.
    eapply run_chain_frame; [done|exact Hc|done|lia|lia|done].
Qed.

Lemma run_image_done m0 cd l s :
  resolver_inv (rs s) -> same dlo dhi m0 (mem s) ->
  let cs := image_chains mh_addr l in
  Forall (fun c => outside c dlo dhi) cs -> Forall (chain_ready lo hi (mem s)) cs -> ForallOrdPairs chains_apart cs ->
  Forall (chain_done m0 cd (mem (run_image cd s l))) cs /\
  forall a b, Forall (fun c => outside c a b) cs -> lo <= a -> b <= hi -> same a b (mem s) (mem (run_image cd s l)).
Proof.
  revert s. induction l as [|o l IH]; intros s Hi Hs cs Hod Hr Hap; [split; [constructor|by intros a b _ _ _ x Hx]|].
  unfold cs in *. clear cs. destruct o as [[off sg]|]; [|by apply IH].
  cbn [image_chains flat_map run_image fold_left] in *. fold (image_chains mh_addr l) in *.
  fold (run_image cd (run_segment cd s sg) l).
  set (s0 := if supported sg then make_segment_writable page_sz (seg_base mh_addr sg) (Z.of_nat (length (sg_pages sg))) (sg_page_size sg) s else s).
  assert (E0 : mem s0 = mem s) by (unfold s0; by destruct (supported sg)).
  assert (Hi0 : resolver_inv (rs s0)) by (unfold s0; by destruct (supported sg)).
  pose proof (run_segment_mem cd s sg) as E. fold s0 in E. rewrite <- E0 in Hr, Hs.
  assert (Hr' : Forall (chain_ready lo hi (mem (run_segment cd s sg))) (image_chains mh_addr l)).
  { rewrite E. by apply chains_ready_after_all. }
  pose proof Hr as Hr0. apply Forall_app in Hr as [Hr1 Hr2]. apply pairs_app_inv in Hap as (Ha1&Ha2&Ha3).
  apply Forall_app in Hod as [Hod1 Hod2].
  assert (Hs' : same dlo dhi m0 (mem (run_segment cd s sg))).
  { intros x Hx. rewrite <- Hs by done. rewrite E. apply (run_chains_frame cd _ s0 dlo dhi); try done; lia. }
  destruct (IH (run_segment cd s sg) (run_segment_inv cd s sg Hi) Hs' Hod2 Hr' Ha2) as [Hd1 Hf]. split.
  - apply Forall_app. split; [|done]. apply Forall_forall. intros c Hin.
    pose proof (proj1 (Forall_forall _ _) Hr1 c Hin) as Hc. pose proof Hc as (_&H1&H2).
    eapply chain_done_same; [exact Hc| |].
    + apply Hf; [|done|done]. exact (proj1 (Forall_forall _ _) Ha3 c Hin).
    + rewrite E. apply (proj1 (Forall_forall _ _) (run_chains_done m0 cd _ s0 Hi0 Hs Hod1 Hr1 Ha1) c Hin).
  - intros a b Ho Ha Hb x Hx. apply Forall_app in Ho as [Ho1 Ho2]. rewrite (Hf a b Ho2 Ha Hb x Hx), E, <- E0.
    by apply (run_chains_frame cd _ s0 a b Hi0 Hr1 Ha1 Ho1 Ha Hb).
Qed.

(** Processing ends with every chain applied. *)
Lemma process_applies fuel chain_data off l s :
  resolver_inv (rs s) -> chain_data <> 0 ->
  (forall m, same dlo dhi (mem s) m -> starts_at m chain_data off l) ->
  let cs := image_chains mh_addr l in
  Forall (chain_ready lo hi (mem s)) cs -> ForallOrdPairs chains_apart cs ->
  Forall (fun c => outside c dlo dhi) cs -> Forall (fun c => (length (ch_rest c) < fuel)%nat) cs ->
  exists s', process_chained_fixups mh_addr slide page_sz fuel chain_data s = inr (Some s') /\
    Forall (chain_done (mem s) chain_data (mem s')) cs /\
    forall x, lo <= x < hi -> Forall (fun c => outside c x (x + 1)) cs -> mem s' x = mem s x.
Proof.
  intros Hi Hcd Hat cs Hr Hap Ho Hf. exists (run_image chain_data s l).
  destruct (run_image_done (mem s) chain_data l s Hi ltac:(by intros x Hx) Ho Hr Hap) as [Hdone Hframe]. split; [|split; [done|]].
  - unfold process_chained_fixups. destruct (Z.eqb_spec chain_data 0); [done|].
    destruct (Hat (mem s) ltac:(by intros x Hx)) as (E1&E2&_). rewrite E1, E2, Nat2Z.id. f_equal.
    apply walk_segments_applies; try done. intros m Hm. by destruct (Hat m Hm) as (_&_&H).
  - intros x Hx Hox. apply (Hframe x (x + 1)); [done|lia|lia|lia].
Qed.
End image.

(** Chained fixups of an image.  For any resolver of imports and any image
    whose starts structures describe chains that are in memory, apart from
    each other and from the fixup data: processing ends, every rebase slot
    holds its target slid by the image's slide (or relative to the header) with
    its top byte, every bind slot holds what the resolver answered for its
    import, and every other byte of the image is unchanged. *)
Theorem chained_fixups_applied {S : Type} {lo hi} {Ops : ImportOps S} {R : ImportResolver S lo hi} mh_addr slide page_sz dlo dhi fuel chain_data off l (s : fx S) :
  lo <= dlo /\ dhi <= hi -> resolver_inv (rs s) -> chain_data <> 0 ->
  (forall m, same dlo dhi (mem s) m -> starts_at m chain_data off l) ->
  let cs := image_chains mh_addr l in
  Forall (chain_ready lo hi (mem s)) cs -> ForallOrdPairs chains_apart cs ->
  Forall (fun c => outside c dlo dhi) cs -> Forall (fun c => (length (ch_rest c) < fuel)%nat) cs ->
  exists s', process_chained_fixups mh_addr slide page_sz fuel chain_data s = inr (Some s') /\
    Forall (chain_done mh_addr slide dlo dhi (mem s) chain_data (mem s')) cs /\
    forall x, lo <= x < hi -> Forall (fun c => outside c x (x + 1)) cs -> mem s' x = mem s x.
Proof. intros Hd. by apply process_applies. Qed.

(** One segment with one page: a rebase at 0x2000, a bind at 0x2008. *)
Definition sample_resolve (header chain_data ordinal addend slot : Z) (s : fx unit) : Z * fx unit :=
  (u64 (0x9000 + 8 * ordinal + addend), s).
Instance sample_ops : ImportOps unit := {| resolve_import := sample_resolve |}.
#[refine] Instance sample_resolver : ImportResolver unit 0x1000 0x5000 := {| resolver_inv := fun _ => True |}.
Proof.
  - intros. apply u64_range.
  - done.
  - done.
Defined.

Definition sample_page : page := Some (0, Rebase 0x1234 0x80, [(2, Bind 3 (-4))]).
Definition sample_segment : segment := mk_segment DYLD_CHAINED_PTR_64_OFFSET 0x1000 0x1000 [sample_page].
Definition sample_fixups : list Z :=
  le_bytes 4 0 ++ le_bytes 4 0x20 ++ le_bytes 24 0 ++
  le_bytes 4 2 ++ le_bytes 4 0 ++ le_bytes 4 0x10 ++ le_bytes 4 0 ++
  le_bytes 4 24 ++ le_bytes 2 0x1000 ++ le_bytes 2 6 ++ le_bytes 8 0x1000 ++ le_bytes 4 0 ++ le_bytes 2 1 ++ le_bytes 2 0.
Definition sample_fx : fx unit :=
  mk_fx (store 8 0x2008 (encode (Bind 3 (-4)) 0) (store 8 0x2000 (encode (Rebase 0x1234 0x80) 2)
          (place 0x4000 sample_fixups (fun _ => 0)))) tt 0 [].

Lemma load_same dlo dhi m m' n a :
  same dlo dhi m m' -> dlo <= a -> a + n <= dhi -> load n a m' = load n a m.
Proof. intros Hs H1 H2. apply load_ext. intros x Hx. apply Hs. lia. Qed.

Lemma chained_fixups_applied_witness :
  exists s', process_chained_fixups 0x1000 0 4096 10 0x4000 sample_fx = inr (Some s') /\
    Forall (chain_done 0x1000 0 0x4000 0x4100 (mem sample_fx) 0x4000 (mem s')) (image_chains 0x1000 [None; Some (0x10, sample_segment)]) /\
    forall x, 0x1000 <= x < 0x5000 -> Forall (fun c => outside c x (x + 1)) (image_chains 0x1000 [None; Some (0x10, sample_segment)]) ->
      mem s' x = mem sample_fx x.
Proof.
  refine (chained_fixups_applied 0x1000 0 4096 0x4000 0x4100 10 0x4000 0x20 [None; Some (0x10, sample_segment)] sample_fx _ _ _ _ _ _ _ _).
  - lia.
  - done.
  - done.
  - intros m Hm.
    repeat split; unfold pointer_format, segment_offset, page_size, page_count, page_start;
      try (rewrite (load_same _ _ _ _ _ _ Hm) by (cbn; lia); reflexivity); done.
  - apply List.Forall_cons; [|apply List.Forall_nil]. split; [|split; vm_compute; discriminate].
    split; [split; lia|]. split; [lia|]. split; [reflexivity|]. split; [split; lia|reflexivity].
  - constructor; [apply List.Forall_nil|constructor].
  - apply List.Forall_cons; [|apply List.Forall_nil]. right. vm_compute. discriminate.
  - apply List.Forall_cons; [|apply List.Forall_nil]. cbn. lia.
Defined.
