(* ===== verification/ResolveFixups.v ===== *)
(** * Binding the imports of an image

    The resolver behind the interface of Fixups.v, and what the slots of an
    image hold when its chained fixups were processed with it. *)

From S2P Require Import Prelude CStr BindSlots Macho SymIndex ResolveNames Leb128 Thunks Resolve ResolveInv ResolveAgree Fixups FixupsImage.
Import Thunks Resolve.

Section instance.
Context (H : map_host) (L : linker) (own : own_symbols) (lo hi : Z) (Hok : host_ok H L own lo hi).
Context (rs : resolver_state) (Hrs : entries_ok rs) (lk0 : lk_state L).
Notation world := (world H L).
Notation fx := (Fixups.fx world).

Definition with_memory (m : bytemem) (w : world) : world := set_th H L (set_memory H m (th H L w)) w.

(** [resolve_import] on the state of a walk over the fixups. *)
Definition resolve_fx (header chain_data ordinal addend slot : Z) (s : fx) : Z * fx :=
  match resolve_import H L own rs header chain_data ordinal addend slot (with_memory (Fixups.mem s) (Fixups.rs s)) with
  | Some (r, w) => (r, Fixups.mk_fx (memory H L w) w (Fixups.rebases_applied s) (Fixups.writable s))
  | None => (0, s)
  end.

(** Pools outside the image, and the linker as it was. *)
Definition world_ok (w : world) : Prop := @thunks_ok H lo hi (th H L w) /\ lk H L w = lk0.

Lemma resolve_fx_ok header chain_data ordinal addend slot s :
  world_ok (Fixups.rs s) ->
  exists r w, resolve_fx header chain_data ordinal addend slot s =
                (r, Fixups.mk_fx (memory H L w) w (Fixups.rebases_applied s) (Fixups.writable s)) /\
    is_addr r /\ world_ok w /\ forall x, lo <= x < hi -> memory H L w x = Fixups.mem s x.
Proof.
  intros [Ht Hl]. unfold resolve_fx.
  assert (Ht' : @thunks_ok H lo hi (th H L (with_memory (Fixups.mem s) (Fixups.rs s)))) by (destruct Ht; by constructor).
  destruct (yields_resolve_import Hok rs Hrs header chain_data ordinal addend slot _ Ht') as (r&w&E&[K1 K2 K3 _]&Hr).
  rewrite E. exists r, w. split; [done|]. split; [done|]. split; [|exact K2]. split; [done|]. by rewrite K3.
Qed.

Instance machgate_ops : Fixups.ImportOps world := {| Fixups.resolve_import := resolve_fx |}.
#[refine] Instance machgate_resolver : Fixups.ImportResolver world lo hi := {| Fixups.resolver_inv := world_ok |}.
Proof.
  - intros h cd o a sl s Hi. cbn. destruct (resolve_fx_ok h cd o a sl s Hi) as (r&w&->&Hr&_). exact Hr.
  - intros h cd o a sl s x Hi Hx. cbn. destruct (resolve_fx_ok h cd o a sl s Hi) as (r&w&->&_&_&Hm). by apply Hm.
  - intros h cd o a sl s Hi. cbn. destruct (resolve_fx_ok h cd o a sl s Hi) as (r&w&->&_&Hw&_). exact Hw.
Defined.

(** ** Symbols of mapped libraries *)

(** Import [ordinal] and the name it gives. *)
Definition import_at (m : bytemem) (chain_data ordinal : Z) : option (import * cstr) :=
  if imports_count m chain_data <=? ordinal then None
  else match read_import m (imports_format m chain_data) (chain_data + imports_offset m chain_data) ordinal with
       | None => None
       | Some imp => Some (imp, c_string (Z.to_nat (fixups_datasize rs))
                                 (chain_data + symbols_offset m chain_data + im_name_offset imp) m)
       end.

Lemma resolve_fx_plain s cd ordinal addend slot imp sym de f :
  world_ok (Fixups.rs s) -> import_at (Fixups.mem s) cd ordinal = Some (imp, sym) ->
  plain_symbol own de sym -> 1 <= im_lib_ordinal imp <= ndylibs rs ->
  dylibs rs !! Z.to_nat (im_lib_ordinal imp - 1) = Some de -> action de = DYLIB_MAP ->
  lk_dlsym L lk0 (handle de) (lookup_name_of sym) = f -> f <> 0 ->
  fst (resolve_fx cd cd ordinal addend slot s) = u64 (f + i64 (addend + im_addend imp)).
Proof.
  intros [_ Hl] Hi Hp Ho Hd Ha Hf Hf0. unfold resolve_fx, resolve_import, mbind, gets. unfold import_at in Hi.
  set (w := with_memory (Fixups.mem s) (Fixups.rs s)) in *. change (memory H L w) with (Fixups.mem s).
  destruct (_ <=? _); [done|]. destruct (read_import _ _ _ _) as [imp'|]; [|done]. injection Hi as -> <-.
  destruct (import_named_plain rs w (im_lib_ordinal imp) _ (im_weak imp) (i64 (addend + im_addend imp)) slot de f Hp Ho Hd Ha) as (w'&E&_);
    [by rewrite <- Hf, <- Hl|done|]. by rewrite E.
Qed.
End instance.

(** Imports of an image.  Processing the chained fixups of an image with
    the resolver ends, and each slot bound to an ordinary symbol of a library
    mapped to a Linux library holds the address [dlsym] gives for the symbol's
    name, without its leading underscore and [$] suffix, plus the addends of
    the pointer and of the import. *)
Theorem chained_imports_bound H L own lo hi (Hok : host_ok H L own lo hi) rs (Hrs : entries_ok rs)
    mh_addr slide page_sz dlo dhi fuel chain_data off l (s : Fixups.fx (world H L)) :
  lo <= dlo /\ dhi <= hi -> @thunks_ok H lo hi (th H L (Fixups.rs s)) -> chain_data <> 0 ->
  (forall m, same dlo dhi (Fixups.mem s) m -> starts_at m chain_data off l) ->
  let cs := image_chains mh_addr l in
  Forall (chain_ready lo hi (Fixups.mem s)) cs -> ForallOrdPairs chains_apart cs ->
  Forall (fun c => outside c dlo dhi) cs -> Forall (fun c => (length (ch_rest c) < fuel)%nat) cs ->
  exists s', Fixups.process_chained_fixups (Ops := machgate_ops H L own rs) mh_addr slide page_sz fuel chain_data s = inr (Some s') /\
    forall c loc ordinal addend imp sym de f,
      In c cs -> In (loc, Fixups.Bind ordinal addend) (slots_of c) ->
      (forall m, same dlo dhi (Fixups.mem s) m -> import_at rs m chain_data ordinal = Some (imp, sym)) ->
      plain_symbol own de sym -> 1 <= im_lib_ordinal imp <= ndylibs rs ->
      dylibs rs !! Z.to_nat (im_lib_ordinal imp - 1) = Some de -> action de = DYLIB_MAP ->
      lk_dlsym L (lk H L (Fixups.rs s)) (handle de) (lookup_name_of sym) = f -> f <> 0 ->
      load 8 loc (Fixups.mem s') = u64 (f + i64 (addend + im_addend imp)).
Proof.
  intros Hd Ht Hcd Hat cs Hr Hap Ho Hf.
  set (R := machgate_resolver H L own lo hi Hok rs Hrs (lk H L (Fixups.rs s))).
  destruct (process_applies (R := R) mh_addr slide page_sz dlo dhi Hd fuel chain_data off l s) as (s'&E&Hdone&_); try done.
  exists s'. split; [done|]. intros c loc ordinal addend imp sym de f Hc Hin Himp Hp Hord Hde Ha Hfn Hf0.
  pose proof (proj1 (Forall_forall _ _) Hdone c (proj2 (list_elem_of_In _ _) Hc)) as Hcd'.
  pose proof (proj1 (Forall_forall _ _) Hcd' _ (proj2 (list_elem_of_In _ _) Hin)) as (s0&Hi0&Hs0&Hv).
  cbn [fst] in Hv. rewrite Hv.
  by apply (resolve_fx_plain H L own lo hi rs (lk H L (Fixups.rs s)) s0 chain_data ordinal addend loc imp sym de f Hi0 (Himp _ Hs0)).
Qed.

(** A rebased pointer at 0x2000, an import at 0x2008. *)
Definition import_fixups : list Z :=
  le_bytes 4 0 ++ le_bytes 4 0x20 ++ le_bytes 4 0x48 ++ le_bytes 4 0x4c ++ le_bytes 4 1 ++ le_bytes 4 1 ++ le_bytes 8 0 ++
  le_bytes 4 2 ++ le_bytes 4 0 ++ le_bytes 4 0x10 ++ le_bytes 4 0 ++
  le_bytes 4 24 ++ le_bytes 2 0x1000 ++ le_bytes 2 6 ++ le_bytes 8 0x1000 ++ le_bytes 4 0 ++ le_bytes 2 1 ++ le_bytes 2 0 ++
  le_bytes 4 0x201 ++ le_bytes 1 0 ++ map code (str "_puts") ++ le_bytes 1 0.
Definition import_page : page := Some (0, Fixups.Rebase 0x1234 0x80, [(2, Fixups.Bind 0 (-4))]).
Definition import_segment : segment := mk_segment Fixups.DYLD_CHAINED_PTR_64_OFFSET 0x1000 0x1000 [import_page].
Definition import_memory : bytemem :=
  store 8 0x2008 (Fixups.encode (Fixups.Bind 0 (-4)) 0) (store 8 0x2000 (Fixups.encode (Fixups.Rebase 0x1234 0x80) 2)
    (place 0x4000 import_fixups (fun _ => 0))).
Definition import_fx : Fixups.fx (world sample_map_host sample_linker) := Fixups.mk_fx import_memory (sample_world import_memory []) 0 [].

Definition import_chain : chain := mk_chain true 0x2000 (Fixups.Rebase 0x1234 0x80) [(2, Fixups.Bind 0 (-4))].

Lemma import_starts m : same 0x4000 0x4100 import_memory m -> starts_at m 0x4000 0x20 [None; Some (0x10, import_segment)].
Proof.
  intros Hm. repeat split; unfold Fixups.pointer_format, Fixups.segment_offset, Fixups.page_size, Fixups.page_count, Fixups.page_start;
    try (rewrite (load_same _ _ _ _ _ _ Hm) by (cbn; lia); reflexivity); done.
Qed.

Lemma import_chain_ready : chain_ready 0x1000 0x5000 import_memory import_chain.
Proof.
  split; [|split; vm_compute; discriminate].
  split; [split; lia|]. split; [lia|]. split; [reflexivity|]. split; [split; lia|reflexivity].
Qed.

Lemma import_found rs m : fixups_datasize rs = 0x100 -> same 0x4000 0x4100 import_memory m ->
  import_at rs m 0x4000 0 = Some (mk_import 1 false 1 0, str "_puts").
Proof.
  intros Hrs Hm. unfold import_at. rewrite Hrs.
  assert (E1 : imports_count m 0x4000 = 1) by (unfold imports_count; rewrite (load_same _ _ _ _ _ _ Hm) by lia; reflexivity).
  assert (E2 : imports_format m 0x4000 = 1) by (unfold imports_format; rewrite (load_same _ _ _ _ _ _ Hm) by lia; reflexivity).
  assert (E3 : imports_offset m 0x4000 = 0x48) by (unfold imports_offset; rewrite (load_same _ _ _ _ _ _ Hm) by lia; reflexivity).
  assert (E4 : symbols_offset m 0x4000 = 0x4c) by (unfold symbols_offset; rewrite (load_same _ _ _ _ _ _ Hm) by lia; reflexivity).
  assert (E5 : load 4 0x4048 m = 0x201) by (rewrite (load_same _ _ _ _ _ _ Hm) by lia; reflexivity).
  assert (E6 : c_string 256 0x404d m = str "_puts").
  { rewrite (c_string_ext _ _ import_memory); [reflexivity|]. intros x Hx. apply Hm.
    change (Z.of_nat (length (c_string 256 0x404d import_memory))) with 5 in Hx. lia. }
  rewrite E1, E2, E3, E4. unfold read_import. cbn [Z.leb Z.eqb Z.compare Pos.compare Pos.compare_cont Pos.eqb].
  change (0x4000 + 0x48 + 4 * 0) with 0x4048. rewrite E5.
  change (Some (mk_import 1 false 1 0, c_string 256 0x404d m) = Some (mk_import 1 false 1 0, str "_puts")). by rewrite E6.
Qed.

Lemma chained_imports_bound_witness :
  exists s', Fixups.process_chained_fixups (Ops := machgate_ops sample_map_host sample_linker sample_own sample_rs) 0x1000 0 4096 10 0x4000 import_fx = inr (Some s') /\
    load 8 0x2008 (Fixups.mem s') = u64 (0x7000 + i64 (-4 + 0)).
Proof.
  edestruct (chained_imports_bound _ _ sample_own 0x1000 0x5000 sample_host_ok sample_rs sample_entries_ok
    0x1000 0 4096 0x4000 0x4100 10 0x4000 0x20 [None; Some (0x10, import_segment)] import_fx) as (s'&E&Hs).
  - lia.
  - constructor; try (by left); split; by vm_compute.
  - done.
  - apply import_starts.
  - apply List.Forall_cons; [apply import_chain_ready|apply List.Forall_nil].
  - constructor; [apply List.Forall_nil|constructor].
  - apply List.Forall_cons; [|apply List.Forall_nil]. right. vm_compute. discriminate.
  - apply List.Forall_cons; [|apply List.Forall_nil]. cbn. lia.
  - exists s'. split; [exact E|].
    refine (Hs import_chain 0x2008 0 (-4) (mk_import 1 false 1 0) (str "_puts") sample_library 0x7000 _ _ _ _ _ _ _ _ _).
    + by left.
    + right. by left.
    + intros m. by apply import_found.
    + constructor; [| | | | | | | |split]; vm_compute; reflexivity.
    + cbn. lia.
    + reflexivity.
    + reflexivity.
    + reflexivity.
    + done.
Defined.
