(* ===== verification/DylibLoader.v ===== *)
(** * The loader of Mach-O libraries: src/dylib_loader.c

    [dylib_loader_load] maps a library and records where its symbols are;
    [dylib_loader_find] looks for a loaded one; [dylib_loader_run_inits] calls
    its initialisers.  The memory calls are those of Loader.v. *)

From Stdlib Require Import String.
From S2P Require Import Prelude CStr Host Macho Loader ResolveNames Resolve.
Import Resolve.

Module DylibLoader.

Definition MAX_MACHO_DYLIBS : nat := 8.
Definition DYLIB_POOL_PADDING : Z := 64 * 1024.
Definition FAT_MAGIC : Z := 0xcafebabe.
Definition FAT_CIGAM : Z := 0xbebafeca.
Definition CPU_TYPE_ARM64 : Z := 0x0100000C.
Definition MH_MAGIC_64 : Z := 0xfeedfacf.
Definition MH_DYLIB : Z := 0x6.

(** A file: its bytes and what its header at an offset decodes to (the magic
    and the header), when that much can be read. *)
Record macho_file := mk_file { file_bytes : bytemem; file_size : Z; file_header : Z -> option (Z * mach_header_64) }.

(** [struct macho_dylib_info]; [info] is the part the resolver reads. *)
Record loaded_dylib := mk_loaded {
  info : macho_dylib_info; ld_mh : Z; text_base : Z; text_size : Z; ld_pool_base : Z; ld_pool_size : Z; ld_pool_used : Z;
}.

(** ** The slice of a universal file *)

Definition bswap32 (v : Z) : Z :=
  ((v .& 0xff) .<< 24) .| (((v .>> 8) .& 0xff) .<< 16) .| (((v .>> 16) .& 0xff) .<< 8) .| ((v .>> 24) .& 0xff).

(** The loop over [n] architecture entries of 20 bytes from [pos] on. *)
Fixpoint find_arch (f : macho_file) (swap : bool) (n : nat) (pos : Z) : option (Z * Z) :=
  match n with
  | O => None
  | S n =>
      if file_size f <? pos + 20 then None
      else
        let get o := let v := load 4 (pos + o) (file_bytes f) in if swap then bswap32 v else v in
        if get 0 =? CPU_TYPE_ARM64 then Some (get 8, get 12) else find_arch f swap n (pos + 20)
  end.

(** A universal file that ends before the count of its entries has none that
    can be read. *)
Definition find_arm64_slice (f : macho_file) : option (Z * Z) :=
  if file_size f <? 4 then None
  else
    let magic := load 4 0 (file_bytes f) in
    if (magic =? FAT_MAGIC) || (magic =? FAT_CIGAM) then
      let swap := magic =? FAT_CIGAM in
      if file_size f <? 8 then None
      else
        let narch := load 4 4 (file_bytes f) in
        find_arch f swap (Z.to_nat (if swap then bswap32 narch else narch)) 8
    else Some (0, u32 (file_size f)).

(** ** Loading *)

(** The [return NULL]s. *)
Inductive dylib_error :=
| TooManyDylibs | CannotOpen | NoSlice | CannotReadMachHeader | BadMagic | NotADylib | CommandsMapFailed
| NoLoadableSegments | CannotReserve | SegmentFailed | NoMappedHeader.

Section loader.
Context (kernel_mmap : list vmcall -> vmcall -> option Z).
Notation mmap := (mmap kernel_mmap).
Local Open Scope ld_scope.

Definition native_prot (vmprot : Z) : Z :=
  let p := 0 in
  let p := if nz (vmprot .& 1) then p .| PROT_READ else p in
  let p := if nz (vmprot .& 2) then p .| PROT_WRITE else p in
  if nz (vmprot .& 4) then p .| PROT_EXEC else p.

(** Pass 1: the span of the segments. *)
Definition span_command (acc : Z * Z) (lc : load_command) : Z * Z :=
  let '(vm_low, vm_high) := acc in
  match body lc with
  | LC_SEGMENT_64 seg =>
      if negb (is_pagezero seg) && negb (vmsize seg =? 0) then
        (if vmaddr seg <? vm_low then vmaddr seg else vm_low,
         if vm_high <? u64 (vmaddr seg + vmsize seg) then u64 (vmaddr seg + vmsize seg) else vm_high)
      else (vm_low, vm_high)
  | _ => (vm_low, vm_high)
  end.
Definition span (cmds : list load_command) : Z * Z := fold_left span_command cmds (2 ^ 64 - 1, 0).

(** Pass 2: [mapped_header] (0 is NULL), [text_base] and [text_size]. *)
Record mapping := mk_mapping { mp_header : Z; mp_text_base : Z; mp_text_size : Z }.

Definition map_dylib_segment (slide fat_offset : Z) (seg : segment_command_64) (s : mapping) : ldE dylib_error mapping :=
  let addr := u64 (vmaddr seg + slide) in
  let maxprot := native_prot (maxprot seg) in
  let initprot := native_prot (initprot seg) in
  let useprot := if nz (initprot .& PROT_EXEC) then maxprot else initprot in
  if vmsize seg =? 0 then lret s
  else
    let! rv := mmap (VMmap addr (vmsize seg) useprot (MAP_ANONYMOUS .| MAP_PRIVATE .| MAP_FIXED) None) in
    match rv with
    | None => lexit SegmentFailed
    | Some _ =>
        let! header :=
          (if 0 <? filesize seg then
             let map_size := if filesize seg <? vmsize seg then filesize seg else vmsize seg in
             let! rv := mmap (VMmap addr map_size useprot (MAP_FIXED .| MAP_PRIVATE) (Some (u64 (fileoff seg + fat_offset)))) in
             match rv with
             | None => lexit SegmentFailed
             | Some _ => lret (if fileoff seg =? 0 then addr else mp_header s)
             end
           else lret (mp_header s)) in
        lret (if String.eqb (segname seg) "__TEXT" then mk_mapping header addr (vmsize seg)
              else mk_mapping header (mp_text_base s) (mp_text_size s))
    end.

Fixpoint map_dylib_segments (slide fat_offset : Z) (l : list load_command) (s : mapping) : ldE dylib_error mapping :=
  match l with
  | [] => lret s
  | lc :: l =>
      let! s := match body lc with
                | LC_SEGMENT_64 seg => if is_pagezero seg then lret s else map_dylib_segment slide fat_offset seg s
                | _ => lret s
                end in
      map_dylib_segments slide fat_offset l s
  end.

(** Pass 3: the last LC_SYMTAB, and the last segment its symbols lie in. *)
Definition symtab_of (l : list load_command) : option symtab_command :=
  fold_left (fun acc lc => match body lc with LC_OTHER (LC_SYMTAB st) => Some st | _ => acc end) l None.
Definition symbols_in (slide : Z) (st : symtab_command) (l : list load_command) : option (Z * Z) :=
  fold_left (fun acc lc =>
    match body lc with
    | LC_SEGMENT_64 seg =>
        if (fileoff seg <=? symoff st) && (symoff st <? u64 (fileoff seg + filesize seg)) then
          let base := vmaddr seg + slide in
          Some (u64 (base + (symoff st - fileoff seg)), u64 (base + (stroff st - fileoff seg)))
        else acc
    | _ => acc
    end) l None.

(** [g_macho_dylibs]: the libraries loaded so far. *)
Definition dylib_loader_load (files : cstr -> option macho_file) (path : cstr) (table : list loaded_dylib) : ldE dylib_error (list loaded_dylib) :=
  if (MAX_MACHO_DYLIBS <=? length table)%nat then lexit TooManyDylibs
  else match files path with
  | None => lexit CannotOpen
  | Some f =>
      match find_arm64_slice f with
      | None => lexit NoSlice
      | Some (fat_offset, _) =>
          match file_header f fat_offset with
          | None => lexit CannotReadMachHeader
          | Some (magic, header) =>
              if negb (magic =? MH_MAGIC_64) then lexit BadMagic
              else if negb (filetype header =? MH_DYLIB) then lexit NotADylib
              else
                let cmds_total := PAGE_ROUNDUP (32 + sizeofcmds header) in
                let! cmds_map := mmap (VMmap 0 cmds_total PROT_READ MAP_PRIVATE (Some fat_offset)) in
                match cmds_map with
                | None => lexit CommandsMapFailed
                | Some cmds_map =>
                    let done_with {A} (e : dylib_error) : ldE dylib_error A :=
                      let! _ := vm_note (VMunmap cmds_map cmds_total) in lexit e in
                    let cmds := visited (sizeofcmds header) 0 (commands header) in
                    let '(vm_low, vm_high) := span cmds in
                    if (vm_low =? 2 ^ 64 - 1) || (vm_high =? 0) then done_with NoLoadableSegments
                    else
                      let vm_aligned := PAGE_ROUNDUP (u64 (vm_high - vm_low)) in
                      let! reservation := mmap (VMmap 0 (vm_aligned + DYLIB_POOL_PADDING) PROT_NONE (MAP_ANONYMOUS .| MAP_PRIVATE) None) in
                      match reservation with
                      | None => done_with CannotReserve
                      | Some reservation =>
                          let! _ := vm_note (VMunmap reservation vm_aligned) in
                          let slide := u64 (reservation - vm_low) in
                          let! s := (fun tr => match map_dylib_segments slide fat_offset cmds (mk_mapping 0 0 0) tr with
                                               | (inl e, tr) => done_with e tr
                                               | r => r
                                               end) in
                          if mp_header s =? 0 then done_with NoMappedHeader
                          else
                            let pool_base := reservation + vm_aligned in
                            let! _ := vm_note (VMprotect pool_base DYLIB_POOL_PADDING (PROT_READ .| PROT_WRITE .| PROT_EXEC)) in
                            let '(st, tabs) :=
                              match symtab_of cmds with
                              | Some st => (st, match symbols_in slide st cmds with Some t => Some t | None => None end)
                              | None => (mk_symtab 0 0 0 0, None)
                              end in
                            let mdi := match tabs with
                                       | Some (symtab, strtab) => mk_mdi (firstn 255 path) slide symtab strtab (nsyms st) (strsize st)
                                       | None => mk_mdi (firstn 255 path) slide 0 0 0 0
                                       end in
                            let! _ := vm_note (VMunmap cmds_map cmds_total) in
                            lret (table ++ [mk_loaded mdi (mp_header s) (mp_text_base s) (mp_text_size s) pool_base DYLIB_POOL_PADDING 0])
                      end
                end
          end
      end
  end.
End loader.

(** [strstr(g_macho_dylibs[i].path, basename)] *)
Definition dylib_loader_find (table : list loaded_dylib) (basename : cstr) : option loaded_dylib :=
  List.find (fun d => match strstr (path (info d)) basename with Some _ => true | None => false end) table.

(** [None] is NULL. *)
Definition dylib_pool_alloc (d : loaded_dylib) (size : Z) : option Z * loaded_dylib :=
  let aligned_off := u64 (page_up (ld_pool_used d)) in
  if (ld_pool_base d =? 0) || (ld_pool_size d <? u64 (aligned_off + size)) then (None, d)
  else (Some (ld_pool_base d + aligned_off),
        mk_loaded (info d) (ld_mh d) (text_base d) (text_size d) (ld_pool_base d) (ld_pool_size d) (aligned_off + size)).

(** ** Initialisers *)

Section inits.
(** [call f m]: what a guest initialiser at [f] makes of memory. *)
Context (call : Z -> bytemem -> bytemem).

(** [count] entries of [size] bytes at [a]; [target] is the function of one. *)
Fixpoint run_table (size : Z) (target : Z -> Z) (n : nat) (a : Z) (m : bytemem) : list Z * bytemem :=
  match n with
  | O => ([], m)
  | S n => let f := target (load size a m) in
           let '(l, m) := run_table size target n (a + size) (call f m) in (f :: l, m)
  end.

(** The calls in order, and memory after them. *)
Definition run_section (mh slide : Z) (sect : section_64) (m : bytemem) : list Z * bytemem :=
  let sect_type := sect_flags sect .& 0xff in
  if sect_type =? 0x16 then
    run_table 4 (fun o => u64 (mh + o)) (Z.to_nat (i32 (sect_size sect / 4))) (u64 (sect_addr sect + slide)) m
  else if sect_type =? 0x09 then
    run_table 8 (fun f => f) (Z.to_nat (i32 (sect_size sect / 8))) (u64 (sect_addr sect + slide)) m
  else ([], m).

Fixpoint run_sections (mh slide : Z) (l : list section_64) (m : bytemem) : list Z * bytemem :=
  match l with
  | [] => ([], m)
  | s :: l => let '(c1, m) := run_section mh slide s m in
              let '(c2, m) := run_sections mh slide l m in (c1 ++ c2, m)
  end.

(** Commands [l] of the mapped header; nothing for a null header. *)
Definition dylib_loader_run_inits (mh slide : Z) (l : list load_command) (m : bytemem) : list Z * bytemem :=
  if mh =? 0 then ([], m)
  else run_sections mh slide
         (flat_map (fun lc => match body lc with LC_SEGMENT_64 seg => sections seg | _ => [] end) l) m.
End inits.
End DylibLoader.
