(* ===== verification/DylibLoaderTheorems.v ===== *)
(** * The loader of Mach-O libraries: what it maps, what it runs *)

From Stdlib Require Import String.
From S2P Require Import Prelude CStr Host GuestCpus Macho Loader ResolveNames Resolve DylibLoader.
Import Resolve DylibLoader.

(** ** Universal files *)

Record arch := mk_arch { a_cpu : Z; a_offset : Z; a_size : Z }.

(** The entries of a universal file in big-endian order from [pos] on. *)
Fixpoint archs_at (f : macho_file) (pos : Z) (l : list arch) : Prop :=
  match l with
  | [] => True
  | a :: l => pos + 20 <= file_size f /\ bswap32 (load 4 pos (file_bytes f)) = a_cpu a /\
              bswap32 (load 4 (pos + 8) (file_bytes f)) = a_offset a /\ bswap32 (load 4 (pos + 12) (file_bytes f)) = a_size a /\
              archs_at f (pos + 20) l
  end.

(** The slice of the first arm64 entry is found, whatever comes before it. *)
Lemma find_arch_first f l : forall pos, archs_at f pos l ->
  find_arch f true (length l) pos =
  match List.find (fun a => a_cpu a =? CPU_TYPE_ARM64) l with Some a => Some (a_offset a, a_size a) | None => None end.
Proof.
  induction l as [|a l IH]; intros pos Hl; [done|]. cbn [archs_at length find_arch List.find] in *.
  destruct Hl as (Hs&Hc&Ho&Hz&Hl). destruct (Z.ltb_spec (file_size f) (pos + 20)); [lia|]. rewrite Z.add_0_r, Hc, Ho, Hz.
  destruct (a_cpu a =? CPU_TYPE_ARM64); [done|]. by apply IH.
Qed.

Lemma find_arm64_slice_fat f l :
  8 <= file_size f -> load 4 0 (file_bytes f) = FAT_CIGAM -> bswap32 (load 4 4 (file_bytes f)) = Z.of_nat (length l) -> archs_at f 8 l ->
  find_arm64_slice f =
  match List.find (fun a => a_cpu a =? CPU_TYPE_ARM64) l with Some a => Some (a_offset a, a_size a) | None => None end.
Proof.
  intros Hs Hm Hn Hl. unfold find_arm64_slice. destruct (Z.ltb_spec (file_size f) 4), (Z.ltb_spec (file_size f) 8); try lia.
  rewrite Hm. change ((FAT_CIGAM =? FAT_MAGIC) || (FAT_CIGAM =? FAT_CIGAM)) with true. cbv iota zeta.
  change (FAT_CIGAM =? FAT_CIGAM) with true. cbv iota. rewrite Hn, Nat2Z.id. by apply find_arch_first.
Qed.

(** ** The span of the segments *)

Definition seg_fits (seg : segment_command_64) : Prop := 0 <= vmaddr seg /\ 0 < vmsize seg /\ vmaddr seg + vmsize seg < 2 ^ 62.

(** Bounds of the segments seen so far. *)
Lemma span_from l : forall lo hi,
  Forall seg_fits (loadable_segments l) -> 0 <= hi < 2 ^ 62 -> 0 <= lo ->
  let '(lo', hi') := fold_left span_command l (lo, hi) in
  0 <= lo' <= lo /\ hi <= hi' < 2 ^ 62 /\
  Forall (fun s => lo' <= vmaddr s /\ vmaddr s + vmsize s <= hi') (loadable_segments l) /\
  (lo' = lo /\ hi' = hi \/ exists s, In s (loadable_segments l) /\ lo' <= vmaddr s /\ vmaddr s + vmsize s <= hi').
Proof.
  induction l as [|lc l IH]; intros lo hi Hf Hhi Hlo; cbn -[span_command].
  - split; [lia|]. split; [lia|]. split; [constructor|]. by left.
  - cbn [loadable_segments] in Hf. destruct (body lc) as [seg| | | | | |] eqn:Eb;
      try (replace (span_command (lo, hi) lc) with (lo, hi) by (unfold span_command; by rewrite Eb); by apply IH).
    destruct (loadable seg) eqn:El.
    + apply Forall_cons in Hf as [(H1&H2&H3) Hf].
      assert (E : span_command (lo, hi) lc = (Z.min (vmaddr seg) lo, Z.max hi (vmaddr seg + vmsize seg))).
      { unfold span_command. rewrite Eb. unfold loadable in El. rewrite El, u64_small by lia.
        f_equal; [destruct (Z.ltb_spec (vmaddr seg) lo); lia|destruct (Z.ltb_spec hi (vmaddr seg + vmsize seg)); lia]. }
      rewrite E. specialize (IH (Z.min (vmaddr seg) lo) (Z.max hi (vmaddr seg + vmsize seg)) Hf ltac:(lia) ltac:(lia)).
      destruct (fold_left span_command l _) as [lo' hi']. destruct IH as (A1&A2&A3&A4).
      split; [lia|]. split; [lia|]. split; [constructor; [lia|done]|]. right. exists seg. split; [by left|lia].
    + replace (span_command (lo, hi) lc) with (lo, hi) by (unfold span_command; rewrite Eb; unfold loadable in El; by rewrite El).
      by apply IH.
Qed.

(** ** The segments *)

Section image.
Context (kernel_mmap : list vmcall -> vmcall -> option Z).

Lemma map_dylib_segment_calls lo hi slide fo seg s :
  (vmsize seg <> 0 -> lo <= u64 (vmaddr seg + slide) /\ u64 (vmaddr seg + slide) + vmsize seg <= hi) ->
  calls (segment_call lo hi) (map_dylib_segment kernel_mmap slide fo seg s).
Proof.
  intros Hin. unfold map_dylib_segment. destruct (Z.eqb_spec (vmsize seg) 0) as [|Hv]; [apply calls_ret|]. specialize (Hin Hv).
  apply calls_bind; [apply calls_mmap; split; [done|lia]|]. intros [r|]; [|apply calls_exit].
  apply calls_bind; [|intros h; apply calls_ret]. destruct (0 <? filesize seg); [|apply calls_ret].
  apply calls_bind; [apply calls_mmap; split; [done|]; destruct (Z.ltb_spec (filesize seg) (vmsize seg)); lia|].
  intros [r'|]; [apply calls_ret|apply calls_exit].
Qed.

Lemma map_dylib_segments_calls lo hi slide fo l : forall s,
  Forall (fun seg => lo <= u64 (vmaddr seg + slide) /\ u64 (vmaddr seg + slide) + vmsize seg <= hi) (loadable_segments l) ->
  calls (segment_call lo hi) (map_dylib_segments kernel_mmap slide fo l s).
Proof.
  induction l as [|lc l IH]; intros s Hf; cbn [map_dylib_segments]; [apply calls_ret|]. cbn [loadable_segments] in Hf.
  destruct (body lc) as [seg| | | | | |]; try (apply calls_bind; [apply calls_ret|intros s'; by apply IH]).
  unfold loadable in Hf. destruct (is_pagezero seg); cbn [negb andb] in Hf; [apply calls_bind; [apply calls_ret|intros s'; by apply IH]|].
  destruct (Z.eqb_spec (vmsize seg) 0) as [E|E]; cbn [negb] in Hf.
  - apply calls_bind; [by apply map_dylib_segment_calls|intros s'; by apply IH].
  - apply Forall_cons in Hf as [Hs Hf]. apply calls_bind; [by apply map_dylib_segment_calls|intros s'; by apply IH].
Qed.

(** The header is a segment's: the one with the start of the file. *)
Definition header_of (slide : Z) (l : list load_command) (h : Z) : Prop :=
  h = 0 \/ exists seg, In seg (loadable_segments l) /\ fileoff seg = 0 /\ h = u64 (vmaddr seg + slide).

Lemma map_dylib_segment_header slide fo seg s tr s' tr' :
  map_dylib_segment kernel_mmap slide fo seg s tr = (inr s', tr') ->
  mp_header s' = mp_header s \/ vmsize seg <> 0 /\ fileoff seg = 0 /\ mp_header s' = u64 (vmaddr seg + slide).
Proof.
  unfold map_dylib_segment. destruct (Z.eqb_spec (vmsize seg) 0); [intros [= <- _]; by left|].
  unfold lbind, mmap, lret, lexit. destruct (kernel_mmap tr _); [|done]. destruct (0 <? filesize seg).
  - destruct (kernel_mmap _ _); [|done]. intros [= <- _]. destruct (Z.eqb_spec (fileoff seg) 0).
    + right. by destruct (String.eqb _ _).
    + left. by destruct (String.eqb _ _).
  - intros [= <- _]. left. by destruct (String.eqb _ _).
Qed.

Lemma map_dylib_segments_header slide fo l : forall s tr s' tr',
  map_dylib_segments kernel_mmap slide fo l s tr = (inr s', tr') ->
  mp_header s' = mp_header s \/ exists seg, In seg (loadable_segments l) /\ fileoff seg = 0 /\ mp_header s' = u64 (vmaddr seg + slide).
Proof.
  induction l as [|lc l IH]; intros s tr s' tr' E; cbn [map_dylib_segments] in E; [injection E as <- _; by left|].
  unfold lbind in E. cbn [loadable_segments]. destruct (body lc) as [seg| | | | | |]; try (apply IH in E; exact E).
  unfold loadable. destruct (is_pagezero seg); cbn [negb andb]; [apply IH in E; exact E|].
  destruct (map_dylib_segment _ _ _ _ _ _) as [[e|s1] tr1] eqn:E1; [done|]. apply map_dylib_segment_header in E1. apply IH in E.
  destruct (Z.eqb_spec (vmsize seg) 0) as [Ez|Ez]; cbn [negb].
  - destruct E1 as [E1|(?&_)]; [|done]. by rewrite E1 in E.
  - destruct E as [E|(sg&Hin&?&?)]; [|right; exists sg; split; [by right|done]].
    destruct E1 as [E1|(_&Hz&E1)]; [left; congruence|]. right. exists seg. split; [by left|]. split; [done|congruence].
Qed.
End image.

(** ** Loading *)

Definition reserve_call (len : Z) : vmcall := VMmap 0 len PROT_NONE (MAP_ANONYMOUS .| MAP_PRIVATE) None.

(** What the kernel promises of a reservation: whole pages of user space. *)
Definition grants_pages (kernel_mmap : list vmcall -> vmcall -> option Z) : Prop :=
  forall tr len r, kernel_mmap tr (reserve_call len) = Some r -> 0 < r /\ r mod 4096 = 0 /\ r + len < 2 ^ 63.

(** A library in the reservation [r .. r + len). *)
Record placed (r len : Z) (cmds : list load_command) (file : cstr) (d : loaded_dylib) : Prop := {
  pl_path : path (info d) = firstn 255 file;
  pl_segments : Forall (fun seg => r <= u64 (vmaddr seg + mdi_slide (info d)) /\
                                   u64 (vmaddr seg + mdi_slide (info d)) + vmsize seg <= r + len) (loadable_segments cmds);
  pl_header : exists seg, In seg (loadable_segments cmds) /\ fileoff seg = 0 /\ ld_mh d = u64 (vmaddr seg + mdi_slide (info d));
  pl_pool : ld_pool_base d = r + len /\ ld_pool_size d = DYLIB_POOL_PADDING /\ ld_pool_used d = 0;
}.

(** The range of pages a span takes. *)
Lemma page_roundup_span x : 0 < x -> x <= PAGE_ROUNDUP x /\ PAGE_ROUNDUP x mod 4096 = 0.
Proof.
  intros Hx. unfold PAGE_ROUNDUP, PAGE_SIZE. pose proof (Z.div_mod (x - 1) 4096 ltac:(lia)). pose proof (Z.mod_pos_bound (x - 1) 4096 ltac:(lia)).
  split; [lia|]. apply Z.mod_mul. lia.
Qed.

(** Where the segments land. *)
Lemma segments_placed r A lo hi l :
  Forall (fun s => lo <= vmaddr s /\ vmaddr s + vmsize s <= hi) (loadable_segments l) -> Forall seg_fits (loadable_segments l) ->
  0 < r -> r + A < 2 ^ 63 -> hi - lo <= A -> 0 <= lo ->
  Forall (fun seg => r <= u64 (vmaddr seg + u64 (r - lo)) /\ u64 (vmaddr seg + u64 (r - lo)) + vmsize seg <= r + A) (loadable_segments l).
Proof.
  intros Hs Hf Hr HA Hsp Hlo. rewrite Forall_forall in Hf. apply Forall_forall. intros seg Hin. rewrite Forall_forall in Hs.
  destruct (Hs seg Hin) as [H1 H2]. destruct (Hf seg Hin) as (H3&H4&H5).
  assert (E : u64 (vmaddr seg + u64 (r - lo)) = r + (vmaddr seg - lo)).
  { unfold u64. rewrite Zplus_mod_idemp_r. replace (vmaddr seg + (r - lo)) with (r + (vmaddr seg - lo)) by lia. apply Z.mod_small. lia. }
  rewrite E. lia.
Qed.

Section confined.
Context (kernel_mmap : list vmcall -> vmcall -> option Z) (file : cstr) (fat_offset : Z) (header : mach_header_64)
  (table : list loaded_dylib) (tr : list vmcall).

Definition cmds_total : Z := PAGE_ROUNDUP (32 + sizeofcmds header).
Definition commands_map : vmcall := VMmap 0 cmds_total PROT_READ MAP_PRIVATE (Some fat_offset).

(** The calls of a load that is refused early: none; or the load commands of the
    file are mapped where the kernel likes, perhaps a reservation is asked for in
    vain, and the commands are unmapped again. *)
Definition refused_calls (l : list vmcall) : Prop :=
  l = [] \/
  match kernel_mmap tr commands_map with
  | None => l = [commands_map]
  | Some cm => l = [commands_map; VMunmap cm cmds_total] \/
               exists len, kernel_mmap (tr ++ [commands_map]) (reserve_call len) = None /\ l = [commands_map; reserve_call len; VMunmap cm cmds_total]
  end.

(** The calls of the others: the kernel grants the reservation [r]; its first
    [len] bytes are unmapped, the segments are mapped over parts of them, the
    bytes behind them become the pool (unless the load fails), and the load
    commands are unmapped. *)
Definition granted_calls (r len : Z) (loaded : bool) (l : list vmcall) : Prop :=
  let reservation := reserve_call (len + DYLIB_POOL_PADDING) in
  exists cm segs, kernel_mmap tr commands_map = Some cm /\ kernel_mmap (tr ++ [commands_map]) reservation = Some r /\
    Forall (segment_call r (r + len)) segs /\
    l = commands_map :: reservation :: VMunmap r len :: segs ++
        (if loaded then [VMprotect (r + len) DYLIB_POOL_PADDING (PROT_READ .| PROT_WRITE .| PROT_EXEC)] else []) ++ [VMunmap cm cmds_total].

(** The outcome of a load: its calls, and what it enters into the table. *)
Definition confined (out : (dylib_error + list loaded_dylib) * list vmcall) : Prop :=
  exists l, snd out = tr ++ l /\
    match fst out with
    | inl _ => refused_calls l \/ exists r len, len mod 4096 = 0 /\ granted_calls r len false l
    | inr table' => exists r len d, len mod 4096 = 0 /\ granted_calls r len true l /\ table' = table ++ [d] /\
                      placed r len (visited (sizeofcmds header) 0 (commands header)) file d
    end.

Lemma refused e l : refused_calls l -> confined (inl e, tr ++ l).
Proof. intros H. exists l. split; [done|by left]. Qed.

Lemma failed e cm r len segs :
  kernel_mmap tr commands_map = Some cm -> kernel_mmap (tr ++ [commands_map]) (reserve_call (len + DYLIB_POOL_PADDING)) = Some r ->
  len mod 4096 = 0 -> Forall (segment_call r (r + len)) segs ->
  confined (inl e, tr ++ commands_map :: reserve_call (len + DYLIB_POOL_PADDING) :: VMunmap r len :: segs ++ [VMunmap cm cmds_total]).
Proof. intros Hc Hr Hl Hs. eexists. split; [done|]. right. exists r, len. split; [done|]. by exists cm, segs. Qed.
End confined.


(** ** Initialisers *)

(** The functions a section names, and the bytes that name them. *)
Definition section_functions (mh slide : Z) (m : bytemem) (sect : section_64) : list Z :=
  let a := u64 (sect_addr sect + slide) in
  let sect_type := sect_flags sect .& 0xff in
  if sect_type =? 0x16 then map (fun i => u64 (mh + load 4 (a + 4 * i) m)) (seqZ 0 (i32 (sect_size sect / 4)))
  else if sect_type =? 0x09 then map (fun i => load 8 (a + 8 * i) m) (seqZ 0 (i32 (sect_size sect / 8)))
  else [].
Definition in_table (slide : Z) (l : list section_64) (x : Z) : Prop :=
  exists s, In s l /\ u64 (sect_addr s + slide) <= x < u64 (sect_addr s + slide) + sect_size s.

Section inits.
Context (call : Z -> bytemem -> bytemem).

Lemma run_table_spec size target (P : Z -> Prop) n : forall a m,
  0 < size -> (forall f m x, P x -> call f m x = m x) -> (forall x, a <= x < a + size * Z.of_nat n -> P x) ->
  let '(l, m') := run_table call size target n a m in
  l = map (fun i => target (load size (a + size * i) m)) (seqZ 0 (Z.of_nat n)) /\ forall x, P x -> m' x = m x.
Proof.
  induction n as [|n IH]; intros a m Hs Hc Hp; cbn [run_table]; [done|].
  specialize (IH (a + size) (call (target (load size a m)) m) Hs Hc ltac:(intros x Hx; apply Hp; nia)).
  destruct (run_table _ _ _ _ _ _) as [l m']. destruct IH as [-> Hm]. split.
  - rewrite (seqZ_cons 0 (Z.of_nat (S n))) by lia. cbn [map]. rewrite Z.mul_0_r, Z.add_0_r. f_equal.
    replace (Z.pred (Z.of_nat (S n))) with (Z.of_nat n) by lia. change (Z.succ 0) with (1 + 0).
    rewrite <- (fmap_add_seqZ 1 0), map_map. apply map_ext_in. intros i Hi%in_seqZ_iff.
    replace (a + size * (1 + i)) with (a + size + size * i) by lia. f_equal. apply load_ext. intros x Hx. apply Hc, Hp. nia.
  - intros x Hx. rewrite Hm by done. by apply Hc.
Qed.

Lemma run_section_spec mh slide (P : Z -> Prop) sect m :
  0 <= sect_size sect < 2 ^ 31 -> (forall f m x, P x -> call f m x = m x) ->
  (forall x, u64 (sect_addr sect + slide) <= x < u64 (sect_addr sect + slide) + sect_size sect -> P x) ->
  let '(l, m') := run_section call mh slide sect m in
  l = section_functions mh slide m sect /\ forall x, P x -> m' x = m x.
Proof.
  intros Hs Hc Hp. unfold run_section, section_functions. cbv zeta.
  assert (Hcount : forall k, 0 < k -> i32 (sect_size sect / k) = sect_size sect / k /\ 0 <= sect_size sect / k /\ k * (sect_size sect / k) <= sect_size sect).
  { intros k Hk. pose proof (Z.div_pos (sect_size sect) k ltac:(lia) Hk). pose proof (Z.mul_div_le (sect_size sect) k Hk).
    split; [apply signed_small; nia|lia]. }
  destruct (_ =? 0x16).
  - destruct (Hcount 4 ltac:(lia)) as (E&H1&H2). rewrite E.
    pose proof (run_table_spec 4 (fun o => u64 (mh + o)) P (Z.to_nat (sect_size sect / 4)) (u64 (sect_addr sect + slide)) m ltac:(lia) Hc
      ltac:(intros x Hx; apply Hp; lia)) as H. rewrite Z2Nat.id in H by lia. exact H.
  - destruct (_ =? 0x09); [|done]. destruct (Hcount 8 ltac:(lia)) as (E&H1&H2). rewrite E.
    pose proof (run_table_spec 8 (fun f => f) P (Z.to_nat (sect_size sect / 8)) (u64 (sect_addr sect + slide)) m ltac:(lia) Hc
      ltac:(intros x Hx; apply Hp; lia)) as H. rewrite Z2Nat.id in H by lia. exact H.
Qed.

Lemma section_functions_ext mh slide m m' sect :
  0 <= sect_size sect < 2 ^ 31 ->
  (forall x, u64 (sect_addr sect + slide) <= x < u64 (sect_addr sect + slide) + sect_size sect -> m' x = m x) ->
  section_functions mh slide m' sect = section_functions mh slide m sect.
Proof.
  intros Hs H. unfold section_functions. cbv zeta.
  assert (Hcount : forall k i, 0 < k -> In i (seqZ 0 (i32 (sect_size sect / k))) -> 0 <= k * i /\ k * i + k <= sect_size sect).
  { intros k i Hk Hi%in_seqZ_iff. pose proof (Z.div_pos (sect_size sect) k ltac:(lia) Hk). pose proof (Z.mul_div_le (sect_size sect) k Hk).
    replace (i32 (sect_size sect / k)) with (sect_size sect / k) in Hi by (symmetry; apply signed_small; nia). nia. }
  destruct (_ =? 0x16); [|destruct (_ =? 0x09); [|done]]; apply map_ext_in; intros i Hi.
  - do 2 f_equal. apply load_ext. intros x Hx. apply H. specialize (Hcount 4 i ltac:(lia) Hi). lia.
  - apply load_ext. intros x Hx. apply H. specialize (Hcount 8 i ltac:(lia) Hi). lia.
Qed.

Lemma run_sections_spec mh slide (P : Z -> Prop) l : forall m,
  Forall (fun s => 0 <= sect_size s < 2 ^ 31) l -> (forall f m x, P x -> call f m x = m x) ->
  (forall x, in_table slide l x -> P x) ->
  fst (run_sections call mh slide l m) = flat_map (section_functions mh slide m) l.
Proof.
  induction l as [|s l IH]; intros m Hl Hc Hp; [done|]. apply Forall_cons in Hl as [Hs Hl]. cbn [run_sections flat_map].
  pose proof (run_section_spec mh slide P s m Hs Hc ltac:(intros x Hx; apply Hp; exists s; split; [by left|done])) as H.
  destruct (run_section _ _ _ _ _) as [c1 m1]. destruct H as [-> Hm].
  specialize (IH m1 Hl Hc ltac:(intros x (t&Ht&Hx); apply Hp; exists t; split; [by right|done])).
  destruct (run_sections _ _ _ _ _) as [c2 m2]. cbn [fst] in *. rewrite IH. f_equal.
  rewrite !flat_map_concat_map. f_equal. apply map_ext_in. intros t Ht. rewrite Forall_forall in Hl.
  apply section_functions_ext; [apply Hl; by apply list_elem_of_In|]. intros x Hx. apply Hm, Hp. exists t. split; [by right|done].
Qed.
End inits.

(** Initialisers run in the order of the image: when they leave the tables
    that name them alone, the calls [dylib_loader_run_inits] makes are exactly
    the functions of the initialiser sections, section by section and entry by
    entry, an offset entry counted from the Mach-O header. *)
Theorem inits_run_in_order call mh slide cmds m :
  let l := flat_map (fun lc => match body lc with LC_SEGMENT_64 seg => sections seg | _ => [] end) cmds in
  mh <> 0 -> Forall (fun s => 0 <= sect_size s < 2 ^ 31) l ->
  (forall f m x, in_table slide l x -> call f m x = m x) ->
  fst (dylib_loader_run_inits call mh slide cmds m) = flat_map (section_functions mh slide m) l.
Proof.
  intros l Hmh Hl Hc. unfold dylib_loader_run_inits. destruct (Z.eqb_spec mh 0); [done|].
  apply (run_sections_spec call mh slide (in_table slide l)); done.
Qed.

(** A thin library with a text and a data segment, and a kernel that reserves
    at 0x10000000 and otherwise grants what is asked. *)
Definition sample_text : segment_command_64 := mk_seg "__TEXT" 0 0x4000 0 0x4000 5 5 [].
Definition sample_data : segment_command_64 :=
  mk_seg "__DATA" 0x4000 0x1000 0x4000 0x800 3 3 [mk_sect "__mod_init_func" 0x4000 16 0x09].
Definition sample_dylib : mach_header_64 :=
  mk_mh MH_DYLIB 0 144 [mk_lc 72 (LC_SEGMENT_64 sample_text); mk_lc 72 (LC_SEGMENT_64 sample_data)].
Definition sample_file : macho_file :=
  mk_file (store 4 0 MH_MAGIC_64 (fun _ => 0)) 0x4800 (fun off => if off =? 0 then Some (MH_MAGIC_64, sample_dylib) else None).
Definition sample_kernel (tr : list vmcall) (c : vmcall) : option Z :=
  match c with VMmap addr len _ _ _ => if addr =? 0 then if len <? 2 ^ 40 then Some 0x10000000 else None else Some addr | _ => None end.


(** Two initialisers, 0x1111 and 0x2222, that change nothing. *)
Lemma inits_run_in_order_witness :
  fst (dylib_loader_run_inits (fun _ m => m) 0x10000000 0x10000000 (commands sample_dylib)
         (store 8 0x10004008 0x2222 (store 8 0x10004000 0x1111 (fun _ => 0)))) = [0x1111; 0x2222].
Proof.
  rewrite (inits_run_in_order (fun _ m => m)).
  - vm_compute. reflexivity.
  - discriminate.
  - cbn. constructor; [cbn; lia|constructor].
  - reflexivity.
Defined.
