(* ===== verification/DyldRebase.v ===== *)
(** * LC_DYLD_INFO rebase opcodes: src/resolver.c, process_dyld_info (first half)

    A byte-coded program that lists the pointers to slide.  The stream is read
    from the image's memory while the image is patched. *)

From S2P Require Import Prelude Leb128.

Module DyldRebase.

Definition REBASE_OPCODE_MASK : Z := 0xF0.
Definition REBASE_IMMEDIATE_MASK : Z := 0x0F.
Definition REBASE_OPCODE_DONE : Z := 0x00.
Definition REBASE_OPCODE_SET_TYPE_IMM : Z := 0x10.
Definition REBASE_OPCODE_SET_SEGMENT_AND_OFFSET_ULEB : Z := 0x20.
Definition REBASE_OPCODE_ADD_ADDR_ULEB : Z := 0x30.
Definition REBASE_OPCODE_ADD_ADDR_IMM_SCALED : Z := 0x40.
Definition REBASE_OPCODE_DO_REBASE_IMM_TIMES : Z := 0x50.
Definition REBASE_OPCODE_DO_REBASE_ULEB_TIMES : Z := 0x60.
Definition REBASE_OPCODE_DO_REBASE_ADD_ADDR_ULEB : Z := 0x70.
Definition REBASE_OPCODE_DO_REBASE_ULEB_TIMES_SKIPPING_ULEB : Z := 0x80.

(** [read_uleb128(p, end, &r)]: the value and the advanced pointer; the loop
    is the one of [eh_read_uleb128]. *)
Definition read_uleb128 (m : bytemem) (p limit : Z) : Z * Z := eh_read_uleb128 m p limit.

(** Memory, [rebases_applied], [seg_index], [seg_offset] and [p]. *)
Record rb := mk_rb { rmem : bytemem; applied : Z; seg_index : Z; seg_offset : Z; ptr : Z }.

Section rebase.
(** [segments] are the vmaddrs of [rs->segments]. *)
Context (segments : list Z) (slide : Z).

Definition slot_address (idx off : Z) : option Z :=
  match segments !! Z.to_nat idx with Some vmaddr => Some (u64 (vmaddr + slide + off)) | None => None end.

(** [if (seg_index < nsegments) { *loc += slide; rebases_applied++; }] *)
Definition rebase_here (s : rb) : rb :=
  match slot_address (seg_index s) (seg_offset s) with
  | Some addr => mk_rb (store 8 addr (u64 (load 8 addr (rmem s) + slide)) (rmem s)) (applied s + 1)
                       (seg_index s) (seg_offset s) (ptr s)
  | None => s
  end.

Definition advance (n : Z) (s : rb) : rb :=
  mk_rb (rmem s) (applied s) (seg_index s) (u64 (seg_offset s + n)) (ptr s).
Definition at_ptr (p : Z) (s : rb) : rb := mk_rb (rmem s) (applied s) (seg_index s) (seg_offset s) p.

(** [for (i = 0; i < n; i++) { rebase; seg_offset += step; }] *)
Fixpoint rebase_times (n : nat) (step : Z) (s : rb) : rb :=
  match n with O => s | S n => rebase_times n step (advance step (rebase_here s)) end.

(** One opcode; [None] is an unknown one, [true] is [done]. *)
Definition rebase_step (limit : Z) (s : rb) : option (bool * rb) :=
  let byte := rmem s (ptr s) mod 256 in
  let opcode := byte .& REBASE_OPCODE_MASK in
  let imm := byte .& REBASE_IMMEDIATE_MASK in
  let s := at_ptr (ptr s + 1) s in
  let uleb := read_uleb128 (rmem s) (ptr s) limit in
  if opcode =? REBASE_OPCODE_DONE then Some (true, s)
  else if opcode =? REBASE_OPCODE_SET_TYPE_IMM then Some (false, s)
  else if opcode =? REBASE_OPCODE_SET_SEGMENT_AND_OFFSET_ULEB then
    Some (false, mk_rb (rmem s) (applied s) imm (fst uleb) (snd uleb))
  else if opcode =? REBASE_OPCODE_ADD_ADDR_ULEB then Some (false, at_ptr (snd uleb) (advance (fst uleb) s))
  else if opcode =? REBASE_OPCODE_ADD_ADDR_IMM_SCALED then Some (false, advance (imm * 8) s)
  else if opcode =? REBASE_OPCODE_DO_REBASE_IMM_TIMES then Some (false, rebase_times (Z.to_nat imm) 8 s)
  else if opcode =? REBASE_OPCODE_DO_REBASE_ULEB_TIMES then
    Some (false, rebase_times (Z.to_nat (fst uleb)) 8 (at_ptr (snd uleb) s))
  else if opcode =? REBASE_OPCODE_DO_REBASE_ADD_ADDR_ULEB then
    let s := rebase_here s in
    let '(n, p) := read_uleb128 (rmem s) (ptr s) limit in
    Some (false, at_ptr p (advance (n + 8) s))
  else if opcode =? REBASE_OPCODE_DO_REBASE_ULEB_TIMES_SKIPPING_ULEB then
    let '(skip, p) := read_uleb128 (rmem s) (snd uleb) limit in
    Some (false, rebase_times (Z.to_nat (fst uleb)) (skip + 8) (at_ptr p s))
  else None.

(** [while (p < end && !done)]: every round reads at least one byte. *)
Fixpoint rebase_loop (fuel : nat) (limit : Z) (s : rb) : option rb :=
  match fuel with
  | O => Some s
  | S fuel =>
      if ptr s <? limit then
        match rebase_step limit s with
        | None => None
        | Some (true, s) => Some s
        | Some (false, s) => rebase_loop fuel limit s
        end
      else Some s
  end.

(** [p] is the mapped stream, 0 when it is not mapped; [None] is -1. *)
Definition process_rebases (p size : Z) (m : bytemem) : option (bytemem * Z) :=
  if size <=? 0 then Some (m, 0)
  else if p =? 0 then None
  else match rebase_loop (Z.to_nat size) (p + size) (mk_rb m 0 0 0 p) with
       | Some s => Some (rmem s, applied s)
       | None => None
       end.

(** ** The program as data *)

Inductive rebase_op :=
| SetType (imm : Z) | SetSegment (idx off : Z) | AddAddr (n : Z) | AddScaled (imm : Z)
| DoTimesImm (imm : Z) | DoTimes (n : Z) | DoAdd (n : Z) | DoTimesSkipping (count skip : Z).

Definition is_imm (x : Z) : Prop := 0 <= x < 16.
Definition is_u64 (x : Z) : Prop := 0 <= x < 2 ^ 64.
Definition op_ok (o : rebase_op) : Prop :=
  match o with
  | SetType imm | AddScaled imm | DoTimesImm imm => is_imm imm
  | SetSegment idx off => is_imm idx /\ is_u64 off
  | AddAddr n | DoTimes n | DoAdd n => is_u64 n
  | DoTimesSkipping count skip => is_u64 count /\ is_u64 skip
  end.

Definition encode_op (o : rebase_op) : list Z :=
  match o with
  | SetType imm => [0x10 + imm]
  | SetSegment idx off => (0x20 + idx) :: uleb128 off
  | AddAddr n => 0x30 :: uleb128 n
  | AddScaled imm => [0x40 + imm]
  | DoTimesImm imm => [0x50 + imm]
  | DoTimes n => 0x60 :: uleb128 n
  | DoAdd n => 0x70 :: uleb128 n
  | DoTimesSkipping count skip => 0x80 :: uleb128 count ++ uleb128 skip
  end.
Definition encode_ops (l : list rebase_op) : list Z := flat_map encode_op l.

(** The slots a program slides, from segment [idx] and offset [off]. *)
Fixpoint times_slots (n : nat) (idx off step : Z) : list (Z * Z) * Z :=
  match n with
  | O => ([], off)
  | S n => let '(l, off') := times_slots n idx (u64 (off + step)) step in ((idx, off) :: l, off')
  end.

Definition op_slots (o : rebase_op) (idx off : Z) : list (Z * Z) * (Z * Z) :=
  match o with
  | SetType _ => ([], (idx, off))
  | SetSegment idx' off' => ([], (idx', off'))
  | AddAddr n => ([], (idx, u64 (off + n)))
  | AddScaled imm => ([], (idx, u64 (off + imm * 8)))
  | DoTimesImm n | DoTimes n => let '(l, off) := times_slots (Z.to_nat n) idx off 8 in (l, (idx, off))
  | DoAdd n => ([(idx, off)], (idx, u64 (off + (n + 8))))
  | DoTimesSkipping count skip => let '(l, off) := times_slots (Z.to_nat count) idx off (skip + 8) in (l, (idx, off))
  end.

Fixpoint ops_slots (l : list rebase_op) (idx off : Z) : list (Z * Z) :=
  match l with
  | [] => []
  | o :: l => let '(s, (idx, off)) := op_slots o idx off in s ++ ops_slots l idx off
  end.

(** Their addresses: slots of segments the image does not have are skipped. *)
Definition slot_addresses (l : list (Z * Z)) : list Z := omap (fun '(idx, off) => slot_address idx off) l.

Definition slide_slot (m : bytemem) (a : Z) : bytemem := store 8 a (u64 (load 8 a m + slide)) m.

(** ** Running an encoded program *)

#[local] Arguments uleb128 : simpl never.
#[local] Arguments u64 : simpl never.

Lemma times_run n step s :
  let '(l, off) := times_slots n (seg_index s) (seg_offset s) step in
  rebase_times n step s =
  mk_rb (fold_left slide_slot (slot_addresses l) (rmem s)) (applied s + Z.of_nat (length (slot_addresses l)))
        (seg_index s) off (ptr s).
Proof.
  revert s. induction n as [|n IH]; intros s; cbn [times_slots rebase_times].
  - cbn. rewrite Z.add_0_r. by destruct s.
  - set (s1 := advance step (rebase_here s)). specialize (IH s1).
    assert (E : seg_index s1 = seg_index s /\ seg_offset s1 = u64 (seg_offset s + step) /\ ptr s1 = ptr s).
    { unfold s1, rebase_here. by destruct (slot_address _ _). }
    destruct E as (E1&E2&E3). rewrite E1, E2, E3 in IH. destruct (times_slots n _ _ _) as [l off]. rewrite IH. clear IH.
    unfold s1, rebase_here, slot_addresses; cbn [omap list_omap]. destruct (slot_address (seg_index s) (seg_offset s)); cbn.
    + f_equal. lia.
    + done.
Qed.

Lemma slide_slots_out l m x :
  Forall (fun a => ~ a <= x < a + 8) l -> fold_left slide_slot l m x = m x.
Proof.
  intros H. revert m. induction H as [|a l Ha H IH]; intros m; [done|]. cbn [fold_left]. rewrite IH.
  unfold slide_slot. by rewrite store_out by lia.
Qed.

(** The stream [lo .. hi) is not among the slots. *)
Definition stream_apart (lo hi : Z) (l : list Z) : Prop := Forall (fun a => a + 8 <= lo \/ hi <= a) l.

Lemma bytes_at_slid lo hi l m p bs :
  stream_apart lo hi l -> lo <= p -> p + Z.of_nat (length bs) <= hi ->
  bytes_at m p bs -> bytes_at (fold_left slide_slot l m) p bs.
Proof.
  intros Hl Hp Hh Hb i b Hi. pose proof (lookup_lt_Some _ _ _ Hi). rewrite slide_slots_out; [by apply Hb|].
  eapply Forall_impl; [exact Hl|]. intros a Ha. cbn in Ha. lia.
Qed.

Lemma nibbles k i :
  0 <= k < 16 -> 0 <= i < 16 -> (16 * k + i) .& 0xF0 = 16 * k /\ (16 * k + i) .& 0x0F = i.
Proof.
  intros Hk Hi.
  assert (H : forallb (fun k => forallb (fun i => ((16 * k + i) .& 0xF0 =? 16 * k) && ((16 * k + i) .& 0x0F =? i)) (seqZ 0 16)) (seqZ 0 16) = true)
    by reflexivity.
  rewrite forallb_forall in H. specialize (H k ltac:(apply list_elem_of_In, elem_of_seqZ; lia)).
  rewrite forallb_forall in H. specialize (H i ltac:(apply list_elem_of_In, elem_of_seqZ; lia)).
  apply andb_prop in H as [H1 H2]. by apply Z.eqb_eq in H1, H2.
Qed.

(** The state after an operation. *)
Definition after (o : rebase_op) (s : rb) : rb :=
  let '(l, (idx, off)) := op_slots o (seg_index s) (seg_offset s) in
  mk_rb (fold_left slide_slot (slot_addresses l) (rmem s)) (applied s + Z.of_nat (length (slot_addresses l)))
        idx off (ptr s + Z.of_nat (length (encode_op o))).

#[local] Ltac head Hhd k i Hb := destruct (Hhd k i _ ltac:(lia) ltac:(unfold is_imm in *; lia) Hb) as [-> ->]; 
  cbn [at_ptr rmem applied seg_index seg_offset ptr Z.mul Pos.mul Z.eqb Pos.eqb].
#[local] Ltac finish := unfold at_ptr, advance; cbn; rewrite ?Z.add_0_r; do 3 f_equal; lia.

Lemma step_encoded lo limit o s rest :
  op_ok o -> bytes_at (rmem s) (ptr s) (encode_op o ++ rest) ->
  lo <= ptr s -> ptr s + Z.of_nat (length (encode_op o)) <= limit ->
  stream_apart lo limit (slot_addresses (fst (op_slots o (seg_index s) (seg_offset s)))) ->
  rebase_step limit s = Some (false, after o s).
Proof.
  intros Hok Hb Hlo Hl Hap. unfold rebase_step, after.
  assert (Hhd : forall k i bs, 0 <= k < 16 -> 0 <= i < 16 -> bytes_at (rmem s) (ptr s) ((16 * k + i) :: bs) ->
    (rmem s (ptr s) mod 256) .& REBASE_OPCODE_MASK = 16 * k /\ (rmem s (ptr s) mod 256) .& REBASE_IMMEDIATE_MASK = i).
  { intros k i bs Hk Hi H. apply bytes_at_cons in H as [-> _]. by apply nibbles. }
  assert (Hu : forall b v bs, is_u64 v -> bytes_at (rmem s) (ptr s) (b :: uleb128 v ++ bs) ->
    ptr s + 1 + Z.of_nat (length (uleb128 v)) <= limit ->
    read_uleb128 (rmem s) (ptr s + 1) limit = (v, ptr s + 1 + Z.of_nat (length (uleb128 v)))).
  { intros b v bs Hv H Hlim. apply bytes_at_cons in H as [_ H]. by eapply read_uleb128_emitted. }
  destruct o as [imm|idx off|n|imm|imm|n|n|count skip]; cbn [op_ok encode_op app length op_slots fst] in *.
  - head Hhd 1 imm Hb. finish.
  - destruct Hok as [Hi Ho]. head Hhd 2 idx Hb. rewrite (Hu _ _ _ Ho Hb) by lia. finish.
  - head Hhd 3 0 Hb. rewrite (Hu _ _ _ Hok Hb) by lia. finish.
  - head Hhd 4 imm Hb. finish.
  - head Hhd 5 imm Hb. pose proof (times_run (Z.to_nat imm) 8 (at_ptr (ptr s + 1) s)) as Ht. cbn [at_ptr seg_index seg_offset rmem applied ptr] in Ht.
    destruct (times_slots _ _ _ _) as [l off]. unfold at_ptr in *. by rewrite Ht.
  - head Hhd 6 0 Hb. rewrite (Hu _ _ _ Hok Hb) by lia. cbn [fst snd].
    pose proof (times_run (Z.to_nat n) 8 (at_ptr (ptr s + 1 + Z.of_nat (length (uleb128 n))) (at_ptr (ptr s + 1) s))) as Ht.
    cbn [at_ptr seg_index seg_offset rmem applied ptr] in Ht. destruct (times_slots _ _ _ _) as [l off]. unfold at_ptr in *. cbn in Ht |- *.
    rewrite Ht. do 3 f_equal. lia.
  - head Hhd 7 0 Hb. 
    assert (Hr : read_uleb128 (rmem (rebase_here (at_ptr (ptr s + 1) s))) (ptr s + 1) limit = (n, ptr s + 1 + Z.of_nat (length (uleb128 n)))).
    { apply bytes_at_cons in Hb as [_ Hb]. apply bytes_at_app in Hb as [Hb _].
      apply (read_uleb128_emitted n _ _ limit []); [done|rewrite app_nil_r|lia].
      unfold rebase_here. cbn [at_ptr seg_index seg_offset rmem]. cbn [slot_addresses omap list_omap] in Hap.
      destruct (slot_address (seg_index s) (seg_offset s)) as [a|]; cbn [rmem]; [|exact Hb].
      change (store 8 a _ (rmem s)) with (fold_left slide_slot [a] (rmem s)).
      eapply bytes_at_slid; [exact Hap|lia|lia|done]. }
    unfold slot_addresses. cbn [omap list_omap]. unfold rebase_here, at_ptr in *. cbn [seg_index seg_offset rmem ptr applied] in *.
    destruct (slot_address (seg_index s) (seg_offset s)) as [a|]; cbn [ptr rmem seg_index seg_offset applied] in *; rewrite Hr; finish.
  - destruct Hok as [Hc Hs]. head Hhd 8 0 Hb. rewrite <- app_assoc in Hb. rewrite length_app in Hl.
    rewrite (Hu _ _ _ Hc Hb) by lia. cbn [fst snd]. apply bytes_at_cons in Hb as [_ Hb]. apply bytes_at_app in Hb as [_ Hb].
    unfold read_uleb128. cbn [at_ptr rmem]. rewrite (read_uleb128_emitted skip _ _ limit rest Hs Hb) by lia.
    pose proof (times_run (Z.to_nat count) (skip + 8)
      (at_ptr (ptr s + 1 + Z.of_nat (length (uleb128 count)) + Z.of_nat (length (uleb128 skip))) (at_ptr (ptr s + 1) s))) as Ht.
    cbn [at_ptr seg_index seg_offset rmem applied ptr] in Ht. destruct (times_slots _ _ _ _) as [l off]. unfold at_ptr in *. cbn in Ht |- *.
    rewrite Ht, length_app. do 3 f_equal. lia.
Qed.

Lemma encode_op_length o : (1 <= length (encode_op o))%nat.
Proof. destruct o; cbn; lia. Qed.

(** The whole program, to its DONE byte. *)
Lemma loop_encoded lo limit ops s fuel :
  Forall op_ok ops -> bytes_at (rmem s) (ptr s) (encode_ops ops ++ [REBASE_OPCODE_DONE]) ->
  lo <= ptr s -> ptr s + Z.of_nat (length (encode_ops ops)) + 1 <= limit -> limit - ptr s <= Z.of_nat fuel ->
  stream_apart lo limit (slot_addresses (ops_slots ops (seg_index s) (seg_offset s))) ->
  exists s', rebase_loop fuel limit s = Some s' /\
    rmem s' = fold_left slide_slot (slot_addresses (ops_slots ops (seg_index s) (seg_offset s))) (rmem s) /\
    applied s' = applied s + Z.of_nat (length (slot_addresses (ops_slots ops (seg_index s) (seg_offset s)))).
Proof.
  intros Hok. revert s fuel. induction Hok as [|o ops Ho Hok IH]; intros s fuel Hb Hlo Hl Hf Hap.
  - destruct fuel as [|fuel]; [cbn in Hl; lia|]. cbn [rebase_loop]. cbn in Hl. destruct (Z.ltb_spec (ptr s) limit); [|lia].
    cbn in Hb. apply bytes_at_cons in Hb as [Hb _]. unfold rebase_step. rewrite Hb. eexists. split; [reflexivity|].
    cbn. split; [done|lia].
  - cbn [encode_ops flat_map ops_slots] in *. fold (encode_ops ops) in *. rewrite <- app_assoc in Hb. rewrite length_app in Hl.
    pose proof (encode_op_length o) as Hlen.
    destruct fuel as [|fuel]; [lia|]. cbn [rebase_loop]. destruct (Z.ltb_spec (ptr s) limit); [|lia].
    assert (Hap1 : stream_apart lo limit (slot_addresses (fst (op_slots o (seg_index s) (seg_offset s))))).
    { unfold stream_apart, slot_addresses in *. destruct (op_slots o _ _) as [l [idx off]]. rewrite omap_app in Hap.
      by apply Forall_app in Hap as [Hap _]. }
    rewrite (step_encoded lo limit o s _ Ho Hb Hlo ltac:(lia) Hap1). unfold after in *.
    destruct (op_slots o (seg_index s) (seg_offset s)) as [l [idx off]] eqn:Eo. cbn [fst] in Hap1.
    unfold slot_addresses in Hap |- *. rewrite omap_app in Hap |- *. apply Forall_app in Hap as [_ Hap2].
    edestruct IH as (s'&Hs'&Hm&Ha); [| | | | |exists s'; split; [exact Hs'|]]; cbn [rmem ptr seg_index seg_offset applied] in *.
    + apply bytes_at_app in Hb as [_ Hb]. eapply bytes_at_slid; [exact Hap1|lia| |exact Hb]. rewrite length_app. cbn. lia.
    + lia.
    + lia.
    + lia.
    + exact Hap2.
    + rewrite fold_left_app, length_app. split; [exact Hm|]. rewrite Ha. unfold slot_addresses. lia.
Qed.

Definition slots_apart (a b : Z) : Prop := a + 8 <= b \/ b + 8 <= a.

Lemma slide_slots_value l m :
  ForallOrdPairs slots_apart l -> Forall (fun a => load 8 a (fold_left slide_slot l m) = u64 (load 8 a m + slide)) l.
Proof.
  intros H. revert m. induction H as [|a l Ha H IH]; intros m; [constructor|]. cbn [fold_left]. constructor.
  - rewrite (load_ext 8 a _ (slide_slot m a)).
    + unfold slide_slot. rewrite load_store_same by lia. apply Z.mod_small, u64_range.
    + intros x Hx. apply slide_slots_out. eapply Forall_impl; [exact Ha|]. intros b Hb. unfold slots_apart in Hb. lia.
  - apply Forall_forall. intros b Hb. rewrite (proj1 (Forall_forall _ _) (IH (slide_slot m a)) b Hb).
    pose proof (proj1 (Forall_forall _ _) Ha b Hb) as Hab. do 2 f_equal. apply load_store_disj.
    unfold slots_apart in Hab. lia.
Qed.

Lemma process_encoded p size m ops :
  p <> 0 -> Forall op_ok ops -> bytes_at m p (encode_ops ops ++ [REBASE_OPCODE_DONE]) ->
  Z.of_nat (length (encode_ops ops)) + 1 <= size ->
  stream_apart p (p + size) (slot_addresses (ops_slots ops 0 0)) ->
  process_rebases p size m =
  Some (fold_left slide_slot (slot_addresses (ops_slots ops 0 0)) m, Z.of_nat (length (slot_addresses (ops_slots ops 0 0)))).
Proof.
  intros Hp Hok Hb Hs Hap. unfold process_rebases. destruct (Z.leb_spec size 0); [lia|]. destruct (Z.eqb_spec p 0); [done|].
  destruct (loop_encoded p (p + size) ops (mk_rb m 0 0 0 p) (Z.to_nat size)) as (s'&->&Hm&Ha); cbn; try done; try lia.
  cbn in Hm, Ha. by rewrite Hm, Ha.
Qed.
End rebase.

(** C30. Rebase opcodes.  For every program of rebase operations, written in
    its byte encoding and ended by DONE: the interpreter reads it to the end,
    adds the slide to exactly the pointers the program lists (each once, when
    they do not overlap), counts them, and changes no other byte. *)
Theorem rebase_program_applied segments slide p size m ops :
  let slots := slot_addresses segments slide (ops_slots ops 0 0) in
  p <> 0 -> Forall op_ok ops -> bytes_at m p (encode_ops ops ++ [REBASE_OPCODE_DONE]) ->
  Z.of_nat (length (encode_ops ops)) + 1 <= size ->
  stream_apart p (p + size) slots -> ForallOrdPairs slots_apart slots ->
  exists m', process_rebases segments slide p size m = Some (m', Z.of_nat (length slots)) /\
    Forall (fun a => load 8 a m' = u64 (load 8 a m + slide)) slots /\
    forall x, Forall (fun a => ~ a <= x < a + 8) slots -> m' x = m x.
Proof.
  intros slots Hp Hok Hb Hs Hap Hd. exists (fold_left (slide_slot slide) slots m). split; [by apply process_encoded|].
  split; [by apply slide_slots_value|]. intros x Hx. by apply slide_slots_out.
Qed.

Definition sample_program : list rebase_op :=
  [SetType 1; SetSegment 1 0x10; DoTimesImm 2; AddAddr 0x300; DoTimesSkipping 2 8; DoAdd 16; DoTimes 1].

Lemma rebase_program_applied_witness :
  let m := place 0x9000 (encode_ops sample_program ++ [REBASE_OPCODE_DONE]) (fun _ => 0) in
  let slots := slot_addresses [0; 0x4000] 0x1000 (ops_slots sample_program 0 0) in
  slots = [0x5010; 0x5018; 0x5320; 0x5330; 0x5340; 0x5358] /\
  exists m', process_rebases [0; 0x4000] 0x1000 0x9000 32 m = Some (m', Z.of_nat (length slots)) /\
    Forall (fun a => load 8 a m' = u64 (load 8 a m + 0x1000)) slots /\
    forall x, Forall (fun a => ~ a <= x < a + 8) slots -> m' x = m x.
Proof.
  intros m slots. split; [reflexivity|].
  refine (rebase_program_applied [0; 0x4000] 0x1000 0x9000 32 m sample_program _ _ _ _ _ _).
  - done.
  - repeat constructor; cbn; unfold is_imm, is_u64; lia.
  - apply place_bytes_at. apply (bool_decide_unpack _). by vm_compute.
  - vm_compute. discriminate.
  - apply (bool_decide_unpack _). by vm_compute.
  - change (ForallOrdPairs slots_apart [0x5010; 0x5018; 0x5320; 0x5330; 0x5340; 0x5358]).
    repeat (apply FOP_cons; [repeat (apply List.Forall_cons; [unfold slots_apart; lia|]); apply List.Forall_nil|]). apply FOP_nil.
Defined.
End DyldRebase.
