(* ===== verification/DyldBind.v ===== *)
(** * LC_DYLD_INFO bind opcodes: src/resolver.c, process_dyld_info (second half)

    A byte-coded program whose effect is a sequence of bind requests; three
    streams (regular, weak, lazy) are run one after the other.  The streams
    are read from the image's memory while it is patched.  What a request does
    is a parameter here. *)

From S2P Require Import Prelude CStr Leb128.

Module DyldBind.

Definition BIND_OPCODE_MASK : Z := 0xF0.
Definition BIND_IMMEDIATE_MASK : Z := 0x0F.
Definition BIND_OPCODE_DONE : Z := 0x00.
Definition BIND_OPCODE_SET_DYLIB_ORDINAL_IMM : Z := 0x10.
Definition BIND_OPCODE_SET_DYLIB_ORDINAL_ULEB : Z := 0x20.
Definition BIND_OPCODE_SET_DYLIB_SPECIAL_IMM : Z := 0x30.
Definition BIND_OPCODE_SET_SYMBOL_TRAILING_FLAGS_IMM : Z := 0x40.
Definition BIND_OPCODE_SET_TYPE_IMM : Z := 0x50.
Definition BIND_OPCODE_SET_ADDEND_SLEB : Z := 0x60.
Definition BIND_OPCODE_SET_SEGMENT_AND_OFFSET_ULEB : Z := 0x70.
Definition BIND_OPCODE_ADD_ADDR_ULEB : Z := 0x80.
Definition BIND_OPCODE_DO_BIND : Z := 0x90.
Definition BIND_OPCODE_DO_BIND_ADD_ADDR_ULEB : Z := 0xA0.
Definition BIND_OPCODE_DO_BIND_ADD_ADDR_IMM_SCALED : Z := 0xB0.
Definition BIND_OPCODE_DO_BIND_ULEB_TIMES_SKIPPING_ULEB : Z := 0xC0.
Definition BIND_SYMBOL_FLAGS_WEAK_IMPORT : Z := 0x01.

(** The arguments of [do_bind_one]. *)
Record request := mk_req { rq_seg : Z; rq_offset : Z; rq_ordinal : Z; rq_sym : cstr; rq_weak : bool; rq_addend : Z }.

Section interpreter.
Context {S : Type} (mem_of : S -> bytemem) (bind_one : request -> S -> option S).

(** [read_uleb128] and [read_sleb128]: the loops of eh_frame.c's readers. *)
Definition read_uleb128 (m : bytemem) (p limit : Z) : Z * Z := eh_read_uleb128 m p limit.
Definition read_sleb128 (m : bytemem) (p limit : Z) : Z * Z := eh_read_sleb128 m p limit.

(** The local variables of the loop; [sym_name] points into the stream, [None]
    is the initial empty string. *)
Record regs := mk_regs {
  seg_index : Z; seg_offset : Z; lib_ordinal : Z; sym_name : option Z; sym_flags : Z; addend : Z;
}.
Definition regs0 : regs := mk_regs 0 0 0 None 0 0.

Definition set_ordinal (o : Z) (r : regs) : regs := mk_regs (seg_index r) (seg_offset r) o (sym_name r) (sym_flags r) (addend r).
Definition set_symbol (p flags : Z) (r : regs) : regs := mk_regs (seg_index r) (seg_offset r) (lib_ordinal r) (Some p) flags (addend r).
Definition set_addend (a : Z) (r : regs) : regs := mk_regs (seg_index r) (seg_offset r) (lib_ordinal r) (sym_name r) (sym_flags r) a.
Definition set_segment (i o : Z) (r : regs) : regs := mk_regs i o (lib_ordinal r) (sym_name r) (sym_flags r) (addend r).
Definition advance (n : Z) (r : regs) : regs := set_segment (seg_index r) (u64 (seg_offset r + n)) r.

(** Strings of a stream end inside it. *)
Definition name_of (m : bytemem) (limit : Z) (r : regs) : cstr :=
  match sym_name r with Some p => c_string (Z.to_nat (limit - p)) p m | None => [] end.

Definition bind_here (limit : Z) (r : regs) (s : S) : option S :=
  bind_one (mk_req (seg_index r) (seg_offset r) (lib_ordinal r) (name_of (mem_of s) limit r)
              (nz (sym_flags r .& BIND_SYMBOL_FLAGS_WEAK_IMPORT)) (addend r)) s.

Fixpoint bind_times (n : nat) (step limit : Z) (r : regs) (s : S) : option (regs * S) :=
  match n with
  | O => Some (r, s)
  | Datatypes.S n => match bind_here limit r s with Some s => bind_times n step limit (advance step r) s | None => None end
  end.

(** One opcode: [Undefined] is undefined behaviour of a bind, [Unknown] an
    opcode the interpreter rejects. *)
Inductive outcome := Undefined | Unknown | Next (finished : bool) (p : Z) (r : regs) (s : S).

Definition then_next (p : Z) (o : option (regs * S)) : outcome :=
  match o with Some (r, s) => Next false p r s | None => Undefined end.

Definition bind_step (lazy : bool) (limit p : Z) (r : regs) (s : S) : outcome :=
  let byte := mem_of s p mod 256 in
  let opcode := byte .& BIND_OPCODE_MASK in
  let imm := byte .& BIND_IMMEDIATE_MASK in
  let p := p + 1 in
  let uleb := read_uleb128 (mem_of s) p limit in
  if opcode =? BIND_OPCODE_DONE then Next (negb lazy) p r s
  else if opcode =? BIND_OPCODE_SET_DYLIB_ORDINAL_IMM then Next false p (set_ordinal imm r) s
  else if opcode =? BIND_OPCODE_SET_DYLIB_ORDINAL_ULEB then Next false (snd uleb) (set_ordinal (i32 (fst uleb)) r) s
  else if opcode =? BIND_OPCODE_SET_DYLIB_SPECIAL_IMM then
    Next false p (set_ordinal (if imm =? 0 then 0 else signed 8 (BIND_OPCODE_MASK .| imm)) r) s
  else if opcode =? BIND_OPCODE_SET_SYMBOL_TRAILING_FLAGS_IMM then
    Next false (p + Z.of_nat (length (c_string (Z.to_nat (limit - p)) p (mem_of s))) + 1) (set_symbol p imm r) s
  else if opcode =? BIND_OPCODE_SET_TYPE_IMM then Next false p r s
  else if opcode =? BIND_OPCODE_SET_ADDEND_SLEB then
    let '(a, p) := read_sleb128 (mem_of s) p limit in Next false p (set_addend a r) s
  else if opcode =? BIND_OPCODE_SET_SEGMENT_AND_OFFSET_ULEB then Next false (snd uleb) (set_segment imm (fst uleb) r) s
  else if opcode =? BIND_OPCODE_ADD_ADDR_ULEB then Next false (snd uleb) (advance (fst uleb) r) s
  else if opcode =? BIND_OPCODE_DO_BIND then then_next p (bind_times 1 8 limit r s)
  else if opcode =? BIND_OPCODE_DO_BIND_ADD_ADDR_ULEB then
    match bind_here limit r s with
    | None => Undefined
    | Some s => let '(n, p) := read_uleb128 (mem_of s) p limit in Next false p (advance (n + 8) r) s
    end
  else if opcode =? BIND_OPCODE_DO_BIND_ADD_ADDR_IMM_SCALED then then_next p (bind_times 1 (imm * 8 + 8) limit r s)
  else if opcode =? BIND_OPCODE_DO_BIND_ULEB_TIMES_SKIPPING_ULEB then
    let '(skip, p) := read_uleb128 (mem_of s) (snd uleb) limit in
    then_next p (bind_times (Z.to_nat (fst uleb)) (skip + 8) limit r s)
  else Unknown.

(** [while (p < end && !done)]: every round reads at least one byte. *)
Fixpoint bind_loop (fuel : nat) (lazy : bool) (limit p : Z) (r : regs) (s : S) : outcome :=
  match fuel with
  | O => Next true p r s
  | Datatypes.S fuel =>
      if p <? limit then
        match bind_step lazy limit p r s with
        | Next false p r s => bind_loop fuel lazy limit p r s
        | o => o
        end
      else Next true p r s
  end.

(** A pass over a stream at [p], 0 when it is not mapped: [inl] is -1. *)
Definition bind_pass (lazy : bool) (p size : Z) (s : S) : option (unit + S) :=
  if size =? 0 then Some (inr s)
  else if p =? 0 then Some (inl tt)
  else match bind_loop (Z.to_nat size) lazy (p + size) p regs0 s with
       | Undefined => None
       | Unknown => Some (inl tt)
       | Next _ _ _ s => Some (inr s)
       end.

(** The passes in order; an error ends them. *)
Fixpoint bind_passes (l : list (bool * Z * Z)) (s : S) : option (unit + S) :=
  match l with
  | [] => Some (inr s)
  | (lazy, p, size) :: l =>
      match bind_pass lazy p size s with
      | Some (inr s) => bind_passes l s
      | o => o
      end
  end.

Definition process_binds (bind weak_bind lazy_bind : Z * Z) (s : S) : option (unit + S) :=
  bind_passes [(false, fst bind, snd bind); (false, fst weak_bind, snd weak_bind); (true, fst lazy_bind, snd lazy_bind)] s.
End interpreter.

(** ** The program as data *)

Inductive bind_op :=
| Done | SetOrdinalImm (imm : Z) | SetOrdinal (n : Z) | SetSpecial (imm : Z) | SetSymbol (flags : Z) (name : cstr)
| SetType (imm : Z) | SetAddend (a : Z) | SetSegment (idx off : Z) | AddAddr (n : Z)
| Bind | BindAdd (n : Z) | BindScaled (imm : Z) | BindTimes (count skip : Z).

Definition is_imm (x : Z) : Prop := 0 <= x < 16.
Definition is_u64 (x : Z) : Prop := 0 <= x < 2 ^ 64.
Definition no_nul (s : cstr) : Prop := Forall (fun c => code c <> 0) s.

(** [Done] inside a program: lazy streams only. *)
Definition op_ok (lazy : bool) (o : bind_op) : Prop :=
  match o with
  | Done => lazy = true
  | SetOrdinalImm imm | SetSpecial imm | SetType imm | BindScaled imm => is_imm imm
  | SetOrdinal n | AddAddr n | BindAdd n => is_u64 n
  | SetSymbol flags name => is_imm flags /\ no_nul name
  | SetAddend a => - 2 ^ 63 <= a < 2 ^ 63
  | SetSegment idx off => is_imm idx /\ is_u64 off
  | Bind => True
  | BindTimes count skip => is_u64 count /\ is_u64 skip
  end.

Definition encode_op (o : bind_op) : list Z :=
  match o with
  | Done => [0x00]
  | SetOrdinalImm imm => [0x10 + imm]
  | SetOrdinal n => 0x20 :: uleb128 n
  | SetSpecial imm => [0x30 + imm]
  | SetSymbol flags name => (0x40 + flags) :: map code name ++ [0]
  | SetType imm => [0x50 + imm]
  | SetAddend a => 0x60 :: sleb128 a
  | SetSegment idx off => (0x70 + idx) :: uleb128 off
  | AddAddr n => 0x80 :: uleb128 n
  | Bind => [0x90]
  | BindAdd n => 0xA0 :: uleb128 n
  | BindScaled imm => [0xB0 + imm]
  | BindTimes count skip => 0xC0 :: uleb128 count ++ uleb128 skip
  end.
Definition encode_ops (l : list bind_op) : list Z := flat_map encode_op l.

(** Operations on the request that is being put together. *)
Definition to_offset (f : Z -> Z) (q : request) : request :=
  mk_req (rq_seg q) (u64 (f (rq_offset q))) (rq_ordinal q) (rq_sym q) (rq_weak q) (rq_addend q).

Fixpoint times (n : nat) (step : Z) (q : request) : list request * request :=
  match n with
  | O => ([], q)
  | S n => let '(l, q') := times n step (to_offset (fun o => o + step) q) in (q :: l, q')
  end.

Definition special_ordinal (imm : Z) : Z := if imm =? 0 then 0 else imm - 16.

(** The requests of an operation, and what it leaves for the next one. *)
Definition op_requests (o : bind_op) (q : request) : list request * request :=
  match o with
  | Done | SetType _ => ([], q)
  | SetOrdinalImm n => ([], mk_req (rq_seg q) (rq_offset q) n (rq_sym q) (rq_weak q) (rq_addend q))
  | SetOrdinal n => ([], mk_req (rq_seg q) (rq_offset q) (i32 n) (rq_sym q) (rq_weak q) (rq_addend q))
  | SetSpecial imm => ([], mk_req (rq_seg q) (rq_offset q) (special_ordinal imm) (rq_sym q) (rq_weak q) (rq_addend q))
  | SetSymbol flags name => ([], mk_req (rq_seg q) (rq_offset q) (rq_ordinal q) name (Z.odd flags) (rq_addend q))
  | SetAddend a => ([], mk_req (rq_seg q) (rq_offset q) (rq_ordinal q) (rq_sym q) (rq_weak q) a)
  | SetSegment idx off => ([], mk_req idx off (rq_ordinal q) (rq_sym q) (rq_weak q) (rq_addend q))
  | AddAddr n => ([], to_offset (fun o => o + n) q)
  | Bind => times 1 8 q
  | BindAdd n => times 1 (n + 8) q
  | BindScaled imm => times 1 (imm * 8 + 8) q
  | BindTimes count skip => times (Z.to_nat count) (skip + 8) q
  end.

Fixpoint requests (l : list bind_op) (q : request) : list request :=
  match l with [] => [] | o :: l => let '(rs, q) := op_requests o q in rs ++ requests l q end.

Definition no_request : request := mk_req 0 0 0 [] false 0.
End DyldBind.
