(* ===== verification/DyldBindRun.v ===== *)
(** * Running an encoded bind program *)

From S2P Require Import Prelude CStr Leb128 DyldRebase DyldBind.
Import DyldBind.

Lemma c_string_bytes name n m p rest :
  no_nul name -> bytes_at m p (map code name ++ 0 :: rest) -> (length name < n)%nat -> c_string n p m = name.
Proof.
  intros Hn. revert n p. induction Hn as [|c name Hc Hn IH]; intros n p Hb Hlt; (destruct n as [|n]; [cbn in Hlt; lia|]);
    cbn [map app length c_string] in *; apply bytes_at_cons in Hb as [-> Hb].
  - done.
  - destruct (Z.eqb_spec (code c) 0); [done|]. unfold code in *. rewrite Nat2Z.id, ascii_nat_embedding. f_equal.
    apply IH; [done|lia].
Qed.

Section run.
Context {S : Type} (mem_of : S -> bytemem) (bind_one : request -> S -> option S) (inv : S -> Prop) (lo limit : Z).

(** The bytes of the stream are the same. *)
Definition stream_same (m m' : bytemem) : Prop := forall x, lo <= x < limit -> m' x = m x.

(** In a state with the invariant, serving [q] keeps it and leaves the stream
    alone. *)
Definition leaves_stream (q : request) : Prop :=
  forall s s', inv s -> bind_one q s = Some s' -> inv s' /\ stream_same (mem_of s) (mem_of s').

Fixpoint run_requests (l : list request) (s : S) : option S :=
  match l with [] => Some s | q :: l => match bind_one q s with Some s => run_requests l s | None => None end end.

Lemma run_requests_app l1 l2 s :
  run_requests (l1 ++ l2) s = match run_requests l1 s with Some s => run_requests l2 s | None => None end.
Proof. revert s. induction l1 as [|q l1 IH]; intros s; [done|]. cbn. destruct (bind_one q s); [apply IH|done]. Qed.

Lemma run_requests_inv l s s' : Forall leaves_stream l -> inv s -> run_requests l s = Some s' -> inv s'.
Proof.
  intros Hl. revert s. induction Hl as [|q l Hq Hl IH]; intros s Hi Hr; cbn in Hr; [by injection Hr as <-|].
  destruct (bind_one q s) as [s1|] eqn:E; [|done]. apply (IH s1); [|done]. by apply (Hq s s1 Hi E).
Qed.

Lemma bytes_at_same m m' p l :
  stream_same m m' -> lo <= p -> p + Z.of_nat (length l) <= limit -> bytes_at m p l -> bytes_at m' p l.
Proof.
  intros Hs Hp Hl Hb i b Hi. pose proof (lookup_lt_Some _ _ _ Hi). rewrite Hs by lia. by apply Hb.
Qed.

(** The registers hold the parts of the request. *)
Record means (m : bytemem) (r : regs) (q : request) : Prop := {
  mn_seg : seg_index r = rq_seg q; mn_offset : seg_offset r = rq_offset q; mn_ordinal : lib_ordinal r = rq_ordinal q;
  mn_weak : nz (sym_flags r .& BIND_SYMBOL_FLAGS_WEAK_IMPORT) = rq_weak q; mn_addend : addend r = rq_addend q;
  mn_sym : match sym_name r with
           | None => rq_sym q = []
           | Some p => bytes_at m p (map code (rq_sym q) ++ [0]) /\ lo <= p /\
                       p + Z.of_nat (length (rq_sym q)) < limit /\ no_nul (rq_sym q)
           end;
}.

Lemma means_same m m' r q : stream_same m m' -> means m r q -> means m' r q.
Proof.
  intros Hs [H1 H2 H3 H4 H5 H6]. constructor; try done. destruct (sym_name r); [|done]. destruct H6 as (Hb&Hl&Hr&Hn).
  split; [|done]. eapply bytes_at_same; [done|done| |done]. rewrite length_app, length_map. cbn. lia.
Qed.

Lemma means_request m r q :
  means m r q ->
  mk_req (seg_index r) (seg_offset r) (lib_ordinal r) (name_of m limit r)
         (nz (sym_flags r .& BIND_SYMBOL_FLAGS_WEAK_IMPORT)) (addend r) = q.
Proof.
  intros [-> -> -> -> -> H6]. unfold name_of. destruct q as [? ? ? sym ? ?]. cbn in *. f_equal.
  destruct (sym_name r) as [p|]; [|done]. destruct H6 as (Hb&Hl&Hr&Hn). eapply c_string_bytes; [done|exact Hb|lia].
Qed.

Lemma means_advance m r q n : means m r q -> means m (advance n r) (to_offset (fun o => o + n) q).
Proof. intros [H1 H2 H3 H4 H5 H6]. constructor; cbn; try done. by rewrite H2. Qed.

Lemma bind_times_run n step r q s s' :
  inv s -> means (mem_of s) r q -> Forall leaves_stream (fst (times n step q)) -> run_requests (fst (times n step q)) s = Some s' ->
  exists r', bind_times mem_of bind_one n step limit r s = Some (r', s') /\
    means (mem_of s') r' (snd (times n step q)) /\ stream_same (mem_of s) (mem_of s').
Proof.
  revert r q s. induction n as [|n IH]; intros r q s Hi Hm Hl Hr; cbn [times bind_times] in *.
  - injection Hr as <-. exists r. split; [done|]. split; [done|by intros x Hx].
  - specialize (IH (advance step r) (to_offset (fun o => o + step) q)).
    destruct (times n step (to_offset (fun o => o + step) q)) as [l q']. cbn [fst snd run_requests] in *.
    unfold bind_here. rewrite (means_request _ _ _ Hm). apply Forall_cons in Hl as [Hq Hl].
    destruct (bind_one q s) as [s1|] eqn:E; [|done]. destruct (Hq _ _ Hi E) as [Hi1 Hs].
    destruct (IH s1) as (r'&E'&Hm'&Hs'); [done| |done|done|].
    { apply means_advance. by eapply means_same. }
    exists r'. split; [done|]. split; [done|]. intros x Hx. rewrite Hs' by done. by apply Hs.
Qed.

(** ** One operation *)

#[local] Arguments uleb128 : simpl never.
#[local] Arguments sleb128 : simpl never.
#[local] Arguments u64 : simpl never.

Lemma head_byte m p k i bs :
  0 <= k < 16 -> 0 <= i < 16 -> bytes_at m p ((16 * k + i) :: bs) ->
  (m p mod 256) .& BIND_OPCODE_MASK = 16 * k /\ (m p mod 256) .& BIND_IMMEDIATE_MASK = i.
Proof. intros Hk Hi H. apply bytes_at_cons in H as [-> _]. by apply DyldRebase.nibbles. Qed.

Lemma read_uleb_at m p b v bs :
  is_u64 v -> bytes_at m p (b :: uleb128 v ++ bs) -> p + 1 + Z.of_nat (length (uleb128 v)) <= limit ->
  read_uleb128 m (p + 1) limit = (v, p + 1 + Z.of_nat (length (uleb128 v))).
Proof. intros Hv H Hl. apply bytes_at_cons in H as [_ H]. by eapply read_uleb128_emitted. Qed.

Lemma special_imm imm : is_imm imm -> imm <> 0 -> signed 8 (BIND_OPCODE_MASK .| imm) = imm - 16.
Proof.
  intros Hi Hn.
  assert (H : forallb (fun i => signed 8 (0xF0 .| i) =? i - 16) (seqZ 1 15) = true) by reflexivity.
  rewrite forallb_forall in H. apply Z.eqb_eq. unfold is_imm in Hi. apply H, list_elem_of_In, elem_of_seqZ. lia.
Qed.

Lemma next_eq f p p' r (s : S) : p = p' -> Next f p r s = Next f p' r s.
Proof. by intros ->. Qed.

(** What a step leaves behind. *)
Definition stepped (o : bind_op) (lazy : bool) (p : Z) (r : regs) (q : request) (s s' : S) : Prop :=
  exists r', bind_step mem_of bind_one lazy limit p r s = Next false (p + Z.of_nat (length (encode_op o))) r' s' /\
    means (mem_of s') r' (snd (op_requests o q)) /\ stream_same (mem_of s) (mem_of s').

Ltac head k i Hb :=
  let E1 := fresh in let E2 := fresh in
  destruct (head_byte _ _ k i _ ltac:(lia) ltac:(unfold is_imm in *; lia) Hb) as [E1 E2];
  unfold stepped, bind_step; rewrite E1, E2; clear E1 E2;
  unfold BIND_OPCODE_DONE, BIND_OPCODE_SET_DYLIB_ORDINAL_IMM, BIND_OPCODE_SET_DYLIB_ORDINAL_ULEB, BIND_OPCODE_SET_DYLIB_SPECIAL_IMM,
    BIND_OPCODE_SET_SYMBOL_TRAILING_FLAGS_IMM, BIND_OPCODE_SET_TYPE_IMM, BIND_OPCODE_SET_ADDEND_SLEB,
    BIND_OPCODE_SET_SEGMENT_AND_OFFSET_ULEB, BIND_OPCODE_ADD_ADDR_ULEB, BIND_OPCODE_DO_BIND, BIND_OPCODE_DO_BIND_ADD_ADDR_ULEB,
    BIND_OPCODE_DO_BIND_ADD_ADDR_IMM_SCALED, BIND_OPCODE_DO_BIND_ULEB_TIMES_SKIPPING_ULEB;
  repeat match goal with
         | |- context [16 * k =? ?b] => let v := eval vm_compute in (16 * k =? b) in change (16 * k =? b) with v
         end; cbv iota.
Ltac registers Hm := destruct Hm as [? ? ? ? ? ?]; constructor; cbn; auto; congruence.

Lemma step_setter o lazy p r q s rest :
  op_ok lazy o -> bytes_at (mem_of s) p (encode_op o ++ rest) -> lo <= p -> p + Z.of_nat (length (encode_op o)) <= limit ->
  means (mem_of s) r q -> fst (op_requests o q) = [] ->
  match o with Bind | BindAdd _ | BindScaled _ | BindTimes _ _ => False | _ => True end ->
  stepped o lazy p r q s s.
Proof.
  intros Hok Hb Hlo Hl Hm _ Hset. destruct o as [|imm|n|imm|flags name|imm|a|idx off|n| |n|imm|count skip]; try done;
    cbn [op_ok encode_op app length] in *.
  - subst lazy. head 0 0 Hb. exists r. split; [done|]. split; [done|by intros x Hx].
  - head 1 imm Hb. exists (set_ordinal imm r). split; [done|]. split; [registers Hm|by intros x Hx].
  - head 2 0 Hb. rewrite (read_uleb_at _ _ _ _ _ Hok Hb) by lia. exists (set_ordinal (i32 n) r).
    split; [apply next_eq; cbn; lia|]. split; [registers Hm|by intros x Hx].
  - head 3 imm Hb. exists (set_ordinal (special_ordinal imm) r).
    split; [|split; [registers Hm|by intros x Hx]]. unfold special_ordinal. destruct (Z.eqb_spec imm 0); [done|].
    by rewrite special_imm.
  - destruct Hok as [Hf Hn]. head 4 flags Hb. apply bytes_at_cons in Hb as [_ Hb]. rewrite <- app_assoc in Hb.
    rewrite length_app, length_map in Hl. cbn [length] in Hl.
    rewrite (c_string_bytes name _ _ _ rest Hn Hb) by lia. exists (set_symbol (p + 1) flags r).
    split; [apply next_eq; cbn [encode_op length]; rewrite length_app, length_map; cbn [length]; lia|]. split; [|by intros x Hx].
    destruct Hm as [? ? ? ? ? ?]. constructor; cbn; try done.
    + rewrite <- Z.bit0_odd. change BIND_SYMBOL_FLAGS_WEAK_IMPORT with (2 ^ 0). by apply nz_land_pow2.
    + change (map code name ++ [0] ++ rest) with (map code name ++ ([0] ++ rest)) in Hb. rewrite app_assoc in Hb.
      apply bytes_at_app in Hb as [Hb _]. split; [done|]. split; [lia|]. split; [lia|done].
  - head 5 imm Hb. exists r. split; [done|]. split; [done|by intros x Hx].
  - head 6 0 Hb. apply bytes_at_cons in Hb as [_ Hb]. unfold read_sleb128.
    rewrite (read_sleb128_emitted a _ _ limit rest Hok Hb) by lia. exists (set_addend a r).
    split; [apply next_eq; cbn [encode_op length]; lia|]. split; [registers Hm|by intros x Hx].
  - destruct Hok as [Hi Ho]. head 7 idx Hb. rewrite (read_uleb_at _ _ _ _ _ Ho Hb) by lia. exists (set_segment idx off r).
    split; [apply next_eq; cbn; lia|]. split; [registers Hm|by intros x Hx].
  - head 8 0 Hb. rewrite (read_uleb_at _ _ _ _ _ Hok Hb) by lia. exists (advance n r).
    split; [apply next_eq; cbn; lia|]. split; [by apply means_advance|by intros x Hx].
Qed.

Lemma step_binder o lazy p r q s s' rest :
  inv s -> op_ok lazy o -> bytes_at (mem_of s) p (encode_op o ++ rest) -> lo <= p -> p + Z.of_nat (length (encode_op o)) <= limit ->
  means (mem_of s) r q -> Forall leaves_stream (fst (op_requests o q)) ->
  run_requests (fst (op_requests o q)) s = Some s' ->
  match o with Bind | BindAdd _ | BindScaled _ | BindTimes _ _ => True | _ => False end ->
  stepped o lazy p r q s s'.
Proof.
  intros Hi Hok Hb Hlo Hl Hm Hleave Hr Hset. destruct o as [|imm|n|imm|flags name|imm|a|idx off|n| |n|imm|count skip]; try done;
    cbn [op_ok encode_op app length op_requests] in *.
  - destruct (bind_times_run 1 8 r q s s' Hi Hm Hleave Hr) as (r'&E&Hm'&Hs). head 9 0 Hb. exists r'. rewrite E. done.
  - destruct (bind_times_run 1 (n + 8) r q s s' Hi Hm Hleave Hr) as (r'&E&Hm'&Hs). head 10 0 Hb. cbn [bind_times] in E.
    destruct (bind_here mem_of bind_one limit r s) as [s1|]; [|done]. injection E as <- ->.
    assert (Hb' : bytes_at (mem_of s') p (0xA0 :: uleb128 n)).
    { eapply bytes_at_same; [exact Hs|done|cbn; lia|]. change (0xA0 :: uleb128 n ++ rest) with ((0xA0 :: uleb128 n) ++ rest) in Hb.
      by apply bytes_at_app in Hb as [Hb _]. }
    rewrite <- (app_nil_r (uleb128 n)) in Hb'. rewrite (read_uleb_at _ _ _ _ _ Hok Hb') by lia.
    exists (advance (n + 8) r). split; [apply next_eq; cbn; lia|]. split; [done|done].
  - destruct (bind_times_run 1 (imm * 8 + 8) r q s s' Hi Hm Hleave Hr) as (r'&E&Hm'&Hs). head 11 imm Hb. exists r'. rewrite E. done.
  - destruct Hok as [Hc Hk]. destruct (bind_times_run (Z.to_nat count) (skip + 8) r q s s' Hi Hm Hleave Hr) as (r'&E&Hm'&Hs).
    head 12 0 Hb. rewrite <- app_assoc in Hb. rewrite length_app in Hl.
    rewrite (read_uleb_at _ _ _ _ _ Hc Hb) by lia. cbn [fst snd]. apply bytes_at_cons in Hb as [_ Hb]. apply bytes_at_app in Hb as [_ Hb].
    unfold read_uleb128. rewrite (read_uleb128_emitted skip _ _ limit rest Hk Hb) by lia. rewrite E. exists r'.
    split; [|done]. unfold then_next. apply next_eq. cbn [encode_op length]. rewrite length_app. lia.
Qed.

Lemma bind_step_encoded o lazy p r q s s' rest :
  inv s -> op_ok lazy o -> bytes_at (mem_of s) p (encode_op o ++ rest) -> lo <= p -> p + Z.of_nat (length (encode_op o)) <= limit ->
  means (mem_of s) r q -> Forall leaves_stream (fst (op_requests o q)) ->
  run_requests (fst (op_requests o q)) s = Some s' -> stepped o lazy p r q s s'.
Proof.
  intros Hi Hok Hb Hlo Hl Hm Hleave Hr.
  destruct o; try (injection Hr as <-; eapply step_setter; eauto; done); eapply step_binder; eauto; done.
Qed.

(** ** A program *)

Lemma bind_encode_op_length o : (1 <= length (encode_op o))%nat.
Proof. destruct o; cbn; lia. Qed.

(** After the operations, the loop goes on behind them. *)
Lemma bind_loop_encoded lazy ops p r q s s' fuel tl :
  inv s -> Forall (op_ok lazy) ops -> bytes_at (mem_of s) p (encode_ops ops ++ tl) -> lo <= p ->
  p + Z.of_nat (length (encode_ops ops)) + Z.of_nat (length tl) <= limit -> limit - p <= Z.of_nat fuel ->
  means (mem_of s) r q -> Forall leaves_stream (requests ops q) -> run_requests (requests ops q) s = Some s' ->
  exists fuel' r', let p' := p + Z.of_nat (length (encode_ops ops)) in
    bind_loop mem_of bind_one fuel lazy limit p r s = bind_loop mem_of bind_one fuel' lazy limit p' r' s' /\
    limit - p' <= Z.of_nat fuel' /\ bytes_at (mem_of s') p' tl.
Proof.
  intros Hi Hok. revert p r q s fuel Hi. induction Hok as [|o ops Ho Hok IH]; intros p r q s fuel Hi Hb Hlo Hl Hf Hm Hv Hr.
  - cbn in *. injection Hr as <-. exists fuel, r. rewrite Z.add_0_r. done.
  - cbn [encode_ops flat_map requests] in *. fold (encode_ops ops) in *. rewrite <- app_assoc in Hb. rewrite length_app in Hl.
    pose proof (bind_encode_op_length o) as Hlen.
    destruct (op_requests o q) as [l q'] eqn:Eo. apply Forall_app in Hv as [Hv1 Hv2]. rewrite run_requests_app in Hr.
    destruct (run_requests l s) as [s1|] eqn:E1; [|done].
    destruct (bind_step_encoded o lazy p r q s s1 _ Hi Ho Hb Hlo ltac:(lia) Hm) as (r1&Es&Hm1&Hs1); [by rewrite Eo|by rewrite Eo|].
    rewrite Eo in Hm1. cbn [snd] in Hm1. destruct fuel as [|fuel]; [lia|]. cbn [bind_loop].
    destruct (Z.ltb_spec p limit); [|lia]. rewrite Es.
    destruct (IH (p + Z.of_nat (length (encode_op o))) r1 q' s1 fuel) as (fuel'&r'&E'&Hf'&Hb'); try done; try lia.
    + exact (run_requests_inv _ _ _ Hv1 Hi E1).
    + apply bytes_at_app in Hb as [_ Hb]. eapply bytes_at_same; [exact Hs1|lia| |exact Hb]. rewrite length_app. lia.
    + exists fuel', r'. cbv zeta in *. rewrite length_app.
      replace (p + Z.of_nat (length (encode_op o) + length (encode_ops ops))) with
        (p + Z.of_nat (length (encode_op o)) + Z.of_nat (length (encode_ops ops))) by lia. done.
Qed.
End run.

(** A stream: its place and the program in it.  A regular or weak stream ends
    with DONE; any stream may end with its last operation. *)
Record stream := mk_stream { st_lazy : bool; st_at : Z; st_size : Z; st_ops : list bind_op }.

Definition stream_requests (t : stream) : list request := requests (st_ops t) no_request.

Definition stream_ok (dlo dhi : Z) (m : bytemem) (t : stream) : Prop :=
  if st_size t =? 0 then st_ops t = []
  else st_at t <> 0 /\ dlo <= st_at t /\ st_at t + st_size t <= dhi /\ Forall (op_ok (st_lazy t)) (st_ops t) /\
       let n := Z.of_nat (length (encode_ops (st_ops t))) in
       (st_size t = n /\ bytes_at m (st_at t) (encode_ops (st_ops t)) \/
        st_lazy t = false /\ n + 1 <= st_size t /\ bytes_at m (st_at t) (encode_ops (st_ops t) ++ [BIND_OPCODE_DONE])).

Section passes.
Context {S : Type} (mem_of : S -> bytemem) (bind_one : request -> S -> option S) (inv : S -> Prop) (dlo dhi : Z).
Notation leaves := (leaves_stream mem_of bind_one inv dlo dhi).
Notation run := (run_requests bind_one).

Lemma run_requests_same l s s' : inv s -> Forall leaves l -> run l s = Some s' -> stream_same dlo dhi (mem_of s) (mem_of s').
Proof.
  intros Hi Hl. revert s Hi. induction Hl as [|q l Hq Hl IH]; intros s Hi Hr; cbn in Hr; [injection Hr as <-; by intros x Hx|].
  destruct (bind_one q s) as [s1|] eqn:E; [|done]. destruct (Hq s s1 Hi E) as [Hi1 Hs].
  intros x Hx. rewrite (IH s1 Hi1 Hr) by done. by apply Hs.
Qed.

Lemma bind_pass_applied t s s' :
  inv s -> stream_ok dlo dhi (mem_of s) t -> Forall leaves (stream_requests t) -> run (stream_requests t) s = Some s' ->
  bind_pass mem_of bind_one (st_lazy t) (st_at t) (st_size t) s = Some (inr s').
Proof.
  intros Hi. destruct t as [lazy p size ops]. unfold stream_ok, stream_requests, bind_pass. cbn [st_lazy st_at st_size st_ops].
  destruct (Z.eqb_spec size 0) as [->|Hz]; [intros ->; cbn; by intros _ [= <-]|].
  intros (Hp&Hlo&Hhi&Hok&Hb) Hv Hr. destruct (Z.eqb_spec p 0); [done|].
  assert (Hv' : Forall (leaves_stream mem_of bind_one inv p (p + size)) (requests ops no_request)).
  { eapply Forall_impl; [exact Hv|]. intros q Hq s1 s2 Hi1 E.
    destruct (Hq s1 s2 Hi1 E) as [Hi2 Hs]. split; [done|]. intros x Hx. apply Hs. lia. }
  assert (Hm : means p (p + size) (mem_of s) regs0 no_request) by (by constructor).
  destruct Hb as [[Hsz Hb]|(->&Hsz&Hb)].
  - rewrite <- (app_nil_r (encode_ops ops)) in Hb.
    destruct (bind_loop_encoded mem_of bind_one inv p (p + size) lazy ops p regs0 no_request s s' (Z.to_nat size) []) as (fuel&r&E&_); try done;
      try (cbn; lia). cbv zeta in E. rewrite E. destruct fuel; cbn [bind_loop]; [done|].
    destruct (Z.ltb_spec (p + Z.of_nat (length (encode_ops ops))) (p + size)); [lia|done].
  - destruct (bind_loop_encoded mem_of bind_one inv p (p + size) false ops p regs0 no_request s s' (Z.to_nat size) [BIND_OPCODE_DONE])
      as (fuel&r&E&Hf&Hd); try done; try (cbn; lia). cbv zeta in E. rewrite E. destruct fuel as [|fuel]; [done|]. cbn [bind_loop].
    destruct (Z.ltb_spec (p + Z.of_nat (length (encode_ops ops))) (p + size)); [|lia].
    apply bytes_at_cons in Hd as [Hd _].
    unfold bind_step. by rewrite Hd.
Qed.

Lemma stream_ok_same m m' t : stream_same dlo dhi m m' -> stream_ok dlo dhi m t -> stream_ok dlo dhi m' t.
Proof.
  intros Hs. unfold stream_ok. destruct (st_size t =? 0); [done|]. intros (H1&H2&H3&H4&H5). do 4 (split; [done|]).
  destruct H5 as [[H5 Hb]|(H5&H6&Hb)]; [left|right].
  - split; [done|]. eapply bytes_at_same; [exact Hs|done|lia|done].
  - split; [done|]. split; [done|]. eapply bytes_at_same; [exact Hs|done| |done]. rewrite length_app. cbn. lia.
Qed.

Lemma bind_passes_applied l s s' :
  inv s -> Forall (stream_ok dlo dhi (mem_of s)) l -> Forall leaves (flat_map stream_requests l) ->
  run (flat_map stream_requests l) s = Some s' ->
  bind_passes mem_of bind_one (map (fun t => (st_lazy t, st_at t, st_size t)) l) s = Some (inr s').
Proof.
  revert s. induction l as [|t l IH]; intros s Hi Hok Hv Hr; cbn [flat_map map bind_passes] in *; [by injection Hr as <-|].
  apply Forall_cons in Hok as [Ht Hok]. apply Forall_app in Hv as [Hv1 Hv2]. rewrite run_requests_app in Hr.
  destruct (run (stream_requests t) s) as [s1|] eqn:E1; [|done]. rewrite (bind_pass_applied t s s1 Hi Ht Hv1 E1).
  apply IH; [exact (run_requests_inv _ _ _ _ _ _ _ _ Hv1 Hi E1)| |done|done]. eapply Forall_impl; [exact Hok|]. intros t'. apply stream_ok_same. exact (run_requests_same _ _ _ Hi Hv1 E1).
Qed.
End passes.

(** Bind opcodes.  For any programs of bind operations in the regular, the
    weak and the lazy stream, in their byte encodings, and requests that leave
    the streams alone: the interpreter makes exactly the requests the programs
    denote, in order, and succeeds. *)
Theorem bind_programs_applied {S : Type} (mem_of : S -> bytemem) bind_one (inv : S -> Prop) dlo dhi b wk lz (s s' : S) :
  inv s -> st_lazy b = false -> st_lazy wk = false -> st_lazy lz = true ->
  Forall (stream_ok dlo dhi (mem_of s)) [b; wk; lz] ->
  let reqs := flat_map stream_requests [b; wk; lz] in
  Forall (leaves_stream mem_of bind_one inv dlo dhi) reqs -> run_requests bind_one reqs s = Some s' ->
  process_binds mem_of bind_one (st_at b, st_size b) (st_at wk, st_size wk) (st_at lz, st_size lz) s = Some (inr s').
Proof.
  intros Hi E1 E2 E3 Hok reqs Hv Hr. pose proof (bind_passes_applied mem_of bind_one inv dlo dhi [b; wk; lz] s s' Hi Hok Hv Hr) as H.
  cbn [map] in H. rewrite E1, E2, E3 in H. exact H.
Qed.

(** Two pointers to [_puts] and one lazy one to [_exit]; a request is logged. *)
Definition sample_binds : list bind_op :=
  [SetOrdinalImm 1; SetSymbol 1 (str "_puts"); SetType 1; SetAddend (-8); SetSegment 2 0x300; BindAdd 16; SetSpecial 14; Bind].
Definition sample_lazy : list bind_op := [SetSegment 2 0x400; SetOrdinal 1; SetSymbol 0 (str "_exit"); Bind; Done].
Definition sample_memory : bytemem :=
  place 0x9000 (encode_ops sample_binds ++ [BIND_OPCODE_DONE]) (place 0x9100 (encode_ops sample_lazy) (fun _ => 0)).
Definition log_request (q : request) (s : bytemem * list request) : option (bytemem * list request) :=
  Some (fst s, snd s ++ [q]).

Lemma bind_programs_applied_witness :
  process_binds fst log_request (0x9000, 64) (0, 0) (0x9100, 14) (sample_memory, []) =
  Some (inr (sample_memory,
    [mk_req 2 0x300 1 (str "_puts") true (-8); mk_req 2 0x318 (-2) (str "_puts") true (-8); mk_req 2 0x400 1 (str "_exit") false 0])).
Proof.
  refine (bind_programs_applied fst log_request (fun _ => True) 0x9000 0x9200 (mk_stream false 0x9000 64 sample_binds) (mk_stream false 0 0 [])
    (mk_stream true 0x9100 14 sample_lazy) (sample_memory, []) _ I eq_refl eq_refl eq_refl _ _ _).
  - apply List.Forall_cons; [|apply List.Forall_cons; [|apply List.Forall_cons; [|apply List.Forall_nil]]].
    + split; [done|]. split; [cbn; lia|]. split; [cbn; lia|]. split.
      { repeat (apply List.Forall_cons; [cbn; unfold is_imm, is_u64; repeat split; try lia; apply (bool_decide_unpack _); by vm_compute|]). apply List.Forall_nil. }
      right. split; [done|]. split; [vm_compute; discriminate|]. apply bytes_eqb_ok. by vm_compute.
    + done.
    + split; [done|]. split; [cbn; lia|]. split; [cbn; lia|]. split.
      { repeat (apply List.Forall_cons; [cbn; unfold is_imm, is_u64; repeat split; try lia; apply (bool_decide_unpack _); by vm_compute|]). apply List.Forall_nil. }
      left. split; [by vm_compute|]. apply bytes_eqb_ok. by vm_compute.
  - apply Forall_forall. intros q _ s s' _ [= <-]. split; [done|]. by intros x Hx.
  - reflexivity.
Defined.
