(* ===== verification/ResolveDyld.v ===== *)
(** * Binding an image by its bind opcodes

    The interpreter of DyldBind.v with the resolver's [do_bind_one]. *)

From S2P Require Import Prelude CStr BindSlots Macho SymIndex ResolveNames Leb128 Thunks Resolve ResolveInv ResolveAgree DyldBind DyldBindRun.
Import Thunks Resolve.

Section image.
Context {H : map_host} {L : linker} {own : own_symbols} {lo hi : Z} (Hok : host_ok H L own lo hi).
Context (rs : resolver_state) (Hrs : entries_ok rs) (segments : list Z).
Notation world := (world H L).
Notation good w := (@thunks_ok H lo hi (th H L w)).

(** [segments] are the vmaddrs of the first [nsegments] segments. *)
Definition segment_addr (idx : Z) : option Z :=
  match segments !! Z.to_nat idx with Some vmaddr => Some (u64 (vmaddr + slide rs)) | None => None end.

Definition serve (q : DyldBind.request) (w : world) : option world :=
  match do_bind_one H L own rs (segment_addr (DyldBind.rq_seg q)) (DyldBind.rq_offset q) (DyldBind.rq_ordinal q)
          (DyldBind.rq_sym q) (DyldBind.rq_weak q) (DyldBind.rq_addend q) w with
  | Some (_, w) => Some w
  | None => None
  end.

Definition req_slot (q : DyldBind.request) : option Z :=
  match segment_addr (DyldBind.rq_seg q) with Some b => Some (u64 (b + DyldBind.rq_offset q)) | None => None end.

(** An ordinary symbol of a library that has it. *)
Definition defined_at (lk0 : lk_state L) (q : DyldBind.request) (f : Z) : Prop :=
  exists de, plain_symbol own de (DyldBind.rq_sym q) /\ 1 <= DyldBind.rq_ordinal q <= ndylibs rs /\
    dylibs rs !! Z.to_nat (DyldBind.rq_ordinal q - 1) = Some de /\ action de = DYLIB_MAP /\
    lk_dlsym L lk0 (handle de) (lookup_name_of (DyldBind.rq_sym q)) = f /\ f <> 0.

(** Only the slot of a request may change in the image. *)
Record served (q : DyldBind.request) (w w' : world) : Prop := {
  sv_good : good w';
  sv_lk : lk H L w' = lk H L w;
  sv_mem : forall x, lo <= x < hi -> (forall a, req_slot q = Some a -> ~ a <= x < a + 8) -> memory H L w' x = memory H L w x;
  sv_slot : forall a f, req_slot q = Some a -> defined_at (lk H L w) q f -> load 8 a (memory H L w') = u64 (f + DyldBind.rq_addend q);
}.

Lemma write64_served q w w1 a r :
  req_slot q = Some a -> good w1 -> lk H L w1 = lk H L w ->
  (forall x, lo <= x < hi -> memory H L w1 x = memory H L w x) ->
  (forall f, defined_at (lk H L w) q f -> r = u64 (f + DyldBind.rq_addend q)) ->
  served q w (set_th H L (set_memory H (store 8 a r (memory H L w1)) (th H L w1)) w1).
Proof.
  intros Ha Hg Hl Hm Hr. constructor.
  - destruct Hg. by constructor.
  - exact Hl.
  - intros x Hx Ho. cbn. rewrite store_out by (specialize (Ho a Ha); lia). by apply Hm.
  - intros a' f Ha' Hd. assert (a' = a) as -> by congruence. cbn. rewrite load_store_same, (Hr f Hd) by lia.
    apply Z.mod_small, u64_range.
Qed.

Lemma serve_served q w : good w -> exists w', serve q w = Some w' /\ served q w w'.
Proof.
  intros Hw. unfold serve, do_bind_one. destruct (segment_addr (DyldBind.rq_seg q)) as [b|] eqn:Eb.
  2: { exists w. split; [done|]. constructor; try done. intros a f Ha. unfold req_slot in Ha. by rewrite Eb in Ha. }
  assert (Ha : req_slot q = Some (u64 (b + DyldBind.rq_offset q))) by (unfold req_slot; by rewrite Eb).
  set (a := u64 (b + DyldBind.rq_offset q)) in *. set (ord := DyldBind.rq_ordinal q) in *.
  assert (Hdc : exists o, (if (1 <=? ord) && (ord <=? ndylibs rs)
             then mbind H L (dylib_at H L rs ord) (fun de => ret H L (if decide (action de = DYLIB_DEFERRED) then Some de else None))
             else ret H L None) w = Some (o, w) /\ forall de, o = Some de -> dylibs rs !! Z.to_nat (ord - 1) = Some de /\ action de = DYLIB_DEFERRED).
  { destruct (Z.leb_spec 1 ord), (Z.leb_spec ord (ndylibs rs)); cbn [andb]; try (exists None; split; [done|]; intros de E; discriminate E).
    unfold dylib_at, mbind, entries_ok in *. destruct (lookup_lt_is_Some_2 (dylibs rs) (Z.to_nat (ord - 1)) ltac:(lia)) as [de Ede].
    rewrite Ede. cbn [ret]. destruct (decide _); eexists; (split; [reflexivity|]); intros de' [= <-]; done. }
  destruct Hdc as (o&Eo&Hd). unfold mbind at 1. rewrite Eo. clear Eo. destruct o as [de|].
  - destruct (Hd de eq_refl) as [Hde Hact].
    match goal with |- context [mbind H L (modify H L ?f) ?k] => set (w1 := f w); change (mbind H L (modify H L f) k w) with (k tt w1) end.
    assert (Hw1 : th H L w1 = th H L w /\ lk H L w1 = lk H L w) by (unfold w1; by destruct (_ <? _)). destruct Hw1 as [T1 L1].
    rewrite <- T1 in Hw. destruct (yields_on_thunks _ _ (alloc_return0_ok Hok) w1 Hw) as (r&w2&E2&[K1 K2 K3 _]&Hr).
    unfold mbind at 1. rewrite E2. eexists. split; [reflexivity|].
    match goal with |- served _ _ ?w' => set (w3 := w') end.
    destruct (write64_served q w w2 a r Ha K1) as [V1 V2 V3 V4]; [congruence| | |].
    { intros x Hx. rewrite K2 by done. unfold memory. by rewrite T1. }
    { intros f (de'&_&_&Hde'&Hact'&_). exfalso. fold ord in Hde'. congruence. }
    by constructor.
  - destruct (yields_resolve_bind_by_name Hok rs Hrs ord (DyldBind.rq_sym q) (DyldBind.rq_weak q) (DyldBind.rq_addend q) a w Hw)
      as (r&w2&E2&[K1 K2 K3 _]&Hr).
    unfold mbind at 1. rewrite E2. eexists. split; [reflexivity|]. apply write64_served; try done.
    intros f (de&Hp&Hord&Hde&Hact&Hf&Hf0).
    destruct (bind_by_name_plain (own := own) rs w ord (DyldBind.rq_sym q) (DyldBind.rq_weak q) (DyldBind.rq_addend q) a de f) as (w2'&E2'); try done.
    congruence.
Qed.

(** ** A list of requests *)

Definition req_apart (q1 q2 : DyldBind.request) : Prop :=
  forall a1 a2, req_slot q1 = Some a1 -> req_slot q2 = Some a2 -> a1 + 8 <= a2 \/ a2 + 8 <= a1.

Lemma run_served l w :
  good w -> Forall (fun q => forall a, req_slot q = Some a -> lo <= a /\ a + 8 <= hi) l -> ForallOrdPairs req_apart l ->
  exists w', run_requests serve l w = Some w' /\ good w' /\ lk H L w' = lk H L w /\
    (forall x, lo <= x < hi -> Forall (fun q => forall a, req_slot q = Some a -> ~ a <= x < a + 8) l -> memory H L w' x = memory H L w x) /\
    Forall (fun q => forall a f, req_slot q = Some a -> defined_at (lk H L w) q f -> load 8 a (memory H L w') = u64 (f + DyldBind.rq_addend q)) l.
Proof.
  intros Hw Hin Hap. revert w Hw. induction l as [|q l IH]; intros w Hw.
  { exists w. cbn. repeat (split; [done|]). constructor. }
  apply Forall_cons in Hin as [Hq Hin]. inversion_clear Hap as [|? ? Ha Hap'].
  destruct (serve_served q w Hw) as (w1&E1&[V1 V2 V3 V4]). destruct (IH Hin Hap' w1 V1) as (w'&E'&Hg&Hl&Hm&Hs).
  exists w'. cbn [run_requests]. rewrite E1. split; [done|]. split; [done|]. split; [congruence|]. rewrite V2 in Hs. split.
  - intros x Hx Ho. apply Forall_cons in Ho as [Ho1 Ho2]. rewrite Hm by done. by apply V3.
  - constructor; [|done]. intros a f Hqa Hd. rewrite <- (V4 a f Hqa Hd). apply load_ext. intros x Hx.
    destruct (Hq a Hqa). apply Hm; [lia|]. eapply Forall_impl; [exact Ha|]. intros q2 Hq2 a2 Ha2. specialize (Hq2 a a2 Hqa Ha2). lia.
Qed.
End image.

(** C3. Binding by opcodes.  For programs in the three streams whose slots are
    in the image, apart from each other and from the streams: processing
    succeeds; every slot requested for an ordinary symbol of a mapped library
    holds the address [dlsym] gives for it plus the addend; and no other byte
    of the image changes. *)
Theorem dyld_binds_bound H L own lo hi rs segments dlo dhi b wk lz (w : world H L) :
  host_ok H L own lo hi -> entries_ok rs -> thunks_ok (lo := lo) (hi := hi) (th H L w) -> lo <= dlo /\ dhi <= hi ->
  st_lazy b = false /\ st_lazy wk = false /\ st_lazy lz = true ->
  Forall (stream_ok dlo dhi (memory H L w)) [b; wk; lz] ->
  let reqs := flat_map stream_requests [b; wk; lz] in
  Forall (fun q => forall a, req_slot rs segments q = Some a -> lo <= a /\ a + 8 <= hi /\ (a + 8 <= dlo \/ dhi <= a)) reqs ->
  ForallOrdPairs (req_apart rs segments) reqs ->
  exists w', DyldBind.process_binds (memory H L) (serve rs segments (own := own)) (st_at b, st_size b) (st_at wk, st_size wk) (st_at lz, st_size lz) w
             = Some (inr w') /\
    Forall (fun q => forall a f, req_slot rs segments q = Some a -> defined_at (own := own) rs (lk H L w) q f ->
                     load 8 a (memory H L w') = u64 (f + DyldBind.rq_addend q)) reqs /\
    forall x, lo <= x < hi -> Forall (fun q => forall a, req_slot rs segments q = Some a -> ~ a <= x < a + 8) reqs ->
      memory H L w' x = memory H L w x.
Proof.
  intros Hok Hrs Hw Hd (E1&E2&E3) Hst reqs Hin Hap.
  destruct (run_served Hok rs Hrs segments reqs w Hw) as (w'&Er&_&_&Hm&Hs); [|done|].
  { eapply Forall_impl; [exact Hin|]. intros q Hq a Ha. destruct (Hq a Ha) as (?&?&_). lia. }
  exists w'. split; [|done].
  pose proof (bind_passes_applied (memory H L) (serve rs segments (own := own)) (fun w => thunks_ok (lo := lo) (hi := hi) (th H L w))
    dlo dhi [b; wk; lz] w w' Hw Hst) as Hp.
  cbn [map] in Hp. rewrite E1, E2, E3 in Hp. apply Hp; [|done].
  eapply Forall_impl; [exact Hin|]. intros q Hq w1 w2 Hg E. destruct (serve_served Hok rs Hrs segments q w1 Hg) as (w2'&E'&[V1 V2 V3 V4]).
  assert (w2' = w2) as -> by congruence. split; [done|]. intros x Hx. apply V3; [lia|]. intros a Ha. specialize (Hq a Ha). lia.
Qed.

(** Two slots of segment 0 bound to [puts], one of them lazily. *)
Definition puts_binds : list DyldBind.bind_op :=
  [DyldBind.SetOrdinalImm 1; DyldBind.SetSymbol 0 (str "_puts"); DyldBind.SetSegment 0 0x1000; DyldBind.Bind].
Definition puts_lazy : list DyldBind.bind_op :=
  [DyldBind.SetSegment 0 0x1010; DyldBind.SetOrdinalImm 1; DyldBind.SetSymbol 0 (str "_puts"); DyldBind.SetAddend 4; DyldBind.Bind; DyldBind.Done].
Definition puts_memory : bytemem :=
  place 0x4000 (DyldBind.encode_ops puts_binds ++ [DyldBind.BIND_OPCODE_DONE]) (place 0x4100 (DyldBind.encode_ops puts_lazy) (fun _ => 0)).

Lemma puts_plain : plain_symbol sample_own sample_library (str "_puts").
Proof. constructor; [| | | | | | | |split]; vm_compute; reflexivity. Qed.

Lemma dyld_binds_bound_witness :
  exists w', DyldBind.process_binds (memory sample_map_host sample_linker) (serve sample_rs [0x1000] (own := sample_own))
               (0x4000, 32) (0, 0) (0x4100, 15) (sample_world puts_memory []) = Some (inr w') /\
    load 8 0x2000 (memory _ _ w') = 0x7000 /\ load 8 0x2010 (memory _ _ w') = 0x7004.
Proof.
  destruct (dyld_binds_bound sample_map_host sample_linker sample_own 0x1000 0x5000 sample_rs [0x1000] 0x4000 0x4200
    (mk_stream false 0x4000 32 puts_binds) (mk_stream false 0 0 []) (mk_stream true 0x4100 15 puts_lazy) (sample_world puts_memory [])
    sample_host_ok sample_entries_ok (sample_world_ok _ _)) as (w'&E&Hs&_).
  - lia.
  - done.
  - apply List.Forall_cons; [|apply List.Forall_cons; [|apply List.Forall_cons; [|apply List.Forall_nil]]].
    + split; [done|]. split; [cbn; lia|]. split; [cbn; lia|]. split.
      { repeat (apply List.Forall_cons; [cbn; unfold DyldBind.is_imm, DyldBind.is_u64; repeat split; try lia; apply (bool_decide_unpack _); by vm_compute|]). apply List.Forall_nil. }
      right. split; [done|]. split; [vm_compute; discriminate|]. apply bytes_eqb_ok. by vm_compute.
    + done.
    + split; [done|]. split; [cbn; lia|]. split; [cbn; lia|]. split.
      { repeat (apply List.Forall_cons; [cbn; unfold DyldBind.is_imm, DyldBind.is_u64; repeat split; try lia; apply (bool_decide_unpack _); by vm_compute|]). apply List.Forall_nil. }
      left. split; [by vm_compute|]. apply bytes_eqb_ok. by vm_compute.
  - apply List.Forall_cons; [|apply List.Forall_cons; [|apply List.Forall_nil]]; intros a Ha; vm_compute in Ha; injection Ha as <-; lia.
  - apply FOP_cons; [|apply FOP_cons; [apply List.Forall_nil|apply FOP_nil]]. apply List.Forall_cons; [|apply List.Forall_nil].
    intros a1 a2 H1 H2. vm_compute in H1, H2. injection H1 as <-. injection H2 as <-. lia.
  - exists w'. split; [exact E|]. apply Forall_cons in Hs as [Hs1 Hs]. apply Forall_cons in Hs as [Hs2 _].
    assert (Hd : forall a, defined_at (L := sample_linker) (own := sample_own) sample_rs tt (DyldBind.mk_req 0 a 1 (str "_puts") false 0) 0x7000).
    { intros a. exists sample_library. split; [apply puts_plain|]. split; [cbn; lia|]. split; [reflexivity|]. split; [done|]. split; [by vm_compute|done]. }
    split; [exact (Hs1 0x2000 0x7000 eq_refl (Hd _))|]. exact (Hs2 0x2010 0x7000 eq_refl (Hd _)).
Defined.

