(* ===== verification/EhEmit.v ===== *)
(** * The synthetic .eh_frame: src/eh_frame.c, emit helpers and CIE/FDE emitters

    The buffer is the list of bytes written so far ([ehf_pos] is its length)
    with the capacity of its mapping.  [ehf_ensure] only reports: the write
    happens anyway, so the report is kept as a flag. *)

From S2P Require Import Prelude Leb128.

Module Eh.

(** ** Constants *)

Definition UNWIND_IS_NOT_FUNCTION_START : Z := 0x80000000.
Definition UNWIND_HAS_LSDA : Z := 0x40000000.
Definition UNWIND_ARM64_MODE_MASK : Z := 0x0F000000.
Definition UNWIND_ARM64_MODE_FRAMELESS : Z := 0x02000000.
Definition UNWIND_ARM64_MODE_DWARF : Z := 0x03000000.
Definition UNWIND_ARM64_MODE_FRAME : Z := 0x04000000.
Definition UNWIND_ARM64_FRAME_X19_X20_PAIR : Z := 0x00000001.
Definition UNWIND_ARM64_FRAME_X21_X22_PAIR : Z := 0x00000002.
Definition UNWIND_ARM64_FRAME_X23_X24_PAIR : Z := 0x00000004.
Definition UNWIND_ARM64_FRAME_X25_X26_PAIR : Z := 0x00000008.
Definition UNWIND_ARM64_FRAME_X27_X28_PAIR : Z := 0x00000010.
Definition UNWIND_ARM64_FRAME_D8_D9_PAIR : Z := 0x00000100.
Definition UNWIND_ARM64_FRAME_D10_D11_PAIR : Z := 0x00000200.
Definition UNWIND_ARM64_FRAME_D12_D13_PAIR : Z := 0x00000400.
Definition UNWIND_ARM64_FRAME_D14_D15_PAIR : Z := 0x00000800.
Definition UNWIND_ARM64_FRAMELESS_STACK_SIZE_MASK : Z := 0x00FFF000.

Definition DWARF_REG_X19 : Z := 19.
Definition DWARF_REG_FP : Z := 29.
Definition DWARF_REG_LR : Z := 30.
Definition DWARF_REG_SP : Z := 31.
Definition DWARF_REG_D8 : Z := 72.

Definition DW_CFA_advance_loc : Z := 0x40.
Definition DW_CFA_offset : Z := 0x80.
Definition DW_CFA_nop : Z := 0x00.
Definition DW_CFA_offset_extended : Z := 0x05.
Definition DW_CFA_def_cfa : Z := 0x0c.

Definition DW_EH_PE_absptr : Z := 0x00.
Definition DW_EH_PE_udata2 : Z := 0x02.
Definition DW_EH_PE_udata4 : Z := 0x03.
Definition DW_EH_PE_udata8 : Z := 0x04.
Definition DW_EH_PE_sdata2 : Z := 0x0a.
Definition DW_EH_PE_sdata4 : Z := 0x0b.
Definition DW_EH_PE_sdata8 : Z := 0x0c.
Definition DW_EH_PE_pcrel : Z := 0x10.
Definition DW_EH_PE_datarel : Z := 0x30.
Definition DW_EH_PE_indirect : Z := 0x80.
Definition DW_EH_PE_omit : Z := 0xff.

(** ** The buffer *)

Record ehf := mk_ehf { ehf_buf : list Z; ehf_capacity : Z; ehf_overflowed : bool }.
Definition ehf_pos (s : ehf) : Z := Z.of_nat (length (ehf_buf s)).

Definition ehf_ensure (need : Z) (s : ehf) : ehf :=
  mk_ehf (ehf_buf s) (ehf_capacity s) (ehf_overflowed s || (ehf_capacity s <? ehf_pos s + need)).
Definition ehf_append (l : list Z) (s : ehf) : ehf :=
  mk_ehf (ehf_buf s ++ l) (ehf_capacity s) (ehf_overflowed s).

Definition ehf_u8 (v : Z) (s : ehf) : ehf := ehf_append [u8 v] (ehf_ensure 1 s).
Definition ehf_u32 (v : Z) (s : ehf) : ehf := ehf_append (le_bytes 4 v) (ehf_ensure 4 s).
Definition ehf_u64 (v : Z) (s : ehf) : ehf := ehf_append (le_bytes 8 v) (ehf_ensure 8 s).

(** The two loops write through [ehf_u8]. *)
Definition ehf_bytes (l : list Z) (s : ehf) : ehf := fold_left (fun s b => ehf_u8 b s) l s.
Definition ehf_uleb128 (v : Z) : ehf -> ehf := ehf_bytes (uleb128 v).
Definition ehf_sleb128 (v : Z) : ehf -> ehf := ehf_bytes (sleb128 v).

(** [while (ehf_pos % align) ehf_u8(DW_CFA_nop)]: at most [align - 1] rounds. *)
Fixpoint ehf_align_loop (fuel : nat) (align : Z) (s : ehf) : ehf :=
  match fuel with
  | O => s
  | S fuel => if nz (ehf_pos s mod align) then ehf_align_loop fuel align (ehf_u8 DW_CFA_nop s) else s
  end.
Definition ehf_align (align : Z) : ehf -> ehf := ehf_align_loop (Z.to_nat align) align.

(** [memcpy(ehf_buf + start, &length, 4)] *)
Definition ehf_patch_u32 (start v : Z) (s : ehf) : ehf :=
  mk_ehf (take (Z.to_nat start) (ehf_buf s) ++ le_bytes 4 v ++ drop (Z.to_nat start + 4) (ehf_buf s))
         (ehf_capacity s) (ehf_overflowed s).

(** ** The CIE *)

Definition chr (c : string) : Z := match c with String.String a _ => Z.of_nat (Ascii.nat_of_ascii a) | _ => 0 end.
Definition ehf_chars (l : list string) (s : ehf) : ehf := fold_left (fun s c => ehf_u8 (chr c) s) l s.

(** The offset of the CIE, the offset of its personality pointer (the static
    [cie_personality_value_offset], unchanged without one) and the buffer. *)
Definition emit_cie (personality_addr : Z) (value_offset : Z) (s : ehf) : Z * Z * ehf :=
  let cie_start := ehf_pos s in
  let has_personality := nz personality_addr in
  let s := ehf_u32 0 s in
  let length_start := ehf_pos s in
  let s := ehf_u8 1 (ehf_u32 0 s) in
  let s := if has_personality then ehf_u8 0 (ehf_chars ["z"; "P"; "L"; "R"]%string s)
           else ehf_u8 0 (ehf_chars ["z"; "R"]%string s) in
  let s := ehf_uleb128 DWARF_REG_LR (ehf_sleb128 (-8) (ehf_uleb128 4 s)) in
  let '(value_offset, s) :=
    if has_personality then
      let s := ehf_u8 DW_EH_PE_absptr (ehf_uleb128 11 s) in
      let value_offset := ehf_pos s in
      (value_offset, ehf_u8 DW_EH_PE_absptr (ehf_u8 DW_EH_PE_absptr (ehf_u64 personality_addr s)))
    else (value_offset, ehf_u8 DW_EH_PE_absptr (ehf_uleb128 1 s)) in
  let s := ehf_uleb128 0 (ehf_uleb128 DWARF_REG_SP (ehf_u8 DW_CFA_def_cfa s)) in
  let s := ehf_align 8 s in
  let length := u32 (ehf_pos s - length_start) in
  (cie_start, value_offset, ehf_patch_u32 cie_start length s).

(** ** The FDEs *)

(** Length placeholder, CIE pointer, initial location, address range. *)
Definition emit_fde_head (cie_offset func_addr func_size : Z) (s : ehf) : ehf :=
  let s := ehf_u32 0 s in
  let s := ehf_u32 (u32 (ehf_pos s - cie_offset)) s in
  ehf_u64 func_size (ehf_u64 func_addr s).

(** The augmentation data. *)
Definition emit_fde_lsda (lsda_addr : Z) (s : ehf) : ehf :=
  if nz lsda_addr then ehf_u64 lsda_addr (ehf_uleb128 8 s) else ehf_uleb128 0 s.

(** Padding, and the length patched into the placeholder at [fde_start]. *)
Definition emit_fde_tail (fde_start : Z) (s : ehf) : ehf :=
  let length_start := fde_start + 4 in
  let s := ehf_align 8 s in
  ehf_patch_u32 fde_start (u32 (ehf_pos s - length_start)) s.

(** [ehf_u8(DW_CFA_offset | reg); ehf_uleb128(slot)] and its extended form. *)
Definition emit_offset (reg slot : Z) (s : ehf) : ehf := ehf_uleb128 slot (ehf_u8 (DW_CFA_offset .| reg) s).
Definition emit_offset_extended (reg slot : Z) (s : ehf) : ehf :=
  ehf_uleb128 slot (ehf_uleb128 reg (ehf_u8 DW_CFA_offset_extended s)).

(** One [if (pairs & PAIR)] block; [slot] is the next slot. *)
Definition emit_x_pair (pairs mask reg : Z) (st : Z * ehf) : Z * ehf :=
  let '(slot, s) := st in
  if nz (pairs .& mask) then (slot + 2, emit_offset (reg + 1) (slot + 1) (emit_offset reg slot s)) else st.
Definition emit_d_pair (pairs mask reg : Z) (st : Z * ehf) : Z * ehf :=
  let '(slot, s) := st in
  if nz (pairs .& mask) then (slot + 2, emit_offset_extended (reg + 1) (slot + 1) (emit_offset_extended reg slot s)) else st.

(** The nine blocks, as both emitters run them: the frame emitter counts
    [slot++] from 3, the frameless one [++slot] from 0, so its first is 1. *)
Definition emit_pairs (encoding slot : Z) (s : ehf) : ehf :=
  let x_pairs := encoding .& 0x1F in
  let st := (slot, s) in
  let st := emit_x_pair x_pairs UNWIND_ARM64_FRAME_X19_X20_PAIR DWARF_REG_X19 st in
  let st := emit_x_pair x_pairs UNWIND_ARM64_FRAME_X21_X22_PAIR (DWARF_REG_X19 + 2) st in
  let st := emit_x_pair x_pairs UNWIND_ARM64_FRAME_X23_X24_PAIR (DWARF_REG_X19 + 4) st in
  let st := emit_x_pair x_pairs UNWIND_ARM64_FRAME_X25_X26_PAIR (DWARF_REG_X19 + 6) st in
  let st := emit_x_pair x_pairs UNWIND_ARM64_FRAME_X27_X28_PAIR (DWARF_REG_X19 + 8) st in
  let d_pairs := (encoding .>> 8) .& 0x0F in
  let st := emit_d_pair d_pairs (UNWIND_ARM64_FRAME_D8_D9_PAIR .>> 8) DWARF_REG_D8 st in
  let st := emit_d_pair d_pairs (UNWIND_ARM64_FRAME_D10_D11_PAIR .>> 8) (DWARF_REG_D8 + 2) st in
  let st := emit_d_pair d_pairs (UNWIND_ARM64_FRAME_D12_D13_PAIR .>> 8) (DWARF_REG_D8 + 4) st in
  let st := emit_d_pair d_pairs (UNWIND_ARM64_FRAME_D14_D15_PAIR .>> 8) (DWARF_REG_D8 + 6) st in
  snd st.

Definition emit_fde_frame (cie_offset func_addr func_size encoding lsda_addr : Z) (s : ehf) : ehf :=
  let fde_start := ehf_pos s in
  let s := emit_fde_lsda lsda_addr (emit_fde_head cie_offset func_addr func_size s) in
  let s := ehf_u8 (DW_CFA_advance_loc .| 1) s in
  let s := ehf_uleb128 16 (ehf_uleb128 DWARF_REG_FP (ehf_u8 DW_CFA_def_cfa s)) in
  let s := emit_offset DWARF_REG_FP 2 (emit_offset DWARF_REG_LR 1 s) in
  emit_fde_tail fde_start (emit_pairs encoding 3 s).

Definition frameless_stack_size (encoding : Z) : Z :=
  ((encoding .& UNWIND_ARM64_FRAMELESS_STACK_SIZE_MASK) .>> 12) * 16.

Definition emit_fde_frameless (cie_offset func_addr func_size encoding lsda_addr : Z) (s : ehf) : ehf :=
  let fde_start := ehf_pos s in
  let stack_size := frameless_stack_size encoding in
  let s := emit_fde_lsda lsda_addr (emit_fde_head cie_offset func_addr func_size s) in
  let s := if 0 <? stack_size then
             let s := ehf_u8 DW_CFA_def_cfa (ehf_u8 (DW_CFA_advance_loc .| 1) s) in
             let s := ehf_uleb128 stack_size (ehf_uleb128 DWARF_REG_SP s) in
             emit_pairs encoding 1 s
           else s in
  emit_fde_tail fde_start s.

Definition emit_fde_minimal (cie_offset func_addr func_size lsda_addr : Z) (s : ehf) : ehf :=
  let fde_start := ehf_pos s in
  emit_fde_tail fde_start (emit_fde_lsda lsda_addr (emit_fde_head cie_offset func_addr func_size s)).

(** [cfi] are the bytes at the native CFI pointer. *)
Definition emit_fde_with_native_cfi (cie_offset func_addr func_size lsda_addr : Z) (cfi : list Z) (s : ehf) : ehf :=
  let fde_start := ehf_pos s in
  let s := ehf_u64 lsda_addr (ehf_uleb128 8 (emit_fde_head cie_offset func_addr func_size s)) in
  let s := ehf_append cfi (ehf_ensure (Z.of_nat (length cfi)) s) in
  emit_fde_tail fde_start s.

(** ** What the emitters append *)

(** [s'] is [s] with [l] appended, the report set if that passed the capacity. *)
Record appends (s s' : ehf) (l : list Z) : Prop := {
  ap_buf : ehf_buf s' = ehf_buf s ++ l;
  ap_cap : ehf_capacity s' = ehf_capacity s;
  ap_over : ehf_overflowed s' = ehf_overflowed s || (negb (bool_decide (l = [])) && (ehf_capacity s <? ehf_pos s'));
}.

Lemma appends_pos s s' l : appends s s' l -> ehf_pos s' = ehf_pos s + Z.of_nat (length l).
Proof. intros H. unfold ehf_pos. rewrite (ap_buf _ _ _ H), length_app. lia. Qed.

Lemma appends_refl s : appends s s [].
Proof. split; [by rewrite app_nil_r|done|by rewrite orb_false_r]. Qed.

Lemma appends_trans s1 s2 s3 l1 l2 : appends s1 s2 l1 -> appends s2 s3 l2 -> appends s1 s3 (l1 ++ l2).
Proof.
  intros H1 H2. pose proof (appends_pos _ _ _ H1). pose proof (appends_pos _ _ _ H2).
  destruct H1 as [B1 C1 O1], H2 as [B2 C2 O2]. split; [by rewrite B2, B1, app_assoc|congruence|].
  rewrite O2, O1, C1, <- orb_assoc. f_equal.
  destruct l2 as [|b l2]; [rewrite app_nil_r; cbn in *; replace (ehf_pos s3) with (ehf_pos s2) by lia; by rewrite orb_false_r|].
  rewrite (bool_decide_false (b :: l2 = [])), (bool_decide_false (l1 ++ b :: l2 = [])) by (by destruct l1).
  cbn [negb andb]. destruct (Z.ltb_spec (ehf_capacity s1) (ehf_pos s2)), (Z.ltb_spec (ehf_capacity s1) (ehf_pos s3)); try lia;
    rewrite ?andb_true_r, ?andb_false_r, ?orb_true_r; done.
Qed.

Lemma appends_append l s : l <> [] -> appends s (ehf_append l (ehf_ensure (Z.of_nat (length l)) s)) l.
Proof.
  intros Hl. split; [done|done|]. unfold ehf_append, ehf_ensure, ehf_pos. cbn. rewrite length_app, Nat2Z.inj_add.
  by rewrite bool_decide_false.
Qed.

Lemma appends_u8 v s : 0 <= v < 256 -> appends s (ehf_u8 v s) [v].
Proof. intros Hv. unfold ehf_u8, u8. rewrite Z.mod_small by done. by apply (appends_append [v]). Qed.
Lemma appends_u32 v s : appends s (ehf_u32 v s) (le_bytes 4 v).
Proof. by apply (appends_append (le_bytes 4 v)). Qed.
Lemma appends_u64 v s : appends s (ehf_u64 v s) (le_bytes 8 v).
Proof. by apply (appends_append (le_bytes 8 v)). Qed.

Lemma appends_bytes l s : Forall (fun b => 0 <= b < 256) l -> appends s (ehf_bytes l s) l.
Proof.
  intros Hl. revert s. induction Hl as [|b l Hb Hl IH]; intros s; [apply appends_refl|].
  cbn. apply (appends_trans _ (ehf_u8 b s) _ [b] l); [by apply appends_u8|apply IH].
Qed.
Lemma appends_uleb v s : appends s (ehf_uleb128 v s) (uleb128 v).
Proof. apply appends_bytes, uleb_bytes_range. Qed.

(** The padding after [n] bytes. *)
Definition padding (align n : Z) : list Z := replicate (Z.to_nat ((- n) mod align)) DW_CFA_nop.

Lemma appends_align align s : 0 < align -> appends s (ehf_align align s) (padding align (ehf_pos s)).
Proof.
  intros Ha. unfold ehf_align. assert (H : forall fuel s, (- ehf_pos s) mod align <= Z.of_nat fuel ->
    appends s (ehf_align_loop fuel align s) (padding align (ehf_pos s))).
  { clear s. induction fuel as [|fuel IH]; intros s Hf; cbn [ehf_align_loop].
    - pose proof (Z.mod_pos_bound (- ehf_pos s) align Ha). unfold padding. replace (_ mod _) with 0 by lia. apply appends_refl.
    - unfold nz. destruct (Z.eqb_spec (ehf_pos s mod align) 0) as [E|E]; cbn [negb].
      + unfold padding. rewrite Z.mod_opp_l_z by lia. apply appends_refl.
      + rewrite Z.mod_opp_l_nz in Hf by lia. pose proof (Z.mod_pos_bound (ehf_pos s) align Ha).
        pose proof (appends_u8 DW_CFA_nop s ltac:(done)) as H1. pose proof (appends_pos _ _ _ H1) as Hp. change (Z.of_nat (length [DW_CFA_nop])) with 1 in Hp.
        assert (Hm : (- ehf_pos (ehf_u8 DW_CFA_nop s)) mod align = (- ehf_pos s) mod align - 1).
        { rewrite Hp. rewrite (Z.mod_opp_l_nz (ehf_pos s)) by lia.
          replace (- (ehf_pos s + 1)) with ((align - ehf_pos s mod align - 1) + (- (ehf_pos s / align) - 1) * align).
          - rewrite Z.mod_add by lia. apply Z.mod_small. lia.
          - pose proof (Z.div_mod (ehf_pos s) align ltac:(lia)). nia. }
        specialize (IH (ehf_u8 DW_CFA_nop s) ltac:(rewrite Hm, Z.mod_opp_l_nz; lia)).
        unfold padding in IH. rewrite Hm in IH.
        pose proof (appends_trans _ _ _ _ _ H1 IH) as H2. unfold padding.
        assert (Hpos : 0 < (- ehf_pos s) mod align) by (rewrite Z.mod_opp_l_nz; lia).
        replace (Z.to_nat ((- ehf_pos s) mod align)) with (S (Z.to_nat ((- ehf_pos s) mod align - 1))) by lia. exact H2. }
  apply H. pose proof (Z.mod_pos_bound (- ehf_pos s) align Ha). lia.
Qed.
End Eh.
