(* ===== verification/EhDwarf.v ===== *)
(** * What unwind tables mean

    The side the generated tables are judged by: call frame instructions and
    their execution (DWARF 5, 6.4.2, with the factors the CIE declares: code
    4, data -8), one unwind step from a row, and the unwind step a compact
    encoding stands for. *)

From S2P Require Import Prelude Leb128 EhEmit.
Import Eh.

(** ** Call frame instructions *)

Inductive cfi_insn :=
| advance_loc (delta : Z)
| def_cfa (reg off : Z)
| offset (reg off : Z)
| offset_extended (reg off : Z)
| nop.

Definition enc_insn (i : cfi_insn) : list Z :=
  match i with
  | advance_loc d => [0x40 .| d]
  | def_cfa r o => 0x0c :: uleb128 r ++ uleb128 o
  | offset r o => (0x80 .| r) :: uleb128 o
  | offset_extended r o => 0x05 :: uleb128 r ++ uleb128 o
  | nop => [0x00]
  end.
Definition enc_insns (l : list cfi_insn) : list Z := concat (map enc_insn l).

Fixpoint take_uleb (l : list Z) : option (Z * list Z) :=
  match l with
  | [] => None
  | b :: l => if b <? 128 then Some (b, l)
              else match take_uleb l with Some (v, r) => Some (b - 128 + 128 * v, r) | None => None end
  end.

Definition take_insn (l : list Z) : option (cfi_insn * list Z) :=
  match l with
  | [] => None
  | op :: l =>
      if op / 64 =? 1 then Some (advance_loc (op mod 64), l)
      else if op / 64 =? 2 then
        match take_uleb l with Some (o, l) => Some (offset (op mod 64) o, l) | None => None end
      else if op =? 0 then Some (nop, l)
      else if (op =? 0x05) || (op =? 0x0c) then
        match take_uleb l with
        | Some (r, l) =>
            match take_uleb l with
            | Some (o, l) => Some (if op =? 0x05 then offset_extended r o else def_cfa r o, l)
            | None => None
            end
        | None => None
        end
      else None
  end.

(** All instructions of a byte string. *)
Fixpoint decode_cfi (fuel : nat) (l : list Z) : option (list cfi_insn) :=
  match l, fuel with
  | [], _ => Some []
  | _, O => None
  | _, S fuel =>
      match take_insn l with
      | Some (i, l) => match decode_cfi fuel l with Some p => Some (i :: p) | None => None end
      | None => None
      end
  end.

(** ** Rows *)

(** The CFA as register plus offset, and where each register is saved,
    relative to the CFA. *)
Record row := mk_row { cfa_reg : Z; cfa_off : Z; rule : Z -> option Z }.

(** Execution up to the row that holds at [target] bytes into the function. *)
Fixpoint run_cfi (p : list cfi_insn) (loc target : Z) (r : row) : row :=
  match p with
  | [] => r
  | advance_loc d :: p => if target <? loc + 4 * d then r else run_cfi p (loc + 4 * d) target r
  | def_cfa reg off :: p => run_cfi p loc target (mk_row reg off (rule r))
  | (offset reg o | offset_extended reg o) :: p =>
      run_cfi p loc target (mk_row (cfa_reg r) (cfa_off r) (upd (rule r) reg (Some (-8 * o))))
  | nop :: p => run_cfi p loc target r
  end.

(** The row of the generated CIEs: CFA = SP + 0, nothing saved. *)
Definition cie_row : row := mk_row DWARF_REG_SP 0 (fun _ => None).

(** ** One unwind step *)

(** Registers by DWARF number (31 is SP); the return address is column 30. *)
Definition regs := Z -> Z.

Definition dwarf_step (r : row) (x : regs) (m : bytemem) : regs * Z :=
  let cfa := x (cfa_reg r) + cfa_off r in
  let x' k := match rule r k with
              | Some o => load 8 (cfa + o) m
              | None => if k =? DWARF_REG_SP then cfa else x k
              end in
  (x', x' DWARF_REG_LR).

(** The registers a compact encoding says are saved, in the order of the
    encoding: bit, first register of the pair. *)
Definition pair_table : list (Z * Z) :=
  [(0, 19); (1, 21); (2, 23); (3, 25); (4, 27); (8, 72); (9, 74); (10, 76); (11, 78)].
Definition saved_regs (encoding : Z) : list Z :=
  flat_map (fun '(bit, r) => if Z.testbit encoding bit then [r; r + 1] else []) pair_table.

(** Restore [l] from consecutive words downwards from [loc]. *)
Fixpoint restore_down (l : list Z) (loc : Z) (m : bytemem) (x : regs) : regs :=
  match l with
  | [] => x
  | r :: l => restore_down l (loc - 8) m (upd x r (load 8 loc m))
  end.

(** FRAME: FP and LR were pushed, the saved pairs lie right below the saved FP. *)
Definition compact_frame_step (encoding : Z) (x : regs) (m : bytemem) : regs * Z :=
  let fp := x DWARF_REG_FP in
  let x' := restore_down (saved_regs encoding) (fp - 8) m x in
  (upd (upd x' DWARF_REG_FP (load 8 fp m)) DWARF_REG_SP (fp + 16), load 8 (fp + 8) m).

(** FRAMELESS: the frame is [16 * bits 23..12] bytes, the saved pairs at its
    top; the return address is still in LR. *)
Definition compact_frameless_step (encoding : Z) (x : regs) (m : bytemem) : regs * Z :=
  let caller_sp := x DWARF_REG_SP + 16 * fld encoding 12 12 in
  let x' := if fld encoding 12 12 =? 0 then x else restore_down (saved_regs encoding) (caller_sp - 8) m x in
  (upd x' DWARF_REG_SP caller_sp, x DWARF_REG_LR).

(** ** Decoding what was encoded *)

Definition insn_ok (i : cfi_insn) : Prop :=
  match i with
  | advance_loc d => 0 <= d < 64
  | def_cfa r o | offset_extended r o => 0 <= r < 2 ^ 64 /\ 0 <= o < 2 ^ 64
  | offset r o => 0 <= r < 64 /\ 0 <= o < 2 ^ 64
  | nop => True
  end.

Lemma take_uleb_bytes n v rest : 0 <= v < 2 ^ (7 * Z.of_nat n) -> (0 < n)%nat -> take_uleb (uleb_bytes n v ++ rest) = Some (v, rest).
Proof.
  revert v. induction n as [|n IH]; intros v Hv Hn; [lia|]. cbn [uleb_bytes].
  rewrite land_7f, Z.shiftr_div_pow2 by lia. change (2 ^ 7) with 128.
  pose proof (Z.mod_pos_bound v 128 ltac:(lia)) as Hm. pose proof (Z.div_mod v 128 ltac:(lia)) as Hd. unfold nz.
  destruct (Z.eqb_spec (v / 128) 0) as [E|E]; cbn [negb app take_uleb].
  - destruct (Z.ltb_spec (v mod 128) 128); [|lia]. do 2 f_equal. lia.
  - rewrite lor_80 by done. destruct (Z.ltb_spec (v mod 128 + 128) 128); [lia|].
    assert (v / 128 < 2 ^ (7 * Z.of_nat n)).
    { apply Z.div_lt_upper_bound; [lia|]. replace (7 * Z.of_nat (S n)) with (7 + 7 * Z.of_nat n) in Hv by lia.
      rewrite Z.pow_add_r in Hv by lia. lia. }
    assert (0 <= v / 128) by (apply Z.div_pos; lia).
    rewrite IH; [do 2 f_equal; lia|lia|]. destruct n; [|lia]. change (2 ^ (7 * Z.of_nat 0)) with 1 in *. lia.
Qed.

Lemma take_uleb128 v rest : 0 <= v < 2 ^ 64 -> take_uleb (uleb128 v ++ rest) = Some (v, rest).
Proof.
  intros Hv. apply take_uleb_bytes; [|lia]. split; [lia|]. etrans; [apply Hv|]. change (7 * Z.of_nat 10) with 70. apply Z.pow_lt_mono_r; lia.
Qed.

Lemma lor_low k r : 0 <= r < 64 -> 0 <= k -> (64 * k) .| r = 64 * k + r.
Proof.
  intros Hr Hk. rewrite Z.lor_comm. replace (64 * k) with (k .<< 6) by (rewrite Z.shiftl_mul_pow2 by lia; lia).
  rewrite lor_shiftl_add, Z.shiftl_mul_pow2 by lia. lia.
Qed.

Lemma take_enc_insn i rest : insn_ok i -> take_insn (enc_insn i ++ rest) = Some (i, rest).
Proof.
  destruct i as [d|r o|r o|r o|]; cbn [insn_ok enc_insn app]; unfold take_insn.
  - intros Hd. change 0x40 with (64 * 1). rewrite lor_low by lia.
    replace (64 * 1 + d) with (d + 1 * 64) by lia. rewrite Z.div_add, Z.mod_add, Z.div_small, Z.mod_small by lia. done.
  - intros [Hr Ho]. change (0x0c / 64 =? 1) with false. change (0x0c / 64 =? 2) with false. cbn [Z.eqb orb].
    by rewrite <- app_assoc, !take_uleb128.
  - intros [Hr Ho]. change 0x80 with (64 * 2). rewrite lor_low by lia.
    replace (64 * 2 + r) with (r + 2 * 64) by lia. rewrite Z.div_add, Z.mod_add, Z.div_small, Z.mod_small by lia.
    change (0 + 2 =? 1) with false. change (0 + 2 =? 2) with true. cbv iota. by rewrite take_uleb128.
  - intros [Hr Ho]. change (0x05 / 64 =? 1) with false. change (0x05 / 64 =? 2) with false. cbn [Z.eqb orb].
    by rewrite <- app_assoc, !take_uleb128.
  - done.
Qed.

Lemma enc_insn_nonempty i : (0 < length (enc_insn i))%nat.
Proof. destruct i; cbn; lia. Qed.

Lemma decode_enc_insns p fuel : Forall insn_ok p -> (length (enc_insns p) <= fuel)%nat -> decode_cfi fuel (enc_insns p) = Some p.
Proof.
  intros Hp. revert fuel. induction Hp as [|i p Hi Hp IH]; intros fuel Hf; [by destruct fuel|].
  cbn [enc_insns map concat] in *. change (concat (map enc_insn p)) with (enc_insns p) in *.
  pose proof (enc_insn_nonempty i). rewrite length_app in Hf. destruct fuel as [|fuel]; [lia|].
  destruct (enc_insn i ++ enc_insns p) as [|b l] eqn:E; [apply app_eq_nil in E as [E _]; rewrite E in *; cbn in *; lia|].
  cbn [decode_cfi]. rewrite <- E, take_enc_insn, IH by (done || lia). done.
Qed.

Lemma enc_nops n : replicate n DW_CFA_nop = enc_insns (replicate n nop).
Proof. induction n as [|n IH]; [done|]. cbn. by rewrite IH. Qed.

Lemma enc_insns_app p q : enc_insns (p ++ q) = enc_insns p ++ enc_insns q.
Proof. unfold enc_insns. by rewrite map_app, concat_app. Qed.

(** ** Running the save instructions *)

(** [r1], [r2], ... at slots [slot], [slot + 1], ... *)
Fixpoint save_insns (slot : Z) (l : list Z) : list cfi_insn :=
  match l with
  | [] => []
  | r :: l => (if r <? 64 then offset r slot else offset_extended r slot) :: save_insns (slot + 1) l
  end.

Lemma run_nops n loc target r : run_cfi (replicate n nop) loc target r = r.
Proof. induction n as [|n IH]; [done|]. cbn. done. Qed.

Lemma run_save_insns l slot q loc target r :
  run_cfi (save_insns slot l ++ q) loc target r =
  run_cfi q loc target (mk_row (cfa_reg r) (cfa_off r)
    (fold_left (fun f '(k, s) => upd f k (Some (-8 * s))) (zip l (map (fun i => slot + Z.of_nat i) (seq 0 (length l)))) (rule r))).
Proof.
  revert slot r. induction l as [|k l IH]; intros slot r; [by destruct r|].
  cbn [save_insns app length seq map zip_with fold_left].
  assert (E : map (fun i => slot + Z.of_nat i) (seq 1 (length l)) = map (fun i => slot + 1 + Z.of_nat i) (seq 0 (length l))).
  { rewrite <- seq_shift, map_map. apply map_ext. intros i. lia. }
  destruct (k <? 64); cbn [run_cfi]; rewrite IH; cbn [cfa_reg cfa_off rule]; rewrite E; rewrite Z.add_0_r; done.
Qed.

(** Looking a register up in the rules, and restoring it. *)
Lemma saved_rules l slot f k :
  NoDup l ->
  fold_left (fun f '(k, s) => upd f k (Some (-8 * s))) (zip l (map (fun i => slot + Z.of_nat i) (seq 0 (length l)))) f k =
  match list_find (fun r => r = k) l with Some (i, _) => Some (-8 * (slot + Z.of_nat i)) | None => f k end.
Proof.
  intros Hnd. revert slot f. induction l as [|r l IH]; intros slot f; [done|].
  apply NoDup_cons in Hnd as [Hr Hnd]. specialize (IH Hnd). cbn [length seq map zip_with fold_left].
  assert (E : map (fun i => slot + Z.of_nat i) (seq 1 (length l)) = map (fun i => slot + 1 + Z.of_nat i) (seq 0 (length l))).
  { rewrite <- seq_shift, map_map. apply map_ext. intros i. lia. }
  rewrite E, IH. cbn [list_find]. destruct (decide (r = k)) as [->|Hne].
  - destruct (list_find (fun r => r = k) l) as [[i y]|] eqn:F; cbn.
    + apply list_find_Some in F as (F1&F2&_). subst y. destruct Hr. by eapply list_elem_of_lookup_2.
    + rewrite upd_eq. by rewrite Z.add_0_r.
  - destruct (list_find (fun r => r = k) l) as [[i y]|]; cbn; [do 2 f_equal; lia|]. by rewrite upd_ne.
Qed.

Lemma restore_down_spec l loc m x k :
  NoDup l ->
  restore_down l loc m x k = match list_find (fun r => r = k) l with Some (i, _) => load 8 (loc - 8 * Z.of_nat i) m | None => x k end.
Proof.
  intros Hnd. revert loc x. induction l as [|r l IH]; intros loc x; [done|].
  apply NoDup_cons in Hnd as [Hr Hnd]. cbn [restore_down list_find]. rewrite IH by done.
  destruct (decide (r = k)) as [->|Hne].
  - destruct (list_find (fun r => r = k) l) as [[i y]|] eqn:F; cbn.
    + apply list_find_Some in F as (F1&F2&_). subst y. destruct Hr. by eapply list_elem_of_lookup_2.
    + rewrite upd_eq. f_equal. lia.
  - destruct (list_find (fun r => r = k) l) as [[i y]|]; cbn; [f_equal; lia|]. by rewrite upd_ne.
Qed.

Lemma saved_regs_sublist encoding t :
  flat_map (fun '(bit, r) => if Z.testbit encoding bit then [r; r + 1] else []) t `sublist_of` flat_map (fun '(_, r) => [r; r + 1]) t.
Proof.
  induction t as [|[b r] t IH]; [constructor|]. cbn [flat_map]. apply sublist_app; [|done].
  destruct (Z.testbit encoding b); [done|]. apply sublist_nil_l.
Qed.

Lemma saved_regs_ok encoding : NoDup (saved_regs encoding) /\ Forall (fun r => 19 <= r <= 28 \/ 72 <= r <= 79) (saved_regs encoding).
Proof.
  pose proof (saved_regs_sublist encoding pair_table) as Hs. split.
  - refine (sublist_NoDup _ _ _ Hs). apply (bool_decide_unpack _). by vm_compute.
  - apply Forall_forall. intros r Hr.
    assert (Hin : r ∈ flat_map (fun '(_, r) => [r; r + 1]) pair_table).
    { eapply elem_of_submseteq; [exact Hr|]. by apply sublist_submseteq. }
    apply list_elem_of_In in Hin. cbn in Hin. lia.
Qed.
