(* ===== verification/EhFde.v ===== *)
(** * The emitted FDEs and what they unwind *)

From S2P Require Import Prelude Leb128 EhEmit EhDwarf.
Import Eh.

(** ** The save instructions *)

Lemma save_insns_app slot l1 l2 :
  save_insns slot (l1 ++ l2) = save_insns slot l1 ++ save_insns (slot + Z.of_nat (length l1)) l2.
Proof.
  revert slot. induction l1 as [|r l1 IH]; intros slot; cbn [app save_insns length]; [by rewrite Z.add_0_r|].
  rewrite IH. do 2 f_equal. f_equal. lia.
Qed.

(** A step of [emit_pairs] that saves [l] in the next slots. *)
Definition saves (f : Z * ehf -> Z * ehf) (l : list Z) : Prop :=
  forall slot s, exists s', f (slot, s) = (slot + Z.of_nat (length l), s') /\ appends s s' (enc_insns (save_insns slot l)).

Lemma saves_seq f g l1 l2 : saves f l1 -> saves g l2 -> saves (fun st => g (f st)) (l1 ++ l2).
Proof.
  intros Hf Hg slot s. destruct (Hf slot s) as (s1&E1&A1). destruct (Hg (slot + Z.of_nat (length l1)) s1) as (s2&E2&A2).
  exists s2. rewrite E1, E2. split; [f_equal; rewrite length_app; lia|].
  rewrite save_insns_app, enc_insns_app. by eapply appends_trans.
Qed.

Lemma appends_offset reg slot s : 0 <= reg < 64 -> appends s (emit_offset reg slot s) (enc_insn (offset reg slot)).
Proof.
  intros Hr. unfold emit_offset. cbn [enc_insn]. change (?b :: uleb128 slot) with ([b] ++ uleb128 slot).
  eapply appends_trans; [apply appends_u8|apply appends_uleb].
  unfold DW_CFA_offset. change 0x80 with (64 * 2). rewrite lor_low by lia. lia.
Qed.

Lemma appends_offset_extended reg slot s : appends s (emit_offset_extended reg slot s) (enc_insn (offset_extended reg slot)).
Proof.
  unfold emit_offset_extended. cbn [enc_insn]. change (5 :: uleb128 reg ++ uleb128 slot) with (([5] ++ uleb128 reg) ++ uleb128 slot).
  eapply appends_trans; [eapply appends_trans; [by apply appends_u8|apply appends_uleb]|apply appends_uleb].
Qed.

Lemma saves_x_pair pairs encoding bit mask reg :
  nz (pairs .& mask) = Z.testbit encoding bit -> 0 <= reg < 63 ->
  saves (emit_x_pair pairs mask reg) (if Z.testbit encoding bit then [reg; reg + 1] else []).
Proof.
  intros Hb Hr slot s. unfold emit_x_pair. rewrite Hb. destruct (Z.testbit encoding bit).
  - eexists. split; [reflexivity|]. cbn [save_insns]. destruct (Z.ltb_spec reg 64), (Z.ltb_spec (reg + 1) 64); try lia.
    change (enc_insns [offset reg slot; offset (reg + 1) (slot + 1)])
      with (enc_insn (offset reg slot) ++ enc_insn (offset (reg + 1) (slot + 1)) ++ []). rewrite app_nil_r.
    eapply appends_trans; apply appends_offset; lia.
  - exists s. cbn [length Z.of_nat]. rewrite Z.add_0_r. split; [done|apply appends_refl].
Qed.

Lemma saves_d_pair pairs encoding bit mask reg :
  nz (pairs .& mask) = Z.testbit encoding bit -> 64 <= reg ->
  saves (emit_d_pair pairs mask reg) (if Z.testbit encoding bit then [reg; reg + 1] else []).
Proof.
  intros Hb Hr slot s. unfold emit_d_pair. rewrite Hb. destruct (Z.testbit encoding bit).
  - eexists. split; [reflexivity|]. cbn [save_insns]. destruct (Z.ltb_spec reg 64), (Z.ltb_spec (reg + 1) 64); try lia.
    change (enc_insns [offset_extended reg slot; offset_extended (reg + 1) (slot + 1)])
      with (enc_insn (offset_extended reg slot) ++ enc_insn (offset_extended (reg + 1) (slot + 1)) ++ []). rewrite app_nil_r.
    eapply appends_trans; apply appends_offset_extended.
  - exists s. cbn [length Z.of_nat]. rewrite Z.add_0_r. split; [done|apply appends_refl].
Qed.

(** The nine blocks save exactly the registers the encoding names, in order. *)
Lemma emit_pairs_appends encoding slot s :
  appends s (emit_pairs encoding slot s) (enc_insns (save_insns slot (saved_regs encoding))).
Proof.
  assert (Hx : forall k, 0 <= k < 5 -> nz ((encoding .& 0x1F) .& 2 ^ k) = Z.testbit encoding k).
  { intros k Hk. rewrite nz_land_pow2, Z.land_spec by lia. change 0x1F with (Z.ones 5).
    rewrite Z.ones_spec_low by lia. by rewrite andb_true_r. }
  assert (Hd : forall k, 0 <= k < 4 -> nz (((encoding .>> 8) .& 0x0F) .& 2 ^ k) = Z.testbit encoding (8 + k)).
  { intros k Hk. rewrite nz_land_pow2, Z.land_spec, Z.shiftr_spec by lia. change 0x0F with (Z.ones 4).
    rewrite Z.ones_spec_low by lia. rewrite andb_true_r. f_equal. lia. }
  assert (H : saves (fun st => emit_d_pair ((encoding .>> 8) .& 0x0F) 8 78 (emit_d_pair ((encoding .>> 8) .& 0x0F) 4 76
    (emit_d_pair ((encoding .>> 8) .& 0x0F) 2 74 (emit_d_pair ((encoding .>> 8) .& 0x0F) 1 72
    (emit_x_pair (encoding .& 0x1F) 16 27 (emit_x_pair (encoding .& 0x1F) 8 25 (emit_x_pair (encoding .& 0x1F) 4 23
    (emit_x_pair (encoding .& 0x1F) 2 21 (emit_x_pair (encoding .& 0x1F) 1 19 st))))))))) (saved_regs encoding)).
  { unfold saved_regs, pair_table. cbn [flat_map]. rewrite app_nil_r, !app_assoc. repeat apply saves_seq.
    all: first [apply saves_x_pair; [|lia] | apply saves_d_pair; [|lia]].
    1: exact (Hx 0 ltac:(lia)). 1: exact (Hx 1 ltac:(lia)). 1: exact (Hx 2 ltac:(lia)). 1: exact (Hx 3 ltac:(lia)).
    1: exact (Hx 4 ltac:(lia)). 1: exact (Hd 0 ltac:(lia)). 1: exact (Hd 1 ltac:(lia)). 1: exact (Hd 2 ltac:(lia)).
    exact (Hd 3 ltac:(lia)). }
  destruct (H slot s) as (s'&E&A). unfold emit_pairs.
  change (DWARF_REG_X19 + 2) with 21. change (DWARF_REG_X19 + 4) with 23. change (DWARF_REG_X19 + 6) with 25.
  change (DWARF_REG_X19 + 8) with 27. change (DWARF_REG_D8 + 2) with 74. change (DWARF_REG_D8 + 4) with 76.
  change (DWARF_REG_D8 + 6) with 78. 
  change (UNWIND_ARM64_FRAME_D8_D9_PAIR .>> 8) with 1. change (UNWIND_ARM64_FRAME_D10_D11_PAIR .>> 8) with 2.
  change (UNWIND_ARM64_FRAME_D12_D13_PAIR .>> 8) with 4. change (UNWIND_ARM64_FRAME_D14_D15_PAIR .>> 8) with 8.
  cbv zeta beta in E |- *. unfold DWARF_REG_X19, DWARF_REG_D8, UNWIND_ARM64_FRAME_X19_X20_PAIR, UNWIND_ARM64_FRAME_X21_X22_PAIR,
    UNWIND_ARM64_FRAME_X23_X24_PAIR, UNWIND_ARM64_FRAME_X25_X26_PAIR, UNWIND_ARM64_FRAME_X27_X28_PAIR.
  rewrite E. exact A.
Qed.

(** ** One FDE in the buffer *)

Definition aug_of (lsda_addr : Z) : list Z := if nz lsda_addr then uleb128 8 ++ le_bytes 8 lsda_addr else uleb128 0.

(** The bytes after the length field, without the padding. *)
Definition fde_body (pos cie_offset func_addr func_size : Z) (aug cfi : list Z) : list Z :=
  le_bytes 4 (u32 (pos + 4 - cie_offset)) ++ le_bytes 8 func_addr ++ le_bytes 8 func_size ++ aug ++ cfi.

(** Length, contents, padding to 8 bytes: a CIE or FDE at [pos]. *)
Definition unit_bytes (pos : Z) (body : list Z) : list Z :=
  let pad := padding 8 (pos + 4 + Z.of_nat (length body)) in
  le_bytes 4 (u32 (Z.of_nat (length body) + Z.of_nat (length pad))) ++ body ++ pad.

Lemma patch_appends s s' v l :
  appends s s' (le_bytes 4 0 ++ l) -> appends s (ehf_patch_u32 (ehf_pos s) v s') (le_bytes 4 v ++ l).
Proof.
  intros [B C O]. unfold ehf_patch_u32, ehf_pos in *. rewrite Nat2Z.id, B. split; cbn [ehf_buf ehf_capacity ehf_overflowed]; [|done|].
  - rewrite take_app_length. f_equal. f_equal.
    rewrite drop_app_ge by lia. replace (length (ehf_buf s) + 4 - length (ehf_buf s))%nat with 4%nat by lia. done.
  - rewrite O, B. do 2 f_equal. f_equal. unfold ehf_pos. cbn [ehf_buf]. rewrite take_app_length.
    rewrite drop_app_ge, !length_app by lia. rewrite !le_bytes_length.
    replace (length (ehf_buf s) + 4 - length (ehf_buf s))%nat with 4%nat by lia.
    change (drop 4 (le_bytes 4 0 ++ l)) with l. lia.
Qed.

Lemma tail_appends s s' body :
  appends s s' (le_bytes 4 0 ++ body) -> appends s (emit_fde_tail (ehf_pos s) s') (unit_bytes (ehf_pos s) body).
Proof.
  intros H. unfold emit_fde_tail, unit_bytes. cbv zeta.
  assert (Hp : ehf_pos s' = ehf_pos s + 4 + Z.of_nat (length body)).
  { rewrite (appends_pos _ _ _ H), length_app, le_bytes_length. lia. }
  pose proof (appends_align 8 s' ltac:(lia)) as Ha. rewrite Hp in Ha. pose proof (appends_pos _ _ _ Ha) as Hq.
  set (pad := padding 8 (ehf_pos s + 4 + Z.of_nat (length body))) in *.
  replace (ehf_pos (ehf_align 8 s') - (ehf_pos s + 4)) with (Z.of_nat (length body) + Z.of_nat (length pad)) by lia.
  apply patch_appends. rewrite app_assoc. by eapply appends_trans.
Qed.

Lemma head_appends cie_offset func_addr func_size s :
  appends s (emit_fde_head cie_offset func_addr func_size s)
    (le_bytes 4 0 ++ le_bytes 4 (u32 (ehf_pos s + 4 - cie_offset)) ++ le_bytes 8 func_addr ++ le_bytes 8 func_size).
Proof.
  unfold emit_fde_head. cbv zeta. pose proof (appends_u32 0 s) as H1. pose proof (appends_pos _ _ _ H1) as Hp.
  rewrite le_bytes_length in Hp. change (Z.of_nat 4) with 4 in Hp. rewrite Hp.
  eapply appends_trans; [exact H1|]. eapply appends_trans; [apply appends_u32|].
  eapply appends_trans; apply appends_u64.
Qed.

Lemma lsda_appends lsda s : appends s (emit_fde_lsda lsda s) (aug_of lsda).
Proof.
  unfold emit_fde_lsda, aug_of. destruct (nz lsda); [|apply appends_uleb]. eapply appends_trans; [apply appends_uleb|apply appends_u64].
Qed.

(** An FDE: head, augmentation, call frame instructions. *)
Lemma fde_appends cie addr size aug cfi s s1 s2 :
  appends (emit_fde_head cie addr size s) s1 aug -> appends s1 s2 cfi ->
  appends s (emit_fde_tail (ehf_pos s) s2) (unit_bytes (ehf_pos s) (fde_body (ehf_pos s) cie addr size aug cfi)).
Proof.
  intros H1 H2. apply tail_appends. unfold fde_body. rewrite !app_assoc. rewrite <- app_assoc.
  eapply appends_trans; [|eapply appends_trans; [exact H1|exact H2]]. rewrite <- !app_assoc. apply head_appends.
Qed.

(** ** The instructions of each emitter *)

Definition frame_cfi (encoding : Z) : list cfi_insn :=
  [advance_loc 1; def_cfa DWARF_REG_FP 16; offset DWARF_REG_LR 1; offset DWARF_REG_FP 2] ++ save_insns 3 (saved_regs encoding).

Definition frameless_cfi (encoding : Z) : list cfi_insn :=
  if 0 <? frameless_stack_size encoding
  then [advance_loc 1; def_cfa DWARF_REG_SP (frameless_stack_size encoding)] ++ save_insns 1 (saved_regs encoding)
  else [].

Lemma emit_frame_appends cie addr size encoding lsda s :
  appends s (emit_fde_frame cie addr size encoding lsda s)
    (unit_bytes (ehf_pos s) (fde_body (ehf_pos s) cie addr size (aug_of lsda) (enc_insns (frame_cfi encoding)))).
Proof.
  unfold emit_fde_frame. cbv zeta. eapply fde_appends; [apply lsda_appends|].
  unfold frame_cfi. rewrite enc_insns_app. eapply appends_trans; [|apply emit_pairs_appends].
  change (enc_insns _) with ((([0x41] ++ (([0x0c] ++ uleb128 DWARF_REG_FP) ++ uleb128 16)) ++ enc_insn (offset DWARF_REG_LR 1)) ++ enc_insn (offset DWARF_REG_FP 2)).
  eapply appends_trans; [|by apply appends_offset]. eapply appends_trans; [|by apply appends_offset].
  eapply appends_trans; [by apply appends_u8|]. eapply appends_trans; [|apply appends_uleb].
  eapply appends_trans; [by apply appends_u8|apply appends_uleb].
Qed.

Lemma emit_frameless_appends cie addr size encoding lsda s :
  appends s (emit_fde_frameless cie addr size encoding lsda s)
    (unit_bytes (ehf_pos s) (fde_body (ehf_pos s) cie addr size (aug_of lsda) (enc_insns (frameless_cfi encoding)))).
Proof.
  unfold emit_fde_frameless. cbv zeta. eapply fde_appends; [apply lsda_appends|]. unfold frameless_cfi.
  destruct (0 <? frameless_stack_size encoding); [|apply appends_refl].
  rewrite enc_insns_app. eapply appends_trans; [|apply emit_pairs_appends].
  set (sz := frameless_stack_size encoding).
  assert (E : enc_insns [advance_loc 1; def_cfa DWARF_REG_SP sz] = (([0x41] ++ [0x0c]) ++ uleb128 DWARF_REG_SP) ++ uleb128 sz).
  { unfold enc_insns. cbn [map concat enc_insn app]. by rewrite app_nil_r. }
  rewrite E. eapply appends_trans; [|apply appends_uleb]. eapply appends_trans; [|apply appends_uleb].
  eapply appends_trans; by apply appends_u8.
Qed.

Lemma emit_minimal_appends cie addr size lsda s :
  appends s (emit_fde_minimal cie addr size lsda s) (unit_bytes (ehf_pos s) (fde_body (ehf_pos s) cie addr size (aug_of lsda) [])).
Proof. unfold emit_fde_minimal. cbv zeta. eapply fde_appends; [apply lsda_appends|apply appends_refl]. Qed.

Lemma emit_native_appends cie addr size lsda cfi s : lsda <> 0 -> cfi <> [] ->
  appends s (emit_fde_with_native_cfi cie addr size lsda cfi s) (unit_bytes (ehf_pos s) (fde_body (ehf_pos s) cie addr size (aug_of lsda) cfi)).
Proof.
  intros Hl Hc. unfold emit_fde_with_native_cfi. cbv zeta. unfold aug_of, nz. rewrite (proj2 (Z.eqb_neq _ _)) by done. cbn [negb].
  eapply fde_appends; [eapply appends_trans; [apply appends_uleb|apply appends_u64]|by apply appends_append].
Qed.

(** ** Unwinding *)

Lemma save_insns_ok l slot :
  Forall (fun r => 19 <= r <= 28 \/ 72 <= r <= 79) l -> 0 <= slot -> slot + Z.of_nat (length l) <= 2 ^ 64 -> Forall insn_ok (save_insns slot l).
Proof.
  intros Hl. revert slot. induction Hl as [|r l Hr Hl IH]; intros slot Hs Hb; [constructor|]. cbn [save_insns length] in *.
  constructor; [|apply IH; lia]. destruct (Z.ltb_spec r 64); cbn; lia.
Qed.

Lemma saved_regs_length encoding : (length (saved_regs encoding) <= 18)%nat.
Proof. apply (sublist_length _ _ (saved_regs_sublist encoding pair_table)). Qed.

Lemma saved_insns_ok encoding slot : 0 <= slot < 1000 -> Forall insn_ok (save_insns slot (saved_regs encoding)).
Proof. intros. apply save_insns_ok; [apply saved_regs_ok|lia|]. pose proof (saved_regs_length encoding). lia. Qed.

Lemma frameless_size_fld encoding : frameless_stack_size encoding = 16 * fld encoding 12 12.
Proof.
  unfold frameless_stack_size, fld, UNWIND_ARM64_FRAMELESS_STACK_SIZE_MASK. rewrite Z.shiftr_land.
  change (0xFFF000 .>> 12) with (Z.ones 12). lia.
Qed.

Lemma frame_cfi_ok encoding : Forall insn_ok (frame_cfi encoding).
Proof.
  apply Forall_app. split; [|by apply saved_insns_ok]. repeat (apply List.Forall_cons; [cbn; unfold DWARF_REG_FP, DWARF_REG_LR; lia|]). constructor.
Qed.

Lemma frameless_cfi_ok encoding : Forall insn_ok (frameless_cfi encoding).
Proof.
  unfold frameless_cfi. destruct (_ <? _); [|constructor]. apply Forall_app. split; [|by apply saved_insns_ok].
  rewrite frameless_size_fld. pose proof (fld_range encoding 12 12 ltac:(lia)). repeat (apply List.Forall_cons; [cbn; unfold DWARF_REG_SP; lia|]). constructor.
Qed.

(** The padded instructions decode to themselves and nops. *)
Lemma decode_padded p n : Forall insn_ok p ->
  decode_cfi (length (enc_insns p) + n) (enc_insns p ++ replicate n DW_CFA_nop) = Some (p ++ replicate n nop).
Proof.
  intros Hp. rewrite enc_nops, <- enc_insns_app. apply decode_enc_insns.
  - apply Forall_app. split; [done|]. apply Forall_replicate. done.
  - rewrite enc_insns_app, length_app. rewrite <- enc_nops, length_replicate. done.
Qed.

Lemma frame_row encoding n target x m k :
  4 <= target ->
  let r := run_cfi (frame_cfi encoding ++ replicate n nop) 0 target cie_row in
  snd (dwarf_step r x m) = snd (compact_frame_step encoding x m) /\
  (k <> DWARF_REG_LR -> fst (dwarf_step r x m) k = fst (compact_frame_step encoding x m) k).
Proof.
  intros Ht. destruct (saved_regs_ok encoding) as [Hnd Hr]. unfold frame_cfi. rewrite <- app_assoc. cbn [app run_cfi].
  destruct (Z.ltb_spec target (0 + 4 * 1)); [lia|]. rewrite run_save_insns, run_nops. cbv zeta. cbn [cfa_reg cfa_off rule].
  unfold dwarf_step, compact_frame_step. cbn [cfa_reg cfa_off rule fst snd]. rewrite !saved_rules by done.
  assert (Hnot : forall j, ~ (19 <= j <= 28 \/ 72 <= j <= 79) -> list_find (fun r => r = j) (saved_regs encoding) = None).
  { intros j Hj. apply list_find_None. apply (Forall_impl _ _ _ Hr). intros y Hy ->. done. }
  split.
  - rewrite (Hnot DWARF_REG_LR) by (unfold DWARF_REG_LR; lia). unfold upd. cbn. f_equal. lia.
  - intros Hk. unfold upd. rewrite restore_down_spec by done. rewrite (proj2 (Z.eqb_neq _ _) Hk).
    destruct (Z.eqb_spec k DWARF_REG_SP) as [->|Hsp].
    { rewrite (Hnot DWARF_REG_SP) by (unfold DWARF_REG_SP; lia). done. }
    destruct (Z.eqb_spec k DWARF_REG_FP) as [->|Hfp].
    { rewrite (Hnot DWARF_REG_FP) by (unfold DWARF_REG_FP; lia). cbn. f_equal. lia. }
    destruct (list_find (fun r => r = k) (saved_regs encoding)) as [[i y]|]; [f_equal; lia|done].
Qed.

Lemma frameless_row encoding n target x m k :
  4 <= target ->
  let r := run_cfi (frameless_cfi encoding ++ replicate n nop) 0 target cie_row in
  snd (dwarf_step r x m) = snd (compact_frameless_step encoding x m) /\
  fst (dwarf_step r x m) k = fst (compact_frameless_step encoding x m) k.
Proof.
  intros Ht. destruct (saved_regs_ok encoding) as [Hnd Hr]. unfold frameless_cfi, compact_frameless_step. rewrite frameless_size_fld.
  pose proof (fld_range encoding 12 12 ltac:(lia)). set (sz := fld encoding 12 12) in *.
  assert (Hnot : forall j, ~ (19 <= j <= 28 \/ 72 <= j <= 79) -> list_find (fun r => r = j) (saved_regs encoding) = None).
  { intros j Hj. apply list_find_None. apply (Forall_impl _ _ _ Hr). intros y Hy ->. done. }
  destruct (Z.ltb_spec 0 (16 * sz)), (Z.eqb_spec sz 0); try lia.
  - rewrite <- app_assoc. cbn [app run_cfi]. destruct (Z.ltb_spec target (0 + 4 * 1)); [lia|].
    rewrite run_save_insns, run_nops. cbv zeta. unfold dwarf_step. cbn [cfa_reg cfa_off rule fst snd cie_row]. rewrite !saved_rules by done.
    rewrite (Hnot DWARF_REG_LR) by (unfold DWARF_REG_LR; lia). split; [done|]. unfold upd. rewrite restore_down_spec by done.
    destruct (Z.eqb_spec k DWARF_REG_SP) as [->|Hsp]; [by rewrite (Hnot DWARF_REG_SP) by (unfold DWARF_REG_SP; lia)|].
    destruct (list_find (fun r => r = k) (saved_regs encoding)) as [[i y]|]; [f_equal; lia|done].
  - cbn [app]. rewrite run_nops. cbv zeta. unfold dwarf_step. cbn [cfa_reg cfa_off rule fst snd cie_row]. split; [done|].
    unfold upd. destruct (Z.eqb_spec k DWARF_REG_SP); [f_equal; lia|done].
Qed.

(** The instructions of an FDE with its padding, as the unwinder sees them. *)
Definition padded (pos : Z) (body cfi : list Z) : list Z := cfi ++ padding 8 (pos + 4 + Z.of_nat (length body)).

(** C27. FRAME functions unwind as their compact encoding says.  The FDE
    appended for a FRAME encoding (any saved X and D register pairs, with or
    without an LSDA) carries instructions that, run by a DWARF unwinder at any
    address past the first instruction, restore every register, the stack
    pointer and the return address exactly as the compact encoding does;
    before it the caller's frame is still in SP and LR. *)
Theorem fde_frame_unwinds cie addr size encoding lsda s :
  exists cfi prog,
    let body := fde_body (ehf_pos s) cie addr size (aug_of lsda) cfi in
    ehf_buf (emit_fde_frame cie addr size encoding lsda s) = ehf_buf s ++ unit_bytes (ehf_pos s) body /\
    decode_cfi (length (padded (ehf_pos s) body cfi)) (padded (ehf_pos s) body cfi) = Some prog /\
    (forall target, 0 <= target < 4 -> run_cfi prog 0 target cie_row = cie_row) /\
    forall target x m, 4 <= target ->
      let '(x1, pc1) := dwarf_step (run_cfi prog 0 target cie_row) x m in
      let '(x2, pc2) := compact_frame_step encoding x m in
      pc1 = pc2 /\ forall r, r <> DWARF_REG_LR -> x1 r = x2 r.
Proof.
  set (cfi := enc_insns (frame_cfi encoding)). set (body := fde_body (ehf_pos s) cie addr size (aug_of lsda) cfi).
  exists cfi, (frame_cfi encoding ++ replicate (length (padding 8 (ehf_pos s + 4 + Z.of_nat (length body)))) nop).
  cbv zeta. fold body. split; [apply emit_frame_appends|]. split.
  { unfold padded. rewrite length_app.
    unfold padding. rewrite length_replicate. apply decode_padded, frame_cfi_ok. }
  split.
  - intros target Ht. unfold frame_cfi. cbn [app run_cfi]. destruct (Z.ltb_spec target (0 + 4 * 1)); [done|lia].
  - intros target x m Ht. set (n := length _).
    pose proof (fun k => frame_row encoding n target x m k Ht) as H. cbv zeta in H.
    destruct (dwarf_step _ x m) as [x1 pc1], (compact_frame_step encoding x m) as [x2 pc2]. cbn [fst snd] in H.
    split; [apply (H 0)|]. intros r Hr. by apply (H r).
Qed.

(** FRAMELESS functions unwind as their compact encoding says: the CFA is
    SP plus the encoded stack size, the saved pairs are restored from the top
    of that frame downwards, and the return address is still in LR. *)
Theorem fde_frameless_unwinds cie addr size encoding lsda s :
  exists cfi prog,
    let body := fde_body (ehf_pos s) cie addr size (aug_of lsda) cfi in
    ehf_buf (emit_fde_frameless cie addr size encoding lsda s) = ehf_buf s ++ unit_bytes (ehf_pos s) body /\
    decode_cfi (length (padded (ehf_pos s) body cfi)) (padded (ehf_pos s) body cfi) = Some prog /\
    forall target x m, 4 <= target ->
      let '(x1, pc1) := dwarf_step (run_cfi prog 0 target cie_row) x m in
      let '(x2, pc2) := compact_frameless_step encoding x m in
      pc1 = pc2 /\ forall r, x1 r = x2 r.
Proof.
  set (cfi := enc_insns (frameless_cfi encoding)). set (body := fde_body (ehf_pos s) cie addr size (aug_of lsda) cfi).
  exists cfi, (frameless_cfi encoding ++ replicate (length (padding 8 (ehf_pos s + 4 + Z.of_nat (length body)))) nop).
  cbv zeta. fold body. split; [apply emit_frameless_appends|]. split.
  { unfold padded. rewrite length_app. unfold padding. rewrite length_replicate. apply decode_padded, frameless_cfi_ok. }
  intros target x m Ht. set (n := length _).
  pose proof (fun k => frameless_row encoding n target x m k Ht) as H. cbv zeta in H.
  destruct (dwarf_step _ x m) as [x1 pc1], (compact_frameless_step encoding x m) as [x2 pc2]. cbn [fst snd] in H.
  split; [apply (H 0)|]. intros r. by apply (H r).
Qed.
