(* ===== verification/EhParse.v ===== *)
(** * The native __eh_frame: src/eh_frame.c, parsing

    Pointers are addresses of byte memory; every reader returns the value and
    the advanced pointer. *)

From S2P Require Import Prelude Leb128 EhEmit.
Import Eh.

Module EhParse.

Record hdr_entry := mk_hdr {
  initial_location : Z; address_range : Z; fde_ptr : Z; cfi_ptr : Z; cfi_size : Z;
}.

Definition cmp_hdr_entry (ea eb : hdr_entry) : Z :=
  if initial_location ea <? initial_location eb then -1
  else if initial_location eb <? initial_location ea then 1 else 0.

(** The [switch (encoding & 0x0F)] of both readers: [None] is [return 0]. *)
Definition read_format (m : bytemem) (p limit encoding : Z) : option (Z * Z) :=
  let rd n conv := if limit <? p + n then None else Some (conv (load n p m), p + n) in
  let e := encoding .& 0x0F in
  if e =? 0x00 then rd 8 (fun v => v)
  else if e =? DW_EH_PE_udata2 then rd 2 (fun v => v)
  else if e =? DW_EH_PE_udata4 then rd 4 (fun v => v)
  else if e =? DW_EH_PE_udata8 then rd 8 (fun v => v)
  else if e =? DW_EH_PE_sdata2 then rd 2 (fun v => u64 (i16 v))
  else if e =? DW_EH_PE_sdata4 then rd 4 (fun v => u64 (i32 v))
  else if e =? DW_EH_PE_sdata8 then rd 8 (fun v => v)
  else None.

Definition eh_read_encoded_ptr (m : bytemem) (p limit encoding : Z) : Z * Z :=
  if encoding =? DW_EH_PE_omit then (0, p)
  else match read_format m p limit encoding with
       | None => (0, p)
       | Some (value, q) =>
           let value := if encoding .& 0x70 =? DW_EH_PE_pcrel then u64 (value + p) else value in
           let value := if nz (encoding .& DW_EH_PE_indirect) then load 8 value m else value in
           (value, q)
       end.

Definition eh_read_encoded_value (m : bytemem) (p limit encoding : Z) : Z * Z :=
  match read_format m p limit encoding with Some r => r | None => (0, p) end.

(** [while (p < end && *p) p++] *)
Fixpoint skip_string (fuel : nat) (m : bytemem) (p limit : Z) : Z :=
  match fuel with
  | O => p
  | S fuel => if (p <? limit) && nz (m p mod 256) then skip_string fuel m (p + 1) limit else p
  end.

(** [for (i = 1; aug_str[i] && p < aug_end; i++)]; [a] is [aug_str + i]. *)
Fixpoint aug_loop (fuel : nat) (m : bytemem) (a p aug_end : Z) : Z :=
  match fuel with
  | O => DW_EH_PE_absptr
  | S fuel =>
      let c := m a mod 256 in
      if nz c && (p <? aug_end) then
        if c =? chr "L" then aug_loop fuel m (a + 1) (p + 1) aug_end
        else if c =? chr "P" then
          let '(_, p) := eh_read_encoded_ptr m (p + 1) aug_end (m p mod 256) in aug_loop fuel m (a + 1) p aug_end
        else if c =? chr "R" then m p mod 256
        else DW_EH_PE_absptr
      else DW_EH_PE_absptr
  end.

Definition parse_cie_fde_encoding (m : bytemem) (cie_data cie_length : Z) : Z :=
  let p := cie_data in
  let limit := cie_data + cie_length in
  if limit <? p + 4 then DW_EH_PE_absptr else
  let p := p + 4 in
  if limit <=? p then DW_EH_PE_absptr else
  let version := m p mod 256 in
  let aug_str := p + 1 in
  let p := skip_string (Z.to_nat (limit - aug_str)) m aug_str limit in
  if limit <=? p then DW_EH_PE_absptr else
  let p := p + 1 in
  let '(_, p) := eh_read_uleb128 m p limit in
  let '(_, p) := eh_read_sleb128 m p limit in
  let p := if version =? 1 then (if p <? limit then p + 1 else p) else snd (eh_read_uleb128 m p limit) in
  if negb (m aug_str mod 256 =? chr "z") then DW_EH_PE_absptr else
  let '(aug_len, p) := eh_read_uleb128 m p limit in
  let aug_end := if limit <? u64 (p + aug_len) then limit else u64 (p + aug_len) in
  aug_loop (Z.to_nat (limit - aug_str)) m (aug_str + 1) p aug_end.

Definition parse_cie_has_z_augmentation (m : bytemem) (cie_data cie_length : Z) : bool :=
  let limit := cie_data + cie_length in
  if limit <? cie_data + 5 then false
  else if limit <=? cie_data + 5 then false
  else m (cie_data + 5) mod 256 =? chr "z".

(** The bounds of the record at [pos], with the 64-bit length form. *)
Definition record_bounds (m : bytemem) (eh_frame eh_frame_size pos : Z) : option (Z * Z) :=
  let length := load 4 (eh_frame + pos) m in
  if length =? 0 then None
  else
    let bounds :=
      if length =? 0xFFFFFFFF then
        if eh_frame_size <? u64 (pos + 12) then None
        else Some (u64 (pos + 12), u64 (u64 (pos + 12) + load 8 (eh_frame + pos + 4) m))
      else Some (u64 (pos + 4), u64 (u64 (pos + 4) + length)) in
    match bounds with
    | Some (data_start, data_end) => if eh_frame_size <? data_end then None else Some (data_start, data_end)
    | None => None
    end.

(** The entry of the FDE in [data_start, data_end), if it is one. *)
Definition fde_entry (m : bytemem) (eh_frame eh_frame_size pos data_start data_end : Z) : option hdr_entry :=
  let cie_ptr := load 4 (eh_frame + data_start) m in
  if cie_ptr =? 0 then None
  else
    let cie_pos := u64 (data_start - cie_ptr) in
    if cie_pos <? eh_frame_size then
      let cie_len := load 4 (eh_frame + cie_pos) m in
      let fde_enc := parse_cie_fde_encoding m (eh_frame + cie_pos + 4) cie_len in
      let fde_end := eh_frame + data_end in
      let '(init_loc, fde_p) := eh_read_encoded_ptr m (eh_frame + data_start + 4) fde_end fde_enc in
      let '(range, fde_p) := eh_read_encoded_value m fde_p fde_end fde_enc in
      let fde_p :=
        if parse_cie_has_z_augmentation m (eh_frame + cie_pos + 4) cie_len && (fde_p <? fde_end) then
          let '(aug_len, fde_p) := eh_read_uleb128 m fde_p fde_end in
          if aug_len <=? fde_end - fde_p then fde_p + aug_len else fde_end
        else fde_p in
      if negb (init_loc =? 0) then Some (mk_hdr init_loc range (eh_frame + pos) fde_p (u64 (fde_end - fde_p))) else None
    else None.

(** The [while] over records; [None] when [fuel] rounds do not finish it. *)
Fixpoint parse_records (fuel : nat) (m : bytemem) (eh_frame eh_frame_size pos : Z) : option (list hdr_entry) :=
  match fuel with
  | O => None
  | S fuel =>
      if eh_frame_size <? u64 (pos + 4) then Some []
      else match record_bounds m eh_frame eh_frame_size pos with
           | None => Some []
           | Some (data_start, data_end) =>
               match parse_records fuel m eh_frame eh_frame_size data_end with
               | None => None
               | Some l => Some (match fde_entry m eh_frame eh_frame_size pos data_start data_end with
                                 | Some e => e :: l | None => l end)
               end
           end
  end.

(** A record takes at least five bytes unless its 64-bit length wraps. *)
Definition parse_fuel (eh_frame_size : Z) : nat := Z.to_nat (eh_frame_size / 5 + 2).
Definition parse_native_eh_frame_fdes (m : bytemem) (eh_frame eh_frame_size : Z) : option (list hdr_entry) :=
  parse_records (parse_fuel eh_frame_size) m eh_frame eh_frame_size 0.

Fixpoint find_native_fde (entries : list hdr_entry) (loc : Z) : option hdr_entry :=
  match entries with
  | [] => None
  | e :: entries =>
      let limit := u64 (initial_location e + address_range e) in
      if initial_location e =? loc then Some e
      else if nz (address_range e) && (initial_location e <? loc) && (loc <? limit) then Some e
      else find_native_fde entries loc
  end.

Fixpoint has_entry_start (entries : list hdr_entry) (loc : Z) : bool :=
  match entries with
  | [] => false
  | e :: entries => if initial_location e =? loc then true else has_entry_start entries loc
  end.

(** ** Termination *)

Lemma load4_pos m a : 0 <= load 4 a m < 2 ^ 32.
Proof. apply (load_range 4 a m). lia. Qed.

(** With every record's length read without wrapping, a record advances. *)
Definition no_wrap (m : bytemem) (eh_frame eh_frame_size : Z) : Prop :=
  forall pos, 0 <= pos < eh_frame_size -> load 4 (eh_frame + pos) m = 0xFFFFFFFF ->
    pos + 12 + load 8 (eh_frame + pos + 4) m < 2 ^ 64.

Lemma record_advances m a size pos ds de :
  no_wrap m a size -> 0 <= pos -> size < 2 ^ 62 -> pos + 4 <= size ->
  record_bounds m a size pos = Some (ds, de) -> pos + 5 <= de <= size /\ pos + 4 <= ds.
Proof.
  intros Hw Hp Hs Hps. unfold record_bounds. pose proof (load4_pos m (a + pos)) as Hl.
  destruct (Z.eqb_spec (load 4 (a + pos) m) 0); [done|].
  destruct (Z.eqb_spec (load 4 (a + pos) m) 0xFFFFFFFF) as [E|E].
  - specialize (Hw pos ltac:(lia) E). rewrite (u64_small (pos + 12)) by lia.
    destruct (Z.ltb_spec size (pos + 12)); [done|]. pose proof (load_range 8 (a + pos + 4) m ltac:(lia)).
    rewrite u64_small by lia. destruct (Z.ltb_spec size (pos + 12 + load 8 (a + pos + 4) m)); [done|]. intros [= <- <-]. lia.
  - rewrite (u64_small (pos + 4)), u64_small by lia.
    destruct (Z.ltb_spec size (pos + 4 + load 4 (a + pos) m)); [done|]. intros [= <- <-]. lia.
Qed.

Lemma parse_records_done fuel m a size pos :
  no_wrap m a size -> 0 <= pos <= size -> size < 2 ^ 62 -> size - pos < 5 * Z.of_nat fuel ->
  exists l, parse_records fuel m a size pos = Some l.
Proof.
  intros Hw Hp Hs. revert pos Hp. induction fuel as [|fuel IH]; intros pos Hp Hf; [lia|]. cbn [parse_records].
  rewrite u64_small by lia. destruct (Z.ltb_spec size (pos + 4)); [by eexists|].
  destruct (record_bounds m a size pos) as [[ds de]|] eqn:E; [|by eexists].
  destruct (record_advances m a size pos ds de Hw ltac:(lia) Hs ltac:(lia) E) as [Hd _].
  destruct (IH de ltac:(lia) ltac:(lia)) as [l ->]. by eexists.
Qed.

Lemma parse_records_mono fuel fuel' m a size pos l :
  parse_records fuel m a size pos = Some l -> (fuel <= fuel')%nat -> parse_records fuel' m a size pos = Some l.
Proof.
  revert fuel' pos l. induction fuel as [|fuel IH]; intros fuel' pos l H Hf; [done|]. destruct fuel' as [|fuel']; [lia|].
  cbn [parse_records] in *. destruct (_ <? _); [done|]. destruct (record_bounds m a size pos) as [[ds de]|]; [|done].
  destruct (parse_records fuel m a size de) as [r|] eqn:E; [|done]. by rewrite (IH fuel' de r E) by lia.
Qed.
End EhParse.
