(* ===== verification/EhCollect.v ===== *)
(** * The compact unwind section: src/eh_frame.c, collect_entries

    [__TEXT,__unwind_info] is read from byte memory at [u]; its structures are
    loads at their offsets. *)

From stdpp Require Import sorting.
From S2P Require Import Prelude EhEmit.
Import Eh.

Module EhCollect.

Definition UNWIND_SECOND_LEVEL_REGULAR : Z := 2.
Definition UNWIND_SECOND_LEVEL_COMPRESSED : Z := 3.

(** [struct unwind_info_section_header] *)
Definition hdr_version (m : bytemem) (u : Z) : Z := load 4 u m.
Definition hdr_common_offset (m : bytemem) (u : Z) : Z := load 4 (u + 4) m.
Definition hdr_common_count (m : bytemem) (u : Z) : Z := load 4 (u + 8) m.
Definition hdr_personality_offset (m : bytemem) (u : Z) : Z := load 4 (u + 12) m.
Definition hdr_personality_count (m : bytemem) (u : Z) : Z := load 4 (u + 16) m.
Definition hdr_index_offset (m : bytemem) (u : Z) : Z := load 4 (u + 20) m.
Definition hdr_index_count (m : bytemem) (u : Z) : Z := load 4 (u + 24) m.

(** [struct unwind_info_section_header_index_entry], 12 bytes each. *)
Definition index_at (m : bytemem) (u idx : Z) : Z := u + hdr_index_offset m u + 12 * idx.
Definition index_function (m : bytemem) (u idx : Z) : Z := load 4 (index_at m u idx) m.
Definition index_page (m : bytemem) (u idx : Z) : Z := load 4 (index_at m u idx + 4) m.
Definition index_lsda (m : bytemem) (u idx : Z) : Z := load 4 (index_at m u idx + 8) m.

(** The second-level page headers share their first fields. *)
Definition page_kind (m : bytemem) (page : Z) : Z := load 4 page m.
Definition page_entry_offset (m : bytemem) (page : Z) : Z := load 2 (page + 4) m.
Definition page_entry_count (m : bytemem) (page : Z) : Z := load 2 (page + 6) m.
Definition page_encodings_offset (m : bytemem) (page : Z) : Z := load 2 (page + 8) m.
Definition page_encodings_count (m : bytemem) (page : Z) : Z := load 2 (page + 10) m.

(** [func_size] is 0 until the sizes are set. *)
Record cu_entry := mk_cu { func_offset : Z; func_size : Z; encoding : Z; lsda_offset : Z }.

(** The binary search for the LSDA of a function: 0 when there is none. *)
Fixpoint lsda_search (fuel : nat) (m : bytemem) (lsda_arr func lo hi : Z) : Z :=
  match fuel with
  | O => 0
  | S fuel =>
      if lo <=? hi then
        let mid := (lo + hi) / 2 in
        let f := load 4 (lsda_arr + 8 * mid) m in
        if f =? func then load 4 (lsda_arr + 8 * mid + 4) m
        else if f <? func then lsda_search fuel m lsda_arr func (mid + 1) hi
        else lsda_search fuel m lsda_arr func lo (mid - 1)
      else 0
  end.

(** The range of the array halves: its length bounds the rounds. *)
Definition lsda_lookup (m : bytemem) (lsda_arr count func : Z) : Z :=
  lsda_search (Z.to_nat count) m lsda_arr func 0 (count - 1).

Definition lsda_of (m : bytemem) (lsda_arr count func enc : Z) : Z :=
  if nz (enc .& UNWIND_HAS_LSDA) then lsda_lookup m lsda_arr count func else 0.

Section collect.
Context (m : bytemem) (u unwind_size common_encodings common_count : Z).

(** Is there a second-level page for index [idx]? *)
Definition has_page (idx : Z) : bool := negb (index_page m u idx =? 0) && (index_page m u idx <? unwind_size).

Definition page_total (idx : Z) : Z :=
  if has_page idx then
    let kind := page_kind m (u + index_page m u idx) in
    if (kind =? UNWIND_SECOND_LEVEL_COMPRESSED) || (kind =? UNWIND_SECOND_LEVEL_REGULAR)
    then page_entry_count m (u + index_page m u idx) else 0
  else 0.

(** [for (idx = 0; idx + 1 < indexCount; idx++)] *)
Definition indices : list Z := map Z.of_nat (seq 0 (Z.to_nat (hdr_index_count m u - 1))).

Definition total_entries : Z := fold_left (fun total idx => total + page_total idx) indices 0.

Definition lsda_array (idx : Z) : Z := u + index_lsda m u idx.
Definition lsda_count (idx : Z) : Z := u32 (index_lsda m u (idx + 1) - index_lsda m u idx) / 8.

(** Entry [i] of the page of index [idx]. *)
Definition compressed_entry (idx i : Z) : cu_entry :=
  let page := u + index_page m u idx in
  let entry := load 4 (page + page_entry_offset m page + 4 * i) m in
  let func := u32 (index_function m u idx + (entry .& 0x00FFFFFF)) in
  let enc_idx := (entry .>> 24) .& 0xFF in
  let enc := if enc_idx <? common_count then load 4 (common_encodings + 4 * enc_idx) m
             else if enc_idx - common_count <? page_encodings_count m page
             then load 4 (page + page_encodings_offset m page + 4 * (enc_idx - common_count)) m
             else 0 in
  mk_cu func 0 enc (lsda_of m (lsda_array idx) (lsda_count idx) func enc).

Definition regular_entry (idx i : Z) : cu_entry :=
  let page := u + index_page m u idx in
  let a := page + page_entry_offset m page + 8 * i in
  let func := load 4 a m in
  let enc := load 4 (a + 4) m in
  mk_cu func 0 enc (lsda_of m (lsda_array idx) (lsda_count idx) func enc).

(** [for (i = 0; i < entryCount && count < total; i++)]; [n] rounds are left. *)
Fixpoint page_loop (n : nat) (i : Z) (entry : Z -> cu_entry) (total : Z) (acc : list cu_entry) : list cu_entry :=
  match n with
  | O => acc
  | S n => if Z.of_nat (length acc) <? total then page_loop n (i + 1) entry total (acc ++ [entry i]) else acc
  end.

Definition collect_page (total : Z) (acc : list cu_entry) (idx : Z) : list cu_entry :=
  if has_page idx then
    let page := u + index_page m u idx in
    let kind := page_kind m page in
    if kind =? UNWIND_SECOND_LEVEL_COMPRESSED then
      page_loop (Z.to_nat (page_entry_count m page)) 0 (compressed_entry idx) total acc
    else if kind =? UNWIND_SECOND_LEVEL_REGULAR then
      page_loop (Z.to_nat (page_entry_count m page)) 0 (regular_entry idx) total acc
    else acc
  else acc.

(** The inner [while] of the insertion sort, on the sorted prefix from its
    last entry down. *)
Fixpoint insert_down (tmp : cu_entry) (prefix_rev : list cu_entry) : list cu_entry :=
  match prefix_rev with
  | [] => [tmp]
  | e :: rest => if func_offset tmp <? func_offset e then e :: insert_down tmp rest else tmp :: prefix_rev
  end.
Definition insertion_sort (l : list cu_entry) : list cu_entry :=
  rev (fold_left (fun prefix_rev tmp => insert_down tmp prefix_rev) l []).

(** Sizes from the gaps; 256 for the last function. *)
Fixpoint set_sizes (l : list cu_entry) : list cu_entry :=
  match l with
  | [] => []
  | e :: rest =>
      let size := match rest with e' :: _ => u32 (func_offset e' - func_offset e) | [] => 256 end in
      mk_cu (func_offset e) size (encoding e) (lsda_offset e) :: set_sizes rest
  end.

(** [None] is -1. *)
Definition collect_entries : option (list cu_entry) :=
  if negb (hdr_version m u =? 1) then None
  else
    let total := total_entries in
    if total =? 0 then Some []
    else Some (set_sizes (insertion_sort (fold_left (collect_page total) indices []))).

(** ** The entries of the pages *)

(** All entries of the page of index [idx], in order. *)
Definition page_entries (idx : Z) : list cu_entry :=
  if has_page idx then
    let page := u + index_page m u idx in
    let nums := map Z.of_nat (seq 0 (Z.to_nat (page_entry_count m page))) in
    if page_kind m page =? UNWIND_SECOND_LEVEL_COMPRESSED then map (compressed_entry idx) nums
    else if page_kind m page =? UNWIND_SECOND_LEVEL_REGULAR then map (regular_entry idx) nums
    else []
  else [].
Definition all_entries : list cu_entry := flat_map page_entries indices.

Lemma page_loop_all n i entry total acc :
  Z.of_nat (length acc) + Z.of_nat n <= total ->
  page_loop n i entry total acc = acc ++ map (fun k => entry (i + Z.of_nat k)) (seq 0 n).
Proof.
  revert i acc. induction n as [|n IH]; intros i acc H; cbn [page_loop seq map]; [by rewrite app_nil_r|].
  destruct (Z.ltb_spec (Z.of_nat (length acc)) total); [|lia].
  rewrite IH by (rewrite length_app; cbn; lia). rewrite <- app_assoc. cbn [app]. rewrite Z.add_0_r. do 2 f_equal.
  rewrite <- seq_shift, map_map. apply map_ext. intros k. f_equal. lia.
Qed.

Lemma page_entries_length idx : Z.of_nat (length (page_entries idx)) = page_total idx.
Proof.
  unfold page_entries, page_total. destruct (has_page idx); [|done].
  pose proof (load_range 2 (u + index_page m u idx + 6) m ltac:(lia)) as Hr.
  destruct (_ =? UNWIND_SECOND_LEVEL_COMPRESSED); [|destruct (_ =? UNWIND_SECOND_LEVEL_REGULAR); [|done]];
    rewrite !length_map, length_seq; cbn [orb]; unfold page_entry_count; lia.
Qed.

Lemma collect_page_all total acc idx :
  Z.of_nat (length acc) + page_total idx <= total -> collect_page total acc idx = acc ++ page_entries idx.
Proof.
  rewrite <- page_entries_length. unfold collect_page, page_entries. destruct (has_page idx); [|by rewrite app_nil_r].
  destruct (_ =? UNWIND_SECOND_LEVEL_COMPRESSED); [|destruct (_ =? UNWIND_SECOND_LEVEL_REGULAR); [|by rewrite app_nil_r]];
    rewrite !length_map, length_seq; intros H; rewrite page_loop_all by done; by rewrite map_map.
Qed.

Lemma total_from t l : fold_left (fun total idx => total + page_total idx) l t = t + Z.of_nat (length (flat_map page_entries l)).
Proof.
  revert t. induction l as [|i l IH]; intros t; cbn [fold_left flat_map]; [cbn; lia|].
  rewrite IH, length_app, <- page_entries_length. lia.
Qed.

(** The guard [count < total] never cuts a page short. *)
Lemma collected_all : fold_left (collect_page total_entries) indices [] = all_entries.
Proof.
  unfold total_entries, all_entries. rewrite total_from, Z.add_0_l.
  assert (H : forall l acc t, Z.of_nat (length acc) + Z.of_nat (length (flat_map page_entries l)) <= t ->
    fold_left (collect_page t) l acc = acc ++ flat_map page_entries l).
  { induction l as [|i l IH]; intros acc t Ht; cbn [fold_left flat_map] in *; [by rewrite app_nil_r|].
    rewrite length_app in Ht. rewrite collect_page_all by (rewrite <- page_entries_length; lia).
    rewrite IH by (rewrite length_app; lia). by rewrite app_assoc. }
  by apply (H indices []).
Qed.

(** ** Sorting and sizes *)

Definition by_offset (a b : cu_entry) : Prop := func_offset a <= func_offset b.

Lemma insert_down_perm tmp l : Permutation (insert_down tmp l) (tmp :: l).
Proof.
  induction l as [|e l IH]; cbn; [done|]. destruct (_ <? _); [|done]. rewrite IH. apply perm_swap.
Qed.

Lemma insert_down_sorted tmp l : StronglySorted (flip by_offset) l -> StronglySorted (flip by_offset) (insert_down tmp l).
Proof.
  induction l as [|e l IH]; intros Hs; cbn; [by repeat constructor|].
  apply StronglySorted_inv in Hs as [Hs Hf]. unfold flip, by_offset in *.
  destruct (Z.ltb_spec (func_offset tmp) (func_offset e)).
  - constructor; [by apply IH|]. rewrite (insert_down_perm tmp l).
    constructor; [lia|done].
  - constructor; [by constructor|]. constructor; [lia|]. eapply Forall_impl; [exact Hf|]. cbn. lia.
Qed.

Lemma insertion_sort_spec l : Permutation (insertion_sort l) l /\ StronglySorted by_offset (insertion_sort l).
Proof.
  unfold insertion_sort.
  assert (H : forall l acc, StronglySorted (flip by_offset) acc ->
    Permutation (fold_left (fun p t => insert_down t p) l acc) (l ++ acc) /\
    StronglySorted (flip by_offset) (fold_left (fun p t => insert_down t p) l acc)).
  { clear l. induction l as [|e l IH]; intros acc Ha; cbn [fold_left app]; [done|].
    destruct (IH (insert_down e acc) (insert_down_sorted e acc Ha)) as [Hp Hs]. split; [|done].
    rewrite Hp, insert_down_perm. by rewrite Permutation_middle. }
  destruct (H l [] ltac:(constructor)) as [Hp Hs]. rewrite app_nil_r in Hp. split; [by rewrite <- Permutation_rev|].
  clear H Hp. induction Hs as [|e r Hs IH Hf]; cbn; [constructor|].
  apply StronglySorted_app. split; [|split; [done|by repeat constructor]].
  intros x y Hx Hy. apply list_elem_of_singleton in Hy as ->. rewrite Forall_forall in Hf. apply (Hf x).
  rewrite list_elem_of_In in *. by rewrite in_rev.
Qed.

Definition key (e : cu_entry) : Z * Z * Z := (func_offset e, encoding e, lsda_offset e).

Lemma set_sizes_key l : map key (set_sizes l) = map key l.
Proof. induction l as [|e l IH]; [done|]. cbn [set_sizes map]. by rewrite IH. Qed.

Lemma set_sizes_sorted l : StronglySorted by_offset l -> StronglySorted by_offset (set_sizes l).
Proof.
  intros Hs. apply Sorted_StronglySorted; [intros ???; unfold by_offset; lia|]. apply StronglySorted_Sorted in Hs.
  induction Hs as [|e l Hs IH Hd]; cbn [set_sizes]; constructor; [done|].
  destruct l as [|e' l]; cbn [set_sizes]; constructor. by inversion Hd.
Qed.

Definition in_u32 (e : cu_entry) : Prop := 0 <= func_offset e < 2 ^ 32.

Lemma set_sizes_gaps l i e e' :
  StronglySorted by_offset l -> Forall in_u32 l ->
  set_sizes l !! i = Some e -> set_sizes l !! S i = Some e' -> func_offset e + func_size e = func_offset e'.
Proof.
  revert i. induction l as [|a l IH]; intros i Hs Hf Hi Hj; [done|].
  apply StronglySorted_inv in Hs as [Hs Hle]. apply Forall_cons in Hf as [Ha Hf].
  destruct i as [|i]; cbn [set_sizes lookup list_lookup] in Hi, Hj; [|by eapply IH].
  destruct l as [|b l]; [done|]. cbn [set_sizes] in Hj. cbn in Hi, Hj. injection Hi as <-. injection Hj as <-. cbn [func_offset func_size].
  apply Forall_cons in Hle as [Hab _]. apply Forall_cons in Hf as [Hb _]. unfold by_offset, in_u32 in *.
  rewrite u32_small; lia.
Qed.

Lemma set_sizes_last l e : last (set_sizes l) = Some e -> func_size e = 256.
Proof.
  induction l as [|a l IH]; [done|]. cbn [set_sizes]. destruct l as [|b l]; [by intros [= <-]|]. exact IH.
Qed.

Lemma all_entries_in_u32 : Forall in_u32 all_entries.
Proof.
  apply Forall_forall. intros e He. rewrite list_elem_of_In in He. apply in_flat_map in He as (idx&_&He).
  unfold page_entries in He. destruct (has_page idx); [|done].
  destruct (_ =? UNWIND_SECOND_LEVEL_COMPRESSED); [|destruct (_ =? UNWIND_SECOND_LEVEL_REGULAR); [|done]];
    apply in_map_iff in He as (i&<-&_); unfold in_u32; cbn [func_offset compressed_entry regular_entry]; [apply u32_range|].
  apply (load_range 4). lia.
Qed.
End collect.

(** The compact unwind pages become one table: for a version 1 section
    [collect_entries] returns every entry of every regular and compressed page
    (function offset, encoding, LSDA offset), sorted by function offset, and
    each function's size reaches exactly to the next function; the last one
    gets 256 bytes. *)
Theorem collect_entries_spec m u unwind_size common count :
  hdr_version m u = 1 ->
  exists l, collect_entries m u unwind_size common count = Some l /\
    Permutation (map key l) (map key (all_entries m u unwind_size common count)) /\
    StronglySorted by_offset l /\
    (forall i e e', l !! i = Some e -> l !! S i = Some e' -> func_offset e + func_size e = func_offset e') /\
    (forall e, last l = Some e -> func_size e = 256).
Proof.
  intros Hv. unfold collect_entries. rewrite Hv. cbn [Z.eqb negb Pos.eqb].
  destruct (Z.eqb_spec (total_entries m u unwind_size) 0) as [E|E].
  - exists []. unfold total_entries in E. rewrite (total_from m u unwind_size common count) in E.
    unfold all_entries. destruct (flat_map _ _); [|cbn in E; lia]. split; [done|]. split; [done|]. split; [constructor|done].
  - eexists. split; [reflexivity|]. rewrite collected_all.
    destruct (insertion_sort_spec (all_entries m u unwind_size common count)) as [Hp Hs].
    rewrite set_sizes_key. split; [by rewrite Hp|]. split; [by apply set_sizes_sorted|].
    split; [|by apply set_sizes_last]. intros i e e'. apply set_sizes_gaps; [done|].
    rewrite Hp. apply all_entries_in_u32.
Qed.

(** A version 1 section with one regular page of two functions. *)
Definition demo_unwind : bytemem :=
  let w a v := store 4 a v in
  w 0 1 (w 20 28 (w 24 2 (w 28 0x100 (w 32 0x40 (w 40 0x900
    (w 0x40 2 (store 2 0x44 8 (store 2 0x46 2 (w 0x48 0x300 (w 0x4c 0x04000000 (w 0x50 0x100 (w 0x54 0x02001000 (fun _ => 0))))))))))))).

Lemma collect_entries_spec_witness :
  exists l, collect_entries demo_unwind 0 0x1000 0 0 = Some l /\ map func_offset l = [0x100; 0x300] /\
    (forall i e e', l !! i = Some e -> l !! S i = Some e' -> func_offset e + func_size e = func_offset e').
Proof.
  destruct (collect_entries_spec demo_unwind 0 0x1000 0 0 eq_refl) as (l&E&_&_&Hg&_).
  exists l. split; [exact E|]. split; [|exact Hg]. vm_compute in E. injection E as <-. reflexivity.
Defined.

(** ** The LSDA search *)

Lemma lsda_search_spec fuel m arr func lo hi :
  (forall i j, lo <= i < j -> j <= hi -> load 4 (arr + 8 * i) m < load 4 (arr + 8 * j) m) ->
  hi - lo + 1 <= Z.of_nat fuel ->
  (forall k, lo <= k <= hi -> load 4 (arr + 8 * k) m = func -> lsda_search fuel m arr func lo hi = load 4 (arr + 8 * k + 4) m) /\
  ((forall k, lo <= k <= hi -> load 4 (arr + 8 * k) m <> func) -> lsda_search fuel m arr func lo hi = 0).
Proof.
  revert lo hi. induction fuel as [|fuel IH]; intros lo hi Hs Hf.
  - split; [intros k Hk; lia|done].
  - cbn [lsda_search]. destruct (Z.leb_spec lo hi) as [Hle|Hgt]; [|split; [intros k Hk; lia|done]].
    set (mid := (lo + hi) / 2). assert (Hmid : lo <= mid <= hi) by (unfold mid; split; [apply Z.div_le_lower_bound|apply Z.div_le_upper_bound]; lia).
    destruct (Z.eqb_spec (load 4 (arr + 8 * mid) m) func) as [E|E].
    + split; [|intros Hn; by destruct (Hn mid Hmid)]. intros k Hk Ek. destruct (Z.lt_trichotomy k mid) as [Hl|[->|Hl]]; [|done|].
      * specialize (Hs k mid ltac:(lia) ltac:(lia)). lia.
      * specialize (Hs mid k ltac:(lia) ltac:(lia)). lia.
    + destruct (Z.ltb_spec (load 4 (arr + 8 * mid) m) func) as [Hlt|Hge].
      * destruct (IH (mid + 1) hi) as [IH1 IH2]; [intros i j Hij Hj; apply Hs; lia|lia|]. split.
        -- intros k Hk Ek. apply IH1; [|done]. destruct (Z.le_gt_cases k mid) as [Hkm|]; [|lia]. exfalso.
           destruct (Z.eq_dec k mid) as [->|]; [done|]. specialize (Hs k mid ltac:(lia) ltac:(lia)). lia.
        -- intros Hn. apply IH2. intros k Hk. apply Hn. lia.
      * destruct (IH lo (mid - 1)) as [IH1 IH2]; [intros i j Hij Hj; apply Hs; lia|lia|]. split.
        -- intros k Hk Ek. apply IH1; [|done]. destruct (Z.le_gt_cases mid k) as [Hkm|]; [|lia]. exfalso.
           destruct (Z.eq_dec k mid) as [->|]; [done|]. specialize (Hs mid k ltac:(lia) ltac:(lia)). lia.
        -- intros Hn. apply IH2. intros k Hk. apply Hn. lia.
Qed.

(** The LSDA search is correct: on an index sorted by function offset it
    returns the LSDA of the function when the index has one, and 0 when not. *)
Theorem lsda_lookup_correct m arr count func :
  0 <= count -> (forall i j, 0 <= i < j -> j < count -> load 4 (arr + 8 * i) m < load 4 (arr + 8 * j) m) ->
  (forall k, 0 <= k < count -> load 4 (arr + 8 * k) m = func -> lsda_lookup m arr count func = load 4 (arr + 8 * k + 4) m) /\
  ((forall k, 0 <= k < count -> load 4 (arr + 8 * k) m <> func) -> lsda_lookup m arr count func = 0).
Proof.
  intros Hc Hs. unfold lsda_lookup.
  destruct (lsda_search_spec (Z.to_nat count) m arr func 0 (count - 1)) as [H1 H2]; [intros i j Hij Hj; apply Hs; lia|lia|].
  split; [intros k Hk; apply H1; lia|]. intros Hn. apply H2. intros k Hk. apply Hn. lia.
Qed.

Definition demo_lsda : bytemem := store 4 0 0x100 (store 4 4 0x51 (store 4 8 0x200 (store 4 12 0x52 (store 4 16 0x300 (store 4 20 0x53 (fun _ => 0)))))).

Lemma lsda_lookup_correct_witness : lsda_lookup demo_lsda 0 3 0x300 = 0x53 /\ lsda_lookup demo_lsda 0 3 0x201 = 0.
Proof.
  assert (Hs : forall i j, 0 <= i < j -> j < 3 -> load 4 (0 + 8 * i) demo_lsda < load 4 (0 + 8 * j) demo_lsda).
  { intros i j Hij Hj. assert (i = 0 \/ i = 1) as [->| ->] by lia; [assert (j = 1 \/ j = 2) as [->| ->] by lia|assert (j = 2) as -> by lia]; reflexivity. }
  split.
  - destruct (lsda_lookup_correct demo_lsda 0 3 0x300 ltac:(lia) Hs) as [H _]. exact (H 2 ltac:(lia) eq_refl).
  - destruct (lsda_lookup_correct demo_lsda 0 3 0x201 ltac:(lia) Hs) as [_ H]. apply H.
    intros k Hk. assert (k = 0 \/ k = 1 \/ k = 2) as [->|[->| ->]] by lia; discriminate.
Defined.
End EhCollect.
