(* ===== verification/EhFrame.v ===== *)
(** * Generating and registering unwind tables: src/eh_frame.c

    The main entry point: sections, compact unwind entries, native FDEs, the
    synthetic .eh_frame and its .eh_frame_hdr, and the interposed
    [_dl_find_object].  Memory mapping calls are the host's. *)

From stdpp Require Import sorting.
From S2P Require Import Prelude Leb128 Macho GatePatch EhEmit EhParse EhCollect.
Import Eh EhParse EhCollect GatePools.

Module EhFrame.

Definition INT32_MAX : Z := 2 ^ 31 - 1.
Definition MAP_FAILED : Z := 2 ^ 64 - 1.

(** ** Placement near the text *)

Definition near_step : Z := 0x02000000.
Definition near_limit : Z := 0x70000000.

Section host.
Context (H : host_memory).

(** One candidate: [Some] ends the search. *)
Definition try_near (base size candidate : Z) (h : hm_state H) : option Z * hm_state H :=
  if candidate =? 0 then (None, h)
  else
    let '(result, h) := hm_map H candidate size h in
    if result =? 0 then (None, h)
    else
      let distance := i64 (i64 result - i64 base) in
      if (- INT32_MAX <? distance) && (distance <? INT32_MAX) then (Some result, h)
      else (None, hm_unmap H result size h).

Definition near_page (a : Z) : Z := a .& Z.lnot 0xfff.

Fixpoint near_loop (fuel : nat) (delta base size : Z) (h : hm_state H) : option Z * hm_state H :=
  match fuel with
  | O => (None, h)
  | S fuel =>
      if delta <? near_limit then
        match try_near base size (near_page (u64 (base + delta))) h with
        | (Some r, h) => (Some r, h)
        | (None, h) =>
            match try_near base size (if delta <? base then near_page (base - delta) else 0) h with
            | (Some r, h) => (Some r, h)
            | (None, h) => near_loop fuel (delta + near_step) base size h
            end
        end
      else (None, h)
  end.

(** 0x70000000 / 0x02000000 = 56 rounds; [None] is MAP_FAILED. *)
Definition mmap_near_address (base size : Z) (h : hm_state H) : option Z * hm_state H :=
  near_loop 57 near_step base size h.

(** ** The sections of the image *)

Record eh_sections := mk_ehs { text_base : Z; text_vmsize : Z; unwind_info : Z; unwind_size : Z; native_eh_frame : Z; native_size : Z }.

Definition scan_section (slide : Z) (s : eh_sections) (sect : section_64) : eh_sections :=
  let s := if String.eqb (sectname sect) "__unwind_info"
           then mk_ehs (text_base s) (text_vmsize s) (u64 (sect_addr sect + slide)) (sect_size sect) (native_eh_frame s) (native_size s) else s in
  if String.eqb (sectname sect) "__eh_frame"
  then mk_ehs (text_base s) (text_vmsize s) (unwind_info s) (unwind_size s) (u64 (sect_addr sect + slide)) (sect_size sect) else s.

Definition scan_command (slide : Z) (s : eh_sections) (lc : load_command) : eh_sections :=
  match body lc with
  | LC_SEGMENT_64 seg =>
      if String.eqb (segname seg) "__TEXT" then
        fold_left (scan_section slide) (sections seg)
          (mk_ehs (vmaddr seg) (vmsize seg) (unwind_info s) (unwind_size s) (native_eh_frame s) (native_size s))
      else s
  | _ => s
  end.

(** [text_size] is a static variable: kept when there is no __TEXT. *)
Definition locate_sections (image : mach_header_64) (slide old_text_size : Z) : eh_sections :=
  fold_left (scan_command slide) (commands image) (mk_ehs 0 old_text_size 0 0 0 0).

Definition eh_frame_has_unwind_info (image : mach_header_64) : bool :=
  existsb (fun lc => match body lc with
                     | LC_SEGMENT_64 seg => String.eqb (segname seg) "__TEXT" &&
                         existsb (fun sect => String.eqb (sectname sect) "__unwind_info") (sections seg)
                     | _ => false
                     end) (commands image).

(** Personality [i], read through its GOT entry; 0 past the array. *)
Definition personality (m : bytemem) (u text : Z) (i : Z) : Z :=
  if (i <? hdr_personality_count m u) && (i <? 4)
  then load 8 (u64 (text + i32 (load 4 (u + hdr_personality_offset m u + 4 * i) m))) m else 0.

(** ** Emitting the FDEs *)

(** [n] bytes at [a]. *)
Definition read_bytes (m : bytemem) (a n : Z) : list Z :=
  map (fun i => m (a + Z.of_nat i) mod 256) (seq 0 (Z.to_nat n)).

(** [text] is [text_base + slide].  The flag says whether an FDE was emitted. *)
Definition emit_entry (m : bytemem) (text : Z) (natives : list hdr_entry) (cie_with cie_without : Z)
    (e : cu_entry) (s : ehf) : bool * ehf :=
  let enc := encoding e in
  let mode := enc .& UNWIND_ARM64_MODE_MASK in
  let func_addr := u64 (text + func_offset e) in
  let has_lsda := nz (enc .& UNWIND_HAS_LSDA) in
  let lsda_addr := if has_lsda && nz (lsda_offset e) then u64 (text + lsda_offset e) else 0 in
  let cie := if has_lsda then cie_with else cie_without in
  let native := if nz lsda_addr then
                  match find_native_fde natives func_addr with
                  | Some n => if nz (cfi_ptr n) && nz (cfi_size n) then Some n else None
                  | None => None
                  end
                else None in
  match native with
  | Some n =>
      let range := if nz (address_range n) then u32 (address_range n) else func_size e in
      (true, emit_fde_with_native_cfi cie_with func_addr range lsda_addr (read_bytes m (cfi_ptr n) (cfi_size n)) s)
  | None =>
      if mode =? UNWIND_ARM64_MODE_DWARF then (false, s)
      else if nz (enc .& UNWIND_IS_NOT_FUNCTION_START) then (false, s)
      else if mode =? UNWIND_ARM64_MODE_FRAME then (true, emit_fde_frame cie func_addr (func_size e) enc lsda_addr s)
      else if mode =? UNWIND_ARM64_MODE_FRAMELESS then (true, emit_fde_frameless cie func_addr (func_size e) enc lsda_addr s)
      else (true, emit_fde_minimal cie func_addr (func_size e) lsda_addr s)
  end.

Fixpoint emit_entries (m : bytemem) (text : Z) (natives : list hdr_entry) (cie_with cie_without : Z)
    (l : list cu_entry) (emitted : Z) (s : ehf) : Z * ehf :=
  match l with
  | [] => (emitted, s)
  | e :: l => let '(b, s) := emit_entry m text natives cie_with cie_without e s in
              emit_entries m text natives cie_with cie_without l (emitted + b2z b) s
  end.

(** The whole synthetic section: two CIEs, the FDEs, the terminator.  Also
    the number of FDEs and the offset of the personality pointer. *)
Definition build_eh_frame (m : bytemem) (text personality0 capacity value_offset : Z) (natives : list hdr_entry)
    (entries : list cu_entry) : ehf * Z * Z :=
  let s := mk_ehf [] capacity false in
  let '(cie_with, value_offset, s) := emit_cie personality0 value_offset s in
  let '(cie_without, value_offset, s) := emit_cie 0 value_offset s in
  let '(emitted, s) := emit_entries m text natives cie_with cie_without entries 0 s in
  (ehf_u32 0 s, emitted, value_offset).

(** ** The index *)

(** The walk over the synthetic section at [buf]; [len] bytes of it. *)
Fixpoint syn_walk (fuel : nat) (m : bytemem) (buf len pos : Z) : list hdr_entry :=
  match fuel with
  | O => []
  | S fuel =>
      if pos + 4 <? len then
        let length := load 4 (buf + pos) m in
        if length =? 0 then []
        else
          let rest := syn_walk fuel m buf len (pos + 4 + length) in
          if load 4 (buf + pos + 4) m =? 0 then rest
          else mk_hdr (load 8 (buf + pos + 8) m) (load 8 (buf + pos + 16) m) (buf + pos) 0 0 :: rest
      else []
  end.

(** Every record has at least its length and one more byte. *)
Definition syn_entries (m : bytemem) (buf len : Z) : list hdr_entry := syn_walk (Z.to_nat len) m buf len 0.

(** Native FDEs that start where a synthetic one does are left out. *)
Definition merge_entries (syn nat : list hdr_entry) : list hdr_entry :=
  syn ++ List.filter (fun e => negb (has_entry_start syn (initial_location e))) nat.

(** [qsort] with [cmp_hdr_entry]. *)
Definition hdr_le (a b : hdr_entry) : Prop := cmp_hdr_entry a b <= 0.
#[global] Instance hdr_le_dec a b : Decision (hdr_le a b) := decide (cmp_hdr_entry a b <= 0).
Definition qsort_entries (l : list hdr_entry) : list hdr_entry := merge_sort hdr_le l.

Definition rel_ok (r : Z) : bool := (- 2 ^ 31 <=? r) && (r <=? INT32_MAX).

(** The table after the 12-byte header, and whether every row could be
    encoded: it stops at the first that cannot. *)
Fixpoint hdr_table (hdr : Z) (l : list hdr_entry) : list Z * bool :=
  match l with
  | [] => ([], true)
  | e :: l =>
      let initial_rel := i64 (i64 (initial_location e) - i64 hdr) in
      let fde_rel := i64 (i64 (fde_ptr e) - i64 hdr) in
      if rel_ok initial_rel && rel_ok fde_rel then
        let '(t, ok) := hdr_table hdr l in (le_bytes 4 initial_rel ++ le_bytes 4 fde_rel ++ t, ok)
      else ([], false)
  end.

Definition hdr_magic : list Z :=
  [1; DW_EH_PE_pcrel .| DW_EH_PE_sdata4; DW_EH_PE_udata4; DW_EH_PE_datarel .| DW_EH_PE_sdata4].

(** The bytes written to the header, and whether all of it could be. *)
Definition build_hdr (hdr eh_frame : Z) (l : list hdr_entry) : list Z * bool :=
  let eh_frame_rel := i64 (i64 eh_frame - i64 (hdr + 4)) in
  if negb (rel_ok eh_frame_rel) then (hdr_magic, false)
  else let '(t, ok) := hdr_table hdr l in
       (hdr_magic ++ le_bytes 4 eh_frame_rel ++ le_bytes 4 (Z.of_nat (length l)) ++ t, ok).

(** ** Registration *)

(** What is kept for the startup cache. *)
Record pending_cache := mk_pending {
  pending_eh_frame : list Z; pending_pairs : list (Z * Z); pending_personality_offset : Z; pending_fde_count : Z;
}.

(** The static variables. *)
Record eh_statics := mk_st {
  macho_text_start : Z; macho_text_end : Z; text_size : Z;
  macho_eh_frame : Z; macho_eh_frame_size : Z;
  macho_eh_frame_hdr : Z; macho_eh_frame_hdr_size : Z;
  cie_personality_value_offset : Z; pending : option pending_cache;
}.

(** Result, statics, memory, host. *)
Definition eh_result : Type := Z * eh_statics * bytemem * hm_state H.

(** The pairs of the cache: start and offset of the FDE from the buffer. *)
Definition cache_pairs (buf : Z) (l : list hdr_entry) : list (Z * Z) :=
  map (fun e => (initial_location e, u64 (fde_ptr e - buf))) l.

(** From the emitted section on: index, header, statics, cache contents. *)
Definition register_hdr (cache_enabled : bool) (slide : Z) (sec : eh_sections) (text buf value_offset emitted : Z) (s : ehf)
    (natives : list hdr_entry) (old : eh_statics) (m : bytemem) (h : hm_state H) : eh_result :=
  let m := place buf (ehf_buf s) m in
  let st hdr hdr_size p :=
    mk_st text (u64 (text + text_vmsize sec)) (text_vmsize sec) buf (ehf_pos s) hdr hdr_size value_offset p in
  let all := qsort_entries (merge_entries (syn_entries m buf (ehf_pos s)) natives) in
  match mmap_near_address text (12 + 8 * Z.of_nat (length all)) h with
  | (None, h) => (-1, st MAP_FAILED (macho_eh_frame_hdr_size old) (pending old), m, h)
  | (Some hdr, h) =>
      let '(bytes, ok) := build_hdr hdr buf all in
      let m := place hdr bytes m in
      if negb ok then (-1, st hdr (macho_eh_frame_hdr_size old) (pending old), m, h)
      else
        let p := if (slide =? 0) && cache_enabled && (0 <? value_offset) && (value_offset + 8 <=? ehf_pos s)
                 then Some (mk_pending (ehf_buf s) (cache_pairs buf all) value_offset emitted) else pending old in
        (0, st hdr (Z.of_nat (length bytes)) p, m, h)
  end.

(** [None] when the native section cannot be walked to an end. *)
Definition eh_frame_generate_and_register (cache_enabled : bool) (image : mach_header_64) (slide : Z)
    (st : eh_statics) (m : bytemem) (h : hm_state H) : option eh_result :=
  let sec := locate_sections image slide (text_size st) in
  let st := mk_st (macho_text_start st) (macho_text_end st) (text_vmsize sec) (macho_eh_frame st) (macho_eh_frame_size st)
                  (macho_eh_frame_hdr st) (macho_eh_frame_hdr_size st) (cie_personality_value_offset st) (pending st) in
  if unwind_info sec =? 0 then Some (-1, st, m, h)
  else
    let u := unwind_info sec in
    let text := u64 (text_base sec + slide) in
    match collect_entries m u (unwind_size sec) (u + hdr_common_offset m u) (hdr_common_count m u) with
    | None => Some (-1, st, m, h)
    | Some [] => Some (0, st, m, h)
    | Some entries =>
        let natives := if nz (native_eh_frame sec) && (0 <? native_size sec)
                       then parse_native_eh_frame_fdes m (native_eh_frame sec) (native_size sec) else Some [] in
        match natives with
        | None => None
        | Some natives =>
            let capacity := Z.of_nat (length entries) * 128 + native_size sec + 4096 in
            match mmap_near_address text capacity h with
            | (None, h) => Some (-1, st, m, h)
            | (Some buf, h) =>
                let '(s, emitted, value_offset) :=
                  build_eh_frame m text (personality m u text 0) capacity (cie_personality_value_offset st) natives entries in
                Some (register_hdr cache_enabled slide sec text buf value_offset emitted s natives st m h)
            end
        end
    end.

(** The interposed [_dl_find_object]: [Some] is the object filled in. *)
Record dl_find_object := mk_dlfo { dlfo_map_start : Z; dlfo_map_end : Z; dlfo_eh_frame : Z }.
Definition _dl_find_object (real : Z -> option dl_find_object) (st : eh_statics) (pc : Z) : option dl_find_object :=
  if nz (macho_eh_frame_hdr st) && (macho_text_start st <=? pc) && (pc <? macho_text_end st)
  then Some (mk_dlfo (macho_text_start st) (macho_text_end st) (macho_eh_frame_hdr st))
  else real pc.
End host.
End EhFrame.
