(* ===== verification/EhIndex.v ===== *)
(** * The synthetic section as a sequence of records *)

From stdpp Require Import sorting.
From S2P Require Import Prelude Macho GatePatch Leb128 EhEmit EhDwarf EhFde EhParse EhCollect EhFrame.
Import Eh EhParse EhCollect EhFrame.

(** ** Records one after the other *)

Definition unit_length (pos : Z) (body : list Z) : Z := Z.of_nat (length (unit_bytes pos body)).

(** A record's contents may depend on where it is. *)
Fixpoint units (pos : Z) (bodies : list (Z -> list Z)) : list Z :=
  match bodies with
  | [] => []
  | b :: bodies => unit_bytes pos (b pos) ++ units (pos + unit_length pos (b pos)) bodies
  end.

Lemma units_snoc bs b pos :
  units pos (bs ++ [b]) = units pos bs ++ unit_bytes (pos + Z.of_nat (length (units pos bs))) (b (pos + Z.of_nat (length (units pos bs)))).
Proof.
  revert pos. induction bs as [|c bs IH]; intros pos; cbn [app units].
  - cbn [length Z.of_nat]. by rewrite Z.add_0_r, app_nil_r.
  - rewrite IH, length_app, Nat2Z.inj_add. unfold unit_length at 1 3 5. rewrite <- !app_assoc, !Z.add_assoc. done.
Qed.

Lemma unit_length_eq pos body :
  unit_length pos body = 4 + Z.of_nat (length body) + Z.of_nat (length (padding 8 (pos + 4 + Z.of_nat (length body)))).
Proof. unfold unit_length, unit_bytes. rewrite !length_app, le_bytes_length. lia. Qed.

Lemma padding_small align n : 0 < align -> Z.of_nat (length (padding align n)) = (- n) mod align.
Proof. intros Ha. unfold padding. rewrite length_replicate. pose proof (Z.mod_pos_bound (- n) align Ha). lia. Qed.

Lemma unit_length_bounds pos body :
  4 + Z.of_nat (length body) <= unit_length pos body < 12 + Z.of_nat (length body).
Proof. rewrite unit_length_eq, padding_small by lia. pose proof (Z.mod_pos_bound (- (pos + 4 + Z.of_nat (length body))) 8). lia. Qed.

(** The buffer holds records [bs] and nothing else. *)
Definition holds (s : ehf) (bs : list (Z -> list Z)) : Prop := ehf_buf s = units 0 bs.

Lemma holds_append s s' bs b :
  holds s bs -> appends s s' (unit_bytes (ehf_pos s) (b (ehf_pos s))) -> holds s' (bs ++ [b]).
Proof.
  intros Hs Ha. unfold holds in *. rewrite (ap_buf _ _ _ Ha), units_snoc. unfold ehf_pos. by rewrite Hs, Z.add_0_l.
Qed.

(** ** The CIEs *)

Definition cie_body (personality : Z) : list Z :=
  le_bytes 4 0 ++ [1] ++
  (if nz personality then [122; 80; 76; 82; 0] else [122; 82; 0]) ++
  [4; 120; 30] ++
  (if nz personality then [11; 0] ++ le_bytes 8 personality ++ [0; 0] else [1; 0]) ++
  [12; 31; 0].

Lemma appends_eq s s' l l' : appends s s' l -> l = l' -> appends s s' l'.
Proof. by intros H <-. Qed.

Lemma appends_sleb8 s : appends s (ehf_sleb128 (-8) s) [120].
Proof. apply (appends_bytes [120]). repeat constructor; lia. Qed.

Lemma appends_chars_zplr s : appends s (ehf_chars ["z"; "P"; "L"; "R"]%string s) [122; 80; 76; 82].
Proof. apply (appends_bytes [122; 80; 76; 82]). repeat constructor; lia. Qed.
Lemma appends_chars_zr s : appends s (ehf_chars ["z"; "R"]%string s) [122; 82].
Proof. apply (appends_bytes [122; 82]). repeat constructor; lia. Qed.

(** Peel the emitters off from the last one. *)
Ltac ap_step :=
  first [ apply appends_u64 | apply appends_u32 | (apply appends_u8; done) | apply appends_uleb | apply appends_sleb8
        | apply appends_chars_zplr | apply appends_chars_zr ].
Ltac ap := first [ ap_step | eapply appends_trans; [|ap_step]; ap ].

Lemma cie_tail s s' body :
  appends s s' (le_bytes 4 0 ++ body) ->
  appends s (ehf_patch_u32 (ehf_pos s) (u32 (ehf_pos (ehf_align 8 s') - ehf_pos (ehf_u32 0 s))) (ehf_align 8 s')) (unit_bytes (ehf_pos s) body).
Proof.
  intros H. replace (ehf_pos (ehf_u32 0 s)) with (ehf_pos s + 4) by (rewrite (appends_pos _ _ _ (appends_u32 0 s)); done).
  by apply tail_appends.
Qed.

Lemma emit_cie_appends p vo s :
  fst (fst (emit_cie p vo s)) = ehf_pos s /\
  snd (fst (emit_cie p vo s)) = (if nz p then ehf_pos s + 19 else vo) /\
  appends s (snd (emit_cie p vo s)) (unit_bytes (ehf_pos s) (cie_body p)).
Proof.
  unfold emit_cie, cie_body. destruct (nz p) eqn:Ep; cbv zeta; cbn [snd fst]; (split; [done|]; split).
  - rewrite (appends_pos s _ ([0; 0; 0; 0; 0; 0; 0; 0; 1; 122; 80; 76; 82; 0; 4; 120; 30; 11; 0])); [done|]. eapply appends_eq; [ap|done].
  - apply cie_tail. eapply appends_eq; [ap|]. rewrite <- !app_assoc. done.
  - done.
  - apply cie_tail. eapply appends_eq; [ap|]. rewrite <- !app_assoc. done.
Qed.

(** ** What the entries become *)

(** An FDE: CIE, start, size, LSDA, instructions. *)
Record fde := mk_fde { f_cie : Z; f_addr : Z; f_size : Z; f_lsda : Z; f_cfi : list Z }.
Definition body_of (f : fde) (pos : Z) : list Z := fde_body pos (f_cie f) (f_addr f) (f_size f) (aug_of (f_lsda f)) (f_cfi f).

Definition entry_lsda (text : Z) (e : cu_entry) : Z :=
  if nz (encoding e .& UNWIND_HAS_LSDA) && nz (lsda_offset e) then u64 (text + lsda_offset e) else 0.

(** The native FDE whose instructions are copied, if any. *)
Definition native_of (text : Z) (natives : list hdr_entry) (e : cu_entry) : option hdr_entry :=
  if nz (entry_lsda text e) then
    match find_native_fde natives (u64 (text + func_offset e)) with
    | Some n => if nz (cfi_ptr n) && nz (cfi_size n) then Some n else None
    | None => None
    end
  else None.

Definition entry_fde (m : bytemem) (text : Z) (natives : list hdr_entry) (cie_with cie_without : Z) (e : cu_entry) : option fde :=
  let addr := u64 (text + func_offset e) in
  let lsda := entry_lsda text e in
  let cie := if nz (encoding e .& UNWIND_HAS_LSDA) then cie_with else cie_without in
  let mode := encoding e .& UNWIND_ARM64_MODE_MASK in
  match native_of text natives e with
  | Some n => Some (mk_fde cie_with addr (if nz (address_range n) then u32 (address_range n) else func_size e) lsda
                      (read_bytes m (cfi_ptr n) (cfi_size n)))
  | None =>
      if (mode =? UNWIND_ARM64_MODE_DWARF) || nz (encoding e .& UNWIND_IS_NOT_FUNCTION_START) then None
      else Some (mk_fde cie addr (func_size e) lsda
             (if mode =? UNWIND_ARM64_MODE_FRAME then enc_insns (frame_cfi (encoding e))
              else if mode =? UNWIND_ARM64_MODE_FRAMELESS then enc_insns (frameless_cfi (encoding e)) else []))
  end.

Lemma native_of_cfi text natives e n : native_of text natives e = Some n -> nz (cfi_size n) = true /\ nz (entry_lsda text e) = true.
Proof.
  unfold native_of. destruct (nz (entry_lsda text e)); [|done]. destruct (find_native_fde _ _) as [k|]; [|done].
  destruct (nz (cfi_ptr k)), (nz (cfi_size k)) eqn:E; cbn; try done. by intros [= <-].
Qed.

Lemma find_native_in natives loc n : find_native_fde natives loc = Some n -> In n natives.
Proof.
  induction natives as [|e l IH]; [done|]. cbn. destruct (_ =? _); [intros [= ->]; by left|].
  destruct (_ && _); [intros [= ->]; by left|]. intros H. right. by apply IH.
Qed.

Lemma native_of_in text natives e n : native_of text natives e = Some n -> In n natives.
Proof.
  unfold native_of. destruct (nz _); [|done]. destruct (find_native_fde _ _) as [k|] eqn:E; [|done].
  destruct (_ && _); [|done]. intros [= <-]. by eapply find_native_in.
Qed.

Definition natives_ok (natives : list hdr_entry) : Prop := Forall (fun n => 0 <= cfi_size n) natives.

Lemma emit_entry_appends m text natives cw cn e s :
  natives_ok natives ->
  match entry_fde m text natives cw cn e with
  | Some f => exists s', emit_entry m text natives cw cn e s = (true, s') /\ appends s s' (unit_bytes (ehf_pos s) (body_of f (ehf_pos s)))
  | None => emit_entry m text natives cw cn e s = (false, s)
  end.
Proof.
  intros Hok. unfold entry_fde, emit_entry. cbv zeta. fold (entry_lsda text e). fold (native_of text natives e).
  destruct (native_of text natives e) as [n|] eqn:En.
  - eexists. split; [reflexivity|]. unfold body_of. cbn [f_cie f_addr f_size f_lsda f_cfi].
    destruct (native_of_cfi _ _ _ _ En) as [Hz Hl]. unfold nz in Hz, Hl. apply emit_native_appends.
    + intros E. by rewrite E in Hl.
    + intros E. assert (Hlen : length (read_bytes m (cfi_ptr n) (cfi_size n)) = Z.to_nat (cfi_size n)) by (unfold read_bytes; by rewrite length_map, length_seq).
      rewrite E in Hlen. cbn in Hlen. unfold natives_ok in Hok. rewrite List.Forall_forall in Hok.
      specialize (Hok n (native_of_in _ _ _ _ En)). destruct (Z.eqb_spec (cfi_size n) 0); [done|lia].
  - destruct (_ =? UNWIND_ARM64_MODE_DWARF); [done|]. cbn [orb].
    destruct (nz (encoding e .& UNWIND_IS_NOT_FUNCTION_START)); [done|].
    destruct (_ =? UNWIND_ARM64_MODE_FRAME); [eexists; split; [reflexivity|apply emit_frame_appends]|].
    destruct (_ =? UNWIND_ARM64_MODE_FRAMELESS); [eexists; split; [reflexivity|apply emit_frameless_appends]|].
    eexists. split; [reflexivity|apply emit_minimal_appends].
Qed.

Definition fdes_of (m : bytemem) (text : Z) (natives : list hdr_entry) (cw cn : Z) (l : list cu_entry) : list fde :=
  omap (entry_fde m text natives cw cn) l.

(** Appending keeps the capacity and reports only what is past it. *)
Definition in_bounds (s : ehf) : Prop := ehf_pos s <= ehf_capacity s -> ehf_overflowed s = false.

Lemma appends_in_bounds s s' l : in_bounds s -> appends s s' l -> in_bounds s'.
Proof.
  intros Hs Ha Hc. pose proof (appends_pos _ _ _ Ha). destruct Ha as [_ C O]. rewrite C in Hc. rewrite O, Hs by lia.
  destruct (Z.ltb_spec (ehf_capacity s) (ehf_pos s')); [lia|]. by rewrite andb_false_r.
Qed.

Lemma emit_entries_holds m text natives cw cn l n s bs :
  natives_ok natives -> holds s bs -> in_bounds s ->
  exists s', emit_entries m text natives cw cn l n s = (n + Z.of_nat (length (fdes_of m text natives cw cn l)), s') /\
    holds s' (bs ++ map body_of (fdes_of m text natives cw cn l)) /\ in_bounds s' /\ ehf_capacity s' = ehf_capacity s.
Proof.
  intros Hok. revert n s bs. induction l as [|e l IH]; intros n s bs Hs Hb; cbn [emit_entries fdes_of omap list_omap].
  - exists s. cbn. rewrite Z.add_0_r, app_nil_r. done.
  - pose proof (emit_entry_appends m text natives cw cn e s Hok) as He. fold (fdes_of m text natives cw cn l).
    destruct (entry_fde m text natives cw cn e) as [f|].
    + destruct He as (s1&->&Ha). destruct (IH (n + b2z true) s1 (bs ++ [body_of f])) as (s'&E&H1&H2&H3).
      * by eapply holds_append.
      * by eapply appends_in_bounds.
      * exists s'. rewrite E. split; [f_equal; cbn [b2z length]; lia|]. rewrite H3, (ap_cap _ _ _ Ha).
        cbn [map]. by rewrite <- app_assoc in H1.
    + rewrite He. destruct (IH (n + b2z false) s bs Hs Hb) as (s'&E&H1). exists s'. rewrite E. split; [f_equal; cbn [b2z]; lia|done].
Qed.

(** The second CIE follows the first. *)
Definition second_cie (p : Z) : Z := unit_length 0 (cie_body p).

(** The whole section: two CIEs, the FDEs of the entries, the terminator. *)
Lemma build_eh_frame_holds m text p capacity vo natives entries :
  natives_ok natives ->
  let fdes := fdes_of m text natives 0 (second_cie p) entries in
  let '(s, emitted, vo') := build_eh_frame m text p capacity vo natives entries in
  ehf_buf s = units 0 ([fun _ => cie_body p; fun _ => cie_body 0] ++ map body_of fdes) ++ le_bytes 4 0 /\
  emitted = Z.of_nat (length fdes) /\ vo' = (if nz p then 19 else vo) /\ in_bounds s /\ ehf_capacity s = capacity.
Proof.
  intros Hok. cbv zeta. unfold build_eh_frame.
  set (s0 := mk_ehf [] capacity false). assert (H0 : holds s0 []) by done. assert (B0 : in_bounds s0) by done.
  destruct (emit_cie_appends p vo s0) as (E1&E2&E3). destruct (emit_cie p vo s0) as [[c1 v1] s1]. cbn [fst snd] in *.
  destruct (emit_cie_appends 0 v1 s1) as (F1&F2&F3). destruct (emit_cie 0 v1 s1) as [[c2 v2] s2]. cbn [fst snd] in *.
  pose proof (holds_append s0 s1 [] (fun _ => cie_body p) H0 E3) as H1. cbn [app] in H1.
  pose proof (holds_append s1 s2 _ (fun _ => cie_body 0) H1 F3) as H2. cbn [app] in H2.
  pose proof (appends_in_bounds _ _ _ B0 E3) as B1. pose proof (appends_in_bounds _ _ _ B1 F3) as B2.
  assert (Hc2 : c2 = second_cie p). { rewrite F1. unfold ehf_pos. rewrite H1. cbn [units]. rewrite app_nil_r. done. }
  subst c2. subst c1. change (ehf_pos s0) with 0 in *. rewrite Hc2.
  destruct (emit_entries_holds m text natives 0 (second_cie p) entries 0 s2 _ Hok H2 B2) as (s'&E&H3&B3&C3). rewrite E.
  pose proof (appends_u32 0 s') as Ha. rewrite (ap_buf _ _ _ Ha), H3. split; [done|]. split; [lia|].
  split; [subst v1 v2; change (nz 0) with false; cbv iota; by destruct (nz p)|].
  split; [by eapply appends_in_bounds|]. rewrite (ap_cap _ _ _ Ha), C3, (ap_cap _ _ _ F3), (ap_cap _ _ _ E3). done.
Qed.

(** * The index of the synthetic section *)

Import Eh EhParse EhCollect EhFrame GatePools.

(** ** Reading records back *)

Inductive eh_record := Cie (personality : Z) | Fde (f : fde).
Definition record_body (r : eh_record) (pos : Z) : list Z := match r with Cie p => cie_body p | Fde f => body_of f pos end.
Definition record_units (pos : Z) (rs : list eh_record) : list Z := units pos (map record_body rs).

(** Addresses and sizes fit their fields, the CIE is before the FDE. *)
Definition fde_ok (f : fde) : Prop := 0 <= f_addr f < 2 ^ 64 /\ 0 <= f_size f < 2 ^ 64.

(** Where each record of the list starts. *)
Fixpoint placed (pos : Z) (rs : list eh_record) : list (Z * eh_record) :=
  match rs with
  | [] => []
  | r :: rs => (pos, r) :: placed (pos + unit_length pos (record_body r pos)) rs
  end.

Definition index_entry (buf : Z) (p : Z * eh_record) : list hdr_entry :=
  match snd p with Cie _ => [] | Fde f => [mk_hdr (f_addr f) (f_size f) (buf + fst p) 0 0] end.

Lemma bytes_at_load n m a k v rest :
  bytes_at m a (le_bytes k v ++ rest) -> k = Z.to_nat n -> 0 <= n -> 0 <= v < 2 ^ (8 * n) -> load n a m = v.
Proof. intros H -> Hn Hv. rewrite (load_bytes n m a v rest H Hn). by apply Z.mod_small. Qed.

Lemma record_body_length r pos : 8 <= Z.of_nat (length (record_body r pos)).
Proof.
  destruct r as [p|f]; cbn [record_body].
  - unfold cie_body. rewrite !length_app, le_bytes_length. destruct (nz p); cbn; lia.
  - unfold body_of, fde_body. rewrite !length_app, !le_bytes_length. lia.
Qed.

(** The length field of a record, and its contents after it. *)
Lemma read_unit m a pos body rest :
  bytes_at m a (unit_bytes pos body ++ rest) -> unit_length pos body < 2 ^ 32 ->
  load 4 a m = unit_length pos body - 4 /\
  bytes_at m (a + 4) (body ++ padding 8 (pos + 4 + Z.of_nat (length body))) /\
  bytes_at m (a + unit_length pos body) rest.
Proof.
  intros Hm Hl. apply bytes_at_app in Hm as [Hm Hr]. change (Z.of_nat (length (unit_bytes pos body))) with (unit_length pos body) in Hr.
  split; [|split; [|done]].
  - unfold unit_bytes in Hm. rewrite unit_length_eq in Hl |- *.
    rewrite u32_small in Hm by lia. rewrite (bytes_at_load 4 m a 4 _ _ Hm); try done; lia.
  - unfold unit_bytes in Hm. apply bytes_at_app in Hm as [_ Hm]. by rewrite le_bytes_length in Hm.
Qed.

Lemma read_cie_word m a p rest : bytes_at m a (cie_body p ++ rest) -> load 4 a m = 0.
Proof. intros H. unfold cie_body in H. rewrite <- !app_assoc in H. apply (bytes_at_load 4 m a 4 0 _ H); done. Qed.

Lemma read_fde_words m a f pos rest :
  bytes_at m a (body_of f pos ++ rest) -> fde_ok f -> 0 <= f_cie f <= pos -> pos + 4 < 2 ^ 32 ->
  load 4 a m = pos + 4 - f_cie f /\ load 8 (a + 4) m = f_addr f /\ load 8 (a + 12) m = f_size f /\
  bytes_at m (a + 20) (aug_of (f_lsda f) ++ f_cfi f ++ rest).
Proof.
  intros H [Ha Hs] Hc Hp. unfold body_of, fde_body in H. rewrite <- !app_assoc in H.
  rewrite (u32_small (pos + 4 - f_cie f)) in H by lia.
  pose proof (bytes_at_load 4 m a 4 _ _ H eq_refl ltac:(lia) ltac:(lia)) as E1.
  apply bytes_at_app in H as [_ H]. rewrite le_bytes_length in H. change (Z.of_nat 4) with 4 in H.
  pose proof (bytes_at_load 8 m (a + 4) 8 _ _ H eq_refl ltac:(lia) Ha) as E2.
  apply bytes_at_app in H as [_ H]. rewrite le_bytes_length in H. change (Z.of_nat 8) with 8 in H.
  replace (a + 4 + 8) with (a + 12) in H by lia.
  pose proof (bytes_at_load 8 m (a + 12) 8 _ _ H eq_refl ltac:(lia) Hs) as E3.
  apply bytes_at_app in H as [_ H]. rewrite le_bytes_length in H. change (Z.of_nat 8) with 8 in H.
  replace (a + 12 + 8) with (a + 20) in H by lia. done.
Qed.

Definition records_ok (pos : Z) (rs : list eh_record) : Prop :=
  Forall (fun p => match snd p with Fde f => fde_ok f /\ 0 <= f_cie f <= fst p | Cie _ => True end) (placed pos rs).

Lemma units_cons pos r rs :
  record_units pos (r :: rs) = unit_bytes pos (record_body r pos) ++ record_units (pos + unit_length pos (record_body r pos)) rs.
Proof. done. Qed.

Lemma units_length_cons pos r rs :
  Z.of_nat (length (record_units pos (r :: rs))) =
  unit_length pos (record_body r pos) + Z.of_nat (length (record_units (pos + unit_length pos (record_body r pos)) rs)).
Proof. rewrite units_cons, length_app. unfold unit_length. lia. Qed.

(** The walk finds exactly the FDEs, where they are. *)
Lemma syn_walk_units rs fuel m buf pos :
  bytes_at m (buf + pos) (record_units pos rs ++ le_bytes 4 0) -> records_ok pos rs -> 0 <= pos ->
  pos + Z.of_nat (length (record_units pos rs)) + 4 < 2 ^ 32 -> (length (record_units pos rs) < fuel)%nat ->
  syn_walk fuel m buf (pos + Z.of_nat (length (record_units pos rs)) + 4) pos = flat_map (index_entry buf) (placed pos rs).
Proof.
  revert fuel pos. induction rs as [|r rs IH]; intros fuel pos Hm Hok Hp Hb Hf; (destruct fuel as [|fuel]; [lia|]); cbn [syn_walk].
  - change (record_units pos []) with (@nil Z). cbn [length]. change (Z.of_nat 0) with 0. destruct (Z.ltb_spec (pos + 4) (pos + 0 + 4)); [lia|done].
  - pose proof (record_body_length r pos) as Hl. pose proof (unit_length_bounds pos (record_body r pos)) as Hu.
    pose proof (units_length_cons pos r rs) as Hc. set (ul := unit_length pos (record_body r pos)) in *.
    rewrite units_cons, <- app_assoc in Hm. destruct (read_unit _ _ _ _ _ Hm ltac:(unfold ul in *; lia)) as (E1&Hbody&Hrest).
    fold ul in E1, Hrest. rewrite E1. destruct (Z.ltb_spec (pos + 4) (pos + Z.of_nat (length (record_units pos (r :: rs))) + 4)); [|lia].
    destruct (Z.eqb_spec (ul - 4) 0); [lia|].
    apply Forall_cons in Hok as [Hr Hok]. cbn [fst snd] in Hr. fold ul in Hok.
    replace (pos + 4 + (ul - 4)) with (pos + ul) by lia.
    assert (IH' : syn_walk fuel m buf (pos + Z.of_nat (length (record_units pos (r :: rs))) + 4) (pos + ul) = flat_map (index_entry buf) (placed (pos + ul) rs)).
    { replace (pos + Z.of_nat (length (record_units pos (r :: rs))) + 4) with (pos + ul + Z.of_nat (length (record_units (pos + ul) rs)) + 4) by lia.
      apply IH; [by replace (buf + (pos + ul)) with (buf + pos + ul) by lia|done|lia|lia|lia]. }
    rewrite IH'. cbn [placed flat_map]. fold ul.
    destruct r as [p|f]; cbn [record_body index_entry snd fst app] in *.
    + by rewrite (read_cie_word _ _ _ _ Hbody).
    + destruct Hr as [Hfok Hcie]. destruct (read_fde_words _ _ _ _ _ Hbody Hfok Hcie ltac:(lia)) as (W1&W2&W3&_).
      rewrite W1. replace (buf + pos + 8) with (buf + pos + 4 + 4) by lia. replace (buf + pos + 16) with (buf + pos + 4 + 12) by lia.
      rewrite W2, W3. destruct (Z.eqb_spec (pos + 4 - f_cie f) 0); [lia|done].
Qed.

(** ** The records of a generated section *)

Definition section_records (m : bytemem) (text p : Z) (natives : list hdr_entry) (entries : list cu_entry) : list eh_record :=
  [Cie p; Cie 0] ++ map Fde (fdes_of m text natives 0 (second_cie p) entries).

Lemma section_units m text p natives entries :
  units 0 ([fun _ => cie_body p; fun _ => cie_body 0] ++ map body_of (fdes_of m text natives 0 (second_cie p) entries)) =
  record_units 0 (section_records m text p natives entries).
Proof. unfold record_units, section_records. rewrite map_app, map_map. done. Qed.

Lemma placed_pos pos rs q : In q (placed pos rs) -> pos <= fst q.
Proof.
  revert pos. induction rs as [|r rs IH]; intros pos; cbn [placed]; [done|]. intros [<-|Hin]; [cbn; lia|].
  specialize (IH _ Hin). pose proof (unit_length_bounds pos (record_body r pos)). lia.
Qed.

Lemma placed_in pos rs q : In q (placed pos rs) -> In (snd q) rs.
Proof. revert pos. induction rs as [|r rs IH]; intros pos; cbn [placed]; [done|]. intros [<-|Hin]; [by left|right; eauto]. Qed.

Definition entries_fit (entries : list cu_entry) : Prop := Forall (fun e => 0 <= func_size e < 2 ^ 64) entries.

Lemma entry_fde_ok m text natives cw cn e f :
  0 <= func_size e < 2 ^ 64 -> entry_fde m text natives cw cn e = Some f -> fde_ok f /\ (f_cie f = cw \/ f_cie f = cn).
Proof.
  intros Hs. unfold entry_fde. cbv zeta. destruct (native_of text natives e) as [n|].
  - intros [= <-]. split; [split; [apply u64_range|]|by left]. cbn [f_size]. destruct (nz _); [|done].
    pose proof (u32_range (address_range n)). lia.
  - destruct (_ || _); [done|]. intros [= <-]. split; [split; [apply u64_range|done]|]. cbn [f_cie]. destruct (nz _); auto.
Qed.

Lemma section_records_ok m text p natives entries : entries_fit entries -> records_ok 0 (section_records m text p natives entries).
Proof.
  intros He. unfold records_ok, section_records. cbn [app placed]. apply List.Forall_cons; [done|]. apply List.Forall_cons; [done|].
  apply List.Forall_forall. intros q Hq. pose proof (placed_pos _ _ _ Hq) as Hpos. apply placed_in in Hq.
  destruct (snd q) as [|f]; [done|]. apply in_map_iff in Hq as (f'&[= ->]&Hf).
  unfold fdes_of in Hf. rewrite <- list_elem_of_In in Hf. apply list_elem_of_omap in Hf as (e&Hin&Ee).
  unfold entries_fit in He. rewrite Forall_forall in He. destruct (entry_fde_ok _ _ _ _ _ _ _ (He e Hin) Ee) as [Hok Hc]. split; [done|].
  cbn [record_body] in Hpos. unfold second_cie in *. pose proof (unit_length_bounds 0 (cie_body p)).
  pose proof (unit_length_bounds (0 + unit_length 0 (cie_body p)) (cie_body 0)). destruct Hc as [->| ->]; lia.
Qed.

(** The FDEs the index must have. *)
Definition fde_index (m : bytemem) (buf text p : Z) (natives : list hdr_entry) (entries : list cu_entry) : list hdr_entry :=
  flat_map (index_entry buf) (placed 0 (section_records m text p natives entries)).

Lemma units_range rs pos : Forall (fun b => 0 <= b < 256) (flat_map (fun r => match r with Fde f => f_cfi f | _ => [] end) rs) ->
  Forall (fun b => 0 <= b < 256) (record_units pos rs).
Proof.
  revert pos. induction rs as [|r rs IH]; intros pos Hf; [constructor|]. cbn [flat_map] in Hf. apply Forall_app in Hf as [Hr Hf].
  rewrite units_cons. apply Forall_app. split; [|by apply IH]. unfold unit_bytes. apply Forall_app. split; [apply le_bytes_range|].
  apply Forall_app. split.
  - destruct r as [p|f]; cbn [record_body].
    + unfold cie_body. repeat (apply Forall_app; split); try apply le_bytes_range; try (destruct (nz p)); repeat (apply Forall_app; split);
        try apply le_bytes_range; repeat constructor; lia.
    + unfold body_of, fde_body. repeat (apply Forall_app; split); try apply le_bytes_range; [|done].
      unfold aug_of. destruct (nz (f_lsda f)); [apply Forall_app; split; [|apply le_bytes_range]|]; apply uleb_bytes_range.
  - unfold padding. apply Forall_replicate. unfold DW_CFA_nop. lia.
Qed.

Lemma enc_insn_range i : insn_ok i -> Forall (fun b => 0 <= b < 256) (enc_insn i).
Proof.
  destruct i as [d|r o|r o|r o|]; cbn [insn_ok enc_insn]; intros Hi.
  - apply List.Forall_cons; [|constructor]. change 0x40 with (64 * 1). rewrite lor_low by lia. lia.
  - apply List.Forall_cons; [lia|]. apply Forall_app. split; apply uleb_bytes_range.
  - apply List.Forall_cons; [|apply uleb_bytes_range]. change 0x80 with (64 * 2). rewrite lor_low by lia. lia.
  - apply List.Forall_cons; [lia|]. apply Forall_app. split; apply uleb_bytes_range.
  - apply List.Forall_cons; [lia|constructor].
Qed.

Lemma enc_insns_range p : Forall insn_ok p -> Forall (fun b => 0 <= b < 256) (enc_insns p).
Proof.
  intros Hp. induction Hp as [|i p Hi Hp IH]; [constructor|]. apply Forall_app. split; [by apply enc_insn_range|exact IH].
Qed.

Lemma entry_cfi_range m text natives cw cn e f :
  entry_fde m text natives cw cn e = Some f -> Forall (fun b => 0 <= b < 256) (f_cfi f).
Proof.
  unfold entry_fde. cbv zeta. destruct (native_of text natives e) as [n|].
  - intros [= <-]. cbn [f_cfi]. unfold read_bytes. apply Forall_forall. intros b Hb. rewrite list_elem_of_In in Hb.
    apply in_map_iff in Hb as (i&<-&_). apply Z.mod_pos_bound. lia.
  - destruct (_ || _); [done|]. intros [= <-]. cbn [f_cfi].
    destruct (_ =? _); [apply enc_insns_range, frame_cfi_ok|]. destruct (_ =? _); [apply enc_insns_range, frameless_cfi_ok|constructor].
Qed.

Lemma section_range m text p natives entries : Forall (fun b => 0 <= b < 256) (record_units 0 (section_records m text p natives entries)).
Proof.
  apply units_range. apply List.Forall_forall. intros b Hb. apply in_flat_map in Hb as (r&Hr&Hb).
  unfold section_records in Hr. cbn [app] in Hr. destruct Hr as [<-|[<-|Hr]]; [done|done|].
  apply in_map_iff in Hr as (f&<-&Hf). unfold fdes_of in Hf. rewrite <- list_elem_of_In in Hf. apply list_elem_of_omap in Hf as (e&_&Ee).
  pose proof (entry_cfi_range _ _ _ _ _ _ _ Ee) as Hc. rewrite List.Forall_forall in Hc. by apply Hc.
Qed.

Lemma syn_entries_of_build m m0 text p capacity vo natives entries buf s emitted vo' :
  natives_ok natives -> entries_fit entries ->
  build_eh_frame m text p capacity vo natives entries = (s, emitted, vo') -> ehf_pos s < 2 ^ 32 ->
  syn_entries (place buf (ehf_buf s) m0) buf (ehf_pos s) = fde_index m buf text p natives entries /\
  emitted = Z.of_nat (length (fde_index m buf text p natives entries)).
Proof.
  intros Hok Hfit E Hlen. pose proof (build_eh_frame_holds m text p capacity vo natives entries Hok) as Hb. cbv zeta in Hb.
  rewrite E in Hb. destruct Hb as (Hbuf&Hem&_&_&_). rewrite section_units in Hbuf.
  set (rs := section_records m text p natives entries) in *.
  assert (Hpos : ehf_pos s = 0 + Z.of_nat (length (record_units 0 rs)) + 4).
  { unfold ehf_pos. rewrite Hbuf, length_app, le_bytes_length. lia. }
  split.
  - unfold syn_entries, fde_index. fold rs. rewrite Hpos.
    replace (Z.to_nat (0 + Z.of_nat (length (record_units 0 rs)) + 4)) with (length (record_units 0 rs) + 4)%nat by lia.
    apply syn_walk_units; [|by apply section_records_ok|lia|lia|lia]. rewrite Z.add_0_r, <- Hbuf. apply place_bytes_at.
    rewrite Hbuf. apply Forall_app. split; [apply section_range|apply le_bytes_range].
  - rewrite Hem. unfold fde_index, section_records. cbn [app placed flat_map index_entry snd].
    assert (Hc : forall fs pos, length (flat_map (index_entry buf) (placed pos (map Fde fs))) = length fs).
    { induction fs as [|f fs IH]; intros pos; [done|]. cbn [map placed flat_map index_entry snd app length]. by rewrite IH. }
    by rewrite Hc.
Qed.

(** ** The header *)

Lemma rel_ok_row r : rel_ok r = true -> i32 (r mod 2 ^ 32) = r.
Proof.
  unfold rel_ok, INT32_MAX. intros H. apply andb_true_iff in H as [H1 H2]. apply Z.leb_le in H1, H2.
  unfold i32, signed. rewrite Zmod_mod. change (signed 32 r = r). apply signed_small; lia.
Qed.

Lemma rel_back loc hdr : u64 (hdr + i64 (i64 loc - i64 hdr)) = u64 loc.
Proof.
  unfold u64, i64. rewrite Z.add_mod, (signed_mod 64), <- Z.add_mod by lia.
  replace (hdr + (signed 64 loc - signed 64 hdr)) with (signed 64 loc + (hdr - signed 64 hdr)) by lia.
  rewrite Z.add_mod, Zminus_mod, (signed_mod 64 hdr), (signed_mod 64 loc), Z.sub_diag by lia.
  rewrite Z.mod_0_l, Z.add_0_r, !Zmod_mod by lia. done.
Qed.

Lemma hdr_table_rows hdr l t m a rest :
  hdr_table hdr l = (t, true) -> bytes_at m a (t ++ rest) ->
  forall i e, l !! i = Some e ->
    u64 (hdr + i32 (load 4 (a + 8 * Z.of_nat i) m)) = u64 (initial_location e) /\
    u64 (hdr + i32 (load 4 (a + 8 * Z.of_nat i + 4) m)) = u64 (fde_ptr e).
Proof.
  revert t a. induction l as [|e0 l IH]; intros t a Ht Hm i e Hi; [done|]. cbn [hdr_table] in Ht.
  destruct (rel_ok (i64 (i64 (initial_location e0) - i64 hdr))) eqn:R1; [|done].
  destruct (rel_ok (i64 (i64 (fde_ptr e0) - i64 hdr))) eqn:R2; [|done]. cbn [andb] in Ht.
  destruct (hdr_table hdr l) as [t' ok]. pose proof (f_equal fst Ht) as Ht1. pose proof (f_equal snd Ht) as Ht2. cbn [fst snd] in Ht1, Ht2.
  subst t ok. rewrite <- !app_assoc in Hm.
  pose proof (load_bytes 4 m a _ _ Hm ltac:(lia)) as L1. apply bytes_at_app in Hm as [_ Hm]. rewrite le_bytes_length in Hm. change (Z.of_nat 4) with 4 in Hm.
  pose proof (load_bytes 4 m (a + 4) _ _ Hm ltac:(lia)) as L2. apply bytes_at_app in Hm as [_ Hm]. rewrite le_bytes_length in Hm. change (Z.of_nat 4) with 4 in Hm.
  replace (a + 4 + 4) with (a + 8) in Hm by lia. change (8 * 4) with 32 in L1, L2. destruct i as [|i].
  - injection Hi as <-. change (Z.of_nat 0) with 0. rewrite Z.mul_0_r, Z.add_0_r, L1, L2, !rel_ok_row by done. split; apply rel_back.
  - replace (a + 8 * Z.of_nat (S i)) with (a + 8 + 8 * Z.of_nat i) by lia. by apply (IH t' (a + 8)).
Qed.

Lemma hdr_table_range hdr l : Forall (fun b => 0 <= b < 256) (fst (hdr_table hdr l)).
Proof.
  induction l as [|e l IH]; cbn [hdr_table]; [constructor|]. destruct (_ && _); [|constructor].
  destruct (hdr_table hdr l) as [t ok]. cbn [fst] in *. repeat (apply Forall_app; split); try apply le_bytes_range. done.
Qed.

Lemma build_hdr_range hdr buf l : Forall (fun b => 0 <= b < 256) (fst (build_hdr hdr buf l)).
Proof.
  assert (Hm : Forall (fun b => 0 <= b < 256) hdr_magic) by (apply (bool_decide_unpack _); by vm_compute).
  unfold build_hdr. destruct (negb _); [done|]. pose proof (hdr_table_range hdr l) as Ht.
  destruct (hdr_table hdr l) as [t ok]. cbn [fst] in *. repeat (apply Forall_app; split); try apply le_bytes_range; done.
Qed.

#[global] Instance hdr_le_total : Total hdr_le.
Proof.
  intros a b. unfold hdr_le, cmp_hdr_entry.
  destruct (Z.ltb_spec (initial_location a) (initial_location b)), (Z.ltb_spec (initial_location b) (initial_location a)); lia.
Qed.

Lemma hdr_le_loc a b : hdr_le a b <-> initial_location a <= initial_location b.
Proof.
  unfold hdr_le, cmp_hdr_entry.
  destruct (Z.ltb_spec (initial_location a) (initial_location b)), (Z.ltb_spec (initial_location b) (initial_location a)); lia.
Qed.

Definition unshadowed (syn nat : list hdr_entry) : list hdr_entry :=
  List.filter (fun e => negb (has_entry_start syn (initial_location e))) nat.

Lemma near_loop_nonzero H fuel delta base size h r h' : near_loop H fuel delta base size h = (Some r, h') -> r <> 0.
Proof.
  assert (Ht : forall c h r h', try_near H base size c h = (Some r, h') -> r <> 0).
  { intros c g q g'. unfold try_near. destruct (c =? 0); [done|]. destruct (hm_map H c size g) as [res g2].
    destruct (Z.eqb_spec res 0); [done|]. destruct (_ && _); [|done]. by intros [= <- _]. }
  revert delta h. induction fuel as [|fuel IH]; intros delta h; cbn [near_loop]; [done|]. destruct (_ <? _); [|done].
  destruct (try_near H base size (near_page _) h) as [[q|] g] eqn:E1; [intros [= <- <-]; by eapply Ht|].
  destruct (try_near H base size _ g) as [[q|] g2] eqn:E2; [intros [= <- <-]; by eapply Ht|]. apply IH.
Qed.

Lemma sorted_locs l : Sorted hdr_le l -> Sorted (fun a b => initial_location a <= initial_location b) l.
Proof. induction 1 as [|a l Hs IH Hd]; constructor; [done|]. destruct Hd; constructor. by apply hdr_le_loc. Qed.

(** C28. The index the unwinder searches is complete and sorted.  When
    registration succeeds, the header at [macho_eh_frame_hdr] holds one row per
    FDE: every FDE generated from a compact unwind entry, at the address where
    its bytes are, and every native FDE that no generated one starts with; the
    rows, relative to the header, decode to the FDEs' start and address and
    are sorted by start; and the interposed [_dl_find_object] hands exactly
    this header out for every address of the text. *)
Theorem eh_frame_hdr_indexes H cache slide sec text buf p capacity vo natives entries emitted s vo' old m h st m' h' :
  natives_ok natives -> entries_fit entries ->
  build_eh_frame m text p capacity vo natives entries = (s, emitted, vo') -> ehf_pos s < 2 ^ 32 ->
  register_hdr H cache slide sec text buf vo' emitted s natives old m h = (0, st, m', h') ->
  let hdr := macho_eh_frame_hdr st in
  let syn := fde_index m buf text p natives entries in
  exists rows,
    Permutation rows (syn ++ unshadowed syn natives) /\
    Sorted (fun a b => initial_location a <= initial_location b) rows /\
    load 4 (hdr + 8) m' = Z.of_nat (length rows) mod 2 ^ 32 /\
    (forall i e, rows !! i = Some e ->
       u64 (hdr + i32 (load 4 (hdr + 12 + 8 * Z.of_nat i) m')) = u64 (initial_location e) /\
       u64 (hdr + i32 (load 4 (hdr + 12 + 8 * Z.of_nat i + 4) m')) = u64 (fde_ptr e)) /\
    forall real pc, text <= pc < u64 (text + text_vmsize sec) ->
      _dl_find_object real st pc = Some (mk_dlfo text (u64 (text + text_vmsize sec)) hdr).
Proof.
  intros Hok Hfit Eb Hlen Er. cbv zeta. unfold register_hdr in Er.
  destruct (syn_entries_of_build m m text p capacity vo natives entries buf s emitted vo' Hok Hfit Eb Hlen) as [Hsyn _].
  rewrite Hsyn in Er. set (all := qsort_entries (merge_entries (fde_index m buf text p natives entries) natives)) in *.
  destruct (mmap_near_address H text (12 + 8 * Z.of_nat (length all)) h) as [[hdr|] h1] eqn:Emm; [|done].
  pose proof (build_hdr_range hdr buf all) as Hrange. destruct (build_hdr hdr buf all) as [bytes ok] eqn:Eh. destruct ok; [|done]. cbn [negb fst] in *.
  injection Er as <- <- <-. cbn [macho_eh_frame_hdr macho_text_start macho_text_end].
  exists all. split; [apply merge_sort_Permutation|]. split.
  { apply sorted_locs, (Sorted_merge_sort hdr_le). }
  set (mm := place buf (ehf_buf s) m) in *.
  pose proof (place_bytes_at hdr bytes mm Hrange) as Hb.
  unfold build_hdr in Eh. destruct (rel_ok (i64 (i64 buf - i64 (hdr + 4)))); [|done]. cbn [negb] in Eh.
  destruct (hdr_table hdr all) as [t okt] eqn:Et. pose proof (f_equal fst Eh) as Eh1. pose proof (f_equal snd Eh) as Eh2. cbn [fst snd] in Eh1, Eh2.
  subst okt. rewrite <- Eh1 in Hb at 2. set (fin := place hdr bytes mm) in *.
  apply bytes_at_app in Hb as [_ Hb]. change (Z.of_nat (length hdr_magic)) with 4 in Hb.
  apply bytes_at_app in Hb as [_ Hb]. rewrite le_bytes_length in Hb. change (Z.of_nat 4) with 4 in Hb. replace (hdr + 4 + 4) with (hdr + 8) in Hb by lia.
  split; [exact (load_bytes 4 fin (hdr + 8) _ _ Hb ltac:(lia))|].
  apply bytes_at_app in Hb as [_ Hb]. rewrite le_bytes_length in Hb. change (Z.of_nat 4) with 4 in Hb. replace (hdr + 8 + 4) with (hdr + 12) in Hb by lia.
  split; [apply (hdr_table_rows hdr all t fin (hdr + 12) [] Et); by rewrite app_nil_r|].
  intros real pc Hpc. unfold _dl_find_object. cbn [macho_eh_frame_hdr macho_text_start macho_text_end].
  pose proof (near_loop_nonzero _ _ _ _ _ _ _ _ Emm) as Hnz. unfold nz. rewrite (proj2 (Z.eqb_neq _ _) Hnz).
  destruct (Z.leb_spec text pc), (Z.ltb_spec pc (u64 (text + text_vmsize sec))); try lia. done.
Qed.

(** A host that maps every page it is asked for. *)
Definition easy_host : host_memory := {|
  hm_state := unit; hm_map a _ s := (a, s); hm_unmap _ _ s := s; hm_protect _ _ _ s := s; hm_page := 4096 |}.

Definition demo_entries : list cu_entry :=
  [mk_cu 0x1000 0x40 0x04000003 0; mk_cu 0x1040 0x20 0x02001000 0; mk_cu 0x1060 0x100 0x44000000 0x3000].
Definition demo_natives : list hdr_entry := [mk_hdr 0x10001060 0x100 0x10005000 0x10005020 8; mk_hdr 0x10002000 0x80 0x10005040 0x10005060 8].
Definition demo_sections : eh_sections := mk_ehs 0x10000000 0x8000 0x10004000 0x100 0x10005000 0x100.
Definition demo_statics : eh_statics := mk_st 0 0 0 0 0 0 0 0 None.
Definition demo_build : ehf * Z * Z := build_eh_frame (fun _ => 0) 0x10000000 0x7777 5000 0 demo_natives demo_entries.

Lemma triple_eta {A B C} (x : A * B * C) : x = (fst (fst x), snd (fst x), snd x).
Proof. by destruct x as [[a b] c]. Qed.

Lemma eh_frame_hdr_indexes_witness :
  exists st m', load 4 (macho_eh_frame_hdr st + 8) m' = 4 /\
    _dl_find_object (fun _ => None) st 0x10001050 = Some (mk_dlfo 0x10000000 0x10008000 (macho_eh_frame_hdr st)).
Proof.
  assert (Hr : fst (fst (fst (register_hdr easy_host false 0x10 demo_sections 0x10000000 0x12000000 (snd demo_build) (snd (fst demo_build))
    (fst (fst demo_build)) demo_natives demo_statics (fun _ => 0) tt))) = 0) by (vm_compute; reflexivity).
  destruct (register_hdr easy_host false 0x10 demo_sections 0x10000000 0x12000000 (snd demo_build) (snd (fst demo_build))
    (fst (fst demo_build)) demo_natives demo_statics (fun _ => 0) tt) as [[[r st] m'] h'] eqn:Er. cbn [fst] in Hr. subst r.
  assert (Hok : natives_ok demo_natives) by (apply (bool_decide_unpack _); vm_compute; exact I).
  assert (Hfit : entries_fit demo_entries) by (apply (bool_decide_unpack _); vm_compute; exact I).
  assert (Hlen : ehf_pos (fst (fst demo_build)) < 2 ^ 32) by (vm_compute; reflexivity).
  destruct (eh_frame_hdr_indexes easy_host false 0x10 demo_sections 0x10000000 0x12000000 0x7777 5000 0 demo_natives demo_entries
    _ _ _ demo_statics (fun _ => 0) tt st m' h' Hok Hfit (triple_eta demo_build) Hlen Er) as (rows&Hp&_&Hc&_&Hd).
  exists st, m'. split.
  - rewrite Hc, (Permutation_length Hp). vm_compute. reflexivity.
  - apply (Hd (fun _ => None) 0x10001050). vm_compute. split; [discriminate|reflexivity].
Defined.

(** ** Capacity *)

Definition copied_cfi (text : Z) (natives : list hdr_entry) (e : cu_entry) : Z :=
  match native_of text natives e with Some n => cfi_size n | None => 0 end.
Definition total_copied (text : Z) (natives : list hdr_entry) (l : list cu_entry) : Z :=
  fold_right (fun e t => copied_cfi text natives e + t) 0 l.

Lemma uleb128_slot v : 0 <= v < 128 -> length (uleb128 v) = 1%nat.
Proof. intros Hv. unfold uleb128. by rewrite uleb_bytes_small. Qed.

Lemma save_insns_length l slot :
  Forall (fun r => 19 <= r <= 28 \/ 72 <= r <= 79) l -> 0 <= slot -> slot + Z.of_nat (length l) <= 127 ->
  Z.of_nat (length (enc_insns (save_insns slot l))) <= 3 * Z.of_nat (length l).
Proof.
  intros Hl. revert slot. induction Hl as [|r l Hr Hl IH]; intros slot Hs Hb; [cbn; lia|]. cbn [save_insns length] in *.
  change (enc_insns (?i :: ?p)) with (enc_insn i ++ enc_insns p). rewrite length_app. specialize (IH (slot + 1) ltac:(lia) ltac:(lia)).
  assert (Z.of_nat (length (enc_insn (if r <? 64 then offset r slot else offset_extended r slot))) <= 3); [|lia].
  destruct (r <? 64); cbn [enc_insn length]; rewrite ?length_app, ?uleb128_slot by lia; lia.
Qed.

Lemma saved_length encoding slot : 0 <= slot <= 100 -> Z.of_nat (length (enc_insns (save_insns slot (saved_regs encoding)))) <= 54.
Proof.
  intros Hs. pose proof (saved_regs_length encoding). etrans; [apply save_insns_length; [apply saved_regs_ok|lia|lia]|lia].
Qed.

Lemma frame_cfi_length encoding : Z.of_nat (length (enc_insns (frame_cfi encoding))) <= 62.
Proof.
  unfold frame_cfi. rewrite enc_insns_app, length_app. pose proof (saved_length encoding 3 ltac:(lia)).
  change (length (enc_insns [advance_loc 1; def_cfa DWARF_REG_FP 16; offset DWARF_REG_LR 1; offset DWARF_REG_FP 2])) with 8%nat. lia.
Qed.

Lemma frameless_cfi_length encoding : Z.of_nat (length (enc_insns (frameless_cfi encoding))) <= 70.
Proof.
  unfold frameless_cfi. destruct (_ <? _); [|cbn; lia]. rewrite enc_insns_app, length_app. pose proof (saved_length encoding 1 ltac:(lia)).
  assert (length (enc_insns [advance_loc 1; def_cfa DWARF_REG_SP (frameless_stack_size encoding)]) <= 13)%nat; [|lia].
  unfold enc_insns. cbn [map concat]. rewrite !length_app. cbn [enc_insn length]. rewrite length_app.
  rewrite frameless_size_fld. pose proof (fld_range encoding 12 12 ltac:(lia)).
  pose proof (uleb128_length (16 * fld encoding 12 12) ltac:(lia)). rewrite (uleb128_slot DWARF_REG_SP) by (unfold DWARF_REG_SP; lia). lia.
Qed.

Lemma aug_length lsda : Z.of_nat (length (aug_of lsda)) <= 9.
Proof.
  unfold aug_of. destruct (nz lsda); [rewrite length_app, le_bytes_length|]; rewrite uleb128_slot by lia; lia.
Qed.

(** An entry takes at most 128 bytes besides the native instructions it copies. *)
Lemma entry_unit_length m text natives cw cn e f pos :
  natives_ok natives -> entry_fde m text natives cw cn e = Some f ->
  unit_length pos (body_of f pos) <= 128 + copied_cfi text natives e.
Proof.
  intros Hok Ef. pose proof (unit_length_bounds pos (body_of f pos)) as Hu.
  assert (Hb : Z.of_nat (length (body_of f pos)) <= 29 + Z.of_nat (length (f_cfi f))).
  { unfold body_of, fde_body. rewrite !length_app, !le_bytes_length. pose proof (aug_length (f_lsda f)). lia. }
  assert (Hc : Z.of_nat (length (f_cfi f)) <= 70 + copied_cfi text natives e); [|lia].
  unfold copied_cfi, entry_fde in *. cbv zeta in Ef. destruct (native_of text natives e) as [n|] eqn:En.
  - injection Ef as <-. cbn [f_cfi]. unfold read_bytes. rewrite length_map, length_seq.
    unfold natives_ok in Hok. rewrite List.Forall_forall in Hok. specialize (Hok n (native_of_in _ _ _ _ En)). lia.
  - destruct (_ || _); [done|]. injection Ef as <-. cbn [f_cfi].
    destruct (_ =? UNWIND_ARM64_MODE_FRAME); [pose proof (frame_cfi_length (encoding e)); lia|].
    destruct (_ =? UNWIND_ARM64_MODE_FRAMELESS); [pose proof (frameless_cfi_length (encoding e)); lia|cbn; lia].
Qed.

Lemma copied_nonneg text natives e : natives_ok natives -> 0 <= copied_cfi text natives e.
Proof.
  intros Hok. unfold copied_cfi. destruct (native_of text natives e) as [n|] eqn:En; [|lia].
  unfold natives_ok in Hok. rewrite List.Forall_forall in Hok. by specialize (Hok n (native_of_in _ _ _ _ En)).
Qed.

Lemma fdes_units_length m text natives cw cn l pos :
  natives_ok natives ->
  Z.of_nat (length (record_units pos (map Fde (fdes_of m text natives cw cn l)))) <= 128 * Z.of_nat (length l) + total_copied text natives l.
Proof.
  intros Hok. revert pos. induction l as [|e l IH]; intros pos; [cbn; lia|]. cbn [fdes_of omap list_omap total_copied fold_right length].
  fold (fdes_of m text natives cw cn l). fold (total_copied text natives l). pose proof (copied_nonneg text natives e Hok).
  destruct (entry_fde m text natives cw cn e) as [f|] eqn:Ef.
  - cbn [map]. rewrite units_length_cons. pose proof (entry_unit_length m text natives cw cn e f pos Hok Ef) as Hu.
    specialize (IH (pos + unit_length pos (record_body (Fde f) pos))). cbn [record_body] in *. lia.
  - specialize (IH pos). cbn [option_bind] in *. lia.
Qed.

(** The buffer is large enough.  With the capacity the code computes (128
    bytes per entry, the size of the native section, 4096), no write passes
    the end of the mapping, provided the native instructions copied are not
    more than the native section holds. *)
Theorem eh_frame_capacity m text p vo natives entries native_size :
  natives_ok natives -> total_copied text natives entries <= native_size ->
  let capacity := Z.of_nat (length entries) * 128 + native_size + 4096 in
  let '(s, _, _) := build_eh_frame m text p capacity vo natives entries in
  ehf_pos s <= capacity /\ ehf_overflowed s = false.
Proof.
  intros Hok Hn. cbv zeta. set (capacity := Z.of_nat (length entries) * 128 + native_size + 4096).
  pose proof (build_eh_frame_holds m text p capacity vo natives entries Hok) as Hb. cbv zeta in Hb.
  destruct (build_eh_frame m text p capacity vo natives entries) as [[s em] vo']. destruct Hb as (Hbuf&_&_&Hin&Hcap).
  assert (Hpos : ehf_pos s <= capacity); [|split; [done|by apply Hin; rewrite Hcap]].
  unfold ehf_pos. rewrite Hbuf, section_units, length_app, le_bytes_length. unfold section_records. cbn [app].
  rewrite Nat2Z.inj_add, !units_length_cons. cbn [record_body].
  set (p1 := 0 + unit_length 0 (cie_body p)). set (p2 := p1 + unit_length p1 (cie_body 0)).
  pose proof (fdes_units_length m text natives 0 (second_cie p) entries p2 Hok) as Hf.
  pose proof (unit_length_bounds 0 (cie_body p)). pose proof (unit_length_bounds p1 (cie_body 0)).
  assert (Hc : forall q, Z.of_nat (length (cie_body q)) <= 40) by (intros q; unfold cie_body; rewrite !length_app, le_bytes_length; destruct (nz q); cbn; lia).
  pose proof (Hc p). pose proof (Hc 0). unfold capacity. lia.
Qed.

Lemma eh_frame_capacity_witness :
  let '(s, _, _) := build_eh_frame (fun _ => 0) 0x10000000 0x7777 (3 * 128 + 100 + 4096) 0 demo_natives demo_entries in
  ehf_pos s <= 3 * 128 + 100 + 4096 /\ ehf_overflowed s = false.
Proof.
  apply (eh_frame_capacity (fun _ => 0) 0x10000000 0x7777 0 demo_natives demo_entries 100).
  - apply (bool_decide_unpack _). vm_compute. exact I.
  - vm_compute. discriminate.
Defined.

(** Without that, it is not: three functions with LSDAs inside the range
    of one native FDE each copy its instructions, and the emitter writes past
    the end of the mapping (it only prints a message). *)
Theorem eh_frame_overflow :
  let natives := [mk_hdr 0x10001000 0x1000 0x10005000 0x10005020 4900] in
  let entry o := mk_cu o 0x40 0x44000000 0x3000 in
  let entries := [entry 0x1000; entry 0x1040; entry 0x1080] in
  let capacity := 3 * 128 + 5000 + 4096 in
  let '(s, _, _) := build_eh_frame (fun _ => 0) 0x10000000 0x7777 capacity 0 natives entries in
  capacity < ehf_pos s /\ ehf_overflowed s = true.
Proof. by vm_compute. Qed.
