(* ===== verification/EhRoundTrip.v ===== *)
(** * Parsing the generated section

    The reader for native __eh_frame sections, applied to the section the
    emitters produced. *)

From S2P Require Import Prelude Leb128 Macho GatePatch EhEmit EhDwarf EhFde EhParse EhCollect EhFrame EhIndex.
Import Eh EhParse EhCollect EhFrame GatePools.

(** ** The generated CIEs *)

Lemma skip_string_bytes l fuel m p limit rest :
  bytes_at m p (l ++ 0 :: rest) -> Forall (fun b => b <> 0) l -> p + Z.of_nat (length l) < limit -> (length l < fuel)%nat ->
  skip_string fuel m p limit = p + Z.of_nat (length l).
Proof.
  intros Hm Hl. revert p fuel Hm. induction Hl as [|b l Hb Hl IH]; intros p fuel Hm Hp Hf; (destruct fuel as [|fuel]; [cbn in *; lia|]);
    cbn [skip_string app length] in *; apply bytes_at_cons in Hm as [E Hm]; rewrite E.
  - change (nz 0) with false. rewrite andb_false_r. lia.
  - unfold nz. destruct (Z.ltb_spec p limit); [|lia]. rewrite (proj2 (Z.eqb_neq _ _)) by done. cbn [andb negb].
    rewrite IH by (done || lia). lia.
Qed.

Lemma sleb_one m p limit : m p mod 256 = 120 -> p < limit -> snd (eh_read_sleb128 m p limit) = p + 1.
Proof.
  intros E Hp. unfold eh_read_sleb128. cbn [sleb_loop]. destruct (Z.leb_spec limit p); [lia|]. rewrite E. done.
Qed.

Lemma uleb_one m p limit b : m p mod 256 = b -> 0 <= b < 128 -> p < limit -> eh_read_uleb128 m p limit = (b, p + 1).
Proof.
  intros E Hb Hp. unfold eh_read_uleb128. destruct (Z.to_nat (limit - p)) as [|n] eqn:En; [lia|]. cbn [uleb_loop].
  destruct (Z.ltb_spec p limit); [|lia]. rewrite E. destruct (byte_80 b Hb) as (->&_&_&->). change (0 =? 0) with true. cbv iota.
  rewrite Z.shiftl_0_r, u64_small by lia. done.
Qed.

(** Up to the augmentation data: [chars] follow the [z]. *)
Lemma cie_front m a len chars aug rest :
  bytes_at m a (le_bytes 4 0 ++ [1; 122] ++ chars ++ [0; 4; 120; 30; aug] ++ rest) ->
  Forall (fun b => b <> 0) chars -> 0 <= aug < 128 -> 11 + Z.of_nat (length chars) + aug <= len -> 0 <= a -> a + len < 2 ^ 64 ->
  let p := a + 11 + Z.of_nat (length chars) in
  parse_cie_fde_encoding m a len = aug_loop (Z.to_nat (len - 5)) m (a + 6) p (p + aug) /\
  parse_cie_has_z_augmentation m a len = true.
Proof.
  intros Hb Hc Haug Hlen Ha Hw. cbv zeta. unfold parse_cie_fde_encoding, parse_cie_has_z_augmentation.
  assert (Hz : m (a + 5) mod 256 = 122) by exact (Hb 5%nat 122 eq_refl).
  assert (Hv : m (a + 4) mod 256 = 1) by exact (Hb 4%nat 1 eq_refl).
  destruct (Z.ltb_spec (a + len) (a + 5)), (Z.leb_spec (a + len) (a + 5)); try lia. rewrite Hz. split; [|done].
  destruct (Z.ltb_spec (a + len) (a + 4)), (Z.leb_spec (a + len) (a + 4)); try lia.
  apply bytes_at_app in Hb as [_ Hb]. rewrite le_bytes_length in Hb. cbn [app] in Hb. apply bytes_at_cons in Hb as [_ Hb].
  replace (a + Z.of_nat 4 + 1) with (a + 5) in Hb by lia. replace (a + 4 + 1) with (a + 5) by lia.
  rewrite (skip_string_bytes (122 :: chars) _ m (a + 5) (a + len) ([4; 120; 30; aug] ++ rest)); [|exact Hb|by constructor|cbn [length]; lia|cbn [length]; lia].
  apply bytes_at_cons in Hb as [_ Hb]. apply bytes_at_app in Hb as [_ Hb]. cbn [app] in Hb.
  replace (a + 5 + Z.of_nat (length (122 :: chars))) with (a + 6 + Z.of_nat (length chars)) by (cbn [length]; lia).
  replace (a + 5 + 1 + Z.of_nat (length chars)) with (a + 6 + Z.of_nat (length chars)) in Hb by lia.
  set (q := a + 6 + Z.of_nat (length chars)) in *. replace (a + 11 + Z.of_nat (length chars)) with (q + 5) by lia.
  do 4 apply bytes_at_cons in Hb as [? Hb]. apply bytes_at_cons in Hb as [? _].
  destruct (Z.leb_spec (a + len) q); [lia|]. rewrite (uleb_one m (q + 1) (a + len) 4) by (done || lia).
  pose proof (sleb_one m (q + 1 + 1) (a + len) ltac:(done) ltac:(lia)) as Es.
  destruct (eh_read_sleb128 m (q + 1 + 1) (a + len)) as [x y]. cbn [snd] in Es. subst y.
  rewrite Hv. change (1 =? 1) with true. cbv iota. destruct (Z.ltb_spec (q + 1 + 1 + 1) (a + len)); [|lia].
  rewrite Hz. change (122 =? chr "z") with true. cbn [negb].
  rewrite (uleb_one m (q + 1 + 1 + 1 + 1) (a + len) aug) by (done || lia).
  replace (q + 1 + 1 + 1 + 1 + 1) with (q + 5) by lia. rewrite u64_small by lia. destruct (Z.ltb_spec (a + len) (q + 5 + aug)); [lia|].
  replace (a + len - (a + 5)) with (len - 5) by lia. by replace (a + 5 + 1) with (a + 6) by lia.
Qed.

(** The augmentation characters one by one. *)
Lemma aug_loop_P fuel m a p aug_end : m a mod 256 = 80 -> m p mod 256 = 0 -> p + 9 <= aug_end ->
  aug_loop (S fuel) m a p aug_end = aug_loop fuel m (a + 1) (p + 9) aug_end.
Proof.
  intros E Ep Hp. cbn [aug_loop]. rewrite E. destruct (Z.ltb_spec p aug_end); [|lia]. change (nz 80 && true) with true. cbv iota.
  change (80 =? chr "L") with false. change (80 =? chr "P") with true. cbv iota. rewrite Ep.
  unfold eh_read_encoded_ptr at 1. change (0 =? DW_EH_PE_omit) with false. cbv iota. unfold read_format at 1. cbv zeta.
  change (0 .& 0x0F =? 0x00) with true. cbv iota. destruct (Z.ltb_spec aug_end (p + 1 + 8)); [lia|].
  by replace (p + 1 + 8) with (p + 9) by lia.
Qed.
Lemma aug_loop_L fuel m a p aug_end : m a mod 256 = 76 -> p < aug_end ->
  aug_loop (S fuel) m a p aug_end = aug_loop fuel m (a + 1) (p + 1) aug_end.
Proof. intros E Hp. cbn [aug_loop]. rewrite E. by destruct (Z.ltb_spec p aug_end); [|lia]. Qed.
Lemma aug_loop_R fuel m a p aug_end : m a mod 256 = 82 -> p < aug_end -> aug_loop (S fuel) m a p aug_end = m p mod 256.
Proof. intros E Hp. cbn [aug_loop]. rewrite E. by destruct (Z.ltb_spec p aug_end); [|lia]. Qed.

(** Both CIEs declare absolute FDE pointers and augmentation data. *)
Lemma cie_reads m a p len :
  bytes_at m a (cie_body p) -> Z.of_nat (length (cie_body p)) <= len -> 0 <= a -> a + len < 2 ^ 64 ->
  parse_cie_fde_encoding m a len = DW_EH_PE_absptr /\ parse_cie_has_z_augmentation m a len = true.
Proof.
  intros Hb Hlen Ha Hw. unfold cie_body in *. destruct (nz p).
  - assert (Hl : 28 <= len) by (cbn in Hlen; lia).
    destruct (cie_front m a len [80; 76; 82] 11 ([0] ++ le_bytes 8 p ++ [0; 0; 12; 31; 0]) Hb) as [-> ->]; try done; [by repeat constructor|cbn; lia|].
    split; [|done]. cbn [length]. change (Z.of_nat 3) with 3. replace (a + 11 + 3) with (a + 14) by lia.
    replace (Z.to_nat (len - 5)) with (S (S (S (Z.to_nat (len - 8))))) by lia.
    rewrite aug_loop_P; [|exact (Hb 6%nat 80 eq_refl)|exact (Hb 14%nat 0 eq_refl)|lia].
    replace (a + 6 + 1) with (a + 7) by lia. replace (a + 14 + 9) with (a + 23) by lia.
    rewrite aug_loop_L; [|exact (Hb 7%nat 76 eq_refl)|lia]. replace (a + 7 + 1) with (a + 8) by lia. replace (a + 23 + 1) with (a + 24) by lia.
    rewrite aug_loop_R; [exact (Hb 24%nat 0 eq_refl)|exact (Hb 8%nat 82 eq_refl)|lia].
  - assert (Hl : 16 <= len) by (cbn in Hlen; lia).
    destruct (cie_front m a len [82] 1 [0; 12; 31; 0] Hb) as [-> ->]; try done; [by repeat constructor|cbn; lia|].
    split; [|done]. cbn [length]. change (Z.of_nat 1) with 1. replace (a + 11 + 1) with (a + 12) by lia.
    replace (Z.to_nat (len - 5)) with (S (Z.to_nat (len - 6))) by lia.
    rewrite aug_loop_R; [exact (Hb 12%nat 0 eq_refl)|exact (Hb 6%nat 82 eq_refl)|lia].
Qed.

(** ** The generated FDEs *)

(** What the reader must report for a record. *)
Definition parsed_entry (buf : Z) (p : Z * eh_record) : list hdr_entry :=
  match snd p with
  | Cie _ => []
  | Fde f =>
      let aug := Z.of_nat (length (aug_of (f_lsda f))) in
      [mk_hdr (f_addr f) (f_size f) (buf + fst p) (buf + fst p + 24 + aug) (unit_length (fst p) (body_of f (fst p)) - 24 - aug)]
  end.

(** The CIE at offset [c] of the section reads as both generated ones do. *)
Definition cie_at (m : bytemem) (buf c : Z) : Prop :=
  parse_cie_fde_encoding m (buf + c + 4) (load 4 (buf + c) m) = DW_EH_PE_absptr /\
  parse_cie_has_z_augmentation m (buf + c + 4) (load 4 (buf + c) m) = true.

Lemma aug_skips m p limit lsda rest :
  bytes_at m p (aug_of lsda ++ rest) -> p + Z.of_nat (length (aug_of lsda)) <= limit ->
  exists q n, eh_read_uleb128 m p limit = (n, q) /\ 0 <= n /\ q + n = p + Z.of_nat (length (aug_of lsda)).
Proof.
  intros Hb Hl. unfold aug_of in *. destruct (nz lsda).
  - rewrite <- app_assoc in Hb. rewrite length_app, le_bytes_length in Hl. eexists _, 8. split.
    + apply (read_uleb128_emitted 8 m p limit _ ltac:(lia) Hb). lia.
    + rewrite length_app, le_bytes_length. lia.
  - eexists _, 0. split; [apply (read_uleb128_emitted 0 m p limit _ ltac:(lia) Hb Hl)|lia].
Qed.

Lemma fde_entry_emitted m buf size pos f ds rest :
  let ul := unit_length pos (body_of f pos) in
  bytes_at m (buf + ds) (body_of f pos ++ rest) -> Z.of_nat (length rest) = ul - 4 - Z.of_nat (length (body_of f pos)) ->
  fde_ok f -> f_addr f <> 0 -> 0 <= f_cie f <= pos -> ds = pos + 4 -> pos + ul <= size -> size < 2 ^ 32 -> 0 <= buf -> cie_at m buf (f_cie f) ->
  fde_entry m buf size pos ds (pos + ul) = head (parsed_entry buf (pos, Fde f)).
Proof.
  cbv zeta. intros Hb Hr Hok Hne Hc -> Hs Hs2 Hbuf [Ce Cz].
  destruct (read_fde_words m (buf + (pos + 4)) f pos rest Hb Hok Hc ltac:(pose proof (unit_length_bounds pos (body_of f pos)); lia)) as (W1&W2&W3&Hb').
  unfold fde_entry. rewrite W1. destruct (Z.eqb_spec (pos + 4 - f_cie f) 0); [lia|].
  replace (pos + 4 - (pos + 4 - f_cie f)) with (f_cie f) by lia. rewrite u64_small by lia.
  set (ul := unit_length pos (body_of f pos)) in *.
  assert (Hbl : Z.of_nat (length (body_of f pos)) = 20 + Z.of_nat (length (aug_of (f_lsda f))) + Z.of_nat (length (f_cfi f))).
  { unfold body_of, fde_body. rewrite !length_app, !le_bytes_length. lia. }
  destruct (Z.ltb_spec (f_cie f) size); [|lia]. rewrite Ce, Cz.
  unfold eh_read_encoded_ptr, eh_read_encoded_value, read_format. change (DW_EH_PE_absptr =? DW_EH_PE_omit) with false.
  change (DW_EH_PE_absptr .& 0x0F =? 0x00) with true. cbv zeta iota. set (lim := buf + (pos + ul)).
  destruct (Z.ltb_spec lim (buf + (pos + 4) + 4 + 8)); [lia|]. change (DW_EH_PE_absptr .& 0x70 =? DW_EH_PE_pcrel) with false.
  change (nz (DW_EH_PE_absptr .& DW_EH_PE_indirect)) with false. cbv iota beta.
  destruct (Z.ltb_spec lim (buf + (pos + 4) + 4 + 8 + 8)); [lia|]. cbv iota beta. rewrite W2.
  replace (buf + (pos + 4) + 4 + 8) with (buf + (pos + 4) + 12) by lia. rewrite W3.
  replace (buf + (pos + 4) + 12 + 8) with (buf + (pos + 4) + 20) by lia.
  destruct (aug_skips m (buf + (pos + 4) + 20) lim (f_lsda f) _ Hb' ltac:(lia)) as (q&n'&Eq&Hn&Eqn).
  assert (Hau : 1 <= Z.of_nat (length (aug_of (f_lsda f)))).
  { unfold aug_of. destruct (nz (f_lsda f)); [rewrite length_app, le_bytes_length|rewrite uleb128_slot by lia]; lia. }
  destruct (Z.ltb_spec (buf + (pos + 4) + 20) lim); [|lia]. cbn [andb]. rewrite Eq.
  destruct (Z.leb_spec n' (lim - q)); [|lia]. rewrite Eqn. rewrite (proj2 (Z.eqb_neq _ _) Hne). cbn [negb parsed_entry snd fst head]. f_equal.
  f_equal; [lia|]. rewrite u64_small; lia.
Qed.

Definition readable (m : bytemem) (buf : Z) (rs : list eh_record) : Prop :=
  Forall (fun r => match r with Fde f => f_addr f <> 0 /\ cie_at m buf (f_cie f) | Cie _ => True end) rs.

Lemma parse_records_units rs fuel m buf pos :
  bytes_at m (buf + pos) (record_units pos rs ++ le_bytes 4 0) -> records_ok pos rs -> readable m buf rs -> 0 <= pos -> 0 <= buf ->
  pos + Z.of_nat (length (record_units pos rs)) + 4 < 2 ^ 32 -> (length rs < fuel)%nat ->
  parse_records fuel m buf (pos + Z.of_nat (length (record_units pos rs)) + 4) pos = Some (flat_map (parsed_entry buf) (placed pos rs)).
Proof.
  revert fuel pos. induction rs as [|r rs IH]; intros fuel pos Hm Hok Hrd Hp Hbuf Hb Hf; (destruct fuel as [|fuel]; [cbn in Hf; lia|]); cbn [parse_records].
  - change (record_units pos []) with (@nil Z) in *. cbn [length app] in *. change (Z.of_nat 0) with 0 in *. rewrite u64_small by lia.
    destruct (Z.ltb_spec (pos + 0 + 4) (pos + 4)); [lia|]. unfold record_bounds.
    rewrite (bytes_at_load 4 m (buf + pos) 4 0 []); [done|by rewrite app_nil_r|done|lia|lia].
  - pose proof (record_body_length r pos) as Hl. pose proof (unit_length_bounds pos (record_body r pos)) as Hu.
    pose proof (units_length_cons pos r rs) as Hc. set (ul := unit_length pos (record_body r pos)) in *.
    set (size := pos + Z.of_nat (length (record_units pos (r :: rs))) + 4) in *.
    rewrite units_cons, <- app_assoc in Hm. destruct (read_unit _ _ _ _ _ Hm ltac:(unfold ul in *; lia)) as (E1&Hbody&Hrest).
    fold ul in E1, Hrest. apply Forall_cons in Hok as [Hr Hok]. cbn [fst snd] in Hr. fold ul in Hok. apply Forall_cons in Hrd as [Hr2 Hrd].
    rewrite u64_small by lia. destruct (Z.ltb_spec size (pos + 4)); [lia|].
    assert (Eb : record_bounds m buf size pos = Some (pos + 4, pos + ul)).
    { unfold record_bounds. rewrite E1. destruct (Z.eqb_spec (ul - 4) 0); [lia|]. destruct (Z.eqb_spec (ul - 4) 0xFFFFFFFF); [lia|].
      rewrite (u64_small (pos + 4)) by lia. replace (pos + 4 + (ul - 4)) with (pos + ul) by lia. rewrite u64_small by lia.
      destruct (Z.ltb_spec size (pos + ul)); [lia|done]. }
    rewrite Eb. assert (IH' : parse_records fuel m buf size (pos + ul) = Some (flat_map (parsed_entry buf) (placed (pos + ul) rs))).
    { replace size with (pos + ul + Z.of_nat (length (record_units (pos + ul) rs)) + 4) by lia.
      apply IH; [by replace (buf + (pos + ul)) with (buf + pos + ul) by lia|done|done|lia|lia|lia|cbn in Hf; lia]. }
    rewrite IH'. cbn [placed flat_map]. fold ul. f_equal. replace (buf + pos + 4) with (buf + (pos + 4)) in Hbody by lia.
    destruct r as [p|f].
    + cbn [parsed_entry snd app record_body] in *. unfold fde_entry. by rewrite (read_cie_word _ _ _ _ Hbody).
    + destruct Hr as [Hfok Hcie], Hr2 as [Hne Hca]. cbn [record_body] in *.
      assert (EE : fde_entry m buf size pos (pos + 4) (pos + ul) = head (parsed_entry buf (pos, Fde f))).
      { apply (fde_entry_emitted m buf size pos f (pos + 4) _ Hbody); try done; try lia. unfold ul. cbn [record_body]. rewrite unit_length_eq. lia. }
      by rewrite EE.
Qed.

(** The two CIEs of a section in memory. *)
Lemma section_cies m buf text p natives entries m0 :
  bytes_at m buf (record_units 0 (section_records m0 text p natives entries) ++ le_bytes 4 0) -> 0 <= buf -> buf < 2 ^ 63 ->
  cie_at m buf 0 /\ cie_at m buf (second_cie p).
Proof.
  intros Hb H0 H1. assert (Hlen : forall q, Z.of_nat (length (cie_body q)) <= 40) by (intros q; unfold cie_body; rewrite !length_app, le_bytes_length; destruct (nz q); cbn; lia).
  unfold section_records in Hb. cbn [app] in Hb. rewrite units_cons, <- app_assoc in Hb. cbn [record_body] in Hb.
  pose proof (unit_length_bounds 0 (cie_body p)) as U1. pose proof (Hlen p). pose proof (Hlen 0).
  destruct (read_unit _ _ _ _ _ Hb ltac:(lia)) as (E1&B1&Hb2). fold (second_cie p) in *. rewrite Z.add_0_l, units_cons, <- app_assoc in Hb2. cbn [record_body] in Hb2.
  pose proof (unit_length_bounds (second_cie p) (cie_body 0)) as U2.
  destruct (read_unit _ _ _ _ _ Hb2 ltac:(lia)) as (E2&B2&_). apply bytes_at_app in B1 as [B1 _]. apply bytes_at_app in B2 as [B2 _].
  split; unfold cie_at.
  - rewrite Z.add_0_r, E1. apply (cie_reads m (buf + 4) p); [done|lia|lia|lia].
  - rewrite E2. apply (cie_reads m (buf + second_cie p + 4) 0); [done|lia|lia|lia].
Qed.

(** C29. The emitters and the reader agree: parsing the generated section,
    wherever it is placed, succeeds and reports every generated FDE with its
    start, size, address, and exactly its call frame instructions (with the
    padding), and nothing else. *)
Theorem parse_generated m m0 text p capacity vo natives entries buf s emitted vo' :
  natives_ok natives -> entries_fit entries ->
  build_eh_frame m text p capacity vo natives entries = (s, emitted, vo') -> ehf_pos s < 2 ^ 32 ->
  0 <= buf < 2 ^ 63 -> Forall (fun e => u64 (text + func_offset e) <> 0) entries ->
  parse_native_eh_frame_fdes (place buf (ehf_buf s) m0) buf (ehf_pos s) =
  Some (flat_map (parsed_entry buf) (placed 0 (section_records m text p natives entries))).
Proof.
  intros Hok Hfit E Hlen Hbuf Hne. pose proof (build_eh_frame_holds m text p capacity vo natives entries Hok) as Hb. cbv zeta in Hb.
  rewrite E in Hb. destruct Hb as (Hs&_&_&_&_). rewrite section_units in Hs. set (rs := section_records m text p natives entries) in *.
  assert (Hpos : ehf_pos s = 0 + Z.of_nat (length (record_units 0 rs)) + 4) by (unfold ehf_pos; rewrite Hs, length_app, le_bytes_length; lia).
  assert (Hm : bytes_at (place buf (ehf_buf s) m0) buf (record_units 0 rs ++ le_bytes 4 0)).
  { rewrite <- Hs. apply place_bytes_at. rewrite Hs. apply Forall_app. split; [apply section_range|apply le_bytes_range]. }
  destruct (section_cies _ _ _ _ _ _ _ Hm ltac:(lia) ltac:(lia)) as [C1 C2].
  assert (Hrd : readable (place buf (ehf_buf s) m0) buf rs).
  { apply List.Forall_forall. intros r Hr. unfold rs, section_records in Hr. cbn [app] in Hr. destruct Hr as [<-|[<-|Hr]]; [done|done|].
    apply in_map_iff in Hr as (f&<-&Hf). unfold fdes_of in Hf. rewrite <- list_elem_of_In in Hf. apply list_elem_of_omap in Hf as (e&Hin&Ee).
    unfold entries_fit in Hfit. rewrite Forall_forall in Hfit, Hne. destruct (entry_fde_ok _ _ _ _ _ _ _ (Hfit e Hin) Ee) as [_ Hc].
    split; [|by destruct Hc as [->| ->]]. specialize (Hne e Hin). unfold entry_fde in Ee. cbv zeta in Ee.
    destruct (native_of text natives e); [by injection Ee as <-|]. destruct (_ || _); [done|]. by injection Ee as <-. }
  assert (Hrs : forall l pos, 5 * Z.of_nat (length l) <= Z.of_nat (length (record_units pos l))).
  { induction l as [|r l IH]; intros pos; [cbn; lia|]. rewrite units_length_cons. cbn [length].
    specialize (IH (pos + unit_length pos (record_body r pos))). pose proof (unit_length_bounds pos (record_body r pos)). pose proof (record_body_length r pos). lia. }
  unfold parse_native_eh_frame_fdes. rewrite Hpos.
  apply parse_records_units; [by rewrite Z.add_0_r|by apply section_records_ok|done|lia|lia|lia|].
  unfold parse_fuel. specialize (Hrs rs 0).
  assert (Z.of_nat (length rs) <= (0 + Z.of_nat (length (record_units 0 rs)) + 4) / 5) by (apply Z.div_le_lower_bound; lia). lia.
Qed.

Lemma parse_generated_witness :
  parse_native_eh_frame_fdes (place 0x12000000 (ehf_buf (fst (fst demo_build))) (fun _ => 0)) 0x12000000 (ehf_pos (fst (fst demo_build))) =
  Some (flat_map (parsed_entry 0x12000000) (placed 0 (section_records (fun _ => 0) 0x10000000 0x7777 demo_natives demo_entries))).
Proof.
  refine (parse_generated (fun _ => 0) (fun _ => 0) 0x10000000 0x7777 5000 0 demo_natives demo_entries 0x12000000 _ _ _ _ _ (triple_eta demo_build) _ _ _).
  - apply (bool_decide_unpack _). vm_compute. exact I.
  - apply (bool_decide_unpack _). vm_compute. exact I.
  - vm_compute. reflexivity.
  - lia.
  - apply (bool_decide_unpack _). vm_compute. exact I.
Defined.

(** ** A malformed section *)

(** A record whose 64-bit length leads back to its own start. *)
Definition looping_section : bytemem := store 4 0 0xFFFFFFFF (store 8 4 (2 ^ 64 - 12) (fun _ => 0)).

(** The reader does not terminate on every input: a record whose extended
    length wraps around makes it visit the same record for ever. *)
Theorem native_parse_diverges fuel : parse_records fuel looping_section 0 64 0 = None.
Proof.
  induction fuel as [|fuel IH]; [done|]. cbn [parse_records].
  assert (E : record_bounds looping_section 0 64 0 = Some (12, 0)) by (by vm_compute).
  change (64 <? u64 (0 + 4)) with false. cbv iota. by rewrite E, IH.
Qed.

(** ** A failed header *)

(** When the header cannot be mapped, registration fails, but the
    interposed [_dl_find_object] then answers every address of the text with
    MAP_FAILED as its header. *)
Theorem failed_hdr_handed_out H cache slide sec text buf vo emitted s natives old m h h' real pc :
  mmap_near_address H text (12 + 8 * Z.of_nat (length (qsort_entries
    (merge_entries (syn_entries (place buf (ehf_buf s) m) buf (ehf_pos s)) natives)))) h = (None, h') ->
  text <= pc < u64 (text + text_vmsize sec) ->
  let '(r, st, _, _) := register_hdr H cache slide sec text buf vo emitted s natives old m h in
  r = -1 /\ _dl_find_object real st pc = Some (mk_dlfo text (u64 (text + text_vmsize sec)) MAP_FAILED).
Proof.
  intros E Hpc. unfold register_hdr. rewrite E. split; [done|]. unfold _dl_find_object.
  cbn [macho_eh_frame_hdr macho_text_start macho_text_end]. change (nz MAP_FAILED) with true.
  destruct (Z.leb_spec text pc), (Z.ltb_spec pc (u64 (text + text_vmsize sec))); try lia. done.
Qed.

(** A host with no memory left. *)
Definition full_host : host_memory := {|
  hm_state := unit; hm_map _ _ s := (0, s); hm_unmap _ _ s := s; hm_protect _ _ _ s := s; hm_page := 4096 |}.

Lemma failed_hdr_handed_out_witness :
  let '(r, st, _, _) := register_hdr full_host false 0x10 demo_sections 0x10000000 0x12000000 0 0 (fst (fst demo_build)) [] demo_statics (fun _ => 0) tt in
  r = -1 /\ _dl_find_object (fun _ => None) st 0x10001000 = Some (mk_dlfo 0x10000000 (u64 (0x10000000 + text_vmsize demo_sections)) MAP_FAILED).
Proof.
  apply (failed_hdr_handed_out full_host false 0x10 demo_sections 0x10000000 0x12000000 0 0 (fst (fst demo_build)) [] demo_statics (fun _ => 0) tt tt).
  - vm_compute. reflexivity.
  - vm_compute. split; [discriminate|reflexivity].
Defined.
