(* ===== verification/ResolveSetup.v ===== *)
(** * Setting a resolution up: src/resolver.c, resolver_resolve_fixups

    The load commands of the image, the map from Mach-O libraries to Linux
    ones, and the opening of the libraries; then the fixups of Fixups.v or the
    opcodes of DyldRebase.v and DyldBind.v with the resolver of Resolve.v. *)

From Stdlib Require Import String.
From S2P Require Import Prelude CStr Host BindSlots Macho SymIndex Loader ResolveNames Leb128 Thunks Resolve ResolveInv ResolveAgree Fixups FixupsImage ResolveFixups DylibLoader DyldRebase DyldBind ResolveDyld.
Import Thunks Resolve DylibLoader.

Definition MAX_MAPPINGS : nat := 128.
Definition MAX_NAME : nat := 256.
Definition PATH_MAX : Z := 4096.
Definition MAX_SEGMENTS : nat := 16.

(** ** Load commands *)

Record seg_info := mk_si { si_vmaddr : Z; si_vmsize : Z; si_fileoff : Z; si_filesize : Z; si_prot : Z }.

(** The load commands part of [struct resolver_state]; [None] is a false
    [has_chained_fixups] or [has_dyld_info]. *)
Record parsed := mk_parsed {
  p_dylibs : list dylib_entry; p_ndylibs : Z; p_linkedit : seg_info; p_segments : list seg_info;
  p_fixups : option (Z * Z); p_dyld_info : option dyld_info_command;
}.

Definition basename_from_path (path : cstr) : cstr := match split_last "/" path with Some (_, b) => b | None => path end.

(** [strncpy(dst, src, MAX_NAME - 1)], [snprintf(dst, MAX_NAME, "%s", src)] *)
Definition fit_name (s : cstr) : cstr := firstn (Nat.pred MAX_NAME) s.

Definition new_entry (name : cstr) : dylib_entry :=
  mk_de (fit_name (basename_from_path name)) (fit_name name) DYLIB_SKIP [] 0 None.

Definition parse_dylib (name : string) (p : parsed) : parsed :=
  mk_parsed (if p_ndylibs p + 1 <=? MAX_DYLIBS then p_dylibs p ++ [new_entry (str name)] else p_dylibs p) (p_ndylibs p + 1)
    (p_linkedit p) (p_segments p) (p_fixups p) (p_dyld_info p).

Definition parse_segment (seg : segment_command_64) (p : parsed) : parsed :=
  let si := mk_si (vmaddr seg) (vmsize seg) (fileoff seg) (filesize seg) (initprot seg) in
  mk_parsed (p_dylibs p) (p_ndylibs p) (if String.eqb (segname seg) "__LINKEDIT" then si else p_linkedit p)
    (if (length (p_segments p) <? MAX_SEGMENTS)%nat then p_segments p ++ [si] else p_segments p) (p_fixups p) (p_dyld_info p).

Definition parse_command (p : parsed) (lc : load_command) : parsed :=
  match body lc with
  | LC_OTHER (LC_LOAD_DYLIB name) | LC_OTHER (LC_LOAD_WEAK_DYLIB name) | LC_OTHER (LC_REEXPORT_DYLIB name) => parse_dylib name p
  | LC_SEGMENT_64 seg => parse_segment seg p
  | LC_OTHER (LC_DYLD_CHAINED_FIXUPS dataoff datasize) =>
      mk_parsed (p_dylibs p) (p_ndylibs p) (p_linkedit p) (p_segments p) (Some (dataoff, datasize)) (p_dyld_info p)
  | LC_OTHER (LC_DYLD_INFO i) | LC_OTHER (LC_DYLD_INFO_ONLY i) =>
      mk_parsed (p_dylibs p) (p_ndylibs p) (p_linkedit p) (p_segments p) (p_fixups p) (Some i)
  | _ => p
  end.

Definition parse_load_commands (mh : mach_header_64) : parsed :=
  fold_left parse_command (commands mh) (mk_parsed [] 0 (mk_si 0 0 0 0 0) [] None None).

Definition in_file (si : seg_info) (off : Z) : bool := (si_fileoff si <=? off) && (off <? u64 (si_fileoff si + si_filesize si)).
Definition mem_of_file (slide : Z) (si : seg_info) (off : Z) : Z := u64 (si_vmaddr si + slide + (off - si_fileoff si)).

(** 0 is NULL. *)
Definition fileoff_to_mem (slide : Z) (p : parsed) (off : Z) : Z :=
  if in_file (p_linkedit p) off then mem_of_file slide (p_linkedit p) off
  else match List.find (fun si => in_file si off) (p_segments p) with
       | Some si => mem_of_file slide si off
       | None => 0
       end.

(** ** The library map *)

Record dylib_mapping := mk_map { dylib_pattern : cstr; mapped_path : cstr }.

Definition is_blank (c : ascii) : bool := ceq c " " || ceq c TAB.
Definition trim (s : cstr) : cstr := drop_trailing is_blank (drop_while is_blank s).

(** One line.  Trimming keeps at least the first character of a key or a
    value, which is not blank. *)
Definition mapping_line (l : list dylib_mapping) (line : cstr) : list dylib_mapping :=
  if (length l <? MAX_MAPPINGS)%nat then
    let p := drop_while is_blank (take_while (fun c => negb (ceq c NL)) (cut_nul line)) in
    match p with
    | [] => l
    | c :: _ =>
        if ceq c "#" then l
        else match split_char "=" p with
             | None => l
             | Some (key, val) => l ++ [mk_map (fit_name (trim key)) (fit_name (trim val))]
             end
    end
  else l.

(** The contents of the file, [None] when it cannot be opened. *)
Definition load_mapping_config (file : option cstr) : list dylib_mapping :=
  match file with
  | Some text => fold_left mapping_line (file_lines 512 text) []
  | None => []
  end.

Definition find_mapping (maps : list dylib_mapping) (dylib_name : cstr) : option dylib_mapping :=
  List.find (fun m => match strstr dylib_name (dylib_pattern m) with Some _ => true | None => false end) maps.

(** ** Opening the libraries *)

(** What the program runs on: text files, Mach-O files, the answers of
    [mmap], what memory calls make of memory, and [argv[0]] of the guest. *)
Record system := mk_system {
  text_file : cstr -> option cstr;
  macho_files : cstr -> option macho_file;
  kernel_mmap : list vmcall -> vmcall -> option Z;
  mapped : list vmcall -> bytemem -> bytemem;
  guest_argv0 : option cstr;
}.

Section setup.
Context (H : map_host) (L : linker) (own : own_symbols) (sys : system).
Notation world := (world H L).

(** The libraries loaded, the memory calls made, [g_libsystem_shim_handle],
    the allocation functions of the shim, [rebases_applied] and the [mprotect]
    calls. *)
Record setup_state := mk_ss {
  ss_world : world; ss_table : list loaded_dylib; ss_vm : list vmcall; g_libsystem_shim_handle : Z;
  shim_fns : Z * Z * Z; rebases_applied : Z; ss_mprotect : list (Z * Z * Z);
}.

Definition with_world (w : world) (s : setup_state) : setup_state :=
  mk_ss w (ss_table s) (ss_vm s) (g_libsystem_shim_handle s) (shim_fns s) (rebases_applied s) (ss_mprotect s).
Definition with_table (t : list loaded_dylib) (s : setup_state) : setup_state :=
  mk_ss (ss_world s) t (ss_vm s) (g_libsystem_shim_handle s) (shim_fns s) (rebases_applied s) (ss_mprotect s).
Definition with_vm (tr : list vmcall) (s : setup_state) : setup_state :=
  mk_ss (with_memory H L (mapped sys tr (memory H L (ss_world s))) (ss_world s)) (ss_table s) tr
    (g_libsystem_shim_handle s) (shim_fns s) (rebases_applied s) (ss_mprotect s).
Definition with_shim (h : Z) (fns : Z * Z * Z) (s : setup_state) : setup_state :=
  mk_ss (ss_world s) (ss_table s) (ss_vm s) h fns (rebases_applied s) (ss_mprotect s).
Definition with_fixups (rebases : Z) (prot : list (Z * Z * Z)) (s : setup_state) : setup_state :=
  mk_ss (ss_world s) (ss_table s) (ss_vm s) (g_libsystem_shim_handle s) (shim_fns s) rebases (ss_mprotect s ++ prot).

Definition file_is_macho (path : cstr) : bool :=
  match macho_files sys path with
  | None => false
  | Some f => if file_size f <? 4 then false
              else let magic := load 4 0 (file_bytes f) in
                   (magic =? 0xfeedfacf) || (magic =? 0xfeedface) || (magic =? 0xcafebabe) || (magic =? 0xbebafeca)
  end.

(** A loaded library, loaded now when it was not. *)
Definition open_macho (path : cstr) (s : setup_state) : option macho_dylib_info * setup_state :=
  match dylib_loader_find (ss_table s) path with
  | Some d => (Some (info d), s)
  | None =>
      match dylib_loader_load (kernel_mmap sys) (macho_files sys) path (ss_table s) (ss_vm s) with
      | (inr table, tr) => (option_map info (last table), with_table table (with_vm tr s))
      | (inl _, tr) => (None, with_vm tr s)
      end
  end.

(** The name relative to the directory of the executable. *)
Definition relative_name (install_name : cstr) : option cstr :=
  match strip_prefix (str "@executable_path/") install_name with
  | Some r => Some r
  | None =>
      match strip_prefix (str "@loader_path/") install_name with
      | Some r => Some r
      | None => if negb (starts_with (str "/") install_name) &&
                   match split_char "/" install_name with None => true | Some _ => false end
                then Some install_name else None
      end
  end.

(** The path that is tried. *)
Definition candidate (install_name : cstr) : option cstr :=
  match relative_name install_name, guest_argv0 sys with
  | Some relative, Some argv0 =>
      match split_last "/" argv0 with
      | None => None
      | Some (dir, _) =>
          if PATH_MAX <? Z.of_nat (length dir) + 1 + Z.of_nat (length relative) + 1 then None
          else Some (dir ++ "/"%char :: relative)
      end
  | _, _ => None
  end.

Definition as_macho (path : cstr) (i : macho_dylib_info) (de : dylib_entry) : dylib_entry :=
  mk_de (name de) (install_name de) DYLIB_MACHO (fit_name path) (handle de) (Some i).
Definition with_action (a : dylib_action) (de : dylib_entry) : dylib_entry :=
  mk_de (name de) (install_name de) a (so_path de) (handle de) (macho_info de).

(** [None] is 0: the caller treats the library as not mapped. *)
Definition open_executable_path_dylib (de : dylib_entry) (s : setup_state) : option dylib_entry * setup_state :=
  match candidate (install_name de) with
  | None => (None, s)
  | Some path =>
      if negb (file_is_macho path) then (None, s)
      else match open_macho path s with
           | (Some i, s) => (Some (as_macho path i de), s)
           | (None, s) => (None, s)
           end
  end.

(** The body of the loop of [open_dylibs]. *)
Definition open_dylib (maps : list dylib_mapping) (de : dylib_entry) (s : setup_state) : dylib_entry * setup_state :=
  match find_mapping maps (name de) with
  | None =>
      match open_executable_path_dylib de s with
      | (Some de, s) => (de, s)
      | (None, s) => (with_action DYLIB_SKIP de, s)
      end
  | Some m =>
      let path := mapped_path m in
      if streq path (str "STUB") then (with_action DYLIB_STUB de, s)
      else if streq path (str "SKIP") then (with_action DYLIB_SKIP de, s)
      else match strip_prefix (str "MACHO:") path with
      | Some macho_path =>
          match open_macho macho_path s with
          | (Some i, s) => (as_macho macho_path i de, s)
          | (None, s) => (with_action DYLIB_SKIP de, s)
          end
      | None =>
          match strip_prefix (str "DEFERRED:") path with
          | Some deferred_path =>
              let d := deferred H L (ss_world s) in
              (mk_de (name de) (install_name de) DYLIB_DEFERRED (fit_name deferred_path) (handle de) (macho_info de),
               with_world (set_deferred H L (mk_deferred (binds d) true (resolved d) (d_rs d)) (ss_world s)) s)
          | None =>
              let '(h, l) := lk_dlopen L path (lk H L (ss_world s)) in
              let s := with_world (set_lk H L l (ss_world s)) s in
              if h =? 0 then (mk_de (name de) (install_name de) DYLIB_SKIP (so_path de) 0 (macho_info de), s)
              else (mk_de (name de) (install_name de) DYLIB_MAP (fit_name path) h (macho_info de),
                    if contains "libsystem_shim.so" path then with_shim h (shim_fns s) s else s)
          end
      end
  end.

Fixpoint open_dylibs (maps : list dylib_mapping) (l : list dylib_entry) (s : setup_state) : list dylib_entry * setup_state :=
  match l with
  | [] => ([], s)
  | de :: l => let '(de, s) := open_dylib maps de s in
               let '(l, s) := open_dylibs maps l s in (de :: l, s)
  end.

(** ** The whole of it *)

(** [dlopen("libgcc_s.so.1")], then the allocation functions of the shim. *)
Definition preload_runtime (l : list dylib_entry) (s : setup_state) : setup_state :=
  let '(_, lks) := lk_dlopen L (str "libgcc_s.so.1") (lk H L (ss_world s)) in
  let s := with_world (set_lk H L lks (ss_world s)) s in
  let '(shim_malloc_fn, _, _) := shim_fns s in
  if nz shim_malloc_fn then s
  else match List.find (fun de => bool_decide (action de = DYLIB_MAP) && contains "libSystem" (name de)) l with
       | Some de =>
           let sym n := lk_dlsym L lks (handle de) (str n) in
           with_shim (g_libsystem_shim_handle s) (sym "malloc", sym "machgate_shim_memalign", sym "free") s
       | None => s
       end.

(** The segments as [mprotect] arguments. *)
Definition protect_all (slide : Z) (prot : seg_info -> Z) (segs : list seg_info) : list (Z * Z * Z) :=
  map (fun si => (u64 (si_vmaddr si + slide), si_vmsize si, prot si)) (List.filter (fun si => negb (si_vmsize si =? 0)) segs).

(** [inl] is -1, [None] undefined behaviour. *)
Definition process_dyld_info (rs : resolver_state) (p : parsed) (i : dyld_info_command) (s : setup_state) : option (unit + setup_state) :=
  let at_off := fileoff_to_mem (slide rs) p in
  let vmaddrs := map si_vmaddr (p_segments p) in
  match DyldRebase.process_rebases vmaddrs (slide rs) (at_off (rebase_off i)) (rebase_size i) (memory H L (ss_world s)) with
  | None => Some (inl tt)
  | Some (m, n) =>
      match DyldBind.process_binds (memory H L) (serve rs vmaddrs (own := own)) (at_off (bind_off i), bind_size i)
              (at_off (weak_bind_off i), weak_bind_size i) (at_off (lazy_bind_off i), lazy_bind_size i)
              (with_memory H L m (ss_world s)) with
      | None => None
      | Some (inl _) => Some (inl tt)
      | Some (inr w) =>
          Some (inr (with_fixups (rebases_applied s + n)
            (protect_all (slide rs) (fun _ => PROT_READ .| PROT_WRITE .| PROT_EXEC) (p_segments p) ++
             protect_all (slide rs) si_prot (p_segments p)) (with_world w s)))
      end
  end.

(** [None]: a chain that does not end in [fuel] pointers. *)
Definition process_chained_fixups (page_sz : Z) (fuel : nat) (rs : resolver_state) (p : parsed) (dataoff : Z) (s : setup_state)
    : option (unit + setup_state) :=
  match Fixups.process_chained_fixups (Ops := machgate_ops H L own rs) (mh rs) (slide rs) page_sz fuel (fileoff_to_mem (slide rs) p dataoff)
          (Fixups.mk_fx (memory H L (ss_world s)) (ss_world s) (rebases_applied s) []) with
  | inl _ => Some (inl tt)
  | inr None => None
  | inr (Some f) =>
      Some (inr (with_fixups (Fixups.rebases_applied f)
        (map (fun '(a, n) => (a, n, PROT_READ .| PROT_WRITE)) (Fixups.writable f))
        (with_world (with_memory H L (Fixups.mem f) (Fixups.rs f)) s)))
  end.

(** [struct resolver_state rs = {0}]: new counters. *)
Definition fresh_counters (s : setup_state) : setup_state :=
  let w := ss_world s in
  mk_ss (mk_w H L (th H L w) (lk H L w) (indexes H L w) (bind_slots H L w) 0 0 0 (deferred H L w)
           (real_SDL_GL_CreateContext H L w) (real_SDL_GL_SetAttribute H L w))
    (ss_table s) (ss_vm s) (g_libsystem_shim_handle s) (shim_fns s) 0 (ss_mprotect s).

(** What [resolver_complete_deferred] will use. *)
Definition save_deferred (rs : resolver_state) (s : setup_state) : setup_state :=
  let d := deferred H L (ss_world s) in
  if active d && negb (resolved d)
  then with_world (set_deferred H L (mk_deferred (binds d) (active d) (resolved d) (Some rs)) (ss_world s)) s else s.

Definition DYLIB_MAP_CONF : cstr := str "dylib_map.conf".

(** Steps 2 and 3: the libraries open. *)
Definition open_image (map_file : option cstr) (p : parsed) (s : setup_state) : list dylib_entry * setup_state :=
  let maps := load_mapping_config (text_file sys (default DYLIB_MAP_CONF map_file)) in
  let '(l, s) := open_dylibs maps (p_dylibs p) s in (l, preload_runtime l s).

Definition resolver_resolve_fixups (page_sz : Z) (fuel : nat) (mh_addr : Z) (header : mach_header_64) (slide : Z) (map_file : option cstr)
    (s : setup_state) : option (unit + setup_state) :=
  let s := fresh_counters s in
  let p := parse_load_commands header in
  let with_libraries (datasize : Z) (process : resolver_state -> setup_state -> option (unit + setup_state)) :=
    let '(l, s) := open_image map_file p s in
    let rs := mk_rs mh_addr header slide l (p_ndylibs p) datasize in
    match process rs s with
    | Some (inr s) => Some (inr (save_deferred rs s))
    | r => r
    end in
  match p_fixups p, p_dyld_info p with
  | None, None => Some (inr s)
  | Some (dataoff, datasize), _ => with_libraries datasize (fun rs => process_chained_fixups page_sz fuel rs p dataoff)
  | None, Some i => with_libraries 0 (fun rs => process_dyld_info rs p i)
  end.
End setup.

(** * Setting a resolution up: the library map, the libraries, the image *)

Import Thunks Resolve DylibLoader.

(** ** Libraries in the order of their commands *)

Definition dylib_name (lc : load_command) : option cstr :=
  match body lc with
  | LC_OTHER (LC_LOAD_DYLIB n) | LC_OTHER (LC_LOAD_WEAK_DYLIB n) | LC_OTHER (LC_REEXPORT_DYLIB n) => Some (str n)
  | _ => None
  end.
Definition dylib_names (h : mach_header_64) : list cstr := omap dylib_name (commands h).

Lemma parse_commands_dylibs l : forall p names,
  p_dylibs p = map new_entry names -> p_ndylibs p = Z.of_nat (length names) ->
  Z.of_nat (length names + length (omap dylib_name l)) <= MAX_DYLIBS ->
  let p' := fold_left parse_command l p in
  p_dylibs p' = map new_entry (names ++ omap dylib_name l) /\
  p_ndylibs p' = Z.of_nat (length names + length (omap dylib_name l)).
Proof.
  induction l as [|lc l IH]; intros p names Hd Hn Hl.
  { cbn in *. rewrite app_nil_r, Nat.add_0_r. done. }
  cbn [fold_left]. change (omap dylib_name (lc :: l)) with (match dylib_name lc with Some n => n :: omap dylib_name l | None => omap dylib_name l end) in *.
  destruct (dylib_name lc) as [n|] eqn:E.
  - cbn [length] in Hl. assert (Ep : parse_command p lc = parse_dylib (String.string_of_list_ascii n) p).
    { unfold dylib_name in E. unfold parse_command. destruct (body lc) as [| | | | | |o]; try done. destruct o; try done;
      injection E as <-; unfold str; by rewrite String.string_of_list_ascii_of_string. }
    rewrite Ep. destruct (IH (parse_dylib (String.string_of_list_ascii n) p) (names ++ [n])) as [H1 H2].
    + unfold parse_dylib. cbn [p_dylibs]. destruct (Z.leb_spec (p_ndylibs p + 1) MAX_DYLIBS); [|lia].
      unfold str. by rewrite String.list_ascii_of_string_of_list_ascii, Hd, map_app.
    + cbn [parse_dylib p_ndylibs]. rewrite length_app. cbn. lia.
    + rewrite length_app. cbn [length]. lia.
    + cbn [length]. rewrite H1, H2, <- app_assoc, length_app. cbn. split; [done|]. f_equal. lia.
  - assert (Ep : p_dylibs (parse_command p lc) = p_dylibs p /\ p_ndylibs (parse_command p lc) = p_ndylibs p).
    { unfold dylib_name in E. unfold parse_command. destruct (body lc) as [| | | | | |o]; try done. by destruct o. }
    destruct Ep as [E1 E2]. apply IH; [by rewrite E1|by rewrite E2|done].
Qed.

(** Entry [i] is the library of ordinal [i + 1]. *)
Lemma parse_dylibs h :
  Z.of_nat (length (dylib_names h)) <= MAX_DYLIBS ->
  p_dylibs (parse_load_commands h) = map new_entry (dylib_names h) /\
  p_ndylibs (parse_load_commands h) = Z.of_nat (length (dylib_names h)).
Proof. intros Hl. by apply (parse_commands_dylibs (commands h) (mk_parsed [] 0 (mk_si 0 0 0 0 0) [] None None) []). Qed.

(** ** Opening *)

(** A path the map gives to [dlopen]. *)
Definition linux_library (path : cstr) : bool :=
  negb (streq path (str "STUB")) && negb (streq path (str "SKIP")) &&
  negb (starts_with (str "MACHO:") path) && negb (starts_with (str "DEFERRED:") path).

Section opening.
Context {H : map_host} {L : linker} {own : own_symbols} {lo hi : Z} (sys : system).
Context (Hmapped : forall tr m x, lo <= x < hi -> mapped sys tr m x = m x).
Notation good s := (@thunks_ok H lo hi (th H L (ss_world H L s))).
Notation mem s := (memory H L (ss_world H L s)).

(** Opening libraries keeps the image and the pools of generated code. *)
Record opens (s s' : setup_state H L) : Prop := {
  op_good : good s -> good s';
  op_mem : same lo hi (mem s) (mem s');
}.

Lemma opens_refl s : opens s s.
Proof. by constructor. Qed.

Lemma opens_trans s1 s2 s3 : opens s1 s2 -> opens s2 s3 -> opens s1 s3.
Proof. intros [A1 A2] [B1 B2]. constructor; [eauto|]. intros x Hx. by rewrite B2, A2. Qed.

Lemma opens_vm tr s : opens s (with_vm H L sys tr s).
Proof. constructor; [intros []; by constructor|]. intros x Hx. cbn. by apply Hmapped. Qed.

Lemma open_macho_opens path s : opens s (snd (open_macho H L sys path s)).
Proof.
  unfold open_macho. destruct (dylib_loader_find _ _); [apply opens_refl|].
  destruct (dylib_loader_load _ _ _ _ _) as [[e|table] tr]; cbn [snd]; [apply opens_vm|].
  eapply opens_trans; [apply (opens_vm tr)|]. by constructor.
Qed.

Lemma open_executable_path_opens de s : opens s (snd (open_executable_path_dylib H L sys de s)).
Proof.
  unfold open_executable_path_dylib. destruct (candidate _ _) as [path|]; [|apply opens_refl].
  destruct (negb _); [apply opens_refl|]. pose proof (open_macho_opens path s) as Ho. by destruct (open_macho _ _ _ _ _) as [[i|] s'].
Qed.

Lemma open_dylib_opens maps de s : opens s (snd (open_dylib H L sys maps de s)).
Proof.
  unfold open_dylib. destruct (find_mapping _ _) as [mp|].
  - destruct (streq _ _); [apply opens_refl|]. destruct (streq _ _); [apply opens_refl|].
    destruct (strip_prefix (str "MACHO:") _) as [path|].
    { pose proof (open_macho_opens path s) as Ho. by destruct (open_macho _ _ _ _ _) as [[i|] s']. }
    destruct (strip_prefix (str "DEFERRED:") _); [by constructor|].
    destruct (lk_dlopen _ _ _) as [h l]. destruct (h =? 0); [by constructor|]. cbn [snd]. destruct (contains _ _); by constructor.
  - pose proof (open_executable_path_opens de s) as Ho. by destruct (open_executable_path_dylib _ _ _ _ _) as [[i|] s'].
Qed.

(** Each library keeps its place and its name; one mapped to a Linux library
    that can be opened has its handle. *)
Definition opened_as (maps : list dylib_mapping) (de de' : dylib_entry) : Prop :=
  name de' = name de /\
  forall mp h, find_mapping maps (name de) = Some mp -> linux_library (mapped_path mp) = true ->
    (forall l, fst (lk_dlopen L (mapped_path mp) l) = h) -> h <> 0 -> action de' = DYLIB_MAP /\ handle de' = h.

Lemma open_dylib_opened maps de s : opened_as maps de (fst (open_dylib H L sys maps de s)).
Proof.
  unfold opened_as, open_dylib. destruct (find_mapping maps (name de)) as [mp|].
  2: { split; [|done]. unfold open_executable_path_dylib. destruct (candidate _ _) as [path|]; [|done].
       destruct (negb _); [done|]. by destruct (open_macho _ _ _ _ _) as [[i|] s']. }
  unfold linux_library, starts_with.
  destruct (streq _ (str "STUB")) eqn:E1; [split; [done|intros mp' h [= <-]; by rewrite E1]|].
  destruct (streq _ (str "SKIP")) eqn:E2; [split; [done|intros mp' h [= <-]; by rewrite E1, E2]|].
  destruct (strip_prefix (str "MACHO:") _) as [path|] eqn:E3.
  { split; [by destruct (open_macho _ _ _ _ _) as [[i|] s']|intros mp' h [= <-]; by rewrite E1, E2, E3]. }
  destruct (strip_prefix (str "DEFERRED:") _) as [path|] eqn:E4; [split; [done|intros mp' h [= <-]; by rewrite E1, E2, E3, E4]|].
  destruct (lk_dlopen _ _ _) as [h0 l] eqn:El. split; [by destruct (h0 =? 0)|].
  intros mp' h [= <-] _ Hh Hh0. specialize (Hh (lk H L (ss_world H L s))). rewrite El in Hh. cbn in Hh. subst h0.
  by destruct (Z.eqb_spec h 0).
Qed.

Lemma open_dylibs_spec maps l : forall s,
  Forall2 (opened_as maps) l (fst (open_dylibs H L sys maps l s)) /\ opens s (snd (open_dylibs H L sys maps l s)).
Proof.
  induction l as [|de l IH]; intros s; cbn [open_dylibs]; [split; [constructor|apply opens_refl]|].
  pose proof (open_dylib_opened maps de s) as Hd. pose proof (open_dylib_opens maps de s) as Ho.
  destruct (open_dylib _ _ _ _ _ _) as [de' s1]. destruct (IH s1) as [H1 H2]. destruct (open_dylibs _ _ _ _ _ _) as [l' s2].
  cbn [fst snd] in *. split; [by constructor|by eapply opens_trans].
Qed.

Lemma preload_opens l s : opens s (preload_runtime H L l s).
Proof.
  unfold preload_runtime. destruct (lk_dlopen _ _ _) as [h lks]. cbn [shim_fns with_world].
  destruct (shim_fns H L s) as [[f1 f2] f3]. destruct (nz f1); [by constructor|]. destruct (List.find _ _); by constructor.
Qed.

Definition maps_of (map_file : option cstr) : list dylib_mapping :=
  load_mapping_config (text_file sys (default DYLIB_MAP_CONF map_file)).

Lemma open_image_spec map_file p s :
  Forall2 (opened_as (maps_of map_file)) (p_dylibs p) (fst (open_image H L sys map_file p s)) /\
  opens s (snd (open_image H L sys map_file p s)).
Proof.
  unfold open_image. fold (maps_of map_file). destruct (open_dylibs_spec (maps_of map_file) (p_dylibs p) s) as [H1 H2].
  destruct (open_dylibs _ _ _ _ _ _) as [l s1]. cbn [fst snd] in *. split; [done|]. eapply opens_trans; [done|apply preload_opens].
Qed.

(** A symbol is ordinary by its name and the name of its library. *)
Lemma plain_symbol_name de de' sym : name de' = name de -> plain_symbol own de sym -> plain_symbol own de' sym.
Proof. intros E []. by constructor; rewrite ?E. Qed.
End opening.

(** ** An image and its libraries *)

(** C1. Imports of an image, from its load commands on: when the image has at
    most 64 libraries and its chained fixups are mapped, the resolution
    succeeds, and each slot bound to an ordinary symbol of library number
    [ordinal], whose file name the library map sends to a Linux library that
    can be opened, holds the address of that symbol in that Linux library,
    plus the addends. *)
Theorem image_imports_bound H L own lo hi (Hok : host_ok H L own lo hi) sys page_sz fuel mh_addr header slide map_file
    dataoff datasize dlo dhi off l (s : setup_state H L) :
  (forall tr m x, lo <= x < hi -> mapped sys tr m x = m x) ->
  @thunks_ok H lo hi (th H L (ss_world H L s)) -> lo <= dlo /\ dhi <= hi ->
  Z.of_nat (length (dylib_names header)) <= MAX_DYLIBS ->
  p_fixups (parse_load_commands header) = Some (dataoff, datasize) ->
  let chain_data := fileoff_to_mem slide (parse_load_commands header) dataoff in chain_data <> 0 ->
  let m0 := memory H L (ss_world H L s) in
  (forall m, same dlo dhi m0 m -> starts_at m chain_data off l) ->
  let cs := image_chains mh_addr l in
  Forall (chain_ready lo hi m0) cs -> ForallOrdPairs chains_apart cs ->
  Forall (fun c => outside c dlo dhi) cs -> Forall (fun c => (length (ch_rest c) < fuel)%nat) cs ->
  exists s', resolver_resolve_fixups H L own sys page_sz fuel mh_addr header slide map_file s = Some (inr s') /\
    forall c loc ordinal addend imp sym nm mp h f,
      In c cs -> In (loc, Fixups.Bind ordinal addend) (slots_of c) ->
      (forall m, same dlo dhi m0 m ->
         import_at (mk_rs mh_addr header slide [] 0 datasize) m chain_data ordinal = Some (imp, sym)) ->
      1 <= im_lib_ordinal imp -> dylib_names header !! Z.to_nat (im_lib_ordinal imp - 1) = Some nm ->
      find_mapping (maps_of sys map_file) (name (new_entry nm)) = Some mp -> linux_library (mapped_path mp) = true ->
      (forall k, fst (lk_dlopen L (mapped_path mp) k) = h) -> h <> 0 ->
      plain_symbol own (new_entry nm) sym ->
      let opened := snd (open_image H L sys map_file (parse_load_commands header) (fresh_counters H L s)) in
      lk_dlsym L (lk H L (ss_world H L opened)) h (lookup_name_of sym) = f -> f <> 0 ->
      load 8 loc (memory H L (ss_world H L s')) = u64 (f + i64 (addend + im_addend imp)).
Proof.
  intros Hm Ht Hd Hn Hfx cd Hcd m0 Hat cs Hr Hap Ho Hf. unfold resolver_resolve_fixups. rewrite Hfx.
  destruct (parse_dylibs header Hn) as [Ep En]. set (p := parse_load_commands header) in *.
  destruct (open_image_spec (L := L) sys Hm map_file p (fresh_counters H L s)) as [Hop [Hg Hmem]].
  destruct (open_image H L sys map_file p (fresh_counters H L s)) as [entries s1]. cbn [fst snd] in *.
  rewrite Ep in Hop. pose proof (Forall2_length _ _ _ Hop) as Hlen. rewrite length_map in Hlen.
  set (rs := mk_rs mh_addr header slide entries (p_ndylibs p) datasize).
  assert (Hrs : entries_ok rs) by (unfold entries_ok; cbn; lia).
  assert (Hsame : forall m, same dlo dhi (memory H L (ss_world H L s1)) m -> same dlo dhi m0 m).
  { intros m Hs x Hx. rewrite (Hs x Hx). apply Hmem. lia. }
  destruct (chained_imports_bound H L own lo hi Hok rs Hrs mh_addr slide page_sz dlo dhi fuel cd off l
    (Fixups.mk_fx (memory H L (ss_world H L s1)) (ss_world H L s1) (rebases_applied H L s1) [])) as (f&E&Hslots); try done.
  - by apply Hg.
  - intros m Hs. by apply Hat, Hsame.
  - eapply Forall_impl; [exact Hr|]. intros c Hc. eapply chain_ready_same; [|exact Hc]. destruct Hc as (_&?&?).
    intros x Hx. apply Hmem. lia.
  - unfold process_chained_fixups. cbn [Resolve.mh Resolve.slide rs]. fold cd. rewrite E. eexists. split; [reflexivity|].
    intros c loc ordinal addend imp sym nm mp h fn Hc Hin Himp Hord Hnm Hmap Hlin Hdl Hh0 Hp Hfn Hf0.
    assert (Enm : map new_entry (dylib_names header) !! Z.to_nat (im_lib_ordinal imp - 1) = Some (new_entry nm))
      by (by rewrite list_lookup_fmap, Hnm).
    destruct (Forall2_lookup_l _ _ _ _ _ Hop Enm) as (de&Ede&Enam&Hde). destruct (Hde mp h Hmap Hlin Hdl Hh0) as [Ha Hh].
    apply lookup_lt_Some in Hnm as Hlt.
    assert (Hload : load 8 loc (Fixups.mem f) = u64 (fn + i64 (addend + im_addend imp))).
    { apply (Hslots c loc ordinal addend imp sym de fn Hc Hin); try done.
      - intros m Hs. by apply Himp, Hsame.
      - by apply (plain_symbol_name (new_entry nm)).
      - cbn. lia.
      - by rewrite Hh. }
    rewrite <- Hload. unfold save_deferred. by destruct (_ && _).
Qed.

(** An image with one library and the fixups of [import_memory]. *)
Definition open_linker : linker :=
  mk_linker unit (lk_dlsym sample_linker) (fun path s => (if streq path (str "libc.so.6") then 7 else 0, s))
    (fun _ _ => None) (fun _ _ => true) (fun _ => None).

Lemma open_linker_ok : host_ok sample_map_host open_linker sample_own 0x1000 0x5000.
Proof. by destruct sample_host_ok. Qed.

Definition puts_image : mach_header_64 :=
  mk_mh MH_EXECUTE 0 0 [mk_lc 72 (LC_SEGMENT_64 (mk_seg "__TEXT" 0x1000 0x1000 0 0x1000 7 5 []));
                        mk_lc 72 (LC_SEGMENT_64 (mk_seg "__LINKEDIT" 0x4000 0x1000 0x3000 0x100 1 1 []));
                        mk_lc 16 (LC_OTHER (LC_DYLD_CHAINED_FIXUPS 0x3000 0x100));
                        mk_lc 56 (LC_OTHER (LC_LOAD_DYLIB "/usr/lib/libSystem.B.dylib"))].
Definition puts_system : system :=
  mk_system (fun path => if streq path (str "dylib_map.conf") then Some (str "# Linux libraries" ++ [NL] ++ str " libSystem = libc.so.6 " ++ [NL]) else None)
    (fun _ => None) (fun _ _ => None) (fun _ m => m) (Some (str "/games/a.out")).
Definition puts_state : setup_state sample_map_host open_linker :=
  mk_ss _ _ (mk_w sample_map_host open_linker (mk_th sample_map_host import_memory no_pool no_pool no_pool no_pool no_pool 0 tt) tt [] BindSlots.no_slots 0 0 0
    (mk_deferred [] false false None) 0 0) [] [] 0 (0, 0, 0) 0 [].

Lemma image_imports_bound_witness :
  exists s', resolver_resolve_fixups _ _ sample_own puts_system 4096 10 0x1000 puts_image 0 None puts_state = Some (inr s') /\
    load 8 0x2008 (memory _ _ (ss_world _ _ s')) = u64 (0x7000 + i64 (-4 + 0)).
Proof.
  edestruct (image_imports_bound _ _ sample_own 0x1000 0x5000 open_linker_ok puts_system 4096 10 0x1000 puts_image 0 None 0x3000 0x100
    0x4000 0x4100 0x20 [None; Some (0x10, import_segment)] puts_state) as (s'&E&Hs).
  - done.
  - constructor; try (by left); split; by vm_compute.
  - lia.
  - by vm_compute.
  - reflexivity.
  - by vm_compute.
  - intros m. change (fileoff_to_mem 0 (parse_load_commands puts_image) 0x3000) with 0x4000. apply import_starts.
  - apply List.Forall_cons; [apply import_chain_ready|apply List.Forall_nil].
  - constructor; [apply List.Forall_nil|constructor].
  - apply List.Forall_cons; [|apply List.Forall_nil]. right. vm_compute. discriminate.
  - apply List.Forall_cons; [|apply List.Forall_nil]. cbn. lia.
  - exists s'. split; [exact E|].
    refine (Hs import_chain 0x2008 0 (-4) (mk_import 1 false 1 0) (str "_puts") (str "/usr/lib/libSystem.B.dylib")
              (mk_map (str "libSystem") (str "libc.so.6")) 7 0x7000 _ _ _ _ _ _ _ _ _ _ _ _).
    + by left.
    + right. by left.
    + intros m. change (fileoff_to_mem 0 (parse_load_commands puts_image) 0x3000) with 0x4000. by apply import_found.
    + cbn. lia.
    + reflexivity.
    + vm_compute. reflexivity.
    + reflexivity.
    + intros k. vm_compute. reflexivity.
    + done.
    + constructor; [| | | | | | | |split]; vm_compute; reflexivity.
    + vm_compute. reflexivity.
    + done.
Defined.

(** ** The library map as text *)

Definition print_mapping (m : dylib_mapping) : cstr := dylib_pattern m ++ str " = " ++ mapped_path m.
Definition map_text (maps : list dylib_mapping) : cstr := concat (map (fun b => b ++ [NL]) (map print_mapping maps)).

Definition plain_text (s : cstr) : Prop := Forall (fun c => c <> NL /\ code c <> 0) s.

Record mapping_ok (m : dylib_mapping) : Prop := {
  mo_pattern : plain_text (dylib_pattern m) /\ trim (dylib_pattern m) = dylib_pattern m /\ Forall (fun c => c <> "="%char) (dylib_pattern m);
  mo_first : exists c r, dylib_pattern m = c :: r /\ c <> "#"%char;
  mo_path : plain_text (mapped_path m) /\ trim (mapped_path m) = mapped_path m;
  mo_length : (length (dylib_pattern m) <= 255 /\ length (mapped_path m) <= 255 /\ length (print_mapping m) <= 510)%nat;
}.

Lemma drop_while_length f s : (length (drop_while f s) <= length s)%nat.
Proof. induction s as [|c s IH]; cbn; [lia|]. destruct (f c); cbn; lia. Qed.

Lemma drop_trailing_length f s : (length (drop_trailing f s) <= length s)%nat.
Proof. induction s as [|c s IH]; cbn; [lia|]. destruct (drop_trailing f s); [destruct (f c)|]; cbn in *; lia. Qed.

Lemma trimmed_first c r : trim (c :: r) = c :: r -> is_blank c = false.
Proof.
  unfold trim. cbn [drop_while]. destruct (is_blank c); [|done]. intros E. apply (f_equal (@length _)) in E.
  pose proof (drop_trailing_length is_blank (drop_while is_blank r)). pose proof (drop_while_length is_blank r). cbn in E. lia.
Qed.

Lemma take_while_line b : Forall (fun c => c <> NL) b -> take_while (fun c => negb (ceq c NL)) (b ++ [NL]) = b.
Proof.
  intros Hb. induction Hb as [|c b Hc Hb IH]; [done|]. cbn [app take_while].
  replace (ceq c NL) with false by (unfold ceq; by destruct (Ascii.eqb_spec c NL)). cbn. by rewrite IH.
Qed.

Lemma plain_text_app a b : plain_text a -> plain_text b -> plain_text (a ++ b).
Proof. intros Ha Hb. apply Forall_app. by split. Qed.

Lemma print_mapping_plain m : mapping_ok m -> plain_text (print_mapping m).
Proof.
  intros [(Hp&_) _ [Hq _] _]. apply plain_text_app; [done|]. apply plain_text_app; [|done].
  repeat (constructor; [split; [discriminate|vm_compute; discriminate]|]). constructor.
Qed.

Lemma mapping_line_adds l m :
  mapping_ok m -> (length l < MAX_MAPPINGS)%nat -> mapping_line l (print_mapping m ++ [NL]) = l ++ [m].
Proof.
  intros Hok Hl. pose proof (print_mapping_plain m Hok) as Hpl. destruct Hok as [(_&Ht&He) (c&r&Ec&Hc) (_&Hv) (L1&L2&_)].
  unfold mapping_line. destruct (Nat.ltb_spec (length l) MAX_MAPPINGS); [|lia].
  rewrite cut_nul_id, take_while_line.
  2: { eapply Forall_impl; [exact Hpl|]. by intros d [Hd _]. }
  2: { apply Forall_app. split; [|by constructor; [vm_compute; discriminate|constructor]]. eapply Forall_impl; [exact Hpl|]. by intros d [_ Hd]. }
  destruct m as [pat path]. cbn [dylib_pattern mapped_path] in *. subst pat. pose proof (trimmed_first c r Ht) as Hb.
  unfold print_mapping. cbn [dylib_pattern mapped_path app drop_while]. rewrite Hb. unfold ceq at 1. destruct (Ascii.eqb_spec c "#"); [done|].
  change (c :: r ++ str " = " ++ path) with ((c :: r) ++ " "%char :: "="%char :: " "%char :: path).
  rewrite (app_assoc (c :: r) [" "%char] ("="%char :: " "%char :: path) : (c :: r) ++ " "%char :: "="%char :: " "%char :: path = ((c :: r) ++ [" "%char]) ++ "="%char :: " "%char :: path).
  rewrite split_char_app; [|apply Forall_app; split; [done|by constructor]]. do 3 f_equal.
  - unfold trim. cbn [app drop_while]. rewrite Hb. change (c :: r ++ [" "%char]) with ((c :: r) ++ [" "%char]). rewrite drop_trailing_app by (by constructor).
    unfold trim in Ht. cbn [drop_while] in Ht. rewrite Hb in Ht. rewrite Ht. apply firstn_all2. exact L1.
  - unfold trim in *. cbn [drop_while]. change (is_blank " ") with true. cbv iota. rewrite Hv. by apply firstn_all2.
Qed.

(** The library map is what its file says: printing a list of at most 128
    mappings, one [pattern = path] per line, and loading the file gives the
    same list in the same order. *)
Theorem dylib_map_round_trip maps :
  Forall mapping_ok maps -> (length maps <= MAX_MAPPINGS)%nat -> load_mapping_config (Some (map_text maps)) = maps.
Proof.
  intros Hok Hl. unfold load_mapping_config, map_text. rewrite file_lines_concat.
  - assert (Hg : forall l, (length (l ++ maps) <= MAX_MAPPINGS)%nat ->
      fold_left mapping_line (map (fun b => b ++ [NL]) (map print_mapping maps)) l = l ++ maps); [|by apply (Hg [])].
    clear Hl. induction Hok as [|m maps Hm Hok IH]; intros l Hl; [by rewrite app_nil_r|]. rewrite length_app in Hl. cbn [map fold_left length] in *.
    rewrite mapping_line_adds by (done || lia). rewrite IH; [by rewrite <- app_assoc|]. rewrite !length_app. cbn. lia.
  - apply Forall_map. eapply Forall_impl; [exact Hok|]. intros m Hm. split; [|pose proof (mo_length _ Hm); lia].
    eapply Forall_impl; [apply (print_mapping_plain m Hm)|]. by intros c [Hc _].
Qed.

Definition sample_maps : list dylib_mapping :=
  [mk_map (str "libSystem") (str "libsystem_shim.so"); mk_map (str "AppKit") (str "STUB"); mk_map (str "libSDL2") (str "DEFERRED:libSDL2-2.0.so.0")].

Lemma plain_literal s : forallb (fun c => negb (ceq c NL) && negb (code c =? 0)) s = true -> plain_text s.
Proof.
  intros H. rewrite forallb_forall in H. apply Forall_forall. intros c Hc%list_elem_of_In. specialize (H c Hc).
  apply andb_prop in H as [H1 H2]. split; [intros ->; done|lia].
Qed.

Lemma mapping_literal p q :
  forallb (fun c => negb (ceq c NL) && negb (code c =? 0)) p = true -> forallb (fun c => negb (ceq c NL) && negb (code c =? 0)) q = true ->
  trim p = p -> trim q = q -> forallb (fun c => negb (ceq c "=")) p = true ->
  match p with [] => false | c :: _ => negb (ceq c "#") end = true ->
  (length p <=? 200)%nat = true -> (length q <=? 200)%nat = true -> mapping_ok (mk_map p q).
Proof.
  intros Hp Hq Tp Tq He Hf Lp Lq. apply Nat.leb_le in Lp, Lq. constructor; cbn [dylib_pattern mapped_path].
  - split; [by apply plain_literal|]. split; [done|]. rewrite forallb_forall in He. apply Forall_forall.
    intros c Hc%list_elem_of_In -> . by specialize (He _ Hc).
  - destruct p as [|c r]; [done|]. exists c, r. split; [done|]. by intros ->.
  - split; [by apply plain_literal|done].
  - unfold print_mapping. cbn [dylib_pattern mapped_path]. rewrite !length_app. cbn [length str String.list_ascii_of_string]. lia.
Qed.

Lemma dylib_map_round_trip_witness : load_mapping_config (Some (map_text sample_maps)) = sample_maps.
Proof.
  apply dylib_map_round_trip; [|vm_compute; lia].
  apply List.Forall_cons; [|apply List.Forall_cons; [|apply List.Forall_cons; [|apply List.Forall_nil]]]; apply mapping_literal; vm_compute; reflexivity.
Defined.

(** ** Two images with deferred libraries *)

(** Handles 3 and 4 for liba.so and libb.so; each has an [f]. *)
Definition two_linker : linker :=
  mk_linker unit (fun _ h n => if streq n (str "f") then (if h =? 3 then 0xa000 else if h =? 4 then 0xb000 else 0) else 0)
    (fun path s => (if streq path (str "liba.so") then 3 else if streq path (str "libb.so") then 4 else 0, s))
    (fun _ _ => None) (fun _ _ => true) (fun _ => None).
Definition f_binds : list Z :=
  DyldBind.encode_ops [DyldBind.SetOrdinalImm 1; DyldBind.SetSymbol 0 (str "_f"); DyldBind.SetSegment 0 0x1000; DyldBind.Bind].
Definition deferred_image (library : string) (bind_size : Z) : mach_header_64 :=
  mk_mh MH_EXECUTE 0 0 [mk_lc 72 (LC_SEGMENT_64 (mk_seg "__DATA" 0x1000 0x2000 0 0x2000 3 3 []));
                        mk_lc 72 (LC_SEGMENT_64 (mk_seg "__LINKEDIT" 0x4000 0x1000 0x3000 0x100 1 1 []));
                        mk_lc 48 (LC_OTHER (LC_DYLD_INFO_ONLY (mk_dyld_info 0 0 0x3000 bind_size 0 0 0 0)));
                        mk_lc 56 (LC_OTHER (LC_LOAD_DYLIB library))].
Definition two_system : system :=
  mk_system (fun _ => Some (map_text [mk_map (str "liba") (str "DEFERRED:liba.so"); mk_map (str "libb") (str "DEFERRED:libb.so")]))
    (fun _ => None) (fun _ _ => None) (fun _ m => m) None.
Definition two_state : setup_state sample_map_host two_linker :=
  mk_ss _ _ (mk_w sample_map_host two_linker (mk_th sample_map_host (place 0x4000 (f_binds ++ [0]) (fun _ => 0)) no_pool no_pool no_pool no_pool no_pool 0 tt) tt
    [] BindSlots.no_slots 0 0 0 (mk_deferred [] false false None) 0 0) [] [] 0 (0, 0, 0) 0 [].

(** Resolve the images in order, then complete the deferred binds; the value of
    the slot of the first image. *)
Definition slot_after (images : list mach_header_64) : option Z :=
  let step (o : option (setup_state sample_map_host two_linker)) (h : mach_header_64) :=
    match o with
    | Some s => match resolver_resolve_fixups _ _ sample_own two_system 4096 0 0x1000 h 0 None s with Some (inr s) => Some s | _ => None end
    | None => None
    end in
  match fold_left step images (Some two_state) with
  | None => None
  | Some s => match resolver_complete_deferred _ _ sample_own (ss_world _ _ s) with
              | Some (_, w) => Some (load 8 0x2000 (memory _ _ w))
              | None => None
              end
  end.

(** Deferred binds of one image are lost to the next: the image's import
    of [f] from its library liba is completed with liba when the image is the
    only one, but with the second image's library of the same number, libb,
    when a second image was resolved before the completion.  Each resolution
    replaces the library table that all recorded binds are completed with. *)
Theorem deferred_binds_follow_last_image :
  slot_after [deferred_image "/usr/lib/liba.dylib" 16] = Some 0xa000 /\
  slot_after [deferred_image "/usr/lib/liba.dylib" 16; deferred_image "/usr/lib/libb.dylib" 0] = Some 0xb000.
Proof. vm_compute. done. Qed.
