(* ===== verification/Trampoline.v ===== *)
(** * Trampolines: src/trampoline.c

    Functions of a library that is linked into the guest are redirected to a
    Linux library: the first instruction becomes a branch to an island, the
    island jumps to the native function.  Pages with data of the library only
    are made inaccessible.  Log lines are left out. *)

From Stdlib Require Import String.
From S2P Require Import Prelude Arm64 Arm64Enc IsaIslandRun CStr Host Macho SymIndex ResolveNames Leb128 Thunks Resolve.
Import Thunks.

Module Trampoline.

Definition TRAMPOLINE_LDR_X16 : Z := 0x58000050.
Definition TRAMPOLINE_BR_X16 : Z := 0xd61f0200.
Definition ISLAND_SIZE : Z := 16.
Definition MAX_GUARDED_PAGES : nat := 4096.

(** The static variables; [island_pool] is 0 before it is set.  [protects] are
    the [mprotect] calls made, [guarded_pages] base and size of each, and
    [signal_diag] what the handler was installed for. *)
Record tramp := mk_t {
  t_mem : bytemem; island_pool : Z; island_pool_size : Z; island_pool_used : Z;
  stub_island_addr : Z; abort_caller_addr : Z; text_patch_base : Z; text_patch_size : Z;
  protects : list (Z * Z * Z); guarded_pages : list (Z * Z); signal_diag : option (Z * Z);
}.

Definition set_pool_used (m : bytemem) (used : Z) (t : tramp) : tramp :=
  mk_t m (island_pool t) (island_pool_size t) used (stub_island_addr t) (abort_caller_addr t)
    (text_patch_base t) (text_patch_size t) (protects t) (guarded_pages t) (signal_diag t).
Definition set_stub (a : Z) (t : tramp) : tramp :=
  mk_t (t_mem t) (island_pool t) (island_pool_size t) (island_pool_used t) a (abort_caller_addr t)
    (text_patch_base t) (text_patch_size t) (protects t) (guarded_pages t) (signal_diag t).
Definition set_abort_caller (a : Z) (t : tramp) : tramp :=
  mk_t (t_mem t) (island_pool t) (island_pool_size t) (island_pool_used t) (stub_island_addr t) a
    (text_patch_base t) (text_patch_size t) (protects t) (guarded_pages t) (signal_diag t).
Definition set_memory (m : bytemem) (t : tramp) : tramp := set_pool_used m (island_pool_used t) t.
Definition set_text (base size : Z) (t : tramp) : tramp :=
  mk_t (t_mem t) (island_pool t) (island_pool_size t) (island_pool_used t) (stub_island_addr t) (abort_caller_addr t)
    base size (protects t) (guarded_pages t) (signal_diag t).
Definition add_protect (c : Z * Z * Z) (t : tramp) : tramp :=
  mk_t (t_mem t) (island_pool t) (island_pool_size t) (island_pool_used t) (stub_island_addr t) (abort_caller_addr t)
    (text_patch_base t) (text_patch_size t) (protects t ++ [c]) (guarded_pages t) (signal_diag t).
Definition add_guarded (g : Z * Z) (t : tramp) : tramp :=
  mk_t (t_mem t) (island_pool t) (island_pool_size t) (island_pool_used t) (stub_island_addr t) (abort_caller_addr t)
    (text_patch_base t) (text_patch_size t) (protects t) (guarded_pages t ++ [g]) (signal_diag t).

(** ** Islands *)

Definition trampoline_set_pool (base size : Z) (t : tramp) : tramp :=
  mk_t (t_mem t) base size 0 (stub_island_addr t) (abort_caller_addr t)
    (text_patch_base t) (text_patch_size t) (protects t) (guarded_pages t) (signal_diag t).

(** Room for one more island. *)
Definition pool_full (t : tramp) : bool :=
  (island_pool t =? 0) || (island_pool_size t <? u64 (island_pool_used t + ISLAND_SIZE)).

(** [ldr x16, #8; br x16; .quad target] *)
Definition write_island (a target : Z) (m : bytemem) : bytemem :=
  write_thunk a [TRAMPOLINE_LDR_X16; TRAMPOLINE_BR_X16] target m.

(** 0 is a failure. *)
Definition alloc_island (native_addr : Z) (t : tramp) : Z * tramp :=
  if pool_full t then (0, t)
  else
    let island := island_pool t + island_pool_used t in
    (island, set_pool_used (write_island island native_addr (t_mem t)) (island_pool_used t + ISLAND_SIZE) t).

Definition stub_words : list Z := [0x52800000; 0xD65F03C0; 0xD503201F; 0xD503201F].

Definition get_stub_island (t : tramp) : Z * tramp :=
  if nz (stub_island_addr t) then (stub_island_addr t, t)
  else if pool_full t then (0, t)
  else
    let code := island_pool t + island_pool_used t in
    (code, set_stub code (set_pool_used (write_code code stub_words (t_mem t)) (island_pool_used t + ISLAND_SIZE) t)).

(** [B] from [src] to [dst]; [None]: out of range. *)
Definition branch_word (src dst : Z) : option Z :=
  let offset := i64 (dst - src) in
  if (offset <? -128 * 1024 * 1024) || (128 * 1024 * 1024 <=? offset) || nz (offset .& 3) then None
  else Some (0x14000000 .| u32 ((offset .>> 2) .& 0x03FFFFFF)).

Section patch.
(** The address of [trampoline_abort], the dynamic linker, the page size
    [sysconf] gives, whether an [mprotect] call succeeds given the earlier
    ones, and whether [calloc(n, 1)] succeeds. *)
Context (abort_fn : Z) (L : Resolve.linker) (sysconf_page : Z) (mprotect_ok : list (Z * Z * Z) -> Z * Z * Z -> bool) (calloc_ok : Z -> bool).

Definition get_abort_caller (t : tramp) : Z * tramp :=
  if nz (abort_caller_addr t) then (abort_caller_addr t, t)
  else let '(a, t) := alloc_island abort_fn t in
       if a =? 0 then (0, t) else (a, set_abort_caller a t).

(** [ldr x0, #8; b <abort_caller>; .quad symbol_name] *)
Definition make_abort_island (symbol_name : Z) (t : tramp) : Z * tramp :=
  let '(caller, t) := get_abort_caller t in
  if caller =? 0 then (0, t)
  else if pool_full t then (0, t)
  else
    let island := island_pool t + island_pool_used t in
    let m := store 4 island 0x58000040 (t_mem t) in
    match branch_word (island + 4) caller with
    | None => (0, set_memory m t)
    | Some b => (island, set_pool_used (store 8 (island + 8) symbol_name (store 4 (island + 4) b m))
                           (island_pool_used t + ISLAND_SIZE) t)
    end.

(** Whether the trampoline was written. *)
Definition write_trampoline (func_addr native_addr : Z) (t : tramp) : bool * tramp :=
  let '(island, t) := alloc_island native_addr t in
  if island =? 0 then (false, t)
  else match branch_word func_addr island with
       | None => (false, t)
       | Some b => (true, set_memory (store 4 func_addr b (t_mem t)) t)
       end.

(** ** The image *)

(** 0 is NULL. *)
Definition fileoff_to_mem (header : mach_header_64) (slide fileoff : Z) : Z :=
  match List.find (fun lc => match body lc with
                             | LC_SEGMENT_64 seg => (Macho.fileoff seg <=? fileoff) && (fileoff <? u64 (Macho.fileoff seg + filesize seg))
                             | _ => false
                             end) (commands header) with
  | Some lc => match body lc with
               | LC_SEGMENT_64 seg => u64 (vmaddr seg + slide + (fileoff - Macho.fileoff seg))
               | _ => 0
               end
  | None => 0
  end.

Definition find_symtab (header : mach_header_64) : option symtab_command :=
  match List.find (fun lc => match body lc with LC_OTHER (LC_SYMTAB _) => true | _ => false end) (commands header) with
  | Some lc => match body lc with LC_OTHER (LC_SYMTAB st) => Some st | _ => None end
  | None => None
  end.

Definition find_segment (name : string) (header : mach_header_64) : option segment_command_64 :=
  match List.find (fun lc => match body lc with LC_SEGMENT_64 seg => String.eqb (segname seg) name | _ => false end) (commands header) with
  | Some lc => match body lc with LC_SEGMENT_64 seg => Some seg | _ => None end
  | None => None
  end.

Definition page : Z := if sysconf_page <=? 0 then 4096 else sysconf_page.

Definition do_protect (c : Z * Z * Z) (t : tramp) : bool * tramp := (mprotect_ok (protects t) c, add_protect c t).

(** [true] is 0, [false] is -1. *)
Definition make_text_writable (header : mach_header_64) (slide : Z) (t : tramp) : bool * tramp :=
  match find_segment "__TEXT" header with
  | None => (false, t)
  | Some seg =>
      let base := u64 (vmaddr seg + slide) .& Z.lnot (page - 1) in
      let fin := u64 (u64 (vmaddr seg + slide + vmsize seg) + page - 1) .& Z.lnot (page - 1) in
      let t := set_text base (u64 (fin - base)) t in
      let '(ok, t) := do_protect (base, u64 (fin - base), PROT_READ .| PROT_WRITE .| PROT_EXEC) t in
      if negb ok then (false, t) else (negb (island_pool t =? 0), t)
  end.

Definition restore_text_protection (t : tramp) : tramp :=
  if nz (text_patch_base t) && nz (text_patch_size t)
  then snd (do_protect (text_patch_base t, text_patch_size t, PROT_READ .| PROT_EXEC) t) else t.

Definition matches_prefix (name : cstr) (prefixes : list cstr) : bool := existsb (fun p => starts_with p name) prefixes.

Definition find_override (name : cstr) (overrides : list (cstr * Z)) : Z :=
  match List.find (fun o => streq name (fst o)) overrides with Some o => snd o | None => 0 end.

(** Unlike the resolver's, this one gives up when the name has no [y]. *)
Definition try_mangling_variants (dls : cstr -> Z) (buf_ok : bool) (name : cstr) : Z :=
  let y_pos := char_positions "y" 16 0 name in
  match y_pos with
  | [] => 0
  | _ => if negb buf_ok then 0
         else let a := first_variant dls y_pos "m" name in
              if nz a then a else first_variant dls (char_positions "m" 16 0 name) "y" name
  end.

(** The native function of a name; the second component: found by another
    spelling. *)
Definition native_symbol (lks : Resolve.lk_state L) (lib : Z) (name : cstr) : Z * bool :=
  let lookup := strip_underscore name in
  let a := Resolve.lk_dlsym L lks lib lookup in
  if (a =? 0) && starts_with (str "_ZN") lookup then
    let a := try_mangling_variants (Resolve.lk_dlsym L lks lib) (Resolve.lk_malloc L lks (Z.of_nat (length lookup) + 1)) lookup in
    (a, nz a)
  else (a, false).

(** [patched], [mangling_fixed] and [trapped] *)
Record counts := mk_counts { patched : Z; mangling_fixed : Z; trapped : Z }.

(** A symbol of a section, external unless [locals] too. *)
Definition wanted (locals : bool) (strsize : Z) (nl : nlist_64) : bool :=
  (n_type nl .& N_TYPE =? N_SECT) && (locals || nz (n_type nl .& N_EXT)) && negb (nz (n_type nl .& N_STAB)) && negb (strsize <=? n_strx nl).

Definition in_text (a : Z) (t : tramp) : bool := (text_patch_base t <=? a) && (a <? u64 (text_patch_base t + text_patch_size t)).

Definition name_at (m : bytemem) (strtab strsize : Z) (nl : nlist_64) : cstr := sym_name m strtab strsize nl.

(** The loop body of [trampoline_patch_lib] for the function at [func_addr]
    whose name is at [name_addr]; [lib] is 0 in stub mode. *)
Definition patch_function (lks : Resolve.lk_state L) (stub_mode : bool) (lib : Z) (overrides : list (cstr * Z)) (name : cstr)
    (name_addr func_addr : Z) (c : counts) (t : tramp) : counts * tramp :=
  let target := find_override name overrides in
  let '(target, t) := if (target =? 0) && stub_mode then get_stub_island t else (target, t) in
  let '(target, fixed) := if (target =? 0) && nz lib then native_symbol lks lib name else (target, false) in
  let c := if fixed then mk_counts (patched c) (mangling_fixed c + 1) (trapped c) else c in
  if (target =? 0) && negb stub_mode then
    let '(island, t) := make_abort_island name_addr t in
    if nz island then
      let '(ok, t) := write_trampoline func_addr island t in
      (if ok then mk_counts (patched c) (mangling_fixed c) (trapped c + 1) else c, t)
    else (c, t)
  else if target =? 0 then (c, t)
  else
    let '(ok, t) := write_trampoline func_addr target t in
    (if ok then mk_counts (patched c + 1) (mangling_fixed c) (trapped c) else c, t).

Section symbols.
Context (lks : Resolve.lk_state L) (slide nlist_arr strtab strsize : Z).

Definition patch_symbol (stub_mode : bool) (lib : Z) (prefixes : list cstr) (overrides : list (cstr * Z)) (ct : counts * tramp) (i : Z)
    : counts * tramp :=
  let '(c, t) := ct in
  let nl := nlist_at (t_mem t) nlist_arr i in
  if negb (wanted false strsize nl) then (c, t)
  else
    let name := name_at (t_mem t) strtab strsize nl in
    if negb (matches_prefix name prefixes) then (c, t)
    else
      let func_addr := u64 (n_value nl + slide) in
      if negb (in_text func_addr t) then (c, t)
      else patch_function lks stub_mode lib overrides name (strtab + n_strx nl) func_addr c t.

Definition override_symbol (lib : Z) (locals : bool) (ct : Z * tramp) (i : Z) : Z * tramp :=
  let '(n, t) := ct in
  let nl := nlist_at (t_mem t) nlist_arr i in
  if negb (wanted locals strsize nl) then (n, t)
  else
    let func_addr := u64 (n_value nl + slide) in
    if negb (in_text func_addr t) then (n, t)
    else
      let target := Resolve.lk_dlsym L lks lib (strip_underscore (name_at (t_mem t) strtab strsize nl)) in
      if target =? 0 then (n, t)
      else let '(ok, t) := write_trampoline func_addr target t in (if ok then n + 1 else n, t).
End symbols.

(** The number of functions patched, or -1, and the linker afterwards. *)
Definition trampoline_patch_lib (header : mach_header_64) (slide : Z) (lib_path : cstr) (prefixes : list cstr) (overrides : list (cstr * Z))
    (lks : Resolve.lk_state L) (t : tramp) : Z * Resolve.lk_state L * tramp :=
  match find_symtab header with
  | None => (-1, lks, t)
  | Some st =>
      let stub_mode := streq lib_path (str "STUB") in
      let '(native_lib, lks) := if stub_mode then (0, lks) else Resolve.lk_dlopen L lib_path lks in
      if negb stub_mode && (native_lib =? 0) then (-1, lks, t)
      else
        let nlist_arr := fileoff_to_mem header slide (symoff st) in
        let strtab := fileoff_to_mem header slide (stroff st) in
        if (nlist_arr =? 0) || (strtab =? 0) then (-1, lks, t)
        else match make_text_writable header slide t with
             | (false, t) => (-1, lks, t)
             | (true, t) =>
                 let '(c, t) := fold_left (patch_symbol lks slide nlist_arr strtab (strsize st) stub_mode native_lib prefixes overrides)
                                  (seqZ 0 (nsyms st)) (mk_counts 0 0 0, t) in
                 (patched c, lks, restore_text_protection t)
             end
  end.

Definition trampoline_patch_overrides (header : mach_header_64) (slide override_handle : Z) (match_local : bool) (lks : Resolve.lk_state L) (t : tramp)
    : Z * tramp :=
  match find_symtab header with
  | None => (-1, t)
  | Some st =>
      let nlist_arr := fileoff_to_mem header slide (symoff st) in
      let strtab := fileoff_to_mem header slide (stroff st) in
      if (nlist_arr =? 0) || (strtab =? 0) then (-1, t)
      else match make_text_writable header slide t with
           | (false, t) => (-1, t)
           | (true, t) =>
               let '(n, t) := fold_left (override_symbol lks slide nlist_arr strtab (strsize st) override_handle match_local)
                                (seqZ 0 (nsyms st)) (0, t) in
               (n, restore_text_protection t)
           end
  end.

(** The older interface; [getenv] of the new name, then of the old one. *)
Definition getenv_compat (getenv : cstr -> option cstr) (name legacy_name : string) : option cstr :=
  match getenv (str name) with Some v => Some v | None => getenv (str legacy_name) end.

Definition trampoline_patch (getenv : cstr -> option cstr) (header : mach_header_64) (slide : Z) (lks : Resolve.lk_state L) (t : tramp)
    : Z * Resolve.lk_state L * tramp :=
  let lib_path := default (str "libSDL2-2.0.so.0") (getenv_compat getenv "MACHGATE_TRAMPOLINE_LIB" "MACHISMO_TRAMPOLINE_LIB") in
  let prefix := default (str "_SDL_") (getenv_compat getenv "MACHGATE_TRAMPOLINE_PREFIX" "MACHISMO_TRAMPOLINE_PREFIX") in
  trampoline_patch_lib header slide lib_path [prefix] [] lks t.

(** ** Stale data *)

(** The page of __DATA a symbol starts on, and whether it is of the library. *)
Definition data_symbol (m : bytemem) (slide nlist_arr strtab strsize data_base data_end : Z) (prefixes : list cstr) (i : Z) : option (Z * bool) :=
  let nl := nlist_at m nlist_arr i in
  if negb (wanted true strsize nl) then None
  else
    let a := u64 (n_value nl + slide) in
    if (a <? data_base) || (data_end <=? a) then None
    else Some ((a - data_base) / page, matches_prefix (name_at m strtab strsize nl) prefixes).

Definition has_symbol (library : bool) (l : list (Z * bool)) (i : Z) : bool :=
  existsb (fun s => (fst s =? i) && Bool.eqb (snd s) library) l.

(** The pages from [i] on; [num_guarded_pages] is the length of the table. *)
Fixpoint guard_pages (syms : list (Z * bool)) (data_base : Z) (n : nat) (i : Z) (t : tramp) : tramp :=
  match n with
  | O => t
  | S n =>
      if negb (has_symbol true syms i) then guard_pages syms data_base n (i + 1) t
      else if has_symbol false syms i then guard_pages syms data_base n (i + 1) t
      else if (MAX_GUARDED_PAGES <=? length (guarded_pages t))%nat then t
      else
        let page_addr := data_base + i * page in
        let '(ok, t) := do_protect (page_addr, page, 0) t in
        guard_pages syms data_base n (i + 1) (if ok then add_guarded (page_addr, page) t else t)
  end.

(** [mh] is the address of the image; the handler is installed once. *)
Definition trampoline_install_signal_diagnostics (mh slide : Z) (t : tramp) : tramp :=
  mk_t (t_mem t) (island_pool t) (island_pool_size t) (island_pool_used t) (stub_island_addr t) (abort_caller_addr t)
    (text_patch_base t) (text_patch_size t) (protects t) (guarded_pages t) (Some (mh, slide)).

Definition trampoline_guard_stale_data (mh : Z) (header : mach_header_64) (slide : Z) (prefixes : list cstr) (t : tramp) : tramp :=
  match find_segment "__DATA" header with
  | None => t
  | Some seg =>
      let data_base := u64 (vmaddr seg + slide) in
      let data_end := u64 (data_base + vmsize seg) in
      if data_base =? 0 then t
      else
        let num_pages := u64 (data_end - data_base + page - 1) / page in
        if num_pages =? 0 then t
        else if negb (calloc_ok num_pages) then t
        else match find_symtab header with
        | None => t
        | Some st =>
            let nlist_arr := fileoff_to_mem header slide (symoff st) in
            let strtab := fileoff_to_mem header slide (stroff st) in
            if (nlist_arr =? 0) || (strtab =? 0) then t
            else
              let syms := omap (data_symbol (t_mem t) slide nlist_arr strtab (strsize st) data_base data_end prefixes) (seqZ 0 (nsyms st)) in
              if negb (existsb snd syms) then t
              else
                let t' := guard_pages syms data_base (Z.to_nat num_pages) 0 t in
                if (length (guarded_pages t) <? length (guarded_pages t'))%nat
                then trampoline_install_signal_diagnostics mh slide t' else t'
        end
  end.
End patch.
End Trampoline.

(** * Trampolines: where a patched function leads *)

Import Thunks Trampoline.

(** ** Running an island *)

(** Everything but the program counter and the registers [rs]. *)
Record same_but (rs : list Z) (st st' : cpu) : Prop := {
  sb_mem : cpu_mem st' = cpu_mem st; sb_sp : cpu_sp st' = cpu_sp st; sb_nzcv : cpu_nzcv st' = cpu_nzcv st; sb_v : cpu_v st' = cpu_v st;
  sb_x : forall r, ~ In r rs -> cpu_x st' r = cpu_x st r;
}.

Lemma same_but_trans rs1 rs2 rs s1 s2 s3 :
  same_but rs1 s1 s2 -> same_but rs2 s2 s3 -> incl rs1 rs -> incl rs2 rs -> same_but rs s1 s3.
Proof.
  intros [A1 A2 A3 A4 A5] [B1 B2 B3 B4 B5] H1 H2. constructor; try congruence. intros r Hr. rewrite B5, A5; auto.
Qed.

Lemma same_but_pc s1 s2 a : same_but [] s1 s2 -> same_but [] s1 (set_pc s2 a).
Proof. intros []. by constructor. Qed.

Definition island_words : list Z := [TRAMPOLINE_LDR_X16; TRAMPOLINE_BR_X16].

(** [ldr x16, #8; br x16] *)
Lemma island_jumps m a target st :
  thunk_at m a island_words target -> 0 <= a -> a + 16 < 2 ^ 64 -> cpu_mem st = m -> cpu_pc st = a ->
  exists st', reaches (fetch m) st st' /\ cpu_pc st' = target /\ cpu_x st' 16 = target /\ same_but [16] st st'.
Proof.
  intros [[H1 [H2 _]] Hl] Ha Hb Hm Hpc. change (4 * Z.of_nat (length island_words)) with 8 in Hl.
  set (s1 := exec (LDRlit 16 2) st).
  assert (E1 : cpu_pc s1 = a + 4) by (unfold s1; rewrite exec_pc, Hpc by done; apply u64_small; lia).
  assert (X1 : cpu_x s1 16 = target).
  { unfold s1. destruct (ldrlit_effect st 16 2 target ltac:(done)) as (_&_&E&_); [by rewrite Hm, Hpc, u64_small by lia|]. rewrite E. apply upd_eq. }
  exists (exec (BR 16) s1). split; [|split; [|split]].
  - etrans; [eapply reaches_step; [rewrite Hpc; exact H1|reflexivity]|]. eapply reaches_step; [fold s1; rewrite E1; exact H2|reflexivity].
  - cbn [exec cpu_pc set_pc]. by rewrite rx_ne.
  - exact X1.
  - constructor; try done. intros r Hr. cbn [exec cpu_x set_pc]. unfold s1.
    destruct (ldrlit_effect st 16 2 _ ltac:(done) eq_refl) as (_&_&E&_). rewrite E. apply upd_ne. intros ->. apply Hr. by left.
Qed.

(** [mov w0, #0; ret] *)
Lemma stub_returns m a st :
  words_at (fetch m) a stub_words -> 0 <= a -> a + 16 < 2 ^ 64 -> cpu_mem st = m -> cpu_pc st = a ->
  exists st', reaches (fetch m) st st' /\ cpu_pc st' = cpu_x st 30 /\ cpu_x st' 0 = 0 /\ same_but [0] st st'.
Proof.
  intros (H1&H2&_) Ha Hb Hm Hpc. set (s1 := exec (MOVZ 0 0 0) st).
  assert (E1 : cpu_pc s1 = a + 4) by (unfold s1; rewrite exec_pc, Hpc by done; apply u64_small; lia).
  assert (X : cpu_x s1 = upd (cpu_x st) 0 0) by done.
  exists (exec (RET 30) s1). split; [|split; [|split]].
  - etrans; [eapply reaches_step; [rewrite Hpc; exact H1|reflexivity]|]. eapply reaches_step; [fold s1; rewrite E1; exact H2|reflexivity].
  - cbn [exec cpu_pc set_pc]. rewrite rx_ne, X by done. by apply upd_ne.
  - cbn [exec cpu_x set_pc]. rewrite X. apply upd_eq.
  - constructor; try done. intros r Hr. cbn [exec cpu_x set_pc]. rewrite X. apply upd_ne. intros ->. apply Hr. by left.
Qed.

(** A branch word leads from [src] to [dst]. *)
Lemma branch_word_enc src dst w :
  branch_word src dst = Some w -> 0 <= src < 2 ^ 62 -> 0 <= dst < 2 ^ 62 ->
  w = enc_b (ptrdiff32 dst src) /\ b_reach (ptrdiff32 dst src) /\ (dst - src) mod 4 = 0.
Proof.
  intros H Hs Hd. unfold branch_word in H. rewrite i64_small in H by lia. unfold nz in H. rewrite land3_mod4 in H.
  destruct (Z.ltb_spec (dst - src) (-128 * 1024 * 1024)), (Z.leb_spec (128 * 1024 * 1024) (dst - src)), (Z.eqb_spec ((dst - src) mod 4) 0);
    cbn in H; try discriminate H. injection H as <-. unfold ptrdiff32.
  pose proof (Z.div_mod (dst - src) 4 ltac:(lia)). split; [|split; [unfold b_reach; lia|done]].
  unfold enc_b. rewrite Z.shiftr_div_pow2 by lia. change (2 ^ 2) with 4. f_equal. set (z := (dst - src) / 4).
  change 0x03FFFFFF with (Z.ones 26). rewrite !Z.land_ones by lia. unfold u32.
  rewrite (Z.mod_small (z mod 2 ^ 26)) by (pose proof (Z.mod_pos_bound z (2 ^ 26) ltac:(lia)); lia).
  change (2 ^ 32) with (2 ^ 26 * 2 ^ 6). rewrite Z.rem_mul_r by lia. by rewrite Z.mul_comm, Z.mod_add, Zmod_mod by lia.
Qed.

Lemma branch_runs m src dst w st :
  branch_word src dst = Some w -> load 4 src m = w -> 0 <= src < 2 ^ 62 -> 0 <= dst < 2 ^ 62 -> cpu_pc st = src ->
  reaches (fetch m) st (set_pc st dst).
Proof.
  intros Hb Hl Hs Hd Hpc. destruct (branch_word_enc src dst w Hb Hs Hd) as (E&Hr&Hal).
  eapply (enc_b_arrives _ _ src); [|done|exact Hr|done|lia]. unfold fetch. by rewrite Hl, E.
Qed.

Lemma branch_word_range src dst w : branch_word src dst = Some w -> is_word w.
Proof.
  unfold branch_word. destruct (_ || _); [done|]. intros [= <-]. set (z := _ .& _). assert (Hz : 0 <= z < 2 ^ 26).
  { unfold z. change 0x03FFFFFF with (Z.ones 26). rewrite Z.land_ones by lia. apply Z.mod_pos_bound. lia. }
  unfold u32. rewrite Z.mod_small by lia. apply lor_range; lia.
Qed.

(** ** The pool *)

Definition no_where (x : Z) : Prop := False.
Definition word_of (f x : Z) : Prop := f <= x < f + 4.

Definition in_pool (t : tramp) (a n : Z) : Prop := island_pool t <= a /\ a + n <= island_pool t + island_pool_used t.

(** What a later state keeps of an earlier one: code below the fill mark, and
    all memory outside the pool and outside [W]. *)
Record extends (W : Z -> Prop) (k : Z) (t t' : tramp) : Prop := {
  ex_pool : island_pool t' = island_pool t /\ island_pool_size t' = island_pool_size t;
  ex_text : text_patch_base t' = text_patch_base t /\ text_patch_size t' = text_patch_size t;
  ex_used : island_pool_used t <= island_pool_used t' <= island_pool_used t + k;
  ex_mem : forall x, ~ island_pool t + island_pool_used t <= x < island_pool t + island_pool_size t -> ~ W x -> t_mem t' x = t_mem t x;
  ex_stub : stub_island_addr t <> 0 -> stub_island_addr t' = stub_island_addr t;
  ex_abort : abort_caller_addr t <> 0 -> abort_caller_addr t' = abort_caller_addr t;
}.

Lemma extends_refl W t : extends W 0 t t.
Proof. constructor; try done. lia. Qed.

Lemma extends_weaken (W W' : Z -> Prop) k k' t t' : extends W k t t' -> (forall x, W x -> W' x) -> k <= k' -> extends W' k' t t'.
Proof. intros [A1 A2 A3 A4 A5 A6] HW Hk. constructor; try done; [lia|]. intros x H1 H2. apply A4; auto. Qed.

Lemma extends_trans W k1 k2 t1 t2 t3 : extends W k1 t1 t2 -> extends W k2 t2 t3 -> extends W (k1 + k2) t1 t3.
Proof.
  intros [[A1 A1'] [A2 A2'] A3 A4 A5 A6] [[B1 B1'] [B2 B2'] B3 B4 B5 B6]. constructor.
  - split; congruence.
  - split; congruence.
  - lia.
  - intros x Hx HW. rewrite B4, A4; [done|done|done|rewrite A1, A1'; lia|done].
  - intros Hn. pose proof (A5 Hn) as E. rewrite B5; congruence.
  - intros Hn. pose proof (A6 Hn) as E. rewrite B6; congruence.
Qed.

Section lib.
Context (abort_fn : Z) (Habort : 0 <= abort_fn < 2 ^ 64).

Definition stub_ok (t : tramp) : Prop :=
  stub_island_addr t <> 0 -> in_pool t (stub_island_addr t) 16 /\ words_at (fetch (t_mem t)) (stub_island_addr t) stub_words.
Definition abort_ok (t : tramp) : Prop :=
  abort_caller_addr t <> 0 -> in_pool t (abort_caller_addr t) 16 /\ abort_caller_addr t mod 4 = 0 /\
    thunk_at (t_mem t) (abort_caller_addr t) island_words abort_fn.

(** A pool in use, of at most the reach of a branch. *)
Record ready (t : tramp) : Prop := {
  rd_pool : 0 < island_pool t /\ island_pool t mod 4 = 0 /\ island_pool t + island_pool_size t < 2 ^ 61 /\ island_pool_size t <= 2 ^ 27;
  rd_used : 0 <= island_pool_used t <= island_pool_size t /\ island_pool_used t mod 4 = 0;
  rd_stub : stub_ok t;
  rd_abort : abort_ok t;
}.

(** Code below the fill mark stays. *)
Lemma extends_below W k t t' a n :
  extends W k t t' -> (forall x, W x -> ~ island_pool t <= x < island_pool t + island_pool_size t) -> island_pool_used t <= island_pool_size t ->
  in_pool t a n -> in_pool t' a n /\ forall x, a <= x < a + n -> t_mem t' x = t_mem t x.
Proof.
  intros [[A1 A1'] _ A3 A4 _ _] HW Hu [H1 H2]. split; [unfold in_pool; lia|]. intros x Hx. apply A4; [lia|]. intros H. specialize (HW x H). lia.
Qed.

Lemma thunk_at_below W k t t' a target :
  extends W k t t' -> (forall x, W x -> ~ island_pool t <= x < island_pool t + island_pool_size t) -> island_pool_used t <= island_pool_size t ->
  in_pool t a 16 -> thunk_at (t_mem t) a island_words target -> thunk_at (t_mem t') a island_words target.
Proof.
  intros He HW Hu Hin [H1 H2]. destruct (extends_below W k t t' a 16 He HW Hu Hin) as [_ Hm]. split.
  - eapply thunk_words_ext; [|exact H1]. intros x Hx. apply Hm. cbn [length island_words] in Hx. lia.
  - rewrite <- H2. apply load_ext. intros x Hx. apply Hm. cbn [length island_words] in Hx. lia.
Qed.

(** Readiness after a change that leaves the shared islands alone. *)
Lemma ready_extends W k t t' :
  ready t -> extends W k t t' -> (forall x, W x -> ~ island_pool t <= x < island_pool t + island_pool_size t) ->
  island_pool_used t' <= island_pool_size t -> island_pool_used t' mod 4 = 0 ->
  (stub_island_addr t' = stub_island_addr t \/ stub_ok t') -> (abort_caller_addr t' = abort_caller_addr t \/ abort_ok t') -> ready t'.
Proof.
  intros [R1 R2 R3 R4] He HW Hu Hm Hs Ha. pose proof He as [[A1 A1'] _ A3 _ _ _]. constructor.
  - by rewrite A1, A1'.
  - rewrite A1'. lia.
  - destruct Hs as [E|Hs]; [|exact Hs]. intros Hn. rewrite E in *. destruct (R3 Hn) as [Hi Hw].
    destruct (extends_below W k t t' _ 16 He HW ltac:(lia) Hi) as [Hi' Hx]. split; [done|].
    eapply thunk_words_ext; [|exact Hw]. intros x Hr. apply Hx. cbn [length stub_words] in Hr. lia.
  - destruct Ha as [E|Ha]; [|exact Ha]. intros Hn. rewrite E in *. destruct (R4 Hn) as (Hi&Hal&Hw).
    destruct (extends_below W k t t' _ 16 He HW ltac:(lia) Hi) as [Hi' Hx]. split; [done|]. split; [done|].
    eapply thunk_at_below; [exact He|exact HW|lia|exact Hi|exact Hw].
Qed.

Lemma pool_not_full t : ready t -> island_pool_used t + 16 <= island_pool_size t -> pool_full t = false.
Proof.
  intros [(H1&H2&H3&H3') H4 _ _] Hr. unfold pool_full, ISLAND_SIZE. rewrite u64_small by lia.
  destruct (Z.eqb_spec (island_pool t) 0), (Z.ltb_spec (island_pool_size t) (island_pool_used t + 16)); try lia.
Qed.

Lemma mod4_add16 a : a mod 4 = 0 -> (a + 16) mod 4 = 0.
Proof. intros H. change 16 with (4 * 4). by rewrite Z.mod_add. Qed.

Lemma island_words_ok : Forall is_word island_words.
Proof. apply (bool_decide_unpack _). by vm_compute. Qed.

(** Appending [n] bytes of code that is written at the fill mark. *)
Lemma write_code_extends (m : bytemem) n t :
  ready t -> 0 <= n -> island_pool_used t + n <= island_pool_size t ->
  (forall x, ~ island_pool t + island_pool_used t <= x < island_pool t + island_pool_size t -> m x = t_mem t x) ->
  extends no_where n t (set_pool_used m (island_pool_used t + n) t).
Proof. intros Hr Hn Hf Hm. constructor; try done; [cbn; lia|]. intros x Hx _. by apply Hm. Qed.

Lemma alloc_island_ok t target :
  ready t -> island_pool_used t + 16 <= island_pool_size t -> 0 <= target < 2 ^ 64 ->
  let a := island_pool t + island_pool_used t in
  exists t', alloc_island target t = (a, t') /\ ready t' /\ extends no_where 16 t t' /\ in_pool t' a 16 /\
    thunk_at (t_mem t') a island_words target /\ stub_island_addr t' = stub_island_addr t /\ abort_caller_addr t' = abort_caller_addr t.
Proof.
  intros Hr Hf Ht a. unfold alloc_island. rewrite pool_not_full by done. fold a. eexists. split; [reflexivity|].
  assert (He : extends no_where 16 t (set_pool_used (write_island a target (t_mem t)) (island_pool_used t + ISLAND_SIZE) t)).
  { apply (write_code_extends _ 16); [done|lia|lia|]. intros x Hx. unfold write_island, write_thunk. rewrite store_out, write_code_out; [done| |]; cbn [length] in *; lia. }
  pose proof (rd_used _ Hr) as [Hu _]. split; [|split; [exact He|]].
  - eapply ready_extends; [done|exact He|done|cbn; unfold ISLAND_SIZE; lia|cbn; apply mod4_add16, Hr|by left|by left].
  - split; [unfold in_pool; cbn; unfold ISLAND_SIZE; lia|]. split; [|done]. cbn [t_mem set_pool_used].
    apply write_thunk_at; [apply island_words_ok|done].
Qed.

Lemma get_stub_island_ok t :
  ready t -> island_pool_used t + 16 <= island_pool_size t ->
  exists t', get_stub_island t = (stub_island_addr t', t') /\ ready t' /\ extends no_where 16 t t' /\ stub_island_addr t' <> 0.
Proof.
  intros Hr Hf. unfold get_stub_island. destruct (nz (stub_island_addr t)) eqn:En.
  { exists t. split; [done|]. split; [done|]. split; [eapply extends_weaken; [apply extends_refl|done|lia]|]. unfold nz in En. by destruct (Z.eqb_spec (stub_island_addr t) 0). }
  assert (E0 : stub_island_addr t = 0) by (unfold nz in En; by destruct (Z.eqb_spec (stub_island_addr t) 0)).
  rewrite pool_not_full by done. set (a := island_pool t + island_pool_used t).
  set (t' := set_stub a _). exists t'. split; [done|].
  assert (He : extends no_where 16 t t').
  { constructor; try done; [cbn; unfold ISLAND_SIZE; lia|]. intros x Hx _. apply write_code_out. cbn [length stub_words]. lia. }
  pose proof (rd_pool _ Hr) as (Hp&_). pose proof (rd_used _ Hr) as (Hu&_). split; [|split; [done|cbn; lia]].
  eapply ready_extends; [done|exact He|done|cbn; unfold ISLAND_SIZE; lia|cbn; apply mod4_add16, Hr| |by left].
  right. intros _. split; [unfold in_pool; cbn; unfold ISLAND_SIZE; lia|]. apply write_code_words. apply (bool_decide_unpack _). by vm_compute.
Qed.

Lemma get_abort_caller_ok t :
  ready t -> island_pool_used t + 16 <= island_pool_size t ->
  exists t', get_abort_caller abort_fn t = (abort_caller_addr t', t') /\ ready t' /\ extends no_where 16 t t' /\ abort_caller_addr t' <> 0.
Proof.
  intros Hr Hf. unfold get_abort_caller. destruct (nz (abort_caller_addr t)) eqn:En.
  { exists t. split; [done|]. split; [done|]. split; [eapply extends_weaken; [apply extends_refl|done|lia]|]. unfold nz in En. by destruct (Z.eqb_spec (abort_caller_addr t) 0). }
  assert (E0 : abort_caller_addr t = 0) by (unfold nz in En; by destruct (Z.eqb_spec (abort_caller_addr t) 0)).
  destruct (alloc_island_ok t abort_fn Hr Hf Habort) as (t1&E&Hr1&He&Hin&Hw&S1&S2). rewrite E.
  pose proof (rd_pool _ Hr) as (Hp&Hal&_). pose proof (rd_used _ Hr) as (Hu&Hum). set (a := island_pool t + island_pool_used t) in *.
  destruct (Z.eqb_spec a 0); [lia|]. set (t' := set_abort_caller a t1). exists t'. split; [done|].
  assert (He' : extends no_where 16 t t') by (destruct He; constructor; try done; by intros ?).
  split; [|split; [done|cbn; lia]].
  eapply (ready_extends no_where 0 t1); [done| |done|cbn; apply Hr1|cbn; apply Hr1|by left|].
  - constructor; try done; [cbn; lia|]. intros Hn. by rewrite S2, E0 in Hn.
  - right. intros _. split; [exact Hin|]. split; [|exact Hw]. cbn. unfold a. rewrite Z.add_mod, Hal, Hum by lia. done.
Qed.

(** Two places of the pool reach each other. *)
Lemma branch_in_pool src dst :
  0 <= src < 2 ^ 62 -> 0 <= dst < 2 ^ 62 -> src mod 4 = 0 -> dst mod 4 = 0 -> - 2 ^ 27 <= dst - src < 2 ^ 27 ->
  exists b, branch_word src dst = Some b.
Proof.
  intros Hs Hd As Ad Hr. unfold branch_word. rewrite i64_small by lia. unfold nz. rewrite land3_mod4, Zminus_mod, As, Ad.
  destruct (Z.ltb_spec (dst - src) (-128 * 1024 * 1024)), (Z.leb_spec (128 * 1024 * 1024) (dst - src)); try lia. by eexists.
Qed.

(** An island that aborts with the name at [n]. *)
Definition abort_island_at (t : tramp) (a n : Z) : Prop :=
  in_pool t a 16 /\ abort_caller_addr t <> 0 /\ load 8 (a + 8) (t_mem t) = n /\
  exists b, branch_word (a + 4) (abort_caller_addr t) = Some b /\ words_at (fetch (t_mem t)) a [0x58000040; b].

Lemma make_abort_island_ok t n :
  ready t -> island_pool_used t + 32 <= island_pool_size t -> 0 <= n < 2 ^ 64 ->
  exists a t', make_abort_island abort_fn n t = (a, t') /\ a <> 0 /\ 0 <= a < 2 ^ 61 /\ ready t' /\ extends no_where 32 t t' /\ abort_island_at t' a n.
Proof.
  intros Hr Hf Hn. unfold make_abort_island. destruct (get_abort_caller_ok t Hr ltac:(lia)) as (t1&E&Hr1&He1&Hc). rewrite E.
  pose proof (ex_used _ _ _ _ He1) as Hu1. pose proof (ex_pool _ _ _ _ He1) as [P1 P2].
  destruct (Z.eqb_spec (abort_caller_addr t1) 0); [done|]. rewrite pool_not_full by (done || lia).
  pose proof (rd_pool _ Hr1) as (Q1&Q2&Q3&Q4). pose proof (rd_used _ Hr1) as (U1&U2). destruct (rd_abort _ Hr1 Hc) as ([I1 I2]&Hal&_).
  set (a := island_pool t1 + island_pool_used t1). assert (Ha4 : a mod 4 = 0) by (unfold a; rewrite Z.add_mod, Q2, U2 by lia; done).
  destruct (branch_in_pool (a + 4) (abort_caller_addr t1)) as [b Hb]; try lia.
  { change (a + 4) with (a + 1 * 4). by rewrite Z.mod_add. }
  rewrite Hb. set (m := store 8 (a + 8) n _). set (t' := set_pool_used m _ t1). exists a, t'.
  assert (Hm : forall x, ~ a <= x < a + 16 -> m x = t_mem t1 x) by (intros x Hx; unfold m; rewrite !store_out by lia; done).
  assert (He : extends no_where 16 t1 t') by (apply (write_code_extends m 16); [done|lia|lia|]; intros x Hx; apply Hm; lia).
  split; [done|]. split; [lia|]. split; [lia|]. split; [|split].
  - eapply (ready_extends _ _ t1); [done|exact He|done|cbn; unfold ISLAND_SIZE; lia|cbn; by apply mod4_add16|by left|by left].
  - by apply (extends_trans _ 16 16 _ t1).
  - split; [unfold in_pool; cbn; unfold ISLAND_SIZE; lia|]. split; [done|]. split.
    + cbn [t_mem t' set_pool_used]. unfold m. rewrite load_store_same by lia. by apply Z.mod_small.
    + exists b. split; [exact Hb|]. cbn [t_mem t' set_pool_used]. unfold m.
      eapply thunk_words_ext; [|apply (write_code_words a [0x58000040; b] (t_mem t1))].
      * intros x Hx. cbn [length] in Hx. rewrite store_out by lia. done.
      * apply List.Forall_cons; [unfold is_word; lia|]. apply List.Forall_cons; [by eapply branch_word_range|apply List.Forall_nil].
Qed.

(** ** Functions *)

(** Where a function may be: outside the pool, within reach of all of it. *)
Record patchable (t : tramp) (f : Z) : Prop := {
  pa_range : 0 <= f < 2 ^ 61 /\ f mod 4 = 0;
  pa_apart : f + 4 <= island_pool t \/ island_pool t + island_pool_size t <= f;
  pa_reach : island_pool t + island_pool_size t - f <= 2 ^ 27 /\ f - island_pool t <= 2 ^ 27;
}.

(** The first instruction of [f] leads to an island for [target]. *)
Definition branches_to (t : tramp) (f target : Z) : Prop :=
  exists a b, in_pool t a 16 /\ branch_word f a = Some b /\ load 4 f (t_mem t) = b /\ thunk_at (t_mem t) a island_words target.

Lemma write_trampoline_ok t f target :
  ready t -> island_pool_used t + 16 <= island_pool_size t -> 0 <= target < 2 ^ 64 -> patchable t f ->
  exists t', write_trampoline f target t = (true, t') /\ ready t' /\ extends (word_of f) 16 t t' /\ branches_to t' f target.
Proof.
  intros Hr Hf Ht [[F1 F2] F3 [F4 F5]]. unfold write_trampoline.
  destruct (alloc_island_ok t target Hr Hf Ht) as (t1&E&Hr1&He1&Hin&Hw&_). rewrite E.
  pose proof (rd_pool _ Hr) as (Q1&Q2&Q3&Q4). pose proof (rd_used _ Hr) as (U1&U2). set (a := island_pool t + island_pool_used t) in *.
  destruct (Z.eqb_spec a 0); [lia|]. assert (Ha4 : a mod 4 = 0) by (unfold a; rewrite Z.add_mod, Q2, U2 by lia; done).
  destruct (branch_in_pool f a) as [b Hb]; try lia. rewrite Hb. set (t' := set_memory _ t1). exists t'. split; [done|].
  assert (He : extends (word_of f) 0 t1 t').
  { constructor; try done; [cbn; lia|]. intros x _ Hx. cbn. apply store_out. unfold word_of in Hx. lia. }
  pose proof (ex_pool _ _ _ _ He1) as [P1 P2].
  assert (HW : forall x, word_of f x -> ~ island_pool t1 <= x < island_pool t1 + island_pool_size t1) by (intros x Hx; unfold word_of in Hx; lia).
  split; [|split].
  - eapply (ready_extends _ _ t1); [done|exact He|done|cbn; apply Hr1|cbn; apply Hr1|by left|by left].
  - change 16 with (16 + 0). eapply extends_trans; [eapply extends_weaken; [exact He1|done|lia]|exact He].
  - exists a, b. split; [exact Hin|]. split; [done|]. split.
    + cbn. rewrite load_store_same by lia. apply Z.mod_small. by eapply branch_word_range.
    + eapply thunk_at_below; [exact He|exact HW|apply Hr1|exact Hin|exact Hw].
Qed.

Inductive destination := Native (target : Z) | StubReturn | Trap (name_addr : Z).

(** The code a call of [f] runs through. *)
Definition leads (t : tramp) (f : Z) (d : destination) : Prop :=
  match d with
  | Native target => branches_to t f target
  | StubReturn => branches_to t f (stub_island_addr t) /\ stub_island_addr t <> 0
  | Trap n => exists a, branches_to t f a /\ abort_island_at t a n
  end.

Lemma branches_to_keep W k t t' f target :
  extends W k t t' -> ready t -> (forall x, W x -> ~ island_pool t <= x < island_pool t + island_pool_size t) ->
  patchable t f -> (forall x, W x -> ~ word_of f x) -> branches_to t f target -> branches_to t' f target.
Proof.
  intros He Hr HW [_ Hap _] Hf (a&b&Hin&Hb&Hl&Hw). pose proof (rd_used _ Hr) as (U1&U2).
  exists a, b. destruct (extends_below _ _ _ _ _ 16 He HW ltac:(lia) Hin) as [Hin' _]. split; [done|]. split; [done|]. split.
  - rewrite <- Hl. apply load_ext. intros x Hx. apply (ex_mem _ _ _ _ He); [lia|]. intros H. apply (Hf x H). unfold word_of. lia.
  - eapply thunk_at_below; [exact He|exact HW|lia|exact Hin|exact Hw].
Qed.

Lemma leads_keep W k t t' f d :
  extends W k t t' -> ready t -> (forall x, W x -> ~ island_pool t <= x < island_pool t + island_pool_size t) ->
  patchable t f -> (forall x, W x -> ~ word_of f x) -> leads t f d -> leads t' f d.
Proof.
  intros He Hr HW Hp Hf. destruct d as [target| |n]; cbn [leads].
  - by eapply branches_to_keep.
  - intros [Hb Hn]. pose proof (ex_stub _ _ _ _ He Hn) as E. rewrite E. split; [by eapply branches_to_keep|done].
  - intros (a&Hb&Hin&Hc&Hl&b&Hbw&Hw). exists a. split; [by eapply branches_to_keep|].
    pose proof (rd_used _ Hr) as (U1&U2). destruct (extends_below _ _ _ _ _ 16 He HW ltac:(lia) Hin) as [Hin' Hx].
    pose proof (ex_abort _ _ _ _ He Hc) as E. split; [done|]. rewrite E. split; [done|]. split.
    + rewrite <- Hl. apply load_ext. intros x Hr'. apply Hx. lia.
    + exists b. split; [done|]. eapply thunk_words_ext; [|exact Hw]. intros x Hr'. apply Hx. cbn [length] in Hr'. lia.
Qed.

(** ** Calls of a patched function *)

(** Registers 16 and, where the guest expects a result, 0 are the only ones
    that differ when the call arrives. *)
Definition lands (d : destination) (st st' : cpu) : Prop :=
  match d with
  | Native target => cpu_pc st' = target /\ same_but [16] st st'
  | StubReturn => cpu_pc st' = cpu_x st 30 /\ cpu_x st' 0 = 0 /\ same_but [0; 16] st st'
  | Trap n => cpu_pc st' = abort_fn /\ cpu_x st' 0 = n /\ same_but [0; 16] st st'
  end.

Lemma branches_to_runs t f target st :
  ready t -> patchable t f -> branches_to t f target -> cpu_mem st = t_mem t -> cpu_pc st = f ->
  exists st', reaches (fetch (t_mem t)) st st' /\ cpu_pc st' = target /\ same_but [16] st st'.
Proof.
  intros Hr [[F1 _] _ _] (a&b&[I1 I2]&Hb&Hl&Hw) Hm Hpc. pose proof (rd_pool _ Hr) as (Q1&_&Q3&_). pose proof (rd_used _ Hr) as (U1&_).
  pose proof (branch_runs (t_mem t) f a b st Hb Hl ltac:(lia) ltac:(lia) Hpc) as R1.
  destruct (island_jumps (t_mem t) a target (set_pc st a) Hw ltac:(lia) ltac:(lia) Hm eq_refl) as (st'&R2&Epc&_&[]).
  exists st'. split; [by etrans|]. split; [done|]. by constructor.
Qed.

Lemma leads_runs t f d st :
  ready t -> patchable t f -> leads t f d -> cpu_mem st = t_mem t -> cpu_pc st = f ->
  exists st', reaches (fetch (t_mem t)) st st' /\ lands d st st'.
Proof.
  intros Hr Hp Hl Hm Hpc. pose proof (rd_pool _ Hr) as (Q1&_&Q3&_). pose proof (rd_used _ Hr) as (U1&_).
  destruct d as [target| |n]; cbn [leads lands] in *.
  - by apply branches_to_runs with f.
  - destruct Hl as [Hb Hn]. destruct (rd_stub _ Hr Hn) as [[I1 I2] Hw].
    destruct (branches_to_runs t f _ st Hr Hp Hb Hm Hpc) as (s1&R1&P1&S1). pose proof S1 as [M1 _ _ _ X1].
    destruct (stub_returns (t_mem t) (stub_island_addr t) s1) as (s2&R2&P2&X2&S2); try done; try lia; [congruence|].
    exists s2. split; [by etrans|]. split; [rewrite P2; apply X1; intros [E|[]]; discriminate E|]. split; [done|].
    eapply same_but_trans; [exact S1|exact S2| |]; intros r [<-|[]]; cbn; tauto.
  - destruct Hl as (a&Hb&[I1 I2]&Hc&Hn&b&Hbw&Hw1&Hw2&_). destruct (rd_abort _ Hr Hc) as ([J1 J2]&_&Hwc).
    destruct (branches_to_runs t f a st Hr Hp Hb Hm Hpc) as (s1&R1&P1&S1). pose proof S1 as [M1 _ _ _ X1].
    set (s2 := exec (LDRlit 0 2) s1).
    destruct (ldrlit_effect s1 0 2 n ltac:(done)) as (M2&SP2&X2&V2); [rewrite P1, M1, Hm, u64_small by lia; exact Hn|]. fold s2 in M2, SP2, X2, V2.
    assert (P2 : cpu_pc s2 = a + 4) by (unfold s2; rewrite exec_pc, P1 by done; apply u64_small; lia).
    assert (R2 : reaches (fetch (t_mem t)) s1 s2) by (eapply reaches_step; [rewrite P1; exact Hw1|reflexivity]).
    assert (S2 : same_but [0] s1 s2).
    { constructor; try done. intros r Hr0. rewrite X2. apply upd_ne. intros ->. apply Hr0. by left. }
    assert (R3 : reaches (fetch (t_mem t)) s2 (set_pc s2 (abort_caller_addr t))).
    { eapply branch_runs; [exact Hbw| |lia|lia|exact P2]. unfold fetch in Hw2. by injection Hw2. }
    destruct (island_jumps (t_mem t) (abort_caller_addr t) abort_fn (set_pc s2 (abort_caller_addr t)) Hwc) as (s3&R4&P3&_&S3); try done; try lia; [cbn; congruence|].
    exists s3. split; [by do 3 (etrans; [eassumption|])|]. split; [done|]. pose proof S3 as [_ _ _ _ X3]. split.
    + rewrite X3 by (intros [E|[]]; discriminate E). cbn [cpu_x set_pc]. rewrite X2. apply upd_eq.
    + assert (S3' : same_but [16] s2 s3) by (destruct S3; by constructor).
      eapply (same_but_trans [0; 16] [16]); [eapply (same_but_trans [16] [0]); [exact S1|exact S2| |]|exact S3'| |]; intros r; cbn; tauto.
Qed.

(** ** The symbols of an image *)

Context (L : Resolve.linker) (lks : Resolve.lk_state L) (slide nlist_arr strtab strsz nsyms : Z).
Context (stub_mode : bool) (lib : Z) (prefixes : list cstr) (overrides : list (cstr * Z)).
Context (Hlib : if stub_mode then lib = 0 else lib <> 0).
Context (Hdls : forall n, 0 <= Resolve.lk_dlsym L lks lib n < 2 ^ 64) (Hov : Forall (fun o => 0 <= snd o < 2 ^ 64) overrides).
Context (Hstr : 0 <= strtab /\ strtab + strsz < 2 ^ 64).

Definition decision (name : cstr) (name_addr : Z) : destination :=
  let o := find_override name overrides in
  if nz o then Native o
  else if stub_mode then StubReturn
  else let a := fst (native_symbol L lks lib name) in if nz a then Native a else Trap name_addr.

Lemma nz_false z : nz z = false -> z = 0.
Proof. unfold nz. by destruct (Z.eqb_spec z 0). Qed.
Lemma nz_nonzero z : nz z = true -> z <> 0.
Proof. unfold nz. by destruct (Z.eqb_spec z 0). Qed.

Lemma find_override_range name : 0 <= find_override name overrides < 2 ^ 64.
Proof.
  unfold find_override. destruct (List.find _ _) as [o|] eqn:E; [|lia]. apply find_some in E as [E _].
  exact (proj1 (Forall_forall _ _) Hov o (proj2 (list_elem_of_In _ _) E)).
Qed.

Lemma native_symbol_range name : 0 <= fst (native_symbol L lks lib name) < 2 ^ 64.
Proof.
  unfold native_symbol. destruct (_ && _); [|apply Hdls]. cbn [fst]. unfold try_mangling_variants, first_variant.
  destruct (char_positions "y" 16 0 _) as [|p l]; [lia|]. destruct (negb _); [lia|].
  destruct (List.find _ _); [destruct (nz _); [apply Hdls|]|]; destruct (List.find _ _); try apply Hdls; try lia; destruct (nz 0); lia.
Qed.

Definition is_trap (d : destination) : bool := match d with Trap _ => true | _ => false end.

Lemma patch_function_leads name name_addr f c t :
  ready t -> island_pool_used t + 48 <= island_pool_size t -> 0 <= name_addr < 2 ^ 64 -> patchable t f ->
  exists c' t', patch_function abort_fn L lks stub_mode lib overrides name name_addr f c t = (c', t') /\
    ready t' /\ extends (word_of f) 48 t t' /\ leads t' f (decision name name_addr) /\
    patched c' = patched c + (if is_trap (decision name name_addr) then 0 else 1).
Proof.
  intros Hr Hf Hn Hp. unfold patch_function, decision. pose proof (find_override_range name) as Ho. set (o := find_override name overrides) in *.
  destruct (nz o) eqn:Eo.
  { assert (Hz : (o =? 0) = false) by (apply nz_nonzero in Eo; by destruct (Z.eqb_spec o 0)). do 4 (rewrite ?Hz; cbn [andb]).
    destruct (write_trampoline_ok t f o Hr ltac:(lia) Ho Hp) as (t'&E&Hr'&He&Hb). rewrite E. eexists _, t'. split; [reflexivity|].
    split; [done|]. split; [eapply extends_weaken; [exact He|done|lia]|]. split; [exact Hb|]. cbn. lia. }
  apply nz_false in Eo. rewrite Eo. cbn [Z.eqb andb]. destruct stub_mode.
  - destruct (get_stub_island_ok t Hr ltac:(lia)) as (t1&E1&Hr1&He1&Hn1). rewrite E1. subst lib. change (nz 0) with false.
    assert (Hz : (stub_island_addr t1 =? 0) = false) by (by destruct (Z.eqb_spec (stub_island_addr t1) 0)). do 3 (rewrite ?Hz; cbn [andb negb]).
    pose proof (ex_pool _ _ _ _ He1) as [P1 P2]. pose proof (ex_used _ _ _ _ He1) as U1. destruct (rd_stub _ Hr1 Hn1) as [[I1 I2] _].
    pose proof (rd_pool _ Hr1) as (Q1&_&Q3&_). pose proof (rd_used _ Hr1) as (Q4&_).
    assert (Hp1 : patchable t1 f) by (destruct Hp as [? Ha Hb]; constructor; rewrite ?P1, ?P2; done).
    destruct (write_trampoline_ok t1 f (stub_island_addr t1) Hr1 ltac:(lia) ltac:(lia) Hp1) as (t'&E&Hr'&He&Hb). rewrite E.
    eexists _, t'. split; [reflexivity|]. split; [done|]. split.
    { eapply extends_weaken; [eapply (extends_trans (word_of f) 16 16); [eapply extends_weaken; [exact He1|intros x []|reflexivity]|exact He]|done|lia]. }
    split; [|cbn; lia]. cbn [leads]. rewrite (ex_stub _ _ _ _ He Hn1). done.
  - cbn [Z.eqb andb]. replace (nz lib) with true by (unfold nz; by destruct (Z.eqb_spec lib 0)).
    pose proof (native_symbol_range name) as Hs. destruct (native_symbol L lks lib name) as [a fixed]. cbn [fst] in *.
    set (c1 := if fixed then _ else c). assert (Ec : patched c1 = patched c) by (unfold c1; by destruct fixed).
    destruct (nz a) eqn:Ea.
    + assert (Hz : (a =? 0) = false) by (apply nz_nonzero in Ea; by destruct (Z.eqb_spec a 0)). do 2 (rewrite ?Hz; cbn [andb]).
      destruct (write_trampoline_ok t f a Hr ltac:(lia) Hs Hp) as (t'&E&Hr'&He&Hb). rewrite E. eexists _, t'. split; [reflexivity|].
      split; [done|]. split; [eapply extends_weaken; [exact He|done|lia]|]. split; [exact Hb|]. cbn. lia.
    + apply nz_false in Ea. rewrite Ea. cbn [Z.eqb andb negb].
      destruct (make_abort_island_ok t name_addr Hr ltac:(lia) Hn) as (isl&t1&E1&Hi0&Hi&Hr1&He1&Hab). rewrite E1.
      replace (nz isl) with true by (unfold nz; by destruct (Z.eqb_spec isl 0)).
      pose proof (ex_pool _ _ _ _ He1) as [P1 P2]. pose proof (ex_used _ _ _ _ He1) as U1.
      assert (Hp1 : patchable t1 f) by (destruct Hp as [? Ha Hb]; constructor; rewrite ?P1, ?P2; done).
      destruct (write_trampoline_ok t1 f isl Hr1 ltac:(lia) ltac:(lia) Hp1) as (t'&E&Hr'&He&Hb). rewrite E.
      eexists _, t'. split; [reflexivity|]. split; [done|]. split.
      { eapply extends_weaken; [eapply (extends_trans (word_of f) 32 16); [eapply extends_weaken; [exact He1|intros x []|reflexivity]|exact He]|done|lia]. }
      split; [|cbn; lia]. cbn [leads]. exists isl. split; [done|]. destruct Hab as (Hin&Hc&Hl&b&Hbw&Hw).
      pose proof (rd_used _ Hr1) as (Q4&_).
      assert (HW : forall x, word_of f x -> ~ island_pool t1 <= x < island_pool t1 + island_pool_size t1)
        by (destruct Hp1 as [_ Hap _]; intros x Hx; unfold word_of in Hx; lia).
      destruct (extends_below _ _ _ _ _ 16 He HW ltac:(lia) Hin) as [Hin' Hx]. split; [done|]. rewrite (ex_abort _ _ _ _ He Hc). split; [done|]. split.
      { rewrite <- Hl. apply load_ext. intros x Hx'. apply Hx. lia. }
      exists b. split; [done|]. eapply thunk_words_ext; [|exact Hw]. intros x Hx'. apply Hx. cbn [length] in Hx'. lia.
Qed.

(** Symbol [i] of the tables in [m]. *)
Definition symbol (m : bytemem) (i : Z) : nlist_64 := nlist_at m nlist_arr i.
Definition name_of (m : bytemem) (i : Z) : cstr := name_at m strtab strsz (symbol m i).
Definition func (m : bytemem) (i : Z) : Z := u64 (n_value (symbol m i) + slide).
Definition dest (m : bytemem) (i : Z) : destination := decision (name_of m i) (strtab + n_strx (symbol m i)).

(** A function that is to be redirected. *)
Definition selected (m : bytemem) (t : tramp) (i : Z) : bool :=
  wanted false strsz (symbol m i) && matches_prefix (name_of m i) prefixes && in_text (func m i) t.

(** The bytes of the symbol table and of the names. *)
Definition tables (x : Z) : Prop := nlist_arr <= x < nlist_arr + 16 * nsyms \/ strtab <= x < strtab + strsz.

(** Every name ends inside the table. *)
Definition names_end (m : bytemem) : Prop :=
  forall i, 0 <= i < nsyms -> wanted false strsz (symbol m i) = true ->
    n_strx (symbol m i) + Z.of_nat (length (name_of m i)) < strsz.

Lemma load_nonneg n a m : 0 <= n -> 0 <= load n a m.
Proof. intros Hn. apply (load_range n a m). lia. Qed.

Section tables.
Context (m m' : bytemem) (Hends : names_end m) (Hsame : forall x, tables x -> m' x = m x) (i : Z) (Hi : 0 <= i < nsyms).

Lemma symbol_same : symbol m' i = symbol m i.
Proof.
  unfold symbol, nlist_at. f_equal; apply load_ext; intros x Hx; apply Hsame; left; lia.
Qed.

Lemma name_same : wanted false strsz (symbol m i) = true -> name_of m' i = name_of m i.
Proof.
  intros Hw. pose proof (Hends i Hi Hw) as He. unfold name_of, name_at, sym_name in *. rewrite symbol_same. apply c_string_ext.
  intros x Hx. apply Hsame. right.
  assert (0 <= n_strx (symbol m i)) by (cbn [symbol nlist_at n_strx]; apply load_nonneg; lia). lia.
Qed.

Lemma selected_same t : selected m' t i = selected m t i.
Proof.
  unfold selected, func. rewrite symbol_same. destruct (wanted false strsz (symbol m i)) eqn:Ew; [|done]. by rewrite name_same.
Qed.
End tables.

Lemma in_text_extends W k t t' a : extends W k t t' -> in_text a t' = in_text a t.
Proof. intros [_ [E1 E2] _ _ _ _]. unfold in_text. by rewrite E1, E2. Qed.

Lemma patch_symbol_eq m t c i :
  names_end m -> (forall x, tables x -> t_mem t x = m x) -> 0 <= i < nsyms ->
  patch_symbol abort_fn L lks slide nlist_arr strtab strsz stub_mode lib prefixes overrides (c, t) i =
  if selected m t i then patch_function abort_fn L lks stub_mode lib overrides (name_of m i) (strtab + n_strx (symbol m i)) (func m i) c t
  else (c, t).
Proof.
  intros He Hs Hi. unfold patch_symbol. fold (symbol (t_mem t) i). fold (name_of (t_mem t) i).
  rewrite <- (selected_same m (t_mem t) He Hs i Hi t). unfold selected, func.
  destruct (wanted false strsz (symbol (t_mem t) i)) eqn:Ew; cbn [negb andb]; [|done].
  destruct (matches_prefix _ _); cbn [negb andb]; [|done]. destruct (in_text _ t); cbn [negb]; [|done].
  rewrite (symbol_same m (t_mem t) Hs i Hi) in *. by rewrite (name_same m (t_mem t) He Hs i Hi Ew).
Qed.

Definition written (m : bytemem) (t : tramp) (l : list Z) (x : Z) : Prop := exists i, In i l /\ selected m t i = true /\ word_of (func m i) x.

(** How many of the symbols are redirected to code that returns. *)
Definition redirections (m : bytemem) (t : tramp) (l : list Z) : Z :=
  Z.of_nat (length (List.filter (fun i => selected m t i && negb (is_trap (dest m i))) l)).

Lemma patch_symbols_lead m t0 (Hends : names_end m) (l : list Z) : forall c t,
  Forall (fun i => 0 <= i < nsyms) l -> ready t -> island_pool_used t + 48 * Z.of_nat (length l) <= island_pool_size t ->
  (forall x, tables x -> t_mem t x = m x) ->
  (forall x, tables x -> ~ island_pool t <= x < island_pool t + island_pool_size t) ->
  (forall a, in_text a t = in_text a t0) ->
  (forall i, In i l -> selected m t0 i = true -> patchable t (func m i) /\ forall x, word_of (func m i) x -> ~ tables x) ->
  let '(c', t') := fold_left (patch_symbol abort_fn L lks slide nlist_arr strtab strsz stub_mode lib prefixes overrides) l (c, t) in
  ready t' /\ extends (written m t0 l) (48 * Z.of_nat (length l)) t t' /\ patched c' = patched c + redirections m t0 l /\
  forall l1 i l2, l = l1 ++ i :: l2 -> selected m t0 i = true ->
    (forall j, In j l2 -> selected m t0 j = true -> func m i + 4 <= func m j \/ func m j + 4 <= func m i) -> leads t' (func m i) (dest m i).
Proof.
  induction l as [|i l IH]; intros c t Hl Hr Hu Hs Hpt Htx Hp; cbn [fold_left].
  - split; [done|]. split; [eapply extends_weaken; [apply extends_refl|done|cbn; lia]|]. split; [unfold redirections; cbn; lia|].
    intros l1 i l2 E. symmetry in E. by apply app_nil in E as [_ E].
  - apply Forall_cons in Hl as [Hi Hl]. rewrite (patch_symbol_eq m) by done.
    assert (Esel : selected m t i = selected m t0 i) by (unfold selected; by rewrite Htx). rewrite Esel.
    cbn [length] in Hu. destruct (selected m t0 i) eqn:Es.
    + destruct (Hp i ltac:(by left) Es) as [Hpi Hti].
      assert (Hna : 0 <= strtab + n_strx (symbol m i) < 2 ^ 64).
      { unfold selected in Es. destruct (wanted false strsz (symbol m i)) eqn:Ew; [|done]. pose proof (Hends i Hi Ew).
        assert (0 <= n_strx (symbol m i)) by (cbn [symbol nlist_at n_strx]; apply load_nonneg; lia). lia. }
      destruct (patch_function_leads (name_of m i) _ (func m i) c t Hr ltac:(lia) Hna Hpi) as (c1&t1&E&Hr1&He1&Hl1&Hc1). rewrite E.
      pose proof (ex_pool _ _ _ _ He1) as [P1 P2]. pose proof (ex_used _ _ _ _ He1) as U1. pose proof (rd_used _ Hr) as (Q4&_).
      specialize (IH c1 t1 Hl Hr1 ltac:(lia)).
      assert (Hpatch : forall f, patchable t f -> patchable t1 f) by (intros f [? Ha Hb]; constructor; rewrite ?P1, ?P2; done).
      destruct (fold_left _ l (c1, t1)) as [c' t']. destruct IH as (Hr'&He'&Hc'&Hlead).
      { intros x Hx. rewrite <- Hs by done. apply (ex_mem _ _ _ _ He1); [specialize (Hpt x Hx); lia|]. intros Hw. by apply (Hti x Hw). }
      { intros x Hx. rewrite P1, P2. by apply Hpt. }
      { intros a. by rewrite (in_text_extends _ _ _ _ a He1). }
      { intros j Hj Hsj. destruct (Hp j ltac:(by right) Hsj). split; [by apply Hpatch|done]. }
      split; [done|]. split; [|split].
      * replace (48 * Z.of_nat (length (i :: l))) with (48 + 48 * Z.of_nat (length l)) by (cbn [length]; lia).
        eapply extends_trans; [eapply extends_weaken; [exact He1| |lia]|eapply extends_weaken; [exact He'| |lia]].
        -- intros x Hx. exists i. split; [by left|done].
        -- intros x (j&Hj&Hsj&Hx). exists j. split; [by right|done].
      * rewrite Hc', Hc1. unfold redirections. cbn [List.filter]. rewrite Es. cbn [andb]. fold (dest m i).
        destruct (is_trap (dest m i)); cbn [negb length]; lia.
      * intros l1 k l2 El Hsk Hap. destruct l1 as [|k' l1]; cbn in El; injection El as -> ->; [|by apply (Hlead l1 k l2)].
        eapply leads_keep; [exact He'|exact Hr1| |by apply Hpatch| |exact Hl1].
        -- intros x (j&Hj&Hsj&Hx). destruct (Hp j ltac:(by right) Hsj) as [[_ Hap' _] _]. unfold word_of in Hx. rewrite P1, P2. lia.
        -- intros x (j&Hj&Hsj&Hx). specialize (Hap j Hj Hsj). unfold word_of in *. lia.
    + specialize (IH c t Hl Hr ltac:(lia) Hs Hpt Htx ltac:(intros j Hj; apply Hp; by right)).
      destruct (fold_left _ l (c, t)) as [c' t']. destruct IH as (Hr'&He'&Hc'&Hlead). split; [done|]. split; [|split].
      * eapply extends_weaken; [exact He'| |cbn [length]; lia]. intros x (j&Hj&Hsj&Hx). exists j. split; [by right|done].
      * rewrite Hc'. unfold redirections. cbn [List.filter]. by rewrite Es.
      * intros l1 k l2 El Hsk Hap. destruct l1 as [|k' l1]; cbn in El; injection El as -> ->; [congruence|by apply (Hlead l1 k l2)].
Qed.
End lib.

(** Readiness and the code of islands do not depend on page protections. *)
Lemma ready_protect abort_fn c t : ready abort_fn t -> ready abort_fn (add_protect c t).
Proof. by intros []. Qed.

Lemma make_text_ready abort_fn sysconf_page mprotect_ok header slide t ok t1 :
  make_text_writable sysconf_page mprotect_ok header slide t = (ok, t1) -> ready abort_fn t ->
  ready abort_fn t1 /\ t_mem t1 = t_mem t /\ island_pool t1 = island_pool t /\ island_pool_size t1 = island_pool_size t /\
  island_pool_used t1 = island_pool_used t.
Proof.
  unfold make_text_writable. destruct (find_segment _ _) as [seg|]; [|by intros [= _ <-]]. cbn [do_protect].
  destruct (negb _); intros [= _ <-] []; done.
Qed.

(** C16. Redirected functions.  After a library was patched, a call of a
    selected function (an external function of the image with one of the
    prefixes), from any processor state, arrives at the function of the same
    name in the Linux library (or at its override) with every register but x16
    and all memory as at the call; in stub mode it returns 0 to its caller; and
    a function the Linux library does not have arrives at the abort handler
    with its name in x0.  The result is the number of functions redirected. *)
Theorem trampolines_redirect abort_fn L sysconf_page mprotect_ok header slide lib_path prefixes overrides lks t st h lks' t1 :
  let stub_mode := streq lib_path (str "STUB") in
  let nlist_arr := fileoff_to_mem header slide (symoff st) in
  let strtab := fileoff_to_mem header slide (stroff st) in
  let m := t_mem t in
  find_symtab header = Some st -> nlist_arr <> 0 -> strtab <> 0 ->
  (if stub_mode then (0, lks) else Resolve.lk_dlopen L lib_path lks) = (h, lks') -> (if stub_mode then h = 0 else h <> 0) ->
  make_text_writable sysconf_page mprotect_ok header slide t = (true, t1) ->
  0 <= abort_fn < 2 ^ 64 -> (forall n, 0 <= Resolve.lk_dlsym L lks' h n < 2 ^ 64) -> Forall (fun o => 0 <= snd o < 2 ^ 64) overrides ->
  0 <= strtab /\ strtab + strsize st < 2 ^ 64 -> 0 <= nsyms st ->
  ready abort_fn t -> island_pool_used t + 48 * nsyms st <= island_pool_size t ->
  names_end nlist_arr strtab (strsize st) (nsyms st) m ->
  (forall x, tables nlist_arr strtab (strsize st) (nsyms st) x -> ~ island_pool t <= x < island_pool t + island_pool_size t) ->
  let sel := selected slide nlist_arr strtab (strsize st) prefixes m t1 in
  let at_ i := func slide nlist_arr m i in
  let to_ i := dest L lks' nlist_arr strtab (strsize st) stub_mode h overrides m i in
  (forall i, 0 <= i < nsyms st -> sel i = true -> patchable t (at_ i) /\ forall x, word_of (at_ i) x -> ~ tables nlist_arr strtab (strsize st) (nsyms st) x) ->
  exists t',
    trampoline_patch_lib abort_fn L sysconf_page mprotect_ok header slide lib_path prefixes overrides lks t =
      (Z.of_nat (length (List.filter (fun i => sel i && negb (is_trap (to_ i))) (seqZ 0 (nsyms st)))), lks', t') /\
    forall i, 0 <= i < nsyms st -> sel i = true ->
      (forall j, i < j < nsyms st -> sel j = true -> at_ i + 4 <= at_ j \/ at_ j + 4 <= at_ i) ->
      forall cpu, cpu_mem cpu = t_mem t' -> cpu_pc cpu = at_ i ->
        exists cpu', reaches (fetch (t_mem t')) cpu cpu' /\ lands abort_fn (to_ i) cpu cpu'.
Proof.
  intros stub_mode nlist_arr strtab m Hst Ha0 Hs0 Hop Hh Hmk Hab Hdls Hov Hstr Hns Hr Hroom Hends Hpt sel at_ to_ Hsel.
  unfold trampoline_patch_lib. rewrite Hst. fold stub_mode nlist_arr strtab. rewrite Hop.
  replace (negb stub_mode && (h =? 0)) with false by (destruct stub_mode; [done|]; by destruct (Z.eqb_spec h 0)).
  replace ((nlist_arr =? 0) || (strtab =? 0)) with false by (by destruct (Z.eqb_spec nlist_arr 0), (Z.eqb_spec strtab 0)).
  rewrite Hmk. destruct (make_text_ready abort_fn _ _ _ _ _ _ _ Hmk Hr) as (Hr1&Em&Ep&Es&Eu).
  pose proof (patch_symbols_lead abort_fn Hab L lks' slide nlist_arr strtab (strsize st) (nsyms st) stub_mode h prefixes overrides Hh Hdls Hov Hstr
    m t1 Hends (seqZ 0 (nsyms st)) (mk_counts 0 0 0) t1) as Hfold.
  assert (Hlen : Z.of_nat (length (seqZ 0 (nsyms st))) = nsyms st) by (rewrite length_seqZ; lia).
  destruct (fold_left _ (seqZ 0 (nsyms st)) (mk_counts 0 0 0, t1)) as [c t2]. destruct Hfold as (Hr2&He2&Hc&Hlead).
  { apply Forall_forall. intros i Hi%elem_of_seqZ. lia. }
  { done. }
  { rewrite Hlen, Eu, Es. lia. }
  { intros x _. by rewrite Em. }
  { rewrite Ep, Es. exact Hpt. }
  { done. }
  { intros i Hi%list_elem_of_In%elem_of_seqZ Hs. destruct (Hsel i ltac:(lia) Hs) as [[? Hap Hre] Hx]. split; [|exact Hx].
    constructor; rewrite ?Ep, ?Es; done. }
  exists (restore_text_protection mprotect_ok t2). split; [by rewrite Hc|].
  assert (Er : exists c, restore_text_protection mprotect_ok t2 = add_protect c t2 \/ restore_text_protection mprotect_ok t2 = t2).
  { unfold restore_text_protection. exists (text_patch_base t2, text_patch_size t2, PROT_READ .| PROT_EXEC). destruct (_ && _); [by left|by right]. }
  intros i Hi Hs Hlast cpu Hm Hpc. assert (Emem : t_mem (restore_text_protection mprotect_ok t2) = t_mem t2) by (by destruct Er as [c' [->| ->]]).
  rewrite Emem in *. apply (leads_runs abort_fn Hab t2 (at_ i)); try done.
  - destruct (Hsel i Hi Hs) as [[? Hap Hre] _]. pose proof (ex_pool _ _ _ _ He2) as [Q1 Q2]. constructor; rewrite ?Q1, ?Q2, ?Ep, ?Es; done.
  - apply (Hlead (seqZ 0 i) i (seqZ (i + 1) (nsyms st - i - 1))); [|done|].
    + replace (nsyms st) with (i + (1 + (nsyms st - i - 1))) at 1 by lia. rewrite seqZ_app by lia. f_equal. rewrite seqZ_app by lia.
      rewrite Z.add_0_l. done.
    + intros j Hj%list_elem_of_In%elem_of_seqZ Hsj. apply (Hlast j); [lia|done].
Qed.

(** [_SDL_Init], which the library has, and [_SDL_Quit], which it has not. *)
Definition sdl_image : mach_header_64 :=
  mk_mh MH_EXECUTE 0 0 [mk_lc 72 (LC_SEGMENT_64 (mk_seg "__TEXT" 0x10000 0x1000 0 0x1000 7 5 []));
                        mk_lc 72 (LC_SEGMENT_64 (mk_seg "__LINKEDIT" 0x20000 0x1000 0x1000 0x1000 1 1 []));
                        mk_lc 24 (LC_OTHER (LC_SYMTAB (mk_symtab 0x1000 2 0x1100 32)))].
Definition sdl_symbol (strx value : Z) : list Z := le_bytes 4 strx ++ [0x0f; 1; 0; 0] ++ le_bytes 8 value.
Definition sdl_memory : bytemem :=
  place 0x20000 (sdl_symbol 1 0x10100 ++ sdl_symbol 11 0x10200)
    (place 0x20100 ([0] ++ map code (str "_SDL_Init") ++ [0] ++ map code (str "_SDL_Quit") ++ [0]) (fun _ => 0)).
Definition sdl_linker : Resolve.linker :=
  Resolve.mk_linker unit (fun _ h n => if (h =? 5) && streq n (str "SDL_Init") then 0x7000 else 0) (fun _ s => (5, s))
    (fun _ _ => None) (fun _ _ => true) (fun _ => None).
Definition sdl_tramp : tramp := trampoline_set_pool 0x30000 0x1000 (mk_t sdl_memory 0 0 0 0 0 0 0 [] [] None).

Lemma sdl_ready : ready 0x9000 sdl_tramp.
Proof.
  constructor; [| |intros H; by destruct H|intros H; by destruct H].
  - split; [by vm_compute|]. split; [reflexivity|]. split; [by vm_compute|by vm_compute].
  - split; [split; by vm_compute|reflexivity].
Qed.

Lemma trampolines_redirect_witness :
  exists t', trampoline_patch_lib 0x9000 sdl_linker 4096 (fun _ _ => true) sdl_image 0 (str "libSDL2-2.0.so.0") [str "_SDL_"] [] tt sdl_tramp = (1, tt, t') /\
    (forall cpu, cpu_mem cpu = t_mem t' -> cpu_pc cpu = 0x10100 ->
       exists cpu', reaches (fetch (t_mem t')) cpu cpu' /\ cpu_pc cpu' = 0x7000 /\ same_but [16] cpu cpu') /\
    (forall cpu, cpu_mem cpu = t_mem t' -> cpu_pc cpu = 0x10200 ->
       exists cpu', reaches (fetch (t_mem t')) cpu cpu' /\ cpu_pc cpu' = 0x9000 /\ cpu_x cpu' 0 = 0x2010b /\ same_but [0; 16] cpu cpu').
Proof.
  edestruct (trampolines_redirect 0x9000 sdl_linker 4096 (fun _ _ => true) sdl_image 0 (str "libSDL2-2.0.so.0") [str "_SDL_"] [] tt sdl_tramp
    (mk_symtab 0x1000 2 0x1100 32) 5 tt) as (t'&E&Hc).
  - reflexivity.
  - by vm_compute.
  - by vm_compute.
  - reflexivity.
  - by vm_compute.
  - reflexivity.
  - lia.
  - intros n. cbn. destruct (streq _ _); lia.
  - constructor.
  - vm_compute. split; [discriminate|reflexivity].
  - cbn. lia.
  - apply sdl_ready.
  - cbn. lia.
  - intros i Hi _. cbn in Hi. assert (i = 0 \/ i = 1) as [-> | ->] by lia; by vm_compute.
  - intros x Hx. unfold tables in Hx. change (fileoff_to_mem sdl_image 0 (symoff _)) with 0x20000 in Hx.
    change (fileoff_to_mem sdl_image 0 (stroff _)) with 0x20100 in Hx. cbn in *. lia.
  - intros i Hi _. cbn in Hi. unfold tables, word_of. change (fileoff_to_mem sdl_image 0 (symoff _)) with 0x20000.
    change (fileoff_to_mem sdl_image 0 (stroff _)) with 0x20100. cbn [nsyms strsize].
    assert (i = 0 \/ i = 1) as [-> | ->] by lia;
      match goal with |- context [func 0 ?a ?m ?i] => let v := eval vm_compute in (func 0 a m i) in change (func 0 a m i) with v end;
      (split; [constructor; [split; [lia|reflexivity]|cbn; lia|cbn; lia]|intros x Hx; lia]).
  - exists t'. split; [exact E|]. split; intros cpu Hm Hpc.
    + destruct (Hc 0 ltac:(cbn; lia) eq_refl) with (cpu := cpu) as (cpu'&R&Hl); [|done|done|].
      * intros j Hj _. cbn in Hj. assert (j = 1) as -> by lia. left. by vm_compute.
      * exists cpu'. split; [exact R|exact Hl].
    + destruct (Hc 1 ltac:(cbn; lia) eq_refl) with (cpu := cpu) as (cpu'&R&Hl); [|done|done|].
      * intros j Hj _. cbn in Hj. lia.
      * exists cpu'. split; [exact R|exact Hl].
Defined.

(** ** Guarded pages *)

Lemma guard_pages_spec sysconf_page mprotect_ok syms data_base n : forall i t,
  let t' := guard_pages sysconf_page mprotect_ok syms data_base n i t in
  exists l, guarded_pages t' = guarded_pages t ++ l /\ t_mem t' = t_mem t /\
    Forall (fun g => exists k, i <= k < i + Z.of_nat n /\ g = (data_base + k * page sysconf_page, page sysconf_page) /\
                      has_symbol true syms k = true /\ has_symbol false syms k = false) l.
Proof.
  induction n as [|n IH]; intros i t t'; [exists []; split; [by rewrite app_nil_r|done]|].
  assert (Hshift : forall (P : Z * Z -> Z -> Prop) l, Forall (fun g => exists k, i + 1 <= k < i + 1 + Z.of_nat n /\ P g k) l ->
    Forall (fun g => exists k, i <= k < i + Z.of_nat (S n) /\ P g k) l).
  { intros P l Hl. eapply Forall_impl; [exact Hl|]. intros g (k&Hk&Hg). exists k. split; [lia|done]. }
  subst t'. cbn [guard_pages]. destruct (has_symbol true syms i) eqn:E1; cbn [negb].
  2: { destruct (IH (i + 1) t) as (l&H1&H2&H3). exists l. split; [done|]. split; [done|]. by apply Hshift. }
  destruct (has_symbol false syms i) eqn:E2.
  { destruct (IH (i + 1) t) as (l&H1&H2&H3). exists l. split; [done|]. split; [done|]. by apply Hshift. }
  destruct (_ <=? _)%nat; [exists []; split; [by rewrite app_nil_r|done]|]. cbn [do_protect].
  match goal with |- context [guard_pages _ _ _ _ _ _ ?s] => destruct (IH (i + 1) s) as (l&H1&H2&H3); set (t1 := s) in * end.
  assert (Et : t_mem t1 = t_mem t) by (unfold t1; by destruct (mprotect_ok _ _)).
  unfold t1 in H1 at 2. destruct (mprotect_ok _ _); cbn [guarded_pages add_guarded add_protect] in H1.
  - eexists (_ :: l). split; [rewrite H1, <- app_assoc; reflexivity|]. split; [congruence|]. constructor; [|by apply Hshift].
    exists i. split; [lia|]. split; [done|]. by split.
  - exists l. split; [done|]. split; [congruence|]. by apply Hshift.
Qed.

(** The pages that guarding adds: a symbol of the library starts on each, and
    no other symbol does.  Memory is unchanged. *)
Theorem guarded_pages_hold_library sysconf_page mprotect_ok calloc_ok mh header slide prefixes t st seg :
  find_symtab header = Some st -> find_segment "__DATA" header = Some seg ->
  let data_base := u64 (vmaddr seg + slide) in
  let syms := omap (data_symbol sysconf_page (t_mem t) slide (fileoff_to_mem header slide (symoff st)) (fileoff_to_mem header slide (stroff st))
                      (strsize st) data_base (u64 (data_base + vmsize seg)) prefixes) (seqZ 0 (nsyms st)) in
  let t' := trampoline_guard_stale_data sysconf_page mprotect_ok calloc_ok mh header slide prefixes t in
  t_mem t' = t_mem t /\ exists l, guarded_pages t' = guarded_pages t ++ l /\
    Forall (fun g => exists k, 0 <= k /\ g = (data_base + k * page sysconf_page, page sysconf_page) /\
                      has_symbol true syms k = true /\ has_symbol false syms k = false) l.
Proof.
  intros Hst Hseg data_base syms. unfold trampoline_guard_stale_data. rewrite Hst, Hseg. fold data_base.
  assert (Hno : t_mem t = t_mem t /\ exists l, guarded_pages t = guarded_pages t ++ l /\
    Forall (fun g => exists k, 0 <= k /\ g = (data_base + k * page sysconf_page, page sysconf_page) /\
                      has_symbol true syms k = true /\ has_symbol false syms k = false) l)
    by (split; [done|]; exists []; by rewrite app_nil_r).
  destruct (_ =? 0); [done|]. destruct (_ =? 0); [done|]. destruct (negb _); [done|]. destruct (_ || _); [done|]. fold syms.
  destruct (negb _); [done|].
  destruct (guard_pages_spec sysconf_page mprotect_ok syms data_base
    (Z.to_nat (u64 (u64 (data_base + vmsize seg) - data_base + page sysconf_page - 1) / page sysconf_page)) 0 t) as (l&H1&H2&H3).
  assert (Hl : Forall (fun g => exists k, 0 <= k /\ g = (data_base + k * page sysconf_page, page sysconf_page) /\
                      has_symbol true syms k = true /\ has_symbol false syms k = false) l).
  { eapply Forall_impl; [exact H3|]. intros g (k&Hk&Hg). exists k. split; [lia|done]. }
  destruct (_ <? _)%nat; (split; [done|by exists l]).
Qed.

(** A program array at 0x40f00 that reaches over the page end and library data
    at 0x41800: the page of the library data is guarded, with the end of the
    program's array on it. *)
Definition guard_image : mach_header_64 :=
  mk_mh MH_EXECUTE 0 0 [mk_lc 72 (LC_SEGMENT_64 (mk_seg "__DATA" 0x40000 0x2000 0 0x1000 7 3 []));
                        mk_lc 72 (LC_SEGMENT_64 (mk_seg "__LINKEDIT" 0x20000 0x1000 0x1000 0x1000 1 1 []));
                        mk_lc 24 (LC_OTHER (LC_SYMTAB (mk_symtab 0x1000 2 0x1100 32)))].
Definition guard_memory : bytemem :=
  place 0x20000 (sdl_symbol 1 0x40f00 ++ sdl_symbol 11 0x41800)
    (place 0x20100 ([0] ++ map code (str "_my_array") ++ [0] ++ map code (str "_SDL_data") ++ [0]) (fun _ => 0)).

Example guard_covers_program_data :
  guarded_pages (trampoline_guard_stale_data 4096 (fun _ _ => true) (fun _ => true) 0x10000 guard_image 0 [str "_SDL_"]
    (mk_t guard_memory 0 0 0 0 0 0 0 [] [] None)) = [(0x41000, 4096)].
Proof. vm_compute. reflexivity. Qed.

(** A name with [m] and without [y] is not tried in its other spelling,
    although the library has it and the resolver would find it. *)
Example reverse_spelling_needs_y :
  let dls n := if streq n (str "_ZN3fooEy") then 0x7000 else 0 in
  Trampoline.try_mangling_variants dls true (str "_ZN3fooEm") = 0 /\ ResolveNames.try_mangling_variants dls true (str "_ZN3fooEm") = 0x7000.
Proof. split; vm_compute; reflexivity. Qed.
