(* ===== verification/StartupCache.v ===== *)
(** * The start-up cache: src/startup_cache.c, src/startup_cache.h

    Results of a start that the next start of the same binary reads from a
    file.  The file system is a map from paths to files and directories; other
    processes may change it between any two calls of this one. *)

From S2P Require Import Prelude CStr Host GuestCpus Macho Loader Leb128.
Module StartupCache.

Definition MACHGATE_STARTUP_CACHE_MAGIC : Z := 0x5441474341474348.
Definition MACHGATE_STARTUP_CACHE_VERSION : Z := 1.

Record startup_cache_key := mk_key { dev : Z; ino : Z; size : Z; mtime_sec : Z; mtime_nsec : Z; has_unwind : Z }.
Record startup_cache_header := mk_header {
  magic : Z; version : Z; header_size : Z; key : startup_cache_key; eh_frame_size : Z; hdr_pairs_size : Z; patch_count : Z;
  cie_personality_offset : Z; fde_count : Z; reserved : Z; checksum : Z; payload_checksum : Z;
}.
Record startup_cache_patch := mk_patch { text_offset : Z; instruction : Z; kind : Z }.

(** What the functions read of [struct stat]. *)
Record stat := mk_stat { st_dev : Z; st_ino : Z; st_size : Z; st_mtim_sec : Z; st_mtim_nsec : Z }.

(** ** Layout *)

Definition encode_key (k : startup_cache_key) : list Z :=
  le_bytes 8 (dev k) ++ le_bytes 8 (ino k) ++ le_bytes 8 (size k) ++ le_bytes 8 (mtime_sec k) ++ le_bytes 8 (mtime_nsec k) ++ le_bytes 8 (has_unwind k).
Definition encode_header (h : startup_cache_header) : list Z :=
  le_bytes 8 (magic h) ++ le_bytes 4 (version h) ++ le_bytes 4 (header_size h) ++ encode_key (key h) ++ le_bytes 8 (eh_frame_size h) ++
  le_bytes 8 (hdr_pairs_size h) ++ le_bytes 8 (patch_count h) ++ le_bytes 8 (cie_personality_offset h) ++ le_bytes 4 (fde_count h) ++
  le_bytes 4 (reserved h) ++ le_bytes 8 (checksum h) ++ le_bytes 8 (payload_checksum h).
Definition encode_patch (p : startup_cache_patch) : list Z := le_bytes 8 (text_offset p) ++ le_bytes 4 (instruction p) ++ le_bytes 4 (kind p).

(** [sizeof(struct startup_cache_header)], [sizeof(struct startup_cache_patch)] *)
Definition HEADER_SIZE : Z := 120.
Definition PATCH_SIZE : Z := 16.

Definition le_num (b : list Z) : Z := foldr (fun x acc => x + 256 * acc) 0 b.
Definition get (n off : nat) (b : list Z) : Z := le_num (take n (drop off b)).

(** The header of a mapped file. *)
Definition decode_key (b : list Z) : startup_cache_key :=
  mk_key (get 8 16 b) (get 8 24 b) (get 8 32 b) (get 8 40 b) (get 8 48 b) (get 8 56 b).
Definition decode_header (b : list Z) : startup_cache_header :=
  mk_header (get 8 0 b) (get 4 8 b) (get 4 12 b) (decode_key b) (get 8 64 b) (get 8 72 b) (get 8 80 b) (get 8 88 b) (get 4 96 b) (get 4 100 b)
    (get 8 104 b) (get 8 112 b).

Definition fnv1a64 (data : list Z) : Z :=
  fold_left (fun hash b => u64 (Z.lxor hash b * 1099511628211)) data 1469598103934665603.

Definition with_checksums (c p : Z) (h : startup_cache_header) : startup_cache_header :=
  mk_header (magic h) (version h) (header_size h) (key h) (eh_frame_size h) (hdr_pairs_size h) (patch_count h) (cie_personality_offset h)
    (fde_count h) (reserved h) c p.
Definition header_checksum (h : startup_cache_header) : Z := fnv1a64 (encode_header (with_checksums 0 0 h)).

Definition fill_cache_key (st : stat) : startup_cache_key :=
  mk_key (u64 (st_dev st)) (u64 (st_ino st)) (u64 (st_size st)) (u64 (st_mtim_sec st)) (u64 (st_mtim_nsec st)) 0.
Definition key_matches (cached current : startup_cache_key) : bool :=
  (dev cached =? dev current) && (ino cached =? ino current) && (size cached =? size current) &&
  (mtime_sec cached =? mtime_sec current) && (mtime_nsec cached =? mtime_nsec current).

(** ** Paths *)

(** What the process sees of its environment: [getenv], [realpath], [getpid]. *)
Record environment := mk_env { getenv : cstr -> option cstr; realpath : cstr -> option cstr; getpid : Z }.

Section paths.
Context (E : environment).

(** [MACHGATE_STARTUP_CACHE], or under its old name. *)
Definition startup_cache_enabled : bool :=
  match match getenv E (str "MACHGATE_STARTUP_CACHE") with Some v => Some v | None => getenv E (str "MACHISMO_STARTUP_CACHE") end with
  | Some v => negb (streq v (str "0") || streq v (str "false") || streq v (str "FALSE") || streq v (str "no") || streq v (str "NO"))
  | None => true
  end.

(** [%llu] and [%016llx] *)
Definition print_llu (v : Z) : cstr := print_digits 20 10 (u64 v).
Definition print_016llx (v : Z) : cstr := let d := print_lx v in repeat "0"%char (16 - length d) ++ d.

Definition suffix (st : stat) : cstr := print_llu (st_ino st) ++ str "-" ++ print_llu (st_size st) ++ str ".cache".

Definition build_sidecar_path (binary_path : cstr) (st : stat) : cstr :=
  firstn 4095 (match split_last "/" binary_path with
               | Some (dir, _) => dir ++ str "/.machgate-cache/" ++ suffix st
               | None => str ".machgate-cache/" ++ suffix st
               end).

Definition non_empty (v : option cstr) : option cstr := match v with Some (_ :: _ as s) => v | _ => None end.

Definition build_fallback_path (binary_path : cstr) (st : stat) : cstr :=
  let resolved := match realpath E binary_path with Some p => p | None => firstn 4095 binary_path end in
  let path_hash := fnv1a64 (map code resolved) in
  let base := firstn 4095
    (match non_empty (getenv E (str "XDG_CACHE_HOME")) with
     | Some cache_home => cache_home ++ str "/machgate"
     | None => match non_empty (getenv E (str "HOME")) with
               | Some home => home ++ str "/.cache/machgate"
               | None => str "/tmp/machgate-cache"
               end
     end) in
  firstn 4095 (base ++ str "/" ++ print_016llx path_hash ++ str "-" ++ suffix st).

(** The directory [ensure_parent_directory] makes. *)
Definition parent_directory (file_path : cstr) : option cstr := option_map fst (split_last "/" (firstn 4095 file_path)).

(** [sidecar_path_is_writable]: the probe file. *)
Definition probe_path (file_path : cstr) : cstr := firstn 4199 (file_path ++ str ".probe." ++ print_d (getpid E)).

Definition temp_path_of (final_path : cstr) : cstr := firstn 4199 (final_path ++ str ".tmp." ++ print_d (getpid E)).
End paths.

(** ** System calls *)

(** What is at a path. *)
Inductive node := Regular (content : list Z) | Directory.
Definition fs := cstr -> option node.

(** What a call does, decided by the system: it succeeds, transfers [n] bytes,
    is interrupted, or fails; [before]: what other processes do to the disk
    before it. *)
Inductive outcome := Ok | Count (n : nat) | Eintr | Err.
Record answer := mk_answer { before : fs -> fs; how : outcome }.

(** The disk, the steps of this process (the disk before and after each), and
    the answers still to come. *)
Record io := mk_io { disk : fs; steps : list (fs * fs); answers : list answer }.

(** [None]: the answers ended before the result. *)
Definition IO (A : Type) : Type := io -> option A * io.
Definition ioret {A} (a : A) : IO A := fun s => (Some a, s).
Definition iobind {A B} (m : IO A) (f : A -> IO B) : IO B :=
  fun s => match m s with (Some a, s) => f a s | (None, s) => (None, s) end.
Notation "'io!' x := m 'in' k" := (iobind m (fun x => k))
  (at level 200, x name, m at level 100, k at level 200, right associativity).

Definition call {A} (f : outcome -> fs -> A * fs) : IO A := fun s =>
  match answers s with
  | [] => (None, s)
  | a :: l => let d := before a (disk s) in
              let '(r, d') := f (how a) d in
              (Some r, mk_io d' (steps s ++ [(d, d')]) l)
  end.

Definition set_file (p : cstr) (v : option node) (d : fs) : fs := fun q => if decide (q = p) then v else d q.

Definition succeeds (o : outcome) : bool := match o with Ok => true | _ => false end.

(** [open(path, O_WRONLY | O_CREAT | O_TRUNC, 0644)]: not on a directory. *)
Definition open_trunc (path : cstr) : IO bool :=
  call (fun o d => match d path with
                   | Some Directory => (false, d)
                   | _ => if succeeds o then (true, set_file path (Some (Regular [])) d) else (false, d)
                   end).
(** [open(path, O_WRONLY | O_CREAT | O_EXCL, 0644)]: only where nothing is. *)
Definition open_excl (path : cstr) : IO bool :=
  call (fun o d => match d path with
                   | None => if succeeds o then (true, set_file path (Some (Regular [])) d) else (false, d)
                   | Some _ => (false, d)
                   end).
(** [open(path, O_RDONLY)] and what is read through the descriptor; a directory
    has nothing to map. *)
Definition open_read (path : cstr) : IO (option (list Z)) :=
  call (fun o d => (if succeeds o then match d path with Some (Regular file) => Some file | _ => None end else None, d)).
(** [mkdir(path, 0777)]: only where nothing is. *)
Definition mkdir (path : cstr) : IO unit :=
  call (fun o d => (tt, match d path with None => if succeeds o then set_file path (Some Directory) d else d | Some _ => d end)).
(** [open] without creating, [fstat], [mmap], [close], [fsync], [malloc]: no
    effect on the disk. *)
Definition try_call : IO bool := call (fun o d => (succeeds o, d)).
(** [unlink]: not of a directory. *)
Definition unlink (path : cstr) : IO unit :=
  call (fun o d => (tt, match d path with Some (Regular _) => if succeeds o then set_file path None d else d | _ => d end)).
(** [rename] of a file: not onto a directory. *)
Definition rename (old new : cstr) : IO bool :=
  call (fun o d => match d old, d new with
                   | Some _, Some Directory | None, _ => (false, d)
                   | Some file, _ => if succeeds o then (true, set_file old None (set_file new (Some file) d)) else (false, d)
                   end).

(** ** The place of the cache *)

Definition ensure_parent_directory (file_path : cstr) : IO unit :=
  match parent_directory file_path with None => ioret tt | Some parent => mkdir parent end.

Definition sidecar_path_is_writable (E : environment) (file_path : cstr) : IO bool :=
  io! _ := ensure_parent_directory file_path in
  io! probe_fd := open_excl (probe_path E file_path) in
  if probe_fd then
    io! _ := try_call in
    io! _ := unlink (probe_path E file_path) in
    ioret true
  else ioret false.

Definition build_cache_path (E : environment) (binary_path : cstr) (st : stat) : IO cstr :=
  let sidecar := build_sidecar_path binary_path st in
  io! writable := sidecar_path_is_writable E sidecar in
  if writable then ioret sidecar
  else
    let fallback := build_fallback_path E binary_path st in
    io! _ := ensure_parent_directory fallback in
    ioret fallback.

(** ** Reading *)

(** An open cache: the header, and where the parts are, from the start of the
    mapped file. *)
Record opened := mk_opened { o_header : startup_cache_header; o_eh_frame : Z; o_hdr_pairs : Z; o_patches : Z; o_file : list Z }.

(** [startup_cache_open] from the mapped file on, which holds a header. *)
Definition open_mapped (file : list Z) (st : stat) : option opened :=
    let file_size := Z.of_nat (length file) in
    let header := decode_header file in
    if negb (magic header =? MACHGATE_STARTUP_CACHE_MAGIC) then None
    else if negb (version header =? MACHGATE_STARTUP_CACHE_VERSION) || negb (header_size header =? HEADER_SIZE) then None
    else if negb (checksum header =? header_checksum header) then None
    else if negb (key_matches (key header) (fill_cache_key st)) then None
    else
      let patches_size := u64 (patch_count header * PATCH_SIZE) in
      let total_needed := u64 (header_size header + eh_frame_size header + hdr_pairs_size header + patches_size) in
      if negb (total_needed =? file_size) then None
      else if negb (fnv1a64 (drop (Z.to_nat (header_size header)) file) =? payload_checksum header) then None
      else Some (mk_opened header (header_size header) (u64 (header_size header + eh_frame_size header))
                   (u64 (header_size header + eh_frame_size header + hdr_pairs_size header)) file).

Definition startup_cache_open (E : environment) (binary_path : cstr) (st : stat) : IO (option opened) :=
  if negb (startup_cache_enabled E) then ioret None
  else
    io! path := build_cache_path E binary_path st in
    io! fd := open_read path in
    match fd with
    | None => ioret None
    | Some file =>
        io! cache_st := try_call in
        if negb cache_st || (Z.of_nat (length file) <? HEADER_SIZE) then io! _ := try_call in ioret None
        else
          io! mapping := try_call in
          io! _ := try_call in
          ioret (if mapping then open_mapped file st else None)
    end.

(** The static variables after a successful open, and after a close. *)
Record cache_state := mk_cache { cache_mapping : option (list Z); cache_eh_frame_size : Z }.
Definition remember (o : opened) : cache_state := mk_cache (Some (o_file o)) (eh_frame_size (o_header o)).
Definition startup_cache_close (c : cache_state) : cache_state :=
  match cache_mapping c with Some _ => mk_cache None 0 | None => c end.

(** Offset and size of the blob. *)
Definition startup_cache_eh_frame_blob (c : cache_state) : option (Z * Z) :=
  match cache_mapping c with Some _ => Some (HEADER_SIZE, cache_eh_frame_size c) | None => None end.

Definition MAP_FIXED_NOREPLACE : Z := 0x100000.

Section near.
Context (kernel_mmap : list vmcall -> vmcall -> option Z) (base size : Z).

Definition try_candidate (a : Z) (tr : list vmcall) : option Z * list vmcall :=
  if a =? 0 then (None, tr)
  else
    let c := VMmap a size (PROT_READ .| PROT_WRITE) (MAP_PRIVATE .| MAP_ANONYMOUS .| MAP_FIXED_NOREPLACE) None in
    match kernel_mmap tr c with
    | None => (None, tr ++ [c])
    | Some mapping =>
        let distance := i64 (mapping - base) in
        if (- (2 ^ 31 - 1) <? distance) && (distance <? 2 ^ 31 - 1) then (Some mapping, tr ++ [c])
        else (None, tr ++ [c; VMunmap mapping size])
    end.

(** The distances [delta], [delta + step], ... *)
Fixpoint map_near (n : nat) (delta : Z) (tr : list vmcall) : option Z * list vmcall :=
  match n with
  | O => (None, tr)
  | S n =>
      match try_candidate (u64 (base + delta) .& Z.lnot 0xfff) tr with
      | (Some a, tr) => (Some a, tr)
      | (None, tr) =>
          match try_candidate (if delta <? base then (base - delta) .& Z.lnot 0xfff else 0) tr with
          | (Some a, tr) => (Some a, tr)
          | (None, tr) => map_near n (delta + 0x02000000) tr
          end
      end
  end.

(** 55 distances below 0x70000000. *)
Definition startup_cache_map_eh_frame_near (tr : list vmcall) : option Z * list vmcall :=
  if size =? 0 then (None, tr) else map_near 55 0x02000000 tr.
End near.

(** ** Writing *)

(** [data] over the bytes from [pos] on. *)
Definition write_at (pos : nat) (data file : list Z) : list Z :=
  take pos (file ++ repeat 0 (pos - length file)) ++ data ++ drop (pos + length data) file.

(** [write]: the number of bytes, or -1 and whether it was EINTR. *)
Definition write (path : cstr) (pos : nat) (data : list Z) : IO (nat + bool) :=
  call (fun o d =>
    let put n := (inl n, match d path with Some (Regular file) => set_file path (Some (Regular (write_at pos (take n data) file))) d | _ => d end) in
    match o with
    | Ok => put (length data)
    | Count n => put (Nat.min n (length data))
    | Eintr => (inr true, d)
    | Err => (inr false, d)
    end).

(** Whether all was written, and the position of the descriptor. *)
Fixpoint write_loop (fuel : nat) (path : cstr) (pos : nat) (data : list Z) : IO (bool * nat) :=
  match fuel, data with
  | _, [] => ioret (true, pos)
  | O, _ => fun s => (None, s)
  | S fuel, _ =>
      io! r := write path pos data in
      match r with
      | inr true => write_loop fuel path pos data
      | inr false => ioret (false, pos)
      | inl n => write_loop fuel path (pos + n) (drop n data)
      end
  end.
(** Every round takes an answer. *)
Definition write_all (path : cstr) (pos : nat) (data : list Z) : IO (bool * nat) := fun s => write_loop (S (length (answers s))) path pos data s.

(** [read] of up to [want] bytes at [pos]. *)
Definition read (path : cstr) (pos want : nat) : IO (list Z + bool) :=
  call (fun o d =>
    let file := match d path with Some (Regular file) => file | _ => [] end in
    match o with
    | Ok => (inl (take want (drop pos file)), d)
    | Count n => (inl (take (Nat.min n want) (drop pos file)), d)
    | Eintr => (inr true, d)
    | Err => (inr false, d)
    end).

(** The bytes read until the end, an error, or [want] bytes. *)
Fixpoint read_loop (fuel : nat) (path : cstr) (pos want : nat) : IO (list Z) :=
  match fuel, want with
  | _, O => ioret []
  | O, _ => fun s => (None, s)
  | S fuel, _ =>
      io! r := read path pos want in
      match r with
      | inr true => read_loop fuel path pos want
      | inr false => ioret []
      | inl [] => ioret []
      | inl got => io! rest := read_loop fuel path (pos + length got) (want - length got) in ioret (got ++ rest)
      end
  end.
Definition read_all (path : cstr) (pos want : nat) : IO (list Z) := fun s => read_loop (S (length (answers s))) path pos want s.

(** What is published. *)
Record artifacts := mk_art {
  a_eh_frame : list Z; a_hdr_pairs : list Z; a_personality : Z; a_patches : list startup_cache_patch; a_fde_count : Z;
}.
Definition payload_of (a : artifacts) : list Z := a_eh_frame a ++ a_hdr_pairs a ++ concat (map encode_patch (a_patches a)).

Definition new_header (a : artifacts) (st : stat) : startup_cache_header :=
  let h := mk_header MACHGATE_STARTUP_CACHE_MAGIC MACHGATE_STARTUP_CACHE_VERSION HEADER_SIZE (fill_cache_key st)
    (Z.of_nat (length (a_eh_frame a))) (Z.of_nat (length (a_hdr_pairs a))) (Z.of_nat (length (a_patches a)))
    (a_personality a) (a_fde_count a) 0 0 0 in
  with_checksums (header_checksum h) 0 h.

(** A file that could not be finished. *)
Definition give_up_on (temp : cstr) : IO bool := io! _ := unlink temp in ioret false.

Definition append (temp : cstr) (data : list Z) (r : bool * nat) : IO (bool * nat) :=
  match data with
  | [] => ioret r
  | _ => io! r' := write_all temp (snd r) data in ioret (fst r && fst r', snd r')
  end.

(** The second half: the checksum of the payload as it is on the disk. *)
Definition finish_publish (temp final : cstr) (header : startup_cache_header) (payload_size : nat) : IO bool :=
  io! buffer := try_call in
  if negb buffer then give_up_on temp
  else
    io! checksum_fd := try_call in
    io! payload := (if checksum_fd then read_all temp (Z.to_nat HEADER_SIZE) payload_size else ioret []) in
    io! _ := try_call in
    if negb (length payload =? payload_size)%nat then give_up_on temp
    else
      let sum := fnv1a64 payload in
      let header := with_checksums (header_checksum (with_checksums (checksum header) sum header)) sum header in
      io! patch_fd := try_call in
      if negb patch_fd then give_up_on temp
      else
        io! written := write temp 0 (encode_header header) in
        io! synced := try_call in
        io! closed := try_call in
        if negb (match written with inl n => (n =? length (encode_header header))%nat | inr _ => false end && synced && closed) then give_up_on temp
        else
          io! renamed := rename temp final in
          if negb renamed then give_up_on temp else ioret true.

(** Publication once the path of the cache file is known. *)
Definition publish_to (E : environment) (a : artifacts) (st : stat) (final : cstr) : IO bool :=
  let temp := temp_path_of E final in
  let header := new_header a st in
  io! fd := open_trunc temp in
  if negb fd then ioret false
  else
    io! r := write_all temp 0 (encode_header header) in
    io! r := append temp (a_eh_frame a) r in
    io! r := append temp (a_hdr_pairs a) r in
    io! r := append temp (concat (map encode_patch (a_patches a))) r in
    io! synced := try_call in
    io! closed := try_call in
    if negb (fst r && synced && closed) then give_up_on temp
    else finish_publish temp final header (length (payload_of a)).

(** [true] is 0. *)
Definition startup_cache_publish (E : environment) (a : artifacts) (binary_path : cstr) (st : stat) : IO bool :=
  if negb (startup_cache_enabled E) then ioret false
  else
    io! final := build_cache_path E binary_path st in
    publish_to E a st final.
End StartupCache.

(** * The start-up cache: what a reader finds *)

Import StartupCache.

(** ** Files *)

Lemma le_num_bytes n v : le_num (le_bytes n v) = v mod 2 ^ (8 * Z.of_nat n).
Proof.
  revert v. induction n as [|n IH]; intros v; [by rewrite Z.mod_1_r|]. cbn [le_bytes le_num foldr]. fold (le_num (le_bytes n (v / 256))).
  rewrite IH. replace (8 * Z.of_nat (S n)) with (8 + 8 * Z.of_nat n) by lia. rewrite Z.pow_add_r by lia. change (2 ^ 8) with 256.
  rewrite Z.rem_mul_r by lia. lia.
Qed.

Lemma get_field n off b v rest : drop off b = le_bytes n v ++ rest -> 0 <= v < 2 ^ (8 * Z.of_nat n) -> get n off b = v.
Proof.
  intros E Hv. unfold get. rewrite E, take_app_le, firstn_all2 by (rewrite le_bytes_length; lia). rewrite le_num_bytes. by apply Z.mod_small.
Qed.

Definition is_u64 (v : Z) : Prop := 0 <= v < 2 ^ 64.
Definition is_u32 (v : Z) : Prop := 0 <= v < 2 ^ 32.

Record header_ok (h : startup_cache_header) : Prop := {
  ho_words : is_u64 (magic h) /\ is_u32 (version h) /\ is_u32 (header_size h);
  ho_key : Forall is_u64 [dev (key h); ino (key h); size (key h); mtime_sec (key h); mtime_nsec (key h); has_unwind (key h)];
  ho_sizes : Forall is_u64 [eh_frame_size h; hdr_pairs_size h; patch_count h; cie_personality_offset h; checksum h; payload_checksum h];
  ho_counts : is_u32 (fde_count h) /\ is_u32 (reserved h);
}.

Ltac field_of := eapply get_field; [reflexivity|]; change (8 * Z.of_nat 8) with 64; change (8 * Z.of_nat 4) with 32; assumption.

Lemma decode_encode_header h rest : header_ok h -> decode_header (encode_header h ++ rest) = h.
Proof.
  intros [(H1&H2&H3) Hk Hs (H4&H5)]. rewrite !Forall_cons in Hk, Hs. destruct Hk as (K1&K2&K3&K4&K5&K6&_), Hs as (S1&S2&S3&S4&S5&S6&_).
  destruct h as [mg ver hs [k1 k2 k3 k4 k5 k6] s1 s2 s3 s4 fc rs c p].
  cbn [magic version header_size key dev ino size mtime_sec mtime_nsec has_unwind eh_frame_size hdr_pairs_size patch_count cie_personality_offset
       fde_count reserved checksum payload_checksum] in *.
  unfold decode_header, decode_key, is_u64, is_u32 in *. f_equal; [field_of|field_of|field_of|f_equal; field_of|field_of..].
Qed.

Lemma encode_header_length h : length (encode_header h) = 120%nat.
Proof. unfold encode_header, encode_key. rewrite !length_app, !le_bytes_length. done. Qed.

Lemma fnv_range l : is_u64 (fnv1a64 l).
Proof.
  unfold fnv1a64. assert (H : forall h, is_u64 h -> is_u64 (fold_left (fun hash b => u64 (Z.lxor hash b * 1099511628211)) l h)).
  { induction l as [|b l IH]; intros h Hh; [done|]. cbn [fold_left]. apply IH, u64_range. }
  apply H. unfold is_u64. lia.
Qed.

(** ** Complete files *)

Record art_ok (a : artifacts) : Prop := {
  ao_sizes : Z.of_nat (length (payload_of a)) < 2 ^ 60;
  ao_words : is_u64 (a_personality a) /\ is_u32 (a_fde_count a);
}.

Definition final_header (a : artifacts) (st : stat) : startup_cache_header :=
  let h := new_header a st in
  let sum := fnv1a64 (payload_of a) in
  with_checksums (header_checksum (with_checksums (checksum h) sum h)) sum h.

(** The file of a finished publication. *)
Definition complete (a : artifacts) (st : stat) : list Z := encode_header (final_header a st) ++ payload_of a.

Lemma patches_length l : length (concat (map encode_patch l)) = (16 * length l)%nat.
Proof.
  induction l as [|p l IH]; [done|]. cbn [map concat]. rewrite length_app, IH. unfold encode_patch. rewrite !length_app, !le_bytes_length. cbn [length]. lia.
Qed.

Lemma payload_length a : Z.of_nat (length (payload_of a)) =
  Z.of_nat (length (a_eh_frame a)) + Z.of_nat (length (a_hdr_pairs a)) + 16 * Z.of_nat (length (a_patches a)).
Proof. unfold payload_of. rewrite !length_app, patches_length. lia. Qed.

Lemma final_header_ok a st : art_ok a -> header_ok (final_header a st).
Proof.
  intros [Hs (Hp&Hf)]. rewrite payload_length in Hs. constructor.
  - cbn. unfold is_u64, is_u32, MACHGATE_STARTUP_CACHE_MAGIC, MACHGATE_STARTUP_CACHE_VERSION, HEADER_SIZE. lia.
  - rewrite !Forall_cons. split; [exact (u64_range (st_dev st))|]. split; [exact (u64_range (st_ino st))|]. split; [exact (u64_range (st_size st))|].
    split; [exact (u64_range (st_mtim_sec st))|]. split; [exact (u64_range (st_mtim_nsec st))|]. split; [cbn; unfold is_u64; lia|constructor].
  - cbn -[fnv1a64 header_checksum]. rewrite !Forall_cons. pose proof (fnv_range (payload_of a)). unfold header_checksum. split; [unfold is_u64; lia|]. split; [unfold is_u64; lia|].
    split; [unfold is_u64; lia|]. split; [done|]. split; [apply fnv_range|]. done.
  - cbn. split; [done|]. unfold is_u32. lia.
Qed.

Lemma key_matches_refl k : key_matches k k = true.
Proof. unfold key_matches. by rewrite !Z.eqb_refl. Qed.

Lemma header_checksum_with c p h : header_checksum (with_checksums c p h) = header_checksum h.
Proof. unfold header_checksum. by replace (with_checksums 0 0 (with_checksums c p h)) with (with_checksums 0 0 h). Qed.

Lemma final_header_fields a st : let h := final_header a st in
  magic h = MACHGATE_STARTUP_CACHE_MAGIC /\ version h = MACHGATE_STARTUP_CACHE_VERSION /\ header_size h = HEADER_SIZE /\
  checksum h = header_checksum h /\ key h = fill_cache_key st /\ eh_frame_size h = Z.of_nat (length (a_eh_frame a)) /\
  hdr_pairs_size h = Z.of_nat (length (a_hdr_pairs a)) /\ patch_count h = Z.of_nat (length (a_patches a)) /\
  payload_checksum h = fnv1a64 (payload_of a) /\ cie_personality_offset h = a_personality a /\ fde_count h = a_fde_count a.
Proof.
  split; [done|]. split; [done|]. split; [done|]. split; [|done].
  unfold final_header. generalize (fnv1a64 (payload_of a)) as sum. generalize (new_header a st) as h. intros h sum. cbv zeta.
  cbn [checksum with_checksums]. by rewrite !header_checksum_with.
Qed.

(** The parts an open cache gives out. *)
Definition part (o : opened) (off len : Z) : list Z := take (Z.to_nat len) (drop (Z.to_nat off) (o_file o)).
Definition gives (o : opened) (a : artifacts) : Prop :=
  part o (o_eh_frame o) (eh_frame_size (o_header o)) = a_eh_frame a /\
  part o (o_hdr_pairs o) (hdr_pairs_size (o_header o)) = a_hdr_pairs a /\
  part o (o_patches o) (patch_count (o_header o) * PATCH_SIZE) = concat (map encode_patch (a_patches a)) /\
  cie_personality_offset (o_header o) = a_personality a /\ fde_count (o_header o) = a_fde_count a.

Lemma part_middle (l1 l2 l3 : list Z) n k : n = length l1 -> k = length l2 -> take k (drop n (l1 ++ l2 ++ l3)) = l2.
Proof. intros -> ->. by rewrite drop_app_length, take_app_length. Qed.

(** A file that was published opens for the binary it was made for, and for
    no other. *)
Lemma open_complete a st st' :
  art_ok a ->
  match open_mapped (complete a st) st' with
  | Some o => key_matches (fill_cache_key st) (fill_cache_key st') = true /\ gives o a
  | None => key_matches (fill_cache_key st) (fill_cache_key st') = false
  end.
Proof.
  intros Hok. pose proof (ao_sizes _ Hok) as Hsz. unfold open_mapped. cbv zeta.
  assert (Hlen : Z.of_nat (length (complete a st)) = 120 + Z.of_nat (length (payload_of a))).
  { unfold complete. rewrite length_app, encode_header_length. lia. }
  rewrite Hlen.
  assert (Ed : decode_header (complete a st) = final_header a st) by (apply decode_encode_header; by apply final_header_ok). rewrite Ed.
  assert (Epl : drop (Z.to_nat 120) (complete a st) = payload_of a).
  { unfold complete. change (Z.to_nat 120) with 120%nat. by rewrite <- (encode_header_length (final_header a st)), drop_app_length. }
  destruct (final_header_fields a st) as (F1&F2&F3&F4&F5&F6&F7&F8&F9&F10&F11).
  rewrite F1, F2, F3, F4, F5, F6, F7, F8, F9. change (Z.to_nat HEADER_SIZE) with (Z.to_nat 120). rewrite Epl, !Z.eqb_refl. cbn [negb orb].
  destruct (key_matches _ _) eqn:Ek; cbn [negb]; [|done].
  pose proof (payload_length a) as Hp. unfold HEADER_SIZE, PATCH_SIZE in *.
  rewrite !u64_small by (rewrite ?u64_small; lia). destruct (Z.eqb_spec (120 + Z.of_nat (length (a_eh_frame a)) + Z.of_nat (length (a_hdr_pairs a)) +
    Z.of_nat (length (a_patches a)) * 16) (120 + Z.of_nat (length (payload_of a)))) as [_|H]; [|lia]. cbn [negb].
  split; [done|]. unfold gives, part. cbn [o_eh_frame o_hdr_pairs o_patches o_header o_file].
  rewrite F6, F7, F8.
  unfold complete, payload_of. pose proof (encode_header_length (final_header a st)) as He. split; [|split; [|split]].
  - apply part_middle; lia.
  - rewrite (app_assoc (encode_header _)). rewrite (app_assoc (encode_header _ ++ _)). rewrite <- (app_assoc (encode_header _ ++ _)).
    apply part_middle; rewrite ?length_app; lia.
  - rewrite !app_assoc. rewrite <- (app_nil_r (concat _)) at 1. rewrite <- !app_assoc. rewrite (app_assoc (encode_header _)), (app_assoc (encode_header _ ++ _)).
    rewrite (part_middle _ (concat (map encode_patch (a_patches a))) []); [done|rewrite !length_app; lia|unfold PATCH_SIZE; rewrite patches_length; lia].
  - split; [exact F10|exact F11].
Qed.

(** ** Publishing among other processes *)

(** No file, or one that some publication finished. *)
Definition good (c : option node) : Prop :=
  match c with Some (Regular file) => exists a st, art_ok a /\ file = complete a st | _ => True end.

Section protocol.
Context (temp final : cstr) (Hne : temp <> final).

(** What the others do: nothing to this process's temporary file, and the
    cache file stays good. *)
Definition rely (d d' : fs) : Prop := d' temp = d temp /\ (good (d final) -> good (d' final)).

(** What this process does: only its temporary file and the cache file change,
    and the cache file stays good. *)
Definition guarantee (d d' : fs) : Prop :=
  (forall p, p <> temp -> p <> final -> d' p = d p) /\ (good (d final) -> good (d' final)).

Definition step_ok (s : fs * fs) : Prop := guarantee (fst s) (snd s) /\ good (fst s final) /\ good (snd s final).

(** [m], started with a temporary file that satisfies [pre], makes good steps
    only, and ends with [post]. *)
Definition safe {A} (m : IO A) (pre : option node -> Prop) (post : A -> fs -> Prop) : Prop := forall s,
  Forall (fun a => forall d, rely d (before a d)) (answers s) -> good (disk s final) -> pre (disk s temp) ->
  let '(r, s') := m s in
  Forall (fun a => forall d, rely d (before a d)) (answers s') /\ good (disk s' final) /\
  (exists l, steps s' = steps s ++ l /\ Forall step_ok l) /\
  match r with Some a => post a (disk s') | None => True end.

(** A postcondition on the temporary file only. *)
Definition on_temp {A} (post : A -> option node -> Prop) (a : A) (d : fs) : Prop := post a (d temp).

Lemma safe_ret {A} (a : A) (pre : option node -> Prop) : safe (ioret a) pre (fun r d => r = a /\ pre (d temp)).
Proof. intros s Ha Hg Hp. split; [done|]. split; [done|]. split; [exists []; split; [by rewrite app_nil_r|done]|done]. Qed.

Lemma safe_bind {A B} (m : IO A) (f : A -> IO B) pre mid post :
  safe m pre (on_temp mid) -> (forall a, safe (f a) (mid a) post) -> safe (iobind m f) pre post.
Proof.
  intros Hm Hf s Ha Hg Hp. unfold iobind. specialize (Hm s Ha Hg Hp). destruct (m s) as [[a|] s1].
  - destruct Hm as (Ha1&Hg1&(l1&E1&L1)&Hmid). specialize (Hf a s1 Ha1 Hg1 Hmid). destruct (f a s1) as [r s2].
    destruct Hf as (Ha2&Hg2&(l2&E2&L2)&Hpost). split; [done|]. split; [done|]. split; [|done].
    exists (l1 ++ l2). split; [by rewrite E2, E1, app_assoc|by apply Forall_app].
  - destruct Hm as (Ha1&Hg1&Hl&_). done.
Qed.

Lemma safe_weaken {A} (m : IO A) (pre pre' : option node -> Prop) (post post' : A -> fs -> Prop) :
  safe m pre' post' -> (forall c, pre c -> pre' c) -> (forall a d, post' a d -> post a d) -> safe m pre post.
Proof.
  intros H Hpre Hpost s Ha Hg Hp. specialize (H s Ha Hg (Hpre _ Hp)). destruct (m s) as [r s']. destruct H as (H1&H2&H3&H4).
  split; [done|]. split; [done|]. split; [done|]. destruct r; [by apply Hpost|done].
Qed.

Lemma safe_call {A} (f : outcome -> fs -> A * fs) pre post :
  (forall o d, pre (d temp) -> good (d final) -> let '(r, d') := f o d in guarantee d d' /\ post r d') -> safe (call f) pre post.
Proof.
  intros Hf s Ha Hg Hp. unfold call. destruct (answers s) as [|a l] eqn:Es.
  { rewrite Es. split; [constructor|]. split; [done|]. split; [exists []; split; [by rewrite app_nil_r|done]|done]. }
  apply Forall_cons in Ha as [Ha Hl]. destruct (Ha (disk s)) as [H1 H2]. specialize (Hf (how a) (before a (disk s))). rewrite H1 in Hf.
  specialize (Hf Hp (H2 Hg)). destruct (f (how a) (before a (disk s))) as [r d']. destruct Hf as [Hgu Hpost].
  assert (Hg' : good (d' final)) by (apply Hgu; by apply H2). cbn [disk answers steps].
  split; [done|]. split; [done|]. split; [|done]. eexists. split; [reflexivity|]. constructor; [|constructor]. split; [done|]. split; [by apply H2|done].
Qed.

Lemma guarantee_refl d : guarantee d d.
Proof. by split. Qed.

Lemma set_file_eq p v d : set_file p v d p = v.
Proof. unfold set_file. by rewrite decide_True. Qed.
Lemma set_file_ne p v d q : q <> p -> set_file p v d q = d q.
Proof. intros H. unfold set_file. by rewrite decide_False. Qed.

(** Changing the temporary file alone. *)
Lemma guarantee_temp v d : guarantee d (set_file temp v d).
Proof. split; [intros p H1 H2; by apply set_file_ne|]. by rewrite set_file_ne. Qed.

Lemma safe_try pre : safe try_call pre (on_temp (fun _ => pre)).
Proof. apply safe_call. intros o d Hp Hg. split; [apply guarantee_refl|done]. Qed.

Lemma safe_unlink : safe (unlink temp) (fun _ => True) (on_temp (fun _ _ => True)).
Proof.
  apply safe_call. intros o d _ _. split; [|done]. destruct (d temp) as [[f|]|]; [destruct (succeeds o); [apply guarantee_temp|]|..]; apply guarantee_refl.
Qed.

Lemma safe_open_trunc : safe (open_trunc temp) (fun _ => True) (on_temp (fun r c => r = true -> c = Some (Regular []))).
Proof.
  apply safe_call. intros o d _ _. destruct (d temp) as [[f|]|]; [destruct (succeeds o)|..|destruct (succeeds o)].
  all: (split; [apply guarantee_temp || apply guarantee_refl|]); try done; intros _; apply set_file_eq.
Qed.

Lemma write_at_end data file : write_at (length file) data file = file ++ data.
Proof.
  unfold write_at. rewrite Nat.sub_diag. cbn [repeat]. rewrite app_nil_r, take_ge, drop_ge, app_nil_r by lia. done.
Qed.

(** The file written so far, when all went well until now. *)
Definition tracked (ok : bool) (file : list Z) (pos : nat) (c : option node) : Prop := ok = true -> c = Some (Regular file) /\ pos = length file.

Lemma safe_write ok file pos data :
  safe (write temp pos data) (tracked ok file pos)
    (on_temp (fun r => match r with inl n => tracked ok (file ++ take n data) (pos + n) | inr _ => tracked ok file pos end)).
Proof.
  apply safe_call. intros o d Hp _. cbv zeta.
  assert (Hput : forall n, (n <= length data)%nat ->
    guarantee d (match d temp with Some (Regular f) => set_file temp (Some (Regular (write_at pos (take n data) f))) d | _ => d end) /\
    tracked ok (file ++ take n data) (pos + n) ((match d temp with Some (Regular f) => set_file temp (Some (Regular (write_at pos (take n data) f))) d | _ => d end) temp)).
  { intros n Hn. split; [destruct (d temp) as [[f|]|]; [apply guarantee_temp|apply guarantee_refl..]|]. intros Hok. destruct (Hp Hok) as [E ->].
    rewrite E, set_file_eq, write_at_end, length_app, length_take. split; [done|lia]. }
  destruct o as [|n| |]; try (apply Hput; lia); (split; [apply guarantee_refl|exact Hp]).
Qed.

Lemma safe_write_loop fuel : forall ok file pos data,
  safe (write_loop fuel temp pos data) (tracked ok file pos) (on_temp (fun r => tracked (ok && fst r) (file ++ data) (snd r))).
Proof.
  induction fuel as [|fuel IH]; intros ok file pos [|b data].
  - eapply safe_weaken; [apply safe_ret|done|]. intros r d [-> Hp]. unfold on_temp. cbn [fst snd]. by rewrite andb_true_r, app_nil_r.
  - intros s Ha Hg Hp. cbn [write_loop]. split; [done|]. split; [done|]. split; [exists []; split; [by rewrite app_nil_r|done]|done].
  - eapply safe_weaken; [apply safe_ret|done|]. intros r d [-> Hp]. unfold on_temp. cbn [fst snd]. by rewrite andb_true_r, app_nil_r.
  - cbn [write_loop]. eapply safe_bind; [apply (safe_write ok file)|]. intros [n|[|]].
    + eapply safe_weaken; [apply (IH ok (file ++ take n (b :: data)))|done|]. intros r d Ht. unfold on_temp in *. by rewrite <- app_assoc, take_drop in Ht.
    + apply IH.
    + eapply safe_weaken; [apply safe_ret|done|]. intros r d [-> _]. unfold on_temp. cbn [fst]. rewrite andb_false_r. done.
Qed.

Lemma safe_write_all ok file pos data :
  safe (write_all temp pos data) (tracked ok file pos) (on_temp (fun r => tracked (ok && fst r) (file ++ data) (snd r))).
Proof. intros s Ha Hg Hp. by apply (safe_write_loop _ ok file pos data s). Qed.

Lemma safe_append file data r :
  safe (append temp data r) (tracked (fst r) file (snd r)) (on_temp (fun r' => tracked (fst r') (file ++ data) (snd r'))).
Proof.
  unfold append. destruct data as [|b data].
  - eapply safe_weaken; [apply safe_ret|done|]. intros r' d [-> Hp]. unfold on_temp. by rewrite app_nil_r.
  - eapply safe_bind; [apply (safe_write_all (fst r) file)|]. intros r'. eapply safe_weaken; [apply safe_ret|done|]. by intros r'' d [-> Hp].
Qed.

(** Reading gives a prefix of what is there. *)
Lemma safe_read_loop fuel file : forall pos want,
  safe (read_loop fuel temp pos want) (fun c => c = Some (Regular file)) (on_temp (fun got c => c = Some (Regular file) /\ exists k, got = take k (drop pos file))).
Proof.
  assert (Hread : forall pos want, safe (read temp pos want) (fun c => c = Some (Regular file))
    (on_temp (fun r c => c = Some (Regular file) /\ match r with inl got => exists k, got = take k (drop pos file) | inr _ => True end))).
  { intros pos want. apply safe_call. intros o d E _. cbv zeta. rewrite E.
    destruct o as [|n| |]; (split; [apply guarantee_refl|split; [done|]]); try (by eexists); done. }
  assert (Hret : forall pos, safe (ioret []) (fun c => c = Some (Regular file)) (on_temp (fun got c => c = Some (Regular file) /\ exists k, got = take k (drop pos file)))).
  { intros pos. eapply safe_weaken; [apply (safe_ret _ (fun c => c = Some (Regular file)))|done|]. intros r d [-> Hp]. split; [done|]. by exists 0%nat. }
  induction fuel as [|fuel IH]; intros pos [|want]; cbn [read_loop]; try apply Hret.
  { intros s Ha Hg Hp. split; [done|]. split; [done|]. split; [exists []; split; [by rewrite app_nil_r|done]|done]. }
  eapply safe_bind; [apply Hread|]. intros [[|b got]|[|]].
  - eapply safe_weaken; [apply (Hret pos)|by intros c [E _]|intros a0 d0 Hx; exact Hx].
  - eapply safe_weaken with (pre' := fun c => c = Some (Regular file) /\ exists k, b :: got = take k (drop pos file)); [|done|intros a d Hx; exact Hx].
    intros s Ha Hg [Hp (k&Hk)]. revert s Ha Hg Hp.
    enough (Hs : safe (iobind (read_loop fuel temp (pos + length (b :: got)) (S want - length (b :: got))) (fun rest => ioret ((b :: got) ++ rest)))
      (fun c => c = Some (Regular file)) (on_temp (fun g c => c = Some (Regular file) /\ exists k, g = take k (drop pos file)))) by exact Hs.
    eapply safe_bind; [apply IH|]. intros rest. eapply safe_weaken; [apply (safe_ret _ (fun c => c = Some (Regular file) /\ exists k, rest = take k (drop (pos + length (b :: got)) file)))|done|]. intros r d [-> [E (k'&Hk')]]. split; [done|].
    exists (length (b :: got) + k')%nat. rewrite Hk', <- take_take_drop, drop_drop. f_equal.
    rewrite Hk, length_take. destruct (Nat.le_ge_cases k (length (drop pos file))) as [Hle|Hle].
    + by rewrite Nat.min_l.
    + rewrite Nat.min_r, !take_ge by lia. done.
  - eapply safe_weaken; [apply IH|by intros c [E _]|intros a0 d0 Hx; exact Hx].
  - eapply safe_weaken; [apply (Hret pos)|by intros c [E _]|intros a0 d0 Hx; exact Hx].
Qed.

Lemma safe_read_all file pos want :
  safe (read_all temp pos want) (fun c => c = Some (Regular file)) (on_temp (fun got c => c = Some (Regular file) /\ exists k, got = take k (drop pos file))).
Proof. intros s Ha Hg Hp. by apply (safe_read_loop _ file pos want s). Qed.

Lemma safe_give_up (pre : option node -> Prop) (post : bool -> fs -> Prop) : (forall d, post false d) -> safe (give_up_on temp) pre post.
Proof.
  intros Hpost. eapply safe_bind; [eapply safe_weaken; [apply safe_unlink|done|intros a d Hx; exact Hx]|].
  intros []. eapply safe_weaken; [apply (safe_ret false (fun _ => True))|done|]. by intros r d [-> _].
Qed.

(** Rewriting the header in place. *)
Lemma safe_pwrite data old rest :
  length old = length data ->
  safe (write temp 0 data) (fun c => c = Some (Regular (old ++ rest)))
    (on_temp (fun r c => match r with inl n => n = length data -> c = Some (Regular (data ++ rest)) | inr _ => True end)).
Proof.
  intros Hl. apply safe_call. intros o d E _. cbv zeta. rewrite E.
  assert (Hput : forall n, (n <= length data)%nat -> guarantee d (set_file temp (Some (Regular (write_at 0 (take n data) (old ++ rest)))) d) /\
    (n = length data -> set_file temp (Some (Regular (write_at 0 (take n data) (old ++ rest)))) d temp = Some (Regular (data ++ rest)))).
  { intros n Hn. split; [apply guarantee_temp|]. intros ->. rewrite set_file_eq, take_ge by lia. unfold write_at. cbn [take Nat.add].
    by rewrite <- Hl, drop_app_length. }
  destruct o as [|n| |]; try (apply Hput; lia); (split; [apply guarantee_refl|done]).
Qed.

Lemma safe_rename a st :
  art_ok a -> safe (rename temp final) (fun c => c = Some (Regular (complete a st))) (fun r d => r = true -> d final = Some (Regular (complete a st))).
Proof.
  intros Ha. apply safe_call. intros o d E _. rewrite E.
  assert (Hf : set_file temp None (set_file final (Some (Regular (complete a st))) d) final = Some (Regular (complete a st))).
  { rewrite set_file_ne by done. apply set_file_eq. }
  assert (Hr : guarantee d (set_file temp None (set_file final (Some (Regular (complete a st))) d))).
  { split; [intros p H1 H2; by rewrite !set_file_ne|]. intros _. rewrite Hf. by exists a, st. }
  destruct (d final) as [[f|]|]; destruct (succeeds o); by (split; [apply guarantee_refl || done|]).
Qed.

Lemma safe_if {A} (b : bool) (m1 m2 : IO A) pre post : (b = true -> safe m1 pre post) -> (b = false -> safe m2 pre post) -> safe (if b then m1 else m2) pre post.
Proof. destruct b; auto. Qed.

Lemma safe_finish a st :
  art_ok a ->
  safe (finish_publish temp final (new_header a st) (length (payload_of a))) (fun c => c = Some (Regular (encode_header (new_header a st) ++ payload_of a)))
    (fun r d => r = true -> d final = Some (Regular (complete a st))).
Proof.
  intros Ha. unfold finish_publish. set (file := encode_header (new_header a st) ++ payload_of a).
  assert (Hup : forall pre, safe (give_up_on temp) pre (fun r d => r = true -> d final = Some (Regular (complete a st)))) by (intros pre; apply safe_give_up; intros d H; discriminate H).
  eapply safe_bind; [apply (safe_try (fun c => c = Some (Regular file)))|intros buffer]. apply safe_if; intros _; [apply Hup|].
  eapply safe_bind; [apply (safe_try (fun c => c = Some (Regular file)))|intros checksum_fd].
  eapply safe_bind with (mid := fun got c => c = Some (Regular file) /\ exists k, got = take k (drop (Z.to_nat HEADER_SIZE) file)).
  { destruct checksum_fd; [apply safe_read_all|]. eapply safe_weaken; [apply (safe_ret _ (fun c => c = Some (Regular file)))|done|].
    intros r d [-> Hp]. split; [done|]. by exists 0%nat. }
  intros payload.
  eapply safe_bind; [apply (safe_try (fun c => c = Some (Regular file) /\ exists k, payload = take k (drop (Z.to_nat HEADER_SIZE) file)))|intros closing].
  apply safe_if; intros Hlen; [apply Hup|].
  eapply safe_weaken with (pre' := fun c => payload = payload_of a /\ c = Some (Regular file)); [| |intros r d Hx; exact Hx].
  2: { intros c [Hc (k&Hk)]. split; [|done]. apply negb_false_iff, Nat.eqb_eq in Hlen.
       assert (Hd : drop (Z.to_nat HEADER_SIZE) file = payload_of a).
       { unfold file. change (Z.to_nat HEADER_SIZE) with 120%nat. by rewrite <- (encode_header_length (new_header a st)), drop_app_length. }
       rewrite Hd in Hk. rewrite Hk in Hlen |- *. rewrite length_take in Hlen. by rewrite take_ge by lia. }
  intros s Hs Hg [-> Hc]. revert s Hs Hg Hc.
  match goal with |- forall s, _ -> _ -> _ -> let '(r, s') := ?m s in _ => enough (Hm : safe m (fun c => c = Some (Regular file)) (fun r d => r = true -> d final = Some (Regular (complete a st)))) by exact Hm end.
  cbv zeta. fold (final_header a st).
  eapply safe_bind; [apply (safe_try (fun c => c = Some (Regular file)))|intros patch_fd]. apply safe_if; intros _; [apply Hup|].
  eapply safe_bind; [apply (safe_pwrite (encode_header (final_header a st)) (encode_header (new_header a st)) (payload_of a)); by rewrite !encode_header_length|].
  intros written. eapply safe_bind; [apply safe_try|intros synced]. eapply safe_bind; [apply safe_try|intros closed].
  apply safe_if; intros Hall; [apply Hup|]. apply negb_false_iff in Hall. apply andb_prop in Hall as [Hall _]. apply andb_prop in Hall as [Hw _].
  destruct written as [n|]; [|done]. apply Nat.eqb_eq in Hw.
  eapply safe_weaken with (pre' := fun c => c = Some (Regular (complete a st))); [|intros c Hc; by apply Hc|intros r d Hx; exact Hx].
  unfold iobind at 1. intros s Hs Hg Hc. pose proof (safe_rename a st Ha s Hs Hg Hc) as Hr. destruct (rename temp final s) as [[r|] s1]; [|done].
  destruct Hr as (H1&H2&(l&E&L)&H3). destruct r; cbn [negb].
  - split; [done|]. split; [done|]. split; [by exists l|]. intros _. by apply H3.
  - pose proof (Hup (fun _ => True) s1 H1 H2 I) as Hu. destruct (give_up_on temp s1) as [r2 s2]. destruct Hu as (U1&U2&(l2&E2&L2)&U3).
    split; [done|]. split; [done|]. split; [|done]. exists (l ++ l2). split; [by rewrite E2, E, app_assoc|by apply Forall_app].
Qed.
End protocol.

(** ** A whole publication *)

Lemma firstn_max (n : nat) (l : cstr) : (length (firstn n l) <= n)%nat.
Proof. rewrite length_firstn. lia. Qed.

(** The temporary path is longer than the final one. *)
Lemma longer_path (final tail : cstr) : (length final <= 4095)%nat -> (1 <= length tail)%nat -> firstn 4199 (final ++ tail) <> final.
Proof. intros Hl Ht H%(f_equal length). rewrite length_firstn, !length_app in H. lia. Qed.

Lemma temp_not_final E final : (length final <= 4095)%nat -> temp_path_of E final <> final.
Proof. intros Hl. apply longer_path; [done|]. rewrite length_app. change (length (str ".tmp.")) with 5%nat. lia. Qed.

Lemma probe_not_final E final : (length final <= 4095)%nat -> probe_path E final <> final.
Proof. intros Hl. apply longer_path; [done|]. rewrite length_app. change (length (str ".probe.")) with 7%nat. lia. Qed.

Lemma safe_publish_to E a st final :
  art_ok a -> (length final <= 4095)%nat ->
  safe (temp_path_of E final) final (publish_to E a st final) (fun _ => True) (fun r d => r = true -> d final = Some (Regular (complete a st))).
Proof.
  intros Ha Hl. pose proof (temp_not_final E final Hl) as Hne. unfold publish_to. set (temp := temp_path_of E final) in *. cbv zeta.
  eapply safe_bind; [by apply safe_open_trunc|]. intros [|]; cbn [negb].
  2: { eapply safe_weaken; [apply (safe_ret _ _ false (fun _ => True))|done|]. intros r d [-> _] H. discriminate H. }
  eapply safe_bind with (mid := fun r => tracked (fst r) ([] ++ encode_header (new_header a st)) (snd r)).
  { eapply safe_weaken; [apply (safe_write_all _ _ Hne true [])|intros c Hc _; by rewrite (Hc eq_refl)|intros r d Hx; exact Hx]. }
  intros r1. eapply safe_bind; [by apply safe_append|]. intros r2. eapply safe_bind; [by apply safe_append|]. intros r3.
  eapply safe_bind; [by apply safe_append|]. intros r4. eapply safe_bind; [apply safe_try|intros synced]. eapply safe_bind; [apply safe_try|intros closed].
  apply safe_if; intros Hall.
  { apply safe_give_up; [done|]. intros d H. discriminate H. }
  apply negb_false_iff in Hall. apply andb_prop in Hall as [Hall _]. apply andb_prop in Hall as [Hr _].
  eapply safe_weaken; [by apply (safe_finish _ _ Hne a st Ha)| |intros r d Hx; exact Hx].
  intros c Hc. destruct (Hc Hr) as [-> _]. unfold payload_of. cbn [app]. by rewrite <- !app_assoc.
Qed.

(** ** The place of the cache, among other processes *)

(** [m] from [s], when the others move the disk by [R]: what it returns, the
    steps it makes and the disk it leaves. *)
Definition respects (R : fs -> fs -> Prop) (l : list answer) : Prop := Forall (fun a => forall d, R d (before a d)) l.
Definition runs {A} (R : fs -> fs -> Prop) (m : IO A) (s : io) (Q : option A -> list (fs * fs) -> fs -> Prop) : Prop :=
  let '(r, s') := m s in respects R (answers s') /\ exists l, steps s' = steps s ++ l /\ Q r l (disk s').

Lemma runs_ret {A} R (a : A) s (Q : option A -> _ -> _ -> Prop) : respects R (answers s) -> Q (Some a) [] (disk s) -> runs R (ioret a) s Q.
Proof. intros Ha Hq. split; [done|]. exists []. by rewrite app_nil_r. Qed.

Lemma runs_bind {A B} R (m : IO A) (f : A -> IO B) s (Q : option B -> _ -> _ -> Prop) :
  runs R m s (fun r l d => match r with
    | None => Q None l d
    | Some a => forall s1, respects R (answers s1) -> disk s1 = d -> runs R (f a) s1 (fun r l' d' => Q r (l ++ l') d')
    end) -> runs R (iobind m f) s Q.
Proof.
  unfold runs, iobind. destruct (m s) as [[a|] s1]; [|done]. intros (Ha&l&El&Hq). specialize (Hq s1 Ha eq_refl).
  destruct (f a s1) as [r s2]. destruct Hq as (Ha2&l2&El2&Hq2). split; [done|]. exists (l ++ l2). by rewrite El2, El, app_assoc.
Qed.

Lemma runs_call {A} R (f : outcome -> fs -> A * fs) s (Q : option A -> _ -> _ -> Prop) :
  respects R (answers s) -> Q None [] (disk s) ->
  (forall o d, R (disk s) d -> Q (Some (fst (f o d))) [(d, snd (f o d))] (snd (f o d))) -> runs R (call f) s Q.
Proof.
  intros Ha H0 Hf. unfold runs, call. destruct (answers s) as [|a l] eqn:El.
  { rewrite El. split; [done|]. exists []. by rewrite app_nil_r. }
  apply Forall_cons in Ha as [Ha Hl]. specialize (Hf (how a) (before a (disk s)) (Ha _)).
  destruct (f (how a) (before a (disk s))) as [r d']. split; [done|]. by exists [(before a (disk s), d')].
Qed.

Lemma runs_weaken {A} R (m : IO A) s (Q Q' : option A -> list (fs * fs) -> fs -> Prop) :
  runs R m s Q -> (forall r l d, Q r l d -> Q' r l d) -> runs R m s Q'.
Proof. unfold runs. destruct (m s) as [r s']. intros (Ha&l&El&Hq) H. split; [done|]. exists l. auto. Qed.

Section building.
Context (E : environment) (binary_path : cstr) (st : stat).

Definition sidecar : cstr := build_sidecar_path binary_path st.
Definition fallback : cstr := build_fallback_path E binary_path st.
Definition parents : list cstr := omap parent_directory [sidecar; fallback].

(** What the others do: nothing to this process's probe and temporary files,
    and both cache files stay good. *)
Definition others (d d' : fs) : Prop :=
  d' (probe_path E sidecar) = d (probe_path E sidecar) /\
  rely (temp_path_of E sidecar) sidecar d d' /\ rely (temp_path_of E fallback) fallback d d'.

(** What a call changes at the path [p], when the cache file is [final]: the
    temporary and the cache file; the directory of a cache file is made where
    nothing was; the probe file appears, empty, where nothing was, and only an
    empty file is removed from its place. *)
Definition touched (final p : cstr) (c c' : option node) : Prop :=
  c' = c \/ p = temp_path_of E final \/ p = final \/ (In p parents /\ c = None /\ c' = Some Directory) \/
  (p = probe_path E sidecar /\ ((c = None /\ c' = Some (Regular [])) \/ (c = Some (Regular []) /\ c' = None))).

(** A call of this process: the cache file is good before and after it. *)
Definition own_step (final : cstr) (s : fs * fs) : Prop :=
  good (fst s final) /\ good (snd s final) /\ forall p, touched final p (fst s p) (snd s p).

Lemma same_step final d : good (d final) -> own_step final (d, d).
Proof. intros Hg. split; [done|]. split; [done|]. by left. Qed.

Lemma sidecar_length : (length sidecar <= 4095)%nat.
Proof. apply firstn_max. Qed.
Lemma fallback_length : (length fallback <= 4095)%nat.
Proof. apply firstn_max. Qed.

(** Making a directory. *)
Lemma mkdir_good o parent d final : good (d final) ->
  good ((match d parent with None => if succeeds o then set_file parent (Some Directory) d else d | Some _ => d end) final).
Proof.
  intros Hg. destruct (d parent) eqn:Ep; [done|]. destruct (succeeds o); [|done].
  unfold set_file. destruct (decide (final = parent)); done.
Qed.

Lemma mkdir_step o parent d final : In parent parents -> good (d final) ->
  own_step final (d, match d parent with None => if succeeds o then set_file parent (Some Directory) d else d | Some _ => d end).
Proof.
  intros Hin Hg. split; [done|]. split; [by apply mkdir_good|]. intros p. cbn [fst snd]. destruct (d parent) eqn:Ep; [by left|].
  destruct (succeeds o); [|by left]. unfold set_file. destruct (decide (p = parent)) as [->|]; [|by left]. right. right. right. by left.
Qed.

(** What holds at the disk [d] after the steps [l], for the cache file
    [final]. *)
Definition kept (final : cstr) (l : list (fs * fs)) (d : fs) : Prop := Forall (own_step final) l /\ good (d final).

Lemma others_good d d' : others d d' -> (good (d sidecar) -> good (d' sidecar)) /\ (good (d fallback) -> good (d' fallback)).
Proof. by intros (_&[_ H1]&[_ H2]). Qed.

Lemma ensure_runs file s : parent_directory file = None \/ (exists parent, parent_directory file = Some parent /\ In parent parents) ->
  respects others (answers s) -> good (disk s sidecar) -> good (disk s fallback) ->
  runs others (ensure_parent_directory file) s (fun _ l d => kept sidecar l d /\ kept fallback l d).
Proof.
  intros Hp Ha Hs Hf. unfold ensure_parent_directory, kept. destruct (parent_directory file) as [parent|] eqn:Ep.
  - assert (Hin : In parent parents) by (destruct Hp as [?|(?&[= ->]&?)]; done). apply runs_call; [done|split; by split|].
    intros o d [H1 H2]%others_good. specialize (H1 Hs). specialize (H2 Hf). cbn [fst snd].
    split; (split; [constructor; [by apply mkdir_step|done]|by apply mkdir_good]).
  - apply runs_ret; [done|]. by split; split.
Qed.

Lemma parent_in file : file = sidecar \/ file = fallback ->
  parent_directory file = None \/ (exists parent, parent_directory file = Some parent /\ In parent parents).
Proof.
  intros Hf. destruct (parent_directory file) as [parent|] eqn:Ep; [|by left]. right. exists parent. split; [done|].
  apply list_elem_of_In, list_elem_of_omap. exists file. split; [|done]. destruct Hf as [->| ->]; [by left|by right; left].
Qed.

(** The probe file is removed again. *)
Lemma unprobe_runs s : respects others (answers s) -> good (disk s sidecar) -> disk s (probe_path E sidecar) = Some (Regular []) ->
  runs others (io! _ := try_call in io! _ := unlink (probe_path E sidecar) in ioret true) s (fun r l d => kept sidecar l d /\ r <> Some false).
Proof.
  intros Ha Hs Hp. pose proof (probe_not_final E sidecar sidecar_length) as Hne. set (probe := probe_path E sidecar) in *.
  eapply runs_bind, runs_call; [done|by split|]. intros o d Hd s1 Ha1 E1. cbn [fst snd] in *. destruct (others_good _ _ Hd) as [H1 _].
  destruct Hd as [Hd _]. fold probe in Hd. specialize (H1 Hs).
  eapply runs_bind, runs_call; [done|split; [split; [constructor; [by apply same_step|done]|by rewrite E1]|done]|].
  intros o2 d2 Hd2 s2 Ha2 E2. rewrite E1 in Hd2. destruct (others_good _ _ Hd2) as [H2 _]. destruct Hd2 as [Hd2 _]. fold probe in Hd2. specialize (H2 H1).
  rewrite Hd2, Hd, Hp in E2 |- *. cbn [fst snd] in *. apply runs_ret; [done|]. rewrite E2.
  assert (Hg : good ((if succeeds o2 then set_file probe None d2 else d2) sidecar)) by (destruct (succeeds o2); [by rewrite set_file_ne|done]).
  split; [|done]. split; [|done]. constructor; [by apply same_step|]. constructor; [|done]. split; [done|]. split; [done|].
  intros p. cbn [fst snd]. destruct (succeeds o2); [|by left]. unfold set_file. destruct (decide (p = probe)) as [->|]; [|by left].
  right. right. right. right. split; [done|]. right. by rewrite Hd2, Hd.
Qed.

(** Where the probe works, the cache file beside the binary is used; where it
    does not, nothing but directories has changed. *)
Lemma probe_runs s : respects others (answers s) -> good (disk s sidecar) -> good (disk s fallback) ->
  runs others (sidecar_path_is_writable E sidecar) s (fun r l d => kept sidecar l d /\ (r = Some false -> kept fallback l d /\ good (d sidecar))).
Proof.
  intros Ha Hs Hf. pose proof sidecar_length as Hl. pose proof (probe_not_final E sidecar Hl) as Hne. unfold sidecar_path_is_writable. set (probe := probe_path E sidecar) in *.
  eapply runs_bind, runs_weaken; [by apply ensure_runs; [apply parent_in; left|..]|].
  intros [[]|] l d [H1 H2]; [|by split]. intros s1 Ha1 <-. destruct H1 as [L1 G1], H2 as [L2 G2].
  eapply runs_bind, runs_call; [done|by rewrite app_nil_r|]. intros o d Hd. pose proof (others_good _ _ Hd) as [H3 H4]. specialize (H3 G1). specialize (H4 G2).
  assert (Hsame : kept sidecar (l ++ [(d, d)]) d /\ kept fallback (l ++ [(d, d)]) d).
  { split; (split; [apply Forall_app; split; [done|constructor; [by apply same_step|done]]|done]). }
  destruct (d probe) as [n|] eqn:Ep; [|destruct (succeeds o)]; cbn [fst snd].
  1, 3: intros s2 Ha2 E2; apply runs_ret; [done|]; rewrite app_nil_r, E2; destruct Hsame as [K1 K2]; split; [done|intros _; split; [done|apply K1]].
  assert (Hp : set_file probe (Some (Regular [])) d sidecar = d sidecar) by by apply set_file_ne.
  assert (Hmade : own_step sidecar (d, set_file probe (Some (Regular [])) d)).
  { split; [done|]. split; [cbn [snd]; by rewrite Hp|]. intros p. cbn [fst snd]. unfold set_file. destruct (decide (p = probe)) as [->|]; [|by left].
    right. right. right. right. split; [done|left; by rewrite Ep]. }
  intros s2 Ha2 E2. assert (G3 : good (disk s2 sidecar)) by by rewrite E2, Hp. assert (P3 : disk s2 probe = Some (Regular [])) by by rewrite E2, set_file_eq.
  eapply runs_weaken; [by apply unprobe_runs|]. intros r l3 d3 [[L3 G4] Hr]. split; [|done]. split; [|done].
  apply Forall_app. split; [done|]. by constructor.
Qed.

(** The place of the cache is one of the two, and the file there stays good. *)
Lemma build_runs s : respects others (answers s) -> good (disk s sidecar) -> good (disk s fallback) ->
  runs others (build_cache_path E binary_path st) s
    (fun r l d => exists final, (final = sidecar \/ final = fallback) /\ kept final l d /\ (forall f, r = Some f -> f = final)).
Proof.
  intros Ha Hs Hf. unfold build_cache_path. fold sidecar fallback. cbv zeta.
  eapply runs_bind, runs_weaken; [by apply probe_runs|]. intros [[|]|] l d [H1 H2].
  - intros s1 Ha1 <-. apply runs_ret; [done|]. rewrite app_nil_r. exists sidecar. split; [by left|]. split; [done|]. by intros f [= <-].
  - destruct (H2 eq_refl) as [[L2 G2] G1]. intros s1 Ha1 <-. eapply runs_bind, runs_weaken; [apply ensure_runs; [apply parent_in; by right|done..]|].
    intros r l2 d2 [_ [L3 G3]]. assert (Hk : kept fallback (l ++ l2) d2) by (split; [by apply Forall_app|done]). destruct r as [[]|].
    + intros s2 Ha2 E2. apply runs_ret; [done|]. rewrite app_nil_r, E2. exists fallback. split; [by right|]. split; [done|]. by intros f [= <-].
    + exists fallback. split; [by right|]. split; [done|]. done.
  - exists sidecar. split; [by left|]. by split.
Qed.
End building.

(** The calls of a publication once its place is known. *)
Lemma publish_to_own E a path st final s :
  art_ok a -> final = sidecar path st \/ final = fallback E path st -> respects (others E path st) (answers s) -> good (disk s final) ->
  let '(r, s') := publish_to E a st final s in
  good (disk s' final) /\ (exists l, steps s' = steps s ++ l /\ Forall (own_step E path st final) l) /\
  (r = Some true -> disk s' final = Some (Regular (complete a st))).
Proof.
  intros Ha Hf Hs Hg. assert (Hl : (length final <= 4095)%nat) by (destruct Hf as [->| ->]; [apply sidecar_length|apply fallback_length]).
  assert (Hrely : Forall (fun x => forall d, rely (temp_path_of E final) final d (before x d)) (answers s)).
  { eapply Forall_impl; [exact Hs|]. intros x Hx d. destruct (Hx d) as (_&H1&H2). by destruct Hf as [->| ->]. }
  pose proof (safe_publish_to E a st final Ha Hl s Hrely Hg I) as H. destruct (publish_to E a st final s) as [r s'].
  destruct H as (_&G&(l&El&L)&Hr). split; [done|]. split; [|intros ->; by apply Hr]. exists l. split; [done|].
  eapply Forall_impl; [exact L|]. intros [d d'] ((H1&_)&B1&B2). split; [done|]. split; [done|]. intros p. cbn [fst snd] in *.
  destruct (decide (p = temp_path_of E final)) as [->|]; [right; by left|]. destruct (decide (p = final)) as [->|]; [right; right; by left|].
  left. by apply H1.
Qed.

(** Such calls leave the files of other publications alone. *)
Lemma own_steps E path st final l : Forall (own_step E path st final) l ->
  Forall (fun '(d, d') => good (d final) /\ good (d' final) /\ (forall p, touched E path st final p (d p) (d' p)) /\
    (forall temp', ~ In temp' (temp_path_of E final :: final :: probe_path E (sidecar path st) :: parents E path st) -> rely temp' final d d')) l.
Proof.
  intros H. eapply Forall_impl; [exact H|]. intros [d d'] (H1&H2&H3). cbn [fst snd] in *. split; [done|]. split; [done|]. split; [done|].
  intros t Ht. cbn [In] in Ht. split; [|done]. destruct (H3 t) as [?|[->|[->|[(?&_)|(->&_)]]]]; [done|tauto..].
Qed.

(** C17. Publishing is atomic for every reader.  Let other processes do what
    they like between any two system calls of a publication, as long as they
    leave its probe and temporary files alone and keep the two possible cache
    files absent or complete; let every call of it succeed, transfer less than
    asked, be interrupted or fail.  Then the cache file it works on, beside
    the binary or in the user's cache, is absent or complete before and after
    every call.  A call changes nothing but that file, its temporary file, the
    directories of the two cache files, which are made where nothing was, and
    the probe file, which appears empty where nothing was and is removed only
    empty; so the publication disturbs no other publication of the same file.
    When it reports success the cache file is the complete file of its own
    artifacts. *)
Theorem publish_atomic E a path st s :
  art_ok a -> startup_cache_enabled E = true ->
  respects (others E path st) (answers s) -> good (disk s (sidecar path st)) -> good (disk s (fallback E path st)) ->
  let '(r, s') := startup_cache_publish E a path st s in
  exists final, (final = sidecar path st \/ final = fallback E path st) /\ good (disk s' final) /\
  (exists l, steps s' = steps s ++ l /\
     Forall (fun '(d, d') => good (d final) /\ good (d' final) /\ (forall p, touched E path st final p (d p) (d' p)) /\
       (forall temp', ~ In temp' (temp_path_of E final :: final :: probe_path E (sidecar path st) :: parents E path st) -> rely temp' final d d')) l) /\
  (r = Some true -> disk s' final = Some (Regular (complete a st))).
Proof.
  intros Ha He Hs G1 G2. unfold startup_cache_publish. rewrite He. cbn [negb]. unfold iobind.
  pose proof (build_runs E path st s Hs G1 G2) as Hb. unfold runs in Hb. destruct (build_cache_path E path st s) as [r1 s1].
  destruct Hb as (Hs1&l1&El1&final&Hf&[L1 G]&Hr). destruct r1 as [f|].
  - rewrite (Hr f eq_refl). clear Hr. pose proof (publish_to_own E a path st final s1 Ha Hf Hs1 G) as Hp.
    destruct (publish_to E a st final s1) as [r s']. destruct Hp as (G'&(l2&El2&L2)&Hdone). exists final. split; [done|]. split; [done|]. split; [|done].
    exists (l1 ++ l2). split; [by rewrite El2, El1, app_assoc|]. apply (own_steps E path st), Forall_app. by split.
  - exists final. split; [done|]. split; [done|]. split; [|done]. exists l1. split; [done|]. by apply (own_steps E path st).
Qed.

(** ** A run *)

Definition demo_env : environment := mk_env (fun _ => None) (fun _ => None) 42.
Definition demo_art : artifacts := mk_art [1; 2; 3] [4; 5; 6; 7; 8; 9; 10; 11] 7 [mk_patch 4096 0xd503201f 1] 2.
Definition demo_stat : stat := mk_stat 1 2 3 4 5.
Definition demo_path : cstr := str "/games/app".
Definition quiet (o : outcome) : answer := mk_answer (fun d => d) o.

(** After the probe a short write, an interrupted call, then no trouble. *)
Definition demo_io : io := mk_io (fun _ => None) [] (map quiet ([Ok; Ok; Ok; Ok; Ok; Count 7; Eintr] ++ repeat Ok 20)).

Lemma demo_art_ok : art_ok demo_art.
Proof. split; [done|]. by split. Qed.

Lemma demo_respects l : respects (others demo_env demo_path demo_stat) (map quiet l).
Proof. apply Forall_forall. intros x (o&->&_)%list_elem_of_fmap d. by repeat split. Qed.

Lemma publish_atomic_witness :
  fst (startup_cache_publish demo_env demo_art demo_path demo_stat demo_io) = Some true /\
  (let '(r, s') := startup_cache_publish demo_env demo_art demo_path demo_stat demo_io in
   exists final, disk s' final = Some (Regular (complete demo_art demo_stat))).
Proof.
  assert (Hr : fst (startup_cache_publish demo_env demo_art demo_path demo_stat demo_io) = Some true) by (vm_compute; reflexivity).
  split; [exact Hr|].
  pose proof (publish_atomic demo_env demo_art demo_path demo_stat demo_io demo_art_ok eq_refl (demo_respects _) I I) as H.
  destruct (startup_cache_publish demo_env demo_art demo_path demo_stat demo_io) as [r s']. destruct H as (final&_&_&_&H). exists final. apply H. exact Hr.
Defined.

(** ** Reading back *)

(** The two binaries have the same device, inode, size and modification
    time, as 64-bit words. *)
Definition same_binary (st st' : stat) : Prop :=
  st_dev st mod 2 ^ 64 = st_dev st' mod 2 ^ 64 /\ st_ino st mod 2 ^ 64 = st_ino st' mod 2 ^ 64 /\ st_size st mod 2 ^ 64 = st_size st' mod 2 ^ 64 /\
  st_mtim_sec st mod 2 ^ 64 = st_mtim_sec st' mod 2 ^ 64 /\ st_mtim_nsec st mod 2 ^ 64 = st_mtim_nsec st' mod 2 ^ 64.

Lemma key_matches_same st st' : key_matches (fill_cache_key st) (fill_cache_key st') = true <-> same_binary st st'.
Proof. unfold key_matches, same_binary. cbn [dev ino size mtime_sec mtime_nsec fill_cache_key]. unfold u64. rewrite !andb_true_iff, !Z.eqb_eq. tauto. Qed.

Lemma open_same a st st' : art_ok a ->
  match open_mapped (complete a st) st' with Some o => same_binary st st' /\ gives o a | None => ~ same_binary st st' end.
Proof.
  intros Ha. pose proof (open_complete a st st' Ha) as H. destruct (open_mapped _ _); rewrite <- key_matches_same; [done|]. by rewrite H.
Qed.

Lemma complete_length a st : HEADER_SIZE <= Z.of_nat (length (complete a st)).
Proof. unfold complete. rewrite length_app, encode_header_length. unfold HEADER_SIZE. lia. Qed.

(** Whatever the others do, what a start finds is a publication of its own
    binary. *)
Lemma open_found E path st s : startup_cache_enabled E = true ->
  respects (others E path st) (answers s) -> good (disk s (sidecar path st)) -> good (disk s (fallback E path st)) ->
  match fst (startup_cache_open E path st s) with
  | Some (Some o) => exists a st0, art_ok a /\ same_binary st0 st /\ gives o a
  | _ => True
  end.
Proof.
  intros He Hs G1 G2. unfold startup_cache_open. rewrite He. cbn [negb].
  enough (H : runs (others E path st) (io! cache := build_cache_path E path st in io! fd := open_read cache in
    match fd with
    | None => ioret None
    | Some file =>
        io! cache_st := try_call in
        if negb cache_st || (Z.of_nat (length file) <? HEADER_SIZE) then io! _ := try_call in ioret None
        else io! mapping := try_call in io! _ := try_call in ioret (if mapping then open_mapped file st else None)
    end) s (fun r _ _ => match r with Some (Some o) => exists a st0, art_ok a /\ same_binary st0 st /\ gives o a | _ => True end)).
  { unfold runs in H. destruct (iobind _ _ s) as [r s']. destruct H as (_&l&_&H). exact H. }
  eapply runs_bind, runs_weaken; [by apply build_runs|]. intros [f|] l d (final&Hf&[_ G]&Hr); [|done]. specialize (Hr f eq_refl). subst f. intros s1 Hs1 <-.
  eapply runs_bind, runs_call; [done|done|]. intros o d Hd s2 Hs2 E2. cbn [fst snd] in *.
  assert (Gd : good (d final)) by (destruct Hd as (_&[_ H1]&[_ H2]); destruct Hf as [->| ->]; auto).
  assert (Hnone : forall s, respects (others E path st) (answers s) -> runs (others E path st) (ioret (None : option opened)) s
    (fun r _ _ => match r with Some (Some o) => exists a st0, art_ok a /\ same_binary st0 st /\ gives o a | _ => True end)) by (intros s3 Hs3; by apply runs_ret).
  destruct (succeeds o); [|by apply Hnone]. destruct (d final) as [[file|]|]; [|by apply Hnone..]. destruct Gd as (a&st0&Ha&->).
  eapply runs_bind, runs_call; [done|done|]. intros o3 d3 _ s3 Hs3 E3. destruct (_ || _).
  - eapply runs_bind, runs_call; [done|done|]. intros o4 d4 _ s4 Hs4 E4. by apply Hnone.
  - eapply runs_bind, runs_call; [done|done|]. intros o4 d4 _ s4 Hs4 E4. eapply runs_bind, runs_call; [done|done|]. intros o5 d5 _ s5 Hs5 E5.
    destruct (fst (succeeds o4, d4)); [|by apply Hnone]. apply runs_ret; [done|]. pose proof (open_same a st0 st Ha) as H.
    destruct (open_mapped _ _) as [op|]; [|done]. by exists a, st0.
Qed.

(** Calls that succeed, with nobody else at work. *)
Definition quiet_io (d : fs) (n : nat) : io := mk_io d [] (repeat (quiet Ok) n).

(** Nothing is at the probe's place and the directory of the cache file is
    there. *)
Definition undisturbed (E : environment) (path : cstr) (st : stat) (d : fs) : Prop :=
  d (probe_path E (sidecar path st)) = None /\ match parent_directory (sidecar path st) with Some parent => d parent <> None | None => True end.

Lemma build_quiet E path st d n : undisturbed E path st d ->
  exists s', build_cache_path E path st (quiet_io d (4 + n)) = (Some (sidecar path st), s') /\
    disk s' (sidecar path st) = d (sidecar path st) /\ exists k, answers s' = repeat (quiet Ok) (k + n).
Proof.
  intros [Hp Hd]. pose proof (probe_not_final E (sidecar path st) (sidecar_length path st)) as Hne.
  unfold build_cache_path. fold (sidecar path st). cbv zeta. unfold sidecar_path_is_writable, ensure_parent_directory, iobind.
  destruct (parent_directory (sidecar path st)) as [parent|].
  - destruct (d parent) as [x|] eqn:Ex; [|done].
    cbv [mkdir call quiet_io answers repeat Nat.add quiet before how disk steps succeeds ioret open_excl try_call unlink]. rewrite Ex, Hp, set_file_eq.
    eexists. split; [reflexivity|]. cbn [disk answers]. split; [by rewrite !set_file_ne|]. by exists 0%nat.
  - cbv [call quiet_io answers repeat Nat.add quiet before how disk steps succeeds ioret open_excl try_call unlink]. rewrite Hp, set_file_eq.
    eexists. split; [reflexivity|]. cbn [disk answers]. split; [by rewrite !set_file_ne|]. by exists 1%nat.
Qed.

(** C21. What was published is what a later start of the same binary
    reads, and nothing else is.  Whatever the others do between the calls of
    the start, as long as they keep the two cache files absent or complete:
    when it opens a cache, that cache holds the unwind tables, the index, the
    patches and the two numbers that some publication stored for a binary of
    the same device, inode, size and modification time.  And when its calls
    succeed and nobody interferes, a complete file beside the binary opens
    exactly when it was published for such a binary. *)
Theorem cache_round_trip E path st : startup_cache_enabled E = true ->
  (forall s, respects (others E path st) (answers s) -> good (disk s (sidecar path st)) -> good (disk s (fallback E path st)) ->
    match fst (startup_cache_open E path st s) with
    | Some (Some o) => exists a st0, art_ok a /\ same_binary st0 st /\ gives o a
    | _ => True
    end) /\
  (forall a st0 d n, art_ok a -> undisturbed E path st d -> d (sidecar path st) = Some (Regular (complete a st0)) ->
    match fst (startup_cache_open E path st (quiet_io d (8 + n))) with
    | Some (Some o) => same_binary st0 st /\ gives o a
    | Some None => ~ same_binary st0 st
    | None => False
    end).
Proof.
  intros He. split; [intros s; by apply open_found|]. intros a st0 d n Ha Hq Hd. unfold startup_cache_open. rewrite He. cbn [negb].
  change (8 + n)%nat with (4 + (4 + n))%nat. destruct (build_quiet E path st d (4 + n) Hq) as (s'&Eb&Hs&k&Hk).
  unfold iobind. rewrite Eb. replace (k + (4 + n))%nat with (4 + (k + n))%nat in Hk by lia.
  unfold open_read, try_call, call. rewrite Hk. cbn [repeat Nat.add quiet before how succeeds disk answers]. rewrite Hs, Hd. cbn [negb orb].
  destruct (Z.ltb_spec (Z.of_nat (length (complete a st0))) HEADER_SIZE) as [H|_]; [pose proof (complete_length a st0); lia|].
  cbn [fst ioret]. pose proof (open_same a st0 st Ha) as H. by destruct (open_mapped (complete a st0) st).
Qed.

Definition demo_disk : fs := fun p =>
  if decide (p = sidecar demo_path demo_stat) then Some (Regular (complete demo_art demo_stat))
  else if decide (p = str "/games/.machgate-cache") then Some Directory else None.

Lemma cache_round_trip_witness :
  match fst (startup_cache_open demo_env demo_path demo_stat (quiet_io demo_disk 8)) with Some (Some o) => gives o demo_art | _ => False end.
Proof.
  destruct (cache_round_trip demo_env demo_path demo_stat eq_refl) as [_ H].
  specialize (H demo_art demo_stat demo_disk 0%nat demo_art_ok). change (8 + 0)%nat with 8%nat in H.
  destruct (fst (startup_cache_open demo_env demo_path demo_stat (quiet_io demo_disk 8))) as [[o|]|].
  - apply H; [split; [reflexivity|]; vm_compute; discriminate|reflexivity].
  - exfalso. apply H; [split; [reflexivity|]; vm_compute; discriminate|reflexivity|]. repeat split.
  - exfalso. apply H; [split; [reflexivity|]; vm_compute; discriminate|reflexivity].
Defined.

(** ** Sizes that wrap *)

(** A header that claims 2^60 patches of 16 bytes. *)
Definition wrapping_header : startup_cache_header :=
  let h := mk_header MACHGATE_STARTUP_CACHE_MAGIC MACHGATE_STARTUP_CACHE_VERSION HEADER_SIZE (fill_cache_key demo_stat) 0 0 (2 ^ 60) 0 0 0 0 (fnv1a64 []) in
  with_checksums (header_checksum h) (payload_checksum h) h.

(** The size check of the reader is done modulo 2^64: a file of the header
    alone opens although its patch table would be 2^64 bytes long. *)
Example patch_table_size_wraps :
  match open_mapped (encode_header wrapping_header) demo_stat with
  | Some o => Z.of_nat (length (o_file o)) = 120 /\ patch_count (o_header o) * PATCH_SIZE = 2 ^ 64
  | None => False
  end.
Proof. vm_compute. by split. Qed.

(** ** The blob near the image *)

Section near_image.
Context (kernel_mmap : list vmcall -> vmcall -> option Z) (base size : Z).

Definition near (r : option Z) : Prop := match r with Some a => - (2 ^ 31 - 1) < i64 (a - base) < 2 ^ 31 - 1 | None => True end.

Lemma try_candidate_near a tr : near (fst (try_candidate kernel_mmap base size a tr)).
Proof.
  unfold try_candidate. destruct (a =? 0); [done|]. destruct (kernel_mmap _ _) as [m|]; [|done].
  destruct (_ && _) eqn:E; [|done]. cbn [fst near]. lia.
Qed.

Lemma map_near_near n : forall delta tr, near (fst (map_near kernel_mmap base size n delta tr)).
Proof.
  induction n as [|n IH]; intros delta tr; [done|]. cbn [map_near].
  pose proof (try_candidate_near (u64 (base + delta) .& Z.lnot 0xfff) tr) as H. destruct (try_candidate _ _ _ _ tr) as [[a|] tr1]; [exact H|].
  pose proof (try_candidate_near (if delta <? base then (base - delta) .& Z.lnot 0xfff else 0) tr1) as H1.
  destruct (try_candidate _ _ _ _ tr1) as [[a|] tr2]; [exact H1|apply IH].
Qed.
End near_image.

(** Whatever the kernel answers, a mapping the search returns can be reached
    with the 32-bit offsets of the unwind tables. *)
Theorem eh_frame_near_reachable kernel_mmap base size tr a :
  fst (startup_cache_map_eh_frame_near kernel_mmap base size tr) = Some a -> - 2 ^ 31 < i64 (a - base) < 2 ^ 31.
Proof.
  unfold startup_cache_map_eh_frame_near. intros H. destruct (size =? 0); [discriminate H|].
  pose proof (map_near_near kernel_mmap base size 55 0x02000000 tr) as Hn. rewrite H in Hn. cbn [near] in Hn. lia.
Qed.
