(* ===== verification/Range100.v ===== *)
(** * System calls 100 to 199: src/syscall/syscall_range_100_199.c

    One definition per handler and the dispatcher, as in Range000.v: locals
    whose address goes to the kernel live in memory from [frame] on.  The file
    has its own copies of the socket, stat and mmap translations, with the text
    of the copies in syscall_range_000_099.c and syscall_gate.c, and its own
    table of error numbers. *)

From S2P Require Import Prelude CStr Host GuestVm GateIsland GateDispatch DarwinAbi Range000 Leb128.
Import Gate Dispatch Abi.

Module Range100.

Definition DARWIN_ESRCH : Z := 3.
Definition DARWIN_EINTR : Z := 4.
Definition DARWIN_EBADF : Z := 9.
Definition DARWIN_ENOMEM : Z := 12.
Definition DARWIN_ENOPROTOOPT : Z := 42.

(** Linux system call numbers (AArch64). *)
Definition SYS_flock : Z := 32.
Definition SYS_mkdirat : Z := 34.
Definition SYS_renameat : Z := 38.
Definition SYS_statfs : Z := 43.
Definition SYS_fstatfs : Z := 44.
Definition SYS_fchmod : Z := 52.
Definition SYS_fchown : Z := 55.
Definition SYS_getdents64 : Z := 61.
Definition SYS_readv : Z := 65.
Definition SYS_pread64 : Z := 67.
Definition SYS_pwrite64 : Z := 68.
Definition SYS_fstat : Z := 80.
Definition SYS_fdatasync : Z := 83.
Definition SYS_utimensat : Z := 88.
Definition SYS_clock_gettime : Z := 113.
Definition SYS_getpriority : Z := 141.
Definition SYS_setregid : Z := 143.
Definition SYS_setgid : Z := 144.
Definition SYS_setreuid : Z := 145.
Definition SYS_setresuid : Z := 147.
Definition SYS_setresgid : Z := 149.
Definition SYS_setsid : Z := 157.
Definition SYS_getrlimit : Z := 163.
Definition SYS_setrlimit : Z := 164.
Definition SYS_getrusage : Z := 165.
Definition SYS_gettimeofday : Z := 169.
Definition SYS_adjtimex : Z := 171.
Definition SYS_socketpair : Z := 199.
Definition SYS_bind : Z := 200.
Definition SYS_listen : Z := 201.
Definition SYS_sendto : Z := 206.
Definition SYS_setsockopt : Z := 208.
Definition SYS_getsockopt : Z := 209.
Definition SYS_shutdown : Z := 210.

Definition CLOCK_MONOTONIC : Z := 1.
Definition CLOCK_THREAD_CPUTIME_ID : Z := 3.
Definition AT_SYMLINK_NOFOLLOW : Z := 0x100.
Definition AT_REMOVEDIR : Z := 0x200.
Definition AT_EMPTY_PATH : Z := 0x1000.
Definition S_IFIFO : Z := 0x1000.
Definition STA_NANO : Z := 0x2000.

(** Linux numbers on the left, in the order of the switch; Darwin's numbers on
    the right. *)
Definition darwin_errno_from_linux (err : Z) : Z :=
  match err with
  | 0 => 0 | 1 => 1 | 2 => 2 | 3 => 3 | 4 => 4 | 5 => 5 | 6 => 6 | 7 => 7 | 8 => 8 | 9 => 9 | 10 => 10
  | 35 => 11                (* EDEADLK *)
  | 12 => 12 | 13 => 13 | 14 => 14 | 16 => 16 | 17 => 17 | 18 => 18 | 19 => 19 | 20 => 20 | 21 => 21 | 22 => 22
  | 23 => 23 | 24 => 24 | 25 => 25 | 27 => 27 | 28 => 28 | 29 => 29 | 30 => 30 | 31 => 31 | 32 => 32 | 33 => 33 | 34 => 34
  | 11 => 35                (* EAGAIN *)
  | 115 => 36               (* EINPROGRESS *)
  | 114 => 37               (* EALREADY *)
  | 88 => 38                (* ENOTSOCK *)
  | 89 => 39                (* EDESTADDRREQ *)
  | 90 => 40                (* EMSGSIZE *)
  | 91 => 41                (* EPROTOTYPE *)
  | 92 => 42                (* ENOPROTOOPT *)
  | 93 => 43                (* EPROTONOSUPPORT *)
  | 95 => 45                (* ENOTSUP *)
  | 97 => 47                (* EAFNOSUPPORT *)
  | 98 => 48                (* EADDRINUSE *)
  | 99 => 49                (* EADDRNOTAVAIL *)
  | 100 => 50               (* ENETDOWN *)
  | 101 => 51               (* ENETUNREACH *)
  | 102 => 52               (* ENETRESET *)
  | 103 => 53               (* ECONNABORTED *)
  | 104 => 54               (* ECONNRESET *)
  | 105 => 55               (* ENOBUFS *)
  | 106 => 56               (* EISCONN *)
  | 107 => 57               (* ENOTCONN *)
  | 108 => 58               (* ESHUTDOWN *)
  | 110 => 60               (* ETIMEDOUT *)
  | 111 => 61               (* ECONNREFUSED *)
  | 40 => 62                (* ELOOP *)
  | 36 => 63                (* ENAMETOOLONG *)
  | 113 => 65               (* EHOSTUNREACH *)
  | 39 => 66                (* ENOTEMPTY *)
  | 122 => 69               (* EDQUOT *)
  | 116 => 70               (* ESTALE *)
  | 37 => 77                (* ENOLCK *)
  | 38 => 78                (* ENOSYS *)
  | 75 => 84                (* EOVERFLOW *)
  | 125 => 89               (* ECANCELED *)
  | 84 => 92                (* EILSEQ *)
  | _ => DARWIN_EINVAL
  end.

Definition align8 (value : Z) : Z := (value + 7) .& 0xFFFFFFF8.

(** The copies. *)
Definition translate_mmap_flags : Z -> Z := Dispatch.translate_mmap_flags.
Definition translate_socket_domain : Z -> option Z := Abi.translate_socket_domain.
Definition translate_sockaddr : Z -> Z -> Z -> bytemem -> (Z + Z) * bytemem := Abi.translate_sockaddr.

Definition translate_send_flags_100 (f : Z) : Z :=
  let r := map_bit f 0x0001 MSG_OOB 0 in
  let r := map_bit f 0x0004 MSG_DONTROUTE r in
  let r := map_bit f 0x0080 MSG_DONTWAIT r in
  map_bit f 0x80000 MSG_NOSIGNAL r.

Definition DARWIN_SOL_SOCKET : Z := 0xffff.
Definition DARWIN_SO_ERROR : Z := 0x1007.
Definition SOL_SOCKET : Z := 1.
Definition IPPROTO_TCP : Z := 6.

(** Level and option; [None]: an option of the socket level Linux lacks. *)
Definition translate_socket_option (darwin_level darwin_option : Z) : option (Z * Z) :=
  if darwin_level =? IPPROTO_TCP then
    Some (IPPROTO_TCP, match darwin_option with
                       | 0x10 => 4             (* TCP_KEEPALIVE, TCP_KEEPIDLE *)
                       | 0x101 => 5            (* TCP_KEEPINTVL *)
                       | 0x102 => 6            (* TCP_KEEPCNT *)
                       | _ => darwin_option
                       end)
  else if negb (darwin_level =? DARWIN_SOL_SOCKET) then Some (darwin_level, darwin_option)
  else
    match darwin_option with
    | 0x0001 => Some (SOL_SOCKET, 1)           (* SO_DEBUG *)
    | 0x0002 => Some (SOL_SOCKET, 30)          (* SO_ACCEPTCONN *)
    | 0x0004 => Some (SOL_SOCKET, 2)           (* SO_REUSEADDR *)
    | 0x0008 => Some (SOL_SOCKET, 9)           (* SO_KEEPALIVE *)
    | 0x0010 => Some (SOL_SOCKET, 5)           (* SO_DONTROUTE *)
    | 0x0020 => Some (SOL_SOCKET, 6)           (* SO_BROADCAST *)
    | 0x0080 => Some (SOL_SOCKET, 13)          (* SO_LINGER *)
    | 0x0100 => Some (SOL_SOCKET, 10)          (* SO_OOBINLINE *)
    | 0x0200 => Some (SOL_SOCKET, 15)          (* SO_REUSEPORT *)
    | 0x1008 => Some (SOL_SOCKET, 3)           (* SO_TYPE *)
    | 0x1007 => Some (SOL_SOCKET, 4)           (* SO_ERROR *)
    | _ => None
    end.

Definition translate_rlimit_resource (darwin_resource : Z) : option Z :=
  match darwin_resource with
  | 0 => Some 0 | 1 => Some 1 | 2 => Some 2 | 3 => Some 3 | 4 => Some 4
  | 5 => Some 9             (* RLIMIT_AS *)
  | 6 => Some 8             (* RLIMIT_MEMLOCK *)
  | 7 => Some 6             (* RLIMIT_NPROC *)
  | 8 => Some 7             (* RLIMIT_NOFILE *)
  | _ => None
  end.

(** Linux's [struct stat] and [struct statfs] in memory. *)
Definition load_timespec (a : Z) (m : bytemem) : timespec := mk_ts (load 8 a m) (load 8 (a + 8) m).
Definition load_stat (a : Z) (m : bytemem) : linux_stat :=
  mk_lst (load 8 a m) (load 4 (a + 16) m) (load 4 (a + 20) m) (load 8 (a + 8) m) (load 4 (a + 24) m) (load 4 (a + 28) m)
    (load 8 (a + 32) m) (load_timespec (a + 72) m) (load_timespec (a + 88) m) (load_timespec (a + 104) m)
    (load 8 (a + 48) m) (load 8 (a + 64) m) (load 4 (a + 56) m).
Definition load_statfs (a : Z) (m : bytemem) : linux_statfs :=
  mk_lsf (load 8 (a + 8) m) (load 8 (a + 72) m) (load 8 (a + 16) m) (load 8 (a + 24) m) (load 8 (a + 32) m) (load 8 (a + 40) m)
    (load 8 (a + 48) m) (load 4 (a + 56) m) (load 4 (a + 60) m) (load 8 a m) (load 8 (a + 80) m).

(** From Linux's structure at [l] to Darwin's at [d]. *)
Definition linux_to_darwin_stat (l d : Z) (m : bytemem) : bytemem := write_darwin_stat d (Dispatch.linux_to_darwin_stat (load_stat l m)) m.
Definition linux_to_darwin_statfs (l d : Z) (m : bytemem) : bytemem :=
  let s := load_statfs l m in
  let m := memzero d 2168 m in
  let m := store 4 d (lf_bsize s) m in
  let m := store 4 (d + 4) (lf_frsize s) m in
  let m := store 8 (d + 8) (lf_blocks s) m in
  let m := store 8 (d + 16) (lf_bfree s) m in
  let m := store 8 (d + 24) (lf_bavail s) m in
  let m := store 8 (d + 32) (lf_files s) m in
  let m := store 8 (d + 40) (lf_ffree s) m in
  let m := store 4 (d + 48) (lf_fsid0 s) m in
  let m := store 4 (d + 52) (lf_fsid1 s) m in
  let m := store 4 (d + 60) (lf_type s) m in
  let m := store 4 (d + 64) (lf_flags s) m in
  snprintf_s (d + 72) 16 (str "linux") m.

(** The value, or [None] with [errno] EINVAL; [statfs]: the file system, zero
    when it could not be read. *)
Definition pathconf_value_from_statfs (name f_namelen f_frsize : Z) : option Z :=
  match name with
  | 1 => Some 127                                              (* LINK_MAX *)
  | 2 | 3 => Some 255                                          (* MAX_CANON, MAX_INPUT *)
  | 4 => Some (if 0 <? f_namelen then f_namelen else 255)      (* NAME_MAX *)
  | 5 => Some 4096                                             (* PATH_MAX *)
  | 6 => Some 4096                                             (* PIPE_BUF *)
  | 7 | 8 | 11 | 12 | 15 | 25 => Some 1
  | 9 => Some 0                                                (* VDISABLE *)
  | 10 => Some 255                                             (* NAME_CHARS_MAX *)
  | 16 | 20 | 22 | 23 => Some (if 0 <? f_frsize then f_frsize else 512)
  | 18 => Some 64                                              (* FILESIZEBITS *)
  | 17 | 19 => Some (-1)                                       (* ASYNC_IO, PRIO_IO *)
  | 21 => Some (2 ^ 63 - 1)                                    (* REC_MAX_XFER_SIZE *)
  | 24 => Some 4096                                            (* SYMLINK_MAX *)
  | _ => None
  end.

Definition machgate_host_uuid : list Z :=
  [0x4d; 0x47; 0x41; 0x54; 0x45; 0x00; 0x40; 0x00; 0x80; 0x00; 0x6d; 0x61; 0x63; 0x68; 0x67; 0x74].

(** ** Directory entries *)

(** Linux: d_ino 0, d_off 8, d_reclen 16, d_type 18, d_name 19.  Darwin:
    d_ino 0, d_seekoff 8, d_reclen 16, d_namlen 18, d_type 20, d_name 21. *)
Definition LINUX_NAME : Z := 19.
Definition DARWIN_NAME : Z := 21.

(** [strnlen(a, n)]: a name of 65536 bytes or more ends the loop below either
    way. *)
Definition strnlen (a n : Z) (m : bytemem) : Z := Z.of_nat (length (c_string (Z.to_nat (Z.min n 65536)) a m)).

Definition put_dirent (entry darwin_entry name_length darwin_reclen : Z) (m : bytemem) : bytemem :=
  let m := memzero darwin_entry darwin_reclen m in
  let m := store 8 darwin_entry (load 8 entry m) m in
  let m := store 8 (darwin_entry + 8) (load 8 (entry + 8) m) m in
  let m := store 2 (darwin_entry + 16) darwin_reclen m in
  let m := store 2 (darwin_entry + 18) name_length m in
  let m := store 1 (darwin_entry + 20) (load 1 (entry + 18) m) m in
  memcpy (darwin_entry + DARWIN_NAME) (entry + LINUX_NAME) (name_length + 1) m.

(** The loop from [offset] on: an error number, or the bytes written and the
    last position.  Every record is at least one byte long. *)
Fixpoint convert_dirents (fuel : nat) (linux_buffer result darwin_buffer count offset output_offset last_offset : Z) (m : bytemem)
    : (Z * Z + Z) * bytemem :=
  if result <=? offset then (inl (output_offset, last_offset), m)
  else match fuel with
  | O => (inl (output_offset, last_offset), m)
  | S fuel =>
      let entry := linux_buffer + offset in
      let d_reclen := load 2 (entry + 16) m in
      if (d_reclen =? 0) || (result <? offset + d_reclen) then (inr DARWIN_EIO, m)
      else
        let name_available := u64 (d_reclen - LINUX_NAME) in
        let name_length := strnlen (entry + LINUX_NAME) name_available m in
        if name_available <=? name_length then (inr DARWIN_EIO, m)
        else
          let darwin_reclen := align8 (DARWIN_NAME + name_length + 1) in
          if (65535 <? darwin_reclen) || (count <? output_offset + darwin_reclen) then (inl (output_offset, last_offset), m)
          else
            let d_off := i64 (load 8 (entry + 8) m) in
            let m := put_dirent entry (darwin_buffer + output_offset) name_length darwin_reclen m in
            convert_dirents fuel linux_buffer result darwin_buffer count (offset + d_reclen) (output_offset + darwin_reclen) d_off m
  end.

Section range.
(** [malloc]: the address for a size, 0 when there is none; [empty_string]:
    where the literal is. *)
Context {K : kernel} (frame : Z) (malloc : Z -> Z) (empty_string : Z).
Local Abbreviation hostm := (host guest_vm_table K).
Local Abbreviation ld := (Range000.ld (K:=K)).
Local Abbreviation st := (Range000.st (K:=K)).
Local Abbreviation on_mem := (Range000.on_mem (K:=K)).
Local Open Scope host_scope.
Implicit Types g : syscall_gate_state.

(** [set_failure(state, darwin_errno_from_linux(errno ? errno : EIO))] *)
Definition fail_now g : hostm syscall_gate_state := let* e := errno_or_eio in hret (set_failure g (darwin_errno_from_linux e)).

Definition finish_syscall_result g (result : Z) : hostm syscall_gate_state :=
  if result <? 0 then fail_now g else hret (set_success g result).

(** [errno = 0; finish_syscall_result(state, syscall(nr, args))] *)
Definition forward g (nr : Z) (args : list Z) : hostm syscall_gate_state :=
  do* set_errno 0 in let* result := syscall nr args in finish_syscall_result g result.

(** [errno = e; set_failure(state, darwin_errno_from_linux(errno))] *)
Definition fail_errno g (e : Z) : hostm syscall_gate_state :=
  do* set_errno e in hret (set_failure g (darwin_errno_from_linux e)).

(** ** Threads, time *)

Definition timespec_ns (a : Z) : hostm Z :=
  let* sec := ld 8 a in let* nsec := ld 8 (a + 8) in hret (u64 (sec * 1000000000 + nsec)).

Definition current_thread_cpu_time_mach : hostm Z :=
  do* on_mem (fun m => (tt, memzero frame 16 m)) in
  do* set_errno 0 in
  let* result := syscall SYS_clock_gettime [CLOCK_THREAD_CPUTIME_ID; frame] in
  if result <? 0 then hret 0 else timespec_ns frame.

(** [counts]: the 64-bit words of the structure. *)
Definition copy_thread_selfcounts g (counts : list Z) : hostm syscall_gate_state :=
  let buffer := gs_x g 1 in
  let bytes := concat (map (le_bytes 8) counts) in
  let copy_size := Z.min (Z.of_nat (length bytes)) (gs_x g 2) in
  if nz copy_size && (buffer =? 0) then hret (set_failure g DARWIN_EFAULT)
  else
    do* (if nz copy_size then on_mem (fun m => (tt, place buffer (take (Z.to_nat copy_size) bytes) m)) else hret tt) in
    hret (set_success g 0).

Definition handle_thread_selfcounts g : hostm syscall_gate_state :=
  let* thread_time := current_thread_cpu_time_mach in
  match u32 (gs_x g 0) with
  | 1 | 2 => copy_thread_selfcounts g [0; 0]
  | 3 | 4 => copy_thread_selfcounts g [0; 0; thread_time; 0]
  | 5 | 6 => copy_thread_selfcounts g [0; 0; thread_time; 0; 0]
  | _ => hret (set_failure g DARWIN_ENOTSUP)
  end.

Definition handle_gethostuuid g : hostm syscall_gate_state :=
  if gs_x g 0 =? 0 then hret (set_failure g DARWIN_EFAULT)
  else do* on_mem (fun m => (tt, place (gs_x g 0) machgate_host_uuid m)) in hret (set_success g 0).

Definition handle_getpriority g : hostm syscall_gate_state :=
  do* set_errno 0 in
  let* result := syscall SYS_getpriority [i32 (gs_x g 0); u32 (gs_x g 1)] in
  if result <? 0 then fail_now g else hret (set_success g (20 - result)).

Definition handle_gettimeofday g : hostm syscall_gate_state :=
  do* set_errno 0 in
  let* result := syscall SYS_gettimeofday [gs_x g 0; gs_x g 1] in
  if result <? 0 then fail_now g
  else if nz (gs_x g 2) then
    let* r := syscall SYS_clock_gettime [CLOCK_MONOTONIC; frame] in
    if nz r then fail_now g
    else let* ns := timespec_ns frame in
         do* st 8 (gs_x g 2) ns in hret (set_success g 0)
  else hret (set_success g 0).

Definition handle_settimeofday g : hostm syscall_gate_state :=
  if nz (gs_x g 0) || nz (gs_x g 1) then hret (set_failure g DARWIN_EPERM) else hret (set_success g 0).

Definition store_darwin_timeval_from_microseconds (timeval microseconds : Z) : hostm unit :=
  do* st 8 timeval (Z.quot microseconds 1000000) in
  do* st 4 (timeval + 8) (Z.rem microseconds 1000000) in
  st 4 (timeval + 12) 0.

(** [struct timex]: 208 bytes, offset 8, status 40. *)
Definition handle_adjtime g : hostm syscall_gate_state :=
  if nz (gs_x g 0) then hret (set_failure g DARWIN_EPERM)
  else if gs_x g 1 =? 0 then hret (set_success g 0)
  else
    do* on_mem (fun m => (tt, memzero frame 208 m)) in
    do* set_errno 0 in
    let* result := syscall SYS_adjtimex [frame] in
    if result <? 0 then fail_now g
    else
      let* offset := ld 8 (frame + 8) in
      let* status := ld 4 (frame + 40) in
      let microseconds := if nz (status .& STA_NANO) then Z.quot (i64 offset) 1000 else i64 offset in
      do* store_darwin_timeval_from_microseconds (gs_x g 1) microseconds in
      hret (set_success g 0).

(** ** Mounts *)

(** [None]: it exists; the answer otherwise. *)
Definition path_exists_for_mount_mutation g (path : Z) : hostm (option syscall_gate_state) :=
  if path =? 0 then hret (Some (set_failure g DARWIN_EFAULT))
  else
    do* set_errno 0 in
    let* result := syscall Range000.SYS_newfstatat [AT_FDCWD; path; frame; 0] in
    if result <? 0 then let* g' := fail_now g in hret (Some g') else hret None.

Definition fd_is_valid_for_mount_mutation (fd : Z) : hostm bool :=
  do* set_errno 0 in
  let* r := syscall Range000.SYS_fcntl [fd; Range000.F_GETFD] in hret (0 <=? r).

Definition handle_mount_mutation_denied g : hostm syscall_gate_state := hret (set_failure g DARWIN_EPERM).

(** [if (!path_exists_for_mount_mutation(...)) return; next] *)
Definition if_exists g (path : Z) (next : hostm syscall_gate_state) : hostm syscall_gate_state :=
  let* r := path_exists_for_mount_mutation g path in
  match r with Some g' => hret g' | None => next end.

Definition handle_unmount g : hostm syscall_gate_state := if_exists g (gs_x g 0) (handle_mount_mutation_denied g).
Definition handle_funmount g : hostm syscall_gate_state :=
  let* valid := fd_is_valid_for_mount_mutation (i32 (gs_x g 0)) in
  if negb valid then hret (set_failure g DARWIN_EBADF) else handle_mount_mutation_denied g.
Definition handle_quotactl g : hostm syscall_gate_state := if_exists g (gs_x g 0) (hret (set_failure g DARWIN_ENOTSUP)).
Definition handle_mount g : hostm syscall_gate_state :=
  if gs_x g 0 =? 0 then hret (set_failure g DARWIN_EFAULT)
  else if_exists g (gs_x g 1) (handle_mount_mutation_denied g).

(** ** Files *)

(** The structure is at [frame]. *)
Definition finish_stat_result g (result : Z) : hostm syscall_gate_state :=
  if result <? 0 then fail_now g
  else do* on_mem (fun m => (tt, linux_to_darwin_stat frame (gs_x g 1) m)) in hret (set_success g 0).
Definition finish_statfs_result g (result : Z) : hostm syscall_gate_state :=
  if result <? 0 then fail_now g
  else do* on_mem (fun m => (tt, linux_to_darwin_statfs frame (gs_x g 1) m)) in hret (set_success g 0).

Definition handle_stat_at g (dirfd flags : Z) : hostm syscall_gate_state :=
  do* set_errno 0 in
  let* result := syscall Range000.SYS_newfstatat [dirfd; gs_x g 0; frame; flags] in
  finish_stat_result g result.
Definition handle_statfs_path g : hostm syscall_gate_state :=
  do* set_errno 0 in
  let* result := syscall SYS_statfs [gs_x g 0; frame] in finish_statfs_result g result.
Definition handle_fstatfs_fd g : hostm syscall_gate_state :=
  do* set_errno 0 in
  let* result := syscall SYS_fstatfs [i32 (gs_x g 0); frame] in finish_statfs_result g result.

(** One [struct timeval] of two 64-bit words to the [struct timespec] [i] of
    the frame. *)
Definition convert_timeval (timeval i : Z) : hostm bool :=
  let* sec := ld 8 (timeval + 16 * i) in
  let* usec := ld 8 (timeval + 16 * i + 8) in
  if (i64 usec <? 0) || (1000000 <=? i64 usec) then hret false
  else
    do* st 8 (frame + 16 * i) sec in
    do* st 8 (frame + 16 * i + 8) (i64 usec * 1000) in hret true.
Definition convert_timeval_pair (timeval : Z) : hostm bool :=
  if timeval =? 0 then hret true
  else let* ok := convert_timeval timeval 0 in
       if negb ok then hret false else convert_timeval timeval 1.

(** [call]: the system call, given the times. *)
Definition with_times g (call : Z -> hostm Z) : hostm syscall_gate_state :=
  let* ok := (if nz (gs_x g 1) then convert_timeval_pair (gs_x g 1) else hret true) in
  if negb ok then fail_errno g EINVAL
  else
    do* set_errno 0 in
    let* result := call (if nz (gs_x g 1) then frame else 0) in finish_syscall_result g result.
Definition handle_utimes g : hostm syscall_gate_state :=
  with_times g (fun times => syscall SYS_utimensat [AT_FDCWD; gs_x g 0; times; 0]).
Definition handle_futimes g : hostm syscall_gate_state :=
  with_times g (fun times => syscall SYS_utimensat [i32 (gs_x g 0); empty_string; times; AT_EMPTY_PATH]).

(** Frame: [linux_stat] 0, [linux_statfs] 128; [call] and [call_fs] are the two
    system calls. *)
Definition pathconf g (call call_fs : hostm Z) : hostm syscall_gate_state :=
  do* set_errno 0 in
  let* r := call in
  if r <? 0 then fail_now g
  else
    do* on_mem (fun m => (tt, memzero (frame + 128) 120 m)) in
    do* call_fs in
    do* set_errno 0 in
    let* f_namelen := ld 8 (frame + 128 + 64) in
    let* f_frsize := ld 8 (frame + 128 + 72) in
    match pathconf_value_from_statfs (i32 (gs_x g 1)) (i64 f_namelen) (i64 f_frsize) with
    | None => fail_errno g EINVAL
    | Some result => hret (set_success g result)
    end.
Definition handle_pathconf g : hostm syscall_gate_state :=
  pathconf g (syscall Range000.SYS_newfstatat [AT_FDCWD; gs_x g 0; frame; 0]) (syscall SYS_statfs [gs_x g 0; frame + 128]).
Definition handle_fpathconf g : hostm syscall_gate_state :=
  pathconf g (syscall SYS_fstat [i32 (gs_x g 0); frame]) (syscall SYS_fstatfs [i32 (gs_x g 0); frame + 128]).

Definition handle_getdirentries g : hostm syscall_gate_state :=
  let count := u32 (gs_x g 2) in
  if count <? DARWIN_NAME + 2 then hret (set_failure g DARWIN_EINVAL)
  else
    let linux_buffer := malloc count in
    if linux_buffer =? 0 then hret (set_failure g DARWIN_ENOMEM)
    else
      do* set_errno 0 in
      let* result := syscall SYS_getdents64 [i32 (gs_x g 0); linux_buffer; count] in
      if result <=? 0 then finish_syscall_result g result
      else
        let* r := on_mem (convert_dirents (Z.to_nat result) linux_buffer result (gs_x g 1) count 0 0 0) in
        match r with
        | inr e => hret (set_failure g e)
        | inl (output_offset, last_offset) =>
            if output_offset =? 0 then hret (set_failure g DARWIN_EINVAL)
            else
              do* (if nz (gs_x g 3) then st 8 (gs_x g 3) last_offset else hret tt) in
              hret (set_success g output_offset)
        end.

(** ** Sockets *)

Definition handle_setsockopt g : hostm syscall_gate_state :=
  let x := gs_x g in
  match translate_socket_option (i32 (x 1)) (i32 (x 2)) with
  | None => hret (set_failure g DARWIN_ENOPROTOOPT)
  | Some (linux_level, linux_option) => forward g SYS_setsockopt [i32 (x 0); linux_level; linux_option; x 3; u32 (x 4)]
  end.

Definition handle_getsockopt g : hostm syscall_gate_state :=
  let x := gs_x g in
  match translate_socket_option (i32 (x 1)) (i32 (x 2)) with
  | None => hret (set_failure g DARWIN_ENOPROTOOPT)
  | Some (linux_level, linux_option) =>
      do* set_errno 0 in
      let* result := syscall SYS_getsockopt [i32 (x 0); linux_level; linux_option; x 3; x 4] in
      do* (if (result =? 0) && (i32 (x 1) =? DARWIN_SOL_SOCKET) && (i32 (x 2) =? DARWIN_SO_ERROR) && nz (x 3) && nz (x 4) then
             let* value_len := ld 4 (x 4) in
             if 4 <=? value_len then let* value := ld 4 (x 3) in st 4 (x 3) (darwin_errno_from_linux (i32 value)) else hret tt
           else hret tt) in
      finish_syscall_result g result
  end.

Definition handle_bind g : hostm syscall_gate_state :=
  let* r := on_mem (translate_sockaddr (gs_x g 1) (gs_x g 2) frame) in
  match r with
  | inr e => fail_errno g e
  | inl len => forward g SYS_bind [i32 (gs_x g 0); frame; len]
  end.

Definition handle_sendto g : hostm syscall_gate_state :=
  let x := gs_x g in
  let send linux_addr_ptr linux_len :=
    forward g SYS_sendto [i32 (x 0); x 1; x 2; translate_send_flags_100 (i32 (x 3)); linux_addr_ptr; linux_len] in
  if nz (x 4) then
    let* r := on_mem (translate_sockaddr (x 4) (x 5) frame) in
    match r with
    | inr e => fail_errno g e
    | inl len => send frame len
    end
  else send 0 0.

Definition handle_socketpair g : hostm syscall_gate_state :=
  let x := gs_x g in
  match translate_socket_domain (i32 (x 0)) with
  | None => hret (set_failure g DARWIN_EAFNOSUPPORT)
  | Some linux_domain => forward g SYS_socketpair [linux_domain; i32 (x 1); i32 (x 2); x 3]
  end.

(** ** Processes *)

Definition handle_waitid_single_process g : hostm syscall_gate_state := hret (set_failure g DARWIN_ECHILD).

Definition is_self_pid (pid : Z) : hostm bool :=
  if pid =? 0 then hret true else let* self := syscall Range000.SYS_getpid [] in hret (pid =? i32 self).

Definition handle_csops g : hostm syscall_gate_state :=
  let* self := is_self_pid (i32 (gs_x g 0)) in
  if negb self then hret (set_failure g DARWIN_ESRCH)
  else if nz (u32 (gs_x g 1)) then hret (set_failure g DARWIN_ENOTSUP)
  else if gs_x g 2 =? 0 then hret (set_failure g DARWIN_EFAULT)
  else if gs_x g 3 <? 4 then hret (set_failure g DARWIN_EINVAL)
  else do* st 4 (gs_x g 2) 0 in hret (set_success g 0).

(** [translate_rlimit_resource], then the call. *)
Definition rlimit_call g (nr : Z) : hostm syscall_gate_state :=
  match translate_rlimit_resource (gs_x g 0) with
  | None => hret (set_failure g DARWIN_EINVAL)
  | Some linux_resource => forward g nr [linux_resource; gs_x g 1]
  end.

(** ** The dispatcher *)

(** The cases of the switch up to 139, then the others; [set_enosys] is the
    last line of the second. *)
Definition range_100_calls_a g (next : hostm syscall_gate_state) : hostm syscall_gate_state :=
  let x := gs_x g in
  match x 16 with
  | 100 => handle_getpriority g
  | 101 | 102 | 103 | 104 => handle_bind g
  | 105 => handle_setsockopt g
  | 106 => forward g SYS_listen [i32 (x 0); i32 (x 1)]
  | 111 => hret (set_failure g DARWIN_EINTR)                     (* sigsuspend *)
  | 116 => handle_gettimeofday g
  | 117 => forward g SYS_getrusage [i32 (x 0); x 1]
  | 118 => handle_getsockopt g
  | 120 => forward g SYS_readv [i32 (x 0); x 1; i32 (x 2)]
  | 121 => let* r := machgate_syscall_writev_no_sigpipe (i32 (x 0)) (x 1) (i32 (x 2)) in finish_syscall_result g r
  | 122 => handle_settimeofday g
  | 123 => forward g SYS_fchown [i32 (x 0); u32 (x 1); u32 (x 2)]
  | 124 => forward g SYS_fchmod [i32 (x 0); u32 (x 1)]
  | 126 => forward g SYS_setreuid [u32 (x 0); u32 (x 1)]
  | 127 => forward g SYS_setregid [u32 (x 0); u32 (x 1)]
  | 128 => forward g SYS_renameat [AT_FDCWD; x 0; AT_FDCWD; x 1]
  | 131 => forward g SYS_flock [i32 (x 0); i32 (x 1)]
  | 132 => forward g Range000.SYS_mknodat [AT_FDCWD; x 0; S_IFIFO .| u32 (x 1); 0]
  | 133 => handle_sendto g
  | 134 => forward g SYS_shutdown [i32 (x 0); i32 (x 1)]
  | 135 => handle_socketpair g
  | 136 => forward g SYS_mkdirat [AT_FDCWD; x 0; u32 (x 1)]
  | 137 => forward g Range000.SYS_unlinkat [AT_FDCWD; x 0; AT_REMOVEDIR]
  | 138 => handle_utimes g
  | 139 => handle_futimes g
  | _ => next
  end.

Definition range_100_calls_b g : hostm syscall_gate_state :=
  let x := gs_x g in
  match x 16 with
  | 140 => handle_adjtime g
  | 142 => handle_gethostuuid g
  | 147 => forward g SYS_setsid []
  | 151 => forward g Range000.SYS_getpgid [i32 (x 0)]
  | 152 => hret (set_success g 0)                                (* setprivexec *)
  | 153 => forward g SYS_pread64 [i32 (x 0); x 1; x 2; i64 (x 3)]
  | 154 => forward g SYS_pwrite64 [i32 (x 0); x 1; x 2; i64 (x 3)]
  | 155 | 161 => hret (set_failure g DARWIN_ENOTSUP)             (* nfssvc, getfh *)
  | 165 => handle_quotactl g
  | 159 => handle_unmount g
  | 164 => handle_funmount g
  | 167 => handle_mount g
  | 169 | 170 => handle_csops g
  | 173 => handle_waitid_single_process g
  | 157 => handle_statfs_path g
  | 158 => handle_fstatfs_fd g
  | 177 | 178 | 179 | 180 => hret (set_success g 0)
  | 181 => forward g SYS_setgid [u32 (x 0)]
  | 182 => forward g SYS_setresgid [0xFFFFFFFF; u32 (x 0); 0xFFFFFFFF]
  | 183 => forward g SYS_setresuid [0xFFFFFFFF; u32 (x 0); 0xFFFFFFFF]
  | 186 => handle_thread_selfcounts g
  | 184 => hret (set_failure g DARWIN_EINVAL)                    (* sigreturn *)
  | 185 => hret (set_failure g DARWIN_EPERM)                     (* sys_panic_with_data *)
  | 187 => forward g SYS_fdatasync [i32 (x 0)]
  | 188 => handle_stat_at g AT_FDCWD 0
  | 189 => do* set_errno 0 in let* r := syscall SYS_fstat [i32 (x 0); frame] in finish_stat_result g r
  | 190 => handle_stat_at g AT_FDCWD AT_SYMLINK_NOFOLLOW
  | 191 => handle_pathconf g
  | 192 => handle_fpathconf g
  | 194 => rlimit_call g SYS_getrlimit
  | 195 => rlimit_call g SYS_setrlimit
  | 196 => handle_getdirentries g
  | 197 => let* r := machgate_dispatch_darwin_mmap (x 0) (x 1) (i32 (x 2)) (translate_mmap_flags (i32 (x 3))) (i32 (x 4)) (i64 (x 5)) in
           finish_syscall_result g r
  | 199 => forward g SYS_lseek [i32 (x 0); i64 (x 1); i32 (x 2)]
  | _ => hret (set_failure g DARWIN_ENOSYS)
  end.

Definition syscall_range_100_199_dispatch g : hostm (bool * outcome) :=
  if (gs_x g 16 <? 100) || (199 <? gs_x g 16) then hret (false, Returned g)
  else let* g' := range_100_calls_a g (range_100_calls_b g) in hret (true, Returned g').
End range.
End Range100.
