(* ===== verification/Range200.v ===== *)
(** * System calls 200 to 399, first part: src/syscall/syscall_range_200_399.c

    The statics of the file, its table of error numbers, and the handlers of
    the System V objects, access checks, audit, sysctl, credentials, signals
    and psynch.  As in Range000.v, locals whose address goes to the kernel live
    in memory from [frame] on. *)

From S2P Require Import Prelude CStr Host GuestCpus GateIsland GateDispatch DarwinAbi Range000 Leb128 Range100.
Import Gate Dispatch Abi.

Module Range200.

(** Linux system call numbers (AArch64) and error numbers. *)
Definition SYS_futex : Z := 98.
Definition SYS_sched_yield : Z := 124.
Definition SYS_tgkill : Z := 131.
Definition SYS_gettid : Z := 178.
Definition SYS_msgget : Z := 186.
Definition SYS_msgctl : Z := 187.
Definition SYS_msgrcv : Z := 188.
Definition SYS_msgsnd : Z := 189.
Definition SYS_semget : Z := 190.
Definition SYS_semctl : Z := 191.
Definition SYS_semop : Z := 193.
Definition SYS_shmget : Z := 194.
Definition SYS_shmctl : Z := 195.
Definition SYS_shmat : Z := 196.
Definition SYS_shmdt : Z := 197.
Definition ENOENT : Z := 2.
Definition ENOMEM : Z := 12.
Definition EEXIST : Z := 17.
Definition ENOSPC : Z := 28.
Definition EOVERFLOW : Z := 75.

Definition DARWIN_ENOMEM : Z := 12.

(** Linux numbers on the left; a number the switch does not name is kept. *)
Definition errno_to_darwin (err : Z) : Z :=
  match err with
  | 1 => 1 | 2 => 2 | 3 => 3 | 4 => 4 | 5 => 5 | 6 => 6 | 7 => 7 | 8 => 8 | 9 => 9 | 10 => 10
  | 35 => 11                (* EDEADLK *)
  | 12 => 12 | 13 => 13 | 14 => 14 | 16 => 16 | 17 => 17 | 18 => 18 | 19 => 19 | 20 => 20 | 21 => 21 | 22 => 22
  | 23 => 23 | 24 => 24 | 25 => 25 | 26 => 26 | 27 => 27 | 28 => 28 | 29 => 29 | 30 => 30 | 31 => 31 | 32 => 32 | 33 => 33 | 34 => 34
  | 11 => 35                (* EAGAIN *)
  | 115 => 36               (* EINPROGRESS *)
  | 114 => 37               (* EALREADY *)
  | 88 => 38                (* ENOTSOCK *)
  | 89 => 39                (* EDESTADDRREQ *)
  | 90 => 40                (* EMSGSIZE *)
  | 91 => 41                (* EPROTOTYPE *)
  | 92 => 42                (* ENOPROTOOPT *)
  | 93 => 43                (* EPROTONOSUPPORT *)
  | 94 => 44                (* ESOCKTNOSUPPORT *)
  | 95 => 45                (* ENOTSUP *)
  | 96 => 46                (* EPFNOSUPPORT *)
  | 97 => 47                (* EAFNOSUPPORT *)
  | 98 => 48                (* EADDRINUSE *)
  | 99 => 49                (* EADDRNOTAVAIL *)
  | 100 => 50               (* ENETDOWN *)
  | 101 => 51               (* ENETUNREACH *)
  | 102 => 52               (* ENETRESET *)
  | 103 => 53               (* ECONNABORTED *)
  | 104 => 54               (* ECONNRESET *)
  | 105 => 55               (* ENOBUFS *)
  | 106 => 56               (* EISCONN *)
  | 107 => 57               (* ENOTCONN *)
  | 108 => 58               (* ESHUTDOWN *)
  | 109 => 59               (* ETOOMANYREFS *)
  | 110 => 60               (* ETIMEDOUT *)
  | 111 => 61               (* ECONNREFUSED *)
  | 40 => 62                (* ELOOP *)
  | 36 => 63                (* ENAMETOOLONG *)
  | 112 => 64               (* EHOSTDOWN *)
  | 113 => 65               (* EHOSTUNREACH *)
  | 39 => 66                (* ENOTEMPTY *)
  | 122 => 69               (* EDQUOT *)
  | 116 => 70               (* ESTALE *)
  | 66 => 71                (* EREMOTE *)
  | 37 => 77                (* ENOLCK *)
  | 38 => DARWIN_ENOSYS
  | 75 => 84                (* EOVERFLOW *)
  | 125 => 89               (* ECANCELED *)
  | 43 => 90                (* EIDRM *)
  | 42 => 91                (* ENOMSG *)
  | 84 => 92                (* EILSEQ *)
  | 74 => 94                (* EBADMSG *)
  | 72 => 95                (* EMULTIHOP *)
  | 61 => 96                (* ENODATA *)
  | 67 => 97                (* ENOLINK *)
  | 63 => 98                (* ENOSR *)
  | 60 => 99                (* ENOSTR *)
  | 71 => 100               (* EPROTO *)
  | 62 => 101               (* ETIME *)
  | 131 => 104              (* ENOTRECOVERABLE *)
  | 130 => 105              (* EOWNERDEAD *)
  | _ => err
  end.

(** ** The statics *)

(** [struct darwin_aio_completion]; [c_aiocb = 0]: the slot was never used. *)
Record aio_completion := mk_aio { c_aiocb : Z; c_error : Z; c_result : Z; c_returned : bool }.

(** [struct machgate_named_semaphore] *)
Record named_semaphore := mk_sem { s_used : bool; s_unlinked : bool; s_value : Z; s_refs : Z; s_name : cstr }.

Record statics := mk_statics {
  aio_completions : list aio_completion;
  machgate_named_semaphores : list named_semaphore;
  auditinfo_addr_state : list Z;                (* 48 bytes *)
  auditinfo_addr_state_initialized : bool;
  thread_credentials_overridden : bool;
  thread_credential_uid : Z;
  thread_credential_gid : Z;
  cpus : guest_cpus;                            (* guest_cpus.c *)
}.

Definition with_aio (l : list aio_completion) (s : statics) : statics :=
  mk_statics l (machgate_named_semaphores s) (auditinfo_addr_state s) (auditinfo_addr_state_initialized s)
    (thread_credentials_overridden s) (thread_credential_uid s) (thread_credential_gid s) (cpus s).
Definition with_sems (l : list named_semaphore) (s : statics) : statics :=
  mk_statics (aio_completions s) l (auditinfo_addr_state s) (auditinfo_addr_state_initialized s)
    (thread_credentials_overridden s) (thread_credential_uid s) (thread_credential_gid s) (cpus s).
Definition with_audit (l : list Z) (s : statics) : statics :=
  mk_statics (aio_completions s) (machgate_named_semaphores s) l true
    (thread_credentials_overridden s) (thread_credential_uid s) (thread_credential_gid s) (cpus s).
Definition with_credentials (uid gid : Z) (s : statics) : statics :=
  mk_statics (aio_completions s) (machgate_named_semaphores s) (auditinfo_addr_state s) (auditinfo_addr_state_initialized s)
    true uid gid (cpus s).
Definition with_cpus (c : guest_cpus) (s : statics) : statics :=
  mk_statics (aio_completions s) (machgate_named_semaphores s) (auditinfo_addr_state s) (auditinfo_addr_state_initialized s)
    (thread_credentials_overridden s) (thread_credential_uid s) (thread_credential_gid s) c.

(** The tables at program start. *)
Definition DARWIN_AIO_TRACKED_REQUESTS : Z := 64.
Definition MACHGATE_SEMAPHORE_MAX : Z := 64.
Definition no_aio : aio_completion := mk_aio 0 0 0 false.
Definition no_sem : named_semaphore := mk_sem false false 0 0 [].
Definition statics_initial : statics :=
  mk_statics (replicate 64 no_aio) (replicate 64 no_sem) (replicate 48 0) false false 0 0 guest_cpus_initial.

(** An answer is a result or one of Darwin's error numbers. *)
Definition answered (g : syscall_gate_state) (a : Z + Z) : syscall_gate_state :=
  match a with inl v => set_success g v | inr e => set_failure g e end.

(** The index of the first entry that satisfies [f]. *)
Fixpoint find_slot {A} (f : A -> bool) (l : list A) : option nat :=
  match l with
  | [] => None
  | a :: l => if f a then Some O else option_map S (find_slot f l)
  end.

(** ** Access checks *)

Definition DARWIN_ACCESSX_MAX_DESCRIPTORS : Z := 100.
Definition DARWIN_ACCESSX_MAX_TABLESIZE : Z := 16 * 1024.
Definition R_OK : Z := 4.
Definition W_OK : Z := 2.
Definition X_OK : Z := 1.

(** Bits 2, 9, 15, 17, 19; bits 1, 10, 12, 13, 14, 16, 18, 20, 21; bits 0, 11. *)
Definition translate_accessx_flags (darwin_flags : Z) : Z :=
  let result := 0 in
  let result := map_bit darwin_flags 0x0A8204 R_OK result in
  let result := map_bit darwin_flags 0x357402 W_OK result in
  map_bit darwin_flags 0x000801 X_OK result.

(** The loop that finds where the names start, from [index] on; [None]: the
    table is malformed.  [desc_actual] only decreases. *)
Fixpoint accessx_descriptors (fuel : nat) (entries size desc_max index desc_actual : Z) (m : bytemem) : option Z :=
  if desc_actual <=? index then Some desc_actual
  else match fuel with
  | O => None
  | S fuel =>
      let offset := load 4 (entries + 16 * index) m in
      let descriptor_index := offset / 16 in
      if (desc_max <? descriptor_index) || (nz descriptor_index && (descriptor_index <=? index)) then None
      else if size <=? offset then None
      else if descriptor_index =? 0 then
        if index =? 0 then None
        else accessx_descriptors fuel entries size desc_max (index + 1) desc_actual m
      else accessx_descriptors fuel entries size desc_max (index + 1)
             (if descriptor_index <? desc_actual then descriptor_index else desc_actual) m
  end.

(** ** psynch *)

Definition FUTEX_WAIT_PRIVATE : Z := 128.
Definition FUTEX_WAKE_PRIVATE : Z := 129.
Definition INT_MAX : Z := 2 ^ 31 - 1.

(** [timeout_ptr]: the normalised timeout, or [None] to wait for ever. *)
Definition psynch_timeout (timeout_sec timeout_nsec : Z) : option timespec :=
  if timeout_sec <? 0 then Some (mk_ts 0 0)
  else if (0 <? timeout_sec) || (0 <? timeout_nsec) then
    Some (if 1000000000 <=? timeout_nsec
          then mk_ts (i64 (timeout_sec + timeout_nsec / 1000000000)) (timeout_nsec mod 1000000000)
          else mk_ts timeout_sec timeout_nsec)
  else None.

(** The copies. *)
Definition darwin_signal_to_linux : Z -> Z := Abi.darwin_signal_to_linux.
Definition linux_signal_to_darwin : Z -> Z := Abi.linux_signal_to_darwin.
Definition darwin_sigset_to_linux : Z -> option Z := Abi.darwin_sigset_to_linux.
Definition linux_sigset_to_darwin : Z -> Z := Abi.linux_sigset_to_darwin.
Definition darwin_sigprocmask_how_to_linux : Z -> Z := Abi.darwin_sigprocmask_how_to_linux.
Definition translate_open_flags : Z -> Z := Dispatch.translate_open_flags.

(** [host_memory_size] and [host_page_size], given what [sysconf] returns. *)
Definition host_memory_size (pages page_size : Z) : Z :=
  if (pages <? 1) || (page_size <? 1) then 0 else u64 (u64 pages * u64 page_size).
Definition host_page_size (result : Z) : Z :=
  if result <? 1 then 4096 else if INT_MAX <? result then INT_MAX else result.

Definition codes (s : string) : list Z := map code (str s).

(** [memcmp] of the name with a literal. *)
Definition sysctl_name_matches (name name_length : Z) (m : bytemem) (expected : string) : bool :=
  nz name && (name_length =? Z.of_nat (length (codes expected))) && bytes_eqb m name (codes expected).

Section range.
(** [override], [online], [pages], [page_size]: the environment variable and
    what [sysconf] returns; [sigwait]: the C library's, a signal or an error. *)
Context {K : kernel} (frame : Z) (override : option cstr) (online pages page_size : Z)
  (sigwait : Z -> kstate K -> (Z + Z) * kstate K).
Local Abbreviation hostm := (host statics K).
Local Open Scope host_scope.
Implicit Types g : syscall_gate_state.

(** Reads and writes of memory and of the statics. *)
Definition ld (n a : Z) : hostm Z := let* m := get_mem in hret (load n a m).
Definition on_mem {A} (f : bytemem -> A * bytemem) : hostm A :=
  let* m := get_mem in let r := f m in do* set_mem (snd r) in hret (fst r).
Definition write (f : bytemem -> bytemem) : hostm unit := on_mem (fun m => (tt, f m)).
Definition st (n a v : Z) : hostm unit := write (store n a v).
Definition on_statics (f : statics -> statics) : hostm unit := let* s := get_vm in set_vm (f s).

(** [errno ? errno : EIO] *)
Definition errno_or_eio : hostm Z := let* e := get_errno in hret (if nz e then e else EIO).

(** [set_failure(state, errno_to_darwin(errno ? errno : EIO))] *)
Definition fail_now g : hostm syscall_gate_state := let* e := errno_or_eio in hret (set_failure g (errno_to_darwin e)).
Definition set_enosys g : hostm syscall_gate_state := hret (set_failure g DARWIN_ENOSYS).
Definition invalid g : hostm syscall_gate_state := hret (set_failure g DARWIN_EINVAL).
Definition done g : hostm syscall_gate_state := hret (set_success g 0).

Definition finish_syscall_result g (result : Z) : hostm syscall_gate_state :=
  if result <? 0 then fail_now g else hret (set_success g result).

(** [errno = 0; finish_syscall_result(state, syscall(nr, args))] *)
Definition forward g (nr : Z) (args : list Z) : hostm syscall_gate_state :=
  do* set_errno 0 in let* result := syscall nr args in finish_syscall_result g result.

(** ** System V objects *)

Definition handle_sysv_semctl g (semid semnum cmd arg : Z) := forward g SYS_semctl [i32 semid; i32 semnum; i32 cmd; arg].
Definition handle_sysv_semget g (key nsems flags : Z) := forward g SYS_semget [i32 key; i32 nsems; i32 flags].
Definition handle_sysv_semop g (semid sops nsops : Z) := forward g SYS_semop [i32 semid; sops; nsops].
Definition handle_semsys g : hostm syscall_gate_state :=
  let x := gs_x g in
  match x 0 with
  | 0 => handle_sysv_semctl g (x 1) (x 2) (x 3) (x 4)
  | 1 => handle_sysv_semget g (x 1) (x 2) (x 3)
  | 2 => handle_sysv_semop g (x 1) (x 2) (x 3)
  | _ => invalid g
  end.

Definition handle_sysv_msgctl g (msqid cmd buf : Z) := forward g SYS_msgctl [i32 msqid; i32 cmd; buf].
Definition handle_sysv_msgget g (key flags : Z) := forward g SYS_msgget [i32 key; i32 flags].
Definition handle_sysv_msgsnd g (msqid msgp msgsz flags : Z) := forward g SYS_msgsnd [i32 msqid; msgp; msgsz; i32 flags].
Definition handle_sysv_msgrcv g (msqid msgp msgsz msgtyp flags : Z) :=
  forward g SYS_msgrcv [i32 msqid; msgp; msgsz; i64 msgtyp; i32 flags].
Definition handle_msgsys g : hostm syscall_gate_state :=
  let x := gs_x g in
  match x 0 with
  | 0 => handle_sysv_msgctl g (x 1) (x 2) (x 3)
  | 1 => handle_sysv_msgget g (x 1) (x 2)
  | 2 => handle_sysv_msgsnd g (x 1) (x 2) (x 3) (x 4)
  | 3 => handle_sysv_msgrcv g (x 1) (x 2) (x 3) (x 4) (x 5)
  | _ => invalid g
  end.

Definition handle_sysv_shmat g (shmid shmaddr flags : Z) := forward g SYS_shmat [i32 shmid; shmaddr; i32 flags].
Definition handle_sysv_shmctl g (shmid cmd buf : Z) := forward g SYS_shmctl [i32 shmid; i32 cmd; buf].
Definition handle_sysv_shmdt g (shmaddr : Z) := forward g SYS_shmdt [shmaddr].
Definition handle_sysv_shmget g (key size flags : Z) := forward g SYS_shmget [i32 key; size; i32 flags].
Definition handle_shmsys g : hostm syscall_gate_state :=
  let x := gs_x g in
  match x 0 with
  | 0 => handle_sysv_shmat g (x 1) (x 2) (x 3)
  | 1 | 4 => handle_sysv_shmctl g (x 1) (x 2) (x 3)
  | 2 => handle_sysv_shmdt g (x 1)
  | 3 => handle_sysv_shmget g (x 1) (x 2) (x 3)
  | _ => invalid g
  end.

(** ** Access checks *)

(** The second loop; [n] entries are left, [current_path] is the last name. *)
Fixpoint accessx_results (n : nat) g (entries size results index current_path : Z) : hostm syscall_gate_state :=
  match n with
  | O => done g
  | S n =>
      let* offset := ld 4 (entries + 16 * index) in
      let path := if nz offset then entries + offset else current_path in
      let* m := get_mem in
      if nz offset && (Range100.strnlen path (size - offset) m =? size - offset) then invalid g
      else if path =? 0 then invalid g
      else
        let* flags := ld 4 (entries + 16 * index + 4) in
        do* set_errno 0 in
        let* result := syscall Range000.SYS_faccessat [AT_FDCWD; path; translate_accessx_flags (i32 flags); 0] in
        let* e := errno_or_eio in
        do* st 4 (results + 4 * index) (if result <? 0 then errno_to_darwin e else 0) in
        accessx_results n g entries size results (index + 1) path
  end.

Definition handle_access_extended g : hostm syscall_gate_state :=
  let entries := gs_x g 0 in
  let size := gs_x g 1 in
  let results := gs_x g 2 in
  if (entries =? 0) || (results =? 0) then hret (set_failure g DARWIN_EFAULT)
  else if DARWIN_ACCESSX_MAX_TABLESIZE <? size then hret (set_failure g DARWIN_ENOMEM)
  else if size <? 16 + 2 then invalid g
  else
    let desc_max := (size - 2) / 16 in
    let* m := get_mem in
    match accessx_descriptors (Z.to_nat desc_max) entries size desc_max 0 desc_max m with
    | None => invalid g
    | Some desc_actual =>
        if DARWIN_ACCESSX_MAX_DESCRIPTORS <? desc_actual then hret (set_failure g DARWIN_ENOMEM)
        else accessx_results (Z.to_nat desc_actual) g entries size results 0 0
    end.

(** ** Audit, labels *)

(** [auditinfo_addr_state]: ai_auid at 0, ai_asid at 36. *)
Definition init_auditinfo_addr_state : hostm unit :=
  let* s := get_vm in
  if auditinfo_addr_state_initialized s then hret tt
  else
    let* uid := syscall Range000.SYS_getuid [] in
    let* pid := syscall Range000.SYS_getpid [] in
    on_statics (with_audit (le_bytes 4 uid ++ replicate 32 0 ++ le_bytes 4 pid ++ replicate 8 0)).

Definition handle_audit_record_compat g : hostm syscall_gate_state :=
  if i32 (gs_x g 1) <? 0 then invalid g else done g.
Definition handle_getauid g : hostm syscall_gate_state :=
  if gs_x g 0 =? 0 then hret (set_failure g DARWIN_EFAULT)
  else
    do* init_auditinfo_addr_state in
    let* s := get_vm in
    do* write (place (gs_x g 0) (take 4 (auditinfo_addr_state s))) in done g.
Definition handle_setauid g : hostm syscall_gate_state :=
  if gs_x g 0 =? 0 then hret (set_failure g DARWIN_EFAULT)
  else
    do* init_auditinfo_addr_state in
    let* auid := ld 4 (gs_x g 0) in
    do* on_statics (fun s => with_audit (le_bytes 4 auid ++ drop 4 (auditinfo_addr_state s)) s) in done g.
Definition handle_getaudit_addr g : hostm syscall_gate_state :=
  if gs_x g 0 =? 0 then hret (set_failure g DARWIN_EFAULT)
  else if i32 (gs_x g 1) <? 48 then invalid g
  else
    do* init_auditinfo_addr_state in
    let* s := get_vm in
    do* write (place (gs_x g 0) (auditinfo_addr_state s)) in done g.
Definition handle_setaudit_addr g : hostm syscall_gate_state :=
  if gs_x g 0 =? 0 then hret (set_failure g DARWIN_EFAULT)
  else if i32 (gs_x g 1) <? 48 then invalid g
  else
    let* info := ld 48 (gs_x g 0) in
    do* on_statics (with_audit (le_bytes 48 info)) in done g.

Definition handle_mac_get_label g (mac_label : Z) : hostm syscall_gate_state :=
  if mac_label =? 0 then hret (set_failure g DARWIN_EFAULT)
  else
    let* buffer_length := ld 8 mac_label in
    let* buffer := ld 8 (mac_label + 8) in
    if (buffer =? 0) || (buffer_length =? 0) then hret (set_failure g DARWIN_EFAULT)
    else do* st 1 buffer 0 in done g.

Definition validate_fd_argument (fd : Z) : hostm bool :=
  do* set_errno 0 in
  let* r := syscall Range000.SYS_fcntl [fd; Range000.F_GETFD] in hret (0 <=? r).

(** ** sysctl *)

Definition host_cpu_count : hostm Z :=
  let* s := get_vm in
  let r := guest_cpu_count override online (cpus s) in
  do* set_vm (with_cpus (snd r) s) in hret (fst r).

Definition finish_sysctl_value g (value : list Z) (oldp oldlenp : Z) : hostm syscall_gate_state :=
  if nz oldp && (oldlenp =? 0) then hret (set_failure g DARWIN_EFAULT)
  else if oldlenp =? 0 then done g
  else
    let value_size := Z.of_nat (length value) in
    let* capacity := ld 8 oldlenp in
    do* st 8 oldlenp value_size in
    if oldp =? 0 then done g
    else if capacity <? value_size then hret (set_failure g DARWIN_ENOMEM)
    else do* write (place oldp value) in done g.
Definition finish_sysctl_int g (value : Z) := finish_sysctl_value g (le_bytes 4 value).
Definition finish_sysctl_u64 g (value : Z) := finish_sysctl_value g (le_bytes 8 value).
Definition finish_sysctl_string g (value : string) := finish_sysctl_value g (codes value ++ [0]).

Definition reject_sysctl_write (newp newlen : Z) : bool := nz newp || nz newlen.

Definition sysctl_cpus g (oldp oldlenp : Z) : hostm syscall_gate_state :=
  let* n := host_cpu_count in finish_sysctl_int g n oldp oldlenp.

Definition handle_hw_sysctl g (selector oldp oldlenp : Z) : hostm syscall_gate_state :=
  match selector with
  | 3 | 25 => sysctl_cpus g oldp oldlenp                                                   (* NCPU, AVAILCPU *)
  | 5 | 24 => finish_sysctl_u64 g (host_memory_size pages page_size) oldp oldlenp          (* PHYSMEM, MEMSIZE *)
  | 7 => finish_sysctl_int g (host_page_size page_size) oldp oldlenp                       (* PAGESIZE *)
  | 1 | 12 => finish_sysctl_string g "arm64" oldp oldlenp                                  (* MACHINE, MACHINE_ARCH *)
  | _ => set_enosys g
  end.

Definition handle_kern_sysctl g (selector oldp oldlenp : Z) : hostm syscall_gate_state :=
  match selector with
  | 1 => finish_sysctl_string g "Darwin" oldp oldlenp                                      (* OSTYPE *)
  | 2 => finish_sysctl_string g "23.0.0" oldp oldlenp                                      (* OSRELEASE *)
  | 3 => finish_sysctl_int g 199506 oldp oldlenp                                           (* OSREV *)
  | 4 => finish_sysctl_string g "Darwin Kernel Version 23.0.0: MachGate" oldp oldlenp      (* VERSION *)
  | 8 => finish_sysctl_int g 262144 oldp oldlenp                                           (* ARGMAX *)
  | 10 => finish_sysctl_string g "machgate" oldp oldlenp                                   (* HOSTNAME *)
  | _ => set_enosys g
  end.

Definition handle_sysctl g : hostm syscall_gate_state :=
  let x := gs_x g in
  let name := x 0 in
  let name_length := u32 (x 1) in
  if reject_sysctl_write (x 4) (x 5) then invalid g
  else if (name =? 0) || (name_length <? 2) then
    hret (set_failure g (if name =? 0 then DARWIN_EFAULT else DARWIN_EINVAL))
  else
    let* name0 := ld 4 name in
    let* name1 := ld 4 (name + 4) in
    match i32 name0 with
    | 6 => handle_hw_sysctl g (i32 name1) (x 2) (x 3)
    | 1 => handle_kern_sysctl g (i32 name1) (x 2) (x 3)
    | _ => set_enosys g
    end.

Definition handle_sysctlbyname g : hostm syscall_gate_state :=
  let x := gs_x g in
  let oldp := x 2 in
  let oldlenp := x 3 in
  if reject_sysctl_write (x 4) (x 5) then invalid g
  else if x 0 =? 0 then hret (set_failure g DARWIN_EFAULT)
  else
    let* m := get_mem in
    let named := existsb (sysctl_name_matches (x 0) (x 1) m) in
    if named ["hw.ncpu"; "hw.activecpu"; "hw.logicalcpu"; "hw.logicalcpu_max"; "hw.physicalcpu"; "hw.physicalcpu_max";
           "hw.availcpu"; "machdep.cpu.core_count"; "machdep.cpu.thread_count"]%string
    then sysctl_cpus g oldp oldlenp
    else if named ["hw.memsize"; "hw.physmem"]%string then finish_sysctl_u64 g (host_memory_size pages page_size) oldp oldlenp
    else if named ["hw.pagesize"]%string then finish_sysctl_int g (host_page_size page_size) oldp oldlenp
    else if named ["hw.machine"; "hw.machinearch"]%string then finish_sysctl_string g "arm64" oldp oldlenp
    else if named ["kern.ostype"]%string then finish_sysctl_string g "Darwin" oldp oldlenp
    else if named ["kern.osrelease"]%string then finish_sysctl_string g "23.0.0" oldp oldlenp
    else if named ["kern.version"]%string then finish_sysctl_string g "Darwin Kernel Version 23.0.0: MachGate" oldp oldlenp
    else if named ["kern.argmax"]%string then finish_sysctl_int g 262144 oldp oldlenp
    else if named ["kern.hostname"]%string then finish_sysctl_string g "machgate" oldp oldlenp
    else set_enosys g.

(** ** Credentials *)

Definition current_thread_uid : hostm Z :=
  let* s := get_vm in
  if thread_credentials_overridden s then hret (thread_credential_uid s)
  else let* r := syscall Range000.SYS_getuid [] in hret (u32 r).
Definition current_thread_gid : hostm Z :=
  let* s := get_vm in
  if thread_credentials_overridden s then hret (thread_credential_gid s)
  else let* r := syscall Range000.SYS_getgid [] in hret (u32 r).

Definition handle_sys_settid g : hostm syscall_gate_state :=
  do* on_statics (with_credentials (u32 (gs_x g 0)) (u32 (gs_x g 1))) in done g.
Definition handle_gettid g : hostm syscall_gate_state :=
  do* (if nz (gs_x g 0) then let* uid := current_thread_uid in st 4 (gs_x g 0) uid else hret tt) in
  do* (if nz (gs_x g 1) then let* gid := current_thread_gid in st 4 (gs_x g 1) gid else hret tt) in
  done g.
Definition handle_empty_uuid_group_get g : hostm syscall_gate_state :=
  if gs_x g 0 =? 0 then hret (set_failure g DARWIN_EFAULT) else do* st 4 (gs_x g 0) 0 in done g.
Definition handle_empty_uuid_group_set g : hostm syscall_gate_state :=
  if nz (gs_x g 0) then set_enosys g else done g.
Definition handle_sys_settid_with_pid g : hostm syscall_gate_state :=
  let pid := i32 (gs_x g 0) in
  let* self := syscall Range000.SYS_getpid [] in
  if nz pid && negb (pid =? i32 self) then set_enosys g else done g.

(** ** Signals *)

Definition handle_pthread_kill g : hostm syscall_gate_state :=
  let linux_signal := darwin_signal_to_linux (i32 (gs_x g 1)) in
  let* current_tid := syscall SYS_gettid [] in
  if linux_signal <? 0 then invalid g
  else
    let target_tid := if i32 (gs_x g 0) =? 0 then i32 current_tid else i32 (gs_x g 0) in
    do* set_errno 0 in
    let* pid := syscall Range000.SYS_getpid [] in
    let* result := syscall SYS_tgkill [pid; target_tid; linux_signal] in
    finish_syscall_result g result.

Definition handle_pthread_sigmask g : hostm syscall_gate_state :=
  let linux_how := darwin_sigprocmask_how_to_linux (i32 (gs_x g 0)) in
  let darwin_set := gs_x g 1 in
  let darwin_old_set := gs_x g 2 in
  if (linux_how <? 0) && nz darwin_set then invalid g
  else
    let* set := ld 4 darwin_set in
    let linux_set := if nz darwin_set then darwin_sigset_to_linux set else None in
    if nz darwin_set && bool_decide (linux_set = None) then invalid g
    else
      do* set_errno 0 in
      let* r := sigprocmask (if linux_how <? 0 then SIG_SETMASK else linux_how) linux_set in
      match r with
      | inr e => do* set_errno e in fail_now g
      | inl old =>
          do* (if nz darwin_old_set then st 4 darwin_old_set (linux_sigset_to_darwin old) else hret tt) in
          done g
      end.

Definition handle_sigwait g : hostm syscall_gate_state :=
  let darwin_set := gs_x g 0 in
  let darwin_signal_out := gs_x g 1 in
  if (darwin_set =? 0) || (darwin_signal_out =? 0) then invalid g
  else
    let* set := ld 4 darwin_set in
    match darwin_sigset_to_linux set with
    | None => invalid g
    | Some linux_set =>
        let* r := in_kernel (sigwait linux_set) in
        match r with
        | inr e => hret (set_failure g (errno_to_darwin e))
        | inl linux_signal => do* st 4 darwin_signal_out (linux_signal_to_darwin linux_signal) in done g
        end
    end.

(** ** psynch, threads *)

(** The timeout is at [frame]. *)
Definition handle_psynch_wait_probe g : hostm syscall_gate_state :=
  let x := gs_x g in
  let address := x 0 in
  let expected := u32 (x 1) in
  if address =? 0 then hret (set_failure g DARWIN_EFAULT)
  else
    let* value := ld 4 address in
    if negb (value =? expected) then hret (set_failure g (errno_to_darwin EAGAIN))
    else
      let timeout := psynch_timeout (i64 (x 4)) (u32 (x 5)) in
      do* match timeout with
          | None => hret tt
          | Some t => do* st 8 frame (tv_sec t) in st 8 (frame + 8) (tv_nsec t)
          end in
      do* set_errno 0 in
      let* result := syscall SYS_futex [address; FUTEX_WAIT_PRIVATE; expected;
                                        match timeout with None => 0 | Some _ => frame end; 0; 0] in
      if result <? 0 then fail_now g else done g.

Definition handle_psynch_wake g (wake_all : bool) : hostm syscall_gate_state :=
  if gs_x g 0 =? 0 then hret (set_failure g DARWIN_EFAULT)
  else forward g SYS_futex [gs_x g 0; FUTEX_WAKE_PRIVATE; if wake_all then INT_MAX else 1; 0; 0; 0].

Definition handle_psynch_yieldwrlock g : hostm syscall_gate_state := forward g SYS_sched_yield [].

Definition handle_bsdthread_create g : hostm syscall_gate_state :=
  let x := gs_x g in
  if (x 0 =? 0) || (x 2 =? 0) || (x 3 =? 0) then invalid g else set_enosys g.
Definition handle_bsdthread_terminate g : hostm syscall_gate_state :=
  let x := gs_x g in
  if (x 0 =? 0) && (x 1 =? 0) && (x 2 =? 0) && (x 3 =? 0) then invalid g else set_enosys g.
Definition handle_workq_kernreturn g : hostm syscall_gate_state :=
  if gs_x g 0 =? 0 then done g else invalid g.
End range.

(** ** Searching the tables *)

Lemma find_slot_some {A} (f : A -> bool) (l : list A) i : find_slot f l = Some i -> exists a, l !! i = Some a /\ f a = true.
Proof.
  revert i; induction l as [|a l IH]; intros i; simpl; [done|]. destruct (f a) eqn:Hf.
  - intros [= <-]. by exists a.
  - destruct (find_slot f l) as [j|]; simpl; [|done]. intros [= <-]. by apply IH.
Qed.

Lemma find_slot_none {A} (f : A -> bool) (l : list A) i a : find_slot f l = None -> l !! i = Some a -> f a = false.
Proof.
  revert i; induction l as [|b l IH]; intros i; simpl; [done|]. destruct (f b) eqn:Hf; [done|].
  destruct (find_slot f l); [done|]. intros _. destruct i as [|i]; simpl; [by intros [= <-]|by apply IH].
Qed.

Lemma filter_lt {A} (f : A -> bool) (l : list A) i a : l !! i = Some a -> f a = false -> (length (List.filter f l) < length l)%nat.
Proof.
  revert i; induction l as [|b l IH]; intros [|i]; simpl; try done.
  - intros [= ->] ->. pose proof (List.filter_length_le f l). lia.
  - intros Hi Hf. specialize (IH _ Hi Hf). destruct (f b); simpl; lia.
Qed.
(** A kernel that knows no call. *)
Definition no_kernel : kernel :=
  {| kstate := unit; k_syscall _ _ m k := (inr EINVAL, m, k);
     k_fstat _ k := (inr EINVAL, k); k_statfs _ k := (inr EINVAL, k); k_mounts k := (inr EINVAL, k);
     k_sigpending k := (inr EINVAL, k); k_sigaltstack _ k := (inr EINVAL, k) |}.
End Range200.
