(* ===== verification/Range200Sem.v ===== *)
(** * Named semaphores: src/syscall/syscall_range_200_399.c

    The table of 64 named semaphores with the handlers of sem_open to sem_post
    and __semwait_signal, and the proof that it implements POSIX named
    semaphores whose waits never block. *)

From stdpp Require Import gmap.
From S2P Require Import Prelude CStr Host GateIsland GateDispatch DarwinAbi Range000 Range100 Range200.
Import Gate Dispatch Abi Range200.

Module Sem.

Definition MACHGATE_SEMAPHORE_NAME_MAX : Z := 255.
Definition MACHGATE_SEMAPHORE_VALUE_MAX : Z := 0x7fffffff.

(** [sizeof(struct machgate_named_semaphore)]: four words and 256 bytes. *)
Definition SEMAPHORE_SIZE : Z := 272.

(** ** The table *)

(** [strlen] of the name, up to one past the longest that is accepted. *)
Definition valid_posix_name (s : cstr) : bool :=
  match s with
  | c :: ((_ :: _) as t) => ceq c "/" && (Z.of_nat (length s) <=? MACHGATE_SEMAPHORE_NAME_MAX) && negb (existsb (ceq "/") t)
  | _ => false
  end.

Definition named (name : cstr) (s : named_semaphore) : bool :=
  s_used s && negb (s_unlinked s) && streq (s_name s) name.

Definition find_named_semaphore (l : list named_semaphore) (name : cstr) : option nat := find_slot (named name) l.
Definition find_free_named_semaphore (l : list named_semaphore) : option nat := find_slot (fun s => negb (s_used s)) l.

(** Where slot [i] of the table at [base] is. *)
Definition handle_of (base : Z) (i : nat) : Z := u64 (base + SEMAPHORE_SIZE * Z.of_nat i).

Fixpoint semaphore_from (base handle : Z) (i : nat) (l : list named_semaphore) : option nat :=
  match l with
  | [] => None
  | s :: l => if s_used s && (handle_of base i =? handle) then Some i else semaphore_from base handle (S i) l
  end.
Definition semaphore_from_handle (base : Z) (l : list named_semaphore) (handle : Z) : option nat :=
  semaphore_from base handle 0 l.

Definition set_refs (refs : Z) (s : named_semaphore) : named_semaphore :=
  mk_sem (s_used s) (s_unlinked s) (s_value s) refs (s_name s).
Definition set_value (value : Z) (s : named_semaphore) : named_semaphore :=
  mk_sem (s_used s) (s_unlinked s) value (s_refs s) (s_name s).
Definition set_unlinked (s : named_semaphore) : named_semaphore :=
  mk_sem (s_used s) true (s_value s) (s_refs s) (s_name s).

Definition release_named_semaphore (s : named_semaphore) : named_semaphore :=
  let s := if 0 <? s_refs s then set_refs (s_refs s - 1) s else s in
  if (s_refs s =? 0) && s_unlinked s then no_sem else s.

(** The new semaphore, or the error number. *)
Definition named_semaphore_wait_nonblocking (s : named_semaphore) : named_semaphore + Z :=
  if s_value s =? 0 then inr EAGAIN else inl (set_value (s_value s - 1) s).
Definition named_semaphore_post (s : named_semaphore) : named_semaphore + Z :=
  if s_value s =? MACHGATE_SEMAPHORE_VALUE_MAX then inr EOVERFLOW else inl (set_value (s_value s + 1) s).

(** ** Handlers, on the table *)

Section table.
Variable base : Z.
Implicit Types (g : syscall_gate_state) (l : list named_semaphore).

(** The name has been read; [None]: the argument was null. *)
Definition sem_open g l (name : option cstr) : syscall_gate_state * list named_semaphore :=
  let flags := i32 (gs_x g 1) in
  match name with
  | None => (set_failure g DARWIN_EINVAL, l)
  | Some name =>
      if negb (valid_posix_name name) then (set_failure g DARWIN_EINVAL, l)
      else match find_named_semaphore l name with
      | Some i =>
          if nz (flags .& DARWIN_O_CREAT) && nz (flags .& DARWIN_O_EXCL) then (set_failure g (errno_to_darwin EEXIST), l)
          else (set_success g (handle_of base i), alter (fun s => set_refs (u32 (s_refs s + 1)) s) i l)
      | None =>
          if negb (nz (flags .& DARWIN_O_CREAT)) then (set_failure g (errno_to_darwin ENOENT), l)
          else if MACHGATE_SEMAPHORE_VALUE_MAX <? gs_x g 3 then (set_failure g DARWIN_EINVAL, l)
          else match find_free_named_semaphore l with
          | None => (set_failure g (errno_to_darwin ENOSPC), l)
          | Some i => (set_success g (handle_of base i), <[i := mk_sem true false (u32 (gs_x g 3)) 1 name]> l)
          end
      end
  end.

Definition sem_unlink g l (name : option cstr) : syscall_gate_state * list named_semaphore :=
  match name with
  | None => (set_failure g DARWIN_EINVAL, l)
  | Some name =>
      if negb (valid_posix_name name) then (set_failure g DARWIN_EINVAL, l)
      else match find_named_semaphore l name with
      | None => (set_failure g (errno_to_darwin ENOENT), l)
      | Some i => (set_success g 0, alter (fun s => if s_refs s =? 0 then no_sem else set_unlinked s) i l)
      end
  end.

Definition sem_close g l : syscall_gate_state * list named_semaphore :=
  match semaphore_from_handle base l (gs_x g 0) with
  | None => (set_failure g DARWIN_EINVAL, l)
  | Some i => (set_success g 0, alter release_named_semaphore i l)
  end.

(** [named_semaphore_wait_nonblocking] and [named_semaphore_post] on slot [i]. *)
Definition on_slot (f : named_semaphore -> named_semaphore + Z) (i : nat) l : list named_semaphore + Z :=
  match l !! i with
  | None => inl l
  | Some s => match f s with inl s' => inl (<[i := s']> l) | inr e => inr e end
  end.
Definition sem_apply (f : named_semaphore -> named_semaphore + Z) g l : syscall_gate_state * list named_semaphore :=
  match semaphore_from_handle base l (gs_x g 0) with
  | None => (set_failure g DARWIN_EINVAL, l)
  | Some i =>
      match on_slot f i l with
      | inr e => (set_failure g (errno_to_darwin e), l)
      | inl l' => (set_success g 0, l')
      end
  end.
Definition sem_wait := sem_apply named_semaphore_wait_nonblocking.
Definition sem_post := sem_apply named_semaphore_post.

(** The wait at the end of __semwait_signal. *)
Definition semwait_wait g l (wait_sem : option nat) : syscall_gate_state * list named_semaphore :=
  let timeout := i32 (gs_x g 2) in
  let relative := i32 (gs_x g 3) in
  match wait_sem with
  | None => (set_failure g (if nz timeout then errno_to_darwin EAGAIN else DARWIN_EINVAL), l)
  | Some i =>
      match on_slot named_semaphore_wait_nonblocking i l with
      | inr e => (set_failure g (errno_to_darwin (if nz timeout || nz relative then EAGAIN else e)), l)
      | inl l' => (set_success g 0, l')
      end
  end.

Definition semwait_signal g l : syscall_gate_state * list named_semaphore :=
  let x := gs_x g in
  let tv_sec := i64 (x 4) in
  let tv_nsec := i32 (x 5) in
  let wait_sem := semaphore_from_handle base l (x 0) in
  if (tv_sec <? 0) || (tv_nsec <? 0) || (1000000000 <=? tv_nsec) then (set_failure g DARWIN_EINVAL, l)
  else if nz (x 0) && bool_decide (wait_sem = None) then (set_failure g DARWIN_EINVAL, l)
  else
    let wait_sem := if nz (x 0) then wait_sem else None in
    if nz (x 1) then
      match semaphore_from_handle base l (x 1) with
      | None => (set_failure g DARWIN_EINVAL, l)
      | Some i =>
          match on_slot named_semaphore_post i l with
          | inr e => (set_failure g (errno_to_darwin e), l)
          | inl l' => semwait_wait g l' wait_sem
          end
      end
    else semwait_wait g l wait_sem.
End table.

(** ** Handlers *)

Section handlers.
Context {K : kernel} (base : Z).
Local Abbreviation hostm := (host statics K).
Local Open Scope host_scope.
Implicit Types g : syscall_gate_state.

(** The argument; a name of 65536 bytes or more is too long either way. *)
Definition name_argument (name : Z) : hostm (option cstr) :=
  let* m := get_mem in hret (if name =? 0 then None else Some (c_string (Z.to_nat 65536) name m)).

Definition on_table (f : list named_semaphore -> syscall_gate_state * list named_semaphore) : hostm syscall_gate_state :=
  let* s := get_vm in
  let r := f (machgate_named_semaphores s) in
  do* set_vm (with_sems (snd r) s) in hret (fst r).

Definition handle_sem_open g : hostm syscall_gate_state :=
  let* name := name_argument (gs_x g 0) in on_table (fun l => sem_open base g l name).
Definition handle_sem_close g : hostm syscall_gate_state := on_table (sem_close base g).
Definition handle_sem_unlink g : hostm syscall_gate_state :=
  let* name := name_argument (gs_x g 0) in on_table (fun l => sem_unlink g l name).
Definition handle_sem_wait g : hostm syscall_gate_state := on_table (sem_wait base g).
Definition handle_sem_trywait g : hostm syscall_gate_state := handle_sem_wait g.
Definition handle_sem_post g : hostm syscall_gate_state := on_table (sem_post base g).
Definition handle_semwait_signal g : hostm syscall_gate_state := on_table (semwait_signal base g).
End handlers.

(** ** Specification: POSIX named semaphores

    A map from handles to semaphores with at most 64 entries; an unlinked
    semaphore has lost its name and lives until its last close. *)

Record semaphore := mk_semaphore { value : Z; refs : Z; sem_name : option cstr }.
Abbreviation posix := (gmap Z semaphore).

Definition with_value (v : Z) (s : semaphore) : semaphore := mk_semaphore v (refs s) (sem_name s).

Inductive call :=
| Open (name : option cstr) (flags initial : Z)
| Unlink (name : option cstr)
| Close (h : Z)
| Wait (h : Z)
| Post (h : Z)
| Semwait (wait signal : Z) (timeout relative : bool) (tv_sec tv_nsec : Z).

Definition valid_name (name : option cstr) : option cstr :=
  match name with Some n => if valid_posix_name n then Some n else None | None => None end.
Definition bears (P : posix) (n : cstr) (h : Z) (s : semaphore) : Prop := P !! h = Some s /\ sem_name s = Some n.
Definition free_name (P : posix) (n : cstr) : Prop := forall h s, ~ bears P n h s.
Definition creates (flags : Z) : bool := nz (flags .& DARWIN_O_CREAT).
Definition exclusive (flags : Z) : bool := nz (flags .& DARWIN_O_EXCL).

(** A post and a wait that does not block: [inr]: Linux's error number. *)
Definition posix_post (h : Z) (P : posix) : posix + Z :=
  match P !! h with
  | None => inr EINVAL
  | Some s => if value s =? MACHGATE_SEMAPHORE_VALUE_MAX then inr EOVERFLOW else inl (<[h := with_value (value s + 1) s]> P)
  end.
Definition posix_wait (h : Z) (P : posix) : posix + Z :=
  match P !! h with
  | None => inr EINVAL
  | Some s => if value s =? 0 then inr EAGAIN else inl (<[h := with_value (value s - 1) s]> P)
  end.

(** [posix_step c P answer P'] *)
Inductive posix_step : call -> posix -> Z + Z -> posix -> Prop :=
| open_invalid n f v P : valid_name n = None -> posix_step (Open n f v) P (inr DARWIN_EINVAL) P
| open_again n n' f v P h s : valid_name n = Some n' -> bears P n' h s -> creates f && exclusive f = false ->
    posix_step (Open n f v) P (inl h) (<[h := mk_semaphore (value s) (u32 (refs s + 1)) (sem_name s)]> P)
| open_exists n n' f v P h s : valid_name n = Some n' -> bears P n' h s -> creates f && exclusive f = true ->
    posix_step (Open n f v) P (inr (errno_to_darwin EEXIST)) P
| open_absent n n' f v P : valid_name n = Some n' -> free_name P n' -> creates f = false ->
    posix_step (Open n f v) P (inr (errno_to_darwin ENOENT)) P
| open_too_large n n' f v P : valid_name n = Some n' -> free_name P n' -> creates f = true -> MACHGATE_SEMAPHORE_VALUE_MAX < v ->
    posix_step (Open n f v) P (inr DARWIN_EINVAL) P
| open_full n n' f v P : valid_name n = Some n' -> free_name P n' -> creates f = true -> v <= MACHGATE_SEMAPHORE_VALUE_MAX ->
    size P = 64%nat -> posix_step (Open n f v) P (inr (errno_to_darwin ENOSPC)) P
| open_new n n' f v P h : valid_name n = Some n' -> free_name P n' -> creates f = true -> v <= MACHGATE_SEMAPHORE_VALUE_MAX ->
    (size P < 64)%nat -> P !! h = None -> h <> 0 -> posix_step (Open n f v) P (inl h) (<[h := mk_semaphore v 1 (Some n')]> P)
| unlink_invalid n P : valid_name n = None -> posix_step (Unlink n) P (inr DARWIN_EINVAL) P
| unlink_absent n n' P : valid_name n = Some n' -> free_name P n' -> posix_step (Unlink n) P (inr (errno_to_darwin ENOENT)) P
| unlink_idle n n' P h s : valid_name n = Some n' -> bears P n' h s -> refs s = 0 ->
    posix_step (Unlink n) P (inl 0) (delete h P)
| unlink_open n n' P h s : valid_name n = Some n' -> bears P n' h s -> refs s <> 0 ->
    posix_step (Unlink n) P (inl 0) (<[h := mk_semaphore (value s) (refs s) None]> P)
| close_unknown h P : P !! h = None -> posix_step (Close h) P (inr DARWIN_EINVAL) P
| close_last h P s : P !! h = Some s -> refs s = 1 -> sem_name s = None ->
    posix_step (Close h) P (inl 0) (delete h P)
| close_one h P s : P !! h = Some s -> ~ (refs s = 1 /\ sem_name s = None) ->
    posix_step (Close h) P (inl 0) (<[h := mk_semaphore (value s) (Z.max 0 (refs s - 1)) (sem_name s)]> P)
| wait_granted h P P' : posix_wait h P = inl P' -> posix_step (Wait h) P (inl 0) P'
| wait_refused h P e : posix_wait h P = inr e -> posix_step (Wait h) P (inr (errno_to_darwin e)) P
| post_done h P P' : posix_post h P = inl P' -> posix_step (Post h) P (inl 0) P'
| post_refused h P e : posix_post h P = inr e -> posix_step (Post h) P (inr (errno_to_darwin e)) P
| semwait_invalid w s t r sec nsec P :
    sec < 0 \/ nsec < 0 \/ 1000000000 <= nsec \/ (w <> 0 /\ P !! w = None) \/ (s <> 0 /\ P !! s = None) ->
    posix_step (Semwait w s t r sec nsec) P (inr DARWIN_EINVAL) P
| semwait_overflow w s t r sec nsec P e : s <> 0 -> posix_post s P = inr e ->
    posix_step (Semwait w s t r sec nsec) P (inr (errno_to_darwin e)) P
| semwait_waits w s t r sec nsec P P' a P'' :
    (s = 0 /\ P' = P \/ s <> 0 /\ posix_post s P = inl P') ->
    semwait_rest w t r P' a P'' -> posix_step (Semwait w s t r sec nsec) P a P''
with semwait_rest : Z -> bool -> bool -> posix -> Z + Z -> posix -> Prop :=
| rest_none t r P : semwait_rest 0 t r P (inr (if t then errno_to_darwin EAGAIN else DARWIN_EINVAL)) P
| rest_granted w t r P P' : w <> 0 -> posix_wait w P = inl P' -> semwait_rest w t r P (inl 0) P'
| rest_refused w t r P e : w <> 0 -> posix_wait w P = inr e ->
    semwait_rest w t r P (inr (errno_to_darwin (if t || r then EAGAIN else e))) P.

(** ** The table implements the specification *)

Definition object (s : named_semaphore) : semaphore :=
  mk_semaphore (s_value s) (s_refs s) (if s_unlinked s then None else Some (s_name s)).

Fixpoint posix_from (base : Z) (i : nat) (l : list named_semaphore) : posix :=
  match l with
  | [] => ∅
  | s :: l => let P := posix_from base (S i) l in if s_used s then <[handle_of base i := object s]> P else P
  end.
Definition posix_of (base : Z) (l : list named_semaphore) : posix := posix_from base 0 l.

Definition live (s : named_semaphore) : Prop := s_used s = true /\ s_unlinked s = false.

Record slot_ok (s : named_semaphore) : Prop := {
  so_value : 0 <= s_value s <= MACHGATE_SEMAPHORE_VALUE_MAX;
  so_refs : 0 <= s_refs s < 2 ^ 32;
  so_unlinked : s_unlinked s = true -> s_refs s <> 0;
  so_name : valid_posix_name (s_name s) = true;
}.

Record table_ok (l : list named_semaphore) : Prop := {
  to_length : length l = 64%nat;
  to_slots : forall i s, l !! i = Some s -> s_used s = true -> slot_ok s;
  to_names : forall i j s t, l !! i = Some s -> l !! j = Some t -> live s -> live t -> s_name s = s_name t -> i = j;
}.

Lemma alter_insert_at {A} (f : A -> A) (i : nat) (l : list A) a : l !! i = Some a -> alter f i l = <[i := f a]> l.
Proof.
  revert i; induction l as [|b l IH]; intros [|i]; simpl; try done.
  - by intros [= ->].
  - intros H. f_equal. by apply IH.
Qed.

Section refinement.
Variable base : Z.
Hypothesis base_ok : 0 < base /\ base + SEMAPHORE_SIZE * 64 < 2 ^ 64.

Lemma handle_of_eq i : (i < 64)%nat -> handle_of base i = base + SEMAPHORE_SIZE * Z.of_nat i.
Proof. intros Hi. apply u64_small. unfold SEMAPHORE_SIZE in *. lia. Qed.

Lemma handle_of_inj i j : (i < 64)%nat -> (j < 64)%nat -> handle_of base i = handle_of base j -> i = j.
Proof. intros Hi Hj. rewrite !handle_of_eq by done. unfold SEMAPHORE_SIZE. lia. Qed.

Lemma posix_from_lookup i l h o :
  posix_from base i l !! h = Some o -> exists j s, l !! j = Some s /\ s_used s = true /\ h = handle_of base (i + j) /\ o = object s.
Proof.
  revert i; induction l as [|s l IH]; intros i; simpl; [done|].
  assert (Hn : posix_from base (S i) l !! h = Some o ->
    exists j t, (s :: l) !! j = Some t /\ s_used t = true /\ h = handle_of base (i + j) /\ o = object t).
  { intros Hl. destruct (IH _ Hl) as (j & t & ? & ? & -> & ->). exists (S j), t. rewrite Nat.add_succ_r. done. }
  destruct (s_used s) eqn:Hu; [|done]. intros [[<- <-]|[_ Hl]]%lookup_insert_Some; [|by apply Hn].
  exists 0%nat, s. by rewrite Nat.add_0_r.
Qed.

Lemma posix_from_used i l j s :
  (i + length l <= 64)%nat -> l !! j = Some s -> s_used s = true -> posix_from base i l !! handle_of base (i + j) = Some (object s).
Proof.
  revert i j; induction l as [|t l IH]; intros i j Hlen; simpl in *; [done|]. destruct j as [|j]; simpl.
  - intros [= ->] ->. rewrite Nat.add_0_r. apply lookup_insert_eq.
  - intros Hl Hu. rewrite Nat.add_succ_r. apply lookup_lt_Some in Hl as Hj.
    assert (posix_from base (S i) l !! handle_of base (S i + j) = Some (object s)) as Hr by (apply IH; [lia|done..]).
    destruct (s_used t); [|done]. rewrite lookup_insert_ne; [done|]. intros He%handle_of_inj; lia.
Qed.

Lemma posix_from_size i l : (i + length l <= 64)%nat -> size (posix_from base i l) = length (List.filter s_used l).
Proof.
  revert i; induction l as [|s l IH]; intros i Hlen; simpl in *; [apply map_size_empty|].
  destruct (s_used s); simpl; [|apply IH; lia]. rewrite map_size_insert_None; [f_equal; apply IH; lia|].
  destruct (posix_from base (S i) l !! handle_of base i) eqn:He; [|done].
  apply posix_from_lookup in He as (j & t & Hj%lookup_lt_Some & _ & He%handle_of_inj & _); lia.
Qed.

Section on_table.
Context (l : list named_semaphore) (Hok : table_ok l).

Lemma posix_of_lookup h o :
  posix_of base l !! h = Some o <-> exists i s, l !! i = Some s /\ s_used s = true /\ h = handle_of base i /\ o = object s.
Proof.
  split; [by intros (j & s & ?)%posix_from_lookup; eauto|].
  intros (i & s & Hi & Hu & -> & ->). apply (posix_from_used 0 l i); [|done..]. rewrite (to_length l Hok). lia.
Qed.

Lemma slot_index i s : l !! i = Some s -> (i < 64)%nat.
Proof. intros H%lookup_lt_Some. by rewrite (to_length l Hok) in H. Qed.

Lemma insert_ok i s s' :
  l !! i = Some s -> (s_used s' = true -> slot_ok s') ->
  (live s' -> forall j t, l !! j = Some t -> live t -> s_name t = s_name s' -> j = i) -> table_ok (<[i := s']> l).
Proof.
  intros Hi Hs Hn. apply lookup_lt_Some in Hi as Hlt. split.
  - rewrite length_insert. apply Hok.
  - intros j t [(<- & <- & _)|[_ Hj]]%list_lookup_insert_Some; [done|]. by apply (to_slots l Hok j).
  - intros j k t u Hj Hk Ht Hu He.
    apply list_lookup_insert_Some in Hj as [(<- & <- & _)|[Hij Hj]], Hk as [(<- & <- & _)|[Hik Hk]]; [done|..].
    + symmetry. by eapply Hn.
    + by eapply Hn.
    + by eapply (to_names l Hok).
Qed.

Lemma posix_insert i s s' : l !! i = Some s ->
  posix_of base (<[i := s']> l) =
  if s_used s' then <[handle_of base i := object s']> (posix_of base l) else delete (handle_of base i) (posix_of base l).
Proof.
  intros Hi. pose proof (slot_index _ _ Hi) as Hlt.
  assert (Hlen : (0 + length (<[i:=s']> l) <= 64)%nat) by (rewrite length_insert, (to_length l Hok); lia).
  assert (Hfrom : forall h o, posix_of base (<[i:=s']> l) !! h = Some o <->
    (h = handle_of base i /\ s_used s' = true /\ o = object s' \/ h <> handle_of base i /\ posix_of base l !! h = Some o)).
  { intros h o. split.
    - intros (j & t & [(<- & <- & _)|[Hij Hj]]%list_lookup_insert_Some & Hu & -> & ->)%posix_from_lookup; [by left|].
      right. split; [intros He; apply Hij; symmetry; apply handle_of_inj; [by apply (slot_index _ _ Hj)|done|done]|].
      apply posix_of_lookup. by exists j, t.
    - intros [(-> & Hu & ->)|[Hne (j & t & Hj & Hu & -> & ->)%posix_of_lookup]].
      + apply (posix_from_used 0 _ i); [done| |done]. apply list_lookup_insert_eq. by rewrite (to_length l Hok).
      + apply (posix_from_used 0 _ j); [done| |done]. rewrite list_lookup_insert_ne; [done|]. by intros ->. }
  apply map_eq. intros h. apply option_eq. intros o. rewrite Hfrom. destruct (s_used s').
  - rewrite lookup_insert_Some. naive_solver.
  - rewrite lookup_delete_Some. naive_solver.
Qed.

Lemma from_handle_some h i : semaphore_from_handle base l h = Some i -> exists s, l !! i = Some s /\ s_used s = true /\ h = handle_of base i.
Proof.
  unfold semaphore_from_handle. assert (Hg : forall k, semaphore_from base h k l = Some i -> exists j s, i = (k + j)%nat /\ l !! j = Some s /\ s_used s = true /\ h = handle_of base i).
  { clear Hok. induction l as [|s l' IH]; intros k; simpl; [done|]. destruct (s_used s && _) eqn:He.
    - intros [= <-]. apply andb_true_iff in He as [Hu He%Z.eqb_eq]. exists 0%nat, s. by rewrite Nat.add_0_r.
    - intros (j & t & -> & ?)%IH. exists (S j), t. split; [lia|done]. }
  intros (j & s & -> & Hj)%Hg. by exists s.
Qed.

Lemma from_handle_none h : semaphore_from_handle base l h = None -> posix_of base l !! h = None.
Proof.
  intros Hn. destruct (posix_of base l !! h) eqn:He; [|done]. exfalso.
  apply posix_of_lookup in He as (i & t & Hi & Hu & -> & _). revert Hn.
  assert (Hg : forall k, l !! i = Some t -> semaphore_from base (handle_of base (k + i)) k l <> None).
  { clear Hok Hi. revert i. induction l as [|u l' IH]; intros i k; simpl; [done|].
    destruct i as [|i]; simpl.
    - intros [= ->]. by rewrite Hu, Nat.add_0_r, Z.eqb_refl.
    - intros Hi. destruct (s_used u && _); [done|]. rewrite Nat.add_succ_r. by apply (IH i (S k)). }
  by apply (Hg 0%nat).
Qed.
End on_table.

(** The registers and the table after a call against the specification. *)
Definition refines (c : call) (g : syscall_gate_state) (l : list named_semaphore) (r : syscall_gate_state * list named_semaphore) : Prop :=
  exists a, posix_step c (posix_of base l) a (posix_of base (snd r)) /\ fst r = answered g a /\ table_ok (snd r).

Lemma refines_same c g l a : posix_step c (posix_of base l) a (posix_of base l) -> table_ok l -> refines c g l (answered g a, l).
Proof. intros Hs Hok. by exists a. Qed.

Lemma named_bears l name i : table_ok l -> find_named_semaphore l name = Some i ->
  exists s, l !! i = Some s /\ live s /\ s_name s = name /\ bears (posix_of base l) name (handle_of base i) (object s).
Proof.
  intros Hok (s & Hi & Hn)%find_slot_some. unfold named in Hn.
  apply andb_true_iff in Hn as [[Hu Hl%negb_true_iff]%andb_true_iff Hn%bool_decide_eq_true].
  exists s. repeat split; [done..| |by unfold object; simpl; rewrite Hl, Hn].
  apply posix_of_lookup; [done|]. by exists i, s.
Qed.

Lemma unnamed_free l name : table_ok l -> find_named_semaphore l name = None -> free_name (posix_of base l) name.
Proof.
  intros Hok Hn h o [(i & s & Hi & Hu & -> & ->)%posix_of_lookup Ho]; [|done].
  pose proof (find_slot_none _ _ _ _ Hn Hi) as Hf. unfold named in Hf. simpl in Ho.
  destruct (s_unlinked s); [done|]. injection Ho as Ho. rewrite Hu in Hf. simpl in Hf.
  by apply bool_decide_eq_false in Hf.
Qed.

Lemma full_size l : table_ok l -> find_free_named_semaphore l = None -> size (posix_of base l) = 64%nat.
Proof.
  intros Hok Hn. unfold posix_of. rewrite posix_from_size by (rewrite (to_length l Hok); lia).
  rewrite <- (to_length l Hok). f_equal. assert (Hall : forall i s, l !! i = Some s -> s_used s = true).
  { intros i s Hi. pose proof (find_slot_none _ _ _ _ Hn Hi) as H. by apply negb_false_iff in H. }
  clear -Hall. induction l as [|s l IH]; simpl; [done|]. rewrite (Hall 0%nat s eq_refl). f_equal. apply IH.
  intros i. apply (Hall (S i)).
Qed.

Lemma valid_name_some name n : valid_name name = Some n -> name = Some n /\ valid_posix_name n = true.
Proof. destruct name as [m|]; simpl; [|done]. destruct (valid_posix_name m) eqn:?; [|done]. by intros [= ->]. Qed.

Lemma update_ok l i s s' : table_ok l -> l !! i = Some s -> s_used s = true ->
  slot_ok s' -> (live s' -> s_unlinked s = false /\ s_name s' = s_name s) -> table_ok (<[i := s']> l).
Proof.
  intros Hok Hi Hu Hs Hl. eapply insert_ok; [done..|]. intros Hl' j t Hj Ht He. destruct (Hl Hl') as [Hn Hname].
  eapply (to_names l Hok); [done..| |congruence]. done.
Qed.

(** A new slot in the place of a used one. *)
Lemma posix_update l i s s' : table_ok l -> l !! i = Some s -> s_used s' = true ->
  posix_of base (<[i := s']> l) = <[handle_of base i := object s']> (posix_of base l).
Proof. intros Hok Hi Hu. by erewrite posix_insert, Hu. Qed.
Lemma posix_free l i s : table_ok l -> l !! i = Some s ->
  posix_of base (<[i := no_sem]> l) = delete (handle_of base i) (posix_of base l).
Proof. intros Hok Hi. by erewrite posix_insert. Qed.
Lemma free_ok l i s : table_ok l -> l !! i = Some s -> table_ok (<[i := no_sem]> l).
Proof. intros Hok Hi. eapply insert_ok; [done..|by intros [??]]. Qed.

Lemma sem_open_refines g l name : table_ok l -> 0 <= gs_x g 3 ->
  refines (Open name (i32 (gs_x g 1)) (gs_x g 3)) g l (sem_open base g l name).
Proof.
  intros Hok Hx3. unfold sem_open. destruct (valid_name name) as [n|] eqn:Hv.
  2:{ assert (He : sem_open base g l name = (answered g (inr DARWIN_EINVAL), l)).
      { unfold sem_open. destruct name as [n|]; [|done]. simpl in Hv. by destruct (valid_posix_name n). }
      unfold sem_open in He. cbv zeta in *. rewrite He. eapply refines_same; [|done]. by apply open_invalid. }
  destruct (valid_name_some _ _ Hv) as [-> Hvalid]. rewrite Hvalid. simpl.
  destruct (find_named_semaphore l n) as [i|] eqn:Hn.
  - destruct (named_bears _ _ _ Hok Hn) as (s & Hi & [Hu Hl] & Hname & Hb).
    destruct (nz (_ .& DARWIN_O_CREAT) && _) eqn:Hx.
    + apply (refines_same _ _ _ (inr (errno_to_darwin EEXIST))); [|done]. by eapply open_exists.
    + rewrite (alter_insert_at _ _ _ _ Hi).
      exists (inl (handle_of base i)). simpl. split; [|split; [done|eapply update_ok; try done]].
      * rewrite (posix_update _ _ s) by done.
        replace (object _) with (mk_semaphore (value (object s)) (u32 (refs (object s) + 1)) (sem_name (object s))) by done.
        by eapply open_again.
      * destruct (to_slots l Hok _ _ Hi Hu) as [? ? ? ?]. split; simpl; [done| |congruence|done]. apply u32_range.
  - pose proof (unnamed_free _ _ Hok Hn) as Hf. destruct (nz (_ .& DARWIN_O_CREAT)) eqn:Hc; simpl.
    2:{ apply (refines_same _ _ _ (inr (errno_to_darwin ENOENT))); [|done]. by eapply open_absent. }
    destruct (Z.ltb_spec MACHGATE_SEMAPHORE_VALUE_MAX (gs_x g 3)) as [Hlt|Hle].
    { apply (refines_same _ _ _ (inr DARWIN_EINVAL)); [|done]. by eapply open_too_large. }
    destruct (find_free_named_semaphore l) as [i|] eqn:Hfree.
    2:{ apply (refines_same _ _ _ (inr (errno_to_darwin ENOSPC))); [|done]. eapply open_full; try done. by apply full_size. }
    apply find_slot_some in Hfree as (s & Hi & Hu%negb_true_iff). pose proof (slot_index l Hok _ _ Hi) as Hlt.
    unfold MACHGATE_SEMAPHORE_VALUE_MAX in Hle. assert (H32 : u32 (gs_x g 3) = gs_x g 3) by (apply u32_small; lia).
    exists (inl (handle_of base i)). simpl. rewrite H32. split; [|split; [done|]].
    + rewrite (posix_update _ _ s) by done. eapply open_new; try done.
      * unfold posix_of. rewrite posix_from_size by (rewrite (to_length l Hok); lia). rewrite <- (to_length l Hok).
        by eapply filter_lt.
      * destruct (posix_of base l !! handle_of base i) eqn:He; [|done].
        apply posix_of_lookup in He as (j & t & Hj & Hu' & Heq & _); [|done]. apply handle_of_inj in Heq; [|done|by apply (slot_index l Hok _ _ Hj)]. congruence.
      * rewrite handle_of_eq by done. unfold SEMAPHORE_SIZE. lia.
    + eapply insert_ok; [done..| |].
      * intros _. split; simpl; [unfold MACHGATE_SEMAPHORE_VALUE_MAX; lia|lia|done|done].
      * intros _ j t Hj [Hut Hlt'] He. exfalso. simpl in He. apply (Hf (handle_of base j) (object t)). split.
        -- apply posix_of_lookup; [done|]. by exists j, t.
        -- unfold object. simpl. by rewrite Hlt', He.
Qed.

Lemma sem_unlink_refines g l name : table_ok l -> refines (Unlink name) g l (sem_unlink g l name).
Proof.
  intros Hok. destruct (valid_name name) as [n|] eqn:Hv.
  2:{ replace (sem_unlink g l name) with (answered g (inr DARWIN_EINVAL), l).
      - eapply refines_same; [|done]. by apply unlink_invalid.
      - unfold sem_unlink. destruct name as [n|]; [|done]. simpl in Hv. by destruct (valid_posix_name n). }
  destruct (valid_name_some _ _ Hv) as [-> Hvalid]. unfold sem_unlink. rewrite Hvalid. simpl.
  destruct (find_named_semaphore l n) as [i|] eqn:Hn.
  2:{ apply (refines_same _ _ _ (inr (errno_to_darwin ENOENT))); [|done]. eapply unlink_absent; [done|]. by apply unnamed_free. }
  destruct (named_bears _ _ _ Hok Hn) as (s & Hi & [Hu Hl] & Hname & Hb). rewrite (alter_insert_at _ _ _ _ Hi).
  exists (inl 0). simpl. destruct (Z.eqb_spec (s_refs s) 0) as [Hr|Hr]; (split; [|split; [done|]]).
  - rewrite (posix_free _ _ s) by done. by eapply unlink_idle.
  - by eapply free_ok.
  - rewrite (posix_update _ _ s) by done. by eapply (unlink_open _ _ _ _ (object s)).
  - eapply update_ok; [done..| |by intros [??]]. by destruct (to_slots l Hok _ _ Hi Hu).
Qed.

Lemma sem_close_refines g l : table_ok l -> refines (Close (gs_x g 0)) g l (sem_close base g l).
Proof.
  intros Hok. unfold sem_close. destruct (semaphore_from_handle base l (gs_x g 0)) as [i|] eqn:Hh.
  2:{ apply (refines_same _ _ _ (inr DARWIN_EINVAL)); [|done]. apply close_unknown. by apply from_handle_none. }
  destruct (from_handle_some _ _ _ Hh) as (s & Hi & Hu & ->). rewrite (alter_insert_at _ _ _ _ Hi).
  pose proof (to_slots l Hok _ _ Hi Hu) as Hs. destruct (so_refs s Hs) as [Hr0 Hr32].
  assert (HP : posix_of base l !! handle_of base i = Some (object s)) by (apply posix_of_lookup; [done|]; by exists i, s).
  exists (inl 0). simpl. destruct (decide (s_refs s = 1 /\ s_unlinked s = true)) as [[Hr Hl]|Hno].
  - assert (Hrel : release_named_semaphore s = no_sem) by (unfold release_named_semaphore; rewrite Hr; simpl; by rewrite Hl).
    rewrite Hrel. split; [|split; [done|by eapply free_ok]]. rewrite (posix_free _ _ s) by done.
    eapply close_last; [done..|]. simpl. by rewrite Hl.
  - assert (Hrel : release_named_semaphore s = set_refs (Z.max 0 (s_refs s - 1)) s).
    { unfold release_named_semaphore. pose proof (so_unlinked s Hs) as Hun. destruct (Z.ltb_spec 0 (s_refs s)); simpl.
      - rewrite Z.max_r by lia. destruct (Z.eqb_spec (s_refs s - 1) 0); [|done].
        destruct (s_unlinked s) eqn:Hl; [exfalso; apply Hno; split; [lia|done]|done].
      - assert (Hz : s_refs s = 0) by lia. rewrite Hz. simpl. destruct (s_unlinked s) eqn:Hl; [by destruct (Hun eq_refl)|].
        destruct s; simpl in *; by subst. }
    rewrite Hrel. split; [|split; [done|]].
    + rewrite (posix_update _ _ s) by done. apply (close_one _ _ (object s)); [done|]. simpl.
      intros [Hr Hl]. apply Hno. split; [done|]. by destruct (s_unlinked s).
    + eapply update_ok; [done|exact Hi|done| |by intros [??]]. split; simpl; [apply Hs|lia| |apply Hs].
      intros Hl. pose proof (so_unlinked s Hs Hl) as Hne. intros Hz. apply Hno. split; [lia|done].
Qed.

(** A post or a wait on a slot in use. *)
Lemma on_slot_refines f fp l i s :
  (f, fp) = (named_semaphore_post, posix_post) \/ (f, fp) = (named_semaphore_wait_nonblocking, posix_wait) ->
  table_ok l -> l !! i = Some s -> s_used s = true ->
  match on_slot f i l with
  | inl l' => fp (handle_of base i) (posix_of base l) = inl (posix_of base l') /\ table_ok l' /\ exists v, l' = <[i := set_value v s]> l
  | inr e => fp (handle_of base i) (posix_of base l) = inr e
  end.
Proof.
  intros Hf Hok Hi Hu. pose proof (to_slots l Hok _ _ Hi Hu) as Hs. destruct (so_value s Hs) as [Hv0 Hvm].
  assert (HP : posix_of base l !! handle_of base i = Some (object s)) by (apply posix_of_lookup; [done|]; by exists i, s).
  assert (Hset : forall v, 0 <= v <= MACHGATE_SEMAPHORE_VALUE_MAX ->
    posix_of base (<[i := set_value v s]> l) = <[handle_of base i := with_value v (object s)]> (posix_of base l) /\
    table_ok (<[i := set_value v s]> l)).
  { intros v Hv. rewrite (posix_update _ _ s) by done. split; [done|]. eapply update_ok; [done|exact Hi|done| |by intros [??]].
    split; simpl; [done|apply Hs|apply (so_unlinked s Hs)|apply Hs]. }
  unfold on_slot. rewrite Hi. destruct Hf as [[= -> ->]|[= -> ->]]; unfold named_semaphore_post, named_semaphore_wait_nonblocking, posix_post, posix_wait; rewrite HP; simpl.
  - destruct (Z.eqb_spec (s_value s) MACHGATE_SEMAPHORE_VALUE_MAX); [done|]. destruct (Hset (s_value s + 1)) as [-> ?]; [lia|]. eauto.
  - destruct (Z.eqb_spec (s_value s) 0); [done|]. destruct (Hset (s_value s - 1)) as [-> ?]; [lia|]. eauto.
Qed.

Lemma sem_wait_refines g l : table_ok l -> refines (Wait (gs_x g 0)) g l (sem_wait base g l).
Proof.
  intros Hok. unfold sem_wait, sem_apply. destruct (semaphore_from_handle base l (gs_x g 0)) as [i|] eqn:Hh.
  2:{ apply from_handle_none in Hh; [|done]. apply (refines_same _ _ _ (inr (errno_to_darwin EINVAL))); [|done]. apply wait_refused.
      unfold posix_wait. by rewrite Hh. }
  destruct (from_handle_some _ _ _ Hh) as (s & Hi & Hu & Hx).
  pose proof (on_slot_refines _ _ _ _ _ (or_intror eq_refl) Hok Hi Hu) as Hp. rewrite <- Hx in Hp. destruct (on_slot _ i l) as [l'|e].
  - destruct Hp as (Hp & Hok' & _). exists (inl 0). split; [by apply wait_granted|done].
  - apply (refines_same _ _ _ (inr (errno_to_darwin e))); [by apply wait_refused|done].
Qed.

Lemma sem_post_refines g l : table_ok l -> refines (Post (gs_x g 0)) g l (sem_post base g l).
Proof.
  intros Hok. unfold sem_post, sem_apply. destruct (semaphore_from_handle base l (gs_x g 0)) as [i|] eqn:Hh.
  2:{ apply from_handle_none in Hh; [|done]. apply (refines_same _ _ _ (inr (errno_to_darwin EINVAL))); [|done]. apply post_refused.
      unfold posix_post. by rewrite Hh. }
  destruct (from_handle_some _ _ _ Hh) as (s & Hi & Hu & Hx).
  pose proof (on_slot_refines _ _ _ _ _ (or_introl eq_refl) Hok Hi Hu) as Hp. rewrite <- Hx in Hp. destruct (on_slot _ i l) as [l'|e].
  - destruct Hp as (Hp & Hok' & _). exists (inl 0). split; [by apply post_done|done].
  - apply (refines_same _ _ _ (inr (errno_to_darwin e))); [by apply post_refused|done].
Qed.

Lemma semwait_wait_refines g l w wait_sem : table_ok l ->
  (w = 0 /\ wait_sem = None \/ w <> 0 /\ exists i s, wait_sem = Some i /\ l !! i = Some s /\ s_used s = true /\ w = handle_of base i) ->
  exists a, semwait_rest w (nz (i32 (gs_x g 2))) (nz (i32 (gs_x g 3))) (posix_of base l) a (posix_of base (snd (semwait_wait g l wait_sem))) /\
    fst (semwait_wait g l wait_sem) = answered g a /\ table_ok (snd (semwait_wait g l wait_sem)).
Proof.
  intros Hok [[-> ->]|[Hw (i & s & -> & Hi & Hu & Hx)]]; unfold semwait_wait.
  - eexists _. split; [apply rest_none|]. simpl. by destruct (nz (i32 (gs_x g 2))).
  - pose proof (on_slot_refines _ _ _ _ _ (or_intror eq_refl) Hok Hi Hu) as Hp. rewrite <- Hx in Hp. destruct (on_slot _ i l) as [l'|e].
    + destruct Hp as (Hp & Hok' & _). exists (inl 0). split; [by apply rest_granted|done].
    + eexists _. split; [by eapply rest_refused|done].
Qed.

Lemma used_after (i j : nat) s t v (l : list named_semaphore) : l !! i = Some s -> l !! j = Some t -> s_used s = true ->
  exists s', <[j := set_value v t]> l !! i = Some s' /\ s_used s' = true.
Proof.
  intros Hi Hj Hu. destruct (decide (i = j)) as [<-|Hne].
  - exists (set_value v t). rewrite list_lookup_insert_eq by (by eapply lookup_lt_Some). split; [done|]. simpl. congruence.
  - exists s. by rewrite list_lookup_insert_ne.
Qed.

Lemma semwait_signal_refines g l : table_ok l ->
  refines (Semwait (gs_x g 0) (gs_x g 1) (nz (i32 (gs_x g 2))) (nz (i32 (gs_x g 3))) (i64 (gs_x g 4)) (i32 (gs_x g 5))) g l
    (semwait_signal base g l).
Proof.
  intros Hok. unfold semwait_signal. set (w := gs_x g 0). set (x1 := gs_x g 1).
  assert (Hinv : forall c, c -> (c -> i64 (gs_x g 4) < 0 \/ i32 (gs_x g 5) < 0 \/ 1000000000 <= i32 (gs_x g 5) \/
      (w <> 0 /\ posix_of base l !! w = None) \/ (x1 <> 0 /\ posix_of base l !! x1 = None)) ->
    refines (Semwait w x1 (nz (i32 (gs_x g 2))) (nz (i32 (gs_x g 3))) (i64 (gs_x g 4)) (i32 (gs_x g 5))) g l (set_failure g DARWIN_EINVAL, l)).
  { intros c Hc H. apply (refines_same _ _ _ (inr DARWIN_EINVAL)); [|done]. apply semwait_invalid. auto. }
  destruct (_ || (1000000000 <=? _)) eqn:Ht.
  { apply (Hinv _ Ht). intros _. rewrite !orb_true_iff, !Z.ltb_lt, Z.leb_le in Ht. tauto. }
  clear Ht. destruct (nz w && _) eqn:Hw.
  { apply (Hinv _ Hw). intros _. apply andb_true_iff in Hw as [Hw Hn%bool_decide_eq_true].
    apply negb_true_iff, Z.eqb_neq in Hw. do 3 right. left. split; [done|by apply from_handle_none]. }
  assert (Hwait : w = 0 /\ (if nz w then semaphore_from_handle base l w else None) = None \/
    w <> 0 /\ exists i s, (if nz w then semaphore_from_handle base l w else None) = Some i /\ l !! i = Some s /\ s_used s = true /\ w = handle_of base i).
  { unfold nz in *. destruct (Z.eqb_spec w 0) as [Hz|Hz]; simpl in *; [by left|right]. split; [done|].
    apply bool_decide_eq_false in Hw. destruct (semaphore_from_handle base l w) as [i|] eqn:Hi; [|done].
    destruct (from_handle_some _ _ _ Hi) as (s & ?). by exists i, s. }
  clear Hw. set (wait_sem := if nz w then _ else _) in *. clearbody wait_sem. change (nz x1) with (negb (x1 =? 0)). destruct (Z.eqb_spec x1 0) as [Hz|Hz]; simpl.
  - destruct (semwait_wait_refines g l w _ Hok Hwait) as (a & Hs & Hr). exists a. split; [|done].
    eapply semwait_waits; [left; done|done].
  - destruct (semaphore_from_handle base l x1) as [j|] eqn:Hj.
    2:{ apply (Hinv (x1 <> 0) Hz). intros _. do 4 right. split; [done|by apply from_handle_none]. }
    destruct (from_handle_some _ _ _ Hj) as (t & Hjl & Hu & Hx).
    pose proof (on_slot_refines _ _ _ _ _ (or_introl eq_refl) Hok Hjl Hu) as Hp. rewrite <- Hx in Hp. destruct (on_slot _ j l) as [l'|e].
    2:{ apply (refines_same _ _ _ (inr (errno_to_darwin e))); [by apply semwait_overflow|done]. }
    destruct Hp as (Hp & Hok' & v & Hl').
    assert (Hwait' : w = 0 /\ wait_sem = None \/ w <> 0 /\ exists i s, wait_sem = Some i /\ l' !! i = Some s /\ s_used s = true /\ w = handle_of base i).
    { destruct Hwait as [?|[? (i & s & -> & Hi & Hus & ?)]]; [by left|right]. split; [done|].
      destruct (used_after i j s t v l Hi Hjl Hus) as (s' & ? & ?). exists i, s'. by rewrite Hl'. }
    destruct (semwait_wait_refines g l' w _ Hok' Hwait') as (a & Hs & Hr). exists a. split; [|done].
    eapply semwait_waits; [right; done|done].
Qed.

(** ** The calls *)

Section calls.
Context {K : kernel}.
Implicit Types p : process statics K.

Definition sems p : list named_semaphore := machgate_named_semaphores (p_vm p).
Definition with_semaphores (l : list named_semaphore) p : process statics K := with_vm (with_sems l (p_vm p)) p.

Definition sem_calls (g : syscall_gate_state) : host statics K syscall_gate_state :=
  match gs_x g 16 with
  | 268 => handle_sem_open base g
  | 269 => handle_sem_close base g
  | 270 => handle_sem_unlink g
  | 271 => handle_sem_wait base g
  | 272 => handle_sem_trywait base g
  | 273 => handle_sem_post base g
  | 334 => handle_semwait_signal base g
  | _ => hret g
  end.

(** What a call asks for. *)
Definition sem_request (g : syscall_gate_state) (m : bytemem) : call :=
  let x := gs_x g in
  let name := if x 0 =? 0 then None else Some (c_string (Z.to_nat 65536) (x 0) m) in
  match x 16 with
  | 268 => Open name (i32 (x 1)) (x 3)
  | 269 => Close (x 0)
  | 270 => Unlink name
  | 271 | 272 => Wait (x 0)
  | 273 => Post (x 0)
  | _ => Semwait (x 0) (x 1) (nz (i32 (x 2))) (nz (i32 (x 3))) (i64 (x 4)) (i32 (x 5))
  end.

Definition sem_numbers : list Z := [268; 269; 270; 271; 272; 273; 334].

Lemma on_table_refines c g (f : list named_semaphore -> syscall_gate_state * list named_semaphore) p :
  refines c g (sems p) (f (sems p)) ->
  exists a l, on_table f p = (answered g a, with_semaphores l p) /\ posix_step c (posix_of base (sems p)) a (posix_of base l) /\ table_ok l.
Proof. intros (a & Hs & Ha & Hl). exists a, (snd (f (sems p))). rewrite <- Ha. done. Qed.

Lemma sem_step_ok g p : In (gs_x g 16) sem_numbers -> 0 <= gs_x g 3 -> table_ok (sems p) ->
  exists a l, sem_calls g p = (answered g a, with_semaphores l p) /\
    posix_step (sem_request g (p_mem p)) (posix_of base (sems p)) a (posix_of base l) /\ table_ok l.
Proof.
  intros Hnr H3 Hok. unfold sem_calls, sem_request. simpl in Hnr. repeat destruct Hnr as [<-|Hnr]; [..|done].
  - exact (on_table_refines _ g (fun l => sem_open base g l _) p (sem_open_refines g _ _ Hok H3)).
  - exact (on_table_refines _ g _ p (sem_close_refines g _ Hok)).
  - exact (on_table_refines _ g (fun l => sem_unlink g l _) p (sem_unlink_refines g _ _ Hok)).
  - exact (on_table_refines _ g _ p (sem_wait_refines g _ Hok)).
  - exact (on_table_refines _ g _ p (sem_wait_refines g _ Hok)).
  - exact (on_table_refines _ g _ p (sem_post_refines g _ Hok)).
  - exact (on_table_refines _ g _ p (semwait_signal_refines g _ Hok)).
Qed.

(** The guest sees success in the carry flag. *)
Definition succeeded (g : syscall_gate_state) : bool := negb (nz (gs_nzcv g .& SYSCALL_GATE_CARRY)).

Lemma succeeded_answered g a : succeeded (answered g a) = match a with inl _ => true | inr _ => false end.
Proof.
  unfold succeeded, SYSCALL_GATE_CARRY. change 0x20000000 with (2 ^ 29). rewrite nz_land_pow2 by lia. destruct a as [v|e]; unfold answered, set_success, set_failure; cbn [gs_nzcv].
  - rewrite Z.land_spec. change (Z.testbit 0xDFFFFFFF 29) with false. by rewrite andb_false_r.
  - rewrite Z.lor_spec. change (Z.testbit SYSCALL_GATE_CARRY 29) with true. by rewrite orb_true_r.
Qed.

(** Successful posts less successful waits on [h] in a sequence of calls, and
    the process after it. *)
Definition effect (h : Z) (g : syscall_gate_state) (ok : bool) : Z :=
  if (gs_x g 0 =? h) && ok then match gs_x g 16 with 271 | 272 => -1 | 273 => 1 | _ => 0 end else 0.
Fixpoint sem_run (h : Z) (gs : list syscall_gate_state) p : Z * process statics K :=
  match gs with
  | [] => (0, p)
  | g :: gs => let r := sem_calls g p in
               let s := sem_run h gs (snd r) in (effect h g (succeeded (fst r)) + fst s, snd s)
  end.

Definition value_of p (h : Z) : option Z := value <$> posix_of base (sems p) !! h.

Lemma posix_wait_value h h' P P' s : posix_wait h' P = inl P' -> P !! h = Some s ->
  exists s', P' !! h = Some s' /\ value s' = value s + if h' =? h then -1 else 0.
Proof.
  unfold posix_wait. intros Hw Hs. destruct (P !! h') as [t|] eqn:Ht; [|done]. destruct (value t =? 0); [done|]. injection Hw as <-.
  destruct (Z.eqb_spec h' h) as [->|Hne].
  - rewrite lookup_insert_eq. eexists. split; [done|]. simpl. assert (t = s) as -> by congruence. lia.
  - rewrite lookup_insert_ne by done. exists s. split; [done|lia].
Qed.
Lemma posix_post_value h h' P P' s : posix_post h' P = inl P' -> P !! h = Some s ->
  exists s', P' !! h = Some s' /\ value s' = value s + if h' =? h then 1 else 0.
Proof.
  unfold posix_post. intros Hw Hs. destruct (P !! h') as [t|] eqn:Ht; [|done]. destruct (value t =? _); [done|]. injection Hw as <-.
  destruct (Z.eqb_spec h' h) as [->|Hne].
  - rewrite lookup_insert_eq. eexists. split; [done|]. simpl. assert (t = s) as -> by congruence. lia.
  - rewrite lookup_insert_ne by done. exists s. split; [done|lia].
Qed.

Lemma open_value n f v P a P' h s : posix_step (Open n f v) P a P' -> P !! h = Some s -> exists s', P' !! h = Some s' /\ value s' = value s.
Proof.
  inversion 1 as [|n0 n' f0 v0 P0 h0 s0 Hn Hb Hc| | | | |n0 n' f0 v0 P0 h0 Hn Hfree Hc Hv Hsz Hno| | | | | | | | | | | | | |]; subst; intros Hs; eauto.
  - destruct Hb as [Hb _]. destruct (decide (h0 = h)) as [->|Hne]; [rewrite lookup_insert_eq|rewrite lookup_insert_ne by done; eauto].
    eexists. split; [done|]. simpl. congruence.
  - exists s. rewrite lookup_insert_ne; [done|]. intros ->. congruence.
Qed.

Lemma effect_value h g p s : In (gs_x g 16) [268; 271; 272; 273] -> 0 <= gs_x g 3 -> table_ok (sems p) -> posix_of base (sems p) !! h = Some s ->
  let r := sem_calls g p in
  table_ok (sems (snd r)) /\ exists s', posix_of base (sems (snd r)) !! h = Some s' /\ value s' = value s + effect h g (succeeded (fst r)).
Proof.
  intros Hnr H3 Hok Hs. destruct (sem_step_ok g p) as (a & l & -> & Hstep & Hl); [simpl in Hnr; unfold sem_numbers; simpl; tauto|done|done|].
  cbv zeta. cbn [fst snd]. split; [done|]. rewrite succeeded_answered. unfold with_semaphores, sems. cbn [p_vm with_vm machgate_named_semaphores with_sems].
  unfold sem_request, effect in *. simpl in Hnr. revert Hstep. repeat destruct Hnr as [<-|Hnr]; [..|done]; intros Hstep.
  - destruct (open_value _ _ _ _ _ _ _ _ Hstep Hs) as (s' & ? & ?). exists s'. split; [done|]. destruct (_ && _); lia.
  - inversion Hstep; subst.
    + rewrite andb_true_r. by eapply posix_wait_value.
    + exists s. rewrite andb_false_r. split; [congruence|lia].
  - inversion Hstep; subst.
    + rewrite andb_true_r. by eapply posix_wait_value.
    + exists s. rewrite andb_false_r. split; [congruence|lia].
  - inversion Hstep; subst.
    + rewrite andb_true_r. by eapply posix_post_value.
    + exists s. rewrite andb_false_r. split; [congruence|lia].
Qed.

Lemma value_bounds l h s : table_ok l -> posix_of base l !! h = Some s -> 0 <= value s <= MACHGATE_SEMAPHORE_VALUE_MAX.
Proof. intros Hok (i & t & Hi & Hu & -> & ->)%posix_of_lookup; [|done]. apply (to_slots l Hok _ _ Hi Hu). Qed.
End calls.
End refinement.

(** C7. The table of 64 named semaphores implements POSIX named semaphores
    whose waits do not block: a name denotes at most one semaphore, sem_open
    gives the handle of the one it finds or of a new one with the initial value,
    sem_unlink takes the name away and the last sem_close of an unlinked
    semaphore frees it, sem_wait takes a permit or fails with EAGAIN, sem_post
    adds one up to the largest value, and __semwait_signal posts one semaphore
    and then waits for another. *)
Theorem semaphores_refine {K : kernel} base g (p : process statics K) :
  0 < base /\ base + SEMAPHORE_SIZE * 64 < 2 ^ 64 -> In (gs_x g 16) sem_numbers -> 0 <= gs_x g 3 -> table_ok (sems p) ->
  exists a l, sem_calls base g p = (answered g a, with_semaphores l p) /\
    posix_step (sem_request g (p_mem p)) (posix_of base (sems p)) a (posix_of base l) /\ table_ok l.
Proof. intros Hb Hnr H3 Hok. by apply sem_step_ok. Qed.

(** C8. A semaphore is never overdrawn: over any sequence of sem_open, sem_wait,
    sem_trywait and sem_post calls the value of a semaphore is the value it had
    plus the posts that succeeded less the waits that succeeded, and stays
    between 0 and 0x7fffffff, so no more waits succeed than there were permits
    and posts. *)
Theorem semaphore_permits {K : kernel} base h gs (p : process statics K) v :
  0 < base /\ base + SEMAPHORE_SIZE * 64 < 2 ^ 64 ->
  Forall (fun g => In (gs_x g 16) [268; 271; 272; 273] /\ 0 <= gs_x g 3) gs -> table_ok (sems p) -> value_of base p h = Some v ->
  let r := sem_run base h gs p in
  value_of base (snd r) h = Some (v + fst r) /\ 0 <= v + fst r <= MACHGATE_SEMAPHORE_VALUE_MAX.
Proof.
  intros Hb Hgs. revert p v; induction gs as [|g gs IH]; intros p v Hok Hv; simpl.
  - rewrite Z.add_0_r. split; [done|]. apply fmap_Some in Hv as (s & Hs & ->). by eapply value_bounds.
  - apply Forall_cons in Hgs as [[Hnr H3] Hgs]. apply fmap_Some in Hv as (s & Hs & ->).
    destruct (effect_value base Hb h g p s Hnr H3 Hok Hs) as (Hok' & s' & Hs' & Hval).
    rewrite Z.add_assoc, <- Hval. apply IH; [done..|]. unfold value_of. by rewrite Hs'.
Qed.

(** ** Witnesses *)

(** A guest with the name "/a" at 0x1000. *)
Definition sem_proc : process statics no_kernel :=
  @mk_proc _ no_kernel tt 0 (fun _ => default_action) 0 (put_string 0x1000 (str "/a") (fun _ => 0)) statics_initial [] 1.
Definition sem_gate (nr x0 x1 x3 : Z) : syscall_gate_state := mk_gs (upd (upd (upd (upd (fun _ => 0) 16 nr) 0 x0) 1 x1) 3 x3) 0 0 0x1004.

(** sem_open("/a", O_CREAT, 0, 1), on a table at 0x100000. *)
Definition opening : syscall_gate_state := sem_gate 268 0x1000 0x200 1.
Definition opened : process statics no_kernel := snd (sem_calls 0x100000 opening sem_proc).

Lemma initial_table_ok : table_ok (replicate 64 no_sem).
Proof.
  assert (Hno : forall i s, replicate 64 no_sem !! i = Some s -> s = no_sem).
  { intros i s Hi. apply list_elem_of_lookup_2 in Hi. by apply elem_of_replicate in Hi as [-> _]. }
  split; [done|by intros i s ->%Hno|]. intros i j s t ->%Hno _ [Hu _]. done.
Qed.

Lemma base_fits : 0 < 0x100000 /\ 0x100000 + SEMAPHORE_SIZE * 64 < 2 ^ 64.
Proof. unfold SEMAPHORE_SIZE. lia. Qed.

Lemma opened_ok : table_ok (sems opened).
Proof.
  destruct (sem_step_ok 0x100000 base_fits opening sem_proc) as (a & l & E & _ & Hl); [by left|by vm_compute|exact initial_table_ok|].
  unfold opened. by rewrite E.
Qed.

Lemma semaphores_refine_witness :
  exists a l, sem_calls 0x100000 opening sem_proc = (answered opening a, with_semaphores l sem_proc) /\
    posix_step (Open (Some (str "/a")) 0x200 1) ∅ a (posix_of 0x100000 l) /\ table_ok l.
Proof.
  apply (semaphores_refine 0x100000 opening sem_proc).
  - exact base_fits.
  - by left.
  - by vm_compute.
  - exact initial_table_ok.
Defined.

(** Two waits on a semaphore with one permit, a post, and a wait. *)
Definition sem_sequence : list syscall_gate_state :=
  [sem_gate 271 0x100000 0 0; sem_gate 272 0x100000 0 0; sem_gate 273 0x100000 0 0; sem_gate 271 0x100000 0 0].

Lemma semaphore_permits_witness :
  value_of 0x100000 (snd (sem_run 0x100000 0x100000 sem_sequence opened)) 0x100000 = Some 0.
Proof.
  destruct (semaphore_permits 0x100000 0x100000 sem_sequence opened 1) as [H _].
  - exact base_fits.
  - repeat (apply Forall_cons; split; [split; [simpl; tauto|by vm_compute]|]). constructor.
  - exact opened_ok.
  - reflexivity.
  - exact H.
Defined.

(** ** Corners *)

(** sem_wait never blocks: with no permit left it fails with EAGAIN. *)
Example wait_does_not_block :
  fst (sem_calls 0x100000 (sem_gate 271 0x100000 0 0) (snd (sem_calls 0x100000 (sem_gate 271 0x100000 0 0) opened))) =
  set_failure (sem_gate 271 0x100000 0 0) 35.
Proof. reflexivity. Qed.

(** A handle outlives its close, until the name is unlinked. *)
Example closed_handle_works :
  fst (sem_calls 0x100000 (sem_gate 273 0x100000 0 0) (snd (sem_calls 0x100000 (sem_gate 269 0x100000 0 0) opened))) =
  set_success (sem_gate 273 0x100000 0 0) 0.
Proof. reflexivity. Qed.

(** __semwait_signal has posted when its wait fails. *)
Example failed_semwait_posts :
  let g := sem_gate 334 0 0x100000 0 in
  fst (sem_calls 0x100000 g opened) = set_failure g 22 /\ value_of 0x100000 (snd (sem_calls 0x100000 g opened)) 0x100000 = Some 2.
Proof. split; reflexivity. Qed.
End Sem.
