(* ===== verification/Range200Aio.v ===== *)
(** * Asynchronous input and output: src/syscall/syscall_range_200_399.c

    The table of 64 requests with the handlers of aio_read to lio_listio, and
    the proof that it is a bounded map from control blocks to results: requests
    are done at once, their result waits to be collected. *)

From stdpp Require Import gmap.
From S2P Require Import Prelude CStr Host GateIsland GateDispatch DarwinAbi Range000 Range100 Range200.
Import Gate Dispatch Abi Range200.

Module Aio.

Definition DARWIN_AIO_ALLDONE : Z := 1.
Definition DARWIN_LIO_NOP : Z := 0.
Definition DARWIN_LIO_READ : Z := 1.
Definition DARWIN_LIO_WRITE : Z := 2.
Definition DARWIN_LIO_NOWAIT : Z := 1.
Definition DARWIN_LIO_WAIT : Z := 2.

(** ** The table *)

Definition find_aio_completion (l : list aio_completion) (aiocb : Z) : option nat := find_slot (fun c => c_aiocb c =? aiocb) l.

Definition reusable (c : aio_completion) : bool := (c_aiocb c =? 0) || c_returned c.

(** The entry of the control block, else the first that can be reused; the code
    looks for both in one pass. *)
Definition allocate_aio_completion (l : list aio_completion) (aiocb : Z) : option nat * list aio_completion :=
  match find_aio_completion l aiocb with
  | Some i => (Some i, l)
  | None => match find_slot reusable l with
            | None => (None, l)
            | Some i => (Some i, <[i := mk_aio aiocb 0 0 false]> l)
            end
  end.

(** ** Handlers *)

(** [struct darwin_aiocb]: fildes 0, offset 8, buf 16, nbytes 24, reqprio 32,
    lio_opcode 72. *)
Section handlers.
Context {K : kernel}.
Local Abbreviation hostm := (host statics K).
Local Abbreviation ld := (Range200.ld (K:=K)).
Local Open Scope host_scope.
Implicit Types g : syscall_gate_state.

(** The operation: its error number, zero when it succeeded, and its result. *)
Definition perform_transfer (aiocb operation : Z) : hostm (Z * Z) :=
  let* reqprio := ld 4 (aiocb + 32) in
  if nz reqprio then do* set_errno EINVAL in hret (EINVAL, -1)
  else
    let* fildes := ld 4 aiocb in
    let* offset := ld 8 (aiocb + 8) in
    let* buf := ld 8 (aiocb + 16) in
    let* nbytes := ld 8 (aiocb + 24) in
    do* set_errno 0 in
    let* result :=
      (if operation =? DARWIN_LIO_READ then syscall Range100.SYS_pread64 [i32 fildes; buf; nbytes; i64 offset]
       else if operation =? DARWIN_LIO_WRITE then syscall Range100.SYS_pwrite64 [i32 fildes; buf; nbytes; i64 offset]
       else do* set_errno EINVAL in hret (-1)) in
    if result <? 0 then let* e := errno_or_eio in hret (e, -1) else hret (0, result).

Definition perform_fsync (aiocb : Z) : hostm (Z * Z) :=
  do* set_errno 0 in
  let* fildes := ld 4 aiocb in
  let* result := syscall Range000.SYS_fsync [i32 fildes] in
  if result <? 0 then let* e := errno_or_eio in hret (e, -1) else hret (0, 0).

(** Allocation, the operation, and its outcome in the entry; [None]: there is no
    entry, and [errno] is ENOMEM. *)
Definition tracked (aiocb : Z) (perform : hostm (Z * Z)) : hostm (option (Z * Z)) :=
  let* s := get_vm in
  match allocate_aio_completion (aio_completions s) aiocb with
  | (None, _) => do* set_errno ENOMEM in hret None
  | (Some i, l) =>
      do* on_statics (with_aio l) in
      let* o := perform in
      do* on_statics (fun s => with_aio (<[i := mk_aio aiocb (fst o) (snd o) false]> (aio_completions s)) s) in
      hret (Some o)
  end.

Definition complete_aio_operation (aiocb operation : Z) : hostm Z :=
  let* o := tracked aiocb (perform_transfer aiocb operation) in
  hret (match o with Some (0, _) => 0 | _ => -1 end).

Definition record_aio_fsync g : hostm syscall_gate_state :=
  let aiocb := gs_x g 1 in
  if aiocb =? 0 then invalid g
  else
    let* o := tracked aiocb (perform_fsync aiocb) in
    match o with
    | None => let* e := get_errno in hret (set_failure g (errno_to_darwin (if nz e then e else EINVAL)))
    | Some (error, _) => if nz error then hret (set_failure g (errno_to_darwin error)) else done g
    end.

Definition handle_aio_transfer g (operation : Z) : hostm syscall_gate_state :=
  if gs_x g 0 =? 0 then invalid g
  else
    let* r := complete_aio_operation (gs_x g 0) operation in
    if r <? 0 then fail_now g else done g.

Definition aio_return (l : list aio_completion) (aiocb : Z) : (Z + Z) * list aio_completion :=
  match find_aio_completion l aiocb with
  | None => (inr DARWIN_EINVAL, l)
  | Some i =>
      match l !! i with
      | None => (inr DARWIN_EINVAL, l)
      | Some c =>
          if c_returned c then (inr DARWIN_EINVAL, l)
          else (if nz (c_error c) then inr (errno_to_darwin (c_error c)) else inl (c_result c),
                <[i := mk_aio (c_aiocb c) (c_error c) (c_result c) true]> l)
      end
  end.
Definition handle_aio_return g : hostm syscall_gate_state :=
  let* s := get_vm in
  let r := aio_return (aio_completions s) (gs_x g 0) in
  do* set_vm (with_aio (snd r) s) in hret (answered g (fst r)).

(** The entry of a control block whose result was not collected. *)
Definition uncollected (l : list aio_completion) (aiocb : Z) : option aio_completion :=
  match find_aio_completion l aiocb with
  | Some i => match l !! i with Some c => if c_returned c then None else Some c | None => None end
  | None => None
  end.

Definition handle_aio_error g : hostm syscall_gate_state :=
  let* s := get_vm in
  hret (match uncollected (aio_completions s) (gs_x g 0) with
        | None => set_failure g DARWIN_EINVAL
        | Some c => set_success g (errno_to_darwin (c_error c))
        end).

(** The control blocks of a list in memory. *)
Definition aio_list (list_ptr count : Z) (m : bytemem) : list Z := map (fun i => load 8 (list_ptr + 8 * i) m) (seqZ 0 count).

Definition handle_aio_suspend g : hostm syscall_gate_state :=
  let count := i32 (gs_x g 1) in
  if (gs_x g 0 =? 0) || (count <? 0) then invalid g
  else
    let* m := get_mem in
    let* s := get_vm in
    if existsb (fun q => nz q && bool_decide (is_Some (uncollected (aio_completions s) q))) (aio_list (gs_x g 0) count m)
    then done g else invalid g.

Definition handle_aio_cancel g : hostm syscall_gate_state :=
  let aiocb := gs_x g 1 in
  let* s := get_vm in
  if nz aiocb && bool_decide (find_aio_completion (aio_completions s) aiocb = None) then invalid g
  else hret (set_success g DARWIN_AIO_ALLDONE).

(** The loop of lio_listio; [n] entries are left. *)
Fixpoint lio_loop (n : nat) g (list_ptr index : Z) : hostm syscall_gate_state :=
  match n with
  | O => done g
  | S n =>
      let* aiocb := ld 8 (list_ptr + 8 * index) in
      let* opcode := ld 4 (aiocb + 72) in
      if (aiocb =? 0) || (i32 opcode =? DARWIN_LIO_NOP) then lio_loop n g list_ptr (index + 1)
      else if negb (i32 opcode =? DARWIN_LIO_READ) && negb (i32 opcode =? DARWIN_LIO_WRITE) then invalid g
      else
        let* r := complete_aio_operation aiocb (i32 opcode) in
        if r <? 0 then fail_now g else lio_loop n g list_ptr (index + 1)
  end.
Definition handle_lio_listio g : hostm syscall_gate_state :=
  let x := gs_x g in
  let mode := i32 (x 0) in
  let count := i32 (x 2) in
  if (negb (mode =? DARWIN_LIO_WAIT) && negb (mode =? DARWIN_LIO_NOWAIT)) || (x 1 =? 0) || (count <? 0) ||
     (DARWIN_AIO_TRACKED_REQUESTS <? count) then invalid g
  else if (mode =? DARWIN_LIO_NOWAIT) && nz (x 3) then set_enosys g
  else lio_loop (Z.to_nat count) g (x 1) 0.
End handlers.

(** ** Specification: a bounded map

    At most 64 control blocks have a result waiting: the error number and the
    result of the operation. *)

Abbreviation pending := (gmap Z (Z * Z)).

Inductive request :=
| Submit (aiocb : Z)          (* a transfer or an fsync *)
| Return (aiocb : Z)
| Error (aiocb : Z)
| Suspend (list : list Z).

Definition room (P : pending) (q : Z) : bool := bool_decide (is_Some (P !! q)) || (Nat.ltb (size P) 64).

(** [outcome]: what the operation of a [Submit] gave. *)
Definition pending_step (c : request) (outcome : Z * Z) (P : pending) : (Z + Z) * pending :=
  match c with
  | Submit q =>
      if room P q then (if nz (fst outcome) then inr (errno_to_darwin (fst outcome)) else inl 0, <[q := outcome]> P)
      else (inr (errno_to_darwin ENOMEM), P)
  | Return q =>
      match P !! q with
      | None => (inr DARWIN_EINVAL, P)
      | Some (e, r) => (if nz e then inr (errno_to_darwin e) else inl r, delete q P)
      end
  | Error q =>
      match P !! q with
      | None => (inr DARWIN_EINVAL, P)
      | Some (e, _) => (inl (errno_to_darwin e), P)
      end
  | Suspend qs => (if existsb (fun q => nz q && bool_decide (is_Some (P !! q))) qs then inl 0 else inr DARWIN_EINVAL, P)
  end.

(** ** The table implements the specification *)

Definition waiting (c : aio_completion) : bool := nz (c_aiocb c) && negb (c_returned c).
Definition pending_pairs (l : list aio_completion) : list (Z * (Z * Z)) :=
  omap (fun c => if waiting c then Some (c_aiocb c, (c_error c, c_result c)) else None) l.
Definition pending_of (l : list aio_completion) : pending := list_to_map (pending_pairs l).

Definition distinct (l : list aio_completion) : Prop :=
  forall i j c d, l !! i = Some c -> l !! j = Some d -> c_aiocb c = c_aiocb d -> c_aiocb c <> 0 -> i = j.
Definition aio_ok (l : list aio_completion) : Prop := length l = 64%nat /\ distinct l.

Lemma waiting_key c : waiting c = true -> c_aiocb c <> 0 /\ c_returned c = false.
Proof. intros [H1%negb_true_iff%Z.eqb_neq H2%negb_true_iff]%andb_true_iff. done. Qed.

Lemma waiting_reusable c : waiting c = negb (reusable c).
Proof. unfold waiting, reusable, nz. by rewrite negb_orb. Qed.

Lemma pairs_elem l q o : (q, o) ∈ pending_pairs l <-> exists i c, l !! i = Some c /\ waiting c = true /\ c_aiocb c = q /\ o = (c_error c, c_result c).
Proof.
  unfold pending_pairs. rewrite list_elem_of_omap. split.
  - intros (c & Hc%list_elem_of_lookup & Hq). destruct Hc as [i Hi]. destruct (waiting c) eqn:Hw; [|done]. injection Hq as <- <-. by exists i, c.
  - intros (i & c & Hi & Hw & <- & ->). exists c. split; [by eapply list_elem_of_lookup_2|]. by rewrite Hw.
Qed.

Lemma pairs_nodup l : distinct l -> NoDup (pending_pairs l).*1.
Proof.
  induction l as [|c l IH]; intros Hd; simpl; [constructor|].
  assert (Hd' : distinct l) by (intros i j a b Hi Hj Ha Hz; by specialize (Hd (S i) (S j) a b Hi Hj Ha Hz); injection Hd).
  unfold pending_pairs. simpl. destruct (waiting c) eqn:Hw; [|by apply IH]. constructor; [|by apply IH].
  intros ([q o] & Hq & Hin)%list_elem_of_fmap. simpl in Hq. apply pairs_elem in Hin as (i & d & Hi & _ & Hk & _).
  apply waiting_key in Hw as [Hz _]. specialize (Hd 0%nat (S i) c d eq_refl Hi). rewrite Hk, <- Hq in Hd. by specialize (Hd eq_refl Hz).
Qed.

Lemma pending_lookup l q o : distinct l ->
  pending_of l !! q = Some o <-> exists i c, l !! i = Some c /\ waiting c = true /\ c_aiocb c = q /\ o = (c_error c, c_result c).
Proof. intros Hd. unfold pending_of. rewrite <- elem_of_list_to_map by by apply pairs_nodup. apply pairs_elem. Qed.

Lemma pending_size l : distinct l -> size (pending_of l) = length (List.filter waiting l).
Proof.
  intros Hd. unfold pending_of. rewrite map_size_list_to_map by by apply pairs_nodup. clear Hd.
  unfold pending_pairs. induction l as [|c l IH]; simpl; [done|]. destruct (waiting c); simpl; [f_equal|]; apply IH.
Qed.

Lemma full_filter {A} (f : A -> bool) l : (forall i a, l !! i = Some a -> f a = true) -> List.filter f l = l.
Proof.
  induction l as [|a l IH]; intros Hall; simpl; [done|]. rewrite (Hall 0%nat a eq_refl). f_equal. apply IH.
  intros i. apply (Hall (S i)).
Qed.

(** Writing the entry of [q]: over its old one, or over one that can be reused
    when it has none. *)
Definition entry_of (l : list aio_completion) (q : Z) (i : nat) : Prop :=
  exists c, l !! i = Some c /\ (c_aiocb c = q \/ reusable c = true /\ forall j d, l !! j = Some d -> c_aiocb d <> q).

Lemma write_entry l q i e r b : aio_ok l -> q <> 0 -> entry_of l q i ->
  aio_ok (<[i := mk_aio q e r b]> l) /\
  pending_of (<[i := mk_aio q e r b]> l) = if b then delete q (pending_of l) else <[q := (e, r)]> (pending_of l).
Proof.
  intros [Hlen Hd] Hq (c & Hi & Hc). apply lookup_lt_Some in Hi as Hlt.
  assert (Hother : forall j d, j <> i -> l !! j = Some d -> c_aiocb d <> q).
  { intros j d Hne Hj He. destruct Hc as [Hc|[_ Hc]]; [|by eapply Hc]. apply Hne. eapply Hd; [done..|congruence|congruence]. }
  assert (Hd' : distinct (<[i := mk_aio q e r b]> l)).
  { intros j k a d Hj Hk He Hz.
    apply list_lookup_insert_Some in Hj as [(<- & <- & _)|[Hij Hj]], Hk as [(<- & <- & _)|[Hik Hk]]; simpl in *; [done|..].
    - symmetry in He. by apply Hother in Hk.
    - by apply Hother in Hj.
    - by eapply Hd. }
  split; [split; [by rewrite length_insert|done]|].
  assert (Hold : forall x o, x <> q -> (exists j d, <[i := mk_aio q e r b]> l !! j = Some d /\ waiting d = true /\ c_aiocb d = x /\ o = (c_error d, c_result d)) <-> pending_of l !! x = Some o).
  { intros x o Hx. rewrite pending_lookup by done. split; intros (j & d & Hj & Hw & Hk & Ho).
    - apply list_lookup_insert_Some in Hj as [(_ & <- & _)|[_ Hj]]; [done|]. by exists j, d.
    - exists j, d. split; [|done]. rewrite list_lookup_insert_ne; [done|]. intros <-. rewrite Hi in Hj. injection Hj as <-.
      destruct Hc as [Hc|[Hr _]]; [congruence|]. rewrite waiting_reusable, Hr in Hw. done. }
  apply map_eq. intros x. apply option_eq. intros o. rewrite pending_lookup by done. destruct (decide (x = q)) as [->|Hx].
  - assert (Hat : forall j d, <[i := mk_aio q e r b]> l !! j = Some d -> c_aiocb d = q -> d = mk_aio q e r b).
    { intros j d [(_ & <- & _)|[Hij Hj]]%list_lookup_insert_Some Hk; [done|]. by destruct (Hother j d). }
    destruct b; [rewrite lookup_delete_eq|rewrite lookup_insert_eq]; split; try done.
    + intros (j & d & Hj & Hw & Hk & _). rewrite (Hat j d Hj Hk) in Hw. unfold waiting in Hw. simpl in Hw. by rewrite andb_false_r in Hw.
    + intros (j & d & Hj & Hw & Hk & ->). by rewrite (Hat j d Hj Hk).
    + intros [= <-]. exists i, (mk_aio q e r false). split; [by apply list_lookup_insert_eq|]. split; [|done].
      unfold waiting, nz. simpl. by rewrite (proj2 (Z.eqb_neq q 0) Hq).
  - rewrite Hold by done. destruct b; [by rewrite lookup_delete_ne|by rewrite lookup_insert_ne].
Qed.

Lemma allocate_ok l q : aio_ok l -> q <> 0 ->
  match allocate_aio_completion l q with
  | (Some i, l') => room (pending_of l) q = true /\ entry_of l q i /\ forall c, <[i := c]> l' = <[i := c]> l
  | (None, l') => room (pending_of l) q = false
  end.
Proof.
  intros [Hlen Hd] Hq. unfold allocate_aio_completion. destruct (find_aio_completion l q) as [i|] eqn:Hf.
  - destruct (find_slot_some _ _ _ Hf) as (c & Hi & Hk%Z.eqb_eq). split; [|split; [exists c; auto|done]].
    unfold room. destruct (waiting c) eqn:Hw.
    + rewrite (bool_decide_true (is_Some (pending_of l !! q))); [done|]. exists (c_error c, c_result c). apply pending_lookup; [done|]. by exists i, c.
    + apply orb_true_iff. right. apply Nat.ltb_lt. rewrite pending_size, <- Hlen by done. by eapply filter_lt.
  - assert (Hno : forall j d, l !! j = Some d -> c_aiocb d <> q) by (intros j d Hj He; apply (find_slot_none _ _ _ _ Hf) in Hj; by apply Z.eqb_neq in Hj).
    destruct (find_slot reusable l) as [i|] eqn:Hr.
    + destruct (find_slot_some _ _ _ Hr) as (c & Hi & Hc). split; [|split; [exists c; auto|]].
      * apply orb_true_iff. right. apply Nat.ltb_lt. rewrite pending_size, <- Hlen by done. eapply filter_lt; [done|]. by rewrite waiting_reusable, Hc.
      * intros d. apply list_insert_insert_eq.
    + apply orb_false_iff. split.
      * apply bool_decide_eq_false. intros [o (i & c & Hi & _ & Hk & _)%pending_lookup]; [|done]. by apply Hno in Hi.
      * apply Nat.ltb_ge. rewrite pending_size, full_filter by (try done; intros i c Hi; rewrite waiting_reusable; by rewrite (find_slot_none _ _ _ _ Hr Hi)). lia.
Qed.

Lemma uncollected_pending l q : aio_ok l -> q <> 0 ->
  match uncollected l q with
  | Some c => pending_of l !! q = Some (c_error c, c_result c) /\ exists i, find_aio_completion l q = Some i /\ l !! i = Some c /\ c_aiocb c = q /\ c_returned c = false
  | None => pending_of l !! q = None /\ forall i c, find_aio_completion l q = Some i -> l !! i = Some c -> c_returned c = true
  end.
Proof.
  intros [Hlen Hd] Hq. unfold uncollected. destruct (find_aio_completion l q) as [i|] eqn:Hf.
  - destruct (find_slot_some _ _ _ Hf) as (c & Hi & Hk%Z.eqb_eq). rewrite Hi. destruct (c_returned c) eqn:Hr.
    + split; [|by intros j d [= <-] Hj; congruence]. destruct (pending_of l !! q) as [o|] eqn:Hp; [|done]. exfalso.
      apply pending_lookup in Hp as (j & d & Hj & Hw & Hkd & _); [|done]. apply waiting_key in Hw as [Hz Hn].
      assert (j = i) as -> by (eapply Hd; [done..|congruence|done]). congruence.
    + split; [|by exists i]. apply pending_lookup; [done|]. exists i, c. unfold waiting, nz. by rewrite Hr, Hk, (proj2 (Z.eqb_neq q 0) Hq).
  - split; [|done]. destruct (pending_of l !! q) as [o|] eqn:Hp; [|done]. exfalso.
    apply pending_lookup in Hp as (j & d & Hj & _ & Hkd & _); [|done]. apply (find_slot_none _ _ _ _ Hf), Z.eqb_neq in Hj. done.
Qed.

(** ** The handlers *)

Section handler_proofs.
Context {K : kernel}.
Implicit Types (g : syscall_gate_state) (p : process statics K).

Definition table p : list aio_completion := aio_completions (p_vm p).
Definition with_table (l : list aio_completion) p : process statics K := with_vm (with_aio l (p_vm p)) p.

(** An operation neither reads nor writes the statics. *)
Definition frames {A} (f : host statics K A) : Prop := forall v p, f (with_vm v p) = (fst (f p), with_vm v (snd (f p))).

Lemma frames_bind {A B} (f : host statics K A) (h : A -> host statics K B) : frames f -> (forall a, frames (h a)) -> frames (hbind f h).
Proof.
  intros Hf Hh v p. unfold hbind. rewrite Hf. destruct (f p) as [a p']. simpl. apply Hh.
Qed.
Lemma frames_syscall nr args : frames (syscall nr args).
Proof. intros v p. unfold syscall. simpl. destruct (k_syscall K nr args (p_mem p) (p_kernel p)) as [[[r|e] m] k]; done. Qed.
Lemma frames_transfer q op : frames (perform_transfer q op).
Proof.
  assert (Hld : forall n a, frames (Range200.ld (K:=K) n a)) by done.
  unfold perform_transfer, errno_or_eio.
  repeat first [apply frames_bind; [|intros ?] | apply frames_syscall | apply Hld | case_match | done].
Qed.
Lemma frames_fsync q : frames (perform_fsync q).
Proof.
  assert (Hld : forall n a, frames (Range200.ld (K:=K) n a)) by done.
  unfold perform_fsync, errno_or_eio.
  repeat first [apply frames_bind; [|intros ?] | apply frames_syscall | apply Hld | case_match | done].
Qed.

(** What [tracked] does. *)
Lemma tracked_spec q (f : host statics K (Z * Z)) p : aio_ok (table p) -> q <> 0 -> frames f ->
  if room (pending_of (table p)) q
  then exists l, tracked q f p = (Some (fst (f p)), with_table l (snd (f p))) /\ aio_ok l /\ pending_of l = <[q := fst (f p)]> (pending_of (table p))
                 /\ p_vm (snd (f p)) = p_vm p
  else tracked q f p = (None, with_errno ENOMEM p).
Proof.
  intros Hok Hq Hf. pose proof (allocate_ok _ _ Hok Hq) as Ha. unfold tracked, hbind, get_vm, table in *.
  destruct (allocate_aio_completion (aio_completions (p_vm p)) q) as [[i|] l']; [|by rewrite Ha].
  destruct Ha as (-> & He & Hl'). exists (<[i := mk_aio q (fst (fst (f p))) (snd (fst (f p))) false]> (aio_completions (p_vm p))).
  unfold on_statics, hbind, get_vm, set_vm. cbn [fst snd p_vm with_vm]. pose proof (Hf (p_vm p) p) as Hvm.
  replace (with_vm (p_vm p) p) with p in Hvm by by destruct p.
  rewrite (Hf _ p). destruct (f p) as [[e r] p1]. cbn [fst snd] in *. injection Hvm as Hvm. rewrite Hvm. cbn [p_vm with_vm].
  split.
  - unfold with_table. simpl. rewrite <- (Hl' (mk_aio q e r false)). done.
  - destruct (write_entry _ q i e r false Hok Hq He) as [? ?]. by destruct p1.
Qed.

(** The handlers of the calls 313 to 315 and 317 to 319, and the request each
    makes. *)
Definition aio_calls g : host statics K syscall_gate_state :=
  match gs_x g 16 with
  | 313 => record_aio_fsync g
  | 314 => handle_aio_return g
  | 315 => handle_aio_suspend g
  | 317 => handle_aio_error g
  | 318 => handle_aio_transfer g DARWIN_LIO_READ
  | 319 => handle_aio_transfer g DARWIN_LIO_WRITE
  | _ => hret g
  end.
Definition aio_request g (m : bytemem) : request :=
  match gs_x g 16 with
  | 313 => Submit (gs_x g 1)
  | 314 => Return (gs_x g 0)
  | 315 => Suspend (aio_list (gs_x g 0) (i32 (gs_x g 1)) m)
  | 317 => Error (gs_x g 0)
  | _ => Submit (gs_x g 0)
  end.
Definition aio_operation g : host statics K (Z * Z) :=
  match gs_x g 16 with
  | 313 => perform_fsync (gs_x g 1)
  | 318 => perform_transfer (gs_x g 0) DARWIN_LIO_READ
  | 319 => perform_transfer (gs_x g 0) DARWIN_LIO_WRITE
  | _ => hret (0, 0)
  end.

(** The arguments the handlers do not refuse at once. *)
Definition aio_arguments g : Prop :=
  match gs_x g 16 with
  | 313 => gs_x g 1 <> 0
  | 315 => gs_x g 0 <> 0 /\ 0 <= i32 (gs_x g 1)
  | _ => gs_x g 0 <> 0
  end.

(** Whether the call makes its operation: a [Submit] that finds room. *)
Definition performed (c : request) (P : pending) : bool := match c with Submit q => room P q | _ => false end.

(** [o]: the outcome of the operation and the process after it.  Of the process
    the call changes the table and [errno], and what the operation changes. *)
Definition implements g p (c : request) (o : (Z * Z) * process statics K) (r : syscall_gate_state * process statics K) : Prop :=
  let s := pending_step c (fst o) (pending_of (table p)) in
  fst r = answered g (fst s) /\ aio_ok (table (snd r)) /\ pending_of (table (snd r)) = snd s /\
  exists e, snd r = with_errno e (with_table (table (snd r)) (if performed c (pending_of (table p)) then snd o else p)).

Lemma table_only l p : with_table l p = with_errno (p_errno p) (with_table (table (with_table l p)) p).
Proof. by destruct p as [? ? ? ? ? [] ? ?]. Qed.

(** [errno] after an operation that failed. *)
Lemma transfer_errno q op p : fst (fst (perform_transfer q op p)) <> 0 ->
  fst (errno_or_eio (snd (perform_transfer q op p))) = fst (fst (perform_transfer q op p)).
Proof.
  unfold perform_transfer, hbind, Range200.ld, hbind, get_mem, hret, set_errno, errno_or_eio, get_errno, hbind. cbn [fst snd p_mem with_errno].
  destruct (nz _); [done|].
  match goal with |- context [if ?b then syscall ?x ?y else ?z] => generalize (if b then syscall x y else z) end.
  intros f. destruct (f _) as [r p1]. destruct (r <? 0); done.
Qed.

Lemma implements_submit g p q (f : host statics K (Z * Z)) (finish : option (Z * Z) -> host statics K syscall_gate_state) :
  aio_ok (table p) -> q <> 0 -> frames f ->
  (let o := fst (f p) in forall v, finish (Some o) (with_vm v (snd (f p))) =
     (answered g (if nz (fst o) then inr (errno_to_darwin (fst o)) else inl 0), with_vm v (snd (f p)))) ->
  finish None (with_errno ENOMEM p) = (answered g (inr (errno_to_darwin ENOMEM)), with_errno ENOMEM p) ->
  implements g p (Submit q) (f p) (hbind (tracked q f) finish p).
Proof.
  intros Hok Hq Hf Hsome Hnone. pose proof (tracked_spec q f p Hok Hq Hf) as Ht. unfold implements, hbind, pending_step, performed.
  destruct (room (pending_of (table p)) q).
  - destruct Ht as (l & -> & Hl & HP & Hvm). rewrite (Hsome _ : finish _ (with_table l _) = (_, with_table l _)). split; [done|]. split; [exact Hl|]. split; [exact HP|].
    exists (p_errno (snd (f p))). exact (table_only l (snd (f p))).
  - rewrite Ht, Hnone. split; [done|]. split; [done|]. split; [done|]. exists ENOMEM. unfold with_table, table. by destruct p as [? ? ? ? ? [] ? ?].
Qed.

Lemma hbind_assoc {A B C} (m : host statics K A) (f : A -> host statics K B) (h : B -> host statics K C) p :
  hbind (hbind m f) h p = hbind m (fun a => hbind (f a) h) p.
Proof. unfold hbind. by destruct (m p). Qed.

Lemma implements_transfer g p op : aio_ok (table p) -> gs_x g 0 <> 0 ->
  implements g p (Submit (gs_x g 0)) (perform_transfer (gs_x g 0) op p) (handle_aio_transfer g op p).
Proof.
  intros Hok Hq. unfold handle_aio_transfer. rewrite (proj2 (Z.eqb_neq _ 0) Hq).
  unfold complete_aio_operation. rewrite hbind_assoc.
  apply (implements_submit g p (gs_x g 0) (perform_transfer (gs_x g 0) op)
    (fun o => hbind (hret (match o with Some (0, _) => 0 | _ => -1 end)) (fun r => if r <? 0 then fail_now g else done g)));
    [done|done|apply frames_transfer| |done].
  cbv zeta. intros v. pose proof (transfer_errno (gs_x g 0) op p) as He. destruct (perform_transfer (gs_x g 0) op p) as [[e r] p1].
  cbn [fst snd] in *. unfold errno_or_eio, get_errno, hbind, hret in *. cbn [fst snd] in He.
  unfold nz at 1. destruct (Z.eqb_spec e 0) as [->|Hne]; [done|]. specialize (He Hne). simpl.
  destruct e; [done|..]; simpl; unfold fail_now, errno_or_eio, get_errno, hbind, hret; cbn [p_errno with_vm]; by rewrite He.
Qed.

Lemma implements_fsync g p : aio_ok (table p) -> gs_x g 1 <> 0 ->
  implements g p (Submit (gs_x g 1)) (perform_fsync (gs_x g 1) p) (record_aio_fsync g p).
Proof.
  intros Hok Hq. unfold record_aio_fsync. rewrite (proj2 (Z.eqb_neq _ 0) Hq).
  apply implements_submit; [done|done|apply frames_fsync| |done].
  cbv zeta. intros v. destruct (perform_fsync (gs_x g 1) p) as [[e r] p1]. cbn [fst snd]. by destruct (nz e).
Qed.

(** A call that makes no operation changes the table only. *)
Lemma implements_lookup g p c o a l : performed c (pending_of (table p)) = false ->
  (a, pending_of l) = pending_step c (fst o) (pending_of (table p)) -> aio_ok l -> implements g p c o (answered g a, with_table l p).
Proof.
  intros Hc Hs Hl. unfold implements. rewrite <- Hs, Hc. split; [done|]. split; [exact Hl|]. split; [done|].
  exists (p_errno p). exact (table_only l p).
Qed.
Lemma with_own_table p : with_table (table p) p = p.
Proof. by destruct p as [? ? ? ? ? [] ? ?]. Qed.

Lemma implements_return g p : aio_ok (table p) -> gs_x g 0 <> 0 -> implements g p (Return (gs_x g 0)) ((0, 0), p) (handle_aio_return g p).
Proof.
  intros Hok Hq. pose proof (uncollected_pending _ _ Hok Hq) as Hu. unfold uncollected in Hu.
  assert (E : handle_aio_return g p = (answered g (fst (aio_return (table p) (gs_x g 0))), with_table (snd (aio_return (table p) (gs_x g 0))) p)) by done.
  rewrite E. clear E. unfold aio_return. destruct (find_aio_completion (table p) (gs_x g 0)) as [i|] eqn:Hf.
  2:{ apply implements_lookup; [done| |done]. cbn. by destruct Hu as [-> _]. }
  destruct (find_slot_some _ _ _ Hf) as (c & Hi & Hk%Z.eqb_eq). rewrite Hi in *. destruct (c_returned c).
  { apply implements_lookup; [done| |done]. cbn. by destruct Hu as [-> _]. }
  destruct Hu as [Hu _]. cbn [fst snd]. rewrite Hk.
  destruct (write_entry (table p) (gs_x g 0) i (c_error c) (c_result c) true Hok Hq) as [Hl HP]; [exists c; auto|].
  apply implements_lookup; [done| |done]. cbn. by rewrite Hu, HP.
Qed.

Lemma implements_error g p : aio_ok (table p) -> gs_x g 0 <> 0 -> implements g p (Error (gs_x g 0)) ((0, 0), p) (handle_aio_error g p).
Proof.
  intros Hok Hq. pose proof (uncollected_pending _ _ Hok Hq) as Hu.
  assert (E : handle_aio_error g p = (answered g (match uncollected (table p) (gs_x g 0) with None => inr DARWIN_EINVAL | Some c => inl (errno_to_darwin (c_error c)) end),
    with_table (table p) p)) by (rewrite with_own_table; unfold handle_aio_error, hbind, get_vm, hret, table; by destruct (uncollected _ _)).
  rewrite E. apply implements_lookup; [done| |done]. cbn. by destruct (uncollected (table p) (gs_x g 0)); destruct Hu as [-> _].
Qed.

Lemma implements_suspend g p : aio_ok (table p) -> gs_x g 0 <> 0 -> 0 <= i32 (gs_x g 1) ->
  implements g p (Suspend (aio_list (gs_x g 0) (i32 (gs_x g 1)) (p_mem p))) ((0, 0), p) (handle_aio_suspend g p).
Proof.
  intros Hok Hq Hn.
  assert (He : forall qs, existsb (fun q => nz q && bool_decide (is_Some (uncollected (table p) q))) qs =
    existsb (fun q => nz q && bool_decide (is_Some (pending_of (table p) !! q))) qs).
  { induction qs as [|q qs IH]; simpl; [done|]. rewrite IH. f_equal. unfold nz. destruct (Z.eqb_spec q 0) as [|Hqz]; [done|]. simpl.
    pose proof (uncollected_pending (table p) q Hok Hqz) as Hu. destruct (uncollected _ q); destruct Hu as [-> _]; done. }
  unfold handle_aio_suspend. rewrite (proj2 (Z.eqb_neq _ 0) Hq), (proj2 (Z.ltb_ge _ _) Hn). cbn [orb].
  unfold hbind, get_mem, get_vm. cbv zeta beta iota. fold (table p). rewrite He. set (found := existsb _ _).
  replace ((if found then done g else invalid g) p) with (answered g (if found then inl 0 else inr DARWIN_EINVAL), with_table (table p) p)
    by (rewrite with_own_table; by destruct found).
  by apply implements_lookup.
Qed.

Definition well_formed g : Prop := In (gs_x g 16) [313; 314; 315; 317; 318; 319] /\ aio_arguments g.

Lemma aio_step_ok g p : well_formed g -> aio_ok (table p) ->
  implements g p (aio_request g (p_mem p)) (aio_operation g p) (aio_calls g p).
Proof.
  intros [Hnr Ha] Hok. unfold aio_arguments, aio_request, aio_operation, aio_calls in *. simpl in Hnr.
  revert Ha. repeat destruct Hnr as [<-|Hnr]; [..|done]; intros Ha.
  - exact (implements_fsync g p Hok Ha).
  - exact (implements_return g p Hok Ha).
  - exact (implements_suspend g p Hok (proj1 Ha) (proj2 Ha)).
  - exact (implements_error g p Hok Ha).
  - exact (implements_transfer g p _ Hok Ha).
  - exact (implements_transfer g p _ Hok Ha).
Qed.

(** The system call that does an operation, read off the control block: none
    when a transfer has a priority, which is refused. *)
Definition aio_system_call g (m : bytemem) : option (Z * list Z) :=
  match gs_x g 16 with
  | 313 => Some (82, [i32 (load 4 (gs_x g 1) m)])                                                  (* fsync *)
  | nr =>
      let q := gs_x g 0 in
      if load 4 (q + 32) m =? 0 then
        Some (if nr =? 318 then 67 else 68,                                                        (* pread64, pwrite64 *)
              [i32 (load 4 q m); load 8 (q + 16) m; load 8 (q + 24) m; i64 (load 8 (q + 8) m)])
      else None
  end.

(** What comes of it: the error number and the result, and the process after
    it, [errno] apart. *)
Definition aio_effect g p : (Z * Z) * process statics K :=
  match aio_system_call g (p_mem p) with
  | None => ((EINVAL, -1), p)
  | Some (nr, args) =>
      let '(r, m, k) := k_syscall K nr args (p_mem p) (p_kernel p) in
      (match r with
       | inl v => if v <? 0 then (EIO, -1) else (0, if gs_x g 16 =? 313 then 0 else v)
       | inr e => (if e =? 0 then EIO else e, -1)
       end, with_mem m (with_kernel k p))
  end.

(** The process up to [errno]. *)
Definition same_but_errno p q : Prop := exists e, q = with_errno e p.

Lemma transfer_effect q op nr p : (op, nr) = (DARWIN_LIO_READ, 67) \/ (op, nr) = (DARWIN_LIO_WRITE, 68) ->
  let m := p_mem p in
  let o := if load 4 (q + 32) m =? 0 then
             let '(r, m, k) := k_syscall K nr [i32 (load 4 q m); load 8 (q + 16) m; load 8 (q + 24) m; i64 (load 8 (q + 8) m)] m (p_kernel p) in
             (match r with inl v => if v <? 0 then (EIO, -1) else (0, v) | inr e => (if e =? 0 then EIO else e, -1) end, with_mem m (with_kernel k p))
           else ((EINVAL, -1), p) in
  fst (perform_transfer q op p) = fst o /\ same_but_errno (snd o) (snd (perform_transfer q op p)).
Proof.
  intros Hop. cbv zeta. unfold perform_transfer, hbind, Range200.ld, hbind, get_mem, hret, set_errno, errno_or_eio, get_errno, hbind, same_but_errno.
  cbn [fst snd p_mem with_errno]. unfold nz. destruct (load 4 (q + 32) (p_mem p) =? 0); cbn [negb]; [|split; [done|by eexists]].
  replace (if op =? DARWIN_LIO_READ then _ else _) with (syscall (V:=statics) (K:=K) nr
    [i32 (load 4 q (p_mem p)); load 8 (q + 16) (p_mem p); load 8 (q + 24) (p_mem p); i64 (load 8 (q + 8) (p_mem p))])
    by (by destruct Hop as [[= -> ->]|[= -> ->]]).
  unfold syscall. cbn [p_mem p_kernel with_errno]. destruct (k_syscall K nr _ _ _) as [[[v|e] m] k]; cbn.
  - destruct (v <? 0); cbn; split; try done; by eexists.
  - split; [by destruct (e =? 0)|by eexists].
Qed.
Lemma fsync_effect q p :
  let o := let '(r, m, k) := k_syscall K 82 [i32 (load 4 q (p_mem p))] (p_mem p) (p_kernel p) in
           (match r with inl v => if v <? 0 then (EIO, -1) else (0, 0) | inr e => (if e =? 0 then EIO else e, -1) end, with_mem m (with_kernel k p)) in
  fst (perform_fsync q p) = fst o /\ same_but_errno (snd o) (snd (perform_fsync q p)).
Proof.
  cbv zeta. unfold perform_fsync, hbind, set_errno, Range200.ld, hbind, get_mem, hret, syscall, errno_or_eio, get_errno, hbind, same_but_errno, nz.
  cbn [fst snd p_mem p_kernel with_errno]. change Range000.SYS_fsync with 82. destruct (k_syscall K 82 _ _ _) as [[[v|e] m] k]; cbn.
  - destruct (v <? 0); cbn; split; try done; by eexists.
  - split; [by destruct (e =? 0)|by eexists].
Qed.

Lemma aio_operation_effect g p : In (gs_x g 16) [313; 318; 319] ->
  fst (aio_operation g p) = fst (aio_effect g p) /\ same_but_errno (snd (aio_effect g p)) (snd (aio_operation g p)).
Proof.
  intros Hnr. unfold aio_operation, aio_effect, aio_system_call. simpl in Hnr.
  repeat destruct Hnr as [<-|Hnr]; [..|done].
  - exact (fsync_effect (gs_x g 1) p).
  - pose proof (transfer_effect (gs_x g 0) DARWIN_LIO_READ 67 p (or_introl eq_refl)) as H. cbv zeta in H. destruct (_ =? 0); exact H.
  - pose proof (transfer_effect (gs_x g 0) DARWIN_LIO_WRITE 68 p (or_intror eq_refl)) as H. cbv zeta in H. destruct (_ =? 0); exact H.
Qed.

(** C9. The table of asynchronous requests is a map from control blocks to
    results with room for 64.  For control blocks that are not null (the null
    one is mistaken for an unused slot, see [null_request_returned]): a transfer
    or an fsync is done at once, by the one system call its control block
    describes (none when the block has a priority, which is EINVAL), and its
    outcome is recorded for the control block, unless 64 others wait to be
    collected: then the call fails with ENOMEM and nothing is done.  aio_return
    gives the outcome and removes it, aio_error and aio_suspend look it up; what
    is not in the map is answered with EINVAL.  No call changes anything else of
    the process: memory, kernel, signals and the other tables are as they were,
    or as the one system call left them; [errno] apart. *)
Theorem aio_refines g p :
  In (gs_x g 16) [313; 314; 315; 317; 318; 319] -> aio_arguments g -> aio_ok (table p) ->
  let P := pending_of (table p) in
  let request := aio_request g (p_mem p) in
  let '(answer, P') := pending_step request (fst (aio_effect g p)) P in
  let '(g', p') := aio_calls g p in
  g' = answered g answer /\ aio_ok (table p') /\ pending_of (table p') = P' /\
  same_but_errno (with_table (table p') (if performed request P then snd (aio_effect g p) else p)) p'.
Proof.
  intros Hnr Ha Hok. cbv zeta. destruct (aio_step_ok g p (conj Hnr Ha) Hok) as (H1 & H2 & H3 & e & H4).
  assert (Hp : pending_step (aio_request g (p_mem p)) (fst (aio_effect g p)) (pending_of (table p)) =
               pending_step (aio_request g (p_mem p)) (fst (aio_operation g p)) (pending_of (table p)) /\
    exists e', (if performed (aio_request g (p_mem p)) (pending_of (table p)) then snd (aio_operation g p) else p) =
      with_errno e' (if performed (aio_request g (p_mem p)) (pending_of (table p)) then snd (aio_effect g p) else p)).
  { assert (Hd : In (gs_x g 16) [313; 318; 319] \/ forall m, match aio_request g m with Submit _ => False | _ => True end).
    { unfold aio_request. simpl in Hnr |- *. repeat destruct Hnr as [<-|Hnr]; auto. }
    destruct Hd as [Hd|Hd].
    - destruct (aio_operation_effect g p Hd) as [-> [e' ->]]. split; [done|]. destruct (performed _ _); [by exists e'|]. exists (p_errno p). by destruct p.
    - specialize (Hd (p_mem p)). destruct (aio_request g (p_mem p)); [done|..]; (split; [done|]); exists (p_errno p); by destruct p. }
  destruct Hp as [-> [e' He]]. rewrite He in H4. destruct (pending_step _ _ _) as [a P']. destruct (aio_calls g p) as [g' p']. cbn [fst snd] in *.
  split; [done|]. split; [done|]. split; [done|]. exists e. rewrite H4 at 1. by destruct (performed _ _).
Qed.

(** A sequence of calls. *)
Fixpoint aio_run (gs : list syscall_gate_state) p : process statics K :=
  match gs with
  | [] => p
  | g :: gs => aio_run gs (snd (aio_calls g p))
  end.

(** The call does not touch the entry of [q]. *)
Definition leaves (q : Z) g : Prop :=
  well_formed g /\ forall m, aio_request g m <> Submit q /\ aio_request g m <> Return q.

Lemma leaves_kept q c o P : c <> Submit q -> c <> Return q -> snd (pending_step c o P) !! q = P !! q.
Proof.
  intros Hs Hr. destruct c as [q'|q'|q'|l]; simpl.
  - destruct (room P q'); simpl; [|done]. rewrite lookup_insert_ne; [done|]. by intros ->.
  - destruct (P !! q') as [[e r]|]; simpl; [|done]. rewrite lookup_delete_ne; [done|]. by intros ->.
  - by destruct (P !! q') as [[e r]|].
  - done.
Qed.

Lemma run_kept q gs p : Forall (leaves q) gs -> aio_ok (table p) ->
  aio_ok (table (aio_run gs p)) /\ pending_of (table (aio_run gs p)) !! q = pending_of (table p) !! q.
Proof.
  revert p; induction gs as [|g gs IH]; intros p Hgs Hok; simpl; [done|]. apply Forall_cons in Hgs as [[Hg Hl] Hgs].
  destruct (aio_step_ok g p Hg Hok) as (_ & Hok' & HP & _). destruct (IH _ Hgs Hok') as [? ->]. split; [done|].
  rewrite HP. destruct (Hl (p_mem p)). by apply leaves_kept.
Qed.

(** C10. The outcome of a request is kept until it is collected, and collected
    once: after a transfer or an fsync that found room for its control block,
    and any sequence of aio calls on other control blocks, aio_return answers
    with the result of the operation, or its error number, and a second
    aio_return with EINVAL. *)
Theorem aio_outcome_collected_once q g0 gs g1 p :
  well_formed g0 -> (forall m, aio_request g0 m = Submit q) -> room (pending_of (table p)) q = true -> aio_ok (table p) ->
  Forall (leaves q) gs -> gs_x g1 16 = 314 -> gs_x g1 0 = q -> q <> 0 ->
  let o := fst (aio_operation g0 p) in
  let p1 := aio_run gs (snd (aio_calls g0 p)) in
  fst (aio_calls g1 p1) = answered g1 (if nz (fst o) then inr (errno_to_darwin (fst o)) else inl (snd o)) /\
  fst (aio_calls g1 (snd (aio_calls g1 p1))) = set_failure g1 DARWIN_EINVAL.
Proof.
  intros Hg0 Hq Hroom Hok Hgs H16 H0 Hne. cbv zeta. destruct (aio_step_ok g0 p Hg0 Hok) as (_ & Hok1 & HP & _). rewrite (Hq (p_mem p)) in HP.
  unfold pending_step in HP. rewrite Hroom in HP. destruct (run_kept q gs _ Hgs Hok1) as [Hok2 HP2].
  rewrite HP in HP2. simpl in HP2. rewrite lookup_insert_eq in HP2. set (p1 := aio_run gs _) in *. clearbody p1.
  assert (Hg1 : well_formed g1) by (unfold well_formed, aio_arguments; rewrite H16, H0; simpl; auto).
  assert (Hr : forall m, aio_request g1 m = Return q) by (intros m; unfold aio_request; by rewrite H16, H0).
  destruct (aio_step_ok g1 p1 Hg1 Hok2) as (Ha & Hok3 & HP3 & _). rewrite Hr in Ha, HP3. unfold pending_step in Ha, HP3. rewrite HP2 in Ha, HP3.
  destruct (fst (aio_operation g0 p)) as [e r]. simpl in *. split; [done|].
  destruct (aio_step_ok g1 _ Hg1 Hok3) as (Ha3 & _ & _ & _). rewrite Hr in Ha3. unfold pending_step in Ha3.
  rewrite HP3, lookup_delete_eq in Ha3. done.
Qed.
End handler_proofs.

(** ** Witnesses *)

(** A kernel that transfers four bytes and knows no other call. *)
Definition four_kernel : kernel :=
  {| kstate := unit;
     k_syscall nr _ m k := (if nr =? Range100.SYS_pread64 then inl 4 else inr EINVAL, m, k);
     k_fstat _ k := (inr EINVAL, k); k_statfs _ k := (inr EINVAL, k); k_mounts k := (inr EINVAL, k);
     k_sigpending k := (inr EINVAL, k); k_sigaltstack _ k := (inr EINVAL, k) |}.
Definition aio_proc : process statics four_kernel :=
  @mk_proc _ four_kernel tt 0 (fun _ => default_action) 0 (fun _ => 0) statics_initial [] 1.
Definition aio_gate (nr x0 : Z) : syscall_gate_state := mk_gs (upd (upd (fun _ => 0) 16 nr) 0 x0) 0 0 0x1004.

Lemma aio_proc_ok : aio_ok (table aio_proc).
Proof.
  split; [done|]. intros i j c d Hi. apply list_elem_of_lookup_2 in Hi.
  assert (Hc : c_aiocb c = 0); [|by rewrite Hc]. change (table aio_proc) with (replicate 64 no_aio) in Hi.
  by apply elem_of_replicate in Hi as [-> _].
Qed.

Lemma aio_refines_witness :
  fst (aio_calls (aio_gate 318 0x1000) aio_proc) = set_success (aio_gate 318 0x1000) 0 /\
  pending_of (table (snd (aio_calls (aio_gate 318 0x1000) aio_proc))) = {[0x1000 := (0, 4)]}.
Proof.
  pose proof (aio_refines (aio_gate 318 0x1000) aio_proc ltac:(simpl; tauto) ltac:(discriminate) aio_proc_ok) as H. cbv zeta in H.
  assert (E : pending_step (aio_request (aio_gate 318 0x1000) (p_mem aio_proc)) (fst (aio_effect (aio_gate 318 0x1000) aio_proc)) (pending_of (table aio_proc)) =
    (inl 0, {[0x1000 := (0, 4)]})) by reflexivity.
  rewrite E in H. destruct (aio_calls _ _) as [g' p']. destruct H as (-> & _ & HP & _). by split.
Defined.

Lemma aio_outcome_collected_once_witness :
  let p1 := aio_run [aio_gate 318 0x2000; aio_gate 314 0x2000] (snd (aio_calls (aio_gate 318 0x1000) aio_proc)) in
  fst (aio_calls (aio_gate 314 0x1000) p1) = set_success (aio_gate 314 0x1000) 4.
Proof.
  apply (aio_outcome_collected_once 0x1000 (aio_gate 318 0x1000) [aio_gate 318 0x2000; aio_gate 314 0x2000] (aio_gate 314 0x1000) aio_proc).
  - split; [simpl; tauto|discriminate].
  - reflexivity.
  - reflexivity.
  - exact aio_proc_ok.
  - apply Forall_cons. split; [split; [split; [simpl; tauto|discriminate]|intros m; split; discriminate]|].
    apply Forall_cons. split; [split; [split; [simpl; tauto|discriminate]|intros m; split; discriminate]|]. constructor.
  - reflexivity.
  - reflexivity.
  - discriminate.
Defined.

(** ** Corners *)

(** aio_return and aio_error accept a null control block: an unused slot has
    none. *)
Example null_request_returned :
  fst (aio_calls (aio_gate 314 0) aio_proc) = set_success (aio_gate 314 0) 0.
Proof. reflexivity. Qed.

(** A request that fails at once keeps its slot until aio_return is called for
    it: after 64 of them no request is accepted. *)
Definition failing_requests : list syscall_gate_state := map (fun i => aio_gate 319 (0x1000 * i)) (seqZ 1 64).

Example failed_requests_fill_the_table :
  fst (aio_calls (aio_gate 318 0x100000) (aio_run failing_requests aio_proc)) = set_failure (aio_gate 318 0x100000) 12 /\
  fst (aio_calls (aio_gate 318 0x100000) aio_proc) = set_success (aio_gate 318 0x100000) 0.
Proof. split; [|reflexivity]. vm_compute. reflexivity. Qed.
End Aio.
