(* ===== verification/Range200Files.v ===== *)
(** * System calls 200 to 399, files: src/syscall/syscall_range_200_399.c

    Status of files and mounts, directory entries, extended attributes,
    pselect, kqueue through the shim, and the small handlers of the file. *)

From S2P Require Import Prelude CStr Host GateIsland GateDispatch DarwinAbi Range000 Range100 Range200.
Import Gate Dispatch Abi Range200.

Module Files.

(** Linux system call numbers (AArch64) and values of the headers. *)
Definition SYS_eventfd2 : Z := 19.
Definition SYS_sendfile : Z := 71.
Definition SYS_ppoll : Z := 73.
Definition SYS_renameat2 : Z := 276.
Definition EFD_CLOEXEC : Z := 0x80000.
Definition EFD_NONBLOCK : Z := 0x800.
Definition RENAME_EXCHANGE : Z := 2.
Definition XATTR_CREATE : Z := 1.
Definition XATTR_REPLACE : Z := 2.
Definition EBADF : Z := 9.

Definition DARWIN_FSOPT_NOFOLLOW : Z := 1.
Definition DARWIN_PSELECT_MAX_FDS : Z := 1024.
Definition DARWIN_DIRENT64_HEADER_SIZE : Z := 21.
Definition MACHGATE_GETDENTS_BUFFER_SIZE : Z := 8192.
Definition STATFS64_SIZE : Z := 2168.

(** [S_ISREG] *)
Definition S_ISREG (mode : Z) : bool := mode .& 0xF000 =? 0x8000.

(** The copy. *)
Definition linux_to_darwin_stat64 : Z -> Z -> bytemem -> bytemem := Range100.linux_to_darwin_stat.

(** [defined]: whether the headers the file includes define the ST_ flags. *)
Definition linux_mount_flags_to_darwin (defined : bool) (linux_flags : Z) : Z :=
  let darwin_flags := 0x1000 in
  if defined then
    let darwin_flags := map_bit linux_flags 1 0x1 darwin_flags in      (* RDONLY *)
    let darwin_flags := map_bit linux_flags 8 0x4 darwin_flags in      (* NOEXEC *)
    let darwin_flags := map_bit linux_flags 2 0x8 darwin_flags in      (* NOSUID *)
    map_bit linux_flags 4 0x10 darwin_flags                            (* NODEV *)
  else darwin_flags.

(** The flags for Linux, or [None]. *)
Definition translate_xattr_options (darwin_options : Z) : option Z :=
  if nz (darwin_options .& Z.lnot 7) then None
  else Some (map_bit darwin_options 4 XATTR_REPLACE (map_bit darwin_options 2 XATTR_CREATE 0)).

Definition align_darwin_dirent64 (size : Z) : Z := (size + 7) .& (2 ^ 64 - 8).

(** [append_darwin_dirent64]: the new offset, or [None] when the record does not
    fit. *)
Definition append_darwin_dirent64 (darwin_buffer darwin_buffer_size darwin_offset entry : Z) (m : bytemem) : option Z * bytemem :=
  let name_len := Range100.strnlen (entry + 19) (u64 (load 2 (entry + 16) m - 19)) m in
  let record_len := align_darwin_dirent64 (DARWIN_DIRENT64_HEADER_SIZE + name_len + 1) in
  if darwin_buffer_size <? darwin_offset + record_len then (None, m)
  else (Some (darwin_offset + record_len), Range100.put_dirent entry (darwin_buffer + darwin_offset) name_len record_len m).

(** The loop of getdirentries64 from [linux_offset] on: the bytes written and
    the last position.  A record takes at least 24 bytes of the buffer, which
    bounds the iterations. *)
Fixpoint append_dirents64 (fuel : nat) (linux_buffer result darwin_buffer darwin_buffer_size linux_offset darwin_offset last_position : Z) (m : bytemem)
    : option (Z * Z) * bytemem :=
  if result <=? linux_offset then (Some (darwin_offset, last_position), m)
  else match fuel with
  | O => (None, m)
  | S fuel =>
      let entry := linux_buffer + linux_offset in
      match append_darwin_dirent64 darwin_buffer darwin_buffer_size darwin_offset entry m with
      | (None, m) => (None, m)
      | (Some darwin_offset, m) =>
          append_dirents64 fuel linux_buffer result darwin_buffer darwin_buffer_size
            (linux_offset + load 2 (entry + 16) m) darwin_offset (load 8 (entry + 8) m) m
      end
  end.

(** ** Sets of descriptors *)

Definition fdset_bit (fd_set fd width : Z) (m : bytemem) : bool :=
  nz (load (width / 8) (fd_set + width / 8 * (fd / width)) m .& (1 .<< (fd mod width))).
Definition fdset_add (fd_set fd width : Z) (m : bytemem) : bytemem :=
  let word := fd_set + width / 8 * (fd / width) in store (width / 8) word (load (width / 8) word m .| (1 .<< (fd mod width))) m.

(** From words of [w] bits at [from] to words of [v] bits at [to], cleared
    first. *)
Definition convert_fdset (from w to v fd_count : Z) (m : bytemem) : bytemem :=
  fold_left (fun m fd => if fdset_bit from fd w m then fdset_add to fd v m else m) (seqZ 0 fd_count)
    (memzero to ((fd_count + v - 1) / v * (v / 8)) m).
Definition darwin_fdset_to_linux (darwin_fdset linux_fdset fd_count : Z) : bytemem -> bytemem := convert_fdset darwin_fdset 32 linux_fdset 64 fd_count.
Definition linux_fdset_to_darwin (linux_fdset darwin_fdset fd_count : Z) : bytemem -> bytemem := convert_fdset linux_fdset 64 darwin_fdset 32 fd_count.

(** ** Mounts *)

(** What [copy_bounded_string] is given for a mount: type, directory, source. *)
Definition mount_names : Type := cstr * cstr * cstr.

(** The best mount so far for [path] with its length, and one more entry:
    directory, type, device. *)
Definition better_mount (path : cstr) (best : Z * mount_names) (entry : cstr * cstr * cstr) : Z * mount_names :=
  let '(dir, type, device) := entry in
  let len := Z.of_nat (length dir) in
  let next := nth (length dir) path "000"%char in
  if negb (starts_with dir path) then best
  else if (1 <? len) && negb (code next =? 0) && negb (ceq next "/") then best
  else if len <? fst best then best
  else (len, (firstn 15 type, firstn 1023 dir, firstn 1023 device)).

Definition best_mount (path : option cstr) (mounts : list (cstr * cstr * cstr)) : mount_names :=
  match path with
  | None => ([], [], [])
  | Some path => snd (fold_left (better_mount path) mounts (0, ([], path, [])))
  end.

(** "/dev/shm/" and the name without its slash, in [path_size] bytes, or an
    error number. *)
Definition make_posix_shm_path (name : option cstr) (path_size : Z) : cstr + Z :=
  match name with
  | Some (c :: ((_ :: _) as rest)) =>
      if ceq c "/" && negb (existsb (ceq "/") rest) then
        let path := str "/dev/shm/" ++ rest in
        if path_size <=? Z.of_nat (length path) then inr ENAMETOOLONG else inl path
      else inr EINVAL
  | _ => inr EINVAL
  end.

Section files.
(** [st_flags]: see [linux_mount_flags_to_darwin]; [page_size]: what [sysconf]
    returns; [shim_kqueue], [shim_kevent], [shim_kevent64]: what [dlsym] finds;
    [execve]: [machgate_execve_macho_guest], which only returns, with an error
    number of Darwin, when the program was not started. *)
Context {K : kernel} (frame : Z) (st_flags : bool) (page_size : Z)
  (shim_kqueue : option (host statics K Z)) (shim_kevent shim_kevent64 : option (list Z -> host statics K Z))
  (execve : Z -> Z -> Z -> host statics K (option Z)).
Local Abbreviation hostm := (host statics K).
Local Abbreviation ld := (Range200.ld (K:=K)).
Local Abbreviation st := (Range200.st (K:=K)).
Local Abbreviation write := (Range200.write (K:=K)).
Local Abbreviation on_mem := (Range200.on_mem (K:=K)).
Local Open Scope host_scope.
Implicit Types g : syscall_gate_state.

Definition faulted g : hostm syscall_gate_state := hret (set_failure g DARWIN_EFAULT).

(** The string at an address; a path of 65536 bytes or more is refused by the
    kernel. *)
Definition string_at (a : Z) : hostm (option cstr) :=
  let* m := get_mem in hret (if a =? 0 then None else Some (c_string (Z.to_nat 65536) a m)).

Definition copy_bounded_string (dest dest_size : Z) (src : cstr) : hostm unit := write (snprintf_s dest dest_size src).

(** ** Status *)

Definition linux_to_darwin_statfs64 (l : linux_statfs) (d : Z) (names : mount_names) : hostm unit :=
  let '(fstype, mntonname, mntfromname) := names in
  do* write (memzero d STATFS64_SIZE) in
  do* st 4 d (lf_bsize l) in
  do* st 4 (d + 4) (lf_bsize l) in
  do* st 8 (d + 8) (lf_blocks l) in
  do* st 8 (d + 16) (lf_bfree l) in
  do* st 8 (d + 24) (lf_bavail l) in
  do* st 8 (d + 32) (lf_files l) in
  do* st 8 (d + 40) (lf_ffree l) in
  let* uid := syscall Range000.SYS_getuid [] in
  do* st 4 (d + 56) uid in
  do* st 4 (d + 60) (lf_type l) in
  do* st 4 (d + 64) (linux_mount_flags_to_darwin st_flags (lf_flags l)) in
  do* copy_bounded_string (d + 72) 16 fstype in
  do* copy_bounded_string (d + 88) 1024 mntonname in
  copy_bounded_string (d + 1112) 1024 mntfromname.

Definition fill_statfs_mount_names (path : option cstr) (l : linux_statfs) (d : Z) : hostm unit :=
  let* r := in_kernel (k_mounts K) in
  match r with
  | inr e => do* set_errno e in linux_to_darwin_statfs64 l d ([], match path with Some p => p | None => [] end, [])
  | inl mounts => linux_to_darwin_statfs64 l d (best_mount path mounts)
  end.

(** The structure Linux wrote is at [frame]. *)
Definition finish_statfs64_result g (result path : Z) : hostm syscall_gate_state :=
  if result <? 0 then fail_now g
  else
    let* m := get_mem in
    let* path := string_at path in
    do* fill_statfs_mount_names path (Range100.load_statfs frame m) (gs_x g 1) in done g.
Definition finish_stat64_result g (result : Z) : hostm syscall_gate_state :=
  if result <? 0 then fail_now g else do* write (linux_to_darwin_stat64 frame (gs_x g 1)) in done g.
Definition finish_extended_stat64_result g (result darwin_stat_addr xsecurity_size_addr : Z) : hostm syscall_gate_state :=
  if result <? 0 then fail_now g
  else
    do* write (linux_to_darwin_stat64 frame darwin_stat_addr) in
    do* (if nz xsecurity_size_addr then st 8 xsecurity_size_addr 0 else hret tt) in done g.

(** [uid == (uid_t)-1 && gid == (gid_t)-1] *)
Definition keeps_owner (uid gid : Z) : bool := (uid =? 2 ^ 32 - 1) && (gid =? 2 ^ 32 - 1).

Definition finish_created_node g (result path uid gid : Z) : hostm syscall_gate_state :=
  if result <? 0 then fail_now g
  else if keeps_owner uid gid then done g
  else forward g Range000.SYS_fchownat [AT_FDCWD; path; uid; gid; 0].

Definition finish_open_extended_result g (result uid gid : Z) : hostm syscall_gate_state :=
  if result <? 0 then fail_now g
  else if keeps_owner uid gid then hret (set_success g result)
  else
    do* set_errno 0 in
    let* chown_result := syscall Range100.SYS_fchown [i32 result; uid; gid] in
    if chown_result <? 0 then
      let* saved_errno := errno_or_eio in
      do* syscall SYS_close [i32 result] in
      hret (set_failure g (errno_to_darwin saved_errno))
    else hret (set_success g result).

(** [statfs] by path and for every mount. *)
Fixpoint getfsstat_loop (mounts : list (cstr * cstr * cstr)) (darwin_statfs max_entries count : Z) : hostm Z :=
  match mounts with
  | [] => hret count
  | (dir, type, device) :: mounts =>
      if nz darwin_statfs && (count <? max_entries) then
        do* set_errno 0 in
        let* r := in_kernel (k_statfs K dir) in
        match r with
        | inr e => do* set_errno e in getfsstat_loop mounts darwin_statfs max_entries count
        | inl l =>
            do* linux_to_darwin_statfs64 l (darwin_statfs + STATFS64_SIZE * count) (type, dir, device) in
            getfsstat_loop mounts darwin_statfs max_entries (count + 1)
        end
      else getfsstat_loop mounts darwin_statfs max_entries (count + 1)
  end.
Definition handle_getfsstat64 g : hostm syscall_gate_state :=
  let darwin_statfs := gs_x g 0 in
  let bufsize := i32 (gs_x g 1) in
  let* r := in_kernel (k_mounts K) in
  do* match r with inr e => set_errno e | inl _ => hret tt end in
  if bufsize <? 0 then invalid g
  else match r with
  | inr _ => fail_now g
  | inl mounts =>
      let max_entries := if nz darwin_statfs && (0 <? bufsize) then bufsize / STATFS64_SIZE else 0 in
      let* count := getfsstat_loop mounts darwin_statfs max_entries 0 in hret (set_success g count)
  end.

Definition handle_undelete g : hostm syscall_gate_state :=
  if gs_x g 0 =? 0 then faulted g
  else
    do* set_errno 0 in
    let* result := syscall Range000.SYS_newfstatat [AT_FDCWD; gs_x g 0; frame; Range100.AT_SYMLINK_NOFOLLOW] in
    if result =? 0 then hret (set_failure g (errno_to_darwin EEXIST))
    else let* e := get_errno in hret (set_failure g (errno_to_darwin (if nz e then e else ENOENT))).

(** Frame: [stat1] 0, [stat2] 128. *)
Definition handle_exchangedata g : hostm syscall_gate_state :=
  let path1 := gs_x g 0 in
  let path2 := gs_x g 1 in
  let options := u32 (gs_x g 2) in
  let stat_flags := if nz (options .& DARWIN_FSOPT_NOFOLLOW) then Range100.AT_SYMLINK_NOFOLLOW else 0 in
  if (path1 =? 0) || (path2 =? 0) then faulted g
  else if nz (options .& Z.lnot DARWIN_FSOPT_NOFOLLOW) then invalid g
  else
    do* set_errno 0 in
    let* r1 := syscall Range000.SYS_newfstatat [AT_FDCWD; path1; frame; stat_flags] in
    if r1 <? 0 then fail_now g
    else
      do* set_errno 0 in
      let* r2 := syscall Range000.SYS_newfstatat [AT_FDCWD; path2; frame + 128; stat_flags] in
      if r2 <? 0 then fail_now g
      else
        let* m := get_mem in
        let stat1 := Range100.load_stat frame m in
        let stat2 := Range100.load_stat (frame + 128) m in
        if (l_dev stat1 =? l_dev stat2) && (l_ino stat1 =? l_ino stat2) then invalid g
        else if negb (S_ISREG (l_mode stat1)) || negb (S_ISREG (l_mode stat2)) then invalid g
        else
          do* set_errno 0 in
          let* result := syscall SYS_renameat2 [AT_FDCWD; path1; AT_FDCWD; path2; RENAME_EXCHANGE] in
          let* e := get_errno in
          if (result <? 0) && ((e =? ENOSYS) || (e =? EINVAL) || (e =? ENOTSUP)) then hret (set_failure g DARWIN_ENOTSUP)
          else finish_syscall_result g result.

Definition handle_fhopen g : hostm syscall_gate_state :=
  if gs_x g 0 =? 0 then faulted g
  else if nz (i32 (gs_x g 1) .& DARWIN_O_CREAT) then invalid g
  else
    let* euid := syscall Range000.SYS_geteuid [] in
    if nz (u32 euid) then hret (set_failure g DARWIN_EPERM) else hret (set_failure g DARWIN_ENOTSUP).

Definition handle_minherit g : hostm syscall_gate_state :=
  let address := gs_x g 0 in
  if 3 <? gs_x g 2 then invalid g
  else if gs_x g 1 =? 0 then done g
  else if (address =? 0) || nz (address mod host_page_size page_size) then invalid g
  else done g.

(** [syscall(SYS_ioctl, ...)] answered with zero. *)
Definition handle_fsctl_path g : hostm syscall_gate_state :=
  let options := u32 (gs_x g 3) in
  if nz (options .& Z.lnot DARWIN_FSOPT_NOFOLLOW) then invalid g
  else
    let open_flags := if nz (options .& DARWIN_FSOPT_NOFOLLOW) then O_CLOEXEC .| O_NOFOLLOW else O_CLOEXEC in
    do* set_errno 0 in
    let* r := syscall SYS_openat [AT_FDCWD; gs_x g 0; open_flags] in
    let fd := i32 r in
    if fd <? 0 then fail_now g
    else
      do* set_errno 0 in
      let* result := syscall Range000.SYS_ioctl [fd; gs_x g 1; gs_x g 2] in
      let* saved_errno := errno_or_eio in
      do* syscall SYS_close [fd] in
      if result <? 0 then hret (set_failure g (errno_to_darwin saved_errno)) else done g.
Definition handle_ffsctl g : hostm syscall_gate_state :=
  do* set_errno 0 in
  let* result := syscall Range000.SYS_ioctl [i32 (gs_x g 0); gs_x g 1; gs_x g 2] in
  if result <? 0 then fail_now g else done g.

(** ** Transfers *)

(** [offset] is at [frame]. *)
Definition handle_sendfile g : hostm syscall_gate_state :=
  let x := gs_x g in
  if x 3 =? 0 then invalid g
  else if nz (x 4) || nz (i32 (x 5)) then set_enosys g
  else
    do* st 8 frame (x 2) in
    do* set_errno 0 in
    let* length := ld 8 (x 3) in
    let* result := syscall SYS_sendfile [i32 (x 1); i32 (x 0); frame; length] in
    if result <? 0 then fail_now g else do* st 8 (x 3) result in done g.

(** [linux_buffer] is at [frame]. *)
Definition handle_getdirentries64 g : hostm syscall_gate_state :=
  let darwin_buffer := gs_x g 1 in
  let darwin_buffer_size := gs_x g 2 in
  if (darwin_buffer =? 0) && nz darwin_buffer_size then faulted g
  else
    let linux_buffer_size := Z.min darwin_buffer_size MACHGATE_GETDENTS_BUFFER_SIZE in
    do* set_errno 0 in
    let* result := syscall Range100.SYS_getdents64 [i32 (gs_x g 0); frame; linux_buffer_size] in
    if result <? 0 then fail_now g
    else
      let* r := on_mem (append_dirents64 (Z.to_nat (result + darwin_buffer_size / 24 + 1)) frame result darwin_buffer darwin_buffer_size 0 0 0) in
      match r with
      | None => invalid g
      | Some (darwin_offset, last_position) =>
          do* (if nz (gs_x g 3) then st 8 (gs_x g 3) last_position else hret tt) in
          hret (set_success g darwin_offset)
      end.

(** The structure [timeout] is at [frame]. *)
Definition raw_poll (fds nfds timeout_ms : Z) : hostm Z :=
  if 0 <=? timeout_ms then
    do* st 8 frame (timeout_ms / 1000) in
    do* st 8 (frame + 8) (timeout_ms mod 1000 * 1000000) in
    syscall SYS_ppoll [fds; nfds; frame; 0; 0]
  else syscall SYS_ppoll [fds; nfds; 0; 0; 0].

(** Frame: the sets for reading 0, writing 128, exceptions 256. *)
Definition set_argument (darwin_fds linux_fds fd_count : Z) : hostm Z :=
  if nz darwin_fds then do* write (darwin_fdset_to_linux darwin_fds linux_fds fd_count) in hret linux_fds else hret 0.
Definition set_result (darwin_fds linux_fds fd_count : Z) : hostm unit :=
  if nz darwin_fds then write (linux_fdset_to_darwin linux_fds darwin_fds fd_count) else hret tt.
Definition handle_pselect g : hostm syscall_gate_state :=
  let x := gs_x g in
  let fd_count := i32 (x 0) in
  if (fd_count <? 0) || (DARWIN_PSELECT_MAX_FDS <? fd_count) then invalid g
  else if nz (x 5) then set_enosys g
  else
    let* readfds_arg := set_argument (x 1) frame fd_count in
    let* writefds_arg := set_argument (x 2) (frame + 128) fd_count in
    let* exceptfds_arg := set_argument (x 3) (frame + 256) fd_count in
    do* set_errno 0 in
    let* result := syscall Range000.SYS_pselect6 [fd_count; readfds_arg; writefds_arg; exceptfds_arg; x 4; 0] in
    if result <? 0 then fail_now g
    else
      do* set_result (x 1) frame fd_count in
      do* set_result (x 2) (frame + 128) fd_count in
      do* set_result (x 3) (frame + 256) fd_count in
      hret (set_success g result).

(** ** Processes, identities *)

Definition handle_initgroups g : hostm syscall_gate_state :=
  if u32 (gs_x g 0) =? 0 then done g else if gs_x g 1 =? 0 then faulted g else set_enosys g.

Definition handle_posix_spawn g : hostm syscall_gate_state :=
  if gs_x g 1 =? 0 then faulted g
  else
    do* set_errno 0 in
    let* result := syscall Range000.SYS_newfstatat [AT_FDCWD; gs_x g 1; frame; 0] in
    let* e := get_errno in
    if (result <? 0) && (e =? EFAULT) then faulted g else hret (set_failure g DARWIN_ENOTSUP).

(** Bits: 1 EXTLOOKUP_RESULT, 2 WORKER, 4 DEREGISTER, 8 GET_CACHE_SIZES,
    16 SET_CACHE_SIZES, 32 CLEAR_CACHES; 0 is EXTLOOKUP_REGISTER. *)
Definition handle_identitysvc g : hostm syscall_gate_state :=
  let opcode := u32 (gs_x g 0) in
  let cache_sizes := gs_x g 1 in
  if (opcode =? 0) || (opcode =? 4) || (opcode =? 32) then done g
  else if nz (opcode .& Z.lnot 63) then invalid g
  else if nz (opcode .& 27) && (cache_sizes =? 0) then faulted g
  else if nz (opcode .& 8) then do* st 4 cache_sizes 0 in do* st 4 (cache_sizes + 4) 0 in done g
  else if nz (opcode .& 16) then done g
  else hret (set_failure g DARWIN_ENOTSUP).

Definition handle_mac_execve g : hostm outcome :=
  if gs_x g 0 =? 0 then hret (Returned (set_failure g DARWIN_EFAULT))
  else
    let* r := execve (gs_x g 0) (gs_x g 1) (gs_x g 2) in
    hret (match r with Some result => Returned (set_failure g result) | None => Replaced end).

(** ** Event queues *)

Definition handle_kqueue_via_shim g : hostm syscall_gate_state :=
  match shim_kqueue with
  | Some kqueue => do* set_errno 0 in let* result := kqueue in finish_syscall_result g result
  | None => forward g SYS_eventfd2 [0; EFD_CLOEXEC .| EFD_NONBLOCK]
  end.

(** [handle_kevent_via_shim] and [handle_kevent64_via_shim] differ in the
    function and its arguments. *)
Definition via_shim g (shim : option (list Z -> hostm Z)) (nchanges nevents : Z) (args : list Z) : hostm syscall_gate_state :=
  if (nchanges <? 0) || (nevents <? 0) then invalid g
  else match shim with
  | None => set_enosys g
  | Some kevent =>
      do* set_errno 0 in
      let* result := kevent args in
      if result <? 0 then let* e := get_errno in hret (set_failure g (errno_to_darwin (if nz e then e else EBADF)))
      else hret (set_success g result)
  end.
Definition handle_kevent_via_shim g (kq changelist nchanges eventlist nevents timeout_addr : Z) : hostm syscall_gate_state :=
  via_shim g shim_kevent nchanges nevents [kq; changelist; nchanges; eventlist; nevents; timeout_addr].
Definition handle_kevent64_via_shim g (kq changelist nchanges eventlist nevents flags timeout_addr : Z) : hostm syscall_gate_state :=
  via_shim g shim_kevent64 nchanges nevents [kq; changelist; nchanges; eventlist; nevents; flags; timeout_addr].

Definition handle_shared_region_check g : hostm syscall_gate_state :=
  if gs_x g 0 =? 0 then faulted g else do* st 8 (gs_x g 0) 0 in done g.
Definition handle_vm_pressure_monitor g : hostm syscall_gate_state :=
  do* (if nz (gs_x g 2) then st 4 (gs_x g 2) 0 else hret tt) in
  if nz (gs_x g 0) || nz (gs_x g 1) then set_enosys g else done g.
End files.
End Files.
