(* ===== verification/Range200Attr.v ===== *)
(** * Attribute lists and directory searches: src/syscall/syscall_range_200_399.c

    getattrlist and its relatives, copyfile, fsgetpath and searchfs.  Locals
    whose address goes to the kernel live in memory from [frame] on; the string
    literals of the file are at [literal].  Loops that read a directory or a
    file to its end take [fuel], more than the number of reads it takes: the
    kernel's end of file is where they end. *)

From S2P Require Import Prelude CStr Host GateIsland GateDispatch DarwinAbi Range000 Leb128 Range100 Range200 Range200Files.
Import Gate Dispatch Abi Range200 Files.

Module Attr.

Definition SYS_getcwd : Z := 17.
Definition EBUSY : Z := 16.
Definition ENOBUFS : Z := 105.
Definition O_WRONLY : Z := 1.
Definition DARWIN_SEARCHFS_MAX_SEARCHPARMS : Z := 4096.
Definition UTIME_OMIT : Z := 2 ^ 30 - 2.
Definition NO_ID : Z := 2 ^ 32 - 1.

Definition DARWIN_ATTR_CMN_NAME : Z := 0x00000001.
Definition DARWIN_ATTR_CMN_DEVID : Z := 0x00000002.
Definition DARWIN_ATTR_CMN_FSID : Z := 0x00000004.
Definition DARWIN_ATTR_CMN_OBJTYPE : Z := 0x00000008.
Definition DARWIN_ATTR_CMN_OBJTAG : Z := 0x00000010.
Definition DARWIN_ATTR_CMN_CRTIME : Z := 0x00000200.
Definition DARWIN_ATTR_CMN_MODTIME : Z := 0x00000400.
Definition DARWIN_ATTR_CMN_CHGTIME : Z := 0x00000800.
Definition DARWIN_ATTR_CMN_ACCTIME : Z := 0x00001000.
Definition DARWIN_ATTR_CMN_OWNERID : Z := 0x00008000.
Definition DARWIN_ATTR_CMN_GRPID : Z := 0x00010000.
Definition DARWIN_ATTR_CMN_ACCESSMASK : Z := 0x00020000.
Definition DARWIN_ATTR_CMN_FLAGS : Z := 0x00040000.
Definition DARWIN_ATTR_CMN_USERACCESS : Z := 0x00200000.
Definition DARWIN_ATTR_CMN_FILEID : Z := 0x02000000.
Definition DARWIN_ATTR_CMN_FULLPATH : Z := 0x08000000.
Definition DARWIN_ATTR_CMN_RETURNED_ATTRS : Z := 0x80000000.
Definition DARWIN_ATTR_DIR_LINKCOUNT : Z := 0x00000001.
Definition DARWIN_ATTR_DIR_ENTRYCOUNT : Z := 0x00000002.
Definition DARWIN_ATTR_DIR_IOBLOCKSIZE : Z := 0x00000010.
Definition DARWIN_ATTR_DIR_DATALENGTH : Z := 0x00000020.
Definition DARWIN_ATTR_FILE_LINKCOUNT : Z := 0x00000001.
Definition DARWIN_ATTR_FILE_TOTALSIZE : Z := 0x00000002.
Definition DARWIN_ATTR_FILE_ALLOCSIZE : Z := 0x00000004.
Definition DARWIN_ATTR_FILE_IOBLOCKSIZE : Z := 0x00000008.
Definition DARWIN_ATTR_FILE_DATALENGTH : Z := 0x00000200.
Definition DARWIN_ATTR_FILE_DATAALLOCSIZE : Z := 0x00000400.
Definition DARWIN_ATTR_CMN_SUPPORTED : Z := 0x8A279E1F.
Definition DARWIN_ATTR_CMN_SET_SUPPORTED : Z := 0x00039400.
Definition DARWIN_ATTR_DIR_SUPPORTED : Z := 0x33.
Definition DARWIN_ATTR_FILE_SUPPORTED : Z := 0x60F.

(** ** Attribute lists

    [struct darwin_attrlist] in memory: bitmapcount 0, reserved 2, commonattr 4,
    volattr 8, dirattr 12, fileattr 16, forkattr 20. *)

Definition COMMONATTR : Z := 4.
Definition DIRATTR : Z := 12.
Definition FILEATTR : Z := 16.

Definition align_attr_offset (value : Z) : Z := (value + 3) .& (2 ^ 64 - 4).

(** The address of the last component of the path at [path]; [empty]: where the
    empty string is. *)
Fixpoint last_slash (i : Z) (s : cstr) : option Z :=
  match s with
  | [] => None
  | c :: s => match last_slash (i + 1) s with Some j => Some j | None => if ceq c "/" then Some i else None end
  end.
Definition path_basename (path empty : Z) (m : bytemem) : Z :=
  let s := c_string (Z.to_nat 65536) path m in
  if (path =? 0) || bool_decide (s = []) then empty
  else match last_slash 0 s with
       | None => path
       | Some i => if i + 1 =? Z.of_nat (length s) then path + i else path + i + 1
       end.

(** The error number, or [None] when the list is valid. *)
Definition darwin_attr_validate (attrlist options : Z) (for_set : bool) (m : bytemem) : option Z :=
  let word := fun k => load 4 (attrlist + k) m in
  if attrlist =? 0 then Some DARWIN_EFAULT
  else if negb (load 2 attrlist m =? 5) || nz (load 2 (attrlist + 2) m) then Some DARWIN_EINVAL
  else if nz (options .& Z.lnot 0x21) then Some DARWIN_EINVAL
  else if nz (word 4 .& Z.lnot (if for_set then DARWIN_ATTR_CMN_SET_SUPPORTED else DARWIN_ATTR_CMN_SUPPORTED)) || nz (word 8) || nz (word 20) ||
          nz (word 12 .& Z.lnot DARWIN_ATTR_DIR_SUPPORTED) || nz (word 16 .& Z.lnot DARWIN_ATTR_FILE_SUPPORTED) then Some DARWIN_EINVAL
  else if for_set && (nz (word 12) || nz (word 16)) then Some DARWIN_EINVAL
  else None.

(** Word of the list, bit, size in the fixed part. *)
Definition attr_sizes : list (Z * Z * Z) :=
  [(COMMONATTR, DARWIN_ATTR_CMN_RETURNED_ATTRS, 20); (COMMONATTR, DARWIN_ATTR_CMN_NAME, 8);
   (COMMONATTR, DARWIN_ATTR_CMN_DEVID, 4); (COMMONATTR, DARWIN_ATTR_CMN_FSID, 8);
   (COMMONATTR, DARWIN_ATTR_CMN_OBJTYPE, 4); (COMMONATTR, DARWIN_ATTR_CMN_OBJTAG, 4);
   (COMMONATTR, DARWIN_ATTR_CMN_CRTIME, 16); (COMMONATTR, DARWIN_ATTR_CMN_MODTIME, 16);
   (COMMONATTR, DARWIN_ATTR_CMN_CHGTIME, 16); (COMMONATTR, DARWIN_ATTR_CMN_ACCTIME, 16);
   (COMMONATTR, DARWIN_ATTR_CMN_OWNERID, 4); (COMMONATTR, DARWIN_ATTR_CMN_GRPID, 4);
   (COMMONATTR, DARWIN_ATTR_CMN_ACCESSMASK, 4); (COMMONATTR, DARWIN_ATTR_CMN_FLAGS, 4);
   (COMMONATTR, DARWIN_ATTR_CMN_USERACCESS, 4); (COMMONATTR, DARWIN_ATTR_CMN_FILEID, 8);
   (COMMONATTR, DARWIN_ATTR_CMN_FULLPATH, 8);
   (DIRATTR, DARWIN_ATTR_DIR_LINKCOUNT, 4); (DIRATTR, DARWIN_ATTR_DIR_ENTRYCOUNT, 4);
   (DIRATTR, DARWIN_ATTR_DIR_IOBLOCKSIZE, 4); (DIRATTR, DARWIN_ATTR_DIR_DATALENGTH, 8);
   (FILEATTR, DARWIN_ATTR_FILE_LINKCOUNT, 4); (FILEATTR, DARWIN_ATTR_FILE_TOTALSIZE, 8);
   (FILEATTR, DARWIN_ATTR_FILE_ALLOCSIZE, 8); (FILEATTR, DARWIN_ATTR_FILE_IOBLOCKSIZE, 4);
   (FILEATTR, DARWIN_ATTR_FILE_DATALENGTH, 8); (FILEATTR, DARWIN_ATTR_FILE_DATAALLOCSIZE, 8)].

Definition wants (attrlist word bit : Z) (m : bytemem) : bool := nz (load 4 (attrlist + word) m .& bit).

Definition darwin_attr_fixed_size (attrlist : Z) (m : bytemem) : Z :=
  align_attr_offset (fold_left (fun result '(word, bit, size) => if wants attrlist word bit m then result + size else result) attr_sizes 4).

Record attr_context := mk_ac { ac_attrlist : Z; ac_buffer : Z; ac_capacity : Z; ac_fixed : Z; ac_variable : Z }.
Definition attr_context_at (attrlist buffer capacity fixed_size : Z) : attr_context := mk_ac attrlist buffer capacity 4 fixed_size.

(** A value of an attribute: bytes in the fixed part, or a string in the
    variable part. *)
Inductive attr_value := Bytes (l : list Z) | Text (s : cstr).
Definition U32 (v : Z) : attr_value := Bytes (le_bytes 4 v).
Definition U64 (v : Z) : attr_value := Bytes (le_bytes 8 v).
Definition Time (t : timespec) : attr_value := Bytes (le_bytes 8 (tv_sec t) ++ le_bytes 8 (tv_nsec t)).

(** [None]: there is no room, the call fails with ENOMEM. *)
Definition darwin_attr_write_bytes (c : attr_context) (value : list Z) (m : bytemem) : option attr_context * bytemem :=
  let size := Z.of_nat (length value) in
  if ac_capacity c <? ac_fixed c + size then (None, m)
  else (Some (mk_ac (ac_attrlist c) (ac_buffer c) (ac_capacity c) (align_attr_offset (ac_fixed c + size)) (ac_variable c)),
        place (ac_buffer c + ac_fixed c) value m).
Definition darwin_attr_write_ref (c : attr_context) (value : cstr) (m : bytemem) : option attr_context * bytemem :=
  let length := Z.of_nat (length value) + 1 in
  let variable := align_attr_offset (ac_variable c) in
  if (ac_capacity c <? ac_fixed c + 8) || (ac_capacity c <? variable + length) then (None, m)
  else (Some (mk_ac (ac_attrlist c) (ac_buffer c) (ac_capacity c) (align_attr_offset (ac_fixed c + 8)) (align_attr_offset (variable + length))),
        place (ac_buffer c + variable) (map code value ++ [0])
          (place (ac_buffer c + ac_fixed c) (le_bytes 4 (variable - ac_fixed c) ++ le_bytes 4 length) m)).
Definition write_value (c : attr_context) (v : attr_value) : bytemem -> option attr_context * bytemem :=
  match v with Bytes l => darwin_attr_write_bytes c l | Text s => darwin_attr_write_ref c s end.

Definition darwin_file_type (mode : Z) : Z :=
  match mode .& 0xF000 with
  | 0x8000 => 1 | 0x4000 => 2 | 0x6000 => 3 | 0x2000 => 4 | 0xA000 => 5 | 0xC000 => 6 | 0x1000 => 7
  | _ => 0
  end.
Definition S_ISDIR (mode : Z) : bool := mode .& 0xF000 =? 0x4000.

(** Access of the owner, the group or the others: [shift] 6, 3, 0. *)
Definition mode_access (mode shift : Z) : Z :=
  let result := map_bit mode (4 .<< shift) 4 0 in
  let result := map_bit mode (2 .<< shift) 2 result in
  map_bit mode (1 .<< shift) 1 result.

Definition is_dot (s : cstr) : bool := streq s (str ".") || streq s (str "..").

Section attr.
Context {K : kernel} (frame : Z) (literal : string -> Z) (fuel : nat).
Local Abbreviation hostm := (host statics K).
Local Abbreviation ld := (Range200.ld (K:=K)).
Local Abbreviation st := (Range200.st (K:=K)).
Local Abbreviation write := (Range200.write (K:=K)).
Local Abbreviation on_mem := (Range200.on_mem (K:=K)).
Local Open Scope host_scope.
Implicit Types g : syscall_gate_state.

(** Frame: a [struct stat] 0, [full_path] 0x1000, [proc_path] 0x3000, the buffer
    of [count_directory_entries_at] 0x4000; a directory read at depth [d]: its
    buffer 0x10000 * (d + 1), a [struct stat] 0x2000 further. *)
Definition full_path : Z := frame + 0x1000.
Definition proc_path : Z := frame + 0x3000.
Definition count_buffer : Z := frame + 0x4000.
Definition dir_buffer (depth : Z) : Z := frame + 0x10000 * (depth + 1).
Definition dir_stat (depth : Z) : Z := dir_buffer depth + 0x2000.

Definition c_str (a : Z) : hostm cstr := let* m := get_mem in hret (c_string (Z.to_nat 65536) a m).

(** ** Reading directories *)

(** The entries of a buffer from [offset] on: [body] gets each entry and the
    state, and says whether the function that loops returns. *)
Fixpoint for_entries {S : Type} (n : nat) (buffer result offset : Z) (body : Z -> S -> hostm (S * bool)) (s : S) : hostm (S * bool) :=
  if result <=? offset then hret (s, false)
  else match n with
  | O => hret (s, false)
  | Datatypes.S n =>
      let* d_reclen := ld 2 (buffer + offset + 16) in
      let* r := body (buffer + offset) s in
      if snd r then hret r else for_entries n buffer result (offset + d_reclen) body (fst r)
  end.

(** [for (;;) getdents64]: all entries of a directory. *)
Fixpoint read_entries {S : Type} (n : nat) (dirfd buffer : Z) (body : Z -> S -> hostm (S * bool)) (s : S) : hostm (S * bool) :=
  match n with
  | O => hret (s, false)
  | Datatypes.S n =>
      let* read_result := syscall Range100.SYS_getdents64 [dirfd; buffer; MACHGATE_GETDENTS_BUFFER_SIZE] in
      if read_result <=? 0 then hret (s, false)
      else
        let* r := for_entries (Z.to_nat read_result) buffer read_result 0 body s in
        if snd r then hret r else read_entries n dirfd buffer body (fst r)
  end.

Definition O_DIR : Z := O_DIRECTORY .| O_CLOEXEC.

Definition count_directory_entries_at (dirfd name : Z) : hostm Z :=
  let* r := syscall SYS_openat [dirfd; name; O_DIR] in
  let fd := i32 r in
  if fd <? 0 then hret 0
  else
    let* n := read_entries fuel fd count_buffer
                (fun entry n => let* s := c_str (entry + 19) in hret (if is_dot s then n else u32 (n + 1), false)) 0 in
    do* syscall SYS_close [fd] in
    hret (fst n).

(** ** Packing *)

Definition darwin_user_access (l : linux_stat) : hostm Z :=
  let* uid := current_thread_uid in
  let* gid := current_thread_gid in
  hret (if uid =? 0 then 7
        else if uid =? l_uid l then mode_access (l_mode l) 6
        else if gid =? l_gid l then mode_access (l_mode l) 3
        else mode_access (l_mode l) 0).

(** The values in the order they are written: word of the list, bit, value;
    [user_access]: how the caller's access is found. *)
Definition attr_values (user_access : hostm Z) (attrlist : Z) (l : linux_stat) (name path dirfd : Z) : list (Z * Z * hostm attr_value) :=
  let value v := hret v in
  let string_of a := let* s := c_str a in hret (Text s) in
  let allocated_size := u64 (l_blocks l * 512) in
  [(COMMONATTR, DARWIN_ATTR_CMN_RETURNED_ATTRS,
      let* common := ld 4 (attrlist + COMMONATTR) in let* dir := ld 4 (attrlist + DIRATTR) in let* file := ld 4 (attrlist + FILEATTR) in
      hret (Bytes (le_bytes 4 common ++ le_bytes 4 0 ++ le_bytes 4 dir ++ le_bytes 4 file ++ le_bytes 4 0)));
   (COMMONATTR, DARWIN_ATTR_CMN_NAME, string_of name);
   (COMMONATTR, DARWIN_ATTR_CMN_DEVID, value (U32 (l_dev l)));
   (COMMONATTR, DARWIN_ATTR_CMN_FSID, value (Bytes (le_bytes 4 (l_dev l) ++ le_bytes 4 0)));
   (COMMONATTR, DARWIN_ATTR_CMN_OBJTYPE, value (U32 (darwin_file_type (l_mode l))));
   (COMMONATTR, DARWIN_ATTR_CMN_OBJTAG, value (U32 0));
   (COMMONATTR, DARWIN_ATTR_CMN_CRTIME, value (Time (l_ctim l)));
   (COMMONATTR, DARWIN_ATTR_CMN_MODTIME, value (Time (l_mtim l)));
   (COMMONATTR, DARWIN_ATTR_CMN_CHGTIME, value (Time (l_ctim l)));
   (COMMONATTR, DARWIN_ATTR_CMN_ACCTIME, value (Time (l_atim l)));
   (COMMONATTR, DARWIN_ATTR_CMN_OWNERID, value (U32 (l_uid l)));
   (COMMONATTR, DARWIN_ATTR_CMN_GRPID, value (U32 (l_gid l)));
   (COMMONATTR, DARWIN_ATTR_CMN_ACCESSMASK, value (U32 (l_mode l .& 0xFFF)));
   (COMMONATTR, DARWIN_ATTR_CMN_FLAGS, value (U32 0));
   (COMMONATTR, DARWIN_ATTR_CMN_USERACCESS, let* v := user_access in hret (U32 v));
   (COMMONATTR, DARWIN_ATTR_CMN_FILEID, value (U64 (l_ino l)));
   (COMMONATTR, DARWIN_ATTR_CMN_FULLPATH, string_of (if path =? 0 then name else path));
   (DIRATTR, DARWIN_ATTR_DIR_LINKCOUNT, value (U32 (l_nlink l)));
   (DIRATTR, DARWIN_ATTR_DIR_ENTRYCOUNT, let* n := count_directory_entries_at dirfd name in hret (U32 n));
   (DIRATTR, DARWIN_ATTR_DIR_IOBLOCKSIZE, value (U32 (l_blksize l)));
   (DIRATTR, DARWIN_ATTR_DIR_DATALENGTH, value (U64 (l_size l)));
   (FILEATTR, DARWIN_ATTR_FILE_LINKCOUNT, value (U32 (l_nlink l)));
   (FILEATTR, DARWIN_ATTR_FILE_TOTALSIZE, value (U64 (l_size l)));
   (FILEATTR, DARWIN_ATTR_FILE_ALLOCSIZE, value (U64 allocated_size));
   (FILEATTR, DARWIN_ATTR_FILE_IOBLOCKSIZE, value (U32 (l_blksize l)));
   (FILEATTR, DARWIN_ATTR_FILE_DATALENGTH, value (U64 (l_size l)));
   (FILEATTR, DARWIN_ATTR_FILE_DATAALLOCSIZE, value (U64 allocated_size))].

(** [if (attr & bit && !write(value)) return 0;] for each value. *)
Fixpoint write_values (vs : list (Z * Z * hostm attr_value)) (c : attr_context) : hostm (option attr_context) :=
  match vs with
  | [] => hret (Some c)
  | (word, bit, value) :: vs =>
      let* m := get_mem in
      if wants (ac_attrlist c) word bit m then
        let* v := value in
        let* r := on_mem (write_value c v) in
        match r with None => hret None | Some c => write_values vs c end
      else write_values vs c
  end.

Definition darwin_attr_write_stat (c : attr_context) (l : linux_stat) (name path dirfd : Z) : hostm (option attr_context) :=
  write_values (attr_values (darwin_user_access l) (ac_attrlist c) l name path dirfd) c.

(** [snprintf("%s")] of the path, absolute or after the working directory;
    whether it fits. *)
Definition build_absolute_path (path : option cstr) (buffer buffer_size : Z) : hostm bool :=
  match path with
  | None => hret false
  | Some path =>
      let absolute := match path with c :: _ => ceq c "/" | [] => false end in
      if absolute then
        do* write (snprintf_s buffer buffer_size path) in hret (Z.of_nat (length path) <? buffer_size)
      else
        do* set_errno 0 in
        let* result := syscall SYS_getcwd [buffer; buffer_size] in
        if result <? 0 then hret false
        else
          let* cwd := c_str buffer in
          let length_cwd := Z.of_nat (length cwd) in
          do* write (snprintf_s (buffer + length_cwd) (buffer_size - length_cwd) ("/"%char :: path)) in
          hret (Z.of_nat (length path) + 1 <? buffer_size - length_cwd)
  end.

Definition finish_getattrlist_result g (attrlist buffer buffer_size : Z) (l : linux_stat) (name path dirfd : Z) : hostm syscall_gate_state :=
  let* m := get_mem in
  let fixed_size := darwin_attr_fixed_size attrlist m in
  if (buffer =? 0) || (buffer_size <? 4) then faulted g
  else if buffer_size <? fixed_size then hret (set_failure g DARWIN_ENOMEM)
  else
    let* r := darwin_attr_write_stat (attr_context_at attrlist buffer buffer_size fixed_size) l name path dirfd in
    match r with
    | None => hret (set_failure g DARWIN_ENOMEM)
    | Some c => do* st 4 buffer (ac_variable c) in done g
    end.

(** The check of the attribute list, then the rest. *)
Definition validated g (attrlist options : Z) (for_set : bool) (next : hostm syscall_gate_state) : hostm syscall_gate_state :=
  let* m := get_mem in
  match darwin_attr_validate attrlist options for_set m with
  | Some e => hret (set_failure g e)
  | None => next
  end.

Definition handle_getattrlist_path g : hostm syscall_gate_state :=
  let x := gs_x g in
  let path := x 0 in
  let options := u32 (x 4) in
  let flags := if nz (options .& DARWIN_FSOPT_NOFOLLOW) then Range100.AT_SYMLINK_NOFOLLOW else 0 in
  validated g (x 1) options false
    (do* set_errno 0 in
     let* result := syscall Range000.SYS_newfstatat [AT_FDCWD; path; frame; flags] in
     if result <? 0 then fail_now g
     else
       let* s := string_at path in
       let* ok := build_absolute_path s full_path 4096 in
       do* (if ok then hret tt else write (snprintf_s full_path 4096 (match s with Some s => s | None => [] end))) in
       let* m := get_mem in
       finish_getattrlist_result g (x 1) (x 2) (x 3) (Range100.load_stat frame m) (path_basename path (literal "") m) full_path AT_FDCWD).

Definition handle_fgetattrlist g : hostm syscall_gate_state :=
  let x := gs_x g in
  let fd := i32 (x 0) in
  validated g (x 1) (u32 (x 4)) false
    (do* set_errno 0 in
     let* result := syscall Range100.SYS_fstat [fd; frame] in
     if result <? 0 then fail_now g
     else
       do* write (snprintf_s proc_path 64 (str "/proc/self/fd/" ++ print_d fd)) in
       do* set_errno 0 in
       let* path_size := syscall Range000.SYS_readlinkat [AT_FDCWD; proc_path; full_path; 4095] in
       do* (if path_size <? 0 then write (snprintf_s full_path 4096 (str "fd/" ++ print_d fd)) else st 1 (full_path + path_size) 0) in
       let* m := get_mem in
       finish_getattrlist_result g (x 1) (x 2) (x 3) (Range100.load_stat frame m) (path_basename full_path (literal "") m) full_path AT_FDCWD).

(** ** Setting attributes *)

(** One value of [size] bytes when the list has [bit]: the new cursor. *)
Definition consume (attrlist bit cursor size : Z) (f : Z -> hostm unit) : hostm Z :=
  let* m := get_mem in
  if wants attrlist COMMONATTR bit m then do* f cursor in hret (cursor + align_attr_offset size) else hret cursor.

(** Owner, group, mode, and whether a time is set: the values of the buffer at
    [cursor], as both handlers read them.  The times are at [frame]; owner,
    group and mode, words of the stack, are kept at [frame + 32] on. *)
Definition setattr_values (attrlist cursor : Z) : hostm (Z * Z * Z * bool) :=
  let copy := fun to size cursor => write (memcpy to cursor size) in
  do* st 8 (frame + 8) UTIME_OMIT in
  do* st 8 (frame + 24) UTIME_OMIT in
  do* st 4 (frame + 32) NO_ID in
  do* st 4 (frame + 36) NO_ID in
  do* st 4 (frame + 40) NO_ID in
  let* m := get_mem in
  let times := wants attrlist COMMONATTR DARWIN_ATTR_CMN_MODTIME m || wants attrlist COMMONATTR DARWIN_ATTR_CMN_ACCTIME m in
  let* cursor := consume attrlist DARWIN_ATTR_CMN_MODTIME cursor 16 (copy (frame + 16) 16) in
  let* cursor := consume attrlist DARWIN_ATTR_CMN_ACCTIME cursor 16 (copy frame 16) in
  let* cursor := consume attrlist DARWIN_ATTR_CMN_OWNERID cursor 4 (copy (frame + 32) 4) in
  let* cursor := consume attrlist DARWIN_ATTR_CMN_GRPID cursor 4 (copy (frame + 36) 4) in
  let* cursor := consume attrlist DARWIN_ATTR_CMN_ACCESSMASK cursor 4 (copy (frame + 40) 4) in
  let* uid := ld 4 (frame + 32) in
  let* gid := ld 4 (frame + 36) in
  let* mode := ld 4 (frame + 40) in
  hret (uid, gid, mode, times).

(** [errno = 0], a system call, and on failure the answer; else what follows. *)
Definition checked g (call : hostm Z) (next : hostm syscall_gate_state) : hostm syscall_gate_state :=
  do* set_errno 0 in
  let* result := call in
  if result <? 0 then fail_now g else next.

Definition setattrlist g (options : Z) (chown : Z -> Z -> hostm Z) (chmod : Z -> hostm Z) (utimens : hostm Z) : hostm syscall_gate_state :=
  let x := gs_x g in
  if x 2 =? 0 then faulted g
  else validated g (x 1) options true
    (let* v := setattr_values (x 1) (x 2) in
     let '(uid, gid, mode, times) := v in
     let set_times := if (times : bool) then checked g utimens (done g) else done g in
     let set_mode := if negb (mode =? NO_ID) then checked g (chmod mode) set_times else set_times in
     if negb (uid =? NO_ID) || negb (gid =? NO_ID) then checked g (chown uid gid) set_mode else set_mode).

Definition handle_setattrlist_path g : hostm syscall_gate_state :=
  let path := gs_x g 0 in
  let options := u32 (gs_x g 4) in
  let flags := if nz (options .& DARWIN_FSOPT_NOFOLLOW) then Range100.AT_SYMLINK_NOFOLLOW else 0 in
  setattrlist g options
    (fun uid gid => syscall Range000.SYS_fchownat [AT_FDCWD; path; uid; gid; flags])
    (fun mode => syscall Range000.SYS_fchmodat [AT_FDCWD; path; mode; 0])
    (syscall Range100.SYS_utimensat [AT_FDCWD; path; frame; flags]).

Definition handle_fsetattrlist g : hostm syscall_gate_state :=
  let fd := i32 (gs_x g 0) in
  setattrlist g (u32 (gs_x g 4))
    (fun uid gid => syscall Range100.SYS_fchown [fd; uid; gid])
    (fun mode => syscall Range100.SYS_fchmod [fd; mode])
    (syscall Range100.SYS_utimensat [fd; literal ""; frame; Range100.AT_EMPTY_PATH]).

(** ** Directories with attributes *)

(** Count, offset in the buffer, last position; [None]: the answer is given. *)
Definition direntriesattr_body (fd attrlist buffer buffer_size max_count entry : Z) (s : Z * Z * Z * bool) : hostm (Z * Z * Z * bool * bool) :=
  let '(count, offset, last_position, failed) := s in
  if max_count <=? count then hret (s, true)
  else
    let* name := c_str (entry + 19) in
    if is_dot name then hret (s, false)
    else
      do* set_errno 0 in
      let* r := syscall Range000.SYS_newfstatat [fd; entry + 19; dir_stat 0; Range100.AT_SYMLINK_NOFOLLOW] in
      if r <? 0 then hret (s, false)
      else
        let* m := get_mem in
        let fixed_size := darwin_attr_fixed_size attrlist m in
        if buffer_size <? offset + fixed_size then hret (s, true)
        else
          let* r := darwin_attr_write_stat (attr_context_at attrlist (buffer + offset) (buffer_size - offset) fixed_size)
                      (Range100.load_stat (dir_stat 0) m) (entry + 19) (entry + 19) fd in
          match r with
          | None => hret (count, offset, last_position, true, true)
          | Some c =>
              let entry_size := u32 (ac_variable c) in
              do* st 4 (buffer + offset) entry_size in
              let* d_off := ld 8 (entry + 8) in
              hret (count + 1, offset + align_attr_offset entry_size, d_off, failed, false)
          end.

Definition handle_getdirentriesattr g : hostm syscall_gate_state :=
  let x := gs_x g in
  let fd := i32 (x 0) in
  let* count_in := ld 4 (x 4) in
  let max_count := if nz (x 4) && nz count_in then count_in else 2 ^ 32 - 1 in
  if (x 2 =? 0) && nz (x 3) then faulted g
  else validated g (x 1) (u32 (x 7)) false
    (do* set_errno 0 in
     let* result := syscall Range100.SYS_getdents64 [fd; dir_buffer 0; MACHGATE_GETDENTS_BUFFER_SIZE] in
     if result <? 0 then fail_now g
     else
       let* r := for_entries (Z.to_nat result) (dir_buffer 0) result 0 (direntriesattr_body fd (x 1) (x 2) (x 3) max_count) (0, 0, 0, false) in
       let '(count, offset, last_position, failed) := fst r in
       if (failed : bool) then hret (set_failure g DARWIN_ENOMEM)
       else
         do* (if nz (x 4) then st 4 (x 4) count else hret tt) in
         do* (if nz (x 5) then st 8 (x 5) last_position else hret tt) in
         do* (if nz (x 6) then st 8 (x 6) 0 else hret tt) in
         done g).

(** ** copyfile

    The buffer of 16384 bytes is at [frame]. *)

(** Writes [remaining] bytes from [cursor]; [Some e]: it failed. *)
Fixpoint write_all (n : nat) (out_fd cursor remaining : Z) : hostm (option Z) :=
  if remaining <=? 0 then hret None
  else match n with
  | O => hret None
  | S n =>
      let* write_result := machgate_syscall_write_no_sigpipe out_fd cursor remaining in
      if write_result <? 0 then let* e := errno_or_eio in hret (Some e)
      else write_all n out_fd (cursor + write_result) (remaining - write_result)
  end.

Fixpoint copy_loop (n : nat) (in_fd out_fd : Z) : hostm (option Z) :=
  match n with
  | O => hret None
  | S n =>
      do* set_errno 0 in
      let* read_result := syscall SYS_read [in_fd; frame; 16384] in
      if read_result <? 0 then let* e := errno_or_eio in hret (Some e)
      else if read_result =? 0 then hret None
      else
        let* r := write_all (Z.to_nat read_result) out_fd frame read_result in
        match r with Some e => hret (Some e) | None => copy_loop n in_fd out_fd end
  end.

Definition handle_copyfile g : hostm syscall_gate_state :=
  let x := gs_x g in
  let flags := u32 (x 3) in
  let out_flags := O_WRONLY .| O_CREAT .| O_CLOEXEC .| (if nz (flags .& 1) then O_TRUNC else O_EXCL) in
  if nz (flags .& Z.lnot 3) then invalid g
  else
    do* set_errno 0 in
    let* r := syscall SYS_openat [AT_FDCWD; x 0; O_CLOEXEC] in
    let in_fd := i32 r in
    if in_fd <? 0 then fail_now g
    else
      do* set_errno 0 in
      let* r := syscall SYS_openat [AT_FDCWD; x 1; out_flags; u32 (x 2)] in
      let out_fd := i32 r in
      if out_fd <? 0 then
        let* saved_errno := errno_or_eio in
        do* syscall SYS_close [in_fd] in hret (set_failure g (errno_to_darwin saved_errno))
      else
        let* r := copy_loop fuel in_fd out_fd in
        match r with
        | Some saved_errno =>
            do* syscall SYS_close [in_fd] in
            do* syscall SYS_close [out_fd] in
            hret (set_failure g (errno_to_darwin saved_errno))
        | None =>
            do* syscall SYS_close [in_fd] in
            forward g SYS_close [out_fd]
        end.

(** ** fsgetpath

    [path], the result, is at [frame]; [display_path] and [child_path] are
    values. *)

Definition fsgetpath_match (l : linux_stat) (fsid objid : Z) (m : bytemem) : bool :=
  (i32 (l_dev l) =? i32 (load 4 fsid m)) && (l_ino l =? objid).

(** One entry of the directory at [depth]; [search] looks in a directory below
    it, [matches] tells the file looked for. *)
Definition fsgetpath_entry (matches : linux_stat -> Z -> Z -> bytemem -> bool) (search : Z -> cstr -> hostm bool) (dirfd depth : Z) (display_path : cstr) (fsid objid entry : Z) (found : bool)
    : hostm (bool * bool) :=
  let* d_name := c_str (entry + 19) in
  if is_dot d_name then hret (false, false)
  else
    let child_path := firstn 4095 (if negb (bool_decide (display_path = [])) && negb (streq display_path (str "."))
                                   then display_path ++ "/"%char :: d_name else d_name) in
    do* set_errno 0 in
    let* r := syscall Range000.SYS_newfstatat [dirfd; entry + 19; dir_stat depth; Range100.AT_SYMLINK_NOFOLLOW] in
    if r <? 0 then hret (false, false)
    else
      let* m := get_mem in
      let l := Range100.load_stat (dir_stat depth) m in
      if matches l fsid objid m then
        let* ok := build_absolute_path (Some child_path) frame 4096 in
        do* (if ok then hret tt else write (snprintf_s frame 4096 child_path)) in
        hret (true, true)
      else if S_ISDIR (l_mode l) then
        let* r := syscall SYS_openat [dirfd; entry + 19; O_DIR .| O_NOFOLLOW] in
        let child_fd := i32 r in
        if child_fd <? 0 then hret (false, false)
        else
          let* found := search child_fd child_path in
          do* syscall SYS_close [child_fd] in
          hret (found, found)
      else hret (false, false).

(** [levels] directories may still be entered: 9 less the depth. *)
Fixpoint fsgetpath_search_dir (matches : linux_stat -> Z -> Z -> bytemem -> bool) (levels : nat) (dirfd : Z) (display_path : cstr) (fsid objid : Z) : hostm bool :=
  match levels with
  | O => hret false
  | Datatypes.S levels =>
      let depth := 8 - Z.of_nat levels in
      let* r := read_entries fuel dirfd (dir_buffer depth)
                  (fsgetpath_entry matches (fun child_fd child_path => fsgetpath_search_dir matches levels child_fd child_path fsid objid)
                     dirfd depth display_path fsid objid) false in
      hret (fst r)
  end.

Definition handle_fsgetpath_ext g : hostm syscall_gate_state :=
  let x := gs_x g in
  let buffer_size := x 1 in
  if (x 0 =? 0) || (x 2 =? 0) then faulted g
  else if (buffer_size =? 0) || (4096 <? buffer_size) || nz (u32 (x 4) .& Z.lnot 3) then invalid g
  else
    let* r := syscall SYS_openat [AT_FDCWD; literal "."; O_DIR] in
    let fd := i32 r in
    if fd <? 0 then fail_now g
    else
      do* write (memzero frame 4096) in
      let* found := fsgetpath_search_dir fsgetpath_match 9 fd (str ".") (x 2) (x 3) in
      do* syscall SYS_close [fd] in
      if negb found then hret (set_failure g (errno_to_darwin ENOENT))
      else
        let* path := c_str frame in
        let length := Z.of_nat (length path) + 1 in
        if buffer_size <? length then hret (set_failure g DARWIN_ENOMEM)
        else do* write (memcpy (x 0) frame length) in hret (set_success g length).

(** ** searchfs

    [struct darwin_fssearchblock] in memory: returnattrs 0, returnbuffer 8,
    returnbuffersize 16, maxmatches 24, timelimit 32, searchparams1 48,
    sizeofsearchparams1 56, searchparams2 64, sizeofsearchparams2 72,
    searchattrs 80. *)

(** The name, or the error number; [name_size] is 256. *)
Definition searchfs_read_name_param (searchblock : Z) (m : bytemem) : cstr + Z :=
  let params := load 8 (searchblock + 48) m in
  let size := load 8 (searchblock + 56) m in
  let buffer_length := load 4 params m in
  let dataoffset := i32 (load 4 (params + 4) m) in
  let string_length := load 4 (params + 8) m in
  let string_offset := 4 + dataoffset in
  if params =? 0 then inr DARWIN_EFAULT
  else if (DARWIN_SEARCHFS_MAX_SEARCHPARMS <? size) || (DARWIN_SEARCHFS_MAX_SEARCHPARMS <? load 8 (searchblock + 72) m) || (size <? 4 + 8) then inr DARWIN_EINVAL
  else if (size <? buffer_length) || (dataoffset <? 0) then inr DARWIN_EINVAL
  else if (string_length =? 0) || (size <? string_offset) || (size - string_offset <? string_length) || (256 <? string_length) then inr DARWIN_EINVAL
  else inl (c_string (Z.to_nat (Z.min string_length 255)) (params + string_offset) m).

(** The error number, or [None]. *)
Definition searchfs_validate (searchblock options : Z) (m : bytemem) : option Z :=
  let attrs := fun n k => load n (searchblock + 80 + k) m in
  match darwin_attr_validate (load 8 searchblock m) 0 false m with
  | Some e => Some e
  | None =>
      if negb (attrs 2 0 =? 5) || nz (attrs 2 2) || negb (attrs 4 4 =? DARWIN_ATTR_CMN_NAME) || nz (attrs 4 8) || nz (attrs 4 12) ||
         nz (attrs 4 16) || nz (attrs 4 20) then Some DARWIN_EINVAL
      else if nz (options .& Z.lnot 0x800000ff) then Some DARWIN_EINVAL
      else if negb (nz (options .& 1)) then Some (errno_to_darwin EBUSY)
      else if negb (nz (options .& 0xc)) then Some DARWIN_EINVAL
      else if (load 8 (searchblock + 8) m =? 0) && nz (load 8 (searchblock + 16) m) then Some DARWIN_EFAULT
      else None
  end.

(** [strstr] *)
Fixpoint contains (pattern s : cstr) : bool :=
  starts_with pattern s || match s with [] => false | _ :: s => contains pattern s end.

(** Options: MATCHPARTIALNAMES 2, NEGATEPARAMS 0x80000000. *)
Definition searchfs_name_matches (options : Z) (search_name name : cstr) : bool :=
  let result := if nz (options .& 2) then contains search_name name else streq name search_name in
  if nz (options .& 0x80000000) then negb result else result.

(** The context of a search: the matches, the offset in the buffer, whether it
    stopped, and the error number of the answer so far. *)
Record searchfs_context := mk_sfc { matches : Z; buffer_offset : Z; stopped : bool; failure : option Z }.

Definition stop (c : searchfs_context) (failure : option Z) : searchfs_context := mk_sfc (matches c) (buffer_offset c) true failure.

(** The context, and whether the match was appended. *)
Definition searchfs_append_match (searchblock : Z) (c : searchfs_context) (l : linux_stat) (name dirfd : Z) : hostm (searchfs_context * bool) :=
  let* m := get_mem in
  let returnattrs := load 8 searchblock m in
  let returnbuffer := load 8 (searchblock + 8) m in
  let returnbuffersize := load 8 (searchblock + 16) m in
  let fixed_size := darwin_attr_fixed_size returnattrs m in
  if load 8 (searchblock + 24) m <=? matches c then hret (stop c (failure c), false)
  else if returnbuffersize <? buffer_offset c + fixed_size then hret (stop c (Some (errno_to_darwin ENOBUFS)), false)
  else
    let buffer := returnbuffer + buffer_offset c in
    let* r := darwin_attr_write_stat (attr_context_at returnattrs buffer (returnbuffersize - buffer_offset c) fixed_size) l name name dirfd in
    match r with
    | None => hret (stop c (Some DARWIN_ENOMEM), false)
    | Some a =>
        let entry_size := u32 (ac_variable a) in
        do* st 4 buffer entry_size in
        hret (mk_sfc (matches c + 1) (buffer_offset c + align_attr_offset entry_size) (stopped c) (failure c), true)
    end.

Definition searchfs_entry (scan : Z -> searchfs_context -> hostm searchfs_context) (searchblock options : Z) (search_name : cstr)
    (dirfd depth entry : Z) (c : searchfs_context) : hostm (searchfs_context * bool) :=
  let* d_name := c_str (entry + 19) in
  if is_dot d_name then hret (c, false)
  else
    do* set_errno 0 in
    let* r := syscall Range000.SYS_newfstatat [dirfd; entry + 19; dir_stat depth; Range100.AT_SYMLINK_NOFOLLOW] in
    if r <? 0 then hret (c, false)
    else
      let* m := get_mem in
      let l := Range100.load_stat (dir_stat depth) m in
      let is_directory := S_ISDIR (l_mode l) in
      let type_matches := nz (options .& (if is_directory then 4 else 8)) in
      let* r := (if type_matches && searchfs_name_matches options search_name d_name
                 then searchfs_append_match searchblock c l (entry + 19) dirfd else hret (c, true)) in
      let '(c, appended) := r in
      if negb appended then hret (c, true)
      else if is_directory then
        let* r := syscall SYS_openat [dirfd; entry + 19; O_DIR .| O_NOFOLLOW] in
        let child_fd := i32 r in
        if child_fd <? 0 then hret (c, false)
        else
          let* c := scan child_fd c in
          do* syscall SYS_close [child_fd] in
          hret (c, stopped c)
      else hret (c, false).

(** As in [fsgetpath_search_dir]; [errno] is cleared before each read, which no
    code looks at. *)
Fixpoint searchfs_scan_dir (levels : nat) (searchblock options : Z) (search_name : cstr) (dirfd : Z) (c : searchfs_context) : hostm searchfs_context :=
  match levels with
  | O => hret c
  | Datatypes.S levels =>
      if stopped c then hret c
      else
        let depth := 8 - Z.of_nat levels in
        let* r := read_entries fuel dirfd (dir_buffer depth)
                    (searchfs_entry (searchfs_scan_dir levels searchblock options search_name) searchblock options search_name dirfd depth) c in
        hret (fst r)
  end.

Definition handle_searchfs g : hostm syscall_gate_state :=
  let x := gs_x g in
  let searchblock := x 1 in
  let options := u32 (x 4) in
  if (x 0 =? 0) || (searchblock =? 0) || (x 2 =? 0) then faulted g
  else
    let* m := get_mem in
    match searchfs_validate searchblock options m with
    | Some e => hret (set_failure g e)
    | None =>
        match searchfs_read_name_param searchblock m with
        | inr e => hret (set_failure g e)
        | inl search_name =>
            do* set_errno 0 in
            let* r := syscall SYS_openat [AT_FDCWD; x 0; O_DIR] in
            let fd := i32 r in
            if fd <? 0 then fail_now g
            else
              let* c := searchfs_scan_dir 9 searchblock options search_name fd (mk_sfc 0 0 false None) in
              do* syscall SYS_close [fd] in
              do* st 8 (x 2) (matches c) in
              match failure c with
              | Some e => hret (set_failure g e)
              | None => done g
              end
        end
    end.
End attr.

(** ** What the guest reads

    The guest walks the attributes of its list in order: a value of the fixed
    part has the size of its attribute, a string is where its reference says
    and has the length the reference says, its null character counted. *)

Inductive attr_kind := KBytes (size : Z) | KText.

Definition bytes_read (a n : Z) (m : bytemem) : list Z := map (fun i => m (a + i) mod 256) (seqZ 0 n).

Fixpoint read_attrs (kinds : list attr_kind) (a : Z) (m : bytemem) : list attr_value :=
  match kinds with
  | [] => []
  | KBytes n :: kinds => Bytes (bytes_read a n m) :: read_attrs kinds (a + n) m
  | KText :: kinds =>
      let s := c_string (Z.to_nat (load 4 (a + 4) m)) (a + i32 (load 4 a m)) m in
      (if load 4 (a + 4) m =? Z.of_nat (length s) + 1 then Text s else Bytes []) :: read_attrs kinds (a + 8) m
  end.

(** The kind of a value, its size in the fixed part, and what it takes of the
    variable part. *)
Definition kind_of (v : attr_value) : attr_kind := match v with Bytes l => KBytes (Z.of_nat (length l)) | Text _ => KText end.
Definition fixed_of (v : attr_value) : Z := match v with Bytes l => Z.of_nat (length l) | Text _ => 8 end.
Definition value_ok (v : attr_value) : Prop :=
  match v with
  | Bytes l => Forall (fun b => 0 <= b < 256) l /\ Z.of_nat (length l) < 2 ^ 16 /\ Z.of_nat (length l) mod 4 = 0
  | Text s => no_nul s /\ Z.of_nat (length s) <= 65536
  end.

Lemma align_attr v : 0 <= v < 2 ^ 62 -> align_attr_offset v = 4 * ((v + 3) / 4).
Proof.
  intros Hv. unfold align_attr_offset. change (2 ^ 64 - 4) with (Z.ones 64 .& Z.lnot (Z.ones 2)).
  rewrite Z.land_assoc, Z.land_ones, Z.mod_small by lia. rewrite land_lnot_ones by lia. done.
Qed.

Lemma align_bounds v : 0 <= v < 2 ^ 62 -> v <= align_attr_offset v < v + 4 /\ align_attr_offset v mod 4 = 0.
Proof. intros Hv. rewrite align_attr by done. pose proof (Z.div_mod (v + 3) 4 ltac:(lia)). pose proof (Z.mod_pos_bound (v + 3) 4 ltac:(lia)). split; [lia|]. rewrite Z.mul_comm. apply Z.mod_mul. lia. Qed.

Lemma align_id v : 0 <= v < 2 ^ 62 -> v mod 4 = 0 -> align_attr_offset v = v.
Proof. intros Hv H4. destruct (align_bounds v Hv) as [Hb Ha]. pose proof (Z.div_mod v 4 ltac:(lia)). pose proof (Z.div_mod (align_attr_offset v) 4 ltac:(lia)). lia. Qed.

Lemma place_out a l m x : x < a \/ a + Z.of_nat (length l) <= x -> place a l m x = m x.
Proof.
  intros Hx. unfold place. destruct (l !! Z.to_nat (x - a)) eqn:He; [|done]. apply lookup_lt_Some in He. destruct (Z.leb_spec a x); [lia|done].
Qed.

Lemma bytes_read_at m a l : bytes_at m a l -> bytes_read a (Z.of_nat (length l)) m = l.
Proof.
  intros Hb. unfold bytes_read. change (map ?f ?k) with (f <$> k). apply list_eq. intros i. rewrite list_lookup_fmap.
  destruct (l !! i) as [b|] eqn:Hi.
  - apply lookup_lt_Some in Hi as Hlt. rewrite lookup_seqZ_lt by lia. cbn. by rewrite Z.add_0_l, (Hb _ _ Hi).
  - apply lookup_ge_None in Hi. by rewrite lookup_seqZ_ge by lia.
Qed.

Lemma c_string_at m a s n : no_nul s -> bytes_at m a (map code s ++ [0]) -> (length s < n)%nat -> c_string n a m = s.
Proof.
  intros Hs. revert n a. induction Hs as [|c s Hc Hs IH]; intros [|n] a Hb Hn; cbn [length] in Hn; try lia; cbn [c_string map app] in *.
  - apply bytes_at_cons in Hb as [-> _]. done.
  - apply bytes_at_cons in Hb as [-> Hb]. destruct (Z.eqb_spec (code c) 0); [done|]. f_equal; [|apply IH; [done|lia]].
    unfold code. rewrite Nat2Z.id. apply ascii_nat_embedding.
Qed.

Lemma bytes_at_ext m m' a l : bytes_at m a l -> (forall x, a <= x < a + Z.of_nat (length l) -> m' x = m x) -> bytes_at m' a l.
Proof. intros H Hx i b Hi. rewrite Hx; [by apply H|]. apply lookup_lt_Some in Hi. lia. Qed.

(** ** The packed buffer is what the guest reads *)

Fixpoint put_values (vs : list attr_value) (c : attr_context) (m : bytemem) : option attr_context * bytemem :=
  match vs with
  | [] => (Some c, m)
  | v :: vs => match write_value c v m with (None, m) => (None, m) | (Some c, m) => put_values vs c m end
  end.

Definition fixed_total (vs : list attr_value) : Z := foldr (fun v n => fixed_of v + n) 0 vs.

(** What the strings take of the variable part. *)
Definition text_of (v : attr_value) : Z := match v with Bytes _ => 0 | Text s => 4 * ((Z.of_nat (length s) + 1 + 3) / 4) end.
Definition text_total (vs : list attr_value) : Z := foldr (fun v n => text_of v + n) 0 vs.

Lemma text_of_bounds s : Z.of_nat (length s) + 1 <= text_of (Text s) < Z.of_nat (length s) + 1 + 4 /\ text_of (Text s) mod 4 = 0.
Proof.
  cbn [text_of]. split; [|by rewrite Z.mul_comm, Z.mod_mul].
  pose proof (Z.div_mod (Z.of_nat (length s) + 1 + 3) 4 ltac:(lia)). pose proof (Z.mod_pos_bound (Z.of_nat (length s) + 1 + 3) 4 ltac:(lia)). lia.
Qed.

Lemma text_total_nonneg vs : 0 <= text_total vs.
Proof.
  induction vs as [|v vs IH]; [done|]. change (text_total (v :: vs)) with (text_of v + text_total vs).
  destruct v as [l|s]; [cbn [text_of]; lia|]. pose proof (text_of_bounds s). lia.
Qed.

Record context_ok (c : attr_context) : Prop := {
  co_fixed : 0 <= ac_fixed c /\ ac_fixed c mod 4 = 0;
  co_variable : 0 <= ac_variable c < ac_capacity c + 4 /\ ac_variable c mod 4 = 0;
  co_capacity : ac_capacity c < 2 ^ 31 - 4;
}.

(** Nothing outside [a, b) and [c, d) changes. *)
Definition only_in (a b c d : Z) (m m' : bytemem) : Prop := forall x, x < a \/ b <= x -> x < c \/ d <= x -> m' x = m x.

Lemma fixed_total_nonneg vs : Forall value_ok vs -> 0 <= fixed_total vs.
Proof.
  induction 1 as [|v vs Hv Hvs IH]; simpl; [lia|]. unfold fixed_total in *. simpl. destruct v as [l|s]; simpl; [|lia].
  lia.
Qed.

Lemma place_head b l m m' : Forall (fun x => 0 <= x < 256) l -> (forall x, b <= x < b + Z.of_nat (length l) -> m' x = place b l m x) -> bytes_at m' b l.
Proof. intros Hl Hx. eapply bytes_at_ext; [by apply place_bytes_at|done]. Qed.

Lemma codes_range s : Forall (fun b => 0 <= b < 256) (map code s ++ [0]).
Proof. apply Forall_app. split; [|by repeat constructor]. induction s; simpl; constructor; [apply code_range|done]. Qed.

(** What follows one value: the fixed part moved on by its size. *)
Definition advanced (c : attr_context) (v : attr_value) (c' : attr_context) : Prop :=
  ac_attrlist c' = ac_attrlist c /\ ac_buffer c' = ac_buffer c /\ ac_capacity c' = ac_capacity c /\
  ac_fixed c' = ac_fixed c + fixed_of v /\ ac_variable c <= ac_variable c' /\ context_ok c'.

Lemma write_bytes_step c l m c' m' : context_ok c -> value_ok (Bytes l) -> write_value c (Bytes l) m = (Some c', m') ->
  advanced c (Bytes l) c' /\ ac_variable c' = ac_variable c /\ m' = place (ac_buffer c + ac_fixed c) l m.
Proof.
  intros [[Hf Hf4] [Hv Hv4] Hc] (Hl & Hsz & H4) Hw. simpl in Hw. unfold darwin_attr_write_bytes in Hw.
  destruct (Z.ltb_spec (ac_capacity c) (ac_fixed c + Z.of_nat (length l))); [done|]. injection Hw as <- <-.
  assert (Ha : align_attr_offset (ac_fixed c + Z.of_nat (length l)) = ac_fixed c + Z.of_nat (length l)).
  { apply align_id; [lia|]. by rewrite Z.add_mod, Hf4, H4 by lia. }
  split; [|done]. unfold advanced. simpl. rewrite Ha. repeat split; simpl; try lia; try done.
  by rewrite Z.add_mod, Hf4, H4 by lia.
Qed.

Lemma write_bytes_fits c l m c' m' : write_value c (Bytes l) m = (Some c', m') -> ac_fixed c + Z.of_nat (length l) <= ac_capacity c.
Proof. simpl. unfold darwin_attr_write_bytes. by destruct (Z.ltb_spec (ac_capacity c) (ac_fixed c + Z.of_nat (length l))). Qed.

Lemma write_text_step c s m c' m' : context_ok c -> no_nul s -> write_value c (Text s) m = (Some c', m') ->
  let n := Z.of_nat (length s) + 1 in
  advanced c (Text s) c' /\ ac_variable c' = ac_variable c + text_of (Text s) /\ ac_variable c + n <= ac_capacity c /\ ac_fixed c + 8 <= ac_capacity c /\
  m' = place (ac_buffer c + ac_variable c) (map code s ++ [0])
         (place (ac_buffer c + ac_fixed c) (le_bytes 4 (ac_variable c - ac_fixed c) ++ le_bytes 4 n) m).
Proof.
  intros [[Hf Hf4] [Hv Hv4] Hc] Hs Hw n. simpl in Hw. unfold darwin_attr_write_ref in Hw. rewrite (align_id (ac_variable c)) in Hw by (lia || done). fold n in Hw.
  destruct (Z.ltb_spec (ac_capacity c) (ac_fixed c + 8)); [done|]. destruct (Z.ltb_spec (ac_capacity c) (ac_variable c + n)); [done|]. injection Hw as <- <-.
  assert (Ha : align_attr_offset (ac_fixed c + 8) = ac_fixed c + 8).
  { apply align_id; [lia|]. by rewrite Z.add_mod, Hf4 by lia. }
  pose proof (text_of_bounds s) as [Ht Ht4]. fold n in Ht.
  assert (Hv' : align_attr_offset (ac_variable c + n) = ac_variable c + text_of (Text s)).
  { rewrite align_attr by lia. cbn [text_of]. fold n. clear -Hv4 Hv. Z.to_euclidean_division_equations. lia. }
  split; [|split; [exact Hv'|split; [lia|split; [lia|done]]]]. unfold advanced. cbn [ac_attrlist ac_buffer ac_capacity ac_fixed ac_variable fixed_of].
  rewrite Ha, Hv'. repeat split; cbn [ac_attrlist ac_buffer ac_capacity ac_fixed ac_variable]; try lia; try done.
  - by rewrite Z.add_mod, Hf4 by lia.
  - by rewrite Z.add_mod, Hv4, Ht4 by lia.
Qed.

Lemma put_values_read vs : Forall value_ok vs -> forall c m c' m',
  context_ok c -> ac_fixed c + fixed_total vs <= ac_variable c -> put_values vs c m = (Some c', m') ->
  let b := ac_buffer c in
  ac_fixed c' = ac_fixed c + fixed_total vs /\ (ac_variable c' = ac_variable c + text_total vs /\ ac_variable c' < ac_capacity c + 4) /\
  (forall m2, (forall x, b + ac_fixed c <= x < b + ac_capacity c -> m2 x = m' x) -> read_attrs (map kind_of vs) (b + ac_fixed c) m2 = vs) /\
  only_in (b + ac_fixed c) (b + ac_fixed c + fixed_total vs) (b + ac_variable c) (b + ac_capacity c) m m'.
Proof.
  induction 1 as [|v vs Hv Hvs IH]; intros c m c' m' Hok Hfit Hput b; simpl in Hput.
  { injection Hput as <- <-. unfold fixed_total, text_total. simpl. split; [lia|]. destruct Hok as [? [? ?] ?]. split; [lia|]. split; [done|]. by intros x. }
  destruct (write_value c v m) as [[c1|] m1] eqn:Hw; [|done]. pose proof (fixed_total_nonneg vs Hvs) as Hnn.
  unfold fixed_total in Hfit. simpl in Hfit. fold (fixed_total vs) in Hfit.
  pose proof (text_total_nonneg vs) as Htn. change (fixed_total (v :: vs)) with (fixed_of v + fixed_total vs).
  change (text_total (v :: vs)) with (text_of v + text_total vs). simpl (map kind_of (v :: vs)). destruct v as [l|s].
  - destruct (write_bytes_step _ _ _ _ _ Hok Hv Hw) as ((_ & Hb & Hcap & Hf1 & _ & Hok1) & Hv1 & ->).
    destruct (IH c1 _ c' m' Hok1 ltac:(lia) Hput) as (Hf & Hvar & Hread & Honly). destruct Hv as (Hl & Hsz & H4).
    rewrite Hb, Hv1, Hcap in *. fold b in Hread, Honly. rewrite Hf1 in *. simpl (fixed_of _) in *.
    change (text_of (Bytes l)) with 0. split; [lia|]. split; [lia|]. split.
    + intros m2 Hm2. simpl. rewrite <- Z.add_assoc, Hread by (intros x Hx; apply Hm2; lia). f_equal. f_equal. apply bytes_read_at.
      eapply place_head; [done|]. intros x Hx. rewrite Hm2; [apply Honly; lia|].
      apply write_bytes_fits in Hw. lia.
    + intros x Hx1 Hx2. rewrite Honly by lia. apply place_out. lia.
  - destruct (write_text_step _ _ _ _ _ Hok (proj1 Hv) Hw) as ((_ & Hb & Hcap & Hf1 & _ & Hok1) & Hv1 & Hvc & Hfc & ->).
    pose proof (text_of_bounds s) as [Ht _]. destruct (IH c1 _ c' m' Hok1 ltac:(lia) Hput) as (Hf & Hvar & Hread & Honly).
    rewrite Hb, Hcap in *. fold b in Hread, Honly. rewrite Hf1 in *. simpl (fixed_of _) in *. set (n := Z.of_nat (length s) + 1) in *.
    destruct Hok as [[Hfc0 Hf4] [Hvb Hv4] Hc]. fold b.
    assert (Hlen : Z.of_nat (length (map code s ++ [0])) = n) by (rewrite length_app, length_map; simpl; lia).
    assert (Href : bytes_at m' (b + ac_fixed c) (le_bytes 4 (ac_variable c - ac_fixed c) ++ le_bytes 4 n)).
    { eapply place_head; [apply Forall_app; split; apply le_bytes_range|]. intros x Hx. rewrite length_app, !le_bytes_length in Hx.
      rewrite Honly by lia. apply place_out. lia. }
    assert (Htext : bytes_at m' (b + ac_variable c) (map code s ++ [0])).
    { eapply place_head; [apply codes_range|]. intros x Hx. rewrite Hlen in Hx. apply Honly; lia. }
    split; [lia|]. split; [lia|]. split.
    + intros m2 Hm2. apply (bytes_at_ext _ m2) in Href; [|intros x Hx; rewrite length_app, !le_bytes_length in Hx; apply Hm2; lia].
      apply (bytes_at_ext _ m2) in Htext; [|intros x Hx; apply Hm2; lia].
      apply bytes_at_app in Href as Hsplit. destruct Hsplit as [_ Hlen4]. rewrite le_bytes_length in Hlen4. change (Z.of_nat 4) with 4 in Hlen4.
      simpl. rewrite (load_bytes 4 m2 (b + ac_fixed c) (ac_variable c - ac_fixed c) (le_bytes 4 n)) by (done || lia).
      rewrite (load_bytes 4 m2 (b + ac_fixed c + 4) n []) by (rewrite ?app_nil_r; done || lia).
      rewrite !Z.mod_small by lia. unfold i32. rewrite signed_small by lia.
      replace (b + ac_fixed c + 8) with (b + (ac_fixed c + 8)) by lia.
      replace (b + ac_fixed c + (ac_variable c - ac_fixed c)) with (b + ac_variable c) by lia.
      rewrite (c_string_at _ _ s) by (done || apply Hv || lia). rewrite Z.eqb_refl.
      by rewrite Hread by (intros x Hx; apply Hm2; lia).
    + intros x Hx1 Hx2. rewrite Honly by lia. rewrite place_out by lia. apply place_out. rewrite length_app, !le_bytes_length. lia.
Qed.

(** Packing only fails for want of room. *)
Lemma put_values_room vs : Forall value_ok vs -> forall c m m',
  context_ok c -> ac_fixed c + fixed_total vs <= ac_variable c -> put_values vs c m = (None, m') -> ac_capacity c < ac_variable c + text_total vs.
Proof.
  induction 1 as [|v vs Hv Hvs IH]; intros c m m' Hok Hfit Hput; simpl in Hput; [done|].
  pose proof (fixed_total_nonneg vs Hvs) as Hnn. pose proof (text_total_nonneg vs) as Htn.
  unfold fixed_total in Hfit. simpl in Hfit. fold (fixed_total vs) in Hfit. change (text_total (v :: vs)) with (text_of v + text_total vs).
  destruct (write_value c v m) as [[c1|] m1] eqn:Hw.
  - destruct v as [l|s].
    + destruct (write_bytes_step _ _ _ _ _ Hok Hv Hw) as ((_ & _ & Hcap & Hf1 & _ & Hok1) & Hv1 & _).
      pose proof (IH c1 _ m' Hok1 ltac:(lia) Hput). simpl. lia.
    + destruct (write_text_step _ _ _ _ _ Hok (proj1 Hv) Hw) as ((_ & _ & Hcap & Hf1 & _ & Hok1) & Hv1 & Hvc & _ & _).
      pose proof (text_of_bounds s). pose proof (IH c1 _ m' Hok1 ltac:(lia) Hput). lia.
  - destruct v as [l|s]; simpl in Hw.
    + unfold darwin_attr_write_bytes in Hw. destruct (Z.ltb_spec (ac_capacity c) (ac_fixed c + Z.of_nat (length l))); [|done].
      simpl in Hfit |- *. lia.
    + unfold darwin_attr_write_ref in Hw. destruct Hok as [_ [Hvb Hv4] Hc]. rewrite (align_id (ac_variable c)) in Hw by (lia || done).
      simpl in Hfit. destruct (text_of_bounds s) as [? _].
      destruct (Z.ltb_spec (ac_capacity c) (ac_fixed c + 8)); [lia|].
      destruct (Z.ltb_spec (ac_capacity c) (ac_variable c + (Z.of_nat (length s) + 1))); [lia|done].
Qed.

(** ** getattrlist *)

Section getattrlist.
Context {K : kernel} (frame : Z) (fuel : nat).
Implicit Types (g : syscall_gate_state) (p : process statics K).

(** A computation that neither depends on the bytes of [lo, hi) nor changes
    anything: it gives what it gives in [p]. *)
Definition settled_value p (lo hi : Z) (v : host statics K attr_value) : Prop :=
  forall m, (forall x, x < lo \/ hi <= x -> m x = p_mem p x) -> v (with_mem m p) = (fst (v p), with_mem m p).

(** The values the list asks for, as they are in [p]. *)
Definition wanted_values {A} (attrlist : Z) (m : bytemem) (vs : list (Z * Z * A)) : list A :=
  map snd (List.filter (fun '(word, bit, _) => wants attrlist word bit m) vs).
Definition values_in p (attrlist : Z) (vs : list (Z * Z * host statics K attr_value)) : list attr_value :=
  map (fun v => fst (v p)) (wanted_values attrlist (p_mem p) vs).

(** Nothing of the list of attributes is in [lo, hi). *)
Definition list_apart (attrlist lo hi : Z) : Prop := attrlist + 24 <= lo \/ hi <= attrlist.

Lemma wants_ext attrlist word bit lo hi m m' : list_apart attrlist lo hi -> 0 <= word <= 20 ->
  (forall x, x < lo \/ hi <= x -> m' x = m x) -> wants attrlist word bit m' = wants attrlist word bit m.
Proof. intros Ha Hw Hx. unfold wants. f_equal. f_equal. apply load_ext. intros x Hr. apply Hx. unfold list_apart in Ha. lia. Qed.

Lemma write_values_put p lo hi attrlist vs : list_apart attrlist lo hi ->
  Forall (fun '(word, bit, v) => 0 <= word <= 20 /\ (wants attrlist word bit (p_mem p) = true -> settled_value p lo hi v /\ value_ok (fst (v p)))) vs ->
  forall c m, ac_attrlist c = attrlist -> ac_buffer c = lo -> lo + ac_capacity c = hi -> context_ok c ->
  ac_fixed c + fixed_total (values_in p attrlist vs) <= ac_variable c ->
  (forall x, x < lo \/ hi <= x -> m x = p_mem p x) ->
  write_values vs c (with_mem m p) = (let r := put_values (values_in p attrlist vs) c m in (fst r, with_mem (snd r) p)).
Proof.
  intros Ha. induction 1 as [|[[word bit] v] vs [Hw Hv] Hvs IH]; intros c m Hc Hb Hcap Hok Hfit Hm; simpl; [done|].
  unfold hbind at 1, get_mem. cbn [p_mem with_mem]. rewrite Hc, (wants_ext attrlist word bit lo hi (p_mem p) m) by done.
  unfold values_in, wanted_values in *. simpl in Hfit |- *. destruct (wants attrlist word bit (p_mem p)); [|by apply IH].
  destruct (Hv eq_refl) as [Hset Hval]. unfold hbind at 1. rewrite Hset by done. simpl in Hfit |- *.
  unfold hbind at 1, Range200.on_mem, get_mem, set_mem, hbind. cbn [p_mem with_mem fst snd].
  destruct (write_value c (fst (v p)) m) as [[c1|] m1] eqn:Hwv; simpl.
  - set (rest := map (fun v => fst (v p)) _) in *. unfold fixed_total in Hfit. simpl in Hfit. fold (fixed_total rest) in Hfit.
    assert (Hrest : 0 <= fixed_total rest).
    { apply fixed_total_nonneg. subst rest. clear -Hvs. induction Hvs as [|[[w b] u] l [_ H] Hl IH']; simpl; [constructor|].
      destruct (wants attrlist w b (p_mem p)); simpl; [|done]. constructor; [by apply H|done]. }
    destruct (fst (v p)) as [l|s].
    + destruct (write_bytes_step _ _ _ _ _ Hok Hval Hwv) as ((Ha1 & Hb1 & Hcap1 & Hf1 & _ & Hok1) & Hv1 & ->).
      pose proof (co_fixed _ Hok). pose proof (co_fixed _ Hok1). simpl in Hwv. unfold darwin_attr_write_bytes in Hwv.
      destruct (Z.ltb_spec (ac_capacity c) (ac_fixed c + Z.of_nat (length l))); [done|].
      apply (IH c1); [congruence|congruence|congruence|done|lia|]. intros x Hx. rewrite place_out by lia. by apply Hm.
    + destruct (write_text_step _ _ _ _ _ Hok (proj1 Hval) Hwv) as ((Ha1 & Hb1 & Hcap1 & Hf1 & _ & Hok1) & Hv1 & Hvc & Hfc & ->).
      pose proof (co_fixed _ Hok). pose proof (co_variable _ Hok). pose proof (text_of_bounds s) as [Ht _].
      cbn [fixed_of] in Hf1, Hfit. apply (IH c1); [congruence|congruence|congruence|done|lia|]. intros x Hx.
      rewrite place_out by (rewrite length_app, length_map; simpl; lia). rewrite place_out by (rewrite length_app, !le_bytes_length; lia). by apply Hm.
  - done.
Qed.

(** The values agree with the sizes the fixed part is computed from. *)
Definition agrees p (s : Z * Z * Z) (v : Z * Z * host statics K attr_value) : Prop :=
  let '(word, bit, size) := s in let '(word', bit', v) := v in word = word' /\ bit = bit' /\ fixed_of (fst (v p)) = size.

Lemma agrees_size p attrlist sizes vs n : Forall2 (agrees p) sizes vs ->
  fold_left (fun result '(word, bit, size) => if wants attrlist word bit (p_mem p) then result + size else result) sizes n =
  n + fixed_total (values_in p attrlist vs).
Proof.
  intros H. revert n; induction H as [|[[word bit] size] [[word' bit'] v] sizes vs (<- & <- & Hs) H IH]; intros n.
  { unfold fixed_total. simpl. lia. }
  simpl. rewrite IH. unfold values_in, wanted_values, fixed_total. simpl. destruct (wants _ _ _ _); simpl; [|done]. rewrite Hs. lia.
Qed.

Lemma bytes_value n v : n mod 4 = 0 -> 0 <= n < 2 ^ 16 -> value_ok (Bytes (le_bytes (Z.to_nat n) v)).
Proof. intros H4 Hn. simpl. rewrite le_bytes_length, Z2Nat.id by lia. split; [apply le_bytes_range|split; [lia|done]]. Qed.

Lemma c_string_length n a m : (length (c_string n a m) <= n)%nat.
Proof. revert a; induction n as [|n IH]; intros a; simpl; [lia|]. destruct (_ =? 0); simpl; [lia|]. specialize (IH (a + 1)). lia. Qed.

Lemma string_value_ok a p : value_ok (fst ((let* s := c_str a in hret (Text s))%host p)).
Proof.
  unfold hbind, c_str, hbind, get_mem, hret. cbn [fst]. split; [apply c_string_no_nul|]. pose proof (c_string_length (Z.to_nat 65536) a (p_mem p)). lia.
Qed.

(** The string at [a] in [p] has no byte in [lo, hi). *)
Definition string_apart p (a lo hi : Z) : Prop :=
  let n := Z.of_nat (length (c_string (Z.to_nat 65536) a (p_mem p))) in a + n < lo \/ hi <= a.

Lemma string_settled a p lo hi : string_apart p a lo hi -> settled_value p lo hi (let* s := c_str a in hret (Text s))%host.
Proof.
  intros Ha m Hm. unfold hbind, c_str, hbind, get_mem, hret. cbn [fst p_mem with_mem]. rewrite (c_string_ext _ a (p_mem p) m); [done|].
  intros x Hx. apply Hm. unfold string_apart in Ha. lia.
Qed.

Definition string_of (name path : Z) : Z := if path =? 0 then name else path.

Lemma attr_values_agree p attrlist l name path dirfd : Forall2 (agrees p) attr_sizes (attr_values frame fuel (darwin_user_access l) attrlist l name path dirfd).
Proof.
  unfold attr_sizes, attr_values. cbv zeta.
  repeat (apply Forall2_cons; split; [unfold agrees; split; [reflexivity|split; [reflexivity|]]|]); [..|by apply Forall2_nil].
  all: try reflexivity.
  - unfold hbind. by destruct (darwin_user_access l p).
  - unfold hbind. by destruct (count_directory_entries_at _ _ _ _ p).
Qed.

(** The list asks for neither of the attributes that take more calls of the
    kernel. *)
Definition no_calls (attrlist : Z) (m : bytemem) : Prop :=
  wants attrlist COMMONATTR DARWIN_ATTR_CMN_USERACCESS m = false /\ wants attrlist DIRATTR DARWIN_ATTR_DIR_ENTRYCOUNT m = false.

Lemma hret_settled p lo hi v : settled_value p lo hi (hret v).
Proof. done. Qed.

Lemma ld_settled p lo hi n a (k : Z -> host statics K attr_value) : 0 <= n -> a + n <= lo \/ hi <= a ->
  (forall v, settled_value p lo hi (k v)) -> settled_value p lo hi (let* v := Range200.ld n a in k v)%host.
Proof.
  intros Hn Ha Hk m Hm. unfold hbind, Range200.ld, hbind, get_mem, hret. cbn [p_mem with_mem fst].
  rewrite (load_ext n a m (p_mem p)) by (intros x Hx; apply Hm; lia). by apply Hk.
Qed.


Lemma hmap_hret p lo hi (v : attr_value) : value_ok v -> settled_value p lo hi (hret v) /\ value_ok (fst ((hret v : host statics K attr_value) p)).
Proof. done. Qed.

Lemma attr_values_settled p attrlist l name path dirfd lo hi : list_apart attrlist lo hi -> no_calls attrlist (p_mem p) ->
  string_apart p name lo hi -> string_apart p (string_of name path) lo hi ->
  Forall (fun '(word, bit, v) => 0 <= word <= 20 /\ (wants attrlist word bit (p_mem p) = true -> settled_value p lo hi v /\ value_ok (fst (v p))))
    (attr_values frame fuel (darwin_user_access l) attrlist l name path dirfd).
Proof.
  intros Ha [Hu Hc] Hn Hp. unfold attr_values. cbv zeta.
  repeat (apply Forall_cons; split; [split; [by compute|intros Hw]|]); [..|by apply Forall_nil].
  all: try (apply hmap_hret; cbn [value_ok]; split; [repeat (apply Forall_app; split); apply le_bytes_range|by compute]).
  all: try congruence.
  all: try (split; [apply string_settled; done|apply string_value_ok]).
  split; [repeat (apply ld_settled; [lia|unfold list_apart, COMMONATTR, DIRATTR, FILEATTR in *; lia|intros ?]); apply hret_settled|].
  unfold hbind, Range200.ld, hbind, get_mem, hret. cbn [fst value_ok]. split; [repeat (apply Forall_app; split); apply le_bytes_range|].
  rewrite !length_app, !le_bytes_length. by compute.
Qed.

Lemma values_in_ok p lo hi attrlist vs :
  Forall (fun '(word, bit, v) => 0 <= word <= 20 /\ (wants attrlist word bit (p_mem p) = true -> settled_value p lo hi v /\ value_ok (fst (v p)))) vs ->
  Forall value_ok (values_in p attrlist vs).
Proof.
  unfold values_in, wanted_values. induction 1 as [|[[word bit] v] vs [_ Hv] Hvs IH]; simpl; [constructor|].
  destruct (wants attrlist word bit (p_mem p)); simpl; [|done]. constructor; [by apply Hv|done].
Qed.

Lemma fixed_total_bound vs : Forall value_ok vs -> fixed_total vs mod 4 = 0.
Proof.
  induction 1 as [|v vs Hv Hvs IH]; unfold fixed_total in *; simpl; [done|]. rewrite Z.add_mod, IH by lia.
  destruct v as [l|s]; simpl; [|done]. destruct Hv as (_ & _ & ->). done.
Qed.

Lemma fixed_size_small attrlist m : 4 <= fold_left (fun result '(word, bit, size) => if wants attrlist word bit m then result + size else result) attr_sizes 4 < 1024.
Proof.
  assert (H : forall sizes n, forallb (fun '(_, _, size) => (0 <=? size) && (size <=? 20)) sizes = true ->
    n <= fold_left (fun result '(word, bit, size) => if wants attrlist word bit m then result + size else result) sizes n <= n + 20 * Z.of_nat (length sizes)).
  { induction sizes as [|[[w b] size] sizes IH]; intros n Hs; [simpl; lia|]. apply andb_true_iff in Hs as [H1 Hs]. cbn [fold_left length].
    destruct (wants attrlist w b m); [specialize (IH (n + size) Hs)|specialize (IH n Hs)]; lia. }
  specialize (H attr_sizes 4 eq_refl). change (Z.of_nat (length attr_sizes)) with 27 in H. lia.
Qed.

(** ** The attributes of the interface

    What each attribute is, by the offset of its word in the list and the
    number of its bit, in the order of the buffer: [words] are the words of the
    list, [l] the file's status, [name] its name, [path] its full path.  The
    attributes that take more calls of the kernel are not among them. *)

(** vnode types: 1 file, 2 directory, 3 block, 4 character, 5 link, 6 socket,
    7 fifo. *)
Definition object_type (mode : Z) : Z :=
  let format := (mode / 2 ^ 12) mod 16 in
  if format =? 8 then 1 else if format =? 4 then 2 else if format =? 6 then 3 else if format =? 2 then 4
  else if format =? 10 then 5 else if format =? 12 then 6 else if format =? 1 then 7 else 0.
Definition number (size : nat) (v : Z) : attr_value := Bytes (le_bytes size v).
Definition clock (t : timespec) : attr_value := Bytes (le_bytes 8 (tv_sec t) ++ le_bytes 8 (tv_nsec t)).

Definition attributes (words : Z -> Z) (l : linux_stat) (name path : cstr) : list (Z * Z * attr_value) :=
  [(4, 31, Bytes (le_bytes 4 (words 4) ++ le_bytes 4 0 ++ le_bytes 4 (words 12) ++ le_bytes 4 (words 16) ++ le_bytes 4 0));
   (4, 0, Text name); (4, 1, number 4 (l_dev l)); (4, 2, Bytes (le_bytes 4 (l_dev l) ++ le_bytes 4 0));
   (4, 3, number 4 (object_type (l_mode l))); (4, 4, number 4 0);
   (4, 9, clock (l_ctim l)); (4, 10, clock (l_mtim l)); (4, 11, clock (l_ctim l)); (4, 12, clock (l_atim l));
   (4, 15, number 4 (l_uid l)); (4, 16, number 4 (l_gid l)); (4, 17, number 4 (l_mode l mod 2 ^ 12)); (4, 18, number 4 0);
   (4, 25, number 8 (l_ino l)); (4, 27, Text path);
   (12, 0, number 4 (l_nlink l)); (12, 4, number 4 (l_blksize l)); (12, 5, number 8 (l_size l));
   (16, 0, number 4 (l_nlink l)); (16, 1, number 8 (l_size l)); (16, 2, number 8 ((l_blocks l * 512) mod 2 ^ 64));
   (16, 3, number 4 (l_blksize l)); (16, 9, number 8 (l_size l)); (16, 10, number 8 ((l_blocks l * 512) mod 2 ^ 64))].

Definition list_word (attrlist : Z) (m : bytemem) (word : Z) : Z := load 4 (attrlist + word) m.
Definition asked (attrlist : Z) (m : bytemem) (word i : Z) : bool := Z.testbit (list_word attrlist m word) i.
Definition chosen (attrlist : Z) (m : bytemem) (xs : list (Z * Z * attr_value)) : list attr_value :=
  map snd (List.filter (fun '(word, i, _) => asked attrlist m word i) xs).

Definition string_in p (a : Z) : cstr := c_string (Z.to_nat 65536) a (p_mem p).

(** The attributes a list asks for; a null path stands for the name. *)
Definition attributes_asked p (attrlist : Z) (l : linux_stat) (name path : Z) : list attr_value :=
  chosen attrlist (p_mem p) (attributes (list_word attrlist (p_mem p)) l (string_in p name) (string_in p (if path =? 0 then name else path))).

(** The list asks neither for the caller's access nor for the number of
    entries of a directory. *)
Definition plain_list (attrlist : Z) (m : bytemem) : Prop := asked attrlist m 4 21 = false /\ asked attrlist m 12 1 = false.

Lemma wants_asked attrlist word i m : 0 <= i -> wants attrlist word (2 ^ i) m = asked attrlist m word i.
Proof. apply nz_land_pow2. Qed.

Lemma object_type_ok mode : darwin_file_type mode = object_type mode.
Proof.
  unfold darwin_file_type, object_type.
  replace (mode .& 0xF000) with (2 ^ 12 * ((mode / 2 ^ 12) mod 16)).
  - assert (H : 0 <= (mode / 2 ^ 12) mod 16 < 16) by (apply Z.mod_pos_bound; lia). revert H. generalize ((mode / 2 ^ 12) mod 16). intros t Ht.
    assert (Hc : In t (seqZ 0 16)) by (apply list_elem_of_In, elem_of_seqZ; lia). simpl in Hc.
    repeat (destruct Hc as [<-|Hc]; [done|]). done.
  - change 0xF000 with (Z.shiftl (Z.ones 4) 12). change 16 with (2 ^ 4). rewrite <- Z.land_ones, <- Z.shiftr_div_pow2, Z.mul_comm, <- Z.shiftl_mul_pow2 by lia.
    apply Z.bits_inj'. intros n Hn. rewrite Z.land_spec. destruct (Z.ltb_spec n 12).
    + by rewrite !Z.shiftl_spec_low, andb_false_r by lia.
    + rewrite !Z.shiftl_spec, Z.land_spec, Z.shiftr_spec by lia. by replace (n - 12 + 12) with n by lia.
Qed.

Lemma chosen_step p attrlist word bit i (v : host statics K attr_value) x vs xs :
  bit = 2 ^ i -> 0 <= i -> fst (v p) = x -> values_in p attrlist vs = chosen attrlist (p_mem p) xs ->
  values_in p attrlist ((word, bit, v) :: vs) = chosen attrlist (p_mem p) ((word, i, x) :: xs).
Proof.
  intros -> Hi <- H. unfold values_in, wanted_values, chosen in *. simpl. rewrite wants_asked by done. destruct (asked _ _ _ _); simpl; [by f_equal|done].
Qed.

Lemma chosen_skip p attrlist word bit (v : host statics K attr_value) vs xs :
  wants attrlist word bit (p_mem p) = false -> values_in p attrlist vs = xs -> values_in p attrlist ((word, bit, v) :: vs) = xs.
Proof. intros Hw <-. unfold values_in, wanted_values. simpl. by rewrite Hw. Qed.

Lemma plain_no_calls attrlist m : plain_list attrlist m -> no_calls attrlist m.
Proof. unfold plain_list, no_calls. by rewrite <- !wants_asked. Qed.

Lemma string_value p a : fst ((let* s := c_str a in hret (Text s))%host p) = Text (string_in p a).
Proof. unfold hbind, c_str, string_in, hbind, get_mem, hret. cbn [fst]. reflexivity. Qed.

(** The code's values are those. *)
Lemma attr_values_are p attrlist l name path dirfd : plain_list attrlist (p_mem p) ->
  values_in p attrlist (attr_values frame fuel (darwin_user_access l) attrlist l name path dirfd) = attributes_asked p attrlist l name path.
Proof.
  intros [Hu Hc]%plain_no_calls. unfold attr_values, attributes_asked, attributes. cbv zeta.
  repeat first [apply chosen_skip; [assumption|] | apply chosen_step; [reflexivity|lia|first [apply string_value|idtac]|]].
  all: try reflexivity.
  - unfold hret, U32, number. cbn [fst]. by rewrite object_type_ok.
  - unfold hret, U32, number. cbn [fst]. change 0xFFF with (Z.ones 12). by rewrite Z.land_ones.
Qed.

(** What a call answers for the values [vs]: they are read back, with the
    length that is used, or there is no room. *)
Definition packed g (buffer size : Z) (vs : list attr_value) p (r : syscall_gate_state * process statics K) : Prop :=
  let need := 4 + fixed_total vs + text_total vs in
  (fst r = set_success g 0 /\ load 4 buffer (p_mem (snd r)) = need /\ need < size + 4 /\
   read_attrs (map kind_of vs) (buffer + 4) (p_mem (snd r)) = vs /\
   (forall x, x < buffer \/ buffer + size <= x -> p_mem (snd r) x = p_mem p x)) \/
  (fst r = set_failure g DARWIN_ENOMEM /\ size < need).

Lemma finish_equation g attrlist buffer size l name path dirfd p n : buffer <> 0 -> 4 <= size -> darwin_attr_fixed_size attrlist (p_mem p) = n ->
  finish_getattrlist_result frame fuel g attrlist buffer size l name path dirfd p =
  if size <? n then (set_failure g DARWIN_ENOMEM, p)
  else match write_values (attr_values frame fuel (darwin_user_access l) attrlist l name path dirfd) (attr_context_at attrlist buffer size n) p with
       | (Some c, p') => (set_success g 0, with_mem (store 4 buffer (ac_variable c) (p_mem p')) p')
       | (None, p') => (set_failure g DARWIN_ENOMEM, p')
       end.
Proof.
  intros Hb Hs Hn. unfold finish_getattrlist_result, hbind at 1, get_mem. rewrite Hn. destruct (Z.eqb_spec buffer 0); [done|].
  destruct (Z.ltb_spec size 4); [lia|]. cbn [orb]. destruct (size <? n); [done|]. unfold darwin_attr_write_stat, hbind at 1. cbn [ac_attrlist attr_context_at].
  by destruct (write_values _ _ p) as [[c|] p'].
Qed.

(** Packing [vs] into a buffer with room for the fixed part. *)
Lemma packed_values g attrlist buffer size vs p : Forall value_ok vs -> 0 <= fixed_total vs < 1024 -> 4 <= size < 2 ^ 31 - 4 -> 4 + fixed_total vs <= size ->
  packed g buffer size vs p
    match put_values vs (attr_context_at attrlist buffer size (4 + fixed_total vs)) (p_mem p) with
    | (Some c, m) => (set_success g 0, with_mem (store 4 buffer (ac_variable c) m) (with_mem m p))
    | (None, m) => (set_failure g DARWIN_ENOMEM, with_mem m p)
    end.
Proof.
  intros Hok Hsm Hs Hge. pose proof (fixed_total_bound vs Hok) as H4. set (c := attr_context_at attrlist buffer size (4 + fixed_total vs)).
  assert (Hc : context_ok c).
  { constructor; simpl; [split; [lia|reflexivity]| |lia]. split; [lia|]. by rewrite Z.add_mod, H4 by lia. }
  destruct (put_values vs c (p_mem p)) as [[c'|] m'] eqn:Hpv; unfold packed; cbv zeta; cbn [fst snd]; [left|right].
  - destruct (put_values_read vs Hok c _ _ _ Hc ltac:(simpl; lia) Hpv) as (_ & [Hvar Hlt] & Hread & Honly).
    cbn [ac_variable ac_capacity ac_buffer ac_fixed attr_context_at c] in Hvar, Hlt, Hread, Honly. cbn [p_mem with_mem]. pose proof (text_total_nonneg vs).
    split; [done|]. split; [rewrite load_store_same, Z.mod_small by lia; lia|]. split; [lia|]. split.
    + apply Hread. intros x Hx. apply store_out. lia.
    + intros x Hx. rewrite store_out by lia. apply Honly; lia.
  - split; [done|]. exact (put_values_room vs Hok c _ _ Hc ltac:(simpl; lia) Hpv).
Qed.

Lemma finish_packed g attrlist buffer size l name path dirfd p :
  buffer <> 0 -> 4 <= size < 2 ^ 31 - 4 -> list_apart attrlist buffer (buffer + size) -> no_calls attrlist (p_mem p) ->
  string_apart p name buffer (buffer + size) -> string_apart p (string_of name path) buffer (buffer + size) ->
  packed g buffer size (values_in p attrlist (attr_values frame fuel (darwin_user_access l) attrlist l name path dirfd)) p
    (finish_getattrlist_result frame fuel g attrlist buffer size l name path dirfd p).
Proof.
  intros Hb Hs Ha Hcalls Hn Hp. pose proof (attr_values_settled p attrlist l name path dirfd _ _ Ha Hcalls Hn Hp) as Hset.
  pose proof (attr_values_agree p attrlist l name path dirfd) as Hag. rewrite (finish_equation _ _ _ _ _ _ _ _ _ _ Hb (proj1 Hs) eq_refl).
  revert Hset Hag. generalize (attr_values (K:=K) frame fuel (darwin_user_access l) attrlist l name path dirfd). intros avs Hset Hag.
  pose proof (values_in_ok _ _ _ _ _ Hset) as Hok. pose proof (agrees_size _ attrlist _ _ 4 Hag) as Hsize.
  pose proof (fixed_total_bound _ Hok) as H4. pose proof (fixed_size_small attrlist (p_mem p)) as Hsm. rewrite Hsize in Hsm.
  assert (Hneed : darwin_attr_fixed_size attrlist (p_mem p) = 4 + fixed_total (values_in p attrlist avs)).
  { unfold darwin_attr_fixed_size. rewrite Hsize. apply align_id; [lia|]. by rewrite Z.add_mod, H4 by lia. }
  rewrite Hneed. destruct (Z.ltb_spec size (4 + fixed_total (values_in p attrlist avs))) as [Hlt|Hge].
  { right. split; [done|]. pose proof (text_total_nonneg (values_in p attrlist avs)). lia. }
  pose proof (packed_values g attrlist buffer size _ p Hok ltac:(lia) Hs Hge) as Hpacked.
  pose proof (write_values_put p buffer (buffer + size) attrlist avs Ha Hset
    (attr_context_at attrlist buffer size (4 + fixed_total (values_in p attrlist avs))) (p_mem p) eq_refl eq_refl eq_refl) as Hw.
  replace (with_mem (p_mem p) p) with p in Hw by (by destruct p). rewrite Hw; [|constructor; simpl; [split; [lia|reflexivity]|split; [lia|]|lia]|simpl; lia|done].
  - cbv zeta. destruct (put_values _ _ (p_mem p)) as [[c'|] m']; exact Hpacked.
  - by rewrite Z.add_mod, H4 by lia.
Qed.

(** C11. The guest reads back the attributes it asked for, each with the
    value the file has: when they fit, reading the buffer by the order and the
    sizes of the interface (strings through their references) gives, for each
    bit of the list, the attribute's value as [attributes] describes it from
    the file's status, name and path; the stored length is that of the values
    and nothing outside the buffer changes.  Otherwise the call fails with
    ENOMEM, and only for want of room.  The list, the name and the path are
    outside the buffer, the buffer holds the length, and the list asks neither
    for the caller's access (ATTR_CMN_USERACCESS) nor for the number of entries
    of a directory (ATTR_DIR_ENTRYCOUNT), which take more calls of the
    kernel. *)
Theorem getattrlist_round_trip g attrlist buffer size l name path dirfd p :
  buffer <> 0 -> 4 <= size < 2 ^ 31 - 4 -> list_apart attrlist buffer (buffer + size) -> plain_list attrlist (p_mem p) ->
  string_apart p name buffer (buffer + size) -> string_apart p (string_of name path) buffer (buffer + size) ->
  packed g buffer size (attributes_asked p attrlist l name path) p
    (finish_getattrlist_result frame fuel g attrlist buffer size l name path dirfd p).
Proof. intros Hb Hs Ha Hc Hn Hp. rewrite <- (attr_values_are p attrlist l name path dirfd Hc). by apply finish_packed; [..|apply plain_no_calls| |]. Qed.

End getattrlist.

(** A list with the name, the type, the time of modification, the owner, the
    inode number and the size of a file at 0x2000, and the path "/a/bc" at
    0x3000. *)
Definition attr_proc : process statics no_kernel :=
  @mk_proc _ no_kernel tt 0 (fun _ => default_action)
    0 (put_string 0x3000 (str "/a/bc") (store 2 0x2000 5 (store 4 0x2004 0x02008409 (store 4 0x2010 2 (fun _ => 0)))))
    statics_initial [] 1.
Definition attr_gate : syscall_gate_state := mk_gs (fun _ => 0) 0 0 0x1004.
Definition attr_stat : linux_stat := mk_lst 0 0x81A4 1 77 501 20 0 (mk_ts 3 0) (mk_ts 4 9) (mk_ts 5 0) 1234 8 4096.

Lemma getattrlist_round_trip_witness :
  let r := finish_getattrlist_result 0x8000 0 attr_gate 0x2000 0x5000 64 attr_stat 0x3003 0x3000 AT_FDCWD attr_proc in
  fst r = set_success attr_gate 0 /\ load 4 0x5000 (p_mem (snd r)) = 56 /\
  read_attrs [KText; KBytes 4; KBytes 16; KBytes 4; KBytes 8; KBytes 8] 0x5004 (p_mem (snd r)) =
    [Text (str "bc"); Bytes [1; 0; 0; 0]; Bytes [4; 0; 0; 0; 0; 0; 0; 0; 9; 0; 0; 0; 0; 0; 0; 0]; Bytes [0xF5; 1; 0; 0];
     Bytes [77; 0; 0; 0; 0; 0; 0; 0]; Bytes [0xD2; 4; 0; 0; 0; 0; 0; 0]].
Proof.
  cbv zeta. destruct (getattrlist_round_trip 0x8000 0 attr_gate 0x2000 0x5000 64 attr_stat 0x3003 0x3000 AT_FDCWD attr_proc) as [(H & Hl & _ & Hr & _)|[_ H]].
  - discriminate.
  - lia.
  - left. by compute.
  - split; reflexivity.
  - left. reflexivity.
  - left. reflexivity.
  - split; [exact H|]. split; [exact Hl|]. exact Hr.
  - vm_compute in H. discriminate.
Defined.

End Attr.
