(* ===== verification/Range200Calls.v ===== *)
(** * System calls 200 to 399, the dispatcher: src/syscall/syscall_range_200_399.c

    proc_info, the dispatcher, and the proof that every call is answered.
    Locals whose address goes to the kernel live in memory from [frame] on;
    structures that are copied to the guest are lists of bytes. *)

From S2P Require Import Prelude CStr Host GateIsland GateDispatch DarwinAbi Range000 Leb128 Range100 Range000Theorems Range200 Range200Sem Range200Aio Range200Files Range200Attr.
Import Gate Dispatch Abi Range200 Files.

Module Calls.

(** Linux system call numbers (AArch64) and values of the headers. *)
Definition SYS_setxattr : Z := 5.
Definition SYS_lsetxattr : Z := 6.
Definition SYS_fsetxattr : Z := 7.
Definition SYS_getxattr : Z := 8.
Definition SYS_lgetxattr : Z := 9.
Definition SYS_fgetxattr : Z := 10.
Definition SYS_listxattr : Z := 11.
Definition SYS_llistxattr : Z := 12.
Definition SYS_flistxattr : Z := 13.
Definition SYS_removexattr : Z := 14.
Definition SYS_lremovexattr : Z := 15.
Definition SYS_fremovexattr : Z := 16.
Definition SYS_truncate : Z := 45.
Definition SYS_getsid : Z := 156.
Definition SYS_mlock : Z := 228.
Definition SYS_munlock : Z := 229.
Definition SYS_mlockall : Z := 230.
Definition SYS_munlockall : Z := 231.
Definition ESRCH : Z := 3.
Definition RUSAGE_SELF : Z := 0.
Definition RUSAGE_THREAD : Z := 1.

Definition DARWIN_PROC_FLAG_LP64 : Z := 0x10.
Definition DARWIN_PROC_STATUS_RUN : Z := 2.
Definition DARWIN_MAXCOMLEN : Z := 16.
Definition DARWIN_MAXTHREADNAMESIZE : Z := 64.
Definition DARWIN_MAXPATHLEN : Z := 1024.

(** [strncpy] into [n] bytes. *)
Definition strncpy_bytes (s : cstr) (n : Z) : list Z :=
  let l := firstn (Z.to_nat n) (map code s) in l ++ replicate (Z.to_nat n - length l) 0.

(** The first newline among [n] bytes becomes a NUL. *)
Fixpoint clear_newline (n : nat) (a : Z) (m : bytemem) : bytemem :=
  match n with
  | O => m
  | S n => if m a mod 256 =? 10 then store 1 a 0 m else clear_newline n (a + 1) m
  end.

(** [strtoull(s, NULL, 10)] *)
Definition strtoull10 (s : cstr) : Z :=
  let s := drop_while is_space s in
  match s with
  | "-"%char :: s => u64 (- Z.min (dec_digits 0 s) (2 ^ 64 - 1))
  | "+"%char :: s => Z.min (dec_digits 0 s) (2 ^ 64 - 1)
  | _ => Z.min (dec_digits 0 s) (2 ^ 64 - 1)
  end.

(** Past the field of [statm] at the head of [s]. *)
Definition skip_field (s : cstr) : cstr := drop_while (fun c => ceq c " ") (drop_while (fun c => negb (ceq c " ")) s).

Definition word (v : Z) : list Z := le_bytes 4 v.
Definition dword (v : Z) : list Z := le_bytes 8 v.

Section proc.
(** [exe_path]: [__machgate_guest_executable_path]. *)
Context {K : kernel} (frame : Z) (page_size : Z) (literal : string -> Z) (exe_path : option cstr).
Local Abbreviation hostm := (host statics K).
Local Abbreviation ld := (Range200.ld (K:=K)).
Local Abbreviation st := (Range200.st (K:=K)).
Local Abbreviation write := (Range200.write (K:=K)).
Local Open Scope host_scope.
Implicit Types g : syscall_gate_state.

Definition bytes_from (a n : Z) : hostm (list Z) := let* v := ld n a in hret (le_bytes (Z.to_nat n) v).

Definition timeval_to_microseconds (a : Z) : hostm Z :=
  let* sec := ld 8 a in let* usec := ld 8 (a + 8) in hret (u64 (sec * 1000000 + usec)).

(** [buffer] is at [frame]. *)
Definition read_proc_comm (buffer_size : Z) : hostm (list Z) :=
  let default := strncpy_bytes (str "machgate") (buffer_size - 1) ++ [0] in
  do* write (memzero frame buffer_size) in
  let* r := syscall SYS_openat [AT_FDCWD; literal "/proc/self/comm"; O_CLOEXEC] in
  let fd := i32 r in
  if fd <? 0 then hret default
  else
    let* result := syscall SYS_read [fd; frame; buffer_size - 1] in
    do* syscall SYS_close [fd] in
    if result <=? 0 then hret default
    else do* write (clear_newline (Z.to_nat result) frame) in bytes_from frame buffer_size.

(** [data] is at [frame]. *)
Definition read_statm_field (index : nat) : hostm Z :=
  let* r := syscall SYS_openat [AT_FDCWD; literal "/proc/self/statm"; O_CLOEXEC] in
  let fd := i32 r in
  if fd <? 0 then hret 0
  else
    let* result := syscall SYS_read [fd; frame; 127] in
    do* syscall SYS_close [fd] in
    if result <=? 0 then hret 0
    else
      do* st 1 (frame + result) 0 in
      let* m := get_mem in
      let cursor := Nat.iter index skip_field (c_string 128 frame m) in
      hret (match cursor with [] => 0 | _ => u64 (strtoull10 cursor * host_page_size page_size) end).

Definition fill_proc_bsdshortinfo (pid : Z) : hostm (list Z) :=
  let* ppid := syscall Range000.SYS_getppid [] in
  let* pgid := syscall Range000.SYS_getpgid [0] in
  let* uid := current_thread_uid in
  let* gid := current_thread_gid in
  let* ruid := syscall Range000.SYS_getuid [] in
  let* rgid := syscall Range000.SYS_getgid [] in
  let* comm := read_proc_comm DARWIN_MAXCOMLEN in
  hret (word pid ++ word ppid ++ word pgid ++ word DARWIN_PROC_STATUS_RUN ++ comm ++ word DARWIN_PROC_FLAG_LP64 ++
        word uid ++ word gid ++ word ruid ++ word rgid ++ word uid ++ word gid ++ word 0).

(** [now] is at [frame]. *)
Definition fill_proc_bsdinfo (pid : Z) : hostm (list Z) :=
  let* ppid := syscall Range000.SYS_getppid [] in
  let* uid := current_thread_uid in
  let* gid := current_thread_gid in
  let* ruid := syscall Range000.SYS_getuid [] in
  let* rgid := syscall Range000.SYS_getgid [] in
  let* pgid := syscall Range000.SYS_getpgid [0] in
  let* comm := read_proc_comm DARWIN_MAXCOMLEN in
  let* r := syscall Range100.SYS_clock_gettime [Range100.CLOCK_MONOTONIC; frame] in
  let* sec := ld 8 frame in
  let* nsec := ld 8 (frame + 8) in
  hret (word DARWIN_PROC_FLAG_LP64 ++ word DARWIN_PROC_STATUS_RUN ++ word 0 ++ word pid ++ word ppid ++ word uid ++ word gid ++
        word ruid ++ word rgid ++ word uid ++ word gid ++ word 0 ++ comm ++ comm ++ replicate 16 0 ++
        word 0 ++ word pgid ++ word 1 ++ word 0 ++ word 0 ++ word 0 ++
        dword (if r =? 0 then sec else 0) ++ dword (if r =? 0 then Z.quot (i64 nsec) 1000 else 0)).

(** [usage] is at [frame]: utime 0, stime 16, minflt 64, majflt 72, nvcsw 128,
    nivcsw 136. *)
Definition fill_proc_taskinfo : hostm (list Z) :=
  let* virtual_size := read_statm_field 0 in
  let* resident_size := read_statm_field 1 in
  let* r := syscall Range100.SYS_getrusage [RUSAGE_SELF; frame] in
  let ok v := if r =? 0 then v else 0 in
  let* user := timeval_to_microseconds frame in
  let* system := timeval_to_microseconds (frame + 16) in
  let* minflt := ld 8 (frame + 64) in
  let* majflt := ld 8 (frame + 72) in
  let* nvcsw := ld 8 (frame + 128) in
  let* nivcsw := ld 8 (frame + 136) in
  hret (dword virtual_size ++ dword resident_size ++ dword (ok user) ++ dword (ok system) ++ dword (ok user) ++ dword (ok system) ++
        word 0 ++ word (ok minflt) ++ word (ok majflt) ++ word 0 ++ word 0 ++ word 0 ++ word 0 ++ word 0 ++
        word (ok (nvcsw + nivcsw)) ++ word 1 ++ word 1 ++ word 0).

Definition fill_proc_threadinfo : hostm (list Z) :=
  let* r := syscall Range100.SYS_getrusage [RUSAGE_THREAD; frame] in
  let ok v := if r =? 0 then v else 0 in
  let* user := timeval_to_microseconds frame in
  let* system := timeval_to_microseconds (frame + 16) in
  let* name := read_proc_comm DARWIN_MAXTHREADNAMESIZE in
  hret (dword (ok user) ++ dword (ok system) ++ word 0 ++ word 0 ++ word DARWIN_PROC_STATUS_RUN ++ word 0 ++ word 0 ++
        word 31 ++ word 31 ++ word 63 ++ name).

Definition proc_pid_is_supported (pid : Z) : hostm bool :=
  let* self := syscall Range000.SYS_getpid [] in hret ((pid =? 0) || (pid =? i32 self)).

Definition finish_proc_copy g (buffer buffer_size : Z) (value : list Z) : hostm syscall_gate_state :=
  let value_size := Z.of_nat (length value) in
  if buffer =? 0 then faulted g
  else if (buffer_size <? 0) || (buffer_size <? value_size) then hret (set_failure g DARWIN_ENOMEM)
  else do* write (place buffer value) in hret (set_success g value_size).

(** Types: 1 ALL_PIDS, 4 UID_ONLY, 5 RUID_ONLY. *)
Definition handle_proc_listpids g (type typeinfo buffer buffer_size : Z) : hostm syscall_gate_state :=
  let* self := syscall Range000.SYS_getpid [] in
  let by_uid := (type =? 4) || (type =? 5) in
  if negb (type =? 1) && negb by_uid then set_enosys g
  else
    let* uid := (if by_uid then syscall Range000.SYS_getuid [] else hret 0) in
    if by_uid && negb (u32 typeinfo =? u32 uid) then done g
    else if (buffer =? 0) || (buffer_size <? 4) then hret (set_success g 4)
    else do* st 4 buffer self in hret (set_success g 4).

(** The path of the executable, 1024 bytes at [frame]. *)
Definition handle_proc_pidpath g (pid buffer buffer_size : Z) : hostm syscall_gate_state :=
  do* write (memzero frame DARWIN_MAXPATHLEN) in
  let* self := syscall Range000.SYS_getpid [] in
  match exe_path with
  | Some ((_ :: _) as path) =>
      if pid =? i32 self then finish_proc_copy g buffer buffer_size (strncpy_bytes path (DARWIN_MAXPATHLEN - 1) ++ [0])
      else let* result := syscall Range000.SYS_readlinkat [AT_FDCWD; literal "/proc/self/exe"; frame; DARWIN_MAXPATHLEN - 1] in
           if result <? 0 then fail_now g
           else let* path := bytes_from frame DARWIN_MAXPATHLEN in finish_proc_copy g buffer buffer_size path
  | _ =>
      let* result := syscall Range000.SYS_readlinkat [AT_FDCWD; literal "/proc/self/exe"; frame; DARWIN_MAXPATHLEN - 1] in
      if result <? 0 then fail_now g
      else let* path := bytes_from frame DARWIN_MAXPATHLEN in finish_proc_copy g buffer buffer_size path
  end.

Definition handle_proc_pidinfo g (pid flavor buffer buffer_size : Z) : hostm syscall_gate_state :=
  let* self := syscall Range000.SYS_getpid [] in
  let* supported := proc_pid_is_supported pid in
  let pid := if pid =? 0 then i32 self else pid in
  let finish info := finish_proc_copy g buffer buffer_size info in
  if negb supported then done g
  else match flavor with
  | 13 => let* info := fill_proc_bsdshortinfo pid in finish info
  | 3 => let* info := fill_proc_bsdinfo pid in finish info
  | 4 => let* info := fill_proc_taskinfo in finish info
  | 2 => let* pbsd := fill_proc_bsdinfo pid in let* ptinfo := fill_proc_taskinfo in finish (pbsd ++ ptinfo)
  | 5 | 15 => let* info := fill_proc_threadinfo in finish info
  | 6 => let* tid := syscall SYS_gettid [] in finish (word (u64 tid / 2 ^ 32) ++ word tid)
  | 11 => handle_proc_pidpath g pid buffer buffer_size
  | _ => set_enosys g
  end.

Definition handle_proc_info g : hostm syscall_gate_state :=
  let x := gs_x g in
  match i32 (x 0) with
  | 1 => handle_proc_listpids g (i32 (x 1)) (u32 (x 2)) (x 4) (i32 (x 5))
  | 2 => handle_proc_pidinfo g (i32 (x 1)) (u32 (x 2)) (x 4) (i32 (x 5))
  | _ => set_enosys g
  end.
End proc.

(** ** The dispatcher *)

Section range.
(** The parameters of the handlers' files; [base]: where the table of named
    semaphores is. *)
Context {K : kernel} (frame : Z) (override : option cstr) (online pages page_size : Z)
  (sigwait : Z -> kstate K -> (Z + Z) * kstate K) (base : Z) (st_flags : bool)
  (shim_kqueue : option (host statics K Z)) (shim_kevent shim_kevent64 : option (list Z -> host statics K Z))
  (execve : Z -> Z -> Z -> host statics K (option Z)) (literal : string -> Z) (fuel : nat) (exe_path : option cstr).
Local Abbreviation hostm := (host statics K).
Local Abbreviation write := (Range200.write (K:=K)).
Local Open Scope host_scope.
Implicit Types g : syscall_gate_state.

(** The cases that open a shared memory object by name; the path is at
    [frame]. *)
Definition with_shm_path g (next : hostm syscall_gate_state) : hostm syscall_gate_state :=
  let* name := string_at (gs_x g 0) in
  match make_posix_shm_path name 256 with
  | inr e => do* set_errno e in fail_now g
  | inl path => do* write (put_string frame path) in next
  end.

Definition finish_xattr_result : syscall_gate_state -> Z -> hostm syscall_gate_state := finish_syscall_result.

(** The checks of an extended attribute's position and options, then the call
    with Linux's flags. *)
Definition with_xattr_options g (position options : Z) (next : Z -> hostm Z) : hostm syscall_gate_state :=
  if nz position then invalid g
  else match translate_xattr_options (u32 options) with
  | None => invalid g
  | Some linux_flags =>
      do* set_errno 0 in
      let* result := next linux_flags in
      finish_xattr_result g result
  end.
Definition nofollow (options : Z) : bool := nz (u32 options .& 1).

(** [fchownat] or [fchown], and then the mode: a failure to change the owner
    only counts when an owner was given. *)
Definition chmod_extended g (chown chmod : hostm Z) : hostm syscall_gate_state :=
  do* set_errno 0 in
  let* result := chown in
  if (result <? 0) && negb (keeps_owner (u32 (gs_x g 1)) (u32 (gs_x g 2))) then finish_syscall_result g result
  else do* set_errno 0 in let* result := chmod in finish_syscall_result g result.

(** A [struct stat] at [frame]. *)
Definition with_stat (nr : Z) (args : list Z) (finish : Z -> hostm syscall_gate_state) : hostm syscall_gate_state :=
  do* set_errno 0 in let* result := syscall nr args in finish result.

Definition enotsup g : hostm syscall_gate_state := hret (set_failure g DARWIN_ENOTSUP).

(** The cases of the switch up to 250. *)
Definition range_200_calls_a g (next : hostm syscall_gate_state) : hostm syscall_gate_state :=
  let x := gs_x g in
  match x 16 with
  | 200 => forward g SYS_truncate [x 0; i64 (x 1)]
  | 201 => forward g Range000.SYS_ftruncate [i32 (x 0); i64 (x 1)]
  | 202 => handle_sysctl override online pages page_size g
  | 203 => forward g SYS_mlock [x 0; x 1]
  | 204 => forward g SYS_munlock [x 0; x 1]
  | 205 => handle_undelete frame g
  | 216 => forward g SYS_openat [AT_FDCWD; x 0; translate_open_flags (i32 (x 1)); u32 (x 4)]
  | 218 => forward g SYS_openat [i32 (x 0); x 1; translate_open_flags (i32 (x 2)); u32 (x 5)]
  | 223 => handle_exchangedata frame g
  | 225 => Attr.handle_searchfs frame fuel g
  | 248 => handle_fhopen g
  | 217 => Attr.handle_fsgetpath_ext frame literal fuel g
  | 220 => Attr.handle_getattrlist_path frame literal fuel g
  | 221 => Attr.handle_setattrlist_path frame g
  | 222 => Attr.handle_getdirentriesattr frame fuel g
  | 227 => Attr.handle_copyfile frame fuel g
  | 228 => Attr.handle_fgetattrlist frame literal fuel g
  | 229 => Attr.handle_fsetattrlist frame literal g
  | 242 => handle_fsctl_path g
  | 245 => handle_ffsctl g
  | 243 => handle_initgroups g
  | 244 => handle_posix_spawn frame g
  | 250 => handle_minherit page_size g
  | 226 => forward g Range000.SYS_unlinkat [AT_FDCWD; x 0; 0]
  | 230 => do* set_errno 0 in let* r := raw_poll frame (x 0) (x 1) (i32 (x 2)) in finish_syscall_result g r
  | 234 => with_xattr_options g (x 4) (x 5) (fun _ => syscall (if nofollow (x 5) then SYS_lgetxattr else SYS_getxattr) [x 0; x 1; x 2; x 3])
  | 235 => with_xattr_options g (x 4) (x 5) (fun _ => syscall SYS_fgetxattr [i32 (x 0); x 1; x 2; x 3])
  | 236 => with_xattr_options g (x 4) (x 5) (fun f => syscall (if nofollow (x 5) then SYS_lsetxattr else SYS_setxattr) [x 0; x 1; x 2; x 3; f])
  | 237 => with_xattr_options g (x 4) (x 5) (fun f => syscall SYS_fsetxattr [i32 (x 0); x 1; x 2; x 3; f])
  | 238 => with_xattr_options g 0 (x 2) (fun _ => syscall (if nofollow (x 2) then SYS_lremovexattr else SYS_removexattr) [x 0; x 1])
  | 239 => with_xattr_options g 0 (x 2) (fun _ => syscall SYS_fremovexattr [i32 (x 0); x 1])
  | 240 => with_xattr_options g 0 (x 3) (fun _ => syscall (if nofollow (x 3) then SYS_llistxattr else SYS_listxattr) [x 0; x 1; x 2])
  | 241 => with_xattr_options g 0 (x 3) (fun _ => syscall SYS_flistxattr [i32 (x 0); x 1; x 2])
  | _ => next
  end.

(** From 251 to 299. *)
Definition range_200_calls_b g (next : hostm syscall_gate_state) : hostm syscall_gate_state :=
  let x := gs_x g in
  match x 16 with
  | 251 => handle_semsys g
  | 252 => handle_msgsys g
  | 253 => handle_shmsys g
  | 254 => handle_sysv_semctl g (x 0) (x 1) (x 2) (x 3)
  | 255 => handle_sysv_semget g (x 0) (x 1) (x 2)
  | 256 => handle_sysv_semop g (x 0) (x 1) (x 2)
  | 258 => handle_sysv_msgctl g (x 0) (x 1) (x 2)
  | 259 => handle_sysv_msgget g (x 0) (x 1)
  | 260 => handle_sysv_msgsnd g (x 0) (x 1) (x 2) (x 3)
  | 261 => handle_sysv_msgrcv g (x 0) (x 1) (x 2) (x 3) (x 4)
  | 262 => handle_sysv_shmat g (x 0) (x 1) (x 2)
  | 263 => handle_sysv_shmctl g (x 0) (x 1) (x 2)
  | 264 => handle_sysv_shmdt g (x 0)
  | 265 => handle_sysv_shmget g (x 0) (x 1) (x 2)
  | 266 => with_shm_path g (forward g SYS_openat [AT_FDCWD; frame; translate_open_flags (i32 (x 1)); u32 (x 2)])
  | 267 => with_shm_path g (forward g Range000.SYS_unlinkat [AT_FDCWD; frame; 0])
  | 268 | 269 | 270 | 271 | 272 | 273 => Sem.sem_calls base g
  | 274 => handle_sysctlbyname override online pages page_size g
  | 277 => do* set_errno 0 in
           let* r := syscall SYS_openat [AT_FDCWD; x 0; translate_open_flags (i32 (x 1)); u32 (x 4)] in
           finish_open_extended_result g r (u32 (x 2)) (u32 (x 3))
  | 278 => forward g Range000.SYS_umask [u32 (x 0)]
  | 279 => with_stat Range000.SYS_newfstatat [AT_FDCWD; x 0; frame; 0] (fun r => finish_extended_stat64_result frame g r (x 1) (x 3))
  | 280 => with_stat Range000.SYS_newfstatat [AT_FDCWD; x 0; frame; Range100.AT_SYMLINK_NOFOLLOW]
             (fun r => finish_extended_stat64_result frame g r (x 1) (x 3))
  | 281 => with_stat Range100.SYS_fstat [i32 (x 0); frame] (fun r => finish_extended_stat64_result frame g r (x 1) (x 3))
  | 282 => chmod_extended g (syscall Range000.SYS_fchownat [AT_FDCWD; x 0; u32 (x 1); u32 (x 2); 0])
             (syscall Range000.SYS_fchmodat [AT_FDCWD; x 0; u32 (x 3); 0])
  | 283 => chmod_extended g (syscall Range100.SYS_fchown [i32 (x 0); u32 (x 1); u32 (x 2)])
             (syscall Range100.SYS_fchmod [i32 (x 0); u32 (x 3)])
  | 284 => handle_access_extended g
  | 285 => handle_sys_settid g
  | 286 => handle_gettid g
  | 287 | 289 => handle_empty_uuid_group_set g
  | 288 | 290 => handle_empty_uuid_group_get g
  | 291 => do* set_errno 0 in
           let* r := syscall Range000.SYS_mknodat [AT_FDCWD; x 0; Range100.S_IFIFO .| u32 (x 3); 0] in
           finish_created_node g r (x 0) (u32 (x 1)) (u32 (x 2))
  | 292 => do* set_errno 0 in
           let* r := syscall Range100.SYS_mkdirat [AT_FDCWD; x 0; u32 (x 3)] in
           finish_created_node g r (x 0) (u32 (x 1)) (u32 (x 2))
  | 294 => handle_shared_region_check g
  | 293 => handle_identitysvc g
  | 296 => handle_vm_pressure_monitor g
  | _ => next
  end.

(** From 297 to 349. *)
Definition range_200_calls_c g (next : hostm syscall_gate_state) : hostm syscall_gate_state :=
  let x := gs_x g in
  match x 16 with
  | 297 | 301 | 305 | 306 | 307 => handle_psynch_wait_probe frame g
  | 298 => handle_psynch_yieldwrlock g
  | 302 | 304 | 308 => handle_psynch_wake g false
  | 303 | 312 => handle_psynch_wake g true
  | 299 | 300 => done g
  | 309 => enotsup g
  | 310 => forward g SYS_getsid [i32 (x 0)]
  | 311 => handle_sys_settid_with_pid g
  | 313 | 314 | 315 | 317 | 318 | 319 => Aio.aio_calls g
  | 316 => Aio.handle_aio_cancel g
  | 320 => Aio.handle_lio_listio g
  | 322 | 323 => done g
  | 324 => forward g SYS_mlockall [i32 (x 0)]
  | 325 => forward g SYS_munlockall []
  | 327 => done g
  | 328 => handle_pthread_kill g
  | 329 => handle_pthread_sigmask g
  | 330 => handle_sigwait sigwait g
  | 331 | 332 | 333 => done g
  | 334 => Sem.sem_calls base g
  | 336 => handle_proc_info frame page_size literal exe_path g
  | 337 => handle_sendfile frame g
  | 338 => with_stat Range000.SYS_newfstatat [AT_FDCWD; x 0; frame; 0] (finish_stat64_result frame g)
  | 339 => with_stat Range100.SYS_fstat [i32 (x 0); frame] (finish_stat64_result frame g)
  | 340 => with_stat Range000.SYS_newfstatat [AT_FDCWD; x 0; frame; Range100.AT_SYMLINK_NOFOLLOW] (finish_stat64_result frame g)
  | 341 => with_stat Range000.SYS_newfstatat [AT_FDCWD; x 0; frame; 0] (fun r => finish_extended_stat64_result frame g r (x 1) (x 3))
  | 342 => with_stat Range000.SYS_newfstatat [AT_FDCWD; x 0; frame; Range100.AT_SYMLINK_NOFOLLOW]
             (fun r => finish_extended_stat64_result frame g r (x 1) (x 3))
  | 343 => with_stat Range100.SYS_fstat [i32 (x 0); frame] (fun r => finish_extended_stat64_result frame g r (x 1) (x 3))
  | 345 => with_stat Range100.SYS_statfs [x 0; frame] (fun r => finish_statfs64_result frame st_flags g r (x 0))
  | 346 => with_stat Range100.SYS_fstatfs [i32 (x 0); frame] (fun r => finish_statfs64_result frame st_flags g r 0)
  | 347 => handle_getfsstat64 st_flags g
  | 344 => handle_getdirentries64 frame g
  | 348 => forward g Range000.SYS_chdir [x 0]
  | 349 => forward g Range000.SYS_fchdir [i32 (x 0)]
  | _ => next
  end.

(** From 350 on; [set_enosys] is the default. *)
Definition range_200_calls_d g : hostm syscall_gate_state :=
  let x := gs_x g in
  match x 16 with
  | 350 => handle_audit_record_compat g
  | 351 | 359 => enotsup g
  | 353 => handle_getauid g
  | 354 => handle_setauid g
  | 357 => handle_getaudit_addr g
  | 358 => handle_setaudit_addr g
  | 360 => handle_bsdthread_create g
  | 361 => handle_bsdthread_terminate g
  | 362 => handle_kqueue_via_shim shim_kqueue g
  | 363 => handle_kevent_via_shim shim_kevent g (i32 (x 0)) (x 1) (i32 (x 2)) (x 3) (i32 (x 4)) (x 5)
  | 364 => forward g Range000.SYS_fchownat [AT_FDCWD; x 0; u32 (x 1); u32 (x 2); Range100.AT_SYMLINK_NOFOLLOW]
  | 366 | 367 => done g
  | 368 => handle_workq_kernreturn g
  | 369 => handle_kevent64_via_shim shim_kevent64 g (i32 (x 0)) (x 1) (i32 (x 2)) (x 3) (i32 (x 4)) (u32 (x 5)) (x 6)
  | 372 => forward g SYS_gettid []
  | 373 => done g
  | 374 | 375 => handle_kevent_via_shim shim_kevent g (i32 (x 0)) (x 1) (i32 (x 2)) (x 3) (i32 (x 4)) (x 7)
  | 381 | 383 | 385 | 387 | 389 => enotsup g
  | 382 | 384 => if x 0 =? 0 then faulted g else handle_mac_get_label g (x 1)
  | 386 => handle_mac_get_label g (x 0)
  | 388 => let* valid := validate_fd_argument (i32 (x 0)) in
           if negb valid then let* e := get_errno in hret (set_failure g (errno_to_darwin (if nz e then e else EBADF)))
           else handle_mac_get_label g (x 1)
  | 390 => let* self := syscall Range000.SYS_getpid [] in
           if negb (i32 (x 0) =? i32 self) then hret (set_failure g (errno_to_darwin ESRCH)) else handle_mac_get_label g (x 1)
  | 394 | 395 => handle_pselect frame g
  | 396 => forward g SYS_read [i32 (x 0); x 1; x 2]
  | 397 => let* r := machgate_syscall_write_no_sigpipe (i32 (x 0)) (x 1) (x 2) in finish_syscall_result g r
  | 398 => forward g SYS_openat [AT_FDCWD; x 0; translate_open_flags (i32 (x 1)); u32 (x 2)]
  | 399 => forward g SYS_close [i32 (x 0)]
  | _ => set_enosys g
  end.

Definition syscall_range_200_399_dispatch g : hostm (bool * outcome) :=
  if (gs_x g 16 <? 200) || (399 <? gs_x g 16) then hret (false, Returned g)
  else if gs_x g 16 =? 380 then let* o := handle_mac_execve execve g in hret (true, o)
  else
    let* g' := range_200_calls_a g (range_200_calls_b g (range_200_calls_c g (range_200_calls_d g))) in
    hret (true, Returned g').
End range.

(** ** Every call is answered *)

(** A result that is not negative, or an error number that is not zero. *)
Definition sound (a : Z + Z) : Prop := match a with inl v => 0 <= v | inr e => e <> 0 end.
(** The same, but for a result that may be negative. *)
Definition signed (a : Z + Z) : Prop := match a with inl _ => True | inr e => e <> 0 end.
Definition any (a : Z + Z) : Prop := True.

(** The call returned with an answer of [P]: [x0] holds the result or the error
    number and the carry flag says which; the other registers are as they were. *)
Definition replied (P : Z + Z -> Prop) (g g' : syscall_gate_state) : Prop := exists a, P a /\ g' = answered g a.

Lemma replied_success (P : Z + Z -> Prop) g v : P (inl v) -> replied P g (set_success g v).
Proof. by exists (inl v). Qed.
Lemma replied_failure (P : Z + Z -> Prop) g e : P (inr e) -> replied P g (set_failure g e).
Proof. by exists (inr e). Qed.
Lemma replied_answered (P : Z + Z -> Prop) g a : P a -> replied P g (answered g a).
Proof. by exists a. Qed.

Lemma errno_to_darwin_nonzero e : e <> 0 -> errno_to_darwin e <> 0.
Proof. intros H. unfold errno_to_darwin. repeat (case_match; [lia|]). by repeat case_match. Qed.
Lemma nz_default e d : d <> 0 -> (if nz e then e else d) <> 0.
Proof. intros Hd. unfold nz. by destruct (Z.eqb_spec e 0). Qed.
Lemma any_answer a : any a.
Proof. done. Qed.

Create HintDb reply.
#[export] Hint Resolve replied_success replied_failure replied_answered any_answer errno_to_darwin_nonzero nz_default : reply.
Lemma sound_result v : 0 <= v -> sound (inl v).
Proof. done. Qed.
Lemma sound_error e : e <> 0 -> sound (inr e).
Proof. done. Qed.
Lemma u64_nonneg v : 0 <= u64 v.
Proof. apply u64_range. Qed.
Lemma nz_is_true e : nz e = true -> e <> 0.
Proof. unfold nz. by destruct (Z.eqb_spec e 0). Qed.
#[export] Hint Resolve sound_result sound_error u64_nonneg : reply.
#[export] Hint Extern 1 (0 <= ?c) => first [lia | is_const c; vm_compute; discriminate] : reply.
#[export] Hint Extern 1 (_ <> 0) => first [done | lia | by apply nz_is_true] : reply.

(** [m] gives an error number that is not zero, if it gives an error. *)
Definition true_error {A} (r : A + Z) : Prop := match r with inl _ => True | inr e => e <> 0 end.

Section answers.
Context {K : kernel} (P : Z + Z -> Prop) (Hsound : forall a, sound a -> P a).
Implicit Types g : syscall_gate_state.

Lemma errno_or_eio_nonzero : returns (K:=K) errno_or_eio (fun e => e <> 0).
Proof. unfold errno_or_eio. apply returns_bind. intros e. by apply returns_ret, nz_default. Qed.
Lemma fail_now_replied g : returns (K:=K) (fail_now g) (replied P g).
Proof.
  unfold fail_now. eapply returns_bind_with; [apply errno_or_eio_nonzero|]. intros e He.
  by apply returns_ret, replied_failure, Hsound, errno_to_darwin_nonzero.
Qed.
Lemma finish_replied g r : returns (K:=K) (finish_syscall_result g r) (replied P g).
Proof. unfold finish_syscall_result. destruct (Z.ltb_spec r 0); [apply fail_now_replied|]. by apply returns_ret, replied_success, Hsound. Qed.
Lemma forward_replied g nr args : returns (K:=K) (forward g nr args) (replied P g).
Proof. unfold forward. do 2 (apply returns_bind; intros ?). apply finish_replied. Qed.
End answers.

Lemma sound_sound a : sound a -> sound a.
Proof. done. Qed.
Lemma sound_signed a : sound a -> signed a.
Proof. by destruct a. Qed.
Lemma sound_any a : sound a -> any a.
Proof. done. Qed.
Lemma signed_result v : signed (inl v).
Proof. done. Qed.
Lemma signed_error e : e <> 0 -> signed (inr e).
Proof. done. Qed.
#[export] Hint Resolve signed_result signed_error sound_sound sound_signed sound_any fail_now_replied finish_replied forward_replied : reply.

Ltac head_of t := lazymatch t with ?f _ => head_of f | _ => t end.

(** One step through a handler: an answer, what follows a call, a case, or the
    body of a definition. *)
Ltac reply_step :=
  cbv zeta;
  match goal with
  | |- returns (hret _) _ => apply returns_ret; solve [auto with reply]
  | |- returns (hret (set_failure _ (match ?x with _ => _ end))) _ => destruct x eqn:?
  | |- returns (hret (match ?x with _ => _ end)) _ => destruct x eqn:?
  | |- returns (hbind errno_or_eio _) _ => eapply returns_bind_with; [apply errno_or_eio_nonzero|intros ? ?]
  | |- returns (hbind _ _) _ => apply returns_bind; intros ?
  | |- returns _ _ => solve [auto with reply]
  | |- returns (match ?x with _ => _ end) _ => destruct x eqn:?
  | |- returns ?m _ => let h := head_of m in lazymatch h with @hret => fail | _ => unfold h end
  end.
Ltac reply := repeat reply_step.

Section replies.
Context {K : kernel} (frame : Z).
Implicit Types g : syscall_gate_state.

Lemma accessx_replied n g entries size results index path :
  returns (K:=K) (accessx_results n g entries size results index path) (replied sound g).
Proof.
  revert index path; induction n as [|n IH]; intros index path; cbn [accessx_results]; reply.
Qed.

Lemma lio_replied n g list_ptr index : returns (K:=K) (Aio.lio_loop n g list_ptr index) (replied sound g).
Proof. revert index; induction n as [|n IH]; intros index; cbn [Aio.lio_loop]; reply; apply IH. Qed.

Lemma on_table_replied P g (f : list named_semaphore -> syscall_gate_state * list named_semaphore) :
  (forall l, replied P g (fst (f l))) -> returns (K:=K) (Sem.on_table f) (replied P g).
Proof. intros Hf. unfold Sem.on_table. do 2 (apply returns_bind; intros ?). by apply returns_ret. Qed.

Lemma semaphores_replied base g : In (gs_x g 16) Sem.sem_numbers -> returns (K:=K) (Sem.sem_calls base g) (replied sound g).
Proof.
  intros Hnr.
  assert (Hopen : forall l name, replied sound g (fst (Sem.sem_open base g l name))) by (intros; unfold Sem.sem_open, Sem.handle_of; repeat case_match; cbn; auto with reply).
  assert (Hunlink : forall l name, replied sound g (fst (Sem.sem_unlink g l name))) by (intros; unfold Sem.sem_unlink; repeat case_match; cbn; auto with reply).
  assert (Hclose : forall l, replied sound g (fst (Sem.sem_close base g l))) by (intros; unfold Sem.sem_close; repeat case_match; cbn; auto with reply).
  assert (Hslot : forall f i l, (forall s e, f s = inr e -> e <> 0) -> forall e, Sem.on_slot f i l = inr e -> e <> 0).
  { intros f i l Hf e. unfold Sem.on_slot. repeat case_match; try done. intros [= <-]. by eapply Hf. }
  assert (Hwait : forall s e, Sem.named_semaphore_wait_nonblocking s = inr e -> e <> 0) by (intros s e; unfold Sem.named_semaphore_wait_nonblocking; case_match; by intros [= <-]).
  assert (Hpost : forall s e, Sem.named_semaphore_post s = inr e -> e <> 0) by (intros s e; unfold Sem.named_semaphore_post; case_match; by intros [= <-]).
  assert (Happly : forall f l, (forall s e, f s = inr e -> e <> 0) -> replied sound g (fst (Sem.sem_apply base f g l))).
  { intros f l Hf. unfold Sem.sem_apply. case_match; [|cbn; auto with reply]. pose proof (Hslot f n l Hf) as He. case_match; cbn; eauto with reply. }
  assert (Hrest : forall l w, replied sound g (fst (Sem.semwait_wait g l w))).
  { intros l w. unfold Sem.semwait_wait. destruct w as [i|]; [|cbn; case_match; auto with reply]. pose proof (Hslot _ i l Hwait) as He.
    case_match; cbn; [auto with reply|]. case_match; eauto with reply. }
  assert (Hsw : forall l, replied sound g (fst (Sem.semwait_signal base g l))).
  { intros l. unfold Sem.semwait_signal; cbv zeta. repeat case_match; try (cbn; auto with reply; fail); try apply Hrest;
      cbn; apply replied_failure, sound_error, errno_to_darwin_nonzero; by eapply (Hslot _ _ _ Hpost). }
  unfold Sem.sem_calls, Sem.handle_sem_open, Sem.handle_sem_close, Sem.handle_sem_unlink, Sem.handle_sem_trywait, Sem.handle_sem_wait, Sem.handle_sem_post, Sem.handle_semwait_signal.
  simpl in Hnr. repeat destruct Hnr as [<-|Hnr]; try done; cbv iota;
    first [apply on_table_replied; intros l | apply returns_bind; intros ?; apply on_table_replied; intros l];
    solve [apply Hopen | apply Hunlink | apply Hclose | by apply Happly | apply Hsw].
Qed.

Lemma aio_replied g : In (gs_x g 16) [313; 315; 318; 319] -> returns (K:=K) (Aio.aio_calls g) (replied sound g).
Proof.
  intros Hnr. unfold Aio.aio_calls. simpl in Hnr. repeat destruct Hnr as [<-|Hnr]; try done; cbv iota; reply.
Qed.
Lemma aio_outcome_replied g : In (gs_x g 16) [314; 317] -> returns (K:=K) (Aio.aio_calls g) (replied signed g).
Proof.
  assert (Hr : forall l q, signed (fst (Aio.aio_return l q))).
  { intros l q. unfold Aio.aio_return. repeat (case_match; try done). cbn. by apply errno_to_darwin_nonzero, nz_is_true. }
  intros Hnr. unfold Aio.aio_calls. simpl in Hnr. repeat destruct Hnr as [<-|Hnr]; try done; cbv iota; reply.
Qed.

(** The calls that read a directory or a file to its end answer as the others
    do, as long as [fuel] lasts; what they have read tells them what. *)
Lemma attr_replied literal fuel g :
  returns (K:=K) (Attr.handle_searchfs frame fuel g) (replied any g) /\
  returns (K:=K) (Attr.handle_fsgetpath_ext frame literal fuel g) (replied any g) /\
  returns (K:=K) (Attr.handle_getattrlist_path frame literal fuel g) (replied any g) /\
  returns (K:=K) (Attr.handle_fgetattrlist frame literal fuel g) (replied any g) /\
  returns (K:=K) (Attr.handle_getdirentriesattr frame fuel g) (replied any g) /\
  returns (K:=K) (Attr.handle_copyfile frame fuel g) (replied any g).
Proof. repeat split; reply. Qed.

Lemma validate_error attrlist options for_set m : match Attr.darwin_attr_validate attrlist options for_set m with Some e => e <> 0 | None => True end.
Proof. unfold Attr.darwin_attr_validate. cbv zeta. repeat match goal with |- context [if ?b then _ else _] => destruct b end; done. Qed.
Lemma setattr_replied literal g :
  returns (K:=K) (Attr.handle_setattrlist_path frame g) (replied sound g) /\ returns (K:=K) (Attr.handle_fsetattrlist frame literal g) (replied sound g).
Proof.
  assert (Hv : forall attrlist options for_set next, returns next (replied sound g) ->
    returns (K:=K) (Attr.validated g attrlist options for_set next) (replied sound g)).
  { intros. unfold Attr.validated. apply returns_bind. intros m. pose proof (validate_error attrlist options for_set m). case_match; reply. }
  assert (Hs : forall options chown chmod utimens, returns (K:=K) (Attr.setattrlist frame g options chown chmod utimens) (replied sound g)).
  { intros. unfold Attr.setattrlist. cbv zeta. destruct (_ =? 0); [reply|]. apply Hv. reply. }
  split; unfold Attr.handle_setattrlist_path, Attr.handle_fsetattrlist; cbv zeta; apply Hs.
Qed.

Lemma getfsstat_count st_flags mounts darwin_statfs max_entries count : 0 <= count ->
  returns (K:=K) (getfsstat_loop st_flags mounts darwin_statfs max_entries count) (fun c => 0 <= c).
Proof.
  revert count; induction mounts as [|[[dir type] device] mounts IH]; intros count Hc; cbn [getfsstat_loop]; [by apply returns_ret|].
  case_match; [|apply IH; lia]. do 2 (apply returns_bind; intros ?). case_match.
  - apply returns_bind; intros ?. apply IH. lia.
  - apply returns_bind; intros ?. by apply IH.
Qed.
Lemma getfsstat_replied st_flags g : returns (K:=K) (handle_getfsstat64 st_flags g) (replied sound g).
Proof.
  unfold handle_getfsstat64. cbv zeta. do 2 (apply returns_bind; intros ?). destruct (_ <? 0); [reply|]. case_match; [|reply].
  eapply returns_bind_with; [by apply getfsstat_count|]. intros c Hc. by apply returns_ret, replied_success.
Qed.

Lemma dirents_offset fuel linux_buffer result buffer size linux_offset offset last m : 0 <= offset ->
  match fst (append_dirents64 fuel linux_buffer result buffer size linux_offset offset last m) with Some (n, _) => 0 <= n | None => True end.
Proof.
  revert linux_offset offset last m; induction fuel as [|fuel IH]; intros linux_offset offset last m Ho; cbn [append_dirents64]; (destruct (_ <=? _); [exact Ho|]); [done|].
  unfold append_darwin_dirent64. cbv zeta. destruct (_ <? _); [done|]. apply IH.
  assert (0 <= align_darwin_dirent64 (DARWIN_DIRENT64_HEADER_SIZE + Range100.strnlen (linux_buffer + linux_offset + 19)
    (u64 (load 2 (linux_buffer + linux_offset + 16) m - 19)) m + 1)); [|lia].
  unfold align_darwin_dirent64. apply Z.land_nonneg. lia.
Qed.
Lemma getdirentries64_replied g : returns (K:=K) (handle_getdirentries64 frame g) (replied sound g).
Proof.
  unfold handle_getdirentries64. cbv zeta. case_match; [reply|]. do 2 (apply returns_bind; intros ?). case_match; [reply|].
  eapply returns_bind_with with (Q := fun r : option (Z * Z) => match r with Some (n, _) => 0 <= n | None => True end).
  - unfold on_mem. apply returns_bind; intros m. apply returns_bind; intros ?. apply returns_ret. by apply dirents_offset.
  - intros [[n last]|] Hn; [|reply]. apply returns_bind; intros ?. by apply returns_ret, replied_success.
Qed.

Lemma proc_replied page_size literal exe_path g : returns (K:=K) (handle_proc_info frame page_size literal exe_path g) (replied sound g).
Proof. reply. Qed.

(** The errors of sigwait are numbers of errors. *)
Lemma sigwait_replied (sigwait : Z -> kstate K -> (Z + Z) * kstate K) g : (forall set k, true_error (fst (sigwait set k))) ->
  returns (handle_sigwait sigwait g) (replied sound g).
Proof.
  intros Hs. unfold handle_sigwait. cbv zeta. case_match; [reply|]. apply returns_bind; intros set. case_match; [|reply].
  eapply returns_bind_with with (Q := true_error).
  - intros p. unfold in_kernel. specialize (Hs z (p_kernel p)). by destruct (sigwait z (p_kernel p)).
  - intros [v|e] He; [reply|]. by apply returns_ret, replied_failure, errno_to_darwin_nonzero.
Qed.
End replies.

#[export] Hint Resolve accessx_replied lio_replied proc_replied getfsstat_replied getdirentries64_replied : reply.

(** The calls whose result may be negative: what the table of requests recorded. *)
Definition recorded_200 : list Z := [314; 317].
(** The calls that read a directory or a file to its end. *)
Definition to_the_end_200 : list Z := [217; 220; 222; 225; 227; 228].
Definition settled_200 (g g' : syscall_gate_state) : Prop :=
  replied sound g g' \/ In (gs_x g 16) recorded_200 /\ replied signed g g' \/ In (gs_x g 16) to_the_end_200 /\ replied any g g'.

Lemma settled_sound {K} g (m : host statics K syscall_gate_state) : returns m (replied sound g) -> returns m (settled_200 g).
Proof. intros H p. left. apply H. Qed.
Lemma settled_recorded {K} g (m : host statics K syscall_gate_state) : In (gs_x g 16) recorded_200 ->
  returns m (replied signed g) -> returns m (settled_200 g).
Proof. intros Hn H p. right. left. split; [done|apply H]. Qed.
Lemma settled_to_the_end {K} g (m : host statics K syscall_gate_state) : In (gs_x g 16) to_the_end_200 ->
  returns m (replied any g) -> returns m (settled_200 g).
Proof. intros Hn H p. right. right. split; [done|apply H]. Qed.

(** One case of a switch over the call number. *)
Ltac reply_by_number :=
  match goal with |- returns (match ?z with _ => _ end) _ => destruct z eqn:? end;
  repeat match goal with |- returns (match ?q with _ => _ end) _ => is_var q; destruct q end;
  solve [ assumption
        | match goal with E : gs_x _ 16 = _ |- _ => apply settled_recorded; [rewrite E; vm_compute; tauto|];
            apply aio_outcome_replied; rewrite E; cbn; tauto end
        | match goal with E : gs_x _ 16 = _ |- _ => apply settled_to_the_end; [rewrite E; vm_compute; tauto|]; assumption end
        | apply settled_sound; first
          [ assumption
          | match goal with E : gs_x _ 16 = _ |- _ => apply semaphores_replied; rewrite E; cbn; tauto end
          | match goal with E : gs_x _ 16 = _ |- _ => apply aio_replied; rewrite E; cbn; tauto end
          | reply ] ].

Section dispatch.
Context {K : kernel} (frame : Z) (override : option cstr) (online pages page_size : Z)
  (sigwait : Z -> kstate K -> (Z + Z) * kstate K) (base : Z) (st_flags : bool)
  (shim_kqueue : option (host statics K Z)) (shim_kevent shim_kevent64 : option (list Z -> host statics K Z))
  (execve : Z -> Z -> Z -> host statics K (option Z)) (literal : string -> Z) (fuel : nat) (exe_path : option cstr).
Implicit Types g : syscall_gate_state.

Context (Hsigwait : forall set k, true_error (fst (sigwait set k))).

Lemma calls_a_replied g next : returns (K:=K) next (settled_200 g) ->
  returns (range_200_calls_a frame override online pages page_size literal fuel g next) (settled_200 g).
Proof.
  intros Hnext. pose proof (attr_replied (K:=K) frame literal fuel g) as (?&?&?&?&?&?).
  pose proof (setattr_replied (K:=K) frame literal g) as (?&?). unfold range_200_calls_a. cbv zeta. reply_by_number.
Qed.

Lemma calls_b_replied g next : returns (K:=K) next (settled_200 g) ->
  returns (range_200_calls_b frame override online pages page_size base g next) (settled_200 g).
Proof. intros Hnext. unfold range_200_calls_b. cbv zeta. reply_by_number. Qed.

Lemma calls_c_replied g next : returns (K:=K) next (settled_200 g) ->
  returns (range_200_calls_c frame page_size sigwait base st_flags literal exe_path g next) (settled_200 g).
Proof. intros Hnext. pose proof (sigwait_replied sigwait g Hsigwait). unfold range_200_calls_c. cbv zeta. reply_by_number. Qed.

Lemma calls_d_replied g : returns (range_200_calls_d frame shim_kqueue shim_kevent shim_kevent64 g) (settled_200 g).
Proof. unfold range_200_calls_d. cbv zeta. reply_by_number. Qed.

(** A call of the range, __mac_execve apart, returns to the guest. *)
Lemma dispatch_returned g (p : process statics K) : 200 <= gs_x g 16 <= 399 -> gs_x g 16 <> 380 ->
  exists g', fst (syscall_range_200_399_dispatch frame override online pages page_size sigwait base st_flags shim_kqueue shim_kevent shim_kevent64
    execve literal fuel exe_path g p) = (true, Returned g') /\ settled_200 g g'.
Proof.
  intros Hn H380. unfold syscall_range_200_399_dispatch. destruct (Z.ltb_spec (gs_x g 16) 200), (Z.ltb_spec 399 (gs_x g 16)); try lia.
  cbn [orb]. destruct (Z.eqb_spec (gs_x g 16) 380); [done|].
  unfold hbind. pose proof (calls_a_replied g _ (calls_b_replied g _ (calls_c_replied g _ (calls_d_replied g))) p) as Hr.
  destruct (range_200_calls_a _ _ _ _ _ _ _ _ _ p) as [g' p']. by exists g'.
Qed.

Context (Hexecve : forall path argv envp, returns (execve path argv envp) (fun r => r <> Some 0)).

(** Every call from 200 to 399 is answered, and the others are left to the next
    range: the process runs another program (__mac_execve), or the call returns
    to the guest. *)
Lemma calls_200_to_399 g (p : process statics K) :
  let r := syscall_range_200_399_dispatch frame override online pages page_size sigwait base st_flags shim_kqueue shim_kevent shim_kevent64
             execve literal fuel exe_path g p in
  if (gs_x g 16 <? 200) || (399 <? gs_x g 16) then r = ((false, Returned g), p)
  else exists o, fst r = (true, o) /\ ((o = Replaced /\ gs_x g 16 = 380) \/ exists g', o = Returned g' /\ settled_200 g g').
Proof.
  cbv zeta. destruct (Z.ltb_spec (gs_x g 16) 200), (Z.ltb_spec 399 (gs_x g 16)); cbn [orb];
    try (unfold syscall_range_200_399_dispatch; destruct (Z.ltb_spec (gs_x g 16) 200), (Z.ltb_spec 399 (gs_x g 16)); by try lia).
  destruct (Z.eqb_spec (gs_x g 16) 380) as [H380|H380].
  - unfold syscall_range_200_399_dispatch. rewrite H380. cbn [Z.ltb Z.eqb Z.compare Pos.compare Pos.compare_cont Pos.eqb orb]. unfold handle_mac_execve. destruct (gs_x g 0 =? 0).
    + eexists. split; [done|]. right. eexists. split; [done|]. left. by apply replied_failure.
    + unfold hbind. specialize (Hexecve (gs_x g 0) (gs_x g 1) (gs_x g 2) p). destruct (execve _ _ _ p) as [[e|] p']; eexists; (split; [done|]);
        [right; eexists; split; [done|]; left; apply replied_failure; cbn in *; congruence|left; split; [done|reflexivity]].
  - destruct (dispatch_returned g p) as (g' & Hr & Hg); [lia|done|]. exists (Returned g'). split; [done|]. right. by exists g'.
Qed.
End dispatch.
End Calls.
