(* ===== verification/Execve.v ===== *)
(** * Programs that start programs: src/syscall/execve_reexec.c

    A guest that executes a Mach-O file gets the loader executed with the file
    as its first argument, the rest of the guest's arguments, and the guest's
    environment completed with the variables the loader needs.

    The statics of the file are at [statics] (the process id at 0, whether
    tracing is on at 8, five buffers of 4096 bytes from 0x1000 on: path of the
    loader, MACHGATE_CONFIG, LD_LIBRARY_PATH, LD_PRELOAD, trace file), locals at
    [frame] (path of the loader, the three strings built from the environment,
    the two vectors, four bytes read from the file, a number as text);
    [exe_path] is the address of the guest's own path, or 0; [environ] the
    environment of the process, with fewer than [fuel] strings. *)

From stdpp Require Import list.
From S2P Require Import Prelude CStr Host GuestVm GateIsland GateDispatch DarwinAbi Range000 Range000Theorems Leb128.
Import Gate Dispatch.

Module Execve.

Definition DARWIN_E2BIG : Z := 7.
Definition DARWIN_EFAULT : Z := 14.
Definition DARWIN_EIO : Z := 5.
Definition DARWIN_ENOEXEC : Z := 8.
Definition DARWIN_ENOTSUP : Z := 45.
Definition MACHGATE_EXECVE_MAX_ARGS : Z := 4096.
Definition MACHGATE_EXECVE_MAX_ENVS : Z := 4096.
Definition MACHGATE_EXECVE_PATH_MAX : Z := 4096.
Definition ENOTSUP : Z := 95.
Definition SYS_execve : Z := 221.
Definition F_GETFD : Z := 1.
Definition TRACE_FLAGS : Z := 0x80441.      (* O_WRONLY | O_CREAT | O_APPEND | O_CLOEXEC *)

Definition execve_errno_from_linux (linux_errno : Z) : Z :=
  if linux_errno =? 0 then DARWIN_EIO else if linux_errno =? ENOTSUP then DARWIN_ENOTSUP else linux_errno.

Definition has_macho_magic (magic : list Z) : bool :=
  bool_decide (magic = [0xcf; 0xfa; 0xed; 0xfe] \/ magic = [0xfe; 0xed; 0xfa; 0xcf] \/
               magic = [0xca; 0xfe; 0xba; 0xbe] \/ magic = [0xbe; 0xba; 0xfe; 0xca]).

(** The string at [a]; what is compared or copied is shorter than the bound. *)
Definition c_str (a : Z) (m : bytemem) : cstr := c_string (Z.to_nat 65536) a m.
Definition pointer (a i : Z) (m : bytemem) : Z := load 8 (a + 8 * i) m.

Definition env_name_matches (env_value : Z) (name : cstr) (m : bytemem) : bool :=
  bytes_eqb m env_value (map code (name ++ ["="%char])).

(** The first string of a vector that sets [name], from index [i] on. *)
Fixpoint find_env (fuel : nat) (envp i : Z) (name : cstr) (m : bytemem) : option Z :=
  match fuel with
  | O => None
  | S fuel =>
      let e := pointer envp i m in
      if e =? 0 then None
      else if env_name_matches e name m then Some e else find_env fuel envp (i + 1) name m
  end.

Definition MACHGATE_CONFIG : cstr := str "MACHGATE_CONFIG".
Definition LD_LIBRARY_PATH : cstr := str "LD_LIBRARY_PATH".
Definition LD_PRELOAD : cstr := str "LD_PRELOAD".

(** ** The vectors *)

(** How many arguments, from [count] on, or the error number. *)
Fixpoint count_argv (fuel : nat) (guest_argv count : Z) (m : bytemem) : Z + Z :=
  match fuel with
  | O => inr DARWIN_E2BIG
  | S fuel =>
      if pointer guest_argv count m =? 0 then inl count
      else if count =? MACHGATE_EXECVE_MAX_ARGS then inr DARWIN_E2BIG else count_argv fuel guest_argv (count + 1) m
  end.
Definition count_guest_argv (guest_argv : Z) (m : bytemem) : Z + Z :=
  if guest_argv =? 0 then inl 0 else count_argv (Z.to_nat (MACHGATE_EXECVE_MAX_ARGS + 1)) guest_argv 0 m.

(** The error number, or [None]; and the memory. *)
Definition build_loader_argv (loader_path guest_path guest_argv loader_argv loader_argv_size : Z) (m : bytemem) : option Z * bytemem :=
  match count_guest_argv guest_argv m with
  | inr e => (Some e, m)
  | inl guest_argc =>
      if loader_argv_size <? guest_argc + 2 then (Some DARWIN_E2BIG, m)
      else
        let m := store 8 loader_argv loader_path m in
        let m := store 8 (loader_argv + 8) guest_path m in
        let m := fold_left (fun m index => store 8 (loader_argv + 8 * (index + 1)) (pointer guest_argv index m) m) (seqZ 1 (guest_argc - 1)) m in
        (None, store 8 (loader_argv + 8 * (guest_argc + 1)) 0 m)
  end.

(** Copies a vector from index [i] on: its length, or the error number. *)
Fixpoint copy_env (fuel : nat) (from to i : Z) (m : bytemem) : (Z + Z) * bytemem :=
  match fuel with
  | O => (inr DARWIN_E2BIG, m)
  | S fuel =>
      if pointer from i m =? 0 then (inl i, m)
      else if i =? MACHGATE_EXECVE_MAX_ENVS then (inr DARWIN_E2BIG, m)
      else copy_env fuel from to (i + 1) (store 8 (to + 8 * i) (pointer from i m) m)
  end.

(** The new length, or the error number. *)
Definition append_env_snapshot (loader_envp loader_envc value : Z) (m : bytemem) : (Z + Z) * bytemem :=
  if (value =? 0) || (m value mod 256 =? 0) then (inl loader_envc, m)
  else if loader_envc =? MACHGATE_EXECVE_MAX_ENVS then (inr DARWIN_E2BIG, m)
  else (inl (loader_envc + 1), store 8 (loader_envp + 8 * loader_envc) value m).

Section env.
Variable (fuel : nat) (environ : Z).

Definition env_has_name (envp : Z) (name : cstr) (m : bytemem) : bool :=
  if envp =? 0 then false else match find_env fuel envp 0 name m with Some _ => true | None => false end.

(** [getenv]: the address of the value, or 0. *)
Definition getenv (name : cstr) (m : bytemem) : Z :=
  if environ =? 0 then 0
  else match find_env fuel environ 0 name m with Some e => e + Z.of_nat (length name) + 1 | None => 0 end.

Definition append_env_value (loader_envp loader_envc : Z) (name : cstr) (buffer buffer_size : Z) (m : bytemem) : (Z + Z) * bytemem :=
  let value := getenv name m in
  if (value =? 0) || (m value mod 256 =? 0) then (inl loader_envc, m)
  else
    let s := name ++ "="%char :: c_str value m in
    let m := snprintf_s buffer buffer_size s m in
    if buffer_size <=? Z.of_nat (length s) then (inr DARWIN_E2BIG, m)
    else if loader_envc =? MACHGATE_EXECVE_MAX_ENVS then (inr DARWIN_E2BIG, m)
    else (inl (loader_envc + 1), store 8 (loader_envp + 8 * loader_envc) buffer m).

(** [if (!env_has_name(name)) append(name)], for each name in turn. *)
Fixpoint append_missing (append : cstr -> Z -> Z -> bytemem -> (Z + Z) * bytemem) (loader_envp loader_envc : Z) (vars : list (cstr * Z)) (m : bytemem) : (Z + Z) * bytemem :=
  match vars with
  | [] => (inl loader_envc, m)
  | (name, buffer) :: vars =>
      if env_has_name loader_envp name m then append_missing append loader_envp loader_envc vars m
      else match append name buffer loader_envc m with
           | (inr e, m) => (inr e, m)
           | (inl loader_envc, m) => append_missing append loader_envp loader_envc vars m
           end
  end.

(** The two builders differ in where the missing variables come from and in
    the vector they start from. *)
Definition build_envp (append : cstr -> Z -> Z -> bytemem -> (Z + Z) * bytemem) (base_envp loader_envp : Z) (vars : list (cstr * Z)) (m : bytemem) : option Z * bytemem :=
  match (if base_envp =? 0 then (inl 0, m) else copy_env (Z.to_nat (MACHGATE_EXECVE_MAX_ENVS + 1)) base_envp loader_envp 0 m) with
  | (inr e, m) => (Some e, m)
  | (inl loader_envc, m) =>
      let m := store 8 (loader_envp + 8 * loader_envc) 0 m in
      match append_missing append loader_envp loader_envc vars m with
      | (inr e, m) => (Some e, m)
      | (inl loader_envc, m) => (None, store 8 (loader_envp + 8 * loader_envc) 0 m)
      end
  end.

Definition build_loader_envp_forksafe (guest_envp loader_envp : Z) (vars : list (cstr * Z)) : bytemem -> option Z * bytemem :=
  build_envp (fun _ snapshot loader_envc => append_env_snapshot loader_envp loader_envc snapshot) guest_envp loader_envp vars.

Definition build_loader_envp (guest_envp loader_envp : Z) (vars : list (cstr * Z)) : bytemem -> option Z * bytemem :=
  build_envp (fun name buffer loader_envc => append_env_value loader_envp loader_envc name buffer MACHGATE_EXECVE_PATH_MAX)
    (if guest_envp =? 0 then environ else guest_envp) loader_envp vars.
End env.

(** ** Starting the loader *)

Section execve.
Context {V : Type} {K : kernel} (frame statics exe_path environ : Z) (fuel : nat) (literal : String.string -> Z).
Local Abbreviation hostm := (host V K).
Local Open Scope host_scope.

Definition on_mem {A} (f : bytemem -> A * bytemem) : hostm A :=
  let* m := get_mem in let r := f m in do* set_mem (snd r) in hret (fst r).
Definition write (f : bytemem -> bytemem) : hostm unit := on_mem (fun m => (tt, f m)).

(** Statics. *)
Definition machgate_execve_process_pid : Z := statics.
Definition machgate_execve_trace_enabled_snapshot : Z := statics + 8.
Definition machgate_execve_loader_path : Z := statics + 0x1000.
Definition machgate_execve_machgate_config_env : Z := statics + 0x2000.
Definition machgate_execve_ld_library_path_env : Z := statics + 0x3000.
Definition machgate_execve_ld_preload_env : Z := statics + 0x4000.
Definition machgate_execve_trace_file : Z := statics + 0x5000.
(** Locals. *)
Definition loader_path : Z := frame.
Definition machgate_config_env : Z := frame + 0x1000.
Definition ld_library_path_env : Z := frame + 0x2000.
Definition ld_preload_env : Z := frame + 0x3000.
Definition loader_argv : Z := frame + 0x4000.
Definition loader_envp : Z := frame + 0x10000.
Definition magic_bytes : Z := frame + 0x1A000.
Definition number_buffer : Z := frame + 0x1A010.

Definition read_loader_path (path size : Z) : hostm (option Z) :=
  do* set_errno 0 in
  let* length := syscall Range000.SYS_readlinkat [AT_FDCWD; literal "/proc/self/exe"; path; size - 1] in
  if length <? 0 then let* e := get_errno in hret (Some (execve_errno_from_linux e))
  else if size - 1 <=? length then hret (Some DARWIN_E2BIG)
  else do* write (store 1 (path + length) 0) in hret None.

(** [strncpy] of a whole buffer and its last byte cleared. *)
Definition copy_string (to from : Z) (m : bytemem) : bytemem :=
  let s := firstn 4095 (map code (c_str from m)) in
  place to (s ++ replicate (4096 - length s) 0) m.

(** The strings of the environment, from index [i] on. *)
Fixpoint take_snapshots (n : nat) (i : Z) (m : bytemem) : bytemem :=
  match n with
  | O => m
  | S n =>
      let e := pointer environ i m in
      if e =? 0 then m
      else
        let m :=
          if env_name_matches e MACHGATE_CONFIG m then copy_string machgate_execve_machgate_config_env e m
          else if env_name_matches e LD_LIBRARY_PATH m then copy_string machgate_execve_ld_library_path_env e m
          else if env_name_matches e LD_PRELOAD m then copy_string machgate_execve_ld_preload_env e m
          else m in
        take_snapshots n (i + 1) m
  end.

Definition traced (m : bytemem) : bool :=
  let set name := nz (getenv fuel environ (str name) m) in
  set "MACHGATE_TRACE_EXECVE" || set "MACHGATE_TRACE_SYSCALL" || set "MACHGATE_TRACE_SHIM".

(** The constructor. *)
Definition init_execve_process_pid : hostm unit :=
  let* pid := syscall Range000.SYS_getpid [] in
  do* write (store 4 machgate_execve_process_pid pid) in
  do* read_loader_path machgate_execve_loader_path MACHGATE_EXECVE_PATH_MAX in
  do* write (if environ =? 0 then (fun m => m) else take_snapshots fuel 0) in
  do* write (fun m => store 4 machgate_execve_trace_enabled_snapshot (b2z (traced m)) m) in
  write (fun m =>
    let trace_file := getenv fuel environ (str "MACHGATE_EXECVE_TRACE_FILE") m in
    if (trace_file =? 0) || (m trace_file mod 256 =? 0) then m
    else store 4 machgate_execve_trace_enabled_snapshot 1 (copy_string machgate_execve_trace_file trace_file m)).

Definition execve_in_fork_child : hostm bool :=
  let* m := get_mem in
  let first := load 4 machgate_execve_process_pid m in
  if first =? 0 then hret false
  else let* pid := syscall Range000.SYS_getpid [] in hret (negb (u32 pid =? first)).

(** Whether the messages, which the model leaves out, are printed. *)
Definition trace_execve_enabled : hostm bool :=
  let* child := execve_in_fork_child in
  let* m := get_mem in
  hret (if (child : bool) then nz (load 4 machgate_execve_trace_enabled_snapshot m) else traced m).
Definition trace_execve_failure (error : Z) : hostm (option Z) :=
  do* trace_execve_enabled in hret (Some error).

(** The messages of a child between fork and exec are system calls of their
    own.  [0]: no string. *)
Definition write_string (fd s : Z) : hostm unit :=
  let* m := get_mem in
  do* syscall SYS_write [fd; s; Z.of_nat (length (c_str s m))] in hret tt.
Definition write_quoted (fd s : Z) : hostm unit :=
  if s =? 0 then hret tt
  else do* write_string fd (literal " '") in do* write_string fd s in write_string fd (literal "'").
Definition trace_execve_forksafe (action p1 p2 : Z) : hostm unit :=
  let* m := get_mem in
  if load 4 machgate_execve_trace_enabled_snapshot m =? 0 then hret tt
  else
    let* file_fd :=
      (if m machgate_execve_trace_file mod 256 =? 0 then hret (-1)
       else let* r := syscall SYS_openat [AT_FDCWD; machgate_execve_trace_file; TRACE_FLAGS; 0x180] in hret (i32 r)) in
    let fd := if 0 <=? file_fd then file_fd else 2 in
    do* write_string fd (literal "machgate: execve reexec forksafe ") in
    do* (if action =? 0 then hret tt else write_string fd action) in
    do* write_quoted fd p1 in
    do* write_quoted fd p2 in
    do* syscall SYS_write [fd; literal (String.String NL String.EmptyString); 1] in
    if 0 <=? file_fd then do* syscall SYS_close [file_fd] in hret tt else hret tt.
Definition trace_execve_forksafe_number (action value : Z) : hostm unit :=
  let* m := get_mem in
  if load 4 machgate_execve_trace_enabled_snapshot m =? 0 then hret tt
  else
    do* write (put_string number_buffer (print_d value)) in
    trace_execve_forksafe action number_buffer 0.

(** [None]: a Mach-O file; otherwise the error number. *)
Definition path_is_macho_common (path : Z) : hostm (option Z) :=
  do* set_errno 0 in
  let* r := syscall SYS_openat [AT_FDCWD; path; O_CLOEXEC] in
  let fd := i32 r in
  if fd <? 0 then let* e := get_errno in hret (Some (execve_errno_from_linux e))
  else
    do* set_errno 0 in
    let* bytes_read := syscall SYS_read [fd; magic_bytes; 4] in
    do* syscall SYS_close [fd] in
    let* m := get_mem in
    if bytes_read <? 0 then let* e := get_errno in hret (Some (execve_errno_from_linux e))
    else if negb (bytes_read =? 4) then hret (Some DARWIN_ENOEXEC)
    else if negb (has_macho_magic (le_bytes 4 (load 4 magic_bytes m))) then hret (Some DARWIN_ENOTSUP)
    else hret None.
Definition path_is_macho_forksafe : Z -> hostm (option Z) := path_is_macho_common.

Definition machgate_guest_executable_path (m : bytemem) : Z :=
  if nz exe_path && nz (m exe_path mod 256) then exe_path else 0.

Definition resolve_guest_exec_path (path : Z) (m : bytemem) : Z :=
  let guest_path := machgate_guest_executable_path m in
  if (path =? 0) || (guest_path =? 0) then path
  else if bool_decide (c_str path m = str "/proc/self/exe") then guest_path
  else if nz (m machgate_execve_loader_path mod 256) && bool_decide (c_str path m = c_str machgate_execve_loader_path m) then guest_path
  else path.

(** Path and vectors of the new program, or the error number. *)
Definition vars_snapshot : list (cstr * Z) :=
  [(MACHGATE_CONFIG, machgate_execve_machgate_config_env); (LD_LIBRARY_PATH, machgate_execve_ld_library_path_env);
   (LD_PRELOAD, machgate_execve_ld_preload_env)].
Definition vars_buffers : list (cstr * Z) :=
  [(MACHGATE_CONFIG, machgate_config_env); (LD_LIBRARY_PATH, ld_library_path_env); (LD_PRELOAD, ld_preload_env)].

(** [next] runs when there is no error. *)
Definition unless_error {A} (r : hostm (option Z)) (next : hostm (A + Z)) : hostm (A + Z) :=
  let* e := r in match e with Some e => hret (inr e) | None => next end.

(** The path to execute, once the file is known to be a Mach-O file and the
    vectors are built. *)
Definition prepare (build_envp : Z -> bytemem -> option Z * bytemem) (path guest_argv guest_envp : Z) : hostm (Z + Z) :=
  let* m := get_mem in
  let guest_path := resolve_guest_exec_path path m in
  unless_error (path_is_macho_forksafe guest_path)
    (unless_error (read_loader_path loader_path MACHGATE_EXECVE_PATH_MAX)
      (unless_error (on_mem (build_loader_argv loader_path guest_path guest_argv loader_argv (MACHGATE_EXECVE_MAX_ARGS + 3)))
        (unless_error (on_mem (build_envp guest_envp))
          (hret (inl guest_path))))).
Definition execve_vectors : hostm Z := syscall SYS_execve [loader_path; loader_argv; loader_envp].

(** [None]: the process runs the loader. *)
Definition machgate_execve_macho_guest_forksafe (path guest_argv guest_envp : Z) : hostm (option Z) :=
  let say action := trace_execve_forksafe (literal action) in
  do* say "enter" path 0 in
  if path =? 0 then do* say "null-path" path 0 in hret (Some DARWIN_EFAULT)
  else
    let* m := get_mem in
    let guest_path := resolve_guest_exec_path path m in
    do* say "resolve" guest_path 0 in
    let* e := path_is_macho_forksafe guest_path in
    match e with
    | Some e => do* say "non-macho" guest_path 0 in hret (Some e)
    | None =>
    let* e := read_loader_path loader_path MACHGATE_EXECVE_PATH_MAX in
    match e with
    | Some e => do* say "read-loader-fail" 0 0 in hret (Some e)
    | None =>
    let* e := on_mem (build_loader_argv loader_path guest_path guest_argv loader_argv (MACHGATE_EXECVE_MAX_ARGS + 3)) in
    match e with
    | Some e => do* say "argv-build-fail" 0 0 in hret (Some e)
    | None =>
    let* e := on_mem (build_loader_envp_forksafe fuel guest_envp loader_envp vars_snapshot) in
    match e with
    | Some e => do* say "env-build-fail" 0 0 in hret (Some e)
    | None =>
        do* set_errno 0 in
        let* m := get_mem in
        do* say "argv0" (pointer loader_argv 0 m) 0 in
        do* say "argv1" (pointer loader_argv 1 m) 0 in
        do* say "argv2" (pointer loader_argv 2 m) 0 in
        do* say "argv3" (pointer loader_argv 3 m) 0 in
        let number action value := trace_execve_forksafe_number (literal action) value in
        let* v := syscall Range000.SYS_fcntl [1; F_GETFD] in
        do* number "fd1-flags" v in
        let* v := syscall Range000.SYS_fcntl [2; F_GETFD] in
        do* number "fd2-flags" v in
        let* m := get_mem in
        let has name := b2z (env_has_name fuel loader_envp name m) in
        do* number "env-cookie" (has (str "PACKER_WRAP_COOKIE")) in
        do* number "env-ld-preload" (has LD_PRELOAD) in
        do* number "env-ld-library-path" (has LD_LIBRARY_PATH) in
        do* number "env-machgate-config" (has MACHGATE_CONFIG) in
        do* say "exec" loader_path guest_path in
        let* r := execve_vectors in
        if 0 <=? r then hret None
        else
          let* e := get_errno in
          do* number "linux-execve-errno" e in
          do* say "post-exec-fail" 0 0 in
          let* e := get_errno in
          hret (Some (execve_errno_from_linux e))
    end end end end.

Definition machgate_execve_macho_guest (path guest_argv guest_envp : Z) : hostm (option Z) :=
  let* child := execve_in_fork_child in
  if (child : bool) then machgate_execve_macho_guest_forksafe path guest_argv guest_envp
  else if path =? 0 then trace_execve_failure DARWIN_EFAULT
  else
    let* r := prepare (fun guest_envp => build_loader_envp fuel environ guest_envp loader_envp vars_buffers) path guest_argv guest_envp in
    match r with
    | inr e => hret (Some e)
    | inl _ =>
        do* set_errno 0 in
        do* trace_execve_enabled in
        let* r := execve_vectors in
        if 0 <=? r then hret None
        else let* e := get_errno in trace_execve_failure (execve_errno_from_linux e)
    end.
End execve.

(** ** An error is never 0 *)

Lemma errno_nonzero e : execve_errno_from_linux e <> 0.
Proof. unfold execve_errno_from_linux, DARWIN_EIO, DARWIN_ENOTSUP. destruct (Z.eqb_spec e 0), (Z.eqb_spec e ENOTSUP); lia. Qed.

Definition no_zero (r : option Z) : Prop := r <> Some 0.

Lemma build_envp_nonzero fuel append base envp vars m :
  (forall name b c m e m', append name b c m = (inr e, m') -> e <> 0) -> no_zero (fst (build_envp fuel append base envp vars m)).
Proof.
  intros Ha. unfold build_envp, no_zero. assert (Hmiss : forall vars c m e m', append_missing fuel append envp c vars m = (inr e, m') -> e <> 0).
  { clear -Ha. induction vars as [|[name b] vars IH]; intros c m e m' H; simpl in H; [done|].
    destruct (env_has_name _ _ _ _); [by eapply IH|]. destruct (append name b c m) as [[c'|e'] m1] eqn:E; [by eapply IH|].
    injection H as <- _. by eapply Ha. }
  assert (Hcopy : forall n i m e m', copy_env n base envp i m = (inr e, m') -> e <> 0).
  { induction n as [|n IH]; intros i m0 e m' H; simpl in H; [by injection H as <- _|]. destruct (_ =? 0); [done|].
    destruct (_ =? _); [by injection H as <- _|]. by eapply IH. }
  destruct (if base =? 0 then _ else _) as [[c|e] m1] eqn:E.
  - destruct (append_missing _ _ _ _ _ _) as [[c'|e] m2] eqn:E2; simpl; [done|]. apply Hmiss in E2. congruence.
  - simpl. destruct (base =? 0); [done|]. apply Hcopy in E. congruence.
Qed.

Lemma snapshot_nonzero envp c v m e m' : append_env_snapshot envp c v m = (inr e, m') -> e <> 0.
Proof. unfold append_env_snapshot. destruct (_ || _); [done|]. destruct (_ =? _); [|done]. by intros [= <- _]. Qed.

Lemma value_nonzero fuel environ envp c name b n m e m' : append_env_value fuel environ envp c name b n m = (inr e, m') -> e <> 0.
Proof.
  unfold append_env_value. cbv zeta. destruct (_ || _); [done|]. destruct (_ <=? _); [by intros [= <- _]|].
  destruct (_ =? _); [by intros [= <- _]|done].
Qed.

Lemma build_argv_nonzero l g a d n m : no_zero (fst (build_loader_argv l g a d n m)).
Proof.
  unfold build_loader_argv, no_zero. assert (Hc : forall k i e, count_argv k a i m = inr e -> e <> 0).
  { induction k as [|k IH]; intros i e H; simpl in H; [by injection H as <-|]. destruct (_ =? 0); [done|].
    destruct (_ =? _); [by injection H as <-|]. by eapply IH. }
  destruct (count_guest_argv a m) as [c|e] eqn:E; [by destruct (_ <? _)|]. unfold count_guest_argv in E. simpl.
  destruct (a =? 0); [done|]. apply Hc in E. congruence.
Qed.

Section nonzero.
Context {V : Type} {K : kernel} (frame statics exe_path environ : Z) (fuel : nat) (literal : String.string -> Z).

Lemma on_mem_nonzero (f : bytemem -> option Z * bytemem) : (forall m, no_zero (fst (f m))) -> returns (V:=V) (K:=K) (on_mem f) no_zero.
Proof. intros H p. apply H. Qed.

Lemma macho_nonzero path : returns (V:=V) (K:=K) (path_is_macho_forksafe frame path) no_zero.
Proof.
  unfold path_is_macho_forksafe, path_is_macho_common. apply returns_bind; intros _. apply returns_bind; intros r. cbv zeta.
  assert (He : forall e, no_zero (Some (execve_errno_from_linux e))) by (intros e H; by apply (errno_nonzero e); injection H).
  destruct (_ <? 0); [apply returns_bind; intros e; by apply returns_ret|]. do 4 (apply returns_bind; intros ?).
  destruct (_ <? 0); [apply returns_bind; intros e; by apply returns_ret|]. destruct (negb _); [by apply returns_ret|].
  destruct (negb _); by apply returns_ret.
Qed.

Lemma loader_path_nonzero path size : returns (V:=V) (K:=K) (read_loader_path literal path size) no_zero.
Proof.
  unfold read_loader_path. apply returns_bind; intros _. apply returns_bind; intros r.
  destruct (_ <? 0); [apply returns_bind; intros e; apply returns_ret; intros H; apply (errno_nonzero e); by injection H|].
  destruct (_ <=? _); [by apply returns_ret|]. apply returns_bind; intros _. by apply returns_ret.
Qed.

(** A step that gives an error, or goes on. *)
Lemma returns_step (m : host V K (option Z)) (fail : Z -> host V K (option Z)) (next : host V K (option Z)) :
  returns m no_zero -> (forall e, e <> 0 -> returns (fail e) no_zero) -> returns next no_zero ->
  returns (hbind m (fun e => match e with Some e => fail e | None => next end)) no_zero.
Proof. intros Hm Hf Hn. eapply returns_bind_with; [exact Hm|]. intros [e|] He; [apply Hf; congruence|done]. Qed.

Lemma forksafe_nonzero path argv envp :
  returns (V:=V) (K:=K) (machgate_execve_macho_guest_forksafe frame statics exe_path fuel literal path argv envp) no_zero.
Proof.
  assert (Hfail : forall (c : host V K unit) e, e <> 0 -> returns (hbind c (fun _ => hret (Some e))) no_zero).
  { intros c e He. apply returns_bind; intros _. apply returns_ret. intros H. congruence. }
  unfold machgate_execve_macho_guest_forksafe. cbv zeta. apply returns_bind; intros _. destruct (path =? 0); [by apply Hfail|].
  do 2 (apply returns_bind; intros ?). apply returns_step; [apply macho_nonzero|intros; by apply Hfail|].
  apply returns_step; [apply loader_path_nonzero|intros; by apply Hfail|].
  apply returns_step; [apply on_mem_nonzero; intros; apply build_argv_nonzero|intros; by apply Hfail|].
  apply returns_step; [apply on_mem_nonzero; intros; apply build_envp_nonzero; intros; by eapply snapshot_nonzero|intros; by apply Hfail|].
  do 17 (apply returns_bind; intros ?). destruct (0 <=? _); [by apply returns_ret|].
  do 3 (apply returns_bind; intros ?). apply returns_bind; intros e. apply returns_ret. intros H. apply (errno_nonzero e). by injection H.
Qed.

(** A call that comes back reports an error. *)
Lemma execve_nonzero path argv envp :
  returns (V:=V) (K:=K) (machgate_execve_macho_guest frame statics exe_path environ fuel literal path argv envp) no_zero.
Proof.
  unfold machgate_execve_macho_guest. apply returns_bind; intros child. destruct child; [apply forksafe_nonzero|].
  destruct (path =? 0); [apply returns_bind; intros ?; by apply returns_ret|].
  apply (returns_bind_with _ _ (fun r => r <> inr 0)).
  - unfold prepare. apply returns_bind; intros m. cbv zeta. unfold unless_error.
    assert (Hstep : forall (c : host V K (option Z)) (next : host V K (Z + Z)), returns c no_zero -> returns next (fun r => r <> inr 0) ->
      returns (hbind c (fun e => match e with Some e => hret (inr e) | None => next end)) (fun r => r <> inr 0)).
    { intros c next Hc Hn. eapply returns_bind_with; [exact Hc|]. intros [e|] He; [|done]. apply returns_ret. congruence. }
    apply Hstep; [apply macho_nonzero|]. apply Hstep; [apply loader_path_nonzero|].
    apply Hstep; [apply on_mem_nonzero; intros; apply build_argv_nonzero|].
    apply Hstep; [apply on_mem_nonzero; intros; apply build_envp_nonzero; intros; by eapply value_nonzero|by apply returns_ret].
  - intros [g|e] He; [|apply returns_ret; congruence]. do 3 (apply returns_bind; intros ?). destruct (0 <=? _); [by apply returns_ret|].
    apply returns_bind; intros e. apply returns_bind; intros _. apply returns_ret. intros H. apply (errno_nonzero e). by injection H.
Qed.
End nonzero.

(** ** Vectors *)

(** The first words of the vector at [a] are [l]; and it ends there. *)
Definition holds (m : bytemem) (a : Z) (l : list Z) : Prop :=
  Forall (fun v => 0 < v < 2 ^ 64) l /\ forall (i : nat) v, l !! i = Some v -> pointer a (Z.of_nat i) m = v.
Definition vector_at (m : bytemem) (a : Z) (l : list Z) : Prop := holds m a l /\ pointer a (Z.of_nat (length l)) m = 0.

(** [m'] is [m] but for what is in [P]. *)
Definition same_but (P : Z -> Prop) (m m' : bytemem) : Prop := forall x, ~ P x -> m' x = m x.
Definition within (a n : Z) : Z -> Prop := fun x => a <= x < a + n.

Lemma pointer_ext a i m m' : (forall x, a + 8 * i <= x < a + 8 * i + 8 -> m' x = m x) -> pointer a i m' = pointer a i m.
Proof. intros H. unfold pointer. apply load_ext. intros x Hx. apply H. lia. Qed.

Lemma holds_ext m m' a l : holds m a l -> (forall x, a <= x < a + 8 * Z.of_nat (length l) -> m' x = m x) -> holds m' a l.
Proof. intros [Hr H] Hx. split; [done|]. intros i v Hi. rewrite <- (H i v Hi). apply lookup_lt_Some in Hi. apply pointer_ext. intros x Hr'. apply Hx. lia. Qed.

Lemma vector_ext m m' a l : vector_at m a l -> (forall x, a <= x < a + 8 * (Z.of_nat (length l) + 1) -> m' x = m x) -> vector_at m' a l.
Proof.
  intros [Hh He] Hx. split; [apply (holds_ext m); [done|intros x Hr; apply Hx; lia]|]. rewrite <- He. apply pointer_ext. intros x Hr. apply Hx. lia.
Qed.

Lemma pointer_store_same a i v m : 0 <= v < 2 ^ 64 -> pointer a i (store 8 (a + 8 * i) v m) = v.
Proof. intros Hv. unfold pointer. rewrite load_store_same by lia. apply Z.mod_small. lia. Qed.

Lemma holds_snoc m a l v m' : holds m a l -> 0 < v < 2 ^ 64 -> pointer a (Z.of_nat (length l)) m' = v ->
  (forall x, a <= x < a + 8 * Z.of_nat (length l) -> m' x = m x) -> holds m' a (l ++ [v]).
Proof.
  intros Hh Hv Hp Hx. pose proof (holds_ext m m' a l Hh Hx) as [Hr H]. split; [apply Forall_app; split; [done|by constructor]|].
  intros i w Hi. destruct (decide (i < length l)%nat) as [Hl|Hl].
  - apply H. by rewrite lookup_app_l in Hi.
  - apply lookup_lt_Some in Hi as Hi'. rewrite length_app in Hi'. cbn in Hi'. replace i with (length l) in * by lia.
    rewrite lookup_app_r, Nat.sub_diag in Hi by lia. by injection Hi as <-.
Qed.

Lemma holds_end m a l i : vector_at m a l -> 0 <= i <= Z.of_nat (length l) -> pointer a i m = 0 <-> i = Z.of_nat (length l).
Proof.
  intros [[Hr H] He] Hi. split; [|by intros ->]. intros Hz. destruct (decide (i = Z.of_nat (length l))) as [|Hne]; [done|].
  destruct (lookup_lt_is_Some_2 l (Z.to_nat i) ltac:(lia)) as [v Hv]. pose proof (H _ _ Hv) as Hp. rewrite Z2Nat.id in Hp by lia.
  rewrite Forall_lookup in Hr. specialize (Hr _ _ Hv). lia.
Qed.

Lemma count_argv_vector m a l : vector_at m a l -> forall n i, Z.of_nat n = 4097 - i -> 0 <= i <= 4096 -> i <= Z.of_nat (length l) ->
  count_argv n a i m = if Z.of_nat (length l) <=? 4096 then inl (Z.of_nat (length l)) else inr DARWIN_E2BIG.
Proof.
  intros Hv. induction n as [|n IH]; intros i Hn Hi Hl; [lia|]. cbn [count_argv]. pose proof (holds_end _ _ _ i Hv ltac:(lia)) as He.
  destruct (Z.eqb_spec (pointer a i m) 0) as [Hz|Hz].
  - apply He in Hz. subst i. destruct (Z.leb_spec (Z.of_nat (length l)) 4096); [done|lia].
  - assert (i <> Z.of_nat (length l)) by (intros E; by apply Hz, He). unfold MACHGATE_EXECVE_MAX_ARGS.
    destruct (Z.eqb_spec i 4096); [destruct (Z.leb_spec (Z.of_nat (length l)) 4096); [lia|done]|]. apply IH; lia.
Qed.

(** What the loader is given for the arguments [args] of the guest. *)
Definition loader_args (loader_path guest_path : Z) (args : list Z) : list Z :=
  loader_path :: match args with [] => [] | _ :: rest => guest_path :: rest end.

(** The copy of the arguments after the first. *)
Lemma copy_args a d l m0 k : holds m0 a l -> (forall x, within a (8 * Z.of_nat (length l)) x -> ~ within d (8 * 4099) x) ->
  Z.of_nat (length l) <= 4096 -> Z.of_nat k < Z.of_nat (length l) ->
  let m' := fold_left (fun m index => store 8 (d + 8 * (index + 1)) (pointer a index m) m) (seqZ 1 (Z.of_nat k)) m0 in
  (forall x, x < d + 16 \/ d + 16 + 8 * Z.of_nat k <= x -> m' x = m0 x) /\
  (forall (i : nat) v, (i < k)%nat -> l !! S i = Some v -> pointer d (Z.of_nat i + 2) m' = v).
Proof.
  intros Hh Hap Hlen. induction k as [|k IH]; intros Hk; cbv zeta; [split; [done|lia]|].
  rewrite Nat2Z.inj_succ, <- Z.add_1_r, seqZ_app, fold_left_app by lia. destruct IH as [Hout Hin]; [lia|].
  set (m1 := fold_left _ (seqZ 1 (Z.of_nat k)) m0) in *. replace (seqZ (1 + Z.of_nat k) 1) with [1 + Z.of_nat k] by done. cbn [fold_left].
  destruct (lookup_lt_is_Some_2 l (S k) ltac:(lia)) as [w Hw]. destruct Hh as [Hr Hh].
  assert (Hp : pointer a (1 + Z.of_nat k) m1 = w).
  { rewrite <- (Hh _ _ Hw). replace (Z.of_nat (S k)) with (1 + Z.of_nat k) by lia. apply pointer_ext. intros x Hx. apply Hout.
    specialize (Hap x). unfold within in Hap. lia. }
  rewrite Hp. assert (0 < w < 2 ^ 64) by (rewrite Forall_lookup in Hr; by apply (Hr _ _ Hw)). split.
  - intros x Hx. rewrite store_out by lia. apply Hout. lia.
  - intros i v Hi Hv. destruct (decide (i = k)) as [->|Hne].
    + replace (1 + Z.of_nat k + 1) with (Z.of_nat k + 2) by lia. rewrite pointer_store_same by lia. congruence.
    + rewrite <- (Hin i v) by (done || lia). apply pointer_ext. intros x Hx. apply store_out. lia.
Qed.

Lemma build_argv_vector lp gp a d l m : 0 < lp < 2 ^ 64 -> 0 < gp < 2 ^ 64 -> a <> 0 -> vector_at m a l ->
  (forall x, within a (8 * Z.of_nat (length l)) x -> ~ within d (8 * 4099) x) ->
  if Z.of_nat (length l) <=? 4096
  then exists m', build_loader_argv lp gp a d 4099 m = (None, m') /\ same_but (within d (8 * 4099)) m m' /\ vector_at m' d (loader_args lp gp l)
  else build_loader_argv lp gp a d 4099 m = (Some DARWIN_E2BIG, m).
Proof.
  intros Hlp Hgp Ha Hv Hap. unfold build_loader_argv, count_guest_argv. destruct (Z.eqb_spec a 0) as [|_]; [done|].
  rewrite (count_argv_vector _ _ _ Hv) by (unfold MACHGATE_EXECVE_MAX_ARGS; lia). destruct (Z.leb_spec (Z.of_nat (length l)) 4096) as [Hl|Hl]; [|done].
  destruct (Z.ltb_spec 4099 (Z.of_nat (length l) + 2)); [lia|]. eexists. split; [reflexivity|].
  set (m0 := store 8 (d + 8) gp (store 8 d lp m)). set (n := Z.of_nat (length l)) in *.
  assert (Hm0 : forall x, x < d \/ d + 16 <= x -> m0 x = m x) by (intros x Hx; subst m0; rewrite !store_out by lia; done).
  assert (H0 : pointer d 0 m0 = lp).
  { subst m0. unfold pointer. rewrite load_store_disj by lia. replace (d + 8 * 0) with d by lia. rewrite load_store_same, Z.mod_small by lia. done. }
  assert (H1 : pointer d 1 m0 = gp) by (subst m0; replace (d + 8) with (d + 8 * 1) by lia; apply pointer_store_same; lia).
  assert (Hk : exists k, seqZ 1 (n - 1) = seqZ 1 (Z.of_nat k) /\ k = (length l - 1)%nat).
  { exists (length l - 1)%nat. split; [|done]. destruct l; [done|]. f_equal. subst n. simpl. lia. }
  destruct Hk as (k & -> & ->). destruct Hv as [Hh _].
  assert (Hh0 : holds m0 a l). { apply (holds_ext m); [done|]. intros x Hx. apply Hm0. specialize (Hap x). unfold within in Hap. lia. }
  assert (Hcopy : let m' := fold_left (fun m index => store 8 (d + 8 * (index + 1)) (pointer a index m) m) (seqZ 1 (Z.of_nat (length l - 1))) m0 in
    (forall x, x < d + 16 \/ d + 16 + 8 * Z.of_nat (length l - 1) <= x -> m' x = m0 x) /\
    (forall (i : nat) v, (i < length l - 1)%nat -> l !! S i = Some v -> pointer d (Z.of_nat i + 2) m' = v)).
  { destruct l as [|w l]; [split; [done|intros i v Hi; simpl in Hi; lia]|]. apply copy_args; [done|done|lia|simpl; lia]. }
  cbv zeta in Hcopy. set (m1 := fold_left _ _ m0) in *. destruct Hcopy as [Hout Hin]. split.
  { intros x Hx. unfold within in Hx. rewrite store_out, Hout, Hm0 by (subst n; lia). done. }
  assert (Hlen : Z.of_nat (length (loader_args lp gp l)) = n + 1 - (if n =? 0 then 0 else 0)) by (subst n; destruct l; simpl; lia).
  replace (n + 1 - (if n =? 0 then 0 else 0)) with (n + 1) in Hlen by (destruct (n =? 0); lia). split.
  - destruct Hh as [Hr _]. split.
    + unfold loader_args. destruct l as [|w l]; repeat constructor; try lia. by apply Forall_cons in Hr as [_ Hr].
    + intros i v Hi. apply lookup_lt_Some in Hi as Hi'. rewrite <- (Nat2Z.id i) in Hi'. transitivity (pointer d (Z.of_nat i) m1).
      { apply pointer_ext. intros x Hx. apply store_out. lia. }
      destruct i as [|[|i]]; unfold loader_args in Hi; destruct l as [|w l]; simpl in Hi; try done.
      * injection Hi as <-. rewrite <- H0. apply pointer_ext. intros x Hx. apply Hout. lia.
      * injection Hi as <-. rewrite <- H0. apply pointer_ext. intros x Hx. apply Hout. lia.
      * injection Hi as <-. rewrite <- H1. apply pointer_ext. intros x Hx. apply Hout. lia.
      * replace (Z.of_nat (S (S i))) with (Z.of_nat i + 2) by lia. apply (Hin i v); [|done]. apply lookup_lt_Some in Hi. simpl. lia.
  - rewrite Hlen. apply pointer_store_same. lia.
Qed.

Lemma copy_env_vector a d l m : vector_at m a l -> (forall x, within a (8 * (Z.of_nat (length l) + 1)) x -> ~ within d (8 * 4099) x) ->
  forall n i m0, Z.of_nat n = 4097 - i -> 0 <= i <= 4096 -> i <= Z.of_nat (length l) -> same_but (within d (8 * 4099)) m m0 ->
  holds m0 d (firstn (Z.to_nat i) l) ->
  exists m1, copy_env n a d i m0 = (if Z.of_nat (length l) <=? 4096 then inl (Z.of_nat (length l)) else inr DARWIN_E2BIG, m1) /\
    same_but (within d (8 * 4099)) m m1 /\ (Z.of_nat (length l) <= 4096 -> holds m1 d l).
Proof.
  intros Hv Hap. induction n as [|n IH]; intros i m0 Hn Hi Hl Hm0 Hh; [lia|]. cbn [copy_env].
  assert (Hp : pointer a i m0 = pointer a i m).
  { apply pointer_ext. intros x Hx. apply Hm0, Hap. unfold within. lia. }
  rewrite Hp. pose proof (holds_end _ _ _ i Hv ltac:(lia)) as He. destruct (Z.eqb_spec (pointer a i m) 0) as [Hz|Hz].
  - apply He in Hz. subst i. exists m0. split; [|split; [done|]].
    + destruct (Z.leb_spec (Z.of_nat (length l)) 4096); [done|lia].
    + intros _. by rewrite Nat2Z.id, firstn_all in Hh.
  - assert (i <> Z.of_nat (length l)) by (intros E; by apply Hz, He). unfold MACHGATE_EXECVE_MAX_ENVS.
    destruct (Z.eqb_spec i 4096).
    + exists m0. split; [|split; [done|lia]]. destruct (Z.leb_spec (Z.of_nat (length l)) 4096); [lia|done].
    + destruct (lookup_lt_is_Some_2 l (Z.to_nat i) ltac:(lia)) as [v Hvi]. destruct Hv as [[Hr Hlook] Hend].
      pose proof (Hlook _ _ Hvi) as Hpv. rewrite Z2Nat.id in Hpv by lia. rewrite Hpv.
      assert (0 < v < 2 ^ 64) by (rewrite Forall_lookup in Hr; by apply (Hr _ _ Hvi)).
      apply IH; [lia|lia|lia| |].
      * intros x Hx. rewrite store_out by (unfold within in Hx; lia). by apply Hm0.
      * replace (Z.to_nat (i + 1)) with (S (Z.to_nat i)) by lia. rewrite (take_S_r _ _ _ Hvi).
        assert (Hlen : length (firstn (Z.to_nat i) l) = Z.to_nat i) by (rewrite length_take; lia).
        eapply holds_snoc; [exact Hh|done| |].
        -- rewrite Hlen, Z2Nat.id by lia. apply pointer_store_same. lia.
        -- rewrite Hlen, Z2Nat.id by lia. intros x Hx. apply store_out. lia.
Qed.

(** *** The variables that are added *)

(** Where one of the entries, up to the first null, sets [name]. *)
Definition present (d : Z) (name : cstr) (m : bytemem) : Prop :=
  exists i, 0 <= i /\ (forall j, 0 <= j <= i -> pointer d j m <> 0) /\ env_name_matches (pointer d i m) name m = true.
Definition missing (l : list Z) (name : cstr) (m : bytemem) : Prop := Forall (fun e => env_name_matches e name m = false) l.

(** Where a variable comes from: whether it has a value, and what the string at
    its place is at the end. *)
Record source := mk_source {
  has_value : cstr -> Z -> bytemem -> Prop;
  content : cstr -> Z -> bytemem -> bytemem -> Prop;
}.

(** How the vector at [d] goes from the strings [l] to [result], one variable
    after the other: one that has a value and is missing is added, with its
    string; one that has none or is present is not. [like]: what is known of the
    memory on the way; [m]: the memory at the end. While nothing was added the
    vector ends after its strings. *)
Fixpoint completes (like : bytemem -> Prop) (d : Z) (src : source) (m : bytemem) (envs : list Z) (vars : list (cstr * Z)) (l result : list Z) : Prop :=
  match vars with
  | [] => result = l
  | (name, b) :: vars =>
      exists m1, like m1 /\ holds m1 d l /\ (l = envs -> vector_at m1 d l) /\
        ((missing l name m1 /\ has_value src name b m1 /\ content src name b m1 m /\ completes like d src m envs vars (l ++ [b]) result) \/
         ((~ has_value src name b m1 \/ present d name m1) /\ completes like d src m envs vars l result))
  end.

Lemma completes_mono (like like' : bytemem -> Prop) d src m m' envs vars : (forall m1, like m1 -> like' m1) ->
  (forall name b m1, In (name, b) vars -> content src name b m1 m -> content src name b m1 m') ->
  forall l result, completes like d src m envs vars l result -> completes like' d src m' envs vars l result.
Proof.
  intros Hlike. induction vars as [|[name b] vars IH]; intros Hc l result H; [done|]. cbn [completes] in *.
  assert (Hc' : forall nm bb m1, In (nm, bb) vars -> content src nm bb m1 m -> content src nm bb m1 m') by (intros nm bb m1 Hin; apply Hc; by right).
  destruct H as (m1 & Hl & Hh & He & H). exists m1. split; [by apply Hlike|]. split; [done|]. split; [done|].
  destruct H as [(Hm & Hv & Hct & H)|[Hn H]]; [left|right].
  - split; [done|]. split; [done|]. split; [apply Hc; [by left|done]|]. by apply IH.
  - split; [done|]. by apply IH.
Qed.

Lemma completes_length like d src m envs vars l result : completes like d src m envs vars l result ->
  (length l <= length result <= length l + length vars)%nat.
Proof.
  revert l; induction vars as [|[name b] vars IH]; intros l H; cbn [completes length] in *; [subst; lia|].
  destruct H as (m1 & _ & _ & _ & [(_ & _ & _ & H)|[_ H]]); apply IH in H; [rewrite length_app in H; simpl in H|]; lia.
Qed.

(** The scan of the vector for a name. *)
Lemma find_env_present n d i name m e : 0 <= i -> (forall j, 0 <= j < i -> pointer d j m <> 0) -> find_env n d i name m = Some e -> present d name m.
Proof.
  revert i; induction n as [|n IH]; intros i Hi Hj H; [done|]. cbn [find_env] in H. destruct (Z.eqb_spec (pointer d i m) 0) as [|Hp]; [done|].
  destruct (env_name_matches (pointer d i m) name m) eqn:E.
  - exists i. split; [done|]. split; [|done]. intros j Hj'. destruct (decide (j = i)) as [->|]; [done|]. apply Hj. lia.
  - apply (IH (i + 1)); [lia| |done]. intros j Hj'. destruct (decide (j = i)) as [->|]; [done|]. apply Hj. lia.
Qed.
Lemma find_env_missing n d i name m l : find_env n d (Z.of_nat i) name m = None -> holds m d l -> (length l < n + i)%nat ->
  forall k e, (i <= k)%nat -> l !! k = Some e -> env_name_matches e name m = false.
Proof.
  revert i; induction n as [|n IH]; intros i H [Hr Hh] Hlen k e Hk He; [apply lookup_lt_Some in He; lia|]. cbn [find_env] in H.
  assert (Hp : forall v, l !! i = Some v -> pointer d (Z.of_nat i) m = v /\ v <> 0).
  { intros v Hv. split; [by apply Hh|]. rewrite Forall_lookup in Hr. specialize (Hr _ _ Hv). lia. }
  destruct (lookup_lt_is_Some_2 l i) as [v Hv]; [apply lookup_lt_Some in He; lia|]. destruct (Hp v Hv) as [Hpv Hv0]. rewrite Hpv in H.
  destruct (Z.eqb_spec v 0); [done|]. destruct (env_name_matches v name m) eqn:E; [done|]. destruct (decide (k = i)) as [->|]; [congruence|].
  replace (Z.of_nat i + 1) with (Z.of_nat (S i)) in H by lia. apply (IH (S i) H (conj Hr Hh)) with (k := k); [lia|lia|done].
Qed.
Lemma has_name_spec fuel d name m l : 0 < d -> holds m d l -> (length l < fuel)%nat ->
  if env_has_name fuel d name m then present d name m else missing l name m.
Proof.
  intros Hd Hh Hlen. unfold env_has_name. destruct (Z.eqb_spec d 0); [lia|]. destruct (find_env fuel d 0 name m) as [e|] eqn:E.
  - apply (find_env_present fuel d 0 name m e); [lia|lia|done].
  - apply Forall_lookup. intros k e He. by apply (find_env_missing fuel d 0 name m l E Hh ltac:(lia) k e ltac:(lia)).
Qed.

(** What adding a variable does: nothing, when it has no value; or its string in
    the [area] of its place, and one word more at the end of the vector. *)
Definition append_ok (area : Z -> Z -> Prop) (d : Z) (src : source) (append : cstr -> Z -> Z -> bytemem -> (Z + Z) * bytemem) (vars : list (cstr * Z)) : Prop :=
  forall name b c m r m', In (name, b) vars -> 0 <= c <= 4096 -> append name b c m = (r, m') ->
    (forall x, ~ area b x -> ~ within (d + 8 * c) 8 x -> m' x = m x) /\
    match r with
    | inr e => e = DARWIN_E2BIG
    | inl c' => (c' = c /\ m' = m /\ ~ has_value src name b m) \/
                (c' = c + 1 /\ c < 4096 /\ pointer d c m' = b /\ has_value src name b m /\ content src name b m m')
    end.

(** The variables' areas are apart, and content is what is in them. *)
Record areas_ok (area : Z -> Z -> Prop) (d : Z) (src : source) (vars : list (cstr * Z)) : Prop := {
  ao_vector : forall b x, In b (map snd vars) -> area b x -> ~ within d (8 * 4099) x;
  ao_apart : ForallOrdPairs (fun u v => forall x, area (snd u) x -> ~ area (snd v) x) vars;
  ao_content : forall name b m1 m m', In (name, b) vars -> (forall x, area b x -> m' x = m x) -> content src name b m1 m -> content src name b m1 m';
}.
Definition some_area (area : Z -> Z -> Prop) (vars : list (cstr * Z)) : Z -> Prop := fun x => Exists (fun v => area (snd v) x) vars.

Lemma areas_ok_cons area d src v vars : areas_ok area d src (v :: vars) -> areas_ok area d src vars.
Proof.
  intros [Hv Ha Hc]. split; [intros b x Hb; apply Hv; by right| |intros name b m1 m m' Hb; apply Hc; by right]. by inversion Ha.
Qed.

Lemma append_missing_vector fuel area d src append (like : bytemem -> Prop) envs vars : append_ok area d src append vars -> areas_ok area d src vars ->
  0 < d -> Forall (fun v => 0 < snd v < 2 ^ 64) vars ->
  (forall m m', like m -> same_but (fun x => some_area area vars x \/ within d (8 * 4099) x) m m' -> like m') ->
  forall l m r m', like m -> holds m d l -> (l = envs -> vector_at m d l) -> (length envs <= length l)%nat -> Z.of_nat (length l) <= 4096 -> (length l + length vars < fuel)%nat ->
  append_missing fuel append d (Z.of_nat (length l)) vars m = (r, m') ->
  same_but (fun x => some_area area vars x \/ within d (8 * 4099) x) m m' /\
  match r with
  | inr e => e = DARWIN_E2BIG
  | inl c => exists result, completes like d src m' envs vars l result /\ c = Z.of_nat (length result) /\ c <= 4096 /\ holds m' d result
  end.
Proof.
  intros Hap Hao Hd Hvars. revert Hap Hao. induction Hvars as [|[name b] vars Hb Hvars IH]; intros Hap Hao Hlike l m r m' Hm Hh Hend Hel Hl Hf H; simpl in H.
  { injection H as <- <-. split; [done|]. exists l. by split_and!. }
  assert (Hap' : append_ok area d src append vars) by (intros nm bb c m0 r0 m1 Hin; apply (Hap nm bb c m0 r0 m1); by right).
  pose proof (areas_ok_cons _ _ _ _ _ Hao) as Hao'.
  assert (Hwide : forall m1 m2, same_but (fun x => some_area area vars x \/ within d (8 * 4099) x) m1 m2 ->
    same_but (fun x => some_area area ((name, b) :: vars) x \/ within d (8 * 4099) x) m1 m2).
  { intros m1 m2 Hs x Hx. apply Hs. intros [Hx'|Hx']; apply Hx; [left; by apply Exists_cons_tl|by right]. }
  assert (Hlike' : forall m1 m2, like m1 -> same_but (fun x => some_area area vars x \/ within d (8 * 4099) x) m1 m2 -> like m2)
    by (intros m1 m2 H1 H2; apply (Hlike m1); [done|by apply Hwide]).
  cbn [length] in Hf. pose proof (has_name_spec fuel d name m l Hd Hh ltac:(lia)) as Hname. destruct (env_has_name fuel d name m).
  { destruct (IH Hap' Hao' Hlike' l m r m' Hm Hh Hend Hel Hl ltac:(lia) H) as [Hsame Hr]. split; [by apply Hwide|]. destruct r as [c|e]; [|done].
    destruct Hr as (result & Hc & Hrest). exists result. split; [|done]. exists m. split_and!; [done..|]. right. split; [by right|done]. }
  destruct (append name b (Z.of_nat (length l)) m) as [[c|e] m1] eqn:E; destruct (Hap name b (Z.of_nat (length l)) m _ m1 (or_introl eq_refl) ltac:(lia) E) as [Hout Hc].
  - destruct Hc as [(-> & -> & Hv)|(-> & Hlt & Hp & Hv & Hct)].
    { destruct (IH Hap' Hao' Hlike' l m r m' Hm Hh Hend Hel Hl ltac:(lia) H) as [Hsame Hr]. split; [by apply Hwide|]. destruct r as [c|e]; [|done].
      destruct Hr as (result & Hc & Hrest). exists result. split; [|done]. exists m. split_and!; [done..|]. right. split; [by left|done]. }
    assert (Hpre : forall x, d <= x < d + 8 * Z.of_nat (length l) -> m1 x = m x).
    { intros x Hx. apply Hout; [intros Ha; apply (ao_vector _ _ _ _ Hao b x); [by left|done|unfold within; lia]|unfold within; lia]. }
    assert (Hsame1 : same_but (fun x => some_area area ((name, b) :: vars) x \/ within d (8 * 4099) x) m m1).
    { intros x Hx. apply Hout; [intros Ha; apply Hx; left; by apply Exists_cons_hd|intros Hw; apply Hx; right; unfold within in *; lia]. }
    replace (Z.of_nat (length l) + 1) with (Z.of_nat (length (l ++ [b]))) in H by (rewrite length_app; simpl; lia).
    destruct (IH Hap' Hao' Hlike' (l ++ [b]) m1 r m') as [Hsame Hr]; [by apply (Hlike m)|by eapply holds_snoc| |rewrite length_app; lia|rewrite length_app; simpl; lia|rewrite length_app; simpl; lia|done|].
    { intros E'. apply (f_equal length) in E'. rewrite length_app in E'. simpl in E'. lia. }
    split; [intros x Hx; rewrite (Hwide _ _ Hsame x Hx); by apply Hsame1|]. destruct r as [c|e]; [|done].
    destruct Hr as (result & Hc & Hrest). exists result. split; [|done]. exists m. split_and!; [done..|]. left. split_and!; [done..| |done].
    apply (ao_content _ _ _ _ Hao name b m m1 m'); [by left| |done]. intros x Hx. apply Hsame. intros [Hx'|Hx'].
    + pose proof (ao_apart _ _ _ _ Hao) as Hd'. inversion Hd' as [|? ? Hhead _]; subst. unfold some_area in Hx'. rewrite List.Exists_exists in Hx'.
      destruct Hx' as (v & Hin & Hav). rewrite Forall_forall in Hhead. apply (Hhead v (proj2 (list_elem_of_In _ _) Hin) x); done.
    + apply (ao_vector _ _ _ _ Hao b x); [by left|done|done].
  - injection H as <- <-. split; [|done]. intros x Hx. apply Hout; [intros Ha; apply Hx; left; by apply Exists_cons_hd|]. intros Hw. apply Hx. right. unfold within in *. lia.
Qed.

Lemma build_envp_vector fuel area base d src append vars l m : append_ok area d src append vars -> areas_ok area d src vars ->
  0 < d -> Forall (fun v => 0 < snd v < 2 ^ 64) vars -> (length l + length vars < fuel)%nat ->
  base <> 0 -> vector_at m base l -> (forall x, within base (8 * (Z.of_nat (length l) + 1)) x -> ~ within d (8 * 4099) x) ->
  let changed := fun x => some_area area vars x \/ within d (8 * 4099) x in
  match build_envp fuel append base d vars m with
  | (None, m') => exists result, completes (same_but changed m) d src m' l vars l result /\ vector_at m' d result /\
      Z.of_nat (length l) <= 4096 /\ Z.of_nat (length result) <= 4096 /\ same_but changed m m'
  | (Some e, m') => e = DARWIN_E2BIG /\ same_but changed m m'
  end.
Proof.
  intros Hap Hao Hd Hvars Hfuel Hb Hv Hapart changed. unfold build_envp. destruct (Z.eqb_spec base 0) as [|_]; [done|].
  destruct (copy_env_vector base d l m Hv Hapart (Z.to_nat (MACHGATE_EXECVE_MAX_ENVS + 1)) 0 m) as (m1 & -> & Hsame & Hh); [unfold MACHGATE_EXECVE_MAX_ENVS; lia|lia|lia|done|by split|].
  assert (Hw : same_but changed m m1) by (intros x Hx; apply Hsame; unfold changed in Hx; tauto).
  destruct (Z.leb_spec (Z.of_nat (length l)) 4096) as [Hl|Hl]; [|done]. specialize (Hh Hl).
  set (m2 := store 8 (d + 8 * Z.of_nat (length l)) 0 m1).
  assert (Hm2 : forall x, ~ within (d + 8 * Z.of_nat (length l)) 8 x -> m2 x = m1 x) by (intros x Hx; apply store_out; unfold within in Hx; lia).
  assert (Hh2 : holds m2 d l) by (apply (holds_ext m1); [done|intros x Hx; apply Hm2; unfold within; lia]).
  assert (Hw2 : same_but changed m m2).
  { intros x Hx. rewrite Hm2; [by apply Hw|]. intros Hwi. apply Hx. right. unfold within in *. lia. }
  assert (Hlike : forall m3 m4, same_but changed m m3 -> same_but changed m3 m4 -> same_but changed m m4)
    by (intros m3 m4 H3 H4 x Hx; rewrite H4 by done; by apply H3).
  destruct (append_missing fuel append d (Z.of_nat (length l)) vars m2) as [r m3] eqn:E.
  destruct (append_missing_vector fuel area d src append (same_but changed m) l vars Hap Hao Hd Hvars Hlike l m2 r m3) as [Hsame3 Hr];
    [done|done|intros _; split; [done|by apply pointer_store_same; lia]|done|done|done|done|].
  assert (Hw3 : same_but changed m m3) by (by apply (Hlike m2)).
  destruct r as [c|e]; [|done]. destruct Hr as (result & Hc & -> & Hle & Hh3). exists result.
  assert (Hm4 : forall x, ~ within d (8 * 4099) x -> store 8 (d + 8 * Z.of_nat (length result)) 0 m3 x = m3 x)
    by (intros x Hx; apply store_out; unfold within in Hx; lia).
  split_and!; [| |done|done|].
  - apply (completes_mono (same_but changed m) _ d src m3); [done| |done]. intros name b m4 Hin. apply (ao_content _ _ _ _ Hao name); [done|].
    intros x Hx. apply Hm4, (ao_vector _ _ _ _ Hao b); [|done]. by apply (in_map snd) in Hin.
  - split; [|by apply pointer_store_same; lia]. apply (holds_ext m3); [done|]. intros x Hx. apply store_out. lia.
  - intros x Hx. rewrite Hm4; [by apply Hw3|]. unfold changed in Hx. tauto.
Qed.

(** The strings recorded at program start are added where they are. *)
Definition recorded : source := mk_source (fun _ b m => m b mod 256 <> 0) (fun _ _ _ _ => True).
(** A string for the present value of the variable is made at [b]. *)
Definition current_value (fuel : nat) (environ : Z) (name : cstr) (m : bytemem) : cstr :=
  let v := getenv fuel environ name m in if v =? 0 then [] else c_str v m.
Definition current (fuel : nat) (environ : Z) : source :=
  mk_source (fun name _ m => current_value fuel environ name m <> [])
            (fun name b m m' => let s := name ++ "="%char :: current_value fuel environ name m in c_str b m' = s /\ Z.of_nat (length s) < 4096).

Lemma snapshot_append d vars : Forall (fun v => 0 < snd v < 2 ^ 64) vars ->
  append_ok (fun _ _ => False) d recorded (fun _ snapshot c => append_env_snapshot d c snapshot) vars.
Proof.
  intros Hv name b c m r m' Hin Hc. assert (Hb : 0 < b < 2 ^ 64) by (rewrite Forall_forall in Hv; apply list_elem_of_In in Hin; by apply (Hv _ Hin)).
  unfold append_env_snapshot, MACHGATE_EXECVE_MAX_ENVS. cbn [has_value content recorded].
  destruct (Z.eqb_spec b 0); [lia|]. cbn [orb]. destruct (Z.eqb_spec (m b mod 256) 0); [intros [= <- <-]; split; [done|]; left; split_and!; [done|done|tauto]|].
  destruct (Z.eqb_spec c 4096); intros [= <- <-]; [done|]. split.
  - intros x _ Hx. apply store_out. unfold within in Hx. lia.
  - right. split; [done|]. split; [lia|]. split; [by apply pointer_store_same; lia|done].
Qed.
Lemma recorded_areas d vars : areas_ok (fun _ _ => False) d recorded vars.
Proof. split; [done| |done]. induction vars as [|v vars IH]; constructor; [by apply Forall_forall|done]. Qed.

Lemma append_value_shape fuel environ d c name b m : append_env_value fuel environ d c name b 4096 m =
  match current_value fuel environ name m with
  | [] => (inl c, m)
  | value =>
      let s := name ++ "="%char :: value in
      if 4096 <=? Z.of_nat (length s) then (inr DARWIN_E2BIG, snprintf_s b 4096 s m)
      else if c =? MACHGATE_EXECVE_MAX_ENVS then (inr DARWIN_E2BIG, snprintf_s b 4096 s m)
      else (inl (c + 1), store 8 (d + 8 * c) b (snprintf_s b 4096 s m))
  end.
Proof.
  unfold append_env_value, current_value. cbv zeta. destruct (Z.eqb_spec (getenv fuel environ name m) 0); [done|]. cbn [orb].
  set (v := getenv fuel environ name m). unfold c_str. change (Z.to_nat 65536) with (S 65535). cbn [c_string]. by destruct (m v mod 256 =? 0).
Qed.

Lemma stored_string n b a v s m : no_nul s -> Z.of_nat (length s) < 4096 -> (length s < n)%nat -> (forall x, within b 4096 x -> x < a \/ a + 8 <= x) ->
  c_string n b (store 8 a v (snprintf_s b 4096 s m)) = s.
Proof.
  intros Hs Hlen Hn Ha. assert (Hput : c_string n b (snprintf_s b 4096 s m) = s) by (unfold snprintf_s; rewrite take_ge by lia; by apply c_string_put).
  rewrite <- Hput at 2. apply c_string_ext. rewrite Hput. intros x Hx. apply store_out, Ha. unfold within. lia.
Qed.

Lemma value_append fuel environ d vars : Forall (fun v => 0 < snd v < 2 ^ 64 /\ no_nul (fst v)) vars ->
  (forall b x, In b (map snd vars) -> within b 4096 x -> ~ within d (8 * 4099) x) ->
  append_ok (fun b => within b 4096) d (current fuel environ) (fun name buffer c => append_env_value fuel environ d c name buffer MACHGATE_EXECVE_PATH_MAX) vars.
Proof.
  intros Hv Hd name b c m r m' Hin Hc.
  assert (Hb : 0 < b < 2 ^ 64 /\ no_nul name) by (rewrite Forall_forall in Hv; apply list_elem_of_In in Hin; by apply (Hv _ Hin)). destruct Hb as [Hb Hn].
  specialize (Hd b). specialize (fun x => Hd x (in_map snd _ _ Hin)). change MACHGATE_EXECVE_PATH_MAX with 4096. rewrite append_value_shape.
  cbn [has_value content current]. assert (Hnul : no_nul (current_value fuel environ name m)).
  { unfold current_value. destruct (_ =? 0); [constructor|apply c_string_no_nul]. }
  destruct (current_value fuel environ name m) as [|ch value] eqn:Ev; [intros [= <- <-]; split; [done|]; left; split_and!; [done|done|intros H; by apply H]|].
  cbv zeta. set (s := name ++ _). assert (Hout : forall x, ~ within b 4096 x -> snprintf_s b 4096 s m x = m x).
  { intros x Hx. unfold snprintf_s. apply put_string_out. rewrite length_take. unfold within in Hx. lia. }
  destruct (Z.leb_spec 4096 (Z.of_nat (length s))); [intros [= <- <-]; split; [by intros x Hx _; apply Hout|done]|]. unfold MACHGATE_EXECVE_MAX_ENVS.
  destruct (Z.eqb_spec c 4096); intros [= <- <-]; [split; [by intros x Hx _; apply Hout|done]|]. split.
  - intros x Hx Hx'. rewrite store_out by (unfold within in Hx'; lia). by apply Hout.
  - right. split; [done|]. split; [lia|]. split; [by apply pointer_store_same; lia|]. split; [done|].
    assert (Hs : no_nul s) by (apply Forall_app; split; [done|by constructor]).
    split; [|lia]. apply stored_string; [done|lia|lia|]. intros x Hx. apply Hd in Hx. unfold within in *. lia.
Qed.
Lemma same_string b m m' s : c_str b m = s -> Z.of_nat (length s) < 4096 -> (forall x, within b 4096 x -> m' x = m x) -> c_str b m' = s.
Proof.
  unfold c_str. generalize (Z.to_nat 65536) as n. intros n Hs Hl Hx. rewrite <- Hs. apply c_string_ext. rewrite Hs. intros x Hr. apply Hx.
  unfold within. lia.
Qed.

Lemma current_areas fuel environ d vars :
  (forall b x, In b (map snd vars) -> within b 4096 x -> ~ within d (8 * 4099) x) ->
  ForallOrdPairs (fun u v => forall x, within (snd u) 4096 x -> ~ within (snd v) 4096 x) vars ->
  areas_ok (fun b => within b 4096) d (current fuel environ) vars.
Proof.
  intros Hd Ha. split; [exact Hd|exact Ha|]. intros name b m1 m m' _ Hx. cbn [content current]. cbv zeta. intros [Hs Hlen].
  split; [exact (same_string _ _ _ _ Hs Hlen Hx)|exact Hlen].
Qed.

(** ** What the calls change *)

(** The buffer a call of this file lets the kernel write to. *)
Definition call_buffer (nr : Z) (args : list Z) : Z -> Prop :=
  match args with
  | [_; buffer; n] => if nr =? SYS_read then within buffer n else fun _ => False
  | [_; _; buffer; n] => if nr =? Range000.SYS_readlinkat then within buffer n else fun _ => False
  | _ => fun _ => False
  end.
(** The kernel writes only where the calls let it. *)
Definition kernel_confined (K : kernel) : Prop := forall nr args m k, same_but (call_buffer nr args) m (snd (fst (k_syscall K nr args m k))).

Section keeps.
Context {V : Type} {K : kernel} (HK : kernel_confined K).

Definition keeps {A} (P : Z -> Prop) (c : host V K A) : Prop := forall p, same_but P (p_mem p) (p_mem (snd (c p))).

Lemma keeps_at {A} P (c : host V K A) p a p' : keeps P c -> c p = (a, p') -> same_but P (p_mem p) (p_mem p').
Proof. intros H E x Hx. specialize (H p x Hx). by rewrite E in H. Qed.
Lemma keeps_ret {A} P (a : A) : keeps P (hret a).
Proof. by intros p x. Qed.
Lemma keeps_bind {A B} P (c : host V K A) (f : A -> host V K B) : keeps P c -> (forall a, keeps P (f a)) -> keeps P (hbind c f).
Proof.
  intros Hc Hf p x Hx. unfold hbind. specialize (Hc p x Hx). destruct (c p) as [a p1]. by rewrite (Hf a p1 x Hx).
Qed.
Lemma keeps_syscall P nr args : (forall x, call_buffer nr args x -> P x) -> keeps P (syscall nr args).
Proof.
  intros H p x Hx. unfold syscall. pose proof (HK nr args (p_mem p) (p_kernel p) x ltac:(auto)) as Hk.
  destruct (k_syscall K nr args (p_mem p) (p_kernel p)) as [[[v|e] m] k]; exact Hk.
Qed.
Lemma keeps_get_mem P : keeps P get_mem.
Proof. by intros p x. Qed.
Lemma keeps_get_errno P : keeps P get_errno.
Proof. by intros p x. Qed.
Lemma keeps_set_errno P e : keeps P (set_errno e).
Proof. by intros p x. Qed.
Lemma keeps_write P f : (forall m, same_but P m (f m)) -> keeps P (write f).
Proof. intros H p. apply H. Qed.
Lemma keeps_if {A} P (b : bool) (c d : host V K A) : keeps P c -> keeps P d -> keeps P (if b then c else d).
Proof. by destruct b. Qed.

Create HintDb keeps.
#[local] Hint Resolve keeps_ret keeps_bind keeps_get_mem keeps_get_errno keeps_set_errno keeps_if : keeps.
Ltac keep := repeat first [apply keeps_ret | apply keeps_get_mem | apply keeps_get_errno | apply keeps_set_errno
  | apply keeps_if | (apply keeps_bind; [|intros ?]) | (apply keeps_syscall; intros x Hx; cbn in Hx; tauto) | progress cbv zeta].

Context (frame statics exe_path environ : Z) (fuel : nat) (literal : String.string -> Z).

(** Locals the kernel and the messages write to: the path of the loader, and
    the bytes of the file with the number as text. *)
Definition path_area : Z -> Prop := within frame 0x1000.
Definition number_area : Z -> Prop := within (frame + 0x1A000) 0x40.

Lemma keeps_child P : keeps P (execve_in_fork_child statics).
Proof. unfold execve_in_fork_child. keep. Qed.
Lemma keeps_trace_enabled P : keeps P (trace_execve_enabled statics environ fuel).
Proof. unfold trace_execve_enabled. keep. Qed.

Lemma keeps_write_string P fd a : keeps P (write_string fd a).
Proof. unfold write_string. keep. Qed.
Lemma keeps_trace P a p1 p2 : keeps P (trace_execve_forksafe statics literal a p1 p2).
Proof. unfold trace_execve_forksafe, write_quoted. keep; try apply keeps_write_string. Qed.

Lemma printed_digits_length n b v : (length (print_digits n b v) <= n)%nat.
Proof. revert v; induction n as [|n IH]; intros v; cbn [print_digits]; [done|]. destruct (v <? b); [simpl; lia|]. rewrite length_app. specialize (IH (v / b)). simpl. lia. Qed.

Lemma keeps_number a v : keeps number_area (trace_execve_forksafe_number frame statics literal a v).
Proof.
  unfold trace_execve_forksafe_number. apply keeps_bind; [apply keeps_get_mem|intros m0]. apply keeps_if; [apply keeps_ret|].
  apply keeps_bind; [|intros _; apply keeps_trace]. apply keeps_write. intros m x Hx. apply put_string_out.
  assert (Hlen : (length (print_d v) <= 21)%nat).
  { unfold print_d. pose proof (printed_digits_length 20 10 v) as H1. pose proof (printed_digits_length 20 10 (- v)) as H2.
    destruct (v <? 0); [apply le_n_S, (Nat.le_trans _ _ _ H2)|apply (Nat.le_trans _ _ _ H1)]; lia. }
  unfold number_buffer, number_area, within in *. lia.
Qed.

(** A file whose first four bytes, read from a descriptor of the file, are those
    of a Mach-O file (of 64 bits, little endian first), or of a universal one. *)
Definition macho_file (path : Z) : Prop :=
  exists m1 k1 fd m2 k2 m3 k3 m4 k4,
    k_syscall K 56 [-100; path; 0x80000] m1 k1 = (inl fd, m2, k2) /\ 0 <= i32 fd /\
    k_syscall K 63 [i32 fd; frame + 0x1A000; 4] m3 k3 = (inl 4, m4, k4) /\
    In (load 4 (frame + 0x1A000) m4) [0xfeedfacf; 0xcffaedfe; 0xbebafeca; 0xcafebabe].

Lemma macho_word v : 0 <= v < 2 ^ 32 -> has_macho_magic (le_bytes 4 v) = true -> In v [0xfeedfacf; 0xcffaedfe; 0xbebafeca; 0xcafebabe].
Proof.
  intros Hv H%bool_decide_eq_true. cbn [le_bytes In] in *.
  destruct H as [H|[H|[H|H]]]; injection H as E0 E1 E2 E3; [left|right; left|right; right; left|right; right; right; left];
    Z.to_euclidean_division_equations; lia.
Qed.

Lemma keeps_macho path : keeps number_area (path_is_macho_forksafe frame path).
Proof.
  unfold path_is_macho_forksafe, path_is_macho_common. keep. apply keeps_syscall. intros x Hx. cbn in Hx. unfold magic_bytes, number_area, within in *. lia.
Qed.
Lemma macho_checked path (p p' : process V K) : path_is_macho_forksafe frame path p = (None, p') -> macho_file path.
Proof.
  unfold path_is_macho_forksafe, path_is_macho_common, hbind at 1, set_errno. unfold hbind at 1, syscall at 1.
  destruct (k_syscall K SYS_openat _ _ _) as [[[fd|e] m2] k2] eqn:Eo; [|done]. cbn [p_mem p_kernel with_errno] in Eo.
  destruct (Z.ltb_spec (i32 fd) 0) as [|Hfd]; [done|]. unfold hbind at 1. unfold hbind at 1, syscall at 1.
  match goal with |- context [k_syscall K SYS_read ?args ?m ?k] => destruct (k_syscall K SYS_read args m k) as [[[n|e] m4] k4] eqn:Er end.
  2: { intros H. exfalso. revert H. unfold hbind, syscall, get_mem, get_errno. destruct (k_syscall K SYS_close _ _ _) as [[[?|?] ?] ?]; done. }
  unfold hbind at 1, syscall. match goal with |- context [k_syscall K SYS_close ?args ?m ?k] =>
    pose proof (HK SYS_close args m k) as Hc; destruct (k_syscall K SYS_close args m k) as [[c m5] k5] end. cbn [fst snd] in Hc.
  intros H. assert (Hn : n = 4 /\ has_macho_magic (le_bytes 4 (load 4 (magic_bytes frame) m5)) = true).
  { destruct c; unfold hbind, get_mem, get_errno in H; cbn [p_mem with_mem with_kernel with_errno] in H;
      (destruct (Z.ltb_spec n 0); [done|]; destruct (Z.eqb_spec n 4); [|done]; cbn [negb] in H; destruct (has_macho_magic _); [done|done]). }
  destruct Hn as [-> Hmag]. exists (p_mem p), (p_kernel p), fd, m2, k2, m2, k2, m4, k4. split; [exact Eo|]. split; [lia|]. split; [exact Er|].
  apply macho_word; [apply (load_range 4); lia|]. rewrite <- Hmag. do 2 f_equal. apply load_ext. intros x _. symmetry. apply Hc. cbn [call_buffer p_mem with_kernel with_mem]. tauto.
Qed.

(** The path of the loader at [frame] is what readlinkat says of /proc/self/exe. *)
Definition loader_named (m : bytemem) : Prop :=
  exists m1 k1 len m2 k2,
    k_syscall K 78 [-100; literal "/proc/self/exe"%string; frame; 4095] m1 k1 = (inl len, m2, k2) /\ 0 <= len < 4095 /\
    (forall x, within frame len x -> m x = m2 x) /\ m (frame + len) = 0.

Lemma loader_named_ext m m' : (forall x, path_area x -> m' x = m x) -> loader_named m -> loader_named m'.
Proof.
  intros Hx (m1 & k1 & len & m2 & k2 & E & Hl & Hc & Hz). exists m1, k1, len, m2, k2. split; [done|]. split; [done|]. unfold path_area, within in *. split.
  - intros x Hr. rewrite Hx by lia. by apply Hc.
  - rewrite Hx by lia. done.
Qed.

Lemma loader_path_read (p p' : process V K) : read_loader_path literal (loader_path frame) MACHGATE_EXECVE_PATH_MAX p = (None, p') ->
  same_but path_area (p_mem p) (p_mem p') /\ loader_named (p_mem p').
Proof.
  unfold read_loader_path, hbind at 1, set_errno. unfold hbind at 1, syscall. change (MACHGATE_EXECVE_PATH_MAX - 1) with 4095.
  match goal with |- context [k_syscall K Range000.SYS_readlinkat ?args ?m ?k] =>
    pose proof (HK Range000.SYS_readlinkat args m k) as Hc; destruct (k_syscall K Range000.SYS_readlinkat args m k) as [[[n|e] m2] k2] eqn:E end; [|done].
  cbn [fst snd call_buffer p_mem with_errno p_kernel] in Hc, E.
  destruct (Z.ltb_spec n 0); [done|]. destruct (Z.leb_spec 4095 n); [done|]. intros [= <-]. cbn [p_mem with_mem with_kernel]. split.
  - intros x Hx. unfold path_area, within, loader_path in *. rewrite store_out by lia. apply Hc. rewrite Z.eqb_refl. unfold within. lia.
  - exists (p_mem p), (p_kernel p), n, m2, k2. split; [exact E|]. split; [lia|]. unfold loader_path, within. split.
    + intros x Hx. apply store_out. lia.
    + by rewrite store1_at by lia.
Qed.

(** ** The program that runs *)

(** When [c] ends with the process replaced, the execve call was made from a
    state that satisfies [R]. *)
Definition execs (c : host V K (option Z)) (p : process V K) (R : process V K -> Prop) : Prop :=
  fst (c p) = None -> exists p1, R p1 /\ 0 <= fst (execve_vectors frame p1).

Lemma execs_some e p R : execs (hret (Some e)) p R.
Proof. done. Qed.
Lemma execs_bind {A} (c : host V K A) f p R : (forall a p', c p = (a, p') -> execs (f a) p' R) -> execs (hbind c f) p R.
Proof. intros H. unfold execs, hbind. destruct (c p) as [a p'] eqn:E. by apply H. Qed.
Lemma execs_quiet (c : host V K unit) e p R : execs (hbind c (fun _ => hret (Some e))) p R.
Proof. unfold execs, hbind. by destruct (c p). Qed.
Lemma execs_last (f : Z -> host V K (option Z)) p (R : process V K -> Prop) : R p -> (forall r q, r < 0 -> fst (f r q) <> None) ->
  execs (hbind (execve_vectors frame) (fun r => if 0 <=? r then hret None else f r)) p R.
Proof.
  intros HR Hf. unfold execs, hbind. destruct (execve_vectors frame p) as [r p'] eqn:E. destruct (Z.leb_spec 0 r) as [Hr|Hr].
  - intros _. exists p. by rewrite E.
  - intros H. by apply Hf in H.
Qed.
(** A step that leaves the vectors alone, with what must hold of memory. *)
Lemma execs_keeps {A} (c : host V K A) f p (R : bytemem -> Prop) : keeps number_area c ->
  (forall m m', R m -> same_but number_area m m' -> R m') -> R (p_mem p) ->
  (forall a p', R (p_mem p') -> execs (f a) p' (fun q => R (p_mem q))) -> execs (hbind c f) p (fun q => R (p_mem q)).
Proof.
  intros Hc HR Hp Hf. apply execs_bind. intros a p' E. apply Hf. apply (HR (p_mem p)); [done|]. intros x Hx. specialize (Hc p x Hx). by rewrite E in Hc.
Qed.

Context (guest_argv guest_envp : Z) (args envs : list Z).
Definition apart (a n : Z) : Prop := a + n <= frame \/ frame + 0x1A040 <= a.
Context (Hframe : 0 < frame /\ frame + 0x1A040 < 2 ^ 64) (Hstatics : 0 < statics /\ statics + 0x6000 < 2 ^ 64).
Context (Hargv : guest_argv <> 0) (Henvp : guest_envp <> 0) (Hfuel : (length envs + 3 < fuel)%nat).
Context (Hargs_apart : apart guest_argv (8 * (Z.of_nat (length args) + 1))) (Henvs_apart : apart guest_envp (8 * (Z.of_nat (length envs) + 1))).

(** Where the loader's variables come from: in a child between fork and exec
    from what was recorded at program start, else from the environment. *)
Definition mode_vars (child : bool) : list (cstr * Z) := if child then vars_snapshot statics else vars_buffers frame.
Definition mode_source (child : bool) : source := if child then recorded else current fuel environ.

(** The memory of the execve call: the path of the loader; the vector of the
    loader's path, the path of the guest and the guest's other arguments; the
    guest's environment completed with the loader's variables; and but for the
    locals of the function, the memory [m0] of the call. *)
Record ready (child : bool) (guest_path : Z) (m0 m : bytemem) : Prop := {
  rd_path : loader_named m;
  rd_args : vector_at m (loader_argv frame) (loader_args (loader_path frame) guest_path args);
  rd_envs : exists result, vector_at m (loader_envp frame) result /\
    completes (same_but (within frame 0x1A040) m0) (loader_envp frame) (mode_source child) m envs (mode_vars child) envs result;
  rd_rest : same_but (within frame 0x1A040) m0 m;
}.

Lemma vector_small m a l n : vector_at m a l -> a + 8 * (Z.of_nat (length l) + 1) <= n -> forall m', (forall x, a <= x < n -> m' x = m x) -> vector_at m' a l.
Proof. intros Hv Hn m' Hx. apply (vector_ext m); [done|]. intros x Hr. apply Hx. lia. Qed.

Definition fits (child : bool) (guest_path : Z) (m0 m : bytemem) : Prop :=
  ready child guest_path m0 m /\ Z.of_nat (length args) <= 4096 /\ Z.of_nat (length envs) <= 4096.

Lemma mode_length child : length (mode_vars child) = 3%nat.
Proof. by destruct child. Qed.
(** Places of the variables that the function writes to. *)
Definition mode_area (child : bool) (b : Z) : Z -> Prop := if child then fun _ => False else within b 4096.
Lemma mode_area_in child b x : In b (map snd (mode_vars child)) -> mode_area child b x -> within (frame + 0x1000) 0x3000 x.
Proof.
  destruct child; [done|]. cbn. unfold machgate_config_env, ld_library_path_env, ld_preload_env, within. intros [<-|[<-|[<-|[]]]]; lia.
Qed.
Lemma mode_areas child : areas_ok (mode_area child) (loader_envp frame) (mode_source child) (mode_vars child).
Proof.
  destruct child; [apply recorded_areas|]. apply current_areas.
  - intros b x Hb Hx. pose proof (mode_area_in false b x Hb Hx). unfold loader_envp, within in *. lia.
  - repeat constructor; cbn; unfold machgate_config_env, ld_library_path_env, ld_preload_env, within; intros x; lia.
Qed.
Lemma mode_places child : Forall (fun v => 0 < snd v < 2 ^ 64) (mode_vars child).
Proof.
  destruct child; cbn [mode_vars]; unfold vars_snapshot, vars_buffers;
    repeat (apply Forall_cons; split; [simpl; unfold machgate_execve_machgate_config_env, machgate_execve_ld_library_path_env, machgate_execve_ld_preload_env,
      machgate_config_env, ld_library_path_env, ld_preload_env; lia|]); by apply Forall_nil.
Qed.
Lemma mode_names child : Forall (fun v => no_nul (fst v)) (mode_vars child).
Proof. destruct child; repeat constructor; by vm_compute. Qed.

Lemma fits_keeps child g m0 m m' : fits child g m0 m -> same_but number_area m m' -> fits child g m0 m'.
Proof.
  intros ([Hp Ha (result & He & Hc) Hs] & Hla & Hle) Hm. pose proof (completes_length _ _ _ _ _ _ _ _ Hc) as Hlen. rewrite mode_length in Hlen.
  split; [|done]. split.
  - apply (loader_named_ext m); [|done]. intros x Hx. apply Hm. unfold path_area, number_area, within in *. lia.
  - apply (vector_small m _ _ (frame + 0x10000)); [done| |].
    + assert (length (loader_args (loader_path frame) g args) <= S (length args))%nat by (destruct args; simpl; lia). unfold loader_argv. lia.
    + intros x Hx. apply Hm. unfold number_area, within, loader_argv in *. lia.
  - exists result. split.
    + apply (vector_small m _ _ (frame + 0x1A000)); [done|unfold loader_envp; lia|].
      intros x Hx. apply Hm. unfold number_area, within, loader_envp in *. lia.
    + apply (completes_mono (same_but (within frame 0x1A040) m0) _ _ _ m); [done| |done]. intros name b m1 Hin.
      apply (ao_content _ _ _ _ (mode_areas child) name); [done|]. intros x Hx. apply Hm.
      pose proof (mode_area_in child b x (in_map snd _ _ Hin) Hx). unfold number_area, within in *. lia.
  - intros x Hx. rewrite Hm; [by apply Hs|]. unfold number_area, within in *. lia.
Qed.

(** Building both vectors, from the memory of the call on. *)
Lemma vectors_built child append g m0 m m1 m2 : append_ok (mode_area child) (loader_envp frame) (mode_source child) append (mode_vars child) ->
  0 < g < 2 ^ 64 -> vector_at m0 guest_argv args -> vector_at m0 guest_envp envs ->
  same_but (fun x => path_area x \/ number_area x) m0 m -> loader_named m ->
  build_loader_argv (loader_path frame) g guest_argv (loader_argv frame) 4099 m = (None, m1) ->
  build_envp fuel append guest_envp (loader_envp frame) (mode_vars child) m1 = (None, m2) -> fits child g m0 m2.
Proof.
  intros Hap Hg Ha He Hm Hpath Hb1 Hb2. unfold apart in *.
  assert (Ha' : vector_at m guest_argv args) by (apply (vector_ext m0); [done|]; intros x Hx; apply Hm; unfold path_area, number_area, within; lia).
  pose proof (build_argv_vector (loader_path frame) g guest_argv (loader_argv frame) args m ltac:(unfold loader_path; lia) Hg Hargv Ha') as Hbuild.
  assert (Hargs : Z.of_nat (length args) <= 4096 /\ same_but (within (loader_argv frame) (8 * 4099)) m m1 /\ vector_at m1 (loader_argv frame) (loader_args (loader_path frame) g args)).
  { destruct (Z.leb_spec (Z.of_nat (length args)) 4096).
    - destruct Hbuild as (m' & E & Hs & Hv); [intros x; unfold loader_argv, within; lia|]. rewrite E in Hb1. injection Hb1 as <-. done.
    - rewrite Hbuild in Hb1; [done|]. intros x; unfold loader_argv, within; lia. }
  destruct Hargs as (Hla & Hs1 & Hv1).
  assert (He' : vector_at m1 guest_envp envs).
  { apply (vector_ext m0); [done|]. intros x Hx. rewrite Hs1 by (unfold loader_argv, within; lia). apply Hm. unfold path_area, number_area, within. lia. }
  assert (Harea : forall x, some_area (mode_area child) (mode_vars child) x -> within (frame + 0x1000) 0x3000 x).
  { intros x Hx. unfold some_area in Hx. rewrite List.Exists_exists in Hx. destruct Hx as (v & Hin & Hx). by apply (mode_area_in child (snd v)); [apply in_map|]. }
  pose proof (build_envp_vector fuel (mode_area child) guest_envp (loader_envp frame) (mode_source child) append (mode_vars child) envs m1 Hap
    (mode_areas child) ltac:(unfold loader_envp; lia) (mode_places child) ltac:(rewrite mode_length; lia) Henvp He'
    ltac:(intros x; unfold loader_envp, within; lia)) as Henv.
  cbv zeta in Henv. rewrite Hb2 in Henv. destruct Henv as (result & Hc & Hv2 & Hle & Hlr & Hs2).
  assert (Hwide : forall m3, same_but (fun x => some_area (mode_area child) (mode_vars child) x \/ within (loader_envp frame) (8 * 4099) x) m1 m3 ->
    same_but (within frame 0x1A040) m0 m3).
  { intros m3 H3 x Hx. rewrite H3 by (intros [Hx'|Hx']; [apply Harea in Hx'|]; unfold loader_envp, within in *; lia).
    rewrite Hs1 by (unfold loader_argv, within in *; lia). apply Hm. unfold path_area, number_area, within in *. lia. }
  split; [|done]. split.
  - apply (loader_named_ext m); [|done]. intros x Hx. unfold path_area in Hx.
    rewrite Hs2 by (intros [Hx'|Hx']; [apply Harea in Hx'|]; unfold loader_envp, within in *; lia). apply Hs1. unfold loader_argv, within in *. lia.
  - apply (vector_small m1 _ _ (frame + 0x10000)); [done| |].
    + assert (length (loader_args (loader_path frame) g args) <= S (length args))%nat by (destruct args; simpl; lia). unfold loader_argv. lia.
    + intros x Hx. apply Hs2. intros [Hx'|Hx']; [apply Harea in Hx'|]; unfold loader_argv, loader_envp, within in *; lia.
  - exists result. split; [done|]. by apply (completes_mono _ (same_but (within frame 0x1A040) m0) _ _ m2 m2 _ _ Hwide) in Hc.
  - by apply Hwide.
Qed.

Lemma resolve_ext path m m' : (forall x, m' x = m x) -> resolve_guest_exec_path statics exe_path path m' = resolve_guest_exec_path statics exe_path path m.
Proof.
  intros H. unfold resolve_guest_exec_path, machgate_guest_executable_path. rewrite !H. unfold c_str.
  by rewrite !(c_string_ext _ _ m m') by (intros; apply H).
Qed.

Lemma resolve_range path m : 0 < path < 2 ^ 64 -> 0 <= exe_path < 2 ^ 64 -> 0 < resolve_guest_exec_path statics exe_path path m < 2 ^ 64.
Proof.
  intros Hp He. unfold resolve_guest_exec_path, machgate_guest_executable_path. destruct (Z.eqb_spec path 0); [lia|]. cbn [orb].
  destruct (Z.eqb_spec exe_path 0) as [->|Hne]; [done|].
  destruct (nz exe_path && nz (m exe_path mod 256)); [|done]. destruct (Z.eqb_spec exe_path 0); [lia|].
  destruct (bool_decide _); [lia|]. destruct (_ && _); lia.
Qed.

Context (path : Z) (Hpath : 0 < path < 2 ^ 64) (Hexe : 0 <= exe_path < 2 ^ 64).
Implicit Types p : process V K.

(** The guest's vectors, as they are at the call. *)
Definition guest_vectors (m : bytemem) : Prop := vector_at m guest_argv args /\ vector_at m guest_envp envs.

Lemma forksafe_execs p : guest_vectors (p_mem p) ->
  execs (machgate_execve_macho_guest_forksafe frame statics exe_path fuel literal path guest_argv guest_envp) p
    (fun q => macho_file (resolve_guest_exec_path statics exe_path path (p_mem p)) /\
      fits true (resolve_guest_exec_path statics exe_path path (p_mem p)) (p_mem p) (p_mem q)).
Proof.
  intros [Hav Hev]. set (g := resolve_guest_exec_path statics exe_path path (p_mem p)). set (m0 := p_mem p) in *.
  unfold machgate_execve_macho_guest_forksafe. cbv zeta. apply execs_bind. intros u1 p1 E1.
  assert (H1 : forall x, p_mem p1 x = m0 x) by (intros x; apply (keeps_at _ _ _ _ _ (keeps_trace (fun _ => False) _ _ _) E1 x); tauto).
  destruct (Z.eqb_spec path 0); [lia|]. apply execs_bind. intros m p1' E1'. unfold get_mem in E1'. injection E1' as Em Ep. subst m p1'. rewrite (resolve_ext path m0 (p_mem p1) H1). fold g.
  apply execs_bind. intros u2 p2 E2.
  assert (H2 : forall x, p_mem p2 x = m0 x) by (intros x; rewrite <- H1; apply (keeps_at _ _ _ _ _ (keeps_trace (fun _ => False) _ _ _) E2 x); tauto).
  apply execs_bind. intros [e|] p3 E3; [apply execs_quiet|]. apply execs_bind. intros [e|] p4 E4; [apply execs_quiet|].
  pose proof (macho_checked g p2 p3 E3) as Hmacho. destruct (loader_path_read p3 p4 E4) as [Hp4 Hname].
  assert (H4 : same_but (fun x => path_area x \/ number_area x) m0 (p_mem p4)).
  { intros x Hx. rewrite Hp4 by tauto. rewrite (keeps_at _ _ _ _ _ (keeps_macho g) E3 x) by tauto. apply H2. }
  apply execs_bind. intros r5 p5 E5. unfold on_mem, hbind at 1, get_mem in E5. cbn [fst snd] in E5. unfold hbind, set_mem, hret in E5.
  destruct (build_loader_argv _ _ _ _ _ (p_mem p4)) as [r m5] eqn:Eb. injection E5 as <- <-. destruct r as [e|]; [apply execs_quiet|].
  apply execs_bind. intros r6 p6 E6. unfold on_mem, hbind at 1, get_mem in E6. cbn [fst snd p_mem with_mem] in E6. unfold hbind, set_mem, hret in E6.
  destruct (build_loader_envp_forksafe _ _ _ _ m5) as [r m6] eqn:Eb2. injection E6 as <- <-. destruct r as [e|]; [apply execs_quiet|].
  set (R := fun m => macho_file g /\ fits true g m0 m).
  assert (Hfit : R m6).
  { split; [done|]. apply (vectors_built true _ g m0 (p_mem p4) m5 m6 (snapshot_append _ _ (mode_places true))); try done. by apply resolve_range. }
  assert (Hk : forall m m', R m -> same_but number_area m m' -> R m') by (intros m m' [Hm Hf] Hs; split; [done|by eapply fits_keeps]).
  change (fun q : process V K => macho_file g /\ fits true g m0 (p_mem q)) with (fun q : process V K => R (p_mem q)).
  do 16 (apply (execs_keeps _ _ _ R); [first [apply keeps_set_errno|apply keeps_get_mem|apply keeps_trace|apply keeps_number|(apply keeps_syscall; intros y Hy; cbn in Hy; tauto)]|exact Hk|first [exact Hfit|assumption]|intros ? ? ?]).
  apply execs_last; [assumption|]. intros r q Hr. unfold hbind. repeat (match goal with |- context [let '(_, _) := ?c in _] => destruct c end). done.
Qed.

Lemma unless_inl {A} (c : host V K (option Z)) (next : host V K (A + Z)) p (a : A) p' : unless_error c next p = (inl a, p') ->
  exists p1, c p = (None, p1) /\ next p1 = (inl a, p').
Proof. unfold unless_error, hbind. destruct (c p) as [[e|] p1] eqn:E; [done|]. by exists p1. Qed.

Lemma on_mem_inl (f : bytemem -> option Z * bytemem) p p' : on_mem f p = (None, p') -> exists m, f (p_mem p) = (None, m) /\ p' = with_mem m p.
Proof. unfold on_mem, hbind, get_mem, set_mem, hret. destruct (f (p_mem p)) as [r m] eqn:E. cbn. intros [= -> <-]. by exists m. Qed.

Lemma buffers_append : append_ok (mode_area false) (loader_envp frame) (mode_source false)
  (fun name buffer c => append_env_value fuel environ (loader_envp frame) c name buffer MACHGATE_EXECVE_PATH_MAX) (mode_vars false).
Proof.
  apply value_append.
  - pose proof (mode_places false) as Hp. pose proof (mode_names false) as Hn. rewrite Forall_forall in Hp, Hn. apply Forall_forall. intros v Hv. split; auto.
  - intros b x Hb Hx. pose proof (mode_area_in false b x Hb Hx). unfold loader_envp, within in *. lia.
Qed.

Lemma prepared p g p' : guest_vectors (p_mem p) ->
  prepare frame statics exe_path literal (fun guest_envp => build_loader_envp fuel environ guest_envp (loader_envp frame) (vars_buffers frame)) path guest_argv guest_envp p = (inl g, p') ->
  macho_file (resolve_guest_exec_path statics exe_path path (p_mem p)) /\
  fits false (resolve_guest_exec_path statics exe_path path (p_mem p)) (p_mem p) (p_mem p').
Proof.
  intros [Hav Hev]. unfold prepare, hbind at 1, get_mem. intros H. apply unless_inl in H as (p1 & E1 & H). apply unless_inl in H as (p2 & E2 & H).
  apply unless_inl in H as (p3 & E3 & H). apply unless_inl in H as (p4 & E4 & H). injection H as _ <-.
  apply on_mem_inl in E3 as (m3 & E3 & ->). apply on_mem_inl in E4 as (m4 & E4 & ->). cbn [p_mem with_mem] in *.
  pose proof (macho_checked _ p p1 E1) as Hmacho. destruct (loader_path_read p1 p2 E2) as [Hp2 Hname]. split; [done|].
  assert (H2 : same_but (fun x => path_area x \/ number_area x) (p_mem p) (p_mem p2)).
  { intros x Hx. rewrite Hp2 by tauto. apply (keeps_at _ _ _ _ _ (keeps_macho _) E1 x). tauto. }
  unfold build_loader_envp in E4. destruct (Z.eqb_spec guest_envp 0); [done|].
  eapply (vectors_built false _ _ (p_mem p) (p_mem p2) m3 m4 buffers_append); try done. by apply resolve_range.
Qed.

Lemma guest_execs p : guest_vectors (p_mem p) ->
  execs (machgate_execve_macho_guest frame statics exe_path environ fuel literal path guest_argv guest_envp) p
    (fun q => macho_file (resolve_guest_exec_path statics exe_path path (p_mem p)) /\
      exists child, fits child (resolve_guest_exec_path statics exe_path path (p_mem p)) (p_mem p) (p_mem q)).
Proof.
  intros Hg. unfold machgate_execve_macho_guest. apply execs_bind. intros child p0 E0.
  assert (H0 : forall x, p_mem p0 x = p_mem p x) by (intros x; apply (keeps_at _ _ _ _ _ (keeps_child (fun _ => False)) E0 x); tauto).
  assert (Hg0 : guest_vectors (p_mem p0)) by (destruct Hg; split; eapply vector_ext; done).
  pose proof (resolve_ext path (p_mem p) (p_mem p0) H0) as Hres.
  assert (Hfit : forall c m, fits c (resolve_guest_exec_path statics exe_path path (p_mem p0)) (p_mem p0) m ->
    fits c (resolve_guest_exec_path statics exe_path path (p_mem p)) (p_mem p) m).
  { intros c m. rewrite Hres. intros ([Hp Ha (result & Hv & Hc) Hs] & Hrest). split; [|done].
    assert (Hsame : forall m1, same_but (within frame 0x1A040) (p_mem p0) m1 -> same_but (within frame 0x1A040) (p_mem p) m1) by (intros m1 H1 x Hx; by rewrite H1, H0).
    split; [done|done| |by apply Hsame]. exists result. split; [done|]. by apply (completes_mono _ _ _ _ m m _ _ Hsame) in Hc. }
  destruct child.
  - intros H. destruct (forksafe_execs p0 Hg0 H) as (p1 & [Hm Hf] & Hr). exists p1. split; [|done]. rewrite Hres in Hm. split; [done|]. exists true. by apply Hfit.
  - destruct (Z.eqb_spec path 0); [lia|]. apply execs_bind. intros [g|e] p1 E1; [|done]. apply (prepared p0 g p1 Hg0) in E1 as [Hm E1]. rewrite Hres in Hm.
    set (R := fun m => macho_file (resolve_guest_exec_path statics exe_path path (p_mem p)) /\
      exists child, fits child (resolve_guest_exec_path statics exe_path path (p_mem p)) (p_mem p) m).
    assert (HR : R (p_mem p1)) by (split; [done|exists false; by apply Hfit]).
    assert (Hk : forall m m', R m -> same_but number_area m m' -> R m') by (intros m m' [Hma (c & Hf)] Hs; split; [done|exists c; by eapply fits_keeps]).
    apply (execs_keeps _ _ _ R); [apply keeps_set_errno|exact Hk|exact HR|]. intros u q HRq.
    apply (execs_keeps _ _ _ R); [apply keeps_trace_enabled|exact Hk|exact HRq|]. intros b q' HRq'.
    apply execs_last; [exact HRq'|]. intros r q2 Hr. unfold hbind, trace_execve_failure, hbind. repeat (match goal with |- context [let '(_, _) := ?c in _] => destruct c end). done.
Qed.

End keeps.

(** The last step: the execve call. *)
Lemma execve_called {V : Type} {K : kernel} frame (p : process V K) : 0 <= fst (execve_vectors frame p) ->
  exists v m k, k_syscall K 221 [frame; frame + 0x4000; frame + 0x10000] (p_mem p) (p_kernel p) = (inl v, m, k) /\ 0 <= v.
Proof.
  unfold execve_vectors, syscall, loader_path, loader_argv, loader_envp. change SYS_execve with 221.
  destruct (k_syscall K 221 _ _ _) as [[[v|e] m] k]; cbn [fst]; [|lia]. intros Hv. by exists v, m, k.
Qed.
(** The file that is executed: the guest's own, when it is known and the guest
    names /proc/self/exe or the path of the loader as recorded at program start;
    else the file the guest names. *)
Definition executed_file (statics exe_path path : Z) (m : bytemem) (file : Z) : Prop :=
  let itself := exe_path <> 0 /\ m exe_path mod 256 <> 0 /\
    (c_str path m = str "/proc/self/exe" \/ m (statics + 0x1000) mod 256 <> 0 /\ c_str path m = c_str (statics + 0x1000) m) in
  (itself -> file = exe_path) /\ (~ itself -> file = path).

Lemma resolved_file statics exe_path path m : path <> 0 -> executed_file statics exe_path path m (resolve_guest_exec_path statics exe_path path m).
Proof.
  intros Hp. unfold executed_file, resolve_guest_exec_path, machgate_guest_executable_path, nz, machgate_execve_loader_path. cbv zeta.
  generalize (c_str path m) as s, (c_str (statics + 0x1000) m) as t. intros s t.
  destruct (Z.eqb_spec path 0); [done|]. cbn [orb]. destruct (Z.eqb_spec exe_path 0) as [->|Hx]; cbn [negb andb]; [rewrite Z.eqb_refl; tauto|].
  destruct (Z.eqb_spec (m exe_path mod 256) 0) as [Hz|Hz]; cbn [negb]; [rewrite Z.eqb_refl; tauto|]. destruct (Z.eqb_spec exe_path 0); [done|].
  case_bool_decide; [tauto|]. destruct (Z.eqb_spec (m (statics + 0x1000) mod 256) 0); cbn [negb andb]; [tauto|]. case_bool_decide; tauto.
Qed.


(** An execve that comes back reports an error, whatever the kernel
    answers: the error number is never 0. *)
Theorem execve_reports_error {V : Type} {K : kernel} frame statics exe_path environ fuel literal path guest_argv guest_envp (p : process V K) :
  fst (machgate_execve_macho_guest frame statics exe_path environ fuel literal path guest_argv guest_envp p) <> Some 0.
Proof. apply execve_nonzero. Qed.

(** ** Witnesses *)

(** A kernel on which every file is a Mach-O file and execve works. *)
Definition exec_kernel : kernel :=
  {| kstate := unit;
     k_syscall nr args m k :=
       match args with
       | [_; buffer; n] => if (nr =? SYS_read) && (n =? 4) then (inl 4, place buffer [0xcf; 0xfa; 0xed; 0xfe] m, k) else (inl 0, m, k)
       | [_; _; buffer; n] => if (nr =? Range000.SYS_readlinkat) && (n =? 4095) then (inl 2, place buffer (map code (str "/m")) m, k) else (inl 0, m, k)
       | _ => (inl 3, m, k)
       end;
     k_fstat _ k := (inr EINVAL, k); k_statfs _ k := (inr EINVAL, k); k_mounts k := (inr EINVAL, k);
     k_sigpending k := (inr EINVAL, k); k_sigaltstack _ k := (inr EINVAL, k) |}.

Lemma exec_kernel_confined : kernel_confined exec_kernel.
Proof.
  assert (Hp : forall a l m x, ~ within a (Z.of_nat (length l)) x -> place a l m x = m x).
  { intros a l m x Hx. unfold place. destruct (l !! Z.to_nat (x - a)) eqn:E; [|done]. apply lookup_lt_Some in E. unfold within in Hx.
    destruct (Z.leb_spec a x); [lia|done]. }
  intros nr args m k x. destruct args as [|a [|b [|c [|d [|e l]]]]]; cbn; try done.
  - destruct (nr =? SYS_read); cbn; [|done]. destruct (Z.eqb_spec c 4) as [->|]; cbn; [|done]. intros Hx. by apply Hp.
  - destruct (nr =? Range000.SYS_readlinkat); cbn; [|done]. destruct (Z.eqb_spec d 4095) as [->|]; cbn; [|done]. intros Hx. apply Hp. unfold within in *. simpl. lia.
Qed.

(** The file "/p" at 0x1000, the arguments "/p" and "x", no environment; the
    statics are at 0x900000. *)
Definition guest_memory : bytemem :=
  put_string 0x1000 (str "/p") (put_string 0x1010 (str "x") (store 8 0x2000 0x1000 (store 8 0x2008 0x1010 (fun _ => 0)))).
Definition exec_proc : process unit exec_kernel := @mk_proc _ exec_kernel tt 0 (fun _ => default_action) 0 guest_memory tt [] 1.
Definition exec_result (argv : Z) : option Z * process unit exec_kernel :=
  machgate_execve_macho_guest 0x100000 0x900000 0 0 10 (fun _ => 0x800000) 0x1000 argv 0x3000 exec_proc.


(** ** Corners *)

Definition words (a n : Z) (m : bytemem) : list Z := map (fun i => pointer a i m) (seqZ 0 n).

(** A guest may execute a file with no arguments at all: the end of the vector
    is then written over the path, and the loader is started without a file. *)
Example empty_argv_loses_path :
  words 0x104000 2 (snd (build_loader_argv 0x100000 0x1000 0x3000 0x104000 4099 guest_memory)) = [0x100000; 0].
Proof. reflexivity. Qed.

(** The vector is not terminated while variables are added: what was on the
    stack before is taken for part of the environment.  Here an old string
    "LD_PRELOAD=o" makes the variable seem present, and it is not added. *)
Example stale_entry_hides_variable :
  let snapshots := put_string 0x902000 (str "MACHGATE_CONFIG=c") (put_string 0x904000 (str "LD_PRELOAD=l") guest_memory) in
  let run stack := words 0x110000 3 (snd (build_loader_envp_forksafe 10 0x3000 0x110000 (vars_snapshot 0x900000) stack)) in
  run snapshots = [0x902000; 0x904000; 0] /\
  run (store 8 0x110008 0x5000 (put_string 0x5000 (str "LD_PRELOAD=o") snapshots)) = [0x902000; 0; 0].
Proof. split; vm_compute; reflexivity. Qed.

(** Error numbers of Linux that Darwin numbers differently are passed on as
    they are: ENAMETOOLONG (36, Darwin's 63) reads as EINPROGRESS. *)
Example errno_untranslated : execve_errno_from_linux 36 = 36 /\ Abi.darwin_errno_from_linux 36 = 63.
Proof. split; reflexivity. Qed.
End Execve.
