(* ===== verification/Range100Theorems.v ===== *)
(** * System calls 100 to 199: every call is answered *)

From S2P Require Import Prelude CStr Host GuestVm GateIsland GateDispatch GateTheorems DarwinAbi DarwinAbiTheorems Range000 Range000Theorems Range000Sockets Range100 Execve.
Import Gate Dispatch Abi Range100.

Lemma range_100_errno_nonzero e : e <> 0 -> darwin_errno_from_linux e <> 0.
Proof. intros He. unfold darwin_errno_from_linux. destruct e as [|q|q]; [done| |done]. repeat (destruct q as [q|q|]; try done). Qed.

Lemma translate_sockaddr_error a len out m : match fst (translate_sockaddr a len out m) with inr e => e <> 0 | inl _ => True end.
Proof. unfold translate_sockaddr, Abi.translate_sockaddr. repeat case_match; cbn in *; simplify_eq; done. Qed.

Section answered.
Context {K : kernel} (frame : Z) (malloc : Z -> Z) (empty_string : Z).
Implicit Types (g : syscall_gate_state).

Lemma fail_now_settled g : returns (K:=K) (fail_now g) (settled g).
Proof.
  unfold fail_now. eapply (returns_bind_with _ _ (fun e => e <> 0)).
  - intros p. unfold errno_or_eio, hbind, hret. cbn. destruct (nz (p_errno p)) eqn:E; [|done]. unfold nz in E. by destruct (Z.eqb_spec (p_errno p) 0).
  - intros e He. by apply returns_ret, settled_failure, range_100_errno_nonzero.
Qed.

Lemma finish_100_settled g r : returns (K:=K) (Range100.finish_syscall_result g r) (settled g).
Proof. unfold Range100.finish_syscall_result. destruct (Z.ltb_spec r 0); [apply fail_now_settled|by apply returns_ret, settled_success]. Qed.

Lemma forward_100_settled g nr args : returns (K:=K) (forward g nr args) (settled g).
Proof. unfold forward. do 2 (apply returns_bind; intros ?). apply finish_100_settled. Qed.

Lemma fail_errno_100_settled g e : e <> 0 -> returns (K:=K) (fail_errno g e) (settled g).
Proof. intros He. unfold fail_errno. apply returns_bind. intros _. by apply returns_ret, settled_failure, range_100_errno_nonzero. Qed.

Lemma einval_settled g : returns (K:=K) (fail_errno g EINVAL) (settled g).
Proof. by apply fail_errno_100_settled. Qed.
End answered.

#[export] Hint Resolve fail_now_settled finish_100_settled forward_100_settled einval_settled : settle.

Section calls.
Context {K : kernel} (frame : Z) (malloc : Z -> Z) (empty_string : Z).
Implicit Types (g : syscall_gate_state).

(** A socket address that cannot be translated is an error. *)
Lemma with_address_settled g a len (next : Z -> host guest_vm_table K syscall_gate_state) :
  (forall l, returns (next l) (settled g)) ->
  returns (hbind (Range000.on_mem (translate_sockaddr a len frame)) (fun r => match r with inr e => fail_errno g e | inl l => next l end)) (settled g).
Proof.
  intros Hn. eapply (returns_bind_with _ _ (fun r => match r with inr e => e <> 0 | inl _ => True end)).
  - intros p. unfold Range000.on_mem, hbind, hret. cbn. apply translate_sockaddr_error.
  - intros [l|e] He; [apply Hn|by apply fail_errno_100_settled].
Qed.

Lemma addresses_settled g : returns (K:=K) (handle_bind frame g) (settled g) /\ returns (K:=K) (handle_sendto frame g) (settled g).
Proof.
  split.
  - apply with_address_settled. intros l. apply forward_100_settled.
  - unfold handle_sendto. cbv zeta. destruct (nz _); [apply with_address_settled; intros l|]; apply forward_100_settled.
Qed.

Lemma sockopts_settled g : returns (K:=K) (handle_setsockopt g) (settled g) /\ returns (K:=K) (handle_getsockopt g) (settled g) /\ returns (K:=K) (handle_socketpair g) (settled g).
Proof. unfold handle_setsockopt, handle_getsockopt, handle_socketpair. repeat split; settle. Qed.

Lemma if_exists_settled g path next : returns next (settled g) -> returns (K:=K) (if_exists frame g path next) (settled g).
Proof.
  intros Hn. unfold if_exists. eapply (returns_bind_with _ _ (fun r => match r with Some g' => settled g g' | None => True end)).
  - unfold path_exists_for_mount_mutation. destruct (path =? 0); [by apply returns_ret, settled_failure|]. do 2 (apply returns_bind; intros ?).
    destruct (_ <? 0); [|by apply returns_ret]. eapply returns_bind_with; [apply fail_now_settled|]. intros g' Hg. by apply returns_ret.
  - intros [g'|] Hg; [by apply returns_ret|done].
Qed.

Lemma mounts_settled g : returns (K:=K) (handle_unmount frame g) (settled g) /\ returns (K:=K) (handle_funmount g) (settled g) /\
  returns (K:=K) (handle_quotactl frame g) (settled g) /\ returns (K:=K) (handle_mount frame g) (settled g).
Proof.
  unfold handle_unmount, handle_funmount, handle_quotactl, handle_mount, handle_mount_mutation_denied.
  repeat split; settle; apply if_exists_settled; settle.
Qed.

Lemma times_settled g : returns (K:=K) (handle_gettimeofday frame g) (settled g) /\ returns (K:=K) (handle_settimeofday g) (settled g) /\
  returns (K:=K) (handle_adjtime frame g) (settled g) /\ returns (K:=K) (handle_utimes frame g) (settled g) /\
  returns (K:=K) (handle_futimes frame empty_string g) (settled g).
Proof. unfold handle_gettimeofday, handle_settimeofday, handle_adjtime, handle_utimes, handle_futimes, with_times. repeat split; settle. Qed.

Lemma counts_settled g : returns (K:=K) (handle_thread_selfcounts frame g) (settled g) /\ returns (K:=K) (handle_gethostuuid g) (settled g) /\
  returns (K:=K) (handle_csops g) (settled g).
Proof.
  repeat split; [|unfold handle_gethostuuid; settle|unfold handle_csops; settle].
  assert (Hc : forall counts, returns (K:=K) (copy_thread_selfcounts g counts) (settled g)) by (intros counts; unfold copy_thread_selfcounts; settle).
  unfold handle_thread_selfcounts. apply returns_bind; intros t. repeat case_match; try apply Hc; by apply fail_settled.
Qed.

Lemma stats_settled g : (forall d f, returns (K:=K) (handle_stat_at frame g d f) (settled g)) /\ returns (K:=K) (handle_statfs_path frame g) (settled g) /\
  returns (K:=K) (handle_fstatfs_fd frame g) (settled g) /\ (forall r, returns (K:=K) (finish_stat_result frame g r) (settled g)) /\
  (forall nr, returns (K:=K) (rlimit_call g nr) (settled g)).
Proof. unfold handle_stat_at, handle_statfs_path, handle_fstatfs_fd, finish_stat_result, finish_statfs_result, rlimit_call. repeat split; intros; settle. Qed.

(** The loop over the records: what was written is not negative. *)
Lemma convert_dirents_written fuel lb result db count : forall offset out last m, 0 <= out ->
  match fst (convert_dirents fuel lb result db count offset out last m) with inl (n, _) => 0 <= n | inr e => e <> 0 end.
Proof.
  induction fuel as [|fuel IH]; intros offset out last m Ho; cbn [convert_dirents]; destruct (_ <=? offset); [done|done|done|].
  cbv zeta. repeat match goal with |- context [if ?b then _ else _] => destruct b; [done|] end. apply IH.
  unfold align8. pose proof (Z.land_nonneg (DARWIN_NAME + strnlen (lb + offset + LINUX_NAME) (u64 (load 2 (lb + offset + 16) m - LINUX_NAME)) m + 1 + 7) 0xFFFFFFF8) as [_ H].
  specialize (H ltac:(right; lia)). lia.
Qed.

Lemma getdirentries_settled g : returns (K:=K) (handle_getdirentries malloc g) (settled g).
Proof.
  unfold handle_getdirentries. cbv zeta. destruct (_ <? _); [settle|]. destruct (_ =? 0); [settle|]. do 2 (apply returns_bind; intros ?).
  destruct (_ <=? 0); [apply finish_100_settled|].
  eapply (returns_bind_with _ _ (fun r => match r with inl (n, _) => 0 <= n | inr e => e <> 0 end)).
  - intros p. unfold Range000.on_mem, hbind, hret. cbn. by apply convert_dirents_written.
  - intros [[n last]|e] He; [|by apply fail_settled]. settle.
Qed.
End calls.

(** The calls whose successful result may be negative: a nice value and the
    limits that do not exist. *)
Definition signed_calls : list Z := [100; 191; 192].

Definition range_100_answer (g g' : syscall_gate_state) : Prop :=
  settled g g' \/ (In (gs_x g 16) signed_calls /\ exists v, answer g g' false v).

Section signed.
Context {K : kernel} (frame : Z).
Implicit Types (g : syscall_gate_state).

Definition settled_or_signed g g' : Prop := settled g g' \/ exists v, answer g g' false v.

Lemma signed_ok g v : settled_or_signed g (set_success g v).
Proof. right. exists v. apply answer_success. Qed.

Lemma signed_weaken g (m : host guest_vm_table K syscall_gate_state) : returns m (settled g) -> returns m (settled_or_signed g).
Proof. intros H p. left. apply H. Qed.

Lemma getpriority_signed g : returns (K:=K) (handle_getpriority g) (settled_or_signed g).
Proof.
  unfold handle_getpriority. do 2 (apply returns_bind; intros ?). destruct (_ <? 0); [apply signed_weaken, fail_now_settled|apply returns_ret, signed_ok].
Qed.

Lemma pathconf_signed g call call_fs : returns (K:=K) (pathconf frame g call call_fs) (settled_or_signed g).
Proof.
  unfold pathconf. do 2 (apply returns_bind; intros ?). destruct (_ <? 0); [apply signed_weaken, fail_now_settled|].
  do 5 (apply returns_bind; intros ?). destruct (pathconf_value_from_statfs _ _ _); [apply returns_ret, signed_ok|apply signed_weaken, einval_settled].
Qed.
End signed.

Section dispatch.
Context {K : kernel} (frame : Z) (malloc : Z -> Z) (empty_string : Z).
Implicit Types (g : syscall_gate_state).

Lemma calls_100_a_settled g next :
  gs_x g 16 <> 100 -> returns next (settled g) -> returns (K:=K) (range_100_calls_a frame empty_string g next) (settled g).
Proof.
  intros H100 Hnext. pose proof (addresses_settled (K:=K) frame g) as [? ?]. pose proof (sockopts_settled (K:=K) g) as (?&?&?).
  pose proof (times_settled (K:=K) frame empty_string g) as (?&?&?&?&?). unfold range_100_calls_a. cbv zeta. by_call_number.
Qed.

Lemma calls_100_b_settled g : gs_x g 16 <> 191 -> gs_x g 16 <> 192 -> returns (K:=K) (range_100_calls_b frame malloc g) (settled g).
Proof.
  intros H1 H2. pose proof (mounts_settled (K:=K) frame g) as (?&?&?&?). pose proof (times_settled (K:=K) frame empty_string g) as (?&?&?&?&?).
  pose proof (counts_settled (K:=K) frame g) as (?&?&?). pose proof (stats_settled (K:=K) frame g) as (?&?&?&?&?).
  pose proof (getdirentries_settled (K:=K) malloc g). unfold range_100_calls_b, handle_waitid_single_process. cbv zeta. by_call_number.
Qed.

Lemma range_100_dispatch g :
  returns (K:=K) (Range100.syscall_range_100_199_dispatch frame malloc empty_string g)
    (fun r => if (gs_x g 16 <? 100) || (199 <? gs_x g 16) then r = (false, Returned g)
              else exists g', r = (true, Returned g') /\ range_100_answer g g').
Proof.
  unfold Range100.syscall_range_100_199_dispatch. destruct (_ || _); [by apply returns_ret|].
  eapply (returns_bind_with _ _ (range_100_answer g)); [|intros g' Hg; apply returns_ret; by exists g'].
  assert (Hs : forall m : host guest_vm_table K syscall_gate_state, In (gs_x g 16) signed_calls -> returns (K:=K) m (settled_or_signed g) -> returns m (range_100_answer g)).
  { intros m Hin Hm p. destruct (Hm p) as [?|?]; [by left|right; by split]. }
  destruct (Z.eq_dec (gs_x g 16) 100) as [E|H100].
  { apply Hs; [rewrite E; cbn; tauto|]. unfold range_100_calls_a. rewrite E. apply getpriority_signed. }
  destruct (Z.eq_dec (gs_x g 16) 191) as [E|H191].
  { apply Hs; [rewrite E; cbn; tauto|]. unfold range_100_calls_a, range_100_calls_b. rewrite E. apply pathconf_signed. }
  destruct (Z.eq_dec (gs_x g 16) 192) as [E|H192].
  { apply Hs; [rewrite E; cbn; tauto|]. unfold range_100_calls_a, range_100_calls_b. rewrite E. apply pathconf_signed. }
  intros p. left. apply calls_100_a_settled; [done|by apply calls_100_b_settled].
Qed.
End dispatch.

(** ** The gate with both ranges *)

(** What becomes of a guest that makes a call up to 199. *)
Definition gate_answer (g : syscall_gate_state) (o : outcome) : Prop :=
  range_answer g o \/ exists g', o = Returned g' /\ range_100_answer g g'.

Lemma calls_to_199 {K : kernel} (R : @ranges K) frame exec_frame statics exe_path environ fuel literal malloc empty_string g
    (p : process guest_vm_table K) :
  Dispatch.syscall_range_000_099_dispatch R =
    Range000.syscall_range_000_099_dispatch frame (Execve.machgate_execve_macho_guest exec_frame statics exe_path environ fuel literal) ->
  Dispatch.syscall_range_100_199_dispatch R = Range100.syscall_range_100_199_dispatch frame malloc empty_string ->
  gs_x g 16 <= 199 ->
  gate_answer g (fst (syscall_gate_dispatch R g p)).
Proof.
  intros HR HR1 Hk. set (execve := Execve.machgate_execve_macho_guest _ _ _ _ _ _) in HR.
  assert (Hexec : forall path argv envp, returns (execve path argv envp) (fun r => r <> Some 0)) by (intros; apply Execve.execve_nonzero).
  destruct (known_call (gs_x g 16)) eqn:Hn; [left; by eapply gate_call_answered|].
  right. unfold known_call in Hn. apply orb_false_elim in Hn as [Hlo Hn%bool_decide_eq_false]. rewrite list_elem_of_In in Hn.
  rewrite gate_to_ranges by (intros [E|?]; [unfold DARWIN_SYS_exit in E; lia|done]).
  pose proof (range_000_dispatch frame execve Hexec g p) as H0. rewrite <- HR in H0. destruct (Z.ltb_spec 99 (gs_x g 16)); [|lia].
  unfold try_range, hbind. destruct (Dispatch.syscall_range_000_099_dispatch R g p) as [r p']. cbn in H0. subst r.
  pose proof (range_100_dispatch frame malloc empty_string g p') as H1. rewrite <- HR1 in H1.
  destruct (Z.ltb_spec (gs_x g 16) 100), (Z.ltb_spec 199 (gs_x g 16)); try lia. cbn [orb] in H1.
  destruct (Dispatch.syscall_range_100_199_dispatch R g p') as [[h o] p'']. destruct H1 as (g'&E&Hg). cbn in E. injection E as -> ->. by exists g'.
Qed.


(** The gate with these ranges and no other. *)
Definition with_ranges_to_199 {K : kernel} (frame : Z) : @ranges K :=
  {| Dispatch.syscall_range_000_099_dispatch := Range000.syscall_range_000_099_dispatch frame (Execve.machgate_execve_macho_guest 0x100000 0x900000 0 0 10 (fun _ => 0x800000));
     Dispatch.syscall_range_100_199_dispatch := Range100.syscall_range_100_199_dispatch frame (fun _ => 0x90000) 0x9000;
     Dispatch.syscall_range_200_399_dispatch := Dispatch.syscall_range_200_399_dispatch no_ranges;
     Dispatch.syscall_range_400_plus_dispatch := Dispatch.syscall_range_400_plus_dispatch no_ranges |}.


(** * Directory entries of the range 100 to 199 *)

Import Gate Dispatch Abi Range100.

#[local] Opaque load store memcpy set_failure set_success.

(** ** Directories in memory *)

Record dirent := mk_dirent { d_ino : Z; d_off : Z; d_type : Z; d_name : cstr }.

Definition name_len (e : dirent) : Z := Z.of_nat (length (d_name e)).
Definition dirent_ok (e : dirent) : Prop := name_len e <= 255.

(** The record of [e] in Linux's format, [reclen] bytes at [a]. *)
Record linux_record (m : bytemem) (a reclen : Z) (e : dirent) : Prop := {
  lr_ino : load 8 a m = d_ino e;
  lr_off : i64 (load 8 (a + 8) m) = d_off e;
  lr_reclen : load 2 (a + 16) m = reclen;
  lr_type : load 1 (a + 18) m = d_type e;
  lr_name : c_string 256 (a + 19) m = d_name e;
  lr_room : 20 + name_len e <= reclen;
}.

(** Records from [a] to [fin]. *)
Inductive linux_dir (m : bytemem) : Z -> list dirent -> Z -> Prop :=
  | linux_dir_nil a : linux_dir m a [] a
  | linux_dir_cons a reclen e l fin : linux_record m a reclen e -> linux_dir m (a + reclen) l fin -> linux_dir m a (e :: l) fin.

(** The same in Darwin's format: the length of the name is stored, a record is
    as long as its name needs. *)
Definition darwin_reclen (e : dirent) : Z := align8 (DARWIN_NAME + name_len e + 1).
Record darwin_record (m : bytemem) (a : Z) (e : dirent) : Prop := {
  dr_ino : load 8 a m = d_ino e;
  dr_off : i64 (load 8 (a + 8) m) = d_off e;
  dr_reclen : load 2 (a + 16) m = darwin_reclen e;
  dr_namlen : load 2 (a + 18) m = name_len e;
  dr_type : load 1 (a + 20) m = d_type e;
  dr_name : c_string 256 (a + 21) m = d_name e;
}.
Inductive darwin_dir (m : bytemem) : Z -> list dirent -> Z -> Prop :=
  | darwin_dir_nil a : darwin_dir m a [] a
  | darwin_dir_cons a e l fin : darwin_record m a e -> darwin_dir m (a + darwin_reclen e) l fin -> darwin_dir m a (e :: l) fin.

Definition darwin_size (l : list dirent) : Z := foldr (fun e n => darwin_reclen e + n) 0 l.

(** The longest prefix that fits. *)
Fixpoint fitting (room : Z) (l : list dirent) : list dirent :=
  match l with
  | [] => []
  | e :: l => if room <? darwin_reclen e then [] else e :: fitting (room - darwin_reclen e) l
  end.

(** The position after the last entry. *)
Definition last_off (start : Z) (l : list dirent) : Z := List.last (map d_off l) start.

(** ** Strings *)

(** A string moves with its bytes and its terminator. *)
Lemma c_string_moved n m m' : forall a a',
  (forall i, 0 <= i <= Z.of_nat (length (c_string n a m)) -> m' (a' + i) = m (a + i)) -> c_string n a' m' = c_string n a m.
Proof.
  induction n as [|n IH]; intros a a' Hx; [done|]. cbn [c_string] in *. pose proof (Hx 0 ltac:(lia)) as E. rewrite !Z.add_0_r in E. rewrite E.
  destruct (m a mod 256 =? 0); [done|]. f_equal. apply IH. intros i Hi. specialize (Hx (i + 1)). cbn [length] in Hx.
  rewrite <- !Z.add_assoc. rewrite (Z.add_comm 1 i). apply Hx. lia.
Qed.

(** A string that ends before the bound does not depend on it. *)
Lemma c_string_bound n n' m : forall a, (length (c_string n a m) < n)%nat -> (length (c_string n a m) < n')%nat -> c_string n' a m = c_string n a m.
Proof.
  revert n'. induction n as [|n IH]; intros n' a; [cbn; lia|]. cbn [c_string]. destruct n' as [|n']; [lia|]. cbn [c_string].
  destruct (m a mod 256 =? 0); [done|]. cbn [length]. intros H1 H2. f_equal. apply IH; lia.
Qed.

(** ** Sizes *)

Lemma align8_div v : 0 <= v -> v + 7 < 2 ^ 32 -> align8 v = 8 * ((v + 7) / 8).
Proof.
  intros H0 H1. unfold align8. change 0xFFFFFFF8 with (Z.ones 29 .<< 3). set (x := v + 7) in *.
  assert (E : x .& (Z.ones 29 .<< 3) = ((x .>> 3) .& Z.ones 29) .<< 3).
  { apply Z.bits_inj_iff'. intros k Hk. rewrite Z.land_spec, !Z.shiftl_spec, Z.land_spec by lia.
    destruct (Z.ltb_spec k 3) as [?|?]; [rewrite (Z.testbit_neg_r (Z.ones 29)) by lia; by rewrite !andb_false_r|].
    rewrite Z.shiftr_spec by lia. do 2 f_equal. lia. }
  rewrite E, Z.land_ones, Z.shiftl_mul_pow2, Z.shiftr_div_pow2 by lia. change (2 ^ 3) with 8. rewrite Z.mod_small; [lia|].
  split; [apply Z.div_pos; lia|]. apply Z.div_lt_upper_bound; lia.
Qed.

Lemma reclen_bounds e : dirent_ok e -> 22 + name_len e <= darwin_reclen e < 30 + name_len e.
Proof.
  intros He. unfold dirent_ok in He. unfold darwin_reclen, DARWIN_NAME. assert (0 <= name_len e) by (unfold name_len; lia).
  rewrite align8_div by lia. pose proof (Z.div_mod (21 + name_len e + 1 + 7) 8 ltac:(lia)). pose proof (Z.mod_pos_bound (21 + name_len e + 1 + 7) 8 ltac:(lia)). lia.
Qed.

Lemma darwin_size_nonneg l : Forall dirent_ok l -> 0 <= darwin_size l.
Proof.
  induction 1 as [|e l He Hl IH]; [done|]. unfold darwin_size in *. cbn [foldr]. pose proof (reclen_bounds e He). unfold name_len in *. lia.
Qed.

Lemma fitting_size room l : Forall dirent_ok l -> 0 <= room -> darwin_size (fitting room l) <= room.
Proof.
  intros Hl. revert room. induction Hl as [|e l He Hl IH]; intros room Hr; [done|]. cbn [fitting].
  destruct (Z.ltb_spec room (darwin_reclen e)); [done|]. unfold darwin_size in *. cbn [foldr]. specialize (IH (room - darwin_reclen e)). lia.
Qed.

Lemma fitting_ok room l : Forall dirent_ok l -> Forall dirent_ok (fitting room l).
Proof.
  intros Hl. revert room. induction Hl as [|e l He Hl IH]; intros room; [done|]. cbn [fitting]. destruct (room <? _); constructor; auto.
Qed.

(** ** One record *)

Lemma put_dirent_out entry d n r m x : 22 + n <= r -> 0 <= n -> x < d \/ d + r <= x -> put_dirent entry d n r m x = m x.
Proof.
  intros Hr Hn Hx. unfold put_dirent, memzero, DARWIN_NAME, LINUX_NAME. rewrite memcpy_out by lia. by rewrite !store_out by lia.
Qed.

Ltac past_writes := rewrite ?load_memcpy_disj by lia; rewrite ?load_store_disj by lia.

Lemma put_dirent_record m a reclen d e :
  linux_record m a reclen e -> dirent_ok e -> a + 20 + name_len e <= d \/ d + darwin_reclen e <= a ->
  darwin_record (put_dirent a d (name_len e) (darwin_reclen e) m) d e.
Proof.
  intros [H1 H2 H3 H4 H5 H6] He Hdis. pose proof (reclen_bounds e He) as Hb. assert (Hn : 0 <= name_len e <= 255) by (unfold dirent_ok, name_len in *; lia).
  unfold put_dirent, memzero, DARWIN_NAME, LINUX_NAME. constructor.
  - past_writes. rewrite load_store_same, load_store_disj, H1 by lia. rewrite <- H1. apply Z.mod_small. change (8 * 8) with 64. by apply (load_range 8).
  - past_writes. rewrite load_store_same by lia. past_writes. rewrite Z.mod_small by (apply (load_range 8); lia). exact H2.
  - past_writes. rewrite load_store_same by lia. apply Z.mod_small. change (2 ^ (8 * 2)) with 65536. lia.
  - past_writes. rewrite load_store_same by lia. apply Z.mod_small. change (2 ^ (8 * 2)) with 65536. lia.
  - past_writes. rewrite load_store_same by lia. past_writes. rewrite H4. rewrite <- H4. apply Z.mod_small. by apply (load_range 1).
  - rewrite <- H5. apply c_string_moved. rewrite H5. fold (name_len e). intros i Hi. Transparent memcpy. unfold memcpy. Opaque memcpy.
    destruct (Z.leb_spec (d + 21) (d + 21 + i)), (Z.ltb_spec (d + 21 + i) (d + 21 + (name_len e + 1))); try lia. cbn [andb].
    rewrite !store_out by lia. f_equal. lia.
Qed.

(** Directories do not depend on other memory. *)
Lemma linux_record_ext m m' a reclen e : dirent_ok e -> (forall x, a <= x < a + reclen -> m' x = m x) -> linux_record m a reclen e -> linux_record m' a reclen e.
Proof.
  intros He Hx [H1 H2 H3 H4 H5 H6]. assert (Hn : 0 <= name_len e) by (unfold name_len; lia).
  assert (Hl : forall k n, 0 <= k -> k + n <= 20 -> load n (a + k) m' = load n (a + k) m) by (intros k n Hk Hkn; apply load_ext; intros x Hr; apply Hx; lia).
  constructor; [rewrite <- (Z.add_0_r a), Hl, Z.add_0_r; [done|lia|lia]|rewrite Hl; [done|lia|lia]|rewrite Hl; [done|lia|lia]|rewrite Hl; [done|lia|lia]| |done].
  rewrite <- H5. apply c_string_moved. rewrite H5. fold (name_len e). intros i Hi. apply Hx. lia.
Qed.

Lemma linux_dir_ext m m' a l fin : linux_dir m a l fin -> Forall dirent_ok l -> (forall x, a <= x < fin -> m' x = m x) -> linux_dir m' a l fin /\ a <= fin.
Proof.
  induction 1 as [a|a reclen e l fin Hr Hd IH]; intros Hl Hx; [by split; [constructor|lia]|]. apply Forall_cons in Hl as [He Hl].
  assert (20 <= reclen) by (pose proof (lr_room _ _ _ _ Hr); unfold name_len in *; lia).
  destruct IH as [IH Hle]; [done|intros x Hr'; apply Hx; lia|]. split; [|lia].
  econstructor; [|exact IH]. eapply linux_record_ext; [done| |done]. intros x Hx'. apply Hx. lia.
Qed.

Lemma darwin_record_ext m m' a e : dirent_ok e -> (forall x, a <= x < a + darwin_reclen e -> m' x = m x) -> darwin_record m a e -> darwin_record m' a e.
Proof.
  intros He Hx [H1 H2 H3 H4 H5 H6]. pose proof (reclen_bounds e He) as Hb. assert (Hn : 0 <= name_len e) by (unfold name_len; lia).
  assert (Hl : forall k n, 0 <= k -> k + n <= 22 -> load n (a + k) m' = load n (a + k) m) by (intros k n Hk Hkn; apply load_ext; intros x Hr; apply Hx; lia).
  constructor; [rewrite <- (Z.add_0_r a), Hl, Z.add_0_r; [done|lia|lia]|rewrite Hl; [done|lia|lia]|rewrite Hl; [done|lia|lia]|rewrite Hl; [done|lia|lia]|rewrite Hl; [done|lia|lia]|].
  rewrite <- H6. apply c_string_moved. rewrite H6. fold (name_len e). intros i Hi. apply Hx. lia.
Qed.

Lemma linux_dir_nonempty m a l fin : linux_dir m a l fin -> a <= fin /\ (l <> [] -> a < fin).
Proof.
  induction 1 as [a|a reclen e l fin Hr Hd [IH _]]; [done|]. pose proof (lr_room _ _ _ _ Hr). unfold name_len in *. split; [lia|]. intros _. lia.
Qed.

(** ** The loop *)

Lemma record_name_length m a reclen e : linux_record m a reclen e -> dirent_ok e ->
  0 <= reclen < 65536 /\ strnlen (a + LINUX_NAME) (u64 (reclen - LINUX_NAME)) m = name_len e /\ u64 (reclen - LINUX_NAME) = reclen - 19.
Proof.
  intros [H1 H2 H3 H4 H5 H6] He. pose proof (load_range 2 (a + 16) m ltac:(lia)) as Hr. rewrite H3 in Hr. change (2 ^ (8 * 2)) with 65536 in Hr.
  unfold LINUX_NAME. rewrite u64_small by (unfold name_len in *; lia). split; [done|]. split; [|done]. unfold dirent_ok, name_len in *.
  unfold strnlen. rewrite (c_string_bound 256), H5; rewrite ?H5; lia.
Qed.

Lemma last_off_cons start e l : last_off start (e :: l) = last_off (d_off e) l.
Proof. unfold last_off. cbn [map]. generalize (d_off e). induction (map d_off l) as [|o f IH]; [done|]. intros z. cbn [List.last] in *. destruct f; [done|]. apply IH. Qed.

Lemma convert_dirents_spec fuel lb result db count : forall l offset out last m,
  linux_dir m (lb + offset) l (lb + result) -> Forall dirent_ok l -> (length l <= fuel)%nat ->
  0 <= out <= count -> db + count <= lb + offset \/ lb + result <= db + out ->
  let f := fitting (count - out) l in
  let '(r, m') := convert_dirents fuel lb result db count offset out last m in
  r = inl (out + darwin_size f, last_off last f) /\ darwin_dir m' (db + out) f (db + out + darwin_size f) /\
  (forall x, x < db + out \/ db + out + darwin_size f <= x -> m' x = m x).
Proof.
  induction fuel as [|fuel IH]; intros l offset out last m Hd Hl Hf Ho Hdis f.
  - destruct l as [|e l]; [|cbn in Hf; lia]. inversion Hd. cbn [convert_dirents]. destruct (Z.leb_spec result offset); [|lia].
    subst f. cbn. rewrite !Z.add_0_r. split; [done|]. by split; [constructor|].
  - destruct l as [|e l].
    { inversion Hd. cbn [convert_dirents]. destruct (Z.leb_spec result offset); [|lia]. subst f. cbn. rewrite !Z.add_0_r. split; [done|]. by split; [constructor|]. }
    pose proof (linux_dir_nonempty _ _ _ _ Hd) as [_ Hlt]. specialize (Hlt ltac:(done)).
    inversion Hd as [|a reclen e' l' fin Hr Hd' Ea El Ef]. subst a e' l' fin. apply Forall_cons in Hl as [He Hl].
    destruct (record_name_length _ _ _ _ Hr He) as (Hrange&Hname&Hav). pose proof (reclen_bounds e He) as Hb. pose proof (lr_room _ _ _ _ Hr) as Hroom.
    assert (Hn : 0 <= name_len e <= 255) by (unfold dirent_ok, name_len in *; lia). pose proof (linux_dir_nonempty _ _ _ _ Hd') as [Hfin _].
    cbn [convert_dirents]. destruct (Z.leb_spec result offset); [lia|]. cbv zeta. rewrite (lr_reclen _ _ _ _ Hr).
    destruct (Z.eqb_spec reclen 0); [lia|]. destruct (Z.ltb_spec result (offset + reclen)); [lia|]. cbn [orb]. rewrite Hname, Hav.
    destruct (Z.leb_spec (reclen - 19) (name_len e)); [lia|]. fold (darwin_reclen e). destruct (Z.ltb_spec 65535 (darwin_reclen e)); [lia|]. cbn [orb].
    subst f. cbn [fitting]. destruct (Z.ltb_spec count (out + darwin_reclen e)), (Z.ltb_spec (count - out) (darwin_reclen e)); try lia.
    { cbn. rewrite !Z.add_0_r. split; [done|]. by split; [constructor|]. }
    set (m1 := put_dirent _ _ _ _ m). assert (Hout : forall x, x < db + out \/ db + out + darwin_reclen e <= x -> m1 x = m x) by (intros x Hx; apply put_dirent_out; lia).
    destruct (linux_dir_ext m m1 _ _ _ Hd' Hl) as [Hd1 _]; [intros x Hx; apply Hout; lia|].
    rewrite <- Z.add_assoc in Hd1. specialize (IH l (offset + reclen) (out + darwin_reclen e) (i64 (load 8 (lb + offset + 8) m)) m1 Hd1 Hl
      ltac:(cbn in Hf; lia) ltac:(lia) ltac:(lia)). cbv zeta in IH. replace (count - (out + darwin_reclen e)) with (count - out - darwin_reclen e) in IH by lia.
    set (f := fitting (count - out - darwin_reclen e) l) in *. destruct (convert_dirents fuel _ _ _ _ _ _ _ m1) as [r m']. destruct IH as (E1&E2&E3).
    assert (Hs : darwin_size (e :: f) = darwin_reclen e + darwin_size f) by done. rewrite Hs.
    pose proof (darwin_size_nonneg f ltac:(by apply fitting_ok)). split; [|split].
    + rewrite E1. f_equal. f_equal; [lia|]. by rewrite last_off_cons, (lr_off _ _ _ _ Hr).
    + replace (db + out + (darwin_reclen e + darwin_size f)) with (db + (out + darwin_reclen e) + darwin_size f) by lia.
      econstructor; [|replace (db + out + darwin_reclen e) with (db + (out + darwin_reclen e)) by lia; exact E2].
      eapply darwin_record_ext; [done| |eapply put_dirent_record; [exact Hr|done|lia]]. intros x Hx. apply E3. lia.
    + intros x Hx. rewrite E3 by lia. apply Hout. lia.
Qed.

Lemma linux_dir_length m a l fin : linux_dir m a l fin -> Z.of_nat (length l) <= fin - a.
Proof.
  induction 1 as [a|a reclen e l fin Hr Hd IH]; [cbn; lia|]. pose proof (lr_room _ _ _ _ Hr). unfold name_len in *. cbn [length]. lia.
Qed.

Lemma darwin_size_pos l : Forall dirent_ok l -> l <> [] -> 0 < darwin_size l.
Proof.
  intros Hl Hne. destruct Hl as [|e l He Hl]; [done|]. pose proof (reclen_bounds e He). pose proof (darwin_size_nonneg l Hl).
  unfold darwin_size in *. cbn [foldr]. unfold name_len in *. lia.
Qed.

Lemma darwin_dir_ext m m' a l fin : darwin_dir m a l fin -> Forall dirent_ok l -> (forall x, a <= x < fin -> m' x = m x) -> darwin_dir m' a l fin.
Proof.
  induction 1 as [a|a e l fin Hr Hd IH]; intros Hl Hx; [constructor|]. apply Forall_cons in Hl as [He Hl]. pose proof (reclen_bounds e He) as Hb.
  assert (Hfin : forall a l fin, darwin_dir m a l fin -> Forall dirent_ok l -> a <= fin).
  { induction 1 as [|? e' ? ? ? ? IH']; [lia|]. intros [He' Hl']%Forall_cons. pose proof (reclen_bounds e' He'). specialize (IH' Hl'). unfold name_len in *. lia. }
  specialize (Hfin _ _ _ Hd Hl). unfold name_len in *. econstructor.
  - eapply darwin_record_ext; [done| |done]. intros x Hr'. apply Hx. lia.
  - apply IH; [done|]. intros x Hr'. apply Hx. lia.
Qed.

Lemma st_run {K : kernel} n a v (p : process guest_vm_table K) : Range000.st n a v p = (tt, with_mem (store n a v (p_mem p)) p).
Proof. done. Qed.

(** C26. getdirentries hands the guest the directory the kernel read.  When Linux
    put the entries [l] into the buffer of the call, the guest's buffer holds,
    in Darwin's record format, the longest prefix of [l] that fits, entry for
    entry with its inode, position, type and name; the result is the size of
    these records, the base pointer receives the position of the last one, and
    no other memory of the guest is written.  When not even the first entry
    fits the call fails and writes nothing. *)
Theorem getdirentries_refines {K : kernel} malloc g (p : process guest_vm_table K) n m1 k1 l :
  let db := gs_x g 1 in
  let count := u32 (gs_x g 2) in
  let lb := malloc count in
  let basep := gs_x g 3 in
  23 <= count -> lb <> 0 -> db + count <= lb \/ lb + count <= db -> basep + 8 <= db \/ db + count <= basep ->
  k_syscall K SYS_getdents64 [i32 (gs_x g 0); lb; count] (p_mem p) (p_kernel p) = (inl n, m1, k1) -> n <= count ->
  linux_dir m1 lb l (lb + n) -> Forall dirent_ok l -> l <> [] ->
  let f := fitting count l in
  let '(g', p') := handle_getdirentries malloc g p in
  if decide (f = []) then g' = set_failure g DARWIN_EINVAL /\ forall x, p_mem p' x = m1 x
  else
    g' = set_success g (darwin_size f) /\ darwin_dir (p_mem p') db f (db + darwin_size f) /\
    (basep <> 0 -> load 8 basep (p_mem p') = u64 (last_off 0 f)) /\
    (forall x, x < db \/ db + darwin_size f <= x -> basep = 0 \/ x < basep \/ basep + 8 <= x -> p_mem p' x = m1 x).
Proof.
  intros db count lb basep Hc Hlb Hdis Hbase Hk Hn Hd Hl Hne f. unfold handle_getdirentries. fold count. fold lb.
  pose proof (linux_dir_nonempty _ _ _ _ Hd) as [_ Hpos]. specialize (Hpos Hne). pose proof (linux_dir_length _ _ _ _ Hd) as Hlen.
  unfold DARWIN_NAME. destruct (Z.ltb_spec count (21 + 2)); [lia|]. destruct (Z.eqb_spec lb 0); [done|].
  unfold hbind at 1 2. cbn [set_errno]. unfold syscall. cbn [p_mem p_kernel with_errno]. rewrite Hk. destruct (Z.leb_spec n 0); [lia|].
  rewrite on_mem_bind. cbn [p_mem with_mem with_kernel].
  pose proof (convert_dirents_spec (Z.to_nat n) lb n db count l 0 0 0 m1) as Hs. rewrite !Z.add_0_r, Z.sub_0_r in Hs.
  specialize (Hs Hd Hl ltac:(lia) ltac:(lia) ltac:(lia)). cbv zeta in Hs. fold f in Hs. fold db.
  destruct (convert_dirents _ _ _ _ _ _ _ _ m1) as [r m2]. destruct Hs as (->&Hdir&Hsame). cbn [fst snd]. rewrite Z.add_0_l.
  pose proof (fitting_ok count l Hl) as Hok. pose proof (fitting_size count l Hl ltac:(lia)) as Hfs. fold f in Hok, Hfs. clearbody f.
  destruct (decide (f = [])) as [->|Hf]; [cbn; split; [done|]; intros x; apply Hsame; cbn; lia|].
  assert (Hsize : 0 < darwin_size f) by (by apply darwin_size_pos). destruct (Z.eqb_spec (darwin_size f) 0); [lia|]. fold basep.
  destruct (Z.eqb_spec basep 0) as [E|Hb0].
  - rewrite E. cbn. split; [done|]. split; [done|]. split; [done|]. intros x Hx _. by apply Hsame.
  - rewrite nz_true by done. unfold hbind at 1. rewrite st_run. split; [done|]. cbn [p_mem with_mem].
    assert (Hout : forall x, x < basep \/ basep + 8 <= x -> store 8 basep (last_off 0 f) m2 x = m2 x) by (intros x Hx; by apply store_out).
    split; [|split].
    + eapply darwin_dir_ext; [exact Hdir|done|]. intros x Hx. apply Hout. lia.
    + intros _. rewrite load_store_same by lia. done.
    + intros x Hx1 [Hx2|Hx2]; [lia|]. rewrite Hout by lia. by apply Hsame.
Qed.

#[local] Transparent load store memcpy set_failure set_success.

(** ** A directory *)

(** A record as Linux writes it, 24 bytes. *)
Definition linux_bytes (e : dirent) : list Z :=
  Leb128.le_bytes 8 (d_ino e) ++ Leb128.le_bytes 8 (d_off e) ++ Leb128.le_bytes 2 24 ++ [d_type e] ++ map code (d_name e) ++
  repeat 0 (5 - length (d_name e)).

Definition demo_dir : list dirent := [mk_dirent 11 1 8 (str "abcd"); mk_dirent 12 2 4 (str "efgh"); mk_dirent 13 3 8 (str "ijkl")].

(** A kernel with this directory: the first call reads it, the next ones are at
    its end. *)
Definition dir_kernel : kernel :=
  {| kstate := bool;
     k_syscall nr args m k :=
       match args with
       | [_; buf; _] => if k then (inl 0, m, true) else (inl 72, Leb128.place buf (concat (map linux_bytes demo_dir)) m, true)
       | _ => (inr EINVAL, m, k)
       end;
     k_fstat _ k := (inr EINVAL, k); k_statfs _ k := (inr EINVAL, k); k_mounts k := (inr EINVAL, k);
     k_sigpending k := (inr EINVAL, k); k_sigaltstack _ k := (inr EINVAL, k) |}.
Definition dir_proc : process guest_vm_table dir_kernel := @mk_proc _ dir_kernel false 0 (fun _ => default_action) 0 (fun _ => 0) [] [] 1.

(** getdirentries(3, 0x1000, [count], 0x800) *)
Definition dir_call (count : Z) : syscall_gate_state :=
  mk_gs (fun r => match r with 0 => 3 | 1 => 0x1000 | 2 => count | 3 => 0x800 | 16 => 196 | _ => 0 end) 0 0 0.

Definition demo_mem : bytemem := Leb128.place 0x9000 (concat (map linux_bytes demo_dir)) (fun _ => 0).

Lemma demo_linux_dir : linux_dir demo_mem 0x9000 demo_dir (0x9000 + 72).
Proof.
  unfold demo_dir. eapply (linux_dir_cons _ _ 24); [constructor; vm_compute; done|]. eapply (linux_dir_cons _ _ 24); [constructor; vm_compute; done|].
  eapply (linux_dir_cons _ _ 24); [constructor; vm_compute; done|]. apply linux_dir_nil.
Qed.

Lemma getdirentries_refines_witness :
  let '(g', p') := handle_getdirentries (fun _ => 0x9000) (dir_call 100) dir_proc in
  g' = set_success (dir_call 100) 96 /\ darwin_dir (p_mem p') 0x1000 demo_dir (0x1000 + 96) /\ load 8 0x800 (p_mem p') = 3.
Proof.
  pose proof (getdirentries_refines (fun _ => 0x9000) (dir_call 100) dir_proc 72 demo_mem true demo_dir) as H.
  change (u32 (gs_x (dir_call 100) 2)) with 100 in H. change (gs_x (dir_call 100) 1) with 0x1000 in H. change (gs_x (dir_call 100) 3) with 0x800 in H.
  specialize (H ltac:(lia) ltac:(lia) ltac:(lia) ltac:(lia) eq_refl ltac:(lia) demo_linux_dir).
  assert (Hok : Forall dirent_ok demo_dir) by (unfold demo_dir; rewrite !Forall_cons; by repeat split).
  specialize (H Hok ltac:(discriminate)). change (fitting 100 demo_dir) with demo_dir in H. cbv zeta in H.
  destruct (handle_getdirentries _ _ _) as [g' p']. destruct (decide (demo_dir = [])) as [E|_]; [discriminate E|].
  destruct H as (H1&H2&H3&_). split; [exact H1|]. split; [exact H2|]. rewrite H3 by lia. reflexivity.
Defined.

(** Entries are lost when Linux's records fill the buffer: three records of 24
    bytes are read, Darwin's take 32 bytes each, the third does not fit, and
    the next call is at the end of the directory. *)
Example getdirentries_loses_entries :
  let call := handle_getdirentries (fun _ => 0x9000) (dir_call 72) in
  let '(g1, p1) := call dir_proc in
  let '(g2, _) := call p1 in
  gs_x g1 0 = darwin_size (firstn 2 demo_dir) /\ fitting 72 demo_dir = firstn 2 demo_dir /\ gs_x g2 0 = 0.
Proof. vm_compute. done. Qed.

(** ** Times *)

(** utimes(0x500, 0x1000) with Darwin times of 5 microseconds: the four bytes
    of padding after the second microseconds field are not zero. *)
Definition padded_times : process guest_vm_table dir_kernel :=
  @mk_proc _ dir_kernel false 0 (fun _ => default_action) 0 (store 4 0x101c 1 (store 4 0x1018 5 (store 4 0x1008 5 (fun _ => 0)))) [] [] 1.
Definition utimes_call : syscall_gate_state := mk_gs (fun r => match r with 0 => 0x500 | 1 => 0x1000 | 16 => 138 | _ => 0 end) 0 0 0.

(** utimes takes the padding for part of the microseconds and refuses valid
    times. *)
Example utimes_reads_padding :
  load 4 0x1008 (p_mem padded_times) = 5 /\ load 4 0x1018 (p_mem padded_times) = 5 /\
  gs_x (fst (handle_utimes 0x7000 utimes_call padded_times)) 0 = DARWIN_EINVAL.
Proof. vm_compute. done. Qed.
