(* ===== verification/Range400.v ===== *)
(** * System calls from 400 on, first part: src/syscall/syscall_range_400_plus.c

    The statics of the file, its table of error numbers, and the handlers that
    keep state: guarded descriptors, ports of files, workloops of kqueue.  As in
    Range000.v, locals whose address goes to the kernel live in memory from
    [frame] on. *)

From S2P Require Import Prelude CStr Host GateIsland GateDispatch DarwinAbi Range000 Range100 Range200 Range200Files.
Import Gate Dispatch Abi.

Module Range400.

(** Numbers of the Linux and the Darwin headers. *)
Definition FD_CLOEXEC : Z := 1.
Definition F_DUPFD_CLOEXEC : Z := 1030.
Definition DARWIN_O_SYMLINK : Z := 0x00200000.
Definition O_PATH : Z := 0x200000.
Definition DARWIN_EBADF : Z := 9.
Definition DARWIN_ENOMEM : Z := 12.
Definition DARWIN_EEXIST : Z := 17.
Definition DARWIN_FD_CLOEXEC : Z := 1.
Definition DARWIN_FD_CLOFORK : Z := 2.
Definition DARWIN_GUARD_CLOSE : Z := 1.
Definition DARWIN_GUARD_REQUIRED : Z := 2.
Definition DARWIN_GUARD_ALL : Z := 0x1f.
Definition MACHGATE_FD_GUARD_MAX : Z := 1024.
Definition MACHGATE_FILEPORT_BASE : Z := 0x4f000000.
Definition MACHGATE_FILEPORT_MAX : Z := 64.
Definition MACHGATE_KQUEUE_WORKLOOP_MAX : Z := 64.

(** Linux numbers on the left; a number the switch does not name is EIO. *)
Definition linux_errno_to_darwin (err : Z) : Z :=
  match err with
  | 1 => 1 | 2 => 2 | 3 => 3 | 4 => 4 | 5 => 5 | 6 => 6 | 7 => 7 | 8 => 8 | 9 => 9 | 10 => 10
  | 11 => 35                (* EAGAIN *)
  | 35 => 11                (* EDEADLK *)
  | 12 => 12 | 13 => 13 | 14 => 14 | 15 => 15 | 16 => 16 | 17 => 17 | 18 => 18 | 19 => 19 | 20 => 20 | 21 => 21 | 22 => 22
  | 23 => 23 | 24 => 24 | 25 => 25 | 26 => 26 | 27 => 27 | 28 => 28 | 29 => 29 | 30 => 30 | 31 => 31 | 32 => 32 | 33 => 33 | 34 => 34
  | 115 => 36               (* EINPROGRESS *)
  | 114 => 37               (* EALREADY *)
  | 88 => 38                (* ENOTSOCK *)
  | 89 => 39                (* EDESTADDRREQ *)
  | 90 => 40                (* EMSGSIZE *)
  | 91 => 41                (* EPROTOTYPE *)
  | 92 => 42                (* ENOPROTOOPT *)
  | 93 => 43                (* EPROTONOSUPPORT *)
  | 94 => 44                (* ESOCKTNOSUPPORT *)
  | 95 => 45                (* ENOTSUP *)
  | 96 => 46                (* EPFNOSUPPORT *)
  | 97 => 47                (* EAFNOSUPPORT *)
  | 98 => 48                (* EADDRINUSE *)
  | 99 => 49                (* EADDRNOTAVAIL *)
  | 100 => 50               (* ENETDOWN *)
  | 101 => 51               (* ENETUNREACH *)
  | 102 => 52               (* ENETRESET *)
  | 103 => 53               (* ECONNABORTED *)
  | 104 => 54               (* ECONNRESET *)
  | 105 => 55               (* ENOBUFS *)
  | 106 => 56               (* EISCONN *)
  | 107 => 57               (* ENOTCONN *)
  | 108 => 58               (* ESHUTDOWN *)
  | 109 => 59               (* ETOOMANYREFS *)
  | 110 => 60               (* ETIMEDOUT *)
  | 111 => 61               (* ECONNREFUSED *)
  | 40 => 62                (* ELOOP *)
  | 36 => 63                (* ENAMETOOLONG *)
  | 112 => 64               (* EHOSTDOWN *)
  | 113 => 65               (* EHOSTUNREACH *)
  | 39 => 66                (* ENOTEMPTY *)
  | 87 => 68                (* EUSERS *)
  | 122 => 69               (* EDQUOT *)
  | 116 => 70               (* ESTALE *)
  | 66 => 71                (* EREMOTE *)
  | 37 => 77                (* ENOLCK *)
  | 38 => DARWIN_ENOSYS
  | _ => DARWIN_EIO
  end.

(** As the others translate, and O_SYMLINK. *)
Definition translate_open_flags (darwin_flags : Z) : Z :=
  let linux_flags := darwin_flags .& O_ACCMODE in
  let linux_flags := map_bit darwin_flags DARWIN_O_NONBLOCK O_NONBLOCK linux_flags in
  let linux_flags := map_bit darwin_flags DARWIN_O_APPEND O_APPEND linux_flags in
  let linux_flags := map_bit darwin_flags DARWIN_O_NOFOLLOW O_NOFOLLOW linux_flags in
  let linux_flags := map_bit darwin_flags DARWIN_O_CREAT O_CREAT linux_flags in
  let linux_flags := map_bit darwin_flags DARWIN_O_TRUNC O_TRUNC linux_flags in
  let linux_flags := map_bit darwin_flags DARWIN_O_EXCL O_EXCL linux_flags in
  let linux_flags := map_bit darwin_flags DARWIN_O_NOCTTY O_NOCTTY linux_flags in
  let linux_flags := map_bit darwin_flags DARWIN_O_DIRECTORY O_DIRECTORY linux_flags in
  let linux_flags := map_bit darwin_flags DARWIN_O_DSYNC O_DSYNC linux_flags in
  let linux_flags := map_bit darwin_flags DARWIN_O_CLOEXEC O_CLOEXEC linux_flags in
  map_bit darwin_flags DARWIN_O_SYMLINK (O_PATH .| O_NOFOLLOW) linux_flags.

(** ** The statics *)

(** [struct machgate_fileport_entry]; port 0: the entry is free. *)
Record fileport_entry := mk_port { port_name : Z; port_fd : Z }.
(** [struct machgate_fd_guard_entry] *)
Record fd_guard_entry := mk_guard { g_fd : Z; g_guard : Z; g_guardflags : Z; g_fdflags : Z; g_in_use : bool }.
(** [struct machgate_kqueue_workloop_entry] *)
Record kqueue_workloop_entry := mk_workloop { w_id : Z; w_fd : Z; w_in_use : bool }.

(** With the statics of the calls 200 to 399, which some calls are handed to. *)
Record statics := mk_statics {
  range_200 : Range200.statics;
  fileport_entries : list fileport_entry;
  fd_guard_entries : list fd_guard_entry;
  kqueue_workloop_entries : list kqueue_workloop_entry;
}.

Definition with_range_200 (r : Range200.statics) (s : statics) : statics :=
  mk_statics r (fileport_entries s) (fd_guard_entries s) (kqueue_workloop_entries s).
Definition with_ports (l : list fileport_entry) (s : statics) : statics :=
  mk_statics (range_200 s) l (fd_guard_entries s) (kqueue_workloop_entries s).
Definition with_guards (l : list fd_guard_entry) (s : statics) : statics :=
  mk_statics (range_200 s) (fileport_entries s) l (kqueue_workloop_entries s).
Definition with_workloops (l : list kqueue_workloop_entry) (s : statics) : statics :=
  mk_statics (range_200 s) (fileport_entries s) (fd_guard_entries s) l.

(** The tables at program start. *)
Definition no_port : fileport_entry := mk_port 0 0.
Definition no_guard : fd_guard_entry := mk_guard 0 0 0 0 false.
Definition no_workloop : kqueue_workloop_entry := mk_workloop 0 0 false.
Definition statics_initial : statics :=
  mk_statics Range200.statics_initial (replicate 64 no_port) (replicate 1024 no_guard) (replicate 64 no_workloop).

(** ** The tables *)

Definition fd_guard_flags_are_valid (guardflags : Z) : bool :=
  (guardflags .& DARWIN_GUARD_REQUIRED =? DARWIN_GUARD_REQUIRED) && (guardflags .& Z.lnot DARWIN_GUARD_ALL =? 0).

Definition fd_guard_entry_for_fd (fd : Z) (l : list fd_guard_entry) : option nat :=
  Range200.find_slot (fun e => g_in_use e && (g_fd e =? fd)) l.
Definition fd_guard_remove (fd : Z) (l : list fd_guard_entry) : list fd_guard_entry :=
  match fd_guard_entry_for_fd fd l with Some i => <[i := no_guard]> l | None => l end.

(** The entry [fd_guard_register] fills, once the old one is removed. *)
Definition fd_guard_free_entry (l : list fd_guard_entry) : option nat := Range200.find_slot (fun e => negb (g_in_use e)) l.

Definition read_guard_value (guard : Z) (m : bytemem) : Z := if guard =? 0 then 0 else load 8 guard m.

Definition fileport_index_for_port (port : Z) (l : list fileport_entry) : option nat := Range200.find_slot (fun e => port_name e =? port) l.

Definition kqueue_workloop_find (id : Z) (l : list kqueue_workloop_entry) : option nat :=
  Range200.find_slot (fun e => w_in_use e && (w_id e =? id)) l.
Definition kqueue_workloop_free_entry (l : list kqueue_workloop_entry) : option nat := Range200.find_slot (fun e => negb (w_in_use e)) l.

Definition darwin_policy_is_valid (policy : Z) : bool := (policy =? 1) || (policy =? 2) || (policy =? 4).

(** The packed structure: version 0, flags 4, id 8, sched_pri 16, sched_pol 20,
    cpu_percent 24, cpu_refillms 28.  0, or the error number. *)
Definition kqueue_workloop_params_are_valid (params : Z) (m : bytemem) : Z :=
  let field k := i32 (load 4 (params + k) m) in
  let flags := field 4 in
  if flags =? 0 then DARWIN_EINVAL
  else if nz (flags .& Z.lnot 0x1f) then DARWIN_EINVAL
  else if nz (flags .& 1) && ((field 16 <? 1) || (63 <? field 16)) then DARWIN_EINVAL
  else if nz (flags .& 2) && negb (darwin_policy_is_valid (field 20)) then DARWIN_EINVAL
  else if nz (flags .& 4) && ((field 24 <=? 0) || (100 <? field 24) || (field 28 <=? 0) || (0x00ffffff <? field 28)) then DARWIN_EINVAL
  else if nz (flags .& 0x18) then DARWIN_ENOTSUP
  else 0.

Section range.
Context {K : kernel}.
Local Abbreviation hostm := (host statics K).
Local Open Scope host_scope.
Implicit Types g : syscall_gate_state.

(** Reads and writes of memory and of the statics. *)
Definition ld (n a : Z) : hostm Z := let* m := get_mem in hret (load n a m).
Definition on_mem {A} (f : bytemem -> A * bytemem) : hostm A :=
  let* m := get_mem in let r := f m in do* set_mem (snd r) in hret (fst r).
Definition write (f : bytemem -> bytemem) : hostm unit := on_mem (fun m => (tt, f m)).
Definition st (n a v : Z) : hostm unit := write (store n a v).
Definition on_statics (f : statics -> statics) : hostm unit := let* s := get_vm in set_vm (f s).
Definition on_guards (f : list fd_guard_entry -> list fd_guard_entry) : hostm unit := on_statics (fun s => with_guards (f (fd_guard_entries s)) s).

(** Code of syscall_range_200_399.c, which has statics of its own. *)
Definition in_range_200 {A} (m : host Range200.statics K A) : hostm A := fun p =>
  let '(a, q) := m (mk_proc (p_kernel p) (p_errno p) (p_actions p) (p_mask p) (p_mem p) (range_200 (p_vm p)) (p_login p) (p_first_pid p)) in
  (a, mk_proc (p_kernel q) (p_errno q) (p_actions q) (p_mask q) (p_mem q) (with_range_200 (p_vm q) (p_vm p)) (p_login q) (p_first_pid q)).

(** [errno ? errno : EIO] *)
Definition errno_or_eio : hostm Z := let* e := get_errno in hret (if nz e then e else EIO).
Definition set_errno_failure g : hostm syscall_gate_state := let* e := errno_or_eio in hret (set_failure g (linux_errno_to_darwin e)).
Definition failed g (e : Z) : hostm syscall_gate_state := hret (set_failure g e).
Definition done g : hostm syscall_gate_state := hret (set_success g 0).
Definition set_deferred_enosys g : hostm syscall_gate_state := failed g DARWIN_ENOSYS.
Definition set_unsupported_feature g : hostm syscall_gate_state := failed g DARWIN_ENOTSUP.

Definition finish_syscall_result g (result : Z) : hostm syscall_gate_state :=
  if result <? 0 then set_errno_failure g else hret (set_success g result).

(** [errno = 0; finish_syscall_result(state, syscall(nr, args))] *)
Definition forward g (nr : Z) (args : list Z) : hostm syscall_gate_state :=
  do* set_errno 0 in let* result := syscall nr args in finish_syscall_result g result.

Definition fd_is_valid (fd : Z) : hostm bool :=
  do* set_errno 0 in let* r := syscall Range000.SYS_fcntl [fd; Range000.F_GETFD] in hret (0 <=? r).

(** ** Guarded descriptors *)

Definition fd_guard_current_flags (fd guardflags : Z) : hostm Z :=
  do* set_errno 0 in
  let* result := syscall Range000.SYS_fcntl [fd; Range000.F_GETFD] in
  let fdflags := if (0 <=? result) && nz (result .& FD_CLOEXEC) then DARWIN_FD_CLOEXEC else 0 in
  hret (map_bit guardflags DARWIN_GUARD_CLOSE DARWIN_FD_CLOFORK fdflags).

Definition fd_guard_set_linux_cloexec (fd darwin_fdflags : Z) : hostm bool :=
  do* set_errno 0 in
  let* result := syscall Range000.SYS_fcntl [fd; Range000.F_GETFD] in
  if result <? 0 then hret false
  else
    let linux_flags := i32 result in
    let linux_flags := if nz (darwin_fdflags .& DARWIN_FD_CLOEXEC) then linux_flags .| FD_CLOEXEC else linux_flags .& Z.lnot FD_CLOEXEC in
    do* set_errno 0 in
    let* r := syscall Range000.SYS_fcntl [fd; Range000.F_SETFD; linux_flags] in hret (r =? 0).

Definition fd_guard_register (fd guard guardflags : Z) : hostm bool :=
  do* on_guards (fd_guard_remove fd) in
  let* s := get_vm in
  match fd_guard_free_entry (fd_guard_entries s) with
  | None => hret false
  | Some i =>
      let* fdflags := fd_guard_current_flags fd guardflags in
      do* on_guards (fun l => <[i := mk_guard fd guard guardflags fdflags true]> l) in hret true
  end.

(** [next] runs when the guard of [fd] is the one at [guard]. *)
Definition fd_guard_validate g (fd guard : Z) (next : hostm syscall_gate_state) : hostm syscall_gate_state :=
  if guard =? 0 then failed g DARWIN_EFAULT
  else
    let* s := get_vm in
    match fd_guard_entry_for_fd fd (fd_guard_entries s) with
    | None =>
        let* valid := fd_is_valid fd in failed g (if valid then DARWIN_EINVAL else DARWIN_EBADF)
    | Some i =>
        let* m := get_mem in
        if negb (read_guard_value guard m =? g_guard (nth i (fd_guard_entries s) no_guard)) then failed g DARWIN_EPERM
        else next
    end.

(** [next] gets the new guard. *)
Definition fd_guard_prepare_new g (guard guardflags : Z) (next : Z -> hostm syscall_gate_state) : hostm syscall_gate_state :=
  if guard =? 0 then failed g DARWIN_EFAULT
  else if negb (fd_guard_flags_are_valid guardflags) then failed g DARWIN_EINVAL
  else
    let* m := get_mem in
    let guard_out := read_guard_value guard m in
    if guard_out =? 0 then failed g DARWIN_EINVAL else next guard_out.

(** The tail of the three calls that make a guarded descriptor. *)
Definition register_opened g (result guard guardflags : Z) : hostm syscall_gate_state :=
  if result <? 0 then set_errno_failure g
  else
    let* registered := fd_guard_register (i32 result) guard guardflags in
    if negb (registered : bool) then do* syscall SYS_close [i32 result] in failed g DARWIN_ENOMEM
    else hret (set_success g result).

Definition dispatch_guarded_open g : hostm syscall_gate_state :=
  let x := gs_x g in
  let flags := i32 (x 3) in
  if flags .& DARWIN_O_CLOEXEC =? 0 then failed g DARWIN_EINVAL
  else fd_guard_prepare_new g (x 1) (u32 (x 2)) (fun guard =>
    do* set_errno 0 in
    let* result := syscall SYS_openat [AT_FDCWD; x 0; translate_open_flags flags .| O_CLOEXEC; u32 (x 4)] in
    register_opened g result guard (u32 (x 2))).

Definition dispatch_guarded_open_dprotected g : hostm syscall_gate_state :=
  let x := gs_x g in
  let flags := i32 (x 3) in
  let dpflags := i32 (x 5) in
  if flags .& DARWIN_O_CLOEXEC =? 0 then failed g DARWIN_EINVAL
  else if nz (dpflags .& 3) && nz (flags .& 3) then failed g DARWIN_EINVAL
  else fd_guard_prepare_new g (x 1) (u32 (x 2)) (fun guard =>
    do* set_errno 0 in
    let* result := syscall SYS_openat [AT_FDCWD; x 0; translate_open_flags flags .| O_CLOEXEC; u32 (x 6)] in
    register_opened g result guard (u32 (x 2))).

Definition dispatch_guarded_kqueue g : hostm syscall_gate_state :=
  let x := gs_x g in
  fd_guard_prepare_new g (x 0) (u32 (x 1)) (fun guard =>
    do* set_errno 0 in
    let* result := syscall Files.SYS_eventfd2 [0; Files.EFD_CLOEXEC] in
    register_opened g result guard (u32 (x 1))).

Definition dispatch_guarded_close g : hostm syscall_gate_state :=
  let fd := i32 (gs_x g 0) in
  fd_guard_validate g fd (gs_x g 1)
    (do* set_errno 0 in
     let* result := syscall SYS_close [fd] in
     if result <? 0 then set_errno_failure g
     else do* on_guards (fd_guard_remove fd) in done g).

(** The checks of the guard the caller says the descriptor has; [entry]: the
    one it has. *)
Definition old_guard_error (old_guard old_flags : Z) (entry : option fd_guard_entry) (m : bytemem) : option Z :=
  match entry with
  | Some e =>
      if (old_guard =? 0) || (old_flags =? 0) then Some DARWIN_EINVAL
      else if read_guard_value old_guard m =? 0 then Some DARWIN_EPERM
      else if negb (read_guard_value old_guard m =? g_guard e) || negb (old_flags =? g_guardflags e) then Some DARWIN_EPERM
      else None
  | None => if nz old_guard || nz old_flags then Some DARWIN_EINVAL else None
  end.

(** [entry->fdflags = ...] after the registration. *)
Definition set_fdflags (fd fdflags : Z) (l : list fd_guard_entry) : list fd_guard_entry :=
  match fd_guard_entry_for_fd fd l with
  | Some i => let e := nth i l no_guard in <[i := mk_guard (g_fd e) (g_guard e) (g_guardflags e) fdflags (g_in_use e)]> l
  | None => l
  end.

Definition dispatch_change_fdguard g : hostm syscall_gate_state :=
  let x := gs_x g in
  let fd := i32 (x 0) in
  let old_guard := x 1 in
  let old_flags := u32 (x 2) in
  let new_guard_ptr := x 3 in
  let new_flags := u32 (x 4) in
  let fdflagsp := x 5 in
  let* s := get_vm in
  let entry := option_map (fun i => nth i (fd_guard_entries s) no_guard) (fd_guard_entry_for_fd fd (fd_guard_entries s)) in
  let* valid := fd_is_valid fd in
  if negb valid then failed g DARWIN_EBADF
  else
    let* requested := (if nz fdflagsp then ld 4 fdflagsp else hret 0) in
    do* (if nz fdflagsp then
           let* old_fdflags := (match entry with Some e => hret (g_fdflags e) | None => fd_guard_current_flags fd 0 end) in
           st 4 fdflagsp old_fdflags
         else hret tt) in
    let* m := get_mem in
    match old_guard_error old_guard old_flags entry m with
    | Some e => failed g e
    | None =>
        if nz new_guard_ptr then
          let new_guard := read_guard_value new_guard_ptr m in
          if (new_guard =? 0) || negb (fd_guard_flags_are_valid new_flags) then failed g DARWIN_EINVAL
          else
            let* ok := (match entry with Some _ => hret true | None => fd_guard_set_linux_cloexec fd DARWIN_FD_CLOEXEC end) in
            if negb ok then set_errno_failure g
            else
              let* registered := fd_guard_register fd new_guard new_flags in
              if negb (registered : bool) then failed g DARWIN_ENOMEM
              else
                let clofork := nz (new_flags .& DARWIN_GUARD_CLOSE) || nz (requested .& DARWIN_FD_CLOFORK) in
                do* on_guards (set_fdflags fd (if clofork then DARWIN_FD_CLOEXEC .| DARWIN_FD_CLOFORK else DARWIN_FD_CLOEXEC)) in
                done g
        else
          match entry with
          | None => failed g DARWIN_EINVAL
          | Some _ =>
              if nz new_flags then failed g DARWIN_EINVAL
              else
                do* on_guards (fd_guard_remove fd) in
                let* ok := fd_guard_set_linux_cloexec fd requested in
                if negb ok then set_errno_failure g else done g
          end
    end.

Definition dispatch_guarded_write g : hostm syscall_gate_state :=
  let x := gs_x g in
  fd_guard_validate g (i32 (x 0)) (x 1)
    (let* result := machgate_syscall_write_no_sigpipe (i32 (x 0)) (x 2) (x 3) in finish_syscall_result g result).
Definition dispatch_guarded_pwrite g : hostm syscall_gate_state :=
  let x := gs_x g in
  fd_guard_validate g (i32 (x 0)) (x 1) (forward g Range100.SYS_pwrite64 [i32 (x 0); x 2; x 3; i64 (x 4)]).
Definition dispatch_guarded_writev g : hostm syscall_gate_state :=
  let x := gs_x g in
  fd_guard_validate g (i32 (x 0)) (x 1)
    (let* result := machgate_syscall_writev_no_sigpipe (i32 (x 0)) (x 2) (i32 (x 3)) in finish_syscall_result g result).

(** The cases of the switch that use guards. *)
Definition guard_numbers : list Z := [441; 442; 443; 444; 484; 485; 486; 487].
Definition guard_calls g : hostm syscall_gate_state :=
  match gs_x g 16 with
  | 441 => dispatch_guarded_open g
  | 442 => dispatch_guarded_close g
  | 443 => dispatch_guarded_kqueue g
  | 444 => dispatch_change_fdguard g
  | 484 => dispatch_guarded_open_dprotected g
  | 485 => dispatch_guarded_write g
  | 486 => dispatch_guarded_pwrite g
  | 487 => dispatch_guarded_writev g
  | _ => set_deferred_enosys g
  end.

(** ** Ports of files *)

Definition dispatch_fileport_makeport g : hostm syscall_gate_state :=
  let x := gs_x g in
  if x 1 =? 0 then failed g DARWIN_EFAULT
  else
    do* set_errno 0 in
    let* dup_result := syscall Range000.SYS_fcntl [i32 (x 0); F_DUPFD_CLOEXEC; 0] in
    if dup_result <? 0 then set_errno_failure g
    else
      let* s := get_vm in
      match fileport_index_for_port 0 (fileport_entries s) with
      | Some i =>
          let port := u32 (MACHGATE_FILEPORT_BASE + Z.of_nat i + 1) in
          do* on_statics (fun s => with_ports (<[i := mk_port port (i32 dup_result)]> (fileport_entries s)) s) in
          do* st 4 (x 1) port in done g
      | None => do* syscall SYS_close [i32 dup_result] in failed g DARWIN_ENOMEM
      end.

Definition dispatch_fileport_makefd g : hostm syscall_gate_state :=
  let* s := get_vm in
  match fileport_index_for_port (u32 (gs_x g 0)) (fileport_entries s) with
  | None => failed g DARWIN_EINVAL
  | Some i => forward g Range000.SYS_fcntl [port_fd (nth i (fileport_entries s) no_port); F_DUPFD_CLOEXEC; 0]
  end.

(** ** Workloops *)

Definition on_workloops (f : list kqueue_workloop_entry -> list kqueue_workloop_entry) : hostm unit :=
  on_statics (fun s => with_workloops (f (kqueue_workloop_entries s)) s).

Definition workloop_create g (params : Z) : hostm syscall_gate_state :=
  let* m := get_mem in
  let* s := get_vm in
  let params_error := kqueue_workloop_params_are_valid params m in
  let id := load 8 (params + 8) m in
  if nz params_error then failed g params_error
  else match kqueue_workloop_find id (kqueue_workloop_entries s) with
  | Some _ => failed g DARWIN_EEXIST
  | None =>
      match kqueue_workloop_free_entry (kqueue_workloop_entries s) with
      | None => failed g DARWIN_ENOMEM
      | Some i =>
          do* set_errno 0 in
          let* fd := syscall Files.SYS_eventfd2 [0; Files.EFD_CLOEXEC] in
          if fd <? 0 then set_errno_failure g
          else
            let* m := get_mem in
            do* on_workloops (fun l => <[i := mk_workloop (load 8 (params + 8) m) (i32 fd) true]> l) in done g
      end
  end.

Definition workloop_destroy g (params : Z) : hostm syscall_gate_state :=
  let* id := ld 8 (params + 8) in
  let* s := get_vm in
  match kqueue_workloop_find id (kqueue_workloop_entries s) with
  | None => failed g DARWIN_EINVAL
  | Some i =>
      do* syscall SYS_close [w_fd (nth i (kqueue_workloop_entries s) no_workloop)] in
      do* on_workloops (fun l => <[i := no_workloop]> l) in done g
  end.

Definition dispatch_kqueue_workloop_ctl g : hostm syscall_gate_state :=
  let x := gs_x g in
  let params := x 2 in
  if (x 3 <? 4) || (params =? 0) then failed g DARWIN_EINVAL
  else
    let* version := ld 4 params in
    if negb (i32 version =? i32 (x 3)) then failed g DARWIN_EINVAL
    else match x 0 with
    | 1 => workloop_create g params
    | 2 => workloop_destroy g params
    | _ => failed g DARWIN_EINVAL
    end.
End range.
End Range400.
