(* ===== verification/Range400Tables.v ===== *)
(** * Tables of the calls from 400 on: guarded descriptors, workloops

    The fixed arrays that hold guards and workloops are finite maps of bounded
    size; the calls that use them are described on the maps. *)

From stdpp Require Import gmap.
From S2P Require Import Prelude CStr Host GateIsland GateDispatch DarwinAbi Range000 Range000Theorems Range100 Range200 Range200Files Range400.
Import Gate Dispatch Abi Range400.

Module Tables.

(** ** Arrays of entries with a key *)

Section keyed.
Context {E V : Type} (used : E -> bool) (key : E -> Z) (val : E -> V).

Record tracks (l : list E) (m : gmap Z V) : Prop := mk_tracks {
  tr_in : forall i e, l !! i = Some e -> used e = true -> m !! key e = Some (val e);
  tr_of : forall k v, m !! k = Some v -> exists i e, l !! i = Some e /\ used e = true /\ key e = k /\ val e = v;
  tr_unique : forall i j e f, l !! i = Some e -> l !! j = Some f -> used e = true -> used f = true -> key e = key f -> i = j;
}.

Definition find (k : Z) (l : list E) : option nat := Range200.find_slot (fun e => used e && (key e =? k)) l.
Definition free (l : list E) : option nat := Range200.find_slot (fun e => negb (used e)) l.

Lemma find_tracked l m k : tracks l m ->
  match find k l with
  | Some i => exists e, l !! i = Some e /\ used e = true /\ key e = k /\ m !! k = Some (val e)
  | None => m !! k = None
  end.
Proof.
  intros Ht. unfold find. destruct (Range200.find_slot _ l) as [i|] eqn:Hf.
  - apply Range200.find_slot_some in Hf as (e & He & Hb). apply andb_true_iff in Hb as [Hu Hk]. apply Z.eqb_eq in Hk. subst k.
    exists e. do 3 (split; [done|]). by eapply tr_in.
  - destruct (m !! k) as [v|] eqn:Hm; [|done]. destruct (tr_of _ _ Ht _ _ Hm) as (i & e & He & Hu & Hk & _).
    pose proof (Range200.find_slot_none _ _ _ _ Hf He) as Hb. cbn in Hb. rewrite Hu, Hk, Z.eqb_refl in Hb. done.
Qed.

(** A used entry goes over a free one, its key being new, or over the one with
    the same key. *)
Lemma tracks_put l m i e0 e : tracks l m -> l !! i = Some e0 -> used e = true ->
  (if used e0 then key e = key e0 else m !! key e = None) ->
  tracks (<[i := e]> l) (<[key e := val e]> m).
Proof.
  intros Ht Hi Hu Hold. assert (Hlen : (i < length l)%nat) by (by eapply lookup_lt_Some).
  assert (Hother : forall j f, j <> i -> <[i := e]> l !! j = Some f -> used f = true -> l !! j = Some f /\ key f <> key e).
  { intros j f Hj Hf Huf. rewrite list_lookup_insert_ne in Hf by done. split; [done|]. intros Hk. destruct (used e0) eqn:Hu0.
    - apply Hj. apply (tr_unique _ _ Ht j i f e0); congruence.
    - pose proof (tr_in _ _ Ht _ _ Hf Huf) as H. rewrite Hk, Hold in H. done. }
  split.
  - intros j f Hf Huf. destruct (decide (j = i)) as [->|Hj].
    + rewrite list_lookup_insert_eq in Hf by done. injection Hf as <-. by rewrite lookup_insert_eq.
    + destruct (Hother j f Hj Hf Huf) as [Hl Hk]. rewrite lookup_insert_ne by done. by eapply tr_in.
  - intros k v Hk. destruct (decide (k = key e)) as [->|Hne].
    + rewrite lookup_insert_eq in Hk. injection Hk as <-. exists i, e. by rewrite list_lookup_insert_eq.
    + rewrite lookup_insert_ne in Hk by done. destruct (tr_of _ _ Ht _ _ Hk) as (j & f & Hf & Huf & Hkf & Hv).
      exists j, f. split; [|done]. rewrite list_lookup_insert_ne; [done|]. intros <-. rewrite Hi in Hf. injection Hf as ->.
      rewrite Huf in Hold. congruence.
  - intros j k f h Hf Hh Huf Huh Hk. destruct (decide (j = i)) as [->|Hj], (decide (k = i)) as [->|Hki]; [done| | |].
    + rewrite list_lookup_insert_eq in Hf by done. injection Hf as <-. by destruct (Hother k h Hki Hh Huh).
    + rewrite list_lookup_insert_eq in Hh by done. injection Hh as <-. by destruct (Hother j f Hj Hf Huf).
    + destruct (Hother j f Hj Hf Huf), (Hother k h Hki Hh Huh). by eapply (tr_unique _ _ Ht).
Qed.

Lemma tracks_delete l m i e0 e : tracks l m -> l !! i = Some e0 -> used e0 = true -> used e = false ->
  tracks (<[i := e]> l) (delete (key e0) m).
Proof.
  intros Ht Hi Hu0 Hu. assert (Hlen : (i < length l)%nat) by (by eapply lookup_lt_Some).
  assert (Hother : forall j f, <[i := e]> l !! j = Some f -> used f = true -> l !! j = Some f /\ key f <> key e0).
  { intros j f Hf Huf. destruct (decide (j = i)) as [->|Hj]; [rewrite list_lookup_insert_eq in Hf by done; congruence|].
    rewrite list_lookup_insert_ne in Hf by done. split; [done|]. intros Hk. apply Hj. by apply (tr_unique _ _ Ht j i f e0). }
  split.
  - intros j f Hf Huf. destruct (Hother j f Hf Huf) as [Hl Hk]. rewrite lookup_delete_ne by done. by eapply tr_in.
  - intros k v Hk. apply lookup_delete_Some in Hk as [Hne Hk]. destruct (tr_of _ _ Ht _ _ Hk) as (j & f & Hf & Huf & Hkf & Hv).
    exists j, f. split; [|done]. rewrite list_lookup_insert_ne; [done|]. intros <-. rewrite Hi in Hf. injection Hf as <-. congruence.
  - intros j k f h Hf Hh Huf Huh Hk. destruct (Hother j f Hf Huf), (Hother k h Hh Huh). by eapply (tr_unique _ _ Ht).
Qed.

Lemma tracks_unused l : (forall i e, l !! i = Some e -> used e = false) -> tracks l ∅.
Proof. intros H. split; [intros i e He Hu|by intros k v Hk|intros i j e f He Hf Hu]; rewrite (H _ _ He) in Hu; done. Qed.

Lemma tracks_size l m : tracks l m -> size m = length (List.filter used l).
Proof.
  revert m; induction l as [|e l IH]; intros m Ht.
  - assert (m = ∅) as ->; [|done]. apply map_eq. intros k. rewrite lookup_empty. destruct (m !! k) eqn:Hk; [|done].
    destruct (tr_of _ _ Ht _ _ Hk) as (i & f & Hf & _). done.
  - cbn [List.filter]. destruct (used e) eqn:Hu.
    + pose proof (tr_in _ _ Ht 0%nat e eq_refl Hu) as Hm. rewrite <- (insert_delete_id m (key e) (val e) Hm).
      rewrite map_size_insert_None by apply lookup_delete_eq. cbn [length]. f_equal. apply IH.
      assert (Hk : forall i f, l !! i = Some f -> used f = true -> key f <> key e).
      { intros i f Hf Huf Hk. by pose proof (tr_unique _ _ Ht (S i) 0%nat f e Hf eq_refl Huf Hu Hk). }
      split.
      * intros i f Hf Huf. rewrite lookup_delete_ne by (intros He; by eapply Hk). by apply (tr_in _ _ Ht (S i)).
      * intros k v Hkv. apply lookup_delete_Some in Hkv as [Hne Hkv]. destruct (tr_of _ _ Ht _ _ Hkv) as ([|i] & f & Hf & Huf & Hkf & Hv).
        -- injection Hf as <-. congruence.
        -- by exists i, f.
      * intros i j f h Hf Hh Huf Huh Hkk. pose proof (tr_unique _ _ Ht (S i) (S j) f h Hf Hh Huf Huh Hkk) as Hij. by injection Hij.
    + apply IH. split.
      * intros i f Hf Huf. by apply (tr_in _ _ Ht (S i)).
      * intros k v Hkv. destruct (tr_of _ _ Ht _ _ Hkv) as ([|i] & f & Hf & Huf & Hkf & Hv); [|by exists i, f]. injection Hf as <-. congruence.
      * intros i j f h Hf Hh Huf Huh Hkk. pose proof (tr_unique _ _ Ht (S i) (S j) f h Hf Hh Huf Huh Hkk) as Hij. by injection Hij.
Qed.

(** An entry is free exactly when the map is not full. *)
Lemma free_tracked l m : tracks l m ->
  match free l with
  | Some i => (size m < length l)%nat /\ exists e, l !! i = Some e /\ used e = false
  | None => size m = length l
  end.
Proof.
  intros Ht. rewrite (tracks_size l m Ht). unfold free. destruct (Range200.find_slot _ l) as [i|] eqn:Hf.
  - apply Range200.find_slot_some in Hf as (e & He & Hb). apply negb_true_iff in Hb. split; [by eapply Range200.filter_lt|by exists e].
  - assert (Hall : forall i e, l !! i = Some e -> used e = true) by
      (intros i e He; pose proof (Range200.find_slot_none _ _ _ _ Hf He) as Hb; cbn in Hb; by destruct (used e)).
    clear Hf Ht. induction l as [|e l IH]; [done|]. cbn [List.filter length]. rewrite (Hall 0%nat e eq_refl). cbn [length]. f_equal.
    apply IH. intros i f Hf. by apply (Hall (S i)).
Qed.
End keyed.

(** ** Computations that leave the tables alone *)

(** What [view] shows of the statics stays the same. *)
Definition keeps {T} (view : statics -> T) {K A} (m : host statics K A) : Prop := forall p, view (p_vm (snd (m p))) = view (p_vm p).
Definition tables (s : statics) := (fileport_entries s, fd_guard_entries s, kqueue_workloop_entries s).
Abbreviation quiet := (keeps tables).

Section keeps.
Context {T : Type} (view : statics -> T) {K : kernel}.

Lemma kept_ret {A} (a : A) : keeps view (K:=K) (hret a).
Proof. by intros p. Qed.
Lemma kept_bind {A B} (m : host statics K A) (f : A -> host statics K B) : keeps view m -> (forall a, keeps view (f a)) -> keeps view (hbind m f).
Proof. intros Hm Hf p. unfold hbind. specialize (Hm p). destruct (m p) as [a q]. by rewrite (Hf a q). Qed.
Lemma kept_get_errno : keeps view (K:=K) get_errno.
Proof. by intros p. Qed.
Lemma kept_set_errno e : keeps view (K:=K) (set_errno e).
Proof. by intros p. Qed.
Lemma keeps_get_vm : keeps view (K:=K) get_vm.
Proof. by intros p. Qed.
Lemma kept_get_mem : keeps view (K:=K) get_mem.
Proof. by intros p. Qed.
Lemma keeps_set_mem m : keeps view (K:=K) (set_mem m).
Proof. by intros p. Qed.
Lemma kept_syscall nr args : keeps view (K:=K) (syscall nr args).
Proof. intros p. unfold syscall. destruct (k_syscall K nr args (p_mem p) (p_kernel p)) as [[[v|e] m] k]; done. Qed.
Lemma keeps_sigaction sig new : keeps view (K:=K) (sigaction sig new).
Proof. intros p. unfold sigaction. repeat case_match; done. Qed.
Lemma keeps_in_kernel {A} (f : kstate K -> A * kstate K) : keeps view (in_kernel f).
Proof. intros p. unfold in_kernel. by destruct (f (p_kernel p)). Qed.
Lemma keeps_on_statics f : (forall s, view (f s) = view s) -> keeps view (K:=K) (on_statics f).
Proof. intros Hf p. apply Hf. Qed.
Lemma keeps_in_range_200 {A} (m : host Range200.statics K A) : (forall r s, view (with_range_200 r s) = view s) -> keeps view (in_range_200 m).
Proof. intros Hv p. unfold in_range_200. destruct (m _) as [a q]. apply Hv. Qed.
End keeps.

Create HintDb keeps.
#[export] Hint Resolve kept_ret kept_get_errno kept_set_errno keeps_get_vm kept_get_mem keeps_set_mem kept_syscall keeps_sigaction
  keeps_in_kernel : keeps.
#[export] Hint Extern 1 (keeps _ (on_statics _)) => (apply keeps_on_statics; intros ?; reflexivity) : keeps.
#[export] Hint Extern 1 (keeps _ (in_range_200 _)) => (apply keeps_in_range_200; intros ? ?; reflexivity) : keeps.

Ltac head_of t := lazymatch t with ?f _ => head_of f | _ => t end.

(** One step through a computation: a call, a case, or the body of a
    definition. *)
Ltac keeps_step :=
  cbv zeta;
  match goal with
  | |- keeps _ (hbind _ _) => apply kept_bind; [|intros ?]
  | |- keeps _ _ => solve [auto with keeps]
  | |- keeps _ (match ?x with _ => _ end) => destruct x
  | |- keeps _ ?m => let h := head_of m in unfold h
  end.
Ltac keeps := repeat keeps_step.

(** ** Guards *)

(** The guard of each guarded descriptor, its flags, and the flags of the
    descriptor. *)
Abbreviation guards := (gmap Z (Z * Z * Z)).
Definition guard_info (e : fd_guard_entry) : Z * Z * Z := (g_guard e, g_guardflags e, g_fdflags e).
Definition guards_are (l : list fd_guard_entry) (G : guards) : Prop :=
  tracks g_in_use g_fd guard_info l G /\ length l = Z.to_nat MACHGATE_FD_GUARD_MAX.

Lemma guards_initial : guards_are (fd_guard_entries statics_initial) ∅.
Proof.
  split; [|done]. apply tracks_unused. intros i e He. apply lookup_replicate in He as [-> _]. done.
Qed.

Lemma guard_found l G fd : guards_are l G ->
  match fd_guard_entry_for_fd fd l with
  | Some i => exists e, l !! i = Some e /\ g_in_use e = true /\ g_fd e = fd /\ G !! fd = Some (guard_info e)
  | None => G !! fd = None
  end.
Proof. intros [Ht _]. apply (find_tracked _ _ _ _ _ fd Ht). Qed.

Lemma guard_removed l G fd : guards_are l G -> guards_are (fd_guard_remove fd l) (delete fd G).
Proof.
  intros [Ht Hl]. pose proof (guard_found l G fd (conj Ht Hl)) as Hf. unfold fd_guard_remove.
  destruct (fd_guard_entry_for_fd fd l) as [i|].
  - destruct Hf as (e & He & Hu & <- & _). split; [by eapply tracks_delete|by rewrite length_insert].
  - by rewrite delete_id.
Qed.

Lemma guard_fdflags_set l G fd w flags v v' : guards_are l (<[fd := (w, flags, v)]> G) ->
  guards_are (set_fdflags fd v' l) (<[fd := (w, flags, v')]> G).
Proof.
  intros Hl. pose proof (guard_found l _ fd Hl) as Hf. unfold set_fdflags. destruct (fd_guard_entry_for_fd fd l) as [i|].
  - destruct Hf as (e & He & Hu & Hk & Hi). rewrite lookup_insert_eq in Hi. injection Hi as -> -> _. cbv zeta. rewrite (nth_lookup_Some _ _ _ _ He).
    destruct Hl as [Ht Hn]. split; [|by rewrite length_insert].
    pose proof (tracks_put g_in_use g_fd guard_info _ _ i e (mk_guard (g_fd e) (g_guard e) (g_guardflags e) v' (g_in_use e)) Ht He Hu) as H.
    rewrite Hu in H. specialize (H eq_refl). cbn in H. rewrite Hk, insert_insert_eq in H. by rewrite Hk, Hu.
  - by rewrite lookup_insert_eq in Hf.
Qed.

(** *** What the calls promise, on the map *)

Definition linux_error (e : Z) : Prop := exists err, e = linux_errno_to_darwin err.

(** The map has no room for [fd]. *)
Definition full (G : guards) (fd : Z) : bool := bool_decide (G !! fd = None) && (Z.of_nat (size G) =? 1024).

Section spec.
Context {K : kernel}.

(** The memory and the kernel, and a system call on them. *)
Abbreviation world := (bytemem * kstate K)%type.
Definition kcall (nr : Z) (args : list Z) (w : world) : (Z + Z) * world :=
  let '(r, m, k) := k_syscall K nr args (fst w) (snd w) in (r, (m, k)).

(** The answer a result stands for: itself, or Darwin's number of the error. *)
Definition succeeded (r : Z + Z) : bool := match r with inl v => 0 <=? v | inr _ => false end.
Definition failure (r : Z + Z) : Z := linux_errno_to_darwin (match r with inr e => if e =? 0 then EIO else e | inl _ => EIO end).
Definition answer_of (r : Z + Z) : Z + Z := match r with inl v => if 0 <=? v then inl v else inr (failure r) | inr _ => inr (failure r) end.

(** fcntl(fd, F_GETFD), and whether it says close-on-exec. *)
Definition getfd (fd : Z) : world -> (Z + Z) * world := kcall 25 [fd; 1].
Definition exec_flag (r : Z + Z) : Z := match r with inl v => if (0 <=? v) && nz (v .& 1) then 1 else 0 | inr _ => 0 end.

(** Close-on-exec is set, or cleared; the error number when it was not. *)
Definition set_exec_flag (fd : Z) (on : bool) (w : world) : option Z * world :=
  let '(r, w) := getfd fd w in
  match r with
  | inl v =>
      if 0 <=? v then
        let '(r, w) := kcall 25 [fd; 2; if on then i32 v .| 1 else i32 v .& Z.lnot 1] w in
        (match r with inl 0 => None | _ => Some (failure r) end, w)
      else (Some (failure r), w)
  | inr _ => (Some (failure r), w)
  end.

(** The guard for a new descriptor and its flags, or the error number. *)
Definition new_guard (guard flags : Z) (m : bytemem) : Z * Z + Z :=
  if guard =? 0 then inr DARWIN_EFAULT
  else if negb (nz (flags .& 2)) || nz (flags .& Z.lnot 31) || (load 8 guard m =? 0) then inr DARWIN_EINVAL
  else inl (load 8 guard m, flags).

(** The flags of open: the access mode, and the bits of the pairs. *)
Definition open_bits : list (Z * Z) :=
  [(0x4, 0x800); (0x8, 0x400); (0x100, 0x8000); (0x200, 0x40); (0x400, 0x200); (0x800, 0x80); (0x20000, 0x100);
   (0x100000, 0x4000); (0x400000, 0x1000); (0x1000000, 0x80000); (0x200000, 0x208000)].
Definition linux_open_flags (flags : Z) : Z :=
  List.fold_left (fun r '(d, l) => if nz (flags .& d) then r .| l else r) open_bits (flags .& 3).

(** The new guard and the call that opens the descriptor. *)
Definition opening (x : Z -> Z) (m : bytemem) : (Z * Z) * (Z * list Z) + Z :=
  let with_call guard flags call := match new_guard guard flags m with inl w => inl (w, call) | inr e => inr e end in
  let darwin_flags := i32 (x 3) in
  if x 16 =? 443 then with_call (x 0) (u32 (x 1)) (19, [0; 0x80000])                               (* eventfd2, EFD_CLOEXEC *)
  else if negb (nz (darwin_flags .& 0x01000000)) then inr DARWIN_EINVAL                            (* without O_CLOEXEC *)
  else if (x 16 =? 484) && nz (i32 (x 5) .& 3) && nz (darwin_flags .& 3) then inr DARWIN_EINVAL
  else with_call (x 1) (u32 (x 2))
         (56, [-100; x 0; linux_open_flags darwin_flags .| 0x80000; u32 (if x 16 =? 484 then x 6 else x 4)]).  (* openat *)

(** guarded_open_np, guarded_open_dprotected_np, guarded_kqueue_np. *)
Definition opens (x : Z -> Z) (G : guards) (w : world) : (Z + Z) * guards * world :=
  match opening x (fst w) with
  | inr e => (inr e, G, w)
  | inl (guard, flags, (nr, args)) =>
      let '(r, w) := kcall nr args w in
      match answer_of r with
      | inr e => (inr e, G, w)
      | inl v =>
          let fd := i32 v in
          if full G fd then let '(_, w) := kcall 57 [fd] w in (inr DARWIN_ENOMEM, G, w)            (* close *)
          else
            let '(r, w) := getfd fd w in
            (inl v, <[fd := (guard, flags, exec_flag r .| (if nz (flags .& 1) then 2 else 0))]> G, w)
      end
  end.

(** The guarded calls on a descriptor: made for the caller who has its guard. *)
Definition uses (x : Z -> Z) (G : guards) (w : world) : (Z + Z) * guards * world :=
  let fd := i32 (x 0) in
  if x 1 =? 0 then (inr DARWIN_EFAULT, G, w)
  else match G !! fd with
  | None => let '(r, w) := getfd fd w in (inr (if succeeded r then DARWIN_EINVAL else DARWIN_EBADF), G, w)
  | Some (guard, _, _) =>
      if negb (load 8 (x 1) (fst w) =? guard) then (inr DARWIN_EPERM, G, w)
      else if x 16 =? 442 then
        let '(r, w) := kcall 57 [fd] w in
        (if succeeded r then (inl 0, delete fd G, w) else (inr (failure r), G, w))
      else
        let '(r, w) := (if x 16 =? 485 then kcall 64 [fd; x 2; x 3] w                              (* write *)
                        else if x 16 =? 486 then kcall 68 [fd; x 2; x 3; i64 (x 4)] w              (* pwrite64 *)
                        else kcall 66 [fd; x 2; u64 (i32 (x 3))] w) in                             (* writev *)
        (answer_of r, G, w)
  end.

(** Whether the caller of change_fdguard_np states the guard the descriptor has
    (or that it has none), or the error number. *)
Definition stated (x : Z -> Z) (v : option (Z * Z * Z)) (m : bytemem) : option Z :=
  match v with
  | Some (guard, flags, _) =>
      if (x 1 =? 0) || (u32 (x 2) =? 0) then Some DARWIN_EINVAL
      else if nz guard && (load 8 (x 1) m =? guard) && (u32 (x 2) =? flags) then None else Some DARWIN_EPERM
  | None => if (x 1 =? 0) && (u32 (x 2) =? 0) then None else Some DARWIN_EINVAL
  end.

(** change_fdguard_np: the old flags are stored at [x 5], then the guard is
    replaced, added (the descriptor becomes close-on-exec) or dropped. *)
Definition changes (x : Z -> Z) (G : guards) (w : world) : (Z + Z) * guards * world :=
  let fd := i32 (x 0) in
  let '(r, w) := getfd fd w in
  if negb (succeeded r) then (inr DARWIN_EBADF, G, w)
  else
    let requested := if nz (x 5) then load 4 (x 5) (fst w) else 0 in
    let w := if nz (x 5) then
               match G !! fd with
               | Some (_, _, fdflags) => (store 4 (x 5) fdflags (fst w), snd w)
               | None => let '(r, w) := getfd fd w in (store 4 (x 5) (exec_flag r) (fst w), snd w)
               end
             else w in
    match stated x (G !! fd) (fst w) with
    | Some e => (inr e, G, w)
    | None =>
        if nz (x 3) then
          match new_guard (x 3) (u32 (x 4)) (fst w) with
          | inr _ => (inr DARWIN_EINVAL, G, w)
          | inl (guard, flags) =>
              let '(error, w) := (match G !! fd with Some _ => (None, w) | None => set_exec_flag fd true w end) in
              match error with
              | Some e => (inr e, G, w)
              | None =>
                  if full G fd then (inr DARWIN_ENOMEM, G, w)
                  else
                    let '(_, w) := getfd fd w in
                    (inl 0, <[fd := (guard, flags, if nz (flags .& 1) || nz (requested .& 2) then 3 else 1)]> G, w)
              end
          end
        else if nz (u32 (x 4)) || bool_decide (G !! fd = None) then (inr DARWIN_EINVAL, G, w)
        else
          let '(error, w) := set_exec_flag fd (nz (requested .& 1)) w in
          (match error with None => inl 0 | Some e => inr e end, delete fd G, w)
    end.

(** The eight calls. *)
Definition guard_spec (x : Z -> Z) (G : guards) (w : world) : (Z + Z) * guards * world :=
  if bool_decide (In (x 16) [441; 443; 484]) then opens x G w
  else if x 16 =? 444 then changes x G w
  else uses x G w.
End spec.
Abbreviation world K := (bytemem * kstate K)%type.

(** *** Computations on the map *)

(** From guards [G], a world [w] and the [errno] [e], [c] comes to the answer,
    the guards and the world of [r]. *)
Definition gives {K} (G : guards) (w : world K) (e : Z) (c : host statics K syscall_gate_state) (g : syscall_gate_state)
    (r : (Z + Z) * guards * world K) : Prop :=
  forall p, guards_are (fd_guard_entries (p_vm p)) G -> (p_mem p, p_kernel p) = w -> p_errno p = e ->
    let '(a, G', w') := r in let '(g', p') := c p in
    g' = Range200.answered g a /\ guards_are (fd_guard_entries (p_vm p')) G' /\ (p_mem p', p_kernel p') = w'.

Section gives.
Context {K : kernel}.
Implicit Types (g : syscall_gate_state) (G : guards) (w : world K) (r : (Z + Z) * guards * world K).
Local Open Scope host_scope.

Lemma gives_success G w e g v : gives G w e (hret (set_success g v)) g (inl v, G, w).
Proof. by intros p Hp Hw _. Qed.
Lemma gives_failure G w e g n : gives G w e (failed g n) g (inr n, G, w).
Proof. by intros p Hp Hw _. Qed.

Lemma gives_assoc {A B} G w e (c : host statics K A) (f : A -> host statics K B) h g r :
  gives G w e (hbind c (fun a => hbind (f a) h)) g r -> gives G w e (hbind (hbind c f) h) g r.
Proof. intros H p Hp Hw He. specialize (H p Hp Hw He). unfold hbind in *. by destruct (c p). Qed.
Lemma gives_bind_ret {A} G w e (a : A) f g r : gives G w e (f a) g r -> gives (K:=K) G w e (hbind (hret a) f) g r.
Proof. done. Qed.
Lemma gives_set_errno G w e e' (f : unit -> host statics K syscall_gate_state) g r : gives G w e' (f tt) g r -> gives G w e (hbind (set_errno e') f) g r.
Proof. intros H p Hp Hw _. by apply (H (with_errno e' p)). Qed.
Lemma gives_get_errno G w e f g r : gives G w e (f e) g r -> gives (K:=K) G w e (hbind get_errno f) g r.
Proof. intros H p Hp Hw He. unfold hbind, get_errno. rewrite He. by apply (H p). Qed.
Lemma gives_vm G w e f g r : (forall s, guards_are (fd_guard_entries s) G -> gives G w e (f s) g r) -> gives (K:=K) G w e (hbind get_vm f) g r.
Proof. intros H p Hp Hw He. by apply (H (p_vm p)). Qed.
Lemma gives_mem G w e f g r : gives G w e (f (fst w)) g r -> gives (K:=K) G w e (hbind get_mem f) g r.
Proof. intros H p Hp <- He. by apply (H p). Qed.
Lemma gives_set_mem G w e m (f : unit -> host statics K syscall_gate_state) g r : gives G (m, snd w) e (f tt) g r -> gives G w e (hbind (set_mem m) f) g r.
Proof. intros H p Hp <- He. by apply (H (with_mem m p)). Qed.
Lemma gives_guards F G G1 w e f g r : (forall l, guards_are l G -> guards_are (F l) G1) -> gives G1 w e (f tt) g r ->
  gives (K:=K) G w e (hbind (on_guards F) f) g r.
Proof. intros HF Hk p Hp Hw He. apply (Hk (with_vm _ p)); [by apply HF|done|done]. Qed.
Lemma sigaction_world sig new (p : process statics K) :
  let q := snd (sigaction sig new p) in p_vm q = p_vm p /\ p_mem q = p_mem p /\ p_kernel q = p_kernel p.
Proof. unfold sigaction. by repeat case_match. Qed.
Lemma gives_sigaction G w e sig new f g r : (forall a e', gives G w e' (f a) g r) -> gives (K:=K) G w e (hbind (sigaction sig new) f) g r.
Proof.
  intros H p Hp Hw He. unfold hbind. pose proof (sigaction_world sig new p) as (Hv & Hm & Hk). destruct (sigaction sig new p) as [a q]. cbn in Hv, Hm, Hk.
  apply (H a (p_errno q)); [by rewrite Hv|by rewrite Hm, Hk|done].
Qed.

Lemma gives_syscall nr args f G w e g r :
  (let '(a, w') := kcall nr args w in match a with inl v => gives G w' e (f v) g r | inr e' => gives G w' e' (f (-1)) g r end) ->
  gives (K:=K) G w e (hbind (syscall nr args) f) g r.
Proof.
  intros H p Hp Hw He. unfold hbind, syscall, kcall in *. subst w. cbn [fst snd] in H.
  destruct (k_syscall K nr args (p_mem p) (p_kernel p)) as [[[v|e'] m] k].
  - by apply (H (with_mem m (with_kernel k p))).
  - by apply (H (with_errno e' (with_mem m (with_kernel k p)))).
Qed.

(** A system call with [errno] cleared before it: its result, and the failure
    [errno] then stands for. *)
Definition value (r : Z + Z) : Z := match r with inl v => v | inr _ => -1 end.
Definition error_of (r : Z + Z) : Z := match r with inl _ => 0 | inr e => e end.
Lemma gives_call nr args f G w e g r :
  (let '(a, w') := kcall nr args w in gives G w' (error_of a) (f (value a)) g r) ->
  gives (K:=K) G w e (do* set_errno 0 in hbind (syscall nr args) f) g r.
Proof. intros H. apply gives_set_errno, gives_syscall. destruct (kcall nr args w) as [[v|e'] w']; exact H. Qed.

Lemma value_succeeded a : (value a <? 0) = negb (succeeded a).
Proof. destruct a as [v|e]; cbn; [|done]. destruct (Z.ltb_spec v 0), (Z.leb_spec 0 v); lia || done. Qed.
Lemma value_outcome a : answer_of a = if succeeded a then inl (value a) else inr (failure a).
Proof. by destruct a. Qed.

Lemma gives_set_errno_failure G w g a : gives (K:=K) G w (error_of a) (set_errno_failure g) g (inr (failure a), G, w).
Proof.
  unfold set_errno_failure, errno_or_eio. apply gives_assoc, gives_get_errno, gives_bind_ret.
  replace (if nz (error_of a) then error_of a else EIO) with (match a with inr e => if e =? 0 then EIO else e | inl _ => EIO end);
    [apply gives_failure|]. destruct a as [v|e]; [done|]. cbn. unfold nz. by destruct (e =? 0).
Qed.
Lemma gives_finish G w g a : gives (K:=K) G w (error_of a) (finish_syscall_result g (value a)) g (answer_of a, G, w).
Proof.
  unfold finish_syscall_result. rewrite value_succeeded, value_outcome. destruct (succeeded a); [apply gives_success|apply gives_set_errno_failure].
Qed.
Lemma gives_forward nr args G w e g : gives (K:=K) G w e (forward g nr args) g (let '(a, w') := kcall nr args w in (answer_of a, G, w')).
Proof. unfold forward. apply gives_call. destruct (kcall nr args w) as [a w']. apply gives_finish. Qed.
Lemma gives_sigpipe nr a1 a2 a3 G w e g :
  gives (K:=K) G w e (let* result := write_syscall_with_sigpipe_guard nr a1 a2 a3 in finish_syscall_result g result) g
    (let '(a, w') := kcall nr [a1; a2; a3] w in (answer_of a, G, w')).
Proof.
  unfold write_syscall_with_sigpipe_guard. apply gives_assoc, gives_sigaction. intros old e'. apply gives_assoc, gives_set_errno, gives_assoc, gives_syscall.
  assert (Hend : forall a w', gives (K:=K) G w' (error_of a)
    (hbind (let* saved_errno := get_errno in
      do* match old with
          | inl old_action => if decide (sa_handler old_action = SIG_DFL) then hret tt else do* sigaction SIGPIPE (Some old_action) in hret tt
          | inr _ => hret tt
          end in
      do* set_errno saved_errno in hret (value a)) (finish_syscall_result g)) g (answer_of a, G, w')).
  { intros a w'. apply gives_assoc, gives_get_errno. destruct old as [old_action|?]; [destruct (decide _)|].
    - apply gives_assoc, gives_bind_ret, gives_assoc, gives_set_errno, gives_bind_ret, gives_finish.
    - apply gives_assoc, gives_assoc, gives_sigaction. intros _ e2. apply gives_bind_ret, gives_assoc, gives_set_errno, gives_bind_ret, gives_finish.
    - apply gives_assoc, gives_bind_ret, gives_assoc, gives_set_errno, gives_bind_ret, gives_finish. }
  destruct (kcall nr [a1; a2; a3] w) as [[v|e1] w']; [apply (Hend (inl v))|apply (Hend (inr e1))].
Qed.
End gives.

(** *** The handlers *)

Section handlers.
Context {K : kernel}.
Implicit Types (g : syscall_gate_state) (G : guards) (w : world K).
Local Open Scope host_scope.

Lemma flag_two x : (x .& 2 =? 2) = nz (x .& 2).
Proof.
  change 2 with (2 ^ 1). rewrite nz_land_pow2 by lia. destruct (Z.testbit x 1) eqn:Hb.
  - apply Z.eqb_eq. apply Z.bits_inj'. intros i Hi. rewrite Z.land_spec, Z.pow2_bits_eqb by lia. destruct (Z.eqb_spec 1 i) as [<-|]; [by rewrite Hb|apply andb_false_r].
  - apply Z.eqb_neq. intros H. apply (f_equal (fun v => Z.testbit v 1)) in H. rewrite Z.land_spec, Hb in H. done.
Qed.

Lemma open_flags flags : linux_open_flags flags = translate_open_flags flags.
Proof. unfold linux_open_flags, open_bits, translate_open_flags, map_bit. cbv zeta. cbn [List.fold_left]. reflexivity. Qed.

Lemma valid_flags flags : fd_guard_flags_are_valid flags = negb (negb (nz (flags .& 2)) || nz (flags .& Z.lnot 31)).
Proof.
  unfold fd_guard_flags_are_valid, DARWIN_GUARD_REQUIRED, DARWIN_GUARD_ALL. rewrite flag_two. change 0x1f with 31. unfold nz.
  by destruct (flags .& 2 =? 0), (flags .& Z.lnot 31 =? 0).
Qed.
Lemma read_guard guard m : guard <> 0 -> read_guard_value guard m = load 8 guard m.
Proof. unfold read_guard_value. by destruct (Z.eqb_spec guard 0). Qed.

Lemma new_guard_read guard flags m : guard <> 0 ->
  new_guard guard flags m = if (read_guard_value guard m =? 0) || negb (fd_guard_flags_are_valid flags) then inr DARWIN_EINVAL else inl (load 8 guard m, flags).
Proof.
  intros H. unfold new_guard. rewrite valid_flags, read_guard, negb_involutive by done. destruct (Z.eqb_spec guard 0); [done|].
  by destruct (nz _), (nz _), (load 8 guard m =? 0).
Qed.

Lemma gives_valid fd f G w e g r : (let '(a, w') := getfd fd w in gives G w' (error_of a) (f (succeeded a)) g r) ->
  gives (K:=K) G w e (hbind (fd_is_valid fd) f) g r.
Proof.
  intros H. unfold fd_is_valid. apply gives_assoc, gives_set_errno, gives_assoc, gives_syscall. change (kcall _ _ w) with (getfd fd w).
  destruct (getfd fd w) as [[v|n] w']; apply gives_bind_ret; exact H.
Qed.

(** The flags a registered descriptor has. *)
Lemma gives_current_flags fd flags f G w e g r :
  (let '(a, w') := getfd fd w in gives G w' (error_of a) (f (exec_flag a .| (if nz (flags .& 1) then 2 else 0))) g r) ->
  gives (K:=K) G w e (hbind (fd_guard_current_flags fd flags) f) g r.
Proof.
  intros H. unfold fd_guard_current_flags. apply gives_assoc, gives_set_errno, gives_assoc, gives_syscall. change (kcall _ _ w) with (getfd fd w).
  destruct (getfd fd w) as [a w'].
  assert (E : map_bit flags DARWIN_GUARD_CLOSE DARWIN_FD_CLOFORK (if (0 <=? value a) && nz (value a .& FD_CLOEXEC) then DARWIN_FD_CLOEXEC else 0) =
              exec_flag a .| (if nz (flags .& 1) then 2 else 0)).
  { unfold map_bit, exec_flag, DARWIN_GUARD_CLOSE, DARWIN_FD_CLOFORK, FD_CLOEXEC, DARWIN_FD_CLOEXEC. destruct (nz (flags .& 1)); [|rewrite Z.lor_0_r]; by destruct a. }
  destruct a as [v|n]; cbv zeta; apply gives_bind_ret; cbn [value] in E; rewrite E; exact H.
Qed.

Lemma gives_set_cloexec fd flags f G w e g r :
  (let '(error, w') := set_exec_flag fd (nz (flags .& 1)) w in
   match error with
   | None => forall e', gives G w' e' (f true) g r
   | Some n => forall e', (forall G', gives G' w' e' (set_errno_failure g) g (inr n, G', w')) -> gives G w' e' (f false) g r
   end) ->
  gives (K:=K) G w e (hbind (fd_guard_set_linux_cloexec fd flags) f) g r.
Proof.
  intros H. unfold fd_guard_set_linux_cloexec. apply gives_assoc, gives_set_errno, gives_assoc, gives_syscall. unfold set_exec_flag in H.
  change (kcall Range000.SYS_fcntl [fd; Range000.F_GETFD] w) with (getfd fd w). destruct (getfd fd w) as [[v|n] w1].
  - destruct (Z.ltb_spec v 0), (Z.leb_spec 0 v); try lia.
    + apply gives_bind_ret. apply H. intros G'. apply (gives_set_errno_failure G' w1 g (inl v)).
    + cbv zeta. apply gives_assoc, gives_set_errno, gives_assoc, gives_syscall.
      assert (E : kcall (K:=K) 25 [fd; 2; if nz (flags .& 1) then i32 v .| 1 else i32 v .& Z.lnot 1] w1 =
        kcall Range000.SYS_fcntl [fd; Range000.F_SETFD; if nz (flags .& DARWIN_FD_CLOEXEC) then i32 v .| FD_CLOEXEC else i32 v .& Z.lnot FD_CLOEXEC] w1) by done.
      rewrite E in H. destruct (kcall _ _ w1) as [a w2].
      destruct a as [v2|n]; apply gives_bind_ret.
      * destruct v2; cbn [Z.eqb]; [apply H|apply H; intros G'; apply (gives_set_errno_failure G' w2 g (inl _))..].
      * apply H. intros G'. apply (gives_set_errno_failure G' w2 g (inr n)).
  - apply gives_bind_ret. apply H. intros G'. apply (gives_set_errno_failure G' w1 g (inr n)).
Qed.

Lemma registered_guard l G fd guard flags : guards_are l G ->
  match fd_guard_free_entry (fd_guard_remove fd l) with
  | None => full G fd = true /\ guards_are (fd_guard_remove fd l) G
  | Some i => full G fd = false /\ forall fdflags,
      guards_are (<[i := mk_guard fd guard flags fdflags true]> (fd_guard_remove fd l)) (<[fd := (guard, flags, fdflags)]> G)
  end.
Proof.
  intros Hl. pose proof (guard_removed l G fd Hl) as Hr. pose proof (free_tracked _ _ _ _ _ (proj1 Hr)) as Hf.
  pose proof (tracks_size _ _ _ _ _ (proj1 Hl)) as Hs. pose proof (List.filter_length_le g_in_use l) as Hle. destruct Hl as [Hl Hn], Hr as [Hr Hn'].
  fold (fd_guard_free_entry (fd_guard_remove fd l)) in Hf. rewrite Hn' in Hf. unfold free in Hf. unfold fd_guard_free_entry, full.
  unfold MACHGATE_FD_GUARD_MAX in *. destruct (Range200.find_slot _ (fd_guard_remove fd l)) as [i|].
  - destruct Hf as [Hlt (e & He & Hu)]. split.
    + apply andb_false_iff. destruct (decide (G !! fd = None)) as [Hnone|]; [right|left; by apply bool_decide_eq_false].
      rewrite delete_id in Hlt by done. lia.
    + intros fdflags. split; [|by rewrite length_insert]. rewrite <- (insert_delete_eq G).
      apply (tracks_put g_in_use g_fd guard_info _ _ _ e (mk_guard fd guard flags fdflags true)); [done..|]. rewrite Hu. apply lookup_delete_eq.
  - assert (Hnone : G !! fd = None).
    { destruct (G !! fd) as [v|] eqn:Hv; [|done]. exfalso. rewrite map_size_delete_Some in Hf by by exists v.
      assert (size G <> 0%nat) by (intros H0; apply map_size_empty_iff in H0; subst; done). lia. }
    rewrite delete_id in Hf, Hr by done. split; [|done]. rewrite bool_decide_true by done. lia.
Qed.

Lemma gives_register fd guard flags f G w e g r :
  (if full G fd then gives G w e (f false) g r
   else let '(a, w') := getfd fd w in
        gives (<[fd := (guard, flags, exec_flag a .| (if nz (flags .& 1) then 2 else 0))]> G) w' (error_of a) (f true) g r) ->
  gives (K:=K) G w e (hbind (fd_guard_register fd guard flags) f) g r.
Proof.
  intros H p Hp Hw He. unfold fd_guard_register. pose proof (registered_guard _ G fd guard flags Hp) as Hr.
  set (q := with_vm (with_guards (fd_guard_remove fd (fd_guard_entries (p_vm p))) (p_vm p)) p).
  set (rest := match fd_guard_free_entry (fd_guard_remove fd (fd_guard_entries (p_vm p))) return host statics K bool with
      | None => hret false
      | Some i => let* fdflags := fd_guard_current_flags fd flags in
                  do* on_guards (fun l => <[i := mk_guard fd guard flags fdflags true]> l) in hret true
      end).
  cut (let '(a, G', w') := r in let '(g', p') := hbind rest f q in
       g' = Range200.answered g a /\ guards_are (fd_guard_entries (p_vm p')) G' /\ (p_mem p', p_kernel p') = w'); [done|]. subst rest.
  destruct (fd_guard_free_entry _) as [i|].
  - destruct Hr as [Hn Hr]. rewrite Hn in H. clear Hn.
    assert (Hf : forall p', fd_guard_entries (p_vm p') = fd_guard_remove fd (fd_guard_entries (p_vm p)) -> (p_mem p', p_kernel p') = w -> p_errno p' = e ->
      let '(a, G', w') := r in let '(g', p2) := hbind (let* fdflags := fd_guard_current_flags fd flags in
        do* on_guards (fun l => <[i := mk_guard fd guard flags fdflags true]> l) in hret true) f p' in
      g' = Range200.answered g a /\ guards_are (fd_guard_entries (p_vm p2)) G' /\ (p_mem p2, p_kernel p2) = w'); [|by apply Hf].
    intros p' Hp' Hw' He'. unfold fd_guard_current_flags, hbind, set_errno, syscall, on_guards, on_statics, hbind, get_vm, set_vm, hret. cbn [p_mem p_kernel with_errno].
    unfold getfd, kcall in H. subst w. injection Hw' as Hm Hk. cbn [fst snd] in H. rewrite <- Hm, <- Hk in H.
    change Range000.SYS_fcntl with 25. change Range000.F_GETFD with 1.
    assert (Eflag : forall a, map_bit flags DARWIN_GUARD_CLOSE DARWIN_FD_CLOFORK (if (0 <=? value a) && nz (value a .& FD_CLOEXEC) then DARWIN_FD_CLOEXEC else 0) =
              exec_flag a .| (if nz (flags .& 1) then 2 else 0)).
    { intros a. unfold map_bit, exec_flag, DARWIN_GUARD_CLOSE, DARWIN_FD_CLOFORK, FD_CLOEXEC, DARWIN_FD_CLOEXEC. destruct (nz (flags .& 1)); [|rewrite Z.lor_0_r]; by destruct a. }
    destruct (k_syscall K 25 [fd; 1] (p_mem p') (p_kernel p')) as [[a m] k]. specialize (Eflag a).
    destruct a as [v|n]; cbn [value] in Eflag; rewrite Eflag; eapply H; cbn; try done; rewrite Hp'; apply Hr.
  - destruct Hr as [Hn Hr]. rewrite Hn in H. by apply (H q).
Qed.

Lemma guard_entry s G fd : guards_are (fd_guard_entries s) G ->
  option_map guard_info (option_map (fun i => nth i (fd_guard_entries s) no_guard) (fd_guard_entry_for_fd fd (fd_guard_entries s))) = G !! fd.
Proof.
  intros Hs. pose proof (guard_found _ _ fd Hs) as Hf. destruct (fd_guard_entry_for_fd fd (fd_guard_entries s)) as [i|]; [|by rewrite Hf].
  destruct Hf as (e & He & _ & _ & ->). cbn. by rewrite (nth_lookup_Some _ _ _ _ He).
Qed.

Lemma gives_prepare guard flags next G w e g r :
  match new_guard guard flags (fst w) with inr n => r = (inr n, G, w) | inl (v, _) => gives G w e (next v) g r end ->
  gives (K:=K) G w e (fd_guard_prepare_new g guard flags next) g r.
Proof.
  unfold fd_guard_prepare_new. intros H. destruct (Z.eqb_spec guard 0) as [->|Hg]; [cbn in H; subst r; apply gives_failure|].
  rewrite new_guard_read in H by done. destruct (fd_guard_flags_are_valid flags); cbn [negb] in *.
  - apply gives_mem. rewrite orb_false_r in H. destruct (read_guard_value guard (fst w) =? 0); [subst r; apply gives_failure|].
    by rewrite read_guard by done.
  - rewrite orb_true_r in H. subst r. apply gives_failure.
Qed.

Lemma gives_opened G w g a guard flags :
  gives (K:=K) G w (error_of a) (register_opened g (value a) guard flags) g
    (match answer_of a with
     | inr e => (inr e, G, w)
     | inl v =>
         let fd := i32 v in
         if full G fd then let '(_, w) := kcall 57 [fd] w in (inr DARWIN_ENOMEM, G, w)
         else
           let '(r, w) := getfd fd w in
           (inl v, <[fd := (guard, flags, exec_flag r .| (if nz (flags .& 1) then 2 else 0))]> G, w)
     end).
Proof.
  unfold register_opened. rewrite value_succeeded, value_outcome. destruct (succeeded a); cbn [negb]; [|apply gives_set_errno_failure].
  cbv zeta. apply gives_register. destruct (full G (i32 (value a))); cbn [negb].
  - apply gives_syscall. change SYS_close with 57. destruct (kcall 57 _ w) as [[v|n] w']; apply gives_failure.
  - destruct (getfd (i32 (value a)) w) as [b w']. apply gives_success.
Qed.

Lemma gives_opens G w e g : In (gs_x g 16) [441; 443; 484] ->
  gives (K:=K) G w e (if gs_x g 16 =? 441 then dispatch_guarded_open g else if gs_x g 16 =? 443 then dispatch_guarded_kqueue g
                      else dispatch_guarded_open_dprotected g) g (opens (gs_x g) G w).
Proof.
  intros Hx. unfold opens, opening. set (x := gs_x g) in *.
  assert (Hgo : forall guard flags nr args, gives G w e (fd_guard_prepare_new g guard flags (fun v =>
      do* set_errno 0 in let* result := syscall nr args in register_opened g result v flags)) g
    (match (match new_guard guard flags (fst w) with inl v => inl (v, (nr, args)) | inr n => inr n end) with
     | inr n => (inr n, G, w)
     | inl (v, flags, (nr, args)) =>
         let '(r, w) := kcall nr args w in
         match answer_of r with
         | inr n => (inr n, G, w)
         | inl v' =>
             let fd := i32 v' in
             if full G fd then let '(_, w) := kcall 57 [fd] w in (inr DARWIN_ENOMEM, G, w)
             else
               let '(r, w) := getfd fd w in
               (inl v', <[fd := (v, flags, exec_flag r .| (if nz (flags .& 1) then 2 else 0))]> G, w)
         end
     end)).
  { intros guard flags nr args. apply gives_prepare. unfold new_guard. destruct (guard =? 0); [done|]. destruct (_ || _); [done|].
    apply gives_call. destruct (kcall nr args w) as [a w']. apply gives_opened. }
  unfold dispatch_guarded_open, dispatch_guarded_kqueue, dispatch_guarded_open_dprotected. fold x. rewrite <- ?open_flags. cbv zeta.
  unfold DARWIN_O_CLOEXEC. assert (Enz : forall v, nz v = negb (v =? 0)) by done.
  destruct Hx as [Hn|[Hn|[Hn|[]]]]; rewrite <- Hn; cbn [Z.eqb Pos.eqb andb]; rewrite ?Enz.
  - destruct (i32 (x 3) .& 0x01000000 =? 0); cbn [negb]; [apply gives_failure|]. apply Hgo.
  - apply Hgo.
  - destruct (i32 (x 3) .& 0x01000000 =? 0); cbn [negb]; [apply gives_failure|].
    destruct (negb (i32 (x 5) .& 3 =? 0) && negb (i32 (x 3) .& 3 =? 0)); [apply gives_failure|]. apply Hgo.
Qed.

Lemma gives_validate next G w e g r : let fd := i32 (gs_x g 0) in let guard := gs_x g 1 in
  (if guard =? 0 then r = (inr DARWIN_EFAULT, G, w)
   else match G !! fd with
   | None => r = (let '(a, w') := getfd fd w in (inr (if succeeded a then DARWIN_EINVAL else DARWIN_EBADF), G, w'))
   | Some (v, _, _) => if negb (load 8 guard (fst w) =? v) then r = (inr DARWIN_EPERM, G, w) else gives G w e next g r
   end) ->
  gives (K:=K) G w e (fd_guard_validate g fd guard next) g r.
Proof.
  cbv zeta. intros H. unfold fd_guard_validate. destruct (Z.eqb_spec (gs_x g 1) 0) as [H0|H0]; [subst r; apply gives_failure|].
  apply gives_vm. intros s Hs. pose proof (guard_found _ _ (i32 (gs_x g 0)) Hs) as Hf. destruct (fd_guard_entry_for_fd _ (fd_guard_entries s)) as [i|].
  - destruct Hf as (n & He & _ & _ & HG). rewrite HG in H. cbn [guard_info] in H. apply gives_mem. rewrite (nth_lookup_Some _ _ _ _ He), read_guard by done.
    destruct (_ =? g_guard n); cbn [negb] in *; [done|]. subst r. apply gives_failure.
  - rewrite Hf in H. subst r. apply gives_valid. destruct (getfd _ w) as [a w']. destruct (succeeded a); apply gives_failure.
Qed.

Lemma gives_uses G w e g : In (gs_x g 16) [442; 485; 486; 487] ->
  gives (K:=K) G w e (if gs_x g 16 =? 442 then dispatch_guarded_close g else if gs_x g 16 =? 485 then dispatch_guarded_write g
                      else if gs_x g 16 =? 486 then dispatch_guarded_pwrite g else dispatch_guarded_writev g) g (uses (gs_x g) G w).
Proof.
  intros Hx. unfold dispatch_guarded_close, dispatch_guarded_write, dispatch_guarded_pwrite, dispatch_guarded_writev, uses. cbv zeta.
  set (x := gs_x g) in *.
  destruct (Z.eqb_spec (x 16) 442) as [Hn|Hn]; [|destruct (Z.eqb_spec (x 16) 485) as [Hn1|Hn1]; [|destruct (Z.eqb_spec (x 16) 486) as [Hn2|Hn2]]];
    apply gives_validate; fold x; (destruct (x 1 =? 0); [done|]); (destruct (G !! i32 (x 0)) as [[[v flags] fdflags]|]; [|done]);
    (destruct (load 8 (x 1) (fst w) =? v); cbn [negb]; [|done]).
  - apply gives_call. change SYS_close with 57. destruct (kcall 57 [i32 (x 0)] w) as [a w']. rewrite value_succeeded.
    destruct (succeeded a); cbn [negb]; [|apply gives_set_errno_failure].
    apply gives_guards with (G1 := delete (i32 (x 0)) G); [intros l Hl; by apply guard_removed|apply gives_success].
  - apply gives_sigpipe.
  - apply gives_forward.
  - apply gives_sigpipe.
Qed.

Lemma stated_error x entry m : old_guard_error (x 1) (u32 (x 2)) entry m = stated x (option_map guard_info entry) m.
Proof.
  unfold old_guard_error, stated. destruct entry as [n|]; cbn [option_map guard_info].
  - destruct (Z.eqb_spec (x 1) 0) as [|H1]; [done|]. destruct (u32 (x 2) =? 0); [done|]. cbn [orb]. rewrite read_guard by done.
    unfold nz. destruct (Z.eqb_spec (load 8 (x 1) m) 0) as [E|E].
    + rewrite E. destruct (Z.eqb_spec (g_guard n) 0); cbn [negb andb]; [done|]. destruct (Z.eqb_spec 0 (g_guard n)); [congruence|done].
    + destruct (Z.eqb_spec (load 8 (x 1) m) (g_guard n)) as [E2|]; [|by rewrite andb_false_r].
      destruct (Z.eqb_spec (g_guard n) 0); [congruence|]. by destruct (u32 (x 2) =? g_guardflags n).
  - unfold nz. by destruct (x 1 =? 0), (u32 (x 2) =? 0).
Qed.

(** The tail of a change that sets a guard. *)
Lemma gives_set_guard fd guard flags requested entry G w e g : option_map guard_info entry = G !! fd ->
  gives (K:=K) G w e
    (let* ok := (match entry with Some _ => hret true | None => fd_guard_set_linux_cloexec fd DARWIN_FD_CLOEXEC end) in
     if negb ok then set_errno_failure g
     else
       let* registered := fd_guard_register fd guard flags in
       if negb (registered : bool) then failed g DARWIN_ENOMEM
       else
         let clofork := nz (flags .& DARWIN_GUARD_CLOSE) || nz (requested .& DARWIN_FD_CLOFORK) in
         do* on_guards (set_fdflags fd (if clofork then DARWIN_FD_CLOEXEC .| DARWIN_FD_CLOFORK else DARWIN_FD_CLOEXEC)) in
         done g) g
    (let '(error, w) := (match G !! fd with Some _ => (None, w) | None => set_exec_flag fd true w end) in
     match error with
     | Some n => (inr n, G, w)
     | None =>
         if full G fd then (inr DARWIN_ENOMEM, G, w)
         else let '(_, w) := getfd fd w in
              (inl 0, <[fd := (guard, flags, if nz (flags .& 1) || nz (requested .& 2) then 3 else 1)]> G, w)
     end).
Proof.
  intros He.
  assert (Hreg : forall w e, gives G w e
    (let* registered := fd_guard_register fd guard flags in
       if negb (registered : bool) then failed g DARWIN_ENOMEM
       else
         let clofork := nz (flags .& DARWIN_GUARD_CLOSE) || nz (requested .& DARWIN_FD_CLOFORK) in
         do* on_guards (set_fdflags fd (if clofork then DARWIN_FD_CLOEXEC .| DARWIN_FD_CLOFORK else DARWIN_FD_CLOEXEC)) in
         done g) g
    (if full G fd then (inr DARWIN_ENOMEM, G, w)
     else let '(_, w) := getfd fd w in
          (inl 0, <[fd := (guard, flags, if nz (flags .& 1) || nz (requested .& 2) then 3 else 1)]> G, w))).
  { intros w0 e0. apply gives_register. destruct (full G fd); cbn [negb]; [apply gives_failure|].
    destruct (getfd fd w0) as [a w']. cbv zeta. eapply gives_guards; [intros l Hl; by eapply guard_fdflags_set|]. apply gives_success. }
  rewrite <- He. destruct entry as [n|]; cbn [option_map].
  - apply gives_bind_ret. apply Hreg.
  - apply gives_set_cloexec. change (nz (DARWIN_FD_CLOEXEC .& 1)) with true. destruct (set_exec_flag fd true w) as [[n|] w'].
    + intros e' H. apply H.
    + intros e'. apply Hreg.
Qed.

Lemma gives_change G w e g : gives (K:=K) G w e (dispatch_change_fdguard g) g (changes (gs_x g) G w).
Proof.
  unfold dispatch_change_fdguard, changes. cbv zeta. set (x := gs_x g). apply gives_vm. intros s Hs. pose proof (guard_entry s G (i32 (x 0)) Hs) as He.
  revert He. generalize (option_map (fun i => nth i (fd_guard_entries s) no_guard) (fd_guard_entry_for_fd (i32 (x 0)) (fd_guard_entries s))).
  clear s Hs. intros entry He. apply gives_valid. destruct (getfd (i32 (x 0)) w) as [a w1]. destruct (succeeded a); cbn [negb]; [|apply gives_failure].
  set (requested := if nz (x 5) then load 4 (x 5) (fst w1) else 0).
  assert (Hend : forall w' e', gives G w' e'
    (let* m := get_mem in
     match old_guard_error (x 1) (u32 (x 2)) entry m with
     | Some n => failed g n
     | None =>
         if nz (x 3) then
           if (read_guard_value (x 3) m =? 0) || negb (fd_guard_flags_are_valid (u32 (x 4))) then failed g DARWIN_EINVAL
           else
             let* ok := (match entry with Some _ => hret true | None => fd_guard_set_linux_cloexec (i32 (x 0)) DARWIN_FD_CLOEXEC end) in
             if negb ok then set_errno_failure g
             else
               let* registered := fd_guard_register (i32 (x 0)) (read_guard_value (x 3) m) (u32 (x 4)) in
               if negb (registered : bool) then failed g DARWIN_ENOMEM
               else
                 do* on_guards (set_fdflags (i32 (x 0)) (if nz (u32 (x 4) .& DARWIN_GUARD_CLOSE) || nz (requested .& DARWIN_FD_CLOFORK)
                                                         then DARWIN_FD_CLOEXEC .| DARWIN_FD_CLOFORK else DARWIN_FD_CLOEXEC)) in
                 done g
         else
           match entry with
           | None => failed g DARWIN_EINVAL
           | Some _ =>
               if nz (u32 (x 4)) then failed g DARWIN_EINVAL
               else
                 do* on_guards (fd_guard_remove (i32 (x 0))) in
                 let* ok := fd_guard_set_linux_cloexec (i32 (x 0)) requested in
                 if negb ok then set_errno_failure g else done g
           end
     end) g
    (match stated x (G !! i32 (x 0)) (fst w') with
     | Some n => (inr n, G, w')
     | None =>
         if nz (x 3) then
           match new_guard (x 3) (u32 (x 4)) (fst w') with
           | inr _ => (inr DARWIN_EINVAL, G, w')
           | inl (guard, flags) =>
               let '(error, w) := (match G !! i32 (x 0) with Some _ => (None, w') | None => set_exec_flag (i32 (x 0)) true w' end) in
               match error with
               | Some n => (inr n, G, w)
               | None =>
                   if full G (i32 (x 0)) then (inr DARWIN_ENOMEM, G, w)
                   else
                     let '(_, w) := getfd (i32 (x 0)) w in
                     (inl 0, <[i32 (x 0) := (guard, flags, if nz (flags .& 1) || nz (requested .& 2) then 3 else 1)]> G, w)
               end
           end
         else if nz (u32 (x 4)) || bool_decide (G !! i32 (x 0) = None) then (inr DARWIN_EINVAL, G, w')
         else
           let '(error, w) := set_exec_flag (i32 (x 0)) (nz (requested .& 1)) w' in
           (match error with None => inl 0 | Some n => inr n end, delete (i32 (x 0)) G, w)
     end)).
  { intros w' e'. apply gives_mem. rewrite stated_error, He. destruct (stated x (G !! i32 (x 0)) (fst w')); [apply gives_failure|].
    destruct (nz (x 3)) eqn:H3.
    - rewrite new_guard_read by (intros Hz; by rewrite Hz in H3). destruct (_ || _); [apply gives_failure|].
      rewrite read_guard by (intros Hz; by rewrite Hz in H3). by apply gives_set_guard.
    - rewrite <- He. destruct entry as [n|]; cbn [option_map]; [|rewrite orb_true_r; apply gives_failure].
      destruct (nz (u32 (x 4))); cbn [orb]; [apply gives_failure|]. rewrite bool_decide_false by done.
      apply gives_guards with (G1 := delete (i32 (x 0)) G); [intros l Hl; by apply guard_removed|]. apply gives_set_cloexec.
      destruct (set_exec_flag (i32 (x 0)) (nz (requested .& 1)) w') as [[k|] w2].
      + intros e2 H. apply H.
      + intros e2. apply gives_success. }
  subst requested. destruct (nz (x 5)).
  - unfold ld, st, write, on_mem. apply gives_assoc, gives_mem, gives_bind_ret, gives_assoc. rewrite <- He in Hend |- *. destruct entry as [n|]; cbn [option_map guard_info] in *.
    + apply gives_bind_ret, gives_assoc, gives_mem, gives_assoc, gives_set_mem, gives_bind_ret. exact (Hend _ _).
    + apply gives_current_flags. destruct (getfd (i32 (x 0)) w1) as [b w2]. change (nz (0 .& 1)) with false. cbv iota. rewrite Z.lor_0_r.
      apply gives_assoc, gives_mem, gives_assoc, gives_set_mem, gives_bind_ret. exact (Hend _ _).
  - do 2 apply gives_bind_ret. apply Hend.
Qed.

Lemma guard_calls_give G w e g : In (gs_x g 16) guard_numbers -> gives (K:=K) G w e (guard_calls g) g (guard_spec (gs_x g) G w).
Proof.
  intros Hx. unfold guard_calls, guard_spec.
  pose proof (gives_opens G w e g) as Ho. pose proof (gives_uses G w e g) as Hu. pose proof (gives_change G w e g) as Hc.
  revert Ho Hu Hc. cbn in Hx. repeat destruct Hx as [<-|Hx]; [..|done]; intros Ho Hu Hc;
    first [apply Ho; cbn; tauto|apply Hu; cbn; tauto|exact Hc].
Qed.
End handlers.

(** C13. The calls on guarded descriptors work on a finite map from descriptors
    to guards, of at most 1024 entries, and make the system calls they stand
    for: what the guest is answered, the map afterwards, the memory and the state
    of the kernel are those of [guard_spec].  A call that opens a descriptor is
    refused without a proper guard and O_CLOEXEC; else it makes one openat or
    eventfd2 with the translated flags, and enters the descriptor it got with the
    guard it was given, or closes it again when the map is full.  Close, write,
    pwrite and writev are made on the descriptor, with the arguments of the
    guest, for the caller that has its guard, and refused with the right error
    for any other; a descriptor that was closed has left the map.
    change_fdguard_np replaces, adds or drops the guard of the descriptor when the
    caller states the present one.  The table of the code stays one entry per
    descriptor. *)
Theorem fd_guards_refine {K : kernel} g (p : process statics K) G : In (gs_x g 16) guard_numbers ->
  guards_are (fd_guard_entries (p_vm p)) G ->
  let '(a, G', (m', k')) := guard_spec (gs_x g) G (p_mem p, p_kernel p) in
  let '(g', p') := guard_calls g p in
  g' = Range200.answered g a /\ guards_are (fd_guard_entries (p_vm p')) G' /\ p_mem p' = m' /\ p_kernel p' = k'.
Proof.
  intros Hx Hp. pose proof (guard_calls_give G (p_mem p, p_kernel p) (p_errno p) g Hx p Hp eq_refl eq_refl) as H.
  destruct (guard_spec _ _ _) as [[a G'] [m' k']]. destruct (guard_calls g p) as [g' p']. destruct H as (Ha & HG & [= -> ->]). done.
Qed.

(** C14. A descriptor whose guard the caller does not have is out of reach of
    the guarded calls: close, write, pwrite and writev with another guard answer
    EPERM, and do nothing: no system call is made, and memory and tables stay as
    they are. *)
Theorem wrong_guard_refused {K : kernel} g (p : process statics K) G w flags fdflags : In (gs_x g 16) [442; 485; 486; 487] ->
  guards_are (fd_guard_entries (p_vm p)) G -> G !! i32 (gs_x g 0) = Some (w, flags, fdflags) ->
  gs_x g 1 <> 0 -> load 8 (gs_x g 1) (p_mem p) <> w ->
  guard_calls g p = (set_failure g DARWIN_EPERM, p).
Proof.
  intros Hx Hp HG H1 Hw. pose proof (guard_found _ _ (i32 (gs_x g 0)) Hp) as Hf.
  assert (Hv : forall next, fd_guard_validate g (i32 (gs_x g 0)) (gs_x g 1) next p = (set_failure g DARWIN_EPERM, p)).
  { intros next. unfold fd_guard_validate. destruct (Z.eqb_spec (gs_x g 1) 0) as [|H1']; [done|]. unfold hbind, get_vm, get_mem.
    destruct (fd_guard_entry_for_fd _ _) as [i|]; [|congruence]. destruct Hf as (e & He & _ & _ & HG'). rewrite HG in HG'. injection HG' as -> _ _.
    rewrite (nth_lookup_Some _ _ _ _ He). unfold read_guard_value. destruct (Z.eqb_spec (gs_x g 1) 0); [done|].
    destruct (Z.eqb_spec (load 8 (gs_x g 1) (p_mem p)) (g_guard e)); [done|]. done. }
  unfold guard_calls. cbn in Hx. repeat destruct Hx as [<-|Hx]; [..|done]; apply Hv.
Qed.

(** A kernel whose calls succeed: 5 is the next descriptor. *)
Definition open_kernel : kernel :=
  {| kstate := unit; k_syscall nr _ m k := (inl (if nr =? SYS_openat then 5 else 0), m, k);
     k_fstat _ k := (inr EINVAL, k); k_statfs _ k := (inr EINVAL, k); k_mounts k := (inr EINVAL, k);
     k_sigpending k := (inr EINVAL, k); k_sigaltstack _ k := (inr EINVAL, k) |}.
Definition process_with (s : statics) (m : bytemem) : process statics open_kernel := mk_proc (tt : kstate open_kernel) 0 (fun _ => default_action) 0 m s [] 1.
Definition registers (l : list (Z * Z)) : syscall_gate_state := mk_gs (List.fold_right (fun '(r, v) x => upd x r v) (fun _ => 0) l) 0 0 0.

(** Descriptor 5 has guard 7; 7 is at 0x100, 8 at 0x108. *)
Definition one_guard : statics := with_guards (<[0%nat := mk_guard 5 7 2 1 true]> (replicate 1024 no_guard)) statics_initial.
Definition two_values : bytemem := store 8 0x108 8 (store 8 0x100 7 (fun _ => 0)).

Lemma one_guard_are : guards_are (fd_guard_entries one_guard) {[5 := (7, 2, 1)]}.
Proof.
  split; [|done]. apply (tracks_put g_in_use g_fd guard_info (replicate 1024 no_guard) ∅ 0 no_guard (mk_guard 5 7 2 1 true)); try done.
  apply guards_initial.
Qed.

Lemma fd_guards_refine_witness :
  let g := registers [(16, 442); (0, 5); (1, 0x100)] in
  let p := process_with one_guard two_values in
  guard_spec (gs_x g) {[5 := (7, 2, 1)]} (two_values, tt : kstate open_kernel) = (inl 0, delete 5 {[5 := (7, 2, 1)]}, (two_values, tt)) /\
  (let '(a, G', (m', k')) := guard_spec (gs_x g) {[5 := (7, 2, 1)]} (p_mem p, p_kernel p) in
   let '(g', p') := guard_calls g p in
   g' = Range200.answered g a /\ guards_are (fd_guard_entries (p_vm p')) G' /\ p_mem p' = m' /\ p_kernel p' = k').
Proof.
  intros g p. split; [reflexivity|].
  apply (fd_guards_refine (K:=open_kernel) g p {[5 := (7, 2, 1)]}).
  - vm_compute. tauto.
  - apply one_guard_are.
Defined.

Lemma wrong_guard_refused_witness :
  guard_calls (registers [(16, 442); (0, 5); (1, 0x108)]) (process_with one_guard two_values) =
  (set_failure (registers [(16, 442); (0, 5); (1, 0x108)]) DARWIN_EPERM, process_with one_guard two_values).
Proof.
  apply (wrong_guard_refused (registers [(16, 442); (0, 5); (1, 0x108)]) (process_with one_guard two_values) {[5 := (7, 2, 1)]} 7 2 1).
  - vm_compute. tauto.
  - apply one_guard_are.
  - reflexivity.
  - vm_compute. discriminate.
  - vm_compute. discriminate.
Defined.

(** ** Workloops *)

Abbreviation workloops := (gmap Z Z).
Definition workloops_are (l : list kqueue_workloop_entry) (W : workloops) : Prop :=
  tracks w_in_use w_id w_fd l W /\ length l = Z.to_nat MACHGATE_KQUEUE_WORKLOOP_MAX.

Lemma workloops_initial : workloops_are (kqueue_workloop_entries statics_initial) ∅.
Proof. split; [|done]. apply tracks_unused. intros i e He. apply lookup_replicate in He as [-> _]. done. Qed.

(** [eventfd2] writes no memory of the process. *)
Definition eventfd_keeps_memory (K : kernel) : Prop := forall args m k, snd (fst (k_syscall K Files.SYS_eventfd2 args m k)) = m.

(** The request is well formed, and asks for a workloop that can be made, or for
    the end of one.  The parameters are at [x 2], their size is in [x 3]. *)
Definition workloop_creates (x : Z -> Z) (m : bytemem) : Prop :=
  4 <= x 3 /\ x 2 <> 0 /\ i32 (load 4 (x 2) m) = i32 (x 3) /\ x 0 = 1 /\ kqueue_workloop_params_are_valid (x 2) m = 0.
Definition workloop_destroys (x : Z -> Z) (m : bytemem) : Prop :=
  4 <= x 3 /\ x 2 <> 0 /\ i32 (load 4 (x 2) m) = i32 (x 3) /\ x 0 = 2.

(** What kqueue_workloop_ctl does to the map from identifiers to descriptors. *)
Inductive workloop_step (x : Z -> Z) (m : bytemem) (W : workloops) : Z + Z -> workloops -> Prop :=
  | step_created fd : workloop_creates x m -> W !! load 8 (x 2 + 8) m = None -> Z.of_nat (size W) < MACHGATE_KQUEUE_WORKLOOP_MAX ->
      workloop_step x m W (inl 0) (<[load 8 (x 2 + 8) m := fd]> W)
  | step_exists : workloop_creates x m -> is_Some (W !! load 8 (x 2 + 8) m) -> workloop_step x m W (inr DARWIN_EEXIST) W
  | step_full : workloop_creates x m -> W !! load 8 (x 2 + 8) m = None -> Z.of_nat (size W) = MACHGATE_KQUEUE_WORKLOOP_MAX ->
      workloop_step x m W (inr DARWIN_ENOMEM) W
  | step_create_failed e : workloop_creates x m -> linux_error e -> workloop_step x m W (inr e) W
  | step_destroyed fd : workloop_destroys x m -> W !! load 8 (x 2 + 8) m = Some fd -> workloop_step x m W (inl 0) (delete (load 8 (x 2 + 8) m) W)
  | step_destroy_unknown : workloop_destroys x m -> W !! load 8 (x 2 + 8) m = None -> workloop_step x m W (inr DARWIN_EINVAL) W
  | step_invalid e : ~ workloop_creates x m -> ~ workloop_destroys x m -> e = DARWIN_EINVAL \/ e = DARWIN_ENOTSUP -> workloop_step x m W (inr e) W.

Section workloops.
Context {K : kernel} (HK : eventfd_keeps_memory K).
Implicit Types g : syscall_gate_state.

Lemma workloop_found l W id : workloops_are l W ->
  match kqueue_workloop_find id l with
  | Some i => exists e, l !! i = Some e /\ w_in_use e = true /\ w_id e = id /\ W !! id = Some (w_fd e)
  | None => W !! id = None
  end.
Proof. intros [Ht _]. apply (find_tracked _ _ _ _ _ id Ht). Qed.

Lemma params_error params m : let e := kqueue_workloop_params_are_valid params m in e = 0 \/ e = DARWIN_EINVAL \/ e = DARWIN_ENOTSUP.
Proof.
  unfold kqueue_workloop_params_are_valid. cbv zeta.
  repeat (match goal with |- context [if ?b then _ else _] => destruct b end; [auto|]). auto.
Qed.

Lemma workloop_added l W id : workloops_are l W -> W !! id = None ->
  match kqueue_workloop_free_entry l with
  | Some i => Z.of_nat (size W) < MACHGATE_KQUEUE_WORKLOOP_MAX /\ forall fd, workloops_are (<[i := mk_workloop id fd true]> l) (<[id := fd]> W)
  | None => Z.of_nat (size W) = MACHGATE_KQUEUE_WORKLOOP_MAX
  end.
Proof.
  intros [Ht Hl] Hid. pose proof (free_tracked _ _ _ _ _ Ht) as Hf. unfold free in Hf. unfold kqueue_workloop_free_entry. rewrite Hl in Hf.
  unfold MACHGATE_KQUEUE_WORKLOOP_MAX in *. destruct (Range200.find_slot _ l) as [i|]; [|lia]. destruct Hf as [Hlt (e & He & Hu)].
  split; [lia|]. intros fd. split; [|by rewrite length_insert].
  apply (tracks_put w_in_use w_id w_fd _ _ _ e (mk_workloop id fd true)); [done..|]. by rewrite Hu.
Qed.

Lemma workloop_removed l W i e : workloops_are l W -> l !! i = Some e -> w_in_use e = true -> workloops_are (<[i := no_workloop]> l) (delete (w_id e) W).
Proof. intros [Ht Hl] He Hu. split; [by eapply tracks_delete|by rewrite length_insert]. Qed.

(** What a computation on the table does, on the map. *)
Definition works (c : host statics K syscall_gate_state) g (p : process statics K) (W : workloops) : Prop :=
  exists a W', fst (c p) = Range200.answered g a /\ workloop_step (gs_x g) (p_mem p) W a W' /\ workloops_are (kqueue_workloop_entries (p_vm (snd (c p)))) W'.

Lemma works_failed e g p W : workloops_are (kqueue_workloop_entries (p_vm p)) W -> workloop_step (gs_x g) (p_mem p) W (inr e) W -> works (failed g e) g p W.
Proof. intros Hp He. by exists (inr e), W. Qed.

Lemma create_works g p W : workloops_are (kqueue_workloop_entries (p_vm p)) W ->
  4 <= gs_x g 3 -> gs_x g 2 <> 0 -> i32 (load 4 (gs_x g 2) (p_mem p)) = i32 (gs_x g 3) -> gs_x g 0 = 1 -> works (workloop_create g (gs_x g 2)) g p W.
Proof.
  intros Hp H3 H2 Hv H0. unfold workloop_create, works, hbind, get_mem, get_vm. cbv zeta. cbn [p_mem p_vm].
  set (id := load 8 (gs_x g 2 + 8) (p_mem p)).
  destruct (nz (kqueue_workloop_params_are_valid (gs_x g 2) (p_mem p))) eqn:He.
  { apply works_failed; [done|]. apply step_invalid.
    - unfold workloop_creates. intros (_ & _ & _ & _ & Hz). by rewrite Hz in He.
    - unfold workloop_destroys. lia.
    - destruct (params_error (gs_x g 2) (p_mem p)) as [Hz|Hz]; [by rewrite Hz in He|done]. }
  assert (Hc : workloop_creates (gs_x g) (p_mem p)).
  { do 4 (split; [done|]). unfold nz in He. by destruct (Z.eqb_spec (kqueue_workloop_params_are_valid (gs_x g 2) (p_mem p)) 0). }
  pose proof (workloop_found _ _ id Hp) as Hf. destruct (kqueue_workloop_find id _) as [i|].
  { apply works_failed; [done|]. apply step_exists; [done|]. destruct Hf as (e & _ & _ & _ & Hw). by exists (w_fd e). }
  pose proof (workloop_added _ _ id Hp Hf) as Ha. destruct (kqueue_workloop_free_entry _) as [i|].
  2:{ apply works_failed; [done|]. by apply step_full. }
  destruct Ha as [Hlt Ha]. unfold set_errno. cbv iota beta. unfold syscall. cbn [p_mem p_kernel with_errno].
  pose proof (HK [0; Files.EFD_CLOEXEC] (p_mem p) (p_kernel p)) as Hm. destruct (k_syscall _ _ _ _ _) as [[[fd|e] m'] k]; cbn in Hm; subst m'.
  - destruct (Z.ltb_spec fd 0).
    + eexists (inr _), W. split; [done|]. split; [|done]. apply step_create_failed; [done|]. by eexists.
    + eexists (inl 0), _. split; [done|]. split; [by apply (step_created _ _ _ (i32 fd))|]. cbn. apply Ha.
  - eexists (inr _), W. split; [done|]. split; [|done]. apply step_create_failed; [done|]. by eexists.
Qed.

Lemma destroy_works g p W : workloops_are (kqueue_workloop_entries (p_vm p)) W -> workloop_destroys (gs_x g) (p_mem p) ->
  works (workloop_destroy g (gs_x g 2)) g p W.
Proof.
  intros Hp Hd. unfold workloop_destroy, works, ld, hbind, get_mem, get_vm, hret. cbv zeta.
  pose proof (workloop_found _ _ (load 8 (gs_x g 2 + 8) (p_mem p)) Hp) as Hf. destruct (kqueue_workloop_find _ _) as [i|].
  2:{ apply works_failed; [done|]. by apply step_destroy_unknown. }
  destruct Hf as (e & He & Hu & Hk & Hw). pose proof (kept_syscall tables (K:=K) SYS_close [w_fd (nth i (kqueue_workloop_entries (p_vm p)) no_workloop)] p) as Hq.
  destruct (syscall SYS_close _ p) as [r q]. unfold tables in Hq. cbn in Hq. injection Hq as _ _ Hq.
  eexists (inl 0), _. split; [done|]. split; [by eapply step_destroyed|]. cbn. rewrite Hq, <- Hk. by eapply workloop_removed.
Qed.

(** kqueue_workloop_ctl works on a finite map from identifiers to descriptors, of
    at most 64 entries. *)
Lemma kqueue_workloops_refine g p W : workloops_are (kqueue_workloop_entries (p_vm p)) W -> works (dispatch_kqueue_workloop_ctl g) g p W.
Proof.
  intros Hp. unfold dispatch_kqueue_workloop_ctl. cbv zeta.
  assert (Hinvalid : ~ workloop_creates (gs_x g) (p_mem p) -> ~ workloop_destroys (gs_x g) (p_mem p) -> works (failed g DARWIN_EINVAL) g p W).
  { intros Hc Hd. apply works_failed; [done|]. apply step_invalid; auto. }
  destruct (Z.ltb_spec (gs_x g 3) 4), (Z.eqb_spec (gs_x g 2) 0); cbn [orb];
    try (apply Hinvalid; [unfold workloop_creates; lia|unfold workloop_destroys; lia]).
  change (works (fun p => (if negb (i32 (load 4 (gs_x g 2) (p_mem p)) =? i32 (gs_x g 3)) then failed g DARWIN_EINVAL
    else match gs_x g 0 with 1 => workloop_create g (gs_x g 2) | 2 => workloop_destroy g (gs_x g 2) | _ => failed g DARWIN_EINVAL end) p) g p W).
  unfold works. cbv beta. destruct (Z.eqb_spec (i32 (load 4 (gs_x g 2) (p_mem p))) (i32 (gs_x g 3))) as [Hv|Hv]; cbn [negb].
  2:{ apply Hinvalid; [unfold workloop_creates|unfold workloop_destroys]; tauto. }
  destruct (gs_x g 0) as [|[c|[c|c|]|]|c] eqn:H0;
    first [by apply create_works | by apply destroy_works | apply Hinvalid; [unfold workloop_creates; lia|unfold workloop_destroys; lia]].
Qed.
End workloops.

(** ** Ports of files *)

(** Each entry is free or has the port that tells its place. *)
Definition ports_are (l : list fileport_entry) : Prop :=
  length l = Z.to_nat MACHGATE_FILEPORT_MAX /\
  forall i e, l !! i = Some e -> port_name e = 0 \/ port_name e = MACHGATE_FILEPORT_BASE + Z.of_nat i + 1.

Lemma ports_initial : ports_are (fileport_entries statics_initial).
Proof. split; [done|]. intros i e He. apply lookup_replicate in He as [-> _]. by left. Qed.

(** Two entries never have the same port. *)
Lemma ports_unique l i j e f : ports_are l -> l !! i = Some e -> l !! j = Some f -> port_name e <> 0 -> port_name e = port_name f -> i = j.
Proof. intros [_ Hl] Hi Hj H0 Heq. destruct (Hl i e Hi), (Hl j f Hj); lia. Qed.

Lemma makeport_keeps {K : kernel} g (p : process statics K) : ports_are (fileport_entries (p_vm p)) ->
  ports_are (fileport_entries (p_vm (snd (dispatch_fileport_makeport g p)))).
Proof.
  intros Hp. unfold dispatch_fileport_makeport. cbv zeta. destruct (gs_x g 1 =? 0); [done|]. unfold hbind at 1. cbn [set_errno].
  unfold hbind at 1. pose proof (kept_syscall tables Range000.SYS_fcntl [i32 (gs_x g 0); F_DUPFD_CLOEXEC; 0] (with_errno 0 p)) as Hq.
  destruct (syscall _ _ _) as [r q]. unfold tables in Hq. cbn in Hq. injection Hq as Hq _ _. rewrite <- Hq in Hp.
  destruct (r <? 0); [done|]. unfold hbind at 1. cbn [get_vm]. destruct (fileport_index_for_port 0 _) as [i|] eqn:Hi.
  - cbn. split; [by rewrite length_insert; apply Hp|]. intros j e He. destruct Hp as [Hl Hp].
    apply Range200.find_slot_some in Hi as (f & Hf & _). assert (Hlt : (i < length (fileport_entries (p_vm q)))%nat) by (by eapply lookup_lt_Some).
    destruct (decide (j = i)) as [->|Hj].
    + rewrite list_lookup_insert_eq in He by done. injection He as <-. right. cbn. apply u32_small. unfold MACHGATE_FILEPORT_BASE, MACHGATE_FILEPORT_MAX in *. lia.
    + rewrite list_lookup_insert_ne in He by done. by eapply Hp.
  - unfold hbind at 1. pose proof (kept_syscall tables SYS_close [i32 r] q) as Hc. destruct (syscall _ _ _) as [r' q']. unfold tables in Hc. cbn in Hc |- *.
    injection Hc as Hc _ _. by rewrite Hc.
Qed.

(** Port 0 is never handed out, but names a free entry, whose descriptor is 0:
    the call makes a copy of descriptor 0. *)
Example port_zero_is_stdin {K : kernel} (p : process statics K) : fileport_entries (p_vm p) = fileport_entries statics_initial ->
  dispatch_fileport_makefd (registers [(0, 0)]) p = forward (registers [(0, 0)]) Range000.SYS_fcntl [0; F_DUPFD_CLOEXEC; 0] p.
Proof. intros Hp. unfold dispatch_fileport_makefd, hbind at 1, get_vm. by rewrite Hp. Qed.
End Tables.
