(* ===== verification/Range400Sockets.v ===== *)
(** * System calls from 400 on, sockets: src/syscall/syscall_range_400_plus.c

    Messages, addresses, connections, select, poll, fcntl and ulock.  Locals
    whose address goes to the kernel live in memory from [frame] on; the
    translations of flags, addresses and sets are copies of those of the other
    files. *)

From S2P Require Import Prelude CStr Host GateIsland GateDispatch DarwinAbi Range000 Range100 Range200 Range200Files Range400.
Import Gate Dispatch Abi Range400.

Module Sockets.

Definition DARWIN_UL_OPCODE_MASK : Z := 0x000000ff.
Definition DARWIN_ULF_WAKE_ALL : Z := 0x00000100.
Definition DARWIN_ULF_NO_ERRNO : Z := 0x01000000.
Definition DARWIN_ULF_DEADLINE : Z := 0x02000000.
Definition SHUT_RDWR : Z := 2.

(** The copies. *)
Definition translate_socket_domain : Z -> option Z := Abi.translate_socket_domain.
Definition translate_send_flags_400 : Z -> Z := Abi.translate_send_flags.
Definition translate_recv_flags_400 : Z -> Z := Abi.translate_recv_flags.
Definition translate_sockaddr : Z -> Z -> Z -> bytemem -> (Z + Z) * bytemem := Abi.translate_sockaddr.
Definition linux_sockaddr_to_darwin : Z -> Z -> Z -> Z -> bytemem -> (Z + Z) * bytemem := Abi.linux_sockaddr_to_darwin.
Definition darwin_fdset_to_linux : Z -> Z -> Z -> bytemem -> bytemem := Abi.darwin_fdset_to_linux.
Definition linux_fdset_to_darwin : Z -> Z -> Z -> bytemem -> bytemem := Abi.linux_fdset_to_darwin.

(** The other way round than [translate_open_flags], but for O_SYMLINK. *)
Definition translate_open_flags_to_darwin (linux_flags : Z) : Z :=
  let darwin_flags := linux_flags .& O_ACCMODE in
  let darwin_flags := map_bit linux_flags O_NONBLOCK DARWIN_O_NONBLOCK darwin_flags in
  let darwin_flags := map_bit linux_flags O_APPEND DARWIN_O_APPEND darwin_flags in
  let darwin_flags := map_bit linux_flags O_NOFOLLOW DARWIN_O_NOFOLLOW darwin_flags in
  let darwin_flags := map_bit linux_flags O_CREAT DARWIN_O_CREAT darwin_flags in
  let darwin_flags := map_bit linux_flags O_TRUNC DARWIN_O_TRUNC darwin_flags in
  let darwin_flags := map_bit linux_flags O_EXCL DARWIN_O_EXCL darwin_flags in
  let darwin_flags := map_bit linux_flags O_NOCTTY DARWIN_O_NOCTTY darwin_flags in
  let darwin_flags := map_bit linux_flags O_DIRECTORY DARWIN_O_DIRECTORY darwin_flags in
  let darwin_flags := map_bit linux_flags O_DSYNC DARWIN_O_DSYNC darwin_flags in
  map_bit linux_flags O_CLOEXEC DARWIN_O_CLOEXEC darwin_flags.

(** The command for Linux, or [None]; F_FULLFSYNC is another call. *)
Definition translate_fcntl_cmd (darwin_cmd : Z) : option Z :=
  match darwin_cmd with
  | 0 | 1 | 2 | 3 | 4 => Some darwin_cmd    (* F_DUPFD, F_GETFD, F_SETFD, F_GETFL, F_SETFL *)
  | 5 => Some 9                             (* F_GETOWN *)
  | 6 => Some 8                             (* F_SETOWN *)
  | 7 => Some 5                             (* F_GETLK *)
  | 8 => Some 6                             (* F_SETLK *)
  | 9 => Some 7                             (* F_SETLKW *)
  | 67 => Some F_DUPFD_CLOEXEC
  | _ => None
  end.

Definition ulock_is_32bit_operation (operation : Z) : bool :=
  match operation .& DARWIN_UL_OPCODE_MASK with 1 | 2 | 3 => true | _ => false end.
Definition ulock_is_64bit_operation (operation : Z) : bool :=
  match operation .& DARWIN_UL_OPCODE_MASK with 4 | 5 | 6 => true | _ => false end.

Definition microseconds_to_timespec (timeout_us : Z) : timespec := mk_ts (timeout_us / 1000000) (timeout_us mod 1000000 * 1000).
Definition nanoseconds_to_timespec (timeout_ns : Z) : timespec := mk_ts (timeout_ns / 1000000000) (timeout_ns mod 1000000000).

Section sockets.
Context {K : kernel} (frame : Z).
Local Abbreviation hostm := (host statics K).
Local Abbreviation ld := (Range400.ld (K:=K)).
Local Abbreviation st := (Range400.st (K:=K)).
Local Abbreviation write := (Range400.write (K:=K)).
Local Abbreviation on_mem := (Range400.on_mem (K:=K)).
Local Open Scope host_scope.
Implicit Types g : syscall_gate_state.

(** [errno = e; set_errno_failure(state)] *)
Definition fail_errno g (e : Z) : hostm syscall_gate_state := do* set_errno e in set_errno_failure g.

(** ** Messages

    [struct msghdr] of Darwin: name 0, namelen 8, iov 16, iovlen 24, control 32,
    controllen 40, flags 44; the extended one has datalen 48.  Layout of the
    frame: [linux_msg] at 0, [linux_name] at 64, [linux_name_len] at 192. *)

Definition linux_msg : Z := frame.
Definition linux_name : Z := frame + 64.
Definition linux_name_len : Z := frame + 192.

(** [msg_control || msg_controllen] *)
Definition has_control (darwin_msg : Z) : hostm bool :=
  let* control := ld 8 (darwin_msg + 32) in
  let* controllen := ld 4 (darwin_msg + 40) in
  hret (nz control || nz controllen).

(** The vector of buffers, in a cleared [linux_msg]. *)
Definition set_iov (darwin_msg : Z) : hostm unit :=
  do* write (memzero linux_msg 56) in
  let* iov := ld 8 (darwin_msg + 16) in
  do* st 8 (linux_msg + 16) iov in
  let* iovlen := ld 4 (darwin_msg + 24) in
  st 8 (linux_msg + 24) (i32 iovlen).

Definition prepare_linux_msghdr (darwin_msg : Z) : hostm (unit + Z) :=
  if darwin_msg =? 0 then hret (inr EFAULT)
  else
    let* control := has_control darwin_msg in
    if (control : bool) then hret (inr ENOSYS)
    else
      do* set_iov darwin_msg in
      let* flags := ld 4 (darwin_msg + 44) in
      do* st 4 (linux_msg + 48) flags in
      let* name := ld 8 darwin_msg in
      if name =? 0 then hret (inl tt)
      else
        let* namelen := ld 4 (darwin_msg + 8) in
        let* r := on_mem (translate_sockaddr name namelen linux_name) in
        match r with
        | inr e => hret (inr e)
        | inl len => do* st 8 linux_msg linux_name in do* st 4 (linux_msg + 8) len in hret (inl tt)
        end.
Definition prepare_linux_msghdr_x : Z -> hostm (unit + Z) := prepare_linux_msghdr.

Definition dispatch_sendmsg g : hostm syscall_gate_state :=
  let* r := prepare_linux_msghdr (gs_x g 1) in
  match r with
  | inr e => fail_errno g e
  | inl _ => forward g Range000.SYS_sendmsg [i32 (gs_x g 0); linux_msg; translate_send_flags_400 (i32 (gs_x g 2))]
  end.

(** The call that receives a message, with [linux_msg] prepared for it. *)
Definition receive (fd darwin_msg flags : Z) : hostm Z :=
  do* set_iov darwin_msg in
  let* name := ld 8 darwin_msg in
  do* (if name =? 0 then hret tt else do* st 8 linux_msg linux_name in st 4 (linux_msg + 8) 128) in
  do* set_errno 0 in
  syscall Range000.SYS_recvmsg [fd; linux_msg; flags].

(** The name of the sender for the guest, or the error. *)
Definition return_msg_name (darwin_msg : Z) : hostm (unit + Z) :=
  let* name := ld 8 darwin_msg in
  if name =? 0 then hret (inl tt)
  else
    let* capacity := ld 4 (darwin_msg + 8) in
    let* len := ld 4 (linux_msg + 8) in
    let* r := on_mem (linux_sockaddr_to_darwin linux_name len name capacity) in
    match r with
    | inr e => hret (inr e)
    | inl darwin_len => do* st 4 (darwin_msg + 8) darwin_len in hret (inl tt)
    end.

Definition dispatch_recvmsg g : hostm syscall_gate_state :=
  let darwin_msg := gs_x g 1 in
  if darwin_msg =? 0 then failed g DARWIN_EFAULT
  else
    let* control := has_control darwin_msg in
    if (control : bool) then failed g DARWIN_ENOSYS
    else
      let* result := receive (i32 (gs_x g 0)) darwin_msg (translate_recv_flags_400 (i32 (gs_x g 2))) in
      if result <? 0 then finish_syscall_result g result
      else
        let* flags := ld 4 (linux_msg + 48) in
        do* st 4 (darwin_msg + 44) flags in
        let* r := return_msg_name darwin_msg in
        match r with
        | inr e => fail_errno g e
        | inl _ => hret (set_success g result)
        end.

(** [if (sent) set_success(state, sent); else] *)
Definition count_or g (sent : Z) (otherwise : hostm syscall_gate_state) : hostm syscall_gate_state :=
  if nz sent then hret (set_success g sent) else otherwise.

(** [n] messages are left, the next is the one at index [sent]. *)
Fixpoint sendmsg_loop (n : nat) g (darwin_msg sent : Z) : hostm syscall_gate_state :=
  match n with
  | O => hret (set_success g sent)
  | S n =>
      let* r := prepare_linux_msghdr_x (darwin_msg + 56 * sent) in
      match r with
      | inr e => do* set_errno e in count_or g sent (set_errno_failure g)
      | inl _ =>
          do* set_errno 0 in
          let* result := syscall Range000.SYS_sendmsg [i32 (gs_x g 0); linux_msg; translate_send_flags_400 (i32 (gs_x g 3))] in
          if result <? 0 then count_or g sent (finish_syscall_result g result)
          else sendmsg_loop n g darwin_msg (sent + 1)
      end
  end.
Definition dispatch_sendmsg_x g : hostm syscall_gate_state :=
  let count := u32 (gs_x g 2) in
  if (gs_x g 1 =? 0) && nz count then failed g DARWIN_EFAULT
  else sendmsg_loop (Z.to_nat count) g (gs_x g 1) 0.

Fixpoint recvmsg_loop (n : nat) g (darwin_msgs received : Z) : hostm syscall_gate_state :=
  match n with
  | O => hret (set_success g received)
  | S n =>
      let darwin_msg := darwin_msgs + 56 * received in
      if darwin_msgs =? 0 then count_or g received (failed g DARWIN_EFAULT)
      else
        let* control := has_control darwin_msg in
        if (control : bool) then count_or g received (failed g DARWIN_ENOSYS)
        else
          let flags := translate_recv_flags_400 (i32 (gs_x g 3)) in
          let* result := receive (i32 (gs_x g 0)) darwin_msg (if nz received then flags .| MSG_DONTWAIT else flags) in
          if result <? 0 then count_or g received (finish_syscall_result g result)
          else
            let* msg_flags := ld 4 (linux_msg + 48) in
            do* st 4 (darwin_msg + 44) msg_flags in
            do* st 8 (darwin_msg + 48) result in
            let* r := return_msg_name darwin_msg in
            match r with
            | inr e => do* set_errno e in count_or g received (set_errno_failure g)
            | inl _ => recvmsg_loop n g darwin_msgs (received + 1)
            end
  end.
Definition dispatch_recvmsg_x g : hostm syscall_gate_state := recvmsg_loop (Z.to_nat (u32 (gs_x g 2))) g (gs_x g 1) 0.

(** ** Addresses *)

(** The name at [linux_name] goes to [addr] with its length at [len_ptr]. *)
Definition return_name g (result addr len_ptr : Z) : hostm syscall_gate_state :=
  if nz addr && nz len_ptr then
    let* capacity := ld 4 len_ptr in
    let* len := ld 4 linux_name_len in
    let* r := on_mem (linux_sockaddr_to_darwin linux_name len addr capacity) in
    match r with
    | inr e => fail_errno g e
    | inl darwin_len => do* st 4 len_ptr darwin_len in hret (set_success g result)
    end
  else hret (set_success g result).

Definition dispatch_recvfrom g : hostm syscall_gate_state :=
  let x := gs_x g in
  do* st 4 linux_name_len 128 in
  do* set_errno 0 in
  let* result := syscall Range000.SYS_recvfrom
    [i32 (x 0); x 1; x 2; translate_recv_flags_400 (i32 (x 3)); if nz (x 4) then linux_name else 0; if nz (x 4) then linux_name_len else 0] in
  if result <? 0 then finish_syscall_result g result else return_name g result (x 4) (x 5).

Definition dispatch_sendto g : hostm syscall_gate_state :=
  let x := gs_x g in
  let send linux_addr_ptr linux_len :=
    forward g Range100.SYS_sendto [i32 (x 0); x 1; x 2; translate_send_flags_400 (i32 (x 3)); linux_addr_ptr; linux_len] in
  if nz (x 4) then
    let* r := on_mem (translate_sockaddr (x 4) (x 5) linux_name) in
    match r with inr e => fail_errno g e | inl linux_len => send linux_name linux_len end
  else send 0 0.

Definition finish_socket_name_result g (result : Z) : hostm syscall_gate_state :=
  if result <? 0 then finish_syscall_result g result else return_name g result (gs_x g 1) (gs_x g 2).

Definition dispatch_accept g : hostm syscall_gate_state :=
  let x := gs_x g in
  do* st 4 linux_name_len 128 in
  do* set_errno 0 in
  let* result := syscall Range000.SYS_accept [i32 (x 0); if nz (x 1) then linux_name else 0; if nz (x 1) then linux_name_len else 0] in
  finish_socket_name_result g result.

(** [translate_sockaddr] of the address, then what follows with its length. *)
Definition with_sockaddr g (addr len : Z) (next : Z -> hostm syscall_gate_state) : hostm syscall_gate_state :=
  let* r := on_mem (translate_sockaddr addr len linux_name) in
  match r with inr e => fail_errno g e | inl linux_len => next linux_len end.

Definition dispatch_connect g : hostm syscall_gate_state :=
  with_sockaddr g (gs_x g 1) (gs_x g 2) (fun len => forward g Range000.SYS_connect [i32 (gs_x g 0); linux_name; len]).

(** [errno = 0], a call, and on failure the answer; else what follows. *)
Definition checked g (call : hostm Z) (next : hostm syscall_gate_state) : hostm syscall_gate_state :=
  do* set_errno 0 in
  let* result := call in
  if result <? 0 then finish_syscall_result g result else next.

(** [struct sa_endpoints]: srcif 0, srcaddr 8, srcaddrlen 16, dstaddr 24,
    dstaddrlen 32. *)
Definition dispatch_connectx g : hostm syscall_gate_state :=
  let x := gs_x g in
  let fd := i32 (x 0) in
  let endpoints := x 1 in
  let iovcnt := u32 (x 5) in
  let len := x 6 in
  if endpoints =? 0 then failed g DARWIN_EFAULT
  else if nz (u32 (x 2)) || nz (x 7) || nz (u32 (x 3) .& Z.lnot 7) then failed g DARWIN_EINVAL
  else
    let* srcif := ld 4 endpoints in
    if nz srcif then failed g DARWIN_ENOTSUP
    else if nz iovcnt && ((x 4 =? 0) || (len =? 0)) then failed g DARWIN_EINVAL
    else
      let send :=
        do* (if nz len then st 8 len 0 else hret tt) in
        if nz iovcnt then
          let* result := machgate_syscall_writev_no_sigpipe fd (x 4) (i32 iovcnt) in
          if result <? 0 then finish_syscall_result g result
          else do* st 8 len result in done g
        else done g in
      let connect :=
        let* dstaddr := ld 8 (endpoints + 24) in
        if dstaddr =? 0 then failed g DARWIN_EINVAL
        else
          let* dstaddrlen := ld 4 (endpoints + 32) in
          with_sockaddr g dstaddr dstaddrlen (fun linux_len => checked g (syscall Range000.SYS_connect [fd; linux_name; linux_len]) send) in
      let* srcaddr := ld 8 (endpoints + 8) in
      if nz srcaddr then
        let* srcaddrlen := ld 4 (endpoints + 16) in
        with_sockaddr g srcaddr srcaddrlen (fun linux_len => checked g (syscall Range100.SYS_bind [fd; linux_name; linux_len]) connect)
      else connect.

(** The cleared [struct sockaddr], of family AF_UNSPEC, is at [linux_name]. *)
Definition dispatch_disconnectx g : hostm syscall_gate_state :=
  let x := gs_x g in
  if nz (u32 (x 1)) || nz (u32 (x 2)) then failed g DARWIN_ENOTSUP
  else do* write (memzero linux_name 16) in forward g Range000.SYS_connect [i32 (x 0); linux_name; 2].

Definition dispatch_socket_delegate g : hostm syscall_gate_state :=
  let x := gs_x g in
  let epid := i32 (x 3) in
  let* self := syscall Range000.SYS_getpid [] in
  if nz epid && negb (epid =? i32 self) then failed g Range100.DARWIN_ESRCH
  else match translate_socket_domain (i32 (x 0)) with
  | None => failed g (linux_errno_to_darwin EAFNOSUPPORT)
  | Some linux_domain => forward g Range000.SYS_socket [linux_domain; i32 (x 1); i32 (x 2)]
  end.

(** [n] descriptors from [fd] on; no result is looked at. *)
Fixpoint shutdown_loop (n : nat) (fd level : Z) : hostm unit :=
  match n with
  | O => hret tt
  | S n => do* set_errno 0 in do* syscall Range100.SYS_shutdown [fd; level] in shutdown_loop n (fd + 1) level
  end.
Definition dispatch_pid_shutdown_sockets g : hostm syscall_gate_state :=
  let pid := i32 (gs_x g 0) in
  let level := i32 (gs_x g 1) in
  let* self := syscall Range000.SYS_getpid [] in
  if (level <? 0) || (SHUT_RDWR <? level) then failed g DARWIN_EINVAL
  else if nz pid && negb (pid =? i32 self) then failed g Range100.DARWIN_ESRCH
  else do* shutdown_loop 1024 0 level in done g.

(** ** select, poll, fcntl *)

(** The structure [timeout] is at [frame]. *)
Definition raw_poll (fds nfds timeout_ms : Z) : hostm Z :=
  if 0 <=? timeout_ms then
    do* st 8 frame (timeout_ms / 1000) in
    do* st 8 (frame + 8) (timeout_ms mod 1000 * 1000000) in
    syscall Files.SYS_ppoll [fds; nfds; frame; 0; 0]
  else syscall Files.SYS_ppoll [fds; nfds; 0; 0; 0].

(** Frame: [readfds] 0, [writefds] 128, [exceptfds] 256, [timeout] 384. *)
Definition raw_select (nfds readfds writefds exceptfds darwin_timeout : Z) : hostm Z :=
  do* (if nz darwin_timeout then
         let* sec := ld 8 darwin_timeout in
         let* usec := ld 4 (darwin_timeout + 8) in
         do* st 8 (frame + 384) sec in
         st 8 (frame + 392) (i32 usec * 1000)
       else hret tt) in
  syscall Range000.SYS_pselect6 [nfds; readfds; writefds; exceptfds; if nz darwin_timeout then frame + 384 else 0; 0].

Definition dispatch_select g : hostm syscall_gate_state :=
  let nfds := i32 (gs_x g 0) in
  let r := gs_x g 1 in let w := gs_x g 2 in let e := gs_x g 3 in
  if (nfds <? 0) || (Range000.FD_SETSIZE <? nfds) || (Range000.DARWIN_FD_SETSIZE <? nfds) then failed g DARWIN_EINVAL
  else
    do* write (darwin_fdset_to_linux nfds r frame) in
    do* write (darwin_fdset_to_linux nfds w (frame + 128)) in
    do* write (darwin_fdset_to_linux nfds e (frame + 256)) in
    do* set_errno 0 in
    let* result := raw_select nfds (if nz r then frame else 0) (if nz w then frame + 128 else 0) (if nz e then frame + 256 else 0) (gs_x g 4) in
    if result <? 0 then set_errno_failure g
    else
      do* write (linux_fdset_to_darwin nfds frame r) in
      do* write (linux_fdset_to_darwin nfds (frame + 128) w) in
      do* write (linux_fdset_to_darwin nfds (frame + 256) e) in
      hret (set_success g result).

Definition raw_fcntl (fd darwin_cmd arg : Z) : hostm Z :=
  if darwin_cmd =? Range000.DARWIN_F_FULLFSYNC then syscall Range000.SYS_fsync [fd]
  else match translate_fcntl_cmd darwin_cmd with
  | None => do* set_errno ENOSYS in hret (-1)
  | Some linux_cmd =>
      let arg := if darwin_cmd =? Range000.F_SETFL then u64 (translate_open_flags (i32 arg)) else arg in
      let* result := syscall Range000.SYS_fcntl [fd; linux_cmd; arg] in
      hret (if (darwin_cmd =? Range000.F_GETFL) && (0 <=? result) then translate_open_flags_to_darwin (i32 result) else result)
  end.

(** ** ulock *)

Definition set_ulock_error g (operation linux_errno : Z) : hostm syscall_gate_state :=
  let darwin_errno := linux_errno_to_darwin (if nz linux_errno then linux_errno else EIO) in
  hret (if nz (operation .& DARWIN_ULF_NO_ERRNO) then set_success g (- darwin_errno) else set_failure g darwin_errno).

(** The wait of both calls; the timeout, if any, is at [frame]. *)
Definition ulock_wait_on g (operation address value : Z) (timeout : option timespec) : hostm syscall_gate_state :=
  if address =? 0 then set_ulock_error g operation EFAULT
  else if ulock_is_64bit_operation operation then
    let* v := ld 8 address in
    if negb (v =? value) then set_ulock_error g operation EAGAIN else set_deferred_enosys g
  else if negb (ulock_is_32bit_operation operation) then set_ulock_error g operation EINVAL
  else
    do* (match timeout with None => hret tt | Some t => do* st 8 frame (tv_sec t) in st 8 (frame + 8) (tv_nsec t) end) in
    do* set_errno 0 in
    let* result := syscall Range200.SYS_futex [address; Range200.FUTEX_WAIT_PRIVATE; u32 value;
                                               match timeout with None => 0 | Some _ => frame end; 0; 0] in
    if result <? 0 then let* e := get_errno in set_ulock_error g operation e else done g.

Definition dispatch_ulock_wait g : hostm syscall_gate_state :=
  let x := gs_x g in
  let timeout_us := u32 (x 3) in
  ulock_wait_on g (u32 (x 0)) (x 1) (x 2) (if nz timeout_us then Some (microseconds_to_timespec timeout_us) else None).

Definition dispatch_ulock_wait2 g : hostm syscall_gate_state :=
  let x := gs_x g in
  let operation := u32 (x 0) in
  if nz (operation .& DARWIN_ULF_DEADLINE) then set_deferred_enosys g
  else if nz (x 4) then set_deferred_enosys g
  else ulock_wait_on g operation (x 1) (x 2) (if nz (x 3) then Some (nanoseconds_to_timespec (x 3)) else None).

Definition dispatch_ulock_wake g : hostm syscall_gate_state :=
  let x := gs_x g in
  let operation := u32 (x 0) in
  let wake_count := if nz (operation .& DARWIN_ULF_WAKE_ALL) then Range200.INT_MAX else 1 in
  if x 1 =? 0 then set_ulock_error g operation EFAULT
  else if negb (ulock_is_32bit_operation operation) && negb (ulock_is_64bit_operation operation) then set_ulock_error g operation EINVAL
  else
    do* set_errno 0 in
    let* result := syscall Range200.SYS_futex [x 1; Range200.FUTEX_WAKE_PRIVATE; wake_count; 0; 0; 0] in
    if result <? 0 then let* e := get_errno in set_ulock_error g operation e else done g.
End sockets.
End Sockets.
