(* ===== verification/Range400Files.v ===== *)
(** * System calls from 400 on, files: src/syscall/syscall_range_400_plus.c

    Attribute lists, fsgetpath, clonefile, and the calls on names relative to a
    directory.  Locals whose address goes to the kernel live in memory from
    [frame] on, the string literals of the file are at [literal]; loops that
    read to the end of a directory or a file take [fuel], more than the number
    of reads.  What the file repeats from syscall_range_200_399.c (packing of
    attributes, reading of directories, absolute paths) is that of
    Range200Attr.v. *)

From S2P Require Import Prelude CStr Host GateIsland GateDispatch DarwinAbi Range000 Range100 Range200 Range200Files Range200Attr Range400.
Import Gate Dispatch Abi Range400.

Module Files400.

Definition AT_EACCESS : Z := 0x200.
Definition AT_SYMLINK_FOLLOW : Z := 0x400.
Definition FICLONE : Z := 0x40049409.
Definition DARWIN_AT_FDCWD : Z := -2.
Definition DARWIN_AT_EACCESS : Z := 0x0010.
Definition DARWIN_AT_SYMLINK_NOFOLLOW : Z := 0x0020.
Definition DARWIN_AT_SYMLINK_FOLLOW : Z := 0x0040.
Definition DARWIN_AT_REMOVEDIR : Z := 0x0080.
Definition DARWIN_AT_SYMLINK_NOFOLLOW_ANY : Z := 0x0800.
Definition DARWIN_CLONE_NOFOLLOW : Z := 1.
Definition DARWIN_CLONE_SUPPORTED_FLAGS : Z := 7.
Definition DARWIN_ATTR_BULK_REQUIRED : Z := 0x80000001.
Definition DARWIN_ENOTDIR : Z := 20.

Definition translate_dirfd (darwin_fd : Z) : Z := if darwin_fd =? DARWIN_AT_FDCWD then AT_FDCWD else darwin_fd.

Definition translate_at_flags (darwin_flags : Z) : Z :=
  let linux_flags := map_bit darwin_flags DARWIN_AT_SYMLINK_NOFOLLOW Range100.AT_SYMLINK_NOFOLLOW 0 in
  let linux_flags := map_bit darwin_flags DARWIN_AT_REMOVEDIR Range100.AT_REMOVEDIR linux_flags in
  map_bit darwin_flags DARWIN_AT_EACCESS AT_EACCESS linux_flags.
Definition translate_linkat_flags (darwin_flags : Z) : Z := map_bit darwin_flags DARWIN_AT_SYMLINK_FOLLOW AT_SYMLINK_FOLLOW 0.
Definition has_unsupported_at_flags (darwin_flags : Z) : bool := nz (darwin_flags .& DARWIN_AT_SYMLINK_NOFOLLOW_ANY).

(** Linux's flags, or the error number: SECLUDE 1, SWAP 2, EXCL 4 on the left,
    NOREPLACE 1, EXCHANGE 2 on the right. *)
Definition translate_renameatx_flags (darwin_flags : Z) : Z + Z :=
  if nz (darwin_flags .& Z.lnot 7) then inr EINVAL
  else if nz (darwin_flags .& 2) && nz (darwin_flags .& 4) then inr EINVAL
  else if nz (darwin_flags .& 1) then inr ENOSYS
  else inl (map_bit darwin_flags 4 1 (map_bit darwin_flags 2 2 0)).

(** The copies. *)
Definition should_hide_proc_exe_symlink : cstr -> bool := Abi.should_hide_proc_exe_symlink.
Definition linux_to_darwin_stat : Z -> Z -> bytemem -> bytemem := Range100.linux_to_darwin_stat.
Definition align_attr_offset_range_400_plus : Z -> Z := Attr.align_attr_offset.
Definition path_basename_range_400_plus : Z -> Z -> bytemem -> Z := Attr.path_basename.
Definition attrlist_validate_range_400_plus : Z -> Z -> bool -> bytemem -> option Z := Attr.darwin_attr_validate.
Definition attrlist_fixed_size_range_400_plus : Z -> bytemem -> Z := Attr.darwin_attr_fixed_size.
Definition attrlist_write_bytes_range_400_plus : Attr.attr_context -> list Z -> bytemem -> option Attr.attr_context * bytemem := Attr.darwin_attr_write_bytes.
Definition attrlist_write_ref_range_400_plus : Attr.attr_context -> cstr -> bytemem -> option Attr.attr_context * bytemem := Attr.darwin_attr_write_ref.
Definition darwin_file_type_range_400_plus : Z -> Z := Attr.darwin_file_type.

(** The low half of the inode number may match alone. *)
Definition fsgetpath_match_range_400_plus (l : linux_stat) (fsid objid : Z) (m : bytemem) : bool :=
  (i32 (l_dev l) =? i32 (load 4 fsid m)) && ((l_ino l =? objid) || (u32 (l_ino l) =? u32 objid)).

(** The mode of a clone: a regular file keeps neither set-user-ID nor
    set-group-ID. *)
Definition clone_mode (st_mode : Z) : Z :=
  let mode := st_mode .& 0xFFF in
  if Files.S_ISREG st_mode then mode .& Z.lnot 0xC00 else mode.

Section files.
Context {K : kernel} (frame : Z) (literal : string -> Z) (fuel : nat).
Local Abbreviation hostm := (host statics K).
Local Abbreviation ld := (Range400.ld (K:=K)).
Local Abbreviation st := (Range400.st (K:=K)).
Local Abbreviation write := (Range400.write (K:=K)).
Local Open Scope host_scope.
Implicit Types g : syscall_gate_state.

Definition c_str (a : Z) : hostm cstr := in_range_200 (Attr.c_str a).
Definition string_at (a : Z) : hostm (option cstr) := in_range_200 (Files.string_at a).

(** ** Attribute lists *)

Definition darwin_user_access_range_400_plus (l : linux_stat) : host Range200.statics K Z :=
  let* uid := syscall Range000.SYS_getuid [] in
  let* gid := syscall Range000.SYS_getgid [] in
  hret (if u32 uid =? 0 then 7
        else if u32 uid =? l_uid l then Attr.mode_access (l_mode l) 6
        else if u32 gid =? l_gid l then Attr.mode_access (l_mode l) 3
        else Attr.mode_access (l_mode l) 0).

Definition count_directory_entries_at_range_400_plus (dirfd name : Z) : hostm Z := in_range_200 (Attr.count_directory_entries_at frame fuel dirfd name).

Definition attrlist_write_stat_range_400_plus (c : Attr.attr_context) (l : linux_stat) (name path dirfd : Z) : hostm (option Attr.attr_context) :=
  in_range_200 (Attr.write_values (Attr.attr_values frame fuel (darwin_user_access_range_400_plus l) (Attr.ac_attrlist c) l name path dirfd) c).

Definition build_absolute_path_range_400_plus (path : option cstr) (buffer buffer_size : Z) : hostm bool :=
  in_range_200 (Attr.build_absolute_path path buffer buffer_size).

Definition finish_getattrlist_result_range_400_plus g (attrlist buffer buffer_size : Z) (l : linux_stat) (name path dirfd : Z) : hostm syscall_gate_state :=
  let* m := get_mem in
  let fixed_size := attrlist_fixed_size_range_400_plus attrlist m in
  if (buffer =? 0) || (buffer_size <? 4) then failed g DARWIN_EFAULT
  else if buffer_size <? fixed_size then failed g DARWIN_ENOMEM
  else
    let* r := attrlist_write_stat_range_400_plus (Attr.attr_context_at attrlist buffer buffer_size fixed_size) l name path dirfd in
    match r with
    | None => failed g DARWIN_ENOMEM
    | Some c => do* st 4 buffer (Attr.ac_variable c) in done g
    end.

(** The check of the attribute list, then the rest. *)
Definition validated g (attrlist options : Z) (for_set : bool) (next : hostm syscall_gate_state) : hostm syscall_gate_state :=
  let* m := get_mem in
  match attrlist_validate_range_400_plus attrlist options for_set m with
  | Some e => failed g e
  | None => next
  end.

Definition nofollow (options : Z) : Z := if nz (options .& Files.DARWIN_FSOPT_NOFOLLOW) then Range100.AT_SYMLINK_NOFOLLOW else 0.

Definition dispatch_getattrlistat g : hostm syscall_gate_state :=
  let x := gs_x g in
  let dirfd := translate_dirfd (i32 (x 0)) in
  let path := x 1 in
  let options := u32 (x 5) in
  validated g (x 2) options false
    (do* set_errno 0 in
     let* result := syscall Range000.SYS_newfstatat [dirfd; path; frame; nofollow options] in
     if result <? 0 then set_errno_failure g
     else
       let* s := string_at path in
       let* ok := build_absolute_path_range_400_plus s (Attr.full_path frame) 4096 in
       do* (if (ok : bool) then hret tt else write (snprintf_s (Attr.full_path frame) 4096 (match s with Some s => s | None => [] end))) in
       let* m := get_mem in
       finish_getattrlist_result_range_400_plus g (x 2) (x 3) (x 4) (Range100.load_stat frame m)
         (path_basename_range_400_plus path (literal ""%string) m) (Attr.full_path frame) dirfd).

(** One value of [size] bytes when the list has [bit]: the new cursor. *)
Definition consume_setattr_range_400_plus (attrlist bit cursor size : Z) (f : Z -> host Range200.statics K unit) : hostm Z :=
  in_range_200 (Attr.consume attrlist bit cursor size f).

Definition apply_setattr_result_range_400_plus g (result : Z) : hostm syscall_gate_state :=
  if result <? 0 then set_errno_failure g else done g.

(** [errno = 0], a call, and on failure the answer; else what follows. *)
Definition checked g (call : hostm Z) (next : hostm syscall_gate_state) : hostm syscall_gate_state :=
  do* set_errno 0 in
  let* result := call in
  if result <? 0 then apply_setattr_result_range_400_plus g result else next.

(** The values are read as by the calls on paths; the times are at [frame]. *)
Definition dispatch_setattrlistat g : hostm syscall_gate_state :=
  let x := gs_x g in
  let dirfd := translate_dirfd (i32 (x 0)) in
  let path := x 1 in
  let options := u32 (x 5) in
  if x 3 =? 0 then failed g DARWIN_EFAULT
  else validated g (x 2) options true
    (let* v := in_range_200 (Attr.setattr_values frame (x 2) (x 3)) in
     let '(uid, gid, mode, times) := v in
     let set_times := if (times : bool) then checked g (syscall Range100.SYS_utimensat [dirfd; path; frame; nofollow options]) (done g) else done g in
     let set_mode := if negb (mode =? Attr.NO_ID) then checked g (syscall Range000.SYS_fchmodat [dirfd; path; mode; 0]) set_times else set_times in
     if negb (uid =? Attr.NO_ID) || negb (gid =? Attr.NO_ID)
     then checked g (syscall Range000.SYS_fchownat [dirfd; path; uid; gid; nofollow options]) set_mode else set_mode).

(** One entry of getattrlistbulk: the count, the offset in the buffer, whether
    packing failed; and whether the loop ends. *)
Definition attrlistbulk_body (fd attrlist buffer buffer_size entry : Z) (s : Z * Z * bool) : hostm (Z * Z * bool * bool) :=
  let '(count, offset, failed) := s in
  let* name := c_str (entry + 19) in
  if Attr.is_dot name then hret (s, false)
  else
    do* set_errno 0 in
    let* r := syscall Range000.SYS_newfstatat [fd; entry + 19; Attr.dir_stat frame 0; Range100.AT_SYMLINK_NOFOLLOW] in
    if r <? 0 then hret (s, false)
    else
      let* m := get_mem in
      let fixed_size := attrlist_fixed_size_range_400_plus attrlist m in
      let variable_size := if Attr.wants attrlist Attr.COMMONATTR Attr.DARWIN_ATTR_CMN_NAME m
                           then align_attr_offset_range_400_plus (Z.of_nat (length name) + 1) else 0 in
      if buffer_size <? offset + fixed_size + variable_size then hret (s, true)
      else
        let* r := attrlist_write_stat_range_400_plus (Attr.attr_context_at attrlist (buffer + offset) (buffer_size - offset) fixed_size)
                    (Range100.load_stat (Attr.dir_stat frame 0) m) (entry + 19) (entry + 19) fd in
        match r with
        | None => hret (count, offset, true, true)
        | Some c =>
            let entry_size := u32 (Attr.ac_variable c) in
            do* st 4 (buffer + offset) entry_size in
            hret (u32 (count + 1), offset + align_attr_offset_range_400_plus entry_size, failed, false)
        end.

(** The loop over the entries of a buffer. *)
Fixpoint for_entries {S : Type} (n : nat) (buffer result offset : Z) (body : Z -> S -> hostm (S * bool)) (s : S) : hostm (S * bool) :=
  if result <=? offset then hret (s, false)
  else match n with
  | O => hret (s, false)
  | Datatypes.S n =>
      let* d_reclen := ld 2 (buffer + offset + 16) in
      let* r := body (buffer + offset) s in
      if snd r then hret r else for_entries n buffer result (offset + d_reclen) body (fst r)
  end.

(** When packing fails after the first entry, the error in the state is
    overwritten by the count. *)
Definition dispatch_getattrlistbulk g : hostm syscall_gate_state :=
  let x := gs_x g in
  let fd := i32 (x 0) in
  let attrlist := x 1 in
  if (x 2 =? 0) && nz (x 3) then failed g DARWIN_EFAULT
  else validated g attrlist (u32 (x 4)) false
    (let* commonattr := ld 4 (attrlist + Attr.COMMONATTR) in
     if negb (commonattr .& DARWIN_ATTR_BULK_REQUIRED =? DARWIN_ATTR_BULK_REQUIRED) then failed g DARWIN_EINVAL
     else
       do* set_errno 0 in
       let* result := syscall Range100.SYS_getdents64 [fd; Attr.dir_buffer frame 0; 8192] in
       if result <? 0 then set_errno_failure g
       else
         let* r := for_entries (Z.to_nat result) (Attr.dir_buffer frame 0) result 0 (attrlistbulk_body fd attrlist (x 2) (x 3)) (0, 0, false) in
         let '(count, _, failure) := fst r in
         if (failure : bool) && (count =? 0) then failed g DARWIN_ENOMEM else hret (set_success g count)).

(** ** fsgetpath

    The path found is at [frame]. *)

Definition fsgetpath_search_dir_range_400_plus (dirfd : Z) (fsid objid : Z) : hostm bool :=
  in_range_200 (Attr.fsgetpath_search_dir frame fuel fsgetpath_match_range_400_plus 9 dirfd (str ".") fsid objid).

(** Whether the file was found; [errno] tells why not. *)
Definition fsgetpath_find_range_400_plus (fsid objid : Z) : hostm bool :=
  let* r := syscall SYS_openat [AT_FDCWD; literal "."%string; Attr.O_DIR] in
  let fd := i32 r in
  if fd <? 0 then hret false
  else
    do* write (memzero frame 4096) in
    let* found := fsgetpath_search_dir_range_400_plus fd fsid objid in
    do* syscall SYS_close [fd] in
    if (found : bool) then hret true else do* set_errno Range200.ENOENT in hret false.

Definition dispatch_fsgetpath g : hostm syscall_gate_state :=
  let x := gs_x g in
  let buffer_size := x 1 in
  if (x 0 =? 0) || (x 2 =? 0) then failed g DARWIN_EFAULT
  else if (buffer_size =? 0) || (4096 <? buffer_size) then failed g DARWIN_EINVAL
  else
    do* set_errno 0 in
    let* found := fsgetpath_find_range_400_plus (x 2) (x 3) in
    if negb found then set_errno_failure g
    else
      let* path := c_str frame in
      let length := Z.of_nat (length path) + 1 in
      if buffer_size <? length then failed g DARWIN_ENOMEM
      else do* write (memcpy (x 0) frame length) in hret (set_success g length).

Definition dispatch_openbyid_np g : hostm syscall_gate_state :=
  let x := gs_x g in
  if (x 0 =? 0) || (x 1 =? 0) then failed g DARWIN_EFAULT
  else
    let* inode := ld 4 (x 1) in
    do* set_errno 0 in
    let* found := fsgetpath_find_range_400_plus (x 0) inode in
    if negb found then set_errno_failure g
    else forward g SYS_openat [AT_FDCWD; frame; translate_open_flags (i32 (x 2))].

(** ** clonefile

    The buffer of 16384 bytes is at [frame], the [struct stat] at
    [frame + 0x5000]. *)

Definition clonefile_cleanup_failure g (out_fd dst_dirfd dst saved_errno : Z) : hostm syscall_gate_state :=
  do* (if 0 <=? out_fd then let* _r := syscall SYS_close [out_fd] in hret tt else hret tt) in
  do* (if nz dst then let* _r := syscall Range000.SYS_unlinkat [dst_dirfd; dst; 0] in hret tt else hret tt) in
  failed g (linux_errno_to_darwin saved_errno).

(** [None]: the whole file is copied.  [write_all] writes a buffer, as long as
    the kernel takes a byte at each call. *)
Fixpoint clone_loop (n : nat) (in_fd out_fd offset : Z) : hostm (option Z) :=
  match n with
  | O => hret None
  | S n =>
      do* set_errno 0 in
      let* read_result := syscall Range100.SYS_pread64 [in_fd; frame; 16384; offset] in
      if read_result <? 0 then let* e := errno_or_eio in hret (Some e)
      else if read_result =? 0 then hret None
      else
        let* r := in_range_200 (Attr.write_all (Z.to_nat read_result) out_fd frame read_result) in
        match r with Some e => hret (Some e) | None => clone_loop n in_fd out_fd (offset + read_result) end
  end.

Definition finish_clone_copy_range_400_plus g (in_fd out_fd dst_dirfd dst : Z) : hostm syscall_gate_state :=
  let* r := clone_loop fuel in_fd out_fd 0 in
  match r with
  | Some saved_errno => clonefile_cleanup_failure g out_fd dst_dirfd dst saved_errno
  | None =>
      do* set_errno 0 in
      let* close_result := syscall SYS_close [out_fd] in
      if close_result <? 0 then let* e := errno_or_eio in clonefile_cleanup_failure g (-1) dst_dirfd dst e
      else done g
  end.

Definition dispatch_clone_from_fd_range_400_plus g (in_fd dst_dirfd dst flags : Z) : hostm syscall_gate_state :=
  if dst =? 0 then failed g DARWIN_EFAULT
  else if nz (flags .& Z.lnot DARWIN_CLONE_SUPPORTED_FLAGS) then failed g DARWIN_ENOTSUP
  else
    do* set_errno 0 in
    let* r := syscall Range100.SYS_fstat [in_fd; frame + 0x5000] in
    if r <? 0 then set_errno_failure g
    else
      let* m := get_mem in
      let mode := clone_mode (l_mode (Range100.load_stat (frame + 0x5000) m)) in
      do* set_errno 0 in
      let* r := syscall SYS_openat [dst_dirfd; dst; Attr.O_WRONLY .| O_CREAT .| O_EXCL .| O_CLOEXEC; mode] in
      let out_fd := i32 r in
      if out_fd <? 0 then set_errno_failure g
      else
        do* set_errno 0 in
        let* cloned := syscall Range000.SYS_ioctl [out_fd; FICLONE; in_fd] in
        if cloned =? 0 then forward g SYS_close [out_fd]
        else finish_clone_copy_range_400_plus g in_fd out_fd dst_dirfd dst.

Definition dispatch_clonefileat g : hostm syscall_gate_state :=
  let x := gs_x g in
  let flags := u32 (x 4) in
  if x 1 =? 0 then failed g DARWIN_EFAULT
  else
    do* set_errno 0 in
    let* r := syscall SYS_openat [translate_dirfd (i32 (x 0)); x 1; if nz (flags .& DARWIN_CLONE_NOFOLLOW) then O_CLOEXEC .| O_NOFOLLOW else O_CLOEXEC] in
    let in_fd := i32 r in
    if in_fd <? 0 then set_errno_failure g
    else
      let* answer := dispatch_clone_from_fd_range_400_plus g in_fd (translate_dirfd (i32 (x 2))) (x 3) flags in
      do* syscall SYS_close [in_fd] in hret answer.

Definition dispatch_fclonefileat g : hostm syscall_gate_state :=
  let x := gs_x g in
  dispatch_clone_from_fd_range_400_plus g (i32 (x 0)) (translate_dirfd (i32 (x 1))) (x 2) (u32 (x 3)).

(** ** Names relative to a directory *)

Definition sys_newfstatat (fd path statbuf flags : Z) : hostm Z := syscall Range000.SYS_newfstatat [fd; path; statbuf; flags].

(** [next] runs when the path is there, as a directory if that is required. *)
Definition path_exists_for_namespace_mutation g (path : Z) (require_directory : bool) (next : hostm syscall_gate_state) : hostm syscall_gate_state :=
  if path =? 0 then failed g DARWIN_EFAULT
  else
    do* set_errno 0 in
    let* result := sys_newfstatat AT_FDCWD path frame 0 in
    if result <? 0 then set_errno_failure g
    else
      let* m := get_mem in
      if require_directory && negb (Attr.S_ISDIR (l_mode (Range100.load_stat frame m))) then failed g DARWIN_ENOTDIR
      else next.

Definition dispatch_mac_mount g : hostm syscall_gate_state :=
  if (gs_x g 0 =? 0) || (gs_x g 4 =? 0) then failed g DARWIN_EFAULT
  else path_exists_for_namespace_mutation g (gs_x g 1) false (failed g DARWIN_ENOTSUP).

Definition dispatch_fs_snapshot g : hostm syscall_gate_state :=
  let dirfd := translate_dirfd (i32 (gs_x g 1)) in
  let* valid := (if dirfd =? AT_FDCWD then hret true else fd_is_valid dirfd) in
  if negb (valid : bool) then failed g DARWIN_EBADF
  else if gs_x g 2 =? 0 then failed g DARWIN_EFAULT else failed g DARWIN_ENOTSUP.

Definition dispatch_fmount g : hostm syscall_gate_state :=
  if gs_x g 0 =? 0 then failed g DARWIN_EFAULT
  else
    let* valid := fd_is_valid (i32 (gs_x g 1)) in
    if negb (valid : bool) then failed g DARWIN_EBADF else failed g DARWIN_EPERM.

Definition dispatch_pivot_root g : hostm syscall_gate_state :=
  path_exists_for_namespace_mutation g (gs_x g 0) true
    (path_exists_for_namespace_mutation g (gs_x g 1) true (failed g DARWIN_EPERM)).

Definition dispatch_graftdmg g : hostm syscall_gate_state :=
  let* valid := fd_is_valid (i32 (gs_x g 0)) in
  if negb (valid : bool) then failed g DARWIN_EBADF
  else path_exists_for_namespace_mutation g (gs_x g 1) true (failed g DARWIN_ENOTSUP).

Definition dispatch_ungraftdmg g : hostm syscall_gate_state :=
  path_exists_for_namespace_mutation g (gs_x g 0) true (failed g DARWIN_ENOTSUP).

Definition dispatch_fstatat g : hostm syscall_gate_state :=
  let x := gs_x g in
  let flags := i32 (x 3) in
  if has_unsupported_at_flags flags then failed g DARWIN_EINVAL
  else
    do* set_errno 0 in
    let* result := sys_newfstatat (translate_dirfd (i32 (x 0))) (x 1) frame (translate_at_flags flags) in
    if result <? 0 then set_errno_failure g
    else do* write (linux_to_darwin_stat frame (x 2)) in done g.

Definition rename_at g (linux_flags : Z) : hostm syscall_gate_state :=
  let x := gs_x g in
  let names := [translate_dirfd (i32 (x 0)); x 1; translate_dirfd (i32 (x 2)); x 3] in
  if linux_flags =? 0 then forward g Range100.SYS_renameat names else forward g Files.SYS_renameat2 (names ++ [linux_flags]).

(** The cases of the switch that work on names. *)
Definition name_numbers : list Z := [463; 464; 465; 466; 467; 468; 469; 470; 471; 472; 473; 474; 475; 488; 551; 553; 554].
Definition name_calls g : hostm syscall_gate_state :=
  let x := gs_x g in
  let dirfd0 := translate_dirfd (i32 (x 0)) in
  match x 16 with
  | 463 | 464 => forward g SYS_openat [dirfd0; x 1; translate_open_flags (i32 (x 2)); u32 (x 3)]
  | 465 => rename_at g 0
  | 488 => match translate_renameatx_flags (u32 (x 4)) with
           | inr e => do* set_errno e in failed g (linux_errno_to_darwin e)
           | inl linux_flags => rename_at g linux_flags
           end
  | 466 => if has_unsupported_at_flags (i32 (x 3)) then failed g DARWIN_EINVAL
           else forward g Range000.SYS_faccessat [dirfd0; x 1; i32 (x 2); translate_at_flags (i32 (x 3))]
  | 467 => if nz (x 3) then failed g DARWIN_EINVAL else forward g Range000.SYS_fchmodat [dirfd0; x 1; u32 (x 2)]
  | 468 => if has_unsupported_at_flags (i32 (x 4)) then failed g DARWIN_EINVAL
           else forward g Range000.SYS_fchownat [dirfd0; x 1; u32 (x 2); u32 (x 3); translate_at_flags (i32 (x 4))]
  | 469 | 470 => dispatch_fstatat g
  | 471 => forward g Range000.SYS_linkat [dirfd0; x 1; translate_dirfd (i32 (x 2)); x 3; translate_linkat_flags (i32 (x 4))]
  | 472 => if nz (i32 (x 2) .& Z.lnot DARWIN_AT_REMOVEDIR) then failed g DARWIN_EINVAL
           else forward g Range000.SYS_unlinkat [dirfd0; x 1; translate_at_flags (i32 (x 2))]
  | 473 => let* path := string_at (x 1) in
           if match path with Some path => should_hide_proc_exe_symlink path | None => false end then failed g DARWIN_ENOENT
           else forward g Range000.SYS_readlinkat [dirfd0; x 1; x 2; x 3]
  | 474 => forward g Range000.SYS_symlinkat [x 0; translate_dirfd (i32 (x 1)); x 2]
  | 475 => forward g Range100.SYS_mkdirat [dirfd0; x 1; u32 (x 2)]
  | 551 => forward g Range000.SYS_readlinkat [i32 (x 0); literal ""%string; x 1; x 2]
  | 553 => forward g Range000.SYS_mknodat [dirfd0; x 1; u32 (x 2 .| Range100.S_IFIFO); 0]
  | 554 => forward g Range000.SYS_mknodat [dirfd0; x 1; u32 (x 2); x 3]
  | _ => set_deferred_enosys g
  end.

(** The other calls of this file. *)
Definition file_numbers : list Z := [424; 427; 461; 462; 476; 479; 517; 518; 524; 526; 537; 549; 555].
Definition file_calls g : hostm syscall_gate_state :=
  match gs_x g 16 with
  | 424 => dispatch_mac_mount g
  | 427 => dispatch_fsgetpath g
  | 461 => dispatch_getattrlistbulk g
  | 462 => dispatch_clonefileat g
  | 476 => dispatch_getattrlistat g
  | 479 => dispatch_openbyid_np g
  | 517 => dispatch_fclonefileat g
  | 518 => dispatch_fs_snapshot g
  | 524 => dispatch_setattrlistat g
  | 526 => dispatch_fmount g
  | 537 => dispatch_pivot_root g
  | 549 => dispatch_graftdmg g
  | 555 => dispatch_ungraftdmg g
  | _ => set_deferred_enosys g
  end.
End files.
End Files400.
