(* ===== verification/Range400Calls.v ===== *)
(** * System calls from 400 on, the dispatcher: src/syscall/syscall_range_400_plus.c

    Clocks, memory status, identities and the many calls that keep nothing, the
    dispatcher, and the proof that every call is answered and the tables stay
    consistent. *)

From stdpp Require Import gmap.
From S2P Require Import Prelude CStr Host GateIsland GateDispatch DarwinAbi Range000 Leb128 Range100 Range000Theorems Range200 Range200Sem Range200Aio Range200Files Range200Attr Range200Calls Range400 Range400Tables Range400Sockets Range400Files.
Import Gate Dispatch Abi Range400.

Module Calls400.

Definition SYS_sched_getaffinity : Z := 123.
Definition SYS_exit_group : Z := 94.
Definition SYS_preadv : Z := 69.
Definition SYS_pwritev : Z := 70.
Definition SYS_sysinfo : Z := 179.
Definition SYS_getrandom : Z := 278.
Definition SIGKILL : Z := 9.
Definition WNOHANG : Z := 1.
Definition MACHGATE_AUDIT_SESSION_PORT : Z := 0x41530001.
Definition DARWIN_COALITION_ID_SELF : Z := 2.
Definition DARWIN_CSR_VALID_FLAGS : Z := 0x1fff.
Definition DARWIN_KAS_INFO_MAX_SELECTOR : Z := 4.
Definition DARWIN_PERSONA_TYPE_DEFAULT : Z := 5.

(** The copies. *)
Definition darwin_signal_to_linux : Z -> Z := Abi.darwin_signal_to_linux.
Definition linux_signal_to_darwin : Z -> Z := Abi.linux_signal_to_darwin.
Definition darwin_sigset_to_linux : Z -> option Z := Abi.darwin_sigset_to_linux.

(** Saturates at 2^64 - 1. *)
Definition sysinfo_bytes (value unit : Z) : Z :=
  if nz unit && ((2 ^ 64 - 1) / unit <? value) then 2 ^ 64 - 1 else u64 (value * unit).
Definition available_bytes (free_bytes buffer_bytes : Z) : Z :=
  if 2 ^ 64 - 1 - free_bytes <? buffer_bytes then 2 ^ 64 - 1 else free_bytes + buffer_bytes.

(** The bits of a word of [n] bits that are set. *)
Fixpoint popcount (n : nat) (value : Z) : Z :=
  match n with O => 0 | S n => value .& 1 + popcount n (value .>> 1) end.

(** [struct timex]: fields of Darwin, of Linux, size. *)
Definition timex_fields : list (Z * Z * Z) :=
  [(0, 0, 4); (8, 8, 8); (16, 16, 8); (24, 24, 8); (32, 32, 8); (40, 40, 4); (48, 48, 8); (56, 56, 8); (64, 64, 8); (72, 96, 8);
   (80, 104, 8); (88, 112, 4); (96, 120, 8); (104, 128, 8); (112, 136, 8); (120, 144, 8); (128, 152, 8)].
Definition TIMEX_SIZE : Z := 208.

Definition linux_timex_to_darwin (linux_timex darwin_timex : Z) (m : bytemem) : bytemem :=
  let m := fold_left (fun m '(d, l, size) => store size (darwin_timex + d) (load size (linux_timex + l) m) m) timex_fields m in
  store 4 (darwin_timex + 92) 0 (store 4 (darwin_timex + 44) 0 (store 4 (darwin_timex + 4) 0 m)).
Definition darwin_timex_to_linux (darwin_timex linux_timex : Z) (m : bytemem) : bytemem :=
  fold_left (fun m '(d, l, size) => store size (linux_timex + l) (load size (darwin_timex + d) m) m) timex_fields (memzero linux_timex TIMEX_SIZE m).

Section calls.
(** [frame], [literal], [fuel]: as in Range400Files.v; [sigwait]: the C
    library's; [range_200]: [syscall_range_200_399_dispatch]. *)
Context {K : kernel} (frame : Z) (literal : string -> Z) (fuel : nat) (sigwait : Z -> kstate K -> (Z + Z) * kstate K)
  (range_200_dispatch : syscall_gate_state -> host Range200.statics K (bool * outcome)).
Local Abbreviation hostm := (host statics K).
Local Abbreviation ld := (Range400.ld (K:=K)).
Local Abbreviation st := (Range400.st (K:=K)).
Local Abbreviation write := (Range400.write (K:=K)).
Local Open Scope host_scope.
Implicit Types g : syscall_gate_state.

(** The answer is one of two. *)
Definition fail_if g (condition : bool) (e : Z) (next : hostm syscall_gate_state) : hostm syscall_gate_state :=
  if condition then failed g e else next.

(** ** Labels, audit sessions, ports *)

Definition dispatch_mac_get_label_range_400_plus g (mac_label : Z) : hostm syscall_gate_state :=
  if mac_label =? 0 then failed g DARWIN_EFAULT
  else
    let* buffer_length := ld 8 mac_label in
    let* buffer := ld 8 (mac_label + 8) in
    if (buffer =? 0) || (buffer_length =? 0) then failed g DARWIN_EFAULT else do* st 1 buffer 0 in done g.

Definition dispatch_audit_session_self g : hostm syscall_gate_state := hret (set_success g MACHGATE_AUDIT_SESSION_PORT).
Definition dispatch_audit_session_join g : hostm syscall_gate_state :=
  fail_if g (negb (u32 (gs_x g 0) =? MACHGATE_AUDIT_SESSION_PORT)) DARWIN_EINVAL (done g).
Definition dispatch_audit_session_port g : hostm syscall_gate_state :=
  fail_if g (gs_x g 1 =? 0) DARWIN_EFAULT (do* st 4 (gs_x g 1) MACHGATE_AUDIT_SESSION_PORT in done g).

Definition dispatch_eventlink_missing_port g : hostm syscall_gate_state := failed g DARWIN_EINVAL.
Definition dispatch_task_port_request g : hostm syscall_gate_state :=
  fail_if g (gs_x g 2 =? 0) DARWIN_EFAULT (do* st 4 (gs_x g 2) 0 in failed g DARWIN_EPERM).

(** ** Processes *)

(** [buffer] gets the name of the process. *)
Definition read_proc_comm_range_400_plus (buffer buffer_size : Z) : hostm unit :=
  let default := write (place buffer (Calls.strncpy_bytes (str "machgate") (buffer_size - 1))) in
  do* write (memzero buffer buffer_size) in
  let* r := syscall SYS_openat [AT_FDCWD; literal "/proc/self/comm"%string; O_CLOEXEC] in
  let fd := i32 r in
  if fd <? 0 then default
  else
    let* result := syscall SYS_read [fd; buffer; buffer_size - 1] in
    do* syscall SYS_close [fd] in
    if result <=? 0 then default else write (Calls.clear_newline (Z.to_nat result) buffer).

(** [pid] names this process: the call, and the check of an argument. *)
Definition proc_pid_is_supported_range_400_plus (pid : Z) : hostm bool :=
  let* self := syscall Range000.SYS_getpid [] in hret ((pid =? 0) || (pid =? i32 self)).
Definition pid_is_current_process : Z -> hostm bool := proc_pid_is_supported_range_400_plus.
Definition pid_is_self_or_current_process (pid : Z) : hostm bool :=
  if pid =? -1 then hret true else let* self := syscall Range000.SYS_getpid [] in hret (pid =? i32 self).

(** 64 bytes at [frame]: pid 0, ppid 4, pgid 8, status 12, comm 16, flags 32,
    uid 36, gid 40, ruid 44, rgid 48, svuid 52, svgid 56. *)
Definition fill_proc_bsdshortinfo_range_400_plus (pid : Z) : hostm unit :=
  do* write (memzero frame 64) in
  do* st 4 frame pid in
  let* ppid := syscall Range000.SYS_getppid [] in
  do* st 4 (frame + 4) ppid in
  let* pgid := syscall Range000.SYS_getpgid [0] in
  do* st 4 (frame + 8) pgid in
  do* st 4 (frame + 12) 2 in
  do* st 4 (frame + 32) 0x10 in
  let* uid := syscall Range000.SYS_getuid [] in
  do* st 4 (frame + 36) uid in
  let* gid := syscall Range000.SYS_getgid [] in
  do* st 4 (frame + 40) gid in
  do* st 4 (frame + 44) uid in
  do* st 4 (frame + 48) gid in
  do* st 4 (frame + 52) uid in
  do* st 4 (frame + 56) gid in
  read_proc_comm_range_400_plus (frame + 16) 16.

Definition dispatch_proc_info_extended_id g : hostm syscall_gate_state :=
  let x := gs_x g in
  let pid := i32 (x 1) in
  let* self := syscall Range000.SYS_getpid [] in
  if nz (u32 (x 3)) || negb (i32 (x 0) =? 2) || negb (u32 (x 2) =? 13) then failed g DARWIN_ENOSYS
  else
    let* supported := proc_pid_is_supported_range_400_plus pid in
    if negb (supported : bool) then done g
    else if x 6 =? 0 then failed g DARWIN_EFAULT
    else if i32 (x 7) <? 64 then failed g DARWIN_ENOMEM
    else
      do* fill_proc_bsdshortinfo_range_400_plus (if pid =? 0 then i32 self else pid) in
      do* write (memcpy (x 6) frame 64) in
      hret (set_success g 64).

(** [next] runs when [pid] is 0 or this process. *)
Definition for_self g (pid : Z) (next : hostm syscall_gate_state) : hostm syscall_gate_state :=
  let* self := syscall Range000.SYS_getpid [] in
  if nz pid && negb (pid =? i32 self) then failed g Range100.DARWIN_ESRCH else next.

Definition dispatch_proc_trace_log g : hostm syscall_gate_state := for_self g (i32 (gs_x g 0)) (done g).
Definition dispatch_sfi_pidctl g : hostm syscall_gate_state :=
  for_self g (i32 (gs_x g 1)) (do* (if nz (gs_x g 3) then st 4 (gs_x g 3) 0 else hret tt) in done g).
Definition dispatch_pid_suspend g : hostm syscall_gate_state :=
  let* current := pid_is_current_process (i32 (gs_x g 0)) in
  if negb (current : bool) then failed g Range100.DARWIN_ESRCH else done g.
Definition dispatch_pid_resume : syscall_gate_state -> hostm syscall_gate_state := dispatch_pid_suspend.
Definition dispatch_pid_hibernate g : hostm syscall_gate_state :=
  let pid := i32 (gs_x g 0) in
  if pid =? -2 then done g
  else
    let* current := pid_is_current_process pid in
    if negb (current : bool) then failed g Range100.DARWIN_ESRCH else failed g DARWIN_ENOTSUP.

(** [Exited]: the process ends. *)
Definition dispatch_terminate_with_payload g : hostm outcome :=
  let pid := i32 (gs_x g 0) in
  if pid <=? 0 then hret (Returned (set_failure g DARWIN_EINVAL))
  else
    let* self := syscall Range000.SYS_getpid [] in
    if pid =? i32 self then hret (Exited 137)
    else let* g' := forward g Range000.SYS_kill [pid; SIGKILL] in hret (Returned g').

Definition dispatch_wait4_single_process g : hostm syscall_gate_state :=
  if negb (nz (i32 (gs_x g 2) .& WNOHANG)) then set_deferred_enosys g else failed g DARWIN_ECHILD.
Definition dispatch_waitid_single_process g : hostm syscall_gate_state :=
  if negb (nz (i32 (gs_x g 3) .& WNOHANG)) then set_deferred_enosys g else failed g DARWIN_ECHILD.

Definition dispatch_proc_rlimit_control g : hostm syscall_gate_state :=
  let x := gs_x g in
  let pid := i32 (x 0) in
  let* self := pid_is_self_or_current_process pid in
  if negb (self : bool) then failed g Range100.DARWIN_ESRCH
  else match i32 (x 1) with
  | 1 | 2 => done g
  | 3 => let percent := x 2 mod 256 in fail_if g (negb (pid =? -1) || (percent =? 0) || (100 <=? percent)) DARWIN_EINVAL (done g)
  | 4 => fail_if g (u32 (x 2) .& 1 =? 0) DARWIN_EINVAL (done g)
  | _ => failed g DARWIN_EINVAL
  end.

(** ** Signals *)

Definition dispatch_sigwait_nocancel g : hostm syscall_gate_state :=
  let darwin_set := gs_x g 0 in
  let darwin_signal_out := gs_x g 1 in
  if (darwin_set =? 0) || (darwin_signal_out =? 0) then failed g DARWIN_EINVAL
  else
    let* set := ld 4 darwin_set in
    match darwin_sigset_to_linux set with
    | None => failed g DARWIN_EINVAL
    | Some linux_set =>
        let* r := in_kernel (sigwait linux_set) in
        match r with
        | inr e => failed g (linux_errno_to_darwin e)
        | inl linux_signal => do* st 4 darwin_signal_out (linux_signal_to_darwin linux_signal) in done g
        end
    end.
Definition dispatch_sigsuspend_nocancel g : hostm syscall_gate_state := failed g Range100.DARWIN_EINTR.

(** ** Clocks, random bytes, memory, processors *)

(** [struct timex] at [frame]. *)
Definition dispatch_ntp_adjtime g : hostm syscall_gate_state :=
  do* write (darwin_timex_to_linux (gs_x g 0) frame) in
  do* set_errno 0 in
  let* result := syscall Range100.SYS_adjtimex [frame] in
  if result <? 0 then set_errno_failure g
  else do* write (linux_timex_to_darwin frame (gs_x g 0)) in hret (set_success g result).

(** [struct ntptimeval]: time 0, maxerror 16, esterror 24, tai 32, time_state 40. *)
Definition dispatch_ntp_gettime g : hostm syscall_gate_state :=
  let darwin_ntp := gs_x g 0 in
  do* write (memzero frame TIMEX_SIZE) in
  do* set_errno 0 in
  let* result := syscall Range100.SYS_adjtimex [frame] in
  if result <? 0 then set_errno_failure g
  else
    let* sec := ld 8 (frame + 72) in
    do* st 8 darwin_ntp sec in
    let* usec := ld 8 (frame + 80) in
    do* st 8 (darwin_ntp + 8) (usec * 1000) in
    let* maxerror := ld 8 (frame + 24) in
    do* st 8 (darwin_ntp + 16) maxerror in
    let* esterror := ld 8 (frame + 32) in
    do* st 8 (darwin_ntp + 24) esterror in
    let* tai := ld 4 (frame + 160) in
    do* st 8 (darwin_ntp + 32) (i32 tai) in
    do* st 4 (darwin_ntp + 40) result in
    do* st 4 (darwin_ntp + 44) 0 in
    hret (set_success g result).

(** [n]: more than the calls it takes; a call that gives bytes, or is
    interrupted, is followed by another. *)
Fixpoint entropy_loop (n : nat) g (buffer size done_ : Z) : hostm syscall_gate_state :=
  if size <=? done_ then done g
  else match n with
  | O => set_errno_failure g
  | S n =>
      do* set_errno 0 in
      let* result := syscall SYS_getrandom [buffer + done_; size - done_; 0] in
      if result <? 0 then
        let* e := get_errno in
        if e =? EINTR then entropy_loop n g buffer size done_ else set_errno_failure g
      else entropy_loop n g buffer size (done_ + result)
  end.
Definition dispatch_getentropy g : hostm syscall_gate_state :=
  if 256 <? gs_x g 1 then failed g DARWIN_EIO else entropy_loop fuel g (gs_x g 0) (gs_x g 1) 0.

(** [struct sysinfo], 112 bytes at [frame]: freeram 40, bufferram 56, mem_unit
    104. *)
Definition dispatch_memorystatus_available_memory g : hostm syscall_gate_state :=
  do* write (memzero frame 112) in
  do* set_errno 0 in
  let* result := syscall SYS_sysinfo [frame] in
  if result <? 0 then set_errno_failure g
  else
    let* freeram := ld 8 (frame + 40) in
    let* bufferram := ld 8 (frame + 56) in
    let* mem_unit := ld 4 (frame + 104) in
    hret (set_success g (available_bytes (sysinfo_bytes freeram mem_unit) (sysinfo_bytes bufferram mem_unit))).
Definition dispatch_memorystatus_get_level g : hostm syscall_gate_state :=
  fail_if g (gs_x g 0 =? 0) DARWIN_EFAULT (do* st 4 (gs_x g 0) 0 in done g).
Definition dispatch_memorystatus_control g : hostm syscall_gate_state :=
  let x := gs_x g in
  match u32 (x 0) with
  | 4 => done g
  | 17 | 19 | 21 | 24 => fail_if g ((x 3 =? 0) || (x 4 <? 4)) DARWIN_EINVAL (do* st 4 (x 3) 0 in done g)
  | _ => set_deferred_enosys g
  end.

(** The mask, 16 words, is at [frame]. *)
Definition host_online_cpu_count : hostm Z :=
  do* write (memzero frame 128) in
  do* set_errno 0 in
  let* r := syscall SYS_sched_getaffinity [0; 128; frame] in
  if r <? 0 then hret 1
  else
    let* m := get_mem in
    let result := fold_left (fun n i => n + popcount 64 (load 8 (frame + 8 * i) m)) (seqZ 0 16) 0 in
    hret (if nz result then result else 1).

(** ** Calls that keep nothing *)

Definition zero_guest_buffer (buffer buffer_size : Z) : hostm unit :=
  if nz buffer && nz buffer_size then write (memzero buffer buffer_size) else hret tt.
Definition dispatch_success_noop g : hostm syscall_gate_state := done g.
Definition dispatch_usrctl g : hostm syscall_gate_state := failed g DARWIN_EPERM.

Definition open_dummy_control_fd : hostm Z :=
  let* r := syscall SYS_openat [AT_FDCWD; literal "/dev/null"%string; 2 .| O_CLOEXEC] in hret (i32 r).
Definition dispatch_dummy_control_open g : hostm syscall_gate_state :=
  if nz (gs_x g 0 .& Z.lnot 7) then failed g DARWIN_EINVAL
  else do* set_errno 0 in let* r := open_dummy_control_fd in finish_syscall_result g r.
Definition dispatch_necp_match_policy g : hostm syscall_gate_state :=
  fail_if g (gs_x g 2 =? 0) DARWIN_EFAULT (do* write (memzero (gs_x g 2) 512) in done g).
Definition dispatch_necp_client_action g : hostm syscall_gate_state :=
  let* valid := fd_is_valid (i32 (gs_x g 0)) in
  if negb (valid : bool) then failed g DARWIN_EBADF else failed g DARWIN_ENOTSUP.
Definition dispatch_necp_session_action : syscall_gate_state -> hostm syscall_gate_state := dispatch_necp_client_action.
Definition dispatch_net_qos_guideline g : hostm syscall_gate_state :=
  fail_if g ((gs_x g 0 =? 0) || (u32 (gs_x g 1) <? 16)) DARWIN_EINVAL (done g).
Definition dispatch_tracker_action g : hostm syscall_gate_state :=
  let action := u32 (gs_x g 0) in
  fail_if g ((action =? 0) || (4 <=? action)) DARWIN_EINVAL (do* zero_guest_buffer (gs_x g 1) (gs_x g 2) in done g).
Definition dispatch_shared_region_map_and_slide g : hostm syscall_gate_state :=
  if (gs_x g 0 =? 0) && (gs_x g 2 =? 0) then done g else set_deferred_enosys g.

Definition dispatch_bsdthread_ctl g : hostm syscall_gate_state :=
  let x := gs_x g in
  match x 0 with
  | 0x10 | 0x401 | 0x402 => failed g DARWIN_ENOTSUP
  | 0x20 => done g
  | 0x40 | 0x400 | 0x200 | 0x100 => done g
  | 0x80 => fail_if g (nz (x 3)) DARWIN_EINVAL (done g)
  | 0x800 =>
      if nz (x 3) || nz (x 2 .& Z.lnot 7) then failed g DARWIN_EINVAL
      else if nz (x 2 .& 4) then failed g DARWIN_ENOTSUP
      else if (if nz (x 2 .& 2) then nz (x 1) else (x 1 =? 0) || (7 <=? x 1)) then failed g DARWIN_EINVAL
      else let* n := host_online_cpu_count in hret (set_success g n)
  | 0x1000 => fail_if g (nz (x 2) || nz (x 3)) DARWIN_EINVAL (done g)
  | 0x2000 => fail_if g (negb (x 1 =? 1) && negb (x 1 =? 2)) DARWIN_EINVAL (done g)
  | 0x4000 => done g
  | _ => failed g DARWIN_EINVAL
  end.

Definition dispatch_proc_uuid_policy g : hostm syscall_gate_state :=
  fail_if g (nz (gs_x g 2) && (gs_x g 1 =? 0)) DARWIN_EFAULT (done g).
Definition dispatch_sfi_ctl g : hostm syscall_gate_state :=
  do* (if nz (gs_x g 3) then st 8 (gs_x g 3) (gs_x g 2) else hret tt) in done g.

Definition is_self_coalition (id : Z) : bool := (id =? 0) || (id =? DARWIN_COALITION_ID_SELF).

Definition dispatch_coalition g : hostm syscall_gate_state :=
  let coalition_id := gs_x g 1 in
  if coalition_id =? 0 then failed g DARWIN_EFAULT
  else match u32 (gs_x g 0) with
  | 1 => do* st 8 coalition_id DARWIN_COALITION_ID_SELF in done g
  | 2 | 3 => let* id := ld 8 coalition_id in if negb (is_self_coalition id) then failed g Range100.DARWIN_ESRCH else done g
  | _ => failed g DARWIN_EINVAL
  end.
Definition dispatch_coalition_info g : hostm syscall_gate_state :=
  let x := gs_x g in
  if x 1 =? 0 then failed g DARWIN_EFAULT
  else
    let* id := ld 8 (x 1) in
    if negb (is_self_coalition id) then failed g Range100.DARWIN_ESRCH
    else match u32 (x 0) with
    | 1 | 4 =>
        if x 3 =? 0 then failed g DARWIN_EFAULT
        else let* size := ld 8 (x 3) in do* zero_guest_buffer (x 2) size in done g
    | 2 | 3 => done g
    | _ => failed g DARWIN_EINVAL
    end.
Definition dispatch_coalition_ledger g : hostm syscall_gate_state :=
  let x := gs_x g in
  if x 1 =? 0 then failed g DARWIN_EFAULT
  else
    let* id := ld 8 (x 1) in
    if negb (is_self_coalition id) then failed g Range100.DARWIN_ESRCH
    else if negb (u32 (x 0) =? 1) then failed g DARWIN_EINVAL
    else
      do* (if nz (x 3) then let* size := ld 8 (x 3) in zero_guest_buffer (x 2) size else hret tt) in done g.
Definition dispatch_coalition_policy_set g : hostm syscall_gate_state :=
  fail_if g (negb (is_self_coalition (gs_x g 0))) Range100.DARWIN_ESRCH (done g).
Definition dispatch_coalition_policy_get : syscall_gate_state -> hostm syscall_gate_state := dispatch_coalition_policy_set.

Definition dispatch_csrctl g : hostm syscall_gate_state :=
  let x := gs_x g in
  if (x 1 =? 0) || (x 2 <? 4) then failed g DARWIN_EFAULT
  else match u32 (x 0) with
  | 0 => done g
  | 1 => do* st 4 (x 1) DARWIN_CSR_VALID_FLAGS in done g
  | _ => failed g DARWIN_EINVAL
  end.
Definition dispatch_mremap_encrypted g : hostm syscall_gate_state :=
  fail_if g (nz (gs_x g 1) && (gs_x g 0 =? 0)) DARWIN_EFAULT (done g).
Definition dispatch_netagent_trigger g : hostm syscall_gate_state :=
  let uuid_length := gs_x g 1 in
  fail_if g (nz uuid_length && (gs_x g 0 =? 0)) DARWIN_EFAULT
    (fail_if g (nz uuid_length && negb (uuid_length =? 16)) DARWIN_EINVAL (done g)).
Definition dispatch_microstackshot g : hostm syscall_gate_state :=
  let size := u32 (gs_x g 1) in
  fail_if g (nz size && (gs_x g 0 =? 0)) DARWIN_EFAULT (do* zero_guest_buffer (gs_x g 0) size in done g).
Definition dispatch_grab_pgo_data g : hostm syscall_gate_state :=
  let size := i64 (gs_x g 3) in
  fail_if g (size <? 0) DARWIN_EINVAL
    (fail_if g (nz size && (gs_x g 2 =? 0)) DARWIN_EFAULT (do* zero_guest_buffer (gs_x g 2) size in done g)).
Definition dispatch_work_interval_ctl g : hostm syscall_gate_state :=
  fail_if g (nz (gs_x g 3) && (gs_x g 2 =? 0)) DARWIN_EFAULT (done g).
Definition dispatch_log_data g : hostm syscall_gate_state :=
  fail_if g (nz (u32 (gs_x g 3)) && (gs_x g 2 =? 0)) DARWIN_EFAULT (done g).
Definition dispatch_map_with_linking_np g : hostm syscall_gate_state :=
  if gs_x g 1 =? 0 then done g else failed g DARWIN_ENOTSUP.
Definition dispatch_record_system_event g : hostm syscall_gate_state := done g.

Definition dispatch_kas_info g : hostm syscall_gate_state :=
  let selector := i32 (gs_x g 0) in
  let value := gs_x g 1 in
  let size := gs_x g 2 in
  if (value =? 0) || (size =? 0) then failed g DARWIN_EFAULT
  else if (selector <? 0) || (DARWIN_KAS_INFO_MAX_SELECTOR <=? selector) then failed g DARWIN_EINVAL
  else
    let* n := ld 8 size in
    if n <? 8 then failed g DARWIN_EINVAL
    else do* st 8 value 0 in do* st 8 size 8 in done g.

(** 348 bytes at [info]: version 0, id 4, type 8, gid 12, gmuid 84, name 88, uid
    344. *)
Definition fill_persona_info_range_400_plus (info : Z) : hostm unit :=
  let* uid := syscall Range000.SYS_getuid [] in
  let* gid := syscall Range000.SYS_getgid [] in
  do* write (memzero info 348) in
  do* st 4 info 2 in
  do* st 4 (info + 4) uid in
  do* st 4 (info + 8) DARWIN_PERSONA_TYPE_DEFAULT in
  do* st 4 (info + 12) gid in
  do* st 4 (info + 84) uid in
  do* st 4 (info + 344) uid in
  read_proc_comm_range_400_plus (info + 88) 256.

Definition dispatch_persona g : hostm syscall_gate_state :=
  let x := gs_x g in
  let info := x 2 in let persona_id := x 3 in let persona_id_count := x 4 in let path := x 5 in
  let* uid := syscall Range000.SYS_getuid [] in
  match u32 (x 0) with
  | 1 | 2 | 3 => failed g DARWIN_EPERM
  | 4 => fail_if g (persona_id =? 0) DARWIN_EFAULT (do* st 4 persona_id uid in done g)
  | 5 | 6 => fail_if g (info =? 0) DARWIN_EFAULT (do* fill_persona_info_range_400_plus info in done g)
  | 7 | 9 =>
      if persona_id_count =? 0 then failed g DARWIN_EFAULT
      else
        let* count := ld 8 persona_id_count in
        do* (if nz persona_id && (0 <? count) then st 4 persona_id uid else hret tt) in
        do* st 8 persona_id_count 1 in
        hret (set_success g 1)
  | 8 => fail_if g (path =? 0) DARWIN_EFAULT (do* st 1 path 0 in done g)
  | _ => failed g DARWIN_EINVAL
  end.

(** ** The dispatcher *)

(** The call is made under the number the other file knows. *)
Definition dispatch_range_200_alias g (target_syscall : Z) : hostm outcome :=
  let original_syscall := gs_x g 16 in
  let g1 := mk_gs (upd (gs_x g) 16 target_syscall) (gs_x30 g) (gs_nzcv g) (gs_pc g) in
  let* r := in_range_200 (range_200_dispatch g1) in
  hret (match snd r with
        | Returned g2 => Returned (mk_gs (upd (gs_x g2) 16 original_syscall) (gs_x30 g2) (gs_nzcv g2) (gs_pc g2))
        | o => o
        end).

(** The cases of the switch up to 423, without the aliases. *)
Definition range_400_calls_a g (next : hostm syscall_gate_state) : hostm syscall_gate_state :=
  let x := gs_x g in
  match x 16 with
  | 400 => dispatch_wait4_single_process g
  | 416 => dispatch_waitid_single_process g
  | 401 => Sockets.dispatch_recvmsg frame g
  | 402 => Sockets.dispatch_sendmsg frame g
  | 403 => Sockets.dispatch_recvfrom frame g
  | 404 => Sockets.dispatch_accept frame g
  | 405 => forward g Range000.SYS_msync [x 0; x 1; i32 (x 2)]
  | 406 => do* set_errno 0 in let* r := Sockets.raw_fcntl (i32 (x 0)) (i32 (x 1)) (x 2) in finish_syscall_result g r
  | 407 => Sockets.dispatch_select frame g
  | 408 => forward g Range000.SYS_fsync [i32 (x 0)]
  | 409 => Sockets.dispatch_connect frame g
  | 410 => dispatch_sigsuspend_nocancel g
  | 411 => forward g Range100.SYS_readv [i32 (x 0); x 1; i32 (x 2)]
  | 412 => let* r := machgate_syscall_writev_no_sigpipe (i32 (x 0)) (x 1) (i32 (x 2)) in finish_syscall_result g r
  | 413 => Sockets.dispatch_sendto frame g
  | 414 => forward g Range100.SYS_pread64 [i32 (x 0); x 1; x 2; i64 (x 3)]
  | 415 => forward g Range100.SYS_pwrite64 [i32 (x 0); x 1; x 2; i64 (x 3)]
  | 417 => do* set_errno 0 in let* r := Sockets.raw_poll frame (x 0) (x 1) (i32 (x 2)) in finish_syscall_result g r
  | 422 => dispatch_sigwait_nocancel g
  | _ => next
  end.

(** From 425 to 459; the guards and the files are elsewhere. *)
Definition range_400_calls_b g (next : hostm syscall_gate_state) : hostm syscall_gate_state :=
  match gs_x g 16 with
  | 425 => dispatch_mac_get_label_range_400_plus g (gs_x g 1)
  | 426 => set_unsupported_feature g
  | 428 => dispatch_audit_session_self g
  | 429 => dispatch_audit_session_join g
  | 430 => dispatch_fileport_makeport g
  | 431 => dispatch_fileport_makefd g
  | 432 => dispatch_audit_session_port g
  | 433 => dispatch_pid_suspend g
  | 434 => dispatch_pid_resume g
  | 435 => dispatch_pid_hibernate g
  | 436 => Sockets.dispatch_pid_shutdown_sockets g
  | 439 => dispatch_kas_info g
  | 440 => dispatch_memorystatus_control g
  | 445 => dispatch_usrctl g
  | 446 => dispatch_proc_rlimit_control g
  | 453 => dispatch_memorystatus_get_level g
  | 447 => Sockets.dispatch_connectx frame g
  | 448 => Sockets.dispatch_disconnectx frame g
  | 449 => failed g DARWIN_ENOTSUP
  | 450 => Sockets.dispatch_socket_delegate g
  | 451 | 454 | 455 => dispatch_success_noop g
  | 452 => dispatch_proc_uuid_policy g
  | 456 => dispatch_sfi_ctl g
  | 457 => dispatch_sfi_pidctl g
  | 458 => dispatch_coalition g
  | 459 => dispatch_coalition_info g
  | _ => next
  end.

(** From 460 to 516. *)
Definition range_400_calls_c g (next : hostm syscall_gate_state) : hostm syscall_gate_state :=
  match gs_x g 16 with
  | 460 => dispatch_necp_match_policy g
  | 478 => dispatch_bsdthread_ctl g
  | 477 => dispatch_proc_trace_log g
  | 483 => dispatch_csrctl g
  | 489 => dispatch_mremap_encrypted g
  | 490 => dispatch_netagent_trigger g
  | 491 => dispatch_success_noop g
  | 492 => dispatch_microstackshot g
  | 493 => dispatch_grab_pgo_data g
  | 494 => dispatch_persona g
  | 480 => Sockets.dispatch_recvmsg_x frame g
  | 481 => Sockets.dispatch_sendmsg_x frame g
  | 496 | 497 | 498 => dispatch_eventlink_missing_port g
  | 499 => dispatch_work_interval_ctl g
  | 482 => done g
  | 500 => dispatch_getentropy g
  | 501 => dispatch_dummy_control_open g
  | 502 => dispatch_necp_client_action g
  | 503 | 504 | 505 | 506 | 507 | 508 | 509 | 510 | 511 | 512 | 513 | 514 => failed g DARWIN_ENOTSUP
  | 515 => Sockets.dispatch_ulock_wait frame g
  | 516 => Sockets.dispatch_ulock_wake g
  | _ => next
  end.

(** From 522 on; the default of the switch for the range. *)
Definition range_400_calls_d g : hostm syscall_gate_state :=
  let x := gs_x g in
  match x 16 with
  | 522 => dispatch_dummy_control_open g
  | 523 => dispatch_necp_session_action g
  | 525 => dispatch_net_qos_guideline g
  | 527 => dispatch_ntp_adjtime g
  | 528 => dispatch_ntp_gettime g
  | 529 => done g
  | 530 => dispatch_kqueue_workloop_ctl g
  | 531 => hret (set_success g (x 0))
  | 532 => dispatch_coalition_ledger g
  | 533 => dispatch_log_data g
  | 535 => dispatch_success_noop g
  | 534 => dispatch_memorystatus_available_memory g
  | 536 => dispatch_shared_region_map_and_slide g
  | 538 | 539 => dispatch_task_port_request g
  | 540 | 542 => forward g SYS_preadv [i32 (x 0); x 1; i32 (x 2); i64 (x 3)]
  | 541 | 543 => forward g SYS_pwritev [i32 (x 0); x 1; i32 (x 2); i64 (x 3)]
  | 544 => Sockets.dispatch_ulock_wait2 frame g
  | 545 => dispatch_proc_info_extended_id g
  | 546 => dispatch_tracker_action g
  | 547 | 548 => dispatch_success_noop g
  | 550 => dispatch_map_with_linking_np g
  | 552 => dispatch_record_system_event g
  | 556 => dispatch_coalition_policy_set g
  | 557 => dispatch_coalition_policy_get g
  | _ => set_deferred_enosys g
  end.

(** The calls of 200 to 399 under another number, and what they are called there. *)
Definition alias_of (nr : Z) : option Z :=
  match nr with 418 => Some 260 | 419 => Some 261 | 420 => Some 271 | 421 => Some 315 | 423 => Some 334 | _ => None end.

Definition range_400_calls g : hostm syscall_gate_state :=
  if bool_decide (In (gs_x g 16) guard_numbers) then guard_calls g
  else if bool_decide (In (gs_x g 16) Files400.file_numbers) then Files400.file_calls frame literal fuel g
  else if bool_decide (In (gs_x g 16) Files400.name_numbers) then Files400.name_calls frame literal g
  else range_400_calls_a g (range_400_calls_b g (range_400_calls_c g (range_400_calls_d g))).

Definition syscall_range_400_plus_dispatch g : hostm (bool * outcome) :=
  if (gs_x g 16 <? 400) || (557 <? gs_x g 16) then hret (false, Returned g)
  else
    let* o := (match alias_of (gs_x g 16) with
               | Some target => dispatch_range_200_alias g target
               | None =>
                   if gs_x g 16 =? 520 then dispatch_terminate_with_payload g
                   else if gs_x g 16 =? 521 then hret (Exited 134)
                   else let* g' := range_400_calls g in hret (Returned g')
               end) in
    hret (true, o).
End calls.

(** ** Every call is answered *)

Import (hints) Calls.
Import (hints) Tables.
Local Abbreviation replied := Calls.replied.
Local Abbreviation sound := Calls.sound.
Local Abbreviation any := Calls.any.

Lemma linux_errno_nonzero e : e <> 0 -> linux_errno_to_darwin e <> 0.
Proof. intros H. unfold linux_errno_to_darwin. repeat (case_match; [lia|]). by repeat case_match. Qed.

Section answers.
Context {K : kernel} (P : Z + Z -> Prop) (Hsound : forall a, sound a -> P a).
Implicit Types g : syscall_gate_state.

Lemma errno_or_eio_true : returns (K:=K) errno_or_eio (fun e => e <> 0).
Proof. unfold errno_or_eio. apply returns_bind. intros e. by apply returns_ret, Calls.nz_default. Qed.
Lemma set_errno_failure_replied g : returns (K:=K) (set_errno_failure g) (replied P g).
Proof.
  unfold set_errno_failure. eapply returns_bind_with; [apply errno_or_eio_true|]. intros e He.
  by apply returns_ret, Calls.replied_failure, Hsound, linux_errno_nonzero.
Qed.
Lemma finish_400_replied g r : returns (K:=K) (finish_syscall_result g r) (replied P g).
Proof. unfold finish_syscall_result. destruct (Z.ltb_spec r 0); [apply set_errno_failure_replied|]. by apply returns_ret, Calls.replied_success, Hsound. Qed.
Lemma forward_400_replied g nr args : returns (K:=K) (forward g nr args) (replied P g).
Proof. unfold forward. do 2 (apply returns_bind; intros ?). apply finish_400_replied. Qed.
End answers.
#[export] Hint Resolve linux_errno_nonzero set_errno_failure_replied finish_400_replied forward_400_replied : reply.

(** With a true error where [errno] is read. *)
Ltac reply :=
  repeat first
    [ match goal with |- returns (hbind errno_or_eio _) _ => eapply returns_bind_with; [apply errno_or_eio_true|intros ? ?] end
    | Calls.reply_step ].

Section replies.
Context {K : kernel} (frame : Z).
Implicit Types g : syscall_gate_state.

Lemma sendmsg_replied n g msg sent : 0 <= sent -> returns (K:=K) (Sockets.sendmsg_loop frame n g msg sent) (replied sound g).
Proof.
  revert sent; induction n as [|n IH]; intros sent Hs; cbn [Sockets.sendmsg_loop]; [by apply returns_ret, Calls.replied_success|].
  assert (Hc : forall m, returns (K:=K) m (replied sound g) -> returns (Sockets.count_or g sent m) (replied sound g)) by (intros m Hm; unfold Sockets.count_or; reply).
  apply returns_bind; intros [?|e]; [|apply returns_bind; intros; apply Hc; reply]. do 2 (apply returns_bind; intros ?).
  destruct (_ <? 0); [apply Hc; reply|apply IH; lia].
Qed.
Lemma recvmsg_replied n g msg received : 0 <= received -> returns (K:=K) (Sockets.recvmsg_loop frame n g msg received) (replied sound g).
Proof.
  revert received; induction n as [|n IH]; intros received Hr; cbn [Sockets.recvmsg_loop]; [by apply returns_ret, Calls.replied_success|].
  assert (Hc : forall m, returns (K:=K) m (replied sound g) -> returns (Sockets.count_or g received m) (replied sound g)) by (intros m Hm; unfold Sockets.count_or; reply).
  cbv zeta. destruct (_ =? 0); [apply Hc; reply|]. apply returns_bind; intros [|]; [apply Hc; reply|]. apply returns_bind; intros result.
  destruct (_ <? 0); [apply Hc; reply|]. do 4 (apply returns_bind; intros ?). case_match; [apply IH; lia|apply returns_bind; intros; apply Hc; reply].
Qed.
Lemma entropy_replied n g buffer size done_ : returns (K:=K) (entropy_loop n g buffer size done_) (replied any g).
Proof. revert done_; induction n as [|n IH]; intros done_; cbn [entropy_loop]; reply. Qed.
Lemma clonefileat_replied fuel g : returns (K:=K) (Files400.dispatch_clonefileat frame fuel g) (replied any g).
Proof.
  unfold Files400.dispatch_clonefileat. cbv zeta. destruct (gs_x g 1 =? 0); [reply|]. do 2 (apply returns_bind; intros ?).
  destruct (_ <? 0); [reply|]. apply returns_bind_with with (Q := replied any g); [reply|]. intros answer Ha. apply returns_bind. intros _.
  by apply returns_ret.
Qed.

Lemma change_fdguard_replied g : returns (K:=K) (dispatch_change_fdguard g) (replied sound g).
Proof.
  unfold dispatch_change_fdguard. cbv zeta. do 2 (apply returns_bind; intros ?). destruct (negb _); [reply|]. do 3 (apply returns_bind; intros ?).
  assert (Ho : forall entry m, match old_guard_error (gs_x g 1) (u32 (gs_x g 2)) entry m with Some e => e <> 0 | None => True end).
  { intros entry m. unfold old_guard_error. destruct entry; repeat match goal with |- context [if ?b then _ else _] => destruct b end; done. }
  match goal with |- context [old_guard_error _ _ ?entry ?m] => specialize (Ho entry m); destruct (old_guard_error _ _ entry m) end; [|clear Ho]; reply.
Qed.

Lemma setattrlistat_replied g : returns (K:=K) (Files400.dispatch_setattrlistat frame g) (replied sound g).
Proof.
  unfold Files400.dispatch_setattrlistat. cbv zeta. destruct (_ =? 0); [reply|]. unfold Files400.validated. apply returns_bind; intros m.
  pose proof (Calls.validate_error (gs_x g 2) (u32 (gs_x g 5)) true m) as He. unfold Files400.attrlist_validate_range_400_plus.
  destruct (Attr.darwin_attr_validate _ _ _ _); reply.
Qed.

Lemma popcount_nonneg n v : 0 <= popcount n v.
Proof. revert v; induction n as [|n IH]; intros v; cbn [popcount]; [done|]. specialize (IH (v .>> 1)). assert (0 <= v .& 1) by (apply Z.land_nonneg; lia). lia. Qed.
Lemma bsdthread_ctl_replied g : returns (K:=K) (dispatch_bsdthread_ctl frame g) (replied sound g).
Proof.
  assert (Hn : returns (K:=K) (host_online_cpu_count frame) (fun n => 0 <= n)).
  { unfold host_online_cpu_count. do 3 (apply returns_bind; intros ?). destruct (_ <? 0); [by apply returns_ret|]. apply returns_bind; intros m. cbv zeta.
    apply returns_ret. assert (Hf : forall l n, 0 <= n -> 0 <= fold_left (fun n i => n + popcount 64 (load 8 (frame + 8 * i) m)) l n).
    { induction l as [|i l IH]; intros n Hn; cbn [fold_left]; [done|]. apply IH. pose proof (popcount_nonneg 64 (load 8 (frame + 8 * i) m)). lia. }
    specialize (Hf (seqZ 0 16) 0 ltac:(lia)). destruct (nz _); lia. }
  assert (Hc : returns (hbind (host_online_cpu_count (K:=K) frame) (fun n => hret (set_success g n))) (replied sound g)).
  { eapply returns_bind_with; [exact Hn|]. intros n H. by apply returns_ret, Calls.replied_success. }
  unfold dispatch_bsdthread_ctl. cbv zeta. revert Hc. generalize (hbind (host_online_cpu_count (K:=K) frame) (fun n => hret (set_success g n))). intros c Hc.
  reply.
Qed.

Lemma available_memory_replied g : returns (K:=K) (dispatch_memorystatus_available_memory frame g) (replied sound g).
Proof.
  unfold dispatch_memorystatus_available_memory. do 3 (apply returns_bind; intros ?). destruct (_ <? 0); [reply|]. do 3 (apply returns_bind; intros ?).
  apply returns_ret, Calls.replied_success. cbn. assert (Hb : forall v u, 0 <= sysinfo_bytes v u).
  { intros v u. unfold sysinfo_bytes. destruct (_ && _); [lia|apply Calls.u64_nonneg]. }
  unfold available_bytes. destruct (_ <? _); [lia|]. pose proof (Hb a2 a4). pose proof (Hb a3 a4). lia.
Qed.

Lemma sigwait_nocancel_replied (sigwait : Z -> kstate K -> (Z + Z) * kstate K) g : (forall set k, Calls.true_error (fst (sigwait set k))) ->
  returns (dispatch_sigwait_nocancel sigwait g) (replied sound g).
Proof.
  intros Hs. unfold dispatch_sigwait_nocancel. cbv zeta. case_match; [reply|]. apply returns_bind; intros set. case_match; [|reply].
  eapply returns_bind_with with (Q := Calls.true_error).
  - intros p. unfold in_kernel. specialize (Hs z (p_kernel p)). by destruct (sigwait z (p_kernel p)).
  - intros [v|e] He; [reply|]. by apply returns_ret, Calls.replied_failure, linux_errno_nonzero.
Qed.

Lemma renameatx_error flags : Calls.true_error (Files400.translate_renameatx_flags flags).
Proof. unfold Files400.translate_renameatx_flags. by repeat match goal with |- context [if ?b then _ else _] => destruct b end. Qed.
Lemma name_calls_replied literal g : returns (K:=K) (Files400.name_calls frame literal g) (replied sound g).
Proof.
  unfold Files400.name_calls. cbv zeta. pose proof (renameatx_error (u32 (gs_x g 4))) as He. revert He.
  generalize (Files400.translate_renameatx_flags (u32 (gs_x g 4))). intros [v|e] He.
  all: match goal with |- returns (match ?z with _ => _ end) _ => destruct z end;
    repeat match goal with |- returns (match ?q with _ => _ end) _ => is_var q; destruct q end; solve [reply].
Qed.
End replies.
#[export] Hint Resolve change_fdguard_replied setattrlistat_replied bsdthread_ctl_replied available_memory_replied name_calls_replied : reply.
#[export] Hint Extern 1 (returns (Sockets.sendmsg_loop _ _ _ _ 0) _) => apply sendmsg_replied; lia : reply.
#[export] Hint Extern 1 (returns (Sockets.recvmsg_loop _ _ _ _ 0) _) => apply recvmsg_replied; lia : reply.

(** The calls whose result may be negative: a negated error number of the ulock
    calls, and the argument that call 531 gives back. *)
Definition negative_400 : list Z := [515; 516; 531; 544].
(** The calls that read a directory or a file, or gather random bytes, to the end. *)
Definition to_the_end_400 : list Z := [427; 461; 462; 476; 500; 517].
Definition settled_400 (g g' : syscall_gate_state) : Prop :=
  replied sound g g' \/ In (gs_x g 16) negative_400 /\ replied Calls.signed g g' \/ In (gs_x g 16) to_the_end_400 /\ replied any g g'.

Lemma settled_400_sound {K} g (m : host statics K syscall_gate_state) : returns m (replied sound g) -> returns m (settled_400 g).
Proof. intros H p. left. apply H. Qed.
Lemma settled_400_negative {K} g (m : host statics K syscall_gate_state) : In (gs_x g 16) negative_400 ->
  returns m (replied Calls.signed g) -> returns m (settled_400 g).
Proof. intros Hn H p. right. left. split; [done|apply H]. Qed.
Lemma settled_400_to_the_end {K} g (m : host statics K syscall_gate_state) : In (gs_x g 16) to_the_end_400 ->
  returns m (replied any g) -> returns m (settled_400 g).
Proof. intros Hn H p. right. right. split; [done|apply H]. Qed.

Section answers.
Context {K : kernel} (frame : Z) (literal : string -> Z) (fuel : nat) (sigwait : Z -> kstate K -> (Z + Z) * kstate K)
  (Hsigwait : forall set k, Calls.true_error (fst (sigwait set k))).
Implicit Types g : syscall_gate_state.

(** The calls that read to the end. *)
Lemma to_the_end_replied g :
  returns (K:=K) (Files400.dispatch_fsgetpath frame literal fuel g) (replied any g) /\
  returns (K:=K) (Files400.dispatch_getattrlistbulk frame fuel g) (replied any g) /\
  returns (K:=K) (Files400.dispatch_clonefileat frame fuel g) (replied any g) /\
  returns (K:=K) (Files400.dispatch_getattrlistat frame literal fuel g) (replied any g) /\
  returns (K:=K) (Files400.dispatch_fclonefileat frame fuel g) (replied any g).
Proof. split_and!; try apply clonefileat_replied; reply. Qed.

Ltac by_number_400 :=
  match goal with |- returns (match ?z with _ => _ end) _ => destruct z eqn:? end;
  repeat match goal with |- returns (match ?q with _ => _ end) _ => is_var q; destruct q end;
  solve [ assumption
        | match goal with E : gs_x _ 16 = _ |- _ => apply settled_400_to_the_end; [rewrite E; vm_compute; tauto|] end;
          first [assumption | reply; apply entropy_replied]
        | match goal with E : gs_x _ 16 = _ |- _ => apply settled_400_negative; [rewrite E; vm_compute; tauto|] end; reply
        | apply settled_400_sound; first [assumption | reply] ].

Lemma guard_calls_replied g : returns (K:=K) (guard_calls g) (settled_400 g).
Proof. unfold guard_calls. by_number_400. Qed.
Lemma file_calls_replied g : returns (K:=K) (Files400.file_calls frame literal fuel g) (settled_400 g).
Proof. pose proof (to_the_end_replied g) as (?&?&?&?&?). unfold Files400.file_calls. by_number_400. Qed.
Lemma calls_400a_replied g next : returns (K:=K) next (settled_400 g) -> returns (range_400_calls_a frame sigwait g next) (settled_400 g).
Proof. intros Hnext. pose proof (sigwait_nocancel_replied sigwait g Hsigwait). unfold range_400_calls_a. cbv zeta. by_number_400. Qed.
Lemma calls_400b_replied g next : returns (K:=K) next (settled_400 g) -> returns (range_400_calls_b frame g next) (settled_400 g).
Proof. intros Hnext. unfold range_400_calls_b. by_number_400. Qed.
Lemma calls_400c_replied g next : returns (K:=K) next (settled_400 g) -> returns (range_400_calls_c frame literal fuel g next) (settled_400 g).
Proof. intros Hnext. unfold range_400_calls_c. by_number_400. Qed.
Lemma calls_400d_replied g : returns (K:=K) (range_400_calls_d frame literal g) (settled_400 g).
Proof. unfold range_400_calls_d. cbv zeta. by_number_400. Qed.

Lemma range_400_replied g : returns (K:=K) (range_400_calls frame literal fuel sigwait g) (settled_400 g).
Proof.
  unfold range_400_calls. repeat case_bool_decide; [apply guard_calls_replied|apply file_calls_replied|apply settled_400_sound, name_calls_replied|].
  apply calls_400a_replied, calls_400b_replied, calls_400c_replied, calls_400d_replied.
Qed.
End answers.

(** The same state of the guest. *)
Definition same_state (g h : syscall_gate_state) : Prop :=
  (forall r, gs_x g r = gs_x h r) /\ gs_x30 g = gs_x30 h /\ gs_nzcv g = gs_nzcv h /\ gs_pc g = gs_pc h.

(** The answer under another number, once the number is put back. *)
Lemma renumbered g g' nr : replied sound (mk_gs (upd (gs_x g) 16 nr) (gs_x30 g) (gs_nzcv g) (gs_pc g)) g' ->
  exists a, sound a /\ same_state (mk_gs (upd (gs_x g') 16 (gs_x g 16)) (gs_x30 g') (gs_nzcv g') (gs_pc g')) (Range200.answered g a).
Proof.
  intros (a & Ha & ->). exists a. split; [done|]. clear Ha. destruct a; (split; [|done]); intros r; cbn; unfold upd;
    destruct (Z.eqb_spec r 0), (Z.eqb_spec r 16); subst; done.
Qed.

Lemma alias_numbers nr target : alias_of nr = Some target ->
  200 <= target <= 399 /\ target <> 380 /\ ~ In target Calls.recorded_200 /\ ~ In target Calls.to_the_end_200.
Proof. unfold alias_of. repeat case_match; intros [= <-]; split_and!; cbn; lia. Qed.

Section dispatch.
Context {K : kernel} (frame : Z) (override : option cstr) (online pages page_size : Z)
  (sigwait : Z -> kstate K -> (Z + Z) * kstate K) (base : Z) (st_flags : bool)
  (shim_kqueue : option (host Range200.statics K Z)) (shim_kevent shim_kevent64 : option (list Z -> host Range200.statics K Z))
  (execve : Z -> Z -> Z -> host Range200.statics K (option Z)) (literal : string -> Z) (fuel : nat) (exe_path : option cstr).
Implicit Types g : syscall_gate_state.

Definition range_200_dispatch : syscall_gate_state -> host Range200.statics K (bool * outcome) :=
  Calls.syscall_range_200_399_dispatch frame override online pages page_size sigwait base st_flags shim_kqueue shim_kevent shim_kevent64
    execve literal fuel exe_path.
Definition dispatch : syscall_gate_state -> host statics K (bool * outcome) :=
  syscall_range_400_plus_dispatch frame literal fuel sigwait range_200_dispatch.

Context (Hsigwait : forall set k, Calls.true_error (fst (sigwait set k))).

Lemma alias_answered g target (p : process statics K) : alias_of (gs_x g 16) = Some target ->
  exists a g', fst (dispatch_range_200_alias range_200_dispatch g target p) = Returned g' /\ sound a /\ same_state g' (Range200.answered g a).
Proof.
  intros Ha. destruct (alias_numbers _ _ Ha) as (Hr & H380 & Hodd & Hend). unfold dispatch_range_200_alias, hbind, in_range_200. cbv zeta.
  set (g1 := mk_gs _ _ _ _). set (q := mk_proc _ _ _ _ _ _ _ _).
  destruct (Calls.dispatch_returned frame override online pages page_size sigwait base st_flags shim_kqueue shim_kevent shim_kevent64
    execve literal fuel exe_path Hsigwait g1 q) as (g' & Hg & [Hrep|[[Hin _]|[Hin _]]]); [exact Hr|exact H380| |done..].
  change (Calls.syscall_range_200_399_dispatch _ _ _ _ _ _ _ _ _ _ _ _ _ _ _ g1 q) with (range_200_dispatch g1 q) in Hg.
  destruct (range_200_dispatch g1 q) as [r q']. cbn in Hg. subst r. cbn.
  destruct (renumbered g g' target Hrep) as (a & Hsa & Hs). by eexists a, _.
Qed.

(** The guest's own process number, as the kernel gives it. *)
Definition own_pid (p : process statics K) : Z := i32 (fst (syscall Range000.SYS_getpid [] p)).

(** What becomes of the guest: terminate_with_payload of itself and
    abort_with_payload end the process; the other calls return. *)
Definition settled_or_exited g (p : process statics K) (o : outcome) : Prop :=
  match o with
  | Exited status =>
      gs_x g 16 = 520 /\ 0 < i32 (gs_x g 0) /\ i32 (gs_x g 0) = own_pid p /\ status = 137 \/
      gs_x g 16 = 521 /\ status = 134
  | Returned g' => exists a, same_state g' (Range200.answered g a) /\
      (sound a \/ In (gs_x g 16) negative_400 /\ Calls.signed a \/ In (gs_x g 16) to_the_end_400)
  | Replaced => False
  end.

(** Every system call from 400 to 557 is answered, and the others are left
    to the end of the gate; the calls that are handed to the code of 200 to 399
    under another number come back with their own number in x16, like every
    other register. *)
Lemma calls_from_400_answered g (p : process statics K) :
  if (gs_x g 16 <? 400) || (557 <? gs_x g 16) then dispatch g p = ((false, Returned g), p)
  else exists o, fst (dispatch g p) = (true, o) /\ settled_or_exited g p o.
Proof.
  unfold dispatch, syscall_range_400_plus_dispatch. destruct (_ || _); [done|]. unfold hbind.
  assert (Hans : forall g', settled_400 g g' -> settled_or_exited g p (Returned g')).
  { intros g' [(a & Ha & ->)|[(Hn & a & Ha & ->)|(Hn & a & _ & ->)]]; exists a; (split; [done|]); auto. }
  destruct (alias_of (gs_x g 16)) as [target|] eqn:Ha.
  - destruct (alias_answered g target p Ha) as (a & g' & Hg & Hsa & Hs). destruct (dispatch_range_200_alias _ _ _ p) as [o q]. cbn in Hg. subst o.
    eexists. split; [done|]. exists a. by split; [|left].
  - destruct (Z.eqb_spec (gs_x g 16) 520) as [H520|_]; [|destruct (Z.eqb_spec (gs_x g 16) 521) as [H521|_]].
    + unfold dispatch_terminate_with_payload, own_pid. cbv zeta. destruct (Z.leb_spec (i32 (gs_x g 0)) 0).
      { eexists. split; [done|]. apply Hans. left. by exists (inr DARWIN_EINVAL). }
      unfold hbind. destruct (syscall Range000.SYS_getpid [] p) as [self q] eqn:Hp. destruct (Z.eqb_spec (i32 (gs_x g 0)) (i32 self)).
      { eexists. split; [done|]. left. unfold own_pid. by rewrite Hp. }
      assert (Hf : returns (K:=K) (forward g Range000.SYS_kill [i32 (gs_x g 0); SIGKILL]) (settled_400 g)) by (apply settled_400_sound; reply).
      specialize (Hf q). destruct (forward _ _ _ q) as [g' q']. eexists. split; [done|]. by apply Hans.
    + eexists. split; [done|]. by right.
    + pose proof (range_400_replied frame literal fuel sigwait Hsigwait g p) as Hr. destruct (range_400_calls _ _ _ _ _ p) as [g' q].
      eexists. split; [done|]. by apply Hans.
Qed.
End dispatch.

(** ** The tables stay consistent *)

Import Tables.

Section keep.
Context {K : kernel} (frame : Z) (literal : string -> Z) (fuel : nat) (sigwait : Z -> kstate K -> (Z + Z) * kstate K).
Implicit Types g : syscall_gate_state.

Lemma sendmsg_keeps n g msg sent : keeps tables (K:=K) (Sockets.sendmsg_loop frame n g msg sent).
Proof. revert sent; induction n as [|n IH]; intros sent; cbn [Sockets.sendmsg_loop]; keeps. Qed.
Lemma recvmsg_keeps n g msg received : keeps tables (K:=K) (Sockets.recvmsg_loop frame n g msg received).
Proof. revert received; induction n as [|n IH]; intros received; cbn [Sockets.recvmsg_loop]; keeps. Qed.
Lemma entropy_keeps n g buffer size done_ : keeps tables (K:=K) (entropy_loop n g buffer size done_).
Proof. revert done_; induction n as [|n IH]; intros done_; cbn [entropy_loop]; keeps. Qed.
Lemma shutdown_keeps n fd level : keeps tables (K:=K) (Sockets.shutdown_loop n fd level).
Proof. revert fd; induction n as [|n IH]; intros fd; cbn [Sockets.shutdown_loop]; keeps. Qed.
Lemma clone_keeps n in_fd out_fd offset : keeps tables (K:=K) (Files400.clone_loop frame n in_fd out_fd offset).
Proof. revert offset; induction n as [|n IH]; intros offset; cbn [Files400.clone_loop]; keeps. Qed.
Lemma entries_keep n fd attrlist buffer size lb result offset s :
  keeps tables (K:=K) (Files400.for_entries n lb result offset (Files400.attrlistbulk_body frame fuel fd attrlist buffer size) s).
Proof. revert offset s; induction n as [|n IH]; intros offset s; cbn [Files400.for_entries]; keeps. Qed.
End keep.
#[export] Hint Resolve sendmsg_keeps recvmsg_keeps entropy_keeps shutdown_keeps clone_keeps entries_keep : keeps.

(** One case of a switch over the call number. *)
Ltac keeps_by_number :=
  match goal with |- keeps _ (match ?z with _ => _ end) => destruct z eqn:? end;
  repeat match goal with |- keeps _ (match ?q with _ => _ end) => is_var q; destruct q end;
  solve [ assumption | keeps ].

Section invariant.
Context {K : kernel} (frame : Z) (literal : string -> Z) (fuel : nat) (sigwait : Z -> kstate K -> (Z + Z) * kstate K).
Implicit Types g : syscall_gate_state.

Lemma file_calls_keep g : keeps tables (K:=K) (Files400.file_calls frame literal fuel g).
Proof. unfold Files400.file_calls. keeps_by_number. Qed.
Lemma name_calls_keep g : keeps tables (K:=K) (Files400.name_calls frame literal g).
Proof. unfold Files400.name_calls. cbv zeta. keeps_by_number. Qed.

(** Guards and workloops are finite maps: no descriptor has two guards, no
    identifier two workloops; no two entries have the same port. *)
Definition consistent (s : statics) : Prop :=
  (exists G, guards_are (fd_guard_entries s) G) /\ (exists W, workloops_are (kqueue_workloop_entries s) W) /\ ports_are (fileport_entries s).
Definition stays {A} (m : host statics K A) : Prop := forall p, consistent (p_vm p) -> consistent (p_vm (snd (m p))).

Lemma keeps_stays {A} (m : host statics K A) : keeps tables m -> stays m.
Proof.
  intros Hm p Hp. specialize (Hm p). unfold tables in Hm. injection Hm as Hf Hg Hw. unfold consistent. by rewrite Hf, Hg, Hw.
Qed.

Lemma guard_calls_keep g : keeps (fun s => (fileport_entries s, kqueue_workloop_entries s)) (K:=K) (guard_calls g).
Proof. unfold guard_calls. keeps_by_number. Qed.
Lemma makeport_keep g : keeps (fun s => (fd_guard_entries s, kqueue_workloop_entries s)) (K:=K) (dispatch_fileport_makeport g).
Proof. keeps. Qed.
Lemma workloop_ctl_keep g : keeps (fun s => (fileport_entries s, fd_guard_entries s)) (K:=K) (dispatch_kqueue_workloop_ctl g).
Proof. keeps. Qed.

Context (Heventfd : eventfd_keeps_memory K).

Lemma guard_calls_stay g : In (gs_x g 16) guard_numbers -> stays (guard_calls g).
Proof.
  intros Hx p ((G & HG) & HW & HP). pose proof (guard_calls_give G (p_mem p, p_kernel p) (p_errno p) g Hx p HG eq_refl eq_refl) as H.
  pose proof (guard_calls_keep g p) as Hk. destruct (guard_spec _ _ _) as [[a G'] w']. destruct (guard_calls g p) as [g' p']. destruct H as (_ & HG' & _).
  injection Hk as Hf Hw. split; [by exists G'|]. cbn in Hf, Hw |- *. by rewrite Hf, Hw.
Qed.
Lemma makeport_stays g : stays (dispatch_fileport_makeport g).
Proof.
  intros p (HG & HW & HP). pose proof (makeport_keep g p) as Hk. injection Hk as Hg Hw. unfold consistent. rewrite Hg, Hw.
  split; [done|]. split; [done|]. by apply makeport_keeps.
Qed.
Lemma workloop_ctl_stays g : stays (dispatch_kqueue_workloop_ctl g).
Proof.
  intros p (HG & (W & HW) & HP). destruct (kqueue_workloops_refine Heventfd g p W HW) as (a & W' & _ & _ & HW').
  pose proof (workloop_ctl_keep g p) as Hk. injection Hk as Hf Hg. unfold consistent. rewrite Hf, Hg. split; [done|]. split; [by exists W'|done].
Qed.

Ltac stays_by_number :=
  match goal with |- stays (match ?z with _ => _ end) => destruct z eqn:? end;
  repeat match goal with |- stays (match ?q with _ => _ end) => is_var q; destruct q end;
  solve [ assumption | apply makeport_stays | apply workloop_ctl_stays | apply keeps_stays; keeps ].

Lemma calls_b_stay g next : stays next -> stays (range_400_calls_b frame g next).
Proof. intros Hnext. unfold range_400_calls_b. stays_by_number. Qed.
Lemma calls_d_stay g : stays (range_400_calls_d frame literal g).
Proof. unfold range_400_calls_d. cbv zeta. stays_by_number. Qed.

Lemma calls_a_stay g next : stays next -> stays (range_400_calls_a frame sigwait g next).
Proof. intros Hnext. unfold range_400_calls_a. cbv zeta. stays_by_number. Qed.
Lemma calls_c_stay g next : stays next -> stays (range_400_calls_c frame literal fuel g next).
Proof. intros Hnext. unfold range_400_calls_c. stays_by_number. Qed.

Lemma calls_stay g : stays (range_400_calls frame literal fuel sigwait g).
Proof.
  unfold range_400_calls. repeat case_bool_decide;
    [by apply guard_calls_stay|apply keeps_stays, file_calls_keep|apply keeps_stays, name_calls_keep|].
  apply calls_a_stay, calls_b_stay, calls_c_stay, calls_d_stay.
Qed.

Lemma dispatch_stays range_200_dispatch g : stays (syscall_range_400_plus_dispatch frame literal fuel sigwait range_200_dispatch g).
Proof.
  intros p Hp. unfold syscall_range_400_plus_dispatch. destruct (_ || _); [done|]. unfold hbind at 1.
  assert (Ho : stays (match alias_of (gs_x g 16) with
    | Some target => dispatch_range_200_alias range_200_dispatch g target
    | None => if gs_x g 16 =? 520 then dispatch_terminate_with_payload g
              else if gs_x g 16 =? 521 then hret (Exited 134)
              else hbind (range_400_calls frame literal fuel sigwait g) (fun g' => hret (Returned g'))
    end)).
  { destruct (alias_of _); [apply keeps_stays; keeps|]. destruct (_ =? 520); [apply keeps_stays; keeps|]. destruct (_ =? 521); [by intros q|].
    intros q Hq. unfold hbind. pose proof (calls_stay g q Hq) as H. by destruct (range_400_calls _ _ _ _ _ q). }
  specialize (Ho p Hp). by destruct (_ p) as [o q].
Qed.
End invariant.

(** The states a guest can reach by calls from 400 on, whatever it and other
    calls do to memory, kernel and the rest of the statics in between. *)
Inductive reachable {K : kernel} (dispatch : syscall_gate_state -> host statics K (bool * outcome)) : process statics K -> Prop :=
  | reach_start p : tables (p_vm p) = tables statics_initial -> reachable dispatch p
  | reach_call g p : reachable dispatch p -> reachable dispatch (snd (dispatch g p))
  | reach_other p q : reachable dispatch p -> tables (p_vm q) = tables (p_vm p) -> reachable dispatch q.

(** C15. Whatever calls a guest makes, the tables stay consistent: the guards are
    a map from descriptors of at most 1024 entries, the workloops one from
    identifiers of at most 64, and each entry of the file ports is free or has
    the port of its place, so that no two entries have the same. *)
Theorem tables_stay_consistent {K : kernel} frame literal fuel sigwait range_200_dispatch (p : process statics K) :
  eventfd_keeps_memory K ->
  reachable (syscall_range_400_plus_dispatch frame literal fuel sigwait range_200_dispatch) p -> consistent (p_vm p).
Proof.
  intros He. induction 1 as [p Hp|g p Hp IH|p q Hp IH Hq].
  - unfold consistent. unfold tables in Hp. injection Hp as -> -> ->. split; [|split].
    + exists ∅. apply guards_initial.
    + exists ∅. apply workloops_initial.
    + apply ports_initial.
  - by apply (dispatch_stays frame literal fuel sigwait He).
  - unfold consistent. unfold tables in Hq. injection Hq as -> -> ->. exact IH.
Qed.

Lemma tables_stay_consistent_witness :
  consistent (p_vm (snd (syscall_range_400_plus_dispatch 0x10000 (fun _ => 0) 8 (fun _ k => (inr EINVAL, k)) (fun g => hret (true, Returned g))
    (registers [(16, 443); (0, 0x100); (1, 2)]) (process_with statics_initial two_values)))).
Proof.
  apply (tables_stay_consistent (K:=open_kernel) 0x10000 (fun _ => 0) 8 (fun _ k => (inr EINVAL, k)) (fun g => hret (true, Returned g))).
  - done.
  - apply reach_call, reach_start. reflexivity.
Defined.
End Calls400.
