(* ===== verification/GateWhole.v ===== *)
(** * The whole gate: src/syscall/syscall_gate.c with the four ranges

    [syscall_gate_dispatch] with the dispatchers of syscall_range_000_099.c,
    syscall_range_100_199.c, syscall_range_200_399.c and
    syscall_range_400_plus.c in place: whatever number a guest calls, it is
    answered. *)

From S2P Require Import Prelude CStr Host GuestVm GateIsland GateDispatch GateTheorems Range000 Range000Theorems Range100 Range200 Range200Calls Execve Range100Theorems Range400 Range400Tables Range400Calls.
Import Gate Dispatch.

Module Whole.

(** ** One process *)

(** The gate knows the statics of guest_vm_track.c only; the statics of the
    calls from 200 on lie beside the kernel, which does not see them. *)
Definition beside (K : kernel) : kernel := {|
  kstate := Range400.statics * kstate K;
  k_syscall nr args m s := let '(r, m, k) := k_syscall K nr args m (snd s) in (r, m, (fst s, k));
  k_fstat fd s := let '(r, k) := k_fstat K fd (snd s) in (r, (fst s, k));
  k_statfs path s := let '(r, k) := k_statfs K path (snd s) in (r, (fst s, k));
  k_mounts s := let '(r, k) := k_mounts K (snd s) in (r, (fst s, k));
  k_sigpending s := let '(r, k) := k_sigpending K (snd s) in (r, (fst s, k));
  k_sigaltstack new s := let '(r, k) := k_sigaltstack K new (snd s) in (r, (fst s, k));
|}.

(** Code with the statics of the calls from 200 on, run in the process of the
    gate. *)
Definition outward {K A} (m : host Range400.statics K A) : host guest_vm_table (beside K) A := fun p =>
  let '(a, q) := m (mk_proc (snd (p_kernel p)) (p_errno p) (p_actions p) (p_mask p) (p_mem p) (fst (p_kernel p)) (p_login p) (p_first_pid p)) in
  (a, mk_proc (K:=beside K) (p_vm q, p_kernel q) (p_errno q) (p_actions q) (p_mask q) (p_mem q) (p_vm p) (p_login q) (p_first_pid q)).

(** The process such code sees. *)
Definition inward {K} (p : process guest_vm_table (beside K)) : process Range400.statics K :=
  mk_proc (snd (p_kernel p)) (p_errno p) (p_actions p) (p_mask p) (p_mem p) (fst (p_kernel p)) (p_login p) (p_first_pid p).

Lemma outward_result {K A} (m : host Range400.statics K A) p : fst (outward m p) = fst (m (inward p)).
Proof. unfold outward, inward. by destruct (m _). Qed.
Lemma outward_unchanged {K A} (m : host Range400.statics K A) a p : m (inward p) = (a, inward p) -> outward m p = (a, p).
Proof. intros H. unfold outward. fold (inward p). rewrite H. destruct p as [k ? ? ? ? ? ? ?]. cbn in *. by destruct k. Qed.
Lemma in_range_200_result {K A} (m : host Range200.statics K A) p : exists q, fst (Range400.in_range_200 m p) = fst (m q).
Proof.
  unfold Range400.in_range_200. match goal with |- exists _, fst (let '(_, _) := m ?q in _) = _ => exists q end. by destruct (m _).
Qed.

Section gate.
(** The parameters of the four files: [frame] and [exec_frame], the locals whose
    address goes to the kernel; what the C library knows of the machine; the
    functions of the shim that may be there. *)
Context {K : kernel} (frame exec_frame exec_statics exe_path environ : Z) (fuel : nat) (literal : string -> Z) (malloc : Z -> Z) (empty_string : Z)
  (override : option cstr) (online pages page_size : Z) (sigwait : Z -> kstate K -> (Z + Z) * kstate K) (base : Z) (st_flags : bool)
  (shim_kqueue : option (host Range200.statics K Z)) (shim_kevent shim_kevent64 : option (list Z -> host Range200.statics K Z))
  (exe : option cstr).
Implicit Types (g : syscall_gate_state).

Local Abbreviation execve := (Execve.machgate_execve_macho_guest exec_frame exec_statics exe_path environ fuel literal).

Definition calls_200_to_399 : syscall_gate_state -> host Range200.statics K (bool * outcome) :=
  Calls.syscall_range_200_399_dispatch frame override online pages page_size sigwait base st_flags shim_kqueue shim_kevent shim_kevent64
    execve literal fuel exe.
Definition calls_400_to_557 : syscall_gate_state -> host Range400.statics K (bool * outcome) :=
  Calls400.dispatch frame override online pages page_size sigwait base st_flags shim_kqueue shim_kevent shim_kevent64
    execve literal fuel exe.

Definition whole_ranges : @ranges (beside K) := {|
  Dispatch.syscall_range_000_099_dispatch := Range000.syscall_range_000_099_dispatch frame execve;
  Dispatch.syscall_range_100_199_dispatch := Range100.syscall_range_100_199_dispatch frame malloc empty_string;
  Dispatch.syscall_range_200_399_dispatch g := outward (Range400.in_range_200 (calls_200_to_399 g));
  Dispatch.syscall_range_400_plus_dispatch g := outward (calls_400_to_557 g);
|}.

Local Abbreviation gate := (syscall_gate_dispatch whole_ranges).

(** The guest's own process number, as the kernel gives it. *)
Definition own_pid (p : process guest_vm_table (beside K)) : Z := i32 (fst (syscall Range000.SYS_getpid [] p)).

(** The calls whose result may be negative: a nice value, a limit that does not
    exist, the recorded result of an aio request, a negated error number of
    ulock, and the argument that 531 gives back. *)
Definition signed_results : list Z := signed_calls ++ Calls.recorded_200 ++ Calls400.negative_400.
(** The calls that read a directory or a file, or gather random bytes, to the
    end: of these the model makes as many steps as [fuel] says. *)
Definition to_the_end : list Z := Calls.to_the_end_200 ++ Calls400.to_the_end_400.

(** What the guest finds after the call [g] in [p]. *)
Definition call_answered g (p : process guest_vm_table (beside K)) (o : outcome) : Prop :=
  match o with
  | Exited status =>
      gs_x g 16 = 1 /\ status = i32 (gs_x g 0) \/
      gs_x g 16 = 520 /\ 0 < i32 (gs_x g 0) /\ i32 (gs_x g 0) = own_pid p /\ status = 137 \/
      gs_x g 16 = 521 /\ status = 134
  | Replaced => In (gs_x g 16) [59; 380]
  | Returned g' =>
      settled g g' \/ (In (gs_x g 16) signed_results /\ exists v, answer g g' false v) \/ (gs_x g 16 = 42 /\ pipe_answer g g') \/
      (In (gs_x g 16) to_the_end /\ exists failed v, answer g g' failed v)
  end.

Lemma answered_answers g a : exists failed v, answer g (Range200.answered g a) failed v.
Proof. destruct a; eexists _, _; [apply answer_success|apply answer_failure]. Qed.
Lemma sound_settled g a : Calls.sound a -> settled g (Range200.answered g a).
Proof. destruct a; intros Ha; [by apply settled_success|by apply settled_failure]. Qed.
Lemma signed_answers g a : Calls.signed a -> settled g (Range200.answered g a) \/ exists v, answer g (Range200.answered g a) false v.
Proof. destruct a as [v|e]; intros Ha; [right; exists v; apply answer_success|left; by apply settled_failure]. Qed.
Lemma same_answers g g' h failed v : Calls400.same_state g' h -> answer g h failed v -> answer g g' failed v.
Proof.
  intros (Hx & H30 & Hn & Hp) []. split; rewrite ?Hx, ?H30, ?Hn, ?Hp; try done. intros r Hr. rewrite Hx. auto.
Qed.
Lemma same_settled g g' h : Calls400.same_state g' h -> settled g h -> settled g g'.
Proof. intros Hs [(v & Hv & H)|(e & He & H)]; [left; exists v|right; exists e]; (split; [done|]); by eapply same_answers. Qed.

Lemma gate_answers g p o : gate_answer g o -> call_answered g p o.
Proof.
  intros [H|(g' & -> & [H|[Hn [v H]]])]; [|by left|right; left; split; [|by exists v]; apply in_or_app; by left].
  destruct o as [status|g'|]; cbn -[settled pipe_answer] in *; [by left| |by left]. tauto.
Qed.

(** The dispatchers leave the calls of the others to them. *)
Lemma low_ranges_decline g p : 200 <= gs_x g 16 ->
  Dispatch.syscall_range_000_099_dispatch whole_ranges g p = ((false, Returned g), p) /\
  Dispatch.syscall_range_100_199_dispatch whole_ranges g p = ((false, Returned g), p).
Proof.
  intros Hn. cbn. unfold Range000.syscall_range_000_099_dispatch, Range100.syscall_range_100_199_dispatch.
  destruct (Z.ltb_spec 99 (gs_x g 16)), (Z.ltb_spec 199 (gs_x g 16)); try lia. by rewrite orb_true_r.
Qed.

Lemma execve_error {V} path argv envp : returns (V:=V) (K:=K) (execve path argv envp) (fun r => r <> Some 0).
Proof. apply Execve.execve_nonzero. Qed.

(** From 200 on the gate asks the last two dispatchers. *)
Lemma gate_from_200 g p : 200 <= gs_x g 16 ->
  gate g p = try_range (Dispatch.syscall_range_200_399_dispatch whole_ranges) g (fun g =>
             try_range (Dispatch.syscall_range_400_plus_dispatch whole_ranges) g (fun g =>
             hret (Returned (set_failure g DARWIN_ENOSYS)))) p.
Proof.
  intros Hn. rewrite gate_to_ranges.
  - unfold try_range at 1, hbind at 1. destruct (low_ranges_decline g p Hn) as [H0 H1]. rewrite H0.
    unfold try_range at 1, hbind at 1. by rewrite H1.
  - cbn. unfold DARWIN_SYS_exit, DARWIN_SYS_read, DARWIN_SYS_write, DARWIN_SYS_open, DARWIN_SYS_close, DARWIN_SYS_munmap, DARWIN_SYS_mprotect,
      DARWIN_SYS_fstat, DARWIN_SYS_mmap, DARWIN_SYS_lseek. lia.
Qed.

Lemma range_200_declines g p : 399 < gs_x g 16 -> Dispatch.syscall_range_200_399_dispatch whole_ranges g p = ((false, Returned g), p).
Proof.
  intros Hn. cbn. apply outward_unchanged. unfold Range400.in_range_200, inward. cbn.
  unfold calls_200_to_399, Calls.syscall_range_200_399_dispatch. destruct (Z.ltb_spec 399 (gs_x g 16)); [|lia]. rewrite orb_true_r.
  cbn. by destruct (p_kernel p) as [[] ?].
Qed.
Lemma range_200_answers (Hsigwait : forall set k, Calls.true_error (fst (sigwait set k))) g p : 200 <= gs_x g 16 <= 399 ->
  exists o, fst (Dispatch.syscall_range_200_399_dispatch whole_ranges g p) = (true, o) /\ call_answered g p o.
Proof.
  intros Hn. cbn. rewrite outward_result. destruct (in_range_200_result (calls_200_to_399 g) (inward p)) as [q ->].
  pose proof (Calls.calls_200_to_399 frame override online pages page_size sigwait base st_flags shim_kqueue shim_kevent shim_kevent64
    execve literal fuel exe Hsigwait execve_error g q) as H. cbv zeta in H.
  destruct (Z.ltb_spec (gs_x g 16) 200), (Z.ltb_spec 399 (gs_x g 16)); try lia. cbn [orb] in H.
  destruct H as (o & Ho & H). exists o. split; [exact Ho|].
  destruct H as [[-> H380]|(g' & -> & [(a & Ha & ->)|[(Hin & a & Ha & ->)|(Hin & a & _ & ->)]])].
  - cbn. rewrite H380. tauto.
  - left. by apply sound_settled.
  - destruct (signed_answers g a Ha); [by left|]. right; left. split; [|done]. apply in_or_app; right. apply in_or_app. by left.
  - right; right; right. split; [apply in_or_app; by left|apply answered_answers].
Qed.

Lemma range_400_declines g p : 557 < gs_x g 16 -> Dispatch.syscall_range_400_plus_dispatch whole_ranges g p = ((false, Returned g), p).
Proof.
  intros Hn. cbn. apply outward_unchanged. unfold calls_400_to_557, Calls400.dispatch, Calls400.syscall_range_400_plus_dispatch.
  destruct (Z.ltb_spec 557 (gs_x g 16)); [|lia]. by rewrite orb_true_r.
Qed.
Lemma own_pid_inward p : Calls400.own_pid (inward p) = own_pid p.
Proof. unfold Calls400.own_pid, own_pid, syscall, inward. cbn. by destruct (k_syscall K _ _ _ _) as [[[v|e] m] k]. Qed.
Lemma range_400_answers (Hsigwait : forall set k, Calls.true_error (fst (sigwait set k))) g p : 400 <= gs_x g 16 <= 557 ->
  exists o, fst (Dispatch.syscall_range_400_plus_dispatch whole_ranges g p) = (true, o) /\ call_answered g p o.
Proof.
  intros Hn. cbn. rewrite outward_result.
  pose proof (Calls400.calls_from_400_answered frame override online pages page_size sigwait base st_flags shim_kqueue shim_kevent shim_kevent64
    execve literal fuel exe Hsigwait g (inward p)) as H.
  destruct (Z.ltb_spec (gs_x g 16) 400), (Z.ltb_spec 557 (gs_x g 16)); try lia. cbn [orb] in H.
  destruct H as (o & Ho & H). exists o. split; [exact Ho|]. destruct o as [status|g'|]; cbn -[settled In signed_results to_the_end] in H |- *; [|..|done].
  - right. by rewrite own_pid_inward in H.
  - destruct H as (a & Hs & [Ha|[[Hin Ha]|Hin]]).
    + left. by eapply same_settled, sound_settled.
    + destruct (signed_answers g a Ha) as [H|[v H]]; [left; by eapply same_settled|right; left]. split; [|exists v; by eapply same_answers].
      unfold signed_results. rewrite !in_app_iff. auto.
    + right; right; right. split; [unfold to_the_end; rewrite in_app_iff; auto|]. destruct (answered_answers g a) as (failed & v & Ha). exists failed, v. by eapply same_answers.
Qed.

(** A dispatcher that handles the call ends the search. *)
Lemma try_range_handled d g next p o : fst (d g p) = (true, o) -> fst (try_range (K:=beside K) d g next p) = o.
Proof. unfold try_range, hbind. destruct (d g p) as [r q]. cbn. by intros ->. Qed.
Lemma try_range_declined d g next p : d g p = ((false, Returned g), p) -> try_range (K:=beside K) d g next p = next g p.
Proof. unfold try_range, hbind. by intros ->. Qed.

End gate.

(** The process of the witnesses: a guest whose number is 5. *)
Definition start : process guest_vm_table (beside Tables.open_kernel) :=
  mk_proc (K:=beside Tables.open_kernel) (Range400.statics_initial, tt) 0 (fun _ => default_action) 0 (fun _ => 0) [] [] 1.
Definition plain_gate : syscall_gate_state -> host guest_vm_table (beside Tables.open_kernel) outcome :=
  syscall_gate_dispatch (whole_ranges (K:=Tables.open_kernel) 0x10000 0x100000 0x900000 0 0 8 (fun _ => 0x800000) (fun _ => 0x90000) 0x9000 None 4 1000 4096
    (fun _ k => (inr EINVAL, k)) 0x200000 true None None None None).
Definition calling (l : list (Z * Z)) : syscall_gate_state := Tables.registers l.

End Whole.
